(* ===== verification/_CoqProject ===== *)
-Q . S2P
Prelude.v
Turns.v
Search.v
Bytes.v
Errors.v
PageFormat.v
Slotted.v
SlottedSpec.v
SlottedRefine.v
SlottedCompact.v
SlottedTrace.v
Mvcc.v
MvccOutcomes.v
MvccSpec.v
MvccTheorems.v
Ranges.v
Wal.v
WalScan.v
WalLog.v
WalTheorems.v
GroupCommit.v
PageStore.v
PageStoreSpec.v
Superblock.v
Allocator.v
AllocatorTheorems.v
Migration.v
Recovery.v
RecoveryTheorems.v
Checkpoint.v
Pager.v
Pool.v
PoolShard.v
PoolSpec.v
PoolAccess.v
PoolPager.v
PoolSteps.v
PoolInvariants.v
PoolRuns.v
PoolTheorems.v
StoreReopen.v
PoolFrees.v
Overflow.v
OverflowSpec.v
Keys.v
BTreeNode.v
BTreeNodeSpec.v
BTreeSplit.v
BTree.v
BTreeTheory.v
BTreeOps.v
BTreeInsert.v
BTreeCursor.v
BTreeTheorems.v
TreeReopen.v
BTreeClient.v
OverflowTheorems.v
Catalog.v
Heap.v
CatalogSpec.v
CatalogTheorems.v
HeapPage.v
HeapSpec.v
HeapValues.v
HeapScan.v
HeapTheorems.v
RootMoves.v
Paged.v
Versions.v
Isolation.v
PagedPages.v
PagedChains.v
PagedSpec.v
PagedScan.v
PagedTheorems.v
IsolationTheorems.v
Consensus.v
Cluster.v
ClusterTheorems.v
Resp.v
