(* ===== verification/Prelude.v ===== *)
(** * BicDB: verification of the page store, of consensus and of RESP

    This library verifies the storage engine under BicDB's server mode, the
    crate [crates/bicdb-page]: fixed-size pages in a file, a bounded cache of
    them, a write-ahead log, transaction outcomes, and the structures built on
    pages; and, beside it, the consensus log that replicates commits between
    nodes ([crates/bicdb-core/src/consensus.rs] and the loop that drives it) and
    the wire protocol of the Redis-style server ([crates/bicdb-resp/src/resp.rs]).
    Definitions translate the Rust sources; theorems state what the rest of the
    database relies on.

    ** How the code is modelled

    A Rust call is a value of [res] (it returns, reports an error, or panics),
    a method on [&mut self] a function of [st], which keeps the state after an
    error.  Integers are [Z] with wrap-around, saturation and truncation written
    out where the source has them; bytes are lists of [Z]; a slice index out of
    range, [unwrap] on [None] and a failed conversion are [Panic].  Maps and sets
    are stdpp's [gmap] and [gset].  The only code from outside the repository is
    the checksum of [crc32fast], a section variable [crc32] assumed to return 32
    bits; the write-back barrier of the pool ([before_writeback]) and the
    iteration order of its hash maps ([hash_order]) are variables too.  Witnesses
    instantiate them ([byte_sum], [demo_barrier], [demo_order]).

    ** The parts, from the bytes up

    - [Prelude], [Turns], [Search], [Bytes], [Errors]: outcomes and monads,
      loops without a bound, machine widths, slices, little-endian fields, binary
      search; [error.rs].
    - [PageFormat]: [page.rs], the page header, checksum and trailer.
    - [Slotted]: [slotted.rs], heap pages with a slot directory; its invariant
      and refinement in [SlottedSpec], [SlottedRefine], [SlottedCompact], the
      lifetime of tuple locators in [SlottedTrace].
    - [Mvcc]: [mvcc.rs], the transaction table, snapshots, visibility, freezing
      and recovered outcomes; theorems in [MvccOutcomes], [MvccSpec],
      [MvccTheorems].
    - [Wal], [Ranges], [GroupCommit]: [wal.rs], the log, its commit index and its
      concurrent group commit; framing in [WalScan], the log as a list of records
      in [WalLog], guarantees in [WalTheorems].
    - [PageStore]: [manager.rs] and [pio.rs], page addressing, the superblock, the
      allocator with its free list, extent migration; [PageStoreSpec],
      [Superblock], [Allocator], [AllocatorTheorems], [Migration].
    - [Recovery], [RecoveryTheorems], [Checkpoint]: replay of the log into the
      store and the publication of a redo point ([wal.rs]).
    - [Pager]: the interface through which page clients use the pool, as a class
      of operations and classes of laws (keeping pages, publishing a root, freeing
      pages).  With some pages set apart the laws hold of the rest, so that a
      structure on pages is a pager for the next one.
    - [Pool]: [pool.rs], the sharded buffer pool: four queues per shard, eviction
      by cache class, write-back behind the barrier, guards, bounded write-back
      and read-ahead.  [PoolShard], [PoolSpec], [PoolAccess], [PoolSteps] follow
      its invariant through every operation; [PoolPager] discharges the laws of
      [Pager], [PoolFrees] those of freeing when the log manages frees;
      [PoolInvariants] holds what survives any failure; [PoolRuns] and
      [PoolTheorems] are about whole conversations with the pool.
    - [Keys], [BTreeNode], [BTree]: [btree.rs], keys, nodes and the tree over
      [Pager]; [BTreeNodeSpec] and [BTreeSplit] relate a node's bytes to a sorted
      list, [BTreeTheory] is the abstract tree with its descents as zippers,
      [BTreeOps], [BTreeInsert] and [BTreeCursor] prove each operation against the
      laws, [BTreeTheorems] states the contract, [BTreeClient] what the catalog
      uses of it.
    - [Overflow]: [overflow.rs], values in chains of linked pages, through the
      pool and on the store; [OverflowSpec], [OverflowTheorems].
    - [Catalog]: [catalog.rs], the page directory, free-space classes and
      generation floors in one tree; [CatalogSpec] relates the tree's keys to
      three tables, [CatalogTheorems] states the contract.
    - [Heap]: [heap.rs], values behind tuple locators, inline or in chains, placed
      through the catalog, a ring of candidate pages or a new page.  [HeapPage] is
      one page with its history, [HeapSpec] the placing of tuples, [HeapValues]
      the map from locators to values, [HeapScan] the scan, [HeapTheorems] the
      contract, with two evaluated runs in which the free-space map overstates a
      page's room.
    - [Paged]: [paged.rs], rows as chains of versions in the heap behind an index,
      the meta page with the roots, transactions, puts, deletes, reads and scans.
      [Versions] is what it implements: a list of versions per key and the
      transaction table, nothing of pages.  [RootMoves] follows the root flags of
      the trees, [PagedPages] sets the meta page, the index and the heap apart in
      one pool and proves the meta page, [PagedChains] the chain walks,
      [PagedSpec] each call, [PagedScan] scans and opening, [PagedTheorems] the
      contract on the buffer pool.
    - [Isolation]: rows against the log of their writes; [IsolationTheorems]:
      snapshot reads and lost updates on the store, and the revival of a deleted
      row.
    - [StoreReopen], [TreeReopen]: closing the files and opening
      them again, from the superblock up to the tree.
    - [Consensus]: [consensus.rs], one node of the replicated log of commit
      frames, its configuration, state and calls.  [Cluster] puts such nodes
      under the driver threads of [consensus run] ([crates/bicdb-cli/src/main.rs])
      and a network that keeps every request and answer, and follows the
      invariant that ties every log to what the leaders wrote; [ClusterTheorems]
      states what a cluster guarantees and plays two runs in which it does not.
      It shares [Prelude] with the page store and nothing else: a commit frame is
      opaque to it.
    - [Resp]: [resp.rs], the reader of commands and the writers of replies, over
      the bytes a stream will deliver.

    ** What is proved

    - Formats: encoding and decoding of pages, version headers and log records
      are inverse; torn and corrupted pages and records are rejected.
    - Slotted pages: each operation refines a list of slots; a locator is never
      valid for a later tuple; compaction loses nothing; the page's type is an
      invariant of every sequence of calls.
    - MVCC: a snapshot sees a fixed set of transactions; freezing keeps every
      outcome; a double-read of a status is stable under writers.
    - Log: what was appended is what is scanned after a torn write; acknowledged
      commits survive a crash under any interleaving of group commit.
    - Store: live pages are never handed out again; repair leaves a sound free
      list; migration finishes and changes no page; a reopened store is the one
      that was flushed.
    - Recovery: exactly the committed images are replayed; a checkpoint that
      truncates the log loses nothing.
    - Pool: a client cannot tell it from a map of pages, whatever is evicted; it
      stays in its budget; a class evicts only from its own queues; no page
      reaches the file before its log record, whatever fails; write-back drains.
    - Tree: a finite map in key order through splits, removals and scans in both
      directions, of height at most 64, and the same map after a restart.
    - Chains, catalog, heap: a chain gives back its value and freeing it restores
      the pool; the catalog answers from its tables; the heap file is a list of
      values for any client that keeps its locators, with or without a catalog,
      and never touches the pages of others.
    - Paged store: it is a table of versioned rows, from opening an empty file on;
      a read or scan under a snapshot returns the last write the snapshot sees,
      and of two transactions that wrote one row and were not rolled back one had
      committed before the other began, for a client that does not write over a
      row another transaction deleted.  Without that, a deleted row can come back,
      which is proved too.
    - Consensus: a term has one leader, and logs with a common entry have a common
      past, under any loss, delay, duplication and restart.  When a node stops
      sending once it has lost the lead, entries accepted by half of the members
      are in the log of every later leader, and clusters of up to four members
      commit and apply the same entries.  The code does not stop a round when the
      lead is lost, and counts entries a follower has of its own; runs of three
      and of five members that commit different entries are proved reachable.

    - RESP: commands written one after the other are read back as they were,
      whatever bytes they carry; on any input the reader does not panic, makes
      progress, and returns no more and no longer arguments than its limits.

    ** Fuel and bounds

    Loops over finite data are structural.  [freeze_loop], [walk_free_list],
    [search_loop] and the eviction turns take the bound the source has or implies
    and are proved never to exhaust it; so does [apply_loop], whose turns are the
    gap between what is applied and what is committed.  The loops over leaves, chains and
    pages that the source leaves unbounded take a number of turns; the theorems
    give a number that is enough for every larger one ([settles]).  Page ids and
    log positions are bounded by [U64]; theorems that allocate assume the file
    stays addressable, and count the pages a call may take generously (65 for a
    tree insertion, whose height is at most 64).  The heap file's contract is about runs of fewer than 2^32 calls,
    after which a 32-bit slot generation may wrap.  A
    cluster is followed as long as no term reaches the largest [u64], where
    [saturating_add] would repeat it, and no log outgrows a [Vec].

    ** What is not modelled

    Concurrency inside the pool and the store (their mutexes make each call one
    step; group commit and double-locked status reads are modelled as
    interleavings), the operating system below positioned reads and writes,
    counters and timings, backup snapshots, extent tracking, the directory lock,
    tiered storage, read-only page sources, the bounded structural verifier of
    the tree, of the paged store the logging and flushing of a commit's pages (the
    pages freed by a transaction stay in the pool's cache when they are adopted
    by the free list, which the pool's invariant excludes), vacuum, checkpoints,
    the status spill and the cell backups; of consensus the timers, the sockets
    and certificates, the writing of the state file (a call persists before it
    answers, so that a restart finds the node as it answered; a write that fails
    is left out), changes of membership, and the metadata and range consensus of
    the distributed cluster; and the other crates: the SQL engine, the network
    servers above RESP, the rest of the core engine and the application runtime use pages
    only through the paged store and are dominated by parsing, protocols and
    third-party libraries. *)

From stdpp Require Import base tactics list numbers gmap sorting.
From Stdlib Require Import ZArith Lia.

#[export] Set Default Goal Selector "!".

Declare Scope bic_scope.
Delimit Scope bic_scope with bic.
Local Open Scope Z_scope.
Local Open Scope bic_scope.

(** ** Outcomes of Rust code *)

(** A Rust call returns, reports an error of type [E], or panics (slice index
    out of range, [unwrap] on [None], ...). *)
Inductive res (E A : Type) : Type :=
| Val (a : A)
| Err (e : E)
| Panic.
Arguments Val {E A} a.
Arguments Err {E A} e.
Arguments Panic {E A}.

Definition res_bind {E A B} (m : res E A) (k : A -> res E B) : res E B :=
  match m with
  | Val a => k a
  | Err e => Err e
  | Panic => Panic
  end.

(** Methods that take [&mut self]: the state survives an error return, because
    the caller still owns the object. *)
Definition st (E S A : Type) : Type := S -> res E A * S.

Definition st_ret {E S A} (a : A) : st E S A := fun s => (Val a, s).
Definition st_fail {E S A} (e : E) : st E S A := fun s => (Err e, s).
Definition st_panic {E S A} : st E S A := fun s => (Panic, s).
Definition st_bind {E S A B} (m : st E S A) (k : A -> st E S B) : st E S B :=
  fun s =>
    match m s with
    | (Val a, s') => k a s'
    | (Err e, s') => (Err e, s')
    | (Panic, s') => (Panic, s')
    end.
(** A [&self] method called from a [&mut self] one. *)
Definition reads {E S A} (f : S -> res E A) : st E S A := fun s => (f s, s).
(** A pure update of the state. *)
Definition modify {E S} (f : S -> S) : st E S unit := fun s => (Val tt, f s).
Definition gets {E S A} (f : S -> A) : st E S A := fun s => (Val (f s), s).
Definition st_lift {E S A} (r : res E A) : st E S A := fun s => (r, s).

Arguments st_bind {E S A B} m k s /.
Arguments st_ret {E S A} a s /.
Arguments st_fail {E S A} e s /.
Arguments st_panic {E S A} s /.
Arguments reads {E S A} f s /.
Arguments modify {E S} f s /.
Arguments gets {E S A} f s /.
Arguments st_lift {E S A} r s /.

Notation "'let!' x := m 'in' k" := (res_bind m (fun x => k))
  (at level 10, x pattern, m at level 99, k at level 200) : bic_scope.
Notation "'do' x <- m ;; k" := (st_bind m (fun x => k))
  (at level 10, x pattern, m at level 99, k at level 200) : bic_scope.
Notation "m ;;; k" := (st_bind m (fun _ => k))
  (at level 100, right associativity) : bic_scope.

(** [Result::ok]: an error becomes [None]; a panic still unwinds. *)
Definition ok_of {E A} (m : res E A) : res E (option A) :=
  match m with
  | Val a => Val (Some a)
  | Err _ => Val None
  | Panic => Panic
  end.

(** [iter.filter_map(f).collect()] and [iter.find(p)] for closures that may
    panic. *)
Fixpoint filter_mapM {E A B} (f : A -> res E (option B)) (l : list A) : res E (list B) :=
  match l with
  | [] => Val []
  | x :: l' =>
      let! o := f x in
      let! r := filter_mapM f l' in
      Val (match o with Some y => y :: r | None => r end)
  end.

Fixpoint findM {E A} (f : A -> res E bool) (l : list A) : res E (option A) :=
  match l with
  | [] => Val None
  | x :: l' =>
      let! b := f x in
      if b : bool then Val (Some x) else findM f l'
  end.

(** A [for] loop over a list with a body that threads the state. *)
Fixpoint forM {E S A} (f : A -> st E S unit) (l : list A) : st E S unit :=
  match l with
  | [] => st_ret tt
  | x :: l' => f x ;;; forM f l'
  end.

Lemma filter_mapM_pure {E A B} (f : A -> res E (option B)) (g : A -> option B) l :
  (forall x, x ∈ l -> f x = Val (g x)) -> filter_mapM f l = Val (omap g l).
Proof.
  induction l as [|x l IH]; intros H; [done|].
  cbn. rewrite (H x) by set_solver. rewrite IH by set_solver.
  cbn. by destruct (g x).
Qed.

Lemma findM_pure {E A} (f : A -> res E bool) (g : A -> bool) l :
  (forall x, x ∈ l -> f x = Val (g x)) ->
  findM f l = Val (snd <$> list_find (fun x => g x = true) l).
Proof.
  induction l as [|x l IH]; intros H; [done|].
  cbn. rewrite (H x) by set_solver. cbn.
  destruct (decide (g x = true)) as [Hx|Hx].
  - by rewrite Hx.
  - destruct (g x); [done|]. rewrite IH by set_solver.
    by destruct (list_find _ l) as [[]|].
Qed.

(** ** Machine integers *)

Definition U16 : Z := 65536.
Definition U32 : Z := 4294967296.
Definition U64 : Z := 18446744073709551616.
Definition u64_max : Z := U64 - 1.

Definition is_u8 (v : Z) : Prop := 0 <= v < 256.
Definition is_u16 (v : Z) : Prop := 0 <= v < U16.
Definition is_u32 (v : Z) : Prop := 0 <= v < U32.
Definition is_u64 (v : Z) : Prop := 0 <= v < U64.

(** [a.saturating_sub(b)] and [a.saturating_add(b)] on [u64]/[usize]. *)
Definition sat_sub (a b : Z) : Z := Z.max 0 (a - b).
Definition sat_add (a b : Z) : Z := Z.min u64_max (a + b).

Ltac widths := unfold is_u8, is_u16, is_u32, is_u64, sat_sub, sat_add, u64_max, U16, U32, U64 in *.

(** ** Text *)

(** [str::trim_start] on UTF-8 bytes: leading characters with the Unicode
    White_Space property are dropped.  The longer encodings are those of U+0085,
    U+00A0, U+1680, U+2000..U+200A, U+2028, U+2029, U+202F, U+205F and U+3000. *)
Fixpoint skip_space (l : list Z) : list Z :=
  match l with
  | [] => []
  | a :: r =>
      if ((9 <=? a) && (a <=? 13)) || (a =? 32) then skip_space r else
      match r with
      | [] => l
      | b :: r =>
          if (a =? 0xC2) && ((b =? 0x85) || (b =? 0xA0)) then skip_space r else
          match r with
          | [] => l
          | c :: r =>
              if ((a =? 0xE1) && (b =? 0x9A) && (c =? 0x80))
                 || ((a =? 0xE2) && (b =? 0x80)
                     && (((0x80 <=? c) && (c <=? 0x8A)) || (c =? 0xA8) || (c =? 0xA9) || (c =? 0xAF)))
                 || ((a =? 0xE2) && (b =? 0x81) && (c =? 0x9F))
                 || ((a =? 0xE3) && (b =? 0x80) && (c =? 0x80))
              then skip_space r else l
          end
      end
  end.

(** ** Integer ranges [a..b] *)

Definition rangeZ (a b : Z) : list Z := seqZ a (b - a).

Lemma elem_of_rangeZ x a b : x ∈ rangeZ a b <-> a <= x < b.
Proof. unfold rangeZ. rewrite elem_of_seqZ. lia. Qed.

(** Distinct numbers below [n]. *)
Lemma distinct_bound (l : list Z) n :
  1 <= n -> NoDup l -> Forall (fun p => 0 < p < n) l -> Z.of_nat (length l) <= n - 1.
Proof.
  intros Hn Hnd Hr.
  assert (Hs : l ⊆+ seqZ 1 (n - 1)).
  { apply NoDup_submseteq; [done|]. intros p Hp. rewrite Forall_forall in Hr. specialize (Hr p Hp).
    apply elem_of_seqZ. lia. }
  apply submseteq_length in Hs. rewrite length_seqZ in Hs. lia.
Qed.

(** ** Decisions and automation *)

Create HintDb bic.
Create Rewrite HintDb bic.

(** Turn the boolean tests the source writes into propositions. *)
Ltac bools :=
  repeat match goal with
  | H : (_ && _)%bool = true |- _ => apply andb_true_iff in H; destruct H
  | H : (_ || _)%bool = false |- _ => apply orb_false_iff in H; destruct H
  | H : (_ <? _) = true |- _ => apply Z.ltb_lt in H
  | H : (_ <? _) = false |- _ => apply Z.ltb_ge in H
  | H : (_ <=? _) = true |- _ => apply Z.leb_le in H
  | H : (_ <=? _) = false |- _ => apply Z.leb_gt in H
  | H : (_ =? _) = true |- _ => apply Z.eqb_eq in H
  | H : (_ =? _) = false |- _ => apply Z.eqb_neq in H
  | H : negb _ = true |- _ => apply negb_true_iff in H
  | H : negb _ = false |- _ => apply negb_false_iff in H
  | H : bool_decide _ = true |- _ => apply bool_decide_eq_true in H
  | H : bool_decide _ = false |- _ => apply bool_decide_eq_false in H
  end.

(** Split on the next test of the code in the goal or a hypothesis. *)
Ltac split_if :=
  match goal with
  | |- context [if ?b then _ else _] => destruct b eqn:?
  | H : context [if ?b then _ else _] |- _ => destruct b eqn:?
  end; bools.

(** Split a conjunction, leaving records alone. *)
Ltac ands := repeat match goal with |- _ /\ _ => split end.

(** Compute through the binds of a model, leaving the calls. *)
Ltac run :=
  cbn [res_bind st_bind st_ret st_fail st_panic reads modify gets st_lift ok_of fst snd].
Ltac run_in H :=
  cbn [res_bind st_bind st_ret st_fail st_panic reads modify gets st_lift ok_of fst snd] in H.
