(* ===== verification/Turns.v ===== *)
(** * Loops with a number of turns

    A loop whose length the source does not bound takes a number of turns and
    panics when they run out.  [refined m1 m2] orders such runs by how far they
    get; a function is [steady] when more turns never change an outcome, and it
    [settles] when from some number of turns on it has one outcome. *)

From stdpp Require Import base tactics list numbers.
From Stdlib Require Import Lia.
From S2P Require Import Prelude.
Local Open Scope bic_scope.

Section Turns.
Context {E S : Type}.

(** [m2] ends as [m1] does, unless [m1] panics. *)
Definition refined {A} (m1 m2 : st E S A) : Prop := forall s, fst (m1 s) <> Panic -> m2 s = m1 s.

#[global] Instance refined_preorder {A} : PreOrder (@refined A).
Proof. split; [by intros m s|]. intros m1 m2 m3 H1 H2 s Hs. by rewrite H2, H1 by (rewrite ?H1; done). Qed.

Lemma refined_panic {A} (m : st E S A) : refined st_panic m.
Proof. by intros s []. Qed.

Lemma refined_bind {A C} (m1 m2 : st E S A) (k1 k2 : A -> st E S C) :
  refined m1 m2 -> (forall a, refined (k1 a) (k2 a)) -> refined (st_bind m1 k1) (st_bind m2 k2).
Proof.
  intros Hm Hk s. unfold st_bind. destruct (m1 s) as [[a|e|] s'] eqn:E1; intros Hs; cbn in Hs; [|rewrite (Hm s); rewrite E1; done..|done].
  rewrite (Hm s) by (by rewrite E1). rewrite E1. by apply Hk.
Qed.

Definition steady {A} (m : nat -> st E S A) : Prop := forall t, refined (m t) (m (1 + t)).

Lemma steady_const {A} (m : st E S A) : steady (fun _ => m).
Proof. by intros t. Qed.

Lemma steady_bind {A C} (m : nat -> st E S A) (k : nat -> A -> st E S C) :
  steady m -> (forall a, steady (fun t => k t a)) -> steady (fun t => st_bind (m t) (k t)).
Proof. intros Hm Hk t. apply refined_bind; [apply Hm|]. intros a. apply (Hk a). Qed.

Lemma steady_le {A} (m : nat -> st E S A) t t' : steady m -> t <= t' -> refined (m t) (m t').
Proof. intros Hm Hle. induction Hle as [|t' Hle IH]; [done|]. etrans; [exact IH|apply Hm]. Qed.

(** From some number of turns on, [m] started in [s] ends with [r] in [s']. *)
Definition settles {A} (m : nat -> st E S A) (s : S) (r : res E A) (s' : S) : Prop :=
  exists enough, forall turns, enough <= turns -> m turns s = (r, s').

Lemma steady_settles {A} (m : nat -> st E S A) t s r s' : steady m -> m t s = (r, s') -> r <> Panic -> settles m s r s'.
Proof. intros Hm E1 Hr. exists t. intros turns Ht. rewrite (steady_le m t turns Hm Ht); [done|]. by rewrite E1. Qed.

Lemma settles_const {A} (m : st E S A) s r s' : m s = (r, s') -> settles (fun _ => m) s r s'.
Proof. intros H. by exists 0. Qed.

Lemma settles_bind {A C} (m : nat -> st E S A) (k : nat -> A -> st E S C) s a s1 r s2 :
  settles m s (Val a) s1 -> settles (fun t => k t a) s1 r s2 -> settles (fun t => st_bind (m t) (k t)) s r s2.
Proof.
  intros [e1 H1] [e2 H2]. exists (e1 + e2). intros t Ht. unfold st_bind. rewrite H1 by lia. apply H2. lia.
Qed.

Lemma settles_bind_err {A C} (m : nat -> st E S A) (k : nat -> A -> st E S C) s e s1 :
  settles m s (Err e) s1 -> settles (fun t => st_bind (m t) (k t)) s (Err e) s1.
Proof. intros [e1 H1]. exists e1. intros t Ht. unfold st_bind. by rewrite H1. Qed.

(** A first step with any outcome. *)
Lemma settles_then {A C} (m : nat -> st E S A) (k : nat -> A -> st E S C) s r1 s1 r s2 :
  settles m s r1 s1 ->
  match r1 with
  | Val a => settles (fun t => k t a) s1 r s2
  | Err e => r = Err e /\ s2 = s1
  | Panic => r = Panic /\ s2 = s1
  end -> settles (fun t => st_bind (m t) (k t)) s r s2.
Proof.
  intros Hm. destruct r1 as [a|e|]; [by apply settles_bind|..]; intros [-> ->]; [by apply settles_bind_err|].
  destruct Hm as [e1 H1]. exists e1. intros t Ht. unfold st_bind. by rewrite H1.
Qed.

Lemma settles_ext {A} (m m' : nat -> st E S A) s r s' : (forall t, m t = m' t) -> settles m' s r s' -> settles m s r s'.
Proof. intros He [e1 H1]. exists e1. intros t Ht. rewrite He. by apply H1. Qed.

(** The first step does not depend on the turns. *)
Lemma settles_step {A C} (m : st E S A) (k : nat -> A -> st E S C) s a s1 r s2 :
  m s = (Val a, s1) -> settles (fun t => k t a) s1 r s2 -> settles (fun t => st_bind m (k t)) s r s2.
Proof. intros H1 H2. eapply (settles_bind (fun _ => m)); [by apply settles_const|exact H2]. Qed.

(** A loop that takes a turn. *)
Lemma settles_turn {A} (m : nat -> st E S A) s r s' :
  settles m s r s' -> settles (fun t => match t with O => st_panic | Datatypes.S t' => m t' end) s r s'.
Proof. intros [e1 H1]. exists (Datatypes.S e1). intros [|t] Ht; [lia|]. apply H1. lia. Qed.
End Turns.

(** Prove [refined] along the binds of a loop. *)
Ltac refines :=
  repeat first
    [ done | apply refined_panic | assumption
    | apply refined_bind; [|intros ?]
    | match goal with
      | |- refined (if ?b then _ else _) _ => destruct b
      | |- refined (match ?x with _ => _ end) _ => destruct x
      end ].
