(* ===== verification/Search.v ===== *)
(** * Sorted vectors

    The slice routines of the Rust standard library that BicDB uses on sorted
    vectors: [binary_search_by], [partition_point] and [sort_unstable], with
    their specifications.  The search is the halving loop of [core::slice]. *)

From stdpp Require Import base tactics list numbers sorting.
From Stdlib Require Import ZArith Lia.
From S2P Require Import Prelude.

Section BinarySearch.
Context {A : Type} (f : A -> comparison) (l : list A).

(** The loop: [size] halves until one candidate is left; [fuel] bounds it. *)
Fixpoint bs_loop (fuel base size : nat) : nat :=
  match fuel with
  | O => base
  | S fuel' =>
      if (size <=? 1)%nat then base
      else
        let half := (size / 2)%nat in
        let mid := (base + half)%nat in
        let base' := match l !! mid with
                     | Some x => match f x with Gt => base | _ => mid end
                     | None => base
                     end in
        bs_loop fuel' base' (size - half)
  end.

(** [Ok(index)] is [inl], [Err(insertion point)] is [inr]. *)
Definition binary_search_by : nat + nat :=
  match l with
  | [] => inr 0%nat
  | _ =>
      let base := bs_loop (length l) 0 (length l) in
      match f <$> l !! base with
      | Some Eq => inl base
      | Some Lt => inr (base + 1)%nat
      | _ => inr base
      end
  end.

(** The comparator sees the vector as [Lt* Eq* Gt*]. *)
Definition ordered_for : Prop :=
  forall i j x y, (i <= j)%nat -> l !! i = Some x -> l !! j = Some y ->
    (f x = Gt -> f y = Gt) /\ (f y = Lt -> f x = Lt).

Hypothesis Hord : ordered_for.

Lemma bs_loop_spec fuel : forall base size,
  (size <= fuel)%nat -> (1 <= size)%nat -> (base + size <= length l)%nat ->
  (forall j x, (base + size <= j)%nat -> l !! j = Some x -> f x = Gt) ->
  (base = 0%nat \/ exists x, l !! base = Some x /\ f x <> Gt) ->
  let b := bs_loop fuel base size in
  (b < length l)%nat /\
  (forall j x, (b < j)%nat -> l !! j = Some x -> f x = Gt) /\
  (b = 0%nat \/ exists x, l !! b = Some x /\ f x <> Gt).
Proof.
  induction fuel as [|fuel IH]; intros base size Hf H1 Hl Hhi Hlo; cbn [bs_loop]; [lia|].
  destruct (Nat.leb_spec size 1) as [Hs|Hs].
  - assert (size = 1)%nat as -> by lia. ands; [lia| |done].
    intros j x Hj. apply Hhi. lia.
  - assert (Hh : (1 <= size / 2 < size)%nat).
    { split; [apply Nat.div_le_lower_bound|apply Nat.div_lt]; lia. }
    destruct (l !! (base + size / 2)%nat) as [x|] eqn:Hx.
    2:{ apply lookup_ge_None in Hx. lia. }
    destruct (f x) eqn:Hfx; apply IH; try lia.
    + intros j y Hj. apply Hhi. lia.
    + right. exists x. split; [done|by rewrite Hfx].
    + intros j y Hj. apply Hhi. lia.
    + right. exists x. split; [done|by rewrite Hfx].
    + intros j y Hj Hy. assert (base + size / 2 <= j)%nat as Hm.
      { pose proof (Nat.div_mod_eq size 2). pose proof (Nat.mod_upper_bound size 2). lia. }
      by destruct (Hord _ _ _ _ Hm Hx Hy) as [H _]; auto.
    + done.
Qed.

Lemma binary_search_by_spec :
  match binary_search_by with
  | inl i => exists x, l !! i = Some x /\ f x = Eq
  | inr i => (i <= length l)%nat /\
      forall j x, l !! j = Some x -> f x = if (j <? i)%nat then Lt else Gt
  end.
Proof.
  unfold binary_search_by. destruct l as [|y l'] eqn:El; [split; [cbn; lia|done]|].
  rewrite <- El in *. assert (0 < length l)%nat by (rewrite El; cbn; lia). clear El y l'.
  destruct (bs_loop_spec (length l) 0 (length l)) as (Hb&Hhi&Hlo); auto; try lia.
  { intros j x Hj Hx%lookup_lt_Some. lia. }
  set (b := bs_loop _ _ _) in *. destruct (lookup_lt_is_Some_2 l b Hb) as [x Hx]. rewrite Hx. change (f <$> Some x) with (Some (f x)).
  destruct (f x) eqn:Hfx.
  - by exists x.
  - split; [lia|]. intros j y Hy. destruct (Nat.ltb_spec j (b + 1)) as [Hj|Hj].
    + by destruct (Hord j b y x) as [_ ?]; [lia|done|done|auto].
    + apply (Hhi j); [lia|done].
  - destruct Hlo as [Hb0|(z&Hz&Hfz)]; [|congruence]. split; [lia|]. intros j y Hy.
    rewrite Hb0 in *. destruct (Nat.ltb_spec j 0) as [?|_]; [lia|].
    by destruct (Hord 0 j x y) as [? _]; [lia|done|done|auto].
Qed.
End BinarySearch.

(** [partition_point(pred)]. *)
Definition partition_point {A} (pred : A -> bool) (l : list A) : nat :=
  match binary_search_by (fun x => if pred x then Lt else Gt) l with
  | inl i | inr i => i
  end.

Lemma partition_point_spec {A} (pred : A -> bool) l :
  (forall i j x y, (i <= j)%nat -> l !! i = Some x -> l !! j = Some y ->
     pred y = true -> pred x = true) ->
  (partition_point pred l <= length l)%nat /\
  forall j x, l !! j = Some x -> pred x = (j <? partition_point pred l)%nat.
Proof.
  intros Hp. unfold partition_point.
  pose proof (binary_search_by_spec (fun x => if pred x then Lt else Gt) l) as H.
  destruct (binary_search_by _ l) as [i|i].
  - destruct H as (x&_&Hx); [|by destruct (pred x)].
    intros i1 j1 x y Hij Hx Hy. specialize (Hp i1 j1 x y Hij Hx Hy).
    destruct (pred x), (pred y); try done. by specialize (Hp eq_refl).
  - destruct H as [Hi H]; [|split; [done|]].
    + intros i1 j1 x y Hij Hx Hy. specialize (Hp i1 j1 x y Hij Hx Hy).
      destruct (pred x), (pred y); try done. by specialize (Hp eq_refl).
    + intros j x Hx. specialize (H j x Hx). by destruct (pred x), (j <? i)%nat.
Qed.

(** A boolean test as a relation. *)
Definition rel_of {A} (leb : A -> A -> bool) : relation A := fun x y => leb x y = true.
#[export] Instance rel_of_dec {A} (leb : A -> A -> bool) x y : Decision (rel_of leb x y).
Proof. unfold rel_of. apply _. Defined.

(** [sort_unstable] for an order given as a boolean test: the sorted
    permutation (unique when the order is antisymmetric). *)
Definition sort_by {A} (leb : A -> A -> bool) (l : list A) : list A := merge_sort (rel_of leb) l.

Lemma sort_by_perm {A} (leb : A -> A -> bool) l : sort_by leb l ≡ₚ l.
Proof. apply merge_sort_Permutation. Qed.

Lemma sort_by_sorted {A} (leb : A -> A -> bool) l :
  (forall x y, leb x y = true \/ leb y x = true) ->
  (forall x y z, leb x y = true -> leb y z = true -> leb x z = true) ->
  StronglySorted (rel_of leb) (sort_by leb l).
Proof.
  intros Ht Htr. apply StronglySorted_merge_sort.
  - intros x y z. apply Htr.
  - intros x y. apply Ht.
Qed.

(** [dedup]: drop every element equal to the one kept before it. *)
Fixpoint dedup_from {A} (eqb : A -> A -> bool) (prev : option A) (l : list A) : list A :=
  match l with
  | [] => []
  | x :: l' =>
      if match prev with Some y => eqb x y | None => false end
      then dedup_from eqb prev l'
      else x :: dedup_from eqb (Some x) l'
  end.
Definition dedup {A} (eqb : A -> A -> bool) (l : list A) : list A := dedup_from eqb None l.

Lemma StronglySorted_lookup {A} (R : relation A) l : forall (i j : nat) x y,
  StronglySorted R l -> (i < j)%nat -> l !! i = Some x -> l !! j = Some y -> R x y.
Proof.
  induction l as [|z l IH]; intros [|i] [|j] x y Hs Hij Hx Hy; try (done || lia).
  - apply StronglySorted_inv in Hs as [_ Hz]. injection Hx as <-. cbn in Hy.
    by apply (Forall_lookup_1 _ _ _ _ Hz Hy).
  - apply StronglySorted_inv in Hs as [Hs _]. apply (IH i j); auto; lia.
Qed.
