(* ===== verification/Bytes.v ===== *)
(** * Byte buffers

    [u8] slices are lists of [Z] in [0, 256).  The file models the standard
    library's [to_le_bytes]/[from_le_bytes], their big-endian counterparts,
    slice indexing and [copy_from_slice], and carries the lemmas about
    overlapping and disjoint windows that every on-disk format uses. *)

From stdpp Require Import base tactics list numbers.
From Stdlib Require Import ZArith Lia.
From S2P Require Import Prelude.
Local Open Scope Z_scope.
Local Open Scope bic_scope.

Abbreviation bytes := (list Z).

Definition bytes_ok (l : bytes) : Prop := Forall is_u8 l.

Definition blen (l : bytes) : Z := Z.of_nat (length l).

(** [vec![0u8; n]]. *)
Definition zeros (n : Z) : bytes := replicate (Z.to_nat n) 0.

(** [v.to_le_bytes()] at [n] bytes, [from_le_bytes]. *)
Fixpoint le_enc (n : nat) (v : Z) : bytes :=
  match n with
  | O => []
  | S n' => v mod 256 :: le_enc n' (v / 256)
  end.

Fixpoint le_dec (l : bytes) : Z :=
  match l with
  | [] => 0
  | b :: l' => b + 256 * le_dec l'
  end.

Definition be_enc (n : nat) (v : Z) : bytes := rev (le_enc n v).
Definition be_dec (l : bytes) : Z := le_dec (rev l).

(** The window [l[at..at+n]]. *)
Definition sub (l : bytes) (at_ n : Z) : bytes :=
  take (Z.to_nat n) (drop (Z.to_nat at_) l).

(** [l] with the bytes from [at_] on replaced by [v]. *)
Definition patch (l : bytes) (at_ : Z) (v : bytes) : bytes :=
  take (Z.to_nat at_) l ++ v ++ drop (Z.to_nat at_ + length v) l.

(** [&l[a..b]]: panics unless [a <= b <= l.len()]. *)
Definition slice {E} (l : bytes) (a b : Z) : res E bytes :=
  if (0 <=? a) && (a <=? b) && (b <=? blen l) then Val (sub l a (b - a)) else Panic.

(** [l[a..a + v.len()].copy_from_slice(v)]. *)
Definition copy_at {E} (a : Z) (v : bytes) : st E bytes unit :=
  fun l => if (0 <=? a) && (a + blen v <=? blen l) then (Val tt, patch l a v) else (Panic, l).

(** [l[a..b].fill(0)]. *)
Definition fill0 {E} (a b : Z) : st E bytes unit :=
  fun l => if (0 <=? a) && (a <=? b) && (b <=? blen l)
           then (Val tt, patch l a (zeros (b - a))) else (Panic, l).

(** Little-endian fields at a fixed offset. *)
Definition u16_at (l : bytes) (a : Z) : Z := le_dec (sub l a 2).
Definition u32_at (l : bytes) (a : Z) : Z := le_dec (sub l a 4).
Definition u64_at (l : bytes) (a : Z) : Z := le_dec (sub l a 8).

(** [uN::from_le_bytes(l[a..a + N/8].try_into().unwrap())]. *)
Definition read_le {E} (n : Z) (l : bytes) (a : Z) : res E Z :=
  let! s := slice l a (a + n) in Val (le_dec s).

(** ** Lengths *)

Lemma length_le_enc n v : length (le_enc n v) = n.
Proof. revert v; induction n; intros; cbn; auto. Qed.

Lemma length_be_enc n v : length (be_enc n v) = n.
Proof. unfold be_enc. by rewrite length_rev, length_le_enc. Qed.

Lemma blen_le_enc n v : blen (le_enc n v) = Z.of_nat n.
Proof. unfold blen. by rewrite length_le_enc. Qed.

Lemma blen_zeros n : 0 <= n -> blen (zeros n) = n.
Proof. intros. unfold blen, zeros. rewrite length_replicate. lia. Qed.

Lemma blen_nonneg l : 0 <= blen l.
Proof. unfold blen. lia. Qed.

Lemma blen_app l1 l2 : blen (l1 ++ l2) = blen l1 + blen l2.
Proof. unfold blen. rewrite length_app. lia. Qed.

Lemma blen_sub l a n : 0 <= a -> 0 <= n -> a + n <= blen l -> blen (sub l a n) = n.
Proof. intros. unfold blen, sub in *. rewrite length_take, length_drop. lia. Qed.

Lemma blen_patch l a v : 0 <= a -> a + blen v <= blen l -> blen (patch l a v) = blen l.
Proof.
  intros. unfold blen, patch in *.
  rewrite !length_app, length_take, length_drop. lia.
Qed.

(** ** Codecs *)

Lemma le_dec_enc n v : le_dec (le_enc n v) = v mod 2 ^ (8 * Z.of_nat n).
Proof.
  revert v; induction n as [|n IH]; intros v; cbn [le_enc le_dec].
  - by rewrite Z.mul_0_r, Z.pow_0_r, Z.mod_1_r.
  - rewrite IH. replace (8 * Z.of_nat (S n)) with (8 + 8 * Z.of_nat n) by lia.
    rewrite Z.pow_add_r by lia. change (2 ^ 8) with 256.
    rewrite Z.rem_mul_r by (try apply Z.pow_pos_nonneg; lia). lia.
Qed.

Lemma le_dec_bound l : bytes_ok l -> 0 <= le_dec l < 2 ^ (8 * blen l).
Proof.
  unfold blen. induction 1 as [|b l Hb _ IH]; cbn [le_dec length].
  - cbn. lia.
  - replace (8 * Z.of_nat (S (length l))) with (8 + 8 * Z.of_nat (length l)) by lia.
    rewrite Z.pow_add_r by lia. change (2 ^ 8) with 256. widths. lia.
Qed.

Lemma le_enc_ok n v : bytes_ok (le_enc n v).
Proof.
  revert v; induction n; intros v; cbn; constructor; [|apply IHn].
  widths. apply Z.mod_pos_bound. lia.
Qed.

Lemma le_enc_dec l : bytes_ok l -> le_enc (length l) (le_dec l) = l.
Proof.
  induction 1 as [|b l Hb _ IH]; cbn [le_dec length le_enc]; [done|]. widths.
  rewrite (Z.mul_comm 256), Z_mod_plus_full, Z.mod_small by lia.
  rewrite Z.div_add, Z.div_small, Z.add_0_l by lia. by rewrite IH.
Qed.

Lemma le_dec_inj l1 l2 :
  bytes_ok l1 -> bytes_ok l2 -> length l1 = length l2 -> le_dec l1 = le_dec l2 -> l1 = l2.
Proof.
  intros H1 H2 Hl E. rewrite <- (le_enc_dec l1), <- (le_enc_dec l2) by done.
  by rewrite E, Hl.
Qed.

Lemma be_dec_enc n v : be_dec (be_enc n v) = v mod 2 ^ (8 * Z.of_nat n).
Proof. unfold be_dec, be_enc. by rewrite rev_involutive, le_dec_enc. Qed.

Lemma be_enc_ok n v : bytes_ok (be_enc n v).
Proof. unfold be_enc, bytes_ok. apply List.Forall_rev, le_enc_ok. Qed.

Lemma zeros_ok n : bytes_ok (zeros n).
Proof. unfold zeros, bytes_ok. apply Forall_replicate. widths. lia. Qed.

Lemma le_dec_zeros n : le_dec (replicate n 0) = 0.
Proof. induction n; cbn; lia. Qed.

Lemma bytes_ok_sub l a n : bytes_ok l -> bytes_ok (sub l a n).
Proof. intros. unfold sub. by apply Forall_take, Forall_drop. Qed.

Lemma bytes_ok_patch l a v : bytes_ok l -> bytes_ok v -> bytes_ok (patch l a v).
Proof.
  intros. unfold patch. apply Forall_app; split; [by apply Forall_take|].
  apply Forall_app; split; [done|by apply Forall_drop].
Qed.

Lemma u16_at_bound l a : bytes_ok l -> 0 <= a -> a + 2 <= blen l -> is_u16 (u16_at l a).
Proof.
  intros. pose proof (le_dec_bound (sub l a 2) (bytes_ok_sub _ _ _ H)) as B.
  rewrite blen_sub in B by lia. apply B.
Qed.

Lemma u32_at_bound l a : bytes_ok l -> 0 <= a -> a + 4 <= blen l -> is_u32 (u32_at l a).
Proof.
  intros. pose proof (le_dec_bound (sub l a 4) (bytes_ok_sub _ _ _ H)) as B.
  rewrite blen_sub in B by lia. apply B.
Qed.

Lemma u64_at_bound l a : bytes_ok l -> 0 <= a -> a + 8 <= blen l -> is_u64 (u64_at l a).
Proof.
  intros. pose proof (le_dec_bound (sub l a 8) (bytes_ok_sub _ _ _ H)) as B.
  rewrite blen_sub in B by lia. apply B.
Qed.

(** ** Windows of a patched buffer *)

Lemma sub_patch_disjoint l a v b n :
  0 <= a -> 0 <= b -> 0 <= n -> a + blen v <= blen l ->
  b + n <= a \/ a + blen v <= b ->
  sub (patch l a v) b n = sub l b n.
Proof.
  intros Ha Hb Hn Hl Hd. unfold sub, patch, blen in *. apply list_eq. intros i.
  destruct (decide (i < Z.to_nat n)%nat) as [Hi|Hi].
  2:{ rewrite !lookup_take_ge by lia. done. }
  rewrite !lookup_take_lt by lia. rewrite !lookup_drop.
  destruct Hd as [Hd|Hd].
  - rewrite lookup_app_l by (rewrite length_take; lia).
    by rewrite lookup_take_lt by lia.
  - rewrite lookup_app_r by (rewrite length_take; lia).
    rewrite lookup_app_r by (rewrite length_take; lia).
    rewrite lookup_drop, length_take. f_equal. lia.
Qed.

Lemma sub_patch_within l a v b n :
  0 <= a -> 0 <= n -> a + blen v <= blen l ->
  a <= b -> b + n <= a + blen v ->
  sub (patch l a v) b n = sub v (b - a) n.
Proof.
  intros Ha Hn Hl H1 H2. unfold sub, patch, blen in *. apply list_eq. intros i.
  destruct (decide (i < Z.to_nat n)%nat) as [Hi|Hi].
  2:{ rewrite !lookup_take_ge by lia. done. }
  rewrite !lookup_take_lt by lia. rewrite !lookup_drop.
  rewrite lookup_app_r by (rewrite length_take; lia).
  rewrite lookup_app_l by (rewrite length_take; lia).
  rewrite length_take. f_equal. lia.
Qed.

Lemma sub_all v : sub v 0 (blen v) = v.
Proof. unfold sub, blen. rewrite Z2Nat.inj_0, drop_0. apply take_ge. lia. Qed.

Lemma sub_patch_same l a v n :
  0 <= a -> n = blen v -> a + blen v <= blen l -> sub (patch l a v) a n = v.
Proof.
  intros Ha -> Hl. rewrite sub_patch_within by (pose proof (blen_nonneg v); lia).
  by rewrite Z.sub_diag, sub_all.
Qed.

Lemma sub_sub l a n b m :
  0 <= a -> 0 <= b -> 0 <= m -> b + m <= n -> sub (sub l a n) b m = sub l (a + b) m.
Proof.
  intros. unfold sub. apply list_eq. intros i.
  destruct (decide (i < Z.to_nat m)%nat) as [Hi|Hi].
  2:{ rewrite !lookup_take_ge by lia. done. }
  rewrite !lookup_take_lt by lia. rewrite !lookup_drop.
  rewrite !lookup_take_lt by lia. rewrite lookup_drop. f_equal. lia.
Qed.

Lemma patch_nil l a : 0 <= a -> patch l a [] = l.
Proof. intros. unfold patch. cbn. rewrite Nat.add_0_r. apply take_drop. Qed.

(** ** Reads and writes in range *)

Lemma slice_in {E} l a b :
  0 <= a -> a <= b -> b <= blen l -> @slice E l a b = Val (sub l a (b - a)).
Proof. intros. unfold slice. by rewrite !(proj2 (Z.leb_le _ _)) by lia. Qed.

Lemma slice_val {E} l a b v :
  @slice E l a b = Val v -> 0 <= a /\ a <= b /\ b <= blen l /\ v = sub l a (b - a).
Proof. unfold slice. split_if; [|done]. intros [= <-]. bools. auto. Qed.

Lemma copy_at_in {E} a v l :
  0 <= a -> a + blen v <= blen l -> @copy_at E a v l = (Val tt, patch l a v).
Proof. intros. unfold copy_at. by rewrite !(proj2 (Z.leb_le _ _)) by lia. Qed.

Lemma fill0_in {E} a b l :
  0 <= a -> a <= b -> b <= blen l -> @fill0 E a b l = (Val tt, patch l a (zeros (b - a))).
Proof. intros. unfold fill0. by rewrite !(proj2 (Z.leb_le _ _)) by lia. Qed.

Lemma read_le_in {E} n l a :
  0 <= a -> 0 <= n -> a + n <= blen l -> @read_le E n l a = Val (le_dec (sub l a n)).
Proof.
  intros. unfold read_le. rewrite slice_in by lia. cbn. do 3 f_equal. lia.
Qed.

#[export] Hint Resolve le_enc_ok be_enc_ok zeros_ok bytes_ok_sub bytes_ok_patch : bic.
(** Side conditions about buffer lengths. *)
Ltac blia := solve [lia | autorewrite with bic; lia].

#[export] Hint Rewrite blen_le_enc blen_app : bic.
#[export] Hint Rewrite blen_zeros blen_sub blen_patch using blia : bic.

Lemma patch_patch_adj l a v w :
  0 <= a -> a + blen v + blen w <= blen l ->
  patch (patch l a v) (a + blen v) w = patch l a (v ++ w).
Proof.
  intros Ha Hl. unfold blen in *. unfold patch at 1 3.
  assert (E : patch l a v = (take (Z.to_nat a) l ++ v) ++ drop (Z.to_nat a + length v) l)
    by (unfold patch; by rewrite app_assoc).
  assert (En : Z.to_nat (a + Z.of_nat (length v)) = length (take (Z.to_nat a) l ++ v))
    by (rewrite length_app, length_take; lia).
  rewrite E, En, take_app_length, drop_app_add, drop_drop.
  rewrite length_app, <- !app_assoc. do 4 f_equal. lia.
Qed.

Lemma copy_at_chain {E} a b v w l :
  0 <= a -> b = a + blen v -> b + blen w <= blen l ->
  @copy_at E b w (patch l a v) = (Val tt, patch l a (v ++ w)).
Proof.
  intros Ha -> Hl. pose proof (blen_nonneg v). pose proof (blen_nonneg w).
  rewrite copy_at_in by (rewrite ?blen_patch; lia).
  by rewrite patch_patch_adj by lia.
Qed.

(** Lengths of buffers built from literals and fixed-width integers. *)
Ltac blens :=
  unfold blen in *; cbn [length app le_enc] in *;
  rewrite ?length_app, ?length_le_enc, ?length_be_enc in *; cbn [length] in *; try lia.

Lemma patch_mid a b b' c : length b' = length b -> patch (a ++ b ++ c) (blen a) b' = a ++ b' ++ c.
Proof.
  intros Hl. unfold patch, blen. rewrite Nat2Z.id, take_app_length, drop_app_add.
  by rewrite Hl, drop_app_length.
Qed.

Lemma sub_mid a b c n : n = blen b -> sub (a ++ b ++ c) (blen a) n = b.
Proof.
  intros ->. unfold sub, blen. rewrite !Nat2Z.id, drop_app_length. by rewrite take_app_length.
Qed.
