(* ===== verification/Errors.v ===== *)
(** * Errors of the page store

    Models [crates/bicdb-page/src/error.rs] and the tuple locator of
    [slotted.rs] that some errors carry.  Paths, keys and the prose of [reason]
    fields are left out: no code branches on them. *)

(* @source crates/bicdb-page/src/slotted.rs *)
From stdpp Require Import base tactics list numbers countable.
From Stdlib Require Import ZArith Lia.
From S2P Require Import Prelude Bytes.
Local Open Scope Z_scope.

(** [TupleLocator] (61-65). *)
Record TupleLocator := mkLocator {
  loc_page : Z;
  loc_slot : Z;
  loc_generation : Z
}.

#[export] Instance TupleLocator_eq_dec : EqDecision TupleLocator.
Proof. solve_decision. Defined.
#[export] Instance TupleLocator_countable : Countable TupleLocator.
Proof. by refine (inj_countable' (fun l => (loc_page l, loc_slot l, loc_generation l)) (fun x => mkLocator x.1.1 x.1.2 x.2) _); intros []. Defined.

(* @source crates/bicdb-page/src/error.rs *)
(** [PageError] (16-263). *)
Inductive PageError :=
| BackupSnapshot
| Io
| NotAPageFile (found : bytes)
| AlreadyOpen
| UnsupportedVersion (found supported : Z)
| PageSizeMismatch (found expected : Z)
| ChecksumMismatch (page_id stored computed : Z)
| TornPage (page_id header trailer : Z)
| UnexpectedPageType (page_id found expected : Z)
| OutOfBounds (page_id page_count : Z)
| SegmentMissing (page_count : Z)
| InvalidExtentBytes (extent_bytes page_size : Z)
| PageAlreadyFree (page_id : Z)
| CannotFreeRootPage (page_id : Z)
| InvalidAllocationPageType (page_type : Z)
| FreeListCorruption (head free_pages page_count : Z)
| ShortRead (page_id got want : Z)
| ShortWrite (page_id got want : Z)
| WalCorruption (lsn : Z)
| MetaCorruption (page_id : Z)
| InvalidPageSize (size : Z)
| BudgetTooSmall (budget page_size : Z)
| InvalidMaintenanceLimits
| PoolExhausted (page_id frames : Z)
| ReadOnlyPageSource (page_id : Z)
| EvictedWhilePinned (page_id pins : Z)
| ValueTooLarge (page_id len free : Z)
| NoSuchSlot (page_id slot slot_count : Z)
| DeadSlot (page_id slot : Z)
| WriteConflict (transaction conflicting : Z)
| CorruptFutureTransactionId (xid next_xid : Z)
| TransactionFloorRefused (target : Z)
| HeaderRepairRefused (expected found : Z)
| StaleLocator (page_id slot expected found : Z)
| VersionChainCycle (head repeated : TupleLocator) (first_seen_step steps : Z)
| VersionChainLimitExceeded (head next : TupleLocator) (limit : Z)
| VersionChainChanged (expected : TupleLocator) (found : option TupleLocator)
| VersionChainRepairRefused
| TieredStorage.

(** [PageError::is_corruption] (300-314). *)
Definition is_corruption (e : PageError) : bool :=
  match e with
  | NotAPageFile _ | SegmentMissing _ | ChecksumMismatch _ _ _ | TornPage _ _ _
  | UnexpectedPageType _ _ _ | FreeListCorruption _ _ _ | ShortRead _ _ _
  | ShortWrite _ _ _ | WalCorruption _ | MetaCorruption _ => true
  | _ => false
  end.

Abbreviation pres := (res PageError).
