(* ===== verification/PageFormat.v ===== *)
(** * The on-disk page format

    Models [crates/bicdb-page/src/page.rs]: the 64-byte page header, its
    encoder and decoder, the CRC and the torn-write trailer.  The CRC itself is
    the third-party crate [crc32fast]: it is the section variable [crc32], of
    which only the width of the result is ever assumed. *)

(* @source crates/bicdb-page/src/page.rs *)
From stdpp Require Import base tactics list numbers.
From Stdlib Require Import ZArith Lia.
From S2P Require Import Prelude Bytes Errors.
Local Open Scope Z_scope.
Local Open Scope bic_scope.

(** [PAGE_MAGIC] (61-61). *)
Definition PAGE_MAGIC : bytes := [66; 80; 71; 49].
(** [PAGE_FORMAT_VERSION] (65-65). *)
Definition PAGE_FORMAT_VERSION : Z := 1.
(** [PAGE_HEADER_BYTES] (69-69). *)
Definition PAGE_HEADER_BYTES : Z := 64.
(** [PAGE_TRAILER_BYTES] (72-72). *)
Definition PAGE_TRAILER_BYTES : Z := 8.
(** [MIN_PAGE_SIZE] (80-80). *)
Definition MIN_PAGE_SIZE : Z := 512.
(** [MAX_PAGE_SIZE] (81-81). *)
Definition MAX_PAGE_SIZE : Z := 1024 * 1024.
(** [SUPERBLOCK_PAGE_ID] (58-58). *)
Definition SUPERBLOCK_PAGE_ID : Z := 0.

(** [PageType] (87-100). *)
Inductive PageType :=
| Superblock | Heap | Overflow | BTreeInterior | BTreeLeaf | Free.

#[export] Instance PageType_eq_dec : EqDecision PageType.
Proof. solve_decision. Defined.

Definition page_type_u8 (t : PageType) : Z :=
  match t with
  | Superblock => 1 | Heap => 2 | Overflow => 3
  | BTreeInterior => 4 | BTreeLeaf => 5 | Free => 6
  end.

(** [PageType::from_u8] (103-113). *)
Definition page_type_from_u8 (value : Z) : option PageType :=
  if value =? 1 then Some Superblock
  else if value =? 2 then Some Heap
  else if value =? 3 then Some Overflow
  else if value =? 4 then Some BTreeInterior
  else if value =? 5 then Some BTreeLeaf
  else if value =? 6 then Some Free
  else None.

(* @source crates/bicdb-page/src/page.rs *)
(** Number of one bits, as [u32::count_ones]. *)
Fixpoint popcount_pos (p : positive) : Z :=
  match p with
  | xH => 1
  | xO q => popcount_pos q
  | xI q => 1 + popcount_pos q
  end.

Definition is_power_of_two (x : Z) : bool :=
  match x with
  | Zpos p => popcount_pos p =? 1
  | _ => false
  end.

(** [validate_page_size] (126-135). *)
Definition validate_page_size (page_size : Z) : pres unit :=
  if (page_size <? MIN_PAGE_SIZE)
     || (MAX_PAGE_SIZE <? page_size)
     || negb (is_power_of_two page_size)
     || (page_size <=? PAGE_HEADER_BYTES + PAGE_TRAILER_BYTES)
  then Err (InvalidPageSize page_size)
  else Val tt.

(** [file_offset] (140-142); the release build wraps at 64 bits. *)
Definition file_offset (page_id page_size : Z) : Z := (page_id * page_size) mod U64.

(** [PageHeader] (146-158). *)
Record PageHeader := mkPageHeader {
  page_id : Z;
  page_type : PageType;
  format_version : Z;
  flags : Z;
  generation : Z;
  lsn : Z;
  free_start : Z;
  free_end : Z;
  slot_count : Z;
  next_page : Z;
  payload_len : Z
}.

#[export] Instance PageHeader_eq_dec : EqDecision PageHeader.
Proof. solve_decision. Defined.

(** [PageHeader::new] (161-175); [as u16] truncates. *)
Definition new_header (id : Z) (t : PageType) (page_size : Z) : PageHeader := {|
  page_id := id;
  page_type := t;
  format_version := PAGE_FORMAT_VERSION;
  flags := 0;
  generation := 0;
  lsn := 0;
  free_start := PAGE_HEADER_BYTES mod U16;
  free_end := (page_size - PAGE_TRAILER_BYTES) mod U16;
  slot_count := 0;
  next_page := 0;
  payload_len := 0
|}.

(** [header.next_page = n; header.payload_len = l;] as the callers write it. *)
Definition with_link (h : PageHeader) (n l : Z) : PageHeader := {|
  page_id := page_id h; page_type := page_type h; format_version := format_version h;
  flags := flags h; generation := generation h; lsn := lsn h;
  free_start := free_start h; free_end := free_end h; slot_count := slot_count h;
  next_page := n; payload_len := l
|}.

Definition with_generation (h : PageHeader) (g : Z) : PageHeader := {|
  page_id := page_id h; page_type := page_type h; format_version := format_version h;
  flags := flags h; generation := g; lsn := lsn h;
  free_start := free_start h; free_end := free_end h; slot_count := slot_count h;
  next_page := next_page h; payload_len := payload_len h
|}.

(** [PageHeader::is_compressed] (177-179). *)
Definition is_compressed (h : PageHeader) : bool := negb (Z.land (flags h) 1 =? 0).
(** [PageHeader::is_encrypted] (181-183). *)
Definition is_encrypted (h : PageHeader) : bool := negb (Z.land (flags h) 2 =? 0).

(** [PageHeader::encode] (187-204). *)
Definition encode (h : PageHeader) : st PageError bytes unit :=
  copy_at 0 PAGE_MAGIC ;;;
  copy_at 4 (le_enc 2 (format_version h)) ;;;
  copy_at 6 [page_type_u8 (page_type h)] ;;;
  copy_at 7 [flags h] ;;;
  copy_at 8 (le_enc 8 (page_id h)) ;;;
  copy_at 16 (le_enc 8 (generation h)) ;;;
  copy_at 24 (le_enc 8 (lsn h)) ;;;
  copy_at 32 (le_enc 4 0) ;;;
  copy_at 36 (le_enc 2 (free_start h)) ;;;
  copy_at 38 (le_enc 2 (free_end h)) ;;;
  copy_at 40 (le_enc 2 (slot_count h)) ;;;
  copy_at 42 (le_enc 2 0) ;;;
  copy_at 44 (le_enc 8 (next_page h)) ;;;
  copy_at 52 (le_enc 4 (payload_len h)) ;;;
  copy_at 56 (le_enc 8 0).

(** [PageHeader::decode] (208-247). *)
Definition decode (page : bytes) : pres PageHeader :=
  if blen page <? PAGE_HEADER_BYTES + PAGE_TRAILER_BYTES
  then Err (InvalidPageSize (blen page mod U32))
  else
    let! magic := slice page 0 4 in
    if negb (bool_decide (magic = PAGE_MAGIC)) then Err (NotAPageFile magic)
    else
      let! version := read_le 2 page 4 in
      if PAGE_FORMAT_VERSION <? version
      then Err (UnsupportedVersion version PAGE_FORMAT_VERSION)
      else
        let! id := read_le 8 page 8 in
        let! ty := read_le 1 page 6 in
        match page_type_from_u8 ty with
        | None => Err (UnexpectedPageType id ty 0)
        | Some t =>
            let! fl := read_le 1 page 7 in
            let! ge := read_le 8 page 16 in
            let! ls := read_le 8 page 24 in
            let! fs := read_le 2 page 36 in
            let! fe := read_le 2 page 38 in
            let! sc := read_le 2 page 40 in
            let! np := read_le 8 page 44 in
            let! pl := read_le 4 page 52 in
            Val {| page_id := id; page_type := t; format_version := version;
                   flags := fl; generation := ge; lsn := ls; free_start := fs;
                   free_end := fe; slot_count := sc; next_page := np;
                   payload_len := pl |}
        end.

(** [usable_bytes] (303-305). *)
Definition usable_bytes (page_size : Z) : Z :=
  page_size - PAGE_HEADER_BYTES - PAGE_TRAILER_BYTES.

Section Checksum.
(** [crc32fast]: feeding the hasher in pieces hashes their concatenation. *)
Variable crc32 : bytes -> Z.

(** [compute_checksum] (251-257). *)
Definition compute_checksum (page : bytes) : pres Z :=
  let! head := slice page 0 32 in
  let! rest := slice page 36 (blen page) in
  Val (crc32 (head ++ zeros 4 ++ rest)).

(** [stored_checksum] (259-261). *)
Definition stored_checksum (page : bytes) : pres Z := read_le 4 page 32.

(** [finalize] (265-271). *)
Definition finalize (g : Z) : st PageError bytes unit :=
  do len <- gets blen ;;
  copy_at 16 (le_enc 8 g) ;;;
  copy_at (len - PAGE_TRAILER_BYTES) (le_enc 8 g) ;;;
  do checksum <- reads compute_checksum ;;
  copy_at 32 (le_enc 4 checksum).

(** [verify] (279-299). *)
Definition verify (page : bytes) (id : Z) : pres unit :=
  let! stored := stored_checksum page in
  let! computed := compute_checksum page in
  if negb (stored =? computed) then Err (ChecksumMismatch id stored computed)
  else
    let! header_generation := read_le 8 page 16 in
    let! trailer := read_le 8 page (blen page - PAGE_TRAILER_BYTES) in
    if negb (header_generation =? trailer)
    then Err (TornPage id header_generation trailer)
    else Val tt.
End Checksum.

(** ** Header codec *)

Definition header_bytes (h : PageHeader) : bytes :=
  PAGE_MAGIC ++ le_enc 2 (format_version h) ++ [page_type_u8 (page_type h)] ++ [flags h]
  ++ le_enc 8 (page_id h) ++ le_enc 8 (generation h) ++ le_enc 8 (lsn h) ++ le_enc 4 0
  ++ le_enc 2 (free_start h) ++ le_enc 2 (free_end h) ++ le_enc 2 (slot_count h)
  ++ le_enc 2 0 ++ le_enc 8 (next_page h) ++ le_enc 4 (payload_len h) ++ le_enc 8 0.

(** A header whose fields fit the widths of the struct and whose version this
    binary understands. *)
Definition header_ok (h : PageHeader) : Prop :=
  is_u64 (page_id h) /\ 0 <= format_version h <= PAGE_FORMAT_VERSION /\ is_u8 (flags h) /\
  is_u64 (generation h) /\ is_u64 (lsn h) /\ is_u16 (free_start h) /\ is_u16 (free_end h) /\
  is_u16 (slot_count h) /\ is_u64 (next_page h) /\ is_u32 (payload_len h).

Lemma page_type_roundtrip t : page_type_from_u8 (page_type_u8 t) = Some t.
Proof. by destruct t. Qed.

Lemma page_type_from_u8_Some v t : page_type_from_u8 v = Some t -> v = page_type_u8 t.
Proof. unfold page_type_from_u8. repeat split_if; intros; simplify_eq; done. Qed.

Lemma blen_header_bytes h : blen (header_bytes h) = 64.
Proof. reflexivity. Qed.
#[export] Hint Rewrite blen_header_bytes : bic.

Lemma header_bytes_ok h : header_ok h -> bytes_ok (header_bytes h).
Proof.
  intros (_&_&Hf&_). unfold header_bytes, bytes_ok.
  assert (Hm : Forall is_u8 PAGE_MAGIC) by (repeat constructor; widths; lia).
  assert (Ht : Forall is_u8 [page_type_u8 (page_type h)])
    by (constructor; [destruct (page_type h); widths; cbn; lia|constructor]).
  assert (Hfl : Forall is_u8 [flags h]) by (constructor; [done|constructor]).
  do 14 (apply Forall_app_2; [first [done | apply le_enc_ok]|]). apply le_enc_ok.
Qed.

Lemma encode_patch h p :
  72 <= blen p -> encode h p = (Val tt, patch p 0 (header_bytes h)).
Proof.
  intros Hp. unfold encode, st_bind, PAGE_MAGIC.
  rewrite copy_at_in by blens.
  do 14 (rewrite copy_at_chain; [|lia|reflexivity|blens]).
  reflexivity.
Qed.

(** The header fields of a page, read without bounds checks. *)
Definition header_of (p : bytes) (t : PageType) : PageHeader := {|
  page_id := u64_at p 8; page_type := t; format_version := u16_at p 4;
  flags := le_dec (sub p 7 1); generation := u64_at p 16; lsn := u64_at p 24;
  free_start := u16_at p 36; free_end := u16_at p 38; slot_count := u16_at p 40;
  next_page := u64_at p 44; payload_len := u32_at p 52
|}.

(** [decode] on every branch: it never panics, and each refusal names its cause. *)
Lemma decode_spec p :
  decode p =
    if blen p <? 72 then Err (InvalidPageSize (blen p mod U32))
    else if negb (bool_decide (sub p 0 4 = PAGE_MAGIC)) then Err (NotAPageFile (sub p 0 4))
    else if 1 <? u16_at p 4 then Err (UnsupportedVersion (u16_at p 4) 1)
    else match page_type_from_u8 (le_dec (sub p 6 1)) with
         | None => Err (UnexpectedPageType (u64_at p 8) (le_dec (sub p 6 1)) 0)
         | Some t => Val (header_of p t)
         end.
Proof.
  unfold decode. change (PAGE_HEADER_BYTES + PAGE_TRAILER_BYTES) with 72.
  destruct (blen p <? 72) eqn:E; [done|]. bools.
  rewrite slice_in by lia. change (4 - 0) with 4. run.
  destruct (negb _); [done|].
  rewrite read_le_in by lia. run. change (le_dec (sub p 4 2)) with (u16_at p 4).
  change PAGE_FORMAT_VERSION with 1.
  destruct (1 <? u16_at p 4); [done|].
  rewrite !read_le_in by lia. run.
  destruct (page_type_from_u8 _); [|done].
  repeat (rewrite read_le_in by lia; run). done.
Qed.

Lemma header_fields h p :
  header_ok h -> 72 <= blen p ->
  header_of (patch p 0 (header_bytes h)) (page_type h) = h.
Proof.
  intros (?&?&?&?&?&?&?&?&?&?) Hp. pose proof (blen_header_bytes h) as Hb.
  unfold header_of, u16_at, u32_at, u64_at.
  rewrite !sub_patch_within by lia.
  change (sub (header_bytes h) (8 - 0) 8) with (le_enc 8 (page_id h)).
  change (sub (header_bytes h) (4 - 0) 2) with (le_enc 2 (format_version h)).
  change (sub (header_bytes h) (7 - 0) 1) with [flags h].
  change (sub (header_bytes h) (16 - 0) 8) with (le_enc 8 (generation h)).
  change (sub (header_bytes h) (24 - 0) 8) with (le_enc 8 (lsn h)).
  change (sub (header_bytes h) (36 - 0) 2) with (le_enc 2 (free_start h)).
  change (sub (header_bytes h) (38 - 0) 2) with (le_enc 2 (free_end h)).
  change (sub (header_bytes h) (40 - 0) 2) with (le_enc 2 (slot_count h)).
  change (sub (header_bytes h) (44 - 0) 8) with (le_enc 8 (next_page h)).
  change (sub (header_bytes h) (52 - 0) 4) with (le_enc 4 (payload_len h)).
  rewrite !le_dec_enc. unfold PAGE_FORMAT_VERSION in *. widths.
  change (2 ^ (8 * Z.of_nat 8)) with 18446744073709551616.
  change (2 ^ (8 * Z.of_nat 4)) with 4294967296.
  change (2 ^ (8 * Z.of_nat 2)) with 65536.
  rewrite !Z.mod_small by lia. cbn [le_dec]. rewrite Z.mul_0_r, Z.add_0_r.
  by destruct h.
Qed.

(** A page of the type [t]. *)
Definition typed (t : PageType) (b : bytes) : Prop := exists h, decode b = Val h /\ page_type h = t.

Lemma typed_patch t b a v : 16 <= a -> a + blen v <= blen b -> typed t b -> typed t (patch b a v).
Proof.
  intros Ha Hl (h & Hd & Ht). unfold typed. rewrite !decode_spec in *. rewrite blen_patch by lia. unfold u16_at in *.
  rewrite !sub_patch_disjoint by lia. repeat split_if; try done. destruct (page_type_from_u8 _); [|done]. eexists. split; [done|]. by injection Hd as <-.
Qed.

Lemma decode_header_bytes h p :
  header_ok h -> 72 <= blen p -> decode (patch p 0 (header_bytes h)) = Val h.
Proof.
  intros Hh Hp. pose proof (blen_header_bytes h) as Hb.
  pose proof (header_fields h p Hh Hp) as Hf.
  rewrite decode_spec, blen_patch by lia.
  rewrite (proj2 (Z.ltb_ge _ _)) by lia.
  assert (E0 : sub (patch p 0 (header_bytes h)) 0 4 = PAGE_MAGIC)
    by (rewrite sub_patch_within by lia; reflexivity).
  rewrite E0, bool_decide_eq_true_2 by done. cbn [negb].
  assert (E1 : u16_at (patch p 0 (header_bytes h)) 4 = format_version h)
    by (change (u16_at _ 4) with (format_version
          (header_of (patch p 0 (header_bytes h)) (page_type h))); by rewrite Hf).
  destruct Hh as (?&Hv&?). change PAGE_FORMAT_VERSION with 1 in Hv.
  rewrite E1, (proj2 (Z.ltb_ge _ _)) by lia.
  assert (E2 : sub (patch p 0 (header_bytes h)) 6 1 = [page_type_u8 (page_type h)])
    by (rewrite sub_patch_within by lia; reflexivity).
  rewrite E2. cbn [le_dec]. rewrite Z.mul_0_r, Z.add_0_r, page_type_roundtrip.
  by rewrite Hf.
Qed.

Lemma new_header_ok id t ps : is_u64 id -> header_ok (new_header id t ps).
Proof.
  intros. unfold header_ok, new_header; cbn -[Z.modulo U16].
  unfold PAGE_FORMAT_VERSION. repeat split; widths; try lia; apply Z.mod_pos_bound; lia.
Qed.

Lemma with_link_ok h n l : header_ok h -> is_u64 n -> is_u32 l -> header_ok (with_link h n l).
Proof. unfold header_ok. intuition. Qed.

Lemma with_generation_ok h g : header_ok h -> is_u64 g -> header_ok (with_generation h g).
Proof. unfold header_ok. intuition. Qed.

#[export] Hint Resolve new_header_ok with_link_ok with_generation_ok : bic.

Lemma patch_generation h p g :
  72 <= blen p ->
  patch (patch p 0 (header_bytes h)) 16 (le_enc 8 g)
  = patch p 0 (header_bytes (with_generation h g)).
Proof.
  intros Hp.
  assert (E : forall k, header_bytes (with_generation h k)
     = sub (header_bytes h) 0 16 ++ le_enc 8 k ++ sub (header_bytes h) 24 40) by done.
  rewrite E.
  assert (Eh : header_bytes h = sub (header_bytes h) 0 16 ++ le_enc 8 (generation h)
                                ++ sub (header_bytes h) 24 40) by done.
  rewrite Eh at 1. unfold patch at 1 2 3.
  set (a := sub (header_bytes h) 0 16). set (b := sub (header_bytes h) 24 40).
  assert (La : length a = 16%nat) by reflexivity.
  assert (Lb : length b = 40%nat) by reflexivity.
  rewrite !take_0. cbn [app].
  rewrite !length_app, !length_le_enc, La, Lb.
  change (Z.to_nat 16) with 16%nat.
  rewrite <- !app_assoc. rewrite <- La at 1. rewrite take_app_length. f_equal.
Qed.

(** ** Checksum and trailer *)

Section ChecksumProofs.
Variable crc32 : bytes -> Z.
Hypothesis crc32_u32 : forall l, is_u32 (crc32 l).

(** What the checksum covers: everything but its own field. *)
Definition covered (p : bytes) : bytes := sub p 0 32 ++ zeros 4 ++ sub p 36 (blen p - 36).

Definition crc_stamp (p : bytes) : bytes := patch p 32 (le_enc 4 (crc32 (covered p))).

Definition gen_stamp (g : Z) (p : bytes) : bytes :=
  patch (patch p 16 (le_enc 8 g)) (blen p - 8) (le_enc 8 g).

Lemma compute_checksum_eq p :
  36 <= blen p -> compute_checksum crc32 p = Val (crc32 (covered p)).
Proof.
  intros. unfold compute_checksum. rewrite slice_in by lia. run.
  rewrite slice_in by lia. by run.
Qed.

Lemma blen_gen_stamp g p : 72 <= blen p -> blen (gen_stamp g p) = blen p.
Proof. intros. unfold gen_stamp. blia. Qed.

Lemma blen_crc_stamp p : 72 <= blen p -> blen (crc_stamp p) = blen p.
Proof. intros. unfold crc_stamp. blia. Qed.
#[local] Hint Rewrite blen_gen_stamp blen_crc_stamp using blia : bic.

Lemma finalize_eq g p :
  72 <= blen p -> finalize crc32 g p = (Val tt, crc_stamp (gen_stamp g p)).
Proof.
  intros Hp. unfold finalize. run.
  rewrite copy_at_in by blia.
  change PAGE_TRAILER_BYTES with 8.
  rewrite copy_at_in by blia.
  change (patch (patch p 16 (le_enc 8 g)) (blen p - 8) (le_enc 8 g)) with (gen_stamp g p).
  rewrite compute_checksum_eq by blia.
  by rewrite copy_at_in by blia.
Qed.

Lemma covered_crc_stamp p : 72 <= blen p -> covered (crc_stamp p) = covered p.
Proof.
  intros Hp. unfold covered. rewrite blen_crc_stamp by done. unfold crc_stamp.
  by rewrite !sub_patch_disjoint by blia.
Qed.

(** [verify] succeeds exactly when the stored checksum is the checksum of the
    covered bytes and both copies of the generation agree. *)
Lemma verify_iff p id :
  72 <= blen p ->
  verify crc32 p id = Val tt <->
  u32_at p 32 = crc32 (covered p) /\ u64_at p 16 = u64_at p (blen p - 8).
Proof.
  intros Hp. unfold verify, stored_checksum. rewrite read_le_in by lia. run.
  rewrite compute_checksum_eq by lia. run.
  change PAGE_TRAILER_BYTES with 8. rewrite !read_le_in by lia. run.
  unfold u32_at, u64_at.
  destruct (le_dec (sub p 32 4) =? crc32 (covered p)) eqn:E1; bools; cbn [negb].
  - destruct (le_dec (sub p 16 8) =? _) eqn:E2; bools; cbn [negb]; intuition done.
  - split; [done|]. intros [? _]. done.
Qed.

Lemma verify_cases p id :
  72 <= blen p ->
  verify crc32 p id = Val tt \/
  (exists s c, verify crc32 p id = Err (ChecksumMismatch id s c)) \/
  (exists h t, verify crc32 p id = Err (TornPage id h t)).
Proof.
  intros Hp. unfold verify, stored_checksum. rewrite read_le_in by lia. run.
  rewrite compute_checksum_eq by lia. run.
  change PAGE_TRAILER_BYTES with 8. rewrite !read_le_in by lia. run.
  repeat split_if; eauto.
Qed.

Lemma finalized_verifies g p id :
  72 <= blen p -> verify crc32 (crc_stamp (gen_stamp g p)) id = Val tt.
Proof.
  intros Hp. pose proof (blen_gen_stamp g p Hp) as Hg.
  apply verify_iff; [blia|].
  rewrite covered_crc_stamp, blen_crc_stamp by lia.
  unfold u32_at, u64_at, crc_stamp. split.
  - rewrite sub_patch_same by blia.
    rewrite le_dec_enc. apply Z.mod_small. apply crc32_u32.
  - rewrite !sub_patch_disjoint by blia.
    rewrite Hg. unfold gen_stamp.
    rewrite (sub_patch_same _ (blen p - 8))
      by blia.
    rewrite sub_patch_disjoint
      by blia.
    by rewrite sub_patch_same by blia.
Qed.

Lemma header_of_ext p q t :
  sub p 0 32 = sub q 0 32 -> sub p 36 28 = sub q 36 28 -> header_of p t = header_of q t.
Proof.
  intros H0 H1. unfold header_of, u16_at, u32_at, u64_at.
  assert (A : forall a n, 0 <= a -> 0 <= n -> a + n <= 32 -> sub p a n = sub q a n).
  { intros. rewrite <- (Z.add_0_l a), <- !(sub_sub _ 0 32) by lia. by rewrite H0. }
  assert (B : forall a n, 36 <= a -> 0 <= n -> a + n <= 64 -> sub p a n = sub q a n).
  { intros. replace a with (36 + (a - 36)) by lia.
    rewrite <- !(sub_sub _ 36 28) by lia. by rewrite H1. }
  by rewrite !A, !B by lia.
Qed.

Lemma decode_ext p q :
  blen p = blen q -> 72 <= blen p ->
  sub p 0 32 = sub q 0 32 -> sub p 36 28 = sub q 36 28 -> decode p = decode q.
Proof.
  intros Hl Hp H0 H1. rewrite !decode_spec, <- Hl.
  assert (A : forall a n, 0 <= a -> 0 <= n -> a + n <= 32 -> sub p a n = sub q a n).
  { intros. rewrite <- (Z.add_0_l a), <- !(sub_sub _ 0 32) by lia. by rewrite H0. }
  unfold u16_at, u64_at. rewrite !A by lia.
  repeat split_if; try done. destruct (page_type_from_u8 _); [|done].
  f_equal. by apply header_of_ext.
Qed.

Lemma decode_finalized h g p :
  header_ok h -> is_u64 g -> 72 <= blen p ->
  decode (crc_stamp (gen_stamp g (patch p 0 (header_bytes h)))) = Val (with_generation h g).
Proof.
  intros Hh Hg Hp. pose proof (blen_header_bytes h).
  assert (Lp : blen (patch p 0 (header_bytes h)) = blen p) by blia.
  rewrite <- (decode_header_bytes (with_generation h g) p) by auto with bic.
  assert (L2 : blen (patch p 0 (header_bytes (with_generation h g))) = blen p)
    by blia.
  apply decode_ext; try blia; unfold crc_stamp.
  - rewrite sub_patch_disjoint by blia.
    unfold gen_stamp. rewrite patch_generation, Lp by lia.
    by rewrite sub_patch_disjoint by blia.
  - rewrite sub_patch_disjoint by blia.
    unfold gen_stamp. rewrite patch_generation, Lp by lia.
    by rewrite sub_patch_disjoint by blia.
Qed.
End ChecksumProofs.
#[export] Hint Rewrite blen_gen_stamp blen_crc_stamp using blia : bic.

Lemma popcount_pos_pos p : 0 < popcount_pos p.
Proof. induction p; cbn; lia. Qed.

Lemma popcount_pos_1 p : popcount_pos p = 1 <-> exists k, 0 <= k /\ Zpos p = 2 ^ k.
Proof.
  induction p as [p IH|p IH|]; cbn [popcount_pos].
  - pose proof (popcount_pos_pos p). split; [lia|]. intros (k&Hk&E).
    destruct (decide (k = 0)) as [->|]; [lia|].
    replace k with (Z.succ (k - 1)) in E by lia. rewrite Z.pow_succ_r in E by lia. lia.
  - rewrite IH. split; intros (k&Hk&E).
    + exists (Z.succ k). rewrite Z.pow_succ_r by lia. lia.
    + destruct (decide (k = 0)) as [->|]; [lia|]. exists (k - 1).
      replace k with (Z.succ (k - 1)) in E by lia. rewrite Z.pow_succ_r in E by lia. lia.
  - split; [|done]. intros _. by exists 0.
Qed.

Lemma is_power_of_two_iff x : is_power_of_two x = true <-> exists k, 0 <= k /\ x = 2 ^ k.
Proof.
  destruct x as [|p|p]; cbn [is_power_of_two].
  - split; [done|]. intros (k&?&E). pose proof (Z.pow_pos_nonneg 2 k). lia.
  - rewrite Z.eqb_eq. apply popcount_pos_1.
  - split; [done|]. intros (k&?&E). pose proof (Z.pow_pos_nonneg 2 k). lia.
Qed.

(** The page as the device holds it when a write of [new] over [old] stopped
    after [k] bytes. *)
Definition torn (new old : bytes) (k : Z) : bytes := patch old 0 (sub new 0 k).

(** A checksum that satisfies what the theorems assume of [crc32fast]. *)
Definition byte_sum (l : bytes) : Z := foldr Z.add 0 l mod U32.

Lemma byte_sum_u32 l : is_u32 (byte_sum l).
Proof. unfold byte_sum. widths. apply Z.mod_pos_bound. lia. Qed.

Lemma foldr_add_acc s l : foldr Z.add s l = s + foldr Z.add 0 l.
Proof. induction l; cbn; [lia|]. rewrite IHl. lia. Qed.

Lemma byte_sum_one_byte a x y b :
  is_u8 x -> is_u8 y -> x <> y -> byte_sum (a ++ x :: b) <> byte_sum (a ++ y :: b).
Proof.
  unfold byte_sum. rewrite !foldr_app. cbn. intros Hx Hy Hne E. apply Hne.
  rewrite !(foldr_add_acc (_ + _)) in E. widths.
  set (s := foldr Z.add 0 b) in *. set (t := foldr Z.add 0 a) in *.
  pose proof (Z.div_mod (x + s + t) 4294967296). pose proof (Z.div_mod (y + s + t) 4294967296).
  nia.
Qed.

(** A page written with [encode] and stamped by [finalize] passes [verify], decodes to
    the header that was written with the stamped generation, and keeps its payload bytes. *)
Theorem page_roundtrip (crc32 : bytes -> Z) (Hcrc : forall l, is_u32 (crc32 l)) h g p :
  header_ok h -> is_u64 g -> 72 <= blen p ->
  exists q, (encode h ;;; finalize crc32 g) p = (Val tt, q) /\ blen q = blen p /\
    verify crc32 q (page_id h) = Val tt /\ decode q = Val (with_generation h g) /\
    sub q 64 (blen p - 72) = sub p 64 (blen p - 72).
Proof.
  intros Hh Hg Hp. pose proof (blen_header_bytes h) as Hb.
  exists (crc_stamp crc32 (gen_stamp g (patch p 0 (header_bytes h)))).
  assert (L : blen (patch p 0 (header_bytes h)) = blen p) by blia.
  run. rewrite encode_patch, finalize_eq by blia.
  split; [done|]. split; [blia|].
  split; [apply finalized_verifies; [done|blia]|]. split; [by apply decode_finalized|].
  unfold crc_stamp, gen_stamp.
  by rewrite !sub_patch_disjoint by blia.
Qed.

Lemma page_roundtrip_witness :
  exists q, (encode (new_header 7 Heap 512) ;;; finalize byte_sum 5) (zeros 512) = (Val tt, q) /\
    decode q = Val (with_generation (new_header 7 Heap 512) 5).
Proof.
  destruct (page_roundtrip byte_sum byte_sum_u32 (new_header 7 Heap 512) 5 (zeros 512))
    as (q & E & _ & _ & D & _).
  - apply new_header_ok. widths; lia.
  - widths; lia.
  - vm_compute; discriminate.
  - exists q. split; [exact E|exact D].
Defined.

(** A write torn anywhere between the header generation and the trailer is rejected by
    [verify], whatever the checksum computes, as soon as the two generations differ. *)
Theorem torn_write_detected (crc32 : bytes -> Z) new old k id :
  blen new = blen old -> 24 <= k <= blen old - 8 -> 72 <= blen old ->
  u64_at new 16 <> u64_at old (blen old - 8) ->
  (exists s c, verify crc32 (torn new old k) id = Err (ChecksumMismatch id s c)) \/
  (exists h t, verify crc32 (torn new old k) id = Err (TornPage id h t)).
Proof.
  intros Hl Hk Ho Hg.
  assert (L : blen (torn new old k) = blen old) by (unfold torn; blia).
  destruct (verify_cases crc32 (torn new old k) id) as [V|?]; [lia| |done].
  exfalso. apply Hg. apply verify_iff in V as [_ V]; [|lia].
  rewrite L in V. unfold u64_at, torn in V.
  rewrite sub_patch_within, sub_sub in V by blia.
  rewrite sub_patch_disjoint in V by blia.
  unfold u64_at. by rewrite <- V.
Qed.

Lemma torn_write_detected_witness :
  let old := crc_stamp byte_sum (gen_stamp 1 (zeros 512)) in
  let new := crc_stamp byte_sum (gen_stamp 2 (zeros 512)) in
  (exists s c, verify byte_sum (torn new old 100) 9 = Err (ChecksumMismatch 9 s c)) \/
  (exists h t, verify byte_sum (torn new old 100) 9 = Err (TornPage 9 h t)).
Proof.
  apply (torn_write_detected byte_sum).
  - vm_compute; reflexivity.
  - vm_compute; split; discriminate.
  - vm_compute; discriminate.
  - vm_compute; discriminate.
Defined.

(** ** Single-byte corruption *)

Lemma covered_lookup p (j : nat) :
  36 <= blen p ->
  covered p !! j = if decide (32 <= j < 36)%nat then Some 0 else p !! j.
Proof.
  intros Hp. unfold covered, zeros, sub, blen in *.
  change (Z.to_nat 32) with 32%nat. change (Z.to_nat 4) with 4%nat.
  change (Z.to_nat 36) with 36%nat. change (Z.to_nat 0) with 0%nat. rewrite drop_0.
  assert (L : length (take 32 p) = 32%nat) by (rewrite length_take; lia).
  case_decide.
  - rewrite lookup_app_r by lia. rewrite lookup_app_l by (rewrite length_replicate; lia).
    rewrite lookup_replicate_2; [done|lia].
  - destruct (decide (j < 32)%nat).
    + rewrite lookup_app_l by lia. by rewrite lookup_take_lt by lia.
    + rewrite lookup_app_r by lia. rewrite lookup_app_r by (rewrite length_replicate; lia).
      rewrite length_replicate, L.
      destruct (decide (j < length p)%nat).
      * rewrite lookup_take_lt, lookup_drop by lia. f_equal. lia.
      * rewrite !lookup_ge_None_2; [done|lia|]. rewrite length_take, length_drop. lia.
Qed.

Lemma covered_insert p (i : nat) y :
  36 <= blen p -> ~ (32 <= i < 36)%nat -> covered (<[i:=y]> p) = <[i:=y]> (covered p).
Proof.
  intros Hp Hi. apply list_eq. intros j.
  assert (L : 36 <= blen (<[i:=y]> p)) by (unfold blen in *; rewrite length_insert; lia).
  assert (Lc : length (covered p) = length p).
  { unfold covered, zeros, sub, blen in *.
    rewrite !length_app, !length_take, !length_drop, length_replicate. lia. }
  rewrite covered_lookup by done.
  destruct (decide (i = j)) as [->|].
  - rewrite decide_False by done.
    destruct (decide (j < length p)%nat).
    + by rewrite !list_lookup_insert_eq by lia.
    + by rewrite !list_insert_ge, covered_lookup, decide_False by lia.
  - rewrite !list_lookup_insert_ne by done. by rewrite covered_lookup by done.
Qed.

Lemma crc_insert (crc32 : bytes -> Z) l (i : nat) x y :
  (forall a x y b, is_u8 x -> is_u8 y -> x <> y -> crc32 (a ++ x :: b) <> crc32 (a ++ y :: b)) ->
  l !! i = Some x -> is_u8 x -> is_u8 y -> x <> y -> crc32 (<[i:=y]> l) <> crc32 l.
Proof.
  intros Hc Hi Hx Hy Hne.
  rewrite insert_take_drop by (by eapply lookup_lt_Some).
  rewrite <- (take_drop_middle l i x) at 3 by done. apply Hc; auto.
Qed.

Lemma sub_insert_out p (i : nat) y a n :
  0 <= a -> 0 <= n -> Z.of_nat i < a \/ a + n <= Z.of_nat i -> sub (<[i:=y]> p) a n = sub p a n.
Proof.
  intros Ha Hn Hi. unfold sub. apply list_eq. intros j.
  destruct (decide (j < Z.to_nat n)%nat).
  - rewrite !lookup_take_lt, !lookup_drop by lia. rewrite list_lookup_insert_ne by lia. done.
  - by rewrite !lookup_take_ge by lia.
Qed.

(** No byte of a page lies outside its protection: overwriting any single byte of a page
    that passes [verify] with another value makes [verify] refuse it, given only that the CRC
    tells apart two inputs that differ in one byte. *)
Theorem single_byte_corruption_detected (crc32 : bytes -> Z) p (i : nat) x y id :
  (forall a x y b, is_u8 x -> is_u8 y -> x <> y -> crc32 (a ++ x :: b) <> crc32 (a ++ y :: b)) ->
  bytes_ok p -> 72 <= blen p -> verify crc32 p id = Val tt ->
  p !! i = Some x -> is_u8 y -> x <> y ->
  verify crc32 (<[i:=y]> p) id <> Val tt.
Proof.
  intros Hc Hp Hl Hv Hi Hy Hne Hv'.
  assert (Hx : is_u8 x) by (by eapply Forall_lookup in Hi).
  apply verify_iff in Hv as [Hs _]; [|done].
  apply verify_iff in Hv' as [Hs' _]; [|unfold blen in *; rewrite length_insert; lia].
  destruct (decide (32 <= i < 36)%nat) as [Hin|Hout].
  - assert (Ec : covered (<[i:=y]> p) = covered p).
    { apply list_eq. intros j. rewrite !covered_lookup
        by (unfold blen in *; rewrite ?length_insert; lia).
      case_decide; [done|]. by rewrite list_lookup_insert_ne by lia. }
    rewrite Ec, <- Hs in Hs'. unfold u32_at in Hs'.
    assert (E : sub (<[i:=y]> p) 32 4 = sub p 32 4).
    { apply le_dec_inj; [|by apply bytes_ok_sub| |done].
      - apply bytes_ok_sub, Forall_insert; done.
      - unfold sub. by rewrite !length_take, !length_drop, length_insert. }
    apply (f_equal (fun l => l !! (i - 32)%nat)) in E. unfold sub in E.
    rewrite !lookup_take_lt, !lookup_drop in E by lia.
    change (Z.to_nat 32) with 32%nat in E.
    replace (32 + (i - 32))%nat with i in E by lia.
    rewrite list_lookup_insert_eq, Hi in E by (by eapply lookup_lt_Some).
    by injection E.
  - rewrite covered_insert in Hs' by (done || lia).
    assert (Ei : covered p !! i = Some x) by (by rewrite covered_lookup, decide_False by (done || lia)).
    apply (crc_insert crc32 (covered p) i x y Hc Ei Hx Hy Hne).
    rewrite <- Hs', <- Hs. unfold u32_at. by rewrite sub_insert_out by lia.
Qed.

Lemma single_byte_corruption_detected_witness :
  let p := crc_stamp byte_sum (gen_stamp 3 (zeros 512)) in
  verify byte_sum (<[100%nat:=8]> p) 7 <> Val tt.
Proof.
  apply (single_byte_corruption_detected byte_sum _ 100 0 8 7).
  - exact byte_sum_one_byte.
  - apply bytes_ok_patch; [|apply le_enc_ok].
    apply bytes_ok_patch; [apply bytes_ok_patch|]; auto using zeros_ok, le_enc_ok.
  - vm_compute; discriminate.
  - vm_compute; reflexivity.
  - vm_compute; reflexivity.
  - widths; lia.
  - discriminate.
Defined.

(** [validate_page_size] accepts exactly the powers of two from 512 to 1 MiB. *)
Theorem validate_page_size_exact ps :
  validate_page_size ps = Val tt <-> exists k, 9 <= k <= 20 /\ ps = 2 ^ k.
Proof.
  unfold validate_page_size, MIN_PAGE_SIZE, MAX_PAGE_SIZE, PAGE_HEADER_BYTES, PAGE_TRAILER_BYTES.
  split.
  - split_if; [done|]. intros _. bools.
    match goal with H : is_power_of_two ps = true |- _ =>
      apply is_power_of_two_iff in H as (k&Hk&->) end.
    exists k. split; [|done].
    split; apply (Z.pow_le_mono_r_iff 2); lia.
  - intros (k&Hk&->).
    assert (P : is_power_of_two (2 ^ k) = true) by (apply is_power_of_two_iff; exists k; lia).
    assert (2 ^ 9 <= 2 ^ k <= 2 ^ 20) by (split; apply Z.pow_le_mono_r; lia).
    change (2 ^ 9) with 512 in *. change (2 ^ 20) with 1048576 in *.
    rewrite P, (proj2 (Z.ltb_ge _ _)), (proj2 (Z.ltb_ge _ _)), (proj2 (Z.leb_gt _ _)) by lia.
    done.
Qed.
