(* ===== verification/Slotted.v ===== *)
(** * Slotted heap pages: operations

    Models [crates/bicdb-page/src/slotted.rs].  A slotted page is the byte
    buffer itself: every accessor reads the header and directory fields out of
    the bytes, every mutation writes them back, and an index out of range
    panics as it does in Rust.  [usize] values are unbounded integers (no
    modelled expression exceeds a page size by more than a few bytes);
    [as u16] and [wrapping_add] on [u32] are written out. *)

(* @source crates/bicdb-page/src/slotted.rs *)
From stdpp Require Import base tactics list numbers.
From Stdlib Require Import ZArith Lia.
From S2P Require Import Prelude Bytes Errors PageFormat.
Local Open Scope Z_scope.
Local Open Scope bic_scope.

(** [SLOT_BYTES] (48-48). *)
Definition SLOT_BYTES : Z := 8.
(** [DEAD_OFFSET] (51-51). *)
Definition DEAD_OFFSET : Z := 0.

(** [TupleLocator::encode] (77-83). *)
Definition locator_encode (l : TupleLocator) : bytes :=
  le_enc 8 (loc_page l) ++ le_enc 2 (loc_slot l) ++ le_enc 4 (loc_generation l).

(** [TupleLocator::decode] (85-94). *)
Definition locator_decode (b : bytes) : option TupleLocator :=
  if blen b <? 14 then None
  else Some (mkLocator (u64_at b 0) (u16_at b 8) (u32_at b 10)).

(** [read_u16] (116-118). *)
Definition read_u16 (p : bytes) (at_ : Z) : pres Z := read_le 2 p at_.
(** [slot_count] (121-123). *)
Definition slot_count (p : bytes) : pres Z := read_u16 p 40.
(** [free_start] (126-128). *)
Definition free_start (p : bytes) : pres Z := read_u16 p 36.
(** [free_end] (131-133). *)
Definition free_end (p : bytes) : pres Z := read_u16 p 38.
(** [slot_offset] (136-138). *)
Definition slot_offset (slot : Z) : Z := PAGE_HEADER_BYTES + slot * SLOT_BYTES.
(** [page_id] (158-160). *)
Definition page_id (p : bytes) : pres Z := read_le 8 p 8.

(** [slot_entry] (140-155). *)
Definition slot_entry (p : bytes) (slot : Z) : pres (Z * Z * Z) :=
  let! count := slot_count p in
  if count <=? slot then
    let! id := page_id p in Err (NoSuchSlot id slot count)
  else
    let at_ := slot_offset slot in
    let! off := read_u16 p at_ in
    let! len := read_u16 p (at_ + 2) in
    let! gen := read_le 4 p (at_ + 4) in
    Val (off, len, gen).

(** [(0..self.slot_count()).filter_map(|slot| self.slot_entry(slot).ok())], the
    iteration every whole-page accessor starts from; each entry with its slot. *)
Definition slot_entries (p : bytes) : pres (list (Z * (Z * Z * Z))) :=
  let! count := slot_count p in
  filter_mapM (fun slot => let! o := ok_of (slot_entry p slot) in Val (pair slot <$> o))
              (rangeZ 0 count).

(** [live_count] (163-171). *)
Definition live_count (p : bytes) : pres Z :=
  let! es := slot_entries p in
  Val (Z.of_nat (length (filter (fun '(_, (off, _, _)) => off <> DEAD_OFFSET) es)) mod U16).

(** [slots] (174-176). *)
Definition slots (p : bytes) : pres Z := slot_count p.

(** [max_generation] (181-187). *)
Definition max_generation (p : bytes) : pres Z :=
  let! es := slot_entries p in
  Val (foldr Z.max 0 (map (fun '(_, (_, _, gen)) => gen) es)).

(** [free_space] (190-192). *)
Definition free_space (p : bytes) : pres Z :=
  let! fe := free_end p in
  let! fs := free_start p in
  Val (sat_sub fe fs).

(** [reclaimable_space] (196-203). *)
Definition reclaimable_space (p : bytes) : pres Z :=
  let! es := slot_entries p in
  let dead := foldr Z.add 0
    (map (fun '(_, (off, len, _)) => if off =? DEAD_OFFSET then len else 0) es) in
  let! fr := free_space p in
  Val (fr + dead).

(** [get] (206-223). *)
Definition get (p : bytes) (l : TupleLocator) : pres bytes :=
  let! (offset, len, gen) := slot_entry p (loc_slot l) in
  if offset =? DEAD_OFFSET then
    let! id := page_id p in Err (DeadSlot id (loc_slot l))
  else if negb (gen =? loc_generation l) then
    let! id := page_id p in Err (StaleLocator id (loc_slot l) (loc_generation l) gen)
  else slice p offset (offset + len).

(** [get_by_slot] (231-240). *)
Definition get_by_slot (p : bytes) (slot : Z) : pres bytes :=
  let! (offset, len, _) := slot_entry p slot in
  if offset =? DEAD_OFFSET then
    let! id := page_id p in Err (DeadSlot id slot)
  else slice p offset (offset + len).

(** [generation_of] (243-252). *)
Definition generation_of (p : bytes) (slot : Z) : pres Z :=
  let! (offset, _, gen) := slot_entry p slot in
  if offset =? DEAD_OFFSET then
    let! id := page_id p in Err (DeadSlot id slot)
  else Val gen.

(** [locators] (255-263). *)
Definition locators (p : bytes) : pres (list TupleLocator) :=
  let! es := slot_entries p in
  let! id := page_id p in
  Val (omap (fun '(slot, (off, _, gen)) =>
               if negb (off =? DEAD_OFFSET) then Some (mkLocator id slot gen) else None) es).

Abbreviation pst := (st PageError bytes).

(** [init_with_floor] (301-312). *)
Definition init_with_floor (id page_size floor : Z) : pst unit :=
  modify (fun p => zeros (blen p)) ;;;
  encode (with_link (new_header id Heap page_size) 0 floor).

(** [init] (286-288). *)
Definition init (id page_size : Z) : pst unit := init_with_floor id page_size 0.

(** [generation_floor] (315-317). *)
Definition generation_floor (p : bytes) : pres Z := read_le 4 p 52.

(** [write_u16] (320-322); [value as u16] at the call sites truncates. *)
Definition write_u16 (at_ value : Z) : pst unit := copy_at at_ (le_enc 2 value).
(** [set_free_start] (325-327). *)
Definition set_free_start (value : Z) : pst unit := write_u16 36 value.
(** [set_free_end] (330-332). *)
Definition set_free_end (value : Z) : pst unit := write_u16 38 value.
(** [set_slot_count] (335-337). *)
Definition set_slot_count (value : Z) : pst unit := write_u16 40 value.

(** [write_slot] (339-344). *)
Definition write_slot (slot offset len gen : Z) : pst unit :=
  let at_ := slot_offset slot in
  write_u16 at_ offset ;;;
  write_u16 (at_ + 2) len ;;;
  copy_at (at_ + 4) (le_enc 4 gen).

(** [find_dead_slot] (359-365). *)
Definition find_dead_slot (p : bytes) : pres (option Z) :=
  let! count := slot_count p in
  findM (fun slot =>
           let! o := ok_of (slot_entry p slot) in
           Val (match o with Some (off, _, _) => off =? DEAD_OFFSET | None => false end))
        (rangeZ 0 count).

(** [required_space] (347-349). *)
Definition required_space (len : Z) : Z := len + SLOT_BYTES.

(** [can_fit] (352-357). *)
Definition can_fit (p : bytes) (len : Z) : pres bool :=
  let! dead := find_dead_slot p in
  let required := len + (match dead with None => SLOT_BYTES | Some _ => 0 end) in
  let! fr := free_space p in
  Val (required <=? fr).

(** [Err(PageError::ValueTooLarge { page_id, len, free })] with the fields read
    off the page. *)
Definition too_large {A} (len : Z) : pst A :=
  do id <- reads page_id ;;
  do fr <- reads free_space ;;
  st_fail (ValueTooLarge id len fr).

(** [insert] (371-416). *)
Definition insert (value : bytes) : pst TupleLocator :=
  if bool_decide (value = []) then too_large 0
  else
    do recycled <- reads find_dead_slot ;;
    let needed := blen value + (match recycled with None => SLOT_BYTES | Some _ => 0 end) in
    do fr <- reads free_space ;;
    if fr <? needed then too_large (blen value)
    else
      do fe <- reads free_end ;;
      let data_offset := fe - blen value in
      copy_at data_offset value ;;;
      set_free_end data_offset ;;;
      do (slot, gen) <-
        (match recycled with
         | Some slot =>
             do (_, _, previous) <- reads (fun p => slot_entry p slot) ;;
             st_ret (slot, (previous + 1) mod U32)
         | None =>
             do slot <- reads slot_count ;;
             set_slot_count (slot + 1) ;;;
             do fs <- reads free_start ;;
             set_free_start (fs + SLOT_BYTES) ;;;
             do floor <- reads generation_floor ;;
             st_ret (slot, (floor + 1) mod U32)
         end) ;;
      write_slot slot data_offset (blen value) gen ;;;
      do id <- reads page_id ;;
      st_ret (mkLocator id slot gen).

(** The checks [delete] and [update] share: the slot's entry, unless the slot
    is dead or the locator stale. *)
Definition checked_entry (l : TupleLocator) : pst (Z * Z * Z) :=
  do (offset, len, gen) <- reads (fun p => slot_entry p (loc_slot l)) ;;
  if offset =? DEAD_OFFSET then
    do id <- reads page_id ;; st_fail (DeadSlot id (loc_slot l))
  else if negb (gen =? loc_generation l) then
    do id <- reads page_id ;;
    st_fail (StaleLocator id (loc_slot l) (loc_generation l) gen)
  else st_ret (offset, len, gen).

(** [delete] (425-446). *)
Definition delete (l : TupleLocator) : pst unit :=
  do (offset, len, gen) <- checked_entry l ;;
  fill0 offset (offset + len) ;;;
  write_slot (loc_slot l) DEAD_OFFSET len gen.

(** [update] (454-505). *)
Definition update (l : TupleLocator) (value : bytes) : pst unit :=
  do (offset, len, gen) <- checked_entry l ;;
  if bool_decide (value = []) then too_large 0
  else if blen value <=? len then
    copy_at offset value ;;;
    fill0 (offset + blen value) (offset + len) ;;;
    write_slot (loc_slot l) offset (blen value) gen
  else
    do fr <- reads free_space ;;
    if fr <? blen value then too_large (blen value)
    else
      fill0 offset (offset + len) ;;;
      do fe <- reads free_end ;;
      let data_offset := fe - blen value in
      copy_at data_offset value ;;;
      set_free_end data_offset ;;;
      write_slot (loc_slot l) data_offset (blen value) gen.

(** The live tuples [compact] collects, in slot order. *)
Fixpoint collect_live (p : bytes) (ss : list Z) : pres (list (Z * bytes * Z)) :=
  match ss with
  | [] => Val []
  | slot :: ss' =>
      let! (offset, len, gen) := slot_entry p slot in
      if offset =? DEAD_OFFSET then collect_live p ss'
      else
        let! value := slice p offset (offset + len) in
        let! rest := collect_live p ss' in
        Val ((slot, value, gen) :: rest)
  end.

(** The second loop of [compact]: rewrite the tuples downwards from [cursor]. *)
Fixpoint rewrite_live (cursor : Z) (live : list (Z * bytes * Z)) : pst Z :=
  match live with
  | [] => st_ret cursor
  | (slot, value, gen) :: live' =>
      let cursor' := cursor - blen value in
      copy_at cursor' value ;;;
      write_slot slot cursor' (blen value) gen ;;;
      rewrite_live cursor' live'
  end.

(** [compact] (511-551). *)
Definition compact (page_size : Z) : pst Z :=
  do before <- reads free_space ;;
  do count <- reads slot_count ;;
  do live <- reads (fun p => collect_live p (rangeZ 0 count)) ;;
  let data_top := page_size - PAGE_TRAILER_BYTES in
  let directory_end := PAGE_HEADER_BYTES + count * SLOT_BYTES in
  fill0 directory_end data_top ;;;
  do cursor <- rewrite_live data_top live ;;
  set_free_end cursor ;;;
  do after <- reads free_space ;;
  st_ret (sat_sub after before).
