(* ===== verification/SlottedSpec.v ===== *)
(** * Slotted heap pages: invariant and refinement

    The well-formedness invariant of a slotted page, the abstract page it
    implements (a list of slots, each with a generation and an optional tuple),
    and the proofs that every operation of [Slotted] preserves the invariant,
    never panics on a well-formed page and refines its abstract counterpart. *)

From stdpp Require Import base tactics list numbers gmap.
From Stdlib Require Import ZArith Lia.
From S2P Require Import Prelude Bytes Errors PageFormat Slotted.
Local Open Scope Z_scope.
Local Open Scope bic_scope.

(** ** Fields of a page, read without bounds checks *)

Definition cnt (p : bytes) : Z := u16_at p 40.
Definition fstart (p : bytes) : Z := u16_at p 36.
Definition fend (p : bytes) : Z := u16_at p 38.
Definition pid (p : bytes) : Z := u64_at p 8.
Definition floor_of (p : bytes) : Z := u32_at p 52.
Definition e_off (p : bytes) (i : Z) : Z := u16_at p (64 + i * 8).
Definition e_len (p : bytes) (i : Z) : Z := u16_at p (64 + i * 8 + 2).
Definition e_gen (p : bytes) (i : Z) : Z := u32_at p (64 + i * 8 + 4).
Definition entry (p : bytes) (i : Z) : Z * Z * Z := (e_off p i, e_len p i, e_gen p i).

(** Two live tuples do not overlap. *)
Definition apart (p : bytes) (i j : Z) : Prop :=
  e_off p i + e_len p i <= e_off p j \/ e_off p j + e_len p j <= e_off p i.

(** A heap page whose bytes between the header's stamps and the trailer are
    bytes; the stamps themselves are rewritten behind the page's back. *)
Definition content_ok (p : bytes) : Prop :=
  typed Heap p /\ forall (i : nat) b, p !! i = Some b -> 36 <= Z.of_nat i < blen p - 8 -> is_u8 b.

(** The directory and the tuple data tile the page without crossing.  The page
    size is bounded by 64 KiB: beyond it the 16-bit offsets of the format wrap. *)
Record wf (ps : Z) (p : bytes) : Prop := {
  wf_size : 72 <= ps <= 65536;
  wf_len : blen p = ps;
  wf_ok : content_ok p;
  wf_fstart : fstart p = 64 + 8 * cnt p;
  wf_gap : fstart p <= fend p;
  wf_fend : fend p <= ps - 8;
  wf_live : forall i, 0 <= i < cnt p -> e_off p i <> 0 ->
    fend p <= e_off p i /\ 1 <= e_len p i /\ e_off p i + e_len p i <= ps - 8;
  wf_apart : forall i j, 0 <= i < cnt p -> 0 <= j < cnt p -> i <> j ->
    e_off p i <> 0 -> e_off p j <> 0 -> apart p i j
}.

(** [wf] as a test. *)
Definition wfb (ps : Z) (p : bytes) : bool :=
  (72 <=? ps) && (ps <=? 65536) && (blen p =? ps) &&
  match decode p with Val h => bool_decide (page_type h = Heap) | _ => false end &&
  forallb (fun b => (0 <=? b) && (b <? 256)) p &&
  (fstart p =? 64 + 8 * cnt p) && (fstart p <=? fend p) && (fend p <=? ps - 8) &&
  forallb (fun i =>
    (e_off p i =? 0) ||
    ((fend p <=? e_off p i) && (1 <=? e_len p i) && (e_off p i + e_len p i <=? ps - 8) &&
     forallb (fun j =>
       (i =? j) || (e_off p j =? 0) || (e_off p i + e_len p i <=? e_off p j) ||
       (e_off p j + e_len p j <=? e_off p i)) (rangeZ 0 (cnt p)))) (rangeZ 0 (cnt p)).

(** ** The abstract page *)

Abbreviation aslot := (Z * option bytes)%type.

(** Slot [i] of the abstract page: its generation and its tuple, if live. *)
Definition view (p : bytes) (i : Z) : aslot :=
  (e_gen p i, if e_off p i =? 0 then None else Some (sub p (e_off p i) (e_len p i))).

Definition abs (p : bytes) : list aslot := view p <$> rangeZ 0 (cnt p).

Definition is_dead (s : aslot) : bool := match s with (_, None) => true | _ => false end.

(** Insertion on the abstract page: reuse the first dead slot with the next
    generation, or append a slot above the floor. *)
Definition spec_insert (floor : Z) (v : bytes) (l : list aslot) : list aslot * Z * Z :=
  match list_find (fun s => is_dead s = true) l with
  | Some (i, (g, _)) => (<[i := ((g + 1) mod U32, Some v)]> l, Z.of_nat i, (g + 1) mod U32)
  | None => (l ++ [((floor + 1) mod U32, Some v)], Z.of_nat (length l), (floor + 1) mod U32)
  end.

Definition spec_get (id : Z) (l : list aslot) (loc : TupleLocator) : pres bytes :=
  match l !! Z.to_nat (loc_slot loc) with
  | None => Err (NoSuchSlot id (loc_slot loc) (Z.of_nat (length l)))
  | Some (_, None) => Err (DeadSlot id (loc_slot loc))
  | Some (g, Some v) =>
      if g =? loc_generation loc then Val v
      else Err (StaleLocator id (loc_slot loc) (loc_generation loc) g)
  end.

Lemma bytes_content p : typed Heap p -> bytes_ok p -> content_ok p.
Proof. intros Ht H. split; [done|]. intros i b Hb _. by apply (Forall_lookup_1 _ p i). Qed.

Lemma content_sub p a n : content_ok p -> 36 <= a -> 0 <= n -> a + n <= blen p - 8 -> bytes_ok (sub p a n).
Proof.
  intros [_ H] Ha Hn Hl. apply Forall_lookup. intros i b. unfold sub. rewrite lookup_take_Some, lookup_drop. intros [Hb Hi].
  apply (H _ b Hb). lia.
Qed.

Lemma content_patch p a v : content_ok p -> bytes_ok v -> 16 <= a -> a + blen v <= blen p -> content_ok (patch p a v).
Proof.
  intros [Ht H] Hv Ha Hl. split; [by apply typed_patch|]. intros i b Hb. rewrite blen_patch by lia. intros Hi. unfold patch in Hb.
  apply lookup_app_Some in Hb as [[Hb _]%lookup_take_Some|[H1 Hb]]; [by apply (H i)|].
  apply lookup_app_Some in Hb as [Hb|[H2 Hb]]; [by apply (Forall_lookup_1 _ v _ b Hv Hb)|].
  rewrite lookup_drop in Hb. apply (H i b); [|done]. rewrite <- Hb. f_equal. unfold blen in *. rewrite length_take in H1, H2 |- *. lia.
Qed.

Lemma content_u16 p a : content_ok p -> 36 <= a -> a + 2 <= blen p - 8 -> is_u16 (u16_at p a).
Proof.
  intros H Ha Hl. pose proof (le_dec_bound _ (content_sub p a 2 H Ha ltac:(lia) Hl)) as B. rewrite blen_sub in B by lia. apply B.
Qed.
Lemma content_u32 p a : content_ok p -> 36 <= a -> a + 4 <= blen p - 8 -> is_u32 (u32_at p a).
Proof.
  intros H Ha Hl. pose proof (le_dec_bound _ (content_sub p a 4 H Ha ltac:(lia) Hl)) as B. rewrite blen_sub in B by lia. apply B.
Qed.

Lemma wfb_wf ps p : wfb ps p = true -> wf ps p.
Proof.
  unfold wfb. intros H. bools.
  match goal with H : forallb _ (rangeZ _ _) = true |- _ => rename H into Hl end.
  rewrite forallb_forall in Hl.
  assert (Hr : forall i, 0 <= i < cnt p -> In i (rangeZ 0 (cnt p)))
    by (intros i Hi; by apply list_elem_of_In, elem_of_rangeZ).
  split; auto; try lia.
  - apply bytes_content; [destruct (decode p) as [h| |] eqn:Ed; try done; bools; by exists h|]. apply Forall_forall. intros b Hb%list_elem_of_In.
    match goal with H : forallb _ p = true |- _ => rewrite forallb_forall in H; apply H in Hb end.
    bools. done.
  - intros i Hi Ho. specialize (Hl i (Hr i Hi)).
    rewrite (proj2 (Z.eqb_neq _ _) Ho) in Hl. cbn in Hl. bools. done.
  - intros i j Hi Hj Hij Hoi Hoj. specialize (Hl i (Hr i Hi)).
    rewrite (proj2 (Z.eqb_neq _ _) Hoi) in Hl. cbn in Hl. bools.
    match goal with H : forallb _ (rangeZ _ _) = true |- _ => rewrite forallb_forall in H;
      specialize (H j (Hr j Hj)); rename H into Hl end.
    rewrite (proj2 (Z.eqb_neq _ _) Hoj), (proj2 (Z.eqb_neq _ _) Hij) in Hl. cbn in Hl.
    apply orb_true_iff in Hl as [?|?]; bools; [by left|by right].
Qed.

(** ** Accessors on a well-formed page *)

Lemma cnt_bound ps p : wf ps p -> 0 <= cnt p /\ 64 + 8 * cnt p <= fend p /\ fend p <= ps - 8.
Proof.
  intros [? ? Hok ? ? ? ? ?]. pose proof (content_u16 p 40 Hok). unfold cnt in *. widths. lia.
Qed.

Lemma e_bounds ps p i :
  wf ps p -> 0 <= i < cnt p ->
  is_u16 (e_off p i) /\ is_u16 (e_len p i) /\ is_u32 (e_gen p i).
Proof.
  intros W Hi. destruct (cnt_bound ps p W) as (?&?&?). destruct W as [? ? Hok ? ? ? ? ?].
  unfold e_off, e_len, e_gen.
  repeat split; (apply content_u16 || apply content_u32); auto; lia.
Qed.

Lemma read_u16_in p a : 0 <= a -> a + 2 <= blen p -> read_u16 p a = Val (u16_at p a).
Proof. intros. unfold read_u16. by rewrite read_le_in by lia. Qed.

Lemma slot_count_eq ps p : wf ps p -> slot_count p = Val (cnt p).
Proof. intros []. unfold slot_count. by rewrite read_u16_in by lia. Qed.

Lemma free_start_eq ps p : wf ps p -> free_start p = Val (fstart p).
Proof. intros []. unfold free_start. by rewrite read_u16_in by lia. Qed.

Lemma free_end_eq ps p : wf ps p -> free_end p = Val (fend p).
Proof. intros []. unfold free_end. by rewrite read_u16_in by lia. Qed.

Lemma page_id_eq ps p : wf ps p -> page_id p = Val (pid p).
Proof. intros []. unfold page_id. by rewrite read_le_in by lia. Qed.

Lemma floor_eq ps p : wf ps p -> generation_floor p = Val (floor_of p).
Proof. intros []. unfold generation_floor. by rewrite read_le_in by lia. Qed.

Lemma free_space_eq ps p : wf ps p -> free_space p = Val (fend p - fstart p).
Proof.
  intros W. unfold free_space. rewrite (free_end_eq ps), (free_start_eq ps) by done. run.
  destruct W. unfold sat_sub. f_equal. lia.
Qed.

Lemma slot_entry_eq ps p i :
  wf ps p -> 0 <= i ->
  slot_entry p i = if cnt p <=? i then Err (NoSuchSlot (pid p) i (cnt p)) else Val (entry p i).
Proof.
  intros W Hi. unfold slot_entry. rewrite (slot_count_eq ps), (page_id_eq ps) by done. run.
  destruct (cnt p <=? i) eqn:E; [done|]. bools.
  destruct (cnt_bound ps p W) as (?&?&?). destruct W.
  unfold slot_offset, PAGE_HEADER_BYTES, SLOT_BYTES.
  rewrite !read_u16_in by lia. run. by rewrite read_le_in by lia.
Qed.

Lemma slot_entry_in ps p i : wf ps p -> 0 <= i < cnt p -> slot_entry p i = Val (entry p i).
Proof.
  intros W Hi. rewrite (slot_entry_eq ps) by (done || lia).
  by rewrite (proj2 (Z.leb_gt _ _)) by lia.
Qed.

Lemma slot_entries_eq ps p :
  wf ps p -> slot_entries p = Val ((fun i => (i, entry p i)) <$> rangeZ 0 (cnt p)).
Proof.
  intros W. unfold slot_entries. rewrite (slot_count_eq ps) by done. run.
  rewrite (filter_mapM_pure _ (fun i => Some (i, entry p i))).
  - done.
  - intros x Hx%elem_of_rangeZ. by rewrite (slot_entry_in ps).
Qed.

Lemma find_dead_slot_eq ps p :
  wf ps p ->
  find_dead_slot p =
    Val (snd <$> list_find (fun i => (e_off p i =? 0) = true) (rangeZ 0 (cnt p))).
Proof.
  intros W. unfold find_dead_slot. rewrite (slot_count_eq ps) by done. run.
  apply findM_pure. intros x Hx%elem_of_rangeZ. by rewrite (slot_entry_in ps).
Qed.

(** Field reads need only the page's length. *)
Lemma header_reads p :
  72 <= blen p ->
  slot_count p = Val (cnt p) /\ free_start p = Val (fstart p) /\ free_end p = Val (fend p) /\
  page_id p = Val (pid p) /\ generation_floor p = Val (floor_of p).
Proof.
  intros. unfold slot_count, free_start, free_end, page_id, generation_floor.
  rewrite !read_u16_in, !read_le_in by lia. done.
Qed.

Lemma slot_entry_read p i :
  0 <= i < cnt p -> 72 + i * 8 <= blen p -> slot_entry p i = Val (entry p i).
Proof.
  intros Hi Hl. unfold slot_entry. destruct (header_reads p) as (->&_); [lia|]. run.
  rewrite (proj2 (Z.leb_gt _ _)) by lia.
  unfold slot_offset, PAGE_HEADER_BYTES, SLOT_BYTES.
  rewrite !read_u16_in by lia. run. by rewrite read_le_in by lia.
Qed.

(** ** The abstract view and its updates *)

Lemma rangeZ_lookup n (i : nat) : rangeZ 0 n !! i = if decide (Z.of_nat i < n) then Some (Z.of_nat i) else None.
Proof.
  unfold rangeZ. case_decide.
  - apply lookup_seqZ. lia.
  - apply lookup_seqZ_ge. lia.
Qed.

Lemma length_abs p : 0 <= cnt p -> length (abs p) = Z.to_nat (cnt p).
Proof. intros. unfold abs, rangeZ. rewrite length_fmap, length_seqZ. lia. Qed.

Lemma abs_lookup p (i : nat) :
  abs p !! i = if decide (Z.of_nat i < cnt p) then Some (view p (Z.of_nat i)) else None.
Proof. unfold abs. rewrite list_lookup_fmap, rangeZ_lookup. by case_decide. Qed.

Lemma abs_update p p' s :
  0 <= s < cnt p -> cnt p' = cnt p ->
  (forall i, 0 <= i < cnt p -> i <> s -> view p' i = view p i) ->
  abs p' = <[Z.to_nat s := view p' s]> (abs p).
Proof.
  intros Hs Hc Hv. apply list_eq. intros i. rewrite abs_lookup, Hc.
  destruct (decide (i = Z.to_nat s)) as [->|Hi].
  - rewrite list_lookup_insert_eq by (rewrite length_abs; lia).
    rewrite decide_True by lia. by rewrite Z2Nat.id by lia.
  - rewrite list_lookup_insert_ne by done. rewrite abs_lookup.
    case_decide; [|done]. by rewrite Hv by lia.
Qed.

Lemma abs_append p p' :
  0 <= cnt p -> cnt p' = cnt p + 1 ->
  (forall i, 0 <= i < cnt p -> view p' i = view p i) ->
  abs p' = abs p ++ [view p' (cnt p)].
Proof.
  intros H0 Hc Hv. apply list_eq. intros i. rewrite abs_lookup, Hc.
  destruct (decide (Z.of_nat i < cnt p)).
  - rewrite decide_True by lia. rewrite lookup_app_l by (rewrite length_abs; lia).
    rewrite abs_lookup, decide_True by done. by rewrite Hv by lia.
  - rewrite lookup_app_r by (rewrite length_abs; lia). rewrite length_abs by lia.
    case_decide.
    + replace (i - Z.to_nat (cnt p))%nat with 0%nat by lia.
      cbn. do 2 f_equal. lia.
    + by rewrite lookup_ge_None_2 by (cbn; lia).
Qed.

Lemma view_same p p' i :
  entry p' i = entry p i ->
  (e_off p i <> 0 -> sub p' (e_off p i) (e_len p i) = sub p (e_off p i) (e_len p i)) ->
  view p' i = view p i.
Proof.
  unfold entry, view. intros [= -> -> ->] Hs.
  destruct (e_off p i =? 0) eqn:E; bools; [done|]. by rewrite Hs.
Qed.

(** ** Frame lemmas: what a write leaves alone *)

Definition slot_bytes (off len gen : Z) : bytes := le_enc 2 off ++ le_enc 2 len ++ le_enc 4 gen.

Lemma blen_slot_bytes off len gen : blen (slot_bytes off len gen) = 8.
Proof. reflexivity. Qed.
#[export] Hint Rewrite blen_slot_bytes : bic.

Lemma slot_bytes_ok off len gen : bytes_ok (slot_bytes off len gen).
Proof. unfold slot_bytes. repeat (apply Forall_app_2; [apply le_enc_ok|]). apply le_enc_ok. Qed.
#[export] Hint Resolve slot_bytes_ok : bic.

Lemma write_slot_eq s off len gen p :
  0 <= s -> 72 + s * 8 <= blen p ->
  write_slot s off len gen p = (Val tt, patch p (64 + s * 8) (slot_bytes off len gen)).
Proof.
  intros Hs Hl. unfold write_slot, write_u16, slot_offset, PAGE_HEADER_BYTES, SLOT_BYTES. run.
  rewrite copy_at_in by blia.
  rewrite copy_at_chain by (reflexivity || blia).
  by rewrite copy_at_chain by (reflexivity || blia).
Qed.

(** A write outside the header and directory entry [i]. *)
Lemma entry_frame p a v i :
  0 <= a -> 0 <= i -> a + blen v <= blen p -> 72 + i * 8 <= blen p ->
  72 + i * 8 <= a \/ a + blen v <= 64 + i * 8 ->
  entry (patch p a v) i = entry p i.
Proof.
  intros. pose proof (blen_nonneg v).
  unfold entry, e_off, e_len, e_gen, u16_at, u32_at.
  by rewrite !sub_patch_disjoint by lia.
Qed.

Lemma entry_set p i off len gen :
  0 <= i -> 72 + i * 8 <= blen p -> is_u16 off -> is_u16 len -> is_u32 gen ->
  entry (patch p (64 + i * 8) (slot_bytes off len gen)) i = (off, len, gen).
Proof.
  intros Hi Hl Ho Hn Hg. unfold entry, e_off, e_len, e_gen, u16_at, u32_at.
  rewrite !sub_patch_within by blia.
  replace (64 + i * 8 - (64 + i * 8)) with 0 by lia.
  replace (64 + i * 8 + 2 - (64 + i * 8)) with 2 by lia.
  replace (64 + i * 8 + 4 - (64 + i * 8)) with 4 by lia.
  change (sub (slot_bytes off len gen) 0 2) with (le_enc 2 off).
  change (sub (slot_bytes off len gen) 2 2) with (le_enc 2 len).
  change (sub (slot_bytes off len gen) 4 4) with (le_enc 4 gen).
  rewrite !le_dec_enc. widths.
  change (2 ^ (8 * Z.of_nat 2)) with 65536. change (2 ^ (8 * Z.of_nat 4)) with 4294967296.
  by rewrite !Z.mod_small by lia.
Qed.

(** The header fields this file reads, as one record of values. *)
Definition hdr (p : bytes) : Z * Z * Z * Z * Z := (cnt p, fstart p, fend p, pid p, floor_of p).

Lemma hdr_inv p a b c d e :
  hdr p = (a, b, c, d, e) -> cnt p = a /\ fstart p = b /\ fend p = c /\ pid p = d /\ floor_of p = e.
Proof. unfold hdr. by intros [= -> -> -> -> ->]. Qed.

Lemma hdr_frame p a v : 64 <= a -> a + blen v <= blen p -> hdr (patch p a v) = hdr p.
Proof.
  intros. pose proof (blen_nonneg v).
  unfold hdr, cnt, fstart, fend, pid, floor_of, u16_at, u32_at, u64_at.
  by rewrite !sub_patch_disjoint by lia.
Qed.

Lemma u16_at_set p a v : 0 <= a -> a + 2 <= blen p -> is_u16 v -> u16_at (patch p a (le_enc 2 v)) a = v.
Proof.
  intros. unfold u16_at. rewrite sub_patch_same by blia. rewrite le_dec_enc.
  apply Z.mod_small. widths. change (2 ^ (8 * Z.of_nat 2)) with 65536. lia.
Qed.

Lemma u16_at_frame p a v b :
  0 <= a -> 0 <= b -> a + blen v <= blen p -> b + 2 <= a \/ a + blen v <= b ->
  u16_at (patch p a v) b = u16_at p b.
Proof. intros. unfold u16_at. by rewrite sub_patch_disjoint by lia. Qed.

Lemma hdr_set_fend p v :
  72 <= blen p -> is_u16 v ->
  hdr (patch p 38 (le_enc 2 v)) = (cnt p, fstart p, v, pid p, floor_of p).
Proof.
  intros Hl Hv. unfold hdr, cnt, fstart, fend, pid, floor_of, u32_at, u64_at.
  rewrite u16_at_set by (done || lia). rewrite !u16_at_frame, !sub_patch_disjoint by blia. done.
Qed.

Lemma hdr_set_cnt p v :
  72 <= blen p -> is_u16 v ->
  hdr (patch p 40 (le_enc 2 v)) = (v, fstart p, fend p, pid p, floor_of p).
Proof.
  intros Hl Hv. unfold hdr, cnt, fstart, fend, pid, floor_of, u32_at, u64_at.
  rewrite u16_at_set by (done || lia). rewrite !u16_at_frame, !sub_patch_disjoint by blia. done.
Qed.

Lemma hdr_set_fstart p v :
  72 <= blen p -> is_u16 v ->
  hdr (patch p 36 (le_enc 2 v)) = (cnt p, v, fend p, pid p, floor_of p).
Proof.
  intros Hl Hv. unfold hdr, cnt, fstart, fend, pid, floor_of, u32_at, u64_at.
  rewrite u16_at_set by (done || lia). rewrite !u16_at_frame, !sub_patch_disjoint by blia. done.
Qed.

(** ** Setting one slot of a prepared page *)

(** [p1] is the well-formed page [p] after the data bytes and header fields of an
    operation on slot [s] have been written, just before its directory entry is. *)
Record prepared (ps : Z) (p p1 : bytes) (s : Z) : Prop := {
  pr_len : blen p1 = ps;
  pr_ok : content_ok p1;
  pr_slot : 0 <= s < cnt p1;
  pr_cnt : cnt p <= cnt p1;
  pr_fstart : fstart p1 = 64 + 8 * cnt p1;
  pr_gap : fstart p1 <= fend p1;
  pr_fend : fend p1 <= fend p;
  pr_old : forall i, 0 <= i < cnt p1 -> i <> s -> i < cnt p;
  pr_entry : forall i, 0 <= i < cnt p -> i <> s -> entry p1 i = entry p i;
  pr_data : forall i, 0 <= i < cnt p -> i <> s -> e_off p i <> 0 ->
    sub p1 (e_off p i) (e_len p i) = sub p (e_off p i) (e_len p i)
}.

(** The range [off, off+len) may hold the tuple of slot [s]. *)
Definition fits (ps : Z) (p p1 : bytes) (s off len : Z) : Prop :=
  off <> 0 ->
  fend p1 <= off /\ 1 <= len /\ off + len <= ps - 8 /\
  (forall i, 0 <= i < cnt p -> i <> s -> e_off p i <> 0 ->
     off + len <= e_off p i \/ e_off p i + e_len p i <= off).

Section SetSlot.
Context (ps : Z) (p p1 : bytes) (s off len gen : Z).
Hypothesis W : wf ps p.
Hypothesis Pr : prepared ps p p1 s.
Hypothesis Ho : is_u16 off.
Hypothesis Hn : is_u16 len.
Hypothesis Hg : is_u32 gen.
Hypothesis Hfit : fits ps p p1 s off len.

Let p2 := patch p1 (64 + s * 8) (slot_bytes off len gen).

Lemma set_slot_room : 72 + s * 8 <= fend p1 /\ fend p1 <= ps - 8 /\ blen p1 = ps.
Proof. destruct W, Pr. lia. Qed.

Lemma set_slot_hdr : hdr p2 = hdr p1.
Proof. destruct set_slot_room as (?&?&?), Pr. apply hdr_frame; blia. Qed.

Lemma set_slot_cnt : cnt p2 = cnt p1 /\ fstart p2 = fstart p1 /\ fend p2 = fend p1.
Proof. pose proof set_slot_hdr as E. unfold hdr in E. by simplify_eq. Qed.

Lemma set_slot_entry_s : entry p2 s = (off, len, gen).
Proof. destruct set_slot_room as (?&?&?), Pr. apply entry_set; auto; lia. Qed.

Lemma set_slot_entry_i i : 0 <= i < cnt p1 -> i <> s -> entry p2 i = entry p i.
Proof.
  intros Hi Hs. destruct set_slot_room as (?&?&?).
  pose proof (pr_old _ _ _ _ Pr i Hi Hs). rewrite <- (pr_entry _ _ _ _ Pr i) by lia.
  destruct Pr. apply entry_frame; rewrite ?blen_slot_bytes; lia.
Qed.

Lemma set_slot_data a n : fend p1 <= a -> 0 <= n -> sub p2 a n = sub p1 a n.
Proof. intros. destruct set_slot_room as (?&?&?), Pr. apply sub_patch_disjoint; blia. Qed.

Lemma set_slot_view_s : view p2 s = (gen, if off =? 0 then None else Some (sub p1 off len)).
Proof.
  unfold view. pose proof set_slot_entry_s as E. unfold entry in E. simplify_eq E.
  intros -> -> ->. destruct (off =? 0) eqn:E0; bools; [done|].
  destruct (Hfit E0) as (?&?&?). by rewrite set_slot_data by lia.
Qed.

Lemma set_slot_view_i i : 0 <= i < cnt p1 -> i <> s -> view p2 i = view p i.
Proof.
  intros Hi Hs. pose proof (pr_old _ _ _ _ Pr i Hi Hs).
  apply view_same; [by apply set_slot_entry_i|]. intros Hl.
  destruct (wf_live _ _ W i) as (?&?&?); [lia|done|]. pose proof (pr_fend _ _ _ _ Pr).
  rewrite set_slot_data by lia. apply (pr_data _ _ _ _ Pr); auto; lia.
Qed.

Lemma set_slot_wf : wf ps p2.
Proof.
  destruct set_slot_cnt as (Ec&Es&Ee), set_slot_room as (?&?&?).
  pose proof set_slot_entry_s as Hes. unfold entry in Hes. simplify_eq Hes. intros Eo El Eg.
  assert (Hei : forall i, 0 <= i < cnt p1 -> i <> s -> i < cnt p /\ e_off p2 i = e_off p i /\ e_len p2 i = e_len p i).
  { intros i Hi Hs. pose proof (set_slot_entry_i i Hi Hs) as E. unfold entry in E.
    simplify_eq E. pose proof (pr_old _ _ _ _ Pr i Hi Hs). auto. }
  split; rewrite ?Ec, ?Es, ?Ee.
  - apply (wf_size _ _ W).
  - pose proof (pr_slot _ _ _ _ Pr). unfold p2. blia.
  - pose proof (pr_slot _ _ _ _ Pr). apply content_patch; [apply (pr_ok _ _ _ _ Pr)|apply slot_bytes_ok|lia|blia].
  - apply (pr_fstart _ _ _ _ Pr).
  - apply (pr_gap _ _ _ _ Pr).
  - lia.
  - intros i Hi Hl. destruct (decide (i = s)) as [->|Hs].
    + rewrite Eo, El in *. destruct (Hfit Hl) as (?&?&?&?). lia.
    + destruct (Hei i Hi Hs) as (?&E1&E2). rewrite E1, E2 in *.
      destruct (wf_live _ _ W i) as (?&?&?); [lia|done|]. pose proof (pr_fend _ _ _ _ Pr). lia.
  - intros i j Hi Hj Hij Hli Hlj. unfold apart.
    destruct (decide (i = s)) as [->|Hs]; [|destruct (decide (j = s)) as [->|Hs']].
    + destruct (Hei j) as (?&E1&E2); auto. rewrite Eo, El, E1, E2 in *.
      destruct (Hfit Hli) as (?&?&?&D). apply D; auto; lia.
    + destruct (Hei i) as (?&E1&E2); auto. rewrite Eo, El, E1, E2 in *.
      destruct (Hfit Hlj) as (?&?&?&D). destruct (D i); auto; lia.
    + destruct (Hei i) as (?&E1&E2), (Hei j) as (?&E3&E4); auto.
      rewrite E1, E2, E3, E4 in *. apply (wf_apart _ _ W); auto; lia.
Qed.

Lemma set_slot_run : write_slot s off len gen p1 = (Val tt, p2).
Proof. destruct set_slot_room as (?&?&?), Pr. apply write_slot_eq; lia. Qed.
End SetSlot.

(** ** Writing a tuple into the free gap *)

(** Where a tuple written at the end of the gap starts, and the page with it
    written and the gap's end moved down. *)
Definition gap_at (p v : bytes) : Z := fend p - blen v.
Definition gap_page (p v : bytes) : bytes :=
  patch (patch p (gap_at p v) v) 38 (le_enc 2 (gap_at p v)).

Section GapWrite.
Context (ps : Z) (p v : bytes).
Hypothesis W : wf ps p.
Hypothesis Hv : bytes_ok v.
Hypothesis Hroom : blen v <= fend p - fstart p.

Abbreviation d := (gap_at p v).
Abbreviation p1 := (gap_page p v).

Lemma gap_bounds : 64 + 8 * cnt p <= d /\ d + blen v = fend p /\ fend p <= ps - 8 /\
  0 <= cnt p /\ blen p = ps /\ is_u16 d /\ 72 <= ps /\ 0 <= blen v.
Proof.
  destruct (cnt_bound ps p W) as (?&?&?). pose proof (blen_nonneg v). destruct W.
  unfold gap_at. widths. repeat split; lia.
Qed.

Lemma gap_run {E} :
  @copy_at E d v p = (Val tt, patch p d v) /\
  set_free_end d (patch p d v) = (Val tt, p1).
Proof.
  destruct gap_bounds as (?&?&?&?&?&?&?&?). split.
  - apply copy_at_in; lia.
  - unfold set_free_end, write_u16. apply copy_at_in; blia.
Qed.

Lemma gap_len : blen p1 = ps.
Proof. destruct gap_bounds as (?&?&?&?&?&?&?&?). unfold gap_page. blia. Qed.

Lemma gap_ok : content_ok p1.
Proof. destruct gap_bounds as (?&?&?&?&?&?&?&?), W. unfold gap_page. repeat (apply content_patch; auto with bic; try blia). Qed.

Lemma gap_hdr : hdr p1 = (cnt p, fstart p, d, pid p, floor_of p).
Proof.
  destruct gap_bounds as (?&?&?&?&?&?&?&?). unfold gap_page.
  rewrite hdr_set_fend by (done || blia).
  assert (E : hdr (patch p d v) = hdr p) by (apply hdr_frame; lia).
  unfold hdr in E. by simplify_eq E; intros -> -> _ -> ->.
Qed.

Lemma gap_entry i : 0 <= i < cnt p -> entry p1 i = entry p i.
Proof.
  intros Hi. destruct gap_bounds as (?&?&?&?&?&?&?&?). unfold gap_page.
  rewrite !entry_frame by blia. done.
Qed.

Lemma gap_data a n : fend p <= a -> 0 <= n -> sub p1 a n = sub p a n.
Proof.
  intros. destruct gap_bounds as (?&?&?&?&?&?&?&?). unfold gap_page.
  by rewrite !sub_patch_disjoint by blia.
Qed.

Lemma gap_new : sub p1 d (blen v) = v.
Proof.
  destruct gap_bounds as (?&?&?&?&?&?&?&?). unfold gap_page.
  rewrite sub_patch_disjoint by blia. apply sub_patch_same; lia.
Qed.

Lemma gap_prepared s : 0 <= s < cnt p -> prepared ps p p1 s.
Proof.
  intros Hs. destruct gap_bounds as (?&?&?&?&?&?&?&?).
  pose proof gap_hdr as Hh. apply hdr_inv in Hh as (E1&E2&E3&_&_). destruct W.
  split; rewrite ?E1, ?E2, ?E3; try lia.
  - apply gap_len.
  - apply gap_ok.
  - intros i Hi _. by apply gap_entry.
  - intros i Hi _ Hl. destruct (wf_live0 i) as (?&?&?); auto. apply gap_data; lia.
Qed.

Lemma gap_fits s p2 : v <> [] -> fend p2 = d -> fits ps p p2 s d (blen v).
Proof.
  intros Hne E _. destruct gap_bounds as (?&?&?&?&?&?&?&?).
  assert (1 <= blen v) by (destruct v; [done|unfold blen; cbn; lia]).
  repeat split; try lia. intros i Hi Hs Ho. destruct (wf_live _ _ W i) as (?&?&?); auto. lia.
Qed.
End GapWrite.

Lemma list_find_view p n :
  list_find (fun s => is_dead s = true) (view p <$> rangeZ 0 n) =
  (fun x : nat * Z => (x.1, view p x.2)) <$> list_find (fun i => (e_off p i =? 0) = true) (rangeZ 0 n).
Proof.
  rewrite list_find_fmap.
  rewrite (list_find_ext _ (fun i => (e_off p i =? 0) = true)).
  - by destruct (list_find _ _) as [[]|].
  - intros x. unfold compose, view, is_dead. cbn. by destruct (e_off p x =? 0).
Qed.

(** The first dead slot of the directory is the first dead slot of the abstract page. *)
Lemma find_dead_abs ps p :
  wf ps p ->
  match snd <$> list_find (fun i => (e_off p i =? 0) = true) (rangeZ 0 (cnt p)) with
  | Some s => 0 <= s < cnt p /\ e_off p s = 0 /\
      list_find (fun s => is_dead s = true) (abs p) = Some (Z.to_nat s, view p s)
  | None => list_find (fun s => is_dead s = true) (abs p) = None
  end.
Proof.
  intros W. unfold abs. rewrite list_find_view.
  destruct (list_find _ (rangeZ 0 (cnt p))) as [[k s]|] eqn:E; cbn; [|done].
  apply list_find_Some in E as (Hk&He&_). bools.
  rewrite rangeZ_lookup in Hk. case_decide; simplify_eq.
  split; [lia|]. split; [done|]. by rewrite Nat2Z.id.
Qed.

(** ** Insertion *)

Definition free_of (p : bytes) : Z := fend p - fstart p.

Definition has_dead (p : bytes) : bool :=
  match list_find (fun s => is_dead s = true) (abs p) with Some _ => true | None => false end.

(** Bytes of free space an insertion of [v] takes. *)
Definition insert_needs (p v : bytes) : Z := blen v + (if has_dead p then 0 else SLOT_BYTES).

Lemma mod_U32 x : is_u32 (x mod U32).
Proof. widths. apply Z.mod_pos_bound. lia. Qed.

Lemma too_large_eq {A} ps p n :
  wf ps p -> @too_large A n p = (Err (ValueTooLarge (pid p) n (free_of p)), p).
Proof.
  intros W. unfold too_large. run. by rewrite (page_id_eq ps), (free_space_eq ps) by done.
Qed.

Lemma nonempty_blen (v : bytes) : v <> [] -> 1 <= blen v.
Proof. destruct v; [done|]. unfold blen. cbn. lia. Qed.

Section Insert.
Context (ps : Z) (p v : bytes).
Hypothesis W : wf ps p.
Hypothesis Hv : bytes_ok v.
Hypothesis Hne : v <> [].
Hypothesis Hroom : insert_needs p v <= free_of p.

Abbreviation d := (gap_at p v).
Abbreviation q := (gap_page p v).

Lemma insert_room : blen v <= fend p - fstart p /\ 1 <= blen v /\ is_u16 (blen v).
Proof.
  pose proof (nonempty_blen v Hne). destruct (cnt_bound ps p W) as (?&?&?).
  unfold insert_needs, free_of, SLOT_BYTES in Hroom. destruct W. widths.
  destruct (has_dead p); lia.
Qed.

(** The prefix of [insert] up to the choice of the slot. *)
Lemma insert_start :
  insert v p =
  (do (slot, gen) <-
     (match snd <$> list_find (fun i => (e_off p i =? 0) = true) (rangeZ 0 (cnt p)) with
      | Some slot =>
          do (_, _, previous) <- reads (fun p => slot_entry p slot) ;;
          st_ret (slot, (previous + 1) mod U32)
      | None =>
          do slot <- reads slot_count ;;
          set_slot_count (slot + 1) ;;;
          do fs <- reads free_start ;;
          set_free_start (fs + SLOT_BYTES) ;;;
          do floor <- reads generation_floor ;;
          st_ret (slot, (floor + 1) mod U32)
      end) ;;
   write_slot slot d (blen v) gen ;;;
   do id <- reads page_id ;;
   st_ret (mkLocator id slot gen)) q.
Proof.
  destruct insert_room as (Hr&?&?). pose proof (find_dead_abs ps p W) as Hd.
  unfold insert. rewrite bool_decide_eq_false_2 by done. run.
  rewrite (find_dead_slot_eq ps) by done. run. rewrite (free_space_eq ps) by done. run.
  unfold free_of, insert_needs, has_dead in Hroom.
  rewrite (proj2 (Z.ltb_ge _ _)).
  2:{ destruct (snd <$> _); [destruct Hd as (_&_&Hd)|]; rewrite Hd in Hroom; unfold SLOT_BYTES in *; lia. }
  run. rewrite (free_end_eq ps) by done. run. change (fend p - blen v) with d.
  destruct (@gap_run ps p v W Hr PageError) as [-> ->]. done.
Qed.

(** Reusing the dead slot [s]. *)
Lemma insert_recycle s :
  snd <$> list_find (fun i => (e_off p i =? 0) = true) (rangeZ 0 (cnt p)) = Some s ->
  exists p', insert v p = (Val (mkLocator (pid p) s ((e_gen p s + 1) mod U32)), p') /\
    wf ps p' /\ abs p' = <[Z.to_nat s := ((e_gen p s + 1) mod U32, Some v)]> (abs p) /\
    pid p' = pid p /\ floor_of p' = floor_of p /\ free_of p' = free_of p - blen v.
Proof.
  intros Hf. pose proof (find_dead_abs ps p W) as Hd. rewrite Hf in Hd.
  destruct Hd as (Hs&Hdead&Hfa). destruct insert_room as (Hr&?&?).
  destruct (gap_bounds ps p v W Hr) as (?&?&?&?&?&Hd16&?&?).
  set (g := (e_gen p s + 1) mod U32).
  assert (Hg : is_u32 g) by apply mod_U32.
  pose proof (gap_prepared ps p v W Hv Hr s Hs) as Pr.
  pose proof (gap_hdr ps p v W Hr) as Hh.
  set (p' := patch q (64 + s * 8) (slot_bytes d (blen v) g)).
  pose proof (set_slot_hdr ps p q s d (blen v) g W Pr) as Hp'. rewrite Hh in Hp'.
  unfold hdr in Hh, Hp'. simplify_eq Hh. intros E1 E2 E3 E4 E5.
  fold p' in Hp'. simplify_eq Hp'. intros C1 C2 C3 C4 C5.
  assert (Fi : fits ps p q s d (blen v)) by by apply (gap_fits ps).
  assert (Wp : wf ps p') by (apply (set_slot_wf ps p); auto).
  exists p'. split; [|split; [done|]].
  - rewrite insert_start, Hf. run. pose proof (pr_len _ _ _ _ Pr).
    rewrite slot_entry_read by lia. run. pose proof (gap_entry ps p v W Hr s Hs) as Ee.
    unfold entry in *. simplify_eq Ee. intros _ _ ->. run. fold g.
    rewrite (set_slot_run ps p) by done. fold p'. run.
    by rewrite (page_id_eq ps), C4 by done.
  - split; [|unfold free_of; rewrite C2, C3, C4, C5; repeat split; unfold gap_at; lia].
    rewrite (abs_update p _ s); [|done|done|].
    + unfold p'. rewrite (set_slot_view_s ps p) by auto.
      rewrite (proj2 (Z.eqb_neq _ _)) by lia. by rewrite (gap_new ps).
    + intros i Hi Hsi. apply (set_slot_view_i ps p); auto; lia.
Qed.

(** Appending a directory entry: the page just before its slot is written. *)
Definition grown_page : bytes :=
  patch (patch q 40 (le_enc 2 (cnt p + 1))) 36 (le_enc 2 (fstart p + SLOT_BYTES)).

Section Append.
Hypothesis Hnone : list_find (fun s => is_dead s = true) (abs p) = None.

Lemma append_room : fstart p + 8 <= d /\ is_u16 (cnt p + 1) /\ is_u16 (fstart p + 8).
Proof.
  destruct (cnt_bound ps p W) as (?&?&?), insert_room as (?&?&?).
  unfold insert_needs, free_of, has_dead, SLOT_BYTES in Hroom. rewrite Hnone in Hroom.
  unfold gap_at. destruct W. widths. repeat split; lia.
Qed.

Lemma grown_hdr : hdr grown_page = (cnt p + 1, fstart p + 8, d, pid p, floor_of p).
Proof.
  destruct append_room as (?&?&?), insert_room as (Hr&?&?).
  destruct (gap_bounds ps p v W Hr) as (?&?&?&?&?&?&?&?).
  pose proof (gap_len ps p v W Hr). pose proof (gap_hdr ps p v W Hr) as Hh.
  unfold grown_page. rewrite hdr_set_fstart by (done || blia).
  pose proof (hdr_set_cnt q (cnt p + 1)) as Hc. unfold hdr in *.
  simplify_eq Hh. intros E1 E2 E3 E4 E5. rewrite E2, E3, E4, E5 in Hc.
  specialize (Hc ltac:(lia) ltac:(done)). by apply hdr_inv in Hc as (->&_&->&->&->).
Qed.

Lemma grown_frame :
  blen grown_page = ps /\ content_ok grown_page /\
  (forall i, 0 <= i < cnt p -> entry grown_page i = entry p i) /\
  (forall a n, d <= a -> 0 <= n -> sub grown_page a n = sub q a n).
Proof.
  destruct append_room as (?&?&?), insert_room as (Hr&?&?).
  destruct (gap_bounds ps p v W Hr) as (?&?&?&?&?&?&?&?).
  pose proof (gap_len ps p v W Hr). pose proof (gap_ok ps p v W Hv Hr).
  unfold grown_page. split; [blia|]. split; [repeat (apply content_patch; auto with bic; try blia)|]. split; intros.
  - rewrite !entry_frame by blia. by apply (gap_entry ps).
  - by rewrite !sub_patch_disjoint by blia.
Qed.

Lemma grown_prepared : prepared ps p grown_page (cnt p).
Proof.
  destruct append_room as (?&?&?), insert_room as (Hr&?&?).
  destruct (gap_bounds ps p v W Hr) as (?&?&?&?&?&?&?&?).
  destruct grown_frame as (?&?&He&Hs). pose proof grown_hdr as Hh. unfold hdr in Hh.
  simplify_eq Hh. intros E1 E2 E3 E4 E5.
  split; rewrite ?E1, ?E2, ?E3; try (done || lia).
  - rewrite (wf_fstart _ _ W). lia.
  - intros i Hi _. by apply He.
  - intros i Hi _ Hl. destruct (wf_live _ _ W i) as (?&?&?); auto.
    rewrite Hs by lia. apply (gap_data ps); auto; lia.
Qed.

Lemma insert_append :
  exists p', insert v p = (Val (mkLocator (pid p) (cnt p) ((floor_of p + 1) mod U32)), p') /\
    wf ps p' /\ abs p' = abs p ++ [((floor_of p + 1) mod U32, Some v)] /\
    pid p' = pid p /\ floor_of p' = floor_of p /\ free_of p' = free_of p - blen v - 8.
Proof.
  pose proof (find_dead_abs ps p W) as Hd. destruct insert_room as (Hr&?&?).
  destruct (gap_bounds ps p v W Hr) as (?&?&?&?&?&Hd16&?&?), append_room as (?&?&?).
  set (g := (floor_of p + 1) mod U32).
  assert (Hg : is_u32 g) by apply mod_U32.
  pose proof grown_prepared as Pr. pose proof grown_hdr as Hh.
  pose proof (pr_len _ _ _ _ Pr).
  set (p' := patch grown_page (64 + cnt p * 8) (slot_bytes d (blen v) g)).
  pose proof (set_slot_hdr ps p _ _ d (blen v) g W Pr) as Hp'. rewrite Hh in Hp'.
  unfold hdr in Hh, Hp'. simplify_eq Hh. intros E1 E2 E3 E4 E5.
  fold p' in Hp'. simplify_eq Hp'. intros C1 C2 C3 C4 C5.
  assert (Fi : fits ps p grown_page (cnt p) d (blen v)) by by apply (gap_fits ps).
  assert (Wp : wf ps p') by (apply (set_slot_wf ps p); auto).
  exists p'. split; [|split; [done|]].
  - rewrite insert_start. destruct (snd <$> _) as [s|]; [by destruct Hd as (_&_&Hd); congruence|].
    pose proof (gap_len ps p v W Hr) as Lq. pose proof (gap_hdr ps p v W Hr) as Hq.
    unfold hdr in Hq. simplify_eq Hq. intros Q1 Q2 Q3 Q4 Q5.
    run. destruct (header_reads q) as (->&_); [lia|]. run. rewrite Q1.
    unfold set_slot_count, set_free_start, write_u16. rewrite copy_at_in by blia. run.
    destruct (header_reads (patch q 40 (le_enc 2 (cnt p + 1)))) as (_&->&_); [blia|]. run.
    pose proof (hdr_set_cnt q (cnt p + 1) ltac:(lia) ltac:(done)) as Hc.
    apply hdr_inv in Hc as (_&->&_). rewrite Q2, copy_at_in by blia. fold grown_page. run.
    destruct (header_reads grown_page) as (_&_&_&_&->); [lia|]. run. rewrite E5. fold g.
    rewrite (set_slot_run ps p) by done. fold p'. run. by rewrite (page_id_eq ps), C4 by done.
  - split; [|unfold free_of; rewrite C2, C3, C4, C5; repeat split; unfold gap_at; lia].
    rewrite (abs_append p p'); [|done|done|].
    + unfold p'. rewrite (set_slot_view_s ps p) by auto.
      rewrite (proj2 (Z.eqb_neq _ _)) by lia. destruct grown_frame as (_&_&_&->); [|lia|lia].
      by rewrite (gap_new ps).
    + intros i Hi. apply (set_slot_view_i ps p); auto; lia.
Qed.
End Append.
End Insert.
