(* ===== verification/SlottedRefine.v ===== *)
(** * Slotted heap pages: every operation refines the abstract page

    Built on [SlottedSpec]: reads, insertion, deletion, update and compaction
    of [Slotted] against the abstract page, and the lifetime guarantee of tuple
    locators over arbitrary histories of a page. *)

From stdpp Require Import base tactics list numbers gmap.
From Stdlib Require Import ZArith Lia.
From S2P Require Import Prelude Bytes Errors PageFormat Slotted SlottedSpec.
Local Open Scope Z_scope.
Local Open Scope bic_scope.

(** ** Reads *)

Lemma abs_at p s : 0 <= s < cnt p -> abs p !! Z.to_nat s = Some (view p s).
Proof. intros. rewrite abs_lookup, decide_True by lia. by rewrite Z2Nat.id by lia. Qed.

Lemma abs_past p s : 0 <= cnt p -> cnt p <= s -> abs p !! Z.to_nat s = None.
Proof. intros. rewrite abs_lookup, decide_False by lia. done. Qed.

Lemma live_slice {E} ps p s :
  wf ps p -> 0 <= s < cnt p -> e_off p s <> 0 ->
  @slice E p (e_off p s) (e_off p s + e_len p s) = Val (sub p (e_off p s) (e_len p s)).
Proof.
  intros W Hs Hl. destruct (wf_live _ _ W s) as (?&?&?); auto.
  destruct (cnt_bound ps p W) as (?&?&?). pose proof (wf_len _ _ W).
  rewrite slice_in by lia. do 2 f_equal. lia.
Qed.

Lemma get_eq ps p l : wf ps p -> 0 <= loc_slot l -> get p l = spec_get (pid p) (abs p) l.
Proof.
  intros W Hs. unfold get, spec_get. rewrite (slot_entry_eq ps), (page_id_eq ps) by done.
  destruct (cnt_bound ps p W) as (?&?&?).
  destruct (cnt p <=? loc_slot l) eqn:E; bools; run.
  - rewrite abs_past by lia. rewrite length_abs by lia. by rewrite Z2Nat.id by lia.
  - rewrite abs_at by lia. unfold entry, view, DEAD_OFFSET.
    destruct (e_off p (loc_slot l) =? 0) eqn:E0; bools; [done|].
    destruct (e_gen p (loc_slot l) =? loc_generation l); cbn [negb]; [|done].
    apply (live_slice ps); auto; lia.
Qed.

(** [spec_get] succeeds exactly on a live slot of the locator's generation. *)
Lemma spec_get_val id l loc v :
  spec_get id l loc = Val v <-> l !! Z.to_nat (loc_slot loc) = Some (loc_generation loc, Some v).
Proof.
  unfold spec_get. destruct (l !! _) as [[g [w|]]|]; [|naive_solver..].
  destruct (g =? loc_generation loc) eqn:E; bools; naive_solver.
Qed.

Lemma spec_get_no_panic id l loc : spec_get id l loc <> Panic.
Proof. unfold spec_get. by destruct (l !! _) as [[g [w|]]|]; [destruct (g =? _)|..]. Qed.

(** The checks of [delete] and [update] are those of [get]. *)
Lemma checked_entry_eq ps p l :
  wf ps p -> 0 <= loc_slot l ->
  checked_entry l p =
    (match spec_get (pid p) (abs p) l with
     | Val _ => Val (entry p (loc_slot l)) | Err e => Err e | Panic => Panic end, p).
Proof.
  intros W Hs. rewrite <- (get_eq ps) by done. unfold checked_entry, get. run.
  rewrite (slot_entry_eq ps), (page_id_eq ps) by done.
  destruct (cnt p <=? loc_slot l) eqn:E; bools; [done|]. unfold entry. run.
  unfold DEAD_OFFSET.
  destruct (e_off p (loc_slot l) =? 0) eqn:E0; bools; run; [by rewrite (page_id_eq ps)|].
  destruct (e_gen p (loc_slot l) =? loc_generation l); cbn [negb]; run; [|by rewrite (page_id_eq ps)].
  rewrite (live_slice ps) by (auto; lia). done.
Qed.

(** What a successful check establishes. *)
Record checked (ps : Z) (p : bytes) (l : TupleLocator) (v : bytes) : Prop := {
  ck_slot : 0 <= loc_slot l < cnt p;
  ck_live : e_off p (loc_slot l) <> 0;
  ck_gen : e_gen p (loc_slot l) = loc_generation l;
  ck_data : v = sub p (e_off p (loc_slot l)) (e_len p (loc_slot l));
  ck_blen : blen v = e_len p (loc_slot l);
  ck_range : fend p <= e_off p (loc_slot l) /\ 1 <= e_len p (loc_slot l) /\
             e_off p (loc_slot l) + e_len p (loc_slot l) <= ps - 8
}.

Lemma check_inv ps p l v :
  wf ps p -> 0 <= loc_slot l -> spec_get (pid p) (abs p) l = Val v -> checked ps p l v.
Proof.
  intros W Hs Hg%spec_get_val. destruct (cnt_bound ps p W) as (?&?&?).
  destruct (decide (loc_slot l < cnt p)).
  2:{ by rewrite abs_past in Hg by lia. }
  rewrite abs_at in Hg by lia. unfold view in Hg.
  destruct (e_off p (loc_slot l) =? 0) eqn:E0; bools; [done|]. injection Hg as Hg <-.
  destruct (wf_live _ _ W (loc_slot l)) as (?&?&?); [lia|done|]. pose proof (wf_len _ _ W).
  split; auto; try lia. apply blen_sub; lia.
Qed.

(** ** Overwriting the bytes of one live tuple *)

Section Overwrite.
Context (ps : Z) (p : bytes) (s : Z) (w : bytes).
Hypothesis W : wf ps p.
Hypothesis Hs : 0 <= s < cnt p.
Hypothesis Hl : e_off p s <> 0.
Hypothesis Hw : bytes_ok w.
Hypothesis Hn : blen w = e_len p s.

Definition overwritten : bytes := patch p (e_off p s) w.

Lemma ow_bounds : 64 + 8 * cnt p <= fend p /\ fend p <= e_off p s /\ 1 <= e_len p s /\
  e_off p s + e_len p s <= ps - 8 /\ blen p = ps.
Proof.
  destruct (cnt_bound ps p W) as (?&?&?), (wf_live _ _ W s) as (?&?&?); auto.
  pose proof (wf_len _ _ W). lia.
Qed.

Lemma ow_len : blen overwritten = ps.
Proof. destruct ow_bounds as (?&?&?&?&?). unfold overwritten. blia. Qed.

Lemma ow_hdr : hdr overwritten = hdr p.
Proof. destruct ow_bounds as (?&?&?&?&?). apply hdr_frame; lia. Qed.

Lemma ow_entry i : 0 <= i < cnt p -> entry overwritten i = entry p i.
Proof. intros. destruct ow_bounds as (?&?&?&?&?). apply entry_frame; lia. Qed.

Lemma ow_data i :
  0 <= i < cnt p -> i <> s -> e_off p i <> 0 ->
  sub overwritten (e_off p i) (e_len p i) = sub p (e_off p i) (e_len p i).
Proof.
  intros Hi His Hli. destruct ow_bounds as (?&?&?&?&?), (wf_live _ _ W i) as (?&?&?); auto.
  destruct (wf_apart _ _ W s i); auto; apply sub_patch_disjoint; lia.
Qed.

Lemma ow_new : sub overwritten (e_off p s) (e_len p s) = w.
Proof. destruct ow_bounds as (?&?&?&?&?). apply sub_patch_same; lia. Qed.

Lemma ow_prepared : prepared ps p overwritten s.
Proof.
  pose proof ow_hdr as Hh. apply hdr_inv in Hh as (E1&E2&E3&_&_).
  destruct W. split; rewrite ?E1, ?E2, ?E3; auto using ow_len, ow_data, ow_entry; try lia.
  destruct ow_bounds as (?&?&?&?&?). apply content_patch; auto; lia.
Qed.

Lemma ow_wf : wf ps overwritten.
Proof.
  pose proof ow_hdr as Hh. apply hdr_inv in Hh as (E1&E2&E3&_&_).
  assert (He : forall i, 0 <= i < cnt p -> e_off overwritten i = e_off p i /\ e_len overwritten i = e_len p i).
  { intros i Hi. pose proof (ow_entry i Hi) as E. unfold entry in E. by simplify_eq E. }
  pose proof ow_len. pose proof W as [].  split; rewrite ?E1, ?E2, ?E3; auto.
  - destruct ow_bounds as (?&?&?&?&?). apply content_patch; auto; lia.
  - intros i Hi. destruct (He i Hi) as [-> ->]. auto.
  - intros i j Hi Hj. unfold apart. destruct (He i Hi) as [-> ->], (He j Hj) as [-> ->].
    apply wf_apart; done.
Qed.

Lemma ow_view i : 0 <= i < cnt p -> i <> s -> view overwritten i = view p i.
Proof. intros Hi His. apply view_same; [by apply ow_entry|]. by apply ow_data. Qed.
End Overwrite.

(** Rewriting slot [s] of a page prepared from a page that agrees with [p] on
    every other slot. *)
Lemma set_slot_abs ps p q q1 s off len gen :
  wf ps q -> prepared ps q q1 s -> is_u16 off -> is_u16 len -> is_u32 gen ->
  fits ps q q1 s off len ->
  cnt q = cnt p -> cnt q1 = cnt p ->
  (forall i, 0 <= i < cnt p -> i <> s -> view q i = view p i) ->
  abs (patch q1 (64 + s * 8) (slot_bytes off len gen)) =
  <[Z.to_nat s := (gen, if off =? 0 then None else Some (sub q1 off len))]> (abs p).
Proof.
  intros W Pr Ho Hn Hg Hf Hq Hq1 Hv.
  assert (Hs : 0 <= s < cnt p) by (rewrite <- Hq1; apply (pr_slot _ _ _ _ Pr)).
  destruct (set_slot_cnt ps q q1 s off len gen W Pr) as (Hc&_).
  rewrite (abs_update p _ s); [|done|congruence|].
  - by rewrite (set_slot_view_s ps q).
  - intros i Hi His. rewrite (set_slot_view_i ps q) by (auto; lia). by apply Hv.
Qed.

(** ** Deletion *)

Lemma delete_val ps p l v :
  wf ps p -> 0 <= loc_slot l -> spec_get (pid p) (abs p) l = Val v ->
  exists p', delete l p = (Val tt, p') /\ wf ps p' /\
    abs p' = <[Z.to_nat (loc_slot l) := (loc_generation l, None)]> (abs p) /\
    hdr p' = hdr p /\
    sub p' (e_off p (loc_slot l)) (e_len p (loc_slot l)) = zeros (blen v).
Proof.
  intros W H0 Hget. destruct (check_inv ps p l v W H0 Hget) as [Hs Hl Hgen _ Hlen Hr].
  set (s := loc_slot l) in *. set (w := zeros (e_len p s)).
  assert (Hw : blen w = e_len p s) by (apply blen_zeros; lia).
  assert (Hok : bytes_ok w) by apply zeros_ok.
  destruct (e_bounds ps p s W Hs) as (?&?&?), (ow_bounds ps p s W Hs Hl) as (?&?&?&?&?).
  pose proof (ow_prepared ps p s w W Hs Hl Hok Hw) as Pr.
  assert (Fi : fits ps p (overwritten p s w) s 0 (e_len p s)) by by intros [].
  exists (patch (overwritten p s w) (64 + s * 8) (slot_bytes 0 (e_len p s) (loc_generation l))).
  split; [|split; [|split; [|split]]].
  - unfold delete. run. rewrite (checked_entry_eq ps), Hget by done. unfold entry. run. fold s.
    rewrite fill0_in by lia. run. rewrite Z.add_simpl_l. fold w (overwritten p s w).
    rewrite Hgen. by apply (set_slot_run ps p).
  - rewrite <- Hgen. apply (set_slot_wf ps p); auto. widths; lia.
  - rewrite <- Hgen. rewrite (set_slot_abs ps p p); auto; [widths; lia|].
    pose proof (ow_hdr ps p s w W Hs Hl Hw) as Hh. by apply hdr_inv in Hh as (->&_).
  - rewrite (set_slot_hdr ps p) by done. by apply (ow_hdr ps).
  - rewrite (set_slot_data ps p) by
      (auto; pose proof (pr_fend _ _ _ _ Pr); lia).
    rewrite Hlen. by apply (ow_new ps).
Qed.

Lemma check_fails ps p l e :
  wf ps p -> 0 <= loc_slot l -> spec_get (pid p) (abs p) l = Err e ->
  delete l p = (Err e, p) /\ forall v, update l v p = (Err e, p).
Proof.
  intros W Hs Hg. unfold delete, update. run. by rewrite (checked_entry_eq ps), Hg by done.
Qed.

(** ** Update *)

Definition update_needs (old v : bytes) : Z := if blen v <=? blen old then 0 else blen v.

Section Update.
Context (ps : Z) (p : bytes) (l : TupleLocator) (old v : bytes).
Hypothesis W : wf ps p.
Hypothesis H0 : 0 <= loc_slot l.
Hypothesis Hget : spec_get (pid p) (abs p) l = Val old.
Hypothesis Hv : bytes_ok v.
Hypothesis Hne : v <> [].

Definition updates_to (need : Z) (p' : bytes) : Prop :=
  update l v p = (Val tt, p') /\ wf ps p' /\
  abs p' = <[Z.to_nat (loc_slot l) := (loc_generation l, Some v)]> (abs p) /\
  pid p' = pid p /\ floor_of p' = floor_of p /\ free_of p' = free_of p - need.

Lemma update_in_place : blen v <= blen old -> exists p', updates_to 0 p'.
Proof.
  intros Hle. destruct (check_inv ps p l old W H0 Hget) as [Hs Hl Hgen _ Hlen Hr].
  set (s := loc_slot l) in *. set (w := v ++ zeros (e_len p s - blen v)).
  pose proof (nonempty_blen v Hne).
  assert (Hw : blen w = e_len p s) by (unfold w; blia).
  assert (Hok : bytes_ok w) by (apply Forall_app_2; [done|apply zeros_ok]).
  destruct (e_bounds ps p s W Hs) as (Ho&Hn&Hg), (ow_bounds ps p s W Hs Hl) as (?&?&?&?&?).
  pose proof (ow_prepared ps p s w W Hs Hl Hok Hw) as Pr.
  pose proof (ow_hdr ps p s w W Hs Hl Hw) as Hh.
  pose proof (hdr_inv _ _ _ _ _ _ Hh) as (E1&E2&E3&E4&E5).
  assert (Hv16 : is_u16 (blen v)) by (widths; lia).
  assert (Fi : fits ps p (overwritten p s w) s (e_off p s) (blen v)).
  { intros _. repeat split; try lia. intros i Hi His Hli.
    destruct (wf_apart _ _ W s i); auto; lia. }
  pose proof (set_slot_hdr ps p _ _ (e_off p s) (blen v) (e_gen p s) W Pr) as Hp.
  rewrite Hh in Hp. apply hdr_inv in Hp as (C1&C2&C3&C4&C5).
  exists (patch (overwritten p s w) (64 + s * 8) (slot_bytes (e_off p s) (blen v) (e_gen p s))).
  unfold updates_to. split; [|split; [by apply (set_slot_wf ps p)|split]].
  - unfold update. run. rewrite (checked_entry_eq ps), Hget by done. unfold entry. run. fold s.
    rewrite bool_decide_eq_false_2, (proj2 (Z.leb_le _ _)) by (done || lia). run.
    rewrite copy_at_in by lia. run. rewrite fill0_in by blia. run.
    replace (e_off p s + e_len p s - (e_off p s + blen v)) with (e_len p s - blen v) by lia.
    rewrite patch_patch_adj by blia. fold w (overwritten p s w).
    by apply (set_slot_run ps p).
  - rewrite (set_slot_abs ps p p) by auto.
    rewrite (proj2 (Z.eqb_neq _ _)) by done. fold s. rewrite Hgen. do 4 f_equal.
    unfold overwritten. rewrite sub_patch_within by lia. rewrite Z.sub_diag.
    unfold w, sub, blen. rewrite Z2Nat.inj_0, drop_0, Nat2Z.id. by apply take_app_length.
  - unfold free_of. rewrite C2, C3, C4, C5. repeat split; lia.
Qed.

Lemma update_grow : blen old < blen v -> blen v <= free_of p -> exists p', updates_to (blen v) p'.
Proof.
  intros Hgt Hfree. destruct (check_inv ps p l old W H0 Hget) as [Hs Hl Hgen _ Hlen Hr].
  set (s := loc_slot l) in *. set (w := zeros (e_len p s)).
  assert (Hw : blen w = e_len p s) by (apply blen_zeros; lia).
  assert (Hok : bytes_ok w) by apply zeros_ok.
  destruct (e_bounds ps p s W Hs) as (Ho&Hn&Hg), (ow_bounds ps p s W Hs Hl) as (?&?&?&?&?).
  set (q := overwritten p s w).
  assert (Wq : wf ps q) by by apply ow_wf.
  pose proof (ow_hdr ps p s w W Hs Hl Hw) as Hh. fold q in Hh.
  pose proof (hdr_inv _ _ _ _ _ _ Hh) as (E1&E2&E3&E4&E5).
  assert (Hroom : blen v <= fend q - fstart q) by (rewrite E2, E3; done).
  destruct (gap_bounds ps q v Wq Hroom) as (?&?&?&?&?&?&?&?).
  assert (Hv16 : is_u16 (blen v)) by (widths; lia).
  pose proof (gap_prepared ps q v Wq Hv Hroom s ltac:(lia)) as Pr.
  pose proof (gap_hdr ps q v Wq Hroom) as Hgh.
  pose proof (hdr_inv _ _ _ _ _ _ Hgh) as (G1&G2&G3&G4&G5).
  assert (Fi : fits ps q (gap_page q v) s (gap_at q v) (blen v)) by by apply (gap_fits ps).
  pose proof (set_slot_hdr ps q _ _ (gap_at q v) (blen v) (e_gen p s) Wq Pr) as Hp.
  rewrite Hgh in Hp. apply hdr_inv in Hp as (C1&C2&C3&C4&C5).
  exists (patch (gap_page q v) (64 + s * 8) (slot_bytes (gap_at q v) (blen v) (e_gen p s))).
  unfold updates_to. split; [|split; [by apply (set_slot_wf ps q)|split]].
  - unfold update. run. rewrite (checked_entry_eq ps), Hget by done. unfold entry. run. fold s.
    rewrite bool_decide_eq_false_2, (proj2 (Z.leb_gt _ _)) by (done || lia). run.
    rewrite (free_space_eq ps) by done. run. unfold free_of in Hfree.
    rewrite (proj2 (Z.ltb_ge _ _)) by lia. run. rewrite fill0_in by lia. run.
    rewrite Z.add_simpl_l. fold w (overwritten p s w) q. rewrite (free_end_eq ps) by done. run.
    change (fend q - blen v) with (gap_at q v).
    destruct (@gap_run ps q v Wq Hroom PageError) as [-> ->]. by apply (set_slot_run ps q).
  - rewrite (set_slot_abs ps p q) by (auto; congruence || intros; by apply (ow_view ps)).
    rewrite (proj2 (Z.eqb_neq _ _)) by lia. rewrite (gap_new ps) by done. by rewrite Hgen.
  - unfold free_of. rewrite C2, C3, C4, C5, E2, E4, E5. unfold gap_at. rewrite E3.
    repeat split; lia.
Qed.

Lemma update_val : update_needs old v <= free_of p -> exists p', updates_to (update_needs old v) p'.
Proof.
  unfold update_needs. destruct (_ <=? _) eqn:E; bools; intros.
  - by apply update_in_place.
  - apply update_grow; lia.
Qed.
End Update.

(** ** Initialisation *)

Lemma init_val ps id floor b :
  72 <= ps <= 65536 -> blen b = ps -> is_u64 id -> is_u32 floor ->
  exists p, init_with_floor id ps floor b = (Val tt, p) /\ wf ps p /\ abs p = [] /\
    pid p = id /\ floor_of p = floor /\ free_of p = ps - 72.
Proof.
  intros Hps Hb Hid Hf. set (h := with_link (new_header id Heap ps) 0 floor).
  assert (Hok : header_ok h) by (apply with_link_ok; [by apply new_header_ok|widths; lia|done]).
  set (p := patch (zeros ps) 0 (header_bytes h)). exists p.
  assert (Hl : blen p = ps) by (unfold p; blia).
  pose proof (header_fields h (zeros ps) Hok) as Hh. rewrite blen_zeros in Hh by lia.
  specialize (Hh ltac:(lia)). fold p in Hh.
  assert (E : hdr p = (0, 64, ps - 8, id, floor)).
  { replace (ps - 8) with ((ps - PAGE_TRAILER_BYTES) mod U16)
      by (unfold PAGE_TRAILER_BYTES, U16; apply Z.mod_small; lia).
    change (0, 64, (ps - PAGE_TRAILER_BYTES) mod U16, id, floor) with
      (PageFormat.slot_count h, PageFormat.free_start h, PageFormat.free_end h, PageFormat.page_id h, payload_len h).
    by rewrite <- Hh. }
  apply hdr_inv in E as (E1&E2&E3&E4&E5).
  split; [|split; [|split; [|split; [done|split; [done|unfold free_of; lia]]]]].
  - unfold init_with_floor. run. rewrite encode_patch by (rewrite Hb; blia). by rewrite Hb.
  - split; rewrite ?E1, ?E2, ?E3; try lia; auto.
    apply bytes_content; [exists h; split; [apply decode_header_bytes; [done|blia]|done]|]. apply bytes_ok_patch; [apply zeros_ok|]. apply header_bytes_ok. done.
  - unfold abs. by rewrite E1.
Qed.

(** Updates that are refused. *)
Lemma update_empty ps p l old :
  wf ps p -> 0 <= loc_slot l -> spec_get (pid p) (abs p) l = Val old ->
  update l [] p = (Err (ValueTooLarge (pid p) 0 (free_of p)), p).
Proof.
  intros W H0 Hg. unfold update. run. rewrite (checked_entry_eq ps), Hg by done. unfold entry. run.
  rewrite bool_decide_eq_true_2 by done. by apply (too_large_eq ps).
Qed.

Lemma update_full ps p l old v :
  wf ps p -> 0 <= loc_slot l -> spec_get (pid p) (abs p) l = Val old -> v <> [] ->
  free_of p < update_needs old v ->
  update l v p = (Err (ValueTooLarge (pid p) (blen v) (free_of p)), p).
Proof.
  intros W H0 Hg Hne Hf. destruct (check_inv ps p l old W H0 Hg) as [_ _ _ _ Hlen _].
  unfold update. run. rewrite (checked_entry_eq ps), Hg by done. unfold entry. run.
  rewrite bool_decide_eq_false_2 by done. unfold update_needs in *.
  assert (0 <= free_of p) by (pose proof (wf_gap _ _ W); unfold free_of; lia).
  rewrite <- Hlen. destruct (blen v <=? blen old) eqn:Hle; [lia|]. run.
  rewrite (free_space_eq ps) by done. run. change (fend p - fstart p) with (free_of p).
  rewrite (proj2 (Z.ltb_lt _ _)) by done. by apply (too_large_eq ps).
Qed.

(** ** Insertion as one statement *)

Lemma insert_val ps p v :
  wf ps p -> bytes_ok v -> v <> [] -> insert_needs p v <= free_of p ->
  let '(l, s, g) := spec_insert (floor_of p) v (abs p) in
  exists p', insert v p = (Val (mkLocator (pid p) s g), p') /\ wf ps p' /\ abs p' = l /\
    pid p' = pid p /\ floor_of p' = floor_of p /\ free_of p' = free_of p - insert_needs p v.
Proof.
  intros W Hv Hne Hr. pose proof (find_dead_abs ps p W) as Hd.
  unfold spec_insert. destruct (snd <$> list_find (fun i => _ = true) (rangeZ 0 (cnt p))) as [s|] eqn:E.
  - destruct Hd as (Hs&_&Hd). rewrite Hd. unfold view at 1. rewrite Z2Nat.id by lia.
    destruct (insert_recycle ps p v W Hv Hne Hr s E) as (p'&?&?&?&?&?&?). exists p'.
    unfold insert_needs, has_dead. rewrite Hd, Z.add_0_r. done.
  - rewrite Hd. destruct (insert_append ps p v W Hv Hne Hr Hd) as (p'&?&?&?&?&?&?). exists p'.
    destruct (cnt_bound ps p W) as (?&?&?). rewrite length_abs, Z2Nat.id by lia.
    unfold insert_needs, has_dead, SLOT_BYTES. rewrite Hd, Z.sub_add_distr. done.
Qed.

Lemma insert_full ps p v :
  wf ps p -> v <> [] -> free_of p < insert_needs p v ->
  insert v p = (Err (ValueTooLarge (pid p) (blen v) (free_of p)), p).
Proof.
  intros W Hne Hr. pose proof (find_dead_abs ps p W) as Hd.
  unfold insert. rewrite bool_decide_eq_false_2 by done. run.
  rewrite (find_dead_slot_eq ps) by done. run. rewrite (free_space_eq ps) by done. run.
  unfold insert_needs, has_dead in Hr. rewrite (proj2 (Z.ltb_lt _ _)).
  - by apply (too_large_eq ps).
  - change (fend p - fstart p) with (free_of p).
    destruct (snd <$> _); [destruct Hd as (_&_&Hd)|]; rewrite Hd in Hr; done.
Qed.

(** ** Claims *)

(** [insert] on a well-formed page never panics.  An empty value, or one
    that does not fit (its bytes, plus 8 for a directory entry when no dead slot
    can be reused), is refused with [ValueTooLarge] and the page is untouched.
    Otherwise the page refines the abstract insertion (first dead slot with its
    generation bumped, else a new slot above the floor), the invariant holds,
    and exactly the announced number of bytes leaves the free gap. *)
Theorem insert_refines (ps : Z) (p v : bytes) (W : wf ps p) (Hv : bytes_ok v) :
  if bool_decide (v = []) then insert v p = (Err (ValueTooLarge (pid p) 0 (free_of p)), p)
  else if free_of p <? insert_needs p v
  then insert v p = (Err (ValueTooLarge (pid p) (blen v) (free_of p)), p)
  else
    let '(l, s, g) := spec_insert (floor_of p) v (abs p) in
    exists p', insert v p = (Val (mkLocator (pid p) s g), p') /\ wf ps p' /\ abs p' = l /\
      pid p' = pid p /\ floor_of p' = floor_of p /\ free_of p' = free_of p - insert_needs p v.
Proof.
  case_bool_decide as E; [subst; by apply (too_large_eq ps)|]. split_if.
  - by apply (insert_full ps).
  - by apply insert_val.
Qed.

(** [get], [delete] and [update] accept a locator exactly when the slot is
    live and carries the locator's generation; otherwise all three report the
    same error and leave the page alone.  A successful [delete] kills the slot
    but keeps its generation, and overwrites the tuple's bytes with zeros. *)
Theorem delete_refines (ps : Z) (p : bytes) (l : TupleLocator) (W : wf ps p) (Hs : 0 <= loc_slot l) :
  get p l = spec_get (pid p) (abs p) l /\
  match spec_get (pid p) (abs p) l with
  | Val v =>
      exists p', delete l p = (Val tt, p') /\ wf ps p' /\
        abs p' = <[Z.to_nat (loc_slot l) := (loc_generation l, None)]> (abs p) /\
        hdr p' = hdr p /\
        sub p' (e_off p (loc_slot l)) (e_len p (loc_slot l)) = zeros (blen v)
  | Err e => delete l p = (Err e, p) /\ forall v, update l v p = (Err e, p)
  | Panic => False
  end.
Proof.
  split; [by apply (get_eq ps)|]. destruct (spec_get _ _ _) as [v|e|] eqn:E.
  - by apply delete_val.
  - by apply (check_fails ps).
  - by apply spec_get_no_panic in E.
Qed.

(** An update that succeeded, whatever its size. *)
Lemma update_accepts ps p l old v p' :
  wf ps p -> 0 <= loc_slot l -> spec_get (pid p) (abs p) l = Val old -> bytes_ok v ->
  update l v p = (Val tt, p') ->
  wf ps p' /\ abs p' = <[Z.to_nat (loc_slot l) := (loc_generation l, Some v)]> (abs p) /\
  pid p' = pid p /\ floor_of p' = floor_of p.
Proof.
  intros W H0 Hg Hv Hu. destruct (decide (v = [])) as [->|Hne]; [|destruct (decide (free_of p < update_needs old v))].
  - by rewrite (update_empty ps p l old) in Hu.
  - by rewrite (update_full ps p l old) in Hu.
  - destruct (update_val ps p l old v W H0 Hg Hv Hne) as (p1&Hu1&?&?&?&?&_); [lia|].
    rewrite Hu in Hu1. by simplify_eq.
Qed.

(** [update] through a valid locator keeps the locator valid: when the new
    value fits in place, or the free gap can take it whole, the slot keeps its
    number and generation, reads back the new value, and the gap shrinks by the
    bytes that moved into it; otherwise it is refused and the page untouched. *)
Theorem update_refines (ps : Z) (p : bytes) (l : TupleLocator) (old v : bytes)
    (W : wf ps p) (Hs : 0 <= loc_slot l) (Hv : bytes_ok v) (Hold : get p l = Val old) :
  if bool_decide (v = []) then update l v p = (Err (ValueTooLarge (pid p) 0 (free_of p)), p)
  else if free_of p <? update_needs old v
  then update l v p = (Err (ValueTooLarge (pid p) (blen v) (free_of p)), p)
  else exists p', update l v p = (Val tt, p') /\ wf ps p' /\
    abs p' = <[Z.to_nat (loc_slot l) := (loc_generation l, Some v)]> (abs p) /\
    get p' l = Val v /\ pid p' = pid p /\ free_of p' = free_of p - update_needs old v.
Proof.
  rewrite (get_eq ps) in Hold by done.
  destruct (check_inv ps p l old W Hs Hold) as [Hslot _ _ _ _ _].
  case_bool_decide as E; [subst; by apply (update_empty ps p l old)|split_if].
  - by apply (update_full ps p l old).
  - destruct (update_val ps p l old v W Hs Hold Hv E) as (p'&?&?&Ha&?&?&?); [done|].
    exists p'. ands; try done. rewrite (get_eq ps), spec_get_val, Ha by done.
    apply list_lookup_insert_eq. destruct (cnt_bound ps p W) as (?&?&?).
    rewrite length_abs by done. lia.
Qed.

(** A page of 128 bytes with a dead slot 0 (generation 1) and a live slot 1. *)
Definition sample : bytes :=
  snd ((init 7 128 ;;; do l <- insert [1; 2; 3] ;; insert [4; 5] ;;; delete l) (zeros 128)).

Lemma sample_wf : wf 128 sample.
Proof. apply wfb_wf. vm_compute. reflexivity. Qed.

Lemma sample_abs : abs sample = [(1, None); (1, Some [4; 5])].
Proof. vm_compute. reflexivity. Qed.

Lemma insert_refines_witness :
  exists p', insert [9; 8] sample = (Val (mkLocator 7 0 2), p') /\ wf 128 p' /\
    abs p' = [(2, Some [9; 8]); (1, Some [4; 5])].
Proof.
  assert (Hv : bytes_ok [9; 8]) by (repeat constructor; widths; lia).
  pose proof (insert_refines 128 sample [9; 8] sample_wf Hv) as T.
  rewrite (bool_decide_eq_false_2 ([9; 8] = [])) in T by discriminate.
  replace (free_of sample <? insert_needs sample [9; 8]) with false in T by (by vm_compute).
  rewrite sample_abs in T. destruct T as (p'&Hi&W&Ha&_). exists p'. ands; [|done|done].
  rewrite Hi. by vm_compute.
Defined.

Lemma delete_refines_witness :
  get sample (mkLocator 7 1 1) = Val [4; 5] /\
  exists p', delete (mkLocator 7 1 1) sample = (Val tt, p') /\ wf 128 p' /\
    abs p' = [(1, None); (1, None)].
Proof.
  destruct (delete_refines 128 sample (mkLocator 7 1 1) sample_wf ltac:(by vm_compute)) as [Hg Hd].
  rewrite sample_abs in Hg, Hd. split; [done|]. destruct Hd as (p'&Hd&W&Ha&_). exact (ex_intro _ p' (conj Hd (conj W Ha))).
Defined.

Lemma update_refines_witness :
  exists p', update (mkLocator 7 1 1) [6; 7; 8] sample = (Val tt, p') /\ wf 128 p' /\
    get p' (mkLocator 7 1 1) = Val [6; 7; 8].
Proof.
  assert (Hv : bytes_ok [6; 7; 8]) by (repeat constructor; widths; lia).
  pose proof (update_refines 128 sample (mkLocator 7 1 1) [4; 5] [6; 7; 8] sample_wf
                ltac:(by vm_compute) Hv ltac:(by vm_compute)) as T.
  rewrite (bool_decide_eq_false_2 ([6; 7; 8] = [])) in T by discriminate.
  replace (free_of sample <? update_needs [4; 5] [6; 7; 8]) with false in T by (by vm_compute).
  destruct T as (p'&Hu&W&_&Hr&_). exact (ex_intro _ p' (conj Hu (conj W Hr))).
Defined.
