(* ===== verification/SlottedCompact.v ===== *)
(** * Slotted heap pages: compaction

    [compact] slides the live tuples together without touching slot numbers,
    generations or contents, and turns every byte that no live tuple holds into
    contiguous free space. *)

From stdpp Require Import base tactics list numbers gmap.
From Stdlib Require Import ZArith Lia.
From S2P Require Import Prelude Bytes Errors PageFormat Slotted SlottedSpec SlottedRefine.
Local Open Scope Z_scope.
Local Open Scope bic_scope.

Abbreviation item := (Z * bytes * Z)%type.

Definition sumZ (l : list Z) : Z := foldr Z.add 0 l.

Definition item_slot (x : item) : Z := x.1.1.
Definition item_value (x : item) : bytes := x.1.2.
Definition item_gen (x : item) : Z := x.2.

(** Bytes the items take. *)
Definition total (live : list item) : Z := sumZ ((fun x => blen (item_value x)) <$> live).

(** Bytes the live tuples of an abstract page take. *)
Definition live_bytes (l : list aslot) : Z :=
  sumZ ((fun s : aslot => match s.2 with Some v => blen v | None => 0 end) <$> l).

(** The live tuples among the slots [ss]. *)
Definition live_item (p : bytes) (i : Z) : option item :=
  if e_off p i =? 0 then None else Some (i, sub p (e_off p i) (e_len p i), e_gen p i).
Definition live_items (p : bytes) (ss : list Z) : list item := omap (live_item p) ss.

(** ** Sums *)

Lemma sumZ_app l1 l2 : sumZ (l1 ++ l2) = sumZ l1 + sumZ l2.
Proof. induction l1; cbn; [done|]. unfold sumZ in *. lia. Qed.

Lemma total_cons x l : total (x :: l) = blen (item_value x) + total l.
Proof. done. Qed.

Lemma total_nonneg l : 0 <= total l.
Proof. induction l as [|x l IH]; [done|]. rewrite total_cons. pose proof (blen_nonneg (item_value x)). lia. Qed.

Lemma total_app l1 l2 : total (l1 ++ l2) = total l1 + total l2.
Proof. unfold total. by rewrite fmap_app, sumZ_app. Qed.

Lemma total_take_S l k x : l !! k = Some x -> total (take (S k) l) = total (take k l) + blen (item_value x).
Proof. intros H. rewrite (take_S_r _ _ _ H), total_app, total_cons. cbn. lia. Qed.

Lemma total_take_mono l (k1 k2 : nat) : (k1 <= k2)%nat -> total (take k1 l) <= total (take k2 l).
Proof.
  intros H. rewrite <- (take_drop k1 (take k2 l)), take_take, total_app.
  rewrite Nat.min_l by done. pose proof (total_nonneg (drop k1 (take k2 l))). lia.
Qed.

Lemma total_take_le l k : total (take k l) <= total l.
Proof. rewrite <- (take_drop k l) at 2. rewrite total_app. pose proof (total_nonneg (drop k l)). lia. Qed.

Lemma live_items_cons p i ss :
  live_items p (i :: ss) =
  match live_item p i with Some x => x :: live_items p ss | None => live_items p ss end.
Proof. done. Qed.

Lemma live_items_total p : total (live_items p (rangeZ 0 (cnt p))) = live_bytes (abs p).
Proof.
  unfold live_bytes, abs, live_items. generalize (rangeZ 0 (cnt p)) as ss.
  induction ss as [|i ss IH]; [done|]. unfold total in *. cbn. unfold live_item at 1, view.
  destruct (e_off p i =? 0); cbn; unfold sumZ in IH; cbn in IH; by rewrite IH.
Qed.

(** ** Disjoint intervals of a range *)

(** The addresses of the live tuples among [ss]. *)
Definition cover (p : bytes) (ss : list Z) : list Z :=
  ss ≫= fun i => if e_off p i =? 0 then [] else rangeZ (e_off p i) (e_off p i + e_len p i).

Lemma length_cover ps p ss :
  wf ps p -> (forall i, i ∈ ss -> 0 <= i < cnt p) ->
  Z.of_nat (length (cover p ss)) = total (live_items p ss).
Proof.
  intros W. induction ss as [|i ss IH]; intros Hss; [done|].
  rewrite live_items_cons. unfold cover. cbn [mbind list_bind]. fold (cover p ss).
  rewrite length_app, Nat2Z.inj_add, IH by set_solver. unfold live_item.
  destruct (e_off p i =? 0) eqn:E; bools; [done|]. rewrite total_cons. cbn [item_value fst snd].
  assert (Hi : 0 <= i < cnt p) by set_solver.
  destruct (wf_live _ _ W i) as (?&?&?), (cnt_bound ps p W) as (?&?&?); auto.
  pose proof (wf_len _ _ W). rewrite blen_sub by lia.
  unfold rangeZ. rewrite length_seqZ. lia.
Qed.

Lemma elem_of_cover p ss x :
  x ∈ cover p ss <-> exists i, i ∈ ss /\ e_off p i <> 0 /\ e_off p i <= x < e_off p i + e_len p i.
Proof.
  unfold cover. rewrite list_elem_of_bind. split.
  - intros (i&Hx&Hi). destruct (e_off p i =? 0) eqn:E; bools; [set_solver|].
    apply elem_of_rangeZ in Hx. eauto.
  - intros (i&Hi&Ho&Hx). exists i. split; [|done].
    rewrite (proj2 (Z.eqb_neq _ _)) by done. by apply elem_of_rangeZ.
Qed.

Lemma NoDup_rangeZ a b : NoDup (rangeZ a b).
Proof. apply NoDup_seqZ. Qed.

Lemma NoDup_cover ps p ss :
  wf ps p -> NoDup ss -> (forall i, i ∈ ss -> 0 <= i < cnt p) -> NoDup (cover p ss).
Proof.
  intros W. induction 1 as [|i ss Hi Hnd IH]; intros Hss; [constructor|].
  unfold cover. cbn. fold (cover p ss). apply NoDup_app.
  split; [destruct (_ =? 0); [constructor|apply NoDup_rangeZ]|].
  split; [|apply IH; set_solver].
  intros x Hx (j&Hj&Hoj&Hxj)%elem_of_cover.
  destruct (e_off p i =? 0) eqn:E; bools; [set_solver|]. apply elem_of_rangeZ in Hx.
  destruct (wf_apart _ _ W i j); [set_solver|set_solver|set_solver|done|done|lia|lia].
Qed.

(** The live tuples fit between the end of the gap and the trailer. *)
Lemma live_fits ps p : wf ps p -> live_bytes (abs p) <= ps - 8 - fend p.
Proof.
  intros W. rewrite <- live_items_total.
  assert (Hr : forall i, i ∈ rangeZ 0 (cnt p) -> 0 <= i < cnt p) by (intros i; apply elem_of_rangeZ).
  rewrite <- (length_cover ps) by done.
  assert (Hsub : cover p (rangeZ 0 (cnt p)) ⊆+ rangeZ (fend p) (ps - 8)).
  { apply NoDup_submseteq; [apply (NoDup_cover ps); auto using NoDup_rangeZ|].
    intros x (i&Hi%Hr&Ho&Hx)%elem_of_cover. apply elem_of_rangeZ.
    destruct (wf_live _ _ W i) as (?&?&?); auto. lia. }
  apply submseteq_length in Hsub. unfold rangeZ at 2 in Hsub. rewrite length_seqZ in Hsub.
  destruct (cnt_bound ps p W) as (?&?&?). lia.
Qed.

(** ** Collecting *)

Lemma collect_live_eq ps p ss :
  wf ps p -> (forall i, i ∈ ss -> 0 <= i < cnt p) -> collect_live p ss = Val (live_items p ss).
Proof.
  intros W. induction ss as [|i ss IH]; intros Hss; [done|].
  assert (Hi : 0 <= i < cnt p) by set_solver.
  cbn [collect_live]. rewrite (slot_entry_in ps) by done. unfold entry. run.
  rewrite live_items_cons. unfold live_item, DEAD_OFFSET.
  destruct (e_off p i =? 0) eqn:E; bools; [apply IH; set_solver|].
  rewrite (live_slice ps) by done. run. by rewrite IH by set_solver.
Qed.

(** ** Rewriting *)

(** The state after writing the items of [live] downwards from [c] into [q]. *)
Record rewritten (ps c : Z) (live : list item) (q q' : bytes) : Prop := {
  rw_len : blen q' = ps;
  rw_ok : content_ok q';
  rw_hdr : hdr q' = hdr q;
  rw_other : forall i, 0 <= i < cnt q -> i ∉ (item_slot <$> live) -> entry q' i = entry q i;
  rw_above : forall a n, c <= a -> 0 <= n -> sub q' a n = sub q a n;
  rw_below : forall a n, fstart q <= a -> 0 <= n -> a + n <= c - total live -> sub q' a n = sub q a n;
  rw_item : forall k x, live !! k = Some x ->
    entry q' (item_slot x) = (c - total (take (S k) live), blen (item_value x), item_gen x) /\
    sub q' (c - total (take (S k) live)) (blen (item_value x)) = item_value x
}.

Definition item_ok (n : Z) (x : item) : Prop :=
  0 <= item_slot x < n /\ bytes_ok (item_value x) /\ is_u32 (item_gen x).

Lemma rewrite_live_run ps live : forall c q,
  blen q = ps -> content_ok q -> ps <= 65536 -> c <= ps - 8 -> fstart q = 64 + 8 * cnt q ->
  fstart q <= c - total live -> 0 <= cnt q ->
  Forall (item_ok (cnt q)) live -> NoDup (item_slot <$> live) ->
  exists q', rewrite_live c live q = (Val (c - total live), q') /\ rewritten ps c live q q'.
Proof.
  induction live as [|[[s v] g] live IH]; intros c q Hl Hok Hps Hc Hf Hroom Hcnt Hall Hnd.
  - exists q. cbn. rewrite Z.sub_0_r. split; [done|]. by split.
  - rewrite total_cons in *. cbn [item_value fst snd] in *.
    apply Forall_cons_1 in Hall as [(Hs&Hv&Hg) Hall]. cbn in Hs, Hv, Hg.
    rewrite fmap_cons in Hnd. apply NoDup_cons in Hnd as [Hnin Hnd]. cbn in Hnin.
    pose proof (total_nonneg live). pose proof (blen_nonneg v).
    set (c1 := c - blen v). set (q1 := patch (patch q c1 v) (64 + s * 8) (slot_bytes c1 (blen v) g)).
    assert (Hl1 : blen q1 = ps) by (unfold q1; blia).
    assert (Hh1 : hdr q1 = hdr q) by (unfold q1; rewrite !hdr_frame by blia; done).
    pose proof (hdr_inv _ _ _ _ _ _ Hh1) as (E1&E2&_).
    assert (He1 : entry q1 s = (c1, blen v, g)) by (apply entry_set; auto; [lia|blia|widths; lia..]).
    assert (Ho1 : forall i, 0 <= i < cnt q -> i <> s -> entry q1 i = entry q i).
    { intros i Hi His. unfold q1. by rewrite !entry_frame by blia. }
    assert (Hd1 : forall a n, fstart q <= a -> 0 <= n -> a + n <= c1 \/ c <= a -> sub q1 a n = sub q a n).
    { intros a n Ha Hn Hd. unfold q1. by rewrite !sub_patch_disjoint by blia. }
    assert (Hn1 : sub q1 c1 (blen v) = v).
    { unfold q1. rewrite sub_patch_disjoint by blia. apply sub_patch_same; lia. }
    destruct (IH c1 q1) as (q'&Hrun&Hrw); rewrite ?E1, ?E2; auto; try lia.
    { unfold q1. repeat (apply content_patch; auto with bic; try blia). }
    exists q'. split.
    + cbn [rewrite_live]. fold c1. run. rewrite copy_at_in by lia. run.
      rewrite write_slot_eq by blia. run. fold q1. rewrite Hrun. do 2 f_equal. lia.
    + destruct Hrw as [? ? Hh2 Ho2 Ha2 Hb2 Hi2]. split; auto.
      * by rewrite Hh2.
      * intros i Hi (His&Hil)%not_elem_of_cons. rewrite Ho2 by (rewrite ?E1; done). by apply Ho1.
      * intros a n Ha Hn. rewrite Ha2 by lia. apply Hd1; lia.
      * intros a n Ha Hn Han. rewrite total_cons in Han. cbn in Han.
        rewrite Hb2 by lia. apply Hd1; lia.
      * intros [|k] x; cbn [lookup list_lookup].
        -- intros [= <-]. rewrite firstn_cons, total_cons. cbn. rewrite Z.add_0_r. fold c1.
           rewrite Ho2 by (rewrite ?E1; done). rewrite Ha2 by lia. done.
        -- intros Hx. rewrite firstn_cons, total_cons. cbn [item_value fst snd].
           destruct (Hi2 k x Hx) as [-> ?]. unfold c1 in *. rewrite Z.sub_add_distr. done.
Qed.

(** ** The whole operation *)

Lemma elem_of_live_items p ss x :
  x ∈ live_items p ss <->
  exists i, i ∈ ss /\ e_off p i <> 0 /\ x = (i, sub p (e_off p i) (e_len p i), e_gen p i).
Proof.
  unfold live_items. rewrite list_elem_of_omap. unfold live_item. split.
  - intros (i&Hi&Hx). destruct (e_off p i =? 0) eqn:E; bools; naive_solver.
  - intros (i&Hi&Ho&->). exists i. by rewrite (proj2 (Z.eqb_neq _ _)).
Qed.

Lemma live_slots_NoDup p ss : NoDup ss -> NoDup (item_slot <$> live_items p ss).
Proof.
  induction 1 as [|i ss Hi Hnd IH]; [constructor|]. rewrite live_items_cons. unfold live_item.
  destruct (e_off p i =? 0); [done|]. rewrite fmap_cons. constructor; [|done].
  rewrite list_elem_of_fmap. intros (x&Hx&(j&Hj&_&->)%elem_of_live_items). by cbn in Hx; subst.
Qed.

Lemma live_items_ok ps p : wf ps p -> Forall (item_ok (cnt p)) (live_items p (rangeZ 0 (cnt p))).
Proof.
  intros W. apply Forall_forall. intros x Hx%elem_of_live_items.
  destruct Hx as (i&Hi%elem_of_rangeZ&Ho&->). destruct (cnt_bound ps p W) as (?&?&?), (wf_live _ _ W i Hi Ho) as (?&?&?). pose proof (wf_len _ _ W).
  destruct (e_bounds ps p i W Hi) as (_&_&?). split; [done|]. split; [apply content_sub; [apply W|lia..]|done].
Qed.

Section Compact.
Context (ps : Z) (p q q' : bytes).
Hypothesis W : wf ps p.

Definition items : list item := live_items p (rangeZ 0 (cnt p)).
Definition cleared : bytes := patch p (64 + cnt p * 8) (zeros (ps - 8 - (64 + cnt p * 8))).

Lemma cleared_frame :
  blen cleared = ps /\ content_ok cleared /\ hdr cleared = hdr p /\
  (forall i, 0 <= i < cnt p -> entry cleared i = entry p i).
Proof.
  destruct (cnt_bound ps p W) as (?&?&?). pose proof (wf_len _ _ W). pose proof (wf_ok _ _ W).
  unfold cleared. split; [blia|]. split; [apply content_patch; auto with bic; blia|].
  split; [apply hdr_frame; blia|]. intros. apply entry_frame; blia.
Qed.

Hypothesis Rw : rewritten ps (ps - 8) items cleared q'.

(** The compacted page. *)
Definition top : Z := ps - 8 - live_bytes (abs p).
Definition packed : bytes := patch q' 38 (le_enc 2 top).

Lemma top_bounds : fend p <= top /\ top <= ps - 8 /\ is_u16 top /\ total items = live_bytes (abs p).
Proof.
  pose proof (live_fits ps p W). destruct (cnt_bound ps p W) as (?&?&?). pose proof (wf_size _ _ W).
  pose proof (total_nonneg items) as Ht. unfold items in *. rewrite live_items_total in *.
  unfold top. widths. repeat split; lia.
Qed.

Lemma packed_hdr : hdr packed = (cnt p, fstart p, top, pid p, floor_of p).
Proof.
  destruct top_bounds as (?&?&?&?), cleared_frame as (?&?&Hc&?). pose proof (rw_len _ _ _ _ _ Rw).
  pose proof (wf_size _ _ W). unfold packed. rewrite hdr_set_fend by (auto; lia).
  pose proof (rw_hdr _ _ _ _ _ Rw) as Hq. rewrite Hc in Hq.
  by apply hdr_inv in Hq as (->&->&_&->&->).
Qed.

Lemma packed_entry i : 0 <= i < cnt p -> entry packed i = entry q' i.
Proof.
  intros. destruct (cnt_bound ps p W) as (?&?&?). pose proof (rw_len _ _ _ _ _ Rw).
  apply entry_frame; blia.
Qed.

Lemma packed_data a n : 64 <= a -> 0 <= n -> sub packed a n = sub q' a n.
Proof.
  intros. destruct (cnt_bound ps p W) as (?&?&?). pose proof (rw_len _ _ _ _ _ Rw).
  apply sub_patch_disjoint; blia.
Qed.

Lemma packed_dead i : 0 <= i < cnt p -> e_off p i = 0 -> entry packed i = entry p i.
Proof.
  intros Hi Ho. destruct cleared_frame as (_&_&Hh&He). apply hdr_inv in Hh as (Hc&_).
  rewrite packed_entry, (rw_other _ _ _ _ _ Rw), He; auto; [by rewrite Hc|].
  intros (x&Hx&(j&_&Hj&->)%elem_of_live_items)%list_elem_of_fmap. by cbn in Hx; subst.
Qed.

(** A live slot is the [k]-th of [items] for some [k]. *)
Lemma packed_live i :
  0 <= i < cnt p -> e_off p i <> 0 ->
  exists k, item_slot <$> items !! k = Some i /\
    total (take (S k) items) = total (take k items) + e_len p i /\
    entry packed i = (ps - 8 - total (take (S k) items), e_len p i, e_gen p i) /\
    sub packed (ps - 8 - total (take (S k) items)) (e_len p i) = sub p (e_off p i) (e_len p i).
Proof.
  intros Hi Ho. destruct (wf_live _ _ W i) as (?&?&?), (cnt_bound ps p W) as (?&?&?); auto.
  destruct top_bounds as (?&?&?&Ht).
  assert (Hx : (i, sub p (e_off p i) (e_len p i), e_gen p i) ∈ items)
    by (apply elem_of_live_items; exists i; by rewrite elem_of_rangeZ).
  apply list_elem_of_lookup in Hx as (k&Hk). exists k.
  destruct (rw_item _ _ _ _ _ Rw k _ Hk) as [He Hd]. cbn in He, Hd.
  pose proof (total_take_S _ _ _ Hk) as HS. cbn [item_value fst snd] in HS.
  pose proof (wf_len _ _ W). rewrite blen_sub in * by lia.
  pose proof (total_take_le items (S k)). unfold top in *.
  rewrite packed_entry, packed_data by lia. by rewrite Hk.
Qed.

Lemma packed_off i :
  0 <= i < cnt p -> e_len packed i = e_len p i /\ (e_off packed i <> 0 <-> e_off p i <> 0) /\
  (e_off p i <> 0 -> top <= e_off packed i /\ e_off packed i + e_len p i <= ps - 8).
Proof.
  intros Hi. destruct (decide (e_off p i = 0)) as [Ho|Ho].
  - pose proof (packed_dead i Hi Ho) as He. unfold entry in He. simplify_eq He. intros -> -> _. done.
  - destruct (packed_live i Hi Ho) as (k&_&HS&He&_), (cnt_bound ps p W) as (?&?&?), top_bounds as (?&?&?&Ht).
    unfold entry in He. simplify_eq He. intros -> -> _. pose proof (total_take_le items (S k)).
    pose proof (total_nonneg (take k items)). unfold top in *. split; [done|]. split; [|lia].
    split; [done|]. lia.
Qed.

Lemma packed_wf : wf ps packed.
Proof.
  pose proof packed_hdr as Hh. apply hdr_inv in Hh as (E1&E2&E3&_).
  destruct top_bounds as (?&?&?&?). pose proof (rw_len _ _ _ _ _ Rw).
  pose proof W as []. split; rewrite ?E1, ?E2, ?E3; auto; try lia.
  - unfold packed. blia.
  - pose proof (rw_ok _ _ _ _ _ Rw). unfold packed. apply content_patch; auto with bic; blia.
  - intros i Hi. destruct (packed_off i Hi) as (->&Hoff&Hb). intros Ho%Hoff.
    destruct (wf_live i) as (?&?&?); auto. specialize (Hb Ho). lia.
  - intros i j Hi Hj Hij. destruct (packed_off i Hi) as (Hl1&Ho1&_), (packed_off j Hj) as (Hl2&Ho2&_).
    intros Hoi%Ho1 Hoj%Ho2. unfold apart. rewrite Hl1, Hl2.
    destruct (packed_live i Hi Hoi) as (k1&Hk1&HS1&He1&_), (packed_live j Hj Hoj) as (k2&Hk2&HS2&He2&_).
    unfold entry in He1, He2. simplify_eq He1. intros -> _ _. simplify_eq He2. intros -> _ _.
    assert (Hk : k1 <> k2) by congruence.
    destruct (decide (k1 < k2)%nat); [right|left].
    + pose proof (total_take_mono items (S k1) k2). lia.
    + pose proof (total_take_mono items (S k2) k1). lia.
Qed.

Lemma packed_abs : abs packed = abs p.
Proof.
  pose proof packed_hdr as Hh. apply hdr_inv in Hh as (E1&_).
  unfold abs. rewrite E1. apply list_fmap_ext. intros k i Hk%list_elem_of_lookup_2%elem_of_rangeZ.
  destruct (decide (e_off p i = 0)) as [Ho|Ho].
  - apply view_same; [by apply packed_dead|done].
  - destruct (packed_off i Hk) as (_&Hoff&_), (packed_live i Hk Ho) as (m&_&_&He&Hd).
    unfold view. rewrite !(proj2 (Z.eqb_neq _ _)) by tauto.
    unfold entry in He. simplify_eq He. intros -> -> ->. by rewrite Hd.
Qed.
End Compact.

Lemma compact_val ps p :
  wf ps p ->
  exists p', compact ps p = (Val (free_of p' - free_of p), p') /\ wf ps p' /\ abs p' = abs p /\
    pid p' = pid p /\ floor_of p' = floor_of p /\ free_of p <= free_of p' /\
    free_of p' = ps - 72 - 8 * Z.of_nat (length (abs p)) - live_bytes (abs p).
Proof.
  intros W. destruct (cnt_bound ps p W) as (?&?&?). pose proof (wf_size _ _ W).
  pose proof (wf_fstart _ _ W). pose proof (wf_len _ _ W).
  destruct (cleared_frame ps p W) as (?&?&Hc&_). destruct (top_bounds ps p W) as (?&?&?&Ht).
  pose proof (hdr_inv _ _ _ _ _ _ Hc) as (C1&C2&_). unfold top in *.
  destruct (rewrite_live_run ps (items p) (ps - 8) (cleared ps p)) as (q'&Hrun&Rw);
    rewrite ?C1, ?C2; auto; try lia.
  { by apply (live_items_ok ps). }
  { apply live_slots_NoDup, NoDup_rangeZ. }
  rewrite Ht in Hrun. pose proof (packed_wf ps p q' W Rw) as Wp.
  pose proof (packed_hdr ps p q' W Rw) as Hh. apply hdr_inv in Hh as (_&E2&E3&E4&E5).
  exists (packed ps p q'). unfold free_of. rewrite E2, E3, E4, E5, length_abs by done. unfold top.
  split; [|ands; [done|by apply packed_abs|done|done|lia|lia]].
  unfold compact. run. rewrite (free_space_eq ps) by done. run. rewrite (slot_count_eq ps) by done. run.
  rewrite (collect_live_eq ps) by (auto; intros i; apply elem_of_rangeZ). run.
  unfold PAGE_HEADER_BYTES, PAGE_TRAILER_BYTES, SLOT_BYTES.
  rewrite fill0_in by lia. run. fold (cleared ps p) (items p). rewrite Hrun. run.
  unfold set_free_end, write_u16. rewrite copy_at_in by (rewrite ?(rw_len _ _ _ _ _ Rw); blia). run.
  fold (top ps p) (packed ps p q'). rewrite (free_space_eq ps), E2, E3 by done. run.
  unfold top, sat_sub. do 2 f_equal. lia.
Qed.

(** ** Claims *)

(** C25: On every well-formed page [compact] succeeds; the abstract page (slot
    numbers, generations and tuple contents), the page id and the generation
    floor are unchanged, so every outstanding locator reads the same bytes; the
    value returned is exactly the growth of the free gap; and afterwards the gap
    holds every byte outside the header, the directory, the trailer and the
    live tuples. *)
Theorem compact_preserves_and_packs (ps : Z) (p : bytes) (W : wf ps p) :
  exists p', compact ps p = (Val (free_of p' - free_of p), p') /\ wf ps p' /\ abs p' = abs p /\
    pid p' = pid p /\ floor_of p' = floor_of p /\ free_of p <= free_of p' /\
    free_of p' = ps - 72 - 8 * Z.of_nat (length (abs p)) - live_bytes (abs p) /\
    forall l, 0 <= loc_slot l -> get p' l = get p l.
Proof.
  destruct (compact_val ps p W) as (p'&?&Wp&Ha&Hi&?&?&?). exists p'. ands; try done.
  intros l Hl. by rewrite !(get_eq ps), Ha, Hi.
Qed.

Lemma compact_preserves_and_packs_witness :
  exists p', compact 128 sample = (Val 3, p') /\ wf 128 p' /\ abs p' = [(1, None); (1, Some [4; 5])] /\
    free_of p' = 38.
Proof.
  destruct (compact_preserves_and_packs 128 sample sample_wf) as (p'&Hc&W&Ha&_&_&_&Hf&_).
  rewrite sample_abs in Ha, Hf. cbn in Hf. exists p'. rewrite Hc, Hf. ands; try done.
Defined.

(** The 16-bit offsets of the format cannot address the pages above 64 KiB that
    [validate_page_size] accepts: on a 128 KiB page a tuple reads back intact
    after [insert] but as zeros after [compact]. *)
Theorem compact_loses_tuples_on_large_pages :
  let r := (init 1 131072 ;;; insert [1; 2; 3]) (zeros 131072) in
  let l := mkLocator 1 0 1 in
  validate_page_size 131072 = Val tt /\ fst r = Val l /\ get (snd r) l = Val [1; 2; 3] /\
  fst (compact 131072 (snd r)) = Val 0 /\
  get (snd (compact 131072 (snd r))) l = Val [0; 0; 0].
Proof. cbv zeta. ands; vm_compute; reflexivity. Qed.

(** [reclaimable_space] keeps counting the bytes of a dead tuple after
    [compact] has already turned them into free space: on this page it promises
    3 bytes that a further [compact] does not find. *)
Theorem reclaimable_space_overstates_after_compact :
  exists n p, compact 128 sample = (Val n, p) /\
    reclaimable_space p = Val (free_of p + 3) /\ fst (compact 128 p) = Val 0.
Proof. exists 3, (snd (compact 128 sample)). by vm_compute. Qed.
