(* ===== verification/SlottedTrace.v ===== *)
(** * Slotted heap pages: the life of a locator

    A history of a heap page id: any sequence of insertions, deletions,
    updates and compactions, and of re-allocations of the page id above the
    generation floor the catalog kept.  A locator reads the last value
    written through it until it is deleted, and never anything afterwards. *)

From stdpp Require Import base tactics list numbers gmap.
From Stdlib Require Import ZArith Lia.
From S2P Require Import Prelude Bytes Errors PageFormat Slotted SlottedSpec SlottedRefine SlottedCompact.
Local Open Scope Z_scope.
Local Open Scope bic_scope.

Definition key (l : TupleLocator) : Z * Z := (loc_slot l, loc_generation l).

(** [history ps id p F I C]: a history of page [id] that ends in bytes [p], with
    catalog floor [F], issued locators [I] (slot, generation) and [C] the value
    last written through each locator not deleted since.  An insertion is a step
    as long as the 32-bit generation has not wrapped to 0.  The last rule is
    what vacuum does with a fully dead page ([paged.rs] 3077-3094: the floor is
    raised to [max_generation]) followed by a new tenancy of the page id. *)
Inductive history (ps id : Z) : bytes -> Z -> gset (Z * Z) -> gmap (Z * Z) bytes -> Prop :=
| H_init b p :
    blen b = ps -> init_with_floor id ps 0 b = (Val tt, p) -> history ps id p 0 ∅ ∅
| H_insert p F I C v l p' :
    history ps id p F I C -> bytes_ok v -> insert v p = (Val l, p') -> loc_generation l <> 0 ->
    history ps id p' F ({[key l]} ∪ I) (<[key l := v]> C)
| H_delete p F I C l p' :
    history ps id p F I C -> 0 <= loc_slot l -> delete l p = (Val tt, p') ->
    history ps id p' F I (base.delete (key l) C)
| H_update p F I C l v p' :
    history ps id p F I C -> 0 <= loc_slot l -> bytes_ok v -> update l v p = (Val tt, p') ->
    history ps id p' F I (<[key l := v]> C)
| H_compact p F I C n p' :
    history ps id p F I C -> compact ps p = (Val n, p') -> history ps id p' F I C
| H_retenant p F I C m b p' :
    history ps id p F I C -> live_count p = Val 0 -> max_generation p = Val m -> blen b = ps ->
    init_with_floor id ps (Z.max F m) b = (Val tt, p') -> history ps id p' (Z.max F m) I ∅.

(** ** The invariant of histories *)

Record hinv (ps id : Z) (p : bytes) (F : Z) (I : gset (Z * Z)) (C : gmap (Z * Z) bytes) : Prop := {
  hi_wf : wf ps p;
  hi_pid : pid p = id;
  hi_floor : floor_of p = F;
  hi_F : is_u32 F;
  hi_issued : forall s g, (s, g) ∈ I ->
    0 <= s /\ (g <= F \/ exists g' o, abs p !! Z.to_nat s = Some (g', o) /\ g <= g');
  hi_gens : forall i g o, abs p !! i = Some (g, o) -> F < g < U32;
  hi_sub : forall k v, C !! k = Some v -> k ∈ I;
  hi_contents : forall s g v, 0 <= s -> C !! (s, g) = Some v <-> abs p !! Z.to_nat s = Some (g, Some v)
}.

Lemma hinv_init ps id F b p I :
  72 <= ps <= 65536 -> is_u64 id -> is_u32 F -> blen b = ps ->
  (forall s g, (s, g) ∈ I -> 0 <= s /\ g <= F) ->
  init_with_floor id ps F b = (Val tt, p) -> hinv ps id p F I ∅.
Proof.
  intros Hps Hid HF Hb HI Hi. destruct (init_val ps id F b) as (p'&Hi'&W&Ha&?&?&_); auto.
  simplify_eq. rewrite Hi in Hi'. simplify_eq. split; auto; rewrite ?Ha.
  - intros s g Hs. destruct (HI s g Hs). auto.
  - done.
  - intros k v. by rewrite lookup_empty.
  - intros s g v _. by rewrite lookup_empty.
Qed.

(** Replacing the state of one slot, its generation not decreasing. *)
Lemma hinv_set ps id p F I C p' s g o I' C' (i := Z.to_nat s) :
  hinv ps id p F I C -> wf ps p' -> pid p' = id -> floor_of p' = F -> 0 <= s -> F < g < U32 ->
  (forall j, j <> i -> abs p' !! j = abs p !! j) -> abs p' !! i = Some (g, o) ->
  (forall g0 o0, abs p !! i = Some (g0, o0) -> g0 <= g) ->
  (forall k, k ∈ I' -> k ∈ I \/ k = (s, g)) -> (forall k v, C' !! k = Some v -> k ∈ I') ->
  (forall s' g', s' <> s -> C' !! (s', g') = C !! (s', g')) ->
  (forall g' v, C' !! (s, g') = Some v <-> g' = g /\ o = Some v) ->
  hinv ps id p' F I' C'.
Proof.
  intros [] W Hp Hf Hs Hg Hother Hsame Hmono HI HC HCo HCs. split; auto.
  - intros s' g' [Hin|Heq]%HI.
    + destruct (hi_issued0 s' g' Hin) as [H0 [?|(g1&o1&Ha&?)]]; split; auto. right.
      destruct (decide (s' = s)) as [->|].
      * exists g, o. specialize (Hmono g1 o1 Ha). split; [done|lia].
      * exists g1, o1. rewrite Hother by (unfold i; lia). done.
    + injection Heq as -> ->. split; [done|]. right. exists g, o. split; [done|lia].
  - intros j g' o'. destruct (decide (j = i)) as [->|Hj].
    + rewrite Hsame. intros [= -> ->]. done.
    + rewrite Hother by done. apply hi_gens0.
  - intros s' g' v Hs'. destruct (decide (s' = s)) as [->|Hne].
    + rewrite HCs. fold i. rewrite Hsame. naive_solver.
    + rewrite HCo, Hother by (unfold i; lia). by apply hi_contents0.
Qed.

(** ** Each step *)

Lemma succ_nowrap x :
  is_u32 x -> (x + 1) mod U32 <> 0 -> (x + 1) mod U32 = x + 1 /\ x + 1 < U32.
Proof.
  intros Hx Hn. destruct (decide (x + 1 = U32)) as [E|E].
  - by rewrite E, Z.mod_same in Hn.
  - split; [apply Z.mod_small|]; widths; lia.
Qed.

Lemma insert_inv ps p v l p' :
  wf ps p -> bytes_ok v -> insert v p = (Val l, p') ->
  v <> [] /\ insert_needs p v <= free_of p.
Proof.
  intros W Hv Hi. destruct (decide (v = [])) as [->|Hne].
  - unfold insert in Hi. rewrite bool_decide_eq_true_2 in Hi by done.
    by rewrite (too_large_eq ps) in Hi.
  - split; [done|]. destruct (decide (insert_needs p v <= free_of p)); [done|].
    rewrite (insert_full ps) in Hi by (done || lia). done.
Qed.

Lemma dead_lookup (l : list aslot) i x :
  list_find (fun s => is_dead s = true) l = Some (i, x) -> l !! i = Some x /\ x.2 = None.
Proof.
  intros (Hi&Hd&_)%list_find_Some. split; [done|]. by destruct x as [? []].
Qed.

(** The slot an insertion writes: generation [g] above everything issued there. *)
Lemma spec_insert_fresh ps id p F I C v l' s g :
  hinv ps id p F I C -> spec_insert F v (abs p) = (l', s, g) -> g <> 0 ->
  0 <= s /\ F < g < U32 /\
  (forall j, j <> Z.to_nat s -> l' !! j = abs p !! j) /\ l' !! Z.to_nat s = Some (g, Some v) /\
  (forall g0 o0, abs p !! Z.to_nat s = Some (g0, o0) -> g0 < g /\ o0 = None).
Proof.
  intros [] Hsp Hg. unfold spec_insert in Hsp.
  destruct (list_find _ _) as [[i [g0 o0]]|] eqn:Hf; simplify_eq Hsp; intros <- <- <-;
    rewrite Nat2Z.id.
  - apply dead_lookup in Hf as [Hi Ho]. cbn in Ho. subst o0. pose proof (hi_gens0 i g0 None Hi).
    destruct (succ_nowrap g0) as [Hw ?]; [widths; lia|done|]. rewrite Hw in *. ands; try lia.
    + intros j Hj. by apply list_lookup_insert_ne.
    + apply list_lookup_insert_eq. by eapply lookup_lt_Some.
    + intros g1 o1 H1. rewrite Hi in H1. simplify_eq. split; [lia|done].
  - destruct (succ_nowrap F) as [Hw ?]; [done|done|]. rewrite Hw in *. ands; try lia.
    + intros j Hj. rewrite lookup_app. destruct (abs p !! j) eqn:E; [done|].
      apply lookup_ge_None in E. apply lookup_ge_None. cbn. lia.
    + by rewrite lookup_app_r, Nat.sub_diag by lia.
    + intros g1 o1 H1. rewrite lookup_ge_None_2 in H1 by lia. done.
Qed.

(** A locator with a fresh generation was never issued. *)
Lemma fresh_not_issued ps id p F I C s g :
  hinv ps id p F I C -> F < g ->
  (forall g0 o0, abs p !! Z.to_nat s = Some (g0, o0) -> g0 < g) -> (s, g) ∉ I.
Proof.
  intros [] HF Hlt Hin. destruct (hi_issued0 s g Hin) as [_ [?|(g1&o1&Ha&?)]]; [lia|].
  specialize (Hlt g1 o1 Ha). lia.
Qed.

Lemma hinv_insert ps id p F I C v l p' :
  hinv ps id p F I C -> bytes_ok v -> insert v p = (Val l, p') -> loc_generation l <> 0 ->
  hinv ps id p' F ({[key l]} ∪ I) (<[key l := v]> C) /\ key l ∉ I.
Proof.
  intros Hin Hv Hi Hg. pose proof Hin as [W Hp Hf _ _ _ Hsub _].
  destruct (insert_inv ps p v l p' W Hv Hi) as [Hne Hr].
  pose proof (insert_val ps p v W Hv Hne Hr) as T. rewrite Hf in T.
  destruct (spec_insert F v (abs p)) as [[l' s] g] eqn:Hs.
  destruct T as (p1&Hi1&W'&Ha&Hp'&Hf'&_). rewrite Hi in Hi1. simplify_eq Hi1.
  intros -> ->. cbn in Hg. unfold key. cbn.
  destruct (spec_insert_fresh ps id p F I C v l' s g Hin Hs Hg) as (H0&Hgb&Ho&Hn&Hold).
  assert (Hfresh : (s, g) ∉ I).
  { apply (fresh_not_issued ps id p F I C); [done|lia|]. intros g0 o0 E. by apply Hold in E as [? _]. }
  split; [|done]. rewrite <- Ha in Ho, Hn.
  eapply (hinv_set ps id p F I C p1 s g (Some v)); try done; try congruence.
  - intros g0 o0 E. apply Hold in E as [? _]. lia.
  - set_solver.
  - intros k w. rewrite lookup_insert_Some. intros [[<- _]|[_ Hk]]; [set_solver|].
    apply Hsub in Hk. set_solver.
  - intros s' g' Hs'. by rewrite lookup_insert_ne by congruence.
  - intros g' w. rewrite lookup_insert_Some. split.
    + intros [[[= <-] ->]|[_ Hk]]; [done|].
      apply (hi_contents _ _ _ _ _ _ Hin) in Hk; [|done]. by apply Hold in Hk as [_ ?].
    + intros [-> [= ->]]. by left.
Qed.

(** Deleting or updating through a locator that the page accepts. *)
Lemma hinv_write ps id p F I C l old o p' :
  hinv ps id p F I C -> 0 <= loc_slot l -> spec_get (pid p) (abs p) l = Val old ->
  wf ps p' -> pid p' = pid p -> floor_of p' = floor_of p ->
  abs p' = <[Z.to_nat (loc_slot l) := (loc_generation l, o)]> (abs p) ->
  hinv ps id p' F I (match o with Some v => <[key l := v]> C | None => base.delete (key l) C end).
Proof.
  intros Hin H0 Hg%spec_get_val W' Hp Hf Ha. pose proof Hin as [? ? ? ? ? Hgens Hsub Hct].
  assert (Hk : C !! key l = Some old) by by apply Hct.
  pose proof (Hgens _ _ _ Hg).
  eapply (hinv_set ps id p F I C p' (loc_slot l) (loc_generation l) o); try done; try congruence.
  - intros j Hj. rewrite Ha. by apply list_lookup_insert_ne.
  - rewrite Ha. apply list_lookup_insert_eq. by eapply lookup_lt_Some.
  - intros g0 o0 E. rewrite Hg in E. simplify_eq. lia.
  - by left.
  - intros k w. destruct o; [rewrite lookup_insert_Some|rewrite lookup_delete_Some]; naive_solver.
  - intros s' g' Hs'. unfold key.
    destruct o; [rewrite lookup_insert_ne|rewrite lookup_delete_ne]; congruence.
  - intros g' w. unfold key.
    assert (Hu : forall w, C !! (loc_slot l, g') = Some w -> g' = loc_generation l).
    { intros w' Hw%Hct; [|done]. congruence. }
    destruct o; [rewrite lookup_insert_Some|rewrite lookup_delete_Some]; naive_solver.
Qed.

Lemma hinv_delete ps id p F I C l p' :
  hinv ps id p F I C -> 0 <= loc_slot l -> delete l p = (Val tt, p') ->
  hinv ps id p' F I (base.delete (key l) C).
Proof.
  intros Hin H0 Hd. pose proof (hi_wf _ _ _ _ _ _ Hin) as W.
  destruct (spec_get (pid p) (abs p) l) as [old|e|] eqn:E.
  - destruct (delete_val ps p l old W H0 E) as (p1&Hd1&W1&Ha&Hh&_).
    apply hdr_inv in Hh as (_&_&_&?&?). rewrite Hd in Hd1. simplify_eq. by apply (hinv_write ps id p F I C l old None).
  - destruct (check_fails ps p l e W H0 E) as [Hd1 _]. congruence.
  - by apply spec_get_no_panic in E.
Qed.

Lemma hinv_update ps id p F I C l v p' :
  hinv ps id p F I C -> 0 <= loc_slot l -> bytes_ok v -> update l v p = (Val tt, p') ->
  hinv ps id p' F I (<[key l := v]> C).
Proof.
  intros Hin H0 Hv Hu. pose proof (hi_wf _ _ _ _ _ _ Hin) as W.
  destruct (spec_get (pid p) (abs p) l) as [old|e|] eqn:E.
  - destruct (update_accepts ps p l old v p' W H0 E Hv Hu) as (W'&Ha&Hp&Hf).
    by apply (hinv_write ps id p F I C l old (Some v)).
  - destruct (check_fails ps p l e W H0 E) as [_ Hd1]. rewrite Hd1 in Hu. done.
  - by apply spec_get_no_panic in E.
Qed.

Lemma max_generation_eq ps p :
  wf ps p -> max_generation p = Val (foldr Z.max 0 (fst <$> abs p)).
Proof.
  intros W. unfold max_generation. rewrite (slot_entries_eq ps) by done. run. f_equal.
  unfold abs. rewrite <- list_fmap_compose. generalize (rangeZ 0 (cnt p)) as ss.
  induction ss as [|s ss IH]; [done|]. cbn. f_equal. apply IH.
Qed.

Lemma foldr_max_le (l : list Z) x : x ∈ l -> x <= foldr Z.max 0 l.
Proof. induction 1; cbn; lia. Qed.

Lemma foldr_max_u32 (l : list Z) : Forall is_u32 l -> is_u32 (foldr Z.max 0 l).
Proof. induction 1; cbn; widths; lia. Qed.

Lemma hinv_retenant ps id p F I C m b p' :
  hinv ps id p F I C -> is_u64 id -> max_generation p = Val m -> blen b = ps ->
  init_with_floor id ps (Z.max F m) b = (Val tt, p') -> hinv ps id p' (Z.max F m) I ∅.
Proof.
  intros [W _ _ HF Hiss Hgens _ _] Hid Hm Hb Hi. rewrite (max_generation_eq ps) in Hm by done.
  injection Hm as <-. eapply hinv_init; try done; [apply (wf_size _ _ W)| |].
  - assert (Hall : Forall is_u32 (fst <$> abs p)).
    { apply Forall_fmap, Forall_lookup. intros i [g o] E. cbn. apply Hgens in E. widths. lia. }
    apply foldr_max_u32 in Hall. widths. lia.
  - intros s g Hin. destruct (Hiss s g Hin) as [? [?|(g1&o1&Ha&?)]]; split; try lia.
    assert (g1 ∈ fst <$> abs p) as Hl%foldr_max_le; [|lia].
    apply list_elem_of_fmap. exists (g1, o1). split; [done|]. by eapply list_elem_of_lookup_2.
Qed.

Lemma history_inv ps id p F I C :
  72 <= ps <= 65536 -> is_u64 id -> history ps id p F I C -> hinv ps id p F I C.
Proof.
  intros Hps Hid. induction 1 as [b p Hb Hi|p F I C v l p' _ IH Hv Hi Hg|p F I C l p' _ IH H0 Hd|
    p F I C l v p' _ IH H0 Hv Hu|p F I C n p' _ IH Hc|p F I C m b p' _ IH Hlc Hm Hb Hi].
  - eapply hinv_init; eauto; [widths; lia|set_solver].
  - by eapply hinv_insert.
  - by eapply hinv_delete.
  - by eapply hinv_update.
  - destruct IH. destruct (compact_val ps p) as (p1&Hc1&W&Ha&?&?&_); [done|].
    rewrite Hc in Hc1. simplify_eq. split; rewrite ?Ha; auto.
  - by eapply hinv_retenant.
Qed.

(** ** Claims *)

(** C23: Over every history of a heap page id, re-allocations included: a
    locator reads a value exactly when that value is the last one written
    through it and it has not been deleted since (nor its page re-allocated);
    only issued locators read anything; and an insertion never hands out a
    locator that was handed out before.  So a stale locator never validates
    against another tuple, as long as no 32-bit generation wraps. *)
Theorem stale_locators_never_validate (ps id : Z) p F I C
    (Hps : 72 <= ps <= 65536) (Hid : is_u64 id) (H : history ps id p F I C) :
  (forall l v, 0 <= loc_slot l -> get p l = Val v <-> C !! key l = Some v) /\
  (forall l v, 0 <= loc_slot l -> get p l = Val v -> key l ∈ I) /\
  (forall v l p', bytes_ok v -> insert v p = (Val l, p') -> loc_generation l <> 0 -> key l ∉ I).
Proof.
  pose proof (history_inv ps id p F I C Hps Hid H) as Hin. pose proof Hin as [W ? ? ? ? ? Hsub Hct].
  assert (Hget : forall l v, 0 <= loc_slot l -> get p l = Val v <-> C !! key l = Some v).
  { intros l v Hl. rewrite (get_eq ps), spec_get_val by done. unfold key. by rewrite Hct. }
  split; [done|]. split.
  - intros l v Hl Hg. apply Hget in Hg; [|done]. by eapply Hsub.
  - intros v l p' Hv Hi Hg. by eapply hinv_insert.
Qed.

Definition sample1 : bytes := snd (init 7 128 (zeros 128)).
Definition sample2 : bytes := snd (insert [1; 2; 3] sample1).
Definition sample3 : bytes := snd (insert [4; 5] sample2).
Definition sample4 : bytes := snd (delete (mkLocator 7 0 1) sample3).

Lemma stale_locators_never_validate_witness :
  get sample4 (mkLocator 7 1 1) = Val [4; 5] /\ forall v, get sample4 (mkLocator 7 0 1) <> Val v.
Proof.
  assert (H : history 128 7 sample4 0 ({[(1, 1)]} ∪ ({[(0, 1)]} ∪ ∅))
                (base.delete (0, 1) (<[(1, 1) := [4; 5]]> (<[(0, 1) := [1; 2; 3]]> ∅)))).
  { apply (H_delete 128 7 sample3 0 _ _ (mkLocator 7 0 1)); [|by vm_compute|by vm_compute].
    apply (H_insert 128 7 sample2 0 _ _ _ (mkLocator 7 1 1));
      [|repeat constructor; widths; lia|by vm_compute|done].
    apply (H_insert 128 7 sample1 0 _ _ _ (mkLocator 7 0 1));
      [|repeat constructor; widths; lia|by vm_compute|done].
    apply (H_init 128 7 (zeros 128)); by vm_compute. }
  destruct (stale_locators_never_validate 128 7 _ _ _ _ ltac:(lia) ltac:(widths; lia) H) as [Hg _].
  split; [by apply (Hg (mkLocator 7 1 1))|].
  intros v Hv%Hg; [|done]. unfold key in Hv. cbn in Hv. by rewrite lookup_delete_eq in Hv.
Defined.

(** ** The page type *)

(** The calls that change a page, and their outcomes. *)
Inductive PageOp :=
| PInsert (v : bytes)
| PDelete (l : TupleLocator)
| PUpdate (l : TupleLocator) (v : bytes)
| PCompact
| PGet (l : TupleLocator)
| PFits (n : Z)
| PLocators.

Definition page_exec (ps : Z) (op : PageOp) : st PageError bytes unit :=
  match op with
  | PInsert v => insert v ;;; st_ret tt
  | PDelete l => delete l
  | PUpdate l v => update l v
  | PCompact => compact ps ;;; st_ret tt
  | PGet l => reads (fun p => get p l) ;;; st_ret tt
  | PFits n => reads (fun p => can_fit p n) ;;; st_ret tt
  | PLocators => reads locators ;;; st_ret tt
  end.

Fixpoint page_runs (ps : Z) (ops : list PageOp) (p : bytes) : list (pres unit) * bytes :=
  match ops with
  | [] => ([], p)
  | op :: ops' => let '(r, p') := page_exec ps op p in let '(rs, p'') := page_runs ps ops' p' in (r :: rs, p'')
  end.

Definition page_op_ok (op : PageOp) : Prop :=
  match op with
  | PInsert v => bytes_ok v
  | PDelete l | PGet l => 0 <= loc_slot l
  | PUpdate l v => 0 <= loc_slot l /\ bytes_ok v
  | _ => True
  end.

(** The page kept its type and identity and the call did not panic. *)
Definition kept (ps : Z) (p : bytes) (r : pres unit * bytes) : Prop :=
  fst r <> Panic /\ wf ps (snd r) /\ pid (snd r) = pid p /\ floor_of (snd r) = floor_of p.

Lemma exec_kept ps p op : wf ps p -> page_op_ok op -> kept ps p (page_exec ps op p).
Proof.
  intros W Hok. unfold kept. destruct op as [v|l|l v| |l|n|]; cbn [page_exec page_op_ok] in *.
  - unfold st_bind. destruct (decide (v = [])) as [->|Hne].
    { unfold insert. rewrite bool_decide_eq_true_2 by done. by rewrite (too_large_eq ps). }
    destruct (decide (free_of p < insert_needs p v)) as [Hf|Hf]; [by rewrite (insert_full ps)|].
    pose proof (insert_val ps p v W Hok Hne ltac:(lia)) as V. destruct (spec_insert _ _ _) as [[l s] g]. by destruct V as (p' & -> & ? & _ & ? & ? & _).
  - destruct (spec_get (pid p) (abs p) l) as [v|e|] eqn:E; [|by destruct (check_fails ps p l e W Hok E) as [-> _]|by apply spec_get_no_panic in E].
    destruct (delete_val ps p l v W Hok E) as (p' & -> & ? & _ & Hh & _). by apply hdr_inv in Hh as (_ & _ & _ & ? & ?).
  - destruct Hok as [Hs Hv]. destruct (spec_get (pid p) (abs p) l) as [old|e|] eqn:E; [|by destruct (check_fails ps p l e W Hs E) as [_ ->]|by apply spec_get_no_panic in E].
    destruct (decide (v = [])) as [->|Hne]; [by rewrite (update_empty ps p l old)|].
    destruct (decide (free_of p < update_needs old v)) as [Hf|Hf]; [by rewrite (update_full ps p l old)|].
    destruct (update_val ps p l old v W Hs E Hv Hne ltac:(lia)) as (p' & Eu & _). destruct (update_accepts ps p l old v p' W Hs E Hv Eu) as (? & _ & ? & ?). by rewrite Eu.
  - unfold st_bind. by destruct (compact_val ps p W) as (p' & -> & ? & _ & ? & ? & _).
  - unfold st_bind, reads. rewrite (get_eq ps) by done. destruct (spec_get _ _ _) eqn:E; [done..|by apply spec_get_no_panic in E].
  - unfold st_bind, reads, can_fit. rewrite (find_dead_slot_eq ps), (free_space_eq ps) by done. by run.
  - unfold st_bind, reads, locators. rewrite (slot_entries_eq ps), (page_id_eq ps) by done. by run.
Qed.

(** C40: The type of a heap page is an invariant of its operations.  A page that
    is well formed (header of a heap page, directory inside the page, live tuples
    inside the data area and apart) stays so, with its page id and its generation
    floor, under every sequence of insertions, deletions, updates, compactions
    and reads with any arguments, refused ones included, and none of them
    panics. *)
Theorem slotted_page_type_is_preserved (ps : Z) (p : bytes) (ops : list PageOp) (W : wf ps p) (Hops : Forall page_op_ok ops) :
  let '(rs, p') := page_runs ps ops p in
  Forall (fun r => r <> Panic) rs /\ length rs = length ops /\ wf ps p' /\ typed Heap p' /\ blen p' = ps /\ pid p' = pid p /\ floor_of p' = floor_of p.
Proof.
  revert p W. induction Hops as [|op ops Hop _ IH]; intros p W; cbn [page_runs].
  { ands; try done; [apply (wf_ok _ _ W)|apply W]. }
  pose proof (exec_kept ps p op W Hop) as (K1 & K2 & K3 & K4). destruct (page_exec ps op p) as [r p1]. cbn [fst snd] in *. specialize (IH p1 K2).
  destruct (page_runs ps ops p1) as [rs p2]. destruct IH as (I1 & I2 & I3 & I4 & I5 & I6 & I7). cbn [length].
  ands; [by constructor|congruence|done|done|done|congruence|congruence].
Qed.

Lemma slotted_page_type_is_preserved_witness :
  let '(rs, p') := page_runs 128 [PInsert [1]; PDelete (mkLocator 7 5 1); PUpdate (mkLocator 7 1 1) [8; 9; 9]; PCompact; PInsert (replicate 99 0)] sample in
  Forall (fun r => r <> Panic) rs /\ length rs = 5%nat /\ wf 128 p' /\ typed Heap p' /\ blen p' = 128 /\ pid p' = pid sample /\ floor_of p' = floor_of sample.
Proof.
  apply (slotted_page_type_is_preserved 128 sample [PInsert [1]; PDelete (mkLocator 7 5 1); PUpdate (mkLocator 7 1 1) [8; 9; 9]; PCompact; PInsert (replicate 99 0)] sample_wf).
  repeat (apply Forall_cons; split; [cbn [page_op_ok loc_slot]; first [done|by apply Forall_replicate; widths; lia|repeat constructor; widths; lia]|]). by apply Forall_nil.
Defined.
