(* ===== verification/Mvcc.v ===== *)
(** * MVCC: transaction outcomes, versions, snapshots and visibility

    Models [crates/bicdb-page/src/mvcc.rs].  The table behind the mutex is the
    record [TableInner]; each method that locks once is one atomic operation on
    it.  [BTreeMap] and [BTreeSet] are finite maps and sets, iterated in key
    order; the disk-backed [OutcomeSpill] is the lookup function it promises.
    [status] locks twice and is a function of the table at both moments.  The
    [reason] strings and the allocator's capacity figure are left out. *)

(* @source crates/bicdb-page/src/mvcc.rs *)
From stdpp Require Import base tactics list numbers gmap.
From Stdlib Require Import ZArith Lia.
From S2P Require Import Prelude Search Bytes Errors Slotted.
Local Open Scope Z_scope.
Local Open Scope bic_scope.

(** [VERSION_HEADER_BYTES] (74-74). *)
Definition VERSION_HEADER_BYTES : Z := 8 + 8 + 14.

(** [TxStatus] (77-82). *)
Inductive TxStatus := InProgress | Committed | Aborted.
#[export] Instance TxStatus_eq_dec : EqDecision TxStatus.
Proof. solve_decision. Defined.

(** ** Recovered outcomes *)

(** The status bytes [RecoveredOutcome::COMMITTED] and [ABORTED] (94-95). *)
Definition OUTCOME_COMMITTED : Z := 1.
Definition OUTCOME_ABORTED : Z := 2.

(** What the private constructor of [RecoveredOutcome] guarantees. *)
Definition outcome_valid (b : bytes) : bool :=
  (blen b =? 9) && forallb (fun x => (0 <=? x) && (x <? 256)) b &&
  match b !! 8%nat with
  | Some s => (s =? OUTCOME_COMMITTED) || (s =? OUTCOME_ABORTED)
  | None => false
  end.

(** [RecoveredOutcome] (91-91): nine bytes that only [new] and
    [from_spill_bytes] build. *)
Record RecoveredOutcome := mkOutcome {
  ro_bytes : bytes;
  ro_valid : outcome_valid ro_bytes = true
}.

(** [RecoveredOutcome::from_spill_bytes] (110-115). *)
Definition from_spill_bytes (b : bytes) : option RecoveredOutcome :=
  match bool_dec (outcome_valid b) true with
  | left H => Some (mkOutcome b H)
  | right _ => None
  end.

(** [RecoveredOutcome::new] (97-107). *)
Definition outcome_new (xid : Z) (s : TxStatus) : option RecoveredOutcome :=
  match s with
  | Committed => from_spill_bytes (be_enc 8 xid ++ [OUTCOME_COMMITTED])
  | Aborted => from_spill_bytes (be_enc 8 xid ++ [OUTCOME_ABORTED])
  | InProgress => None
  end.

(** [RecoveredOutcome::to_spill_bytes] (117-119). *)
Definition to_spill_bytes (o : RecoveredOutcome) : bytes := ro_bytes o.
(** [RecoveredOutcome::xid] (121-123). *)
Definition outcome_xid (o : RecoveredOutcome) : Z := be_dec (take 8 (ro_bytes o)).
(** [RecoveredOutcome::status] (125-131); the [unreachable!] arm is excluded by
    [ro_valid]. *)
Definition outcome_status (o : RecoveredOutcome) : TxStatus :=
  if default 0 (ro_bytes o !! 8%nat) =? OUTCOME_COMMITTED then Committed else Aborted.

(** [derive(PartialOrd, Ord)] on [[u8; 9]] (90-90): lexicographic. *)
Fixpoint lex_leb (a b : bytes) : bool :=
  match a, b with
  | [], _ => true
  | _ :: _, [] => false
  | x :: a', y :: b' => if x =? y then lex_leb a' b' else x <? y
  end.
Definition outcome_leb (a b : RecoveredOutcome) : bool := lex_leb (ro_bytes a) (ro_bytes b).

(** [RecoveredOutcomes] (138-141). *)
Record RecoveredOutcomes := mkOutcomes {
  entries : list RecoveredOutcome;
  start : nat
}.

(** The derived [Default] of [RecoveredOutcomes]. *)
Definition outcomes_default : RecoveredOutcomes := mkOutcomes [] 0.

(** The entries from [start] on. *)
Definition remaining (r : RecoveredOutcomes) : list RecoveredOutcome := drop (start r) (entries r).

(** [push] (144-150). *)
Definition outcomes_push (xid : Z) (s : TxStatus) (r : RecoveredOutcomes) : bool * RecoveredOutcomes :=
  match outcome_new xid s with
  | None => (false, r)
  | Some o => (true, mkOutcomes (entries r ++ [o]) (start r))
  end.

(** The loop of [normalize] over the sorted vector [v]: [out] is
    [entries[..write]].  On a contradiction the vector keeps its length, its
    first entries already collapsed. *)
Fixpoint normalize_loop (v todo out : list RecoveredOutcome) : option Z * list RecoveredOutcome :=
  match todo with
  | [] => (None, out)
  | current :: todo' =>
      match last out with
      | Some prev =>
          if outcome_xid prev =? outcome_xid current then
            if negb (bool_decide (outcome_status prev = outcome_status current))
            then (Some (outcome_xid current), out ++ drop (length out) v)
            else normalize_loop v todo' out
          else normalize_loop v todo' (out ++ [current])
      | None => normalize_loop v todo' (out ++ [current])
      end
  end.

(** [normalize] (154-170). *)
Definition normalize (r : RecoveredOutcomes) : option Z * RecoveredOutcomes :=
  let v := sort_by outcome_leb (entries r) in
  let '(x, v') := normalize_loop v v [] in
  (x, mkOutcomes v' (start r)).

(** [len] (172-174). *)
Definition outcomes_len (r : RecoveredOutcomes) : Z :=
  sat_sub (Z.of_nat (length (entries r))) (Z.of_nat (start r)).

(** [committed_count] (182-189). *)
Definition committed_count (r : RecoveredOutcomes) : Z :=
  Z.of_nat (length (filter (fun o => outcome_status o = Committed) (remaining r))).

(** [status] (191-196). *)
Definition outcomes_status (r : RecoveredOutcomes) (xid : Z) : option TxStatus :=
  match binary_search_by (fun o => outcome_xid o ?= xid) (remaining r) with
  | inl index => outcome_status <$> entries r !! (start r + index)%nat
  | inr _ => None
  end.

(** [max_xid] (198-204). *)
Definition max_xid (r : RecoveredOutcomes) : option Z := outcome_xid <$> last (remaining r).

(** [discard_below] (206-210). *)
Definition discard_below (frozen : Z) (r : RecoveredOutcomes) : RecoveredOutcomes :=
  mkOutcomes (entries r) (partition_point (fun o => outcome_xid o <? frozen) (entries r)).

(** [clear] (212-216). *)
Definition outcomes_clear (_ : RecoveredOutcomes) : RecoveredOutcomes := mkOutcomes [] 0.

(** [front] (218-220). *)
Definition front (r : RecoveredOutcomes) : option RecoveredOutcome := entries r !! start r.

(** [pop_front] (222-231). *)
Definition pop_front (r : RecoveredOutcomes) : RecoveredOutcomes :=
  let start' := if (start r <? length (entries r))%nat then S (start r) else start r in
  if (start' =? length (entries r))%nat then mkOutcomes [] 0 else mkOutcomes (entries r) start'.

(** ** Version headers *)

(** [VersionHeader] (240-244). *)
Record VersionHeader := mkVersion {
  xmin : Z;
  xmax : Z;
  prev : option TupleLocator
}.

(** [VersionHeader::new] (247-253). *)
Definition version_new (x : Z) : VersionHeader := mkVersion x 0 None.

(** [encode_into] (255-262). *)
Definition encode_into (h : VersionHeader) (out : bytes) : bytes :=
  out ++ le_enc 8 (xmin h) ++ le_enc 8 (xmax h) ++
  match prev h with Some l => locator_encode l | None => zeros 14 end.

(** [VersionHeader::decode] (264-280). *)
Definition version_decode (b : bytes) : option (VersionHeader * bytes) :=
  if blen b <? VERSION_HEADER_BYTES then None
  else
    let prev_bytes := sub b 16 14 in
    let p := if forallb (fun x => x =? 0) prev_bytes then None else locator_decode prev_bytes in
    Some (mkVersion (u64_at b 0) (u64_at b 8) p, drop 30 b).

(** [patch_xmax] (283-287). *)
Definition patch_xmax (b : bytes) (x : Z) : bytes :=
  if 16 <=? blen b then patch b 8 (le_enc 8 x) else b.

(** ** Snapshots *)

(** [Snapshot] (304-314). *)
Record Snapshot := mkSnapshot {
  snap_xid : Z;
  snap_xmax : Z;
  in_flight : gset Z
}.

(** [began_before] (318-320). *)
Definition began_before (s : Snapshot) (xid : Z) : bool :=
  (xid <? snap_xmax s) && negb (bool_decide (xid ∈ in_flight s)).

(** ** The transaction table *)

(** [FreezeBelowReport] (325-337). *)
Record FreezeBelowReport := mkReport {
  frozen : Z;
  exceptions_recorded : Z;
  limit_reached : bool;
  blocked : bool;
  exception_capacity_full : bool
}.

(** [TableInner] (369-393), with [spill] the [status_checked] of the installed
    [OutcomeSpill] (345-361). *)
Record TableInner := mkTable {
  next_xid : Z;
  status : gmap Z TxStatus;
  recovered : RecoveredOutcomes;
  in_progress : gset Z;
  frozen_xid : Z;
  abort_exceptions : gset Z;
  abort_exception_capacity : Z;
  spill : option (Z -> pres (option TxStatus));
  open_horizon : Z
}.

Abbreviation tst := (st PageError TableInner).

(** Field updates. *)
Definition set_next_xid (x : Z) (t : TableInner) : TableInner :=
  mkTable x (status t) (recovered t) (in_progress t) (frozen_xid t) (abort_exceptions t)
    (abort_exception_capacity t) (spill t) (open_horizon t).
Definition set_status (m : gmap Z TxStatus) (t : TableInner) : TableInner :=
  mkTable (next_xid t) m (recovered t) (in_progress t) (frozen_xid t) (abort_exceptions t)
    (abort_exception_capacity t) (spill t) (open_horizon t).
Definition set_recovered (r : RecoveredOutcomes) (t : TableInner) : TableInner :=
  mkTable (next_xid t) (status t) r (in_progress t) (frozen_xid t) (abort_exceptions t)
    (abort_exception_capacity t) (spill t) (open_horizon t).
Definition set_in_progress (X : gset Z) (t : TableInner) : TableInner :=
  mkTable (next_xid t) (status t) (recovered t) X (frozen_xid t) (abort_exceptions t)
    (abort_exception_capacity t) (spill t) (open_horizon t).
Definition set_frozen (x : Z) (t : TableInner) : TableInner :=
  mkTable (next_xid t) (status t) (recovered t) (in_progress t) x (abort_exceptions t)
    (abort_exception_capacity t) (spill t) (open_horizon t).
Definition set_exceptions (X : gset Z) (t : TableInner) : TableInner :=
  mkTable (next_xid t) (status t) (recovered t) (in_progress t) (frozen_xid t) X
    (abort_exception_capacity t) (spill t) (open_horizon t).

(** [with_exception_capacity] (409-425). *)
Definition with_exception_capacity (capacity : Z) : TableInner :=
  mkTable 1 ∅ outcomes_default ∅ 1 ∅ capacity None 0.
(** [TransactionTable::new] (405-407). *)
Definition table_new : TableInner := with_exception_capacity 0.

(** [set_spill] (429-431). *)
Definition set_spill (f : Z -> pres (option TxStatus)) (t : TableInner) : TableInner :=
  mkTable (next_xid t) (status t) (recovered t) (in_progress t) (frozen_xid t)
    (abort_exceptions t) (abort_exception_capacity t) (Some f) (open_horizon t).

(** [begin] (434-450). *)
Definition begin_tx (t : TableInner) : (Z * Snapshot) * TableInner :=
  let xid := next_xid t in
  let flight := in_progress t in
  let t := set_next_xid ((xid + 1) mod U64) t in
  let t := set_status (<[xid := InProgress]> (status t)) t in
  let t := set_in_progress ({[xid]} ∪ in_progress t) t in
  ((xid, mkSnapshot xid xid flight), t).

(** [latest_snapshot] (453-461). *)
Definition latest_snapshot (t : TableInner) : Snapshot := mkSnapshot 0 (next_xid t) (in_progress t).

(** [commit] (463-467). *)
Definition commit (xid : Z) (t : TableInner) : TableInner :=
  set_in_progress (in_progress t ∖ {[xid]}) (set_status (<[xid := Committed]> (status t)) t).

(** [abort] (469-479). *)
Definition abort (xid : Z) (t : TableInner) : TableInner :=
  if bool_decide (status t !! xid = Some Committed) then t
  else set_in_progress (in_progress t ∖ {[xid]}) (set_status (<[xid := Aborted]> (status t)) t).

(** [resident_terminal_status] (967-972). *)
Definition resident_terminal_status (t : TableInner) (xid : Z) : option TxStatus :=
  match status t !! xid with
  | Some s => Some s
  | None => outcomes_status (recovered t) xid
  end.

(** What the installed spill answers; without one, nothing is recorded there. *)
Definition spill_answer (t : TableInner) (xid : Z) : pres (option TxStatus) :=
  match spill t with Some f => f xid | None => Val None end.

(** [terminal_status] (980-988). *)
Definition terminal_status (t : TableInner) (xid : Z) : pres (option TxStatus) :=
  match resident_terminal_status t xid with
  | Some s => Val (Some s)
  | None => spill_answer t xid
  end.

(** The below-watermark rule [status] applies under each lock. *)
Definition frozen_status (t : TableInner) (xid : Z) : option TxStatus :=
  if xid <? frozen_xid t then
    Some (if bool_decide (xid ∈ abort_exceptions t) then Aborted else Committed)
  else None.

(** [status] (481-557): [t1] is the table under the first lock, [t2] under the
    second, and [answer] is what the spill says in between (only asked for when
    neither the watermark nor a resident record decides). *)
Definition status_between (t1 : TableInner) (answer : pres (option TxStatus)) (t2 : TableInner)
    (xid : Z) : pres TxStatus :=
  if xid =? 0 then Val Committed
  else
    match frozen_status t1 xid with
    | Some s => Val s
    | None =>
        match resident_terminal_status t1 xid with
        | Some s => Val s
        | None =>
            match answer with
            | Val (Some s) => Val s
            | Err _ => Val InProgress
            | Panic => Panic
            | Val None =>
                match frozen_status t2 xid with
                | Some s => Val s
                | None =>
                    match resident_terminal_status t2 xid with
                    | Some s => Val s
                    | None => if xid <? open_horizon t2 then Val Aborted else Val InProgress
                    end
                end
            end
        end
    end.

(** [status] without a concurrent writer. *)
Definition tx_status (t : TableInner) (xid : Z) : pres TxStatus :=
  status_between t (spill_answer t xid) t xid.

(** [seal_previous_incarnations] (567-570). *)
Definition seal_previous_incarnations (t : TableInner) : TableInner :=
  mkTable (next_xid t) (status t) (recovered t) (in_progress t) (frozen_xid t)
    (abort_exceptions t) (abort_exception_capacity t) (spill t) (next_xid t).

(** [restore] (587-594). *)
Definition restore (frozen next : Z) (exceptions : list Z) (t : TableInner) : TableInner :=
  let t := set_frozen (Z.max (frozen_xid t) frozen) t in
  let t := set_next_xid (Z.max (Z.max (next_xid t) next) 1) t in
  set_exceptions (list_to_set exceptions ∪ abort_exceptions t) t.

(** [record_recovered] (597-608). *)
Definition record_recovered (xid : Z) (s : TxStatus) (t : TableInner) : TableInner :=
  let t := set_status (<[xid := s]> (status t)) t in
  let t := set_in_progress
             (if bool_decide (s = InProgress) then {[xid]} ∪ in_progress t
              else in_progress t ∖ {[xid]}) t in
  if next_xid t <=? xid then set_next_xid ((xid + 1) mod U64) t else t.

(** [ensure_next_xid_at_least] (618-621). *)
Definition ensure_next_xid_at_least (candidate : Z) (t : TableInner) : TableInner :=
  set_next_xid (Z.max (Z.max (next_xid t) candidate) 1) t.

(** [record_recovered_batch] (625-632). *)
Definition record_recovered_batch (outcomes : RecoveredOutcomes) (t : TableInner) : TableInner :=
  let t := match max_xid outcomes with
           | Some m => set_next_xid (Z.max (next_xid t) (sat_add m 1)) t
           | None => t
           end in
  set_recovered (discard_below (frozen_xid t) outcomes) t.

(** [BTreeMap::iter]: ascending keys. *)
Definition btree_iter {A} (m : gmap Z A) : list (Z * A) :=
  sort_by (fun x y : Z * A => fst x <=? fst y) (map_to_list m).
(** [BTreeSet::iter]. *)
Definition btree_elements (X : gset Z) : list Z := sort_by Z.leb (elements X).

(** [terminal_outcomes] (636-648). *)
Definition terminal_outcomes (t : TableInner) : list RecoveredOutcome :=
  let finished := omap (fun '(xid, s) => outcome_new xid s)
                    (filter (fun kv : Z * TxStatus => kv.2 <> InProgress) (btree_iter (status t))) in
  dedup (fun a b => bool_decide (ro_bytes a = ro_bytes b))
    (sort_by outcome_leb (finished ++ remaining (recovered t))).

(** [evict_terminal_outcomes] (656-662). *)
Definition evict_terminal_outcomes (t : TableInner) : TableInner :=
  let t := set_status (filter (fun kv : Z * TxStatus => kv.2 = InProgress) (status t)) t in
  set_recovered (outcomes_clear (recovered t)) t.

(** One step past the decided transaction [xid]: forget its resident record
    and move the watermark. *)
Definition step_watermark (xid : Z) (t : TableInner) : TableInner :=
  let t := match front (recovered t) with
           | Some o => if outcome_xid o =? xid then set_recovered (pop_front (recovered t)) t
                       else set_status (base.delete xid (status t)) t
           | None => set_status (base.delete xid (status t)) t
           end in
  set_frozen (sat_add xid 1) t.

Definition set_size (X : gset Z) : Z := Z.of_nat (size X).

(** The [while] loop of [freeze_below_bounded]: the counters
    [frozen], [exceptions_recorded], [exception_capacity_full]. *)
Fixpoint freeze_loop (fuel : nat) (oldest_active max_xids frozen excs : Z) : tst (Z * Z * bool) :=
  match fuel with
  | O => st_ret (frozen, excs, false)
  | S fuel' =>
      do t <- gets id ;;
      if (frozen <? max_xids) && (frozen_xid t <? oldest_active) then
        let xid := frozen_xid t in
        do s <- reads (fun t => terminal_status t xid) ;;
        match s with
        | Some InProgress => st_ret (frozen, excs, false)
        | Some Committed =>
            modify (step_watermark xid) ;;;
            freeze_loop fuel' oldest_active max_xids (sat_add frozen 1) excs
        | Some Aborted | None =>
            if abort_exception_capacity t <=? set_size (abort_exceptions t)
            then st_ret (frozen, excs, true)
            else
              modify (fun t => set_exceptions ({[xid]} ∪ abort_exceptions t) t) ;;;
              modify (step_watermark xid) ;;;
              freeze_loop fuel' oldest_active max_xids (sat_add frozen 1) (sat_add excs 1)
        end
      else st_ret (frozen, excs, false)
  end.

(** [freeze_below_bounded] (692-744).  Each turn of the loop moves the
    watermark up by one, so [oldest_active - frozen_xid] turns are enough. *)
Definition freeze_below_bounded (oldest_active max_xids : Z) : tst FreezeBelowReport :=
  do t <- gets id ;;
  do (frozen, excs, full) <-
    freeze_loop (S (Z.to_nat (oldest_active - frozen_xid t))) oldest_active max_xids 0 0 ;;
  do t <- gets id ;;
  do still_freezable <-
    (if frozen_xid t <? oldest_active then
       do s <- reads (fun t => terminal_status t (frozen_xid t)) ;;
       st_ret match s with
              | Some Committed => true
              | Some InProgress => false
              | Some Aborted | None =>
                  set_size (abort_exceptions t) <? abort_exception_capacity t
              end
     else st_ret false) ;;
  st_ret (mkReport frozen excs ((frozen =? max_xids) && still_freezable)
            ((frozen_xid t <? oldest_active) && negb still_freezable && negb full) full).

(** [freeze_below] (669-671). *)
Definition freeze_below (oldest_active : Z) : tst FreezeBelowReport :=
  freeze_below_bounded oldest_active u64_max.

(** What a jump of the watermark can trip over. *)
Inductive Obstacle :=
| StillInProgress (active : Z)
| UnfrozenOutcome (xid : Z) (s : TxStatus).

(** [inner.in_progress.range(..target).next()] and the first resident outcome
    below [target] that is not committed. *)
Definition first_active_below (target : Z) (t : TableInner) : option Z :=
  head (filter (fun x => x < target) (btree_elements (in_progress t))).
Definition first_uncommitted_below (target : Z) (t : TableInner) : option (Z * TxStatus) :=
  head (filter (fun kv : Z * TxStatus => kv.2 <> Committed)
          (filter (fun kv : Z * TxStatus => kv.1 < target) (btree_iter (status t)))).

(** [watermark_jump_obstacle] (772-793). *)
Definition watermark_jump_obstacle (target : Z) (t : TableInner) : option Obstacle :=
  if target <=? frozen_xid t then None
  else
    match first_active_below target t with
    | Some active => Some (StillInProgress active)
    | None =>
        match first_uncommitted_below target t with
        | Some (xid, s) => Some (UnfrozenOutcome xid s)
        | None => None
        end
    end.

(** The loop popping recovered outcomes below [target]. *)
Fixpoint pop_below (fuel : nat) (target : Z) (r : RecoveredOutcomes) : RecoveredOutcomes :=
  match fuel with
  | O => r
  | S fuel' =>
      match front r with
      | Some o => if outcome_xid o <? target then pop_below fuel' target (pop_front r) else r
      | None => r
      end
  end.

(** [jump_frozen_to] (795-852). *)
Definition jump_frozen_to (target : Z) : tst Z :=
  do t <- gets id ;;
  if target <=? frozen_xid t then st_ret (frozen_xid t)
  else if next_xid t <? target then st_fail (TransactionFloorRefused target)
  else
    match first_active_below target t with
    | Some _ => st_fail (TransactionFloorRefused target)
    | None =>
        match first_uncommitted_below target t with
        | Some _ => st_fail (TransactionFloorRefused target)
        | None =>
            if match front (recovered t) with
               | Some o => (outcome_xid o <? target) && negb (bool_decide (outcome_status o = Committed))
               | None => false
               end
            then st_fail (TransactionFloorRefused target)
            else
              modify (fun t => set_status (filter (fun kv : Z * TxStatus => target <= kv.1) (status t)) t) ;;;
              modify (fun t => set_recovered
                        (pop_below (S (length (remaining (recovered t)))) target (recovered t)) t) ;;;
              modify (set_frozen target) ;;;
              st_ret target
        end
    end.

(** [has_unfrozen_commits] (873-884). *)
Definition has_unfrozen_commits (t : TableInner) : bool :=
  existsb (fun '(_, s) => bool_decide (s = Committed))
    (filter (fun kv : Z * TxStatus => frozen_xid t <= kv.1) (btree_iter (status t))) ||
  existsb (fun o => (frozen_xid t <=? outcome_xid o) && bool_decide (outcome_status o = Committed))
    (remaining (recovered t)).

(** [in_progress] (885-887). *)
Definition in_progress_list (t : TableInner) : list Z := btree_elements (in_progress t).

(** [oldest_in_progress_or_next] (891-894). *)
Definition oldest_in_progress_or_next (t : TableInner) : Z :=
  default (next_xid t) (head (btree_elements (in_progress t))).

(** [resident_entries] (898-901). *)
Definition resident_entries (t : TableInner) : Z :=
  sat_add (Z.of_nat (size (status t))) (outcomes_len (recovered t)).

(** [abort_exceptions] (905-908). *)
Definition abort_exceptions_list (t : TableInner) : list Z := btree_elements (abort_exceptions t).

(** ** Visibility *)

(** [xid_visible] (936-950). *)
Definition xid_visible (t : TableInner) (xid : Z) (s : Snapshot) : pres bool :=
  if xid =? 0 then Val true
  else if xid =? snap_xid s then Val true
  else if negb (began_before s xid) then Val false
  else let! r := tx_status t xid in Val (bool_decide (r = Committed)).

(** [is_visible] (926-934). *)
Definition is_visible (t : TableInner) (h : VersionHeader) (s : Snapshot) : pres bool :=
  let! created := xid_visible t (xmin h) s in
  if negb created then Val false
  else if xmax h =? 0 then Val true
  else let! deleted := xid_visible t (xmax h) s in Val (negb deleted).

(** [is_concurrent] (954-962). *)
Definition is_concurrent (t : TableInner) (xid : Z) (s : Snapshot) : pres bool :=
  if (xid =? 0) || (xid =? snap_xid s) then Val false
  else
    let! r := tx_status t xid in
    if bool_decide (r = Aborted) then Val false
    else if negb (began_before s xid) then Val true
    else let! r := tx_status t xid in Val (bool_decide (r = InProgress)).
