(* ===== verification/MvccOutcomes.v ===== *)
(** * MVCC: version headers and recovered outcomes

    The codec of version headers, the nine-byte encoding of outcomes and its
    order, and the sorted vector of recovered outcomes as a finite map. *)

From stdpp Require Import base tactics list numbers gmap sorting.
From Stdlib Require Import ZArith Lia.
From S2P Require Import Prelude Search Bytes Errors Slotted Mvcc.
Local Open Scope Z_scope.
Local Open Scope bic_scope.

(** ** The order of big-endian encodings *)

Lemma be_dec_app l1 l2 : be_dec (l1 ++ l2) = be_dec l1 * 2 ^ (8 * blen l2) + be_dec l2.
Proof.
  unfold be_dec, blen. rewrite rev_app_distr. generalize (rev l1) as r1. intros r1.
  rewrite <- (length_rev l2). induction (rev l2) as [|b r2 IH]; cbn [app le_dec length].
  - change (8 * Z.of_nat 0) with 0. lia.
  - rewrite IH. replace (8 * Z.of_nat (S (length r2))) with (8 + 8 * Z.of_nat (length r2)) by lia.
    rewrite Z.pow_add_r by lia. change (2 ^ 8) with 256. lia.
Qed.

Lemma be_dec_cons b l : be_dec (b :: l) = b * 2 ^ (8 * blen l) + be_dec l.
Proof.
  change (b :: l) with ([b] ++ l). rewrite be_dec_app. f_equal. cbn. lia.
Qed.

Lemma be_dec_bound l : bytes_ok l -> 0 <= be_dec l < 2 ^ (8 * blen l).
Proof.
  intros H. unfold be_dec, blen. rewrite <- length_rev.
  apply le_dec_bound. by apply List.Forall_rev.
Qed.

(** Lexicographic order on equally long buffers is the order of the numbers
    they encode big-endian. *)
Lemma lex_leb_be a : forall b,
  bytes_ok a -> bytes_ok b -> length a = length b -> lex_leb a b = (be_dec a <=? be_dec b).
Proof.
  induction a as [|x a IH]; intros [|y b] Ha Hb Hl; try done.
  apply Forall_cons_1 in Ha as [Hx Ha], Hb as [Hy Hb]. injection Hl as Hl.
  cbn [lex_leb]. rewrite !be_dec_cons.
  assert (El : blen a = blen b) by (unfold blen; by rewrite Hl). rewrite El.
  pose proof (be_dec_bound a Ha) as Ba. pose proof (be_dec_bound b Hb) as Bb. rewrite El in Ba.
  set (w := 2 ^ (8 * blen b)) in *. destruct (x =? y) eqn:E; bools.
  - subst y. rewrite IH by done.
    destruct (Z.leb_spec (be_dec a) (be_dec b)), (Z.leb_spec (x * w + be_dec a) (x * w + be_dec b)); lia.
  - destruct (Z.ltb_spec x y), (Z.leb_spec (x * w + be_dec a) (y * w + be_dec b)); nia.
Qed.

(** ** One outcome *)

Lemma outcome_valid_spec b :
  outcome_valid b = true <->
  exists k s, b = k ++ [s] /\ length k = 8%nat /\ bytes_ok k /\ (s = 1 \/ s = 2).
Proof.
  unfold outcome_valid, OUTCOME_COMMITTED, OUTCOME_ABORTED. split.
  - intros H. bools. destruct (b !! 8%nat) as [s|] eqn:Hs; [|done].
    assert (Hl : length b = 9%nat) by (unfold blen in *; lia).
    exists (take 8 b), s. rewrite <- (take_drop_middle b 8 s Hs) at 1.
    rewrite (drop_ge b 9) by lia. ands; [done|rewrite length_take; lia| |].
    + apply Forall_take, Forall_forall. intros x Hx%list_elem_of_In.
      match goal with H : forallb _ b = true |- _ => rewrite forallb_forall in H; apply H in Hx end.
      bools. done.
    + match goal with H : (_ || _)%bool = true |- _ => apply orb_true_iff in H as [?|?] end; bools; auto.
  - intros (k&s&->&Hl&Hk&Hs). unfold blen. rewrite length_app, Hl.
    rewrite lookup_app_r, Hl, forallb_app by lia.
    assert (Hf : forallb (fun x => (0 <=? x) && (x <? 256)) k = true).
    { apply forallb_forall. intros x Hx%list_elem_of_In. unfold bytes_ok in Hk. rewrite Forall_forall in Hk.
      specialize (Hk x Hx). widths. apply andb_true_iff. split; [apply Z.leb_le|apply Z.ltb_lt]; lia. }
    rewrite Hf. destruct Hs; by subst s.
Qed.

Definition sbyte (s : TxStatus) : Z := match s with Committed => 1 | _ => 2 end.

Lemma outcome_repr o :
  exists k, ro_bytes o = k ++ [sbyte (outcome_status o)] /\ length k = 8%nat /\ bytes_ok k /\
    outcome_xid o = be_dec k /\ outcome_status o <> InProgress.
Proof.
  destruct o as [b H]. unfold outcome_xid, outcome_status. cbn [ro_bytes].
  apply outcome_valid_spec in H as (k&s&->&Hl&Hk&Hs). exists k.
  rewrite lookup_app_r by lia. rewrite Hl. cbn. unfold OUTCOME_COMMITTED.
  rewrite take_app_length' by done. destruct Hs as [-> | ->]; done.
Qed.

Lemma from_spill_bytes_Some b o : from_spill_bytes b = Some o -> ro_bytes o = b.
Proof. unfold from_spill_bytes. destruct (bool_dec _ _); [|done]. by intros [= <-]. Qed.

Lemma outcome_new_spec xid s :
  is_u64 xid -> s <> InProgress ->
  exists o, outcome_new xid s = Some o /\ outcome_xid o = xid /\ outcome_status o = s.
Proof.
  intros Hx Hs.
  assert (Hv : forall c, c = 1 \/ c = 2 -> exists o, from_spill_bytes (be_enc 8 xid ++ [c]) = Some o /\
            ro_bytes o = be_enc 8 xid ++ [c]).
  { intros c Hc. unfold from_spill_bytes. destruct (bool_dec _ _) as [e|n]; [by eexists|].
    exfalso. apply n. apply outcome_valid_spec. exists (be_enc 8 xid), c.
    rewrite length_be_enc. auto with bic. }
  assert (Hb : exists o, outcome_new xid s = Some o /\ ro_bytes o = be_enc 8 xid ++ [sbyte s])
    by (destruct s; [done|apply Hv; auto..]).
  destruct Hb as (o&Ho&Eb). exists o. split; [done|]. unfold outcome_xid, outcome_status. rewrite Eb.
  rewrite take_app_length' by (by rewrite length_be_enc). rewrite be_dec_enc.
  rewrite lookup_app_r by (rewrite length_be_enc; lia). rewrite length_be_enc. cbn. split.
  - apply Z.mod_small. apply Hx.
  - by destruct s.
Qed.

(** The number the nine bytes encode. *)
Definition ocode (o : RecoveredOutcome) : Z := 256 * outcome_xid o + sbyte (outcome_status o).

Lemma outcome_leb_code a b : outcome_leb a b = (ocode a <=? ocode b).
Proof.
  unfold outcome_leb, ocode.
  destruct (outcome_repr a) as (ka&Ea&La&Ha&Xa&_), (outcome_repr b) as (kb&Eb&Lb&Hb&Xb&_).
  assert (Hs : forall s, bytes_ok [sbyte s]) by (intros []; repeat constructor; cbn; widths; lia).
  rewrite Ea, Eb, lex_leb_be.
  - rewrite !be_dec_app, Xa, Xb. change (blen [sbyte (outcome_status a)]) with 1.
    change (blen [sbyte (outcome_status b)]) with 1. change (2 ^ (8 * 1)) with 256.
    assert (Hd : forall s, be_dec [sbyte s] = sbyte s) by by intros [].
    rewrite !Hd. f_equal; lia.
  - apply Forall_app_2; [done|apply Hs].
  - apply Forall_app_2; [done|apply Hs].
  - rewrite !length_app. cbn. lia.
Qed.

Lemma outcome_eq a b :
  outcome_xid a = outcome_xid b -> outcome_status a = outcome_status b -> ro_bytes a = ro_bytes b.
Proof.
  destruct (outcome_repr a) as (ka&Ea&La&Ha&Xa&_), (outcome_repr b) as (kb&Eb&Lb&Hb&Xb&_).
  intros Hx Hs. rewrite Ea, Eb, Hs. f_equal. rewrite <- (rev_involutive ka), <- (rev_involutive kb).
  f_equal. apply le_dec_inj; [by apply List.Forall_rev|by apply List.Forall_rev| |].
  - rewrite !length_rev. lia.
  - rewrite Xa, Xb in Hx. exact Hx.
Qed.

(** ** The sorted vector as a map *)

Definition xids (l : list RecoveredOutcome) : list Z := outcome_xid <$> l.

(** [l] records the decision [s] for [x]. *)
Definition decides (l : list RecoveredOutcome) (x : Z) (s : TxStatus) : Prop :=
  exists o, o ∈ l /\ outcome_xid o = x /\ outcome_status o = s.

Lemma decides_app l1 l2 x s : decides (l1 ++ l2) x s <-> decides l1 x s \/ decides l2 x s.
Proof. unfold decides. set_solver. Qed.

Lemma decides_single o x s : decides [o] x s <-> outcome_xid o = x /\ outcome_status o = s.
Proof. unfold decides. set_solver. Qed.

Lemma strictly_lookup l i j a b :
  StronglySorted Z.lt (xids l) -> l !! i = Some a -> l !! j = Some b ->
  (i < j)%nat -> outcome_xid a < outcome_xid b.
Proof.
  intros Hs Ha Hb Hij. apply (StronglySorted_lookup Z.lt (xids l) i j); auto; unfold xids.
  - by rewrite list_lookup_fmap, Ha.
  - by rewrite list_lookup_fmap, Hb.
Qed.

Lemma sorted_search l x :
  StronglySorted Z.lt (xids l) ->
  match binary_search_by (fun o => outcome_xid o ?= x) l with
  | inl i => exists o, l !! i = Some o /\ outcome_xid o = x
  | inr _ => forall o, o ∈ l -> outcome_xid o <> x
  end.
Proof.
  intros Hs. pose proof (binary_search_by_spec (fun o => outcome_xid o ?= x) l) as H.
  assert (Hord : ordered_for (fun o => outcome_xid o ?= x) l).
  { intros i j a b Hij Ha Hb. rewrite !Z.compare_gt_iff, !Z.compare_lt_iff.
    destruct (decide (i = j)) as [->|]; [simplify_eq; done|].
    pose proof (strictly_lookup l i j a b Hs Ha Hb ltac:(lia)). lia. }
  specialize (H Hord). destruct (binary_search_by _ l) as [i|i].
  - destruct H as (o&Ho&Hx). exists o. split; [done|]. by apply Z.compare_eq in Hx.
  - destruct H as [_ H]. intros o (j&Hj)%list_elem_of_lookup_1 Hx. specialize (H j o Hj).
    rewrite Hx, Z.compare_refl in H. by destruct (_ <? _)%nat.
Qed.

(** A lookup in a sorted vector answers exactly what the vector records. *)
Lemma outcomes_status_spec r x s :
  StronglySorted Z.lt (xids (remaining r)) ->
  outcomes_status r x = Some s <-> decides (remaining r) x s.
Proof.
  intros Hs. unfold outcomes_status, decides. pose proof (sorted_search _ x Hs) as H.
  destruct (binary_search_by _ _) as [i|i].
  - destruct H as (o&Ho&Hx). unfold remaining in Ho. rewrite lookup_drop in Ho. rewrite Ho. cbn. split.
    + intros [= <-]. exists o. split; [|done]. unfold remaining.
      apply (list_elem_of_lookup_2 _ i). by rewrite lookup_drop.
    + intros (o'&Ho'&Hx'&<-). f_equal.
      apply list_elem_of_lookup_1 in Ho' as (j&Hj). unfold remaining in *.
      rewrite <- lookup_drop in Ho.
      destruct (decide (i = j)) as [->|]; [by simplify_eq|].
      destruct (decide (i < j)%nat).
      * pose proof (strictly_lookup _ i j o o' Hs Ho Hj ltac:(lia)). lia.
      * pose proof (strictly_lookup _ j i o' o Hs Hj Ho ltac:(lia)). lia.
  - split; [done|]. intros (o&Ho&Hx&_). by destruct (H o Ho).
Qed.

(** ** [normalize] *)

Lemma sorted_entries l : StronglySorted (rel_of outcome_leb) (sort_by outcome_leb l).
Proof.
  apply sort_by_sorted; intros *; rewrite !outcome_leb_code, !Z.leb_le; lia.
Qed.

Lemma code_le_xid a b : rel_of outcome_leb a b -> outcome_xid a <= outcome_xid b.
Proof.
  unfold rel_of. rewrite outcome_leb_code, Z.leb_le. unfold ocode.
  destruct (outcome_status a), (outcome_status b); cbn; lia.
Qed.

(** The invariant of the loop: [out] is strictly sorted, records what the
    entries already read record, and nothing still to read is smaller. *)
Lemma normalize_loop_spec v todo : forall out done_,
  StronglySorted (rel_of outcome_leb) todo ->
  StronglySorted Z.lt (xids out) ->
  (forall x s, decides out x s <-> decides done_ x s) ->
  (forall o p, last out = Some p -> o ∈ todo -> outcome_xid p <= outcome_xid o) ->
  match normalize_loop v todo out with
  | (None, out') => StronglySorted Z.lt (xids out') /\
      forall x s, decides out' x s <-> decides (done_ ++ todo) x s
  | (Some x, _) => decides (done_ ++ todo) x Committed /\ decides (done_ ++ todo) x Aborted
  end.
Proof.
  induction todo as [|c todo IH]; intros out done_ Ht Ho Hd Hl; cbn.
  - rewrite app_nil_r. done.
  - apply StronglySorted_inv in Ht as [Ht Hc]. rewrite Forall_forall in Hc.
    assert (Hcons : done_ ++ c :: todo = (done_ ++ [c]) ++ todo) by by rewrite <- app_assoc.
    assert (Hpush : (forall p, last out = Some p -> outcome_xid p < outcome_xid c) ->
      match normalize_loop v todo (out ++ [c]) with
      | (None, out') => StronglySorted Z.lt (xids out') /\
          forall x s, decides out' x s <-> decides (done_ ++ c :: todo) x s
      | (Some x, _) => decides (done_ ++ c :: todo) x Committed /\ decides (done_ ++ c :: todo) x Aborted
      end).
    { intros Hlt. rewrite Hcons. apply IH; [done| | |].
      - unfold xids. rewrite fmap_app. apply StronglySorted_app. ands.
        + intros x y Hx Hy%list_elem_of_singleton. subst y.
          destruct (last out) as [p|] eqn:Hp.
          * specialize (Hlt p eq_refl). apply last_Some in Hp as (out0&->).
            unfold xids in Ho. rewrite fmap_app, StronglySorted_app in Ho.
            destruct Ho as (Ho&_&_). rewrite fmap_app, elem_of_app in Hx.
            destruct Hx as [Hx|Hx%list_elem_of_singleton]; [|by subst].
            specialize (Ho x (outcome_xid p) Hx ltac:(by left)). lia.
          * apply last_None in Hp. subst. set_solver.
        + done.
        + repeat constructor.
      - intros x s. rewrite !decides_app, Hd. done.
      - intros o p. rewrite last_snoc. intros [= <-] Hin. by apply code_le_xid, Hc. }
    destruct (last out) as [p|] eqn:Hp; [|by apply Hpush].
    destruct (outcome_xid p =? outcome_xid c) eqn:E; bools.
    + assert (Hdp : decides (done_ ++ [c]) (outcome_xid c) (outcome_status p)).
      { rewrite decides_app, <- Hd. left. exists p. apply last_Some in Hp as (out0&->). set_solver. }
      assert (Hdc : decides (done_ ++ [c]) (outcome_xid c) (outcome_status c)).
      { rewrite decides_app, decides_single. by right. }
      destruct (bool_decide _) eqn:Es; bools; cbn [negb].
      * rewrite Hcons. apply IH; [done|done| |].
        -- intros x s. rewrite decides_app, decides_single, Hd. split; [by left|].
           intros [?|[<- <-]]; [done|]. rewrite <- Hd. exists p. rewrite <- Es, E.
           apply last_Some in Hp as (out0&->). set_solver.
        -- intros o p' Hp' Hin. rewrite Hp in Hp'. apply (Hl o p' Hp'). set_solver.
      * rewrite Hcons, !decides_app. destruct (outcome_repr p) as (_&_&_&_&_&Np), (outcome_repr c) as (_&_&_&_&_&Nc).
        rewrite decides_app in Hdp, Hdc.
        destruct (outcome_status p), (outcome_status c); try done; tauto.
    + apply Hpush. intros p' [= <-]. assert (c ∈ c :: todo) as Hin by set_solver.
      specialize (Hl c p eq_refl Hin). lia.
Qed.

Lemma decides_perm l1 l2 x s : l1 ≡ₚ l2 -> decides l1 x s <-> decides l2 x s.
Proof. intros H. unfold decides. setoid_rewrite H. done. Qed.

Lemma normalize_spec r :
  match normalize r with
  | (None, r') => start r' = start r /\ StronglySorted Z.lt (xids (entries r')) /\
      forall x s, decides (entries r') x s <-> decides (entries r) x s
  | (Some x, _) => decides (entries r) x Committed /\ decides (entries r) x Aborted
  end.
Proof.
  unfold normalize. set (v := sort_by outcome_leb (entries r)).
  assert (Hv : v ≡ₚ entries r) by apply sort_by_perm.
  pose proof (normalize_loop_spec v v [] [] (sorted_entries _)) as H. cbn in H.
  destruct (normalize_loop v v []) as [[x|] v'].
  - rewrite <- !(decides_perm _ _ _ _ Hv). apply H; [constructor|done|done].
  - split; [done|]. cbn [entries]. setoid_rewrite <- (decides_perm _ _ _ _ Hv).
    apply H; [constructor|done|done].
Qed.

(** Pushing a list of terminal decisions. *)
Fixpoint push_all (ds : list (Z * TxStatus)) (r : RecoveredOutcomes) : RecoveredOutcomes :=
  match ds with
  | [] => r
  | (x, s) :: ds' => push_all ds' (snd (outcomes_push x s r))
  end.

Lemma push_all_spec ds : forall r,
  Forall (fun d => is_u64 d.1 /\ d.2 <> InProgress) ds ->
  start (push_all ds r) = start r /\
  forall x s, decides (entries (push_all ds r)) x s <-> decides (entries r) x s \/ (x, s) ∈ ds.
Proof.
  induction ds as [|[x0 s0] ds IH]; intros r Hds; cbn.
  - split; [done|]. set_solver.
  - apply Forall_cons_1 in Hds as [[Hx Hs] Hds]. cbn in Hx, Hs. unfold outcomes_push.
    destruct (outcome_new_spec x0 s0 Hx Hs) as (o&->&Ho1&Ho2). cbn [snd].
    destruct (IH (mkOutcomes (entries r ++ [o]) (start r)) Hds) as [-> IH2]. split; [done|].
    intros x s. rewrite IH2. cbn [entries]. rewrite decides_app, decides_single, elem_of_cons.
    subst x0 s0. naive_solver.
Qed.

(** What normalising the pushed decisions leaves. *)
Lemma normalized_decisions (ds : list (Z * TxStatus))
    (Hds : Forall (fun d => is_u64 d.1 /\ d.2 <> InProgress) ds) :
  match normalize (push_all ds outcomes_default) with
  | (Some x, _) => (x, Committed) ∈ ds /\ (x, Aborted) ∈ ds
  | (None, r) => StronglySorted Z.lt (xids (entries r)) /\
      forall x s, outcomes_status r x = Some s <-> (x, s) ∈ ds
  end.
Proof.
  destruct (push_all_spec ds outcomes_default Hds) as [Hst Hdec].
  pose proof (normalize_spec (push_all ds outcomes_default)) as H.
  destruct (normalize _) as [[x|] r].
  - rewrite !Hdec in H. unfold decides in H. set_solver.
  - destruct H as (Hs&Hsort&Hd). split; [done|]. intros x s.
    assert (Hr : remaining r = entries r) by (unfold remaining; by rewrite Hs, Hst).
    rewrite outcomes_status_spec, Hr, Hd, Hdec by (by rewrite Hr). unfold decides. set_solver.
Qed.

(** ** Claims *)

(** Recovery pushes the terminal decisions it reads from the log in any
    order and with repetitions, and normalizes once.  Either [normalize] names a
    transaction that the log both commits and aborts, or the vector is strictly
    sorted and [status] answers for every transaction exactly the decision the
    log recorded (and nothing for the others). *)
Theorem recovered_outcomes_are_the_log_decisions (ds : list (Z * TxStatus))
    (Hds : Forall (fun d => is_u64 d.1 /\ d.2 <> InProgress) ds) :
  match normalize (push_all ds outcomes_default) with
  | (Some x, _) => (x, Committed) ∈ ds /\ (x, Aborted) ∈ ds
  | (None, r) => StronglySorted Z.lt (xids (entries r)) /\
      forall x s, outcomes_status r x = Some s <-> (x, s) ∈ ds
  end.
Proof. by apply normalized_decisions. Qed.

Lemma recovered_outcomes_are_the_log_decisions_witness :
  let ds := [(9, Aborted); (3, Committed); (300, Committed); (9, Aborted)] in
  exists r, normalize (push_all ds outcomes_default) = (None, r) /\
    outcomes_status r 9 = Some Aborted /\ outcomes_status r 300 = Some Committed /\
    outcomes_status r 4 = None.
Proof.
  intros ds.
  assert (Hds : Forall (fun d => is_u64 d.1 /\ d.2 <> InProgress) ds).
  { repeat (constructor; [split; [widths; cbn; lia|done]|]). constructor. }
  pose proof (recovered_outcomes_are_the_log_decisions ds Hds) as T.
  destruct (normalize (push_all ds outcomes_default)) as [[x|] r] eqn:E.
  - vm_compute in E. done.
  - exists r. destruct T as [_ T]. ands; [done|apply T; set_solver|apply T; set_solver|].
    destruct (outcomes_status r 4) as [s|] eqn:E4; [|done]. apply T in E4. set_solver.
Defined.

(** *** Version headers *)

(** A locator of a heap tuple: fields at their widths, never generation 0 of page 0. *)
Definition locator_ok (l : TupleLocator) : Prop :=
  is_u64 (loc_page l) /\ (loc_page l <> 0 \/ loc_generation l <> 0) /\ is_u16 (loc_slot l) /\ is_u32 (loc_generation l).

Lemma locator_roundtrip l : locator_ok l -> locator_decode (locator_encode l) = Some l.
Proof.
  intros (Hp&_&Hs&Hg). unfold locator_decode, locator_encode.
  rewrite (proj2 (Z.ltb_ge _ _)) by blens. unfold u64_at, u16_at, u32_at.
  change (sub (le_enc 8 (loc_page l) ++ le_enc 2 (loc_slot l) ++ le_enc 4 (loc_generation l)) 0 8)
    with (le_enc 8 (loc_page l)).
  change (sub (le_enc 8 (loc_page l) ++ le_enc 2 (loc_slot l) ++ le_enc 4 (loc_generation l)) 8 2)
    with (le_enc 2 (loc_slot l)).
  change (sub (le_enc 8 (loc_page l) ++ le_enc 2 (loc_slot l) ++ le_enc 4 (loc_generation l)) 10 4)
    with (le_enc 4 (loc_generation l)).
  rewrite !le_dec_enc. widths. change (2 ^ (8 * Z.of_nat 8)) with 18446744073709551616.
  change (2 ^ (8 * Z.of_nat 2)) with 65536. change (2 ^ (8 * Z.of_nat 4)) with 4294967296.
  rewrite !Z.mod_small by lia. by destruct l.
Qed.

Definition prev_bytes (p : option TupleLocator) : bytes :=
  match p with Some l => locator_encode l | None => zeros 14 end.

Definition prev_ok (p : option TupleLocator) : Prop :=
  match p with Some l => locator_ok l | None => True end.

Lemma prev_bytes_decode p :
  prev_ok p ->
  (if forallb (fun x => x =? 0) (prev_bytes p) then None else locator_decode (prev_bytes p)) = p.
Proof.
  destruct p as [l|]; [|done]. intros Hl. cbn [prev_bytes]. rewrite locator_roundtrip by done.
  destruct (forallb _ _) eqn:E; [|done]. exfalso. destruct Hl as (Hp & Hne & _ & Hg).
  assert (Hz : forall z, forallb (fun x => x =? 0) z = true -> le_dec z = 0).
  { induction z as [|x z IH]; [done|]. cbn. intros Hb. bools. rewrite IH by done. lia. }
  unfold locator_encode in E. rewrite !forallb_app in E. apply andb_prop in E as [E1 [_ E2]%andb_prop].
  apply Hz in E1, E2. rewrite le_dec_enc, Z.mod_small in E1 by apply Hp. rewrite le_dec_enc, Z.mod_small in E2 by apply Hg. lia.
Qed.

Lemma version_decode_raw a b p v :
  is_u64 a -> is_u64 b -> prev_ok p ->
  version_decode (le_enc 8 a ++ le_enc 8 b ++ prev_bytes p ++ v) = Some (mkVersion a b p, v).
Proof.
  intros Ha Hb Hp. unfold version_decode.
  assert (Hl : length (prev_bytes p) = 14%nat) by by destruct p.
  rewrite (proj2 (Z.ltb_ge _ _)).
  2:{ unfold VERSION_HEADER_BYTES, blen. rewrite !length_app, !length_le_enc, Hl. lia. }
  assert (E1 : sub (le_enc 8 a ++ le_enc 8 b ++ prev_bytes p ++ v) 16 14 = prev_bytes p).
  { rewrite app_assoc. apply (sub_mid (le_enc 8 a ++ le_enc 8 b)). unfold blen. by rewrite Hl. }
  rewrite E1, prev_bytes_decode by done. unfold u64_at.
  change (sub (le_enc 8 a ++ le_enc 8 b ++ prev_bytes p ++ v) 0 8) with (le_enc 8 a).
  change (sub (le_enc 8 a ++ le_enc 8 b ++ prev_bytes p ++ v) 8 8) with (le_enc 8 b).
  rewrite !le_dec_enc, !Z.mod_small by (apply Ha || apply Hb). do 2 f_equal.
  rewrite !app_assoc. apply drop_app_length'. rewrite !length_app, !length_le_enc. lia.
Qed.

(** A version header read back from a stored tuple is the one written, with the
    value behind it. *)
Lemma version_decode_encode (h : VersionHeader) (v : bytes) :
  is_u64 (xmin h) -> is_u64 (xmax h) -> prev_ok (prev h) -> version_decode (encode_into h [] ++ v) = Some (h, v).
Proof.
  intros. unfold encode_into. fold (prev_bytes (prev h)). rewrite app_nil_l, <- !app_assoc, version_decode_raw by done. by destruct h.
Qed.

(** Stamping the deleter in place changes only [xmax]. *)
Lemma patch_xmax_encode (h : VersionHeader) (v : bytes) (x : Z) :
  patch_xmax (encode_into h [] ++ v) x = encode_into (mkVersion (xmin h) x (prev h)) [] ++ v.
Proof.
  unfold encode_into, patch_xmax. cbn [xmin xmax prev]. rewrite !app_nil_l, <- !app_assoc, (proj2 (Z.leb_le _ _)).
  2:{ unfold blen. rewrite !length_app, !length_le_enc. lia. }
  by rewrite (patch_mid (le_enc 8 (xmin h)) (le_enc 8 (xmax h)) (le_enc 8 x)) by by rewrite !length_le_enc.
Qed.
