(* ===== verification/MvccSpec.v ===== *)
(** * MVCC: the transaction table over time

    The invariant of the transaction table, the steps it takes while the store
    is open (begin, commit, abort, freezing, eviction to the status spill), and
    what they preserve: once a transaction is settled its visibility never
    changes, so a snapshot sees the same versions for its whole life. *)

From stdpp Require Import base tactics list numbers gmap sorting relations.
From Stdlib Require Import ZArith Lia.
From S2P Require Import Prelude Search Bytes Errors Slotted Mvcc MvccOutcomes.
Local Open Scope Z_scope.
Local Open Scope bic_scope.

#[local] Arguments spill_answer : simpl never.
#[local] Arguments frozen_status : simpl never.
#[local] Arguments terminal_status : simpl never.

(** ** Invariant *)

Record tinv (t : TableInner) : Prop := {
  ti_frozen : 1 <= frozen_xid t <= next_xid t;
  ti_next : next_xid t < U64;
  ti_active : forall x, x ∈ in_progress t <-> status t !! x = Some InProgress;
  ti_range : forall x, x ∈ in_progress t -> frozen_xid t <= x;
  ti_status : forall x s, status t !! x = Some s -> x < next_xid t;
  ti_sorted : StronglySorted Z.lt (xids (remaining (recovered t)));
  ti_rec : forall x s, decides (remaining (recovered t)) x s -> x < next_xid t;
  ti_exc : forall x, x ∈ abort_exceptions t -> 1 <= x < frozen_xid t;
  ti_spill_val : forall x, exists o, spill_answer t x = Val o;
  ti_spill_none : forall x, x ∈ in_progress t \/ next_xid t <= x -> spill_answer t x = Val None;
  ti_spill_frozen : forall x s, x < frozen_xid t -> spill_answer t x = Val (Some s) ->
    frozen_status t x = Some s;
  ti_spill_live : forall x s, frozen_xid t <= x -> spill_answer t x = Val (Some s) ->
    terminal_status t x = Val (Some s)
}.

(** [x] was issued and is no longer running. *)
Definition settled (t : TableInner) (x : Z) : Prop := 0 < x < next_xid t /\ x ∉ in_progress t.

Definition committed (t : TableInner) (x : Z) : Prop := tx_status t x = Val Committed.

(** [status] in terms of the recorded outcome. *)
Lemma tx_status_eq t x :
  tinv t -> x <> 0 ->
  tx_status t x = Val
    match frozen_status t x with
    | Some s => s
    | None => match terminal_status t x with
              | Val (Some s) => s
              | _ => if x <? open_horizon t then Aborted else InProgress
              end
    end.
Proof.
  intros Hi Hx. unfold tx_status, status_between, terminal_status.
  rewrite (proj2 (Z.eqb_neq _ _)) by done.
  destruct (frozen_status t x); [done|]. destruct (resident_terminal_status t x); [done|].
  destruct (ti_spill_val t Hi x) as [o ->]. by destruct o, (x <? open_horizon t).
Qed.

(** The two ways a settled transaction is committed. *)
Lemma committed_iff t x :
  tinv t -> 0 < x ->
  committed t x <->
  (x < frozen_xid t /\ x ∉ abort_exceptions t) \/
  (frozen_xid t <= x /\ terminal_status t x = Val (Some Committed)).
Proof.
  intros Hi Hx. unfold committed. rewrite tx_status_eq by (done || lia). unfold frozen_status.
  destruct (Z.ltb_spec x (frozen_xid t)) as [Hf|Hf].
  - case_bool_decide; split; try done.
    + intros [[_ ?]|[? _]]; [done|lia].
    + intros _. by left.
  - split.
    + intros E. right. split; [done|].
      destruct (terminal_status t x) as [[[]|]|e|]; try done; by destruct (x <? open_horizon t).
    + intros [[? _]|[_ ->]]; [lia|done].
Qed.

(** ** Passing one transaction *)

(** The exception set after the watermark steps over [frozen_xid t]. *)
Inductive fpass (t : TableInner) : gset Z -> Prop :=
| F_commit : terminal_status t (frozen_xid t) = Val (Some Committed) -> fpass t (abort_exceptions t)
| F_except : terminal_status t (frozen_xid t) = Val (Some Aborted) \/
             terminal_status t (frozen_xid t) = Val None ->
             set_size (abort_exceptions t) < abort_exception_capacity t ->
             fpass t ({[frozen_xid t]} ∪ abort_exceptions t).

Definition pass (t : TableInner) (E : gset Z) : TableInner :=
  step_watermark (frozen_xid t) (set_exceptions E t).

Inductive fstep : TableInner -> TableInner -> Prop :=
| fstep_intro t E : frozen_xid t < next_xid t -> fpass t E -> fstep t (pass t E).

Lemma remaining_pop r o :
  front r = Some o -> remaining r = o :: remaining (pop_front r).
Proof.
  unfold front, pop_front, remaining. intros Hf. pose proof (lookup_lt_Some _ _ _ Hf) as Hl.
  rewrite (proj2 (Nat.ltb_lt _ _)) by done. rewrite (drop_S _ _ _ Hf). f_equal.
  destruct (Nat.eqb_spec (S (start r)) (length (entries r))) as [E|E]; cbn; [|done].
  by rewrite drop_ge by lia.
Qed.

Lemma remaining_front_none r : front r = None -> remaining r = [].
Proof. unfold front, remaining. intros H%lookup_ge_None. by apply drop_ge. Qed.

(** What [pass] leaves alone. *)
Lemma pass_fields t E :
  next_xid (pass t E) = next_xid t /\ in_progress (pass t E) = in_progress t /\
  abort_exceptions (pass t E) = E /\ spill (pass t E) = spill t /\
  open_horizon (pass t E) = open_horizon t /\
  abort_exception_capacity (pass t E) = abort_exception_capacity t /\
  frozen_xid (pass t E) = sat_add (frozen_xid t) 1.
Proof.
  unfold pass, step_watermark. cbn. by destruct (front (recovered t)) as [o|];
    [destruct (outcome_xid o =? frozen_xid t)|].
Qed.

Lemma pass_records t E :
  StronglySorted Z.lt (xids (remaining (recovered t))) ->
  StronglySorted Z.lt (xids (remaining (recovered (pass t E)))) /\
  (forall x s, decides (remaining (recovered (pass t E))) x s -> decides (remaining (recovered t)) x s) /\
  (forall x s, status (pass t E) !! x = Some s -> status t !! x = Some s) /\
  (forall x, x <> frozen_xid t -> status (pass t E) !! x = status t !! x) /\
  (forall x, x <> frozen_xid t -> resident_terminal_status (pass t E) x = resident_terminal_status t x).
Proof.
  intros Hs. unfold pass, step_watermark. cbn [recovered set_exceptions status].
  assert (Hdel : let t' := set_frozen (sat_add (frozen_xid t) 1)
                   (set_status (base.delete (frozen_xid t) (status t)) (set_exceptions E t)) in
    (forall x s, status t' !! x = Some s -> status t !! x = Some s) /\
    (forall x, x <> frozen_xid t -> status t' !! x = status t !! x) /\
    (forall x, x <> frozen_xid t -> resident_terminal_status t' x = resident_terminal_status t x)).
  { cbn. ands.
    - intros x s. rewrite lookup_delete_Some. tauto.
    - intros x Hx. by rewrite lookup_delete_ne by congruence.
    - intros x Hx. unfold resident_terminal_status. cbn. by rewrite lookup_delete_ne by congruence. }
  destruct (front (recovered t)) as [o|] eqn:Hf; [|split; [done|]; split; [done|]; exact Hdel].
  destruct (outcome_xid o =? frozen_xid t) eqn:Eo; [|split; [done|]; split; [done|]; exact Hdel].
  bools. cbn. pose proof (remaining_pop _ _ Hf) as Hr. rewrite Hr in Hs.
  assert (Hs' : StronglySorted Z.lt (xids (remaining (pop_front (recovered t)))))
    by (by apply StronglySorted_inv in Hs as [? _]).
  ands; auto.
  - intros x s. rewrite Hr. unfold decides. set_solver.
  - intros x Hx. unfold resident_terminal_status. cbn. destruct (status t !! x); [done|].
    apply option_eq. intros s. rewrite !outcomes_status_spec by (rewrite ?Hr; done).
    rewrite Hr. unfold decides. set_solver.
Qed.

Section Pass.
Context (t : TableInner) (E : gset Z).
Hypothesis Hi : tinv t.
Hypothesis Hlt : frozen_xid t < next_xid t.
Hypothesis Hp : fpass t E.

Lemma pass_frozen : frozen_xid (pass t E) = frozen_xid t + 1.
Proof.
  destruct (pass_fields t E) as (_&_&_&_&_&_&->). pose proof (ti_next t Hi). widths. lia.
Qed.

Lemma pass_E x : x ∈ E -> x = frozen_xid t \/ x ∈ abort_exceptions t.
Proof. destruct Hp; set_solver. Qed.

Lemma pass_E_old x : x <> frozen_xid t -> x ∈ E <-> x ∈ abort_exceptions t.
Proof. destruct Hp; set_solver. Qed.

Lemma pass_not_active : frozen_xid t ∉ in_progress t.
Proof.
  intros Ha. assert (Hr : terminal_status t (frozen_xid t) = Val (Some InProgress)).
  { unfold terminal_status, resident_terminal_status.
    by rewrite (proj1 (ti_active t Hi _) Ha). }
  destruct Hp as [?|[?|?]]; congruence.
Qed.

Lemma pass_terminal x : x <> frozen_xid t -> terminal_status (pass t E) x = terminal_status t x.
Proof.
  intros Hx. destruct (pass_records t E (ti_sorted t Hi)) as (_&_&_&_&Hr).
  destruct (pass_fields t E) as (_&_&_&Hs&_).
  unfold terminal_status, spill_answer. by rewrite Hr, Hs by done.
Qed.

(** The status the passed transaction keeps below the watermark. *)
Lemma pass_status s :
  terminal_status t (frozen_xid t) = Val (Some s) ->
  frozen_status (pass t E) (frozen_xid t) = Some s.
Proof.
  intros Hs. unfold frozen_status. rewrite pass_frozen, (proj2 (Z.ltb_lt _ _)) by lia.
  destruct (pass_fields t E) as (_&_&->&_). destruct Hp as [Hc|[Ha|Hn] _].
  - rewrite Hc in Hs. simplify_eq. rewrite bool_decide_eq_false_2; [done|].
    intros ?%(ti_exc t Hi). lia.
  - rewrite Ha in Hs. simplify_eq. by rewrite bool_decide_eq_true_2 by set_solver.
  - congruence.
Qed.

Lemma pass_frozen_status x : x < frozen_xid t -> frozen_status (pass t E) x = frozen_status t x.
Proof.
  intros Hx. unfold frozen_status. rewrite pass_frozen, !(proj2 (Z.ltb_lt _ _)) by lia.
  destruct (pass_fields t E) as (_&_&->&_). do 2 f_equal.
  by rewrite (bool_decide_ext _ _ (pass_E_old x ltac:(lia))).
Qed.

Lemma pass_inv : tinv (pass t E).
Proof.
  destruct (pass_fields t E) as (F1&F2&F3&F4&_), (pass_records t E (ti_sorted t Hi)) as (R1&R2&R3&R4&_).
  assert (Hsa : forall x, spill_answer (pass t E) x = spill_answer t x) by (intros; unfold spill_answer; by rewrite F4).
  pose proof pass_not_active as Hna. split; rewrite ?F1, ?F2, ?F3, ?pass_frozen; try done.
  - pose proof (ti_frozen t Hi). lia.
  - apply (ti_next t Hi).
  - intros x. rewrite (ti_active t Hi). destruct (decide (x = frozen_xid t)) as [->|Hx]; [|by rewrite R4].
    split; [intros ?%(ti_active t Hi); done|apply R3].
  - intros x Hx. pose proof (ti_range t Hi x Hx). assert (x <> frozen_xid t) by congruence. lia.
  - intros x s Hx%R3. by apply (ti_status t Hi x s).
  - intros x s Hx%R2. by apply (ti_rec t Hi x s).
  - pose proof (ti_frozen t Hi). intros x [->|Hx%(ti_exc t Hi)]%pass_E; lia.
  - intros x. rewrite Hsa. apply (ti_spill_val t Hi).
  - intros x. rewrite Hsa. apply (ti_spill_none t Hi).
  - intros x s Hx. rewrite Hsa. intros Hs. destruct (decide (x = frozen_xid t)) as [->|].
    + apply pass_status. apply (ti_spill_live t Hi); [lia|done].
    + rewrite pass_frozen_status by lia. apply (ti_spill_frozen t Hi); [lia|done].
  - intros x s Hx. rewrite Hsa. intros Hs. rewrite pass_terminal by lia.
    apply (ti_spill_live t Hi); [lia|done].
Qed.

Lemma pass_committed x : 0 < x -> committed (pass t E) x <-> committed t x.
Proof.
  intros Hx. rewrite !committed_iff by (done || apply pass_inv). rewrite pass_frozen.
  destruct (pass_fields t E) as (_&_&->&_).
  destruct (decide (x = frozen_xid t)) as [->|Hne].
  - destruct Hp as [Hc|Hn _].
    + split; [right; split; [lia|done]|]. intros _. left. split; [lia|].
      intros ?%(ti_exc t Hi). lia.
    + split.
      * intros [[_ He]|[? _]]; [set_solver|lia].
      * intros [[? _]|[_ Hc]]; [lia|]. destruct Hn; congruence.
  - rewrite (pass_E_old x Hne), pass_terminal by done.
    split; intros [[? ?]|[? ?]]; [left|right|left|right]; (split; [lia|done]).
Qed.
End Pass.

(** ** Freezing *)

Lemma fstep_inv t t' : tinv t -> fstep t t' -> tinv t'.
Proof. intros Hi Hs. destruct Hs as [t E Hlt Hp]. by apply (pass_inv t E). Qed.

Lemma fstep_keeps t t' :
  tinv t -> fstep t t' ->
  next_xid t' = next_xid t /\ in_progress t' = in_progress t /\
  (forall x, 0 < x -> committed t' x <-> committed t x).
Proof.
  intros Hi Hs. destruct Hs as [t E Hlt Hp]. destruct (pass_fields t E) as (?&?&_). ands; auto.
  intros x Hx. by apply (pass_committed t E).
Qed.

Lemma set_exceptions_id t : set_exceptions (abort_exceptions t) t = t.
Proof. by destruct t. Qed.

Lemma pass_commit t : step_watermark (frozen_xid t) t = pass t (abort_exceptions t).
Proof. unfold pass. by rewrite set_exceptions_id. Qed.

Lemma rtc_fstep_keeps t t' :
  tinv t -> rtc fstep t t' ->
  tinv t' /\ next_xid t' = next_xid t /\ in_progress t' = in_progress t /\
  (forall x, 0 < x -> committed t' x <-> committed t x).
Proof.
  intros Hi H. induction H as [t|t t1 t2 H1 _ IH]; [done|].
  pose proof (fstep_inv t t1 Hi H1) as Hi1. destruct (fstep_keeps t t1 Hi H1) as (E1&E2&E3).
  destruct (IH Hi1) as (?&E4&E5&E6). rewrite E4, E5. ands; auto.
  intros x Hx. rewrite E6, E3 by done. done.
Qed.

(** The transaction at the watermark needs an exception. *)
Definition needs_exception (t : TableInner) : Prop :=
  terminal_status t (frozen_xid t) = Val (Some Aborted) \/
  terminal_status t (frozen_xid t) = Val None.

(** Why the loop stopped: [n] transactions passed, [full] as reported. *)
Definition stop_reason (t : TableInner) (oldest max_xids n : Z) (full : bool) : Prop :=
  (full = false /\ (max_xids <= n \/ oldest <= frozen_xid t)) \/
  (n < max_xids /\ frozen_xid t < oldest /\
   ((full = false /\ terminal_status t (frozen_xid t) = Val (Some InProgress)) \/
    (full = true /\ needs_exception t /\
     abort_exception_capacity t <= set_size (abort_exceptions t)))).

Lemma terminal_val t x : tinv t -> exists o, terminal_status t x = Val o.
Proof.
  intros Hi. unfold terminal_status. destruct (resident_terminal_status t x); [by eexists|].
  apply (ti_spill_val t Hi).
Qed.

Lemma fresh_exception_size t :
  tinv t -> set_size ({[frozen_xid t]} ∪ abort_exceptions t) = set_size (abort_exceptions t) + 1.
Proof.
  intros Hi. unfold set_size. rewrite size_union.
  - rewrite size_singleton. lia.
  - apply disjoint_singleton_l. intros ?%(ti_exc t Hi). lia.
Qed.

(** What a run of the loop from [t] with counters [n] and [e] achieves. *)
Definition loop_ok (oldest max_xids : Z) (t : TableInner) (n e : Z)
    (out : pres (Z * Z * bool) * TableInner) : Prop :=
  exists n' e' full t', out = (Val (n', e', full), t') /\ rtc fstep t t' /\
    frozen_xid t' - frozen_xid t = n' - n /\ n <= n' <= Z.max n max_xids /\
    set_size (abort_exceptions t') - set_size (abort_exceptions t) = e' - e /\
    abort_exception_capacity t' = abort_exception_capacity t /\
    (set_size (abort_exceptions t') <= abort_exception_capacity t' \/ e' = e) /\
    stop_reason t' oldest max_xids n' full.

Section FreezeLoop.
Context (oldest max_xids : Z).

Lemma loop_stop t n e full :
  stop_reason t oldest max_xids n full -> loop_ok oldest max_xids t n e (Val (n, e, full), t).
Proof. intros Hs. exists n, e, full, t. ands; try done; lia. Qed.

Lemma loop_pass t n e E d out :
  tinv t -> frozen_xid t < next_xid t -> n < max_xids -> fpass t E ->
  set_size E = set_size (abort_exceptions t) + d -> 0 <= d ->
  (d = 0 \/ set_size E <= abort_exception_capacity t) ->
  loop_ok oldest max_xids (pass t E) (n + 1) (e + d) out -> loop_ok oldest max_xids t n e out.
Proof.
  intros Hi Hlt Hn Hp HE Hd Hcap (n'&e'&full&t'&->&H2&H3&H4&H5&H6&H7&H8).
  rewrite (pass_frozen t E Hi Hlt) in H3. destruct (pass_fields t E) as (_&_&F3&_&_&F6&_).
  rewrite F3 in H5. rewrite F6 in H6. exists n', e', full, t'. ands; auto; try lia.
  eapply rtc_l; [by apply fstep_intro|done].
Qed.

Lemma freeze_loop_spec fuel : forall t n e,
  tinv t -> oldest <= next_xid t -> max_xids <= u64_max -> 0 <= e <= n ->
  oldest - frozen_xid t < Z.of_nat fuel ->
  loop_ok oldest max_xids t n e (freeze_loop fuel oldest max_xids n e t).
Proof.
  induction fuel as [|fuel IH]; intros t n e Hi Ho Hm He Hf.
  { pose proof (ti_frozen t Hi). apply loop_stop. left. split; [done|lia]. }
  cbn [freeze_loop]. run. unfold id.
  destruct ((n <? max_xids) && (frozen_xid t <? oldest)) eqn:G.
  2:{ run. apply loop_stop. left. split; [done|]. apply andb_false_iff in G as [?|?]; bools; lia. }
  bools. destruct (terminal_val t (frozen_xid t) Hi) as [o Hs]. cbv zeta. run. rewrite Hs. run.
  assert (Hlt : frozen_xid t < next_xid t) by lia.
  assert (Hn : sat_add n 1 = n + 1) by (widths; lia).
  assert (Hnext : forall E d, fpass t E -> 0 <= e + d <= n + 1 ->
    loop_ok oldest max_xids (pass t E) (n + 1) (e + d) (freeze_loop fuel oldest max_xids (n + 1) (e + d) (pass t E))).
  { intros E d Hp Hd. destruct (pass_fields t E) as (F1&_). pose proof (pass_frozen t E Hi Hlt).
    apply IH; [by apply pass_inv|lia|done|lia|lia]. }
  assert (Hexc : needs_exception t -> loop_ok oldest max_xids t n e
    ((if abort_exception_capacity t <=? set_size (abort_exceptions t)
      then st_ret (n, e, true)
      else (modify (fun t0 => set_exceptions ({[frozen_xid t]} ∪ abort_exceptions t0) t0) ;;;
            modify (step_watermark (frozen_xid t)) ;;;
            freeze_loop fuel oldest max_xids (sat_add n 1) (sat_add e 1))) t)).
  { intros Hne. destruct (Z.leb_spec (abort_exception_capacity t) (set_size (abort_exceptions t))).
    - apply loop_stop. right. ands; try lia. right. done.
    - run. fold (pass t ({[frozen_xid t]} ∪ abort_exceptions t)).
      rewrite Hn. assert (sat_add e 1 = e + 1) as -> by (widths; lia).
      pose proof (fresh_exception_size t Hi).
      apply (loop_pass _ _ _ ({[frozen_xid t]} ∪ abort_exceptions t) 1); auto; try lia.
      + by constructor.
      + apply Hnext; [by constructor|lia]. }
  destruct o as [[| |]|].
  - run. apply loop_stop. right. ands; try lia. by left.
  - run. rewrite pass_commit, Hn. apply (loop_pass _ _ _ (abort_exceptions t) 0); auto; try lia.
    + by constructor.
    + pose proof (Hnext (abort_exceptions t) 0 ltac:(by constructor) ltac:(lia)) as H'.
      by rewrite Z.add_0_r in H' |- *.
  - apply Hexc. by left.
  - apply Hexc. by right.
Qed.
End FreezeLoop.

(** [freeze_below_bounded] as a whole. *)
Lemma freeze_run t oldest max_xids :
  tinv t -> oldest <= next_xid t -> 0 <= max_xids <= u64_max ->
  exists rep t', freeze_below_bounded oldest max_xids t = (Val rep, t') /\ rtc fstep t t' /\
    frozen_xid t' = frozen_xid t + frozen rep /\ 0 <= frozen rep <= max_xids /\
    set_size (abort_exceptions t') = set_size (abort_exceptions t) + exceptions_recorded rep /\
    abort_exception_capacity t' = abort_exception_capacity t /\
    (set_size (abort_exceptions t') <= abort_exception_capacity t \/ exceptions_recorded rep = 0) /\
    stop_reason t' oldest max_xids (frozen rep) (exception_capacity_full rep) /\
    let still := (frozen_xid t' <? oldest) &&
      match terminal_status t' (frozen_xid t') with
      | Val (Some Committed) => true
      | Val (Some InProgress) => false
      | _ => set_size (abort_exceptions t') <? abort_exception_capacity t'
      end in
    limit_reached rep = (frozen rep =? max_xids) && still /\
    blocked rep = (frozen_xid t' <? oldest) && negb still && negb (exception_capacity_full rep).
Proof.
  intros Hi Ho Hm.
  destruct (freeze_loop_spec oldest max_xids (S (Z.to_nat (oldest - frozen_xid t))) t 0 0)
    as (n&e&full&t'&Hrun&Hr&H1&H2&H3&H4&H5&H6); auto; try lia.
  destruct (rtc_fstep_keeps t t' Hi Hr) as (Hi'&_).
  destruct (terminal_val t' (frozen_xid t') Hi') as [o Hs].
  set (still := (frozen_xid t' <? oldest) &&
    match o with
    | Some Committed => true | Some InProgress => false
    | _ => set_size (abort_exceptions t') <? abort_exception_capacity t'
    end).
  exists (mkReport n e ((n =? max_xids) && still) ((frozen_xid t' <? oldest) && negb still && negb full) full), t'.
  cbn [frozen exceptions_recorded limit_reached blocked exception_capacity_full].
  rewrite Hs. ands; auto; try lia.
  unfold freeze_below_bounded. run. unfold id. rewrite Hrun. run. unfold id, still.
  destruct (frozen_xid t' <? oldest); [|done]. run. rewrite Hs. run. by destruct o as [[]|].
Qed.

(** ** The steps of an open table *)

(** A spill [f] into which a checkpoint has persisted the outcomes of [t]:
    what [OutcomeSpill] promises once [persist] has returned.  Below the
    watermark entries may have been dropped. *)
Record persisted (t : TableInner) (f : Z -> pres (option TxStatus)) : Prop := {
  pe_live : forall x, frozen_xid t <= x -> x ∉ in_progress t -> f x = terminal_status t x;
  pe_none : forall x, x ∈ in_progress t \/ next_xid t <= x -> f x = Val None;
  pe_frozen : forall x, x < frozen_xid t ->
    f x = Val None \/ exists s, f x = Val (Some s) /\ frozen_status t x = Some s
}.

Inductive tstep : TableInner -> TableInner -> Prop :=
| T_begin t : next_xid t + 1 < U64 -> tstep t (snd (begin_tx t))
| T_commit t x : x ∈ in_progress t -> tstep t (commit x t)
| T_abort t x : x ∈ in_progress t -> tstep t (abort x t)
| T_freeze t oldest max_xids rep t' :
    oldest <= next_xid t -> 0 <= max_xids <= u64_max ->
    freeze_below_bounded oldest max_xids t = (Val rep, t') -> tstep t t'
| T_evict t f : persisted t f -> tstep t (evict_terminal_outcomes (set_spill f t)).

(** Steps that touch only the record of the active transaction [x0]. *)
Lemma finish_spec t t' x0 s :
  tinv t -> x0 ∈ in_progress t -> s <> InProgress ->
  t' = set_in_progress (in_progress t ∖ {[x0]}) (set_status (<[x0 := s]> (status t)) t) ->
  tinv t' /\ forall x, settled t x -> settled t' x /\ (committed t' x <-> committed t x).
Proof.
  intros Hi Hx0 Hs ->. set (t' := set_in_progress _ _).
  assert (Hterm : forall x, x <> x0 -> terminal_status t' x = terminal_status t x).
  { intros x Hx. unfold terminal_status, resident_terminal_status. cbn.
    by rewrite lookup_insert_ne by congruence. }
  assert (Hf : forall x, frozen_status t' x = frozen_status t x) by done.
  assert (Hi' : tinv t').
  { pose proof Hi as [? ? Hact Hrng Hst ? ? ? ? Hsn ? Hsl]. split; cbn; auto.
    - intros x. rewrite elem_of_difference, elem_of_singleton, lookup_insert_Some, Hact. naive_solver.
    - intros x [Hx _]%elem_of_difference. by apply Hrng.
    - intros x s' [[<- _]|[_ Hx]]%lookup_insert_Some; [|by apply Hst in Hx].
      apply Hact in Hx0. by apply Hst in Hx0.
    - intros x [[Hx _]%elem_of_difference|Hx]; apply Hsn; auto.
    - intros x s' Hx Hsp. change (spill_answer t' x) with (spill_answer t x) in Hsp.
      destruct (decide (x = x0)) as [->|]; [|rewrite Hterm by done; by apply Hsl].
      rewrite Hsn in Hsp by auto. done. }
  split; [done|]. intros x [Hx Hna]. assert (x <> x0) by congruence. split.
  - split; [done|]. cbn. set_solver.
  - rewrite !committed_iff by (done || lia). rewrite Hterm by done. done.
Qed.

Lemma begin_spec t (t' := snd (begin_tx t)) :
  tinv t -> next_xid t + 1 < U64 ->
  tinv t' /\ forall x, settled t x -> settled t' x /\ (committed t' x <-> committed t x).
Proof.
  intros Hi Hov. pose proof Hi as [Hfr ? Hact Hrng Hst ? Hrec ? ? Hsn ? Hsl].
  assert (Hnext : next_xid t' = next_xid t + 1) by (cbn; apply Z.mod_small; lia).
  assert (Hterm : forall x, x <> next_xid t -> terminal_status t' x = terminal_status t x).
  { intros x Hx. unfold terminal_status, resident_terminal_status. cbn.
    by rewrite lookup_insert_ne by congruence. }
  assert (Hfresh : next_xid t ∉ in_progress t).
  { intros Ha. apply Hact, Hst in Ha. lia. }
  assert (Hi' : tinv t').
  { split; rewrite ?Hnext; cbn; auto; try lia.
    - intros x. rewrite elem_of_union, elem_of_singleton, lookup_insert_Some, Hact. naive_solver.
    - intros x [->%elem_of_singleton|Hx%Hrng]%elem_of_union; lia.
    - intros x s [[<- _]|[_ Hx%Hst]]%lookup_insert_Some; lia.
    - intros x s Hx%Hrec. lia.
    - intros x [[->%elem_of_singleton|Hx]%elem_of_union|Hx]; apply Hsn; auto; right; lia.
    - intros x s Hx Hsp. change (spill_answer t x = Val (Some s)) in Hsp.
      destruct (decide (x = next_xid t)) as [->|]; [|rewrite Hterm by done; by apply Hsl].
      rewrite Hsn in Hsp by (right; lia). done. }
  split; [done|]. intros x [Hx Hna]. split.
  - split; [lia|]. cbn. apply not_elem_of_union. split; [|done]. apply not_elem_of_singleton. lia.
  - rewrite !committed_iff, Hterm by (done || lia). done.
Qed.

Lemma evict_spec t f (t' := evict_terminal_outcomes (set_spill f t)) :
  tinv t -> persisted t f ->
  tinv t' /\ forall x, settled t x -> settled t' x /\ (committed t' x <-> committed t x).
Proof.
  intros Hi [Hlive Hnone Hfrz]. pose proof Hi as [Hfr ? Hact Hrng Hst ? ? ? ? ? ? ?].
  assert (Hstat : forall x s, status t' !! x = Some s <-> status t !! x = Some s /\ s = InProgress).
  { intros x s. cbn. by rewrite map_lookup_filter_Some. }
  assert (Hterm : forall x, x ∉ in_progress t -> terminal_status t' x = f x).
  { intros x Hx. unfold terminal_status, resident_terminal_status.
    destruct (status t' !! x) as [s|] eqn:E; [|done].
    apply Hstat in E as [E ->]. by apply Hact in E. }
  assert (Hi' : tinv t').
  { split; auto; cbn.
    - intros x. rewrite Hact. rewrite map_lookup_filter_Some. cbn. naive_solver.
    - intros x s [Hx _]%map_lookup_filter_Some. by apply Hst in Hx.
    - constructor.
    - intros x s (o&Ho&_). by apply not_elem_of_nil in Ho.
    - intros x. destruct (Z.lt_ge_cases x (frozen_xid t)) as [Hlt|Hge].
      + destruct (Hfrz x Hlt) as [E|(s&E&_)]; eexists; exact E.
      + destruct (decide (x ∈ in_progress t)) as [Hx|Hx]; [exists None; by apply Hnone; left|].
        change (exists o, f x = Val o). rewrite Hlive by done. by apply terminal_val.
    - intros x s Hx Hf. change (f x = Val (Some s)) in Hf.
      destruct (Hfrz x Hx) as [E|(s'&E&Hs')]; [congruence|].
      rewrite E in Hf. by simplify_eq.
    - intros x s Hx Hf. change (f x = Val (Some s)) in Hf.
      rewrite Hterm; [done|]. intros Ha. rewrite Hnone in Hf by auto. done. }
  split; [done|]. intros x [Hx Hna]. split; [by split|].
  rewrite !committed_iff, Hterm by (done || lia). change (frozen_xid t') with (frozen_xid t).
  change (abort_exceptions t') with (abort_exceptions t).
  destruct (Z.lt_ge_cases x (frozen_xid t)); [naive_solver lia|]. by rewrite Hlive.
Qed.

(** Every step keeps the invariant and the fate of settled transactions. *)
Lemma tstep_spec t t' :
  tinv t -> tstep t t' ->
  tinv t' /\ forall x, settled t x -> settled t' x /\ (committed t' x <-> committed t x).
Proof.
  intros Hi Hs. destruct Hs as [t Hov|t x Hx|t x Hx|t oldest max_xids rep t' Ho Hm Hf|t f Hp].
  - by apply begin_spec.
  - by apply (finish_spec t _ x Committed).
  - apply (finish_spec t _ x Aborted); auto. unfold abort.
    rewrite bool_decide_eq_false_2; [done|]. apply (ti_active t Hi) in Hx. congruence.
  - destruct (freeze_run t oldest max_xids Hi Ho Hm) as (rep'&t1&Hf'&Hr&_).
    rewrite Hf in Hf'. simplify_eq. destruct (rtc_fstep_keeps t t1 Hi Hr) as (?&E1&E2&E3).
    split; [done|]. intros x [Hx Hna]. unfold settled. rewrite E1, E2, E3 by lia. done.
  - by apply evict_spec.
Qed.

Lemma tsteps_spec t t' :
  tinv t -> rtc tstep t t' ->
  tinv t' /\ forall x, settled t x -> settled t' x /\ (committed t' x <-> committed t x).
Proof.
  intros Hi Hr. induction Hr as [t|t t1 t2 Hs _ IH]; [done|].
  destruct (tstep_spec t t1 Hi Hs) as [Hi1 H1]. destruct (IH Hi1) as [Hi2 H2].
  split; [done|]. intros x Hx. destruct (H1 x Hx) as [Hx1 E1]. destruct (H2 x Hx1) as [? E2].
  split; [done|]. by rewrite E2.
Qed.

(** The watermark never moves back. *)
Lemma rtc_fstep_frozen t t' : tinv t -> rtc fstep t t' -> frozen_xid t <= frozen_xid t'.
Proof.
  intros Hi Hr. induction Hr as [|t t1 t2 Hs _ IH]; [lia|].
  specialize (IH (fstep_inv t t1 Hi Hs)). destruct Hs as [t E Hlt Hp].
  pose proof (pass_frozen t E Hi Hlt). lia.
Qed.

Lemma tstep_frozen t t' : tinv t -> tstep t t' -> frozen_xid t <= frozen_xid t'.
Proof.
  intros Hi Hs. destruct Hs as [| |t x Hx|t oldest max_xids rep t' Ho Hm Hf|]; try done.
  - unfold abort. by case_bool_decide.
  - destruct (freeze_run t oldest max_xids Hi Ho Hm) as (rep'&t1&Hf'&Hr&_).
    rewrite Hf in Hf'. simplify_eq. by apply rtc_fstep_frozen.
Qed.

Lemma tsteps_frozen t t' : tinv t -> rtc tstep t t' -> frozen_xid t <= frozen_xid t'.
Proof.
  intros Hi Hr. induction Hr as [|t t1 t2 Hs _ IH]; [lia|].
  destruct (tstep_spec t t1 Hi Hs) as [Hi1 _]. pose proof (tstep_frozen t t1 Hi Hs).
  specialize (IH Hi1). lia.
Qed.

(** No step brings back a resident record of a settled transaction. *)
Lemma rtc_fstep_resident t t' x :
  tinv t -> rtc fstep t t' -> resident_terminal_status t x = None ->
  frozen_xid t' <= x -> resident_terminal_status t' x = None.
Proof.
  intros Hi Hr. induction Hr as [|t t1 t2 Hs Hr IH]; intros Hn Hx; [done|].
  pose proof (fstep_inv t t1 Hi Hs) as Hi1. apply IH; auto.
  pose proof (rtc_fstep_frozen t1 t2 Hi1 Hr). destruct Hs as [t E Hlt Hp].
  pose proof (pass_frozen t E Hi Hlt).
  destruct (pass_records t E (ti_sorted t Hi)) as (_&_&_&_&Hres). by rewrite Hres by lia.
Qed.

Lemma tstep_resident t t' x :
  tinv t -> tstep t t' -> settled t x -> resident_terminal_status t x = None ->
  frozen_xid t' <= x -> resident_terminal_status t' x = None.
Proof.
  intros Hi Hs [Hx Hna] Hn.
  destruct Hs as [t Hov|t x0 Hx0|t x0 Hx0|t oldest max_xids rep t' Ho Hm Hf|t f Hp].
  - intros _. unfold resident_terminal_status in *. cbn. by rewrite lookup_insert_ne by lia.
  - intros _. unfold resident_terminal_status in *. cbn. by rewrite lookup_insert_ne by congruence.
  - unfold abort. case_bool_decide; intros _; [done|].
    unfold resident_terminal_status in *. cbn. by rewrite lookup_insert_ne by congruence.
  - destruct (freeze_run t oldest max_xids Hi Ho Hm) as (rep'&t1&Hf'&Hr&_).
    rewrite Hf in Hf'. simplify_eq. by apply (rtc_fstep_resident t t1).
  - intros _. unfold resident_terminal_status. cbn.
    destruct (filter _ (status t) !! x) as [s|] eqn:E; [|done].
    apply map_lookup_filter_Some in E as [E Es]. cbn in Es. subst s.
    by apply (ti_active t Hi) in E.
Qed.

Lemma tsteps_resident t t' x :
  tinv t -> rtc tstep t t' -> settled t x -> resident_terminal_status t x = None ->
  frozen_xid t' <= x -> resident_terminal_status t' x = None.
Proof.
  intros Hi Hr. induction Hr as [t|t t1 t2 Hs Hr IH]; intros Hx Hn Hf; [done|].
  destruct (tstep_spec t t1 Hi Hs) as [Hi1 H1]. destruct (H1 x Hx) as [Hx1 _].
  apply IH; auto. apply (tstep_resident t t1); auto.
  pose proof (tsteps_frozen t1 t2 Hi1 Hr). lia.
Qed.
