(* ===== verification/MvccTheorems.v ===== *)
(** * MVCC: snapshot isolation, freezing and repair

    The guarantees of the transaction table that the rest of the store builds
    on, and the cases in which the repair primitive [jump_frozen_to] and the
    freeze report fall short of their documentation. *)

From stdpp Require Import base tactics list numbers gmap sorting relations.
From Stdlib Require Import ZArith Lia.
From S2P Require Import Prelude Search Bytes Errors Slotted Mvcc MvccOutcomes MvccSpec.
Local Open Scope Z_scope.
Local Open Scope bic_scope.

(** ** A new table *)

Lemma new_inv capacity : tinv (with_exception_capacity capacity).
Proof.
  split; cbn; try (widths; lia); try set_solver; try done. all: by constructor.
Qed.

(** The snapshots the table hands out at [t]. *)
Definition taken (t : TableInner) (s : Snapshot) : Prop :=
  s = latest_snapshot t \/ s = snd (fst (begin_tx t)).

Lemma taken_fields t s : taken t s -> snap_xmax s = next_xid t /\ in_flight s = in_progress t.
Proof. by intros [-> | ->]. Qed.

Lemma began_before_settled t s x :
  taken t s -> 0 < x -> began_before s x = true -> settled t x.
Proof.
  intros (E1&E2)%taken_fields Hx. unfold began_before. rewrite E1, E2. intros H. bools.
  split; [lia|done].
Qed.

Lemma tx_status_val t x : tinv t -> exists r, tx_status t x = Val r.
Proof.
  intros Hi. destruct (decide (x = 0)) as [->|Hx]; [by exists Committed|].
  eexists. by apply tx_status_eq.
Qed.

(** ** Claims *)

(** C12: Snapshot isolation.  A snapshot the table hands out sees one fixed set
    of transactions for its whole life: whatever begins, commits, aborts, is
    frozen or is evicted to the status spill afterwards, the answer to "is this
    transaction visible" and "is this version visible" does not change. *)
Theorem snapshot_sees_a_fixed_set (t t' : TableInner) (s : Snapshot)
    (Hi : tinv t) (Ht : taken t s) (Hr : rtc tstep t t') :
  (forall x, 0 <= x -> xid_visible t' x s = xid_visible t x s) /\
  (forall h, 0 <= xmin h -> 0 <= xmax h -> is_visible t' h s = is_visible t h s).
Proof.
  destruct (tsteps_spec t t' Hi Hr) as [Hi' Hst].
  assert (Hv : forall x, 0 <= x -> xid_visible t' x s = xid_visible t x s).
  { intros x Hx. unfold xid_visible.
    destruct (x =? 0) eqn:E0; [done|]. destruct (x =? snap_xid s); [done|]. bools.
    destruct (began_before s x) eqn:Hb; [|done]. cbn [negb].
    destruct (Hst x) as [_ Hc]; [apply (began_before_settled t s); auto; lia|].
    destruct (tx_status_val t x Hi) as [r E], (tx_status_val t' x Hi') as [r' E'].
    unfold committed in Hc. rewrite E, E' in *. cbn. f_equal. apply bool_decide_ext. naive_solver. }
  split; [done|]. intros h H1 H2. unfold is_visible. by rewrite !Hv.
Qed.

(** Begin 1, begin 2, commit 1, take a snapshot: 1 stays visible and 2 stays
    invisible although it commits and everything is frozen afterwards. *)
Lemma snapshot_sees_a_fixed_set_witness :
  let t0 := with_exception_capacity 4 in
  let t := commit 1 (snd (begin_tx (snd (begin_tx t0)))) in
  let t' := snd (freeze_below_bounded 3 10 (commit 2 t)) in
  xid_visible t' 1 (latest_snapshot t) = Val true /\ xid_visible t' 2 (latest_snapshot t) = Val false.
Proof.
  intros t0 t t'.
  assert (H0 : tinv t0) by apply new_inv.
  assert (H2 : tinv (snd (begin_tx (snd (begin_tx t0))))).
  { apply begin_spec; [apply begin_spec; [done|vm_compute; done]|vm_compute; done]. }
  assert (Hi : tinv t).
  { apply (tstep_spec (snd (begin_tx (snd (begin_tx t0))))); [done|]. apply T_commit. set_solver. }
  assert (Hr : rtc tstep t t').
  { eapply rtc_l; [apply (T_commit t 2); set_solver|]. apply rtc_once.
    apply (T_freeze (commit 2 t) 3 10 (mkReport 2 0 false false false)); [vm_compute; done|widths; lia|].
    rewrite (surjective_pairing (freeze_below_bounded 3 10 (commit 2 t))). by f_equal. }
  destruct (snapshot_sees_a_fixed_set t t' (latest_snapshot t) Hi (or_introl eq_refl) Hr) as [Hv _].
  rewrite !Hv by lia. by vm_compute.
Defined.

(** C29: [status] takes the lock twice with a spill read in between, while
    writers run.  If the transaction was settled when the call began, the
    answer is [Committed] exactly if it was committed then: a freeze or
    eviction that moves its record in the middle never makes a committed row
    read as invisible, nor an aborted one as visible. *)
Theorem status_read_is_stable_under_writers (t1 tm t2 : TableInner) (x : Z)
    (Hi : tinv t1) (H1 : rtc tstep t1 tm) (H2 : rtc tstep tm t2) (Hx : settled t1 x) :
  status_between t1 (spill_answer tm x) t2 x = Val Committed <-> tx_status t1 x = Val Committed.
Proof.
  destruct (tsteps_spec t1 tm Hi H1) as [Him Hm]. destruct (Hm x Hx) as [Hxm Em].
  destruct (tsteps_spec tm t2 Him H2) as [Hi2 H2']. destruct (H2' x Hxm) as [Hx2 E2].
  assert (Hx0 : 0 < x) by apply Hx. fold (committed t1 x).
  assert (E1 : committed t1 x <-> committed t2 x) by (rewrite E2, Em; done).
  unfold status_between. rewrite (proj2 (Z.eqb_neq _ _)) by lia.
  destruct (frozen_status t1 x) as [s|] eqn:Hf1.
  { unfold committed. rewrite tx_status_eq, Hf1 by (done || lia). done. }
  destruct (resident_terminal_status t1 x) as [s|] eqn:Hr1.
  { unfold committed. rewrite tx_status_eq, Hf1 by (done || lia).
    unfold terminal_status. rewrite Hr1. done. }
  destruct (ti_spill_val tm Him x) as [[s|] Ha]; rewrite Ha.
  - rewrite <- Em. unfold committed. rewrite tx_status_eq by (done || lia).
    destruct (Z.lt_ge_cases x (frozen_xid tm)) as [Hlt|Hge].
    + by rewrite (ti_spill_frozen tm Him x s).
    + rewrite (ti_spill_live tm Him x s) by done. unfold frozen_status.
      by rewrite (proj2 (Z.ltb_ge _ _)) by done.
  - rewrite E1. unfold committed. rewrite tx_status_eq by (done || lia).
    destruct (frozen_status t2 x) as [s|] eqn:Hf2; [done|].
    assert (Hge : frozen_xid t2 <= x).
    { unfold frozen_status in Hf2. by destruct (Z.ltb_spec x (frozen_xid t2)). }
    assert (Hrm : resident_terminal_status tm x = None).
    { apply (tsteps_resident t1 tm); auto. pose proof (tsteps_frozen tm t2 Him H2). lia. }
    assert (Hr2 : resident_terminal_status t2 x = None) by by apply (tsteps_resident tm t2).
    assert (Hnc : ~ committed t2 x).
    { rewrite E2, committed_iff by done. unfold terminal_status. rewrite Hrm, Ha.
      pose proof (tsteps_frozen tm t2 Him H2). intros [[? _]|[_ ?]]; [lia|done]. }
    unfold committed in Hnc. rewrite tx_status_eq, Hf2 in Hnc by (done || lia). rewrite Hr2.
    destruct (x <? open_horizon t2); naive_solver.
Qed.

Definition spill_1_committed (x : Z) : pres (option TxStatus) :=
  if x =? 1 then Val (Some Committed) else Val None.
Definition spill_empty (_ : Z) : pres (option TxStatus) := Val None.

(** Transaction 1 commits and is spilled; then the reader's first lock, a
    freeze, a persist that drops the frozen entry, the reader's spill miss and
    its second lock. *)
Lemma status_read_is_stable_under_writers_witness :
  let t := commit 1 (snd (begin_tx (with_exception_capacity 4))) in
  let t1 := evict_terminal_outcomes (set_spill spill_1_committed t) in
  let t2 := snd (freeze_below_bounded 2 10 t1) in
  let t3 := evict_terminal_outcomes (set_spill spill_empty t2) in
  spill_answer t3 1 = Val None /\ status_between t1 (spill_answer t3 1) t3 1 = Val Committed.
Proof.
  intros t t1 t2 t3.
  assert (Ht : tinv t).
  { apply (tstep_spec (snd (begin_tx (with_exception_capacity 4)))).
    - apply begin_spec; [apply new_inv|by vm_compute].
    - apply T_commit. set_solver. }
  assert (Hs1 : tstep t t1).
  { apply T_evict. split.
    - intros x Hx _. unfold spill_1_committed. destruct (Z.eqb_spec x 1) as [->|Hne]; [by vm_compute|].
      unfold terminal_status, resident_terminal_status. cbn. by rewrite !lookup_insert_ne by lia.
    - intros x [Hx|Hx]; [set_solver|]. unfold spill_1_committed.
      rewrite (proj2 (Z.eqb_neq _ _)); [done|]. intros ->. by vm_compute in Hx.
    - intros x Hx. left. unfold spill_1_committed.
      rewrite (proj2 (Z.eqb_neq _ _)); [done|]. intros ->. by vm_compute in Hx. }
  assert (Hi1 : tinv t1) by by apply (tstep_spec t).
  assert (Hs2 : tstep t1 t2).
  { apply (T_freeze t1 2 10 (mkReport 1 0 false false false)); [by vm_compute|widths; lia|].
    rewrite (surjective_pairing (freeze_below_bounded 2 10 t1)). by f_equal. }
  assert (Hs3 : tstep t2 t3).
  { apply T_evict. split.
    - intros x Hx _. unfold spill_empty, terminal_status, resident_terminal_status, spill_answer.
      assert (H2 : frozen_xid t2 = 2) by by vm_compute.
      assert (E1 : status t2 = ∅) by by vm_compute.
      assert (E2 : recovered t2 = outcomes_default) by by vm_compute.
      assert (E3 : spill t2 = Some spill_1_committed) by by vm_compute.
      rewrite E1, E2, E3, lookup_empty. unfold spill_1_committed. cbn.
      by rewrite (proj2 (Z.eqb_neq x 1)) by lia.
    - done.
    - by left. }
  split; [done|].
  apply (status_read_is_stable_under_writers t1 t3 t3 1); [done| |apply rtc_refl| |by vm_compute].
  - eapply rtc_l; [exact Hs2|]. by apply rtc_once.
  - split; [by vm_compute|]. apply (bool_decide_unpack _). by vm_compute.
Defined.

(** Freezing up to [oldest_active], bounded by [max_xids], always returns on
    a readable spill.  It keeps the invariant, changes neither who is running
    nor the fate of any transaction, moves the watermark by exactly the number
    it reports, adds one exception per recorded one and never beyond the
    durable capacity; and if it stops short of [oldest_active] the report says
    why: the bound ([limit_reached], another call would advance), a running
    transaction ([blocked]) or the capacity. *)
Theorem freeze_keeps_every_outcome (t : TableInner) (oldest_active max_xids : Z)
    (Hi : tinv t) (Ho : oldest_active <= next_xid t) (Hm : 0 <= max_xids <= u64_max) :
  exists rep t', freeze_below_bounded oldest_active max_xids t = (Val rep, t') /\ tinv t' /\
    in_progress t' = in_progress t /\ next_xid t' = next_xid t /\
    (forall x, 0 < x -> tx_status t' x = Val Committed <-> tx_status t x = Val Committed) /\
    frozen_xid t' = frozen_xid t + frozen rep /\ 0 <= frozen rep <= max_xids /\
    set_size (abort_exceptions t') = set_size (abort_exceptions t) + exceptions_recorded rep /\
    (set_size (abort_exceptions t') <= abort_exception_capacity t \/ exceptions_recorded rep = 0) /\
    (frozen_xid t' < oldest_active ->
     match terminal_status t' (frozen_xid t') with
     | Val (Some Committed) => limit_reached rep = true
     | Val (Some InProgress) => blocked rep = true
     | _ =>
         if set_size (abort_exceptions t') <? abort_exception_capacity t
         then limit_reached rep = true
         else exception_capacity_full rep = true \/ (frozen rep = max_xids /\ blocked rep = true)
     end).
Proof.
  destruct (freeze_run t oldest_active max_xids Hi Ho Hm)
    as (rep&t'&Hf&Hr&H1&H2&H3&H4&H5&Hstop&Hlim&Hblk).
  destruct (rtc_fstep_keeps t t' Hi Hr) as (Hi'&E1&E2&E3).
  exists rep, t'. ands; [done|done|done|done|exact E3|done|lia|lia|done|done|].
  intros Hlt. rewrite (proj2 (Z.ltb_lt _ _) Hlt) in Hlim, Hblk.
  rewrite H4 in *. unfold stop_reason, needs_exception in Hstop. rewrite H4 in Hstop.
  destruct (terminal_val t' (frozen_xid t') Hi') as [o Hs]. rewrite Hs in *.
  destruct o as [[| |]|]; cbn in Hlim, Hblk.
  - rewrite Hblk. destruct Hstop as [[-> _]|(_&_&[[-> _]|(_&[?|?]&_)])]; (done || congruence).
  - rewrite Hlim, andb_true_r. apply Z.eqb_eq.
    destruct Hstop as [[_ [?|?]]|(_&_&[[_ ?]|(_&[?|?]&_)])]; try congruence; lia.
  - destruct (Z.ltb_spec (set_size (abort_exceptions t')) (abort_exception_capacity t)); cbn in Hlim, Hblk.
    + rewrite Hlim, andb_true_r. apply Z.eqb_eq.
      destruct Hstop as [[_ [?|?]]|(_&_&[[_ ?]|(_&_&?)])]; try congruence; lia.
    + rewrite Hblk. destruct Hstop as [[-> [?|?]]|(_&_&[[_ ?]|(?&_&_)])]; try congruence; auto; lia.
  - destruct (Z.ltb_spec (set_size (abort_exceptions t')) (abort_exception_capacity t)); cbn in Hlim, Hblk.
    + rewrite Hlim, andb_true_r. apply Z.eqb_eq.
      destruct Hstop as [[_ [?|?]]|(_&_&[[_ ?]|(_&_&?)])]; try congruence; lia.
    + rewrite Hblk. destruct Hstop as [[-> [?|?]]|(_&_&[[_ ?]|(?&_&_)])]; try congruence; auto; lia.
Qed.

Lemma freeze_keeps_every_outcome_witness :
  let t := abort 2 (commit 1 (snd (begin_tx (snd (begin_tx (with_exception_capacity 4)))))) in
  exists rep t', freeze_below_bounded 3 10 t = (Val rep, t') /\ frozen_xid t' = frozen_xid t + frozen rep /\
    (tx_status t' 1 = Val Committed <-> tx_status t 1 = Val Committed).
Proof.
  intros t.
  set (t2 := snd (begin_tx (snd (begin_tx (with_exception_capacity 4))))).
  assert (H2 : tinv t2).
  { apply begin_spec; [apply begin_spec; [apply new_inv|by vm_compute]|by vm_compute]. }
  assert (H3 : tinv (commit 1 t2)).
  { apply (tstep_spec t2); [done|]. apply T_commit. set_solver. }
  assert (Hi : tinv t).
  { apply (tstep_spec (commit 1 t2)); [done|]. apply T_abort. set_solver. }
  destruct (freeze_keeps_every_outcome t 3 10 Hi ltac:(by vm_compute) ltac:(widths; lia))
    as (rep&t'&Hf&_&_&_&Hc&Hw&_). exists rep, t'. ands; auto. apply Hc. lia.
Defined.

(** Write conflicts are decided exactly.  For a transaction other than the
    reader's own, exactly one of three holds at any moment: the snapshot sees
    it, it is concurrent with the snapshot (overwriting its row would lose an
    update), or it aborted. *)
Theorem visible_or_concurrent_or_aborted (t : TableInner) (x : Z) (s : Snapshot)
    (Hi : tinv t) (Hx : x <> 0) (Hown : x <> snap_xid s) :
  exists v c r, xid_visible t x s = Val v /\ is_concurrent t x s = Val c /\ tx_status t x = Val r /\
    ((v = true /\ c = false /\ r <> Aborted) \/ (v = false /\ c = true /\ r <> Aborted) \/
     (v = false /\ c = false /\ r = Aborted)).
Proof.
  destruct (tx_status_val t x Hi) as [r Hr]. unfold xid_visible, is_concurrent.
  rewrite !(proj2 (Z.eqb_neq _ _)), Hr by done. cbn [orb res_bind].
  destruct (began_before s x); cbn [negb]; destruct r; cbn; do 3 eexists; naive_solver.
Qed.

Lemma visible_or_concurrent_or_aborted_witness :
  exists v c r, xid_visible (snd (begin_tx table_new)) 1 (latest_snapshot table_new) = Val v /\
    is_concurrent (snd (begin_tx table_new)) 1 (latest_snapshot table_new) = Val c /\
    tx_status (snd (begin_tx table_new)) 1 = Val r /\ v = false /\ c = true.
Proof.
  destruct (visible_or_concurrent_or_aborted (snd (begin_tx table_new)) 1 (latest_snapshot table_new)
    (proj1 (begin_spec table_new (new_inv 0) ltac:(by vm_compute))) ltac:(done) ltac:(done))
    as (v&c&r&Hv&Hc&Hr&_).
  exists v, c, r. ands; auto; [by vm_compute in Hv; simplify_eq|by vm_compute in Hc; simplify_eq].
Defined.

(** ** Divergences *)

(** [blocked] is documented as "the next xid is still in progress".  When the
    bound and the exception capacity are reached at the same transaction it is
    reported for an aborted one. *)
Theorem blocked_without_a_running_transaction :
  let t := abort 2 (commit 1 (snd (begin_tx (snd (begin_tx table_new))))) in
  let '(r, t') := freeze_below_bounded 3 1 t in
  r = Val (mkReport 1 0 false true false) /\ in_progress t' = ∅ /\ tx_status t' 2 = Val Aborted.
Proof. by vm_compute. Qed.

(** [jump_frozen_to] only looks at resident outcomes.  An abort that a
    checkpoint has moved to the status spill turns into a commit. *)
Theorem jump_commits_a_spilled_abort :
  let t := abort 1 (snd (begin_tx table_new)) in
  let spilled := evict_terminal_outcomes
                   (set_spill (fun x => if x =? 1 then Val (Some Aborted) else Val None) t) in
  tx_status spilled 1 = Val Aborted /\ watermark_jump_obstacle 2 spilled = None /\
  let '(r, t') := jump_frozen_to 2 spilled in r = Val 2 /\ tx_status t' 1 = Val Committed.
Proof. by vm_compute. Qed.

(** It also checks only the first recovered outcome: an abort behind a commit
    turns into a commit. *)
Theorem jump_commits_a_recovered_abort :
  let r := snd (normalize (push_all [(1, Committed); (2, Aborted)] outcomes_default)) in
  let t := seal_previous_incarnations (record_recovered_batch r table_new) in
  tx_status t 2 = Val Aborted /\
  let '(res, t') := jump_frozen_to 3 t in res = Val 3 /\ tx_status t' 2 = Val Committed.
Proof. by vm_compute. Qed.
