(* ===== verification/Ranges.v ===== *)
(** * The bounded commit index

    Models [CommittedRanges] of [crates/bicdb-page/src/wal.rs]: the set of
    transactions with a commit record in the current log generation, kept as
    sorted, disjoint, non-adjacent ranges under a hard ceiling. *)

(* @source crates/bicdb-page/src/wal.rs *)
From stdpp Require Import base tactics list numbers sorting sets gmap.
From Stdlib Require Import ZArith Lia.
From S2P Require Import Prelude Search.
Local Open Scope Z_scope.

(** [MAX_COMMITTED_RANGES] (274-274). *)
Definition MAX_COMMITTED_RANGES : Z := 4096.

Abbreviation range := (Z * Z)%type.

(** [u64::checked_add(1)]. *)
Definition checked_succ (x : Z) : option Z := if x + 1 <? U64 then Some (x + 1) else None.

(** [CommittedRanges::contains] (282-294). *)
Definition ranges_contains (ranges : list range) (xid : Z) : bool :=
  match binary_search_by
          (fun '(start, end_) => if xid <? start then Gt else if end_ <? xid then Lt else Eq) ranges with
  | inl _ => true
  | inr _ => false
  end.

(** The body of [insert] once the position is known. *)
Definition ranges_place (position : nat) (xid : Z) (ranges : list range) : bool * list range :=
  let previous := if (0 <? position)%nat then ranges !! (position - 1)%nat else None in
  let next := ranges !! position in
  let merge_previous := match previous with
                        | Some (_, e) => bool_decide (checked_succ e = Some xid) | None => false end in
  let merge_next := match next with
                    | Some (s, _) => bool_decide (checked_succ xid = Some s) | None => false end in
  match merge_previous, merge_next with
  | true, true =>
      let next_end := default 0 (snd <$> next) in
      (true, base.delete position (alter (fun '(s, _) => (s, next_end)) (position - 1)%nat ranges))
  | true, false => (true, alter (fun '(s, _) => (s, xid)) (position - 1)%nat ranges)
  | false, true => (true, alter (fun '(_, e) => (xid, e)) position ranges)
  | false, false =>
      if Z.of_nat (length ranges) <? MAX_COMMITTED_RANGES
      then (true, take position ranges ++ (xid, xid) :: drop position ranges)
      else (false, ranges)
  end.

(** [CommittedRanges::insert] (296-319). *)
Definition ranges_insert (xid : Z) (ranges : list range) : bool * list range :=
  if ranges_contains ranges xid then (true, ranges)
  else ranges_place (partition_point (fun '(_, end_) => end_ <? xid) ranges) xid ranges.

(** [CommittedRanges::clear] (321-323). *)
Definition ranges_clear (_ : list range) : list range := [].

(** ** Invariant and meaning *)

(** [a] ends at least one id before [b] starts. *)
Definition gap_before (a b : range) : Prop := snd a + 1 < fst b.

Definition range_ok (a : range) : Prop := 0 <= fst a <= snd a /\ snd a < U64.

Definition ranges_inv (r : list range) : Prop := StronglySorted gap_before r /\ Forall range_ok r.

Definition member (r : list range) (x : Z) : Prop := exists a, a ∈ r /\ fst a <= x <= snd a.

Lemma member_app r1 r2 x : member (r1 ++ r2) x <-> member r1 x \/ member r2 x.
Proof. unfold member. set_solver. Qed.

Lemma member_cons a r x : member (a :: r) x <-> fst a <= x <= snd a \/ member r x.
Proof. unfold member. set_solver. Qed.

Lemma member_nil x : ~ member [] x.
Proof. unfold member. set_solver. Qed.

Lemma ranges_lookup r (i j : nat) a b :
  ranges_inv r -> (i < j)%nat -> r !! i = Some a -> r !! j = Some b -> snd a + 1 < fst b.
Proof. intros [Hs _]. by apply (StronglySorted_lookup gap_before). Qed.

Lemma ranges_ok r a : ranges_inv r -> a ∈ r -> range_ok a.
Proof. intros [_ Hf]. rewrite Forall_forall in Hf. apply Hf. Qed.

(** ** Lookup *)

Lemma ranges_contains_spec r x : ranges_inv r -> ranges_contains r x = true <-> member r x.
Proof.
  intros Hr. unfold ranges_contains.
  set (f := fun _ : range => _).
  assert (Hf : forall a, f a = if x <? fst a then Gt else if snd a <? x then Lt else Eq) by by intros [].
  pose proof (binary_search_by_spec f r) as H.
  assert (Ho : ordered_for f r).
  { intros i j a b Hij Ha Hb. rewrite !Hf.
    destruct (decide (i = j)) as [->|Hne]; [simplify_eq; done|].
    pose proof (ranges_lookup r i j a b Hr ltac:(lia) Ha Hb).
    pose proof (ranges_ok r a Hr ltac:(by eapply list_elem_of_lookup_2)) as [? _].
    pose proof (ranges_ok r b Hr ltac:(by eapply list_elem_of_lookup_2)) as [? _].
    repeat (case_match; bools); split; intros; try done; lia. }
  specialize (H Ho). destruct (binary_search_by f r) as [i|i].
  - destruct H as (a&Ha&Hfa). split; [|done]. intros _. exists a.
    split; [by eapply list_elem_of_lookup_2|]. rewrite Hf in Hfa. repeat case_match; bools; done || lia.
  - split; [done|]. intros (a&(j&Hj)%list_elem_of_lookup_1&Ha). destruct H as [_ H].
    specialize (H j a Hj). rewrite Hf in H.
    rewrite !(proj2 (Z.ltb_ge _ _)) in H by lia. by destruct (_ <? _)%nat.
Qed.

(** ** Insertion *)

Lemma alter_mid {A} (f : A -> A) l1 x l2 : alter f (length l1) (l1 ++ x :: l2) = l1 ++ f x :: l2.
Proof. induction l1 as [|y l1 IH]; cbn; [done|]. by f_equal. Qed.

Lemma delete_mid {A} (l1 : list A) x l2 : base.delete (length l1) (l1 ++ x :: l2) = l1 ++ l2.
Proof. induction l1 as [|y l1 IH]; cbn; [done|]. by f_equal. Qed.

Lemma ranges_inv_mid l1 m l2 :
  ranges_inv (l1 ++ m :: l2) <->
  ranges_inv (l1 ++ l2) /\ range_ok m /\ (forall a, a ∈ l1 -> gap_before a m) /\
  (forall b, b ∈ l2 -> gap_before m b).
Proof.
  unfold ranges_inv. rewrite !StronglySorted_app, StronglySorted_cons, !Forall_app, Forall_cons.
  rewrite Forall_forall. set_solver.
Qed.

(** Where [partition_point] cuts the index for a transaction not in it. *)
Lemma ranges_cut r x (k := partition_point (fun '(_, e) => e <? x) r) :
  ranges_inv r -> ~ member r x ->
  r = take k r ++ drop k r /\ (k <= length r)%nat /\
  (forall a, a ∈ take k r -> snd a < x) /\ (forall b, b ∈ drop k r -> x < fst b).
Proof.
  intros Hr Hm. destruct (partition_point_spec (fun '((_, e) : range) => e <? x) r) as [Hk Hp].
  { intros i j [s1 e1] [s2 e2] Hij Ha Hb. rewrite !Z.ltb_lt.
    destruct (decide (i = j)) as [->|]; [simplify_eq; done|].
    pose proof (ranges_lookup r i j _ _ Hr ltac:(lia) Ha Hb).
    destruct (ranges_ok r (s2, e2) Hr ltac:(by eapply list_elem_of_lookup_2)) as [? _]. cbn in *. lia. }
  fold k in Hk, Hp. ands; [by rewrite take_drop|done| |].
  - intros [s e] (i&Hi)%list_elem_of_lookup_1. apply lookup_take_Some in Hi as [Hi Hlt].
    assert (E : (e <? x) = (i <? k)%nat) by exact (Hp i (s, e) Hi).
    rewrite (proj2 (Nat.ltb_lt _ _) Hlt) in E. bools. done.
  - intros [s e] (i&Hi)%list_elem_of_lookup_1. rewrite lookup_drop in Hi.
    assert (E : (e <? x) = (k + i <? k)%nat) by exact (Hp _ (s, e) Hi).
    rewrite (proj2 (Nat.ltb_ge _ _)) in E by lia. bools. cbn.
    destruct (Z.lt_ge_cases x s); [done|]. exfalso. apply Hm. exists (s, e). cbn.
    split; [by eapply list_elem_of_lookup_2|lia].
Qed.

Definition insert_ok (r r' : list range) (x : Z) (d : Z) : Prop :=
  ranges_inv r' /\ (forall y, member r' y <-> y = x \/ member r y) /\
  Z.of_nat (length r') = Z.of_nat (length r) + d.

Lemma insert_new l1 l2 x :
  ranges_inv (l1 ++ l2) -> is_u64 x ->
  (forall a, a ∈ l1 -> gap_before a (x, x)) -> (forall b, b ∈ l2 -> gap_before (x, x) b) ->
  insert_ok (l1 ++ l2) (l1 ++ (x, x) :: l2) x 1.
Proof.
  intros Hr Hx H1 H2. split; [|split].
  - rewrite ranges_inv_mid. ands; auto. unfold range_ok. cbn. widths. lia.
  - intros y. rewrite !member_app, member_cons. cbn. intuition lia.
  - rewrite !length_app. cbn. lia.
Qed.

Lemma insert_left l1 s e l2 x :
  ranges_inv (l1 ++ (s, e) :: l2) -> is_u64 x -> e + 1 = x -> (forall b, b ∈ l2 -> gap_before (x, x) b) ->
  insert_ok (l1 ++ (s, e) :: l2) (l1 ++ (s, x) :: l2) x 0.
Proof.
  intros Hr Hx He H2. apply ranges_inv_mid in Hr as (Hr&[Hse ?]&Hl&_). cbn in Hse. split; [|split].
  - rewrite ranges_inv_mid. ands; auto. unfold range_ok. cbn. widths. lia.
  - intros y. rewrite !member_app, !member_cons. cbn. intuition lia.
  - rewrite !length_app. cbn. lia.
Qed.

Lemma insert_right l1 s e l2 x :
  ranges_inv (l1 ++ (s, e) :: l2) -> is_u64 x -> x + 1 = s -> (forall a, a ∈ l1 -> gap_before a (x, x)) ->
  insert_ok (l1 ++ (s, e) :: l2) (l1 ++ (x, e) :: l2) x 0.
Proof.
  intros Hr Hx He H1. apply ranges_inv_mid in Hr as (Hr&[Hse ?]&_&Hl). cbn in Hse. split; [|split].
  - rewrite ranges_inv_mid. ands; auto. unfold range_ok. cbn in *. widths. lia.
  - intros y. rewrite !member_app, !member_cons. cbn. intuition lia.
  - rewrite !length_app. cbn. lia.
Qed.

Lemma insert_both l1 s1 e1 s2 e2 l2 x :
  ranges_inv (l1 ++ (s1, e1) :: (s2, e2) :: l2) -> is_u64 x -> e1 + 1 = x -> x + 1 = s2 ->
  insert_ok (l1 ++ (s1, e1) :: (s2, e2) :: l2) (l1 ++ (s1, e2) :: l2) x (-1).
Proof.
  intros Hr Hx H1 H2. apply ranges_inv_mid in Hr as (Hr&[Hse ?]&Hl&_). cbn in Hse.
  apply ranges_inv_mid in Hr as (Hr&[Hse2 ?]&_&Hl2). cbn in Hse2. split; [|split].
  - rewrite ranges_inv_mid. ands; auto. unfold range_ok. cbn in *. lia.
  - intros y. rewrite !member_app, !member_cons. cbn. intuition lia.
  - rewrite !length_app. cbn. lia.
Qed.

Lemma checked_succ_spec x y : is_u64 y -> checked_succ x = Some y <-> x + 1 = y.
Proof.
  intros Hy. unfold checked_succ. destruct (Z.ltb_spec (x + 1) U64); widths; split; intros; simplify_eq; done || lia.
Qed.

(** Everything before the cut ends well before [x] once the last range does. *)
Lemma cut_left l1 s e l2 x :
  ranges_inv ((l1 ++ [(s, e)]) ++ l2) -> e < x ->
  (forall a, a ∈ l1 -> gap_before a (x, x)) /\
  (e + 1 <> x -> forall a, a ∈ l1 ++ [(s, e)] -> gap_before a (x, x)).
Proof.
  rewrite <- app_assoc. intros (_&[Hse _]&Hl&_)%ranges_inv_mid He. cbn in Hse. unfold gap_before in *. cbn in *.
  assert (H1 : forall a, a ∈ l1 -> snd a + 1 < x) by (intros a Ha; specialize (Hl a Ha); lia).
  split; [done|]. intros Hne a [Ha| ->%list_elem_of_singleton]%elem_of_app; [auto|cbn; lia].
Qed.

Lemma cut_right l1 s e l2 x :
  ranges_inv (l1 ++ (s, e) :: l2) -> x < s ->
  (forall b, b ∈ l2 -> gap_before (x, x) b) /\
  (x + 1 <> s -> forall b, b ∈ (s, e) :: l2 -> gap_before (x, x) b).
Proof.
  intros (_&[Hse _]&_&Hl)%ranges_inv_mid He. cbn in Hse. unfold gap_before in *. cbn in *.
  assert (H1 : forall b, b ∈ l2 -> x + 1 < fst b) by (intros b Hb; specialize (Hl b Hb); lia).
  split; [done|]. intros Hne b [-> |Hb]%elem_of_cons; [cbn; lia|auto].
Qed.

Definition place_ok (r : list range) (x : Z) (out : bool * list range) : Prop :=
  match out with
  | (true, r') => exists d, insert_ok r r' x d /\
      (d <= 0 \/ d = 1 /\ Z.of_nat (length r) < MAX_COMMITTED_RANGES)
  | (false, r') => r' = r /\ MAX_COMMITTED_RANGES <= Z.of_nat (length r)
  end.

Lemma place_new l1 l2 x :
  ranges_inv (l1 ++ l2) -> is_u64 x ->
  (forall a, a ∈ l1 -> gap_before a (x, x)) -> (forall b, b ∈ l2 -> gap_before (x, x) b) ->
  place_ok (l1 ++ l2) x
    (if Z.of_nat (length (l1 ++ l2)) <? MAX_COMMITTED_RANGES
     then (true, take (length l1) (l1 ++ l2) ++ (x, x) :: drop (length l1) (l1 ++ l2))
     else (false, l1 ++ l2)).
Proof.
  intros Hr Hx H1 H2. destruct (Z.ltb_spec (Z.of_nat (length (l1 ++ l2))) MAX_COMMITTED_RANGES); [|done].
  exists 1. split; [|auto]. rewrite take_app_length, drop_app_length. by apply insert_new.
Qed.

Lemma place_first l2 x :
  ranges_inv l2 -> is_u64 x -> (forall b, b ∈ l2 -> x < fst b) -> place_ok l2 x (ranges_place 0 x l2).
Proof.
  intros Hr Hx H2. unfold ranges_place. change (0 <? 0)%nat with false. cbv iota zeta.
  destruct l2 as [|[s e] l2]; [apply (place_new [] []); auto; set_solver|].
  cbn [lookup list_lookup]. assert (Hxs : x < s) by (apply (H2 (s, e)); by left).
  destruct (cut_right [] s e l2 x Hr Hxs) as [_ Hr2].
  assert (Hs : is_u64 s) by (destruct (ranges_ok _ (s, e) Hr ltac:(by left)); cbn in *; widths; lia).
  rewrite (bool_decide_ext _ _ (checked_succ_spec x s Hs)). case_bool_decide as E.
  - exists 0. split; [|lia]. apply (insert_right []); auto. set_solver.
  - apply (place_new [] ((s, e) :: l2)); auto. set_solver.
Qed.

Lemma place_last l1 s1 e1 x (l := l1 ++ [(s1, e1)]) :
  ranges_inv l -> is_u64 x -> e1 < x -> place_ok l x (ranges_place (length l) x l).
Proof.
  intros Hr Hx He. unfold ranges_place.
  assert (Hl : length l = S (length l1)) by (unfold l; rewrite length_app; cbn; lia).
  assert (Hp : l !! length l1 = Some (s1, e1)) by (unfold l; by rewrite lookup_app_r, Nat.sub_diag by lia).
  replace (length l - 1)%nat with (length l1) by lia.
  rewrite Hp, (lookup_ge_None_2 l (length l)), (proj2 (Nat.ltb_lt 0 (length l))) by lia. cbv iota zeta.
  destruct (cut_left l1 s1 e1 [] x) as [_ Hl']; [by rewrite app_nil_r|done|].
  rewrite (bool_decide_ext _ _ (checked_succ_spec e1 x Hx)). case_bool_decide as E.
  - exists 0. split; [|lia]. unfold l. rewrite alter_mid. apply insert_left; auto. set_solver.
  - pose proof (place_new l [] x) as P. rewrite app_nil_r in P. apply P; auto. set_solver.
Qed.

Lemma place_between l1 s1 e1 s e l2 x (l := l1 ++ [(s1, e1)]) (r := l ++ (s, e) :: l2) :
  ranges_inv r -> is_u64 x -> e1 < x -> x < s -> place_ok r x (ranges_place (length l) x r).
Proof.
  intros Hr Hx He Hxs. unfold ranges_place.
  assert (Hl : length l = S (length l1)) by (unfold l; rewrite length_app; cbn; lia).
  assert (Er : r = l1 ++ (s1, e1) :: (s, e) :: l2) by (unfold r, l; by rewrite <- app_assoc).
  assert (Hp : r !! length l1 = Some (s1, e1)) by (rewrite Er, lookup_app_r, Nat.sub_diag by lia; done).
  assert (Hn : r !! length l = Some (s, e)) by (unfold r; rewrite lookup_app_r, Nat.sub_diag by lia; done).
  replace (length l - 1)%nat with (length l1) by lia. rewrite Hn, Hp.
  rewrite (proj2 (Nat.ltb_lt 0 (length l))) by lia. cbv iota zeta.
  destruct (cut_left l1 s1 e1 _ x Hr He) as [_ Hl'], (cut_right l s e l2 x Hr Hxs) as [Hr1 Hr2].
  assert (Hs : is_u64 s) by (destruct (ranges_ok _ (s, e) Hr ltac:(set_solver)); cbn in *; widths; lia).
  rewrite (bool_decide_ext _ _ (checked_succ_spec e1 x Hx)), (bool_decide_ext _ _ (checked_succ_spec x s Hs)).
  case_bool_decide as E1; case_bool_decide as E2.
  - exists (-1). split; [|lia]. change (default 0 (snd <$> Some (s, e))) with e. rewrite Er, alter_mid.
    replace (l1 ++ (s1, e) :: (s, e) :: l2) with ((l1 ++ [(s1, e)]) ++ (s, e) :: l2) by by rewrite <- app_assoc.
    replace (length l) with (length (l1 ++ [(s1, e)])) by (unfold l; by rewrite !length_app).
    rewrite delete_mid, <- app_assoc. apply insert_both; auto. by rewrite <- Er.
  - exists 0. split; [|lia]. rewrite Er, alter_mid. apply insert_left; auto. by rewrite <- Er.
  - exists 0. split; [|lia]. unfold r. rewrite alter_mid. apply insert_right; auto.
  - apply place_new; auto.
Qed.

Lemma ranges_insert_spec r x :
  ranges_inv r -> is_u64 x ->
  match ranges_insert x r with
  | (true, r') => ranges_inv r' /\ (forall y, member r' y <-> y = x \/ member r y)
  | (false, r') => r' = r /\ ~ member r x
  end /\
  (Z.of_nat (length r) <= MAX_COMMITTED_RANGES ->
   Z.of_nat (length (snd (ranges_insert x r))) <= MAX_COMMITTED_RANGES).
Proof.
  intros Hr Hx. unfold ranges_insert. pose proof (ranges_contains_spec r x Hr) as Hc.
  destruct (ranges_contains r x) eqn:Ec.
  { split; [|done]. split; [done|]. intros y. split; [auto|]. intros [->|?]; [by apply Hc|done]. }
  assert (Hm : ~ member r x) by (by rewrite <- Hc).
  destruct (ranges_cut r x Hr Hm) as (Hcut&Hk&H1&H2). set (k := partition_point _ r) in *.
  assert (Hp : place_ok r x (ranges_place k x r)).
  { assert (Hlen : length (take k r) = k) by (rewrite length_take; lia).
    set (l1 := take k r) in *. set (l2 := drop k r) in *. rewrite Hcut, <- Hlen. rewrite Hcut in Hr.
    clearbody l1 l2. clear - Hr Hx H1 H2.
    induction l1 as [|[s1 e1] l1 _] using rev_ind; [by apply place_first|].
    assert (e1 < x) by (apply (H1 (s1, e1)); set_solver).
    destruct l2 as [|[s e] l2]; [rewrite app_nil_r in *; by apply place_last|].
    apply place_between; auto. apply (H2 (s, e)). set_solver. }
  destruct (ranges_place k x r) as [[|] r']; cbn [snd].
  - destruct Hp as (d&(?&?&Hlen)&Hd). split; [done|]. lia.
  - destruct Hp as [-> ?]. done.
Qed.

(** ** Claims *)

(** The commit index is a set of transaction ids.  Starting empty, after any
    insertions, refused ones included, [contains] answers exactly for the ids
    whose insertion succeeded; the ranges stay sorted, disjoint and
    non-adjacent, and there are never more than 4096 of them. *)
Theorem commit_index_is_a_bounded_set (xs : list Z) (Hxs : Forall is_u64 xs) :
  let run := foldl (fun '(r, s) x =>
               let '(ok, r') := ranges_insert x r in (r', if ok then x :: s else s)) ([], []) xs in
  ranges_inv (fst run) /\ Z.of_nat (length (fst run)) <= MAX_COMMITTED_RANGES /\
  (forall y, ranges_contains (fst run) y = true <-> y ∈ snd run).
Proof.
  intros run.
  assert (Hinv : ranges_inv (fst run) /\ Z.of_nat (length (fst run)) <= MAX_COMMITTED_RANGES /\
    forall y, member (fst run) y <-> y ∈ snd run).
  { unfold run. clear run. induction xs as [|x xs IH] using rev_ind.
    - cbn. ands; [repeat constructor|unfold MAX_COMMITTED_RANGES; lia|].
      intros y. unfold member. set_solver.
    - apply Forall_app in Hxs as [Hxs Hx]. apply Forall_cons_1 in Hx as [Hx _].
      rewrite foldl_app. cbn [foldl]. destruct (foldl _ _ xs) as [r s]. cbn [fst snd] in *.
      destruct (IH Hxs) as (Hr&Hl&Hm). destruct (ranges_insert_spec r x Hr Hx) as [H HL].
      specialize (HL Hl). destruct (ranges_insert x r) as [[|] r']; cbn [fst snd] in *.
      + destruct H as [? H]. ands; [done|done|]. intros y. rewrite H, Hm. set_solver.
      + by destruct H as [-> _]. }
  destruct Hinv as (Hr&Hl&Hm). ands; auto. intros y. by rewrite ranges_contains_spec.
Qed.

Lemma commit_index_is_a_bounded_set_witness :
  let run := foldl (fun '(r, s) x =>
               let '(ok, r') := ranges_insert x r in (r', if ok then x :: s else s)) ([], []) [5; 9; 7; 6; 5; 8] in
  fst run = [(5, 9)] /\ forall y, ranges_contains (fst run) y = true <-> y ∈ snd run.
Proof.
  assert (Hxs : Forall is_u64 [5; 9; 7; 6; 5; 8]) by (repeat constructor; widths; lia).
  pose proof (commit_index_is_a_bounded_set [5; 9; 7; 6; 5; 8] Hxs) as (_&_&Hc).
  split; [by vm_compute|exact Hc].
Defined.
