(* ===== verification/Wal.v ===== *)
(** * The write-ahead log

    Models [crates/bicdb-page/src/wal.rs]: record framing, appending with
    segment sealing, the streaming scanner, torn-tail truncation, reset, commit,
    abort and checkpoint records.  Files are byte lists: [active] is
    [store.wal], [segments] the sealed [store.wal.<seq>] files.  I/O outcomes
    are arguments: [seal_io]/[sync_io] say whether a sync (and the rename after
    it) succeeds, [write_io] is [None] for a complete write or [Some k] for a
    write that fails with [k] bytes in the file.  Metrics and timestamps are
    left out; the other threads of [sync_through] are in [GroupCommit]. *)

(* @source crates/bicdb-page/src/wal.rs *)
From stdpp Require Import base tactics list numbers gmap.
From Stdlib Require Import ZArith Lia.
From S2P Require Import Prelude Search Bytes Errors PageFormat Mvcc Ranges.
Local Open Scope Z_scope.
Local Open Scope bic_scope.

(** [RECORD_MAGIC] (59-59). *)
Definition RECORD_MAGIC : bytes := [66; 87; 65; 76].
(** [RECORD_HEADER_BYTES] (61-61). *)
Definition RECORD_HEADER_BYTES : Z := 4 + 8 + 1 + 3 + 4 + 4.
(** [RECORD_FIXED_BODY_BYTES] (62-62). *)
Definition RECORD_FIXED_BODY_BYTES : Z := 8 + 8.
(** [MAX_WAL_RECORD_BYTES] (65-66). *)
Definition MAX_WAL_RECORD_BYTES : Z := RECORD_HEADER_BYTES + RECORD_FIXED_BODY_BYTES + MAX_PAGE_SIZE.

(** [RecordKind] (71-81). *)
Inductive RecordKind := PageImage | Commit | Checkpoint | Abort.
#[export] Instance RecordKind_eq_dec : EqDecision RecordKind.
Proof. solve_decision. Defined.

(** [kind as u8] for the discriminants of [RecordKind]. *)
Definition kind_u8 (k : RecordKind) : Z :=
  match k with PageImage => 1 | Commit => 2 | Checkpoint => 3 | Abort => 4 end.

(** [RecordKind::from_u8] (84-92). *)
Definition kind_from_u8 (v : Z) : option RecordKind :=
  if v =? 1 then Some PageImage else if v =? 2 then Some Commit
  else if v =? 3 then Some Checkpoint else if v =? 4 then Some Abort else None.

(** [WalRecord] (97-105). *)
Record WalRecord := mkRecord {
  r_lsn : Z;
  r_kind : RecordKind;
  r_page : Z;
  r_tx : Z;
  r_payload : bytes
}.

(** [WalScanReport] (203-209). *)
Record WalScanReport := mkScan {
  sc_records : Z;
  sc_valid_bytes : Z;
  sc_truncated_bytes : Z;
  sc_peak_record_bytes : Z;
  sc_last_lsn : option Z
}.
Definition scan_default : WalScanReport := mkScan 0 0 0 0 None.

(** [Wal] (226-272), with [SyncState::durable_lsn] in it and the files it owns. *)
Record Wal := mkWal {
  active : bytes;
  segments : gmap Z bytes;
  segment_bytes : Z;
  sealed : list Z;
  active_first_lsn : Z;
  archived_through : Z;
  archive_retention : bool;
  sealed_bytes : Z;
  next_lsn : Z;
  end_offset : Z;
  durable_lsn : Z;
  redo_lsn : Z;
  committed_ranges : list range
}.

Abbreviation wst := (st PageError Wal).

(** Field updates. *)
Definition set_active (b : bytes) (w : Wal) : Wal :=
  mkWal b (segments w) (segment_bytes w) (sealed w) (active_first_lsn w) (archived_through w)
    (archive_retention w) (sealed_bytes w) (next_lsn w) (end_offset w) (durable_lsn w) (redo_lsn w)
    (committed_ranges w).
Definition set_next_lsn (x : Z) (w : Wal) : Wal :=
  mkWal (active w) (segments w) (segment_bytes w) (sealed w) (active_first_lsn w) (archived_through w)
    (archive_retention w) (sealed_bytes w) x (end_offset w) (durable_lsn w) (redo_lsn w)
    (committed_ranges w).
Definition set_end_offset (x : Z) (w : Wal) : Wal :=
  mkWal (active w) (segments w) (segment_bytes w) (sealed w) (active_first_lsn w) (archived_through w)
    (archive_retention w) (sealed_bytes w) (next_lsn w) x (durable_lsn w) (redo_lsn w)
    (committed_ranges w).
Definition set_active_first (x : Z) (w : Wal) : Wal :=
  mkWal (active w) (segments w) (segment_bytes w) (sealed w) x (archived_through w)
    (archive_retention w) (sealed_bytes w) (next_lsn w) (end_offset w) (durable_lsn w) (redo_lsn w)
    (committed_ranges w).
Definition set_durable (x : Z) (w : Wal) : Wal :=
  mkWal (active w) (segments w) (segment_bytes w) (sealed w) (active_first_lsn w) (archived_through w)
    (archive_retention w) (sealed_bytes w) (next_lsn w) (end_offset w) x (redo_lsn w)
    (committed_ranges w).
Definition set_redo (x : Z) (w : Wal) : Wal :=
  mkWal (active w) (segments w) (segment_bytes w) (sealed w) (active_first_lsn w) (archived_through w)
    (archive_retention w) (sealed_bytes w) (next_lsn w) (end_offset w) (durable_lsn w) x
    (committed_ranges w).
Definition set_committed (r : list range) (w : Wal) : Wal :=
  mkWal (active w) (segments w) (segment_bytes w) (sealed w) (active_first_lsn w) (archived_through w)
    (archive_retention w) (sealed_bytes w) (next_lsn w) (end_offset w) (durable_lsn w) (redo_lsn w) r.
Definition set_sealed (files : gmap Z bytes) (names : list Z) (total : Z) (w : Wal) : Wal :=
  mkWal (active w) files (segment_bytes w) names (active_first_lsn w) (archived_through w)
    (archive_retention w) total (next_lsn w) (end_offset w) (durable_lsn w) (redo_lsn w)
    (committed_ranges w).

(** [discover_sealed_segments] (1081-1116): the sequence numbers on disk,
    ascending, and their total size. *)
Definition discover_sealed_segments (files : gmap Z bytes) : list Z * Z :=
  (sort_by Z.leb (map_to_list files).*1,
   foldr (fun kv acc => sat_add (blen (snd kv)) acc) 0 (map_to_list files)).

(** [open_with_segments_and_floor] (357-402). *)
Definition open_with_segments_and_floor (files : gmap Z bytes) (file : bytes)
    (seg_bytes lsn_floor : Z) : Wal :=
  let '(names, total) := discover_sealed_segments files in
  let initial_lsn := Z.max lsn_floor 1 in
  mkWal file files seg_bytes names initial_lsn 0 false total initial_lsn (blen file) 0 0 [].

(** [open] (338-340): one unbounded active file. *)
Definition wal_open (files : gmap Z bytes) (file : bytes) : Wal :=
  open_with_segments_and_floor files file 0 0.

(** [seal_active_locked] (488-520); the creation of the fresh file succeeds. *)
Definition seal_active_locked (seal_io : bool) (active_bytes : Z) : wst unit :=
  if negb seal_io then st_fail Io
  else
    modify (fun w =>
      let sequence := active_first_lsn w in
      let w1 := set_sealed (<[sequence := active w]> (segments w)) (sealed w ++ [sequence])
                  (sealed_bytes w + active_bytes) w in
      set_end_offset 0 (set_active_first (next_lsn w) (set_active [] w1))).

(** [seal_active] (470-484). *)
Definition seal_active (seal_io : bool) : wst unit :=
  do w <- gets id ;;
  if segment_bytes w =? 0 then st_fail InvalidMaintenanceLimits
  else if end_offset w =? 0 then st_ret tt
  else seal_active_locked seal_io (end_offset w).

Section Checksummed.
(** [crc32fast]: feeding the hasher in pieces hashes their concatenation. *)
Variable crc32 : bytes -> Z.

(** The first 20 bytes of a record's header, and the bytes of a whole record
    as [append] builds them in [buffer]. *)
Definition record_head (lsn : Z) (kind : RecordKind) (body : bytes) : bytes :=
  RECORD_MAGIC ++ le_enc 8 lsn ++ [kind_u8 kind] ++ zeros 3 ++ le_enc 4 (blen body).
Definition record_body (page tx : Z) (payload : bytes) : bytes :=
  le_enc 8 page ++ le_enc 8 tx ++ payload.
Definition record_bytes (lsn : Z) (kind : RecordKind) (body : bytes) : bytes :=
  record_head lsn kind body ++ le_enc 4 (crc32 (record_head lsn kind body ++ body)) ++ body.

(** [append] (549-615). *)
Definition append (seal_io : bool) (write_io : option Z) (kind : RecordKind) (page tx : Z)
    (payload : bytes) : wst Z :=
  let body := record_body page tx payload in
  do w <- gets id ;;
  (if (0 <? segment_bytes w) && (0 <? end_offset w) &&
      (segment_bytes w <? sat_add (end_offset w) (RECORD_HEADER_BYTES + blen body))
   then seal_active_locked seal_io (end_offset w)
   else st_ret tt) ;;;
  do lsn <- gets next_lsn ;;
  modify (set_next_lsn ((lsn + 1) mod U64)) ;;;
  let buffer := record_bytes lsn kind body in
  match write_io with
  | Some k =>
      modify (fun w => set_active (active w ++ take (Z.to_nat k) buffer) w) ;;;
      st_fail Io
  | None =>
      modify (fun w => set_active (active w ++ buffer) w) ;;;
      modify (fun w => set_end_offset (end_offset w + blen buffer) w) ;;;
      st_ret lsn
  end.

(** [log_page_image] (618-620). *)
Definition log_page_image (seal_io : bool) (write_io : option Z) (page tx : Z) (image : bytes) : wst Z :=
  append seal_io write_io PageImage page tx image.

(** [sync_through] (663-716) by the only thread: each turn of the loop syncs
    through [next_lsn - 1].  A caller asking beyond it would loop for ever, for
    which running out of [fuel] stands. *)
Fixpoint sync_through (fuel : nat) (sync_io : bool) (lsn : Z) : wst unit :=
  match fuel with
  | O => st_panic
  | S fuel' =>
      do w <- gets id ;;
      if lsn <=? durable_lsn w then st_ret tt
      else
        let target := sat_sub (next_lsn w) 1 in
        if sync_io then
          modify (fun w => set_durable (Z.max (durable_lsn w) target) w) ;;;
          sync_through fuel' sync_io lsn
        else st_fail Io
  end.

(** [commit] (625-639). *)
Definition wal_commit (seal_io : bool) (write_io : option Z) (sync_io : bool) (tx : Z) : wst Z :=
  do w <- gets id ;;
  let '(ok, ranges) := ranges_insert tx (committed_ranges w) in
  modify (set_committed ranges) ;;;
  if negb ok then st_fail InvalidMaintenanceLimits
  else
    do lsn <- append seal_io write_io Commit 0 tx [] ;;
    sync_through 2 sync_io lsn ;;;
    st_ret lsn.

(** [abort] (650-655). *)
Definition wal_abort (seal_io : bool) (write_io : option Z) (tx : Z) : wst Z :=
  do w <- gets id ;;
  if ranges_contains (committed_ranges w) tx then st_ret (sat_sub (next_lsn w) 1)
  else append seal_io write_io Abort 0 tx [].

(** [checkpoint] (731-745). *)
Definition wal_checkpoint (seal_io : bool) (write_io : option Z) (sync_io : bool) (redo root : Z) : wst Z :=
  do lsn <- append seal_io write_io Checkpoint root redo [] ;;
  sync_through 2 sync_io lsn ;;;
  modify (set_redo redo) ;;;
  st_ret lsn.

(** [sync] (719-722). *)
Definition wal_sync (sync_io : bool) : wst unit :=
  do w <- gets id ;;
  sync_through 2 sync_io (sat_sub (next_lsn w) 1).

(** ** Scanning *)

(** One turn of the loop of [scan_wal_file]: the record that starts at
    [valid], if it is complete, in sequence and intact, and its length. *)
Definition decode_record (max_body : Z) (file : bytes) (valid : Z) (expected : option Z) :
    option (WalRecord * Z) :=
  if sat_sub (blen file) valid <? RECORD_HEADER_BYTES then None
  else
    let header := sub file valid RECORD_HEADER_BYTES in
    if negb (bool_decide (sub header 0 4 = RECORD_MAGIC)) || negb (bool_decide (sub header 13 3 = [0; 0; 0]))
    then None
    else
      let lsn := u64_at header 4 in
      match kind_from_u8 (le_dec (sub header 12 1)) with
      | None => None
      | Some kind =>
          let body_len := u32_at header 16 in
          let checksum := u32_at header 20 in
          let rec_bytes := RECORD_HEADER_BYTES + body_len in
          if (body_len <? RECORD_FIXED_BODY_BYTES) || (max_body <? body_len)
             || (sat_sub (blen file) valid <? rec_bytes) || (lsn =? u64_max)
             || match expected with Some e => negb (lsn =? e) | None => false end
          then None
          else
            let body := sub file (valid + RECORD_HEADER_BYTES) body_len in
            if negb (crc32 (sub header 0 20 ++ body) =? checksum) then None
            else Some (mkRecord lsn kind (u64_at body 0) (u64_at body 8) (drop 16 body), rec_bytes)
      end.

Section Visit.
Context {V : Type}.
Variable visit : WalRecord -> st PageError V unit.

(** [scan_wal_file] (1006-1078): [valid] and [first] are its locals,
    [expected] and [scan] the caller's; at most one turn per byte. *)
Fixpoint scan_wal_file (fuel : nat) (max_body : Z) (file : bytes) (valid : Z) (first expected : option Z)
    (scan : WalScanReport) : st PageError V (Z * option Z * option Z * WalScanReport) :=
  match fuel with
  | O => st_ret (valid, first, expected, scan)
  | S fuel' =>
      match decode_record max_body file valid expected with
      | None => st_ret (valid, first, expected, scan)
      | Some (r, rec_bytes) =>
          visit r ;;;
          scan_wal_file fuel' max_body file (sat_add valid rec_bytes)
            (match first with Some l => Some l | None => Some (r_lsn r) end)
            (Some (r_lsn r + 1))
            (mkScan (sat_add (sc_records scan) 1) (sat_add (sc_valid_bytes scan) rec_bytes)
               (sc_truncated_bytes scan) (Z.max (sc_peak_record_bytes scan) rec_bytes) (Some (r_lsn r)))
      end
  end.

(** The sealed segments, ascending; one that does not decode to its end is
    corruption. *)
Fixpoint scan_sealed (max_body : Z) (files : gmap Z bytes) (names : list Z) (expected : option Z)
    (scan : WalScanReport) : st PageError V (option Z * WalScanReport) :=
  match names with
  | [] => st_ret (expected, scan)
  | sequence :: names' =>
      match files !! sequence with
      | None => st_fail Io
      | Some file =>
          do (valid, _, expected, scan) <-
            scan_wal_file (S (length file)) max_body file 0 None expected scan ;;
          if negb (valid =? blen file) then st_fail (WalCorruption (default 0 (sc_last_lsn scan)))
          else scan_sealed max_body files names' expected scan
      end
  end.

(** [scan_records] (837-919) on the log [w]: the report, the log after an
    optional truncation, and the visitor's state. *)
Definition scan_records (max_body : Z) (truncate : bool) (w : Wal) : st PageError V (WalScanReport * Wal) :=
  let max_body := Z.min max_body (MAX_WAL_RECORD_BYTES - RECORD_HEADER_BYTES) in
  do (expected, scan) <- scan_sealed max_body (segments w) (sealed w) None scan_default ;;
  do (active_valid, first, _, scan) <-
    scan_wal_file (S (length (active w))) max_body (active w) 0 None expected scan ;;
  let scan := mkScan (sc_records scan) (sc_valid_bytes scan) (sat_sub (blen (active w)) active_valid)
                (sc_peak_record_bytes scan) (sc_last_lsn scan) in
  if truncate then
    let w := if 0 <? sc_truncated_bytes scan
             then set_active (take (Z.to_nat active_valid) (active w)) w else w in
    let floor := next_lsn w in
    let next := match sc_last_lsn scan with Some l => Z.max (l + 1) floor | None => Z.max floor 1 end in
    let w := set_next_lsn next (set_end_offset active_valid w) in
    st_ret (scan, set_active_first (default next first) w)
  else st_ret (scan, w).
End Visit.

(** The body limit of the callers that accept every page size. *)
Definition MAX_BODY : Z := MAX_WAL_RECORD_BYTES - RECORD_HEADER_BYTES.

(** A visitor that collects. *)
Definition collect (r : WalRecord) : st PageError (list WalRecord) unit := modify (fun l => l ++ [r]).

(** [read_all] (757-775). *)
Definition read_all (w : Wal) : pres (list WalRecord * Z) :=
  let '(r, records) := scan_records collect MAX_BODY false w [] in
  let! (scan, _) := r in Val (records, sc_truncated_bytes scan).

(** [verify_integrity] (780-788). *)
Definition verify_integrity (w : Wal) : pres Z :=
  let '(r, _) := scan_records (fun _ => st_ret tt) MAX_BODY false w tt in
  let! (scan, _) := r in Val (sc_truncated_bytes scan).

(** [truncate_torn_tail] (922-926). *)
Definition truncate_torn_tail : wst Z :=
  fun w =>
    match scan_records (fun _ => st_ret tt) MAX_BODY true w tt with
    | (Val (scan, w'), _) => (Val (sc_truncated_bytes scan), w')
    | (Err e, _) => (Err e, w)
    | (Panic, _) => (Panic, w)
    end.

(** The decision a record makes, if it is terminal. *)
Definition decision (r : WalRecord) : option (Z * TxStatus) :=
  match r_kind r with
  | Commit => Some (r_tx r, Committed)
  | Abort => Some (r_tx r, Aborted)
  | _ => None
  end.

(** [transaction_outcomes] (1126-1147). *)
Definition transaction_outcomes (w : Wal) : pres (list (Z * TxStatus)) :=
  let visit r := match decision r with
                 | Some d => modify (fun l => l ++ [d])
                 | None => st_ret tt
                 end in
  let '(r, outcomes) := scan_records visit MAX_BODY false w [] in
  let! _ := r in Val outcomes.

(** [terminal_outcomes_in_range] (793-832). *)
Definition terminal_outcomes_in_range (start_xid end_xid : Z) (w : Wal) :
    pres (list (Z * TxStatus) * Z) :=
  if end_xid <=? start_xid then Err InvalidMaintenanceLimits
  else
    let visit r : st PageError (gmap Z TxStatus) unit :=
      match decision r with
      | None => st_ret tt
      | Some (x, s) =>
          if (x <? start_xid) || (end_xid <=? x) then st_ret tt
          else
            do m <- gets id ;;
            modify (fun m => <[x := s]> m) ;;;
            match m !! x with
            | Some previous =>
                if negb (bool_decide (previous = s)) then st_fail (WalCorruption (r_lsn r)) else st_ret tt
            | None => st_ret tt
            end
      end in
    let '(r, outcomes) := scan_records visit MAX_BODY false w ∅ in
    let! (scan, _) := r in Val (btree_iter outcomes, sc_truncated_bytes scan).
End Checksummed.

(** ** Reset *)

(** [file.set_len(0)] in [reset]. *)
Definition reset_truncate (w : Wal) : Wal := set_active [] w.

(** The loop of [reset] over the sealed names: files kept, names kept, bytes
    kept. *)
Fixpoint reset_sealed (retention : bool) (archived : Z) (files : gmap Z bytes) (names : list Z) :
    gmap Z bytes * list Z * Z :=
  match names with
  | [] => (files, [], 0)
  | sequence :: names' =>
      if retention && (archived <? sequence) then
        let '(files', kept, total) := reset_sealed retention archived files names' in
        (files', sequence :: kept, sat_add (default 0 (blen <$> files !! sequence)) total)
      else reset_sealed retention archived (base.delete sequence files) names'
  end.

(** [reset] (947-979): the truncation, once what has to be sealed is; the
    deletions succeed. *)
Definition reset_files : wst bool :=
  modify reset_truncate ;;;
  do w <- gets id ;;
  let '(files, kept, total) := reset_sealed (archive_retention w) (archived_through w) (segments w) (sealed w) in
  modify (set_sealed files kept total) ;;;
  modify (fun w => set_committed [] (set_durable (sat_sub (next_lsn w) 1)
                     (set_active_first (next_lsn w) (set_end_offset 0 w)))) ;;;
  st_ret (bool_decide (kept = [])).

(** [reset] (933-980). *)
Definition reset (seal_io : bool) : wst bool :=
  do w <- gets id ;;
  (if archive_retention w && (0 <? segment_bytes w) && (0 <? end_offset w)
   then seal_active_locked seal_io (end_offset w) else st_ret tt) ;;;
  reset_files.

(** [enable_archive_retention] (985-987). *)
Definition enable_archive_retention (w : Wal) : Wal :=
  mkWal (active w) (segments w) (segment_bytes w) (sealed w) (active_first_lsn w) (archived_through w)
    true (sealed_bytes w) (next_lsn w) (end_offset w) (durable_lsn w) (redo_lsn w) (committed_ranges w).

(** [mark_archived_through] (991-993). *)
Definition mark_archived_through (sequence : Z) (w : Wal) : Wal :=
  mkWal (active w) (segments w) (segment_bytes w) (sealed w) (active_first_lsn w)
    (Z.max (archived_through w) sequence) (archive_retention w) (sealed_bytes w) (next_lsn w)
    (end_offset w) (durable_lsn w) (redo_lsn w) (committed_ranges w).

(** [size_bytes] (996-1000). *)
Definition size_bytes (w : Wal) : Z := sat_add (sealed_bytes w) (end_offset w).
