(* ===== verification/WalScan.v ===== *)
(** * The write-ahead log: framing and scanning

    Decoding inverts the framing of [append]; a record cut short by a crash is
    never accepted, whatever the checksum; the scanner visits exactly the
    complete records and reports where they end. *)

From stdpp Require Import base tactics list numbers gmap sorting.
From Stdlib Require Import ZArith Lia.
From S2P Require Import Prelude Search Bytes Errors PageFormat Mvcc Ranges Wal.
Local Open Scope Z_scope.
Local Open Scope bic_scope.

Section Framing.
Variable crc32 : bytes -> Z.
Hypothesis Hcrc : forall l, is_u32 (crc32 l).

(** The bytes of a record, and of a run of records. *)
Definition enc (r : WalRecord) : bytes :=
  record_bytes crc32 (r_lsn r) (r_kind r) (record_body (r_page r) (r_tx r) (r_payload r)).
Definition encs (rs : list WalRecord) : bytes := mjoin (enc <$> rs).

(** A record whose fields fit and whose body the scanner accepts. *)
Definition rec_ok (max_body : Z) (r : WalRecord) : Prop :=
  0 <= r_lsn r < u64_max /\ is_u64 (r_page r) /\ is_u64 (r_tx r) /\
  16 + blen (r_payload r) <= max_body < U32.

Lemma blen_body page tx payload : blen (record_body page tx payload) = 16 + blen payload.
Proof. unfold record_body, blen. rewrite !length_app, !length_le_enc. lia. Qed.

Lemma blen_head lsn kind body : blen (record_head lsn kind body) = 20.
Proof. done. Qed.

Lemma blen_enc r : blen (enc r) = 40 + blen (r_payload r).
Proof.
  unfold enc, record_bytes. rewrite !blen_app, blen_head, blen_body, blen_le_enc. lia.
Qed.

Lemma encs_cons r rs : encs (r :: rs) = enc r ++ encs rs.
Proof. done. Qed.

Lemma encs_app rs1 rs2 : encs (rs1 ++ rs2) = encs rs1 ++ encs rs2.
Proof. unfold encs. by rewrite fmap_app, join_app. Qed.

(** ** One record *)

Section Header.
Context (lsn : Z) (kind : RecordKind) (body : bytes) (c : Z).
Hypothesis Hlsn : is_u64 lsn.
Hypothesis Hbody : blen body < U32.
Hypothesis Hc : is_u32 c.

Definition header : bytes := record_head lsn kind body ++ le_enc 4 c.

Lemma rec_header_fields :
  blen header = 24 /\ sub header 0 4 = RECORD_MAGIC /\ sub header 13 3 = [0; 0; 0] /\
  u64_at header 4 = lsn /\ kind_from_u8 (le_dec (sub header 12 1)) = Some kind /\
  u32_at header 16 = blen body /\ u32_at header 20 = c /\ sub header 0 20 = record_head lsn kind body.
Proof.
  unfold header, u64_at, u32_at. pose proof (blen_nonneg body).
  change (sub (record_head lsn kind body ++ le_enc 4 c) 4 8) with (le_enc 8 lsn).
  change (sub (record_head lsn kind body ++ le_enc 4 c) 16 4) with (le_enc 4 (blen body)).
  change (sub (record_head lsn kind body ++ le_enc 4 c) 20 4) with (le_enc 4 c).
  change (sub (record_head lsn kind body ++ le_enc 4 c) 12 1) with [kind_u8 kind].
  rewrite !le_dec_enc. change (2 ^ (8 * Z.of_nat 8)) with U64. change (2 ^ (8 * Z.of_nat 4)) with U32.
  rewrite !Z.mod_small by (widths; lia). ands; try done. by destruct kind.
Qed.
End Header.

Lemma enc_split r (body := record_body (r_page r) (r_tx r) (r_payload r)) :
  enc r = header (r_lsn r) (r_kind r) body (crc32 (record_head (r_lsn r) (r_kind r) body ++ body)) ++ body.
Proof. unfold enc, record_bytes, header. by rewrite <- app_assoc. Qed.

Definition expects (expected : option Z) (lsn : Z) : Prop :=
  match expected with Some e => lsn = e | None => True end.

(** A complete record in sequence is decoded as it was framed. *)
Lemma decode_enc max_body pre r suf expected :
  rec_ok max_body r -> expects expected (r_lsn r) ->
  decode_record crc32 max_body (pre ++ enc r ++ suf) (blen pre) expected = Some (r, blen (enc r)).
Proof.
  intros (Hl&Hp&Ht&Hb) He. rewrite blen_enc, enc_split.
  set (body := record_body _ _ _). set (c := crc32 _).
  assert (Hbl : blen body = 16 + blen (r_payload r)) by apply blen_body.
  pose proof (blen_nonneg pre). pose proof (blen_nonneg suf). pose proof (blen_nonneg (r_payload r)).
  destruct (rec_header_fields (r_lsn r) (r_kind r) body c) as (H24&F1&F2&F3&F4&F5&F6&F7);
    [widths; lia|lia|apply Hcrc|].
  set (h := header _ _ _ _) in *. rewrite <- app_assoc.
  assert (Hlen : blen (pre ++ h ++ body ++ suf) = blen pre + 24 + blen body + blen suf)
    by (rewrite !blen_app; lia).
  assert (Hh : sub (pre ++ h ++ body ++ suf) (blen pre) RECORD_HEADER_BYTES = h) by (apply sub_mid; done).
  assert (Hbd : sub (pre ++ h ++ body ++ suf) (blen pre + RECORD_HEADER_BYTES) (blen body) = body).
  { rewrite app_assoc. replace (blen pre + RECORD_HEADER_BYTES) with (blen (pre ++ h)) by (rewrite blen_app; done).
    by apply sub_mid. }
  unfold decode_record. rewrite Hlen, Hh, F1, F2, F3, F4, F5, F6, F7, Hbd.
  unfold sat_sub, RECORD_HEADER_BYTES, RECORD_FIXED_BODY_BYTES.
  rewrite !bool_decide_eq_true_2 by done. cbn [negb orb].
  assert (Hex : match expected with Some e => negb (r_lsn r =? e) | None => false end = false).
  { destruct expected; [|done]. cbn in He. subst. by rewrite Z.eqb_refl. }
  rewrite Hex, !(proj2 (Z.ltb_ge _ _)), (proj2 (Z.eqb_neq _ _)) by lia. cbn [orb].
  unfold c. rewrite Z.eqb_refl. cbn [negb]. do 2 f_equal; [|lia].
  unfold body, record_body, u64_at.
  change (sub (le_enc 8 (r_page r) ++ le_enc 8 (r_tx r) ++ r_payload r) 0 8) with (le_enc 8 (r_page r)).
  change (sub (le_enc 8 (r_page r) ++ le_enc 8 (r_tx r) ++ r_payload r) 8 8) with (le_enc 8 (r_tx r)).
  rewrite !le_dec_enc. change (2 ^ (8 * Z.of_nat 8)) with U64. rewrite !Z.mod_small by done.
  by destruct r.
Qed.

(** A record cut short is not a record. *)
Lemma decode_torn max_body pre r (k : nat) expected :
  rec_ok max_body r -> Z.of_nat k < blen (enc r) ->
  decode_record crc32 max_body (pre ++ take k (enc r)) (blen pre) expected = None.
Proof.
  intros (Hl&Hp&Ht&Hb) Hk. pose proof (blen_nonneg pre). pose proof (blen_nonneg (r_payload r)).
  assert (Hlt : blen (take k (enc r)) = Z.of_nat k) by (unfold blen in *; rewrite length_take; lia).
  unfold decode_record. rewrite blen_app, Hlt. unfold sat_sub, RECORD_HEADER_BYTES.
  destruct (Z.ltb_spec (Z.max 0 (blen pre + Z.of_nat k - blen pre)) (4 + 8 + 1 + 3 + 4 + 4)) as [_|Hge]; [done|].
  rewrite blen_enc in Hk. rewrite enc_split.
  set (body := record_body _ _ _). set (c := crc32 _).
  assert (Hbl : blen body = 16 + blen (r_payload r)) by apply blen_body.
  destruct (rec_header_fields (r_lsn r) (r_kind r) body c) as (H24&F1&F2&F3&F4&F5&F6&F7);
    [widths; lia|lia|apply Hcrc|].
  set (h := header _ _ _ _) in *.
  assert (Hh : sub (pre ++ take k (h ++ body)) (blen pre) (4 + 8 + 1 + 3 + 4 + 4) = h).
  { rewrite take_app_ge by (unfold blen in H24; lia). by apply sub_mid. }
  rewrite Hh, F1, F2, F3, F4, F5. rewrite !bool_decide_eq_true_2 by done. cbn [negb orb].
  rewrite (proj2 (Z.ltb_lt (Z.max 0 _) _)) by lia. by rewrite !orb_true_r.
Qed.

Lemma decode_end max_body file expected :
  decode_record crc32 max_body file (blen file) expected = None.
Proof.
  unfold decode_record, sat_sub. rewrite Z.sub_diag. done.
Qed.
(** ** Runs of records *)

(** Consecutive LSNs from [l]. *)
Fixpoint chain (l : Z) (rs : list WalRecord) : Prop :=
  match rs with [] => True | r :: rs' => r_lsn r = l /\ chain (l + 1) rs' end.

Lemma chain_app l rs1 rs2 : chain l (rs1 ++ rs2) <-> chain l rs1 /\ chain (l + Z.of_nat (length rs1)) rs2.
Proof.
  revert l. induction rs1 as [|r rs1 IH]; intros l; cbn [app chain].
  - cbn. rewrite Z.add_0_r. naive_solver.
  - rewrite IH. cbn [length].
    replace (l + Z.of_nat (S (length rs1))) with (l + 1 + Z.of_nat (length rs1)) by lia. naive_solver.
Qed.

Lemma chain_lookup l rs k r : chain l rs -> rs !! k = Some r -> r_lsn r = l + Z.of_nat k.
Proof.
  revert l k. induction rs as [|r' rs IH]; intros l k; cbn; [done|].
  intros [H1 H2] H. destruct k; cbn in H; [|specialize (IH _ _ H2 H)]; simplify_eq; lia.
Qed.

(** What the scanner's report and locals become over a run of records. *)
Fixpoint scan_after (scan : WalScanReport) (rs : list WalRecord) : WalScanReport :=
  match rs with
  | [] => scan
  | r :: rs' =>
      let n := blen (enc r) in
      scan_after (mkScan (sat_add (sc_records scan) 1) (sat_add (sc_valid_bytes scan) n)
                    (sc_truncated_bytes scan) (Z.max (sc_peak_record_bytes scan) n) (Some (r_lsn r))) rs'
  end.

Definition expected_after (expected : option Z) (rs : list WalRecord) : option Z :=
  match last rs with Some r => Some (r_lsn r + 1) | None => expected end.
Definition first_after (first : option Z) (rs : list WalRecord) : option Z :=
  match first with Some l => Some l | None => r_lsn <$> head rs end.

Lemma scan_after_app scan rs1 rs2 : scan_after scan (rs1 ++ rs2) = scan_after (scan_after scan rs1) rs2.
Proof. revert scan. induction rs1 as [|r rs1 IH]; intros scan; [done|]. apply IH. Qed.

Lemma expected_after_app expected rs1 rs2 :
  expected_after (expected_after expected rs1) rs2 = expected_after expected (rs1 ++ rs2).
Proof. unfold expected_after. rewrite last_app. by destruct (last rs2). Qed.

Lemma expects_after expected l rs :
  chain l rs -> expects expected l -> expects (expected_after expected rs) (l + Z.of_nat (length rs)).
Proof.
  intros Hc He. unfold expected_after. destruct (last rs) as [r|] eqn:El.
  - assert (Hne : rs <> []) by (intros ->; done).
    rewrite last_lookup in El. apply (chain_lookup l) in El; [|done]. unfold expects.
    destruct rs; [done|]. cbn [length pred] in *. lia.
  - apply last_None in El as ->. cbn [length]. by rewrite Z.add_0_r.
Qed.

Lemma scan_after_last scan rs :
  sc_last_lsn (scan_after scan rs) = match last rs with Some r => Some (r_lsn r) | None => sc_last_lsn scan end.
Proof.
  revert scan. induction rs as [|r rs IH]; intros scan; [done|]. cbn [scan_after]. rewrite IH.
  rewrite last_cons. by destruct (last rs).
Qed.

Lemma scan_after_truncated scan rs : sc_truncated_bytes (scan_after scan rs) = sc_truncated_bytes scan.
Proof. revert scan. induction rs as [|r rs IH]; intros scan; [done|]. cbn [scan_after]. by rewrite IH. Qed.

Lemma length_encs rs : (length rs <= length (encs rs))%nat.
Proof.
  induction rs as [|r rs IH]; [done|]. rewrite encs_cons, length_app. cbn.
  pose proof (blen_enc r). pose proof (blen_nonneg (r_payload r)). unfold blen in *. lia.
Qed.

Section Scanning.
Context {V : Type}.
Variable visit : WalRecord -> st PageError V unit.

(** The visitor run over a list. *)
Fixpoint visits (rs : list WalRecord) : st PageError V unit :=
  match rs with [] => st_ret tt | r :: rs' => visit r ;;; visits rs' end.

Lemma visits_app rs1 rs2 v : visits (rs1 ++ rs2) v = (visits rs1 ;;; visits rs2) v.
Proof.
  revert v. induction rs1 as [|r rs1 IH]; intros v; [done|]. cbn [app visits].
  unfold st_bind. destruct (visit r v) as [[| |] v']; [|done..]. apply IH.
Qed.

(** The scanner visits a run of records in order and stops where nothing
    decodes; one unit of fuel per record is enough. *)
Lemma scan_file_run max_body rs : forall pre rest l fuel first expected scan v,
  Forall (rec_ok max_body) rs -> chain l rs -> (rs = [] \/ expects expected l) ->
  blen (pre ++ encs rs ++ rest) <= u64_max -> (length rs < fuel)%nat ->
  decode_record crc32 max_body (pre ++ encs rs ++ rest) (blen (pre ++ encs rs)) (expected_after expected rs) = None ->
  scan_wal_file crc32 visit fuel max_body (pre ++ encs rs ++ rest) (blen pre) first expected scan v =
  (visits rs ;;; st_ret (blen (pre ++ encs rs), first_after first rs, expected_after expected rs,
                         scan_after scan rs)) v.
Proof.
  induction rs as [|r rs IH]; intros pre rest l fuel first expected scan v Hok Hch Hexp Hlen Hfuel Hend.
  - destruct fuel as [|fuel]; [cbn in Hfuel; lia|]. change (encs []) with (@nil Z) in *.
    rewrite app_nil_r in *. cbn [app scan_wal_file] in *. change (expected_after expected []) with expected in *.
    rewrite Hend. by destruct first.
  - destruct fuel as [|fuel]; [cbn in Hfuel; lia|]. cbn [length] in Hfuel.
    apply Forall_cons_1 in Hok as [Hr Hok]. destruct Hch as [Hl Hch]. destruct Hexp as [|Hexp]; [done|].
    rewrite encs_cons in *. cbn [scan_wal_file visits].
    rewrite <- app_assoc. rewrite decode_enc by (try done; by rewrite Hl).
    unfold st_bind at 1 2 3. destruct (visit r v) as [[[]| |] v']; [|done..].
    rewrite !app_assoc in *. rewrite <- (app_assoc _ (encs rs) rest) in *.
    replace (sat_add (blen pre) (blen (enc r))) with (blen (pre ++ enc r)).
    2: { unfold sat_add. rewrite !blen_app in Hlen. rewrite blen_app.
         pose proof (blen_nonneg (encs rs)). pose proof (blen_nonneg rest). lia. }
    assert (Hea : expected_after (Some (r_lsn r + 1)) rs = expected_after expected (r :: rs)).
    { unfold expected_after. rewrite last_cons. by destruct (last rs). }
    rewrite (IH (pre ++ enc r) rest (l + 1)); [|done|done| |done|lia|by rewrite Hea].
    2: { destruct rs; [by left|right]. cbn in *. lia. }
    rewrite Hea. unfold st_bind. destruct (visits rs v') as [[[]| |] v'']; [|done..].
    cbn. do 3 f_equal. f_equal. f_equal. by destruct first.
Qed.
End Scanning.
End Framing.
