(* ===== verification/WalLog.v ===== *)
(** * The write-ahead log as a list of records

    The invariant that ties the bytes of the sealed segments and of the active
    file to one contiguous list of records, what every scan returns on such a
    log, and what appending, sealing and reopening after a crash do to it. *)

From stdpp Require Import base tactics list numbers gmap sorting.
From Stdlib Require Import ZArith Lia.
From S2P Require Import Prelude Search Bytes Errors PageFormat Mvcc Ranges Wal WalScan.
Local Open Scope Z_scope.
Local Open Scope bic_scope.

Section Log.
Variable crc32 : bytes -> Z.
Hypothesis Hcrc : forall l, is_u32 (crc32 l).

Abbreviation enc := (enc crc32).
Abbreviation encs := (encs crc32).
Abbreviation ok := (rec_ok MAX_BODY).

(** A sealed file holds one nonempty run of records and is named after the
    first. *)
Definition sealed_file (files : gmap Z bytes) (name : Z) (rs : list WalRecord) : Prop :=
  files !! name = Some (encs rs) /\ r_lsn <$> head rs = Some name /\ blen (encs rs) <= u64_max.

(** Files that hold the records of [rss] sealed and [ra] active, numbered from
    [l0], followed by [torn] bytes. *)
Record disk_log (files : gmap Z bytes) (names : list Z) (file : bytes) (l0 : Z)
    (rss : list (list WalRecord)) (ra : list WalRecord) (torn : bytes) : Prop := {
  dl_sealed : Forall2 (sealed_file files) names rss;
  dl_dom : forall n, is_Some (files !! n) -> n ∈ names;
  dl_active : file = encs ra ++ torn;
  dl_size : blen file <= u64_max;
  dl_chain : chain l0 (concat rss ++ ra);
  dl_ok : Forall ok (concat rss ++ ra)
}.

(** An open log in step with its files. *)
Record live (w : Wal) (l0 : Z) (rss : list (list WalRecord)) (ra : list WalRecord) : Prop := {
  lv_disk : disk_log (segments w) (sealed w) (active w) l0 rss ra [];
  lv_first : 1 <= l0;
  lv_next : next_lsn w = l0 + Z.of_nat (length (concat rss ++ ra));
  lv_end : end_offset w = blen (active w);
  lv_active_first : active_first_lsn w = l0 + Z.of_nat (length (concat rss))
}.

(** ** Scanning *)

Section Scan.
Context {V : Type}.
Variable visit : WalRecord -> st PageError V unit.

Lemma scan_sealed_run mb files rss : forall names l expected scan v,
  Forall2 (sealed_file files) names rss -> chain l (concat rss) -> Forall (rec_ok mb) (concat rss) ->
  (rss = [] \/ expects expected l) ->
  scan_sealed crc32 visit mb files names expected scan v =
  (visits visit (concat rss) ;;;
   st_ret (expected_after expected (concat rss), scan_after crc32 scan (concat rss))) v.
Proof.
  induction rss as [|rs rss IH]; intros names l expected scan v HF Hch Hok He.
  - by apply Forall2_nil_inv_r in HF as ->.
  - apply Forall2_cons_inv_r in HF as (name & names' & (Hf & Hhd & Hsz) & HF & ->).
    destruct He as [|He]; [done|].
    cbn [concat scan_sealed] in *. apply chain_app in Hch as [Hc1 Hc2]. apply Forall_app in Hok as [Ho1 Ho2].
    rewrite Hf.
    pose proof (scan_file_run crc32 Hcrc visit mb rs [] [] l (S (length (encs rs))) None expected scan v
      Ho1 Hc1 (or_intror He)) as Hrun.
    cbn [app] in Hrun. rewrite app_nil_r in Hrun. change (blen []) with 0 in Hrun.
    unfold st_bind at 1. rewrite Hrun; [|done|pose proof (length_encs crc32 rs); lia|apply decode_end].
    unfold st_bind. rewrite visits_app. unfold st_bind.
    destruct (visits visit rs v) as [[[]| |] v']; [|done..]. cbn.
    rewrite Z.eqb_refl. cbn [negb].
    rewrite (IH _ _ _ _ _ HF Hc2 Ho2).
    + rewrite expected_after_app, <- scan_after_app. done.
    + right. by apply expects_after.
Qed.

(** The report of a scan of a whole log. *)
Definition report (rs : list WalRecord) (torn : Z) : WalScanReport :=
  let s := scan_after crc32 scan_default rs in
  mkScan (sc_records s) (sc_valid_bytes s) torn (sc_peak_record_bytes s) (sc_last_lsn s).

(** A log reopened: what truncation leaves. *)
Definition truncated (w : Wal) (rss : list (list WalRecord)) (ra : list WalRecord) : Wal :=
  let next := match last (concat rss ++ ra) with
              | Some r => Z.max (r_lsn r + 1) (next_lsn w)
              | None => Z.max (next_lsn w) 1
              end in
  set_active_first (default next (r_lsn <$> head ra))
    (set_next_lsn next (set_end_offset (blen (encs ra)) (set_active (encs ra) w))).

(** Nothing decodes after the last record. *)
Definition dead_end (ra : list WalRecord) (torn : bytes) : Prop :=
  forall expected, decode_record crc32 MAX_BODY (encs ra ++ torn) (blen (encs ra)) expected = None.

(** A tighter limit on the body refuses more. *)
Lemma decode_tighter mb file off expected :
  mb <= MAX_BODY -> decode_record crc32 MAX_BODY file off expected = None ->
  decode_record crc32 mb file off expected = None.
Proof.
  intros Hmb. unfold decode_record. split_if; [done|]. set (h := sub file off RECORD_HEADER_BYTES).
  destruct (negb _ || negb _); [done|]. destruct (kind_from_u8 _); [|done].
  destruct (MAX_BODY <? u32_at h 16) eqn:E1, (mb <? u32_at h 16) eqn:E2; bools; rewrite ?orb_true_r; try done; try lia.
Qed.

(** A scan with a limit that admits every record of the log. *)
Lemma scan_records_upto mb w l0 rss ra torn b v :
  mb <= MAX_BODY -> Forall (rec_ok mb) (concat rss ++ ra) ->
  disk_log (segments w) (sealed w) (active w) l0 rss ra torn -> dead_end ra torn ->
  scan_records crc32 visit mb b w v =
  (visits visit (concat rss ++ ra) ;;;
   st_ret (report (concat rss ++ ra) (blen torn), if b then truncated w rss ra else w)) v.
Proof.
  intros Hmb Hok D Hend. pose proof (dl_chain _ _ _ _ _ _ _ D) as Hch.
  apply chain_app in Hch as [Hc1 Hc2]. apply Forall_app in Hok as [Ho1 Ho2].
  unfold scan_records, st_bind. rewrite Z.min_l by exact Hmb.
  rewrite (scan_sealed_run mb _ rss _ l0 _ _ _ (dl_sealed _ _ _ _ _ _ _ D)) by (try done; by right).
  rewrite visits_app. unfold st_bind.
  destruct (visits visit (concat rss) v) as [[[]| |] v']; [|done..]. cbn [st_ret].
  pose proof (dl_active _ _ _ _ _ _ _ D) as Ha. pose proof (dl_size _ _ _ _ _ _ _ D) as Hsz. rewrite Ha in *.
  pose proof (scan_file_run crc32 Hcrc visit mb ra [] torn (l0 + Z.of_nat (length (concat rss)))
    (S (length (encs ra ++ torn))) None (expected_after None (concat rss))
    (scan_after crc32 scan_default (concat rss)) v' Ho2 Hc2) as Hrun.
  cbn [app] in Hrun. change (blen []) with 0 in Hrun.
  rewrite Hrun; [| |done|rewrite length_app; pose proof (length_encs crc32 ra); lia|apply decode_tighter; [done|apply Hend]].
  2: { right. by apply expects_after. }
  unfold st_bind. destruct (visits visit ra v') as [[[]| |] v'']; [|done..]. cbn [st_ret fst snd].
  rewrite <- scan_after_app. unfold report, truncated, first_after.
  assert (Hs : sat_sub (blen (encs ra ++ torn)) (blen (encs ra)) = blen torn).
  { unfold sat_sub. rewrite blen_app. pose proof (blen_nonneg torn). lia. }
  rewrite Hs. destruct b; [|done]. do 3 f_equal. cbn [sc_truncated_bytes sc_last_lsn].
  rewrite scan_after_last. cbn [sc_last_lsn scan_default].
  assert (Hact : (if 0 <? blen torn then set_active (take (Z.to_nat (blen (encs ra))) (encs ra ++ torn)) w else w)
                 = set_active (encs ra) w).
  { destruct (Z.ltb_spec 0 (blen torn)).
    - by rewrite take_app_length' by (unfold blen; lia).
    - destruct torn; [|unfold blen in *; cbn in *; lia]. rewrite app_nil_r in Ha. rewrite <- Ha. by destruct w. }
  rewrite Hact. by destruct (last (concat rss ++ ra)).
Qed.

Lemma scan_records_run w l0 rss ra torn b v :
  disk_log (segments w) (sealed w) (active w) l0 rss ra torn -> dead_end ra torn ->
  scan_records crc32 visit MAX_BODY b w v =
  (visits visit (concat rss ++ ra) ;;;
   st_ret (report (concat rss ++ ra) (blen torn), if b then truncated w rss ra else w)) v.
Proof. intros D. apply (scan_records_upto MAX_BODY w l0); [done|exact (dl_ok _ _ _ _ _ _ _ D)|done]. Qed.
End Scan.
(** ** Appending *)

Ltac wcbn :=
  cbn [active segments segment_bytes sealed active_first_lsn sealed_bytes next_lsn end_offset durable_lsn
       committed_ranges set_active set_next_lsn set_end_offset set_active_first set_durable set_redo
       set_committed set_sealed].

Lemma sealed_names_range files names rss l :
  Forall2 (sealed_file files) names rss -> chain l (concat rss) ->
  Forall (fun n => l <= n < l + Z.of_nat (length (concat rss))) names /\ StronglySorted Z.lt names.
Proof.
  intros HF. revert l. induction HF as [|name rs names rss (_ & Hhd & _) HF IH]; intros l Hc.
  - split; constructor.
  - cbn [concat] in *. apply chain_app in Hc as [H1 H2]. destruct (IH _ H2) as [Hr Hs].
    destruct rs as [|r rs]; [done|]. cbn [head fmap option_fmap option_map] in Hhd. simplify_eq.
    destruct H1 as [H1 _]. rewrite length_app. cbn [length] in *.
    assert (Hlt : Forall (fun n => r_lsn r + 1 <= n) names)
      by (eapply Forall_impl; [exact Hr|]; cbn; lia).
    split; constructor; [lia| |done|].
    + eapply Forall_impl; [exact Hr|]. cbn. lia.
    + eapply Forall_impl; [exact Hlt|]. cbn. lia.
Qed.

Lemma lt_sorted_le_nodup (l : list Z) : StronglySorted Z.lt l -> StronglySorted Z.le l /\ NoDup l.
Proof.
  induction 1 as [|x l Hs [H1 H2] Hx]; split; constructor; try done.
  - eapply Forall_impl; [exact Hx|]. intros; lia.
  - rewrite Forall_forall in Hx. intros Hin. specialize (Hx _ Hin). lia.
Qed.

(** What the file system shows at [open] is the sealed list, in order. *)
Lemma discover_names files names rss l :
  Forall2 (sealed_file files) names rss -> chain l (concat rss) ->
  (forall n, is_Some (files !! n) -> n ∈ names) ->
  fst (discover_sealed_segments files) = names.
Proof.
  intros HF Hc Hd. destruct (sealed_names_range _ _ _ _ HF Hc) as [_ [Hle Hnd]%lt_sorted_le_nodup].
  cbn [discover_sealed_segments fst].
  assert (Hp : sort_by Z.leb (map_to_list files).*1 ≡ₚ names).
  { rewrite sort_by_perm. apply NoDup_Permutation.
    - apply NoDup_fst_map_to_list.
    - done.
    - intros n. split; intros Hn.
      + apply Hd. apply list_elem_of_fmap in Hn as ([k b] & -> & Hn).
        apply elem_of_map_to_list in Hn. by exists b.
      + apply list_elem_of_lookup_1 in Hn as [k Hk].
        destruct (Forall2_lookup_l _ _ _ _ _ HF Hk) as (rs & _ & Hf & _).
        apply list_elem_of_fmap. exists (n, encs rs). split; [done|]. by apply elem_of_map_to_list. }
  eapply (StronglySorted_unique Z.le); [| |exact Hp].
  - assert (Hs : StronglySorted (rel_of Z.leb) (sort_by Z.leb (map_to_list files).*1))
      by (apply sort_by_sorted; intros *; rewrite !Z.leb_le; lia).
    clear Hp. induction Hs as [|x xs Hs IH Hx]; constructor; [done|].
    eapply Forall_impl; [exact Hx|]. intros y. apply Z.leb_le.
  - done.
Qed.

(** The state after sealing. *)
Definition sealed_state (w : Wal) : Wal :=
  set_end_offset 0 (set_active_first (next_lsn w) (set_active []
    (set_sealed (<[active_first_lsn w := active w]> (segments w)) (sealed w ++ [active_first_lsn w])
       (sealed_bytes w + end_offset w) w))).

Lemma live_nonempty w l0 rss ra : live w l0 rss ra -> 0 < end_offset w -> ra <> [].
Proof.
  intros L Hp ->. rewrite (lv_end _ _ _ _ L), (dl_active _ _ _ _ _ _ _ (lv_disk _ _ _ _ L)) in Hp. done.
Qed.

Lemma sealed_files_insert (P : Z -> Prop) files names rss n b :
  Forall P names -> ~ P n -> Forall2 (sealed_file files) names rss ->
  Forall2 (sealed_file (<[n := b]> files)) names rss.
Proof.
  intros HP Hn HF. induction HF as [|name rs names rss (Hf & Hrest) HF IH]; constructor.
  - apply Forall_cons_1 in HP as [HP _]. split; [|done].
    rewrite lookup_insert_ne; [done|]. by intros <-.
  - apply IH. by apply Forall_cons_1 in HP as [_ HP].
Qed.

Lemma live_seal w l0 rss ra :
  live w l0 rss ra -> ra <> [] -> live (sealed_state w) l0 (rss ++ [ra]) [].
Proof.
  intros L Hne. pose proof (lv_disk _ _ _ _ L) as D.
  assert (Hcat : concat (rss ++ [ra]) = concat rss ++ ra) by (by rewrite concat_app; cbn; rewrite app_nil_r).
  pose proof (dl_chain _ _ _ _ _ _ _ D) as Hch. apply chain_app in Hch as [Hc1 Hc2].
  destruct (sealed_names_range _ _ _ _ (dl_sealed _ _ _ _ _ _ _ D) Hc1) as [Hr _].
  pose proof (dl_active _ _ _ _ _ _ _ D) as Ha. rewrite app_nil_r in Ha.
  split; cbn.
  - split; cbn.
    + apply Forall2_app; [|constructor; [|constructor]].
      * rewrite (lv_active_first _ _ _ _ L). apply sealed_files_insert with (1 := Hr).
        -- lia.
        -- exact (dl_sealed _ _ _ _ _ _ _ D).
      * split; [|split].
        -- by rewrite lookup_insert_eq, Ha.
        -- rewrite (lv_active_first _ _ _ _ L). destruct ra; [done|]. destruct Hc2 as [H2 _].
           cbn [head fmap option_fmap option_map]. by rewrite H2.
        -- rewrite <- Ha. exact (dl_size _ _ _ _ _ _ _ D).
    + intros n Hn. apply elem_of_app. destruct (decide (n = active_first_lsn w)) as [->|Hd].
      * right. apply list_elem_of_singleton. done.
      * left. rewrite lookup_insert_ne in Hn by done. by apply (dl_dom _ _ _ _ _ _ _ D).
    + done.
    + done.
    + rewrite app_nil_r, Hcat. exact (dl_chain _ _ _ _ _ _ _ D).
    + rewrite app_nil_r, Hcat. exact (dl_ok _ _ _ _ _ _ _ D).
  - exact (lv_first _ _ _ _ L).
  - rewrite app_nil_r, Hcat. exact (lv_next _ _ _ _ L).
  - done.
  - rewrite Hcat. exact (lv_next _ _ _ _ L).
Qed.

(** The record an append makes. *)
Definition new_record (w : Wal) (kind : RecordKind) (page tx : Z) (payload : bytes) : WalRecord :=
  mkRecord (next_lsn w) kind page tx payload.

(** The state after the write. *)
Definition pushed (r : WalRecord) (w : Wal) : Wal :=
  set_end_offset (end_offset w + blen (enc r))
    (set_active (active w ++ enc r) (set_next_lsn ((next_lsn w + 1) mod U64) w)).

Lemma live_push w l0 rss ra r :
  live w l0 rss ra -> ok r -> r_lsn r = next_lsn w -> blen (active w) + blen (enc r) <= u64_max ->
  live (pushed r w) l0 rss (ra ++ [r]).
Proof.
  intros L Hr Hl Hsz. pose proof (lv_disk _ _ _ _ L) as D.
  pose proof (dl_active _ _ _ _ _ _ _ D) as Ha. rewrite app_nil_r in Ha.
  unfold pushed. split; wcbn.
  - split.
    + exact (dl_sealed _ _ _ _ _ _ _ D).
    + exact (dl_dom _ _ _ _ _ _ _ D).
    + rewrite encs_app, Ha, !app_nil_r. unfold WalScan.encs at 3. cbn. by rewrite app_nil_r.
    + rewrite blen_app. lia.
    + rewrite app_assoc. apply chain_app. split; [exact (dl_chain _ _ _ _ _ _ _ D)|].
      rewrite <- (lv_next _ _ _ _ L). done.
    + rewrite app_assoc. apply Forall_app. split; [exact (dl_ok _ _ _ _ _ _ _ D)|]. by constructor.
  - exact (lv_first _ _ _ _ L).
  - destruct Hr as [Hr _]. rewrite Z.mod_small by (widths; lia).
    rewrite app_assoc, length_app, (lv_next _ _ _ _ L). cbn. lia.
  - rewrite blen_app, (lv_end _ _ _ _ L). done.
  - exact (lv_active_first _ _ _ _ L).
Qed.

Definition needs_seal (w : Wal) (payload : bytes) : bool :=
  (0 <? segment_bytes w) && (0 <? end_offset w) &&
  (segment_bytes w <? sat_add (end_offset w) (40 + blen payload)).

Lemma append_eq w seal_io kind page tx payload (r := new_record w kind page tx payload) :
  append crc32 seal_io None kind page tx payload w =
  if needs_seal w payload
  then if seal_io then (Val (next_lsn w), pushed r (sealed_state w)) else (Err Io, w)
  else (Val (next_lsn w), pushed r w).
Proof.
  unfold append, needs_seal. rewrite blen_body.
  replace (RECORD_HEADER_BYTES + (16 + blen payload)) with (40 + blen payload) by (unfold RECORD_HEADER_BYTES; lia).
  unfold st_bind, gets, modify, id. cbv beta iota.
  destruct ((0 <? segment_bytes w) && (0 <? end_offset w) && _); [|done].
  by destruct seal_io.
Qed.

(** The state and the layout after an append that reaches the file. *)
Definition appended (w : Wal) (rss : list (list WalRecord)) (ra : list WalRecord) (r : WalRecord) :
    Wal * list (list WalRecord) * list WalRecord :=
  if needs_seal w (r_payload r) then (pushed r (sealed_state w), rss ++ [ra], [r])
  else (pushed r w, rss, ra ++ [r]).

Lemma live_appended w l0 rss ra kind page tx payload (r := new_record w kind page tx payload) :
  live w l0 rss ra -> ok r -> blen (active w) + 40 + blen payload <= u64_max ->
  let '(w', rss', ra') := appended w rss ra r in
  live w' l0 rss' ra' /\ concat rss' ++ ra' = (concat rss ++ ra) ++ [r] /\
  blen (active w') <= blen (active w) + 40 + blen payload.
Proof.
  intros L Hr Hsz. unfold appended. pose proof (blen_enc crc32 r) as He. change (r_payload r) with payload in *.
  pose proof (blen_nonneg (active w)). pose proof (blen_nonneg payload).
  destruct (needs_seal w payload) eqn:En.
  - assert (Hne : ra <> []).
    { apply (live_nonempty w l0 rss); [done|]. unfold needs_seal in En. bools. lia. }
    ands.
    + apply (live_push _ _ _ []); [by apply live_seal|done|done|].
      cbn [active sealed_state set_active set_end_offset set_active_first].
      change (blen []) with 0. lia.
    + rewrite concat_app. cbn [concat]. by rewrite app_nil_r.
    + unfold pushed, sealed_state. wcbn. rewrite blen_app. change (blen []) with 0. lia.
  - ands.
    + apply live_push; [done|done|done|lia].
    + by rewrite app_assoc.
    + unfold pushed. wcbn. rewrite blen_app. lia.
Qed.

(** ** Reopening after a crash *)

Lemma dead_end_nil ra : dead_end ra [].
Proof. intros e. rewrite app_nil_r. apply decode_end. Qed.

Lemma dead_end_torn ra r k : ok r -> Z.of_nat k < blen (enc r) -> dead_end ra (take k (enc r)).
Proof. intros Hr Hk e. by apply decode_torn. Qed.

(** Any prefix of a run of records is some of the records and a dead end. *)
Lemma prefix_of_records ra k :
  Forall ok ra ->
  exists j torn, take k (encs ra) = encs (take j ra) ++ torn /\ (forall ra', dead_end ra' torn) /\
    (forall i, (length (encs (take i ra)) <= k)%nat -> take i ra = take i (take j ra)).
Proof.
  revert k. induction ra as [|r ra IH]; intros k Hok.
  - exists 0%nat, []. ands; [by destruct k|apply dead_end_nil|]. intros i _. by destruct i.
  - apply Forall_cons_1 in Hok as [Hr Hok]. rewrite encs_cons.
    destruct (decide (k < length (enc r))%nat) as [Hlt|Hge].
    + exists 0%nat, (take k (enc r)). ands.
      * by rewrite take_app_le by lia.
      * intros ra'. apply dead_end_torn; [done|]. unfold blen. lia.
      * intros i Hi. destruct i; [done|]. cbn [take] in Hi. rewrite encs_cons, length_app in Hi. lia.
    + destruct (IH (k - length (enc r))%nat Hok) as (j & torn & E & Hd & Hm).
      exists (S j), torn. cbn [take]. ands; [|done|].
      * rewrite take_app_ge by lia. rewrite E, encs_cons, app_assoc. done.
      * intros i Hi. destruct i; [done|]. cbn [take] in *. rewrite encs_cons, length_app in Hi.
        f_equal. apply Hm. lia.
Qed.

Lemma chain_last l rs r : chain l rs -> last rs = Some r -> r_lsn r + 1 = l + Z.of_nat (length rs).
Proof.
  intros Hc Hl. pose proof (expects_after None l rs Hc I) as He. unfold expected_after in He. by rewrite Hl in He.
Qed.

(** Opening the files and truncating the torn tail restores the log. *)
Lemma reopen files names file l0 rss ra torn seg floor :
  disk_log files names file l0 rss ra torn -> dead_end ra torn -> 1 <= l0 ->
  floor <= l0 + Z.of_nat (length (concat rss ++ ra)) ->
  (concat rss ++ ra = [] -> Z.max floor 1 = l0) ->
  exists w, truncate_torn_tail crc32 (open_with_segments_and_floor files file seg floor) = (Val (blen torn), w) /\
    live w l0 rss ra /\ segment_bytes w = seg /\ durable_lsn w = 0 /\ committed_ranges w = [].
Proof.
  intros D Hd Hl0 Hfl Hemp. set (w := open_with_segments_and_floor files file seg floor).
  pose proof (dl_chain _ _ _ _ _ _ _ D) as Hch. pose proof Hch as [Hc1 Hc2]%chain_app.
  assert (Hn : sealed w = names) by exact (discover_names _ _ _ _ (dl_sealed _ _ _ _ _ _ _ D) Hc1 (dl_dom _ _ _ _ _ _ _ D)).
  assert (D' : disk_log (segments w) (sealed w) (active w) l0 rss ra torn) by (by rewrite Hn).
  unfold truncate_torn_tail. rewrite (scan_records_run _ w l0 rss ra torn true tt D' Hd).
  unfold st_bind.
  assert (Hv : forall rs, visits (fun _ => st_ret tt) rs tt = (Val tt : pres unit, tt)).
  { induction rs as [|r rs IH]; [done|]. cbn [visits]. unfold st_bind, st_ret in *. exact IH. }
  rewrite Hv. cbn [st_ret]. eexists. split; [done|]. ands; [|done..].
  unfold truncated. assert (Hnext : forall r, last (concat rss ++ ra) = Some r ->
    Z.max (r_lsn r + 1) (next_lsn w) = l0 + Z.of_nat (length (concat rss ++ ra))).
  { intros r Hr. rewrite (chain_last _ _ _ Hch Hr). change (next_lsn w) with (Z.max floor 1). lia. }
  set (next := match last (concat rss ++ ra) with Some _ => _ | None => _ end).
  assert (Hnx : next = l0 + Z.of_nat (length (concat rss ++ ra))).
  { unfold next. destruct (last _) as [r|] eqn:El; [by apply Hnext|].
    apply last_None in El. rewrite El. change (next_lsn w) with (Z.max floor 1). rewrite (Hemp El). cbn. lia. }
  split; wcbn; [|done|exact Hnx|done|].
  - destruct D' as [A1 A2 A3 A4 A5 A6]. split; try done; [by rewrite app_nil_r|].
    rewrite A3, blen_app in A4. pose proof (blen_nonneg torn). lia.
  - destruct ra as [|r ra]; cbn [head fmap option_fmap option_map default].
    + rewrite Hnx, app_nil_r. done.
    + by destruct Hc2.
Qed.
End Log.
