(* ===== verification/WalTheorems.v ===== *)
(** * The write-ahead log: guarantees

    Any sequence of calls on a log, with failing syncs and seals, is read back
    exactly; a torn last record is dropped and the log continues; between two
    truncations no abort is ever logged after a commit of the same transaction.
    Three scenarios are evaluated at the end: two crashes in which acknowledged
    commits are lost, and a truncation under retention for the archive after
    which a committed transaction is aborted. *)

From stdpp Require Import base tactics list numbers gmap sorting.
From Stdlib Require Import ZArith Lia.
From S2P Require Import Prelude Search Bytes Errors PageFormat Mvcc Ranges Wal WalScan WalLog.
Local Open Scope Z_scope.
Local Open Scope bic_scope.

(** The calls of the log's interface, with the outcome of the syncs they make. *)
Inductive wal_op :=
  | OpImage (seal_io : bool) (page tx : Z) (image : bytes)
  | OpCommit (seal_io sync_io : bool) (tx : Z)
  | OpAbort (seal_io : bool) (tx : Z)
  | OpCheckpoint (seal_io sync_io : bool) (redo root : Z)
  | OpSync (sync_io : bool)
  | OpSeal (seal_io : bool).

Definition op_ok (op : wal_op) : Prop :=
  match op with
  | OpImage _ page tx image => is_u64 page /\ is_u64 tx /\ blen image <= MAX_PAGE_SIZE
  | OpCommit _ _ tx | OpAbort _ tx => is_u64 tx
  | OpCheckpoint _ _ redo root => is_u64 redo /\ is_u64 root
  | OpSync _ | OpSeal _ => True
  end.

Definition op_bytes (op : wal_op) : Z :=
  match op with OpImage _ _ _ image => 40 + blen image | _ => 40 end.
Definition ops_bytes (ops : list wal_op) : Z := foldr (fun op n => op_bytes op + n) 0 ops.

(** All calls on an open log: those that log, [reset], and the two that steer
    what [reset] keeps for the archive. *)
Inductive wal_call :=
  | CallLog (op : wal_op)
  | CallReset (seal_io : bool)
  | CallRetain
  | CallArchived (sequence : Z).

Definition call_ok (c : wal_call) : Prop := match c with CallLog op => op_ok op | _ => True end.
Definition call_bytes (c : wal_call) : Z := match c with CallLog op => op_bytes op | _ => 0 end.
Definition calls_bytes (cs : list wal_call) : Z := foldr (fun c n => call_bytes c + n) 0 cs.

Section Run.
Variable crc32 : bytes -> Z.
Hypothesis Hcrc : forall l, is_u32 (crc32 l).

(** One call; what it returns is the caller's business. *)
Definition wal_exec (op : wal_op) (w : Wal) : Wal :=
  match op with
  | OpImage s page tx image => snd (log_page_image crc32 s None page tx image w)
  | OpCommit s y tx => snd (wal_commit crc32 s None y tx w)
  | OpAbort s tx => snd (wal_abort crc32 s None tx w)
  | OpCheckpoint s y redo root => snd (wal_checkpoint crc32 s None y redo root w)
  | OpSync y => snd (wal_sync y w)
  | OpSeal s => snd (seal_active s w)
  end.
Definition wal_run (ops : list wal_op) (w : Wal) : Wal := foldl (fun w op => wal_exec op w) w ops.

(** The record a call leaves in the log: none when the segment it needed could
    not be sealed, when the commit index is full, or when the transaction to
    abort already committed. *)
Definition append_logs (seal_io : bool) (kind : RecordKind) (page tx : Z) (payload : bytes) (w : Wal) :
    list WalRecord :=
  if needs_seal w payload && negb seal_io then [] else [new_record w kind page tx payload].
Definition op_logs (op : wal_op) (w : Wal) : list WalRecord :=
  match op with
  | OpImage s page tx image => append_logs s PageImage page tx image w
  | OpCommit s _ tx =>
      if fst (ranges_insert tx (committed_ranges w)) then append_logs s Commit 0 tx [] w else []
  | OpAbort s tx => if ranges_contains (committed_ranges w) tx then [] else append_logs s Abort 0 tx [] w
  | OpCheckpoint s _ redo root => append_logs s Checkpoint root redo [] w
  | OpSync _ | OpSeal _ => []
  end.
Fixpoint wal_logged (ops : list wal_op) (w : Wal) : list WalRecord :=
  match ops with [] => [] | op :: ops' => op_logs op w ++ wal_logged ops' (wal_exec op w) end.

Definition call_exec (c : wal_call) (w : Wal) : Wal :=
  match c with
  | CallLog op => wal_exec op w
  | CallReset s => snd (reset s w)
  | CallRetain => enable_archive_retention w
  | CallArchived n => mark_archived_through n w
  end.
Definition call_run (cs : list wal_call) (w : Wal) : Wal := foldl (fun w c => call_exec c w) w cs.

Definition call_logs (c : wal_call) (w : Wal) : list WalRecord :=
  match c with CallLog op => op_logs op w | _ => [] end.
Fixpoint calls_logged (cs : list wal_call) (w : Wal) : list WalRecord :=
  match cs with [] => [] | c :: cs' => call_logs c w ++ calls_logged cs' (call_exec c w) end.

(** What was logged since the last [reset] that went through, [rs] being what
    was before [cs]. *)
Definition after_call (c : wal_call) (w : Wal) (rs : list WalRecord) : list WalRecord :=
  match c with
  | CallReset s => match fst (reset s w) with Val _ => [] | _ => rs end
  | _ => rs ++ call_logs c w
  end.
Fixpoint since_reset (cs : list wal_call) (w : Wal) (rs : list WalRecord) : list WalRecord :=
  match cs with [] => rs | c :: cs' => since_reset cs' (call_exec c w) (after_call c w rs) end.

(** ** One call *)

Abbreviation live := (live crc32).

Lemma live_durable w l0 rss ra d : live w l0 rss ra -> live (set_durable d w) l0 rss ra.
Proof. by intros []. Qed.
Lemma live_redo w l0 rss ra d : live w l0 rss ra -> live (set_redo d w) l0 rss ra.
Proof. by intros []. Qed.
Lemma live_committed w l0 rss ra d : live w l0 rss ra -> live (set_committed d w) l0 rss ra.
Proof. by intros []. Qed.

(** Syncing only moves [durable_lsn]. *)
Lemma sync_frame fuel y lsn w : exists d, snd (sync_through fuel y lsn w) = set_durable d w.
Proof.
  revert w. induction fuel as [|fuel IH]; intros w; cbn [sync_through].
  - exists (durable_lsn w). by destruct w.
  - unfold st_bind, gets, id. cbv beta iota.
    destruct (lsn <=? durable_lsn w); [exists (durable_lsn w); by destruct w|].
    destruct y; [|exists (durable_lsn w); by destruct w].
    unfold modify. cbv beta iota.
    destruct (IH (set_durable (Z.max (durable_lsn w) (sat_sub (next_lsn w) 1)) w)) as [d ->]. by exists d.
Qed.

Record step_ok (op : wal_op) (w w' : Wal) (logs : list WalRecord) : Prop := {
  so_live : forall l0 rss ra, live w l0 rss ra ->
    exists rss' ra', live w' l0 rss' ra' /\ concat rss' ++ ra' = (concat rss ++ ra) ++ logs;
  so_size : blen (active w') <= blen (active w) + op_bytes op;
  so_next : next_lsn w' = next_lsn w + Z.of_nat (length logs)
}.

Lemma new_record_ok w kind page tx payload :
  is_u64 page -> is_u64 tx -> blen payload <= MAX_PAGE_SIZE -> 0 <= next_lsn w < u64_max ->
  rec_ok MAX_BODY (new_record w kind page tx payload).
Proof.
  intros Hp Ht Hl Hn. unfold rec_ok. cbn [r_lsn r_page r_tx r_payload new_record].
  unfold MAX_BODY, MAX_WAL_RECORD_BYTES, RECORD_HEADER_BYTES, RECORD_FIXED_BODY_BYTES, MAX_PAGE_SIZE in *.
  ands; auto; widths; lia.
Qed.

Lemma append_step op seal_io kind page tx payload w :
  is_u64 page -> is_u64 tx -> blen payload <= MAX_PAGE_SIZE -> 0 <= next_lsn w < u64_max ->
  op_bytes op = 40 + blen payload -> blen (active w) + op_bytes op <= u64_max ->
  step_ok op w (snd (append crc32 seal_io None kind page tx payload w))
    (append_logs seal_io kind page tx payload w).
Proof.
  intros Hp Ht Hlen Hn Hop Hsz. set (r := new_record w kind page tx payload).
  pose proof (blen_nonneg payload). pose proof (blen_nonneg (active w)). pose proof (blen_enc crc32 r) as He.
  change (r_payload r) with payload in He.
  assert (Hr : rec_ok MAX_BODY r) by (by apply new_record_ok).
  rewrite append_eq. fold r. unfold append_logs. fold r.
  pose proof (fun l0 rss ra L => live_appended crc32 w l0 rss ra kind page tx payload L Hr ltac:(lia)) as HL.
  unfold appended in HL. fold r in HL. change (r_payload r) with payload in HL.
  destruct (needs_seal w payload), seal_io; cbn [snd negb andb]; split.
  all: try (intros l0 rss ra L; destruct (HL l0 rss ra L) as (L' & E & _);
            eexists _, _; split; [exact L'|exact E]).
  all: try (unfold pushed, sealed_state;
            cbn [active next_lsn set_end_offset set_active set_next_lsn set_active_first set_sealed length];
            rewrite ?blen_app; change (blen []) with 0; try (rewrite Z.mod_small; widths); widths; lia).
  all: try (intros l0 rss ra L; exists rss, ra; by rewrite app_nil_r).
  all: cbn [length]; lia.
Qed.

Lemma step_nop op w : step_ok op w w [].
Proof.
  split; [|destruct op; cbn [op_bytes]; try lia|cbn; lia].
  - intros l0 rss ra L. exists rss, ra. by rewrite app_nil_r.
  - pose proof (blen_nonneg image). lia.
Qed.

Lemma step_pre op r w w' logs : step_ok op (set_committed r w) w' logs -> step_ok op w w' logs.
Proof.
  intros [H1 H2 H3]. split; [|exact H2|exact H3]. intros l0 rss ra L. by apply H1, live_committed.
Qed.

Lemma step_post op f w w' logs :
  (forall w l0 rss ra, live w l0 rss ra -> live (f w) l0 rss ra) ->
  active (f w') = active w' -> next_lsn (f w') = next_lsn w' ->
  step_ok op w w' logs -> step_ok op w (f w') logs.
Proof.
  intros Hf Ha Hn [H1 H2 H3]. split; [|by rewrite Ha|by rewrite Hn]. intros l0 rss ra L.
  destruct (H1 l0 rss ra L) as (rss' & ra' & L' & E). exists rss', ra'. auto.
Qed.

(** What follows an append in [commit] and [checkpoint] does not touch the log. *)
Lemma append_then op seal_io kind page tx payload w (k : Z -> wst Z) :
  is_u64 page -> is_u64 tx -> blen payload <= MAX_PAGE_SIZE -> 0 <= next_lsn w < u64_max ->
  op_bytes op = 40 + blen payload -> blen (active w) + op_bytes op <= u64_max ->
  (forall lsn w, exists f, snd (k lsn w) = f w /\
     (forall w l0 rss ra, live w l0 rss ra -> live (f w) l0 rss ra) /\
     active (f w) = active w /\ next_lsn (f w) = next_lsn w) ->
  step_ok op w (snd (st_bind (append crc32 seal_io None kind page tx payload) k w))
    (append_logs seal_io kind page tx payload w).
Proof.
  intros Hp Ht Hlen Hn Hop Hsz Hk.
  pose proof (append_step op seal_io kind page tx payload w Hp Ht Hlen Hn Hop Hsz) as S.
  unfold st_bind. destruct (append _ _ _ _ _ _ _ w) as [[lsn| |] w'] eqn:E; cbn [snd] in *; [|exact S..].
  destruct (Hk lsn w') as (f & -> & Hf & Ha & Hx). by apply step_post.
Qed.

Lemma seal_step s w : blen (active w) + 40 <= u64_max -> step_ok (OpSeal s) w (snd (seal_active s w)) [].
Proof.
  intros Hsz. unfold seal_active, st_bind, gets, id. cbv beta iota.
  destruct (segment_bytes w =? 0); [apply step_nop|].
  destruct (Z.eqb_spec (end_offset w) 0); [apply step_nop|].
  unfold seal_active_locked. destruct s; [|apply step_nop]. cbn [negb snd modify].
  change (step_ok (OpSeal true) w (sealed_state w) []).
  split; [|change (active (sealed_state w)) with (@nil Z); change (blen []) with 0|cbn; lia].
  - intros l0 rss ra L. exists (rss ++ [ra]), [].
    split; [|by rewrite concat_app, !app_nil_r; cbn [concat]; rewrite app_nil_r].
    apply live_seal; [done|]. apply (live_nonempty crc32 w l0 rss ra L).
    pose proof (lv_end _ _ _ _ _ L). pose proof (blen_nonneg (active w)). lia.
  - cbn [op_bytes]. pose proof (blen_nonneg (active w)). lia.
Qed.

Lemma exec_step op w :
  op_ok op -> 0 <= next_lsn w < u64_max -> blen (active w) + op_bytes op <= u64_max ->
  step_ok op w (wal_exec op w) (op_logs op w).
Proof.
  intros Ho Hn Hsz. destruct op as [s page tx image|s y tx|s tx|s y redo root|y|s]; cbn [wal_exec op_logs op_ok] in *.
  - destruct Ho as (?&?&?). by apply append_step.
  - unfold wal_commit. unfold st_bind at 1, gets at 1, id. cbv beta iota.
    destruct (ranges_insert tx (committed_ranges w)) as [[|] rg] eqn:Er; cbn [fst negb].
    + unfold st_bind at 1, modify. cbv beta iota. apply (step_pre _ rg).
      apply (append_then _ s Commit 0 tx [] (set_committed rg w)); try done.
      intros lsn w'. destruct (sync_frame 2 y lsn w') as [d Hd]. exists (set_durable d).
      ands; try done; [|intros *; apply live_durable].
      unfold st_bind. by destruct (sync_through 2 y lsn w') as [[[]| |] ?].
    + unfold st_bind, modify. cbn [snd st_fail]. apply (step_pre _ rg), step_nop.
  - unfold wal_abort, st_bind, gets, id. cbv beta iota.
    destruct (ranges_contains _ _); [apply step_nop|]. by apply append_step.
  - destruct Ho. unfold wal_checkpoint. apply append_then; try done.
    intros lsn w'. destruct (sync_frame 2 y lsn w') as [d Hd].
    unfold st_bind. destruct (sync_through 2 y lsn w') as [[[]| |] w''] eqn:Es; cbn [snd modify st_ret] in *.
    + exists (fun w => set_redo redo (set_durable d w)). subst. ands; try done.
      intros *. intros L. by apply live_redo, live_durable.
    + exists (set_durable d). ands; try done. intros *. apply live_durable.
    + exists (set_durable d). ands; try done. intros *. apply live_durable.
  - unfold wal_sync, st_bind, gets, id. cbv beta iota.
    destruct (sync_frame 2 y (sat_sub (next_lsn w) 1) w) as [d ->].
    apply step_post with (f := set_durable d); try done; [intros *; apply live_durable|apply step_nop].
  - by apply seal_step.
Qed.

Lemma op_logs_length op w : (length (op_logs op w) <= 1)%nat.
Proof. destruct op; cbn; unfold append_logs; repeat case_match; cbn; lia. Qed.

Lemma op_bytes_pos op : 0 <= op_bytes op.
Proof. destruct op; cbn [op_bytes]; try lia. pose proof (blen_nonneg image). lia. Qed.

Lemma ops_bytes_pos ops : 0 <= ops_bytes ops.
Proof. induction ops as [|op ops IH]; cbn; [lia|]. pose proof (op_bytes_pos op). unfold ops_bytes in IH. lia. Qed.

(** There is room for [ops]. *)
Definition room (w : Wal) (ops : list wal_op) : Prop :=
  next_lsn w + Z.of_nat (length ops) <= u64_max /\ blen (active w) + ops_bytes ops <= u64_max.

Lemma run_live ops : forall w l0 rss ra,
  Forall op_ok ops -> room w ops -> live w l0 rss ra ->
  exists rss' ra', live (wal_run ops w) l0 rss' ra' /\
    concat rss' ++ ra' = (concat rss ++ ra) ++ wal_logged ops w.
Proof.
  induction ops as [|op ops IH]; intros w l0 rss ra Ho [Hn Hb] L; cbn [wal_run foldl wal_logged].
  - exists rss, ra. by rewrite app_nil_r.
  - apply Forall_cons_1 in Ho as [Ho Hos]. cbn [length ops_bytes foldr] in *. fold (ops_bytes ops) in Hb.
    pose proof (lv_first _ _ _ _ _ L). pose proof (lv_next _ _ _ _ _ L).
    pose proof (ops_bytes_pos ops). pose proof (op_logs_length op w).
    destruct (exec_step op w Ho) as [S1 S2 S3]; [lia|lia|].
    destruct (S1 l0 rss ra L) as (rss1 & ra1 & L1 & E1).
    destruct (IH (wal_exec op w) l0 rss1 ra1 Hos) as (rss2 & ra2 & L2 & E2); [split; lia|done|].
    exists rss2, ra2. split; [exact L2|]. by rewrite E2, E1, app_assoc.
Qed.

(** Reading a log back. *)
Lemma visits_collect rs l : visits collect rs l = (Val tt, l ++ rs).
Proof.
  revert l. induction rs as [|r rs IH]; intros l; [by rewrite app_nil_r|]. cbn [visits].
  unfold st_bind, collect at 1, modify. cbv beta iota. rewrite IH. by rewrite <- app_assoc.
Qed.

Lemma read_all_live w l0 rss ra : live w l0 rss ra -> read_all crc32 w = Val (concat rss ++ ra, 0).
Proof.
  intros L. unfold read_all.
  rewrite (scan_records_run crc32 Hcrc _ w l0 rss ra [] false []); [|exact (lv_disk _ _ _ _ _ L)|apply dead_end_nil].
  unfold st_bind. rewrite visits_collect. done.
Qed.

Lemma open_live seg floor :
  floor <= u64_max -> live (open_with_segments_and_floor ∅ [] seg floor) (Z.max floor 1) [] [].
Proof.
  intros Hf. split; cbn [open_with_segments_and_floor discover_sealed_segments next_lsn active_first_lsn end_offset active].
  - split; try done. cbn [segments sealed]. intros n [? H]. by apply lookup_empty_Some in H.
  - lia.
  - cbn; lia.
  - done.
  - cbn; lia.
Qed.

(** ** Commit wins *)

(** No abort follows a commit of the same transaction. *)
Definition commit_wins (rs : list WalRecord) : Prop :=
  forall i j a b, (i < j)%nat -> rs !! i = Some a -> rs !! j = Some b ->
    r_kind a = Commit -> r_kind b = Abort -> r_tx a <> r_tx b.

(** Every committed transaction of the log is in the index. *)
Definition indexed (w : Wal) (rs : list WalRecord) : Prop :=
  ranges_inv (committed_ranges w) /\
  forall r, r ∈ rs -> r_kind r = Commit -> member (committed_ranges w) (r_tx r).

Lemma commit_wins_snoc rs r :
  commit_wins rs ->
  (r_kind r = Abort -> forall a, a ∈ rs -> r_kind a = Commit -> r_tx a <> r_tx r) ->
  commit_wins (rs ++ [r]).
Proof.
  intros Hc Hr i j a b Hij Ha Hb Ka Kb.
  assert (Hj : (j < length (rs ++ [r]))%nat) by (apply lookup_lt_Some in Hb; done).
  rewrite length_app in Hj. cbn in Hj.
  rewrite lookup_app_l in Ha by lia.
  destruct (decide (j < length rs)%nat).
  - rewrite lookup_app_l in Hb by lia. by apply (Hc i j a b).
  - rewrite lookup_app_r in Hb by lia. replace (j - length rs)%nat with 0%nat in Hb by lia. cbn in Hb. simplify_eq.
    apply Hr; [done| |done]. by apply list_elem_of_lookup_2 in Ha.
Qed.

(** The index after a call. *)
Lemma append_ranges s kind page tx payload w :
  committed_ranges (snd (append crc32 s None kind page tx payload w)) = committed_ranges w.
Proof. rewrite append_eq. by destruct (needs_seal w payload), s. Qed.

Lemma append_then_ranges s kind page tx payload w (k : Z -> wst Z) :
  (forall lsn w, committed_ranges (snd (k lsn w)) = committed_ranges w) ->
  committed_ranges (snd (st_bind (append crc32 s None kind page tx payload) k w)) = committed_ranges w.
Proof.
  intros Hk. pose proof (append_ranges s kind page tx payload w) as Ha. unfold st_bind.
  destruct (append _ _ _ _ _ _ _ w) as [[lsn| |] w']; cbn [snd] in *; [|done..]. by rewrite Hk.
Qed.

Lemma exec_ranges op w :
  committed_ranges (wal_exec op w) =
  match op with OpCommit _ _ tx => snd (ranges_insert tx (committed_ranges w)) | _ => committed_ranges w end.
Proof.
  destruct op as [s page tx image|s y tx|s tx|s y redo root|y|s]; cbn [wal_exec].
  - apply append_ranges.
  - unfold wal_commit. unfold st_bind at 1, gets at 1, id. cbv beta iota.
    destruct (ranges_insert tx (committed_ranges w)) as [[|] rg]; unfold st_bind at 1, modify; cbn [negb snd]; [|done].
    rewrite append_then_ranges; [done|]. intros lsn w'. destruct (sync_frame 2 y lsn w') as [d Hd].
    unfold st_bind. destruct (sync_through 2 y lsn w') as [[[]| |] w'']; cbn [snd st_ret] in *; by rewrite Hd.
  - unfold wal_abort, st_bind, gets, id. cbv beta iota. destruct (ranges_contains _ _); [done|]. apply append_ranges.
  - unfold wal_checkpoint. apply append_then_ranges. intros lsn w'. destruct (sync_frame 2 y lsn w') as [d Hd].
    unfold st_bind. destruct (sync_through 2 y lsn w') as [[[]| |] w'']; cbn [snd st_ret modify] in *; by rewrite Hd.
  - unfold wal_sync, st_bind, gets, id. cbv beta iota. by destruct (sync_frame 2 y (sat_sub (next_lsn w) 1) w) as [d ->].
  - unfold seal_active, st_bind, gets, id. cbv beta iota.
    destruct (segment_bytes w =? 0), (end_offset w =? 0); try done. by destruct s.
Qed.

Lemma op_logs_cases op w :
  op_logs op w = [] \/ exists r, op_logs op w = [r] /\
    match op with
    | OpCommit _ _ tx => r_kind r = Commit /\ r_tx r = tx /\ fst (ranges_insert tx (committed_ranges w)) = true
    | OpAbort _ tx => r_kind r = Abort /\ r_tx r = tx /\ ranges_contains (committed_ranges w) tx = false
    | _ => r_kind r <> Commit /\ r_kind r <> Abort
    end.
Proof.
  destruct op; cbn [op_logs]; try (by left);
    repeat first [case_match; [|by left] | case_match; [by left|]].
  all: unfold append_logs; destruct (_ && _); [by left|right; eexists; split; [reflexivity|done]].
Qed.

Lemma exec_commit_wins op w rs :
  op_ok op -> indexed w rs -> commit_wins rs ->
  indexed (wal_exec op w) (rs ++ op_logs op w) /\ commit_wins (rs ++ op_logs op w).
Proof.
  intros Ho [Hi Hm] Hc. unfold indexed. rewrite exec_ranges.
  assert (Hm' : forall r, r_kind r <> Commit -> forall r', r' ∈ rs ++ [r] -> r_kind r' = Commit -> r' ∈ rs).
  { intros r Hr r' [Hin| ->%list_elem_of_singleton]%elem_of_app; done. }
  destruct (op_logs_cases op w) as [-> | (r & -> & Hr)]; rewrite ?app_nil_r.
  - split; [|done]. destruct op as [| s y tx| | | |]; try done. cbn [op_ok] in Ho.
    pose proof (ranges_insert_spec _ tx Hi Ho) as [H _].
    destruct (ranges_insert tx _) as [[|] rg]; cbn [snd]; destruct H as [H1 H2].
    + split; [done|]. intros r Hr Hk. apply H2. right. auto.
    + subst. done.
  - destruct op as [|s y tx|s tx| | |]; cbn [op_ok] in *;
      try (destruct Hr as [Hr1 Hr2]; split; [split; [done|]|]; [|apply commit_wins_snoc; done];
           intros r' Hin Hk; apply Hm; [by apply (Hm' r)|done]).
    + destruct Hr as (Hk & Ht & Hins). pose proof (ranges_insert_spec _ tx Hi Ho) as [H _].
      destruct (ranges_insert tx _) as [[|] rg]; cbn [fst snd] in *; [|done]. destruct H as [H1 H2].
      split; [split; [done|]|apply commit_wins_snoc; [done|congruence]].
      intros r' [Hin| ->%list_elem_of_singleton]%elem_of_app Hk'; apply H2; auto.
    + destruct Hr as (Hk & Ht & Hcon). split; [split; [done|]|].
      * intros r' Hin Hk'. apply Hm; [|done]. apply (Hm' r); [congruence|done|done].
      * apply commit_wins_snoc; [done|]. intros _ a Ha Hka Heq.
        assert (Hmem : member (committed_ranges w) tx) by (rewrite <- Ht, <- Heq; auto).
        apply ranges_contains_spec in Hmem; [|done]. congruence.
Qed.

Lemma run_commit_wins ops : forall w rs,
  Forall op_ok ops -> indexed w rs -> commit_wins rs -> commit_wins (rs ++ wal_logged ops w).
Proof.
  induction ops as [|op ops IH]; intros w rs Ho Hi Hc; cbn [wal_logged]; [by rewrite app_nil_r|].
  apply Forall_cons_1 in Ho as [Ho Hos]. destruct (exec_commit_wins op w rs Ho Hi Hc) as [Hi' Hc'].
  rewrite app_assoc. by apply IH.
Qed.

(** ** Reset *)

(** The names that are kept are the last ones. *)
Lemma reset_sealed_keep archived files names :
  Forall (Z.lt archived) names -> exists total, reset_sealed true archived files names = (files, names, total).
Proof.
  induction 1 as [|n names Hn _ [total IH]]; cbn [reset_sealed andb]; [by eexists|].
  rewrite (proj2 (Z.ltb_lt _ _) Hn), IH. by eexists.
Qed.

Lemma sealed_files_delete files names rss n :
  Forall (Z.lt n) names -> Forall2 (sealed_file crc32 files) names rss ->
  Forall2 (sealed_file crc32 (base.delete n files)) names rss.
Proof.
  intros HP HF. induction HF as [|name rs names rss (Hf & Hrest) HF IH]; constructor.
  - apply Forall_cons_1 in HP as [HP _]. split; [|done]. rewrite lookup_delete_ne; [done|lia].
  - apply IH. by apply Forall_cons_1 in HP as [_ HP].
Qed.

Lemma reset_sealed_spec retention archived names : forall files rss,
  StronglySorted Z.lt names -> Forall2 (sealed_file crc32 files) names rss ->
  (forall n, is_Some (files !! n) -> n ∈ names) ->
  exists files' kept total old rss', reset_sealed retention archived files names = (files', kept, total) /\
    rss = old ++ rss' /\ Forall2 (sealed_file crc32 files') kept rss' /\
    (forall n, is_Some (files' !! n) -> n ∈ kept) /\ (retention = false -> rss' = []).
Proof.
  induction names as [|n names IH]; intros files rss Hs HF Hd.
  - apply Forall2_nil_inv_l in HF as ->. by exists files, [], 0, [], [].
  - apply Forall2_cons_inv_l in HF as (rs & rss' & Hf & HF & ->).
    inversion Hs as [|? ? Hs' Hlt]; subst. cbn [reset_sealed].
    destruct (retention && (archived <? n)) eqn:E.
    + apply andb_prop in E as [-> Ha%Z.ltb_lt].
      destruct (reset_sealed_keep archived files names) as [total ->].
      { eapply Forall_impl; [exact Hlt|]. cbn. lia. }
      eexists _, _, _, [], (rs :: rss'). ands; [done|done|by constructor|done|done].
    + destruct (IH (base.delete n files) rss' Hs') as (files' & kept & total & old & rss2 & -> & -> & H1 & H2 & H3);
        [by apply sealed_files_delete| |].
      { intros m [b Hm]. apply lookup_delete_Some in Hm as [Hne Hm].
        destruct (proj1 (elem_of_cons _ _ _) (Hd m (ex_intro _ b Hm))); [congruence|done]. }
      exists files', kept, total, (rs :: old), rss2. by ands.
Qed.

(** The part of [reset] after the seal. *)
Lemma truncated_live w l0 rss ra :
  live w l0 rss ra -> (ra = [] \/ rss = [] \/ archive_retention w = false) ->
  let '(files, kept, total) := reset_sealed (archive_retention w) (archived_through w) (segments w) (sealed w) in
  let w' := set_committed [] (set_durable (sat_sub (next_lsn w) 1)
              (set_active_first (next_lsn w) (set_end_offset 0 (set_sealed files kept total (reset_truncate w))))) in
  exists l0' old rss', rss = old ++ rss' /\ live w' l0' rss' [] /\ (archive_retention w = false -> rss' = []) /\
    (rss' = [] \/ ra = []).
Proof.
  intros [D H1 Hn He Ha] Hcase. destruct D as [D1 D2 D3 D4 D5 D6].
  pose proof D5 as Hch. apply chain_app in Hch as [Hc1 Hc2].
  destruct (sealed_names_range crc32 _ _ _ _ D1 Hc1) as [_ Hs].
  destruct (reset_sealed_spec (archive_retention w) (archived_through w) _ _ _ Hs D1 D2)
    as (files & kept & total & old & rss' & -> & -> & R1 & R2 & R3).
  assert (Hr : rss' = [] \/ ra = []).
  { destruct Hcase as [->|[Hnil|Hret]]; [by right|left|left; auto]. by apply app_eq_nil in Hnil as [_ ->]. }
  rewrite concat_app in *. rewrite <- app_assoc in D5. apply chain_app in D5 as [_ D5].
  apply Forall_app in D6 as [D6 _]. apply Forall_app in D6 as [_ D6].
  rewrite !length_app in *.
  exists (if bool_decide (rss' = []) then next_lsn w else l0 + Z.of_nat (length (concat old))), old, rss'.
  ands; [done| |done|done].
  assert (Hl : next_lsn w = (if bool_decide (rss' = []) then next_lsn w else l0 + Z.of_nat (length (concat old)))
             + Z.of_nat (length (concat rss'))).
  { case_bool_decide as E; [subst; cbn; lia|]. destruct Hr as [->| ->]; [done|]. cbn [length] in Hn. lia. }
  split; cbn.
  - split; cbn; [done|done|done|done| |by rewrite app_nil_r].
    rewrite app_nil_r. case_bool_decide as E; [by subst|]. apply chain_app in D5 as [D5 _]. done.
  - case_bool_decide; [widths; lia|lia].
  - by rewrite app_nil_r.
  - done.
  - done.
Qed.
(** The calls that log leave what steers [reset] alone, and a log without a
    segment size has no sealed file. *)
Definition steady (w w' : Wal) : Prop :=
  segment_bytes w' = segment_bytes w /\ archive_retention w' = archive_retention w /\
  (segment_bytes w = 0 -> sealed w' = sealed w).

Lemma steady_trans w1 w2 w3 : steady w1 w2 -> steady w2 w3 -> steady w1 w3.
Proof. unfold steady. intros (A1 & A2 & A3) (B1 & B2 & B3). ands; [congruence|congruence|]. intros H. rewrite B3, A3; congruence. Qed.

Lemma append_steady s kind page tx payload w : steady w (snd (append crc32 s None kind page tx payload w)).
Proof.
  unfold steady. rewrite append_eq. destruct (needs_seal w payload) eqn:En, s; ands; try done.
  all: intros H; unfold needs_seal in En; by rewrite H in En.
Qed.

Lemma then_steady s kind page tx payload w (k : Z -> wst Z) :
  (forall lsn w, steady w (snd (k lsn w))) ->
  steady w (snd (st_bind (append crc32 s None kind page tx payload) k w)).
Proof.
  intros Hk. pose proof (append_steady s kind page tx payload w) as Ha. unfold st_bind.
  destruct (append _ _ _ _ _ _ _ w) as [[lsn| |] w']; cbn [snd] in *; [|done..]. by apply (steady_trans w w').
Qed.

Lemma sync_steady fuel y lsn w : steady w (snd (sync_through fuel y lsn w)).
Proof. by destruct (sync_frame fuel y lsn w) as [d ->]. Qed.

Lemma exec_steady op w : steady w (wal_exec op w).
Proof.
  destruct op as [s page tx image|s y tx|s tx|s y redo root|y|s]; cbn [wal_exec].
  - apply append_steady.
  - unfold wal_commit. unfold st_bind at 1, gets at 1, id. cbv beta iota.
    destruct (ranges_insert tx (committed_ranges w)) as [[|] rg]; unfold st_bind at 1, modify; cbn [negb snd]; [|done].
    apply (steady_trans w (set_committed rg w)); [done|]. apply then_steady. intros lsn w'.
    pose proof (sync_steady 2 y lsn w'). unfold st_bind. by destruct (sync_through 2 y lsn w') as [[[]| |] w''].
  - unfold wal_abort, st_bind, gets, id. cbv beta iota. destruct (ranges_contains _ _); [done|]. apply append_steady.
  - unfold wal_checkpoint. apply then_steady. intros lsn w'. pose proof (sync_steady 2 y lsn w').
    unfold st_bind. by destruct (sync_through 2 y lsn w') as [[[]| |] w''].
  - unfold wal_sync, st_bind, gets, id. cbv beta iota. apply sync_steady.
  - unfold seal_active, st_bind, gets, id. cbv beta iota. destruct (Z.eqb_spec (segment_bytes w) 0); [done|].
    destruct (end_offset w =? 0); [done|]. by destruct s.
Qed.

(** The log of an open handle: what an earlier generation left in kept segments,
    and what was logged since the last [reset]. *)
Record generation (w : Wal) (kept since : list WalRecord) : Prop := {
  ge_live : exists l0 rss ra, live w l0 rss ra /\ concat rss ++ ra = kept ++ since;
  ge_seg : 0 <= segment_bytes w;
  ge_one : segment_bytes w = 0 -> sealed w = [];
  ge_index : indexed w since;
  ge_wins : commit_wins since;
  ge_kept : archive_retention w = false -> kept = []
}.

Lemma reset_eq s w :
  reset s w =
  if archive_retention w && (0 <? segment_bytes w) && (0 <? end_offset w)
  then if s then reset_files (sealed_state w) else (Err Io, w)
  else reset_files w.
Proof. unfold reset, st_bind, gets, id. cbv beta iota. destruct (_ && _), s; reflexivity. Qed.

Lemma reset_files_generation w l0 rss ra logged :
  live w l0 rss ra -> concat rss ++ ra = logged -> (ra = [] \/ rss = [] \/ archive_retention w = false) ->
  0 <= segment_bytes w -> (segment_bytes w = 0 -> sealed w = []) ->
  exists b w' kept, reset_files w = (Val b, w') /\ generation w' kept [] /\ kept `suffix_of` logged /\
    next_lsn w' = next_lsn w /\ active w' = [] /\ archive_retention w' = archive_retention w.
Proof.
  intros L E Hc Hs Hd. pose proof (truncated_live w l0 rss ra L Hc) as HT.
  unfold reset_files, st_bind, modify, gets, id. cbv beta iota.
  change (archive_retention (reset_truncate w)) with (archive_retention w).
  change (archived_through (reset_truncate w)) with (archived_through w).
  change (segments (reset_truncate w)) with (segments w). change (sealed (reset_truncate w)) with (sealed w).
  destruct (reset_sealed _ _ _ _) as [[files ks] total] eqn:Er.
  destruct HT as (l0' & old & rss' & -> & L' & Hk & Hra). eexists _, _, (concat rss'). split; [reflexivity|].
  ands; [| |done|done|done].
  - split; cbn [segment_bytes sealed]; [|done| | | |].
    + exists l0', rss', []. by split; [exact L'|].
    + intros Hz. cbn. rewrite Hd in Er by done. by simplify_eq/=.
    + split; [repeat constructor|]. intros r Hr. by apply not_elem_of_nil in Hr.
    + by intros i j a b _ Ha.
    + intros Hrt. by rewrite Hk.
  - rewrite <- E, concat_app. destruct Hra as [->| ->]; [apply suffix_nil|]. rewrite app_nil_r. by exists (concat old).
Qed.

Lemma generation_reset s w kept since :
  generation w kept since ->
  (exists e, reset s w = (Err e, w)) \/
  exists b w' kept', reset s w = (Val b, w') /\ generation w' kept' [] /\ kept' `suffix_of` kept ++ since /\
    next_lsn w' = next_lsn w /\ active w' = [] /\ archive_retention w' = archive_retention w.
Proof.
  intros [(l0 & rss & ra & L & E) Hseg H1 _ _ _]. rewrite reset_eq.
  destruct (archive_retention w && (0 <? segment_bytes w) && (0 <? end_offset w)) eqn:Ec.
  - bools. destruct s; [right|left; by eexists].
    apply (reset_files_generation (sealed_state w) l0 (rss ++ [ra]) []); try done; [| |by left|cbn; intros; lia].
    + apply live_seal; [done|]. by apply (live_nonempty crc32 w l0 rss ra L).
    + by rewrite concat_app, app_nil_r; cbn [concat]; rewrite app_nil_r.
  - right. apply (reset_files_generation w l0 rss ra); try done.
    destruct (archive_retention w); [|by right; right]. cbn [andb] in Ec.
    destruct (Z.ltb_spec 0 (segment_bytes w)) as [|Hz]; cbn [andb] in Ec.
    + left. apply Z.ltb_ge in Ec. rewrite (lv_end _ _ _ _ _ L), (dl_active _ _ _ _ _ _ _ _ (lv_disk _ _ _ _ _ L)) in Ec.
      rewrite app_nil_r in Ec. destruct ra as [|r ra]; [done|]. rewrite encs_cons, blen_app, blen_enc in Ec.
      pose proof (blen_nonneg (r_payload r)). pose proof (blen_nonneg (encs crc32 ra)). lia.
    + right; left. pose proof (dl_sealed _ _ _ _ _ _ _ _ (lv_disk _ _ _ _ _ L)) as HF.
      rewrite H1 in HF by lia. by apply Forall2_nil_inv_l in HF.
Qed.

(** There is room for [cs]. *)
Definition room_for (w : Wal) (cs : list wal_call) : Prop :=
  next_lsn w + Z.of_nat (length cs) <= u64_max /\ blen (active w) + calls_bytes cs <= u64_max.

Lemma call_bytes_pos c : 0 <= call_bytes c.
Proof. destruct c; cbn [call_bytes]; try lia. apply op_bytes_pos. Qed.

Lemma calls_bytes_pos cs : 0 <= calls_bytes cs.
Proof. induction cs as [|c cs IH]; cbn; [lia|]. pose proof (call_bytes_pos c). unfold calls_bytes in IH. lia. Qed.

Lemma generation_call c cs w kept since :
  call_ok c -> room_for w (c :: cs) -> generation w kept since ->
  exists kept', generation (call_exec c w) kept' (after_call c w since) /\ room_for (call_exec c w) cs /\
    kept' ++ after_call c w since `suffix_of` (kept ++ since) ++ call_logs c w.
Proof.
  unfold room_for. cbn [length calls_bytes foldr]. fold (calls_bytes cs). intros Hok [Hn Hb] G.
  pose proof (calls_bytes_pos cs). pose proof (call_bytes_pos c).
  destruct c as [op|s| |n]; cbn [call_exec after_call call_logs call_ok call_bytes] in *.
  - pose proof G as [(l0 & rss & ra & L & E) Hs H1 Hi Hw Hk]. pose proof (op_logs_length op w).
    pose proof (lv_first _ _ _ _ _ L). pose proof (lv_next _ _ _ _ _ L).
    destruct (exec_step op w Hok) as [S1 S2 S3]; [lia|lia|]. destruct (S1 l0 rss ra L) as (rss1 & ra1 & L1 & E1).
    destruct (exec_commit_wins op w since Hok Hi Hw) as [Hi' Hw']. destruct (exec_steady op w) as (T1 & T2 & T3).
    exists kept. ands; [|lia|lia|by rewrite app_assoc].
    split; [|lia| |done|done|by rewrite T2].
    + exists l0, rss1, ra1. split; [done|]. by rewrite E1, E, app_assoc.
    + rewrite T1. intros Hz. rewrite T3; auto.
  - destruct (generation_reset s w kept since G) as [[e ->]|(b & w' & kept' & -> & G' & Hsuf & Hx & Ha & _)]; cbn [fst snd].
    + exists kept. ands; [done|lia|lia|by rewrite app_nil_r].
    + exists kept'. rewrite Ha, Hx, !app_nil_r. pose proof (blen_nonneg (active w)). ands; [done|lia|change (blen []) with 0; lia|done].
  - exists kept. rewrite !app_nil_r. ands; [|cbn in *; lia..|done].
    destruct G as [(l0 & rss & ra & L & E) Hs H1 Hi Hw Hk]. split; try done. exists l0, rss, ra. split; [|done]. by destruct L.
  - exists kept. rewrite !app_nil_r. ands; [|cbn in *; lia..|done].
    destruct G as [(l0 & rss & ra & L & E) Hs H1 Hi Hw Hk]. split; try done. exists l0, rss, ra. split; [|done]. by destruct L.
Qed.

Lemma call_retention c w :
  c <> CallRetain -> archive_retention w = false -> archive_retention (call_exec c w) = false.
Proof.
  intros Hc Hr. destruct c as [op|s| |n]; cbn [call_exec]; [|rewrite reset_eq, Hr; cbn [andb]|done|done].
  - destruct (exec_steady op w) as (_ & -> & _). done.
  - unfold reset_files, st_bind, modify, gets, id. cbv beta iota. by destruct (reset_sealed _ _ _ _) as [[]].
Qed.

Lemma generation_run cs : forall w kept since,
  Forall call_ok cs -> room_for w cs -> generation w kept since ->
  exists kept', generation (call_run cs w) kept' (since_reset cs w since) /\
    kept' ++ since_reset cs w since `suffix_of` (kept ++ since) ++ calls_logged cs w /\
    (CallRetain ∉ cs -> archive_retention w = false -> kept' = []).
Proof.
  induction cs as [|c cs IH]; intros w kept since Hok Hroom G; cbn [call_run foldl since_reset calls_logged].
  - exists kept. rewrite app_nil_r. ands; [done|done|]. intros _. exact (ge_kept _ _ _ G).
  - apply Forall_cons_1 in Hok as [Hc Hok].
    destruct (generation_call c cs w kept since Hc Hroom G) as (k1 & G1 & R1 & S1).
    destruct (IH _ _ _ Hok R1 G1) as (k2 & G2 & S2 & H2). exists k2. ands; [done| |].
    + etrans; [exact S2|]. destruct S1 as [l S1]. exists l. by rewrite app_assoc, S1, <- !app_assoc.
    + intros [Hne Hin]%not_elem_of_cons Hr. apply H2; [done|]. by apply call_retention.
Qed.

(** ** Claims *)

(** C24: The log survives a torn write and goes on.  After any calls on a fresh
    log, with failing syncs and failing seals among them, a crash that leaves
    any proper prefix of one more record in the file costs exactly that prefix:
    reopening reports its length, reading returns exactly the records of the
    calls in order, and any further calls append after them.  No property of
    the checksum is used beyond its width. *)
Theorem log_survives_a_torn_write (ops ops' : list wal_op) (seg floor floor' : Z) (r : WalRecord) (k : nat)
    (w0 := open_with_segments_and_floor ∅ [] seg floor) (w1 := wal_run ops w0)
    (w2 := snd (truncate_torn_tail crc32
                  (open_with_segments_and_floor (segments w1) (active w1 ++ take k (enc crc32 r)) seg floor')))
    (Ho : Forall op_ok ops) (Ho' : Forall op_ok ops') (Hfl : floor <= u64_max)
    (Hr : rec_ok MAX_BODY r) (Hk : Z.of_nat k < blen (enc crc32 r))
    (Hfl' : floor <= floor' <= next_lsn w1) (Hroom : room w0 ops)
    (Hsz : blen (active w1) + blen (enc crc32 r) <= u64_max) (Hroom' : room w2 ops') :
  fst (truncate_torn_tail crc32
         (open_with_segments_and_floor (segments w1) (active w1 ++ take k (enc crc32 r)) seg floor')) = Val (Z.of_nat k) /\
  read_all crc32 (wal_run ops' w2) = Val (wal_logged ops w0 ++ wal_logged ops' w2, 0).
Proof.
  destruct (run_live ops w0 _ _ _ Ho Hroom (open_live seg floor Hfl)) as (rss & ra & L & E). cbn [concat app] in E.
  fold w1 in L. destruct (lv_disk _ _ _ _ _ L) as [D1 D2 D3 D4 D5 D6]. rewrite app_nil_r in D3.
  assert (Hlen : blen (take k (enc crc32 r)) = Z.of_nat k) by (unfold blen in *; rewrite length_take; lia).
  assert (Hn : next_lsn w1 = Z.max floor 1 + Z.of_nat (length (concat rss ++ ra))) by exact (lv_next _ _ _ _ _ L).
  destruct (reopen crc32 Hcrc (segments w1) (sealed w1) (active w1 ++ take k (enc crc32 r)) (Z.max floor 1) rss ra
    (take k (enc crc32 r)) seg floor') as (w & Hw & Lw & _).
  - split; try done; [by rewrite <- D3|]. rewrite blen_app, Hlen. lia.
  - by apply dead_end_torn.
  - lia.
  - lia.
  - intros Hnil. rewrite Hnil in Hn. cbn in Hn. lia.
  - unfold w2 in *. rewrite Hw in *. cbn [fst snd] in *. rewrite Hlen. split; [done|].
    destruct (run_live ops' w _ _ _ Ho' Hroom' Lw) as (rss2 & ra2 & L2 & E2).
    rewrite (read_all_live _ _ _ _ L2), E2, E. done.
Qed.

(** C28: Commit wins.  Whatever calls are made on a fresh log until it is closed
    (records of every kind, syncs, seals, truncations by [reset], the calls of
    the archiver), in whatever order and with whatever failing syncs and seals,
    the log read back is a suffix of what was logged and consists of what a
    truncation kept for the archive followed by the records since the last
    truncation.  Among the latter no abort follows a commit of the same
    transaction, the pair that recovery refuses; and as long as retention for
    the archive is not enabled they are the whole log. *)
Theorem no_abort_after_commit (cs : list wal_call) (seg floor : Z)
    (w0 := open_with_segments_and_floor ∅ [] seg floor)
    (Hc : Forall call_ok cs) (Hseg : 0 <= seg) (Hfl : floor <= u64_max) (Hroom : room_for w0 cs) :
  exists kept, read_all crc32 (call_run cs w0) = Val (kept ++ since_reset cs w0 [], 0) /\
    kept ++ since_reset cs w0 [] `suffix_of` calls_logged cs w0 /\
    commit_wins (since_reset cs w0 []) /\ (CallRetain ∉ cs -> kept = []).
Proof.
  destruct (generation_run cs w0 [] [] Hc Hroom) as (kept & [(l0 & rss & ra & L & E) _ _ _ Hw _] & S & Hk).
  { split; try done; [|split; [repeat constructor|]; intros r Hr; by apply not_elem_of_nil in Hr].
    exists (Z.max floor 1), [], []. split; [by apply open_live|done]. }
  exists kept. rewrite (read_all_live _ _ _ _ L), E. ands; auto.
Qed.
End Run.

(** ** Witnesses *)

Definition demo_ops : list wal_op :=
  [OpImage true 3 7 [1; 2; 3]; OpCommit true true 7; OpAbort true 8; OpCommit true false 9; OpAbort true 9; OpSync true].

Lemma demo_ops_ok : Forall op_ok demo_ops.
Proof. unfold demo_ops. repeat apply Forall_cons_2; [..|constructor]; cbn [op_ok]; ands; widths; by vm_compute. Qed.

Lemma log_survives_a_torn_write_witness :
  let w0 := open_with_segments_and_floor ∅ [] 100 0 in
  let w1 := wal_run byte_sum demo_ops w0 in
  let r := mkRecord 5 Commit 0 11 [] in
  let w2 := snd (truncate_torn_tail byte_sum
              (open_with_segments_and_floor (segments w1) (active w1 ++ take 39 (enc byte_sum r)) 100 3)) in
  length (sealed w2) = 1%nat /\
  read_all byte_sum (wal_run byte_sum [OpCommit true true 12] w2) =
  Val (wal_logged byte_sum demo_ops w0 ++ wal_logged byte_sum [OpCommit true true 12] w2, 0).
Proof.
  intros w0 w1 r w2. split; [by vm_compute|].
  refine (proj2 (log_survives_a_torn_write byte_sum byte_sum_u32 demo_ops [OpCommit true true 12] 100 0 3 r 39
    demo_ops_ok _ _ _ _ _ _ _ _)).
  - apply Forall_cons_2; [by vm_compute|constructor].
  - by vm_compute.
  - split; [|split; [|split]]; vm_compute; intuition congruence.
  - by vm_compute.
  - split; vm_compute; congruence.
  - split; vm_compute; congruence.
  - vm_compute; congruence.
  - split; vm_compute; congruence.
Defined.

Definition demo_calls : list wal_call :=
  (CallLog <$> demo_ops) ++ [CallReset true; CallLog (OpAbort true 10); CallLog (OpCommit true true 11); CallLog (OpAbort true 11)].

Lemma no_abort_after_commit_witness :
  exists kept, read_all byte_sum (call_run byte_sum demo_calls (open_with_segments_and_floor ∅ [] 100 0)) =
      Val (kept ++ since_reset byte_sum demo_calls (open_with_segments_and_floor ∅ [] 100 0) [], 0) /\
    length (since_reset byte_sum demo_calls (open_with_segments_and_floor ∅ [] 100 0) []) = 2%nat /\ kept = [] /\
    commit_wins (since_reset byte_sum demo_calls (open_with_segments_and_floor ∅ [] 100 0) []).
Proof.
  destruct (no_abort_after_commit byte_sum byte_sum_u32 demo_calls 100 0) as (kept & H1 & H2 & H3 & H4).
  - unfold demo_calls, demo_ops. repeat apply Forall_cons_2; [..|constructor]; cbn [call_ok op_ok]; ands; widths; by vm_compute.
  - lia.
  - vm_compute; congruence.
  - split; vm_compute; congruence.
  - exists kept. split; [exact H1|]. split; [by vm_compute|]. split; [|exact H3]. apply H4. intros H%list_elem_of_In. cbn in H. intuition congruence.
Defined.

(** With retention for the archive a truncation forgets which transactions
    committed although it keeps the segments that say so: a commit whose sync
    fails, a checkpoint's truncation and the abort leave the pair in the log. *)
Theorem retained_commit_is_aborted :
  let w := call_run byte_sum
             [CallRetain; CallLog (OpCommit true false 7); CallReset true; CallLog (OpAbort true 7)]
             (open_with_segments_and_floor ∅ [] 100 0) in
  transaction_outcomes byte_sum w = Val [(7, Committed); (7, Aborted)] /\
  terminal_outcomes_in_range byte_sum 0 10 w = Err (WalCorruption 2).
Proof. by vm_compute. Qed.

(** ** Where acknowledged commits are lost *)

(** A failed write consumes an LSN.  The next commit is written, synced and
    acknowledged with the following one, and recovery takes it for a torn
    tail. *)
Theorem failed_write_loses_a_later_commit :
  let w1 := snd (wal_commit byte_sum true None true 1 (wal_open ∅ [])) in
  let '(failed, w2) := wal_commit byte_sum true (Some 0) true 2 w1 in
  let '(acknowledged, w3) := wal_commit byte_sum true None true 3 w2 in
  failed = Err Io /\ acknowledged = Val 3 /\ durable_lsn w3 = 3 /\
  transaction_outcomes byte_sum (wal_open ∅ (active w3)) = Val [(1, Committed)].
Proof. by vm_compute. Qed.

(** A crash in [reset] after the active file is emptied and before the sealed
    segments are deleted, the checkpoint's floor being published already: the
    log reopens with a gap between the last sealed record and the floor, and
    the next acknowledged commit is not there at the recovery after. *)
Theorem crash_in_reset_loses_a_later_commit :
  let w1 := foldl (fun w x => snd (wal_commit byte_sum true None true x w))
              (open_with_segments_and_floor ∅ [] 64 0) [1; 2; 3] in
  let '(checkpoint, w2) := wal_checkpoint byte_sum true None true 4 0 w1 in
  let floor := next_lsn w2 in
  let crashed := reset_truncate w2 in
  let reopen w := truncate_torn_tail byte_sum (open_with_segments_and_floor (segments w) (active w) 64 floor) in
  let '(_, w3) := reopen crashed in
  let '(acknowledged, w4) := wal_commit byte_sum true None true 7 w3 in
  let '(lost, w5) := reopen w4 in
  checkpoint = Val 4 /\ acknowledged = Val 5 /\ durable_lsn w4 = 5 /\ lost = Val 40 /\
  transaction_outcomes byte_sum w5 = Val [(1, Committed); (2, Committed); (3, Committed)].
Proof. by vm_compute. Qed.
