(* ===== verification/GroupCommit.v ===== *)
(** * Group commit under interleaving

    Models the concurrency of [append] and [sync_through] in
    [crates/bicdb-page/src/wal.rs]: any number of threads append and wait for
    durability, one at a time is syncing.  The atomic steps are the code's
    critical sections: taking an LSN under the file lock, finishing the write
    and releasing it, capturing the sync target, the sync itself (which needs
    the file lock), and publishing [durable_lsn].  What a sync has put on stable
    storage is ghost state, [synced], in bytes of the active file. *)

(* @source crates/bicdb-page/src/wal.rs *)
From stdpp Require Import base tactics list numbers gmap relations.
From Stdlib Require Import ZArith Lia.
From S2P Require Import Prelude Search Bytes Errors PageFormat Mvcc Ranges Wal WalScan WalLog WalTheorems.
Local Open Scope Z_scope.
Local Open Scope bic_scope.

(** [SyncState] (211-215).  Its [syncing] flag and the local [target] of the thread that is syncing. *)
Inductive syncer := Idle | Captured (target : Z) | Flushed (target : Z).

(** The log, the record whose append holds the file lock, the syncing thread,
    and the bytes of the active file that are on stable storage. *)
Record gstate := mkG {
  log : Wal;
  writing : option WalRecord;
  phase : syncer;
  synced : Z
}.

Section Interleaving.
Variable crc32 : bytes -> Z.
Hypothesis Hcrc : forall l, is_u32 (crc32 l).

(** [append] (549-584).  The part up to [fetch_add]. *)
Definition reserve (payload : bytes) (w : Wal) : Wal :=
  let w := if needs_seal w payload then sealed_state w else w in
  set_next_lsn ((next_lsn w + 1) mod U64) w.

(** [append] (585-610).  The rest of the critical section. *)
Definition write (r : WalRecord) (w : Wal) : Wal :=
  set_end_offset (end_offset w + blen (enc crc32 r)) (set_active (active w ++ enc crc32 r) w).

(** The two parts make [append]. *)
Lemma append_in_two_parts w kind page tx payload :
  append crc32 true None kind page tx payload w =
  (Val (next_lsn w), write (new_record w kind page tx payload) (reserve payload w)).
Proof.
  rewrite append_eq. unfold reserve, write. by destruct (needs_seal w payload).
Qed.

(** [sync_through] (663-716).  The steps of the threads. *)
Inductive gstep : gstate -> gstate -> Prop :=
  | gs_reserve w ph sy kind page tx payload :
      is_u64 page -> is_u64 tx -> blen payload <= MAX_PAGE_SIZE -> next_lsn w < u64_max ->
      blen (active w) + 40 + blen payload <= u64_max ->
      gstep (mkG w None ph sy)
        (mkG (reserve payload w) (Some (new_record w kind page tx payload)) ph
           (if needs_seal w payload then 0 else sy))
  | gs_write w r ph sy : gstep (mkG w (Some r) ph sy) (mkG (write r w) None ph sy)
  | gs_index w p ph sy ranges : gstep (mkG w p ph sy) (mkG (set_committed ranges w) p ph sy)
  | gs_capture w p sy : gstep (mkG w p Idle sy) (mkG w p (Captured (sat_sub (next_lsn w) 1)) sy)
  | gs_flush w t sy : gstep (mkG w None (Captured t) sy) (mkG w None (Flushed t) (blen (active w)))
  | gs_flush_fails w t sy : gstep (mkG w None (Captured t) sy) (mkG w None Idle sy)
  | gs_publish w p t sy :
      gstep (mkG w p (Flushed t) sy) (mkG (set_durable (Z.max (durable_lsn w) t) w) p Idle sy).

(** The log once the write in progress is done. *)
Definition complete (g : gstate) : Wal :=
  match writing g with Some r => write r (log g) | None => log g end.

(** Every record up to [t] is sealed or in the synced part of the active file. *)
Definition covered (l0 : Z) (rss : list (list WalRecord)) (ra : list WalRecord) (sy t : Z) : Prop :=
  exists j, (j <= length ra)%nat /\ blen (encs crc32 (take j ra)) <= sy /\
            t < l0 + Z.of_nat (length (concat rss) + j).

Record ginv (l0 : Z) (g : gstate) (rss : list (list WalRecord)) (ra : list WalRecord) : Prop := {
  gi_live : live crc32 (complete g) l0 rss ra;
  gi_next : next_lsn (complete g) = next_lsn (log g);
  gi_synced : synced g <= blen (active (log g));
  gi_durable : covered l0 rss ra (synced g) (durable_lsn (log g));
  gi_phase : match phase g with
             | Idle => True
             | Captured t => t < next_lsn (log g)
             | Flushed t => covered l0 rss ra (synced g) t
             end
}.

Lemma covered_app l0 rss ra r sy t : covered l0 rss ra sy t -> covered l0 rss (ra ++ [r]) sy t.
Proof.
  intros (j & H1 & H2 & H3). exists j. rewrite take_app_le by done. rewrite length_app. ands; [lia|done|done].
Qed.

Lemma covered_sealed l0 rss ra r sy t : covered l0 rss ra sy t -> covered l0 (rss ++ [ra]) [r] 0 t.
Proof.
  intros (j & H1 & _ & H3). exists 0%nat. rewrite concat_app, length_app. cbn [concat]. rewrite app_nil_r.
  ands; [lia|done|lia].
Qed.

Lemma covered_max l0 rss ra sy t u :
  covered l0 rss ra sy t -> covered l0 rss ra sy u -> covered l0 rss ra sy (Z.max t u).
Proof. intros Ht Hu. by destruct (Z.max_spec t u) as [[_ ->]|[_ ->]]. Qed.

Lemma reserve_inv l0 w ph sy kind page tx payload rss ra (r := new_record w kind page tx payload) :
  is_u64 page -> is_u64 tx -> blen payload <= MAX_PAGE_SIZE -> next_lsn w < u64_max ->
  blen (active w) + 40 + blen payload <= u64_max -> ginv l0 (mkG w None ph sy) rss ra ->
  exists rss' ra', ginv l0 (mkG (reserve payload w) (Some r) ph (if needs_seal w payload then 0 else sy)) rss' ra'.
Proof.
  intros Hp Ht Hl Hn Hb [L _ Hs Hd Hph]. cbn in L, Hs, Hd.
  pose proof (lv_first _ _ _ _ _ L). pose proof (lv_next _ _ _ _ _ L) as Hnx.
  assert (Hr : rec_ok MAX_BODY r) by (apply new_record_ok; auto; lia).
  pose proof (live_appended crc32 w l0 rss ra kind page tx payload L Hr Hb) as HL. fold r in HL.
  unfold appended in HL. change (r_payload r) with payload in HL.
  assert (Hmod : (next_lsn w + 1) mod U64 = next_lsn w + 1) by (apply Z.mod_small; widths; lia).
  destruct (needs_seal w payload) eqn:En; destruct HL as (L' & _ & _).
  - exists (rss ++ [ra]), [r]. split; cbn [synced log phase writing].
    + unfold complete. cbn [writing log]. unfold reserve, write. rewrite En. exact L'.
    + done.
    + unfold reserve. rewrite En. done.
    + unfold reserve. rewrite En. by apply (covered_sealed _ _ _ _ sy).
    + destruct ph as [|t|t]; [done| |by apply (covered_sealed _ _ _ _ sy)]. cbn [phase log] in Hph.
      unfold reserve. rewrite En. change (t < (next_lsn w + 1) mod U64). lia.
  - exists rss, (ra ++ [r]). split; cbn [synced log phase writing].
    + unfold complete. cbn [writing log]. unfold reserve, write. rewrite En. exact L'.
    + done.
    + unfold reserve. rewrite En. done.
    + unfold reserve. rewrite En. by apply covered_app.
    + destruct ph as [|t|t]; [done| |by apply covered_app]. cbn [phase log] in Hph.
      unfold reserve. rewrite En. change (t < (next_lsn w + 1) mod U64). lia.
Qed.

Lemma gstep_inv l0 g g' rss ra :
  gstep g g' -> ginv l0 g rss ra -> exists rss' ra', ginv l0 g' rss' ra'.
Proof.
  intros Hs I. destruct Hs as [w ph sy kind page tx payload H1 H2 H3 H4 H5|w r ph sy|w p ph sy ranges|w p sy
    |w t sy|w t sy|w p t sy].
  - by apply (reserve_inv l0 w ph sy kind page tx payload rss ra).
  - exists rss, ra. destruct I as [L N S D P]. split; try done. cbn [synced log write active set_end_offset set_active] in *. rewrite blen_app.
    pose proof (blen_nonneg (enc crc32 r)). lia.
  - exists rss, ra. destruct I as [L N S D P]. unfold complete in *. cbn [writing log] in *.
    split; try done; unfold complete; cbn [writing log]; [|by destruct p].
    destruct p; by apply (live_committed crc32 _ _ _ _ ranges) in L.
  - exists rss, ra. destruct I as [L N S D P]. split; try done. cbn [phase log].
    pose proof (lv_first _ _ _ _ _ L). pose proof (lv_next _ _ _ _ _ L). cbn [log] in N. unfold sat_sub. lia.
  - exists rss, ra. destruct I as [L N S D P]. cbn [complete writing log phase synced] in *.
    assert (Hall : forall u, u < next_lsn w -> covered l0 rss ra (blen (active w)) u).
    { intros u Hu. exists (length ra). rewrite firstn_all. ands; [done| |].
      - rewrite (dl_active _ _ _ _ _ _ _ _ (lv_disk _ _ _ _ _ L)), app_nil_r. done.
      - rewrite <- length_app, <- (lv_next _ _ _ _ _ L). done. }
    split; try done; [|by apply Hall]. apply Hall. destruct D as (j & Hj & _ & Hlt).
    rewrite (lv_next _ _ _ _ _ L), length_app. cbn [log] in *. lia.
  - exists rss, ra. destruct I as [L N S D P]. by split.
  - exists rss, ra. destruct I as [L N S D P]. cbn [phase synced log] in *. split; try done.
    + destruct p; by apply (live_durable crc32 _ _ _ _ (Z.max (durable_lsn w) t)) in L.
    + by destruct p.
    + by apply covered_max.
Qed.

(** A fresh log nobody is using. *)
Definition gstart (seg floor : Z) : gstate := mkG (open_with_segments_and_floor ∅ [] seg floor) None Idle 0.

Lemma reachable_inv seg floor g :
  0 <= floor <= u64_max -> rtc gstep (gstart seg floor) g -> exists rss ra, ginv (Z.max floor 1) g rss ra.
Proof.
  intros Hf Hr. revert g Hr.
  apply (rtc_ind_r (fun g => exists rss ra, ginv (Z.max floor 1) g rss ra)).
  - exists [], []. split; try done; [apply open_live; lia|]. exists 0%nat. ands; [done|done|].
    change (durable_lsn (log (gstart seg floor))) with 0. cbn. lia.
  - intros y z _ Hs (rss & ra & I). by apply (gstep_inv _ y z rss ra).
Qed.

(** The file a crash leaves: a prefix of what was written, partial bytes of the
    write in progress included, and at least what was synced. *)
Definition crash_file (g : gstate) (k : nat) : bytes := take k (active (complete g)).

Lemma ok_take rss ra j : Forall (rec_ok MAX_BODY) (concat rss ++ ra) -> Forall (rec_ok MAX_BODY) (concat rss ++ take j ra).
Proof. rewrite !Forall_app. intros [H1 H2]. split; [done|]. by apply Forall_take. Qed.

Lemma crashed_disk l0 w rss ra k :
  live crc32 w l0 rss ra ->
  exists j torn, disk_log crc32 (segments w) (sealed w) (take k (active w)) l0 rss (take j ra) torn /\
    dead_end crc32 (take j ra) torn /\
    forall i, (length (encs crc32 (take i ra)) <= k)%nat -> take i ra = take i (take j ra).
Proof.
  intros L. destruct (lv_disk _ _ _ _ _ L) as [D1 D2 D3 D4 D5 D6]. rewrite app_nil_r in D3.
  pose proof D6 as [_ Ho]%Forall_app.
  destruct (prefix_of_records crc32 Hcrc ra k Ho) as (j & torn & E & Hd & Hm).
  exists j, torn. ands; [|apply Hd|exact Hm]. rewrite D3, E. split; try done.
  - rewrite <- E, <- D3. unfold blen in *. rewrite length_take. lia.
  - apply chain_app in D5 as [C1 C2]. apply chain_app. split; [done|].
    rewrite <- (take_drop j ra) in C2. by apply chain_app in C2 as [C2 _].
  - by apply ok_take.
Qed.

(** ** Claim *)

(** C11: An acknowledged commit survives any crash.  However appends, segment
    seals and group syncs of any number of threads interleave, failing syncs
    included, a crash that keeps at least the synced bytes of the active file
    (and any part of what follows, the record being written included) recovers
    a prefix of the log that contains every record up to [durable_lsn], which
    is what [sync_through] waits for before [commit] returns. *)
Theorem acknowledged_commits_survive (seg floor : Z) (g : gstate) (k : nat)
    (Hf : 0 <= floor <= u64_max) (Hreach : rtc gstep (gstart seg floor) g) (Hk : synced g <= Z.of_nat k)
    (rec := truncate_torn_tail crc32
              (open_with_segments_and_floor (segments (complete g)) (crash_file g k) seg floor)) :
  exists torn rs kept,
    fst rec = Val torn /\ read_all crc32 (complete g) = Val (rs, 0) /\ read_all crc32 (snd rec) = Val (kept, 0) /\
    kept `prefix_of` rs /\ forall r, r ∈ rs -> r_lsn r <= durable_lsn (log g) -> r ∈ kept.
Proof.
  destruct (reachable_inv seg floor g Hf Hreach) as (rss & ra & [L N S D _]).
  destruct (crashed_disk _ _ rss ra k L) as (j & torn & Dk & Hd & Hm).
  destruct (reopen crc32 Hcrc _ _ _ _ rss (take j ra) torn seg floor Dk Hd) as (w & Hw & Lw & _);
    [lia|lia|lia|].
  exists (blen torn), (concat rss ++ ra), (concat rss ++ take j ra). unfold rec, crash_file. rewrite Hw. cbn [fst snd].
  ands; [done|by apply (read_all_live crc32 Hcrc _ _ _ _ L)|by apply (read_all_live crc32 Hcrc _ _ _ _ Lw)| |].
  - apply prefix_app. exists (drop j ra). by rewrite take_drop.
  - intros r [i Hi]%list_elem_of_lookup_1 Hle. destruct D as (n & Hn & Hb & Hlt).
    pose proof (chain_lookup _ _ _ _ (dl_chain _ _ _ _ _ _ _ _ (lv_disk _ _ _ _ _ L)) Hi) as Hlsn.
    assert (Ei : take n ra = take n (take j ra)) by (apply Hm; unfold blen in Hb; lia).
    apply elem_of_app. destruct (decide (i < length (concat rss))%nat) as [Hl|Hg].
    + left. rewrite lookup_app_l in Hi by done. by apply list_elem_of_lookup_2 in Hi.
    + right. rewrite lookup_app_r in Hi by lia.
      assert (Hin : take n ra !! (i - length (concat rss))%nat = Some r) by (rewrite lookup_take_lt by lia; done).
      rewrite Ei in Hin. apply list_elem_of_lookup_2 in Hin. by apply elem_of_take in Hin as (? & ? & ?); eapply list_elem_of_lookup_2.
Qed.
End Interleaving.

(** ** Witness *)

(** Commits 1 and 2 interleave with a sync whose target was captured between
    them; commit 3 is being written at the crash. *)
Definition gtrace : list gstate :=
  let commit_record w x := new_record w Commit 0 x [] in
  let g0 := gstart 0 0 in
  let w1 := reserve [] (log g0) in
  let g1 := mkG w1 (Some (commit_record (log g0) 1)) Idle 0 in
  let w2 := write byte_sum (commit_record (log g0) 1) w1 in
  let g2 := mkG w2 None Idle 0 in
  let g3 := mkG w2 None (Captured (sat_sub (next_lsn w2) 1)) 0 in
  let w4 := reserve [] w2 in
  let g4 := mkG w4 (Some (commit_record w2 2)) (Captured (sat_sub (next_lsn w2) 1)) 0 in
  let w5 := write byte_sum (commit_record w2 2) w4 in
  let g5 := mkG w5 None (Captured (sat_sub (next_lsn w2) 1)) 0 in
  let g6 := mkG w5 None (Flushed (sat_sub (next_lsn w2) 1)) (blen (active w5)) in
  let w7 := set_durable (Z.max (durable_lsn w5) (sat_sub (next_lsn w2) 1)) w5 in
  let g7 := mkG w7 None Idle (blen (active w5)) in
  let g8 := mkG (reserve [] w7) (Some (commit_record w7 3)) Idle (blen (active w5)) in
  [g0; g1; g2; g3; g4; g5; g6; g7; g8].

Definition gtrace_end : gstate := default (gstart 0 0) (last gtrace).

Lemma gtrace_steps : rtc (gstep byte_sum) (gstart 0 0) gtrace_end.
Proof.
  unfold gtrace_end. change (default _ _) with (default (gstart 0 0) (gtrace !! 8%nat)).
  eapply rtc_l; [apply (gs_reserve _ _ Idle 0 Commit 0 1 []); by vm_compute|].
  eapply rtc_l; [apply gs_write|]. eapply rtc_l; [apply gs_capture|].
  eapply rtc_l; [apply (gs_reserve _ _ _ 0 Commit 0 2 []); by vm_compute|].
  eapply rtc_l; [apply gs_write|]. eapply rtc_l; [apply gs_flush|]. eapply rtc_l; [apply gs_publish|].
  eapply rtc_l; [apply (gs_reserve _ _ Idle _ Commit 0 3 []); by vm_compute|].
  apply rtc_refl.
Qed.

Lemma acknowledged_commits_survive_witness :
  durable_lsn (log gtrace_end) = 1 /\ synced gtrace_end = 80 /\
  exists torn rs kept,
    fst (truncate_torn_tail byte_sum (open_with_segments_and_floor (segments (complete byte_sum gtrace_end))
           (crash_file byte_sum gtrace_end 100) 0 0)) = Val torn /\
    read_all byte_sum (complete byte_sum gtrace_end) = Val (rs, 0) /\
    read_all byte_sum (snd (truncate_torn_tail byte_sum (open_with_segments_and_floor
      (segments (complete byte_sum gtrace_end)) (crash_file byte_sum gtrace_end 100) 0 0))) = Val (kept, 0) /\
    kept `prefix_of` rs /\ forall r, r ∈ rs -> r_lsn r <= durable_lsn (log gtrace_end) -> r ∈ kept.
Proof.
  split; [by vm_compute|]. split; [by vm_compute|].
  apply (acknowledged_commits_survive byte_sum byte_sum_u32 0 0 gtrace_end 100); [by vm_compute| |by vm_compute].
  exact gtrace_steps.
Defined.
