(* ===== verification/PageStore.v ===== *)
(** * The page store

    Models [crates/bicdb-page/src/manager.rs]: page addressing over the
    monolithic, the extent-segmented and the mid-migration layout, checked reads
    and stamped writes, fault injection, the superblock, allocation over the
    intrusive free list, its repair, and the extent migration.  Segment files
    are byte lists.  The store is one with no backup snapshot and no extent
    tracker attached; the operating system's positioned reads and writes are
    complete up to the end of the file, and syncs succeed.  I/O counters and
    latencies are left out. *)

(* @source crates/bicdb-page/src/manager.rs *)
From stdpp Require Import base tactics list numbers gmap.
From Stdlib Require Import ZArith Lia.
From S2P Require Import Prelude Search Bytes Errors PageFormat.
Local Open Scope Z_scope.
Local Open Scope bic_scope.

(** [SUPERBLOCK_MAGIC] (31-31). *)
Definition SUPERBLOCK_MAGIC : bytes := [66; 73; 67; 68; 66; 80; 71; 0].
(** [SUPERBLOCK_MAGIC_SEGMENTED] (35-35). *)
Definition SUPERBLOCK_MAGIC_SEGMENTED : bytes := [66; 73; 67; 68; 66; 80; 71; 50].
(** [SUPERBLOCK_MAGIC_TRACKED] (37-37). *)
Definition SUPERBLOCK_MAGIC_TRACKED : bytes := [66; 73; 67; 68; 66; 80; 71; 51].
(** [SUPERBLOCK_MAGIC_TRACKED_MONOLITHIC] (38-38). *)
Definition SUPERBLOCK_MAGIC_TRACKED_MONOLITHIC : bytes := [66; 73; 67; 68; 66; 80; 71; 52].
(** [MIN_EXTENT_BYTES] (41-41). *)
Definition MIN_EXTENT_BYTES : Z := 1024 * 1024.
(** [MAX_FREE_LIST_ADOPTION_PAGES] (71-71). *)
Definition MAX_FREE_LIST_ADOPTION_PAGES : Z := 65536.

(** [FaultInjection] (259-266). *)
Record FaultInjection := mkFaults {
  tear_write : option (Z * Z);
  fail_write : option Z;
  writes : Z
}.
Definition no_faults : FaultInjection := mkFaults None None 0.

(** [FaultInjection::intercept] (289-308): how many bytes to write. *)
Definition intercept (len : Z) : st PageError FaultInjection Z :=
  do f <- gets id ;;
  let index := (writes f + 1) mod U64 in
  modify (fun f => mkFaults (tear_write f) (fail_write f) index) ;;;
  if bool_decide (fail_write f = Some index) then st_fail Io
  else
    match tear_write f with
    | Some (nth, n) => if nth =? index then st_ret (Z.min n len) else st_ret len
    | None => st_ret len
    end.

(** [Superblock] (647-666). *)
Record SuperMeta := mkMeta {
  page_count : Z;
  free_list_head : Z;
  free_page_count : Z;
  m_generation : Z;
  root_page : Z;
  checkpoint_lsn : Z;
  m_extent_pages : Z;
  m_migration_target_pages : Z;
  m_migration_watermark : Z
}.

(** [PageStore] (713-751). *)
Record PageStore := mkStore {
  files : list bytes;
  dirty_segments : gset Z;
  extent_pages : Z;
  migration_target_pages : Z;
  migration_watermark : Z;
  backup_format : bool;
  page_size : Z;
  fsync : bool;
  meta : SuperMeta;
  faults : FaultInjection
}.

Abbreviation pst := (st PageError PageStore).

Definition set_files (f : list bytes) (s : PageStore) : PageStore :=
  mkStore f (dirty_segments s) (extent_pages s) (migration_target_pages s) (migration_watermark s)
    (backup_format s) (page_size s) (fsync s) (meta s) (faults s).
Definition set_dirty (d : gset Z) (s : PageStore) : PageStore :=
  mkStore (files s) d (extent_pages s) (migration_target_pages s) (migration_watermark s)
    (backup_format s) (page_size s) (fsync s) (meta s) (faults s).
Definition set_layout (e t w : Z) (s : PageStore) : PageStore :=
  mkStore (files s) (dirty_segments s) e t w (backup_format s) (page_size s) (fsync s) (meta s) (faults s).
Definition set_backup (b : bool) (s : PageStore) : PageStore :=
  mkStore (files s) (dirty_segments s) (extent_pages s) (migration_target_pages s) (migration_watermark s)
    b (page_size s) (fsync s) (meta s) (faults s).
Definition set_meta (m : SuperMeta) (s : PageStore) : PageStore :=
  mkStore (files s) (dirty_segments s) (extent_pages s) (migration_target_pages s) (migration_watermark s)
    (backup_format s) (page_size s) (fsync s) m (faults s).
Definition set_faults (f : FaultInjection) (s : PageStore) : PageStore :=
  mkStore (files s) (dirty_segments s) (extent_pages s) (migration_target_pages s) (migration_watermark s)
    (backup_format s) (page_size s) (fsync s) (meta s) f.

Definition with_head (h n : Z) (m : SuperMeta) : SuperMeta :=
  mkMeta (page_count m) h n (m_generation m) (root_page m) (checkpoint_lsn m) (m_extent_pages m)
    (m_migration_target_pages m) (m_migration_watermark m).
Definition with_count (c : Z) (m : SuperMeta) : SuperMeta :=
  mkMeta c (free_list_head m) (free_page_count m) (m_generation m) (root_page m) (checkpoint_lsn m)
    (m_extent_pages m) (m_migration_target_pages m) (m_migration_watermark m).
Definition with_gen (g : Z) (m : SuperMeta) : SuperMeta :=
  mkMeta (page_count m) (free_list_head m) (free_page_count m) g (root_page m) (checkpoint_lsn m)
    (m_extent_pages m) (m_migration_target_pages m) (m_migration_watermark m).
Definition with_root (r l : Z) (m : SuperMeta) : SuperMeta :=
  mkMeta (page_count m) (free_list_head m) (free_page_count m) (m_generation m) r l
    (m_extent_pages m) (m_migration_target_pages m) (m_migration_watermark m).

(** [free_list_corruption] (668-675). *)
Definition free_list_corruption (m : SuperMeta) : PageError :=
  FreeListCorruption (free_list_head m) (free_page_count m) (page_count m).

(** [validate_free_list_metadata] (682-706). *)
Definition validate_free_list_metadata (m : SuperMeta) : pres unit :=
  if page_count m =? 0 then Err (free_list_corruption m)
  else if negb (Bool.eqb (free_list_head m =? 0) (free_page_count m =? 0)) then Err (free_list_corruption m)
  else if sat_sub (page_count m) 1 <? free_page_count m then Err (free_list_corruption m)
  else if (page_count m <=? free_list_head m) && negb (free_list_head m =? 0) then Err (free_list_corruption m)
  else Val tt.

(** ** Files *)

(* @source crates/bicdb-page/src/pio.rs *)
(** [read_at] (30-33).  What is there of [n] bytes at [off]. *)
Definition read_at (file : bytes) (n off : Z) : bytes := sub file off n.

(** [set_len]. *)
Definition set_len (n : Z) (file : bytes) : bytes :=
  if n <=? blen file then take (Z.to_nat n) file else file ++ zeros (n - blen file).

(** [write_at] (37-40).  A write past the end fills the gap with zeros. *)
Definition write_at (v : bytes) (off : Z) (file : bytes) : bytes :=
  if bool_decide (v = []) then file
  else patch (if blen file <? off then set_len off file else file) off v.

(* @source crates/bicdb-page/src/manager.rs *)
(** [locate] (1032-1048). *)
Definition locate (s : PageStore) (p : Z) : Z * Z :=
  if 0 <? extent_pages s then (p / extent_pages s, p mod extent_pages s * page_size s)
  else if (0 <? migration_target_pages s) && (p <? migration_watermark s)
  then (p / migration_target_pages s, p mod migration_target_pages s * page_size s)
  else (0, file_offset p (page_size s)).

(** [ensure_segment] (1052-1068): empty files up through [index]. *)
Definition ensure_segment (index : Z) : pst unit :=
  modify (fun s => set_files (files s ++ replicate (Z.to_nat (index + 1) - length (files s)) []) s).

(** [mark_segment_dirty] (1070-1072). *)
Definition mark_segment_dirty (index : Z) : pst unit :=
  modify (fun s => set_dirty (dirty_segments s ∪ {[index]}) s).

Definition segment_at (s : PageStore) (index : Z) : option bytes :=
  if index <? 0 then None else files s !! Z.to_nat index.

(** [sync_data_observed] (2445-2465). *)
Definition sync_data_observed : pst unit := modify (set_dirty ∅).
(** [sync] (2438-2443). *)
Definition sync : pst unit :=
  do s <- gets id ;; if fsync s then sync_data_observed else st_ret tt.

Section Checksummed.
Variable crc32 : bytes -> Z.

(** ** Reading and writing pages *)

(** [read_page_unchecked] (2313-2367): the header, and the bytes in [buffer]. *)
Definition read_page_unchecked (s : PageStore) (p : Z) : pres (PageHeader * bytes) :=
  let '(segment, offset) := locate s p in
  match segment_at s segment with
  | None => Err (ShortRead p 0 (page_size s))
  | Some file =>
      let buffer := read_at file (page_size s) offset in
      if negb (blen buffer =? page_size s) then Err (ShortRead p (blen buffer) (page_size s))
      else
        let! _ := verify crc32 buffer p in
        let! header := decode buffer in
        Val (header, buffer)
  end.

(** [read_page] (2299-2309). *)
Definition read_page (s : PageStore) (p : Z) : pres (PageHeader * bytes) :=
  if page_count (meta s) <=? p then Err (OutOfBounds p (page_count (meta s)))
  else read_page_unchecked s p.

(** [read_header] (2371-2374). *)
Definition read_header (s : PageStore) (p : Z) : pres PageHeader :=
  let! (header, _) := read_page_unchecked s p in Val header.

(** Run [m] on a local buffer. *)
Definition on_buffer (m : st PageError bytes unit) (buffer : bytes) : pst bytes :=
  fun s => match m buffer with
           | (Val _, b) => (Val b, s)
           | (Err e, _) => (Err e, s)
           | (Panic, _) => (Panic, s)
           end.

(** Run [intercept] on the store's faults. *)
Definition intercepted (len : Z) : pst Z :=
  fun s => let '(r, f) := intercept len (faults s) in (r, set_faults f s).

(** The magic the superblock of this store carries. *)
Definition tracked_magic (s : PageStore) : bytes :=
  if (extent_pages s =? 0) && (migration_target_pages s =? 0)
  then SUPERBLOCK_MAGIC_TRACKED_MONOLITHIC else SUPERBLOCK_MAGIC_TRACKED.

(** [write_page_raw] (2391-2436): the result is [buffer] as it was stamped. *)
Definition write_page_raw (p : Z) (buffer : bytes) (gen : Z) : pst bytes :=
  do s <- gets id ;;
  do buffer <- (if (p =? SUPERBLOCK_PAGE_ID) && backup_format s
                then on_buffer (copy_at PAGE_HEADER_BYTES (tracked_magic s)) buffer
                else st_ret buffer) ;;
  do buffer <- on_buffer (finalize crc32 gen) buffer ;;
  let '(segment, offset) := locate s p in
  ensure_segment segment ;;;
  do to_write <- intercepted (blen buffer) ;;
  modify (fun s => set_files (alter (write_at (take (Z.to_nat to_write) buffer) offset)
                                (Z.to_nat segment) (files s)) s) ;;;
  mark_segment_dirty segment ;;;
  st_ret buffer.

(** [write_page] (2381-2389). *)
Definition write_page (p : Z) (buffer : bytes) : pst bytes :=
  do s <- gets id ;;
  let gen := (m_generation (meta s) + 1) mod U64 in
  modify (fun s => set_meta (with_gen gen (meta s)) s) ;;;
  write_page_raw p buffer gen.

(** ** The superblock *)

(** [write_superblock_meta] (2531-2570). *)
Definition write_superblock_meta (m : SuperMeta) : pst unit :=
  do s <- gets id ;;
  do page <- on_buffer (
    encode (new_header SUPERBLOCK_PAGE_ID Superblock (page_size s)) ;;;
    copy_at 64 (if (extent_pages s =? 0) && (migration_target_pages s =? 0)
                then if backup_format s then SUPERBLOCK_MAGIC_TRACKED_MONOLITHIC else SUPERBLOCK_MAGIC
                else if backup_format s then SUPERBLOCK_MAGIC_TRACKED else SUPERBLOCK_MAGIC_SEGMENTED) ;;;
    copy_at 72 (le_enc 4 (page_size s)) ;;;
    copy_at 76 (le_enc 8 (page_count m)) ;;;
    copy_at 84 (le_enc 8 (free_list_head m)) ;;;
    copy_at 92 (le_enc 8 (free_page_count m)) ;;;
    copy_at 100 (le_enc 8 (root_page m)) ;;;
    copy_at 108 (le_enc 8 (checkpoint_lsn m)) ;;;
    copy_at 116 (le_enc 8 (extent_pages s)) ;;;
    copy_at 124 (le_enc 8 (migration_target_pages s)) ;;;
    copy_at 132 (le_enc 8 (migration_watermark s))) (zeros (page_size s)) ;;
  write_page_raw SUPERBLOCK_PAGE_ID page (Z.max (m_generation m) 1) ;;;
  st_ret tt.

(** [write_superblock] (2523-2526). *)
Definition write_superblock : pst unit :=
  do m <- gets meta ;; write_superblock_meta m.

(** [flush] (2468-2471). *)
Definition flush : pst unit := write_superblock ;;; sync.

(** One of the four magics. *)
Definition known_magic (m : bytes) : bool :=
  bool_decide (m = SUPERBLOCK_MAGIC) || bool_decide (m = SUPERBLOCK_MAGIC_SEGMENTED)
  || bool_decide (m = SUPERBLOCK_MAGIC_TRACKED) || bool_decide (m = SUPERBLOCK_MAGIC_TRACKED_MONOLITHIC).

(** [probe_page_size] (2475-2521). *)
Definition probe_page_size (s : PageStore) (expected : Z) : pres unit :=
  match segment_at s 0 with
  | None => Panic
  | Some file =>
      let got := read_at file MIN_PAGE_SIZE 0 in
      if blen got <? PAGE_HEADER_BYTES + 12 then Err (ShortRead SUPERBLOCK_PAGE_ID (blen got) (PAGE_HEADER_BYTES + 12))
      else if negb (bool_decide (sub got 0 4 = PAGE_MAGIC)) then Err (NotAPageFile (sub got 0 4))
      else if negb (known_magic (sub got 64 8)) then Err (NotAPageFile (sub got 64 4))
      else if negb (u32_at got 72 =? expected) then Err (PageSizeMismatch (u32_at got 72) expected)
      else Val tt
  end.

(** [read_superblock] (2572-2641); [expected] is a valid page size, so the body
    is in bounds. *)
Definition read_superblock (expected : Z) : pst SuperMeta :=
  do s <- gets id ;;
  st_lift (probe_page_size s expected) ;;;
  do (header, page) <- st_lift (read_page_unchecked s SUPERBLOCK_PAGE_ID) ;;
  if negb (bool_decide (page_type header = Superblock))
  then st_fail (UnexpectedPageType SUPERBLOCK_PAGE_ID (page_type_u8 (page_type header)) (page_type_u8 Superblock))
  else
    let magic := sub page 64 8 in
    modify (set_backup (bool_decide (magic = SUPERBLOCK_MAGIC_TRACKED)
                        || bool_decide (magic = SUPERBLOCK_MAGIC_TRACKED_MONOLITHIC))) ;;;
    let segmented := bool_decide (magic = SUPERBLOCK_MAGIC_SEGMENTED)
                     || bool_decide (magic = SUPERBLOCK_MAGIC_TRACKED) in
    if negb segmented && negb (bool_decide (magic = SUPERBLOCK_MAGIC))
       && negb (bool_decide (magic = SUPERBLOCK_MAGIC_TRACKED_MONOLITHIC))
    then st_fail (NotAPageFile (sub page 64 4))
    else if negb (u32_at page 72 =? expected) then st_fail (PageSizeMismatch (u32_at page 72) expected)
    else
      st_ret (mkMeta (u64_at page 76) (u64_at page 84) (u64_at page 92) (generation header)
                (u64_at page 100) (u64_at page 108)
                (if segmented then u64_at page 116 else 0)
                (if segmented then u64_at page 124 else 0)
                (if segmented then u64_at page 132 else 0)).

(** [validate_extent_bytes] (2869-2880). *)
Definition validate_extent_bytes (extent_bytes page_size : Z) : pres unit :=
  if extent_bytes =? 0 then Val tt
  else if (extent_bytes <? MIN_EXTENT_BYTES) || negb (extent_bytes mod page_size =? 0)
  then Err (InvalidExtentBytes extent_bytes page_size)
  else Val tt.

(** [open_existing_segments] (993-1023): [fs] are the consecutive segment files
    on disk; a missing required one is refused. *)
Definition open_existing_segments (fs : list bytes) (count : Z) : pst unit :=
  do s <- gets id ;;
  let extent := if 0 <? extent_pages s then extent_pages s else migration_target_pages s in
  if extent =? 0 then st_ret tt
  else
    modify (set_files fs) ;;;
    if Z.of_nat (length fs) <? Z.max ((count + extent - 1) / extent) 1
    then st_fail (SegmentMissing count)
    else st_ret tt.

(** [open] (801-887) on the segment files [fs] found at the path. *)
Definition open (fs : list bytes) (opt_page_size opt_extent_bytes : Z) (opt_fsync : bool) : pres PageStore :=
  let! _ := validate_page_size opt_page_size in
  let! _ := validate_extent_bytes opt_extent_bytes opt_page_size in
  if bool_decide (default [] (head fs) = []) then
    let s := mkStore [[]] ∅ (opt_extent_bytes / opt_page_size) 0 0 false opt_page_size opt_fsync
               (mkMeta 1 0 0 0 0 0 0 0 0) no_faults in
    match write_superblock s with
    | (Val _, s') => Val s'
    | (Err e, _) => Err e
    | (Panic, _) => Panic
    end
  else
    let s := mkStore (take 1 fs) ∅ 0 0 0 false opt_page_size opt_fsync (mkMeta 0 0 0 0 0 0 0 0 0) no_faults in
    let load :=
      do m <- read_superblock opt_page_size ;;
      modify (fun s => set_meta m (set_layout (m_extent_pages m) (m_migration_target_pages m)
                                     (m_migration_watermark m) s)) ;;;
      open_existing_segments fs (page_count m) in
    match load s with
    | (Val _, s') => Val s'
    | (Err e, _) => Err e
    | (Panic, _) => Panic
    end.

(** [publish_root] (1176-1186). *)
Definition publish_root (root lsn : Z) : pst unit :=
  modify (fun s => set_meta (with_gen (sat_add (m_generation (meta s)) 1) (with_root root lsn (meta s))) s) ;;;
  write_superblock ;;;
  sync.

(** ** Growth *)

(** [extend_to] (1318-1341): one turn of its loop over the segments. *)
Definition extend_segment (count last_segment index : Z) : pst unit :=
  do s <- gets id ;;
  let target := if index <? last_segment then extent_pages s * page_size s
                else (count - index * extent_pages s) * page_size s in
  if blen (default [] (segment_at s index)) <? target then
    modify (fun s => set_files (alter (set_len target) (Z.to_nat index) (files s)) s) ;;;
    mark_segment_dirty index
  else st_ret tt.

(** [extend_to] (1300-1343). *)
Definition extend_to (count : Z) : pst unit :=
  do s <- gets id ;;
  if extent_pages s =? 0 then
    if U64 <=? count * page_size s then st_fail (InvalidPageSize (page_size s))
    else
      modify (fun s => set_files (alter (set_len (count * page_size s)) 0%nat (files s)) s) ;;;
      mark_segment_dirty 0
  else
    let last_segment := (count - 1) / extent_pages s in
    ensure_segment last_segment ;;;
    forM (extend_segment count last_segment) (rangeZ 0 (last_segment + 1)).

(** [reserve] (1284-1293). *)
Definition reserve (count : Z) : pst unit :=
  do s <- gets id ;;
  if count <=? page_count (meta s) then st_ret tt
  else
    extend_to count ;;;
    modify (fun s => set_meta (with_gen ((m_generation (meta s) + 1) mod U64) (with_count count (meta s))) s).

(** ** The free list *)

(** [detach_free_list_for_recovery] (1144-1160). *)
Definition detach_free_list_for_recovery : pst Z :=
  do s <- gets id ;;
  let m := meta s in
  st_lift (validate_free_list_metadata m) ;;;
  if (free_list_head m =? 0) && (free_page_count m =? 0) then st_ret 0
  else
    let m' := with_gen (sat_add (m_generation m) 1) (with_head 0 0 m) in
    modify (set_meta m') ;;;
    write_superblock_meta m' ;;;
    sync ;;;
    st_ret (free_page_count m).

(** A zeroed page with header [h]. *)
Definition blank_page (h : PageHeader) (size : Z) : pst bytes := on_buffer (encode h) (zeros size).

(** [allocate] (1202-1243).  The head of the list, checked before it is handed
    out: its header's link and generation. *)
Definition pop_free (s : PageStore) : pres (Z * Z) :=
  let m := meta s in
  let head := free_list_head m in
  let! header := read_header s head in
  if negb (bool_decide (page_type header = Free))
  then Err (UnexpectedPageType head (page_type_u8 (page_type header)) (page_type_u8 Free))
  else
    let next := next_page header in
    if (next =? head) || negb (next =? 0) && (page_count m <=? next) then Err (free_list_corruption m)
    else if negb (Bool.eqb (free_page_count m =? 1) (next =? 0)) then Err (free_list_corruption m)
    else if next =? 0 then Val (next, generation header)
    else
      let! next_header := read_header s next in
      if negb (bool_decide (page_type next_header = Free))
      then Err (UnexpectedPageType next (page_type_u8 (page_type next_header)) (page_type_u8 Free))
      else if next_page next_header =? head then Err (free_list_corruption m)
      else Val (next, generation header).

(** [allocate] (1192-1275). *)
Definition allocate (t : PageType) : pst Z :=
  if bool_decide (t = Superblock) || bool_decide (t = Free)
  then st_fail (InvalidAllocationPageType (page_type_u8 t))
  else
    do s <- gets id ;;
    let m := meta s in
    st_lift (validate_free_list_metadata m) ;;;
    do (p, floor) <-
      (if negb (free_list_head m =? 0) then
         do (next, gen) <- st_lift (pop_free s) ;;
         modify (fun s => set_meta (with_head next ((free_page_count m - 1) mod U64) (meta s)) s) ;;;
         st_ret (free_list_head m, gen)
       else
         (if negb (migration_target_pages s =? 0) then extend_to (sat_add (page_count m) 1) else st_ret tt) ;;;
         modify (fun s => set_meta (with_count ((page_count m + 1) mod U64) (meta s)) s) ;;;
         st_ret (page_count m, 0)) ;;
    modify (fun s => set_meta (with_gen (sat_add (Z.max (m_generation (meta s)) floor) 1) (meta s)) s) ;;;
    do s <- gets id ;;
    do page <- blank_page (new_header p t (page_size s)) (page_size s) ;;
    write_page_raw p page (m_generation (meta s)) ;;;
    st_ret p.

(** [free] (1346-1391). *)
Definition free (p : Z) : pst unit :=
  if p =? SUPERBLOCK_PAGE_ID
  then st_fail (UnexpectedPageType p (page_type_u8 Superblock) (page_type_u8 Free))
  else
    do s <- gets id ;;
    let m := meta s in
    st_lift (validate_free_list_metadata m) ;;;
    if page_count m <=? p then st_fail (OutOfBounds p (page_count m))
    else if p =? root_page m then st_fail (CannotFreeRootPage p)
    else
      do existing <- st_lift (read_header s p) ;;
      if bool_decide (page_type existing = Free) then st_fail (PageAlreadyFree p)
      else if bool_decide (page_type existing = Superblock)
      then st_fail (UnexpectedPageType p (page_type_u8 (page_type existing)) (page_type_u8 Free))
      else
        let gen := sat_add (Z.max (m_generation m) (generation existing)) 1 in
        modify (set_meta (with_gen gen (with_head p ((free_page_count m + 1) mod U64) m))) ;;;
        do page <- blank_page (with_link (new_header p Free (page_size s)) (free_list_head m) 0) (page_size s) ;;
        write_page_raw p page gen ;;;
        st_ret tt.

(** [adopt_free_pages] (1448-1481).  The loop: [left] pages from [cursor]. *)
Fixpoint check_segment (s : PageStore) (left : nat) (cursor : Z) : pres unit :=
  let m := meta s in
  match left with
  | O => Val tt
  | S left' =>
      if (cursor =? 0) || (page_count m <=? cursor) then Err (free_list_corruption m)
      else
        let! header := read_header s cursor in
        if negb (bool_decide (page_type header = Free))
        then Err (UnexpectedPageType cursor (page_type_u8 (page_type header)) (page_type_u8 Free))
        else if bool_decide (left' = O) then
          if negb (next_page header =? free_list_head m) then Err (free_list_corruption m)
          else check_segment s left' (next_page header)
        else if (next_page header =? 0) || (next_page header =? free_list_head m)
        then Err (free_list_corruption m)
        else check_segment s left' (next_page header)
  end.

(** [adopt_free_pages] (1402-1487). *)
Definition adopt_free_pages (new_head count : Z) : pst unit :=
  if MAX_FREE_LIST_ADOPTION_PAGES <? count then st_fail InvalidMaintenanceLimits
  else
    do s <- gets id ;;
    let m := meta s in
    st_lift (validate_free_list_metadata m) ;;;
    if count =? 0 then if new_head =? 0 then st_ret tt else st_fail (free_list_corruption m)
    else if (new_head =? 0) || (page_count m <=? new_head) then st_fail (free_list_corruption m)
    else if (U64 <=? free_page_count m + count) || (sat_sub (page_count m) 1 <? free_page_count m + count)
    then st_fail (free_list_corruption m)
    else
      st_lift (check_segment s (Z.to_nat count) new_head) ;;;
      modify (set_meta (with_gen ((m_generation m + 1) mod U64)
                          (with_head new_head (free_page_count m + count) m))) ;;;
      write_superblock ;;;
      sync.

(** [FreeListTruncateReport] (119-131). *)
Record FreeListTruncateReport := mkTruncate {
  advertised : Z;
  valid_prefix : Z;
  corrupt_page : option Z;
  applied : bool
}.

(** [truncate_free_list_at_corruption] (1513-1557).  The walk: the links of the
    valid prefix and the page that ended it.  The walk stops at the
    advertised length, so [fuel] beyond it is never used up. *)
Fixpoint walk_free_list (s : PageStore) (fuel : nat) (cursor : Z) (chain : list (Z * Z)) :
    res PageError (list (Z * Z) * option Z) :=
  let m := meta s in
  if cursor =? 0 then Val (chain, None)
  else
    match fuel with
    | O => Panic
    | S fuel' =>
        if free_page_count m <=? Z.of_nat (length chain) then Val (chain, Some cursor)
        else if page_count m <=? cursor then Val (chain, Some cursor)
        else
          match read_header s cursor with
          | Panic => Panic
          | Err _ => Val (chain, Some cursor)
          | Val header =>
              if negb (bool_decide (page_type header = Free)) then Val (chain, Some cursor)
              else if existsb (fun '(page, _) => page =? next_page header) chain
              then Val (chain, Some (next_page header))
              else walk_free_list s fuel' (next_page header) (chain ++ [(cursor, next_page header)])
          end
    end.

(** [truncate_free_list_at_corruption] (1506-1593). *)
Definition truncate_free_list_at_corruption (apply : bool) : pst FreeListTruncateReport :=
  do s <- gets id ;;
  let m := meta s in
  do (chain, corrupt) <- st_lift (walk_free_list s (S (Z.to_nat (free_page_count m))) (free_list_head m) []) ;;
  let valid := Z.of_nat (length chain) in
  let report := mkTruncate (free_page_count m) valid corrupt false in
  if negb apply || negb (bool_decide (is_Some corrupt) || negb (valid =? free_page_count m)) then st_ret report
  else
    (match last chain with
     | Some (last_valid, last_next) =>
         (if negb (last_next =? 0) then
            do page <- blank_page (with_link (new_header last_valid Free (page_size s)) 0 0) (page_size s) ;;
            write_page_raw last_valid page (m_generation m) ;;;
            st_ret tt
          else st_ret tt) ;;;
         modify (fun s => set_meta (with_head (free_list_head m) valid (meta s)) s)
     | None => modify (fun s => set_meta (with_head 0 0 (meta s)) s)
     end) ;;;
    modify (fun s => set_meta (with_gen (sat_add (m_generation m) 1) (meta s)) s) ;;;
    write_superblock ;;;
    sync ;;;
    st_ret (mkTruncate (free_page_count m) valid corrupt true).

(** [abandon_detached_free_page_count] (1603-1628). *)
Definition abandon_detached_free_page_count (expected : Z) : pst Z :=
  do s <- gets id ;;
  let m := meta s in
  if negb (free_list_head m =? 0) then st_fail (free_list_corruption m)
  else if (free_page_count m =? 0) || negb (free_page_count m =? expected)
  then st_fail InvalidMaintenanceLimits
  else
    let m' := with_gen (sat_add (m_generation m) 1) (with_head (free_list_head m) 0 m) in
    modify (set_meta m') ;;;
    write_superblock_meta m' ;;;
    sync ;;;
    st_ret (free_page_count m).

(** [free_list_members] (1641-1657).  The walk: [fuel] visits at most. *)
Fixpoint members_from (s : PageStore) (fuel : nat) (cursor : Z) : pres (option (list Z)) :=
  if cursor =? 0 then Val (Some [])
  else
    match fuel with
    | O => Val None
    | S fuel' =>
        let! header := read_header s cursor in
        if negb (bool_decide (page_type header = Free)) then Err (free_list_corruption (meta s))
        else
          let! rest := members_from s fuel' (next_page header) in
          Val (cons cursor <$> rest)
    end.

(** [free_list_members] (1638-1660). *)
Definition free_list_members (s : PageStore) (max_visits : Z) : pres (option (list Z)) :=
  let! members := members_from s (Z.to_nat max_visits) (free_list_head (meta s)) in
  Val (sort_by Z.leb <$> members).

(** ** Online migration to extents *)

(** [begin_extent_migration] (2147-2181). *)
Definition begin_extent_migration (extent_bytes : Z) : pst unit :=
  do s <- gets id ;;
  st_lift (validate_extent_bytes extent_bytes (page_size s)) ;;;
  if extent_bytes =? 0 then st_fail (InvalidExtentBytes extent_bytes (page_size s))
  else if 0 <? extent_pages s then st_fail InvalidMaintenanceLimits
  else
    let target := extent_bytes / page_size s in
    if migration_target_pages s =? target then st_ret tt
    else if negb (migration_target_pages s =? 0) then st_fail InvalidMaintenanceLimits
    else
      modify (fun s => set_layout (extent_pages s) target target s) ;;;
      write_superblock_meta (meta s) ;;;
      sync_data_observed.

(** [advance_extent_migration] (2246-2279).  One run of the copy loop: [run]
    pages from [cursor], which never cross a boundary of the target segments. *)
Definition copy_run (target cursor run : Z) : pst unit :=
  do s <- gets id ;;
  let n := run * page_size s in
  match segment_at s 0 with
  | None => st_panic
  | Some monolith =>
      let buffer := read_at monolith n (file_offset cursor (page_size s)) in
      if negb (blen buffer =? n) then st_fail (ShortRead cursor (blen buffer) n)
      else
        ensure_segment (cursor / target) ;;;
        modify (fun s => set_files (alter (write_at buffer (cursor mod target * page_size s))
                                      (Z.to_nat (cursor / target)) (files s)) s)
  end.

(** [advance_extent_migration] (2236-2283).  The copy loop; each run copies at
    least one page. *)
Fixpoint copy_pages (fuel : nat) (target cursor end_ : Z) : pst unit :=
  match fuel with
  | O => st_panic
  | S fuel' =>
      if end_ <=? cursor then st_ret tt
      else
        do s <- gets id ;;
        let chunk := Z.max (8 * 1024 * 1024 / page_size s) 1 in
        let run := Z.min (Z.min (end_ - cursor) chunk) (target - cursor mod target) in
        copy_run target cursor run ;;;
        copy_pages fuel' target (cursor + run) end_
  end.

(** [advance_extent_migration] (2188-2297), with no allocation racing it: the
    watermark, and whether the migration is complete. *)
Definition advance_extent_migration (max_pages : Z) : pst (Z * bool) :=
  do s <- gets id ;;
  let target := migration_target_pages s in
  if target =? 0 then st_fail InvalidMaintenanceLimits
  else
    let max_pages := Z.max max_pages 1 in
    let watermark := migration_watermark s in
    let count := page_count (meta s) in
    if count <=? watermark then
      modify (set_layout target 0 0) ;;;
      write_superblock ;;;
      sync_data_observed ;;;
      modify (fun s => set_files (alter (set_len (target * page_size s)) 0%nat (files s)) s) ;;;
      st_ret (0, true)
    else
      let end_ := Z.min count (sat_add watermark max_pages) in
      copy_pages (S (Z.to_nat (end_ - watermark))) target watermark end_ ;;;
      modify (fun s => set_layout (extent_pages s) (migration_target_pages s) end_ s) ;;;
      write_superblock ;;;
      sync ;;;
      st_ret (end_, false).
End Checksummed.
