(* ===== verification/PageStoreSpec.v ===== *)
(** * The page store: pages as the unit of storage

    Every page has its own bytes in every layout; a stamped write is read back
    and leaves every other page alone.  The allocator, recovery and migration
    proofs use the store only through [raw], [put] and these lemmas. *)

From stdpp Require Import base tactics list numbers gmap.
From Stdlib Require Import ZArith Lia.
From S2P Require Import Prelude Search Bytes Errors PageFormat PageStore.
Local Open Scope Z_scope.
Local Open Scope bic_scope.

(** The layout parameters of an open store. *)
Record layout_ok (s : PageStore) : Prop := {
  lo_page : 512 <= page_size s <= MAX_PAGE_SIZE;
  lo_extent : 0 <= extent_pages s;
  lo_target : 0 <= migration_target_pages s;
  lo_one : extent_pages s = 0 \/ migration_target_pages s = 0
}.

(** A page id whose offsets do not overflow. *)
Definition addressable (s : PageStore) (p : Z) : Prop := 0 <= p /\ (p + 1) * page_size s < U64.

Lemma locate_nonneg s p : layout_ok s -> addressable s p -> 0 <= fst (locate s p) /\ 0 <= snd (locate s p).
Proof.
  intros [Hp He Ht _] [H0 H1]. unfold locate. repeat split_if; cbn [fst snd].
  - split; [apply Z.div_pos; lia|]. pose proof (Z.mod_pos_bound p (extent_pages s)). nia.
  - split; [apply Z.div_pos; lia|]. pose proof (Z.mod_pos_bound p (migration_target_pages s)). nia.
  - split; [lia|]. unfold file_offset. apply Z.mod_pos_bound. done.
Qed.

(** Distinct pages never share a byte, in any layout, mid-migration included. *)
Lemma locate_disjoint s p q :
  layout_ok s -> addressable s p -> addressable s q -> p <> q ->
  fst (locate s p) <> fst (locate s q) \/
  snd (locate s p) + page_size s <= snd (locate s q) \/ snd (locate s q) + page_size s <= snd (locate s p).
Proof.
  intros [Hp He Ht _] [P0 P1] [Q0 Q1] Hne. set (ps := page_size s) in *.
  assert (A : forall a b, a <> b -> a * ps + ps <= b * ps \/ b * ps + ps <= a * ps) by (intros; nia).
  assert (B : forall e, 0 < e -> p / e <> q / e \/ p mod e <> q mod e).
  { intros e He'. destruct (decide (p / e = q / e)); [right|by left]. intros E.
    pose proof (Z.div_mod p e ltac:(lia)). pose proof (Z.div_mod q e ltac:(lia)). nia. }
  assert (C : forall e r, 0 < e -> 0 <= r -> 0 = r / e -> r mod e = r).
  { intros e r He' Hr E. apply Z.mod_small. symmetry in E. apply Z.div_small_iff in E; lia. }
  unfold locate, file_offset. fold ps. rewrite !(Z.mod_small (_ * ps)) by nia.
  destruct (0 <? extent_pages s) eqn:Ee; bools; cbn [fst snd].
  { destruct (B (extent_pages s)); [lia|by left|right; by apply A]. }
  destruct (0 <? migration_target_pages s) eqn:Em; bools; cbn [andb]; [|right; by apply A].
  set (t := migration_target_pages s) in *.
  destruct (p <? _) eqn:E1, (q <? _) eqn:E2; bools; cbn [fst snd].
  - destruct (B t); [lia|by left|right; by apply A].
  - destruct (decide (p / t = 0)) as [E|]; [right|by left]. rewrite (C t p) by lia. by apply A.
  - destruct (decide (q / t = 0)) as [E|]; [right|left; congruence]. rewrite (C t q) by lia. by apply A.
  - right. by apply A.
Qed.

(** ** Bytes of a file *)

Lemma blen_set_len n f : 0 <= n -> blen (set_len n f) = n.
Proof.
  intros Hn. unfold set_len, blen. destruct (Z.leb_spec n (Z.of_nat (length f))).
  - rewrite length_take. lia.
  - rewrite length_app. unfold zeros. rewrite length_replicate. lia.
Qed.

Lemma sub_set_len n f a m : 0 <= a -> 0 <= m -> a + m <= blen f -> a + m <= n -> sub (set_len n f) a m = sub f a m.
Proof.
  intros H0 H1 H2 H3. unfold set_len, sub. unfold blen in *. split_if.
  - rewrite skipn_firstn_comm, take_take. f_equal. lia.
  - rewrite drop_app_le by lia. rewrite take_app_le; [done|]. rewrite length_drop. lia.
Qed.

(** A whole window of a file. *)
Definition window (f : bytes) (o n : Z) : option bytes :=
  if o + n <=? blen f then Some (sub f o n) else None.

Lemma blen_write_at v o f : 0 <= o -> blen f <= blen (write_at v o f).
Proof.
  intros Ho. unfold write_at. case_bool_decide; [lia|].
  assert (H2 : forall g, blen g <= blen (patch g o v)).
  { intros g. unfold patch, blen. rewrite !length_app, length_take, length_drop. lia. }
  destruct (Z.ltb_spec (blen f) o); [|apply H2].
  specialize (H2 (set_len o f)). rewrite blen_set_len in H2 by lia. lia.
Qed.

Lemma window_write_same v o f n : 0 <= o -> blen v = n -> 0 < n -> window (write_at v o f) o n = Some v.
Proof.
  intros Ho Hv Hn. unfold write_at. rewrite bool_decide_eq_false_2 by (intros ->; unfold blen in Hv; cbn in Hv; lia).
  set (g := if _ : bool then _ else _).
  assert (Hg : o <= blen g) by (unfold g; split_if; rewrite ?blen_set_len by lia; lia).
  unfold window, patch.
  assert (Ht : blen (take (Z.to_nat o) g) = o) by (unfold blen in *; rewrite length_take; lia).
  rewrite (proj2 (Z.leb_le _ _)) by (rewrite !blen_app; pose proof (blen_nonneg (drop (Z.to_nat o + length v) g)); lia).
  f_equal. pose proof (sub_mid (take (Z.to_nat o) g) v (drop (Z.to_nat o + length v) g) n) as Hm.
  rewrite Ht in Hm. by apply Hm.
Qed.

Lemma sub_patch_apart g o v a m :
  0 <= o -> 0 <= a -> 0 <= m -> o <= blen g -> a + m <= blen g -> a + m <= o \/ o + blen v <= a ->
  sub (patch g o v) a m = sub g a m.
Proof.
  intros Ho Ha Hm Hg Hlen Hd. destruct (decide (o + blen v <= blen g)) as [Hin|Hout].
  - apply sub_patch_disjoint; lia.
  - unfold patch, sub, blen in *. rewrite drop_app_le by (rewrite length_take; lia).
    rewrite skipn_firstn_comm, take_app_le by (rewrite length_take, length_drop; lia).
    rewrite take_take. f_equal. lia.
Qed.

Lemma window_write_other v o f a n :
  0 <= o -> 0 <= a -> 0 <= n -> a + n <= o \/ o + blen v <= a -> is_Some (window f a n) ->
  window (write_at v o f) a n = window f a n.
Proof.
  intros Ho Ha Hn Hd [w Hw]. unfold window in *. destruct (Z.leb_spec (a + n) (blen f)); [|done].
  pose proof (blen_write_at v o f Ho). rewrite (proj2 (Z.leb_le _ _)) by lia. f_equal.
  unfold write_at. case_bool_decide; [done|].
  destruct (Z.ltb_spec (blen f) o).
  - rewrite sub_patch_apart; rewrite ?blen_set_len by lia; try lia. apply sub_set_len; lia.
  - apply sub_patch_apart; lia.
Qed.

(** ** Pages *)

(** The bytes of a page, when the file has them all. *)
Definition raw (s : PageStore) (p : Z) : option bytes :=
  segment_at s (fst (locate s p)) ≫= fun f => window f (snd (locate s p)) (page_size s).

(** No injected fault is pending. *)
Definition calm (s : PageStore) : Prop := tear_write (faults s) = None /\ fail_write (faults s) = None.

(** The store after the bytes [b] are written to page [p]. *)
Definition put (p : Z) (b : bytes) (s : PageStore) : PageStore :=
  let index := fst (locate s p) in
  set_dirty (dirty_segments s ∪ {[index]})
    (set_files (alter (write_at b (snd (locate s p))) (Z.to_nat index)
                  (files s ++ replicate (Z.to_nat (index + 1) - length (files s)) []))
       (set_faults (mkFaults (tear_write (faults s)) (fail_write (faults s)) ((writes (faults s) + 1) mod U64)) s)).

Lemma put_frame p b s :
  meta (put p b s) = meta s /\ page_size (put p b s) = page_size s /\
  extent_pages (put p b s) = extent_pages s /\ migration_target_pages (put p b s) = migration_target_pages s /\
  migration_watermark (put p b s) = migration_watermark s /\ backup_format (put p b s) = backup_format s /\
  fsync (put p b s) = fsync s.
Proof. done. Qed.

Lemma locate_put p b s q : locate (put p b s) q = locate s q.
Proof. done. Qed.

Lemma layout_put p b s : layout_ok s -> layout_ok (put p b s).
Proof. by intros []. Qed.

Lemma calm_put p b s : calm s -> calm (put p b s).
Proof. done. Qed.

(** A list of files extended through [index] and changed there. *)
Lemma alter_extended (g : bytes -> bytes) (fs : list bytes) index j :
  0 <= index -> 0 <= j ->
  alter g (Z.to_nat index) (fs ++ replicate (Z.to_nat (index + 1) - length fs) []) !! Z.to_nat j =
  if j =? index then Some (g (default [] (fs !! Z.to_nat index)))
  else if Z.of_nat (length fs) <=? j then if j <? index then Some [] else None
  else fs !! Z.to_nat j.
Proof.
  intros Hi Hj. set (k := Z.to_nat (index + 1)).
  assert (Happ : forall m : nat, (fs ++ replicate (k - length fs) []) !! m =
    if decide (m < length fs)%nat then fs !! m else if decide (m < k)%nat then Some [] else None).
  { intros m. destruct (decide (m < length fs)%nat); [by rewrite lookup_app_l|].
    rewrite lookup_app_r by lia. destruct (decide (m < k)%nat).
    - apply lookup_replicate_2. lia.
    - apply lookup_ge_None_2. rewrite length_replicate. lia. }
  destruct (Z.eqb_spec j index) as [->|Hne].
  - rewrite list_lookup_alter_eq, Happ. unfold k.
    destruct (decide (Z.to_nat index < length fs)%nat) as [Hl|Hl].
    + destruct (fs !! Z.to_nat index) eqn:E; [done|]. apply lookup_ge_None_1 in E. lia.
    + rewrite decide_True by lia. rewrite (lookup_ge_None_2 fs) by lia. done.
  - rewrite list_lookup_alter_ne by lia. rewrite Happ. unfold k.
    destruct (Z.leb_spec (Z.of_nat (length fs)) j).
    + rewrite decide_False by lia. destruct (Z.ltb_spec j index); [by rewrite decide_True by lia|by rewrite decide_False by lia].
    + by rewrite decide_True by lia.
Qed.

Lemma segment_put s p b (index := fst (locate s p)) j :
  0 <= index -> 0 <= j ->
  segment_at (put p b s) j =
  if j =? index then Some (write_at b (snd (locate s p)) (default [] (segment_at s index)))
  else if Z.of_nat (length (files s)) <=? j then if j <? index then Some [] else None
  else segment_at s j.
Proof.
  intros Hi Hj. unfold segment_at. rewrite !(proj2 (Z.ltb_ge _ 0)) by done.
  unfold put. cbn [files set_dirty set_files]. by apply alter_extended.
Qed.

Section Pages.
Context (s : PageStore).
Hypothesis Hlay : layout_ok s.

Lemma raw_put_same p b : addressable s p -> blen b = page_size s -> raw (put p b s) p = Some b.
Proof.
  intros Hp Hb. destruct (locate_nonneg s p Hlay Hp). pose proof (lo_page s Hlay).
  unfold raw. rewrite locate_put, segment_put, Z.eqb_refl by done. cbn [mbind option_bind].
  change (page_size (put p b s)) with (page_size s). apply window_write_same; lia.
Qed.

Lemma raw_put_other p b q c :
  addressable s p -> addressable s q -> p <> q -> blen b = page_size s ->
  raw s q = Some c -> raw (put p b s) q = Some c.
Proof.
  intros Hp Hq Hne Hb Hr. destruct (locate_nonneg s p Hlay Hp), (locate_nonneg s q Hlay Hq).
  pose proof (lo_page s Hlay). unfold raw in *. rewrite locate_put, segment_put by done.
  change (page_size (put p b s)) with (page_size s).
  destruct (segment_at s (fst (locate s q))) as [f|] eqn:Ef; [|done]. cbn [mbind option_bind] in Hr.
  assert (Hlen : fst (locate s q) < Z.of_nat (length (files s))).
  { unfold segment_at in Ef. split_if; [done|]. apply lookup_lt_Some in Ef. lia. }
  destruct (Z.eqb_spec (fst (locate s q)) (fst (locate s p))) as [E|E].
  - rewrite <- E, Ef. cbn [mbind option_bind default]. rewrite <- Hr. apply window_write_other; try lia; [|done].
    destruct (locate_disjoint s p q Hlay Hp Hq Hne) as [?|?]; [congruence|lia].
  - rewrite (proj2 (Z.leb_gt _ _)) by done. exact Hr.
Qed.

Lemma blen_raw p b : addressable s p -> raw s p = Some b -> blen b = page_size s.
Proof.
  intros Hp Hr. destruct (locate_nonneg s p Hlay Hp). pose proof (lo_page s Hlay). unfold raw in Hr.
  destruct (segment_at s _) as [f|]; [|done]. cbn [mbind option_bind] in Hr. unfold window in Hr.
  split_if; [|done]. simplify_eq. apply blen_sub; lia.
Qed.
End Pages.

(** ** Growing the monolithic file *)

Definition grown (count : Z) (s : PageStore) : PageStore :=
  set_dirty (dirty_segments s ∪ {[0]})
    (set_files (alter (set_len (count * page_size s)) 0%nat (files s)) s).

Lemma extend_mono_eq s count :
  extent_pages s = 0 -> count * page_size s < U64 -> extend_to count s = (Val tt, grown count s).
Proof.
  intros He Hc. unfold extend_to, st_bind, gets, id, modify, mark_segment_dirty, st_fail. cbv beta iota.
  rewrite He, Z.eqb_refl. by rewrite (proj2 (Z.leb_gt _ _)).
Qed.

(** A page in the base file keeps its monolithic offset. *)
Lemma base_offset s p :
  layout_ok s -> addressable s p -> extent_pages s = 0 -> fst (locate s p) = 0 ->
  snd (locate s p) = p * page_size s.
Proof.
  intros Hl [H0 H1] He. pose proof (lo_page s Hl). pose proof (lo_target s Hl). unfold locate, file_offset. rewrite He.
  change (0 <? 0) with false. cbv iota. split_if; cbn [fst snd].
  - intros E. rewrite Z.mod_small; [done|]. apply Z.div_small_iff in E; lia.
  - intros _. apply Z.mod_small. nia.
Qed.

Lemma raw_grown s count q c :
  layout_ok s -> extent_pages s = 0 -> addressable s q -> q < count ->
  raw s q = Some c -> raw (grown count s) q = Some c.
Proof.
  intros Hl He Hq Hlt Hr. destruct (locate_nonneg s q Hl Hq) as [G O]. pose proof (lo_page s Hl).
  unfold raw in *. change (locate (grown count s) q) with (locate s q).
  change (page_size (grown count s)) with (page_size s).
  unfold segment_at in *. rewrite (proj2 (Z.ltb_ge _ _)) in * by done.
  cbn [grown files set_dirty set_files].
  destruct (decide (fst (locate s q) = 0)) as [E|E].
  - pose proof (base_offset s q Hl Hq He E) as Eo. rewrite E, Eo in Hr. rewrite E, Eo. change (Z.to_nat 0) with 0%nat in *.
    rewrite list_lookup_alter_eq. destruct (files s !! 0%nat) as [f|]; [|done].
    cbn [mbind option_bind fmap option_fmap option_map] in *. unfold window in *.
    destruct (Z.leb_spec (q * page_size s + page_size s) (blen f)); [|done]. simplify_eq.
    rewrite blen_set_len by nia. rewrite (proj2 (Z.leb_le _ _)) by nia. f_equal. apply sub_set_len; nia.
  - rewrite list_lookup_alter_ne by lia. exact Hr.
Qed.

Section Stamped.
Variable crc32 : bytes -> Z.
Hypothesis Hcrc : forall l, is_u32 (crc32 l).

(** Reading a page is verifying and decoding its bytes. *)
Lemma read_raw s p b :
  layout_ok s -> addressable s p -> raw s p = Some b ->
  read_page_unchecked crc32 s p =
  let! _ := verify crc32 b p in let! header := decode b in Val (header, b).
Proof.
  intros Hl Hp Hr. pose proof (blen_raw s Hl p b Hp Hr) as Hb. unfold raw in Hr. unfold read_page_unchecked.
  destruct (locate s p) as [g o]. cbn [fst snd] in Hr. destruct (segment_at s g) as [f|]; [|done].
  cbn [mbind option_bind] in Hr. unfold window in Hr. destruct (_ <=? _); [|done]. simplify_eq.
  unfold read_at. by rewrite Hb, Z.eqb_refl.
Qed.

(** The stamped form of a buffer. *)
Definition stamped (gen : Z) (b : bytes) : bytes := crc_stamp crc32 (gen_stamp gen b).

Lemma blen_stamped gen b : 72 <= blen b -> blen (stamped gen b) = blen b.
Proof. intros. unfold stamped. rewrite blen_crc_stamp; rewrite blen_gen_stamp; lia. Qed.

(** [write_page_raw] on a buffer that carries the right magic if it is the
    superblock of a tracked store. *)
Lemma write_raw_eq s p b gen :
  layout_ok s -> calm s -> blen b = page_size s ->
  (p = 0 -> backup_format s = true -> copy_at PAGE_HEADER_BYTES (tracked_magic s) b = (Val tt : pres unit, b)) ->
  write_page_raw crc32 p b gen s = (Val (stamped gen b), put p (stamped gen b) s).
Proof.
  intros Hl [Hc1 Hc2] Hb Hp. pose proof (lo_page s Hl). unfold write_page_raw.
  unfold st_bind at 1, gets at 1, id. cbv beta iota.
  assert (Hcond : (if (p =? SUPERBLOCK_PAGE_ID) && backup_format s
                   then on_buffer (copy_at PAGE_HEADER_BYTES (tracked_magic s)) b else st_ret b) s = (Val b, s)).
  { destruct (Z.eqb_spec p SUPERBLOCK_PAGE_ID) as [E|]; [|done]. destruct (backup_format s); [|done].
    cbn [andb]. unfold on_buffer. by rewrite Hp. }
  unfold st_bind at 1. rewrite Hcond. cbv beta iota.
  unfold st_bind at 1, on_buffer. rewrite finalize_eq by lia. cbv beta iota.
  fold (stamped gen b). unfold put. destruct (locate s p) as [g o]. cbn [fst snd].
  unfold st_bind, ensure_segment, modify, intercepted, intercept, gets, id, mark_segment_dirty, st_ret.
  cbn [faults set_files fst snd]. unfold st_bind. rewrite Hc1, Hc2.
  rewrite bool_decide_eq_false_2 by done. cbn [fst snd].
  rewrite (blen_stamped gen b) by lia. unfold modify. cbv beta iota. rewrite firstn_all2; [by rewrite Hc1, Hc2|].
  pose proof (blen_stamped gen b ltac:(lia)). unfold blen in *. lia.
Qed.

(** A page with a header that was stamped reads back. *)
Lemma read_stamped s p h body gen :
  layout_ok s -> addressable s p -> header_ok h -> is_u64 gen -> blen body = page_size s ->
  raw s p = Some (stamped gen (patch body 0 (header_bytes h))) ->
  read_page_unchecked crc32 s p = Val (with_generation h gen, stamped gen (patch body 0 (header_bytes h))).
Proof.
  intros Hl Hp Hh Hg Hb Hr. rewrite (read_raw s p _ Hl Hp Hr). pose proof (lo_page s Hl).
  assert (Hlen : blen (patch body 0 (header_bytes h)) = blen body).
  { rewrite blen_patch; [done|lia|]. rewrite blen_header_bytes. lia. }
  unfold stamped. rewrite finalized_verifies by (auto; lia). cbn [res_bind].
  by rewrite decode_finalized by (auto; lia).
Qed.

(** [read_header] as a predicate. *)
Definition hdr (s : PageStore) (p : Z) (h : PageHeader) : Prop := read_header crc32 s p = Val h.

Lemma raw_of_read s p r :
  layout_ok s -> addressable s p -> read_page_unchecked crc32 s p = Val r -> exists b, raw s p = Some b.
Proof.
  intros Hl Hp. destruct (locate_nonneg s p Hl Hp) as [_ Ho]. pose proof (lo_page s Hl). revert Ho. unfold read_page_unchecked, raw, read_at, window. destruct (locate s p) as [g o]. cbn [fst snd].
  destruct (segment_at s g) as [f|]; [|done]. cbn [mbind option_bind].
  destruct (Z.eqb_spec (blen (sub f o (page_size s))) (page_size s)) as [E|]; [|done]. intros Ho _.
  destruct (Z.leb_spec (o + page_size s) (blen f)); [eauto|].
  exfalso. unfold blen, sub in *. rewrite length_take, length_drop in E. lia.
Qed.
End Stamped.
