(* ===== verification/Superblock.v ===== *)
(** * Publishing and reopening a page store

    The superblock written by [flush] or [publish_root] is read back by [open]
    as the metadata that was published, in every layout and format, and the
    reopened store reads the same pages. *)

From stdpp Require Import base tactics list numbers gmap.
From Stdlib Require Import ZArith Lia.
From S2P Require Import Prelude Search Bytes Errors PageFormat PageStore PageStoreSpec.
Local Open Scope Z_scope.
Local Open Scope bic_scope.

Section Superblock.
Variable crc32 : bytes -> Z.
Hypothesis Hcrc : forall l, is_u32 (crc32 l).

(** The magic [write_superblock_meta] chooses. *)
Definition magic_of (s : PageStore) : bytes :=
  if (extent_pages s =? 0) && (migration_target_pages s =? 0)
  then if backup_format s then SUPERBLOCK_MAGIC_TRACKED_MONOLITHIC else SUPERBLOCK_MAGIC
  else if backup_format s then SUPERBLOCK_MAGIC_TRACKED else SUPERBLOCK_MAGIC_SEGMENTED.

(** The body of the superblock. *)
Definition sb_body (s : PageStore) (m : SuperMeta) : bytes :=
  magic_of s ++ le_enc 4 (page_size s) ++ le_enc 8 (page_count m) ++ le_enc 8 (free_list_head m) ++
  le_enc 8 (free_page_count m) ++ le_enc 8 (root_page m) ++ le_enc 8 (checkpoint_lsn m) ++
  le_enc 8 (extent_pages s) ++ le_enc 8 (migration_target_pages s) ++ le_enc 8 (migration_watermark s).

Definition sb_header (s : PageStore) : PageHeader := new_header SUPERBLOCK_PAGE_ID Superblock (page_size s).

Definition sb_page (s : PageStore) (m : SuperMeta) : bytes :=
  patch (zeros (page_size s)) 0 (header_bytes (sb_header s) ++ sb_body s m).

Lemma length_magic s : length (magic_of s) = 8%nat.
Proof. unfold magic_of. by repeat case_match. Qed.

Lemma blen_sb_body s m : blen (sb_body s m) = 76.
Proof.
  unfold sb_body. rewrite !blen_app, !blen_le_enc. unfold blen. rewrite length_magic. lia.
Qed.

Lemma blen_sb_page s m : layout_ok s -> blen (sb_page s m) = page_size s.
Proof.
  intros Hl. pose proof (lo_page s Hl). unfold sb_page.
  rewrite blen_patch; rewrite ?blen_zeros, ?blen_app, ?blen_header_bytes, ?blen_sb_body; lia.
Qed.

(** What the copies of [write_superblock_meta] build. *)
Lemma sb_page_built s m :
  layout_ok s ->
  (encode (sb_header s) ;;;
   copy_at 64 (magic_of s) ;;; copy_at 72 (le_enc 4 (page_size s)) ;;; copy_at 76 (le_enc 8 (page_count m)) ;;;
   copy_at 84 (le_enc 8 (free_list_head m)) ;;; copy_at 92 (le_enc 8 (free_page_count m)) ;;;
   copy_at 100 (le_enc 8 (root_page m)) ;;; copy_at 108 (le_enc 8 (checkpoint_lsn m)) ;;;
   copy_at 116 (le_enc 8 (extent_pages s)) ;;; copy_at 124 (le_enc 8 (migration_target_pages s)) ;;;
   copy_at 132 (le_enc 8 (migration_watermark s))) (zeros (page_size s)) = (Val tt, sb_page s m).
Proof.
  intros Hl. pose proof (lo_page s Hl). unfold st_bind.
  assert (Hz : blen (zeros (page_size s)) = page_size s) by (apply blen_zeros; lia).
  assert (Hm : blen (magic_of s) = 8) by (unfold blen; by rewrite length_magic).
  rewrite encode_patch by lia.
  set (hb := header_bytes (sb_header s)). assert (Hhb : blen hb = 64) by apply blen_header_bytes.
  do 10 (rewrite copy_at_chain;
    [|lia|rewrite ?blen_app, ?blen_le_enc, ?Hhb, ?Hm; lia|rewrite ?blen_app, ?blen_le_enc, ?Hhb, ?Hm, ?Hz; lia]).
  unfold sb_page, sb_body. fold hb. by rewrite <- !app_assoc.
Qed.

(** The tracked format stamps the magic that is there already. *)
Lemma tracked_same s m :
  layout_ok s -> backup_format s = true ->
  copy_at PAGE_HEADER_BYTES (tracked_magic s) (sb_page s m) = (Val tt : pres unit, sb_page s m).
Proof.
  intros Hl Hb. pose proof (lo_page s Hl).
  assert (Ht : tracked_magic s = magic_of s) by (unfold tracked_magic, magic_of; by rewrite Hb).
  rewrite Ht. pose proof (blen_sb_page s m Hl). assert (Hm : blen (magic_of s) = 8) by (unfold blen; by rewrite length_magic).
  rewrite copy_at_in by (unfold PAGE_HEADER_BYTES; lia). f_equal.
  unfold sb_page, sb_body, patch at 2 3. rewrite take_0. cbn [app]. rewrite <- !app_assoc.
  pose proof (blen_header_bytes (sb_header s)) as Hh. change PAGE_HEADER_BYTES with 64. rewrite <- Hh.
  by apply patch_mid.
Qed.

Lemma write_superblock_eq s m :
  layout_ok s -> calm s ->
  write_superblock_meta crc32 m s =
  (Val tt, put 0 (stamped crc32 (Z.max (m_generation m) 1) (sb_page s m)) s).
Proof.
  intros Hl Hc. unfold write_superblock_meta. unfold st_bind at 1, gets at 1, id. cbv beta iota.
  unfold st_bind at 1, on_buffer at 1. pose proof (sb_page_built s m Hl) as Hb. unfold magic_of, sb_header in Hb.
  rewrite Hb. cbv beta iota. unfold st_bind at 1.
  set (g := Z.max _ 1). assert (Hlen : blen (sb_page s m) = page_size s) by (by apply blen_sb_page).
  rewrite write_raw_eq; [done|done|done|done|]. intros _ Hf. by apply tracked_same.
Qed.

(** ** Reading it back *)

(** Metadata whose fields fit their width. *)
Definition meta_ok (m : SuperMeta) : Prop :=
  is_u64 (page_count m) /\ is_u64 (free_list_head m) /\ is_u64 (free_page_count m) /\
  is_u64 (m_generation m) /\ is_u64 (root_page m) /\ is_u64 (checkpoint_lsn m).

Definition layout_u64 (s : PageStore) : Prop :=
  is_u64 (extent_pages s) /\ is_u64 (migration_target_pages s) /\ is_u64 (migration_watermark s).

Section Published.
Context (s : PageStore) (m : SuperMeta) (g : Z).
Hypothesis Hl : layout_ok s.
Hypothesis Hm : meta_ok m.
Hypothesis Hu : layout_u64 s.

Definition published : bytes := stamped crc32 g (sb_page s m).

Lemma blen_published : blen published = page_size s.
Proof. unfold published. pose proof (lo_page s Hl). rewrite blen_stamped; rewrite blen_sb_page; auto; lia. Qed.

(** The stamps leave the body alone. *)
Lemma published_body a n : 64 <= a -> 0 <= n -> a + n <= 140 -> sub published a n = sub (sb_body s m) (a - 64) n.
Proof.
  intros H1 H2 H3. pose proof (lo_page s Hl). pose proof (blen_sb_page s m Hl) as Hb.
  unfold published, stamped, crc_stamp. rewrite sub_patch_disjoint;
    rewrite ?blen_gen_stamp, ?blen_le_enc by lia; try lia.
  unfold gen_stamp. rewrite Hb. rewrite !sub_patch_disjoint; rewrite ?blen_patch; rewrite ?blen_le_enc; try lia.
  unfold sb_page. rewrite sub_patch_within;
    rewrite ?blen_app, ?blen_header_bytes, ?blen_sb_body, ?blen_zeros; try lia.
  replace (a - 0) with (64 + (a - 64)) by lia. pose proof (blen_header_bytes (sb_header s)) as Hh.
  unfold sub, blen in *. rewrite drop_app_ge by lia. do 2 f_equal. lia.
Qed.

Lemma published_fields :
  sub published 64 8 = magic_of s /\ u32_at published 72 = page_size s /\
  u64_at published 76 = page_count m /\ u64_at published 84 = free_list_head m /\
  u64_at published 92 = free_page_count m /\ u64_at published 100 = root_page m /\
  u64_at published 108 = checkpoint_lsn m /\ u64_at published 116 = extent_pages s /\
  u64_at published 124 = migration_target_pages s /\ u64_at published 132 = migration_watermark s.
Proof.
  pose proof (lo_page s Hl) as Hp. destruct Hm as (?&?&?&?&?&?), Hu as (?&?&?).
  unfold u32_at, u64_at. rewrite !published_body by lia. unfold sb_body.
  pose proof (length_magic s) as Hmag. destruct (magic_of s) as [|b0 [|b1 [|b2 [|b3 [|b4 [|b5 [|b6 [|b7 [|]]]]]]]]]; try done.
  split; [done|].
  assert (R8 : forall v, is_u64 v -> le_dec (le_enc 8 v) = v) by (intros; rewrite le_dec_enc; by apply Z.mod_small).
  assert (R4 : forall v, is_u32 v -> le_dec (le_enc 4 v) = v) by (intros; rewrite le_dec_enc; by apply Z.mod_small).
  split; [transitivity (le_dec (le_enc 4 (page_size s))); [reflexivity|apply R4]; unfold MAX_PAGE_SIZE in Hp; widths; lia|].
  ands; (etransitivity; [|by apply R8]); reflexivity.
Qed.

Lemma published_reads p0 :
  is_u64 g -> layout_ok p0 -> page_size p0 = page_size s -> raw p0 0 = Some published ->
  read_page_unchecked crc32 p0 0 = Val (with_generation (sb_header s) g, published).
Proof.
  intros Hg Hl0 Hps Hr. pose proof (lo_page s Hl).
  assert (E : sb_page s m = patch (patch (zeros (page_size s)) 64 (sb_body s m)) 0 (header_bytes (sb_header s))).
  { unfold sb_page, patch. rewrite !take_0. cbn [app]. pose proof (blen_header_bytes (sb_header s)) as Hh.
    rewrite <- app_assoc. f_equal. unfold blen in Hh. rewrite length_app.
    replace (Z.to_nat 0 + length (header_bytes (sb_header s)))%nat with 64%nat by lia.
    rewrite drop_app_length' by (rewrite length_take; unfold zeros; rewrite length_replicate; lia).
    f_equal. }
  unfold published in *. rewrite E in *.
  apply (read_stamped crc32 Hcrc p0 0 (sb_header s)); [done| |apply new_header_ok; unfold SUPERBLOCK_PAGE_ID; widths; lia|done| |done].
  - split; [lia|]. unfold MAX_PAGE_SIZE in *. widths. lia.
  - rewrite blen_patch; rewrite ?blen_zeros, ?blen_sb_body; try lia.
Qed.
End Published.

Lemma locate_0 s : layout_ok s -> locate s 0 = (0, 0).
Proof.
  intros Hl. pose proof (lo_page s Hl). pose proof (lo_extent s Hl). pose proof (lo_target s Hl).
  unfold locate, file_offset. repeat split_if; rewrite ?Zdiv_0_l, ?Zmod_0_l; done.
Qed.

(** The first [n] bytes of the base file hold the start of page 0. *)
Lemma base_window s b f a n k :
  layout_ok s -> raw s 0 = Some b -> segment_at s 0 = Some f ->
  0 <= a -> 0 <= n -> a + n <= k -> k <= page_size s -> sub (sub f 0 k) a n = sub b a n.
Proof.
  intros Hl Hr Hf Ha Hn Hk Hp. unfold raw in Hr. rewrite (locate_0 s Hl) in Hr. cbn [fst snd] in Hr.
  rewrite Hf in Hr. cbn [mbind option_bind] in Hr. unfold window in Hr. split_if; [|done]. simplify_eq.
  rewrite !sub_sub by lia. done.
Qed.

Lemma probe_ok s0 s m g :
  layout_ok s -> meta_ok m -> layout_u64 s -> layout_ok s0 -> page_size s0 = page_size s ->
  raw s0 0 = Some (published s m g) -> probe_page_size s0 (page_size s) = Val tt.
Proof.
  intros Hl Hm Hu Hl0 Hps Hr. pose proof (lo_page s Hl) as Hp.
  destruct (published_fields s m g Hl Hm Hu) as (F1 & F2 & _).
  destruct (segment_at s0 0) as [f|] eqn:Ef.
  2: { unfold raw in Hr. rewrite (locate_0 s0 Hl0) in Hr. cbn [fst] in Hr. by rewrite Ef in Hr. }
  assert (W : forall a n, 0 <= a -> 0 <= n -> a + n <= 512 -> sub (sub f 0 512) a n = sub (published s m g) a n)
    by (intros; apply (base_window s0); auto; lia).
  assert (Hlen : blen (sub f 0 512) = 512).
  { apply blen_sub; try lia. unfold raw in Hr. rewrite (locate_0 s0 Hl0) in Hr. cbn [fst snd] in Hr.
    rewrite Ef in Hr. cbn [mbind option_bind] in Hr. unfold window in Hr. split_if; [|done]. lia. }
  unfold probe_page_size, read_at. rewrite Ef. change MIN_PAGE_SIZE with 512. rewrite Hlen.
  change (512 <? PAGE_HEADER_BYTES + 12) with false. cbv iota. unfold u32_at. rewrite !W by lia.
  fold (u32_at (published s m g) 72). rewrite F1, F2.
  assert (Hmag : sub (published s m g) 0 4 = PAGE_MAGIC).
  { pose proof (blen_sb_page s m Hl) as Hb. unfold published, stamped, crc_stamp, gen_stamp.
    rewrite !sub_patch_disjoint by blia. unfold sb_page. rewrite sub_patch_within;
      rewrite ?blen_app, ?blen_header_bytes, ?blen_sb_body, ?blen_zeros; try lia. reflexivity. }
  rewrite Hmag, bool_decide_eq_true_2 by done. cbn [negb].
  assert (Hk : known_magic (magic_of s) = true) by (unfold magic_of; by repeat case_match).
  rewrite Hk, Z.eqb_refl. done.
Qed.

(** [read_superblock] of a published superblock. *)
Lemma read_superblock_ok s0 s m g :
  layout_ok s -> meta_ok m -> layout_u64 s -> is_u64 g -> layout_ok s0 -> page_size s0 = page_size s ->
  (extent_pages s = 0 -> migration_target_pages s = 0 -> migration_watermark s = 0) ->
  raw s0 0 = Some (published s m g) ->
  read_superblock crc32 (page_size s) s0 =
  (Val (mkMeta (page_count m) (free_list_head m) (free_page_count m) g (root_page m) (checkpoint_lsn m)
          (extent_pages s) (migration_target_pages s) (migration_watermark s)),
   set_backup (backup_format s) s0).
Proof.
  intros Hl Hm Hu Hg Hl0 Hps Hw Hr.
  destruct (published_fields s m g Hl Hm Hu) as (F1 & F2 & F3 & F4 & F5 & F6 & F7 & F8 & F9 & F10).
  unfold read_superblock. unfold st_bind at 1, gets, id. cbv beta iota.
  rewrite (probe_ok s0 s m g Hl Hm Hu Hl0 Hps Hr). unfold st_bind at 1, st_lift at 1. cbv beta iota.
  unfold st_bind at 1, st_lift. change SUPERBLOCK_PAGE_ID with 0.
  rewrite (published_reads s m g Hl s0 Hg Hl0 Hps Hr). cbv beta iota.
  change (page_type (with_generation (sb_header s) g)) with Superblock.
  rewrite bool_decide_eq_true_2 by done. cbn [negb]. rewrite F1, F2, F3, F4, F5, F6, F7, F8, F9, F10.
  change (generation (with_generation (sb_header s) g)) with g.
  unfold st_bind, modify, st_fail, st_ret. cbv beta iota. rewrite Z.eqb_refl. cbn [negb].
  unfold magic_of.
  destruct (Z.eqb_spec (extent_pages s) 0) as [E1|E1], (Z.eqb_spec (migration_target_pages s) 0) as [E2|E2];
    cbn [andb]; destruct (backup_format s);
    rewrite ?bool_decide_eq_true_2 by done; rewrite ?bool_decide_eq_false_2 by done; cbn [negb orb andb];
    try done.
  all: by rewrite E1, E2, (Hw E1 E2).
Qed.

(** ** Opening *)

Lemma validate_page_size_val n : validate_page_size n = Val tt -> 512 <= n <= MAX_PAGE_SIZE.
Proof.
  unfold validate_page_size, MIN_PAGE_SIZE. destruct (_ || _) eqn:E; [done|]. bools. lia.
Qed.

(** A new store: one page, the superblock, and nothing free. *)
Definition new_store (page_size extent_bytes : Z) (fsync : bool) : PageStore :=
  mkStore [[]] ∅ (extent_bytes / page_size) 0 0 false page_size fsync (mkMeta 1 0 0 0 0 0 0 0 0) no_faults.

Lemma new_store_layout n e b : validate_page_size n = Val tt -> 0 <= e -> layout_ok (new_store n e b).
Proof.
  intros Hn He. pose proof (validate_page_size_val n Hn). split; cbn; [done| |lia|by right].
  apply Z.div_pos; lia.
Qed.

Lemma open_new n e b :
  validate_page_size n = Val tt -> validate_extent_bytes e n = Val tt -> 0 <= e ->
  exists sb, open crc32 [] n e b = Val (put 0 sb (new_store n e b)).
Proof.
  intros Hn Hev He. unfold open. rewrite Hn, Hev. cbn [res_bind]. fold (new_store n e b).
  pose proof (new_store_layout n e b Hn He) as Hl. eexists. cbn [head default].
  rewrite bool_decide_eq_true_2 by done. unfold write_superblock, st_bind, gets.
  rewrite write_superblock_eq; [reflexivity|done|done].
Qed.

(** The number of segment files a layout needs. *)
Definition segments_needed (s : PageStore) : Z :=
  let extent := if 0 <? extent_pages s then extent_pages s else migration_target_pages s in
  if extent =? 0 then 1 else Z.max ((page_count (meta s) + extent - 1) / extent) 1.

Lemma flush_eq s :
  layout_ok s -> calm s -> exists d,
  flush crc32 s = (Val tt, set_dirty d (put 0 (published s (meta s) (Z.max (m_generation (meta s)) 1)) s)).
Proof.
  intros Hl Hc. unfold flush, write_superblock, st_bind, gets, published.
  rewrite write_superblock_eq by done. unfold sync, st_bind, gets, id, sync_data_observed, modify, st_ret.
  destruct (fsync _).
  - exists ∅. reflexivity.
  - exists (dirty_segments s ∪ {[fst (locate s 0)]}). reflexivity.
Qed.

(** The metadata [flush] publishes. *)
Definition published_meta (s : PageStore) : SuperMeta :=
  let m := meta s in
  mkMeta (page_count m) (free_list_head m) (free_page_count m) (Z.max (m_generation m) 1) (root_page m)
    (checkpoint_lsn m) (extent_pages s) (migration_target_pages s) (migration_watermark s).

Lemma layout_same s s' p :
  page_size s' = page_size s -> extent_pages s' = extent_pages s ->
  migration_target_pages s' = migration_target_pages s -> migration_watermark s' = migration_watermark s ->
  locate s' p = locate s p.
Proof. intros E1 E2 E3 E4. unfold locate. by rewrite E1, E2, E3, E4. Qed.

Lemma segment_0 s : layout_ok s -> forall b, raw s 0 = Some b -> exists f, files s !! 0%nat = Some f /\ f <> [].
Proof.
  intros Hl b Hr. pose proof (lo_page s Hl). unfold raw in Hr. rewrite (locate_0 s Hl) in Hr. cbn [fst snd] in Hr.
  unfold segment_at in Hr. change (0 <? 0) with false in Hr. cbv iota in Hr. change (Z.to_nat 0) with 0%nat in Hr.
  destruct (files s !! 0%nat) as [f|]; [|done]. cbn [mbind option_bind] in Hr. exists f. split; [done|].
  intros ->. unfold window in Hr. change (blen []) with 0 in Hr. split_if; [lia|done].
Qed.

Lemma mono_segment s p :
  layout_ok s -> addressable s p -> extent_pages s = 0 -> migration_target_pages s = 0 -> fst (locate s p) = 0.
Proof. intros Hl Hp E1 E2. unfold locate. by rewrite E1, E2. Qed.

Lemma open_segments_eq s fs count :
  (let extent := if 0 <? extent_pages s then extent_pages s else migration_target_pages s in
   if extent =? 0 then 1 else Z.max ((count + extent - 1) / extent) 1) <= Z.of_nat (length fs) ->
  open_existing_segments fs count s =
  (Val tt, if (if 0 <? extent_pages s then extent_pages s else migration_target_pages s) =? 0 then s else set_files fs s).
Proof.
  unfold open_existing_segments, st_bind, gets, id. cbv beta iota zeta.
  destruct ((if 0 <? extent_pages s then extent_pages s else migration_target_pages s) =? 0); [done|].
  intros Hn. unfold modify. cbv beta iota. by rewrite (proj2 (Z.ltb_ge _ _)).
Qed.

(** What [open] makes of the files of a flushed store. *)
Definition reopened (s : PageStore) (fs : list bytes) (b : bool) : PageStore :=
  mkStore (if (extent_pages s =? 0) && (migration_target_pages s =? 0) then take 1 fs else fs) ∅
    (extent_pages s) (migration_target_pages s) (migration_watermark s) (backup_format s) (page_size s) b
    (published_meta s) no_faults.

Lemma open_flushed s fs e b :
  layout_ok s -> meta_ok (meta s) -> layout_u64 s -> validate_page_size (page_size s) = Val tt ->
  validate_extent_bytes e (page_size s) = Val tt ->
  (extent_pages s = 0 -> migration_target_pages s = 0 -> migration_watermark s = 0) ->
  segments_needed s <= Z.of_nat (length fs) ->
  (exists f, fs !! 0%nat = Some f /\ f <> [] /\
     window f 0 (page_size s) = Some (published s (meta s) (Z.max (m_generation (meta s)) 1))) ->
  open crc32 fs (page_size s) e b = Val (reopened s fs b).
Proof.
  intros Hl Hm Hu Hv Hev Hw Hn (f & Hf & Hne & Hwin).
  unfold open. rewrite Hv, Hev. cbn [res_bind].
  destruct fs as [|f' fs']; [done|]. cbn in Hf. simplify_eq. cbn [head default from_option id].
  rewrite bool_decide_eq_false_2 by done.
  set (s0 := mkStore _ _ _ _ _ _ _ _ _ _).
  pose proof (lo_page s Hl) as Hps.
  assert (Hl0 : layout_ok s0) by (split; cbn; [done|lia|lia|by left]).
  assert (Hr0 : raw s0 0 = Some (published s (meta s) (Z.max (m_generation (meta s)) 1))).
  { unfold raw. rewrite (locate_0 s0 Hl0). exact Hwin. }
  unfold st_bind at 1. rewrite (read_superblock_ok s0 s (meta s) (Z.max (m_generation (meta s)) 1) Hl Hm Hu) by (try done; destruct Hm as (_&_&_&?&_); widths; lia).
  unfold st_bind, modify. cbv beta iota. rewrite open_segments_eq by exact Hn.
  cbn [set_meta set_layout extent_pages migration_target_pages m_extent_pages m_migration_target_pages].
  pose proof (lo_extent s Hl). pose proof (lo_target s Hl). unfold reopened.
  destruct (Z.ltb_spec 0 (extent_pages s)) as [He|He].
  - by rewrite (proj2 (Z.eqb_neq _ 0)) by lia.
  - assert (E0 : extent_pages s = 0) by lia. rewrite E0, Z.eqb_refl. cbn [andb].
    destruct (Z.eqb_spec (migration_target_pages s) 0) as [Et|Et]; unfold published_meta; by rewrite E0.
Qed.

(** A flushed store, reopened from its files: the same bytes behind the same
    layout. *)
Lemma flush_reopens (s : PageStore) (e : Z) (b : bool) :
  layout_ok s -> calm s -> meta_ok (meta s) -> layout_u64 s ->
  validate_page_size (page_size s) = Val tt -> validate_extent_bytes e (page_size s) = Val tt ->
  (extent_pages s = 0 -> migration_target_pages s = 0 -> migration_watermark s = 0) ->
  segments_needed s <= Z.of_nat (length (files s)) ->
  exists s', flush crc32 s = (Val tt, s') /\ open crc32 (files s') (page_size s) e b = Val (reopened s (files s') b) /\
    meta s' = meta s /\ layout_ok s' /\
    forall p, addressable s p -> locate s' p = locate s p /\ locate (reopened s (files s') b) p = locate s p /\
      segment_at (reopened s (files s') b) (fst (locate s p)) = segment_at s' (fst (locate s p)).
Proof.
  intros Hl Hc Hm Hu Hv Hev Hw Hn. destruct (flush_eq s Hl Hc) as [d Hfl]. rewrite Hfl.
  set (sb := published s (meta s) (Z.max (m_generation (meta s)) 1)). set (s' := set_dirty d (put 0 sb s)).
  assert (Hadd : addressable s 0).
  { pose proof (lo_page s Hl). split; [lia|]. unfold MAX_PAGE_SIZE in *. widths. lia. }
  assert (Hr : raw s' 0 = Some sb) by (apply (raw_put_same s Hl 0 sb Hadd); by apply blen_published).
  assert (Hl' : layout_ok s') by (by destruct Hl).
  destruct (segment_0 s' Hl' sb Hr) as (f & Hf0 & Hne).
  assert (Hlen : Z.of_nat (length (files s)) <= Z.of_nat (length (files s'))).
  { unfold s', put. cbn [files set_dirty set_files]. rewrite length_alter, length_app. lia. }
  exists s'. split; [done|]. ands; [|done|done|].
  { apply open_flushed; try done; [lia|]. exists f. ands; [done|done|].
    unfold raw in Hr. rewrite (locate_0 s' Hl') in Hr. cbn [fst snd] in Hr. unfold segment_at in Hr.
    change (0 <? 0) with false in Hr. cbv iota in Hr. change (Z.to_nat 0) with 0%nat in Hr. by rewrite Hf0 in Hr. }
  intros p Hp. split; [done|]. split; [by apply (layout_same s (reopened s (files s') b) p)|].
  unfold segment_at, reopened. cbn [files]. destruct (_ <? 0); [done|].
  destruct (Z.eqb_spec (extent_pages s) 0) as [E1|]; [|done].
  destruct (Z.eqb_spec (migration_target_pages s) 0) as [E2|]; [|done]. cbn [andb].
  rewrite (mono_segment s p Hl Hp E1 E2). change (Z.to_nat 0) with 0%nat. by rewrite lookup_take_lt by lia.
Qed.

(** C27: What a flush publishes is what the next open finds.  For every layout
    (monolithic, extents, mid-migration), [flush] writes a superblock from
    which [open] restores the page count, free list, root, checkpoint LSN and
    layout exactly; and every page reads as it did before. *)
Theorem published_metadata_is_reopened (s : PageStore) (e : Z) (b : bool)
    (Hl : layout_ok s) (Hc : calm s) (Hm : meta_ok (meta s)) (Hu : layout_u64 s) (Hf : backup_format s = false)
    (Hv : validate_page_size (page_size s) = Val tt) (Hev : validate_extent_bytes e (page_size s) = Val tt)
    (Hw : extent_pages s = 0 -> migration_target_pages s = 0 -> migration_watermark s = 0)
    (Hn : segments_needed s <= Z.of_nat (length (files s))) :
  exists s' s'', flush crc32 s = (Val tt, s') /\ open crc32 (files s') (page_size s) e b = Val s'' /\
    meta s'' = published_meta s /\
    forall p, addressable s p -> read_page crc32 s'' p = read_page crc32 s' p.
Proof.
  destruct (flush_reopens s e b Hl Hc Hm Hu Hv Hev Hw Hn) as (s' & Hfl & Ho & Em & _ & Hseg).
  exists s', (reopened s (files s') b). split; [done|]. split; [done|]. split; [done|]. intros p Hp.
  destruct (Hseg p Hp) as (E1 & E2 & E3). unfold read_page. rewrite Em. change (page_count (meta (reopened s (files s') b))) with (page_count (meta s)).
  split_if; [done|]. unfold read_page_unchecked. rewrite E1, E2. destruct (locate s p) as [i o]. cbn [fst] in E3. rewrite E3.
  assert (Es : page_size s' = page_size s) by (destruct (flush_eq s Hl Hc) as [d Hd]; rewrite Hd in Hfl; by injection Hfl as <-).
  by rewrite Es.
Qed.
End Superblock.

Lemma published_metadata_is_reopened_witness :
  let s := set_meta (mkMeta 3 2 1 9 1 77 0 0 0) (new_store 512 1048576 true) in
  exists s' s'', flush byte_sum s = (Val tt, s') /\ open byte_sum (files s') 512 0 false = Val s'' /\
    meta s'' = published_meta s /\
    forall p, addressable s p -> read_page byte_sum s'' p = read_page byte_sum s' p.
Proof.
  intros s. apply (published_metadata_is_reopened byte_sum byte_sum_u32 s 0 false).
  - split; [by vm_compute|by vm_compute|by vm_compute|by right].
  - by vm_compute.
  - unfold meta_ok. ands; by vm_compute.
  - unfold layout_u64. ands; by vm_compute.
  - by vm_compute.
  - by vm_compute.
  - by vm_compute.
  - by vm_compute.
  - by vm_compute.
Defined.
