(* ===== verification/Allocator.v ===== *)
(** * The page allocator

    The intrusive free list of the page store is a list of distinct free pages
    threaded through page headers.  [allocate] and [free] push and pop it,
    [adopt_free_pages] appends a checked segment to it, the repair operations
    cut it down, and a page that is in use is never handed out again. *)

From stdpp Require Import base tactics list numbers gmap sets relations.
From Stdlib Require Import ZArith Lia.
From S2P Require Import Prelude Search Bytes Errors PageFormat PageStore PageStoreSpec.
Local Open Scope Z_scope.
Local Open Scope bic_scope.

Section Allocator.
Variable crc32 : bytes -> Z.
Hypothesis Hcrc : forall l, is_u32 (crc32 l).

Abbreviation hdr := (hdr crc32).
Abbreviation stamped := (stamped crc32).

(** The free pages from [cursor] on are [fl], in order. *)
Fixpoint chained (s : PageStore) (cursor : Z) (fl : list Z) : Prop :=
  match fl with
  | [] => cursor = 0
  | p :: fl' => cursor = p /\ exists h, hdr s p h /\ page_type h = Free /\ chained s (next_page h) fl'
  end.

(** A store whose free list is [fl]. *)
Record free_list (s : PageStore) (fl : list Z) : Prop := {
  fl_layout : layout_ok s;
  fl_calm : calm s;
  fl_count : 1 <= page_count (meta s) /\ page_count (meta s) * page_size s < U64;
  fl_gen : is_u64 (m_generation (meta s));
  fl_chain : chained s (free_list_head (meta s)) fl;
  fl_nodup : NoDup fl;
  fl_length : free_page_count (meta s) = Z.of_nat (length fl);
  fl_range : Forall (fun p => 0 < p < page_count (meta s)) fl
}.

(** ** Frames *)

Lemma addressable_below s p :
  512 <= page_size s -> page_count (meta s) * page_size s < U64 -> 0 <= p < page_count (meta s) -> addressable s p.
Proof. intros. split; [lia|nia]. Qed.

Lemma hdr_raw s s' p h :
  layout_ok s -> layout_ok s' -> page_size s' = page_size s -> addressable s p ->
  (forall c, raw s p = Some c -> raw s' p = Some c) -> hdr s p h -> hdr s' p h.
Proof.
  intros Hl Hl' Hps Hp Hr. unfold PageStoreSpec.hdr, read_header.
  destruct (read_page_unchecked crc32 s p) as [r|e|] eqn:E; cbn [res_bind]; [|done..].
  destruct (raw_of_read crc32 s p r Hl Hp E) as [c Hc].
  rewrite (read_raw crc32 s p c Hl Hp Hc) in E.
  rewrite (read_raw crc32 s' p c Hl'); [by rewrite E|by unfold addressable in *; rewrite Hps|by apply Hr].
Qed.

Lemma hdr_put s p q b h :
  layout_ok s -> addressable s p -> addressable s q -> p <> q -> blen b = page_size s ->
  hdr s p h -> hdr (put q b s) p h.
Proof.
  intros Hl Hp Hq Hne Hb. apply hdr_raw; [done|by apply layout_put|done|done|]. intros c. by apply raw_put_other.
Qed.

Lemma chained_frame s s' cursor fl :
  (forall p h, p ∈ fl -> hdr s p h -> hdr s' p h) -> chained s cursor fl -> chained s' cursor fl.
Proof.
  revert cursor. induction fl as [|p fl IH]; intros cursor Hf; [done|]. cbn [chained].
  intros (-> & h & H1 & H2 & H3). split; [done|]. exists h. ands; [apply Hf; [by left|done]|done|].
  apply IH; [|done]. intros q h' Hq. apply Hf. by right.
Qed.

(** ** Metadata checks *)

Lemma chained_head s cursor fl : Forall (fun p => 0 < p < page_count (meta s)) fl -> chained s cursor fl ->
  (cursor = 0 <-> fl = []) /\ 0 <= cursor < Z.max 1 (page_count (meta s)).
Proof.
  destruct fl as [|p fl]; cbn [chained].
  - intros _ ->. split; [done|lia].
  - intros [Hp _]%Forall_cons_1 (-> & _). split; [split; [lia|done]|lia].
Qed.

Lemma validate_ok s fl : free_list s fl -> validate_free_list_metadata (meta s) = Val tt.
Proof.
  intros [_ _ [Hc _] _ Hch Hnd Hlen Hr]. pose proof (distinct_bound fl _ Hc Hnd Hr).
  destruct (chained_head s _ fl Hr Hch) as [Hh Hb]. unfold validate_free_list_metadata.
  rewrite (proj2 (Z.eqb_neq _ _)) by lia.
  assert (He : (free_list_head (meta s) =? 0) = (free_page_count (meta s) =? 0)).
  { destruct (Z.eqb_spec (free_list_head (meta s)) 0) as [E|E].
    - apply Hh in E as ->. by rewrite Hlen.
    - destruct fl; [by destruct E; apply Hh|]. rewrite Hlen. done. }
  rewrite He, eqb_reflx. cbn [negb]. unfold sat_sub.
  rewrite (proj2 (Z.ltb_ge _ _)) by lia. rewrite (proj2 (Z.leb_gt _ _)) by lia. done.
Qed.

(** ** The new page *)

(** A page as [allocate] and [free] write it. *)
Definition fresh_page (s : PageStore) (h : PageHeader) (gen : Z) : bytes :=
  stamped gen (patch (zeros (page_size s)) 0 (header_bytes h)).

Lemma blen_blank s h : layout_ok s -> blen (patch (zeros (page_size s)) 0 (header_bytes h)) = page_size s.
Proof.
  intros Hl. pose proof (lo_page s Hl). rewrite blen_patch; rewrite ?blen_zeros, ?blen_header_bytes; lia.
Qed.

Lemma blen_fresh s h gen : layout_ok s -> blen (fresh_page s h gen) = page_size s.
Proof.
  intros Hl. pose proof (lo_page s Hl). unfold fresh_page. rewrite blen_stamped; rewrite blen_blank; auto; lia.
Qed.

Lemma blank_write s p h gen :
  layout_ok s -> calm s -> p <> 0 ->
  (do page <- blank_page h (page_size s) ;; write_page_raw crc32 p page gen ;;; st_ret p) s =
  (Val p, put p (fresh_page s h gen) s).
Proof.
  intros Hl Hc Hp. pose proof (lo_page s Hl). unfold blank_page, on_buffer, st_bind.
  rewrite encode_patch by (rewrite blen_zeros; lia).
  rewrite write_raw_eq; [done|done|done|by apply blen_blank|done].
Qed.

Lemma read_fresh s p h gen :
  layout_ok s -> addressable s p -> header_ok h -> is_u64 gen ->
  read_page_unchecked crc32 (put p (fresh_page s h gen) s) p = Val (with_generation h gen, fresh_page s h gen).
Proof.
  intros Hl Hp Hh Hg. pose proof (lo_page s Hl).
  apply (read_stamped crc32 Hcrc _ p h (zeros (page_size s)) gen); [by apply layout_put|done|done|done| |].
  - rewrite blen_zeros; [done|]. lia.
  - apply raw_put_same; [done|done|]. by apply blen_fresh.
Qed.

(** ** Allocation *)

(** The head of a free list passes the checks of [allocate]. *)
Lemma pop_free_ok s p fl :
  free_list s (p :: fl) -> exists h, hdr s p h /\ pop_free crc32 s = Val (next_page h, generation h) /\
    chained s (next_page h) fl.
Proof.
  intros F. destruct F as [Hl _ _ _ Hch Hnd Hlen Hr]. destruct Hch as (Hp & h & Hh & Ht & Hc).
  exists h. ands; [done| |done]. apply Forall_cons_1 in Hr as [Hrp Hr]. apply NoDup_cons in Hnd as [Hnp Hnd].
  unfold pop_free. rewrite Hp. rewrite Hh. cbn [res_bind]. rewrite bool_decide_eq_true_2 by done. cbn [negb].
  destruct (chained_head s _ fl Hr Hc) as [Hz Hb].
  assert (Hnp' : next_page h <> p).
  { destruct fl as [|q fl]; cbn [chained] in Hc; [lia|]. destruct Hc as [-> _]. intros ->. apply Hnp. by left. }
  rewrite (proj2 (Z.eqb_neq (next_page h) p)) by done. cbn [orb].
  assert (Hle : negb (next_page h =? 0) && (page_count (meta s) <=? next_page h) = false).
  { destruct (Z.eqb_spec (next_page h) 0); [done|]. cbn [negb andb]. apply Z.leb_gt. lia. }
  rewrite Hle.
  assert (Hone : (free_page_count (meta s) =? 1) = (next_page h =? 0)).
  { rewrite Hlen. destruct fl as [|q fl]; cbn [length].
    - by rewrite (proj2 Hz).
    - rewrite (proj2 (Z.eqb_neq _ 0)) by (intros E; by apply Hz in E). apply Z.eqb_neq. lia. }
  rewrite Hone, eqb_reflx. cbn [negb].
  destruct (Z.eqb_spec (next_page h) 0) as [E|E]; [done|].
  destruct fl as [|q fl]; [by destruct E; apply Hz|]. destruct Hc as (Hq & h2 & Hh2 & Ht2 & Hc2).
  rewrite Hq, Hh2. cbn [res_bind]. rewrite bool_decide_eq_true_2 by done. cbn [negb].
  assert (Hcy : next_page h2 <> p).
  { destruct fl as [|r fl]; cbn [chained] in Hc2; [lia|]. destruct Hc2 as [-> _]. intros ->. apply Hnp. right. by left. }
  by rewrite (proj2 (Z.eqb_neq _ _)).
Qed.

(** Everything but page [p] is as it was. *)
Definition same_except (s s' : PageStore) (p : Z) : Prop :=
  forall q c, q <> p -> 0 <= q < page_count (meta s) -> raw s q = Some c -> raw s' q = Some c.

(** The page just allocated: zeroed, of type [t], readable. *)
Definition blank (s : PageStore) (p : Z) (t : PageType) : Prop :=
  exists gen, read_page crc32 s p = Val (with_generation (new_header p t (page_size s)) gen,
                                         fresh_page s (new_header p t (page_size s)) gen).

Lemma sat_add_u64 a b : 0 <= a + b -> is_u64 (sat_add a b).
Proof. widths. lia. Qed.

Lemma allocate_reuses s p fl t :
  free_list s (p :: fl) -> t <> Superblock -> t <> Free ->
  exists s', allocate crc32 t s = (Val p, s') /\ free_list s' fl /\ blank s' p t /\ same_except s s' p /\
    page_count (meta s') = page_count (meta s) /\ root_page (meta s') = root_page (meta s) /\
    page_size s' = page_size s.
Proof.
  intros F Ht1 Ht2. pose proof (validate_ok s _ F) as Hv. destruct (pop_free_ok s p fl F) as (h & Hh & Hpop & Hc).
  destruct F as [Hl Hcalm [Hpc Hpz] Hg Hch Hnd Hlen Hr]. destruct Hch as [Hhead _].
  pose proof (lo_page s Hl) as Hps.
  apply Forall_cons_1 in Hr as [Hrp Hr]. apply NoDup_cons in Hnd as [Hnp Hnd].
  assert (Ha : forall q, 0 <= q < page_count (meta s) -> addressable s q) by (intros; apply addressable_below; lia).
  set (m1 := with_head (next_page h) ((free_page_count (meta s) - 1) mod U64) (meta s)).
  set (gen := sat_add (Z.max (m_generation (meta s)) (generation h)) 1).
  set (m2 := with_gen gen m1). set (s2 := set_meta m2 s).
  assert (Hgen : is_u64 gen) by (apply sat_add_u64; widths; lia).
  assert (Hl2 : layout_ok s2) by (by destruct Hl).
  assert (E : allocate crc32 t s = (Val p, put p (fresh_page s2 (new_header p t (page_size s)) gen) s2)).
  { unfold allocate. rewrite !bool_decide_eq_false_2 by done. cbn [orb].
    unfold st_bind at 1, gets at 1, id. cbv beta iota zeta. rewrite Hv, Hhead.
    rewrite (proj2 (Z.eqb_neq _ _)) by lia. cbn [negb]. unfold st_bind at 1, st_lift at 1. cbv beta iota.
    unfold st_bind at 1 2 3. unfold st_lift. rewrite Hpop. unfold modify, st_ret. cbv beta iota.
    change (with_head (next_page h) ((free_page_count (meta s) - 1) mod U64) (meta s)) with m1.
    unfold st_bind at 1. cbv beta iota.
    change (set_meta _ (set_meta m1 s)) with s2. unfold st_bind at 1, gets. cbv beta iota.
    change (page_size s2) with (page_size s). change (m_generation (meta s2)) with gen.
    apply (blank_write s2 p (new_header p t (page_size s)) gen Hl2 Hcalm). lia. }
  assert (Hbl : blen (fresh_page s2 (new_header p t (page_size s)) gen) = page_size s2) by (by apply blen_fresh).
  eexists. split; [exact E|]. ands; try done.
  - split; try done; [by apply layout_put| |].
    + apply (chained_frame s); [|done]. intros q k Hq Hk. rewrite Forall_forall in Hr. specialize (Hr q Hq).
      apply hdr_put; [done|apply Ha; lia|apply Ha; lia| |done|done]. intros ->. done.
    + cbn. rewrite Hlen. cbn [length].
      pose proof (distinct_bound fl _ Hpc Hnd Hr). rewrite Z.mod_small; [lia|]. widths. nia.
  - exists gen. unfold read_page. rewrite (proj2 (Z.leb_gt _ _)) by (cbn; lia).
    apply (read_fresh s2); [done|apply Ha; lia| |done]. apply new_header_ok. widths. nia.
  - intros q c Hne Hq Hraw. apply (raw_put_other s2); [done|apply Ha; lia|apply Ha; lia|done|done|done].
Qed.

(** The store in which [allocate] writes the next page of the file. *)
Definition extended (s : PageStore) : PageStore :=
  if migration_target_pages s =? 0 then s else grown (page_count (meta s) + 1) s.

Lemma layout_extended s : layout_ok s -> layout_ok (extended s).
Proof. intros []. unfold extended. by destruct (_ =? _). Qed.

Lemma raw_extended s q c :
  layout_ok s -> addressable s q -> q < page_count (meta s) -> raw s q = Some c -> raw (extended s) q = Some c.
Proof.
  intros Hl Hq Hlt Hr. unfold extended. destruct (Z.eqb_spec (migration_target_pages s) 0); [done|].
  destruct (lo_one s Hl); [|done]. apply raw_grown; auto. lia.
Qed.

Lemma allocate_grows s t :
  free_list s [] -> t <> Superblock -> t <> Free -> (page_count (meta s) + 2) * page_size s < U64 ->
  exists s', allocate crc32 t s = (Val (page_count (meta s)), s') /\ free_list s' [] /\
    blank s' (page_count (meta s)) t /\ same_except s s' (page_count (meta s)) /\
    page_count (meta s') = page_count (meta s) + 1 /\ root_page (meta s') = root_page (meta s) /\
    page_size s' = page_size s.
Proof.
  intros F Ht1 Ht2 Hroom. pose proof (validate_ok s _ F) as Hv.
  destruct F as [Hl Hcalm [Hpc Hpz] Hg Hhead _ Hlen _]. cbn [chained] in Hhead.
  pose proof (lo_page s Hl) as Hps. set (p := page_count (meta s)) in *.
  set (m2 := with_gen (sat_add (m_generation (meta s)) 1) (with_count (p + 1) (meta s))).
  set (s2 := set_meta m2 (extended s)).
  assert (Hgen : is_u64 (m_generation m2)) by (apply sat_add_u64; widths; lia).
  assert (Hl2 : layout_ok s2) by (by destruct (layout_extended s Hl)).
  assert (Hc2 : calm s2) by (unfold s2, extended; by destruct (_ =? _)).
  assert (Hp2 : page_size s2 = page_size s) by (unfold s2, extended; by destruct (_ =? _)).
  assert (Ha : forall q, 0 <= q <= p -> addressable s q) by (intros q Hq; split; [lia|nia]).
  assert (Ha2 : forall q, 0 <= q <= p -> addressable s2 q) by (unfold addressable; rewrite Hp2; done).
  assert (E : allocate crc32 t s =
    (Val p, put p (fresh_page s2 (new_header p t (page_size s)) (m_generation m2)) s2)).
  { unfold allocate. rewrite !bool_decide_eq_false_2 by done. cbn [orb].
    unfold st_bind at 1, gets at 1, id. cbv beta iota zeta. rewrite Hv, Hhead, Z.eqb_refl. cbn [negb].
    unfold st_bind at 1, st_lift at 1. cbv beta iota. fold p.
    assert (Hext : (if negb (migration_target_pages s =? 0) then extend_to (sat_add p 1) else st_ret tt) s
                   = (Val tt, extended s)).
    { unfold extended. destruct (Z.eqb_spec (migration_target_pages s) 0) as [|Hm]; [done|]. cbn [negb].
      replace (sat_add p 1) with (p + 1) by (widths; nia).
      destruct (lo_one s Hl); [|done]. apply extend_mono_eq; [done|nia]. }
    unfold st_bind at 1 2 3. rewrite Hext. unfold modify, st_ret. cbv beta iota.
    assert (Hm : meta (extended s) = meta s) by (unfold extended; by destruct (_ =? _)).
    cbn [meta set_meta]. rewrite Hm. rewrite (Z.mod_small (p + 1)) by (widths; nia).
    unfold st_bind at 1. cbv beta iota. cbn [meta set_meta m_generation with_count].
    rewrite Z.max_l by (widths; lia).
    change (set_meta _ (set_meta _ (extended s))) with s2. unfold st_bind at 1, gets. cbv beta iota.
    rewrite Hp2, <- Hp2 at 1. change (m_generation (meta s2)) with (m_generation m2).
    rewrite <- Hp2. apply (blank_write s2 p (new_header p t (page_size s2)) (m_generation m2) Hl2 Hc2). lia. }
  assert (Hbl : blen (fresh_page s2 (new_header p t (page_size s)) (m_generation m2)) = page_size s2)
    by (by apply blen_fresh).
  eexists. split; [exact E|]. ands; try done.
  - split; try done; [by apply layout_put| |by constructor].
    change (1 <= p + 1 /\ (p + 1) * page_size s2 < U64). rewrite Hp2. split; [lia|nia].
  - exists (m_generation m2). unfold read_page. rewrite (proj2 (Z.leb_gt _ _)) by (cbn; lia).
    change (page_size (put _ _ s2)) with (page_size s2). rewrite Hp2.
    apply (read_fresh s2); [done|apply Ha2; lia| |done]. apply new_header_ok. widths. nia.
  - intros q c Hne Hq Hraw. fold p in Hq.
    apply (raw_put_other s2); [done|apply Ha2; lia|apply Ha2; lia|done|done|].
    change (raw s2 q) with (raw (extended s) q). apply raw_extended; [done|apply Ha; lia|fold p; lia|done].
Qed.

(** ** Freeing *)

Lemma chained_type s cursor fl p : chained s cursor fl -> p ∈ fl -> exists h, hdr s p h /\ page_type h = Free.
Proof.
  revert cursor. induction fl as [|q fl IH]; intros cursor Hc Hp; [by apply not_elem_of_nil in Hp|].
  destruct Hc as (-> & h & Hh & Ht & Hc). apply elem_of_cons in Hp as [->|Hp]; [eauto|]. by apply (IH (next_page h)).
Qed.

Lemma hdr_fun s p h h' : hdr s p h -> hdr s p h' -> h = h'.
Proof. unfold PageStoreSpec.hdr. congruence. Qed.

(** The checks of [free] before it reads the page. *)
Lemma free_prefix s fl p :
  free_list s fl -> 0 < p < page_count (meta s) -> p <> root_page (meta s) ->
  free crc32 p s =
  (do existing <- st_lift (read_header crc32 s p) ;;
   if bool_decide (page_type existing = Free) then st_fail (PageAlreadyFree p)
   else if bool_decide (page_type existing = Superblock)
   then st_fail (UnexpectedPageType p (page_type_u8 (page_type existing)) (page_type_u8 Free))
   else
     let gen := sat_add (Z.max (m_generation (meta s)) (generation existing)) 1 in
     modify (set_meta (with_gen gen (with_head p ((free_page_count (meta s) + 1) mod U64) (meta s)))) ;;;
     do page <- blank_page (with_link (new_header p Free (page_size s)) (free_list_head (meta s)) 0) (page_size s) ;;
     write_page_raw crc32 p page gen ;;;
     st_ret tt) s.
Proof.
  intros F Hp Hr. unfold free. rewrite (proj2 (Z.eqb_neq _ _)) by (unfold SUPERBLOCK_PAGE_ID; lia).
  unfold st_bind at 1, gets at 1, id. cbv beta iota zeta. rewrite (validate_ok s fl F).
  unfold st_bind at 1, st_lift at 1. cbv beta iota.
  rewrite (proj2 (Z.leb_gt _ _)) by lia. by rewrite (proj2 (Z.eqb_neq _ _)).
Qed.

Lemma free_pushes s fl p h :
  free_list s fl -> 0 < p < page_count (meta s) -> p <> root_page (meta s) ->
  hdr s p h -> page_type h <> Free -> page_type h <> Superblock ->
  exists s', free crc32 p s = (Val tt, s') /\ free_list s' (p :: fl) /\ same_except s s' p /\
    page_count (meta s') = page_count (meta s) /\ root_page (meta s') = root_page (meta s) /\
    page_size s' = page_size s.
Proof.
  intros F Hp Hroot Hh Ht1 Ht2. rewrite (free_prefix s fl p F Hp Hroot).
  destruct F as [Hl Hcalm [Hpc Hpz] Hg Hch Hnd Hlen Hr]. pose proof (lo_page s Hl) as Hps.
  assert (Ha : forall q, 0 <= q < page_count (meta s) -> addressable s q) by (intros; apply addressable_below; lia).
  assert (Hnp : p ∉ fl).
  { intros Hin. destruct (chained_type s _ fl p Hch Hin) as (h' & Hh' & Ht'). by rewrite (hdr_fun s p h h' Hh Hh') in Ht1. }
  pose proof (distinct_bound fl _ Hpc Hnd Hr) as Hb. pose proof (chained_head s _ fl Hr Hch) as [_ Hhd].
  set (gen := sat_add (Z.max (m_generation (meta s)) (generation h)) 1).
  set (m2 := with_gen gen (with_head p (free_page_count (meta s) + 1) (meta s))). set (s2 := set_meta m2 s).
  set (h' := with_link (new_header p Free (page_size s)) (free_list_head (meta s)) 0).
  assert (Hgen : is_u64 gen) by (apply sat_add_u64; widths; lia).
  assert (Hl2 : layout_ok s2) by (by destruct Hl).
  assert (Hh' : header_ok h').
  { apply with_link_ok; [apply new_header_ok|..]; widths; nia. }
  eexists. unfold st_bind at 1, st_lift at 1. rewrite Hh. cbv beta iota.
  rewrite !bool_decide_eq_false_2 by done. fold gen. cbv zeta.
  rewrite (Z.mod_small (_ + 1)) by (widths; nia). fold m2.
  unfold st_bind at 1, modify at 1. cbv beta iota. fold s2 h'.
  pose proof (blank_write s2 p h' gen Hl2 Hcalm ltac:(lia)) as Hw.
  change (page_size s2) with (page_size s) in Hw.
  split.
  { revert Hw. unfold st_bind. destruct (blank_page h' (page_size s) s2) as [[b| |] s3]; [|done..].
    destruct (write_page_raw crc32 p b gen s3) as [[b'| |] s4]; [|done..]. unfold st_ret. intros [= Hs4]. rewrite Hs4. reflexivity. }
  assert (Hbl : blen (fresh_page s2 h' gen) = page_size s2) by (by apply blen_fresh).
  ands; try done.
  - split; try done; [by apply layout_put| | | |].
    + cbn [chained]. split; [done|]. exists (with_generation h' gen). ands; [|done|].
      * unfold PageStoreSpec.hdr, read_header.
        rewrite (read_fresh s2 p h' gen Hl2 (Ha p ltac:(lia)) Hh' Hgen). done.
      * apply (chained_frame s); [|done]. intros q k Hq Hk. rewrite Forall_forall in Hr. specialize (Hr q Hq).
        apply hdr_put; [done|apply Ha; lia|apply Ha; lia| |done|done]. intros ->. done.
    + by constructor.
    + change (free_page_count (meta s) + 1 = Z.of_nat (length (p :: fl))). cbn [length]. lia.
    + by constructor.
  - intros q c Hne Hq Hraw. apply (raw_put_other s2); [done|apply Ha; lia|apply Ha; lia|done|done|done].
Qed.

Lemma free_refuses s fl p :
  free_list s fl -> p ∈ fl -> p <> root_page (meta s) -> free crc32 p s = (Err (PageAlreadyFree p), s).
Proof.
  intros F Hin Hroot. pose proof (fl_range _ _ F) as Hr. rewrite Forall_forall in Hr.
  rewrite (free_prefix s fl p F (Hr p Hin) Hroot).
  destruct (chained_type s _ fl p (fl_chain _ _ F) Hin) as (h & Hh & Ht).
  unfold st_bind, st_lift. rewrite Hh. cbv beta iota. by rewrite bool_decide_eq_true_2.
Qed.
End Allocator.
