(* ===== verification/AllocatorTheorems.v ===== *)
(** * The page allocator: guarantees

    Over any history of allocations, frees, refused frees and page writes, a
    page in use is never handed out again; a vacuum segment is adopted only if
    it makes a longer list of distinct free pages; and the repair of a corrupt
    list always leaves a sound one. *)

From stdpp Require Import base tactics list numbers gmap sets relations.
From Stdlib Require Import ZArith Lia.
From S2P Require Import Prelude Search Bytes Errors PageFormat PageStore PageStoreSpec Superblock Allocator.
Local Open Scope Z_scope.
Local Open Scope bic_scope.

Section Claims.
Variable crc32 : bytes -> Z.
Hypothesis Hcrc : forall l, is_u32 (crc32 l).

Abbreviation hdr := (hdr crc32).
Abbreviation free_list := (free_list crc32).

(** ** Histories *)

(** A page in use. *)
Definition in_use (s : PageStore) (p : Z) : Prop :=
  0 < p < page_count (meta s) /\ exists h, hdr s p h /\ page_type h <> Free /\ page_type h <> Superblock.

Definition room_for_page (s : PageStore) : Prop := (page_count (meta s) + 2) * page_size s < U64.

(** Stores and the set of pages in use, step by step.  [free] may be called on
    any page id; a page in use is written with a header of its own type. *)
Inductive astep : PageStore * gset Z -> PageStore * gset Z -> Prop :=
  | as_allocate s L t p s' :
      room_for_page s -> allocate crc32 t s = (Val p, s') -> astep (s, L) (s', L ∪ {[p]})
  | as_free s L p s' : is_u64 p -> free crc32 p s = (Val tt, s') -> astep (s, L) (s', L ∖ {[p]})
  | as_free_refused s L p e s' : is_u64 p -> free crc32 p s = (Err e, s') -> astep (s, L) (s', L)
  | as_write s L p h body b s' :
      p ∈ L -> header_ok h -> page_type h <> Free -> page_type h <> Superblock -> blen body = page_size s ->
      write_page crc32 p (patch body 0 (header_bytes h)) s = (Val b, s') -> astep (s, L) (s', L).

Definition ainv (c : PageStore * gset Z) : Prop :=
  exists fl, free_list (fst c) fl /\ (forall p, p ∈ snd c -> in_use (fst c) p) .

Lemma in_use_frame s s' p q :
  layout_ok s -> layout_ok s' -> page_size s' = page_size s -> same_except s s' q ->
  page_count (meta s) <= page_count (meta s') -> page_count (meta s) * page_size s < U64 ->
  p <> q -> in_use s p -> in_use s' p.
Proof.
  intros Hl Hl' Hps Hsame Hc Hz Hne (Hp & h & Hh & H1 & H2). split; [lia|]. exists h. ands; [|done|done].
  pose proof (lo_page s Hl). apply (hdr_raw crc32 s); try done; [apply addressable_below; lia|].
  intros c Hr. apply (Hsame p c Hne); [lia|done].
Qed.

Lemma in_use_not_free s fl p : free_list s fl -> in_use s p -> p ∉ fl.
Proof.
  intros F (_ & h & Hh & Ht & _) Hin.
  destruct (chained_type crc32 s _ fl p (fl_chain _ _ _ F) Hin) as (h' & Hh' & Ht').
  by rewrite (hdr_fun crc32 s p h h' Hh Hh') in Ht.
Qed.

Lemma read_header_total s p : layout_ok s -> (exists h, read_header crc32 s p = Val h) \/ exists e, read_header crc32 s p = Err e.
Proof.
  intros Hl. pose proof (lo_page s Hl). unfold read_header, read_page_unchecked. destruct (locate s p) as [i o].
  destruct (segment_at s i) as [f|]; [|right; by eexists].
  destruct (Z.eqb_spec (blen (read_at f (page_size s) o)) (page_size s)) as [E|]; cbn [negb]; [|right; by eexists].
  destruct (verify_cases crc32 (read_at f (page_size s) o) p) as [-> |[(?&?&->)|(?&?&->)]]; [lia| |right; by eexists..].
  cbn [res_bind]. rewrite decode_spec. repeat split_if; try (right; by eexists).
  destruct (page_type_from_u8 _); [left|right]; by eexists.
Qed.

(** [free] on any page id either refuses and changes nothing, or frees a page
    that was not free. *)
Lemma free_total s fl p :
  free_list s fl -> is_u64 p ->
  (exists e, free crc32 p s = (Err e, s)) \/
  (0 < p < page_count (meta s) /\ p <> root_page (meta s) /\
   exists h, hdr s p h /\ page_type h <> Free /\ page_type h <> Superblock).
Proof.
  intros F Hp. pose proof (validate_ok crc32 s fl F) as Hv.
  destruct (decide (p = 0)) as [->|Hp0]; [left; by eexists|].
  destruct (decide (page_count (meta s) <= p)) as [Hge|Hlt].
  { left. eexists. unfold free. rewrite (proj2 (Z.eqb_neq _ _)) by done. unfold st_bind, gets, id, st_lift. cbv beta iota zeta.
    rewrite Hv. by rewrite (proj2 (Z.leb_le _ _)). }
  destruct (decide (p = root_page (meta s))) as [Hroot|Hroot].
  { left. eexists. unfold free. rewrite (proj2 (Z.eqb_neq _ _)) by done. unfold st_bind, gets, id, st_lift. cbv beta iota zeta.
    rewrite Hv, (proj2 (Z.leb_gt _ _)) by lia. by rewrite Hroot, Z.eqb_refl. }
  assert (Hr : 0 < p < page_count (meta s)) by (widths; lia).
  rewrite (free_prefix crc32 s fl p F Hr Hroot).
  destruct (read_header_total s p (fl_layout _ _ _ F)) as [[h Hh]|[e He]].
  - destruct (decide (page_type h = Free)) as [Ht|Ht].
    { left. eexists. unfold st_bind, st_lift. rewrite Hh. cbv beta iota. by rewrite bool_decide_eq_true_2. }
    destruct (decide (page_type h = Superblock)) as [Ht'|Ht'].
    { left. eexists. unfold st_bind, st_lift. rewrite Hh. cbv beta iota.
      rewrite bool_decide_eq_false_2 by done. by rewrite bool_decide_eq_true_2. }
    right. ands; [lia|lia|done|]. by exists h.
  - left. exists e. unfold st_bind, st_lift. by rewrite He.
Qed.

Lemma write_page_eq s fl p h body b s' :
  free_list s fl -> in_use s p -> header_ok h -> blen body = page_size s ->
  write_page crc32 p (patch body 0 (header_bytes h)) s = (Val b, s') ->
  exists gen, is_u64 gen /\ b = stamped crc32 gen (patch body 0 (header_bytes h)) /\
    s' = put p b (set_meta (with_gen gen (meta s)) s).
Proof.
  intros F (Hp & _) Hh Hb. pose proof (lo_page s (fl_layout _ _ _ F)) as Hps.
  set (gen := (m_generation (meta s) + 1) mod U64).
  assert (Hg : is_u64 gen) by (apply Z.mod_pos_bound; done).
  unfold write_page, st_bind, gets, id, modify. cbv beta iota. fold gen.
  rewrite write_raw_eq; [intros [= <- <-]; by exists gen|by destruct (fl_layout _ _ _ F)|exact (fl_calm _ _ _ F)| |lia].
  rewrite blen_patch; [done|lia|]. rewrite blen_header_bytes. change (64 <= blen body). lia.
Qed.

Lemma write_keeps s fl p h body b s' :
  free_list s fl -> in_use s p -> header_ok h -> page_type h <> Free -> page_type h <> Superblock ->
  blen body = page_size s -> write_page crc32 p (patch body 0 (header_bytes h)) s = (Val b, s') ->
  free_list s' fl /\ in_use s' p /\ same_except s s' p /\ page_size s' = page_size s /\ page_count (meta s') = page_count (meta s).
Proof.
  intros F Hu Hh H1 H2 Hb Hw. pose proof (in_use_not_free s fl p F Hu) as Hnf.
  destruct (write_page_eq s fl p h body b s' F Hu Hh Hb Hw) as (gen & Hg & -> & ->). destruct Hu as (Hp & _).
  destruct F as [Hl Hcalm [Hpc Hpz] Hgm Hch Hnd Hlen Hr]. pose proof (lo_page s Hl) as Hps.
  set (s1 := set_meta (with_gen gen (meta s)) s). set (b := stamped crc32 gen _).
  assert (Hl1 : layout_ok s1) by (by destruct Hl).
  assert (Hbl : blen b = page_size s1).
  { unfold b. rewrite blen_stamped; rewrite blen_patch; rewrite ?blen_header_bytes; change (page_size s1) with (page_size s); lia. }
  assert (Ha : forall q, 0 <= q < page_count (meta s) -> addressable s1 q) by (intros; split; [lia|]; change (page_size s1) with (page_size s); nia).
  assert (Hsame : same_except s (put p b s1) p).
  { intros q c Hne Hq Hraw. apply (raw_put_other s1); [done|apply Ha; lia|apply Ha; lia|done|done|done]. }
  ands; try done.
  - split; try done; [by apply layout_put|]. apply (chained_frame crc32 s); [|done]. intros q k Hq Hk.
    rewrite Forall_forall in Hr. specialize (Hr q Hq).
    apply hdr_put; [done|apply Ha; lia|apply Ha; lia| |done|done]. intros ->. done.
  - split; [exact Hp|]. exists (with_generation h gen). ands; [|done|done]. unfold PageStoreSpec.hdr, read_header.
    rewrite (read_stamped crc32 Hcrc (put p b s1) p h body gen); [done|by apply layout_put|apply Ha; lia|done|done|done|].
    apply raw_put_same; [done|apply Ha; lia|done].
Qed.

Lemma blank_in_use s p t :
  blank crc32 s p t -> 0 < p < page_count (meta s) -> t <> Superblock -> t <> Free -> in_use s p.
Proof.
  intros (gen & B) Hp H1 H2. split; [done|]. exists (with_generation (new_header p t (page_size s)) gen).
  unfold PageStoreSpec.hdr, read_header. unfold read_page in B. rewrite (proj2 (Z.leb_gt _ _)) in B by lia.
  by rewrite B.
Qed.

(** [allocate] from any list: the page is off the list, blank, and nothing else
    changed. *)
Lemma allocate_any s fl t :
  free_list s fl -> t <> Superblock -> t <> Free -> room_for_page s ->
  exists p s' fl', allocate crc32 t s = (Val p, s') /\ free_list s' fl' /\ blank crc32 s' p t /\
    same_except s s' p /\ page_count (meta s) <= page_count (meta s') /\ page_size s' = page_size s /\
    0 < p < page_count (meta s') /\ (p ∈ fl \/ p = page_count (meta s)).
Proof.
  intros F H1 H2 Hroom. pose proof (fl_count _ _ _ F). destruct fl as [|q fl].
  - destruct (allocate_grows crc32 Hcrc s t F H1 H2 Hroom) as (s2 & E & F2 & B & S & C & _ & P).
    eexists _, s2, []. split; [exact E|]. ands; try done; try lia.
  - destruct (allocate_reuses crc32 Hcrc s q fl t F H1 H2) as (s2 & E & F2 & B & S & C & _ & P).
    pose proof (fl_range _ _ _ F) as [Hq _]%Forall_cons_1.
    eexists q, s2, fl. split; [exact E|]. ands; try done; try lia. left. by left.
Qed.

Lemma astep_inv c c' : astep c c' -> ainv c -> ainv c'.
Proof.
  intros Hs (fl & F & Hu). destruct Hs as [s L t p s' Hroom Ha|s L p s' Hp Hf|s L p e s' Hp Hf|s L p h body b s' Hp Hh H1 H2 Hb Hw];
    cbn [fst snd] in *.
  - assert (Ht : t <> Superblock /\ t <> Free) by (unfold allocate in Ha; split; intros ->; done).
    destruct Ht as [Ht1 Ht2]. pose proof (fl_count _ _ _ F) as [_ Hz].
    destruct (allocate_any s fl t F Ht1 Ht2 Hroom) as (p' & s2 & fl' & E & F' & B & S & C & P & Hr & _).
    rewrite Ha in E. simplify_eq. exists fl'. cbn [fst snd]. split; [exact F'|]. intros q Hq.
    destruct (decide (q = p')) as [->|Hne]; [by apply (blank_in_use _ _ t)|].
    apply (in_use_frame s s2 q p' (fl_layout _ _ _ F) (fl_layout _ _ _ F') P S C Hz Hne). set_solver.
  - destruct (free_total s fl p F Hp) as [[e He]|(Hr & Hroot & h & Hh & H1 & H2)]; [by rewrite He in Hf|].
    destruct (free_pushes crc32 Hcrc s fl p h F Hr Hroot Hh H1 H2) as (s2 & E & F2 & S & C & _ & P).
    rewrite Hf in E. simplify_eq. exists (p :: fl). cbn [fst snd]. split; [done|]. intros q [Hq Hne%not_elem_of_singleton]%elem_of_difference.
    pose proof (fl_count _ _ _ F) as [_ Hz].
    apply (in_use_frame s s2 q p (fl_layout _ _ _ F) (fl_layout _ _ _ F2) P S); [lia|done|done|auto].
  - destruct (free_total s fl p F Hp) as [[e' He]|(Hr & Hroot & h & Hh & H1 & H2)].
    + rewrite Hf in He. simplify_eq. by exists fl.
    + destruct (free_pushes crc32 Hcrc s fl p h F Hr Hroot Hh H1 H2) as (s2 & E & _). by rewrite Hf in E.
  - destruct (write_keeps s fl p h body b s' F (Hu p Hp) Hh H1 H2 Hb Hw) as (F' & Hup & S & P & C).
    exists fl. cbn [fst snd]. split; [done|]. intros q Hq. destruct (decide (q = p)) as [->|Hne]; [done|].
    pose proof (fl_count _ _ _ F) as [_ Hz].
    apply (in_use_frame s s' q p (fl_layout _ _ _ F) (fl_layout _ _ _ F') P S); [lia|done|done|auto].
Qed.

Lemma asteps_inv c c' : rtc astep c c' -> ainv c -> ainv c'.
Proof. induction 1 as [|x y z Hxy _ IH]; [done|]. intros I. by apply IH, (astep_inv x). Qed.

(** A new store has nothing free and nothing in use. *)
Lemma new_store_inv n e b s :
  validate_page_size n = Val tt -> validate_extent_bytes e n = Val tt -> 0 <= e ->
  open crc32 [] n e b = Val s -> ainv (s, ∅).
Proof.
  intros Hn He H0 Ho. destruct (open_new crc32 n e b Hn He H0) as [sb E]. rewrite E in Ho. simplify_eq.
  pose proof (validate_page_size_val n Hn). exists []. split; [|set_solver].
  pose proof (new_store_layout n e b Hn H0) as Hl.
  split; cbn [fst]; try done; [by apply layout_put| |constructor].
  split; [cbn; lia|]. change (1 * n < U64). unfold MAX_PAGE_SIZE in *. widths. lia.
Qed.

Lemma read_same s s' p q :
  layout_ok s -> layout_ok s' -> page_size s' = page_size s -> same_except s s' q ->
  page_count (meta s) <= page_count (meta s') -> page_count (meta s) * page_size s < U64 ->
  p <> q -> in_use s p -> read_page crc32 s' p = read_page crc32 s p.
Proof.
  intros Hl Hl' Hps Hsame Hc Hz Hne (Hp & h & Hh & _). pose proof (lo_page s Hl).
  assert (Ha : addressable s p) by (apply addressable_below; lia).
  unfold PageStoreSpec.hdr, read_header in Hh.
  destruct (read_page_unchecked crc32 s p) as [r| |] eqn:E; try done.
  destruct (raw_of_read crc32 s p r Hl Ha E) as [c Hraw].
  unfold read_page. rewrite !(proj2 (Z.leb_gt _ _)) by lia.
  rewrite (read_raw crc32 s p c Hl Ha Hraw), (read_raw crc32 s' p c Hl'); [done| |].
  - unfold addressable in *. by rewrite Hps.
  - apply (Hsame p c Hne); [lia|done].
Qed.

(** ** Lists from links *)

Definition nonzero : Z -> Prop := fun p => p <> 0.

Lemma chained_det s : forall l1 l2 c,
  Forall nonzero l1 -> Forall nonzero l2 -> chained crc32 s c l1 -> chained crc32 s c l2 -> l1 = l2.
Proof.
  induction l1 as [|p l1 IH]; intros [|q l2] c N1 N2 H1 H2; cbn [chained] in *; try done.
  - destruct H2 as [-> _]. apply Forall_cons_1 in N2 as [N2 _]. by destruct N2.
  - destruct H1 as [-> _]. apply Forall_cons_1 in N1 as [N1 _]. by destruct N1.
  - destruct H1 as (-> & h1 & Hh1 & _ & H1), H2 as (-> & h2 & Hh2 & _ & H2).
    rewrite (hdr_fun crc32 s _ _ _ Hh1 Hh2) in H1. apply Forall_cons_1 in N1 as [_ N1], N2 as [_ N2].
    f_equal. by apply (IH l2 (next_page h2)).
Qed.

Lemma chained_suffix s : forall l1 c p l2, chained crc32 s c (l1 ++ p :: l2) -> chained crc32 s p (p :: l2).
Proof.
  induction l1 as [|q l1 IH]; intros c p l2; cbn [app].
  - intros H. destruct H as (-> & H). by split.
  - intros (_ & h & _ & _ & H). by apply (IH (next_page h)).
Qed.

(** Links that end never repeat a page. *)
Lemma chained_nodup s l c : Forall nonzero l -> chained crc32 s c l -> NoDup l.
Proof.
  revert c. induction l as [|p l IH]; intros c N H; [constructor|].
  pose proof N as [N1 N2]%Forall_cons_1. pose proof H as (-> & h & _ & _ & Hc).
  constructor; [|by apply (IH (next_page h))]. intros (a & b & ->)%list_elem_of_split.
  pose proof (chained_suffix s (p :: a) p p b) as Hs. cbn [app] in Hs. specialize (Hs H).
  apply Forall_app in N2 as [_ N2].
  assert (E : p :: a ++ p :: b = p :: b) by (by apply (chained_det s _ _ p)).
  apply (f_equal length) in E. cbn in E. rewrite length_app in E. cbn in E. lia.
Qed.

(** ** Publishing *)

(** Files of bytes, so that links decode to page ids. *)
Definition files_ok (s : PageStore) : Prop := Forall bytes_ok (files s).

Lemma hdr_u64 s p h : layout_ok s -> files_ok s -> hdr s p h -> is_u64 (next_page h).
Proof.
  intros Hl Hf. pose proof (lo_page s Hl). unfold PageStoreSpec.hdr, read_header, read_page_unchecked.
  destruct (locate s p) as [i o]. unfold segment_at. destruct (i <? 0); [done|].
  destruct (files s !! Z.to_nat i) as [f|] eqn:Ef; [|done].
  assert (Hb : bytes_ok (read_at f (page_size s) o)).
  { apply bytes_ok_sub. unfold files_ok in Hf. rewrite Forall_lookup in Hf. by apply (Hf _ f Ef). }
  destruct (Z.eqb_spec (blen (read_at f (page_size s) o)) (page_size s)) as [E|]; cbn [negb]; [|done].
  destruct (verify crc32 _ p) as [[]| |]; cbn [res_bind]; [|done..]. rewrite decode_spec. repeat split_if; try done.
  destruct (page_type_from_u8 _) as [t|]; cbn [res_bind]; [|done]. intros [= <-]. cbn [header_of next_page].
  apply u64_at_bound; [done|lia|lia].
Qed.

(** Writing the superblock touches no other page. *)
Lemma publish_keeps s fl :
  free_list s fl ->
  exists s', (write_superblock crc32 ;;; sync) s = (Val tt, s') /\ free_list s' fl /\ meta s' = meta s /\
    page_size s' = page_size s /\ forall p c, 0 < p < page_count (meta s) -> raw s p = Some c -> raw s' p = Some c.
Proof.
  intros F. destruct F as [Hl Hcalm [Hpc Hpz] Hg Hch Hnd Hlen Hr]. pose proof (lo_page s Hl) as Hps.
  set (sb := stamped crc32 (Z.max (m_generation (meta s)) 1) (sb_page s (meta s))).
  assert (Hb : blen sb = page_size s) by (unfold sb; rewrite blen_stamped; rewrite blen_sb_page; auto; lia).
  assert (Ha : forall q, 0 <= q < page_count (meta s) -> addressable s q) by (intros; apply addressable_below; lia).
  assert (Hk : forall p h, 0 < p < page_count (meta s) -> hdr s p h -> hdr (put 0 sb s) p h).
  { intros p h Hp Hh. apply hdr_put; [done|apply Ha; lia|apply Ha; lia|lia|done|done]. }
  assert (Hw : forall p c, 0 < p < page_count (meta s) -> raw s p = Some c -> raw (put 0 sb s) p = Some c).
  { intros p c Hp. apply raw_put_other; [done|apply Ha; lia|apply Ha; lia|lia|done]. }
  assert (F' : forall d, free_list (set_dirty d (put 0 sb s)) fl).
  { intros d. split; try done; [by destruct Hl|].
    apply (chained_frame crc32 s); [|done]. intros p h Hp Hh. rewrite Forall_forall in Hr. by apply Hk; [apply Hr|]. }
  unfold write_superblock, st_bind, gets. rewrite write_superblock_eq by done. fold sb.
  unfold sync, st_bind, gets, id, sync_data_observed, modify, st_ret. cbv beta iota. destruct (fsync _).
  - exists (set_dirty ∅ (put 0 sb s)). ands; try done.
  - exists (put 0 sb s). ands; try done. exact (F' (dirty_segments s ∪ {[fst (locate s 0)]})).
Qed.

(** ** Adoption *)

Lemma check_segment_spec s n : forall c,
  layout_ok s -> files_ok s -> 0 <= c -> check_segment crc32 s (S n) c = Val tt ->
  exists seg, length seg = S n /\ head seg = Some c /\ Forall (fun p => 0 < p < page_count (meta s)) seg /\
    forall fl, chained crc32 s (free_list_head (meta s)) fl -> chained crc32 s c (seg ++ fl).
Proof.
  induction n as [|n IH]; intros c Hl Hf Hc; cbn [check_segment]; (destruct (_ || _) eqn:Eo; [done|]); bools;
    destruct (read_header crc32 s c) as [h| |] eqn:Eh; cbn [res_bind]; try done;
    (destruct (negb (bool_decide (page_type h = Free))) eqn:Et; [done|]); bools.
  - rewrite bool_decide_eq_true_2 by done. destruct (negb _) eqn:En; [done|]. bools. intros _. exists [c]. ands; [done|done|by repeat constructor; lia|].
    intros fl Hch. split; [done|]. exists h. ands; [done|done|]. by rewrite En.
  - intros Hrest. rewrite bool_decide_eq_false_2 in Hrest by done.
    destruct ((next_page h =? 0) || _) eqn:En; [done|]. bools.
    destruct (IH (next_page h) Hl Hf) as (seg & L & Hd & R & C); [by apply (hdr_u64 s c h)|exact Hrest|].
    exists (c :: seg). ands; [cbn; lia|done|constructor; [lia|done]|].
    intros fl Hch. split; [done|]. exists h. ands; [done|done|by apply C].
Qed.

Lemma chained_meta m s c fl : chained crc32 s c fl -> chained crc32 (set_meta m s) c fl.
Proof. by apply chained_frame. Qed.

Lemma range_nonzero s fl : Forall (fun p => 0 < p < page_count (meta s)) fl -> Forall nonzero fl.
Proof. intros H. eapply Forall_impl; [exact H|]. unfold nonzero. cbn. lia. Qed.

(** A store with the head and count of a chained list has that free list. *)
Lemma free_list_intro s fl :
  layout_ok s -> calm s -> 1 <= page_count (meta s) -> page_count (meta s) * page_size s < U64 ->
  is_u64 (m_generation (meta s)) -> chained crc32 s (free_list_head (meta s)) fl ->
  Forall (fun p => 0 < p < page_count (meta s)) fl -> free_page_count (meta s) = Z.of_nat (length fl) ->
  free_list s fl.
Proof.
  intros. split; try done. apply (chained_nodup s fl (free_list_head (meta s))); [|done]. by apply (range_nonzero s).
Qed.

Lemma adopt_keeps s fl new_head count :
  free_list s fl -> files_ok s -> is_u64 new_head -> 0 < count ->
  match adopt_free_pages crc32 new_head count s with
  | (Val _, s') => exists seg, Z.of_nat (length seg) = count /\ head seg = Some new_head /\ free_list s' (seg ++ fl)
  | (_, s') => s' = s
  end.
Proof.
  intros F Hf Hh Hc. pose proof (validate_ok crc32 s fl F) as Hv. pose proof (fl_layout _ _ _ F) as Hl.
  unfold adopt_free_pages. destruct (MAX_FREE_LIST_ADOPTION_PAGES <? count); [done|].
  unfold st_bind at 1 2, gets, id, st_lift. cbv beta iota zeta. rewrite Hv. cbv beta iota.
  rewrite (proj2 (Z.eqb_neq count 0)) by lia.
  destruct ((new_head =? 0) || _); [done|]. destruct ((U64 <=? _) || _) eqn:Eo; [done|]. bools.
  unfold st_bind at 1. destruct (check_segment crc32 s (Z.to_nat count) new_head) as [[]|e|] eqn:Es; [|done..].
  replace (Z.to_nat count) with (S (Z.to_nat (count - 1))) in Es by lia.
  destruct (check_segment_spec s _ new_head Hl Hf (proj1 Hh) Es) as (seg & Ls & Hd & Rs & Cs).
  destruct F as [_ Hcalm [Hpc Hpz] Hg Hch Hnd Hlen Hr].
  set (m' := with_gen ((m_generation (meta s) + 1) mod U64) (with_head new_head (free_page_count (meta s) + count) (meta s))).
  assert (F1 : free_list (set_meta m' s) (seg ++ fl)).
  { apply free_list_intro; try done; [by destruct Hl|apply Z.mod_pos_bound; done|apply chained_meta, (Cs fl Hch)|by apply Forall_app|].
    rewrite length_app. cbn [set_meta meta m' with_gen with_head free_page_count]. lia. }
  destruct (publish_keeps _ _ F1) as (s' & E & F' & _).
  unfold st_bind at 1, modify at 1. cbv beta iota. fold m'. rewrite E. exists seg. ands; [lia|done|done].
Qed.

(** ** Repair *)

(** Walking the links of [ch] leads from [c] to [e]. *)
Fixpoint linked (s : PageStore) (c : Z) (ch : list (Z * Z)) (e : Z) : Prop :=
  match ch with
  | [] => c = e
  | (p, n) :: ch' =>
      c = p /\ 0 < p < page_count (meta s) /\ (exists h, hdr s p h /\ page_type h = Free /\ next_page h = n) /\
      linked s n ch' e
  end.

Lemma linked_snoc s ch : forall c p n e,
  linked s c (ch ++ [(p, n)]) e <->
  linked s c ch p /\ 0 < p < page_count (meta s) /\ (exists h, hdr s p h /\ page_type h = Free /\ next_page h = n) /\ n = e.
Proof.
  induction ch as [|[q k] ch IH]; intros c p n e; cbn [app linked].
  - naive_solver.
  - rewrite IH. naive_solver.
Qed.

Lemma linked_range s ch : forall c e, linked s c ch e -> Forall (fun p => 0 < p < page_count (meta s)) ch.*1.
Proof.
  induction ch as [|[q k] ch IH]; intros c e; cbn [linked fmap list_fmap fst]; [constructor|].
  intros (_ & Hq & _ & H). constructor; [done|]. by apply (IH k e).
Qed.

(** A linked list whose last link is cut. *)
Lemma linked_cut s s' ch : forall c e,
  linked s c ch e -> (forall p h, p ∈ ch.*1 -> hdr s p h -> hdr s' p h) ->
  forall tail, chained crc32 s' e tail -> chained crc32 s' c (ch.*1 ++ tail).
Proof.
  induction ch as [|[q k] ch IH]; intros c e H Hk tail Ht; cbn [linked fmap list_fmap fst app] in *; [by subst|].
  destruct H as (-> & _ & (h & Hh & Hf & Hn) & H). split; [done|]. exists h. ands; [|done|].
  - apply Hk; [by left|done].
  - rewrite Hn. apply (IH k e); [done| |done]. intros p h' Hp. apply Hk. by right.
Qed.

(** The page after a prefix of the list cannot extend it: the list ends there or
    is as long as advertised, or the page lies past the file, does not verify,
    is not free, or closes a cycle. *)
Definition stops (s : PageStore) (fl : list Z) (e : Z) : Prop :=
  e = 0 \/ free_page_count (meta s) <= Z.of_nat (length fl) \/ page_count (meta s) <= e \/
  forall h, hdr s e h -> page_type h = Free -> next_page h ∈ fl.

Section Walk.
Context (s : PageStore) (start : Z).
Hypothesis Hl : layout_ok s.
Hypothesis Hf : files_ok s.

Lemma walk_spec fuel : forall cursor ch,
  linked s start ch cursor -> NoDup ch.*1 -> 0 <= cursor ->
  (cursor ∈ ch.*1 -> exists h, hdr s cursor h /\ next_page h ∈ ch.*1) ->
  free_page_count (meta s) < Z.of_nat (length ch) + Z.of_nat fuel -> (1 <= fuel)%nat ->
  exists ch' corrupt e, walk_free_list crc32 s fuel cursor ch = Val (ch', corrupt) /\
    linked s start ch' e /\ NoDup ch'.*1 /\ stops s ch'.*1 e /\ (corrupt = None <-> e = 0).
Proof.
  induction fuel as [|fuel IH]; intros cursor ch Hli Hnd Hc Hcy Hfu H1; [lia|]. cbn [walk_free_list].
  destruct (Z.eqb_spec cursor 0) as [->|Hc0]; [exists ch, None, 0; ands; try done; by left|].
  assert (Hend : forall x : Z, stops s ch.*1 cursor -> exists ch' corrupt e, @Val PageError _ (ch, Some x) = Val (ch', corrupt) /\
    linked s start ch' e /\ NoDup ch'.*1 /\ stops s ch'.*1 e /\ (corrupt = None <-> e = 0)).
  { intros x Hs. exists ch, (Some x), cursor. by ands. }
  destruct (Z.leb_spec (free_page_count (meta s)) (Z.of_nat (length ch))); [apply Hend; right; left; by rewrite length_fmap|].
  destruct (Z.leb_spec (page_count (meta s)) cursor); [apply Hend; by right; right; left|].
  destruct (read_header_total s cursor Hl) as [[h Hh]|[e He]].
  2: { rewrite He. apply Hend. right; right; right. intros h Hh. unfold PageStoreSpec.hdr in Hh. congruence. }
  assert (Hun : forall h', hdr s cursor h' -> h' = h) by (intros h' Hh'; by apply (hdr_fun crc32 s cursor)).
  rewrite Hh. destruct (negb (bool_decide (page_type h = Free))) eqn:Et.
  { bools. apply Hend. right; right; right. intros h' ->%Hun. done. }
  bools. destruct (existsb _ ch) eqn:Ex.
  { apply Hend. right; right; right. intros h' ->%Hun _. apply existsb_exists in Ex as ([q k] & Hin & Hq%Z.eqb_eq).
    apply list_elem_of_fmap. exists (q, k). split; [by rewrite <- Hq|by apply list_elem_of_In]. }
  assert (Hn : next_page h ∉ ch.*1).
  { intros Hx. apply list_elem_of_fmap in Hx as ([q k] & Hq & Hin). cbn in Hq. apply not_true_iff_false in Ex. apply Ex, existsb_exists.
    exists (q, k). split; [by apply list_elem_of_In|]. by apply Z.eqb_eq. }
  assert (Hcn : cursor ∉ ch.*1).
  { intros Hin. destruct (Hcy Hin) as (h' & Hh' & Hin'). rewrite (hdr_fun crc32 s cursor h h' Hh Hh') in Hn. done. }
  apply IH.
  - apply linked_snoc. ands; [done|lia|lia|by exists h|done].
  - rewrite fmap_app. apply NoDup_app. ands; [done|set_solver|]. cbn. apply NoDup_singleton.
  - by apply (hdr_u64 s cursor h).
  - rewrite fmap_app. cbn. intros [Hin|Hin%list_elem_of_singleton]%elem_of_app; [done|]. exists h.
    rewrite Hin. split; [done|]. apply elem_of_app. right. by left.
  - rewrite length_app. cbn. lia.
  - lia.
Qed.
End Walk.

(** What the repair needs of the store it is given: nothing of its list. *)
Record openable (s : PageStore) : Prop := {
  ob_layout : layout_ok s;
  ob_calm : calm s;
  ob_files : files_ok s;
  ob_count : 1 <= page_count (meta s) /\ page_count (meta s) * page_size s < U64;
  ob_gen : is_u64 (m_generation (meta s));
  ob_head : 0 <= free_list_head (meta s);
  ob_free : 0 <= free_page_count (meta s)
}.

(** The step of the repair that cuts the last valid link. *)
Definition cut_step (s : PageStore) (chain : list (Z * Z)) : pst unit :=
  match last chain with
  | Some (last_valid, last_next) =>
      (if negb (last_next =? 0) then
         do page <- blank_page (with_link (new_header last_valid Free (page_size s)) 0 0) (page_size s) ;;
         write_page_raw crc32 last_valid page (m_generation (meta s)) ;;;
         st_ret tt
       else st_ret tt) ;;;
      modify (fun s' => set_meta (with_head (free_list_head (meta s)) (Z.of_nat (length chain)) (meta s')) s')
  | None => modify (fun s' => set_meta (with_head 0 0 (meta s')) s')
  end.

Lemma cut_last s ch p n e :
  openable s -> linked s (free_list_head (meta s)) (ch ++ [(p, n)]) e -> NoDup (ch ++ [(p, n)]).*1 ->
  exists s1, (if negb (n =? 0) then
         do page <- blank_page (with_link (new_header p Free (page_size s)) 0 0) (page_size s) ;;
         write_page_raw crc32 p page (m_generation (meta s)) ;;; st_ret tt
       else st_ret tt) s = (Val tt, s1) /\
    layout_ok s1 /\ calm s1 /\ meta s1 = meta s /\ page_size s1 = page_size s /\
    chained crc32 s1 (free_list_head (meta s)) (ch ++ [(p, n)]).*1 /\
    forall q c, ~ (q = p /\ n <> 0) -> 0 <= q < page_count (meta s) -> raw s q = Some c -> raw s1 q = Some c.
Proof.
  intros O (Hch & Hp & (h & Hh & Hf & Hn) & _)%linked_snoc Hnd. destruct O as [Hl Hc _ [Hpc Hpz] Hg _ _].
  pose proof (lo_page s Hl) as Hps. rewrite fmap_app in *. cbn [fmap list_fmap fst] in *.
  apply NoDup_app in Hnd as (_ & Hnp & _).
  pose proof (linked_range s ch _ _ Hch) as Hr. rewrite Forall_forall in Hr.
  destruct (Z.eqb_spec n 0) as [En|En]; cbn [negb].
  - exists s. ands; try done. apply (linked_cut s s ch _ p); [done|done|].
    split; [done|]. exists h. ands; [done|done|]. cbn. congruence.
  - set (h' := with_link (new_header p Free (page_size s)) 0 0).
    assert (Hh' : header_ok h') by (apply with_link_ok; [apply new_header_ok|..]; widths; nia).
    assert (Ha : forall q, 0 <= q < page_count (meta s) -> addressable s q) by (intros; apply addressable_below; lia).
    assert (Hk : forall q k, q <> p -> 0 <= q < page_count (meta s) -> hdr s q k ->
      hdr (put p (fresh_page crc32 s h' (m_generation (meta s))) s) q k).
    { intros q k Hne Hq Hk. apply hdr_put; [done|apply Ha; lia|apply Ha; lia|done|by apply blen_fresh|done]. }
    exists (put p (fresh_page crc32 s h' (m_generation (meta s))) s). ands; try done.
    2: by apply layout_put.
    3: { intros q c Hne Hq. apply raw_put_other; [done|apply Ha; lia|apply Ha; lia|intros ->; by apply Hne|by apply blen_fresh]. }
    + pose proof (blank_write crc32 s p h' (m_generation (meta s)) Hl Hc ltac:(lia)) as Hw. revert Hw. unfold st_bind.
      destruct (blank_page h' (page_size s) s) as [[b| |] s3]; [|done..].
      destruct (write_page_raw crc32 p b _ s3) as [[b'| |] s4]; [|done..]. unfold st_ret. by intros [= ->].
    + apply (linked_cut s _ ch _ p); [done| |].
      * intros q k Hq. apply Hk; [|pose proof (Hr q Hq); lia]. intros ->. apply (Hnp p Hq). by left.
      * split; [done|]. exists (with_generation h' (m_generation (meta s))). ands; [|done|done].
        unfold PageStoreSpec.hdr, read_header. rewrite (read_fresh crc32 Hcrc); [done|done|apply Ha; lia|done|done].
Qed.

Lemma cut_step_spec s ch e :
  openable s -> linked s (free_list_head (meta s)) ch e -> NoDup ch.*1 ->
  exists s1, cut_step s ch s = (Val tt, s1) /\ layout_ok s1 /\ calm s1 /\ page_size s1 = page_size s /\
    page_count (meta s1) = page_count (meta s) /\ chained crc32 s1 (free_list_head (meta s1)) ch.*1 /\
    free_page_count (meta s1) = Z.of_nat (length ch) /\
    forall q c, 0 < q < page_count (meta s) -> ~ (last ch.*1 = Some q /\ e <> 0) -> raw s q = Some c -> raw s1 q = Some c.
Proof.
  intros O Hli Hnd. unfold cut_step. destruct (last ch) as [[p n]|] eqn:El.
  - apply last_Some in El as [ch0 ->]. pose proof Hli as (_ & _ & _ & Hne)%linked_snoc.
    destruct (cut_last s ch0 p n e O Hli Hnd) as (s1 & E & L1 & C1 & M1 & P1 & Ch & K).
    unfold st_bind at 1. rewrite E. unfold modify. eexists. split; [reflexivity|]. rewrite M1.
    ands; try done; [by destruct L1|by apply chained_meta|].
    intros q c Hq Hnq. apply K; [|lia]. intros [-> Hn]. apply Hnq. split; [|congruence]. rewrite fmap_app. apply last_snoc.
  - apply last_None in El as ->. eexists. split; [reflexivity|]. ands; try done; [by destruct (ob_layout s O)|exact (ob_calm s O)].
Qed.

(** C26: The repair of a free list keeps exactly its sound beginning.  Whatever
    the list of an openable store looks like (cycles, links out of the file,
    pages that are not free or do not verify, a wrong count), the truncation
    returns, and afterwards the list consists, in order, of the distinct free
    pages that the links lead through from the old head, up to the first page
    that cannot extend it: the end, a page past the file, one that does not
    verify, is not free or closes a cycle, or the page after the advertised
    number.  The report names its length.  Every other page below the page count
    keeps its bytes, and so do the pages of the list, apart from the last one
    where its link had to be cut; a list that was sound is not written at all. *)
Theorem repair_leaves_a_sound_free_list (s : PageStore) (O : openable s) :
  exists report s' ch e, truncate_free_list_at_corruption crc32 true s = (Val report, s') /\
    free_list s' ch.*1 /\ valid_prefix report = Z.of_nat (length ch) /\
    linked s (free_list_head (meta s)) ch e /\ stops s ch.*1 e /\
    (forall q c, 0 < q < page_count (meta s) -> ~ (last ch.*1 = Some q /\ e <> 0) -> raw s q = Some c -> raw s' q = Some c) /\
    (e = 0 -> free_page_count (meta s) = Z.of_nat (length ch) -> s' = s).
Proof.
  pose proof O as [Hl Hc Hf [Hpc Hpz] Hg Hh Hn].
  destruct (walk_spec s (free_list_head (meta s)) Hl Hf (S (Z.to_nat (free_page_count (meta s))))
    (free_list_head (meta s)) []) as (ch & corrupt & e & Hw & Hli & Hnd & Hst & He);
    [done|constructor|done|by intros ?%not_elem_of_nil|cbn; lia|lia|].
  pose proof (linked_range s ch _ _ Hli) as Hr.
  unfold truncate_free_list_at_corruption. unfold st_bind at 1, gets at 1, id. cbv beta iota zeta.
  unfold st_bind at 1, st_lift at 1. rewrite Hw. cbv beta iota. cbn [negb orb].
  destruct (bool_decide (is_Some corrupt) || negb (Z.of_nat (length ch) =? free_page_count (meta s))) eqn:En; cbn [negb].
  2: { bools. destruct corrupt; [by destruct H; eexists|]. eexists _, s, ch, e. ands; [reflexivity| |done..].
       apply free_list_intro; try done; [|by rewrite length_fmap].
       rewrite (proj1 He eq_refl) in Hli. rewrite <- (app_nil_r ch.*1). by apply (linked_cut s s ch _ 0). }
  fold (cut_step s ch).
  destruct (cut_step_spec s ch e O Hli Hnd) as (s1 & E & L1 & C1 & P1 & N1 & Ch & F1 & K).
  unfold st_bind at 1. rewrite E. cbv beta iota. unfold st_bind at 1, modify at 1. cbv beta iota.
  set (s2 := set_meta _ s1).
  assert (Fl : free_list s2 ch.*1).
  { apply free_list_intro; try done; [by destruct L1| | | |by apply chained_meta| |].
    - cbn. lia.
    - change (page_count (meta s1) * page_size s1 < U64). by rewrite N1, P1.
    - apply sat_add_u64. widths. lia.
    - change (page_count (meta s2)) with (page_count (meta s1)). by rewrite N1.
    - change (free_page_count (meta s2)) with (free_page_count (meta s1)). by rewrite F1, length_fmap. }
  destruct (publish_keeps s2 _ Fl) as (s3 & E3 & Fl3 & _ & _ & K3).
  eexists _, s3, ch, e. split.
  { revert E3. unfold st_bind. destruct (write_superblock crc32 s2) as [[[]| |] s4]; [|done..].
    destruct (sync s4) as [[[]| |] s5]; [|done..]. intros [= ->]. reflexivity. }
  ands; [done|done|done|done| |].
  - intros q c Hq Hnq Hqc. apply K3; [change (page_count (meta s2)) with (page_count (meta s1)); lia|]. by apply K.
  - intros ->%He Hcnt. rewrite Hcnt, Z.eqb_refl in En. done.
Qed.
(** A vacuum segment is adopted whole or not at all.  If
    [adopt_free_pages] accepts a segment, the free list becomes that many pages,
    starting with the new head, followed by the old list, and all of them are
    distinct free pages, although no membership set is kept; if it refuses, the
    store is unchanged. *)
Theorem adoption_extends_the_free_list (s : PageStore) (fl : list Z) (new_head count : Z)
    (F : free_list s fl) (Hf : files_ok s) (Hh : is_u64 new_head) (Hc : 0 < count) :
  match adopt_free_pages crc32 new_head count s with
  | (Val _, s') =>
      exists seg, Z.of_nat (length seg) = count /\ head seg = Some new_head /\ free_list s' (seg ++ fl) /\ NoDup (seg ++ fl)
  | (_, s') => s' = s
  end.
Proof.
  pose proof (adopt_keeps s fl new_head count F Hf Hh Hc) as H.
  destruct (adopt_free_pages crc32 new_head count s) as [[]]; [|done..].
  destruct H as (seg & H1 & H2 & H3). exists seg. ands; try done. exact (fl_nodup _ _ _ H3).
Qed.

(** C14: A page in use is never handed out again.  From a new store, whatever is
    allocated, freed, refused or written, [allocate] succeeds, returns a page
    that is not in use and reads as zeroed with the requested type, and every
    page in use reads exactly as before. *)
Theorem live_pages_are_never_reallocated (n e : Z) (b : bool) (s0 s : PageStore) (L : gset Z) (t : PageType)
    (Hn : validate_page_size n = Val tt) (He : validate_extent_bytes e n = Val tt) (He0 : 0 <= e)
    (Hopen : open crc32 [] n e b = Val s0) (Hsteps : rtc astep (s0, ∅) (s, L))
    (Ht1 : t <> Superblock) (Ht2 : t <> Free) (Hroom : room_for_page s) :
  exists p s', allocate crc32 t s = (Val p, s') /\ p <> 0 /\ ~ (p ∈ L) /\ blank crc32 s' p t /\
    forall q, q ∈ L -> read_page crc32 s' q = read_page crc32 s q.
Proof.
  pose proof (asteps_inv _ _ Hsteps (new_store_inv n e b s0 Hn He He0 Hopen)) as I.
  destruct I as (fl & F & Hu). cbn [fst snd] in *. pose proof (fl_count _ _ _ F) as [_ Hz].
  destruct (allocate_any s fl t F Ht1 Ht2 Hroom) as (p & s' & fl' & E & F' & B & S & C & P & Hr & Hp).
  assert (Hnot : p ∉ L).
  { intros Hin. specialize (Hu p Hin). destruct Hp as [Hp| ->].
    - by apply (in_use_not_free s fl p F Hu).
    - destruct Hu as [Hu _]. lia. }
  exists p, s'. ands; [done|lia|done|done|]. intros q Hq.
  apply (read_same s s' q p (fl_layout _ _ _ F) (fl_layout _ _ _ F') P S C Hz); [|auto]. intros ->. done.
Qed.
End Claims.

(** ** Witnesses *)

Definition demo_store : PageStore :=
  match open byte_sum [] 512 0 true with Val s => s | _ => new_store 512 0 true end.
Definition demo1 : PageStore := snd (allocate byte_sum Heap demo_store).
Definition demo2 : PageStore := snd (allocate byte_sum BTreeLeaf demo1).
Definition demo3 : PageStore := snd (free byte_sum 1 demo2).

Lemma run_is {E S A} (m : st E S A) (s : S) (r : res E A) : fst (m s) = r -> m s = (r, snd (m s)).
Proof. destruct (m s). by intros <-. Qed.

Lemma demo_steps : rtc (astep byte_sum) (demo_store, ∅) (demo3, (∅ ∪ {[1]} ∪ {[2]}) ∖ {[1]}).
Proof.
  eapply rtc_l; [apply (as_allocate byte_sum demo_store ∅ Heap 1 demo1); [by vm_compute|]|].
  { apply (run_is (allocate byte_sum Heap) demo_store (Val 1)). by vm_compute. }
  eapply rtc_l; [apply (as_allocate byte_sum demo1 _ BTreeLeaf 2 demo2); [by vm_compute|]|].
  { apply (run_is (allocate byte_sum BTreeLeaf) demo1 (Val 2)). by vm_compute. }
  eapply rtc_l; [apply (as_free_refused byte_sum demo2 _ 9 (OutOfBounds 9 3) demo2); [by vm_compute|]|].
  { by vm_compute. }
  eapply rtc_l; [apply (as_free byte_sum demo2 _ 1 demo3); [by vm_compute|]|].
  { apply (run_is (free byte_sum 1) demo2 (Val tt)). by vm_compute. }
  apply rtc_refl.
Qed.

Lemma live_pages_are_never_reallocated_witness :
  exists p s', allocate byte_sum Overflow demo3 = (Val p, s') /\ p <> 0 /\
    ~ (p ∈ ((∅ ∪ {[1]} ∪ {[2]}) ∖ {[1]} : gset Z)) /\ blank byte_sum s' p Overflow /\
    forall q, q ∈ ((∅ ∪ {[1]} ∪ {[2]}) ∖ {[1]} : gset Z) -> read_page byte_sum s' q = read_page byte_sum demo3 q.
Proof.
  apply (live_pages_are_never_reallocated byte_sum byte_sum_u32 512 0 true demo_store);
    [by vm_compute|by vm_compute|lia| |exact demo_steps|done|done|by vm_compute].
  by vm_compute.
Defined.

(** Pages 3 and 2 are typed free and linked by hand in front of the list. *)
Definition free_image (p next : Z) : bytes :=
  patch (zeros 512) 0 (header_bytes (with_link (new_header p Free 512) next 0)).
Definition demo4 : PageStore :=
  let s := snd (allocate byte_sum Heap (snd (allocate byte_sum Heap demo1))) in
  let s := snd (free byte_sum 1 s) in
  snd (write_page byte_sum 2 (free_image 2 1) (snd (write_page byte_sum 3 (free_image 3 2) s))).

Definition header_at (s : PageStore) (p : Z) : PageHeader :=
  match read_header byte_sum s p with Val h => h | _ => new_header 0 Superblock 512 end.

Lemma files_okb s : forallb (forallb (fun b => (0 <=? b) && (b <? 256))) (files s) = true -> files_ok s.
Proof.
  intros Hb. apply Forall_forall. intros f Hf%list_elem_of_In. rewrite forallb_forall in Hb. specialize (Hb f Hf).
  apply Forall_forall. intros b Hin%list_elem_of_In. rewrite forallb_forall in Hb. specialize (Hb b Hin).
  cbv beta in Hb. bools. split; lia.
Qed.

Lemma demo4_list : files_ok demo4 /\ Allocator.free_list byte_sum demo4 [1].
Proof.
  split; [apply files_okb; by vm_compute|].
  apply free_list_intro; try by vm_compute.
  - split; [by vm_compute|by vm_compute|by vm_compute|by left].
  - cbn [chained]. split; [by vm_compute|]. exists (header_at demo4 1). ands; by vm_compute.
  - constructor; [by vm_compute|constructor].
Qed.

Lemma adoption_extends_the_free_list_witness :
  match adopt_free_pages byte_sum 3 2 demo4 with
  | (Val _, s') =>
      exists seg, Z.of_nat (length seg) = 2 /\ head seg = Some 3 /\ Allocator.free_list byte_sum s' (seg ++ [1]) /\ NoDup (seg ++ [1])
  | (_, s') => s' = demo4
  end /\ fst (adopt_free_pages byte_sum 3 2 demo4) = Val tt.
Proof.
  destruct demo4_list as [Hf F]. split; [|by vm_compute].
  apply (adoption_extends_the_free_list byte_sum demo4 [1] 3 2 F Hf); by vm_compute.
Defined.

(** The same pages after the head was pointed into a cycle. *)
Definition demo5 : PageStore :=
  let s := set_meta (with_head 3 5 (meta demo4)) demo4 in
  snd (write_page byte_sum 2 (free_image 2 3) s).

Lemma repair_leaves_a_sound_free_list_witness :
  exists report s' ch e, truncate_free_list_at_corruption byte_sum true demo5 = (Val report, s') /\
    Allocator.free_list byte_sum s' ch.*1 /\ valid_prefix report = Z.of_nat (length ch) /\
    linked byte_sum demo5 (free_list_head (meta demo5)) ch e /\ stops byte_sum demo5 ch.*1 e /\
    (forall q c, 0 < q < page_count (meta demo5) -> ~ (last ch.*1 = Some q /\ e <> 0) ->
      raw demo5 q = Some c -> raw s' q = Some c) /\
    (e = 0 -> free_page_count (meta demo5) = Z.of_nat (length ch) -> s' = demo5).
Proof.
  apply (repair_leaves_a_sound_free_list byte_sum byte_sum_u32 demo5). split; try by vm_compute.
  - split; [by vm_compute|by vm_compute|by vm_compute|by left].
  - apply files_okb. by vm_compute.
Defined.
