(* ===== verification/Migration.v ===== *)
(** * Online migration to extents

    [advance_extent_migration] moves the pages of a monolithic file into segment
    files batch by batch.  At every point each page is read from exactly one
    place, and it is the right one: no step changes what any page reads as, and
    repeating the step finishes the migration. *)

From stdpp Require Import base tactics list numbers gmap.
From Stdlib Require Import ZArith Lia.
From S2P Require Import Prelude Search Bytes Errors PageFormat PageStore PageStoreSpec Superblock.
Local Open Scope Z_scope.
Local Open Scope bic_scope.

Lemma window_write_within v o f a n :
  0 <= o -> 0 <= a -> 0 < n -> a + n <= blen v -> window (write_at v o f) (o + a) n = Some (sub v a n).
Proof.
  intros Ho Ha Hn Hv.
  assert (Hw : window (write_at v o f) o (blen v) = Some v) by (apply window_write_same; lia).
  unfold window in *. destruct (Z.leb_spec (o + blen v) (blen (write_at v o f))) as [Hle|]; [|done].
  rewrite (proj2 (Z.leb_le _ _)) by lia. f_equal. simplify_eq.
  transitivity (sub (sub (write_at v o f) o (blen v)) a n); [by rewrite sub_sub by lia|by rewrite Hw].
Qed.

Lemma window_split f o n a m : 0 <= o -> 0 <= a -> 0 <= m -> a + m <= n ->
  o + n <= blen f -> window f (o + a) m = Some (sub (sub f o n) a m).
Proof.
  intros. unfold window. rewrite (proj2 (Z.leb_le _ _)) by lia. by rewrite sub_sub by lia.
Qed.

(** The store with its watermark at [c]. *)
Definition at_watermark (c : Z) (s : PageStore) : PageStore :=
  set_layout (extent_pages s) (migration_target_pages s) c s.

(** A store in the middle of a migration. *)
Record migrating (s : PageStore) : Prop := {
  mi_layout : layout_ok s;
  mi_calm : calm s;
  mi_extent : extent_pages s = 0;
  mi_target : 0 < migration_target_pages s <= migration_watermark s;
  mi_count : 1 <= page_count (meta s) /\ (page_count (meta s) + 1) * page_size s < U64;
  mi_base : exists f, segment_at s 0 = Some f
}.

(** Every page of the file is backed, by the bytes [page] gives. *)
Definition holds (s : PageStore) (page : Z -> bytes) : Prop :=
  forall p, 0 <= p < page_count (meta s) -> raw s p = Some (page p).

Section Copy.
Context (s : PageStore) (page : Z -> bytes).
Hypothesis Hl : layout_ok s.
Hypothesis He : extent_pages s = 0.
Hypothesis Hpz : page_count (meta s) * page_size s < U64.

Abbreviation t := (migration_target_pages s).
Abbreviation ps := (page_size s).

(** Where page [p] is when the watermark is [c]. *)
Lemma locate_at c p :
  0 < t -> 0 <= p < page_count (meta s) ->
  locate (at_watermark c s) p = if p <? c then (p / t, p mod t * ps) else (0, p * ps).
Proof.
  intros Ht Hp. pose proof (lo_page s Hl). unfold locate, at_watermark.
  cbn [set_layout extent_pages migration_target_pages migration_watermark page_size].
  rewrite He. change (0 <? 0) with false. cbv iota. rewrite (proj2 (Z.ltb_lt 0 _)) by done. cbn [andb].
  unfold file_offset. rewrite (Z.mod_small (p * ps)) by nia. done.
Qed.

(** The state after a run is copied. *)
Definition copied (cursor run : Z) (f : bytes) : PageStore :=
  set_files (alter (write_at (sub f (cursor * ps) (run * ps)) (cursor mod t * ps)) (Z.to_nat (cursor / t))
               (files s ++ replicate (Z.to_nat (cursor / t + 1) - length (files s)) [])) s.

Lemma copy_run_eq cursor run f :
  0 <= cursor -> cursor + run <= page_count (meta s) -> 0 < run -> segment_at s 0 = Some f ->
  (cursor + run) * ps <= blen f -> copy_run t cursor run s = (Val tt, copied cursor run f).
Proof.
  intros Hc Hr Hr0 Hf Hlen. pose proof (lo_page s Hl). unfold copy_run, st_bind, gets, id. cbv beta iota zeta. rewrite Hf.
  unfold file_offset. rewrite (Z.mod_small (cursor * ps)) by nia. unfold read_at.
  rewrite blen_sub by nia. rewrite Z.eqb_refl. done.
Qed.

Lemma copied_segment cursor run f j :
  0 <= cursor -> 0 < t -> 0 <= j ->
  segment_at (copied cursor run f) j =
  if j =? cursor / t
  then Some (write_at (sub f (cursor * ps) (run * ps)) (cursor mod t * ps) (default [] (segment_at s (cursor / t))))
  else if Z.of_nat (length (files s)) <=? j then if j <? cursor / t then Some [] else None
  else segment_at s j.
Proof.
  intros Hc Ht Hj. assert (Hq : 0 <= cursor / t) by (apply Z.div_pos; lia).
  unfold segment_at. rewrite !(proj2 (Z.ltb_ge _ 0)) by done. unfold copied. cbn [files set_files].
  apply alter_extended; lia.
Qed.

(** The base file holds the pages from the watermark on. *)
Lemma run_backed cursor run f :
  0 < t -> t <= cursor -> 0 < run -> cursor + run <= page_count (meta s) ->
  segment_at s 0 = Some f -> holds (at_watermark cursor s) page -> (cursor + run) * ps <= blen f.
Proof.
  intros Ht Htc Hr Hend Hf Hh. pose proof (lo_page s Hl). specialize (Hh (cursor + run - 1)).
  unfold raw in Hh. rewrite locate_at in Hh by lia. rewrite (proj2 (Z.ltb_ge _ _)) in Hh by lia. cbn [fst snd] in Hh.
  change (segment_at (at_watermark cursor s) 0) with (segment_at s 0) in Hh. rewrite Hf in Hh.
  cbn [mbind option_bind] in Hh. change (page_size (at_watermark cursor s)) with ps in Hh. unfold window in Hh.
  destruct (Z.leb_spec ((cursor + run - 1) * ps + ps) (blen f)); [lia|].
  by specialize (Hh ltac:(cbn; lia)).
Qed.

(** After the run [cursor, cursor + run) the pages are the same with the
    watermark moved past it. *)
Lemma copied_holds cursor run f :
  0 < t -> t <= cursor -> 0 < run -> run <= t - cursor mod t -> cursor + run <= page_count (meta s) ->
  segment_at s 0 = Some f -> holds (at_watermark cursor s) page ->
  holds (at_watermark (cursor + run) (copied cursor run f)) page.
Proof.
  intros Ht Htc Hr Hrun Hend Hf Hh p Hp.
  assert (Hlen : (cursor + run) * ps <= blen f) by (by apply (run_backed cursor run f)).
  change (page_count _) with (page_count (meta s)) in Hp.
  pose proof (lo_page s Hl) as Hps. specialize (Hh p Hp). unfold raw in *.
  change (page_size (at_watermark _ _)) with ps in *.
  rewrite locate_at in Hh by done.
  replace (locate (at_watermark (cursor + run) (copied cursor run f)) p)
    with (locate (at_watermark (cursor + run) s) p) by done.
  rewrite locate_at by done.
  change (segment_at (at_watermark (cursor + run) (copied cursor run f))) with (segment_at (copied cursor run f)).
  change (segment_at (at_watermark cursor s)) with (segment_at s) in Hh.
  assert (Hq1 : 1 <= cursor / t) by (apply Z.div_le_lower_bound; lia).
  pose proof (Z.div_mod cursor t ltac:(lia)) as Dc. pose proof (Z.div_mod p t ltac:(lia)) as Dp.
  pose proof (Z.mod_pos_bound cursor t Ht) as Bc. pose proof (Z.mod_pos_bound p t Ht) as Bp.
  destruct (Z.ltb_spec p cursor) as [Hlt|Hge].
  - (* already moved *)
    rewrite (proj2 (Z.ltb_lt p (cursor + run))) by lia. cbn [fst snd] in *.
    rewrite copied_segment; [|lia|done|apply Z.div_pos; lia].
    destruct (Z.eqb_spec (p / t) (cursor / t)) as [E|E].
    + rewrite E in Hh. destruct (segment_at s (cursor / t)) as [g|]; [|done]. cbn [mbind option_bind default] in *.
      rewrite <- Hh. apply window_write_other; [nia|nia|lia| |by rewrite Hh; eexists].
      left. assert (p mod t + 1 <= cursor mod t) by nia. nia.
    + rewrite (proj2 (Z.leb_gt _ _)); [exact Hh|].
      destruct (segment_at s (p / t)) as [g|] eqn:Eg; [|done]. unfold segment_at in Eg. destruct (_ <? 0); [done|].
      apply lookup_lt_Some in Eg. pose proof (Z.div_pos p t). lia.
  - cbn [fst snd] in Hh. rewrite Hf in Hh. cbn [mbind option_bind] in Hh.
    destruct (Z.ltb_spec p (cursor + run)) as [Hin|Hout]; cbn [fst snd].
    + (* moved by this run *)
      assert (Eq : p / t = cursor / t /\ p mod t = cursor mod t + (p - cursor)).
      { assert (E : p = t * (cursor / t) + (cursor mod t + (p - cursor))) by lia.
        split; symmetry; [eapply Z.div_unique|eapply Z.mod_unique]; try exact E; lia. }
      destruct Eq as [-> Em]. rewrite copied_segment by (try done; lia). rewrite Z.eqb_refl. cbn [mbind option_bind].
      rewrite Em, Z.mul_add_distr_r. rewrite window_write_within; [|nia|nia|lia|].
      * unfold window in Hh. destruct (Z.leb_spec (p * ps + ps) (blen f)); [|done]. injection Hh as Hh.
        rewrite sub_sub by nia. rewrite <- Hh. do 2 f_equal. ring.
      * rewrite blen_sub; nia.
    + (* still in the base file *)
      rewrite copied_segment by (try done; lia). rewrite (proj2 (Z.eqb_neq 0 _)) by lia.
      rewrite (proj2 (Z.leb_gt _ _)); [by rewrite Hf|].
      unfold segment_at in Hf. change (0 <? 0) with false in Hf. cbv iota in Hf. apply lookup_lt_Some in Hf. lia.
Qed.
End Copy.

(** ** The copy loop *)

Lemma migrating_base s cursor run f :
  layout_ok s -> 0 < migration_target_pages s -> migration_target_pages s <= cursor -> segment_at s 0 = Some f ->
  segment_at (copied s cursor run f) 0 = Some f.
Proof.
  intros Hl Ht Hc Hf. assert (1 <= cursor / migration_target_pages s) by (apply Z.div_le_lower_bound; lia).
  rewrite copied_segment by (try done; lia). rewrite (proj2 (Z.eqb_neq 0 _)) by lia.
  unfold segment_at in *. change (0 <? 0) with false in *. cbv iota in *.
  rewrite (proj2 (Z.leb_gt _ _)); [done|]. apply lookup_lt_Some in Hf. lia.
Qed.

Lemma copy_pages_holds page f end_ : forall fuel s cursor,
  layout_ok s -> extent_pages s = 0 -> page_count (meta s) * page_size s < U64 ->
  0 < migration_target_pages s -> migration_target_pages s <= cursor ->
  end_ <= page_count (meta s) -> segment_at s 0 = Some f -> holds (at_watermark cursor s) page ->
  cursor <= end_ -> end_ - cursor < Z.of_nat fuel ->
  exists fs, copy_pages fuel (migration_target_pages s) cursor end_ s = (Val tt, set_files fs s) /\
    holds (at_watermark end_ (set_files fs s)) page /\ segment_at (set_files fs s) 0 = Some f.
Proof.
  induction fuel as [|fuel IH]; intros s cursor Hl He Hz Ht Hc Hend Hf Hh Hle Hfu; [lia|]. cbn [copy_pages].
  destruct (Z.leb_spec end_ cursor).
  { exists (files s). replace end_ with cursor by lia. destruct s. done. }
  unfold st_bind at 1, gets, id. cbv beta iota zeta.
  set (run := Z.min _ _). pose proof (Z.mod_pos_bound cursor (migration_target_pages s) Ht).
  assert (Hrun : 0 < run /\ cursor + run <= end_ /\ run <= migration_target_pages s - cursor mod migration_target_pages s)
    by (unfold run; lia).
  destruct Hrun as (R0 & R1 & R2).
  assert (Hlen : (cursor + run) * page_size s <= blen f) by (apply (run_backed s page Hl He Hz cursor run f); auto; lia).
  unfold st_bind. rewrite (copy_run_eq s Hl Hz cursor run f) by (auto; lia).
  set (s1 := copied s cursor run f).
  assert (Hl1 : layout_ok s1) by (by destruct Hl).
  destruct (IH s1 (cursor + run) Hl1 He Hz Ht) as (fs & E & H1 & H2);
    [change (migration_target_pages s <= cursor + run); lia|exact Hend| | |lia|lia|].
  - by apply migrating_base.
  - apply copied_holds; auto; lia.
  - exists fs. split; [exact E|]. done.
Qed.

(** ** One step *)

(** The pages but the superblock. *)
Definition same_pages (page page' : Z -> bytes) : Prop := forall p, p <> 0 -> page' p = page p.

Lemma holds_put s page b :
  layout_ok s -> blen b = page_size s -> (page_count (meta s) + 1) * page_size s < U64 -> 1 <= page_count (meta s) ->
  (forall p, 1 <= p < page_count (meta s) -> raw s p = Some (page p)) ->
  holds (put 0 b s) (fun p => if p =? 0 then b else page p).
Proof.
  intros Hl Hb Hz Hc Hh p Hp. change (page_count (meta (put 0 b s))) with (page_count (meta s)) in Hp.
  pose proof (lo_page s Hl).
  assert (Ha : forall q, 0 <= q < page_count (meta s) -> addressable s q) by (intros; split; [lia|nia]).
  destruct (Z.eqb_spec p 0) as [->|Hne].
  - apply raw_put_same; [done|apply Ha; lia|done].
  - apply raw_put_other; [done|apply Ha; lia|apply Ha; lia|done|done|apply Hh; lia].
Qed.

Section Advance.
Variable crc32 : bytes -> Z.
Hypothesis Hcrc : forall l, is_u32 (crc32 l).

(** Publishing the superblock, synced or not. *)
Lemma publish_eq s (k : pst unit) :
  layout_ok s -> calm s -> k = sync \/ k = sync_data_observed ->
  exists d b, blen b = page_size s /\ (write_superblock crc32 ;;; k) s = (Val tt, set_dirty d (put 0 b s)).
Proof.
  intros Hl Hc Hk. pose proof (lo_page s Hl). unfold write_superblock, st_bind, gets. rewrite write_superblock_eq by done.
  set (b := stamped crc32 _ _).
  assert (Hb : blen b = page_size s) by (unfold b; rewrite blen_stamped; rewrite blen_sb_page; auto; lia).
  destruct Hk as [-> | ->]; unfold sync, sync_data_observed, st_bind, gets, id, modify, st_ret.
  - destruct (fsync _); [by exists ∅, b|]. by exists (dirty_segments s ∪ {[fst (locate s 0)]}), b.
  - by exists ∅, b.
Qed.

(** A batch: the watermark moves, nothing else is seen to change. *)
Lemma advance_batch s page n :
  migrating s -> holds s page -> migration_watermark s < page_count (meta s) ->
  exists s' w page', advance_extent_migration crc32 n s = (Val (w, false), s') /\ migrating s' /\
    meta s' = meta s /\ page_size s' = page_size s /\ migration_target_pages s' = migration_target_pages s /\
    migration_watermark s' = w /\ migration_watermark s < w <= page_count (meta s) /\
    holds s' page' /\ same_pages page page'.
Proof.
  intros [Hl Hc He [Ht Htw] [Hpc Hz] [f Hf]] Hh Hw. pose proof (lo_page s Hl).
  unfold advance_extent_migration. unfold st_bind at 1, gets, id. cbv beta iota zeta.
  rewrite (proj2 (Z.eqb_neq _ 0)) by lia. rewrite (proj2 (Z.leb_gt _ _)) by done.
  set (end_ := Z.min _ _).
  assert (Hend : migration_watermark s < end_ <= page_count (meta s)) by (unfold end_; widths; nia).
  destruct (copy_pages_holds page f end_ (S (Z.to_nat (end_ - migration_watermark s))) s (migration_watermark s))
    as (fs & E & H1 & H2); [done|done|nia|done|done|lia|done| |lia|lia|].
  { replace (at_watermark (migration_watermark s) s) with s by (by destruct s). done. }
  unfold st_bind at 1. rewrite E. cbv beta iota. unfold st_bind at 1, modify at 1. cbv beta iota.
  change (set_layout _ _ end_ (set_files fs s)) with (at_watermark end_ (set_files fs s)).
  set (s1 := at_watermark end_ (set_files fs s)) in *.
  assert (Hl1 : layout_ok s1) by (by destruct Hl).
  destruct (publish_eq s1 sync Hl1 Hc (or_introl eq_refl)) as (d & b & Hb & Ep).
  revert Ep. unfold st_bind. destruct (write_superblock crc32 s1) as [[[]| |] s2]; [|done..]. intros ->.
  exists (set_dirty d (put 0 b s1)), end_, (fun p => if p =? 0 then b else page p). ands; try done; try lia.
  - split; try done; [by destruct Hl|change (0 < migration_target_pages s <= end_); lia|].
    destruct (segment_at (set_dirty d (put 0 b s1)) 0) as [f'|] eqn:Ef; [by exists f'|].
    change (segment_at (put 0 b s1) 0 = None) in Ef. rewrite segment_put in Ef by (rewrite ?(locate_0 s1 Hl1); done). by rewrite (locate_0 s1 Hl1) in Ef.
  - apply (holds_put s1 page b Hl1 Hb); [done|done|]. intros p Hp. apply H1.
    change (1 <= p < page_count (meta s)) in Hp. change (0 <= p < page_count (meta s)). lia.
  - intros p Hp. by rewrite (proj2 (Z.eqb_neq _ _)).
Qed.

(** Cutting the base file at the end of the first extent. *)
Lemma raw_cut s p c :
  layout_ok s -> 0 < extent_pages s -> addressable s p -> raw s p = Some c ->
  raw (set_files (alter (set_len (extent_pages s * page_size s)) 0%nat (files s)) s) p = Some c.
Proof.
  intros Hl He Hp Hr. destruct (locate_nonneg s p Hl Hp) as [G O]. pose proof (lo_page s Hl) as Hps.
  unfold raw in *. set (s' := set_files _ s). change (locate s' p) with (locate s p). change (page_size s') with (page_size s).
  assert (El : locate s p = (p / extent_pages s, p mod extent_pages s * page_size s)).
  { unfold locate. by rewrite (proj2 (Z.ltb_lt 0 _)). }
  rewrite El in *. cbn [fst snd] in *. pose proof (Z.mod_pos_bound p (extent_pages s) He).
  unfold segment_at in *. rewrite (proj2 (Z.ltb_ge _ 0)) in Hr by done. rewrite (proj2 (Z.ltb_ge _ 0)) by done.
  unfold s'. cbn [files set_files]. destruct (decide (p / extent_pages s = 0)) as [E|E].
  - rewrite E in *. change (Z.to_nat 0) with 0%nat in *. rewrite list_lookup_alter_eq.
    destruct (files s !! 0%nat) as [f|]; [|done]. cbn [mbind option_bind fmap option_fmap option_map] in *.
    unfold window in *. destruct (Z.leb_spec (p mod extent_pages s * page_size s + page_size s) (blen f)); [|done].
    rewrite blen_set_len by nia. rewrite (proj2 (Z.leb_le _ _)) by nia. rewrite <- Hr. f_equal. apply sub_set_len; nia.
  - rewrite list_lookup_alter_ne by lia. exact Hr.
Qed.

(** The last step: the layout flips, nothing is seen to change. *)
Lemma advance_last s page n :
  migrating s -> holds s page -> page_count (meta s) <= migration_watermark s ->
  exists s' page', advance_extent_migration crc32 n s = (Val (0, true), s') /\
    extent_pages s' = migration_target_pages s /\ migration_target_pages s' = 0 /\ meta s' = meta s /\
    page_size s' = page_size s /\ holds s' page' /\ same_pages page page'.
Proof.
  intros [Hl Hc He [Ht Htw] [Hpc Hz] [f Hf]] Hh Hw. pose proof (lo_page s Hl) as Hps.
  unfold advance_extent_migration. unfold st_bind at 1, gets, id. cbv beta iota zeta.
  rewrite (proj2 (Z.eqb_neq _ 0)) by lia. rewrite (proj2 (Z.leb_le _ _)) by done.
  unfold st_bind at 1, modify at 1. cbv beta iota. set (s1 := set_layout (migration_target_pages s) 0 0 s).
  assert (Hl1 : layout_ok s1) by (split; cbn; [done|lia|lia|by right]).
  assert (H1 : forall p, 0 <= p < page_count (meta s) -> raw s1 p = Some (page p)).
  { intros p Hp. rewrite <- (Hh p Hp). unfold raw. change (segment_at s1) with (segment_at s).
    change (page_size s1) with (page_size s).
    assert (El : locate s1 p = locate s p).
    { unfold locate. cbn [s1 set_layout extent_pages migration_target_pages migration_watermark page_size].
      rewrite He, (proj2 (Z.ltb_lt 0 _)) by done. change (0 <? 0) with false. cbv iota.
      by rewrite (proj2 (Z.ltb_lt p _)) by lia. }
    by rewrite El. }
  destruct (publish_eq s1 sync_data_observed Hl1 Hc (or_intror eq_refl)) as (d & b & Hb & Ep).
  revert Ep. unfold st_bind. destruct (write_superblock crc32 s1) as [[[]| |] s2]; [|done..]. intros ->.
  unfold modify, st_ret. set (s3 := set_dirty d (put 0 b s1)).
  assert (Hl3 : layout_ok s3) by (by destruct Hl1).
  eexists _, (fun p => if p =? 0 then b else page p). split; [reflexivity|]. ands; try done.
  - intros p Hp. change (0 <= p < page_count (meta s)) in Hp.
    apply (raw_cut s3); [done|done|split; [lia|change ((p + 1) * page_size s < U64); nia]|].
    apply (holds_put s1 page b Hl1 Hb); [done|done| |exact Hp]. intros q Hq. apply H1.
    change (1 <= q < page_count (meta s)) in Hq. lia.
  - intros p Hp. by rewrite (proj2 (Z.eqb_neq _ _)).
Qed.

(** ** Claim *)

(** Repeat the step until it reports completion. *)
Fixpoint migrate (rounds : nat) (n : Z) : pst bool :=
  match rounds with
  | O => st_ret false
  | S rounds' =>
      do (_, complete) <- advance_extent_migration crc32 n ;;
      if complete : bool then st_ret true else migrate rounds' n
  end.

(** C31: The migration to extents finishes and loses nothing.  From any point of
    a migration, with any batch size, repeating the step once per remaining
    page and once more completes it; the store is then in the extent layout,
    its metadata is unchanged, and every page but the superblock reads byte for
    byte as before. *)
Theorem migration_finishes_and_preserves_pages (s : PageStore) (page : Z -> bytes) (n : Z) (rounds : nat)
    (M : migrating s) (Hh : holds s page)
    (Hr : page_count (meta s) - migration_watermark s < Z.of_nat rounds) (Hr1 : (1 <= rounds)%nat) :
  exists s' page', migrate rounds n s = (Val true, s') /\ extent_pages s' = migration_target_pages s /\
    migration_target_pages s' = 0 /\ meta s' = meta s /\ holds s' page' /\ same_pages page page'.
Proof.
  revert s page M Hh Hr. induction rounds as [|rounds IH]; [lia|]. intros s page M Hh Hr. cbn [migrate].
  destruct (decide (page_count (meta s) <= migration_watermark s)) as [Hle|Hgt].
  - destruct (advance_last s page n M Hh Hle) as (s' & page' & E & A1 & A2 & A3 & _ & A5 & A6).
    exists s', page'. unfold st_bind. rewrite E. done.
  - destruct (advance_batch s page n M Hh) as (s1 & w & page1 & E & M1 & A1 & A2 & A3 & A4 & A5 & A6 & A7); [lia|].
    destruct (IH ltac:(lia) s1 page1 M1 A6) as (s' & page' & E' & B1 & B2 & B3 & B4 & B5); [rewrite A1; lia|].
    exists s', page'. unfold st_bind at 1. rewrite E. cbv beta iota.
    ands; [done|congruence|done|congruence|done|]. intros p Hp. by rewrite B5, A7.
Qed.
End Advance.

(** ** Witness *)

(** Three data pages, two pages per segment, the first segment done. *)
Definition demo_migration : PageStore :=
  let s := match open byte_sum [] 512 0 true with Val s => s | _ => new_store 512 0 true end in
  set_layout 0 2 2 (snd (allocate byte_sum BTreeLeaf (snd (allocate byte_sum Heap (snd (allocate byte_sum Heap s)))))).

Lemma migration_finishes_and_preserves_pages_witness :
  exists s' page', migrate byte_sum 3 1 demo_migration = (Val true, s') /\ extent_pages s' = 2 /\
    migration_target_pages s' = 0 /\ meta s' = meta demo_migration /\ holds s' page' /\
    same_pages (fun p => default [] (raw demo_migration p)) page'.
Proof.
  apply (migration_finishes_and_preserves_pages byte_sum demo_migration _ 1 3).
  - split; try by vm_compute.
    + split; [by vm_compute|by vm_compute|by vm_compute|by left].
    + eexists. by vm_compute.
  - intros p Hp.
    assert (Hc : page_count (meta demo_migration) = 4) by by vm_compute. rewrite Hc in Hp.
    assert (p = 0 \/ p = 1 \/ p = 2 \/ p = 3) as [-> | [-> | [-> | ->]]] by lia; by vm_compute.
  - by vm_compute.
  - lia.
Defined.
