(* ===== verification/Recovery.v ===== *)
(** * Crash recovery and checkpoints

    Models [recover_with_outcomes] and [Checkpointer::finish_checkpoint] of
    [crates/bicdb-page/src/wal.rs]: the two bounded passes over the log that
    replay committed page images into the page store, and the publication of a
    redo point.  Durations and the heap capacity of the outcome table, which
    only reach the report, are left out, and [debug_assert] is off as in a
    release build. *)

(* @source crates/bicdb-page/src/wal.rs *)
From stdpp Require Import base tactics list numbers gmap sorting.
From Stdlib Require Import ZArith Lia.
From S2P Require Import Prelude Search Bytes Errors PageFormat Mvcc MvccOutcomes Ranges Wal WalScan WalLog PageStore PageStoreSpec Superblock.
Local Open Scope Z_scope.
Local Open Scope bic_scope.

(** [RecoveryReport] (137-192): the fields recovery itself fills. *)
Record RecoveryReport := mkRecovery {
  records_scanned : Z;
  pages_replayed : Z;
  free_pages_detached : Z;
  uncommitted_skipped : Z;
  committed_transactions : Z;
  truncated_bytes : Z;
  wal_bytes_scanned : Z;
  scan_passes : Z;
  peak_record_bytes : Z;
  transaction_outcomes : Z;
  terminal_outcome_records : Z;
  max_record_transaction : Z;
  report_redo_lsn : Z;
  end_lsn : Z
}.

(** The locals the first pass fills. *)
Record first_pass := mkFirst {
  fp_outcomes : RecoveredOutcomes;
  fp_terminal : Z;
  fp_redo : Z;
  fp_max_tx : Z
}.

(** The closure of the first pass (1174-1211). *)
Definition learn_outcome (r : WalRecord) (s : TxStatus) : st PageError first_pass unit :=
  if r_tx r =? u64_max then st_fail (WalCorruption (r_lsn r))
  else modify (fun v => mkFirst (snd (outcomes_push (r_tx r) s (fp_outcomes v))) (sat_add (fp_terminal v) 1)
                          (fp_redo v) (fp_max_tx v)).

(** [recover_with_outcomes] (1174-1211). *)
Definition learn (r : WalRecord) : st PageError first_pass unit :=
  (if bool_decide (r_kind r = Checkpoint) then st_ret tt
   else modify (fun v => mkFirst (fp_outcomes v) (fp_terminal v) (fp_redo v) (Z.max (fp_max_tx v) (r_tx r)))) ;;;
  match r_kind r with
  | Commit => learn_outcome r Committed
  | Abort => learn_outcome r Aborted
  | Checkpoint => modify (fun v => mkFirst (fp_outcomes v) (fp_terminal v) (r_tx r) (fp_max_tx v))
  | PageImage => st_ret tt
  end.

(** The store and the locals of the second pass. *)
Record second_pass := mkSecond {
  sp_store : PageStore;
  sp_replayed : Z;
  sp_skipped : Z;
  sp_freed : Z;
  sp_detached : bool
}.

Definition on_store {A} (m : st PageError PageStore A) : st PageError second_pass A :=
  fun v => let '(r, s) := m (sp_store v) in
           (r, mkSecond s (sp_replayed v) (sp_skipped v) (sp_freed v) (sp_detached v)).

Section Checksummed.
Variable crc32 : bytes -> Z.

(** [recover_with_outcomes] (1256-1294): the closure of the second pass. *)
Definition replay (redo : Z) (outcomes : RecoveredOutcomes) (r : WalRecord) : st PageError second_pass unit :=
  do v <- gets id ;;
  if negb (bool_decide (r_kind r = PageImage)) then st_ret tt
  else if r_lsn r <? redo then st_ret tt
  else if negb (r_tx r =? 0) && negb (bool_decide (outcomes_status outcomes (r_tx r) = Some Committed))
  then modify (fun v => mkSecond (sp_store v) (sp_replayed v) (sat_add (sp_skipped v) 1) (sp_freed v) (sp_detached v))
  else if negb (blen (r_payload r) =? page_size (sp_store v))
  then st_fail (ShortRead (r_page r) (blen (r_payload r)) (page_size (sp_store v)))
  else
    (if sp_detached v then st_ret tt
     else
       do n <- on_store (detach_free_list_for_recovery crc32) ;;
       modify (fun v => mkSecond (sp_store v) (sp_replayed v) (sp_skipped v) n true)) ;;;
    if r_page r =? u64_max then st_fail (WalCorruption (r_lsn r))
    else
      on_store (reserve (r_page r + 1)) ;;;
      on_store (write_page crc32 (r_page r) (r_payload r)) ;;;
      modify (fun v => mkSecond (sp_store v) (sat_add (sp_replayed v) 1) (sp_skipped v) (sp_freed v) (sp_detached v)).

(** [recover_with_outcomes] (1163-1311). *)
Definition recover_with_outcomes : st PageError (Wal * PageStore) (RecoveryReport * RecoveredOutcomes) :=
  fun '(w, s) =>
    let bytes_scanned := size_bytes w in
    let max_body := sat_add RECORD_FIXED_BODY_BYTES (page_size s) in
    match scan_records crc32 learn max_body true w (mkFirst outcomes_default 0 0 0) with
    | (Err e, _) => (Err e, (w, s))
    | (Panic, _) => (Panic, (w, s))
    | (Val (first, w1), v) =>
        let last_lsn := default 0 (sc_last_lsn first) in
        let '(conflict, outcomes) := normalize (fp_outcomes v) in
        match conflict with
        | Some _ => (Err (WalCorruption last_lsn), (w1, s))
        | None =>
            let redo := if fp_redo v <=? checkpoint_lsn (meta s) then fp_redo v else 0 in
            match scan_records crc32 (replay redo outcomes) max_body false w1 (mkSecond s 0 0 0 false) with
            | (Err e, v2) => (Err e, (w1, sp_store v2))
            | (Panic, v2) => (Panic, (w1, sp_store v2))
            | (Val (second, _), v2) =>
                if negb (sc_truncated_bytes second =? 0) || negb (sc_records second =? sc_records first)
                   || negb (bool_decide (sc_last_lsn second = sc_last_lsn first))
                then (Err (WalCorruption last_lsn), (w1, sp_store v2))
                else
                  match flush crc32 (sp_store v2) with
                  | (Err e, s') => (Err e, (w1, s'))
                  | (Panic, s') => (Panic, (w1, s'))
                  | (Val _, s') =>
                      (Val (mkRecovery (sc_records first) (sp_replayed v2) (sp_freed v2) (sp_skipped v2)
                              (committed_count outcomes) (sc_truncated_bytes first) bytes_scanned 2
                              (Z.max (sc_peak_record_bytes first) (sc_peak_record_bytes second))
                              (outcomes_len outcomes) (fp_terminal v) (fp_max_tx v) redo last_lsn,
                            outcomes),
                       (set_redo redo w1, s'))
                  end
            end
        end
    end.

(** [recover] (1159-1161). *)
Definition recover (ws : Wal * PageStore) : res PageError RecoveryReport * (Wal * PageStore) :=
  let '(r, ws') := recover_with_outcomes ws in (let! (report, _) := r in Val report, ws').

(** Run a call on the log, and one on the store. *)
Definition on_wal {A} (m : st PageError Wal A) : st PageError (Wal * PageStore) A :=
  fun '(w, s) => let '(r, w') := m w in (r, (w', s)).
Definition on_pages {A} (m : st PageError PageStore A) : st PageError (Wal * PageStore) A :=
  fun '(w, s) => let '(r, s') := m s in (r, (w, s')).

(** [CheckpointReport] (1428-1439). *)
Record CheckpointReport := mkCheckpoint {
  cp_redo_lsn : Z;
  cp_checkpoint_lsn : Z;
  cp_pages_flushed : Z;
  cp_wal_bytes_before : Z;
  cp_wal_truncated : bool
}.

(** [finish_checkpoint] (1387-1419), with the outcome of each log I/O. *)
Definition finish_checkpoint (sync_io seal_io : bool) (root redo pages_flushed : Z) (truncate : bool) :
    st PageError (Wal * PageStore) CheckpointReport :=
  on_wal (wal_sync sync_io) ;;;
  on_pages (flush crc32) ;;;
  do before <- gets (fun ws => size_bytes (fst ws)) ;;
  do lsn <- on_wal (wal_checkpoint crc32 seal_io None sync_io redo root) ;;
  do next <- gets (fun ws => next_lsn (fst ws)) ;;
  on_pages (publish_root crc32 root next) ;;;
  do truncated <- (if truncate then on_wal (reset seal_io) else st_ret false) ;;
  st_ret (mkCheckpoint redo lsn pages_flushed before truncated).
End Checksummed.
