(* ===== verification/RecoveryTheorems.v ===== *)
(** * Crash recovery: what it restores

    Recovery reads the decisions of the log, replays exactly the page images
    that are structural or belong to a committed transaction from the redo
    point on, leaves every other page as it was, and drops the free list as
    soon as it changes a page. *)

From stdpp Require Import base tactics list numbers gmap sorting.
From Stdlib Require Import ZArith Lia.
From S2P Require Import Prelude Search Bytes Errors PageFormat Mvcc MvccOutcomes Ranges Wal WalScan WalLog PageStore PageStoreSpec Superblock Recovery.
Local Open Scope Z_scope.
Local Open Scope bic_scope.

(** ** Growing a segmented store *)

(** The same store but for files that may have grown at the end. *)
Record longer (s s' : PageStore) : Prop := {
  lg_same : s' = set_files (files s') (set_dirty (dirty_segments s') s);
  lg_files : forall i f, files s !! i = Some f -> exists f', files s' !! i = Some f' /\ f `prefix_of` f'
}.

Lemma longer_refl s : longer s s.
Proof. split; [by destruct s|]. eauto. Qed.

Lemma longer_trans s1 s2 s3 : longer s1 s2 -> longer s2 s3 -> longer s1 s3.
Proof.
  intros [E1 F1] [E2 F2]. split; [rewrite E2, E1; done|].
  intros i f Hf. destruct (F1 i f Hf) as (f' & H1 & P1). destruct (F2 i f' H1) as (f'' & H2 & P2).
  exists f''. split; [done|]. by etrans.
Qed.

Lemma raw_longer s s' p c : layout_ok s -> addressable s p -> longer s s' -> raw s p = Some c -> raw s' p = Some c.
Proof.
  intros Hl Hp [E F] Hr. destruct (locate_nonneg s p Hl Hp). pose proof (lo_page s Hl).
  assert (El : locate s' p = locate s p) by (by rewrite E).
  assert (Ep : page_size s' = page_size s) by (by rewrite E).
  unfold raw in *. rewrite El, Ep. unfold segment_at in *. rewrite (proj2 (Z.ltb_ge _ _)) in * by done.
  destruct (files s !! Z.to_nat (fst (locate s p))) as [f|] eqn:Ef; [|done].
  destruct (F _ _ Ef) as (f' & -> & t & ->). cbn [mbind option_bind] in *. unfold window in *.
  destruct (Z.leb_spec (snd (locate s p) + page_size s) (blen f)); [|done]. rewrite blen_app. pose proof (blen_nonneg t). rewrite (proj2 (Z.leb_le _ _)) by lia.
  simplify_eq. f_equal. unfold sub, blen in *. rewrite drop_app_le by lia. rewrite take_app_le; [done|].
  rewrite length_drop. lia.
Qed.

Lemma longer_ensure s index : longer s (snd (ensure_segment index s)).
Proof. split; [by destruct s|]. intros i f Hf. exists f. split; [|done]. cbn. by apply lookup_app_l_Some. Qed.

Lemma prefix_set_len n f : blen f < n -> f `prefix_of` set_len n f.
Proof. intros H. unfold set_len. rewrite (proj2 (Z.leb_gt _ _)) by lia. by apply prefix_app_r. Qed.

Lemma grow_segment_longer count ls index s :
  0 <= index -> exists s', extend_segment count ls index s = (Val tt, s') /\ longer s s'.
Proof.
  intros Hi. unfold extend_segment. unfold st_bind at 1, gets. cbv beta iota zeta. change (id s) with s.
  set (target := if index <? ls then _ else _).
  destruct (blen (default [] (segment_at s index)) <? target) eqn:E; bools; [|exists s; split; [done|apply longer_refl]].
  eexists. split; [reflexivity|]. split; [by destruct s|]. intros i f Hf. cbn [files set_dirty set_files].
  unfold segment_at in E. rewrite (proj2 (Z.ltb_ge _ _)) in E by done.
  destruct (decide (i = Z.to_nat index)) as [->|].
  - rewrite list_lookup_alter_eq, Hf. rewrite Hf in E. cbn in *. eexists. split; [done|]. by apply prefix_set_len.
  - rewrite list_lookup_alter_ne by done. eauto.
Qed.

Lemma grow_segments_longer count ls l : forall s,
  Forall (fun i => 0 <= i) l -> exists s', forM (extend_segment count ls) l s = (Val tt, s') /\ longer s s'.
Proof.
  induction l as [|index l IH]; intros s Hl; [exists s; split; [done|apply longer_refl]|].
  apply Forall_cons_1 in Hl as [Hi Hl]. cbn [forM]. unfold st_bind.
  destruct (grow_segment_longer count ls index s Hi) as (s1 & -> & L1).
  destruct (IH s1 Hl) as (s' & E' & L2). exists s'. split; [exact E'|]. by eapply longer_trans.
Qed.

(** What changing pages in [P] may do to a store. *)
Record pages_kept (P : Z -> Prop) (s s' : PageStore) : Prop := {
  pk_layout : layout_ok s';
  pk_calm : calm s';
  pk_size : page_size s' = page_size s;
  pk_raw : forall q c, addressable s q -> P q -> raw s q = Some c -> raw s' q = Some c
}.

Lemma pages_kept_refl P s : layout_ok s -> calm s -> pages_kept P s s.
Proof. by split. Qed.

Lemma pages_kept_trans P s1 s2 s3 : pages_kept P s1 s2 -> pages_kept P s2 s3 -> pages_kept P s1 s3.
Proof.
  intros [L1 C1 S1 R1] [L2 C2 S2 R2]. split; [done|done|congruence|]. intros q c Hq HP Hr.
  apply R2; [by unfold addressable in *; rewrite S1|done|]. by apply R1.
Qed.

Lemma pages_kept_weaken (P Q : Z -> Prop) s s' : (forall q, Q q -> P q) -> pages_kept P s s' -> pages_kept Q s s'.
Proof. intros H [L C S R]. split; auto. Qed.

Lemma extend_keeps s count :
  layout_ok s -> calm s -> 1 <= count -> count * page_size s < U64 ->
  exists s', extend_to count s = (Val tt, s') /\ pages_kept (fun q => q < count) s s' /\ meta s' = meta s /\
    backup_format s' = backup_format s.
Proof.
  intros Hl Hc H1 Hsz. destruct (decide (extent_pages s = 0)) as [He|He].
  - exists (grown count s). split; [by apply extend_mono_eq|]. split; [|done].
    split; [by destruct Hl|done|done|]. intros q c Hq Hlt. by apply raw_grown.
  - unfold extend_to. unfold st_bind at 1, gets at 1, id. cbv beta iota. rewrite (proj2 (Z.eqb_neq _ _)) by done.
    cbv zeta. set (ls := (count - 1) / extent_pages s). unfold st_bind at 1.
    change (ensure_segment ls s) with (Val tt : pres unit, snd (ensure_segment ls s)). cbv iota.
    pose proof (longer_ensure s ls) as L1. set (s1 := snd (ensure_segment ls s)) in *.
    destruct (grow_segments_longer count ls (rangeZ 0 (ls + 1)) s1) as (s' & E & L2).
    { apply Forall_forall. intros i Hi%elem_of_rangeZ. lia. }
    exists s'. split; [exact E|]. pose proof (longer_trans _ _ _ L1 L2) as L. pose proof L as [Es _].
    split; [|split; by rewrite Es]. split.
    + rewrite Es. by destruct Hl.
    + by rewrite Es.
    + by rewrite Es.
    + intros q c Hq _. by apply raw_longer.
Qed.

Lemma pages_kept_meta P s s' m : pages_kept P s s' -> pages_kept P s (set_meta m s').
Proof. intros [L C S R]. split; [by destruct L|done|done|exact R]. Qed.

Lemma pages_kept_dirty P s s' d : pages_kept P s s' -> pages_kept P s (set_dirty d s').
Proof. intros [L C S R]. split; [by destruct L|done|done|exact R]. Qed.

Lemma pages_kept_put s p b :
  layout_ok s -> calm s -> addressable s p -> blen b = page_size s -> pages_kept (fun q => q <> p) s (put p b s).
Proof.
  intros Hl Hc Hp Hb. split; [by apply layout_put|done|done|]. intros q c Hq Hne. apply raw_put_other; auto.
Qed.

Lemma reserve_keeps s count :
  layout_ok s -> calm s -> 1 <= count -> count * page_size s < U64 ->
  exists s', reserve count s = (Val tt, s') /\ pages_kept (fun q => q < Z.max count (page_count (meta s))) s s' /\
    page_count (meta s') = Z.max (page_count (meta s)) count /\
    free_list_head (meta s') = free_list_head (meta s) /\ free_page_count (meta s') = free_page_count (meta s).
Proof.
  intros Hl Hc H1 Hsz. unfold reserve. unfold st_bind at 1, gets at 1. cbv beta iota.
  change (id s) with s. split_if.
  - exists s. ands; [done|by apply pages_kept_refl|lia|done|done].
  - destruct (extend_keeps s count Hl Hc H1 Hsz) as (s' & E & K & Em & _). unfold st_bind. rewrite E.
    eexists. split; [reflexivity|]. rewrite Em. cbn [set_meta meta with_gen with_count page_count free_list_head free_page_count].
    ands; [|lia|done|done]. apply pages_kept_meta. eapply pages_kept_weaken; [|exact K]. cbn. lia.
Qed.

Section Replay.
Variable crc32 : bytes -> Z.
Hypothesis Hcrc : forall l, is_u32 (crc32 l).
Abbreviation stamped := (stamped crc32).

Lemma addressable_0 s : layout_ok s -> addressable s 0.
Proof. intros Hl. pose proof (lo_page s Hl). split; [lia|]. unfold MAX_PAGE_SIZE in *. widths. lia. Qed.

Lemma detach_keeps s :
  layout_ok s -> calm s -> validate_free_list_metadata (meta s) = Val tt ->
  exists n s', detach_free_list_for_recovery crc32 s = (Val n, s') /\ n = free_page_count (meta s) /\
    pages_kept (fun q => q <> 0) s s' /\ page_count (meta s') = page_count (meta s) /\
    free_list_head (meta s') = 0 /\ free_page_count (meta s') = 0.
Proof.
  intros Hl Hc Hv. unfold detach_free_list_for_recovery. unfold st_bind at 1, gets at 1. cbv beta iota zeta.
  change (id s) with s. unfold st_bind at 1, st_lift. rewrite Hv. cbv beta iota.
  split_if.
  - exists 0, s. unfold st_ret. ands; [done|lia|by apply pages_kept_refl|done|lia|lia].
  - set (m := with_gen _ _). unfold st_bind at 1, modify. cbv beta iota.
    assert (Hl' : layout_ok (set_meta m s)) by (by destruct Hl).
    unfold st_bind at 1. rewrite write_superblock_eq by done.
    set (b := PageStoreSpec.stamped _ _ _). cbv beta iota.
    assert (Hb : blen b = page_size s).
    { unfold b. pose proof (lo_page s Hl). rewrite blen_stamped; rewrite blen_sb_page; auto. cbn. lia. }
    assert (K : pages_kept (fun q => q <> 0) s (put 0 b (set_meta m s))).
    { eapply pages_kept_trans; [apply pages_kept_meta, pages_kept_refl; done|].
      apply pages_kept_put; [done|done|by apply addressable_0|done]. }
    unfold sync, st_bind, gets, sync_data_observed, modify, st_ret. change (id ?x) with x.
    destruct (fsync _).
    + eexists _, _. split; [reflexivity|]. ands; [done|by apply pages_kept_dirty|done..].
    + eexists _, _. split; [reflexivity|]. ands; [done|done|done..].
Qed.

Lemma write_replaces s p b :
  layout_ok s -> calm s -> addressable s p -> 0 < p -> blen b = page_size s ->
  exists g s', write_page crc32 p b s = (Val (stamped g b), s') /\ is_u64 g /\
    raw s' p = Some (stamped g b) /\ pages_kept (fun q => q <> p) s s' /\
    page_count (meta s') = page_count (meta s) /\ free_list_head (meta s') = free_list_head (meta s) /\
    free_page_count (meta s') = free_page_count (meta s).
Proof.
  intros Hl Hc Hp H0 Hb. pose proof (lo_page s Hl). unfold write_page. unfold st_bind at 1, gets. cbv beta iota zeta.
  change (id s) with s. set (g := (m_generation (meta s) + 1) mod U64).
  assert (Hg : is_u64 g) by (unfold g, is_u64; apply Z.mod_pos_bound; done).
  unfold st_bind at 1, modify. cbv beta iota. set (s1 := set_meta _ s).
  assert (Hl1 : layout_ok s1) by (by destruct Hl).
  assert (Hbs : blen (stamped g b) = page_size s) by (rewrite blen_stamped; lia).
  rewrite (write_raw_eq crc32 s1 p b g Hl1) by (try done; lia).
  exists g, (put p (stamped g b) s1). ands; [done|done| | |done|done|done].
  - by apply raw_put_same.
  - eapply pages_kept_trans; [apply pages_kept_meta, pages_kept_refl; done|]. by apply pages_kept_put.
Qed.

(** ** The second pass *)

(** The images recovery must replay, given the decisions [ds] of the log. *)
Definition replayed (redo : Z) (ds : list (Z * TxStatus)) (r : WalRecord) : bool :=
  bool_decide (r_kind r = PageImage) && (redo <=? r_lsn r) &&
  ((r_tx r =? 0) || bool_decide ((r_tx r, Committed) ∈ ds)).

(** The last one of page [p]. *)
Definition final_image (redo : Z) (ds : list (Z * TxStatus)) (p : Z) (rs : list WalRecord) : option WalRecord :=
  last (filter (fun r => replayed redo ds r = true /\ r_page r = p) rs).

(** The page count that covers them. *)
Definition reach (redo : Z) (ds : list (Z * TxStatus)) (rs : list WalRecord) (n : Z) : Z :=
  foldl (fun n r => if replayed redo ds r then Z.max n (r_page r + 1) else n) n rs.

Lemma final_image_snoc redo ds p rs r :
  final_image redo ds p (rs ++ [r]) =
  if decide (replayed redo ds r = true /\ r_page r = p) then Some r else final_image redo ds p rs.
Proof.
  unfold final_image. rewrite filter_app, filter_cons, filter_nil. destruct (decide _).
  - by rewrite last_snoc.
  - by rewrite app_nil_r.
Qed.

Lemma final_image_in redo ds p rs r :
  final_image redo ds p rs = Some r -> r ∈ rs /\ replayed redo ds r = true /\ r_page r = p.
Proof.
  unfold final_image. intros H. apply last_Some_elem_of, list_elem_of_filter in H. tauto.
Qed.

Lemma reach_snoc redo ds rs r n :
  reach redo ds (rs ++ [r]) n =
  if replayed redo ds r then Z.max (reach redo ds rs n) (r_page r + 1) else reach redo ds rs n.
Proof. unfold reach. by rewrite foldl_app. Qed.

Lemma reach_ge redo ds rs n :
  n <= reach redo ds rs n /\ forall r, r ∈ rs -> replayed redo ds r = true -> r_page r < reach redo ds rs n.
Proof.
  induction rs as [|r rs [IH1 IH2]] using rev_ind; [split; [done|set_solver]|]. rewrite reach_snoc. split.
  - destruct (replayed _ _ _); lia.
  - intros r' [Hin|Hin%list_elem_of_singleton]%elem_of_app Hr'.
    + specialize (IH2 r' Hin Hr'). destruct (replayed redo ds r); lia.
    + subst r'. rewrite Hr'. lia.
Qed.

(** A record recovery accepts for the store [s]. *)
Definition record_ok (s : PageStore) (r : WalRecord) : Prop :=
  match r_kind r with
  | PageImage => 0 < r_page r /\ addressable s (r_page r) /\ blen (r_payload r) = page_size s
  | Commit | Abort => r_tx r < u64_max /\ blen (r_payload r) <= page_size s
  | Checkpoint => blen (r_payload r) <= page_size s
  end.

Section Pass.
Context (s0 : PageStore) (redo : Z) (out : RecoveredOutcomes) (ds : list (Z * TxStatus)).
Hypothesis Hl0 : layout_ok s0.
Hypothesis Hc0 : calm s0.
Hypothesis Hv0 : validate_free_list_metadata (meta s0) = Val tt.
Hypothesis Hout : forall x, outcomes_status out x = Some Committed <-> (x, Committed) ∈ ds.

(** What holds once the records [rs] have been seen. *)
Record replaying (rs : list WalRecord) (v : second_pass) : Prop := {
  ry_layout : layout_ok (sp_store v);
  ry_calm : calm (sp_store v);
  ry_size : page_size (sp_store v) = page_size s0;
  ry_count : page_count (meta (sp_store v)) = reach redo ds rs (page_count (meta s0));
  ry_pages : forall p, addressable s0 p -> 0 < p ->
    match final_image redo ds p rs with
    | Some r => exists g, is_u64 g /\ raw (sp_store v) p = Some (stamped g (r_payload r))
    | None => p < page_count (meta s0) -> forall c, raw s0 p = Some c -> raw (sp_store v) p = Some c
    end;
  ry_free : if existsb (replayed redo ds) rs
            then sp_detached v = true /\ free_list_head (meta (sp_store v)) = 0 /\
                 free_page_count (meta (sp_store v)) = 0
            else sp_detached v = false /\ meta (sp_store v) = meta s0
}.

Lemma replaying_nil v : sp_store v = s0 -> sp_detached v = false -> replaying [] v.
Proof. intros E Hd. split; rewrite ?E; auto; [intros p _ _ _ c; by rewrite ?E|by rewrite Hd]. Qed.

Lemma replaying_skip rs r v v' :
  replaying rs v -> replayed redo ds r = false -> sp_store v' = sp_store v -> sp_detached v' = sp_detached v ->
  replaying (rs ++ [r]) v'.
Proof.
  intros [A1 A2 A3 A4 A5 A6] Hr Es Ed.
  split; rewrite ?Es, ?Ed, ?reach_snoc, ?existsb_app, ?Hr; auto.
  - intros p Hp H0. rewrite final_image_snoc, decide_False by (intros []; congruence). by apply A5.
  - cbn [existsb]. rewrite Hr, orb_false_r. exact A6.
Qed.

(** The store calls of one replayed image. *)
Lemma replay_store rs r v :
  replaying rs v -> record_ok s0 r -> replayed redo ds r = true ->
  exists v' g, replay crc32 redo out r v = (Val tt, v') /\ is_u64 g /\ sp_detached v' = true /\
    raw (sp_store v') (r_page r) = Some (stamped g (r_payload r)) /\
    pages_kept (fun q => 0 < q < page_count (meta (sp_store v)) /\ q <> r_page r) (sp_store v) (sp_store v') /\
    page_count (meta (sp_store v')) = Z.max (page_count (meta (sp_store v))) (r_page r + 1) /\
    free_list_head (meta (sp_store v')) = 0 /\ free_page_count (meta (sp_store v')) = 0.
Proof.
  intros [A1 A2 A3 A4 A5 A6] Hok Hr. unfold replayed in Hr. bools. rename H into Hk, H0 into Hb, H1 into Hlsn.
  unfold record_ok in Hok. rewrite Hk in Hok. destruct Hok as (Hp0 & Hpa & Hlen).
  pose proof (lo_page s0 Hl0) as Hps.
  unfold replay. unfold st_bind at 1, gets at 1. cbv beta iota. change (id v) with v.
  rewrite bool_decide_eq_true_2 by done. cbn [negb]. rewrite (proj2 (Z.ltb_ge _ _)) by done.
  assert (Hbl : negb (r_tx r =? 0) && negb (bool_decide (outcomes_status out (r_tx r) = Some Committed)) = false).
  { apply orb_true_iff in Hb as [->|Hb]; [done|]. bools. rewrite (bool_decide_eq_true_2 (outcomes_status _ _ = _)); [by rewrite andb_false_r|].
    by apply Hout. }
  rewrite Hbl, A3, Hlen, Z.eqb_refl. cbn [negb].
  assert (D : exists v1, (if sp_detached v then st_ret tt
     else do n <- on_store (detach_free_list_for_recovery crc32) ;;
       modify (fun v => mkSecond (sp_store v) (sp_replayed v) (sp_skipped v) n true)) v = (Val tt, v1) /\
     sp_detached v1 = true /\ pages_kept (fun q => q <> 0) (sp_store v) (sp_store v1) /\
     page_count (meta (sp_store v1)) = page_count (meta (sp_store v)) /\
     free_list_head (meta (sp_store v1)) = 0 /\ free_page_count (meta (sp_store v1)) = 0).
  { destruct (existsb _ _); destruct A6 as [Ed Em]; rewrite Ed.
    - exists v. ands; [done|done|by apply pages_kept_refl|done|tauto..].
    - destruct (detach_keeps (sp_store v) A1 A2) as (n & s1 & E & _ & K); [by rewrite Em|].
      eexists. unfold st_bind, on_store. rewrite E. split; [reflexivity|]. done. }
  destruct D as (v1 & ED & Ed1 & K1 & C1 & H1 & F1). unfold st_bind at 1. rewrite ED. clear ED A6.
  assert (Hpa' : addressable (sp_store v) (r_page r)) by (unfold addressable in *; by rewrite A3).
  rewrite (proj2 (Z.eqb_neq _ _)) by (destruct Hpa; widths; nia).
  destruct K1 as [L1 Q1 S1 R1].
  destruct (reserve_keeps (sp_store v1) (r_page r + 1) L1 Q1) as (s2 & E2 & [L2 Q2 S2 R2] & C2 & H2 & F2);
    [lia|rewrite S1; apply Hpa'|].
  unfold st_bind at 1, on_store at 1. rewrite E2.
  destruct (write_replaces s2 (r_page r) (r_payload r) L2 Q2) as (g & s3 & E3 & Hg & W3 & K3 & C3 & H3 & F3);
    [unfold addressable in *; by rewrite S2, S1|done|congruence|].
  unfold st_bind, on_store, modify. cbn [sp_store]. rewrite E3. eexists _, g. split; [reflexivity|].
  cbn [sp_store sp_detached]. ands; [done|done|done| |lia|congruence|congruence].
  destruct K3 as [L3 Q3 S3 R3]. split; [done|done|congruence|]. intros q c Hq [Hlt Hne] Hraw.
  apply R3; [unfold addressable in *; by rewrite S2, S1|done|].
  apply R2; [unfold addressable in *; by rewrite S1|lia|]. apply R1; [done|lia|done].
Qed.

Lemma replay_step rs r v :
  replaying rs v -> record_ok s0 r -> exists v', replay crc32 redo out r v = (Val tt, v') /\ replaying (rs ++ [r]) v'.
Proof.
  intros R Hok. destruct (replayed redo ds r) eqn:Hr.
  - destruct (replay_store rs r v R Hok Hr) as (v' & g & E & Hg & Hd & Hraw & [L Q S K] & C & H & F).
    exists v'. split; [done|]. destruct R as [A1 A2 A3 A4 A5 A6].
    split; [done|done|congruence| | |].
    + rewrite reach_snoc, Hr. lia.
    + intros p Hp H0. rewrite final_image_snoc. destruct (decide _) as [[_ <-]|Hne]; [by exists g|].
      assert (Hpn : p <> r_page r) by (intros ->; by apply Hne).
      assert (Hp' : addressable (sp_store v) p) by (unfold addressable in *; by rewrite A3).
      destruct (reach_ge redo ds rs (page_count (meta s0))) as [G1 G2].
      specialize (A5 p Hp H0). destruct (final_image redo ds p rs) as [r'|] eqn:Ef.
      * destruct A5 as (g' & Hg' & A5). exists g'. split; [done|]. apply K; [done| |done].
        apply final_image_in in Ef as (Hin & Hr' & Hpg). specialize (G2 r' Hin Hr'). lia.
      * intros Hlt c Hc. apply K; [done|lia|by apply A5].
    + rewrite existsb_app. cbn [existsb]. rewrite Hr, orb_true_r. done.
  - unfold replay. unfold st_bind at 1, gets at 1. cbv beta iota. change (id v) with v.
    unfold replayed in Hr. destruct (bool_decide (r_kind r = PageImage)) eqn:Hk; cbn [negb andb] in *.
    2: { exists v. split; [done|]. apply (replaying_skip rs r v); auto. unfold replayed. by rewrite Hk. }
    destruct (r_lsn r <? redo) eqn:Hlt; bools.
    { exists v. split; [done|]. apply (replaying_skip rs r v); auto. unfold replayed.
      by rewrite (proj2 (Z.leb_gt _ _)), andb_false_r by done. }
    rewrite (proj2 (Z.leb_le _ _)) in Hr by done. cbn [andb] in Hr. apply orb_false_iff in Hr as [Ht Hc].
    rewrite Ht. cbn [negb andb]. bools.
    rewrite (bool_decide_eq_false_2 (outcomes_status _ _ = _)) by (by rewrite Hout). cbn [negb].
    eexists. split; [reflexivity|]. apply (replaying_skip rs r v); auto. unfold replayed.
    by rewrite (proj2 (Z.eqb_neq _ _)), (bool_decide_eq_false_2 ((r_tx r, Committed) ∈ ds)), andb_false_r by done.
Qed.

Lemma replay_all todo : forall rs v,
  replaying rs v -> Forall (record_ok s0) todo ->
  exists v', visits (replay crc32 redo out) todo v = (Val tt, v') /\ replaying (rs ++ todo) v'.
Proof.
  induction todo as [|r todo IH]; intros rs v R Hok.
  - exists v. by rewrite app_nil_r.
  - apply Forall_cons_1 in Hok as [Hr Hok]. cbn [visits]. unfold st_bind.
    destruct (replay_step rs r v R Hr) as (v1 & -> & R1).
    destruct (IH _ _ R1 Hok) as (v' & E & R'). exists v'. split; [done|]. by rewrite <- app_assoc in R'.
Qed.
End Pass.
End Replay.

(** ** The first pass *)

(** The redo point of the last checkpoint record. *)
Definition logged_redo (rs : list WalRecord) : Z :=
  default 0 (r_tx <$> last (filter (fun r => r_kind r = Checkpoint) rs)).

Lemma logged_redo_snoc rs r :
  logged_redo (rs ++ [r]) = if decide (r_kind r = Checkpoint) then r_tx r else logged_redo rs.
Proof.
  unfold logged_redo. rewrite filter_app, filter_cons, filter_nil. destruct (decide _).
  - by rewrite last_snoc.
  - by rewrite app_nil_r.
Qed.

Lemma push_all_snoc ds x s o : push_all (ds ++ [(x, s)]) o = snd (outcomes_push x s (push_all ds o)).
Proof. revert o. induction ds as [|[x' s'] ds IH]; intros o; [done|]. apply IH. Qed.

Lemma learn_all s todo : forall rs v,
  Forall (record_ok s) todo ->
  fp_outcomes v = push_all (omap decision rs) outcomes_default -> fp_redo v = logged_redo rs ->
  exists v', visits learn todo v = (Val tt, v') /\
    fp_outcomes v' = push_all (omap decision (rs ++ todo)) outcomes_default /\
    fp_redo v' = logged_redo (rs ++ todo).
Proof.
  induction todo as [|r todo IH]; intros rs v Hok Ho Hr.
  - exists v. by rewrite app_nil_r.
  - apply Forall_cons_1 in Hok as [H1 Hok]. replace (rs ++ r :: todo) with ((rs ++ [r]) ++ todo) by by rewrite <- app_assoc.
    assert (E : exists v1, learn r v = (Val tt, v1) /\
      fp_outcomes v1 = push_all (omap decision (rs ++ [r])) outcomes_default /\ fp_redo v1 = logged_redo (rs ++ [r])).
    { rewrite logged_redo_snoc, omap_app. unfold learn, learn_outcome, st_bind, decision, record_ok in *. cbn.
      destruct (r_kind r); cbn;
        rewrite ?(proj2 (Z.eqb_neq (r_tx r) u64_max)) by lia; cbn; eexists; (split; [reflexivity|]); cbn;
        rewrite ?push_all_snoc, ?app_nil_r, Ho; done. }
    destruct E as (v1 & E & Ho1 & Hr1). cbn [visits]. unfold st_bind. rewrite E. by apply IH.
Qed.

(** ** Recovery *)

(** The redo point recovery uses: the page files must vouch for it. *)
Definition redo_point (s : PageStore) (rs : list WalRecord) : Z :=
  if logged_redo rs <=? checkpoint_lsn (meta s) then logged_redo rs else 0.

Section Recovery.
Variable crc32 : bytes -> Z.
Hypothesis Hcrc : forall l, is_u32 (crc32 l).

Lemma limit_ok s rs :
  layout_ok s -> Forall (record_ok s) rs -> Forall (rec_ok MAX_BODY) rs ->
  sat_add RECORD_FIXED_BODY_BYTES (page_size s) <= MAX_BODY /\
  Forall (rec_ok (sat_add RECORD_FIXED_BODY_BYTES (page_size s))) rs.
Proof.
  intros Hl H1 H2. pose proof (lo_page s Hl) as Hp.
  assert (E : sat_add RECORD_FIXED_BODY_BYTES (page_size s) = 16 + page_size s).
  { unfold sat_add, RECORD_FIXED_BODY_BYTES, MAX_PAGE_SIZE in *. widths. lia. }
  rewrite E. split.
  - unfold MAX_BODY, MAX_WAL_RECORD_BYTES, RECORD_HEADER_BYTES, RECORD_FIXED_BODY_BYTES, MAX_PAGE_SIZE in *. lia.
  - rewrite Forall_forall in *. intros r Hr. specialize (H1 r Hr). specialize (H2 r Hr).
    destruct H2 as (A1 & A2 & A3 & A4). unfold rec_ok. ands; try done; try lia.
    + unfold record_ok in H1. destruct (r_kind r); lia.
    + unfold MAX_PAGE_SIZE in *. widths. lia.
Qed.

Lemma truncated_disk w l0 rss ra torn :
  disk_log crc32 (segments w) (sealed w) (active w) l0 rss ra torn ->
  let w' := truncated crc32 w rss ra in
  disk_log crc32 (segments w') (sealed w') (active w') l0 rss ra [].
Proof.
  intros [A1 A2 A3 A4 A5 A6]. split; cbn; try done; [by rewrite app_nil_r|].
  rewrite A3, blen_app in A4. pose proof (blen_nonneg torn). lia.
Qed.

(** What the two passes do on a log that can be recovered. *)
Section Recoverable.
Context (w : Wal) (s : PageStore) (l0 : Z) (rss : list (list WalRecord)) (ra : list WalRecord) (torn : bytes).
Let rs := concat rss ++ ra.
Let ds := omap decision rs.
Hypothesis D : disk_log crc32 (segments w) (sealed w) (active w) l0 rss ra torn.
Hypothesis Hd : dead_end crc32 ra torn.
Hypothesis Hl : layout_ok s.
Hypothesis Hc : calm s.
Hypothesis Hv : validate_free_list_metadata (meta s) = Val tt.
Hypothesis Hok : Forall (record_ok s) rs.

Lemma decisions_ok : Forall (fun d => is_u64 d.1 /\ d.2 <> InProgress) ds.
Proof.
  apply Forall_forall. intros [x t] (r & Hr & Hin)%list_elem_of_omap.
  pose proof (dl_ok _ _ _ _ _ _ _ _ D) as Ho. rewrite Forall_forall in Ho. destruct (Ho r Hr) as (_ & _ & Ht & _).
  unfold decision in Hin. destruct (r_kind r); simplify_eq; by split.
Qed.

Lemma pass_one :
  exists v, scan_records crc32 learn (sat_add RECORD_FIXED_BODY_BYTES (page_size s)) true w
              (mkFirst outcomes_default 0 0 0) =
            (Val (report crc32 rs (blen torn), truncated crc32 w rss ra), v) /\
    fp_outcomes v = push_all ds outcomes_default /\ fp_redo v = logged_redo rs.
Proof.
  destruct (limit_ok s rs Hl Hok (dl_ok _ _ _ _ _ _ _ _ D)) as [Hmb Hrec].
  rewrite (scan_records_upto crc32 Hcrc learn _ w l0 rss ra torn true _ Hmb Hrec D Hd). fold rs.
  destruct (learn_all s rs [] (mkFirst outcomes_default 0 0 0) Hok) as (v & E & Ho & Hr); [done|done|].
  exists v. unfold st_bind. rewrite E. done.
Qed.

Lemma pass_two out redo :
  (forall x, outcomes_status out x = Some Committed <-> (x, Committed) ∈ ds) ->
  exists v, scan_records crc32 (replay crc32 redo out) (sat_add RECORD_FIXED_BODY_BYTES (page_size s)) false
              (truncated crc32 w rss ra) (mkSecond s 0 0 0 false) =
            (Val (report crc32 rs 0, truncated crc32 w rss ra), v) /\ replaying crc32 s redo ds rs v.
Proof.
  intros Hout. destruct (limit_ok s rs Hl Hok (dl_ok _ _ _ _ _ _ _ _ D)) as [Hmb Hrec].
  pose proof (truncated_disk w l0 rss ra torn D) as D'. cbv zeta in D'.
  rewrite (scan_records_upto crc32 Hcrc _ _ _ l0 rss ra [] false _ Hmb Hrec D' (dead_end_nil crc32 ra)). fold rs.
  destruct (replay_all crc32 Hcrc s redo out ds Hl Hv Hout rs [] (mkSecond s 0 0 0 false)) as (v & E & R); [|done|].
  { by apply replaying_nil. }
  exists v. unfold st_bind. rewrite E. done.
Qed.
End Recoverable.

(** What a recovered store must look like, given the log's records. *)
Record recovered_to (s s' : PageStore) (rs : list WalRecord) : Prop := {
  rt_pages : forall p, addressable s p -> 0 < p ->
    match final_image (redo_point s rs) (omap decision rs) p rs with
    | Some r => exists g, is_u64 g /\ raw s' p = Some (PageStoreSpec.stamped crc32 g (r_payload r))
    | None => p < page_count (meta s) -> forall c, raw s p = Some c -> raw s' p = Some c
    end;
  rt_count : page_count (meta s') =
    reach (redo_point s rs) (omap decision rs) rs (page_count (meta s));
  rt_free : if existsb (replayed (redo_point s rs) (omap decision rs)) rs
            then free_list_head (meta s') = 0 /\ free_page_count (meta s') = 0
            else meta s' = meta s;
  rt_layout : layout_ok s'
}.

(** The state a flushed second pass leaves. *)
Lemma flushed_recovery s rs v :
  replaying crc32 s (redo_point s rs) (omap decision rs) rs v ->
  exists s', flush crc32 (sp_store v) = (Val tt, s') /\ recovered_to s s' rs.
Proof.
  intros [A1 A2 A3 A4 A5 A6]. destruct (flush_eq crc32 (sp_store v) A1 A2) as [d ->].
  eexists. split; [reflexivity|]. set (b := published _ _ _ _).
  assert (Hb : blen b = page_size (sp_store v)) by (by apply blen_published).
  pose proof (pages_kept_put (sp_store v) 0 b A1 A2 (addressable_0 _ A1) Hb) as [K1 _ _ K4].
  split; [|exact A4| |by destruct K1].
  - intros p Hp H0. specialize (A5 p Hp H0).
    assert (Hp' : addressable (sp_store v) p) by (unfold addressable in *; by rewrite A3).
    destruct (final_image _ _ _ _) as [r|].
    + destruct A5 as (g & Hg & A5). exists g. split; [done|]. by apply K4; [|lia|].
    + intros Hlt c Hr. apply K4; [done|lia|]. by apply A5.
  - destruct (existsb _ _); cbn [meta set_dirty put set_files set_faults]; tauto.
Qed.

(** The whole run on a log without contradictions. *)
Lemma recovery_run w s l0 rss ra torn (rs := concat rss ++ ra) :
  disk_log crc32 (segments w) (sealed w) (active w) l0 rss ra torn -> dead_end crc32 ra torn ->
  layout_ok s -> calm s -> validate_free_list_metadata (meta s) = Val tt -> Forall (record_ok s) rs ->
  (forall x, (x, Committed) ∈ omap decision rs -> ~ (x, Aborted) ∈ omap decision rs) ->
  exists rep out s', recover_with_outcomes crc32 (w, s) =
      (Val (rep, out), (set_redo (redo_point s rs) (truncated crc32 w rss ra), s')) /\
    recovered_to s s' rs /\ (forall x t, outcomes_status out x = Some t <-> (x, t) ∈ omap decision rs) /\
    truncated_bytes rep = blen torn.
Proof.
  intros D Hd Hl Hc Hv Hok Hcon.
  destruct (pass_one w s l0 rss ra torn D Hd Hl Hok) as (v & E1 & Ho & Hr).
  pose proof (normalized_decisions _ (decisions_ok w l0 rss ra torn D)) as Hn. fold rs in Hn, Ho, E1, Hr.
  unfold recover_with_outcomes. rewrite E1, Ho. cbv zeta.
  destruct (normalize _) as [[x|] out]; [by destruct (Hcon x); tauto|]. destruct Hn as [_ Hn].
  rewrite Hr. fold (redo_point s rs).
  destruct (pass_two w s l0 rss ra torn D Hl Hc Hv Hok out (redo_point s rs) ltac:(intros; apply Hn))
    as (v2 & E2 & R). fold rs in E2, R.
  rewrite E2. cbn [report sc_truncated_bytes sc_records sc_last_lsn].
  rewrite !Z.eqb_refl, bool_decide_eq_true_2 by done. cbn [negb orb].
  destruct (flushed_recovery s rs v2 R) as (s' & -> & Rt).
  eexists _, out, s'. split; [reflexivity|]. ands; done.
Qed.

(** C13: Crash recovery restores exactly the committed state.  On the files any
    crash may leave (sealed segments, an active file with a torn tail), for any
    layout of the page store, recovery succeeds unless the log contradicts
    itself, and then: each page holds the last image, from the redo point on,
    that is structural or belongs to a transaction with a commit record; every
    other page is untouched, so no uncommitted image is exposed; the page count
    covers what was replayed; the free list is dropped as soon as a page
    changed; the outcome table answers exactly the decisions of the log; and the
    torn tail is cut off. *)
Theorem recovery_replays_exactly_the_committed_images w s l0 rss ra torn (rs := concat rss ++ ra)
    (D : disk_log crc32 (segments w) (sealed w) (active w) l0 rss ra torn) (Hd : dead_end crc32 ra torn)
    (Hl : layout_ok s) (Hc : calm s) (Hv : validate_free_list_metadata (meta s) = Val tt)
    (Hok : Forall (record_ok s) rs)
    (Hcon : forall x, (x, Committed) ∈ omap decision rs -> ~ (x, Aborted) ∈ omap decision rs) :
  exists rep out w' s', recover_with_outcomes crc32 (w, s) = (Val (rep, out), (w', s')) /\
    recovered_to s s' rs /\
    (forall x t, outcomes_status out x = Some t <-> (x, t) ∈ omap decision rs) /\
    disk_log crc32 (segments w') (sealed w') (active w') l0 rss ra [] /\
    truncated_bytes rep = blen torn /\ redo_lsn w' = redo_point s rs.
Proof.
  destruct (recovery_run w s l0 rss ra torn D Hd Hl Hc Hv Hok Hcon) as (rep & out & s' & E & Rt & Hn & Ht).
  eexists rep, out, _, s'. split; [exact E|]. ands; [done|done| |done|done].
  exact (truncated_disk w l0 rss ra torn D).
Qed.

(** C32: A log that both commits and aborts a transaction is refused, before
    any page is written. *)
Theorem recovery_refuses_a_contradiction w s l0 rss ra torn (rs := concat rss ++ ra) x
    (D : disk_log crc32 (segments w) (sealed w) (active w) l0 rss ra torn) (Hd : dead_end crc32 ra torn)
    (Hl : layout_ok s) (Hok : Forall (record_ok s) rs)
    (H1 : (x, Committed) ∈ omap decision rs) (H2 : (x, Aborted) ∈ omap decision rs) :
  exists w' lsn, recover_with_outcomes crc32 (w, s) = (Err (WalCorruption lsn), (w', s)).
Proof.
  destruct (pass_one w s l0 rss ra torn D Hd Hl Hok) as (v & E1 & Ho & Hr).
  pose proof (normalized_decisions _ (decisions_ok w l0 rss ra torn D)) as Hn. fold rs in Hn, Ho, E1, Hr.
  unfold recover_with_outcomes. rewrite E1, Ho. cbv zeta.
  destruct (normalize _) as [[y|] out]; [by eexists _, _|]. destruct Hn as [_ Hn].
  apply Hn in H1, H2. congruence.
Qed.
End Recovery.

(** ** Witnesses *)

(** Transaction 7 wrote page 1 and committed; transaction 9 wrote page 2 and
    did not; a further record is torn. *)
Definition demo_records : list WalRecord :=
  [mkRecord 1 PageImage 1 7 (replicate 512 11); mkRecord 2 PageImage 2 9 (replicate 512 22);
   mkRecord 3 Commit 0 7 []; mkRecord 4 Abort 0 8 []].
Definition demo_torn : bytes := take 20 (enc byte_sum (mkRecord 5 Commit 0 9 [])).
Definition demo_wal : Wal := wal_open ∅ (encs byte_sum demo_records ++ demo_torn).
Definition demo_pages : PageStore :=
  match open byte_sum [] 512 1048576 true with Val s => s | _ => new_store 512 1048576 true end.

Lemma demo_layout : layout_ok demo_pages.
Proof. split; [by vm_compute|by vm_compute|by vm_compute|by right]. Qed.

Lemma demo_disk ra torn :
  chain 1 ra -> Forall (rec_ok MAX_BODY) ra -> blen (encs byte_sum ra ++ torn) <= u64_max ->
  let w := wal_open ∅ (encs byte_sum ra ++ torn) in
  disk_log byte_sum (segments w) (sealed w) (active w) 1 [] ra torn.
Proof. intros H1 H2 H3. split; try done. by intros n [? ?]. Qed.

Ltac records_hold :=
  repeat first [apply Forall_nil_2 | apply Forall_cons_2]; repeat split; cbv [r_kind]; by vm_compute.

Lemma recovery_replays_exactly_the_committed_images_witness :
  exists rep out w' s', recover_with_outcomes byte_sum (demo_wal, demo_pages) = (Val (rep, out), (w', s')) /\
    recovered_to byte_sum demo_pages s' demo_records /\
    (forall x t, outcomes_status out x = Some t <-> (x, t) ∈ omap decision demo_records) /\
    disk_log byte_sum (segments w') (sealed w') (active w') 1 [] demo_records [] /\
    truncated_bytes rep = blen demo_torn /\ redo_lsn w' = redo_point demo_pages demo_records.
Proof.
  apply (recovery_replays_exactly_the_committed_images byte_sum byte_sum_u32 demo_wal demo_pages 1 []).
  - apply demo_disk; [by vm_compute|records_hold|by vm_compute].
  - apply (dead_end_torn byte_sum byte_sum_u32); by vm_compute.
  - exact demo_layout.
  - by vm_compute.
  - by vm_compute.
  - records_hold.
  - intros x. cbn. set_solver.
Defined.

Lemma recovery_refuses_a_contradiction_witness :
  let w := wal_open ∅ (encs byte_sum (demo_records ++ [mkRecord 5 Abort 0 7 []]) ++ []) in
  exists w' lsn, recover_with_outcomes byte_sum (w, demo_pages) = (Err (WalCorruption lsn), (w', demo_pages)).
Proof.
  intros w.
  apply (recovery_refuses_a_contradiction byte_sum byte_sum_u32 w demo_pages 1 []
           (demo_records ++ [mkRecord 5 Abort 0 7 []]) [] 7).
  - apply demo_disk; [by vm_compute|records_hold|by vm_compute].
  - apply dead_end_nil.
  - exact demo_layout.
  - records_hold.
  - cbn. set_solver.
  - cbn. set_solver.
Defined.
