(* ===== verification/Checkpoint.v ===== *)
(** * Checkpoints

    A truncating checkpoint publishes the root and the LSN horizon before it
    discards the log; reopening and recovering afterwards changes no page,
    answers no outcome and never reuses an LSN. *)

From stdpp Require Import base tactics list numbers gmap sorting.
From Stdlib Require Import ZArith Lia.
From S2P Require Import Prelude Search Bytes Errors PageFormat Mvcc MvccOutcomes Ranges Wal WalScan WalLog WalTheorems PageStore PageStoreSpec Superblock Recovery RecoveryTheorems.
Local Open Scope Z_scope.
Local Open Scope bic_scope.

(** ** The log calls of a checkpoint *)

Lemma sync_through_step n lsn w :
  sync_through (S n) true lsn w =
  if lsn <=? durable_lsn w then (Val tt, w)
  else sync_through n true lsn (set_durable (Z.max (durable_lsn w) (sat_sub (next_lsn w) 1)) w).
Proof. cbn [sync_through]. unfold st_bind, gets. cbv beta iota. change (id w) with w. by destruct (_ <=? _). Qed.

(** Two turns of the loop are enough for an LSN that was assigned. *)
Lemma sync_through_ok lsn w :
  lsn <= sat_sub (next_lsn w) 1 -> exists d, sync_through 2 true lsn w = (Val tt, set_durable d w) /\ lsn <= d.
Proof.
  intros Hl. rewrite !sync_through_step.
  destruct (Z.leb_spec lsn (durable_lsn w)); [exists (durable_lsn w); split; [by destruct w|done]|].
  cbn [durable_lsn set_durable]. rewrite (proj2 (Z.leb_le _ _)) by lia. eexists. split; [reflexivity|]. lia.
Qed.

Lemma reset_sealed_all files names archived :
  (forall n, is_Some (files !! n) -> n ∈ names) -> reset_sealed false archived files names = (∅, [], 0).
Proof.
  revert files. induction names as [|n names IH]; intros files Hd; cbn [reset_sealed andb].
  - f_equal; f_equal. apply map_eq. intros n. rewrite lookup_empty.
    destruct (files !! n) eqn:E; [|done]. specialize (Hd n ltac:(by eexists)). by apply not_elem_of_nil in Hd.
  - apply IH. intros m Hm. destruct (decide (m = n)) as [->|Hne].
    + rewrite lookup_delete_eq in Hm. by destruct Hm.
    + rewrite lookup_delete_ne in Hm by done. specialize (Hd m Hm). set_solver.
Qed.

Section Checkpoint.
Variable crc32 : bytes -> Z.
Hypothesis Hcrc : forall l, is_u32 (crc32 l).

(** The checkpoint record is appended and synced. *)
Lemma wal_checkpoint_ok w l0 rss ra redo root :
  live crc32 w l0 rss ra -> is_u64 redo -> is_u64 root -> 0 <= next_lsn w < u64_max ->
  blen (active w) + 40 <= u64_max ->
  exists w' rss' ra', wal_checkpoint crc32 true None true redo root w = (Val (next_lsn w), w') /\
    live crc32 w' l0 rss' ra' /\ next_lsn w' = next_lsn w + 1 /\
    archive_retention w' = archive_retention w /\
    concat rss' ++ ra' = (concat rss ++ ra) ++ [new_record w Checkpoint root redo []].
Proof.
  intros L Hr Hro Hn Hsz. set (r := new_record w Checkpoint root redo []).
  assert (Hrec : rec_ok MAX_BODY r) by (apply new_record_ok; auto; by vm_compute).
  pose proof (live_appended crc32 w l0 rss ra Checkpoint root redo [] L Hrec) as Ha. fold r in Ha.
  unfold appended in Ha. change (r_payload r) with (@nil Z) in Ha. change (blen []) with 0 in Ha.
  unfold wal_checkpoint. unfold st_bind at 1. rewrite append_eq. fold r.
  set (w1 := if needs_seal w [] then pushed crc32 r (sealed_state w) else pushed crc32 r w).
  assert (E : (if needs_seal w [] then (Val (next_lsn w), pushed crc32 r (sealed_state w))
               else (Val (next_lsn w), pushed crc32 r w)) = (Val (next_lsn w) : pres Z, w1))
    by (unfold w1; by destruct (needs_seal w [])).
  rewrite E. clear E.
  assert (H1 : exists rss' ra', live crc32 w1 l0 rss' ra' /\ concat rss' ++ ra' = (concat rss ++ ra) ++ [r]).
  { unfold w1. destruct (needs_seal w []); destruct Ha as (A1 & A2 & _); [lia| |lia|]; eauto. }
  assert (H2 : next_lsn w1 = next_lsn w + 1).
  { unfold w1. destruct (needs_seal w []); cbn; apply Z.mod_small; widths; lia. }
  assert (H3 : archive_retention w1 = archive_retention w) by (unfold w1; by destruct (needs_seal w [])).
  destruct (sync_through_ok (next_lsn w) w1) as (d & E & _); [unfold sat_sub; lia|].
  unfold st_bind. rewrite E. destruct H1 as (rss' & ra' & L1 & Ec).
  eexists _, rss', ra'. split; [reflexivity|]. ands; [|done|done|done]. by apply live_redo, live_durable.
Qed.

Lemma reset_ok w l0 rss ra :
  live crc32 w l0 rss ra -> archive_retention w = false ->
  exists w', reset true w = (Val true, w') /\ segments w' = ∅ /\ active w' = [] /\ next_lsn w' = next_lsn w.
Proof.
  intros L Hret. rewrite reset_eq, Hret. cbn [andb].
  unfold reset_files, st_bind, modify, st_ret, gets. cbv beta iota. change (id ?x) with x.
  unfold reset_truncate. cbn [archive_retention archived_through segments sealed set_active]. rewrite Hret.
  rewrite reset_sealed_all by exact (dl_dom _ _ _ _ _ _ _ _ (lv_disk _ _ _ _ _ L)).
  eexists. split; [reflexivity|]. done.
Qed.

(** The store calls: the superblock is page 0, every other page stays. *)
Lemma superblock_keeps s m :
  layout_ok s -> calm s -> exists s', write_superblock_meta crc32 m s = (Val tt, s') /\
    pages_kept (fun q => q <> 0) s s' /\ meta s' = meta s.
Proof.
  intros Hl Hc. rewrite write_superblock_eq by done. eexists. split; [reflexivity|]. split; [|done].
  apply pages_kept_put; [done|done|by apply addressable_0|]. pose proof (lo_page s Hl).
  rewrite blen_stamped; rewrite blen_sb_page; auto; lia.
Qed.

Lemma sync_keeps s : layout_ok s -> calm s ->
  exists s', sync s = (Val tt, s') /\ pages_kept (fun _ => True) s s' /\ meta s' = meta s.
Proof.
  intros Hl Hc. unfold sync, st_bind, gets. change (id s) with s. destruct (fsync s).
  - eexists. split; [reflexivity|]. split; [|done]. by apply pages_kept_dirty, pages_kept_refl.
  - exists s. split; [done|]. split; [by apply pages_kept_refl|done].
Qed.

Lemma flush_keeps s : layout_ok s -> calm s ->
  exists s', flush crc32 s = (Val tt, s') /\ pages_kept (fun q => q <> 0) s s' /\ meta s' = meta s.
Proof.
  intros Hl Hc. unfold flush, write_superblock, st_bind, gets.
  destruct (superblock_keeps s (meta s) Hl Hc) as (s1 & -> & K1 & M1).
  destruct (sync_keeps s1 (pk_layout _ _ _ K1) (pk_calm _ _ _ K1)) as (s2 & -> & K2 & M2).
  exists s2. split; [done|]. split; [|congruence]. eapply pages_kept_trans; [exact K1|].
  by eapply pages_kept_weaken; [|exact K2].
Qed.

Lemma publish_root_keeps s root lsn : layout_ok s -> calm s ->
  exists s', publish_root crc32 root lsn s = (Val tt, s') /\ pages_kept (fun q => q <> 0) s s' /\
    meta s' = with_gen (sat_add (m_generation (meta s)) 1) (with_root root lsn (meta s)).
Proof.
  intros Hl Hc. unfold publish_root. unfold st_bind at 1, modify. cbv beta iota. set (s1 := set_meta _ s).
  assert (Hl1 : layout_ok s1) by (by destruct Hl).
  destruct (flush_keeps s1 Hl1 Hc) as (s2 & E & K & M). exists s2. split; [exact E|]. split; [|exact M].
  eapply pages_kept_trans; [|exact K]. by apply pages_kept_meta, pages_kept_refl.
Qed.

(** C30: A truncating checkpoint of a log without retention for the archive
    leaves nothing to redo and loses no page.  When the log's syncs and seals
    succeed, [finish_checkpoint] publishes the root and, as the LSN horizon, the
    next LSN, empties the log, and touches no page but the superblock.
    Reopening the log at the published horizon and recovering then succeeds,
    changes no page and no metadata, and the next LSN is the one the checkpoint
    left, so no LSN is ever reused.  The outcomes of transactions that only the
    truncated log held go with it: recovery answers none, they are the caller's
    to keep in pages. *)
Theorem truncating_checkpoint_is_transparent w s l0 rss ra root redo n seg
    (L : live crc32 w l0 rss ra) (Hret : archive_retention w = false)
    (Hl : layout_ok s) (Hc : calm s) (Hv : validate_free_list_metadata (meta s) = Val tt)
    (Hr : is_u64 redo) (Hro : is_u64 root) (Hn : 0 <= next_lsn w < u64_max)
    (Hsz : blen (active w) + 40 <= u64_max) :
  exists rep w1 s1, finish_checkpoint crc32 true true root redo n true (w, s) = (Val rep, (w1, s1)) /\
    cp_wal_truncated rep = true /\ root_page (meta s1) = root /\ checkpoint_lsn (meta s1) = next_lsn w + 1 /\
    pages_kept (fun q => q <> 0) s s1 /\
    exists rep2 out w2 s2,
      recover_with_outcomes crc32
        (open_with_segments_and_floor (segments w1) (active w1) seg (checkpoint_lsn (meta s1)), s1) =
      (Val (rep2, out), (w2, s2)) /\
      meta s2 = meta s1 /\ next_lsn w2 = next_lsn w + 1 /\ (forall x, outcomes_status out x = None) /\
      forall p c, 0 < p < page_count (meta s) -> addressable s p -> raw s p = Some c -> raw s2 p = Some c.
Proof.
  unfold finish_checkpoint. unfold st_bind at 1, on_wal at 1, wal_sync. unfold st_bind at 1, gets at 1.
  change (id w) with w. cbv beta iota.
  destruct (sync_through_ok (sat_sub (next_lsn w) 1) w) as (d & -> & _); [done|].
  destruct (flush_keeps s Hl Hc) as (sf & Ef & Kf & Mf).
  unfold st_bind at 1, on_pages at 1. rewrite Ef. unfold st_bind at 1, gets at 1. cbv beta iota.
  destruct (wal_checkpoint_ok (set_durable d w) l0 rss ra redo root (live_durable crc32 _ _ _ _ _ L) Hr Hro Hn Hsz)
    as (wc & rss' & ra' & Ec & Lc & Nc & Rc & _).
  unfold st_bind at 1, on_wal at 1. rewrite Ec. unfold st_bind at 1, gets at 1. cbv beta iota. cbn [fst].
  destruct (publish_root_keeps sf root (next_lsn wc) (pk_layout _ _ _ Kf) (pk_calm _ _ _ Kf)) as (sp & Ep & Kp & Mp).
  unfold st_bind at 1, on_pages at 1. rewrite Ep.
  destruct (reset_ok wc l0 rss' ra' Lc) as (wr & Er & R1 & R2 & R3); [by rewrite Rc|].
  unfold st_bind, on_wal. rewrite Er. eexists _, wr, sp. split; [reflexivity|].
  pose proof (pages_kept_trans _ _ _ _ Kf Kp) as K.
  assert (Hcl : checkpoint_lsn (meta sp) = next_lsn w + 1) by (rewrite Mp; exact Nc).
  ands; [done|by rewrite Mp|done|done|].
  rewrite R1, R2, Hcl. set (wo := open_with_segments_and_floor _ _ _ _).
  destruct (recovery_run crc32 Hcrc wo sp 1 [] [] []) as (rep2 & out & s2 & E2 & [T1 _ T3 _] & Ho & _).
  - split; try done. by intros k [? ?].
  - apply dead_end_nil.
  - exact (pk_layout _ _ _ Kp).
  - exact (pk_calm _ _ _ Kp).
  - rewrite Mp, Mf. exact Hv.
  - constructor.
  - cbn. set_solver.
  - eexists rep2, out, _, s2. split; [exact E2|]. cbn in T1, T3. ands; [exact T3|cbn; lia| |].
    { intros x. destruct (outcomes_status out x) as [t|] eqn:Ex; [|done]. apply Ho in Ex. by apply not_elem_of_nil in Ex. }
    intros p c Hp Ha Hraw. apply T1; [unfold addressable in *; by rewrite (pk_size _ _ _ K)|lia| |].
    + rewrite Mp, Mf. cbn. lia.
    + apply (pk_raw _ _ _ K); [done|lia|done].
Qed.
End Checkpoint.

(** ** Witness *)

Lemma truncating_checkpoint_is_transparent_witness :
  let w := wal_open ∅ [] in
  exists rep w1 s1, finish_checkpoint byte_sum true true 1 1 0 true (w, demo_pages) = (Val rep, (w1, s1)) /\
    cp_wal_truncated rep = true /\ root_page (meta s1) = 1 /\ checkpoint_lsn (meta s1) = next_lsn w + 1 /\
    pages_kept (fun q => q <> 0) demo_pages s1 /\
    exists rep2 out w2 s2,
      recover_with_outcomes byte_sum
        (open_with_segments_and_floor (segments w1) (active w1) 0 (checkpoint_lsn (meta s1)), s1) =
      (Val (rep2, out), (w2, s2)) /\
      meta s2 = meta s1 /\ next_lsn w2 = next_lsn w + 1 /\ (forall x, outcomes_status out x = None) /\
      forall p c, 0 < p < page_count (meta demo_pages) -> addressable demo_pages p ->
        raw demo_pages p = Some c -> raw s2 p = Some c.
Proof.
  intros w. apply (truncating_checkpoint_is_transparent byte_sum byte_sum_u32 w demo_pages 1 [] [] 1 1 0 0).
  - split; try done. split; try done. by intros n [? ?].
  - done.
  - exact demo_layout.
  - by vm_compute.
  - by vm_compute.
  - by vm_compute.
  - by vm_compute.
  - by vm_compute.
  - by vm_compute.
Defined.
