(* ===== verification/Pager.v ===== *)
(** * The buffer pool as its clients see it

    [btree.rs], [heap.rs] and [overflow.rs] reach pages only through the pool of
    [pool.rs] and the allocator behind it: pin a page and read it, pin it and
    change it, allocate, flush.  [Pager] names those operations and [PagerLaws]
    what the clients rely on; [Pool] discharges the laws for the modelled pool.
    A write-back stamps the generation and the checksum into the cached page
    itself, so the contents of a page are kept only up to [same_page]. *)

(* @source crates/bicdb-page/src/pool.rs *)
From stdpp Require Import base tactics list numbers gmap.
From Stdlib Require Import ZArith Lia.
From S2P Require Import Prelude Search Bytes Errors PageFormat PageStore PageStoreSpec.
Local Open Scope Z_scope.
Local Open Scope bic_scope.

(** [CacheClass] (83-99). *)
Inductive CacheClass := Metadata | Search | Streaming.
#[export] Instance CacheClass_eq_dec : EqDecision CacheClass.
Proof. solve_decision. Defined.

(** ** Pages up to their stamps *)

(** Equal but for the generation, the checksum and the trailer. *)
Definition same_page (b b' : bytes) : Prop :=
  blen b = blen b' /\ sub b 0 16 = sub b' 0 16 /\ sub b 24 8 = sub b' 24 8 /\
  sub b 36 (blen b - 44) = sub b' 36 (blen b' - 44).

#[export] Instance same_page_equivalence : Equivalence same_page.
Proof.
  split.
  - by intros b.
  - intros b b' (H1 & H2 & H3 & H4). unfold same_page. ands; by symmetry.
  - intros b1 b2 b3 (H1 & H2 & H3 & H4) (G1 & G2 & G3 & G4). unfold same_page. ands; by etrans.
Qed.

Lemma same_sub b b' a n :
  same_page b b' -> 0 <= a -> 0 <= n ->
  a + n <= 16 \/ (24 <= a /\ a + n <= 32) \/ (36 <= a /\ a + n <= blen b - 8) -> sub b a n = sub b' a n.
Proof.
  intros (H1 & H2 & H3 & H4) Ha Hn Hor. destruct Hor as [H|[[Hl H]|[Hl H]]].
  - rewrite <- (Z.add_0_l a), <- !(sub_sub _ 0 16) by lia. by rewrite H2.
  - replace a with (24 + (a - 24)) by lia. rewrite <- !(sub_sub _ 24 8) by lia. by rewrite H3.
  - replace a with (36 + (a - 36)) by lia. rewrite <- (sub_sub b 36 (blen b - 44)), <- (sub_sub b' 36 (blen b' - 44)) by lia.
    by rewrite H4.
Qed.

(** What a page must be for the store to give it back. *)
Definition readable (ps : Z) (b : bytes) : Prop := blen b = ps /\ exists h, decode b = Val h.

Lemma decode_same b b' : 72 <= blen b -> same_page b b' -> (exists h, decode b = Val h) -> exists h, decode b' = Val h.
Proof.
  intros Hb Hs [h Hd]. rewrite decode_spec in *. pose proof Hs as (H1 & _).
  rewrite <- H1. rewrite (proj2 (Z.ltb_ge _ _)) in * by lia.
  assert (A : forall a n, 0 <= a -> 0 <= n -> a + n <= 16 -> sub b' a n = sub b a n) by (intros; symmetry; apply same_sub; [done|lia..]).
  unfold u16_at in *. rewrite !A by lia. repeat split_if; try done. destruct (page_type_from_u8 _); [eauto|done].
Qed.

Lemma readable_same ps b b' : 72 <= ps -> same_page b b' -> readable ps b -> readable ps b'.
Proof.
  intros Hps Hs [Hl Hd]. pose proof Hs as (H1 & _). split; [by rewrite <- H1|]. eapply decode_same; [|exact Hs|done]. lia.
Qed.

Lemma same_stamped crc32 gen b : 72 <= blen b -> same_page (stamped crc32 gen b) b.
Proof.
  intros Hb. unfold stamped, crc_stamp. set (c := crc32 _). unfold gen_stamp.
  assert (L : blen (patch (patch b 16 (le_enc 8 gen)) (blen b - 8) (le_enc 8 gen)) = blen b) by blia.
  unfold same_page. rewrite blen_patch, L by blia. repeat (rewrite sub_patch_disjoint by blia). done.
Qed.

(** ** The interface *)

Class Pager (S : Type) := {
  pg_page_size : S -> Z;
  pg_get : CacheClass -> Z -> st PageError S bytes;
  (** [get_mut], the changes made through the guard, and its drop. *)
  pg_get_mut : forall A : Type, Z -> st PageError bytes A -> st PageError S A;
  (** [get_mut] and the first changes through the guard, which stays open. *)
  pg_open : forall A : Type, Z -> st PageError bytes A -> st PageError S A;
  (** The drop of a guard that was kept. *)
  pg_close : Z -> st PageError S unit;
  pg_allocate : PageType -> st PageError S Z;
  pg_free : Z -> st PageError S unit;
  pg_flush_all : st PageError S Z;
  pg_request_read_ahead : Z -> st PageError S unit;
  pg_root_page : S -> Z;
  pg_publish_root : Z -> Z -> st PageError S unit
}.
Arguments pg_get_mut {S _ A} _ _ _.
Arguments pg_open {S _ A} _ _ _.

(** [pg_models ps n s σ]: the pages of [σ] are in use and hold these contents,
    and [n] more can be allocated. *)
Class PagerLaws (S : Type) `{Pager S} := {
  pg_models : Z -> nat -> S -> gmap Z bytes -> Prop;
  pg_weaken_law ps n s σ : pg_models ps (1 + n) s σ -> pg_models ps n s σ;
  pg_size_law ps n s σ : pg_models ps n s σ -> pg_page_size s = ps;
  pg_get_law ps n s σ c p b : pg_models ps n s σ -> σ !! p = Some b ->
    exists b' s', pg_get c p s = (Val b', s') /\ same_page b' b /\ pg_models ps n s' σ;
  pg_get_mut_law ps n s σ p b : pg_models ps n s σ -> σ !! p = Some b ->
    exists b0, same_page b0 b /\ forall A (m : st PageError bytes A), readable ps (snd (m b0)) ->
      exists s', pg_get_mut p m s = (fst (m b0), s') /\ pg_models ps n s' (<[p := snd (m b0)]> σ);
  pg_allocate_law ps n s σ t : pg_models ps (1 + n) s σ -> t <> Superblock -> t <> Free ->
    exists p b s', pg_allocate t s = (Val p, s') /\ σ !! p = None /\ p <> 0 /\ is_u64 p /\ blen b = ps /\
      pg_models ps n s' (<[p := b]> σ);
  pg_flush_law ps n s σ : pg_models ps n s σ ->
    exists k s', pg_flush_all s = (Val k, s') /\ pg_models ps n s' σ;
  pg_read_ahead_law ps n s σ p : pg_models ps n s σ ->
    exists s', pg_request_read_ahead p s = (Val tt, s') /\ pg_models ps n s' σ
}.

(** A pager whose client may publish another root. *)
Class PagerPublishes (S : Type) `{PagerLaws S} := {
  pg_publish_law ps n s σ r l : pg_models ps n s σ -> is_u64 r -> is_u64 l ->
    exists s', pg_publish_root r l s = (Val tt, s') /\ pg_models ps n s' σ /\ pg_root_page s' = r
}.

Lemma typed_same t b b' : 72 <= blen b -> same_page b b' -> typed t b -> typed t b'.
Proof.
  intros Hb Hs (h & Hd & Ht). destruct (decode_same b b' Hb Hs ltac:(eauto)) as [h' Hd']. exists h'. split; [done|].
  rewrite decode_spec in Hd, Hd'. repeat split_if; try done. rewrite <- (same_sub b b' 6 1 Hs) in Hd' by lia.
  destruct (page_type_from_u8 _); [|done]. by injection Hd as <-; injection Hd' as <-.
Qed.

(** A pager whose client may free pages, while the published root stays where
    it is: every page in use but the root can be freed, once. *)
Class PagerFrees (S : Type) `{PagerLaws S} := {
  pg_fixed_root : Z;
  pg_fresh_law ps n s σ t p s' : pg_models ps (1 + n) s σ -> t <> Superblock -> t <> Free -> pg_allocate t s = (Val p, s') -> p <> pg_fixed_root;
  pg_free_law ps n s σ p b t : pg_models ps n s σ -> σ !! p = Some b -> typed t b -> t <> Free -> p <> pg_fixed_root ->
    exists s', pg_free p s = (Val tt, s') /\ pg_models ps n s' (delete p σ)
}.

(** A pager whose client may keep the write guard of a page it just allocated
    open over other calls.  Until it opens the page, and from then until it drops
    the guard, the pager obeys the same laws on the other pages. *)
Class PagerHolds (S : Type) `{PagerLaws S} := {
  pg_cold : Z -> PagerLaws S;
  pg_held : Z -> bytes -> PagerLaws S;
  pg_apart_law ps n s σ p b : pg_models (PagerLaws := pg_held p b) ps n s σ -> σ !! p = None;
  pg_allocate_cold_law ps n s σ t : pg_models ps (1 + n) s σ -> t <> Superblock -> t <> Free ->
    exists p s', pg_allocate t s = (Val p, s') /\ σ !! p = None /\ p <> 0 /\ is_u64 p /\ pg_models (PagerLaws := pg_cold p) ps n s' σ;
  pg_open_law ps n s σ p : pg_models (PagerLaws := pg_cold p) ps n s σ ->
    exists b0, blen b0 = ps /\ forall A (m : st PageError bytes A) a b, m b0 = (Val a, b) -> readable ps b ->
      exists s', pg_open p m s = (Val a, s') /\ pg_models (PagerLaws := pg_held p b) ps n s' σ;
  pg_close_law ps n s σ p b : pg_models (PagerLaws := pg_held p b) ps n s σ ->
    exists s', pg_close p s = (Val tt, s') /\ pg_models ps n s' (<[p := b]> σ)
}.

Lemma pg_weaken {S} `{PagerLaws S} ps m n s σ : (n <= m)%nat -> pg_models ps m s σ -> pg_models ps n s σ.
Proof. intros Hle. induction Hle as [|m Hle IH]; [done|]. intros M. apply IH. by apply pg_weaken_law. Qed.

(** ** Pages set apart

    A component that keeps pages of its own hands the rest of the pool to others.
    With the pages [τ] set apart, a pager is a pager of the remaining pages: the
    same operations obey the same laws, and none of them touches [τ]. *)

Section Framed.
Context {S : Type} {P : Pager S} {L : PagerLaws S} (τ : gmap Z bytes).

Definition framed (ps : Z) (n : nat) (s : S) (σ : gmap Z bytes) : Prop := τ ##ₘ σ /\ pg_models ps n s (τ ∪ σ).

Lemma framed_in σ p b : τ ##ₘ σ -> σ !! p = Some b -> (τ ∪ σ) !! p = Some b /\ τ !! p = None.
Proof. intros Hd Hp. split; [by apply lookup_union_Some_r|]. by eapply map_disjoint_Some_r. Qed.

Lemma framed_insert ps n s σ p b : τ ##ₘ σ -> τ !! p = None -> pg_models ps n s (<[p := b]> (τ ∪ σ)) -> framed ps n s (<[p := b]> σ).
Proof. intros Hd Hp M. split; [by apply map_disjoint_insert_r|]. by rewrite <- insert_union_r. Qed.

Definition framed_laws : PagerLaws S.
Proof.
  refine {| pg_models := framed |}.
  - intros ps n s σ [Hd M]. split; [done|by apply pg_weaken_law].
  - intros ps n s σ [_ M]. by eapply pg_size_law.
  - intros ps n s σ c p b [Hd M] Hp. destruct (framed_in σ p b Hd Hp) as [Hu _].
    destruct (pg_get_law ps n s _ c p b M Hu) as (b' & s' & E & Hs & M'). exists b', s'. by ands.
  - intros ps n s σ p b [Hd M] Hp. destruct (framed_in σ p b Hd Hp) as [Hu Ht].
    destruct (pg_get_mut_law ps n s _ p b M Hu) as (b0 & Hs & Hlaw). exists b0. split; [done|]. intros A m Hr.
    destruct (Hlaw A m Hr) as (s' & E & M'). exists s'. split; [done|]. by apply framed_insert.
  - intros ps n s σ t [Hd M] H1 H2. destruct (pg_allocate_law ps n s _ t M H1 H2) as (p & b & s' & E & Hp & H0 & Hu & Hl & M').
    apply lookup_union_None in Hp as [Hp1 Hp2]. exists p, b, s'. ands; try done. by apply framed_insert.
  - intros ps n s σ [Hd M]. destruct (pg_flush_law ps n s _ M) as (k & s' & E & M'). exists k, s'. by ands.
  - intros ps n s σ p [Hd M]. destruct (pg_read_ahead_law ps n s _ p M) as (s' & E & M'). exists s'. by ands.
Defined.

Definition framed_frees {F : PagerFrees S} : @PagerFrees S P framed_laws.
Proof.
  refine (@Build_PagerFrees S P framed_laws pg_fixed_root _ _).
  - intros ps n s σ t p s' [Hd M] H1 H2 E. by eapply pg_fresh_law.
  - intros ps n s σ p b t [Hd M] Hp Ht Hf Hr. destruct (framed_in σ p b Hd Hp) as [Hu Hn].
    destruct (pg_free_law ps n s _ p b t M Hu Ht Hf Hr) as (s' & E & M'). exists s'. split; [done|].
    split; [by apply map_disjoint_delete_r|]. by rewrite delete_union, delete_id in M' by done.
Defined.
End Framed.

Definition framed_holds {S} {P : Pager S} {L : PagerLaws S} {Ho : PagerHolds S} (τ : gmap Z bytes) : @PagerHolds S P (framed_laws τ).
Proof.
  refine (@Build_PagerHolds S P (framed_laws τ) (fun p => @framed_laws S P (pg_cold p) τ)
    (fun p b => @framed_laws S P (pg_held p b) τ) _ _ _ _); cbn [pg_models framed_laws].
  - intros ps n s σ p b [Hd M]. apply pg_apart_law in M. by apply lookup_union_None in M as [_ ?].
  - intros ps n s σ t [Hd M] H1 H2. destruct (pg_allocate_cold_law ps n s _ t M H1 H2) as (p & s' & E & Hp & H0 & Hu & M').
    apply lookup_union_None in Hp as [_ Hp]. exists p, s'. by ands.
  - intros ps n s σ p [Hd M]. destruct (pg_open_law ps n s _ p M) as (b0 & Hl & Hm). exists b0. split; [done|]. intros A m a b Em Hr.
    destruct (Hm A m a b Em Hr) as (s' & E & M'). exists s'. by ands.
  - intros ps n s σ p b [Hd M]. pose proof (pg_apart_law _ _ _ _ _ _ M) as [Hn _]%lookup_union_None.
    destruct (pg_close_law ps n s _ p b M) as (s' & E & M'). exists s'. split; [done|]. by apply framed_insert.
Defined.

(** ** States that set pages apart *)

Section Opened.
Context {S : Type} {P : Pager S} {L : PagerLaws S} (R : Z -> nat -> S -> gmap Z bytes -> Prop).

(** In every state of [R] some pages can be set apart so that [R] holds again
    after any use of the others. *)
Definition opens : Prop := forall ps n s σ, R ps n s σ ->
  exists τ, framed τ ps n s σ /\ forall n' s' σ', framed τ ps n' s' σ' -> R ps n' s' σ'.

Hypothesis Hopen : opens.

Definition opened_laws : PagerLaws S.
Proof.
  refine {| pg_models := R |}; intros ps n s σ; intros; match goal with H : R _ _ _ _ |- _ => destruct (Hopen _ _ _ _ H) as (τ & Fr & Hc) end.
  - apply Hc. by apply (pg_weaken_law (PagerLaws := framed_laws τ)).
  - by apply (pg_size_law (PagerLaws := framed_laws τ) ps n s σ).
  - destruct (pg_get_law (PagerLaws := framed_laws τ) ps n s σ c p b) as (b' & s' & E & Hs & M); [done..|]. exists b', s'. ands; auto.
  - destruct (pg_get_mut_law (PagerLaws := framed_laws τ) ps n s σ p b) as (b0 & Hs & Hl); [done..|]. exists b0. split; [done|].
    intros A m Hr. destruct (Hl A m Hr) as (s' & E & M). exists s'. split; [done|]. by apply Hc.
  - destruct (pg_allocate_law (PagerLaws := framed_laws τ) ps n s σ t) as (p & b & s' & E & H4 & H5 & H6 & H7 & M); [done..|].
    exists p, b, s'. ands; try done. by apply Hc.
  - destruct (pg_flush_law (PagerLaws := framed_laws τ) ps n s σ) as (k & s' & E & M); [done|]. exists k, s'. split; [done|]. by apply Hc.
  - destruct (pg_read_ahead_law (PagerLaws := framed_laws τ) ps n s σ p) as (s' & E & M); [done|]. exists s'. split; [done|]. by apply Hc.
Defined.

Definition opened_frees {F : PagerFrees S} : @PagerFrees S P opened_laws.
Proof.
  refine (@Build_PagerFrees S P opened_laws pg_fixed_root _ _); cbn [pg_models opened_laws].
  - intros ps n s σ t p s' HR H1 H2 E. destruct (Hopen _ _ _ _ HR) as (τ & Fr & Hc).
    by apply (pg_fresh_law (PagerFrees := framed_frees τ) ps n s σ t p s').
  - intros ps n s σ p b t HR Hp Ht Hf Hr. destruct (Hopen _ _ _ _ HR) as (τ & Fr & Hc).
    destruct (pg_free_law (PagerFrees := framed_frees τ) ps n s σ p b t) as (s' & E & M); [done..|]. exists s'. split; [done|]. by apply Hc.
Defined.

(** While a guard is kept, the pages set apart stay where they are. *)
Definition kept (L' : PagerLaws S) (ps : Z) (n : nat) (s : S) (σ : gmap Z bytes) : Prop :=
  exists τ, framed (L := L') τ ps n s σ /\ forall n' s' σ', framed (L := L) τ ps n' s' σ' -> R ps n' s' σ'.
End Opened.

Lemma kept_opens {S} {P : Pager S} {L : PagerLaws S} R (L' : PagerLaws S) : opens (L := L') (kept (L := L) R L').
Proof. intros ps n s σ (τ & Fr & Hc). exists τ. split; [done|]. intros n' s' σ' Fr'. by exists τ. Qed.

Definition opened_holds {S} {P : Pager S} {L : PagerLaws S} {Ho : PagerHolds S} R (Hopen : opens R) : @PagerHolds S P (opened_laws R Hopen).
Proof.
  refine (@Build_PagerHolds S P (opened_laws R Hopen) (fun p => opened_laws (L := pg_cold p) _ (kept_opens R (pg_cold p)))
    (fun p b => opened_laws (L := pg_held p b) _ (kept_opens R (pg_held p b))) _ _ _ _); cbn [pg_models opened_laws].
  - intros ps n s σ p b (τ & Fr & _). by apply (pg_apart_law (PagerHolds := framed_holds τ) ps n s σ p b).
  - intros ps n s σ t HR H1 H2. destruct (Hopen _ _ _ _ HR) as (τ & Fr & Hc).
    destruct (pg_allocate_cold_law (PagerHolds := framed_holds τ) ps n s σ t Fr H1 H2) as (p & s' & E & Hp & H0 & Hu & M).
    exists p, s'. ands; try done. exists τ. split; [exact M|exact Hc].
  - intros ps n s σ p (τ & Fr & Hc). destruct (pg_open_law (PagerHolds := framed_holds τ) ps n s σ p Fr) as (b0 & Hl & Hm).
    exists b0. split; [done|]. intros A m a b Em Hr. destruct (Hm A m a b Em Hr) as (s' & E & M). exists s'. split; [done|]. exists τ. split; [exact M|exact Hc].
  - intros ps n s σ p b (τ & Fr & Hc). destruct (pg_close_law (PagerHolds := framed_holds τ) ps n s σ p b Fr) as (s' & E & M).
    exists s'. split; [done|]. by apply Hc.
Defined.
