(* ===== verification/Pool.v ===== *)
(** * The buffer pool

    Models [crates/bicdb-page/src/pool.rs]: the sharded frames with their four
    queues, admission by cache class, eviction with write-back behind the
    write-ahead barrier, guards, dirty tracking, bounded write-back, page frees
    and the read-ahead queue.  Every call runs to completion before the next:
    the locks serialise the shard's metadata in the source, and the off-lock
    load of a missing page is one step here.  Guards are explicit pins.  Free
    buffers are counted (their contents are never read), counters and latencies
    are left out, and the clock of the bounded steps is an argument.  The pool
    reads from the store it writes to ([BufferPool::new]). *)

(* @source crates/bicdb-page/src/pool.rs *)
From stdpp Require Import base tactics list numbers gmap sorting.
From Stdlib Require Import ZArith Lia.
From S2P Require Import Prelude Search Bytes Errors PageFormat PageStore Pager.
Local Open Scope Z_scope.
Local Open Scope bic_scope.

(** [Frame] (428-456). *)
Record Frame := mkFrame {
  fr_data : bytes;
  fr_pins : Z;
  fr_dirty : bool;
  fr_referenced : bool;
  fr_protected : bool;
  fr_streaming : bool;
  fr_metadata : bool;
  fr_dirtied_by : Z;
  fr_needs_log : bool;
  fr_prefetched : bool;
  fr_foreground_touched : bool
}.

Definition fr_set_data (b : bytes) (f : Frame) : Frame :=
  mkFrame b (fr_pins f) (fr_dirty f) (fr_referenced f) (fr_protected f) (fr_streaming f) (fr_metadata f)
    (fr_dirtied_by f) (fr_needs_log f) (fr_prefetched f) (fr_foreground_touched f).
Definition fr_set_pins (n : Z) (f : Frame) : Frame :=
  mkFrame (fr_data f) n (fr_dirty f) (fr_referenced f) (fr_protected f) (fr_streaming f) (fr_metadata f)
    (fr_dirtied_by f) (fr_needs_log f) (fr_prefetched f) (fr_foreground_touched f).
Definition fr_set_dirty (d nl : bool) (f : Frame) : Frame :=
  mkFrame (fr_data f) (fr_pins f) d (fr_referenced f) (fr_protected f) (fr_streaming f) (fr_metadata f)
    (fr_dirtied_by f) nl (fr_prefetched f) (fr_foreground_touched f).
Definition fr_set_referenced (r : bool) (f : Frame) : Frame :=
  mkFrame (fr_data f) (fr_pins f) (fr_dirty f) r (fr_protected f) (fr_streaming f) (fr_metadata f)
    (fr_dirtied_by f) (fr_needs_log f) (fr_prefetched f) (fr_foreground_touched f).
Definition fr_set_protected (p : bool) (f : Frame) : Frame :=
  mkFrame (fr_data f) (fr_pins f) (fr_dirty f) (fr_referenced f) p (fr_streaming f) (fr_metadata f)
    (fr_dirtied_by f) (fr_needs_log f) (fr_prefetched f) (fr_foreground_touched f).

(** [acquire_in_class] (1256-1269): what a hit stores in the frame. *)
Definition touch (transaction : Z) (f : Frame) : Frame :=
  mkFrame (fr_data f) ((fr_pins f + 1) mod U32) (fr_dirty f) true (fr_protected f) (fr_streaming f) (fr_metadata f)
    transaction (fr_needs_log f) false true.

(** [Shard] (564-585), without the in-flight loads. *)
Record Shard := mkShard {
  resident : gmap Z Frame;
  probationary : list Z;
  protected : list Z;
  streaming : list Z;
  metadata : list Z;
  free_frames : nat;
  protected_capacity : nat;
  streaming_capacity : nat;
  metadata_capacity : nat;
  capacity : nat
}.

Definition set_resident (r : gmap Z Frame) (sh : Shard) : Shard :=
  mkShard r (probationary sh) (protected sh) (streaming sh) (metadata sh) (free_frames sh) (protected_capacity sh)
    (streaming_capacity sh) (metadata_capacity sh) (capacity sh).
Definition set_probationary (q : list Z) (sh : Shard) : Shard :=
  mkShard (resident sh) q (protected sh) (streaming sh) (metadata sh) (free_frames sh) (protected_capacity sh)
    (streaming_capacity sh) (metadata_capacity sh) (capacity sh).
Definition set_protected (q : list Z) (sh : Shard) : Shard :=
  mkShard (resident sh) (probationary sh) q (streaming sh) (metadata sh) (free_frames sh) (protected_capacity sh)
    (streaming_capacity sh) (metadata_capacity sh) (capacity sh).
Definition set_streaming (q : list Z) (sh : Shard) : Shard :=
  mkShard (resident sh) (probationary sh) (protected sh) q (metadata sh) (free_frames sh) (protected_capacity sh)
    (streaming_capacity sh) (metadata_capacity sh) (capacity sh).
Definition set_metadata (q : list Z) (sh : Shard) : Shard :=
  mkShard (resident sh) (probationary sh) (protected sh) (streaming sh) q (free_frames sh) (protected_capacity sh)
    (streaming_capacity sh) (metadata_capacity sh) (capacity sh).
Definition set_free (n : nat) (sh : Shard) : Shard :=
  mkShard (resident sh) (probationary sh) (protected sh) (streaming sh) (metadata sh) n (protected_capacity sh)
    (streaming_capacity sh) (metadata_capacity sh) (capacity sh).

(** [remove_from] (2342-2346). *)
Fixpoint remove_from (p : Z) (queue : list Z) : list Z :=
  match queue with
  | [] => []
  | q :: queue' => if q =? p then queue' else q :: remove_from p queue'
  end.

(** [enforce_protected_capacity] (1626-1637). *)
Fixpoint demote (turns : nat) (sh : Shard) : Shard :=
  match turns with
  | O => sh
  | S turns' =>
      if (length (protected sh) <=? protected_capacity sh)%nat then sh
      else match protected sh with
           | [] => sh
           | demoted :: rest =>
               demote turns' (set_resident (alter (fr_set_protected false) demoted (resident sh))
                 (set_probationary (probationary sh ++ [demoted]) (set_protected rest sh)))
           end
  end.
Definition enforce_protected_capacity (sh : Shard) : Shard := demote (length (protected sh)) sh.

(** The queues of a shard, as the eviction loops use them. *)
Inductive Queue := QProbationary | QProtected | QStreaming | QMetadata.
Definition queue_of (q : Queue) (sh : Shard) : list Z :=
  match q with
  | QProbationary => probationary sh
  | QProtected => protected sh
  | QStreaming => streaming sh
  | QMetadata => metadata sh
  end.
Definition set_queue (q : Queue) (l : list Z) (sh : Shard) : Shard :=
  match q with
  | QProbationary => set_probationary l sh
  | QProtected => set_protected l sh
  | QStreaming => set_streaming l sh
  | QMetadata => set_metadata l sh
  end.

(** ** Read-ahead requests *)

(** [ReadAheadQueue] (588-596); the ordered map as a list, oldest first. *)
Record ReadAheadQueue := mkQueue {
  ra_pending : list (Z * Z);
  ra_queued : gmap Z Z;
  ra_next_sequence : Z;
  ra_capacity : nat
}.

(** [ReadAheadQueue::push] (607-625). *)
Definition ra_push (p : Z) (q : ReadAheadQueue) : ReadAheadQueue :=
  let q := if ra_next_sequence q =? u64_max
           then let ordered := imap (fun i e => (Z.of_nat i, snd e)) (ra_pending q) in
                mkQueue ordered (list_to_map ((fun e => (snd e, fst e)) <$> ordered)) (Z.of_nat (length ordered)) (ra_capacity q)
           else q in
  let sequence := ra_next_sequence q in
  mkQueue (ra_pending q ++ [(sequence, p)]) (<[p := sequence]> (ra_queued q)) (sat_add sequence 1) (ra_capacity q).

(** [ReadAheadQueue::pop_front] (627-632). *)
Definition ra_pop_front (q : ReadAheadQueue) : option (Z * ReadAheadQueue) :=
  match ra_pending q with
  | [] => None
  | (_, p) :: rest => Some (p, mkQueue rest (base.delete p (ra_queued q)) (ra_next_sequence q) (ra_capacity q))
  end.

(** [ReadAheadQueue::cancel] (634-640). *)
Definition ra_cancel (p : Z) (q : ReadAheadQueue) : option ReadAheadQueue :=
  match ra_queued q !! p with
  | None => None
  | Some sequence => Some (mkQueue (filter (fun e => fst e <> sequence) (ra_pending q)) (base.delete p (ra_queued q))
                             (ra_next_sequence q) (ra_capacity q))
  end.

(** ** Bounded steps *)

(** [MAX_READ_AHEAD_QUEUE_PAGES] (162-162). *)
Definition MAX_READ_AHEAD_QUEUE_PAGES : Z := 65536.
(** [MAX_READ_AHEAD_CANDIDATES_PER_STEP] (163-163). *)
Definition MAX_READ_AHEAD_CANDIDATES_PER_STEP : Z := 8192.
(** [MAX_READ_AHEAD_IO_BYTES_PER_STEP] (164-164). *)
Definition MAX_READ_AHEAD_IO_BYTES_PER_STEP : Z := 128 * 1024 * 1024.
(** [MAX_READ_AHEAD_DURATION_MILLIS_PER_STEP] (165-165). *)
Definition MAX_READ_AHEAD_DURATION_MILLIS_PER_STEP : Z := 60000.
(** [MAX_WRITEBACK_PAGES_PER_STEP] (286-286). *)
Definition MAX_WRITEBACK_PAGES_PER_STEP : Z := 8192.
(** [MAX_WRITEBACK_IO_BYTES_PER_STEP] (287-287). *)
Definition MAX_WRITEBACK_IO_BYTES_PER_STEP : Z := 128 * 1024 * 1024.
(** [MAX_WRITEBACK_DURATION_MILLIS_PER_STEP] (288-288). *)
Definition MAX_WRITEBACK_DURATION_MILLIS_PER_STEP : Z := 60000.

(** [WritebackLimits] (300-306); [ReadAheadLimits] has the same fields. *)
Record StepLimits := mkLimits { max_candidates : Z; max_io_bytes : Z; max_duration_millis : Z }.

(** [ReadAheadLimits::validate] (190-207). *)
Definition read_ahead_limits_validate (l : StepLimits) (page_size : Z) : pres unit :=
  let! _ := validate_page_size page_size in
  if (max_candidates l =? 0) || (MAX_READ_AHEAD_CANDIDATES_PER_STEP <? max_candidates l)
     || (max_io_bytes l <? page_size) || (MAX_READ_AHEAD_IO_BYTES_PER_STEP <? max_io_bytes l)
     || (max_duration_millis l =? 0) || (MAX_READ_AHEAD_DURATION_MILLIS_PER_STEP <? max_duration_millis l)
  then Err InvalidMaintenanceLimits
  else Val tt.

(** [WritebackLimits::validate] (319-340). *)
Definition writeback_limits_validate (l : StepLimits) (page_size : Z) : pres unit :=
  let! _ := validate_page_size page_size in
  let io_per_page := page_size * 2 in
  if u64_max <? io_per_page then Err InvalidMaintenanceLimits
  else if (max_candidates l =? 0) || (MAX_WRITEBACK_PAGES_PER_STEP <? max_candidates l)
     || (max_io_bytes l <? io_per_page) || (MAX_WRITEBACK_IO_BYTES_PER_STEP <? max_io_bytes l)
     || (max_duration_millis l =? 0) || (MAX_WRITEBACK_DURATION_MILLIS_PER_STEP <? max_duration_millis l)
  then Err InvalidMaintenanceLimits
  else Val tt.

(** [WritebackStopReason] (345-350); [ReadAheadStopReason] has the same cases. *)
Inductive StopReason := Complete | CandidateLimit | IoLimit | DurationLimit.
#[export] Instance StopReason_eq_dec : EqDecision StopReason.
Proof. solve_decision. Defined.

(** [WritebackStepReport] (355-366). *)
Record WritebackStepReport := mkWriteback {
  wb_next_page : option Z;
  wb_candidates_examined : Z;
  wb_pages_written : Z;
  wb_page_bytes_written : Z;
  wb_logical_io_bytes : Z;
  wb_pinned_pages_skipped : Z;
  wb_stale_candidates_removed : Z;
  wb_dirty_pages_remaining : Z;
  wb_complete : bool;
  wb_stop_reason : StopReason
}.

(** [WritebackStepReport::validate] (369-408). *)
Definition writeback_report_validate (r : WritebackStepReport) (l : StepLimits) (page_size : Z) : pres unit :=
  let! _ := writeback_limits_validate l page_size in
  let page_bytes := wb_pages_written r * page_size in
  let logical_io_bytes := page_bytes * 2 in
  let classified := sat_add (sat_add (wb_pages_written r) (wb_pinned_pages_skipped r)) (wb_stale_candidates_removed r) in
  let terminal_agrees :=
    match wb_stop_reason r with
    | Complete => wb_complete r && bool_decide (wb_next_page r = None)
    | _ => negb (wb_complete r) && bool_decide (is_Some (wb_next_page r))
    end in
  if u64_max <? page_bytes then Err InvalidMaintenanceLimits
  else if u64_max <? logical_io_bytes then Err InvalidMaintenanceLimits
  else if (max_candidates l <? wb_candidates_examined r) || (wb_candidates_examined r <? wb_pages_written r)
     || (wb_candidates_examined r <? classified) || negb (wb_page_bytes_written r =? page_bytes)
     || negb (wb_logical_io_bytes r =? logical_io_bytes) || (max_io_bytes l <? wb_logical_io_bytes r)
     || negb terminal_agrees
  then Err InvalidMaintenanceLimits
  else Val tt.

(** [ReadAheadPageOutcome] (599-604). *)
Inductive ReadAheadPageOutcome := Loaded | AlreadyResident | AdmissionDeclined | ReadError.

(** [ReadAheadSubmitReport] (223-235). *)
Record ReadAheadSubmitReport := mkSubmit {
  rs_requested : Z;
  rs_enqueued : Z;
  rs_already_resident : Z;
  rs_already_queued : Z;
  rs_out_of_bounds : Z;
  rs_queue_full : Z;
  rs_queue_depth : Z;
  rs_undriven : Z
}.

(** [ReadAheadStepReport] (240-250). *)
Record ReadAheadStepReport := mkReadAhead {
  rr_candidates_examined : Z;
  rr_pages_loaded : Z;
  rr_already_resident : Z;
  rr_admission_declines : Z;
  rr_read_errors : Z;
  rr_logical_io_bytes : Z;
  rr_queue_depth_remaining : Z;
  rr_complete : bool;
  rr_stop_reason : StopReason
}.

(** [ReadAheadStepReport::validate] (253-283). *)
Definition read_ahead_report_validate (r : ReadAheadStepReport) (l : StepLimits) (page_size : Z) : pres unit :=
  let! _ := read_ahead_limits_validate l page_size in
  let attempted_reads := sat_add (rr_pages_loaded r) (rr_read_errors r) in
  let logical_io_bytes := attempted_reads * page_size in
  let classified := sat_add (sat_add attempted_reads (rr_already_resident r)) (rr_admission_declines r) in
  let terminal_agrees :=
    match rr_stop_reason r with
    | Complete => rr_complete r && (rr_queue_depth_remaining r =? 0)
    | _ => negb (rr_complete r) && negb (rr_queue_depth_remaining r =? 0)
    end in
  if u64_max <? logical_io_bytes then Err InvalidMaintenanceLimits
  else if (max_candidates l <? rr_candidates_examined r) || negb (classified =? rr_candidates_examined r)
     || negb (rr_logical_io_bytes r =? logical_io_bytes) || (max_io_bytes l <? rr_logical_io_bytes r)
     || negb terminal_agrees
  then Err InvalidMaintenanceLimits
  else Val tt.

(** ** The pool *)

(** [BufferPool] (767-807); [B] is the state behind the write-back barrier. *)
Record BufferPool (B : Type) := mkPool {
  bp_store : PageStore;
  bp_read_only : bool;
  bp_shards : list Shard;
  bp_barrier : option B;
  bp_dirty_index : gset Z;
  bp_current_transaction : Z;
  bp_wal_managed_frees : bool;
  bp_pending_frees : gmap Z (list Z);
  bp_read_ahead : ReadAheadQueue;
  bp_read_ahead_drivers : Z;
  bp_read_ahead_pending_pages : Z;
  bp_read_ahead_saturated : bool
}.
Arguments mkPool {B}.
Arguments bp_store {B}.
Arguments bp_read_only {B}.
Arguments bp_shards {B}.
Arguments bp_barrier {B}.
Arguments bp_dirty_index {B}.
Arguments bp_current_transaction {B}.
Arguments bp_wal_managed_frees {B}.
Arguments bp_pending_frees {B}.
Arguments bp_read_ahead {B}.
Arguments bp_read_ahead_drivers {B}.
Arguments bp_read_ahead_pending_pages {B}.
Arguments bp_read_ahead_saturated {B}.

Section Pool.
Context {B : Type}.
(** [WritebackBarrier::before_writeback], the owner's write-ahead step. *)
Variable before_writeback : Z -> Z -> bytes -> st PageError B unit.
Variable crc32 : bytes -> Z.
(** The order in which a hash map yields its entries. *)
Variable hash_order : gmap Z Frame -> list Z.

Abbreviation Pool := (BufferPool B).
Abbreviation bst := (st PageError Pool).

Definition with_store (s : PageStore) (x : Pool) : Pool :=
  mkPool s (bp_read_only x) (bp_shards x) (bp_barrier x) (bp_dirty_index x) (bp_current_transaction x)
    (bp_wal_managed_frees x) (bp_pending_frees x) (bp_read_ahead x) (bp_read_ahead_drivers x)
    (bp_read_ahead_pending_pages x) (bp_read_ahead_saturated x).
Definition with_shards (l : list Shard) (x : Pool) : Pool :=
  mkPool (bp_store x) (bp_read_only x) l (bp_barrier x) (bp_dirty_index x) (bp_current_transaction x)
    (bp_wal_managed_frees x) (bp_pending_frees x) (bp_read_ahead x) (bp_read_ahead_drivers x)
    (bp_read_ahead_pending_pages x) (bp_read_ahead_saturated x).
Definition with_barrier (b : option B) (x : Pool) : Pool :=
  mkPool (bp_store x) (bp_read_only x) (bp_shards x) b (bp_dirty_index x) (bp_current_transaction x)
    (bp_wal_managed_frees x) (bp_pending_frees x) (bp_read_ahead x) (bp_read_ahead_drivers x)
    (bp_read_ahead_pending_pages x) (bp_read_ahead_saturated x).
Definition with_index (d : gset Z) (x : Pool) : Pool :=
  mkPool (bp_store x) (bp_read_only x) (bp_shards x) (bp_barrier x) d (bp_current_transaction x)
    (bp_wal_managed_frees x) (bp_pending_frees x) (bp_read_ahead x) (bp_read_ahead_drivers x)
    (bp_read_ahead_pending_pages x) (bp_read_ahead_saturated x).
Definition with_pending (m : gmap Z (list Z)) (x : Pool) : Pool :=
  mkPool (bp_store x) (bp_read_only x) (bp_shards x) (bp_barrier x) (bp_dirty_index x) (bp_current_transaction x)
    (bp_wal_managed_frees x) m (bp_read_ahead x) (bp_read_ahead_drivers x)
    (bp_read_ahead_pending_pages x) (bp_read_ahead_saturated x).
Definition with_queue (q : ReadAheadQueue) (sat : bool) (x : Pool) : Pool :=
  mkPool (bp_store x) (bp_read_only x) (bp_shards x) (bp_barrier x) (bp_dirty_index x) (bp_current_transaction x)
    (bp_wal_managed_frees x) (bp_pending_frees x) q (bp_read_ahead_drivers x) (Z.of_nat (length (ra_pending q))) sat.
Definition with_saturated (sat : bool) (x : Pool) : Pool :=
  mkPool (bp_store x) (bp_read_only x) (bp_shards x) (bp_barrier x) (bp_dirty_index x) (bp_current_transaction x)
    (bp_wal_managed_frees x) (bp_pending_frees x) (bp_read_ahead x) (bp_read_ahead_drivers x)
    (bp_read_ahead_pending_pages x) sat.
Definition with_modes (transaction : Z) (managed : bool) (drivers : Z) (x : Pool) : Pool :=
  mkPool (bp_store x) (bp_read_only x) (bp_shards x) (bp_barrier x) (bp_dirty_index x) transaction
    managed (bp_pending_frees x) (bp_read_ahead x) drivers (bp_read_ahead_pending_pages x) (bp_read_ahead_saturated x).

(** [self.store.m()]. *)
Definition on_store {A} (m : st PageError PageStore A) : bst A :=
  fun x => let '(r, s) := m (bp_store x) in (r, with_store s x).

(** [shard_for] (1071-1076). *)
Definition shard_for (x : Pool) (p : Z) : nat :=
  let mixed := (p * 11400714819323198485) mod U64 in
  Z.to_nat (Z.shiftr mixed 32 mod Z.of_nat (length (bp_shards x))).

(** The shard at an index; [shard_for] is in range when there is one. *)
Definition shard (i : nat) : bst Shard :=
  fun x => match bp_shards x !! i with Some sh => (Val sh, x) | None => (Panic, x) end.
Definition mod_shard (i : nat) (f : Shard -> Shard) : bst unit :=
  modify (fun x => with_shards (alter f i (bp_shards x)) x).
Definition mod_frame (i : nat) (p : Z) (f : Frame -> Frame) : bst unit :=
  mod_shard i (fun sh => set_resident (alter f p (resident sh)) sh).

(** [set_current_transaction] (972-975). *)
Definition set_current_transaction (transaction : Z) : bst unit :=
  modify (fun x => with_modes transaction (bp_wal_managed_frees x) (bp_read_ahead_drivers x) x).
(** [enable_wal_managed_frees] (977-979). *)
Definition enable_wal_managed_frees : bst unit :=
  modify (fun x => with_modes (bp_current_transaction x) true (bp_read_ahead_drivers x) x).
(** [register_read_ahead_driver] (957-959). *)
Definition register_read_ahead_driver : bst unit :=
  modify (fun x => with_modes (bp_current_transaction x) (bp_wal_managed_frees x) ((bp_read_ahead_drivers x + 1) mod U64) x).
(** [unregister_read_ahead_driver] (962-964). *)
Definition unregister_read_ahead_driver : bst unit :=
  modify (fun x => with_modes (bp_current_transaction x) (bp_wal_managed_frees x) ((bp_read_ahead_drivers x - 1) mod U64) x).
(** [set_barrier] (967-969). *)
Definition set_barrier (b : B) : bst unit := modify (with_barrier (Some b)).

(** [barrier_for] (992-998). *)
Definition barrier_for (p transaction : Z) (b : bytes) : bst unit :=
  fun x => match bp_barrier x with
           | None => (Val tt, x)
           | Some w => let '(r, w') := before_writeback p transaction b w in (r, with_barrier (Some w') x)
           end.

(** ** Write-back *)

(** The buffer [write_page] leaves behind, whether or not the write succeeds. *)
Definition stamped_buffer (s : PageStore) (p : Z) (b : bytes) : bytes :=
  let b := if (p =? SUPERBLOCK_PAGE_ID) && backup_format s
           then snd (copy_at PAGE_HEADER_BYTES (tracked_magic s) b : pres unit * bytes) else b in
  snd (finalize crc32 ((m_generation (meta s) + 1) mod U64) b).

(** [write_back_frame] (1653-1675). *)
Definition write_back_frame (i : nat) (p : Z) : bst bool :=
  do sh <- shard i ;;
  match resident sh !! p with
  | None => st_ret false
  | Some frame =>
      if negb (fr_dirty frame) then st_ret false
      else
        (if fr_needs_log frame then barrier_for p (fr_dirtied_by frame) (fr_data frame) else st_ret tt) ;;;
        do s <- gets bp_store ;;
        mod_frame i p (fr_set_data (stamped_buffer s p (fr_data frame))) ;;;
        on_store (write_page crc32 p (fr_data frame)) ;;;
        mod_frame i p (fr_set_dirty false false) ;;;
        modify (fun x => with_index (bp_dirty_index x ∖ {[p]}) x) ;;;
        st_ret true
  end.

(** [try_reclaim] (1583-1623): whether a buffer came free. *)
Definition try_reclaim (i : nat) (p : Z) : bst bool :=
  do sh <- shard i ;;
  match resident sh !! p with
  | None => st_ret false
  | Some frame =>
      if 0 <? fr_pins frame then st_ret false
      else
        (if fr_dirty frame then write_back_frame i p ;;; st_ret tt else st_ret tt) ;;;
        mod_shard i (fun sh => set_resident (base.delete p (resident sh)) sh) ;;;
        st_ret true
  end.

(** ** Eviction *)

Definition pop_front (i : nat) (q : Queue) : bst (option Z) :=
  do sh <- shard i ;;
  match queue_of q sh with
  | [] => st_ret None
  | p :: rest => mod_shard i (set_queue q rest) ;;; st_ret (Some p)
  end.
Definition push_back (i : nat) (q : Queue) (p : Z) : bst unit :=
  mod_shard i (fun sh => set_queue q (queue_of q sh ++ [p]) sh).

(** [evict_from_probationary] (1540-1552), [evict_from_streaming] (1499-1516)
    and [evict_from_metadata] (1470-1481). *)
Fixpoint evict_turns (turns : nat) (i : nat) (q : Queue) : bst bool :=
  match turns with
  | O => st_ret false
  | S turns' =>
      do candidate <- pop_front i q ;;
      match candidate with
      | None => st_ret false
      | Some p =>
          do reclaimed <- try_reclaim i p ;;
          if reclaimed : bool then st_ret true
          else push_back i q p ;;; evict_turns turns' i q
      end
  end.
(** [evict_from_probationary] (1540-1552), [evict_from_streaming] (1499-1516)
    and [evict_from_metadata] (1470-1481). *)
Definition evict_from (i : nat) (q : Queue) : bst bool :=
  do sh <- shard i ;; evict_turns (length (queue_of q sh)) i q.

(** [evict_from_protected] (1554-1579). *)
Fixpoint clock_turns (turns : nat) (i : nat) : bst bool :=
  match turns with
  | O => st_ret false
  | S turns' =>
      do candidate <- pop_front i QProtected ;;
      match candidate with
      | None => st_ret false
      | Some p =>
          do sh <- shard i ;;
          match resident sh !! p with
          | None => clock_turns turns' i
          | Some frame =>
              if 0 <? fr_pins frame then push_back i QProtected p ;;; clock_turns turns' i
              else
                mod_frame i p (fr_set_referenced false) ;;;
                if fr_referenced frame then push_back i QProtected p ;;; clock_turns turns' i
                else
                  do reclaimed <- try_reclaim i p ;;
                  if reclaimed : bool then st_ret true
                  else push_back i QProtected p ;;; clock_turns turns' i
          end
      end
  end.
(** [evict_from_protected] (1554-1579). *)
Definition evict_from_protected (i : nat) : bst bool :=
  do sh <- shard i ;; clock_turns (length (protected sh) * 2) i.

(** The sources tried in turn. *)
Fixpoint evict_in_turn (sources : list (bst bool)) (err : PageError) : bst unit :=
  match sources with
  | [] => st_fail err
  | m :: sources' => do found <- m ;; if found : bool then st_ret tt else evict_in_turn sources' err
  end.

(** [evict_one] (1384-1468). *)
Definition evict_one (i : nat) (wanted : Z) (class : CacheClass) : bst unit :=
  do sh <- shard i ;;
  evict_in_turn
    match class with
    | Metadata => [evict_from i QMetadata; evict_from i QProbationary; evict_from i QStreaming; evict_from_protected i]
    | Streaming => [evict_from i QStreaming; evict_from i QProbationary]
    | Search => [evict_from i QProbationary; evict_from_protected i; evict_from i QStreaming]
    end
    (PoolExhausted wanted (Z.of_nat (capacity sh))).

(** [enforce_streaming_capacity] (1519-1538) and [enforce_metadata_capacity]
    (1484-1497). *)
Fixpoint enforce_turns (turns : nat) (i : nat) (q : Queue) (limit : Shard -> nat) : bst unit :=
  match turns with
  | O => st_ret tt
  | S turns' =>
      do sh <- shard i ;;
      if (length (queue_of q sh) <=? limit sh)%nat then st_ret tt
      else
        do candidate <- pop_front i q ;;
        match candidate with
        | None => st_ret tt
        | Some p =>
            fun x => match try_reclaim i p x with
                     | (Val true, x') =>
                         (mod_shard i (fun sh => set_free (free_frames sh + 1) sh) ;;; enforce_turns turns' i q limit) x'
                     | (Panic, x') => (Panic, x')
                     | (_, x') => push_back i q p x'
                     end
        end
  end.
(** [enforce_streaming_capacity] (1519-1538) and [enforce_metadata_capacity]
    (1484-1497). *)
Definition enforce_capacity (i : nat) (q : Queue) (limit : Shard -> nat) : bst unit :=
  do sh <- shard i ;; enforce_turns (length (queue_of q sh)) i q limit.

(** ** Pinning pages *)

(** [acquire_in_class] (1241-1252): a foreground access overtakes a request. *)
Definition cancel_read_ahead (p : Z) : bst unit :=
  modify (fun x =>
    if bp_read_ahead_pending_pages x =? 0 then x
    else match ra_cancel p (bp_read_ahead x) with
         | Some q => with_queue q false x
         | None => x
         end).

(** [acquire_in_class] (1328-1344): the frame of a page just read. *)
Definition new_frame (b : bytes) (transaction : Z) (class : CacheClass) : Frame :=
  mkFrame b 1 false true false (bool_decide (class = Streaming)) (bool_decide (class = Metadata)) transaction false false true.

(** [acquire_in_class] (1346-1365): the queue the new page joins. *)
Definition admit_page (i : nat) (p : Z) (class : CacheClass) : bst unit :=
  match class with
  | Streaming => push_back i QStreaming p ;;; enforce_capacity i QStreaming streaming_capacity
  | Metadata =>
      do sh <- shard i ;;
      if (metadata_capacity sh =? 0)%nat then
        mod_frame i p (fun f => mkFrame (fr_data f) (fr_pins f) (fr_dirty f) (fr_referenced f) (fr_protected f)
          (fr_streaming f) false (fr_dirtied_by f) (fr_needs_log f) (fr_prefetched f) (fr_foreground_touched f)) ;;;
        push_back i QProbationary p
      else push_back i QMetadata p ;;; enforce_capacity i QMetadata metadata_capacity
  | Search => push_back i QProbationary p
  end.

(** [acquire_in_class] (1237-1381). *)
Definition acquire_in_class (p : Z) (class : CacheClass) : bst unit :=
  cancel_read_ahead p ;;;
  do i <- gets (fun x => shard_for x p) ;;
  do sh <- shard i ;;
  do transaction <- gets bp_current_transaction ;;
  match resident sh !! p with
  | Some frame =>
      let promoted := fr_foreground_touched frame && negb (fr_metadata frame) && negb (fr_streaming frame)
                      && negb (fr_protected frame) in
      mod_frame i p (fun f => let f := touch transaction f in if promoted then fr_set_protected true f else f) ;;;
      if promoted then
        mod_shard i (fun sh => enforce_protected_capacity
          (set_protected (protected sh ++ [p]) (set_probationary (remove_from p (probationary sh)) sh)))
      else st_ret tt
  | None =>
      (match free_frames sh with
       | S n => mod_shard i (set_free n)
       | O => evict_one i p class
       end) ;;;
      do s <- gets bp_store ;;
      match read_page crc32 s p with
      | Val (_, b) =>
          mod_shard i (fun sh => set_resident (<[p := new_frame b transaction class]> (resident sh)) sh) ;;;
          admit_page i p class
      | Err e => mod_shard i (fun sh => set_free (free_frames sh + 1) sh) ;;; st_fail e
      | Panic => st_panic
      end
  end.

(** The bytes a guard for the pinned page shows. *)
Definition guard_bytes (p : Z) : bst bytes :=
  fun x => match bp_shards x !! shard_for x p ≫= fun sh => resident sh !! p with
           | Some f => (Val (fr_data f), x)
           | None => (Panic, x)
           end.

(** [PageGuard::drop] (487-489). *)
Definition drop_guard (p : Z) : bst unit :=
  do i <- gets (fun x => shard_for x p) ;;
  mod_frame i p (fun f => fr_set_pins ((fr_pins f - 1) mod U32) f).

(** [PageGuardMut::drop] (535-549). *)
Definition drop_guard_mut (p : Z) : bst unit :=
  do i <- gets (fun x => shard_for x p) ;;
  mod_frame i p (fr_set_dirty true true) ;;;
  modify (fun x => with_index (bp_dirty_index x ∪ {[p]}) x) ;;;
  mod_frame i p (fun f => fr_set_pins ((fr_pins f - 1) mod U32) f).

(** [get_in_class] (1095-1108), the guard dropped after its bytes are read. *)
Definition get_in_class (p : Z) (class : CacheClass) : bst bytes :=
  acquire_in_class p class ;;;
  do b <- guard_bytes p ;;
  drop_guard p ;;;
  st_ret b.

(** [get_mut] (1111-1133): the changes [m] makes through the guard are kept
    whatever its outcome, and the guard is dropped on every path. *)
Definition get_mut {A} (p : Z) (m : st PageError bytes A) : bst A :=
  do ro <- gets bp_read_only ;;
  if ro : bool then st_fail (ReadOnlyPageSource p)
  else
    acquire_in_class p Search ;;;
    do b <- guard_bytes p ;;
    do i <- gets (fun x => shard_for x p) ;;
    let '(r, b') := m b in
    mod_frame i p (fr_set_data b') ;;;
    drop_guard_mut p ;;;
    st_lift r.

(** [get_mut] (1111-1133), for a caller that keeps the guard: it is dropped here
    only when [m] fails, and by [drop_guard_mut] otherwise. *)
Definition open_mut {A} (p : Z) (m : st PageError bytes A) : bst A :=
  do ro <- gets bp_read_only ;;
  if ro : bool then st_fail (ReadOnlyPageSource p)
  else
    acquire_in_class p Search ;;;
    do b <- guard_bytes p ;;
    do i <- gets (fun x => shard_for x p) ;;
    let '(r, b') := m b in
    mod_frame i p (fr_set_data b') ;;;
    match r with
    | Val a => st_ret a
    | _ => drop_guard_mut p ;;; st_lift r
    end.

(** [warm] (2158-2164). *)
Definition warm (p : Z) : bst bool :=
  fun x => match get_in_class p Search x with
           | (Val _, x') => (Val true, x')
           | (Err (PoolExhausted _ _), x') => (Val false, x')
           | (Err e, x') => (Err e, x')
           | (Panic, x') => (Panic, x')
           end.

(** [is_resident] (2209-2213). *)
Definition is_resident (x : Pool) (p : Z) : bool :=
  bool_decide (is_Some (bp_shards x !! shard_for x p ≫= fun sh => resident sh !! p)).

(** ** Freeing pages *)

(** [free_page_immediate] (1145-1184). *)
Definition free_page_immediate (p : Z) : bst unit :=
  do ro <- gets bp_read_only ;;
  if ro : bool then st_fail (ReadOnlyPageSource p)
  else
    cancel_read_ahead p ;;;
    do i <- gets (fun x => shard_for x p) ;;
    do sh <- shard i ;;
    match resident sh !! p with
    | None => on_store (free crc32 p)
    | Some frame =>
        if negb (fr_pins frame =? 0) then st_fail (EvictedWhilePinned p (fr_pins frame))
        else
          on_store (free crc32 p) ;;;
          modify (fun x => with_index (bp_dirty_index x ∖ {[p]}) x) ;;;
          mod_shard i (fun sh =>
            set_free (free_frames sh + 1)
              (set_resident (base.delete p (resident sh))
                (set_protected (remove_from p (protected sh))
                  (set_probationary (remove_from p (probationary sh)) sh))))
    end.

(** [free_page_for_transaction] (1187-1230). *)
Definition free_page_for_transaction (p transaction : Z) : bst unit :=
  do x <- gets id ;;
  let s := bp_store x in
  if bp_read_only x then st_fail (ReadOnlyPageSource p)
  else if (p =? SUPERBLOCK_PAGE_ID) || (p =? root_page (meta s)) then st_fail (CannotFreeRootPage p)
  else if page_count (meta s) <=? p then st_fail (OutOfBounds p (page_count (meta s)))
  else if bool_decide (Exists (fun ps => p ∈ snd ps) (map_to_list (bp_pending_frees x))) then st_fail (PageAlreadyFree p)
  else
    get_mut p (
      do existing <- reads decode ;;
      if bool_decide (page_type existing = Free) then st_fail (PageAlreadyFree p)
      else
        modify (fun b => zeros (blen b)) ;;;
        encode (with_generation (new_header p Free (page_size s)) (sat_add (generation existing) 1))) ;;;
    modify (fun x => with_pending
      (<[transaction := default [] (bp_pending_frees x !! transaction) ++ [p]]> (bp_pending_frees x)) x).

(** [free_page] (1137-1143). *)
Definition free_page (p : Z) : bst unit :=
  do x <- gets id ;;
  if bp_wal_managed_frees x then free_page_for_transaction p (bp_current_transaction x) else free_page_immediate p.

(** [take_pending_frees] (984-989). *)
Definition take_pending_frees (transaction : Z) : bst (list Z) :=
  do l <- gets (fun x => default [] (bp_pending_frees x !! transaction)) ;;
  modify (fun x => with_pending (base.delete transaction (bp_pending_frees x)) x) ;;;
  st_ret l.

(** ** Flushing *)

(** [flush_all] (1695-1699): the frames of one shard that were dirty. *)
Fixpoint flush_frames (i : nat) (ps : list Z) : bst Z :=
  match ps with
  | [] => st_ret 0
  | p :: ps' =>
      do written <- write_back_frame i p ;;
      do rest <- flush_frames i ps' ;;
      st_ret ((if written : bool then 1 else 0) + rest)
  end.
(** [flush_all] (1686-1694): the dirty frames of a shard. *)
Definition dirty_frames (sh : Shard) : list Z :=
  filter (fun p => fr_dirty <$> resident sh !! p = Some true) (hash_order (resident sh)).
(** [flush_all] (1680-1700): shard after shard. *)
Fixpoint flush_shards (is_ : list nat) : bst Z :=
  match is_ with
  | [] => st_ret 0
  | i :: is' =>
      do sh <- shard i ;;
      do n <- flush_frames i (dirty_frames sh) ;;
      do rest <- flush_shards is' ;;
      st_ret (n + rest)
  end.
(** [flush_all] (1678-1703). *)
Definition flush_all : bst Z :=
  do n <- gets (fun x => length (bp_shards x)) ;;
  do flushed <- flush_shards (seq 0 n) ;;
  on_store (flush crc32) ;;;
  st_ret flushed.

(** [dirty_page_count] (1850-1852). *)
Definition dirty_page_count (x : Pool) : Z := Z.of_nat (size (bp_dirty_index x)).

(** [dirty_page_ids] (2170-2182). *)
Definition dirty_page_ids (x : Pool) : list Z := sort_by Z.leb (bp_shards x ≫= dirty_frames).

(** [take_pages_needing_log] (2193-2205). *)
Definition take_pages_needing_log : bst (list Z) :=
  do x <- gets id ;;
  let need sh := filter (fun p => fr_needs_log <$> resident sh !! p = Some true) (hash_order (resident sh)) in
  modify (fun x => with_shards ((fun sh => set_resident ((fun f => fr_set_dirty (fr_dirty f) false f) <$> resident sh) sh)
                                  <$> bp_shards x) x) ;;;
  st_ret (sort_by Z.leb (bp_shards x ≫= need)).

(** ** Bounded write-back *)

(** The report's counters (1763, 1774-1802). *)
Definition wb_wrote (ps : Z) (r : WritebackStepReport) : WritebackStepReport :=
  mkWriteback (wb_next_page r) (wb_candidates_examined r) (sat_add (wb_pages_written r) 1)
    (sat_add (wb_page_bytes_written r) ps) (sat_add (wb_logical_io_bytes r) (ps * 2)) (wb_pinned_pages_skipped r)
    (wb_stale_candidates_removed r) (wb_dirty_pages_remaining r) (wb_complete r) (wb_stop_reason r).
Definition wb_stale (r : WritebackStepReport) : WritebackStepReport :=
  mkWriteback (wb_next_page r) (wb_candidates_examined r) (wb_pages_written r) (wb_page_bytes_written r)
    (wb_logical_io_bytes r) (wb_pinned_pages_skipped r) (sat_add (wb_stale_candidates_removed r) 1)
    (wb_dirty_pages_remaining r) (wb_complete r) (wb_stop_reason r).
Definition wb_pinned (r : WritebackStepReport) : WritebackStepReport :=
  mkWriteback (wb_next_page r) (wb_candidates_examined r) (wb_pages_written r) (wb_page_bytes_written r)
    (wb_logical_io_bytes r) (sat_add (wb_pinned_pages_skipped r) 1) (wb_stale_candidates_removed r)
    (wb_dirty_pages_remaining r) (wb_complete r) (wb_stop_reason r).
Definition wb_examine (r : WritebackStepReport) : WritebackStepReport :=
  mkWriteback (wb_next_page r) (sat_add (wb_candidates_examined r) 1) (wb_pages_written r) (wb_page_bytes_written r)
    (wb_logical_io_bytes r) (wb_pinned_pages_skipped r) (wb_stale_candidates_removed r)
    (wb_dirty_pages_remaining r) (wb_complete r) (wb_stop_reason r).
Definition wb_stop (next : option Z) (remaining : Z) (complete : bool) (why : StopReason) (r : WritebackStepReport)
    : WritebackStepReport :=
  mkWriteback next (wb_candidates_examined r) (wb_pages_written r) (wb_page_bytes_written r)
    (wb_logical_io_bytes r) (wb_pinned_pages_skipped r) (wb_stale_candidates_removed r) remaining complete why.

Definition wb_start : WritebackStepReport := mkWriteback None 0 0 0 0 0 0 0 false Complete.

Definition unindex (p : Z) : bst unit := modify (fun x => with_index (bp_dirty_index x ∖ {[p]}) x).

(** [writeback_step] (1764-1803): one candidate. *)
Definition writeback_candidate (p : Z) (r : WritebackStepReport) : bst WritebackStepReport :=
  do i <- gets (fun x => shard_for x p) ;;
  do sh <- shard i ;;
  do ps <- gets (fun x => page_size (bp_store x)) ;;
  match resident sh !! p with
  | None => unindex p ;;; st_ret (wb_stale r)
  | Some frame =>
      if negb (fr_dirty frame) then unindex p ;;; st_ret (wb_stale r)
      else if negb (fr_pins frame =? 0) then st_ret (wb_pinned r)
      else
        do written <- write_back_frame i p ;;
        st_ret (if written : bool then wb_wrote ps r else wb_stale r)
  end.

(** [writeback_step] (1755-1803); [late n] is whether the deadline has passed
    when [n] candidates have been examined. *)
Fixpoint writeback_loop (late : Z -> bool) (candidates : list Z) (r : WritebackStepReport) : bst WritebackStepReport :=
  match candidates with
  | [] => st_ret r
  | p :: candidates' =>
      if negb (wb_candidates_examined r =? 0) && late (wb_candidates_examined r)
      then st_ret (wb_stop (Some p) (wb_dirty_pages_remaining r) (wb_complete r) DurationLimit r)
      else
        do r <- writeback_candidate p (wb_examine r) ;;
        writeback_loop late candidates' r
  end.

(** [writeback_step] (1717-1843). *)
Definition writeback_step (late : Z -> bool) (cursor : option Z) (limits : StepLimits) : bst WritebackStepReport :=
  do ps <- gets (fun x => page_size (bp_store x)) ;;
  st_lift (writeback_limits_validate limits ps) ;;;
  do dirty <- gets (fun x => sort_by Z.leb (elements (bp_dirty_index x))) ;;
  let start_page := default 0 cursor in
  let io_candidates := max_io_bytes limits / (ps * 2) in
  let candidate_limit := Z.to_nat (Z.min (max_candidates limits) io_candidates) in
  let range := filter (fun p => start_page <= p) dirty in
  let candidates := take candidate_limit range in
  let following := head (drop candidate_limit range) in
  do r <- writeback_loop late candidates wb_start ;;
  (if negb (wb_pages_written r =? 0) then on_store sync else st_ret tt) ;;;
  do remaining <- gets dirty_page_count ;;
  let r := match wb_next_page r with
           | Some _ => wb_stop (wb_next_page r) remaining (wb_complete r) (wb_stop_reason r) r
           | None =>
               match following with
               | Some q => wb_stop (Some q) remaining (wb_complete r)
                             (if max_candidates limits <=? io_candidates then CandidateLimit else IoLimit) r
               | None => wb_stop None remaining true Complete r
               end
           end in
  st_lift (writeback_report_validate r limits ps) ;;;
  st_ret r.

(** ** Read-ahead *)

Definition rs_start : ReadAheadSubmitReport := mkSubmit 0 0 0 0 0 0 0 0.

(** [request_read_ahead] (1897-1923): one request. *)
Definition request_one (p : Z) (r : ReadAheadSubmitReport) : bst ReadAheadSubmitReport :=
  do x <- gets id ;;
  let r := mkSubmit (sat_add (rs_requested r) 1) (rs_enqueued r) (rs_already_resident r) (rs_already_queued r)
             (rs_out_of_bounds r) (rs_queue_full r) (rs_queue_depth r) (rs_undriven r) in
  if (p =? 0) || (page_count (meta (bp_store x)) <=? p) then
    st_ret (mkSubmit (rs_requested r) (rs_enqueued r) (rs_already_resident r) (rs_already_queued r)
              (sat_add (rs_out_of_bounds r) 1) (rs_queue_full r) (rs_queue_depth r) (rs_undriven r))
  else if is_resident x p then
    st_ret (mkSubmit (rs_requested r) (rs_enqueued r) (sat_add (rs_already_resident r) 1) (rs_already_queued r)
              (rs_out_of_bounds r) (rs_queue_full r) (rs_queue_depth r) (rs_undriven r))
  else
    let q := bp_read_ahead x in
    if bool_decide (is_Some (ra_queued q !! p)) then
      st_ret (mkSubmit (rs_requested r) (rs_enqueued r) (rs_already_resident r) (sat_add (rs_already_queued r) 1)
                (rs_out_of_bounds r) (rs_queue_full r) (rs_queue_depth r) (rs_undriven r))
    else if (ra_capacity q <=? length (ra_pending q))%nat then
      modify (with_saturated true) ;;;
      st_ret (mkSubmit (rs_requested r) (rs_enqueued r) (rs_already_resident r) (rs_already_queued r)
                (rs_out_of_bounds r) (sat_add (rs_queue_full r) 1) (rs_queue_depth r) (rs_undriven r))
    else
      modify (with_queue (ra_push p q) (bp_read_ahead_saturated x)) ;;;
      st_ret (mkSubmit (rs_requested r) (sat_add (rs_enqueued r) 1) (rs_already_resident r) (rs_already_queued r)
                (rs_out_of_bounds r) (rs_queue_full r) (rs_queue_depth r) (rs_undriven r)).
(** [request_read_ahead] (1897-1923). *)
Fixpoint request_all (ps : list Z) (r : ReadAheadSubmitReport) : bst ReadAheadSubmitReport :=
  match ps with
  | [] => st_ret r
  | p :: ps' => do r <- request_one p r ;; request_all ps' r
  end.

(** [read_ahead_queue_depth] (1950-1952). *)
Definition read_ahead_queue_depth (x : Pool) : Z := Z.of_nat (length (ra_pending (bp_read_ahead x))).

(** [request_read_ahead] (1860-1946). *)
Definition request_read_ahead (ps : list Z) : bst ReadAheadSubmitReport :=
  do x <- gets id ;;
  let requested := Z.min u64_max (Z.of_nat (length ps)) in
  if bp_read_ahead_drivers x =? 0 then
    st_ret (mkSubmit requested 0 0 0 0 0 (bp_read_ahead_pending_pages x) requested)
  else if bp_read_ahead_saturated x then
    st_ret (mkSubmit requested 0 0 0 0 requested (bp_read_ahead_pending_pages x) 0)
  else
    do r <- request_all ps rs_start ;;
    do depth <- gets read_ahead_queue_depth ;;
    st_ret (mkSubmit (rs_requested r) (rs_enqueued r) (rs_already_resident r) (rs_already_queued r)
              (rs_out_of_bounds r) (rs_queue_full r) depth (rs_undriven r)).

(** [evict_clean_probationary_for_read_ahead] (2124-2150). *)
Fixpoint evict_clean_turns (turns : nat) (i : nat) : bst bool :=
  match turns with
  | O => st_ret false
  | S turns' =>
      do candidate <- pop_front i QProbationary ;;
      match candidate with
      | None => st_ret false
      | Some p =>
          do sh <- shard i ;;
          match resident sh !! p with
          | None => evict_clean_turns turns' i
          | Some frame =>
              if negb (fr_pins frame =? 0) || fr_dirty frame
              then push_back i QProbationary p ;;; evict_clean_turns turns' i
              else mod_shard i (fun sh => set_resident (base.delete p (resident sh)) sh) ;;; st_ret true
          end
      end
  end.
(** [evict_clean_probationary_for_read_ahead] (2124-2150). *)
Definition evict_clean_probationary_for_read_ahead (i : nat) : bst bool :=
  do sh <- shard i ;; evict_clean_turns (length (probationary sh)) i.

(** [prefetch_one] (2097-2113). *)
Definition prefetched_frame (b : bytes) : Frame := mkFrame b 0 false false false false false 0 false true false.

(** [prefetch_one] (2063-2120). *)
Definition prefetch_one (p : Z) : bst ReadAheadPageOutcome :=
  do i <- gets (fun x => shard_for x p) ;;
  do sh <- shard i ;;
  if bool_decide (is_Some (resident sh !! p)) then st_ret AlreadyResident
  else
    do found <- (match free_frames sh with
                 | S n => mod_shard i (set_free n) ;;; st_ret true
                 | O => evict_clean_probationary_for_read_ahead i
                 end) ;;
    if negb found then st_ret AdmissionDeclined
    else
      do s <- gets bp_store ;;
      match read_page crc32 s p with
      | Val (_, b) =>
          mod_shard i (fun sh => set_resident (<[p := prefetched_frame b]> (resident sh)) sh) ;;;
          push_back i QProbationary p ;;;
          st_ret Loaded
      | Err _ => mod_shard i (fun sh => set_free (free_frames sh + 1) sh) ;;; st_ret ReadError
      | Panic => st_panic
      end.

(** [read_ahead_step] (1994-2023): the outcome of one candidate. *)
Definition rr_count (ps : Z) (o : ReadAheadPageOutcome) (r : ReadAheadStepReport) : ReadAheadStepReport :=
  let '(loaded, resident_, declined, errors, io) :=
    match o with
    | Loaded => (1, 0, 0, 0, ps)
    | AlreadyResident => (0, 1, 0, 0, 0)
    | AdmissionDeclined => (0, 0, 1, 0, 0)
    | ReadError => (0, 0, 0, 1, ps)
    end in
  mkReadAhead (sat_add (rr_candidates_examined r) 1) (sat_add (rr_pages_loaded r) loaded)
    (sat_add (rr_already_resident r) resident_) (sat_add (rr_admission_declines r) declined)
    (sat_add (rr_read_errors r) errors) (sat_add (rr_logical_io_bytes r) io) (rr_queue_depth_remaining r)
    (rr_complete r) (rr_stop_reason r).
Definition rr_stop (remaining : Z) (complete : bool) (why : StopReason) (r : ReadAheadStepReport) : ReadAheadStepReport :=
  mkReadAhead (rr_candidates_examined r) (rr_pages_loaded r) (rr_already_resident r) (rr_admission_declines r)
    (rr_read_errors r) (rr_logical_io_bytes r) remaining complete why.
Definition rr_start : ReadAheadStepReport := mkReadAhead 0 0 0 0 0 0 0 false Complete.

(** [read_ahead_step] (1972-2024), with the turns the candidate limit leaves;
    also whether the queue was seen empty. *)
Fixpoint read_ahead_loop (late : Z -> bool) (turns : nat) (r : ReadAheadStepReport) : bst (ReadAheadStepReport * bool) :=
  match turns with
  | O => st_ret (r, false)
  | S turns' =>
      if negb (rr_candidates_examined r =? 0) && late (rr_candidates_examined r)
      then st_ret (rr_stop (rr_queue_depth_remaining r) (rr_complete r) DurationLimit r, false)
      else
        do q <- gets bp_read_ahead ;;
        match ra_pop_front q with
        | None => st_ret (r, true)
        | Some (p, q') =>
            modify (with_queue q' false) ;;;
            do ps <- gets (fun x => page_size (bp_store x)) ;;
            do o <- prefetch_one p ;;
            read_ahead_loop late turns' (rr_count ps o r)
        end
  end.

(** [read_ahead_step] (1961-2061). *)
Definition read_ahead_step (late : Z -> bool) (limits : StepLimits) : bst ReadAheadStepReport :=
  do ps <- gets (fun x => page_size (bp_store x)) ;;
  st_lift (read_ahead_limits_validate limits ps) ;;;
  let io_candidates := max_io_bytes limits / ps in
  do out <- read_ahead_loop late (Z.to_nat (Z.min (max_candidates limits) io_candidates)) rr_start ;;
  let '(r, observed_queue_empty) := out in
  do depth <- gets read_ahead_queue_depth ;;
  let remaining := if observed_queue_empty : bool then 0 else depth in
  let r :=
    if observed_queue_empty || (remaining =? 0) then rr_stop remaining true Complete r
    else if bool_decide (rr_stop_reason r = DurationLimit) then rr_stop remaining (rr_complete r) DurationLimit r
    else rr_stop remaining (rr_complete r) (if max_candidates limits <=? io_candidates then CandidateLimit else IoLimit) r in
  st_lift (read_ahead_report_validate r limits ps) ;;;
  st_ret r.

(** ** Construction *)

(** [Ord::clamp], for ordered bounds: those below are ordered, since every shard
    has a frame. *)
Definition clamp (lo hi n : nat) : nat := Nat.max lo (Nat.min hi n).
(** [new_inner] (875-919): the shares are the products of the capacity with the
    configured fractions, rounded down. *)
Definition new_shard (protected_share streaming_share metadata_share : nat -> nat) (cap : nat) : Shard :=
  let spare := if (1 <? cap)%nat then 1%nat else 0%nat in
  mkShard ∅ [] [] [] [] cap
    (clamp spare (cap - spare) (protected_share cap))
    (clamp spare (cap - 1) (streaming_share cap))
    (if (cap <? 8)%nat then 0%nat else clamp 1 (cap / 4) (metadata_share cap))
    cap.

(** [new] (810-813) and [new_inner] (826-951), reading from the store itself. *)
Definition new (protected_share streaming_share metadata_share : nat -> nat) (budget_bytes : Z) (shards : nat)
    (read_ahead_queue_pages : nat) (s : PageStore) : pres Pool :=
  if MAX_READ_AHEAD_QUEUE_PAGES <? Z.of_nat read_ahead_queue_pages then Err InvalidMaintenanceLimits
  else if page_count (meta s) =? 0 then Err (OutOfBounds 0 0)
  else
    let total_frames := Z.to_nat (budget_bytes / page_size s) in
    if (total_frames =? 0)%nat then Err (BudgetTooSmall budget_bytes (page_size s))
    else
      let shard_count := Nat.min (Nat.max shards 1) total_frames in
      let per_shard := (total_frames / shard_count)%nat in
      let remainder := (total_frames mod shard_count)%nat in
      let cap index := (per_shard + if (index <? remainder)%nat then 1 else 0)%nat in
      Val (mkPool s false ((fun i => new_shard protected_share streaming_share metadata_share (cap i)) <$> seq 0 shard_count)
             None ∅ 0 false ∅ (mkQueue [] ∅ 0 read_ahead_queue_pages) 0 0 false).
End Pool.
