(* ===== verification/PoolShard.v ===== *)
(** * Shards of the buffer pool

    The shape of one shard at rest and under admission: its four queues
    partition the resident pages, a page's flags agree with its queue, frames
    are neither created nor lost, and the bounded queues keep to their shares.
    Each lemma is one change the pool makes to a shard. *)

From stdpp Require Import base tactics list numbers gmap.
From Stdlib Require Import ZArith Lia.
From S2P Require Import Prelude Search Bytes Errors PageFormat PageStore Pager Pool.
Local Open Scope Z_scope.

Definition queues (sh : Shard) : list Z := probationary sh ++ protected sh ++ streaming sh ++ metadata sh.

(** What a frame's flags say about its queue. *)
Definition tagged (q : Queue) (f : Frame) : Prop :=
  match q with
  | QProbationary => True
  | QProtected => fr_protected f = true
  | QStreaming => fr_streaming f = true
  | QMetadata => fr_metadata f = true
  end.

(** A shard with [h] of its frames in the hands of an admission. *)
Record shard_ok (h : nat) (sh : Shard) : Prop := {
  so_queues : queues sh ≡ₚ (map_to_list (resident sh)).*1;
  so_tags : forall q p f, p ∈ queue_of q sh -> resident sh !! p = Some f -> tagged q f;
  so_frames : (free_frames sh + size (resident sh) + h = capacity sh)%nat;
  so_tiers : (protected_capacity sh + metadata_capacity sh < capacity sh)%nat
}.

(** The page [held], whose guard a client keeps open, is in none of the bounded
    queues, and the shard has a frame to spare for it. *)
Definition apart (held : option Z) (sh : Shard) : Prop :=
  forall h, held = Some h ->
    (S (protected_capacity sh + metadata_capacity sh) < capacity sh)%nat /\
    (h ∉ protected sh) /\ (h ∉ streaming sh) /\ (h ∉ metadata sh).

(** The bounded queues inside their shares; streaming keeps its last page. *)
Record shard_bounds (held : option Z) (sh : Shard) : Prop := {
  sb_protected : (length (protected sh) <= protected_capacity sh)%nat;
  sb_streaming : (length (streaming sh) <= Nat.max 1 (streaming_capacity sh))%nat;
  sb_metadata : (length (metadata sh) <= metadata_capacity sh)%nat;
  sb_apart : apart held sh
}.

Lemma apart_none sh : apart None sh.
Proof. by intros h [=]. Qed.

Lemma bounds_release held sh : shard_bounds held sh -> shard_bounds None sh.
Proof. intros [H1 H2 H3 _]. split; [done..|apply apart_none]. Qed.

Lemma queue_elem q p sh : p ∈ queue_of q sh -> p ∈ queues sh.
Proof. unfold queues. rewrite !elem_of_app. destruct q; cbn [queue_of]; tauto. Qed.

Lemma queues_resident h sh p : shard_ok h sh -> p ∈ queues sh <-> is_Some (resident sh !! p).
Proof.
  intros H. rewrite (so_queues _ _ H), list_elem_of_fmap. split.
  - intros ([p' f] & -> & Hp%elem_of_map_to_list). by exists f.
  - intros [f Hf]. exists (p, f). split; [done|]. by apply elem_of_map_to_list.
Qed.

Lemma queues_nodup h sh : shard_ok h sh -> NoDup (queues sh).
Proof. intros H. rewrite (so_queues _ _ H). apply NoDup_fst_map_to_list. Qed.

Lemma queues_size h sh : shard_ok h sh -> length (queues sh) = size (resident sh).
Proof. intros H. rewrite (so_queues _ _ H), length_fmap. apply length_map_to_list. Qed.

(** Changing one queue changes the list of queues at one place. *)
Lemma queues_split q sh : exists a b, forall l, queues (set_queue q l sh) = a ++ l ++ b.
Proof.
  destruct q.
  - exists [], (protected sh ++ streaming sh ++ metadata sh). done.
  - exists (probationary sh), (streaming sh ++ metadata sh). done.
  - exists (probationary sh ++ protected sh), (metadata sh). intros l. unfold queues. cbn. by rewrite <- app_assoc.
  - exists (probationary sh ++ protected sh ++ streaming sh), []. intros l. unfold queues. cbn. by rewrite app_nil_r, <- !app_assoc.
Qed.

Lemma set_queue_same q sh : set_queue q (queue_of q sh) sh = sh.
Proof. by destruct q, sh. Qed.

Lemma set_queue_twice q l l' sh : set_queue q l (set_queue q l' sh) = set_queue q l sh.
Proof. by destruct q. Qed.

Lemma queue_set q l sh : queue_of q (set_queue q l sh) = l.
Proof. by destruct q. Qed.

Lemma queue_set_ne q q' l sh : q <> q' -> queue_of q (set_queue q' l sh) = queue_of q sh.
Proof. by destruct q, q'. Qed.

Lemma queue_resident q r sh : queue_of q (set_resident r sh) = queue_of q sh.
Proof. by destruct q. Qed.

Lemma set_queue_rest q l sh :
  resident (set_queue q l sh) = resident sh /\ free_frames (set_queue q l sh) = free_frames sh /\
  capacity (set_queue q l sh) = capacity sh /\ protected_capacity (set_queue q l sh) = protected_capacity sh /\
  metadata_capacity (set_queue q l sh) = metadata_capacity sh /\ streaming_capacity (set_queue q l sh) = streaming_capacity sh.
Proof. by destruct q. Qed.

#[export] Instance Queue_eq_dec : EqDecision Queue.
Proof. solve_decision. Defined.

Lemma queue_set_elem q q' l sh p :
  p ∈ queue_of q' (set_queue q l sh) -> (q' = q /\ p ∈ l) \/ (q' <> q /\ p ∈ queue_of q' sh).
Proof.
  destruct (decide (q' = q)) as [->|Hne].
  - rewrite queue_set. by left.
  - rewrite queue_set_ne by done. by right.
Qed.

(** ** One change at a time *)

(** The front page of a queue gives up its frame. *)
Lemma shard_reclaim h q p rest sh :
  shard_ok h sh -> queue_of q sh = p :: rest ->
  shard_ok (S h) (set_resident (delete p (resident sh)) (set_queue q rest sh)).
Proof.
  intros H Hq. destruct (queues_split q sh) as (a & b & Hs).
  assert (Hp : is_Some (resident sh !! p)) by (apply (queues_resident h sh p H), (queue_elem q); rewrite Hq; by left).
  destruct Hp as [f Hf]. pose proof (set_queue_rest q rest sh) as (_ & E2 & E3 & E4 & E5 & _). split.
  - change (queues (set_queue q rest sh) ≡ₚ (map_to_list (delete p (resident sh))).*1).
    apply (Permutation_cons_inv (a := p)). rewrite Hs.
    transitivity (queues sh).
    { rewrite <- (set_queue_same q sh), Hs, Hq. solve_Permutation. }
    rewrite (so_queues _ _ H). rewrite <- (map_to_list_delete _ p f) by done. done.
  - intros q' r g Hr. cbn [set_resident resident]. intros [_ Hg]%lookup_delete_Some. rewrite queue_resident in Hr.
    apply (so_tags _ _ H q' r); [|done]. apply queue_set_elem in Hr as [[-> Hr]|[_ Hr]]; [|done].
    rewrite Hq. by right.
  - cbn [resident set_resident capacity free_frames]. rewrite E2, E3. pose proof (so_frames _ _ H).
    assert (size (resident sh) <> 0%nat) by (intros E%map_size_empty_inv; by rewrite E in Hf).
    rewrite map_size_delete, Hf. cbn. lia.
  - cbn [set_resident protected_capacity metadata_capacity capacity]. rewrite E3, E4, E5. apply H.
Qed.

(** A queue's pages in another order. *)
Lemma shard_requeue h q l sh : shard_ok h sh -> queue_of q sh ≡ₚ l -> shard_ok h (set_queue q l sh).
Proof.
  intros H Hl. destruct (queues_split q sh) as (a & b & Hs).
  pose proof (set_queue_rest q l sh) as (E1 & E2 & E3 & E4 & E5 & _). split.
  - rewrite E1, <- (so_queues _ _ H), Hs, <- Hl, <- Hs. by rewrite set_queue_same.
  - rewrite E1. intros q' r g Hr. apply (so_tags _ _ H q').
    apply queue_set_elem in Hr as [[-> Hr]|[_ Hr]]; [by rewrite Hl|done].
  - rewrite E1, E2, E3. apply H.
  - rewrite E3, E4, E5. apply H.
Qed.

(** A page moves into the frame in hand. *)
Lemma shard_admit h q p f sh :
  shard_ok (S h) sh -> resident sh !! p = None -> tagged q f ->
  shard_ok h (set_queue q (queue_of q sh ++ [p]) (set_resident (<[p := f]> (resident sh)) sh)).
Proof.
  intros H Hp Hf. set (sh1 := set_resident _ sh). destruct (queues_split q sh1) as (a & b & Hs).
  pose proof (set_queue_rest q (queue_of q sh ++ [p]) sh1) as (E1 & E2 & E3 & E4 & E5 & _). split.
  - rewrite E1, Hs. change (resident sh1) with (<[p := f]> (resident sh)). rewrite map_to_list_insert by done.
    cbn [fmap list_fmap fst]. rewrite <- (so_queues _ _ H). change (queues sh) with (queues sh1).
    rewrite <- (set_queue_same q sh1), Hs. unfold sh1 at 1. rewrite queue_resident. solve_Permutation.
  - rewrite E1. intros q' r g Hr Hg. change (resident sh1) with (<[p := f]> (resident sh)) in Hg.
    apply lookup_insert_Some in Hg as [[<- <-]|[Hne Hg]].
    + apply queue_set_elem in Hr as [[-> _]|[_ Hr]]; [done|]. unfold sh1 in Hr. rewrite queue_resident in Hr.
      apply queue_elem, (queues_resident _ _ _ H) in Hr as [? ?]. congruence.
    + apply (so_tags _ _ H q' r); [|done]. apply queue_set_elem in Hr as [[-> Hr]|[_ Hr]].
      * apply elem_of_app in Hr as [Hr|Hr%list_elem_of_singleton]; [done|congruence].
      * unfold sh1 in Hr. by rewrite queue_resident in Hr.
  - rewrite E1, E2, E3. cbn [sh1 resident set_resident free_frames capacity].
    rewrite map_size_insert_None by done. pose proof (so_frames _ _ H). lia.
  - rewrite E3, E4, E5. apply H.
Qed.

(** A frame changes, but not the flag of its queue. *)
Lemma shard_alter_at h g p sh :
  shard_ok h sh -> (forall q f, p ∈ queue_of q sh -> tagged q f -> tagged q (g f)) ->
  shard_ok h (set_resident (alter g p (resident sh)) sh).
Proof.
  intros H Hg. assert (E : (map_to_list (alter g p (resident sh))).*1 ≡ₚ (map_to_list (resident sh)).*1).
  { apply NoDup_Permutation; [apply NoDup_fst_map_to_list..|]. intros r. rewrite !list_elem_of_fmap. split.
    - intros ([? f] & -> & Hr%elem_of_map_to_list). cbn [fst]. apply lookup_alter_Some in Hr as [(-> & f' & Hr & _)|[_ Hr]].
      + exists (z, f'). split; [done|]. by apply elem_of_map_to_list.
      + exists (z, f). split; [done|]. by apply elem_of_map_to_list.
    - intros ([? f] & -> & Hr%elem_of_map_to_list). cbn [fst].
      exists (z, if decide (p = z) then g f else f). split; [done|]. apply elem_of_map_to_list.
      destruct (decide (p = z)) as [->|Hne]; [by rewrite lookup_alter_eq, Hr|by rewrite lookup_alter_ne]. }
  split.
  - cbn [set_resident resident]. rewrite E. apply H.
  - intros q r f Hr. rewrite queue_resident in Hr. cbn [set_resident resident].
    rewrite lookup_alter_Some. intros [(-> & f' & Hf & ->)|[_ Hf]]; [apply Hg; [done|]|]; by apply (so_tags _ _ H q r).
  - cbn [set_resident resident free_frames capacity]. rewrite <- length_map_to_list, <- (length_fmap fst), E, length_fmap, length_map_to_list. apply H.
  - apply H.
Qed.

Definition keeps_flags (g : Frame -> Frame) : Prop := forall q f, tagged q f -> tagged q (g f).

Lemma shard_alter h g p sh : shard_ok h sh -> keeps_flags g -> shard_ok h (set_resident (alter g p (resident sh)) sh).
Proof. intros H Hg. apply shard_alter_at; [done|]. intros q f _. apply Hg. Qed.

Lemma shard_take h n sh : shard_ok h sh -> free_frames sh = S n -> shard_ok (S h) (set_free n sh).
Proof. intros [H1 H2 H3 H4] Hn. split; [done|done| |done]. cbn [set_free free_frames resident capacity]. lia. Qed.

Lemma shard_give h sh : shard_ok (S h) sh -> shard_ok h (set_free (free_frames sh + 1) sh).
Proof. intros [H1 H2 H3 H4]. split; [done|done| |done]. cbn [set_free free_frames resident capacity]. lia. Qed.

(** ** Promotion and demotion *)

Lemma remove_from_perm p l : p ∈ l -> l ≡ₚ p :: remove_from p l.
Proof.
  induction l as [|q l IH]; [by intros ?%not_elem_of_nil|]. cbn [remove_from]. intros Hp.
  destruct (Z.eqb_spec q p) as [->|Hne]; [done|]. apply elem_of_cons in Hp as [->|Hp]; [done|].
  rewrite (IH Hp) at 1. apply Permutation_swap.
Qed.

Lemma shard_promote h p f sh :
  shard_ok h sh -> p ∈ probationary sh -> resident sh !! p = Some f -> fr_protected f = true ->
  shard_ok h (set_protected (protected sh ++ [p]) (set_probationary (remove_from p (probationary sh)) sh)).
Proof.
  intros H Hp Hf Hpf. pose proof (remove_from_perm p _ Hp) as E. destruct H as [H1 H2 H3 H4]. split; try done.
  - etrans; [|exact H1]. unfold queues. cbn [set_protected set_probationary probationary protected streaming metadata].
    set (l := remove_from p _) in *. rewrite E. solve_Permutation.
  - intros q r g Hr Hg. cbn [set_protected set_probationary resident] in Hg.
    destruct q; cbn [queue_of set_protected set_probationary probationary protected streaming metadata] in Hr;
      [done| |by apply (H2 QStreaming r)|by apply (H2 QMetadata r)].
    apply elem_of_app in Hr as [Hr|Hr%list_elem_of_singleton]; [by apply (H2 QProtected r)|by simplify_eq].
Qed.

(** What the store and the guards depend on in a frame. *)
Definition essence (f : Frame) : bytes * Z * bool := (fr_data f, fr_pins f, fr_dirty f).
Definition same_frames (m m' : gmap Z Frame) : Prop := forall p, essence <$> m' !! p = essence <$> m !! p.

#[export] Instance same_frames_equivalence : Equivalence same_frames.
Proof.
  split; [by intros m p|by intros m m' H p; rewrite H|by intros m1 m2 m3 H H' p; rewrite H', H].
Qed.

Lemma same_frames_alter g p m : (forall f, essence (g f) = essence f) -> same_frames m (alter g p m).
Proof.
  intros Hg q. destruct (decide (p = q)) as [->|Hne]; [|by rewrite lookup_alter_ne].
  rewrite lookup_alter_eq. destruct (m !! q); cbn; [by rewrite Hg|done].
Qed.

(** The queues and capacities demotion leaves alone. *)
Definition same_lanes (sh sh' : Shard) : Prop :=
  streaming sh' = streaming sh /\ metadata sh' = metadata sh /\ protected_capacity sh' = protected_capacity sh /\
  streaming_capacity sh' = streaming_capacity sh /\ metadata_capacity sh' = metadata_capacity sh /\
  capacity sh' = capacity sh.

Lemma shard_demote h p rest sh :
  shard_ok h sh -> protected sh = p :: rest ->
  shard_ok h (set_resident (alter (fr_set_protected false) p (resident sh))
    (set_probationary (probationary sh ++ [p]) (set_protected rest sh))).
Proof.
  intros H Ep. pose proof (queues_nodup _ _ H) as Hnd. unfold queues in Hnd. rewrite Ep in Hnd.
  set (sh1 := set_probationary _ _). change (resident sh) with (resident sh1). apply shard_alter_at.
  - destruct H as [H1 H2 H3 H4]. split; try done.
    + etrans; [|exact H1]. unfold queues, sh1. cbn [set_protected set_probationary probationary protected streaming metadata].
      rewrite Ep. solve_Permutation.
    + intros q r g Hr Hg. destruct q; [done| |by apply (H2 QStreaming r)|by apply (H2 QMetadata r)].
      apply (H2 QProtected r); [|done]. cbn [queue_of]. rewrite Ep. by right.
  - intros q f Hp. destruct q; try done. cbn [queue_of sh1 set_probationary set_protected protected] in Hp.
    apply NoDup_app in Hnd as (_ & _ & Hnd). apply NoDup_app in Hnd as (Hnd & _). by apply NoDup_cons in Hnd as [? _].
Qed.

Lemma demote_spec h turns sh :
  shard_ok h sh -> (length (protected sh) <= turns)%nat ->
  shard_ok h (demote turns sh) /\ same_frames (resident sh) (resident (demote turns sh)) /\
  same_lanes sh (demote turns sh) /\ (length (protected (demote turns sh)) <= protected_capacity sh)%nat /\
  forall r, r ∈ protected (demote turns sh) -> r ∈ protected sh.
Proof.
  revert sh. induction turns as [|turns IH]; intros sh H Hl; cbn [demote].
  { ands; try done; lia. }
  destruct (Nat.leb_spec (length (protected sh)) (protected_capacity sh)) as [Hle|Hgt]; [by ands|].
  destruct (protected sh) as [|p rest] eqn:Ep; [cbn in Hgt; lia|].
  set (sh1 := set_resident _ _). destruct (IH sh1) as (G1 & G2 & G3 & G4 & G5).
  - by apply shard_demote.
  - cbn in Hl |- *. lia.
  - ands; try done; [etrans; [|exact G2]; by apply same_frames_alter|]. intros r Hr. right. by apply (G5 r).
Qed.

(** [enforce_protected_capacity] after a promotion. *)
Lemma enforce_protected_spec h sh (sh' := enforce_protected_capacity sh) :
  shard_ok h sh -> shard_ok h sh' /\ same_frames (resident sh) (resident sh') /\ same_lanes sh sh' /\
  (length (protected sh') <= protected_capacity sh)%nat /\ forall r, r ∈ protected sh' -> r ∈ protected sh.
Proof. intros H. by apply demote_spec. Qed.
