(* ===== verification/PoolSpec.v ===== *)
(** * The buffer pool: its invariant and what each operation does

    [core] relates the cached frames to the page store: every frame is in the
    shard its page hashes to, holds a readable page that is not free, and when
    it is clean the store holds the same bytes.  [view] says that a step of the
    pool keeps the contents of every page, up to the stamps of a write-back.
    The lemmas below follow the pool from write-back and eviction to admission
    and the two kinds of access. *)

From stdpp Require Import base tactics list numbers gmap.
From Stdlib Require Import ZArith Lia.
From S2P Require Import Prelude Search Bytes Errors PageFormat PageStore PageStoreSpec Allocator Pager Pool PoolShard.
Local Open Scope Z_scope.
Local Open Scope bic_scope.

Section PoolSpec.
Context {B : Type}.
Variable before_writeback : Z -> Z -> bytes -> st PageError B unit.
Variable crc32 : bytes -> Z.
Variable hash_order : gmap Z Frame -> list Z.
(** The owner of the log can always make a record durable. *)
Hypothesis Hbarrier : forall p t b w, exists w', before_writeback p t b w = (Val tt, w').
Hypothesis Hcrc : forall l, is_u32 (crc32 l).
Hypothesis Hhash : forall m, hash_order m ≡ₚ (map_to_list m).*1.

Abbreviation Pool := (BufferPool B).
Abbreviation free_list := (free_list crc32).
Abbreviation stamped := (stamped crc32).

Implicit Types x : Pool.

(** ** Shards in place *)

Definition put_shard (i : nat) (sh : Shard) (x : Pool) : Pool := with_shards (<[i := sh]> (bp_shards x)) x.
Definition moved (s : PageStore) (w : option B) (d : gset Z) (x : Pool) : Pool :=
  with_index d (with_barrier w (with_store s x)).
Definition frame (x : Pool) (p : Z) : option Frame := bp_shards x !! shard_for x p ≫= fun sh => resident sh !! p.

Lemma shard_run i sh x : bp_shards x !! i = Some sh -> shard i x = (Val sh, x).
Proof. intros H. unfold shard. by rewrite H. Qed.

Lemma mod_shard_run i sh F x : bp_shards x !! i = Some sh -> mod_shard i F x = (Val tt, put_shard i (F sh) x).
Proof.
  intros H. unfold mod_shard, modify, put_shard. do 2 f_equal. apply list_eq. intros j.
  destruct (decide (j = i)) as [->|Hne].
  - rewrite list_lookup_alter_eq, H, list_lookup_insert_eq; [done|]. by eapply lookup_lt_Some.
  - by rewrite list_lookup_alter_ne, list_lookup_insert_ne.
Qed.

Lemma put_lookup i sh sh0 x : bp_shards x !! i = Some sh0 -> bp_shards (put_shard i sh x) !! i = Some sh.
Proof. intros H. apply list_lookup_insert_eq. by eapply lookup_lt_Some. Qed.

Lemma put_put i sh sh' x : put_shard i sh (put_shard i sh' x) = put_shard i sh x.
Proof. unfold put_shard, with_shards. cbn. by rewrite list_insert_insert_eq. Qed.

Lemma put_same i sh x : bp_shards x !! i = Some sh -> put_shard i sh x = x.
Proof. intros H. unfold put_shard. rewrite list_insert_id by done. by destruct x. Qed.

Lemma shard_for_put i sh x p : shard_for (put_shard i sh x) p = shard_for x p.
Proof. unfold shard_for. cbn. by rewrite length_insert. Qed.

(** Frames are in the shard their page hashes to. *)
Record home_ok (x : Pool) : Prop := {
  ho_shards : bp_shards x <> [];
  ho_home : forall i sh p, bp_shards x !! i = Some sh -> is_Some (resident sh !! p) -> shard_for x p = i
}.

Lemma home_shard x p : home_ok x -> exists sh, bp_shards x !! shard_for x p = Some sh.
Proof.
  intros [H _]. apply lookup_lt_is_Some_2. unfold shard_for.
  assert (length (bp_shards x) <> 0%nat) by (by intros ?%length_zero_iff_nil).
  pose proof (Z.mod_pos_bound (Z.shiftr ((p * 11400714819323198485) mod U64) 32) (Z.of_nat (length (bp_shards x)))). lia.
Qed.

Lemma frame_home x i sh p f : home_ok x -> bp_shards x !! i = Some sh -> resident sh !! p = Some f ->
  shard_for x p = i /\ frame x p = Some f.
Proof. intros H Hs Hp. pose proof (ho_home _ H i sh p Hs ltac:(eauto)) as E. split; [done|]. unfold frame. by rewrite E, Hs. Qed.

Lemma frame_at x i sh p : bp_shards x !! i = Some sh -> shard_for x p = i -> frame x p = resident sh !! p.
Proof. intros Hs E. unfold frame. by rewrite E, Hs. Qed.

(** A shard is replaced by one that differs at most at page [p]. *)
Lemma frame_put x i sh sh' q :
  bp_shards x !! i = Some sh ->
  frame (put_shard i sh' x) q = if decide (shard_for x q = i) then resident sh' !! q else frame x q.
Proof.
  intros Hs. unfold frame. rewrite shard_for_put. destruct (decide (shard_for x q = i)) as [->|Hne].
  - by rewrite (put_lookup _ _ _ _ Hs).
  - unfold put_shard. cbn [bp_shards with_shards]. by rewrite list_lookup_insert_ne.
Qed.

Lemma home_put x i sh sh' :
  home_ok x -> bp_shards x !! i = Some sh ->
  (forall q, is_Some (resident sh' !! q) -> is_Some (resident sh !! q) \/ shard_for x q = i) -> home_ok (put_shard i sh' x).
Proof.
  intros [H1 H2] Hs Hr. split.
  - intros E. apply H1, length_zero_iff_nil. apply (f_equal length) in E. cbn in E. by rewrite length_insert in E.
  - intros j sh0 q Hj Hq. rewrite shard_for_put. destruct (decide (j = i)) as [->|Hne].
    + rewrite (put_lookup _ _ _ _ Hs) in Hj. simplify_eq. destruct (Hr q Hq) as [Hq'|]; [by eapply H2|done].
    + unfold put_shard in Hj. cbn [bp_shards with_shards] in Hj. rewrite list_lookup_insert_ne in Hj by done. by eapply H2.
Qed.

(** ** Frames and the store *)

(** The guards outstanding: the page the running call has pinned, and the page
    whose write guard a client keeps open over calls. *)
Definition Pins : Type := option Z * option Z.
Definition pinned (pin : Pins) (p : Z) : Prop := fst pin = Some p \/ snd pin = Some p.

#[export] Instance pinned_dec pin p : Decision (pinned pin p).
Proof. unfold pinned. apply _. Defined.

(** A guard that is open has not marked its frame dirty: that is done when it
    is dropped. *)
Record frame_ok (s : PageStore) (fl : list Z) (pin : Pins) (p : Z) (f : Frame) : Prop := {
  fo_range : 0 < p < page_count (meta s);
  fo_used : p ∉ fl;
  fo_readable : readable (page_size s) (fr_data f);
  fo_pins : fr_pins f = if decide (pinned pin p) then 1 else 0;
  fo_clean : snd pin <> Some p -> fr_dirty f = false -> raw s p = Some (fr_data f) /\ verify crc32 (fr_data f) p = Val tt;
  fo_held : snd pin = Some p -> fr_dirty f = false
}.

Record core (fl : list Z) (pin : Pins) (x : Pool) : Prop := {
  co_writable : bp_read_only x = false;
  co_store : free_list (bp_store x) fl;
  co_home : home_ok x;
  co_frame : forall p f, frame x p = Some f -> frame_ok (bp_store x) fl pin p f;
  co_index : forall p, p ∈ bp_dirty_index x <-> exists f, frame x p = Some f /\ fr_dirty f = true;
  co_held : forall h, snd pin = Some h -> is_Some (frame x h)
}.

(** The contents of page [p], from its frame or from the store. *)
Record avail (fl : list Z) (x : Pool) (p : Z) (c : bytes) : Prop := {
  av_range : 0 < p < page_count (meta (bp_store x));
  av_used : p ∉ fl;
  av_readable : readable (page_size (bp_store x)) c;
  av_where : match frame x p with
             | Some f => fr_data f = c
             | None => raw (bp_store x) p = Some c /\ verify crc32 c p = Val tt
             end
}.

Record view (fl : list Z) (x x' : Pool) : Prop := {
  vi_size : page_size (bp_store x') = page_size (bp_store x);
  vi_count : page_count (meta (bp_store x')) = page_count (meta (bp_store x));
  vi_root : root_page (meta (bp_store x')) = root_page (meta (bp_store x));
  vi_avail : forall p c, avail fl x p c -> exists c', avail fl x' p c' /\ same_page c' c
}.

#[export] Instance view_preorder fl : PreOrder (view fl).
Proof.
  split.
  - intros x. split; try done. intros p c H. by exists c.
  - intros x1 x2 x3 [A1 A2 A3 A4] [B1 B2 B3 B4]. split; [congruence..|]. intros p c H.
    destruct (A4 p c H) as (c1 & H1 & S1). destruct (B4 p c1 H1) as (c2 & H2 & S2). exists c2. split; [done|]. by etrans.
Qed.

(** Nothing changes but queues, reference bits, flags and counters. *)
Record quiet (x x' : Pool) : Prop := {
  qu_store : bp_store x' = bp_store x;
  qu_index : bp_dirty_index x' = bp_dirty_index x;
  qu_mode : bp_read_only x' = bp_read_only x;
  qu_home : home_ok x -> home_ok x';
  qu_frame : forall p, essence <$> frame x' p = essence <$> frame x p
}.

Lemma essence_frame x x' p f' : quiet x x' -> frame x' p = Some f' ->
  exists f, frame x p = Some f /\ fr_data f = fr_data f' /\ fr_pins f = fr_pins f' /\ fr_dirty f = fr_dirty f'.
Proof.
  intros Q Hf. pose proof (qu_frame _ _ Q p) as E. rewrite Hf in E. destruct (frame x p) as [f|]; [|done].
  exists f. cbn in E. unfold essence in E. by simplify_eq.
Qed.

Lemma quiet_sym_frame x x' p f : quiet x x' -> frame x p = Some f ->
  exists f', frame x' p = Some f' /\ fr_data f' = fr_data f /\ fr_pins f' = fr_pins f /\ fr_dirty f' = fr_dirty f.
Proof.
  intros Q Hf. pose proof (qu_frame _ _ Q p) as E. rewrite Hf in E. destruct (frame x' p) as [f'|]; [|done].
  exists f'. cbn in E. unfold essence in E. by simplify_eq.
Qed.

Lemma quiet_core fl pin x x' : quiet x x' -> core fl pin x -> core fl pin x'.
Proof.
  intros Q [C1 C2 C3 C4 C5 C6]. pose proof Q as [Q1 Q2 Q3 Q4 _]. split; [congruence|by rewrite Q1|auto| | |].
  - intros p f' Hf. destruct (essence_frame x x' p f' Q Hf) as (f & Hf0 & E1 & E2 & E3).
    destruct (C4 p f Hf0) as [F1 F2 F3 F4 F5 F6]. rewrite Q1. split; [done|done|congruence|congruence| |]; rewrite <- ?E1, <- E3; done.
  - intros p. rewrite Q2, C5. split; intros (f & Hf & Hd).
    + destruct (quiet_sym_frame x x' p f Q Hf) as (f' & Hf' & _ & _ & E). exists f'. by rewrite E.
    + destruct (essence_frame x x' p f Q Hf) as (f' & Hf' & _ & _ & E). exists f'. by rewrite E.
  - intros h Hh. destruct (C6 h Hh) as [f Hf]. destruct (quiet_sym_frame x x' h f Q Hf) as (f' & Hf' & _). by exists f'.
Qed.

Lemma quiet_view fl x x' : quiet x x' -> view fl x x'.
Proof.
  intros Q. pose proof Q as [Q1 _ _ _ _]. split; [by rewrite Q1..|]. intros p c [A1 A2 A3 A4]. exists c. split; [|done].
  split; [by rewrite Q1|done|by rewrite Q1|]. rewrite Q1. destruct (frame x' p) as [f'|] eqn:Hf'.
  - destruct (essence_frame x x' p f' Q Hf') as (f & Hf & E & _). rewrite Hf in A4. congruence.
  - pose proof (qu_frame _ _ Q p) as E. rewrite Hf' in E. by destruct (frame x p).
Qed.

(** A shard change that keeps the frames' essence is quiet. *)
Lemma quiet_put x i sh sh' :
  bp_shards x !! i = Some sh -> same_frames (resident sh) (resident sh') -> quiet x (put_shard i sh' x).
Proof.
  intros Hs Hr. split; try done.
  - intros H. eapply home_put; [done|done|]. intros q [f Hq]. left. specialize (Hr q). rewrite Hq in Hr.
    by destruct (resident sh !! q).
  - intros q. rewrite (frame_put x i sh sh' q Hs). destruct (decide _) as [E|]; [|done].
    by rewrite (frame_at x i sh q Hs E).
Qed.

(** ** Changing one page *)

Record local_change (fl : list Z) (p : Z) (x x' : Pool) : Prop := {
  lc_mode : bp_read_only x' = bp_read_only x;
  lc_store : free_list (bp_store x') fl;
  lc_home : home_ok x';
  lc_same : same_except (bp_store x) (bp_store x') p;
  lc_count : page_count (meta (bp_store x')) = page_count (meta (bp_store x));
  lc_size : page_size (bp_store x') = page_size (bp_store x);
  lc_root : root_page (meta (bp_store x')) = root_page (meta (bp_store x));
  lc_frame : forall q, q <> p -> frame x' q = frame x q;
  lc_index : forall q, q <> p -> q ∈ bp_dirty_index x' <-> q ∈ bp_dirty_index x
}.

Lemma core_local fl pin pin' p x x' :
  core fl pin x -> local_change fl p x x' ->
  (forall q, q <> p -> (fst pin' = Some q <-> fst pin = Some q) /\ (snd pin' = Some q <-> snd pin = Some q)) ->
  (forall f', frame x' p = Some f' -> frame_ok (bp_store x') fl pin' p f') ->
  (p ∈ bp_dirty_index x' <-> exists f', frame x' p = Some f' /\ fr_dirty f' = true) ->
  (snd pin' = Some p -> is_Some (frame x' p)) -> core fl pin' x'.
Proof.
  intros [C1 C2 C3 C4 C5 C6] [L1 L2 L3 L4 L5 L6 L7 L8 L9] Hpin Hf Hi Hh. split; [congruence|done|done| | |].
  - intros q f Hq. destruct (decide (q = p)) as [->|Hne]; [by apply Hf|]. rewrite L8 in Hq by done.
    destruct (C4 q f Hq) as [F1 F2 F3 F4 F5 F6]. destruct (Hpin q Hne) as [P1 P2]. split; [by rewrite L5|done|by rewrite L6| | |by rewrite P2].
    + rewrite F4. apply decide_ext. unfold pinned. tauto.
    + intros Hn Hd. destruct F5 as [R V]; [tauto|done|]. split; [|done]. apply L4; [done|lia|done].
  - intros q. destruct (decide (q = p)) as [->|Hne]; [done|]. rewrite L9, L8 by done. apply C5.
  - intros h Hs. destruct (decide (h = p)) as [->|Hne]; [by apply Hh|]. rewrite L8 by done. apply C6. by apply Hpin.
Qed.

Lemma view_local fl p x x' :
  local_change fl p x x' -> (forall c, avail fl x p c -> exists c', avail fl x' p c' /\ same_page c' c) -> view fl x x'.
Proof.
  intros [L1 L2 L3 L4 L5 L6 L7 L8 L9] Hp. split; try done. intros q c Ha.
  destruct (decide (q = p)) as [->|Hne]; [by apply Hp|]. exists c. split; [|done]. destruct Ha as [A1 A2 A3 A4].
  split; [by rewrite L5|done|by rewrite L6|]. rewrite L8 by done. destruct (frame x q); [done|].
  destruct A4 as [R V]. split; [|done]. apply L4; [done|lia|done].
Qed.

Lemma local_put fl p x sh sh' s w d (x' := put_shard (shard_for x p) sh' (moved s w d x)) :
  home_ok x -> bp_shards x !! shard_for x p = Some sh -> (forall q, q <> p -> resident sh' !! q = resident sh !! q) ->
  free_list s fl -> same_except (bp_store x) s p -> page_count (meta s) = page_count (meta (bp_store x)) ->
  page_size s = page_size (bp_store x) -> root_page (meta s) = root_page (meta (bp_store x)) ->
  (forall q, q <> p -> q ∈ d <-> q ∈ bp_dirty_index x) ->
  local_change fl p x x' /\ frame x' p = resident sh' !! p.
Proof.
  intros H Hs Hr Hfl Hse Hc Hz Hroot Hd.
  assert (Hf : forall q, frame x' q = if decide (shard_for x q = shard_for x p) then resident sh' !! q else frame x q).
  { intros q. exact (frame_put (moved s w d x) _ sh sh' q Hs). }
  split; [|by rewrite Hf, decide_True]. split; try done.
  - apply (home_put (moved s w d x) _ sh sh'); [by destruct H|done|]. intros q Hq.
    destruct (decide (q = p)) as [->|Hne]; [by right|left; by rewrite <- Hr].
  - intros q Hne. rewrite Hf. destruct (decide _) as [E|]; [|done]. rewrite Hr by done. symmetry. by apply (frame_at x (shard_for x p) sh).
Qed.

(** A page of the pool written to the store. *)
Lemma write_page_store s fl p b :
  free_list s fl -> 0 < p < page_count (meta s) -> p ∉ fl -> blen b = page_size s ->
  let gen := (m_generation (meta s) + 1) mod U64 in
  exists s', write_page crc32 p b s = (Val (stamped gen b), s') /\ free_list s' fl /\ same_except s s' p /\
    raw s' p = Some (stamped gen b) /\ page_count (meta s') = page_count (meta s) /\
    page_size s' = page_size s /\ root_page (meta s') = root_page (meta s).
Proof.
  intros [Hl Hcalm [Hpc Hpz] Hgm Hch Hnd Hlen Hr] Hp Hnf Hb gen. pose proof (lo_page s Hl) as Hps.
  assert (Hg : is_u64 gen) by (apply Z.mod_pos_bound; done).
  set (s1 := set_meta (with_gen gen (meta s)) s). assert (Hl1 : layout_ok s1) by (by destruct Hl).
  assert (Hbl : blen (stamped gen b) = page_size s1) by (rewrite blen_stamped by lia; done).
  assert (Ha : forall q, 0 <= q < page_count (meta s) -> addressable s1 q) by (intros; split; [lia|]; change (page_size s1) with (page_size s); nia).
  exists (put p (stamped gen b) s1). split.
  { unfold write_page, st_bind, gets, id, modify. cbv beta iota. fold gen. rewrite write_raw_eq; [done|done|done|done|lia]. }
  ands; try done.
  - split; try done; [by apply layout_put|]. apply (chained_frame crc32 s); [|done]. intros q k Hq Hk.
    rewrite Forall_forall in Hr. specialize (Hr q Hq).
    apply hdr_put; [done|apply Ha; lia|apply Ha; lia| |done|done]. intros ->. done.
  - intros q c Hne Hq Hraw. apply (raw_put_other s1); [done|apply Ha; lia|apply Ha; lia|done|done|done].
  - apply raw_put_same; [done|apply Ha; lia|done].
Qed.

(** ** Write-back and eviction *)

Lemma alter_is_insert {A} (g : A -> A) (m : gmap Z A) p a : m !! p = Some a -> alter g p m = <[p := g a]> m.
Proof.
  intros H. apply map_eq. intros q. destruct (decide (p = q)) as [->|Hne].
  - by rewrite lookup_alter_eq, lookup_insert_eq, H.
  - by rewrite lookup_alter_ne, lookup_insert_ne.
Qed.

Lemma without_other (d : gset Z) p q : q <> p -> q ∈ d ∖ {[p]} <-> q ∈ d.
Proof. rewrite elem_of_difference, elem_of_singleton. tauto. Qed.

Lemma without_self (d : gset Z) p : p ∉ d ∖ {[p]}.
Proof. rewrite elem_of_difference, elem_of_singleton. tauto. Qed.

Lemma with_other (d : gset Z) p q : q <> p -> q ∈ d ∪ {[p]} <-> q ∈ d.
Proof. rewrite elem_of_union, elem_of_singleton. tauto. Qed.

Lemma barrier_run p t b x : exists w, barrier_for before_writeback p t b x = (Val tt, with_barrier w x).
Proof.
  unfold barrier_for. destruct (bp_barrier x) as [w|] eqn:E.
  - destruct (Hbarrier p t b w) as [w' ->]. by exists (Some w').
  - exists None. do 2 f_equal. destruct x. cbn in *. by subst.
Qed.

Lemma stamped_buffer_eq s p b : 0 < p -> 72 <= blen b ->
  stamped_buffer crc32 s p b = stamped ((m_generation (meta s) + 1) mod U64) b.
Proof.
  intros Hp Hb. unfold stamped_buffer. rewrite (proj2 (Z.eqb_neq _ _)) by (unfold SUPERBLOCK_PAGE_ID; lia). cbn [andb].
  by rewrite finalize_eq by done.
Qed.

Lemma finalized_readable s p c gen :
  512 <= page_size s -> readable (page_size s) c ->
  readable (page_size s) (stamped gen c) /\ verify crc32 (stamped gen c) p = Val tt.
Proof.
  intros Hps Hc. destruct Hc as [Hl Hd] eqn:E. split.
  - apply (readable_same _ c); [lia| |done]. symmetry. apply same_stamped. lia.
  - apply finalized_verifies; [done|lia].
Qed.

(** [write_back_frame] on a dirty frame. *)
Lemma write_back_spec fl pin x p sh f (i := shard_for x p) :
  core fl pin x -> bp_shards x !! i = Some sh -> resident sh !! p = Some f -> fr_dirty f = true ->
  exists s w c,
    let x' := put_shard i (set_resident (<[p := fr_set_dirty false false (fr_set_data c f)]> (resident sh)) sh)
                (moved s w (bp_dirty_index x ∖ {[p]}) x) in
    write_back_frame before_writeback crc32 i p x = (Val true, x') /\ core fl pin x' /\ view fl x x'.
Proof.
  intros C Hs Hf Hd. destruct (frame_home x i sh p f (co_home _ _ _ C) Hs Hf) as [_ Hfr].
  destruct (co_frame _ _ _ C p f Hfr) as [F1 F2 F3 F4 _ F6]. assert (Hnh : snd pin <> Some p) by (intros E; by rewrite F6 in Hd).
  pose proof (lo_page _ (fl_layout _ _ _ (co_store _ _ _ C))) as Hps. destruct F3 as [Hlen Hdec].
  set (gen := (m_generation (meta (bp_store x)) + 1) mod U64). set (c := stamped gen (fr_data f)).
  destruct (write_page_store (bp_store x) fl p (fr_data f) (co_store _ _ _ C) F1 F2 Hlen) as (s & Ew & Hfl & Hse & Hraw & Hc & Hz & Hr).
  fold gen in Ew, Hraw. fold c in Ew, Hraw.
  assert (Hb : exists w, (if fr_needs_log f then barrier_for before_writeback p (fr_dirtied_by f) (fr_data f) else st_ret tt) x
                         = (Val tt, with_barrier w x)).
  { destruct (fr_needs_log f); [apply barrier_run|]. exists (bp_barrier x). by destruct x. }
  destruct Hb as [w Eb]. exists s, w, c. cbv zeta.
  destruct (local_put fl p x sh (set_resident (<[p := fr_set_dirty false false (fr_set_data c f)]> (resident sh)) sh) s w
    (bp_dirty_index x ∖ {[p]}) (co_home _ _ _ C) Hs) as [L Ep]; try done.
  { intros q Hne. cbn [set_resident resident]. by rewrite lookup_insert_ne. }
  { intros q. apply without_other. }
  fold i in L, Ep. cbn [set_resident resident] in Ep. rewrite lookup_insert_eq in Ep.
  destruct (finalized_readable (bp_store x) p (fr_data f) gen ltac:(lia) (conj Hlen Hdec)) as [Hrd Hv].
  ands.
  - unfold write_back_frame. unfold st_bind at 1. rewrite (shard_run i sh x Hs), Hf, Hd. cbn [negb].
    unfold st_bind at 1. rewrite Eb. unfold st_bind at 1, gets. cbv beta iota.
    change (bp_store (with_barrier w x)) with (bp_store x).
    unfold st_bind at 1, mod_frame at 1. rewrite (mod_shard_run i sh _ (with_barrier w x) Hs).
    rewrite stamped_buffer_eq by lia. fold gen c.
    set (x1 := put_shard i _ (with_barrier w x)).
    assert (Hs1 : bp_shards x1 !! i = Some (set_resident (alter (fr_set_data c) p (resident sh)) sh)) by (by eapply put_lookup).
    unfold st_bind at 1, on_store. change (bp_store x1) with (bp_store x). rewrite Ew.
    unfold st_bind at 1, mod_frame. rewrite (mod_shard_run i _ _ (with_store s x1) Hs1).
    unfold st_bind, modify, st_ret. f_equal. cbn [set_resident resident].
    rewrite (alter_is_insert _ _ _ f Hf), (alter_is_insert _ _ _ (fr_set_data c f)) by (by rewrite lookup_insert_eq).
    rewrite insert_insert_eq. etrans; [|exact (put_put i _ (set_resident (alter (fr_set_data c) p (resident sh)) sh) (moved s w (bp_dirty_index x ∖ {[p]}) x))]. done.
  - eapply core_local; [exact C|exact L|done| | |done].
    + rewrite Ep. intros f' [= <-]. split; [cbn; by rewrite Hc|done| | |done|done].
      * cbn. by rewrite Hz.
      * exact F4.
    + rewrite Ep. split; [by intros ?%without_self|]. by intros (f' & [= <-] & ?).
  - eapply view_local; [exact L|]. intros c0 [A1 A2 A3 A4]. rewrite Hfr in A4. subst c0. exists c. split.
    + split; [cbn; by rewrite Hc|done|cbn; by rewrite Hz|]. by rewrite Ep.
    + apply same_stamped. lia.
Qed.

Lemma moved_same x : moved (bp_store x) (bp_barrier x) (bp_dirty_index x) x = x.
Proof. by destruct x. Qed.

(** A change of one shard at the home of [p] alone. *)
Lemma local_shard fl pin p x sh sh' (x' := put_shard (shard_for x p) sh' x) :
  core fl pin x -> bp_shards x !! shard_for x p = Some sh -> (forall q, q <> p -> resident sh' !! q = resident sh !! q) ->
  local_change fl p x x' /\ frame x' p = resident sh' !! p.
Proof.
  intros C Hs Hr. pose proof (local_put fl p x sh sh' (bp_store x) (bp_barrier x) (bp_dirty_index x)
    (co_home _ _ _ C) Hs Hr (co_store _ _ _ C)) as H. rewrite moved_same in H. apply H; try done. by intros q c.
Qed.

Lemma drop_clean fl pin x p sh f (i := shard_for x p) (x' := put_shard i (set_resident (delete p (resident sh)) sh) x) :
  core fl pin x -> bp_shards x !! i = Some sh -> resident sh !! p = Some f -> fr_dirty f = false ->
  snd pin <> Some p -> core fl pin x' /\ view fl x x'.
Proof.
  intros C Hs Hf Hd Hnh. destruct (frame_home x i sh p f (co_home _ _ _ C) Hs Hf) as [_ Hfr].
  destruct (local_shard fl pin p x sh (set_resident (delete p (resident sh)) sh) C Hs) as [L Ep].
  { intros q Hne. cbn [set_resident resident]. by rewrite lookup_delete_ne. }
  fold i in L, Ep. fold x' in L, Ep. cbn [set_resident resident] in Ep. rewrite lookup_delete_eq in Ep. split.
  - eapply core_local; [exact C|exact L|done| | |done]; rewrite Ep; [done|].
    change (bp_dirty_index x') with (bp_dirty_index x). rewrite (co_index _ _ _ C), Hfr. split; [|by intros (? & ? & _)].
    intros (f' & [= <-] & ?). congruence.
  - eapply view_local; [exact L|]. intros c [A1 A2 A3 A4]. exists c. split; [|done]. split; [done|done|done|].
    rewrite Ep. rewrite Hfr in A4. subst c. by apply (co_frame _ _ _ C).
Qed.

(** [try_reclaim] on a frame that is not pinned. *)
Lemma reclaim_spec fl pin x p sh f (i := shard_for x p) :
  core fl pin x -> bp_shards x !! i = Some sh -> resident sh !! p = Some f -> ~ pinned pin p ->
  exists s w,
    let x' := put_shard i (set_resident (delete p (resident sh)) sh) (moved s w (bp_dirty_index x ∖ {[p]}) x) in
    try_reclaim before_writeback crc32 i p x = (Val true, x') /\ core fl pin x' /\ view fl x x'.
Proof.
  intros C Hs Hf Hpin. destruct (frame_home x i sh p f (co_home _ _ _ C) Hs Hf) as [_ Hfr].
  pose proof (fo_pins _ _ _ _ _ (co_frame _ _ _ C p f Hfr)) as Hp. rewrite decide_False in Hp by done.
  assert (Hnh : snd pin <> Some p) by (intros E; apply Hpin; by right). destruct (fr_dirty f) eqn:Hd.
  - destruct (write_back_spec fl pin x p sh f C Hs Hf Hd) as (s & w & c & E & C1 & V1). fold i in E, C1, V1.
    set (sh1 := set_resident _ sh) in *. set (x1 := put_shard i sh1 _) in *. exists s, w. cbv zeta.
    assert (Hi : shard_for x1 p = i) by (by unfold x1; rewrite shard_for_put).
    assert (Hs1 : bp_shards x1 !! i = Some sh1) by (by eapply put_lookup).
    assert (Hdel : delete p (resident sh1) = delete p (resident sh)) by apply delete_insert_eq.
    destruct (drop_clean fl pin x1 p sh1 (fr_set_dirty false false (fr_set_data c f)) C1) as [C2 V2];
      rewrite ?Hi; [done|apply lookup_insert_eq|done|done|].
    assert (Ex : put_shard i (set_resident (delete p (resident sh1)) sh1) x1 =
                 put_shard i (set_resident (delete p (resident sh)) sh) (moved s w (bp_dirty_index x ∖ {[p]}) x)).
    { rewrite Hdel. exact (put_put i _ _ _). }
    rewrite Hi, Ex in C2, V2. ands; [|done|by etrans].
    unfold try_reclaim. unfold st_bind at 1. rewrite (shard_run i sh x Hs), Hf, Hp, Hd. cbn [Z.ltb Z.compare].
    unfold st_bind at 1. unfold st_bind at 1. rewrite E. cbn [st_ret]. unfold st_bind at 1.
    rewrite (mod_shard_run i sh1 _ x1 Hs1). cbn [st_ret]. by rewrite <- Ex.
  - exists (bp_store x), (bp_barrier x). cbv zeta.
    assert (Hni : bp_dirty_index x ∖ {[p]} = bp_dirty_index x).
    { apply difference_disjoint_L. intros q Hq ->%elem_of_singleton. apply (co_index _ _ _ C) in Hq as (f' & Hf' & ?). congruence. }
    rewrite Hni, moved_same. destruct (drop_clean fl pin x p sh f C Hs Hf Hd Hnh) as [C2 V2]. ands; [|done|done].
    unfold try_reclaim. unfold st_bind at 1. rewrite (shard_run i sh x Hs), Hf, Hp, Hd. cbn [Z.ltb Z.compare].
    unfold st_bind. cbn [st_ret]. by rewrite (mod_shard_run i sh _ x Hs).
Qed.

Lemma pop_run i q sh p rest x : bp_shards x !! i = Some sh -> queue_of q sh = p :: rest ->
  pop_front i q x = (Val (Some p), put_shard i (set_queue q rest sh) x).
Proof.
  intros Hs Hq. unfold pop_front. unfold st_bind at 1. rewrite (shard_run i sh x Hs), Hq.
  unfold st_bind. by rewrite (mod_shard_run i sh _ x Hs).
Qed.

Lemma push_run i q sh p x : bp_shards x !! i = Some sh ->
  push_back i q p x = (Val tt, put_shard i (set_queue q (queue_of q sh ++ [p]) sh) x).
Proof. intros Hs. unfold push_back. by rewrite (mod_shard_run i sh _ x Hs). Qed.

(** [try_reclaim] on a pinned frame. *)
Lemma reclaim_pinned fl pin x i sh p f :
  core fl pin x -> bp_shards x !! i = Some sh -> resident sh !! p = Some f -> pinned pin p ->
  try_reclaim before_writeback crc32 i p x = (Val false, x).
Proof.
  intros C Hs Hf Hpin. destruct (frame_home x i sh p f (co_home _ _ _ C) Hs Hf) as [_ Hfr].
  pose proof (fo_pins _ _ _ _ _ (co_frame _ _ _ C p f Hfr)) as Hp. rewrite decide_True in Hp by done.
  unfold try_reclaim, st_bind. by rewrite (shard_run i sh x Hs), Hf, Hp.
Qed.

Lemma bounds_shrink held q l sh : shard_bounds held sh -> (length l <= length (queue_of q sh))%nat ->
  (forall r, r ∈ l -> r ∈ queue_of q sh) -> shard_bounds held (set_queue q l sh).
Proof.
  intros [H1 H2 H3 H4] Hl Hsub. split; [destruct q; cbn [queue_of] in Hl; cbn; lia..|].
  intros h Hh. destruct (H4 h Hh) as (K1 & K2 & K3 & K4). destruct q; cbn in *; ands; auto.
Qed.

(** The pool after shard [i], once [sh], has given up a frame. *)
Record freed (fl : list Z) (pin : Pins) (i : nat) (sh : Shard) (x x' : Pool) : Prop := {
  fd_core : core fl pin x';
  fd_view : view fl x x';
  fd_shape : exists s w d sh', x' = put_shard i sh' (moved s w d x) /\ shard_ok 1 sh' /\ shard_bounds (snd pin) sh' /\
    forall q, is_Some (resident sh' !! q) -> is_Some (resident sh !! q)
}.

(** The front page of a queue is reclaimed after it was popped. *)
Lemma front_gone fl pin i q sh p rest x :
  core fl pin x -> bp_shards x !! i = Some sh -> shard_ok 0 sh -> queue_of q sh = p :: rest -> ~ pinned pin p ->
  exists s w,
    let x' := put_shard i (set_resident (delete p (resident sh)) (set_queue q rest sh))
                (moved s w (bp_dirty_index x ∖ {[p]}) x) in
    try_reclaim before_writeback crc32 i p (put_shard i (set_queue q rest sh) x) = (Val true, x') /\
    core fl pin x' /\ view fl x x'.
Proof.
  intros C Hs Hok Hq Hpin. set (sh1 := set_queue q rest sh). set (x1 := put_shard i sh1 x).
  pose proof (set_queue_rest q rest sh) as (Er & _). fold sh1 in Er.
  assert (Q : quiet x x1) by (apply (quiet_put x i sh); [done|by rewrite Er]).
  assert (Hp : is_Some (resident sh !! p)) by (apply (queues_resident 0 sh p Hok), (queue_elem q); rewrite Hq; by left).
  destruct Hp as [f Hf]. destruct (frame_home x i sh p f (co_home _ _ _ C) Hs Hf) as [Hi _].
  assert (Hi1 : shard_for x1 p = i) by (by unfold x1; rewrite shard_for_put).
  assert (Hs1 : bp_shards x1 !! i = Some sh1) by (by eapply put_lookup).
  destruct (reclaim_spec fl pin x1 p sh1 f (quiet_core _ _ _ _ Q C)) as (s & w & E & C1 & V1);
    [by rewrite Hi1|by rewrite Er|done|].
  rewrite Hi1 in E, C1, V1. exists s, w. cbv zeta.
  assert (Ex : put_shard i (set_resident (delete p (resident sh1)) sh1) (moved s w (bp_dirty_index x1 ∖ {[p]}) x1) =
               put_shard i (set_resident (delete p (resident sh)) sh1) (moved s w (bp_dirty_index x ∖ {[p]}) x)).
  { rewrite Er. exact (put_put i _ sh1 (moved s w (bp_dirty_index x ∖ {[p]}) x)). }
  rewrite Ex in E, C1, V1. ands; [exact E|exact C1|]. etrans; [by apply quiet_view|exact V1].
Qed.

Lemma front_reclaimed fl pin i q sh p rest x :
  core fl pin x -> bp_shards x !! i = Some sh -> shard_ok 0 sh -> shard_bounds (snd pin) sh -> queue_of q sh = p :: rest ->
  ~ pinned pin p ->
  exists x', try_reclaim before_writeback crc32 i p (put_shard i (set_queue q rest sh) x) = (Val true, x') /\
    freed fl pin i sh x x'.
Proof.
  intros C Hs Hok Hb Hq Hpin. destruct (front_gone fl pin i q sh p rest x C Hs Hok Hq Hpin) as (s & w & E & C1 & V1).
  eexists. split; [exact E|]. split; [exact C1|exact V1|]. eexists s, w, _, _. split; [reflexivity|]. ands.
  - by apply (shard_reclaim 0 q p rest sh).
  - apply (bounds_shrink _ q rest) in Hb as [B1 B2 B3 B4]; [by split|rewrite Hq; cbn; lia|]. intros r Hr. rewrite Hq. by right.
  - intros r [g Hg]. cbn [set_resident resident] in Hg. apply lookup_delete_Some in Hg as [_ Hg]. eauto.
Qed.

(** The shard was replaced quietly before it gave up the frame. *)
Lemma freed_from fl pin i sh sh1 x x' :
  bp_shards x !! i = Some sh -> same_frames (resident sh) (resident sh1) ->
  freed fl pin i sh1 (put_shard i sh1 x) x' -> freed fl pin i sh x x'.
Proof.
  intros Hs Hr [C V (s & w & d & sh' & -> & H1 & H2 & H3)]. split; [done| |].
  - etrans; [|exact V]. by apply quiet_view, (quiet_put x i sh).
  - exists s, w, d, sh'. split; [exact (put_put i sh' sh1 (moved s w d x))|]. ands; try done.
    intros q Hq. specialize (H3 q Hq). specialize (Hr q). destruct (resident sh1 !! q); [|by destruct H3].
    by destruct (resident sh !! q).
Qed.

(** ** Eviction while a guard is held *)

Section Held.
Context (held : option Z).
Abbreviation pin := (None, held).

(** Nothing in the queue but the page whose guard is held. *)
Definition only_held (l : list Z) : Prop := l = [] \/ exists h, held = Some h /\ l = [h].

Lemma held_or_not l : NoDup l -> only_held l \/ exists r, r ∈ l /\ held <> Some r.
Proof.
  intros Hnd. destruct l as [|a [|b l]]; [by left; left| |].
  - destruct (decide (held = Some a)) as [Ha|Ha]; [left; right; by exists a|right]. exists a. split; [by left|done].
  - right. destruct (decide (held = Some a)) as [Ha|Ha]; [exists b|exists a].
    + split; [right; by left|]. apply NoDup_cons in Hnd as [Hnd _]. rewrite Ha. intros [= ->]. apply Hnd. by left.
    + split; [by left|done].
Qed.

Lemma queue_nodup q sh : shard_ok 0 sh -> NoDup (queue_of q sh).
Proof.
  intros Hok. pose proof (queues_nodup 0 sh Hok) as Hnd. destruct (queues_split q sh) as (a & b & Hsp).
  rewrite <- (set_queue_same q sh), Hsp in Hnd. apply NoDup_app in Hnd as (_ & _ & Hnd). by apply NoDup_app in Hnd as (? & _).
Qed.

Lemma not_pinned p : held <> Some p -> ~ pinned pin p.
Proof. intros H [[=]|E]. by apply H. Qed.

(** The front page of a queue, pinned, goes to the back. *)
Lemma rotate_run fl i q sh p rest x k :
  core fl pin x -> bp_shards x !! i = Some sh -> shard_ok 0 sh -> queue_of q sh = p :: rest -> held = Some p ->
  evict_turns before_writeback crc32 (S k) i q x =
  evict_turns before_writeback crc32 k i q (put_shard i (set_queue q (rest ++ [p]) sh) x).
Proof.
  intros C Hs Hok Hq Hh. cbn [evict_turns]. unfold st_bind at 1. rewrite (pop_run i q sh p rest x Hs Hq).
  set (sh1 := set_queue q rest sh). pose proof (set_queue_rest q rest sh) as (Er & _). fold sh1 in Er.
  assert (Hs1 : bp_shards (put_shard i sh1 x) !! i = Some sh1) by (by eapply put_lookup).
  assert (Hp : is_Some (resident sh !! p)) by (apply (queues_resident 0 sh p Hok), (queue_elem q); rewrite Hq; by left).
  destruct Hp as [f Hf]. unfold st_bind at 1. rewrite (reclaim_pinned fl pin _ i sh1 p f); [| |done|by rewrite Er|by right].
  - unfold st_bind at 1. rewrite (push_run i q sh1 p _ Hs1). unfold sh1. by rewrite queue_set, set_queue_twice, put_put.
  - eapply quiet_core; [eapply quiet_put; [done|]|done]. by rewrite Er.
Qed.

(** [evict_from_probationary], [evict_from_streaming], [evict_from_metadata]:
    the oldest page that is not pinned goes. *)
Lemma evict_front fl i q sh p rest x k :
  core fl pin x -> bp_shards x !! i = Some sh -> shard_ok 0 sh -> shard_bounds held sh -> queue_of q sh = p :: rest -> held <> Some p ->
  exists x', evict_turns before_writeback crc32 (S k) i q x = (Val true, x') /\ freed fl pin i sh x x'.
Proof.
  intros C Hs Hok Hb Hq Hh. destruct (front_reclaimed fl pin i q sh p rest x C Hs Hok Hb Hq) as (x' & E & F); [by apply not_pinned|].
  exists x'. split; [|done]. cbn [evict_turns]. unfold st_bind at 1. rewrite (pop_run i q sh p rest x Hs Hq).
  unfold st_bind at 1. by rewrite E.
Qed.

Lemma evict_from_spec fl i q sh r x :
  core fl pin x -> bp_shards x !! i = Some sh -> shard_ok 0 sh -> shard_bounds held sh -> r ∈ queue_of q sh -> held <> Some r ->
  exists x', evict_from before_writeback crc32 i q x = (Val true, x') /\ freed fl pin i sh x x'.
Proof.
  intros C Hs Hok Hb Hr Hne. unfold evict_from. unfold st_bind at 1. rewrite (shard_run i sh x Hs).
  pose proof (queue_nodup q sh Hok) as Hnd. destruct (queue_of q sh) as [|p rest] eqn:Hq; [by apply not_elem_of_nil in Hr|].
  cbn [length]. destruct (decide (held = Some p)) as [Hp|Hp]; [|by eapply evict_front].
  rewrite (rotate_run fl i q sh p rest x _ C Hs Hok Hq Hp). set (sh1 := set_queue q (rest ++ [p]) sh).
  assert (Er : resident sh1 = resident sh) by apply set_queue_rest. apply NoDup_cons in Hnd as [Hnd _].
  destruct rest as [|p' rest]; [apply list_elem_of_singleton in Hr; congruence|]. cbn [length].
  destruct (evict_front fl i q sh1 p' (rest ++ [p]) (put_shard i sh1 x) (length rest)) as (x' & E & F).
  - eapply quiet_core; [eapply quiet_put; [done|]|done]. by rewrite Er.
  - by eapply put_lookup.
  - apply shard_requeue; [done|]. rewrite Hq. solve_Permutation.
  - apply bounds_shrink; [done|rewrite Hq; cbn; rewrite length_app; cbn; lia|]. intros a. rewrite Hq, elem_of_app, list_elem_of_singleton, !elem_of_cons. tauto.
  - apply queue_set.
  - rewrite Hp. intros [= ->]. apply Hnd. by left.
  - exists x'. split; [exact E|]. eapply freed_from; [done| |exact F]. by rewrite Er.
Qed.

Lemma evict_from_none fl i q sh x : core fl pin x -> bp_shards x !! i = Some sh -> shard_ok 0 sh -> only_held (queue_of q sh) ->
  evict_from before_writeback crc32 i q x = (Val false, x).
Proof.
  intros C Hs Hok [Hq|(h & Hh & Hq)]; unfold evict_from; unfold st_bind at 1; rewrite (shard_run i sh x Hs), Hq; [done|].
  cbn [length]. rewrite (rotate_run fl i q sh h [] x _ C Hs Hok Hq Hh). cbn [app]. rewrite <- Hq, set_queue_same.
  by rewrite (put_same i sh x Hs).
Qed.

(** [evict_from_protected]: the second-chance sweep finds a page within two
    rounds; [l2] is the part of the queue already swept. *)
Lemma clock_spec fl i l1 l2 turns sh x :
  core fl pin x -> bp_shards x !! i = Some sh -> shard_ok 0 sh -> shard_bounds held sh -> protected sh = l1 ++ l2 ->
  protected sh <> [] -> (forall p f, p ∈ l2 -> resident sh !! p = Some f -> fr_referenced f = false) ->
  (length l1 < turns)%nat ->
  exists x', clock_turns before_writeback crc32 turns i x = (Val true, x') /\ freed fl pin i sh x x'.
Proof.
  revert l1 l2 sh x. induction turns as [|turns IH]; intros l1 l2 sh x C Hs Hok Hb Hl Hne Hun Ht; [lia|].
  destruct (protected sh) as [|p rest] eqn:Ep; [done|]. cbn [clock_turns].
  unfold st_bind at 1. rewrite (pop_run i QProtected sh p rest x Hs Ep).
  set (sh1 := set_queue QProtected rest sh). set (x1 := put_shard i sh1 x).
  assert (Hs1 : bp_shards x1 !! i = Some sh1) by (by eapply put_lookup).
  assert (Hp : is_Some (resident sh !! p)) by (apply (queues_resident 0 sh p Hok), (queue_elem QProtected); cbn; rewrite Ep; by left).
  destruct Hp as [f Hf]. destruct (frame_home x i sh p f (co_home _ _ _ C) Hs Hf) as [Hi Hfr].
  assert (Hnp : ~ pinned pin p).
  { apply not_pinned. intros Hh. destruct (sb_apart _ _ Hb p Hh) as (_ & Hnp & _). apply Hnp. rewrite Ep. by left. }
  pose proof (fo_pins _ _ _ _ _ (co_frame _ _ _ C p f Hfr)) as Hpins. rewrite decide_False in Hpins by done.
  unfold st_bind at 1. rewrite (shard_run i sh1 x1 Hs1). change (resident sh1) with (resident sh). rewrite Hf, Hpins.
  cbn [Z.ltb Z.compare]. unfold st_bind at 1. unfold mod_frame. rewrite (mod_shard_run i sh1 _ x1 Hs1).
  set (sh2 := set_resident (alter (fr_set_referenced false) p (resident sh)) sh).
  assert (Hok2 : shard_ok 0 sh2) by (apply shard_alter; [done|by intros [] g]).
  assert (Hb2 : shard_bounds held sh2) by (by destruct Hb).
  assert (Hr2 : same_frames (resident sh) (resident sh2)) by (by apply same_frames_alter).
  assert (C2 : core fl pin (put_shard i sh2 x)) by (eapply quiet_core; [by eapply quiet_put|done]).
  assert (Hs2 : bp_shards (put_shard i sh2 x) !! i = Some sh2) by (by eapply put_lookup).
  assert (E2 : put_shard i (set_resident (alter (fr_set_referenced false) p (resident sh1)) sh1) x1
               = put_shard i (set_queue QProtected rest sh2) (put_shard i sh2 x)) by (unfold x1; by rewrite !put_put).
  rewrite E2. destruct (fr_referenced f) eqn:Href.
  - assert (Hl1 : exists l1', l1 = p :: l1' /\ rest = l1' ++ l2).
    { destruct l1 as [|p' l1']; cbn in Hl; [|injection Hl as -> ->; by exists l1']. specialize (Hun p f). rewrite <- Hl in Hun.
      rewrite Hun in Href; [done|by left|done]. }
    destruct Hl1 as (l1' & -> & ->). unfold st_bind at 1.
    erewrite push_run by (by eapply put_lookup). rewrite queue_set, set_queue_twice, put_put.
    set (sh3 := set_queue QProtected ((l1' ++ l2) ++ [p]) sh2).
    destruct (IH l1' (l2 ++ [p]) sh3 (put_shard i sh3 (put_shard i sh2 x))) as (x' & E & F).
    + eapply quiet_core; [by eapply quiet_put|done].
    + by eapply put_lookup.
    + apply shard_requeue; [done|]. cbn [queue_of]. change (protected sh2) with (protected sh). rewrite Ep. solve_Permutation.
    + apply bounds_shrink; [done|..]; cbn [queue_of]; change (protected sh2) with (protected sh); rewrite Ep; [rewrite length_app; cbn; lia|].
      intros a. rewrite elem_of_app, list_elem_of_singleton, elem_of_cons. tauto.
    + cbn. by rewrite <- app_assoc.
    + cbn. by destruct (l1' ++ l2).
    + change (resident sh3) with (alter (fr_set_referenced false) p (resident sh)). intros r g Hr.
      rewrite lookup_alter_Some. intros [(-> & g' & _ & ->)|[Hne' Hg]]; [done|].
      apply elem_of_app in Hr as [Hr|Hr%list_elem_of_singleton]; [by eapply Hun|congruence].
    + cbn in Ht. lia.
    + exists x'. split; [exact E|]. eapply freed_from; [done|exact Hr2|]. by eapply freed_from; [done| |exact F].
  - destruct (front_reclaimed fl pin i QProtected sh2 p rest (put_shard i sh2 x) C2 Hs2 Hok2 Hb2 Ep Hnp) as (x' & E & F).
    exists x'. split; [|by eapply freed_from]. unfold st_bind at 1. by rewrite E.
Qed.

Lemma evict_from_protected_spec fl i sh x :
  core fl pin x -> bp_shards x !! i = Some sh -> shard_ok 0 sh -> shard_bounds held sh -> protected sh <> [] ->
  exists x', evict_from_protected before_writeback crc32 i x = (Val true, x') /\ freed fl pin i sh x x'.
Proof.
  intros C Hs Hok Hb Hne. unfold evict_from_protected. unfold st_bind at 1. rewrite (shard_run i sh x Hs).
  apply (clock_spec fl i (protected sh) []); try done; [by rewrite app_nil_r|by intros ? ? ?%not_elem_of_nil|].
  destruct (protected sh); [done|cbn; lia].
Qed.

Lemma evict_protected_empty i sh x : bp_shards x !! i = Some sh -> protected sh = [] ->
  evict_from_protected before_writeback crc32 i x = (Val false, x).
Proof. intros Hs Hq. unfold evict_from_protected, st_bind. rewrite (shard_run i sh x Hs). by rewrite Hq. Qed.

Lemma try_next fl i sh m sources e x :
  (exists x', m x = (Val true, x') /\ freed fl pin i sh x x') \/
  (m x = (Val false, x) /\ exists x', evict_in_turn sources e x = (Val tt, x') /\ freed fl pin i sh x x') ->
  exists x', evict_in_turn (m :: sources) e x = (Val tt, x') /\ freed fl pin i sh x x'.
Proof.
  cbn [evict_in_turn]. unfold st_bind. intros [(x' & -> & F)|(-> & x' & E & F)]; exists x'; by split.
Qed.

(** A queue with at most the held page: which one it is. *)
Lemma only_held_bounded q sh : shard_bounds held sh -> only_held (queue_of q sh) -> q <> QProbationary -> queue_of q sh = [].
Proof.
  intros Hb [?|(h & Hh & Hq)] Hne; [done|]. destruct (sb_apart _ _ Hb h Hh) as (_ & K1 & K2 & K3).
  assert (Hin : h ∈ queue_of q sh) by (rewrite Hq; by left). by destruct q; cbn in *.
Qed.

Lemma only_held_room sh : shard_ok 0 sh -> shard_bounds held sh -> only_held (probationary sh) ->
  (length (probationary sh) + (protected_capacity sh + metadata_capacity sh) < capacity sh)%nat.
Proof.
  intros Hok Hb [->|(h & Hh & ->)]; [apply Hok|]. destruct (sb_apart _ _ Hb h Hh) as [K _]. cbn. lia.
Qed.

(** [evict_one] finds a frame for every class when no page but [held] is pinned. *)
Lemma evict_one_spec fl i p c sh x :
  core fl pin x -> bp_shards x !! i = Some sh -> shard_ok 0 sh -> shard_bounds held sh -> free_frames sh = 0%nat ->
  exists x', evict_one before_writeback crc32 i p c x = (Val tt, x') /\ freed fl pin i sh x x'.
Proof.
  intros C Hs Hok Hb Hfree. pose proof (queues_size _ _ Hok) as Hsz. unfold queues in Hsz. rewrite !length_app in Hsz.
  pose proof (so_frames _ _ Hok) as Hfr. pose proof (so_tiers _ _ Hok) as Hti. pose proof Hb as [B1 B2 B3 _].
  pose proof (only_held_room sh Hok Hb) as Hroom.
  assert (Hev : forall q sources e, (only_held (queue_of q sh) ->
      exists x', evict_in_turn sources e x = (Val tt, x') /\ freed fl pin i sh x x') ->
    exists x', evict_in_turn (evict_from before_writeback crc32 i q :: sources) e x = (Val tt, x') /\ freed fl pin i sh x x').
  { intros q sources e Hn. apply try_next. destruct (held_or_not (queue_of q sh) (queue_nodup q sh Hok)) as [Ho|(r & Hr & Hne)].
    - right. split; [by eapply evict_from_none|auto].
    - left. by eapply evict_from_spec. }
  assert (Hpr : forall sources e, (protected sh = [] ->
      exists x', evict_in_turn sources e x = (Val tt, x') /\ freed fl pin i sh x x') ->
    exists x', evict_in_turn (evict_from_protected before_writeback crc32 i :: sources) e x = (Val tt, x') /\ freed fl pin i sh x x').
  { intros sources e Hn. apply try_next. destruct (decide (protected sh = [])) as [Eq|Eq].
    - right. split; [by eapply evict_protected_empty|auto].
    - left. by eapply evict_from_protected_spec. }
  unfold evict_one. unfold st_bind at 1. rewrite (shard_run i sh x Hs). destruct c.
  - apply (Hev QMetadata). intros E1%only_held_bounded; [|done..]. apply (Hev QProbationary). intros E2%Hroom.
    apply (Hev QStreaming). intros E3%only_held_bounded; [|done..]. apply Hpr. intros E4.
    cbn in *. rewrite E1, E3, E4 in Hsz. cbn in Hsz. lia.
  - apply (Hev QProbationary). intros E2%Hroom. apply Hpr. intros E4. apply (Hev QStreaming). intros E3%only_held_bounded; [|done..].
    cbn in *. rewrite E3, E4 in Hsz. cbn in Hsz. lia.
  - apply (Hev QStreaming). intros E3%only_held_bounded; [|done..]. apply (Hev QProbationary). intros E2%Hroom.
    cbn in *. rewrite E3 in Hsz. cbn in Hsz. lia.
Qed.
End Held.
End PoolSpec.
