(* ===== verification/PoolAccess.v ===== *)
(** * The buffer pool: admission and access

    With at most one write guard kept open by the client, every other page in use
    can be pinned, read and changed through the pool: [acquire_in_class] on a hit and on a miss, [get_in_class],
    [get_mut], [flush_all], and the bounded background steps.  Each keeps the
    invariant and the contents of every other page. *)

From stdpp Require Import base tactics list numbers gmap.
From Stdlib Require Import ZArith Lia.
From S2P Require Import Prelude Search Bytes Errors PageFormat PageStore PageStoreSpec Allocator Pager Pool PoolShard PoolSpec.
Local Open Scope Z_scope.
Local Open Scope bic_scope.

Section PoolAccess.
Context {B : Type}.
Variable before_writeback : Z -> Z -> bytes -> st PageError B unit.
Variable crc32 : bytes -> Z.
Variable hash_order : gmap Z Frame -> list Z.
Hypothesis Hbarrier : forall p t b w, exists w', before_writeback p t b w = (Val tt, w').
Hypothesis Hcrc : forall l, is_u32 (crc32 l).
Hypothesis Hhash : forall m, hash_order m ≡ₚ (map_to_list m).*1.

Abbreviation Pool := (BufferPool B).
Abbreviation core := (core crc32).
Abbreviation view := (view crc32).
Abbreviation avail := (avail crc32).
Abbreviation freed := (freed crc32).
Implicit Types x : Pool.

(** The pool between operations: [core], and every shard in shape. *)
Record at_rest (fl : list Z) (pin : Pins) (x : Pool) : Prop := {
  ar_core : core fl pin x;
  ar_shard : forall i sh, bp_shards x !! i = Some sh -> shard_ok 0 sh /\ shard_bounds (snd pin) sh
}.

Lemma at_rest_put fl pin pin' x i sh' s w d :
  at_rest fl pin x -> snd pin' = None \/ snd pin' = snd pin -> core fl pin' (put_shard i sh' (moved s w d x)) ->
  shard_ok 0 sh' -> shard_bounds (snd pin') sh' -> at_rest fl pin' (put_shard i sh' (moved s w d x)).
Proof.
  intros [_ H] Hh C H1 H2. split; [done|]. intros j sh. change (bp_shards (put_shard i sh' (moved s w d x))) with (<[i := sh']> (bp_shards x)).
  rewrite list_lookup_insert_Some. intros [(_ & <- & _)|[_ Hj]]; [done|]. destruct (H j sh Hj) as [Hok Hb]. split; [done|].
  destruct Hh as [-> | ->]; [by eapply bounds_release|done].
Qed.

(** The page whose guard the client keeps open, if any. *)
Section Held.
Context {held : option Z}.
Abbreviation taken p := (Some p, held).
Abbreviation rest := (None, held).

(** ** Holding a tier to its share *)

(** The capacities of a shard. *)
Definition same_caps (sh sh' : Shard) : Prop :=
  protected_capacity sh' = protected_capacity sh /\ streaming_capacity sh' = streaming_capacity sh /\
  metadata_capacity sh' = metadata_capacity sh /\ capacity sh' = capacity sh.

(** [enforce_streaming_capacity] and [enforce_metadata_capacity] while the
    page just admitted, the last of the queue, is pinned. *)
Lemma enforce_spec fl i q limit p :
  (forall sh sh', same_caps sh sh' -> limit sh' = limit sh) ->
  forall turns l sh x, core fl (taken p) x -> bp_shards x !! i = Some sh -> shard_ok 0 sh ->
  queue_of q sh = l ++ [p] -> (forall r, r ∈ l -> held <> Some r) -> (length l < turns)%nat ->
  exists s w d sh' l', let x' := put_shard i sh' (moved s w d x) in
    enforce_turns before_writeback crc32 turns i q limit x = (Val tt, x') /\ core fl (taken p) x' /\ view fl x x' /\
    shard_ok 0 sh' /\ same_caps sh sh' /\ queue_of q sh' = l' ++ [p] /\ (length (queue_of q sh') <= Nat.max 1 (limit sh))%nat /\
    (forall q', q' <> q -> queue_of q' sh' = queue_of q' sh) /\ (forall r, r ∈ l' -> r ∈ l) /\ resident sh' !! p = resident sh !! p.
Proof.
  intros Hlim turns. induction turns as [|turns IH]; intros l sh x C Hs Hok Hq Hfree Ht; [lia|]. cbn [enforce_turns].
  unfold st_bind at 1. rewrite (shard_run i sh x Hs).
  assert (Hp : is_Some (resident sh !! p)).
  { apply (queues_resident 0 sh p Hok), (queue_elem q). rewrite Hq. apply elem_of_app. right. by left. }
  destruct (Nat.leb_spec (length (queue_of q sh)) (limit sh)) as [Hle|Hgt].
  { exists (bp_store x), (bp_barrier x), (bp_dirty_index x), sh, l. rewrite moved_same. cbv zeta. rewrite (put_same i sh x Hs).
    ands; try done; lia. }
  destruct Hp as [f Hf]. pose proof (set_queue_rest q) as Hrest. destruct l as [|r l].
  - cbn in Hq. unfold st_bind at 1. rewrite (pop_run i q sh p [] x Hs Hq). set (sh1 := set_queue q [] sh).
    assert (Er1 : resident sh1 = resident sh) by apply Hrest.
    assert (Hs1 : bp_shards (put_shard i sh1 x) !! i = Some sh1) by (by eapply put_lookup).
    assert (C1 : core fl (taken p) (put_shard i sh1 x)).
    { eapply quiet_core; [eapply quiet_put; [done|]|done]. by rewrite Er1. }
    rewrite (reclaim_pinned before_writeback crc32 fl _ _ i sh1 p f C1 Hs1); [|by rewrite Er1|by left].
    rewrite (push_run i q sh1 p _ Hs1). unfold sh1. rewrite queue_set, set_queue_twice, put_put.
    assert (Esh : set_queue q ([] ++ [p]) sh = sh) by (cbn [app]; rewrite <- Hq; apply set_queue_same).
    rewrite Esh, (put_same i sh x Hs).
    exists (bp_store x), (bp_barrier x), (bp_dirty_index x), sh, []. rewrite moved_same. cbv zeta. rewrite (put_same i sh x Hs).
    ands; try done. rewrite Hq. cbn. lia.
  - cbn in Hq. unfold st_bind at 1. rewrite (pop_run i q sh r (l ++ [p]) x Hs Hq).
    assert (Hrp : r <> p).
    { pose proof (queues_nodup 0 sh Hok) as Hnd. destruct (queues_split q sh) as (a & b & Hsp).
      rewrite <- (set_queue_same q sh), Hsp, Hq in Hnd. apply NoDup_app in Hnd as (_ & _ & Hnd).
      apply NoDup_app in Hnd as (Hnd & _). apply NoDup_cons in Hnd as [Hnd _]. intros ->. apply Hnd, elem_of_app. right. by left. }
    destruct (front_gone before_writeback crc32 Hbarrier Hcrc fl (taken p) i q sh r (l ++ [p]) x C Hs Hok Hq) as (s1 & w1 & E1 & C1 & V1).
    { intros [[= ->]|Hh]; [done|]. apply (Hfree r); [by left|done]. }
    rewrite E1. set (sh1 := set_resident _ _) in *. set (x1 := put_shard i sh1 _) in *.
    assert (Hs1 : bp_shards x1 !! i = Some sh1) by (by eapply put_lookup).
    unfold st_bind at 1. rewrite (mod_shard_run i sh1 _ x1 Hs1). set (sh2 := set_free (free_frames sh1 + 1) sh1).
    assert (Hok2 : shard_ok 0 sh2) by (by apply shard_give, (shard_reclaim 0 q r (l ++ [p]) sh)).
    assert (Hcap : same_caps sh sh2) by (destruct (Hrest (l ++ [p]) sh) as (_ & _ & ? & ? & ? & ?); by split).
    destruct (IH l sh2 (put_shard i sh2 x1)) as (s & w & d & sh' & l' & E & C' & V' & R1 & R2 & R3 & R4 & R5 & R7 & R6).
    + eapply quiet_core; [by eapply quiet_put|done].
    + by eapply put_lookup.
    + done.
    + destruct q; done.
    + intros r' Hr'. apply Hfree. by right.
    + cbn in Ht. lia.
    + assert (Ex : put_shard i sh' (moved s w d (put_shard i sh2 x1)) = put_shard i sh' (moved s w d x)).
      { etrans; [exact (put_put i sh' sh2 (moved s w d x1))|]. exact (put_put i sh' sh1 (moved s w d x)). }
      exists s, w, d, sh', l'. cbv zeta. rewrite Ex in E, C', V'. ands; try done.
      * etrans; [exact V1|]. etrans; [|exact V']. apply quiet_view. by eapply quiet_put.
      * destruct Hcap as (? & ? & ? & ?), R2 as (? & ? & ? & ?). unfold same_caps. ands; congruence.
      * rewrite (Hlim sh sh2 Hcap) in R4. done.
      * intros q' Hne. rewrite R5 by done. transitivity (queue_of q' (set_queue q (l ++ [p]) sh)); [by destruct q'|by apply queue_set_ne].
      * intros r' Hr'. right. by apply R7.
      * rewrite R6. change (resident sh2) with (delete r (resident sh)). by rewrite lookup_delete_ne.
Qed.

(** ** A miss *)

Lemma frame_in_hand fl cls i p sh x :
  at_rest fl rest x -> bp_shards x !! i = Some sh ->
  exists x1, (match free_frames sh with
              | S n => mod_shard i (set_free n)
              | O => evict_one before_writeback crc32 i p cls
              end) x = (Val tt, x1) /\ freed fl rest i sh x x1.
Proof.
  intros [C H] Hs. destruct (H i sh Hs) as [Hok Hb]. destruct (free_frames sh) as [|n] eqn:Hn.
  - by apply (evict_one_spec before_writeback crc32 Hbarrier Hcrc).
  - rewrite (mod_shard_run i sh _ x Hs). eexists. split; [done|].
    assert (Q : quiet x (put_shard i (set_free n sh) x)) by (by eapply quiet_put).
    split; [by eapply quiet_core|by apply quiet_view|].
    exists (bp_store x), (bp_barrier x), (bp_dirty_index x), (set_free n sh). rewrite moved_same. ands; try done.
    + by apply shard_take.
    + destruct Hb. by split.
Qed.

(** A page read from the store is placed at the back of a queue. *)
Lemma placed_spec fl pin i q p c f sh x (sh' := set_queue q (queue_of q sh ++ [p]) (set_resident (<[p := f]> (resident sh)) sh))
    (x' := put_shard i sh' x) :
  core fl rest x -> bp_shards x !! i = Some sh -> shard_for x p = i -> shard_ok 1 sh -> resident sh !! p = None ->
  avail fl x p c -> fr_data f = c -> (pin = rest /\ fr_pins f = 0) \/ (pin = taken p /\ fr_pins f = 1) -> fr_dirty f = false -> tagged q f ->
  core fl pin x' /\ view fl x x' /\ shard_ok 0 sh'.
Proof.
  intros C Hs Hi Hok Hn Ha Hd Hp Hcl Ht. assert (Hfr : frame x p = None) by (by rewrite (frame_at x i sh)).
  assert (Er : resident sh' = <[p := f]> (resident sh)) by apply set_queue_rest.
  assert (Hs' : bp_shards x !! shard_for x p = Some sh) by (by rewrite Hi).
  assert (Hnh : held <> Some p) by (intros Hh; destruct (co_held _ _ _ _ C p Hh); congruence).
  destruct (local_shard crc32 fl rest p x sh sh' C Hs') as [L Ep].
  { intros r Hne. by rewrite Er, lookup_insert_ne. }
  rewrite Hi in L, Ep. fold x' in L, Ep. rewrite Er, lookup_insert_eq in Ep.
  destruct Ha as [A1 A2 A3 A4]. rewrite Hfr in A4. subst c. ands.
  - assert (Hsnd : snd pin = held) by (by destruct Hp as [[-> _]|[-> _]]).
    eapply core_local; [exact C|exact L|intros r Hne; rewrite Hsnd; destruct Hp as [[-> _]|[-> _]]; cbn; (split; [split; congruence|done])| | |by rewrite Hsnd].
    + rewrite Ep. intros f' [= <-]. split; [done|done|done| |done|by rewrite Hsnd].
      destruct Hp as [[-> ->]|[-> ->]]; [by rewrite decide_False by (by intros [[=]|?])|by rewrite decide_True by (by left)].
    + change (bp_dirty_index x') with (bp_dirty_index x). rewrite (co_index _ _ _ _ C), Hfr, Ep.
      split; intros (f' & Hf' & Hd'); [done|]. simplify_eq. congruence.
  - eapply view_local; [exact L|]. intros c0 [B1 B2 B3 B4]. rewrite Hfr in B4. exists (fr_data f).
    destruct A4 as [R V], B4 as [R' V']. rewrite R in R'. simplify_eq. split; [|done]. split; [done|done|done|]. by rewrite Ep.
  - by apply shard_admit.
Qed.

(** The last page of a bounded queue, pinned, after its tier is held to its share. *)
Lemma enforced fl i q p limit f sh x :
  (q = QStreaming /\ limit = streaming_capacity) \/ (q = QMetadata /\ limit = metadata_capacity /\ (0 < metadata_capacity sh)%nat) ->
  core fl (taken p) x -> bp_shards x !! i = Some sh -> shard_ok 0 sh -> (exists l, queue_of q sh = l ++ [p]) ->
  (length (protected sh) <= protected_capacity sh)%nat ->
  (q = QMetadata -> (length (streaming sh) <= Nat.max 1 (streaming_capacity sh))%nat) ->
  (q = QStreaming -> (length (metadata sh) <= metadata_capacity sh)%nat) -> apart held sh ->
  resident sh !! p = Some f ->
  exists s w d sh', let x' := put_shard i sh' (moved s w d x) in
    enforce_capacity before_writeback crc32 i q limit x = (Val tt, x') /\ core fl (taken p) x' /\ view fl x x' /\
    shard_ok 0 sh' /\ shard_bounds held sh' /\ resident sh' !! p = Some f.
Proof.
  intros Hq C Hs Hok (l & Hl) Hpr Hst Hme Hap Hf. unfold enforce_capacity. unfold st_bind. rewrite (shard_run i sh x Hs).
  assert (Hlim : forall sh sh', same_caps sh sh' -> limit sh' = limit sh).
  { intros sh1 sh2 (? & ? & ? & ?). by destruct Hq as [[_ ->]|(_ & -> & _)]. }
  assert (Hlane : forall h, held = Some h -> h ∉ queue_of q sh).
  { intros h Hh. destruct (Hap h Hh) as (_ & _ & K2 & K3). by destruct Hq as [[-> _]|(-> & _)]. }
  destruct (enforce_spec fl i q limit p Hlim (length (queue_of q sh)) l sh x C Hs Hok Hl) as
    (s & w & d & sh' & l' & E & C' & V' & R1 & (K1 & K2 & K3 & K4) & R3 & R4 & R5 & R7 & R6).
  { intros r Hr Hh. apply (Hlane r Hh). rewrite Hl. apply elem_of_app. by left. }
  { rewrite Hl, length_app. cbn. lia. }
  assert (Hap' : apart held sh').
  { intros h Hh. destruct (Hap h Hh) as (P1 & P2 & P3 & P4). assert (Hq' : h ∉ queue_of q sh').
    { intros Hin. apply (Hlane h Hh). rewrite Hl. rewrite R3 in Hin. rewrite !elem_of_app in *. destruct Hin; auto. }
    pose proof (R5 QProtected) as S1. pose proof (R5 QStreaming) as S2. pose proof (R5 QMetadata) as S3. cbn in S1, S2, S3.
    rewrite K1, K3, K4. destruct Hq as [[-> _]|(-> & _)]; cbn in Hq'; rewrite ?S1, ?S2, ?S3 by done; by ands. }
  exists s, w, d, sh'. cbv zeta. ands; try done; [|congruence].
  assert (Eother : forall q', q' <> q -> length (queue_of q' sh') = length (queue_of q' sh)) by (intros q' Hne; by rewrite R5).
  pose proof (Eother QProtected) as E1. cbn in E1.
  destruct Hq as [[-> ->]|(-> & -> & Hpos)]; cbn in R4; split; rewrite ?K1, ?K2, ?K3, ?E1 by done; try lia; try done.
  - pose proof (Eother QMetadata ltac:(done)) as E2. cbn in E2. rewrite E2. by apply Hme.
  - pose proof (Eother QStreaming ltac:(done)) as E2. cbn in E2. rewrite E2. by apply Hst.
Qed.

(** The page joins the queue of its class. *)
Lemma admit_spec fl cls i p c t sh x :
  core fl rest x -> bp_shards x !! i = Some sh -> shard_for x p = i -> shard_ok 1 sh -> shard_bounds held sh ->
  resident sh !! p = None -> avail fl x p c ->
  exists s w d sh' f, let x' := put_shard i sh' (moved s w d x) in
    (mod_shard i (fun sh => set_resident (<[p := new_frame c t cls]> (resident sh)) sh) ;;;
     admit_page before_writeback crc32 i p cls) x = (Val tt, x') /\
    core fl (taken p) x' /\ view fl x x' /\ shard_ok 0 sh' /\ shard_bounds held sh' /\ resident sh' !! p = Some f /\ fr_data f = c /\
    (cls = Search -> fr_dirty f = false /\ p ∈ probationary sh').
Proof.
  intros C Hs Hi Hok Hb Hn Ha. set (f := new_frame c t cls). set (sh1 := set_resident (<[p := f]> (resident sh)) sh).
  set (x1 := put_shard i sh1 x). assert (Hs1 : bp_shards x1 !! i = Some sh1) by (by eapply put_lookup).
  pose proof Hb as [B1 B2 B3 B4]. unfold st_bind at 1. rewrite (mod_shard_run i sh _ x Hs). fold f sh1 x1.
  assert (Hnh : held <> Some p) by (intros Hh; destruct (co_held _ _ _ _ C p Hh) as [g Hg]; rewrite (frame_at x i sh) in Hg by done; congruence).
  assert (Stay : forall sh2, put_shard i sh2 (moved (bp_store x) (bp_barrier x) (bp_dirty_index x) x) = put_shard i sh2 x)
    by (intros sh2; by rewrite moved_same).
  assert (Tier : forall q limit, (q = QStreaming /\ limit = streaming_capacity) \/
      (q = QMetadata /\ limit = metadata_capacity /\ (0 < metadata_capacity sh)%nat) -> tagged q f -> cls <> Search ->
    exists s w d sh' f, let x' := put_shard i sh' (moved s w d x) in
      (push_back i q p ;;; enforce_capacity before_writeback crc32 i q limit) x1 = (Val tt, x') /\
      core fl (taken p) x' /\ view fl x x' /\ shard_ok 0 sh' /\ shard_bounds held sh' /\ resident sh' !! p = Some f /\ fr_data f = c /\
      (cls = Search -> fr_dirty f = false /\ p ∈ probationary sh')).
  { intros q limit Hq Ht Hcls. unfold st_bind at 1. rewrite (push_run i q sh1 p x1 Hs1). unfold x1. rewrite put_put. unfold sh1. rewrite queue_resident.
    set (sh2 := set_queue q (queue_of q sh ++ [p]) _).
    destruct (placed_spec fl (taken p) i q p c f sh x C Hs Hi Hok Hn Ha) as (C2 & V2 & Hok2); try done; [by right|]. fold sh2 in C2, V2, Hok2.
    destruct (enforced fl i q p limit f sh2 (put_shard i sh2 x)) as (s & w & d & sh' & E & C' & V' & R1 & R2 & R3); try done.
    - destruct Hq as [?|(-> & -> & Hpos)]; [by left|by right].
    - by eapply put_lookup.
    - exists (queue_of q sh). apply queue_set.
    - destruct Hq as [[-> _]|(-> & _)]; exact B1.
    - intros ->. exact B2.
    - intros ->. exact B3.
    - intros h Hh. destruct (B4 h Hh) as (P1 & P2 & P3 & P4). assert (h <> p) by congruence.
      destruct Hq as [[-> _]|(-> & _)]; cbn; rewrite ?elem_of_app, ?list_elem_of_singleton; ands; tauto.
    - assert (Er : resident sh2 = <[p := f]> (resident sh)) by apply set_queue_rest. rewrite Er. apply lookup_insert_eq.
    - assert (Ex : put_shard i sh' (moved s w d (put_shard i sh2 x)) = put_shard i sh' (moved s w d x))
        by exact (put_put i sh' sh2 (moved s w d x)).
      cbv zeta in E, C', V'. rewrite Ex in E, C', V'. exists s, w, d, sh', f. cbv zeta. ands; try done. by etrans. }
  destruct cls; cbn [admit_page].
  - unfold st_bind at 1. rewrite (shard_run i sh1 x1 Hs1). change (metadata_capacity sh1) with (metadata_capacity sh).
    destruct (Nat.eqb_spec (metadata_capacity sh) 0) as [E0|E0]; [|apply (Tier QMetadata metadata_capacity); [right; ands; [done|done|lia]|done|done]].
    set (g := fun f : Frame => _). unfold st_bind, mod_frame. rewrite (mod_shard_run i sh1 _ x1 Hs1).
    change (resident sh1) with (<[p := f]> (resident sh)).
    rewrite (alter_is_insert _ _ _ f) by apply lookup_insert_eq. rewrite insert_insert_eq. unfold x1. rewrite put_put.
    erewrite push_run by (by eapply put_lookup). rewrite put_put.
    destruct (placed_spec fl (taken p) i QProbationary p c (g f) sh x C Hs Hi Hok Hn Ha) as (C2 & V2 & Hok2); try done; [by right|].
    eexists (bp_store x), (bp_barrier x), (bp_dirty_index x), _, (g f). cbv zeta. rewrite Stay. ands; [reflexivity|exact C2|exact V2|exact Hok2|by split|apply lookup_insert_eq|done|done].
  - rewrite (push_run i QProbationary sh1 p x1 Hs1). unfold x1. rewrite put_put.
    destruct (placed_spec fl (taken p) i QProbationary p c f sh x C Hs Hi Hok Hn Ha) as (C2 & V2 & Hok2); try done; [by right|].
    eexists (bp_store x), (bp_barrier x), (bp_dirty_index x), _, f. cbv zeta. rewrite Stay. ands; [reflexivity|exact C2|exact V2|exact Hok2|by split|apply lookup_insert_eq|done|].
    intros _. split; [done|]. cbn. apply elem_of_app. right. by left.
  - apply (Tier QStreaming streaming_capacity); [by left|done|done].
Qed.

(** ** Pinning a page *)

(** A change of the read-ahead queue, the barrier or the modes alone. *)
Record same_pool (x x' : Pool) : Prop := {
  sp_store : bp_store x' = bp_store x;
  sp_shards : bp_shards x' = bp_shards x;
  sp_index : bp_dirty_index x' = bp_dirty_index x;
  sp_mode : bp_read_only x' = bp_read_only x
}.

Lemma same_pool_frame x x' p : same_pool x x' -> frame x' p = frame x p.
Proof. intros [_ E _ _]. unfold frame, shard_for. by rewrite E. Qed.

Lemma same_pool_quiet x x' : same_pool x x' -> quiet x x'.
Proof.
  intros S. pose proof S as [S1 S2 S3 S4]. split; [done|done|done| |].
  - intros [H1 H2]. split; [by rewrite S2|]. unfold shard_for in *. by rewrite S2.
  - intros p. by rewrite (same_pool_frame x x').
Qed.

Lemma same_pool_rest fl pin x x' : same_pool x x' -> at_rest fl pin x -> at_rest fl pin x'.
Proof.
  intros S [C H]. split; [eapply quiet_core; [by apply same_pool_quiet|done]|]. by rewrite (sp_shards _ _ S).
Qed.

Lemma cancel_run p x : exists x', cancel_read_ahead p x = (Val tt, x') /\ same_pool x x'.
Proof.
  unfold cancel_read_ahead, modify. eexists. split; [reflexivity|].
  destruct (_ =? 0); [by split|]. by destruct (ra_cancel _ _).
Qed.

Lemma avail_read fl pin x p c : core fl pin x -> avail fl x p c -> frame x p = None ->
  exists h, read_page crc32 (bp_store x) p = Val (h, c).
Proof.
  intros C [A1 A2 [A3 [h Hd]] A4] Hn. rewrite Hn in A4. destruct A4 as [R V]. exists h.
  destruct (co_store _ _ _ _ C) as [Hl _ [Hc1 Hc2] _ _ _ _ _]. pose proof (lo_page _ Hl).
  unfold read_page. rewrite (proj2 (Z.leb_gt _ _)) by lia.
  rewrite (read_raw crc32 _ p c Hl); [by rewrite V; cbn; rewrite Hd|apply addressable_below; lia|done].
Qed.

Lemma acquire_miss fl cls p c sh x (i := shard_for x p) :
  at_rest fl rest x -> avail fl x p c -> bp_shards x !! i = Some sh -> resident sh !! p = None ->
  exists x' f, (do t <- gets bp_current_transaction ;;
    (match free_frames sh with
     | S n => mod_shard i (set_free n)
     | O => evict_one before_writeback crc32 i p cls
     end) ;;;
    do s <- gets bp_store ;;
    match read_page crc32 s p with
    | Val (_, b) =>
        mod_shard i (fun sh => set_resident (<[p := new_frame b t cls]> (resident sh)) sh) ;;;
        admit_page before_writeback crc32 i p cls
    | Err e => mod_shard i (fun sh => set_free (free_frames sh + 1) sh) ;;; st_fail e
    | Panic => st_panic
    end) x = (Val tt, x') /\ at_rest fl (taken p) x' /\ view fl x x' /\ frame x' p = Some f /\ same_page (fr_data f) c /\
    (cls = Search -> fr_dirty f = false /\ exists sh', bp_shards x' !! i = Some sh' /\ p ∈ probationary sh').
Proof.
  intros R Ha Hs Hn. destruct (frame_in_hand fl cls i p sh x R Hs) as (x1 & E1 & [C1 V1 (s1 & w1 & d1 & sh1 & -> & Hok1 & Hb1 & Hsub)]).
  set (x1 := put_shard i sh1 (moved s1 w1 d1 x)) in *. assert (Hs1 : bp_shards x1 !! i = Some sh1) by (by eapply (put_lookup i sh1 sh)).
  assert (Hi1 : shard_for x1 p = i) by exact (shard_for_put i sh1 (moved s1 w1 d1 x) p).
  assert (Hn1 : resident sh1 !! p = None).
  { destruct (resident sh1 !! p) eqn:E; [|done]. destruct (Hsub p) as [? ?]; [by rewrite E|congruence]. }
  destruct (vi_avail _ _ _ _ V1 p c Ha) as (c1 & Ha1 & Hc1).
  destruct (avail_read fl rest x1 p c1 C1 Ha1) as [h Er]; [by rewrite (frame_at x1 i sh1)|].
  destruct (admit_spec fl cls i p c1 (bp_current_transaction x) sh1 x1 C1 Hs1 Hi1 Hok1 Hb1 Hn1 Ha1) as
    (s & w & d & sh' & f & E & C' & V' & Hok' & Hb' & Hf & Hd & Hse).
  cbv zeta in E, C', V'. assert (Ex : put_shard i sh' (moved s w d x1) = put_shard i sh' (moved s w d x)) by exact (put_put i sh' sh1 (moved s w d x)).
  rewrite Ex in E, C', V'. eexists _, f. split; [|ands].
  - unfold st_bind at 1, gets. cbv beta iota. unfold st_bind at 1. rewrite E1.
    unfold st_bind at 1. cbv beta iota. rewrite Er. exact E.
  - apply (at_rest_put fl rest); [done|by right|done..].
  - by etrans.
  - rewrite (frame_at _ i sh'); [done|by eapply (put_lookup i sh' sh)|exact (shard_for_put i sh' (moved s w d x) p)].
  - by rewrite Hd.
  - intros Ec. destruct (Hse Ec) as [K1 K2]. split; [done|]. exists sh'. split; [by eapply (put_lookup i sh' sh)|done].
Qed.

(** The frame of page [p] changes, and the dirty index with it. *)
Lemma refit fl pin pin' p g x sh f d (i := shard_for x p)
    (x' := put_shard i (set_resident (alter g p (resident sh)) sh) (moved (bp_store x) (bp_barrier x) d x)) :
  at_rest fl pin x -> bp_shards x !! i = Some sh -> resident sh !! p = Some f -> keeps_flags g ->
  (forall q, q <> p -> fst pin' = Some q <-> fst pin = Some q) -> snd pin' = snd pin \/ (snd pin' = None /\ snd pin = Some p) ->
  fr_pins (g f) = (if decide (pinned pin' p) then 1 else 0) -> readable (page_size (bp_store x)) (fr_data (g f)) ->
  (snd pin' <> Some p -> fr_dirty (g f) = false -> snd pin <> Some p /\ fr_data (g f) = fr_data f /\ fr_dirty f = false) ->
  (snd pin' = Some p -> fr_dirty (g f) = false) ->
  (forall q, q <> p -> q ∈ d <-> q ∈ bp_dirty_index x) -> (p ∈ d <-> fr_dirty (g f) = true) ->
  at_rest fl pin' x' /\ local_change crc32 fl p x x' /\ frame x' p = Some (g f).
Proof.
  intros R Hs Hf Hg Hpin Hhold Hp Hrd Hcl Hhd Hd Hdp. pose proof R as [C H]. destruct (H i sh Hs) as [Hok Hb].
  destruct (frame_home x i sh p f (co_home _ _ _ _ C) Hs Hf) as [_ Hfr].
  destruct (co_frame _ _ _ _ C p f Hfr) as [F1 F2 F3 F4 F5 F6].
  destruct (local_put crc32 fl p x sh (set_resident (alter g p (resident sh)) sh) (bp_store x) (bp_barrier x) d
    (co_home _ _ _ _ C) Hs) as [L Ep]; try done; try apply C.
  { intros q Hne. cbn [set_resident resident]. by rewrite lookup_alter_ne. }
  { by intros q c. }
  fold i in L, Ep. fold x' in L, Ep. cbn [set_resident resident] in Ep. rewrite lookup_alter_eq, Hf in Ep. cbn in Ep.
  assert (Hh : snd pin' = None \/ snd pin' = snd pin) by tauto.
  ands; [|done|done]. cut (core fl pin' x').
  { intros C'. apply (at_rest_put fl pin); [done..|by apply shard_alter|].
    assert (Hb' : shard_bounds (snd pin') sh) by (destruct Hh as [-> | ->]; [by eapply bounds_release|done]). by destruct Hb'. }
  eapply core_local; [exact C|exact L| | | |by rewrite Ep].
  - intros q Hne. split; [by apply Hpin|]. destruct Hhold as [->|[-> ->]]; split; congruence.
  - rewrite Ep. intros f' [= <-]. split; [done|done|done|done| |done]. intros Hn Hc. destruct (Hcl Hn Hc) as (Hn' & -> & Hc'). by apply F5.
  - rewrite Ep. change (bp_dirty_index x') with d. rewrite Hdp. split; [by eauto|]. by intros (f' & [= <-] & ?).
Qed.

(** Other pages keep their contents through a local change. *)
Lemma local_avail fl p q c x x' : local_change crc32 fl p x x' -> q <> p -> avail fl x q c -> avail fl x' q c.
Proof.
  intros [L1 L2 L3 L4 L5 L6 L7 L8 L9] Hne [A1 A2 A3 A4]. split; [by rewrite L5|done|by rewrite L6|]. rewrite L8 by done.
  destruct (frame x q); [done|]. destruct A4 as [R V]. split; [|done]. apply L4; [done|lia|done].
Qed.

Lemma frame_avail fl pin x p f : core fl pin x -> frame x p = Some f -> avail fl x p (fr_data f).
Proof. intros C Hf. destruct (co_frame _ _ _ _ C p f Hf) as [F1 F2 F3 F4 F5 F6]. split; try done. by rewrite Hf. Qed.

Lemma avail_fun fl x p c c' : avail fl x p c -> avail fl x p c' -> c = c'.
Proof.
  intros [_ _ _ A] [_ _ _ A']. destruct (frame x p); [congruence|]. destruct A as [R _], A' as [R' _]. congruence.
Qed.

(** The data of a frame is kept: the pool still shows the same pages. *)
Lemma refit_view fl pin pin' p x x' f f' :
  core fl pin x -> core fl pin' x' -> local_change crc32 fl p x x' -> frame x p = Some f ->
  frame x' p = Some f' -> fr_data f' = fr_data f -> view fl x x'.
Proof.
  intros C C' L Hf Hf' E. eapply view_local; [exact L|]. intros c Ha. exists c. split; [|done].
  rewrite (avail_fun fl x p c (fr_data f) Ha (frame_avail fl pin x p f C Hf)), <- E.
  by eapply frame_avail.
Qed.

Lemma probationary_page h sh p f :
  shard_ok h sh -> resident sh !! p = Some f -> fr_metadata f = false -> fr_streaming f = false -> fr_protected f = false ->
  p ∈ probationary sh.
Proof.
  intros H Hf H1 H2 H3. assert (Hp : p ∈ queues sh) by (apply (queues_resident h sh p H); eauto).
  unfold queues in Hp. rewrite !elem_of_app in Hp. destruct Hp as [?|[Hp|[Hp|Hp]]]; [done|..].
  - pose proof (so_tags _ _ H QProtected p f Hp Hf). cbn in *. congruence.
  - pose proof (so_tags _ _ H QStreaming p f Hp Hf). cbn in *. congruence.
  - pose proof (so_tags _ _ H QMetadata p f Hp Hf). cbn in *. congruence.
Qed.

Lemma at_rest_quiet_put fl pin x i sh sh' :
  at_rest fl pin x -> bp_shards x !! i = Some sh -> same_frames (resident sh) (resident sh') -> shard_ok 0 sh' ->
  shard_bounds (snd pin) sh' -> at_rest fl pin (put_shard i sh' x).
Proof.
  intros R Hs Hr H1 H2. rewrite <- (moved_same x). apply (at_rest_put fl pin); [done|by right| |done|done]. rewrite moved_same.
  eapply quiet_core; [by eapply quiet_put|apply R].
Qed.

(** [acquire_in_class] on a resident page. *)
Lemma acquire_hit fl p x sh f t (i := shard_for x p)
    (promoted := fr_foreground_touched f && negb (fr_metadata f) && negb (fr_streaming f) && negb (fr_protected f)) :
  at_rest fl rest x -> bp_shards x !! i = Some sh -> resident sh !! p = Some f -> held <> Some p ->
  exists x' f', (mod_frame i p (fun f => let f := touch t f in if promoted then fr_set_protected true f else f) ;;;
     if promoted then
       mod_shard i (fun sh => enforce_protected_capacity
         (set_protected (protected sh ++ [p]) (set_probationary (remove_from p (probationary sh)) sh)))
     else st_ret tt) x = (Val tt, x') /\ at_rest fl (taken p) x' /\ view fl x x' /\ frame x' p = Some f' /\ fr_data f' = fr_data f.
Proof.
  intros R Hs Hf Hnh. pose proof R as [C H]. destruct (H i sh Hs) as [Hok Hb].
  destruct (frame_home x i sh p f (co_home _ _ _ _ C) Hs Hf) as [_ Hfr].
  destruct (co_frame _ _ _ _ C p f Hfr) as [F1 F2 F3 F4 F5 F6]. rewrite decide_False in F4 by (by apply not_pinned).
  set (g := fun f : Frame => let f := touch t f in if promoted then fr_set_protected true f else f).
  assert (Hg : keeps_flags g) by (intros q h; unfold g; destruct q, promoted; done).
  assert (Eg : fr_data (g f) = fr_data f /\ fr_pins (g f) = 1 /\ fr_dirty (g f) = fr_dirty f).
  { unfold g. destruct promoted; cbn; by rewrite F4. }
  destruct Eg as (E1 & E2 & E3).
  destruct (refit fl rest (taken p) p g x sh f (bp_dirty_index x) R Hs Hf Hg) as (R1 & L1 & Hf1).
  { intros q Hne. cbn. split; congruence. }
  { by left. }
  { by rewrite decide_True by (by left). }
  { by rewrite E1. }
  { by rewrite E3. }
  { done. }
  { done. }
  { rewrite E3, (co_index _ _ _ _ C), Hfr. split; [by intros (? & [= <-] & ?)|eauto]. }
  rewrite moved_same in R1, L1, Hf1. fold i in R1, L1, Hf1. set (sh1 := set_resident (alter g p (resident sh)) sh) in *.
  set (x1 := put_shard i sh1 x) in *.
  assert (V1 : view fl x x1) by (by eapply (refit_view fl rest (taken p)); [apply R|apply R1|..]).
  assert (Hs1 : bp_shards x1 !! i = Some sh1) by (by eapply put_lookup).
  unfold st_bind, mod_frame. rewrite (mod_shard_run i sh _ x Hs). fold g sh1 x1. destruct promoted eqn:Hpr.
  - rewrite (mod_shard_run i sh1 _ x1 Hs1). set (sh2 := set_protected _ _).
    assert (Hprob : p ∈ probationary sh).
    { unfold promoted in Hpr. apply andb_prop in Hpr as [Hpr H3]. apply andb_prop in Hpr as [Hpr H2].
      apply andb_prop in Hpr as [_ H1]. apply negb_true_iff in H1, H2, H3. by eapply probationary_page. }
    assert (Hok2 : shard_ok 0 sh2).
    { apply (shard_promote 0 p (g f)); [by apply shard_alter|done| |by unfold g].
      cbn [sh1 set_resident resident]. by rewrite lookup_alter_eq, Hf. }
    destruct (enforce_protected_spec 0 sh2 Hok2) as (Hok3 & Hr3 & (K1 & K2 & K3 & K4 & K5 & K6) & Hl3 & Hsub).
    set (sh3 := enforce_protected_capacity sh2) in *.
    assert (Q : quiet x1 (put_shard i sh3 x1)) by (by eapply quiet_put).
    destruct (quiet_sym_frame x1 _ p (g f) Q Hf1) as (f' & Hf' & Ef & _).
    eexists _, f'. split; [reflexivity|]. ands; [|etrans; [exact V1|by apply quiet_view]|done|by rewrite Ef].
    eapply at_rest_quiet_put; [done|done|done|done|]. destruct Hb as [B1 B2 B3 B4].
    split; rewrite ?K1, ?K2, ?K3, ?K4, ?K5; try done. intros h Hh. destruct (B4 h Hh) as (P1 & P2 & P3 & P4).
    rewrite K1, K2, K3, K5, K6. ands; try done. intros Hin%Hsub. apply elem_of_app in Hin as [?|Hin%list_elem_of_singleton]; [done|].
    cbn in Hh. congruence.
  - exists x1, (g f). by ands.
Qed.

(** Every page in use can be pinned. *)
Lemma acquire_spec fl cls p c x :
  at_rest fl rest x -> avail fl x p c -> held <> Some p ->
  exists x' f, acquire_in_class before_writeback crc32 p cls x = (Val tt, x') /\ at_rest fl (taken p) x' /\ view fl x x' /\
    frame x' p = Some f /\ same_page (fr_data f) c /\
    (cls = Search -> frame x p = None -> fr_dirty f = false /\ exists sh', bp_shards x' !! shard_for x p = Some sh' /\ p ∈ probationary sh').
Proof.
  intros R Ha Hnh. unfold acquire_in_class. unfold st_bind at 1. destruct (cancel_run p x) as (x0 & -> & S0).
  pose proof (same_pool_rest fl rest x x0 S0 R) as R0. pose proof (same_pool_quiet x x0 S0) as Q0.
  destruct (vi_avail _ _ _ _ (quiet_view crc32 fl x x0 Q0) p c Ha) as (c0 & Ha0 & Hc0).
  destruct (home_shard x0 p (co_home _ _ _ _ (ar_core _ _ _ R0))) as [sh Hs].
  unfold st_bind at 1, gets at 1. cbv beta iota. unfold st_bind at 1. rewrite (shard_run _ sh x0 Hs).
  destruct (resident sh !! p) as [f|] eqn:Hf.
  - unfold st_bind at 1, gets at 1. cbv beta iota.
    destruct (acquire_hit fl p x0 sh f (bp_current_transaction x0) R0 Hs Hf Hnh) as (x' & f' & E & R' & V' & Hf' & Ed).
    destruct (frame_home x0 _ sh p f (co_home _ _ _ _ (ar_core _ _ _ R0)) Hs Hf) as [_ Hfr].
    exists x', f'. split; [exact E|]. ands; try done; [etrans; [by apply quiet_view|done]| |intros _ Hn; rewrite (same_pool_frame x x0 p S0) in Hfr; congruence].
    rewrite Ed. by rewrite (avail_fun fl x0 p _ _ (frame_avail fl rest x0 p f (ar_core _ _ _ R0) Hfr) Ha0).
  - destruct (acquire_miss fl cls p c0 sh x0 R0 Ha0 Hs Hf) as (x' & f' & E & R' & V' & Hf' & Ed & Hc).
    exists x', f'. split; [exact E|]. ands; try done; [etrans; [by apply quiet_view|done]|by etrans|].
    intros Ec _. destruct (Hc Ec) as (K1 & sh' & K2 & K3). split; [done|]. exists sh'. split; [|done]. unfold shard_for in *. by rewrite <- (sp_shards _ _ S0).
Qed.

(** ** Reading a page *)

Lemma guard_run x p f : frame x p = Some f -> guard_bytes p x = (Val (fr_data f), x).
Proof. intros Hf. unfold guard_bytes. unfold frame in Hf. by rewrite Hf. Qed.

Lemma drop_run fl p f x : at_rest fl (taken p) x -> frame x p = Some f -> held <> Some p ->
  exists x', drop_guard p x = (Val tt, x') /\ at_rest fl rest x' /\ view fl x x' /\
    exists f', frame x' p = Some f' /\ fr_data f' = fr_data f.
Proof.
  intros R Hf Hnh. pose proof R as [C H]. destruct (home_shard x p (co_home _ _ _ _ C)) as [sh Hs].
  assert (Hr : resident sh !! p = Some f) by (by rewrite <- (frame_at x (shard_for x p) sh)).
  destruct (co_frame _ _ _ _ C p f Hf) as [F1 F2 F3 F4 F5 F6]. rewrite decide_True in F4 by (by left).
  set (g := fun f => fr_set_pins ((fr_pins f - 1) mod U32) f).
  destruct (refit fl (taken p) rest p g x sh f (bp_dirty_index x) R Hs Hr) as (R1 & L1 & Hf1); try done.
  { intros [] h; done. }
  { intros q Hne. cbn. split; congruence. }
  { by left. }
  { rewrite decide_False by (by apply not_pinned). unfold g. cbn. by rewrite F4. }
  { rewrite (co_index _ _ _ _ C), Hf. split; [by intros (? & [= <-] & ?)|eauto]. }
  rewrite moved_same in R1, L1, Hf1. unfold drop_guard, st_bind, gets, mod_frame. rewrite (mod_shard_run _ sh _ x Hs). fold g.
  eexists. split; [reflexivity|]. ands; [done| |eauto].
  eapply (refit_view fl (taken p) rest); [exact C|apply R1|done..].
Qed.

(** [get_in_class]: the contents of the page, and the pool at rest again. *)
Lemma pool_get_spec fl cls p c x :
  at_rest fl rest x -> avail fl x p c -> held <> Some p ->
  exists b x', get_in_class before_writeback crc32 p cls x = (Val b, x') /\ same_page b c /\ at_rest fl rest x' /\ view fl x x'.
Proof.
  intros R Ha Hnh. destruct (acquire_spec fl cls p c x R Ha Hnh) as (x1 & f & E1 & R1 & V1 & Hf & Hs & _).
  destruct (drop_run fl p f x1 R1 Hf Hnh) as (x2 & E2 & R2 & V2 & _). exists (fr_data f), x2.
  ands; [|done|done|by etrans]. unfold get_in_class. unfold st_bind at 1. rewrite E1.
  unfold st_bind at 1. rewrite (guard_run x1 p f Hf). unfold st_bind. by rewrite E2.
Qed.

(** ** Changing a page *)

Lemma mod_frame_run i p g sh f x : bp_shards x !! i = Some sh -> resident sh !! p = Some f ->
  mod_frame i p g x = (Val tt, put_shard i (set_resident (<[p := g f]> (resident sh)) sh) x).
Proof. intros Hs Hf. unfold mod_frame. rewrite (mod_shard_run i sh _ x Hs). by rewrite (alter_is_insert g _ p f Hf). Qed.

(** The bytes written through the guard and its drop, as one change. *)
Definition rewritten (b : bytes) (f : Frame) : Frame :=
  let f := fr_set_dirty true true (fr_set_data b f) in fr_set_pins ((fr_pins f - 1) mod U32) f.

Lemma write_and_drop p b sh f x (i := shard_for x p) :
  bp_shards x !! i = Some sh -> resident sh !! p = Some f ->
  (mod_frame i p (fr_set_data b) ;;; drop_guard_mut p) x =
  (Val tt, put_shard i (set_resident (alter (rewritten b) p (resident sh)) sh)
             (moved (bp_store x) (bp_barrier x) (bp_dirty_index x ∪ {[p]}) x)).
Proof.
  intros Hs Hf. unfold st_bind at 1. rewrite (mod_frame_run i p _ sh f x Hs Hf).
  set (sh1 := set_resident _ sh). set (x1 := put_shard i sh1 x). unfold drop_guard_mut. unfold st_bind at 1, gets.
  assert (Hi : shard_for x1 p = i) by apply shard_for_put. rewrite Hi. cbv beta iota.
  assert (Hs1 : bp_shards x1 !! i = Some sh1) by (by eapply put_lookup).
  unfold st_bind at 1. rewrite (mod_frame_run i p _ sh1 (fr_set_data b f) x1 Hs1) by apply lookup_insert_eq.
  set (sh2 := set_resident _ sh1). set (x2 := put_shard i sh2 x1). unfold st_bind at 1, modify.
  assert (Hs2 : bp_shards (with_index (bp_dirty_index x2 ∪ {[p]}) x2) !! i = Some sh2) by (by eapply put_lookup).
  rewrite (mod_frame_run i p _ sh2 (fr_set_dirty true true (fr_set_data b f)) _ Hs2) by apply lookup_insert_eq.
  f_equal. rewrite (alter_is_insert _ _ p f Hf). cbn [sh2 sh1 set_resident resident]. rewrite !insert_insert_eq.
  set (sh3 := set_resident _ _). set (d := bp_dirty_index x ∪ {[p]}).
  transitivity (put_shard i sh3 (with_index d x1)); [exact (put_put i sh3 sh2 (with_index d x1))|].
  exact (put_put i sh3 sh1 (moved (bp_store x) (bp_barrier x) d x)).
Qed.

(** [get_mut]: what the guard shows, and the page after the change. *)
Lemma pool_get_mut_spec fl p c x :
  at_rest fl rest x -> avail fl x p c -> held <> Some p ->
  exists b0, same_page b0 c /\ forall A (m : st PageError bytes A), readable (page_size (bp_store x)) (snd (m b0)) ->
    exists x', get_mut before_writeback crc32 p m x = (fst (m b0), x') /\ at_rest fl rest x' /\
      avail fl x' p (snd (m b0)) /\ page_size (bp_store x') = page_size (bp_store x) /\
      page_count (meta (bp_store x')) = page_count (meta (bp_store x)) /\
      root_page (meta (bp_store x')) = root_page (meta (bp_store x)) /\
      forall q d, q <> p -> avail fl x q d -> exists d', avail fl x' q d' /\ same_page d' d.
Proof.
  intros R Ha Hnh. destruct (acquire_spec fl Search p c x R Ha Hnh) as (x1 & f & E1 & R1 & V1 & Hf & Hs & _).
  exists (fr_data f). split; [done|]. intros A m Hrd. destruct (m (fr_data f)) as [r b] eqn:Em. cbn [fst snd] in *.
  pose proof (ar_core _ _ _ R1) as C1. destruct (home_shard x1 p (co_home _ _ _ _ C1)) as [sh Hsh].
  assert (Hr : resident sh !! p = Some f) by (by rewrite <- (frame_at x1 (shard_for x1 p) sh)).
  destruct (co_frame _ _ _ _ C1 p f Hf) as [F1 F2 F3 F4 F5 F6]. rewrite decide_True in F4 by (by left).
  destruct (refit fl (taken p) rest p (rewritten b) x1 sh f (bp_dirty_index x1 ∪ {[p]}) R1 Hsh Hr) as (R2 & L2 & Hf2); try done.
  { intros [] h; done. }
  { intros q Hne. cbn. split; congruence. }
  { by left. }
  { rewrite decide_False by (by apply not_pinned). unfold rewritten. cbn. by rewrite F4. }
  { rewrite (vi_size _ _ _ _ V1). done. }
  { intros q. apply with_other. }
  { split; [done|]. intros _. apply elem_of_union. right. by apply elem_of_singleton. }
  set (x2 := put_shard _ _ _) in *. exists x2. pose proof L2 as [_ _ _ _ K1 K2 K3 _ _]. ands.
  - unfold get_mut. unfold st_bind at 1, gets at 1. rewrite (co_writable _ _ _ _ (ar_core _ _ _ R)). cbv beta iota.
    unfold st_bind at 1. rewrite E1. unfold st_bind at 1. rewrite (guard_run x1 p f Hf).
    unfold st_bind at 1, gets at 1. cbv beta iota. rewrite Em.
    pose proof (write_and_drop p b sh f x1 Hsh Hr) as Ew. fold x2 in Ew. unfold st_bind in Ew |- *.
    destruct (mod_frame _ _ _ x1) as [[[]|e|] y]; [|done..]. by rewrite Ew.
  - done.
  - exact (frame_avail fl rest x2 p _ (ar_core _ _ _ R2) Hf2).
  - rewrite K2. apply V1.
  - rewrite K1. apply V1.
  - rewrite K3. apply V1.
  - intros q d Hne Hq. destruct (vi_avail _ _ _ _ V1 q d Hq) as (d' & Hd & Hsd). exists d'. split; [|done].
    by eapply local_avail.
Qed.
End Held.

(** ** A guard kept open *)

(** A page that was just read in, into the probationary queue, stays pinned
    while the client makes other calls. *)
Lemma hold_guard fl p f sh x :
  at_rest fl (Some p, None) x -> frame x p = Some f -> fr_dirty f = false -> bp_shards x !! shard_for x p = Some sh -> p ∈ probationary sh ->
  (forall i sh, bp_shards x !! i = Some sh -> (S (protected_capacity sh + metadata_capacity sh) < capacity sh)%nat) ->
  at_rest fl (None, Some p) x.
Proof.
  intros [[C1 C2 C3 C4 C5 C6] H] Hf Hd Hs Hp Hroom. split.
  - split; [done..| |done|].
    + intros q g Hq. destruct (C4 q g Hq) as [F1 F2 F3 F4 F5 F6]. split; try done.
      * rewrite F4. apply decide_ext. unfold pinned. cbn. tauto.
      * intros _. by apply F5.
      * intros [= <-]. congruence.
    + intros h [= <-]. by rewrite Hf.
  - intros i sh' Hi. destruct (H i sh' Hi) as [Hok [B1 B2 B3 _]]. split; [done|]. split; try done.
    intros h [= <-]. split; [by eapply Hroom|]. assert (Hne : forall q, q <> QProbationary -> p ∉ queue_of q sh').
    { intros q Hq Hin. assert (Hh : shard_for x p = i).
      { apply (ho_home _ C3 i sh' p Hi). by apply (queues_resident 0 sh' p Hok), (queue_elem q). }
      assert (sh' = sh) as -> by congruence. pose proof (queues_nodup 0 sh Hok) as Hnd. unfold queues in Hnd.
      apply NoDup_app in Hnd as (_ & Hnd & _). apply (Hnd p Hp). rewrite !elem_of_app. destruct q; cbn in Hin; tauto. }
    ands; [by apply (Hne QProtected)|by apply (Hne QStreaming)|by apply (Hne QMetadata)].
Qed.

(** What the client writes through the guard it keeps. *)
Lemma write_held fl p f b x : at_rest fl (None, Some p) x -> frame x p = Some f -> readable (page_size (bp_store x)) b ->
  exists x', mod_frame (shard_for x p) p (fr_set_data b) x = (Val tt, x') /\ at_rest fl (None, Some p) x' /\
    local_change crc32 fl p x x' /\ frame x' p = Some (fr_set_data b f).
Proof.
  intros R Hf Hrd. pose proof R as [C H]. destruct (home_shard x p (co_home _ _ _ _ C)) as [sh Hs].
  assert (Hr : resident sh !! p = Some f) by (by rewrite <- (frame_at x (shard_for x p) sh)).
  destruct (co_frame _ _ _ _ C p f Hf) as [F1 F2 F3 F4 F5 F6].
  destruct (refit fl (None, Some p) (None, Some p) p (fr_set_data b) x sh f (bp_dirty_index x) R Hs Hr) as (R1 & L1 & Hf1); try done.
  { intros [] h; done. }
  { by left. }
  { rewrite (co_index _ _ _ _ C), Hf. split; [by intros (? & [= <-] & ?)|eauto]. }
  rewrite moved_same in R1, L1, Hf1. unfold mod_frame. rewrite (mod_shard_run _ sh _ x Hs). by eexists.
Qed.

(** The guard is dropped: the page keeps what was written, and is dirty. *)
Lemma close_held fl p f x : at_rest fl (None, Some p) x -> frame x p = Some f ->
  exists x', drop_guard_mut p x = (Val tt, x') /\ at_rest fl (None, None) x' /\ view fl x x'.
Proof.
  intros R Hf. pose proof R as [C H]. destruct (home_shard x p (co_home _ _ _ _ C)) as [sh Hs].
  assert (Hr : resident sh !! p = Some f) by (by rewrite <- (frame_at x (shard_for x p) sh)).
  destruct (co_frame _ _ _ _ C p f Hf) as [F1 F2 F3 F4 F5 F6]. rewrite decide_True in F4 by (by right).
  destruct (refit fl (None, Some p) (None, None) p (rewritten (fr_data f)) x sh f (bp_dirty_index x ∪ {[p]}) R Hs Hr) as (R1 & L1 & Hf1); try done.
  { intros [] h; done. }
  { by right. }
  { rewrite decide_False by (by intros [[=]|[=]]). unfold rewritten. cbn. by rewrite F4. }
  { intros q. apply with_other. }
  { split; [done|]. intros _. apply elem_of_union. right. by apply elem_of_singleton. }
  pose proof (write_and_drop p (fr_data f) sh f x Hs Hr) as Ew. unfold st_bind in Ew. rewrite (mod_frame_run _ p _ sh f x Hs Hr) in Ew.
  rewrite insert_id in Ew by (rewrite Hr; by destruct f). replace (set_resident (resident sh) sh) with sh in Ew by (by destruct sh).
  rewrite (put_same _ sh x Hs) in Ew. eexists. split; [exact Ew|]. split; [done|].
  by eapply (refit_view fl (None, Some p) (None, None)); [exact C|apply R1|..].
Qed.
End PoolAccess.
