(* ===== verification/PoolPager.v ===== *)
(** * The buffer pool as a pager

    Flushing, allocation behind the pool and the publication of a root keep the
    pool's invariant, so the pool discharges [PagerLaws]: everything proved of a
    client of the interface holds of the client running on the modelled pool and
    page store. *)

From stdpp Require Import base tactics list numbers gmap.
From Stdlib Require Import ZArith Lia.
From S2P Require Import Prelude Search Bytes Errors PageFormat PageStore PageStoreSpec Allocator.
From S2P Require Import Recovery RecoveryTheorems Checkpoint Pager Pool PoolShard PoolSpec PoolAccess.
Local Open Scope Z_scope.
Local Open Scope bic_scope.

Section PoolPager.
Context {B : Type}.
Variable before_writeback : Z -> Z -> bytes -> st PageError B unit.
Variable crc32 : bytes -> Z.
Variable hash_order : gmap Z Frame -> list Z.
Hypothesis Hbarrier : forall p t b w, exists w', before_writeback p t b w = (Val tt, w').
Hypothesis Hcrc : forall l, is_u32 (crc32 l).
Hypothesis Hhash : forall m, hash_order m ≡ₚ (map_to_list m).*1.

Abbreviation Pool := (BufferPool B).
Abbreviation core := (core crc32).
Abbreviation view := (view crc32).
Abbreviation avail := (avail crc32).
Abbreviation at_rest := (at_rest crc32).
Implicit Types x : Pool.

(** ** Write-back at rest *)

Lemma write_back_rest fl pin x p f (i := shard_for x p) :
  at_rest fl pin x -> frame x p = Some f ->
  exists x', write_back_frame before_writeback crc32 i p x = (Val (fr_dirty f), x') /\ at_rest fl pin x' /\ view fl x x' /\
    bp_dirty_index x' = bp_dirty_index x ∖ {[p]} /\ length (bp_shards x') = length (bp_shards x) /\
    forall q, is_Some (frame x' q) <-> is_Some (frame x q).
Proof.
  intros R Hf. pose proof R as [C H]. destruct (home_shard x p (co_home _ _ _ _ C)) as [sh Hs]. fold i in Hs.
  assert (Hr : resident sh !! p = Some f) by (by rewrite <- (frame_at x i sh)). destruct (H i sh Hs) as [Hok Hb].
  destruct (fr_dirty f) eqn:Hd.
  - destruct (write_back_spec before_writeback crc32 Hbarrier Hcrc fl pin x p sh f C Hs Hr Hd) as (s & w & c & E & C' & V').
    fold i in E, C', V'. set (sh' := set_resident _ sh) in *. eexists. split; [exact E|].
    assert (Hok' : shard_ok 0 sh').
    { pose proof (shard_alter 0 (fun f => fr_set_dirty false false (fr_set_data c f)) p sh Hok ltac:(by intros [] h)) as Hok'.
      by rewrite (alter_is_insert _ _ p f Hr) in Hok'. }
    ands; [apply (at_rest_put crc32 fl pin); [done|by right|done..|by destruct Hb]|done|done|cbn; by rewrite length_insert|].
    intros q. pose proof (frame_put (moved s w (bp_dirty_index x ∖ {[p]}) x) i sh sh' q Hs) as Eq. rewrite Eq.
    destruct (decide _) as [Ei|]; [|done]. change (shard_for x q = i) in Ei. rewrite (frame_at x i sh q Hs Ei).
    cbn [sh' set_resident resident]. destruct (decide (p = q)) as [->|Hne]; [|by rewrite lookup_insert_ne].
    rewrite lookup_insert_eq, Hr. split; eauto.
  - exists x. ands; try done.
    + unfold write_back_frame, st_bind. rewrite (shard_run i sh x Hs), Hr, Hd. done.
    + symmetry. apply difference_disjoint_L. intros q Hq ->%elem_of_singleton.
      apply (co_index _ _ _ _ C) in Hq as (f' & Hf' & ?). congruence.
Qed.

(** What a sweep over the pages [ps] does. *)
Record swept (fl : list Z) (pin : Pins) (x x' : Pool) : Prop := {
  sw_rest : at_rest fl pin x';
  sw_view : view fl x x';
  sw_length : length (bp_shards x') = length (bp_shards x);
  sw_frames : forall q, is_Some (frame x' q) <-> is_Some (frame x q)
}.

Lemma swept_refl fl pin x : at_rest fl pin x -> swept fl pin x x.
Proof. by split. Qed.

Lemma swept_trans fl pin x1 x2 x3 : swept fl pin x1 x2 -> swept fl pin x2 x3 -> swept fl pin x1 x3.
Proof. intros [A1 A2 A3 A4] [B1 B2 B3 B4]. split; [done|by etrans|congruence|]. intros q. by rewrite B4. Qed.

Lemma flush_frames_spec fl pin i ps x :
  at_rest fl pin x -> (forall p, p ∈ ps -> is_Some (frame x p) /\ shard_for x p = i) ->
  exists n x', flush_frames before_writeback crc32 i ps x = (Val n, x') /\ swept fl pin x x' /\
    bp_dirty_index x' = bp_dirty_index x ∖ list_to_set ps.
Proof.
  revert x. induction ps as [|p ps IH]; intros x R Hps; cbn [flush_frames].
  { eexists _, x. split; [done|]. split; [by apply swept_refl|]. cbn. by rewrite difference_empty_L. }
  destruct (Hps p ltac:(by left)) as [[f Hf] Hi].
  destruct (write_back_rest fl pin x p f R Hf) as (x1 & E1 & R1 & V1 & D1 & L1 & F1). rewrite Hi in E1.
  destruct (IH x1 R1) as (n & x2 & E2 & S2 & D2).
  { intros q Hq. destruct (Hps q ltac:(by right)) as [Hq1 Hq2]. split; [by apply F1|]. unfold shard_for in *. by rewrite L1. }
  eexists _, x2. split; [|split].
  - unfold st_bind at 1. rewrite E1. unfold st_bind. by rewrite E2.
  - eapply swept_trans; [|exact S2]. by split.
  - rewrite D2, D1. cbn [list_to_set]. by rewrite difference_difference_l_L.
Qed.

Lemma dirty_frames_elem sh p : p ∈ dirty_frames hash_order sh <-> exists f, resident sh !! p = Some f /\ fr_dirty f = true.
Proof.
  unfold dirty_frames. rewrite list_elem_of_filter, Hhash, list_elem_of_fmap. split.
  - intros [Hd _]. destruct (resident sh !! p) as [f|]; [|done]. exists f. split; [done|]. by injection Hd.
  - intros (f & Hf & Hd). rewrite Hf. cbn. split; [by rewrite Hd|]. exists (p, f). split; [done|]. by apply elem_of_map_to_list.
Qed.

Lemma flush_shards_spec fl pin is_ x :
  at_rest fl pin x -> (forall i, i ∈ is_ -> (i < length (bp_shards x))%nat) ->
  exists n x', flush_shards before_writeback crc32 hash_order is_ x = (Val n, x') /\ swept fl pin x x' /\
    forall p, p ∈ bp_dirty_index x' -> p ∈ bp_dirty_index x /\ shard_for x p ∉ is_.
Proof.
  revert x. induction is_ as [|i is_ IH]; intros x R His; cbn [flush_shards].
  { eexists _, x. split; [done|]. split; [by apply swept_refl|]. intros p Hp. split; [done|]. apply not_elem_of_nil. }
  destruct (lookup_lt_is_Some_2 (bp_shards x) i) as [sh Hs]; [apply His; by left|].
  pose proof (co_home _ _ _ _ (ar_core _ _ _ _ R)) as Hh.
  destruct (flush_frames_spec fl pin i (dirty_frames hash_order sh) x R) as (n & x1 & E1 & S1 & D1).
  { intros p (f & Hf & _)%dirty_frames_elem. destruct (frame_home x i sh p f Hh Hs Hf) as [? Hfr]. split; [by rewrite Hfr|done]. }
  destruct (IH x1 (sw_rest _ _ _ _ S1)) as (m & x2 & E2 & S2 & D2).
  { intros j Hj. rewrite (sw_length _ _ _ _ S1). apply His. by right. }
  eexists _, x2. split; [|split].
  - unfold st_bind at 1. rewrite (shard_run i sh x Hs). unfold st_bind at 1. rewrite E1. unfold st_bind. by rewrite E2.
  - by eapply swept_trans.
  - intros p Hp. destruct (D2 p Hp) as [Hp1 Hn]. rewrite D1 in Hp1. apply elem_of_difference in Hp1 as [Hp1 Hp2].
    split; [done|]. rewrite elem_of_cons. intros [Ei|Ei].
    + apply Hp2, elem_of_list_to_set, dirty_frames_elem. apply (co_index _ _ _ _ (ar_core _ _ _ _ R)) in Hp1 as (f & Hf & Hd).
      exists f. split; [|done]. by rewrite <- (frame_at x i sh).
    + apply Hn. unfold shard_for in *. by rewrite (sw_length _ _ _ _ S1).
Qed.

(** ** The store behind the pool *)

Lemma free_list_kept s s' fl :
  free_list crc32 s fl -> pages_kept (fun q => q <> 0) s s' -> page_count (meta s') = page_count (meta s) ->
  free_list_head (meta s') = free_list_head (meta s) -> free_page_count (meta s') = free_page_count (meta s) ->
  is_u64 (m_generation (meta s')) -> free_list crc32 s' fl.
Proof.
  intros [Hl Hc [Hpc Hpz] Hg Hch Hnd Hlen Hr] [L K S P] E1 E2 E3 Hg'. pose proof (lo_page s Hl) as Hps.
  split; try done; rewrite ?E1, ?E2, ?E3, ?S; try done. apply (chained_frame crc32 s); [|done]. intros q k Hq.
  rewrite Forall_forall in Hr. specialize (Hr q Hq). assert (Ha : addressable s q) by (apply addressable_below; lia).
  apply hdr_raw; try done. intros c. apply P; [done|lia].
Qed.

(** The store changes, but no page the pool can hold. *)
Lemma at_rest_store fl pin x s :
  at_rest fl pin x -> pages_kept (fun q => q <> 0) (bp_store x) s -> page_count (meta s) = page_count (meta (bp_store x)) ->
  free_list_head (meta s) = free_list_head (meta (bp_store x)) ->
  free_page_count (meta s) = free_page_count (meta (bp_store x)) -> is_u64 (m_generation (meta s)) ->
  at_rest fl pin (with_store s x) /\ forall p c, avail fl x p c -> avail fl (with_store s x) p c.
Proof.
  intros [[C1 C2 C3 C4 C5 C6] H] K E1 E2 E3 Hg. pose proof (free_list_kept _ s fl C2 K E1 E2 E3 Hg) as F.
  destruct K as [L Kc S P]. pose proof (fl_count _ _ _ C2) as [_ Hz]. pose proof (lo_page _ (fl_layout _ _ _ C2)) as Hps.
  assert (Hraw : forall p c, 0 < p < page_count (meta (bp_store x)) -> raw (bp_store x) p = Some c -> raw s p = Some c).
  { intros p c Hp. apply P; [apply addressable_below; lia|lia]. }
  split.
  - split; [|done]. split; [done|done|by destruct C3| |done|done]. intros p f Hf. destruct (C4 p f Hf) as [F1 F2 F3 F4 F5 F6].
    split; cbn; [by rewrite E1|done|by rewrite S|done| |done]. intros Hn Hd. destruct (F5 Hn Hd). split; [by apply Hraw|done].
  - intros p c [A1 A2 A3 A4]. split; cbn; [by rewrite E1|done|by rewrite S|]. change (frame (with_store s x) p) with (frame x p).
    destruct (frame x p); [done|]. destruct A4. split; [by apply Hraw|done].
Qed.

(** [flush_all] leaves no dirty frame. *)
Lemma flush_all_spec fl pin x :
  at_rest fl pin x ->
  exists n x', flush_all before_writeback crc32 hash_order x = (Val n, x') /\ at_rest fl pin x' /\ view fl x x' /\
    bp_dirty_index x' = ∅ /\ forall q, is_Some (frame x' q) <-> is_Some (frame x q).
Proof.
  intros R. unfold flush_all. unfold st_bind at 1, gets. cbv beta iota.
  destruct (flush_shards_spec fl pin (seq 0 (length (bp_shards x))) x R) as (n & x1 & E1 & [R1 V1 L1 F1] & D1).
  { intros i Hi%elem_of_seq. lia. }
  unfold st_bind at 1. rewrite E1. pose proof (ar_core _ _ _ _ R1) as C1. pose proof (co_store _ _ _ _ C1) as Fl.
  destruct (flush_keeps crc32 (bp_store x1) (fl_layout _ _ _ Fl) (fl_calm _ _ _ Fl)) as (s & Es & K & M).
  destruct (at_rest_store fl pin x1 s R1 K) as [R2 A2]; rewrite ?M; try done; [apply Fl|].
  exists n, (with_store s x1). ands.
  - unfold st_bind, on_store. by rewrite Es.
  - done.
  - etrans; [exact V1|]. split; cbn; rewrite ?M; try done; [apply K|]. intros p c Ha. exists c. split; [by apply A2|done].
  - cbn. apply set_eq. intros p. split; [|by intros ?%elem_of_empty]. intros Hp. destruct (D1 p Hp) as [_ Hn]. exfalso. apply Hn.
    apply elem_of_seq. destruct (home_shard x p (co_home _ _ _ _ (ar_core _ _ _ _ R))) as [sh Hs].
    apply lookup_lt_Some in Hs. lia.
  - exact F1.
Qed.

Lemma publish_spec fl x root lsn :
  at_rest fl (None, None) x ->
  exists x', on_store (publish_root crc32 root lsn) x = (Val tt, x') /\ at_rest fl (None, None) x' /\
    page_size (bp_store x') = page_size (bp_store x) /\ page_count (meta (bp_store x')) = page_count (meta (bp_store x)) /\
    root_page (meta (bp_store x')) = root /\ forall p c, avail fl x p c -> avail fl x' p c.
Proof.
  intros R. pose proof (co_store _ _ _ _ (ar_core _ _ _ _ R)) as Fl.
  destruct (publish_root_keeps crc32 (bp_store x) root lsn (fl_layout _ _ _ Fl) (fl_calm _ _ _ Fl)) as (s & Es & K & M).
  destruct (at_rest_store fl (None, None) x s R K) as [R2 A2]; rewrite ?M; try done.
  { cbn. pose proof (fl_gen _ _ _ Fl). apply sat_add_u64. unfold is_u64 in *. lia. }
  exists (with_store s x). ands; [unfold on_store; by rewrite Es|done|apply K|cbn; by rewrite M|cbn; by rewrite M|done].
Qed.

(** A page of a pool without dirty frames is in the file as it is cached. *)
Lemma clean_raw fl x p c : at_rest fl (None, None) x -> bp_dirty_index x = ∅ -> avail fl x p c ->
  raw (bp_store x) p = Some c /\ verify crc32 c p = Val tt.
Proof.
  intros R D Hc. pose proof (av_where _ _ _ _ _ Hc) as Hw. destruct (frame x p) as [f|] eqn:Hf; [|done]. subst c.
  apply (fo_clean _ _ _ _ _ _ (co_frame _ _ _ _ (ar_core _ _ _ _ R) p f Hf)); [done|]. apply not_true_iff_false. intros Hd.
  assert (Hin : p ∈ bp_dirty_index x) by (apply (co_index _ _ _ _ (ar_core _ _ _ _ R)); eauto). rewrite D in Hin. by apply elem_of_empty in Hin.
Qed.


(** ** Allocation *)

Lemma blank_raw s p t : layout_ok s -> addressable s p -> blank crc32 s p t ->
  exists c, raw s p = Some c /\ verify crc32 c p = Val tt /\ readable (page_size s) c /\
    exists gen, decode c = Val (with_generation (new_header p t (page_size s)) gen).
Proof.
  intros Hl Ha (gen & Hb). unfold read_page in Hb. destruct (_ <=? p); [done|].
  destruct (raw_of_read crc32 s p _ Hl Ha Hb) as [c Hc]. exists c. rewrite (read_raw crc32 s p c Hl Ha Hc) in Hb.
  destruct (verify crc32 c p) as [[]| |]; [|done..]. cbn in Hb. destruct (decode c) as [h| |] eqn:Ed; [|done..].
  cbn in Hb. ands; [done|done|split; [by apply (blen_raw s Hl p)|eauto]|]. exists gen. congruence.
Qed.

Lemma pool_allocate_spec fl pin x t :
  at_rest fl pin x -> t <> Superblock -> t <> Free ->
  (page_count (meta (bp_store x)) + 2) * page_size (bp_store x) < U64 ->
  exists p c x' fl', on_store (allocate crc32 t) x = (Val p, x') /\ at_rest fl' pin x' /\ 0 < p /\
    (p ∈ fl \/ p = page_count (meta (bp_store x))) /\ avail fl' x' p c /\
    (exists gen, decode c = Val (with_generation (new_header p t (page_size (bp_store x))) gen)) /\
    (forall q, q ∈ fl' -> q ∈ fl) /\ page_size (bp_store x') = page_size (bp_store x) /\
    page_count (meta (bp_store x')) <= page_count (meta (bp_store x)) + 1 /\
    root_page (meta (bp_store x')) = root_page (meta (bp_store x)) /\
    (forall q d, avail fl x q d -> q <> p /\ avail fl' x' q d) /\ frame x' p = None.
Proof.
  intros R H1 H2 Hroom. pose proof R as [C H]. pose proof C as [C1 C2 C3 C4 C5 C6]. pose proof (fl_count _ _ _ C2) as [Hc Hz].
  pose proof (lo_page _ (fl_layout _ _ _ C2)) as Hps.
  assert (Hal : exists p s fl', allocate crc32 t (bp_store x) = (Val p, s) /\ free_list crc32 s fl' /\ blank crc32 s p t /\
    same_except (bp_store x) s p /\ page_count (meta (bp_store x)) <= page_count (meta s) <= page_count (meta (bp_store x)) + 1 /\
    root_page (meta s) = root_page (meta (bp_store x)) /\ page_size s = page_size (bp_store x) /\
    0 < p < page_count (meta s) /\ (p ∉ fl') /\ (p ∈ fl \/ p = page_count (meta (bp_store x))) /\ (forall q, q ∈ fl' -> q ∈ fl)).
  { destruct fl as [|q fl].
    - destruct (allocate_grows crc32 Hcrc _ t C2 H1 H2 Hroom) as (s & E & F & Bl & S & P1 & P2 & P3).
      eexists _, s, []. ands; [exact E|done|done|done|lia|lia|done|done|lia|lia|by intros ?%not_elem_of_nil|by right|done].
    - destruct (allocate_reuses crc32 Hcrc _ q fl t C2 H1 H2) as (s & E & F & Bl & S & P1 & P2 & P3).
      pose proof (fl_range _ _ _ C2) as [Hq _]%Forall_cons_1. pose proof (fl_nodup _ _ _ C2) as [Hn _]%NoDup_cons.
      eexists q, s, fl. ands; [exact E|done|done|done|lia|lia|done|done|lia|lia|done|left; by left|intros r Hr; by right]. }
  destruct Hal as (p & s & fl' & E & F & Bl & S & [P1 P1'] & P2 & P3 & Hp & Hnf & Hor & Hsub).
  assert (Hne : forall q, 0 < q < page_count (meta (bp_store x)) -> q ∉ fl -> q <> p).
  { intros q Hq Hqf ->. destruct Hor as [?|?]; [done|lia]. }
  assert (Hap : addressable s p) by (apply addressable_below; [lia|apply F|lia]).
  destruct (blank_raw s p t (fl_layout _ _ _ F) Hap Bl) as (c & Hraw & Hv & Hrd & Hdec). rewrite P3 in Hdec.
  assert (Hnr : frame x p = None).
  { destruct (frame x p) as [f|] eqn:Hf; [|done]. destruct (C4 p f Hf) as [F1 F2 _ _ _ _]. by destruct (Hne p F1 F2). }
  exists p, c, (with_store s x), fl'. ands; try done; try lia.
  - unfold on_store. by rewrite E.
  - split; [|done]. split; [done|done|by destruct C3| |done|done]. intros q f Hf. destruct (C4 q f Hf) as [F1 F2 F3 F4 F5 F6].
    split; cbn; [lia|auto|by rewrite P3|done| |done]. intros Hn Hd. destruct (F5 Hn Hd). split; [|done]. apply S; [by apply Hne|lia|done].
  - split; cbn; [lia|done|done|]. change (frame (with_store s x) p) with (frame x p). by rewrite Hnr.
  - intros q d [A1 A2 A3 A4]. assert (Hq : q <> p) by (by apply Hne). split; [done|]. split; cbn; [lia|auto|by rewrite P3|].
    change (frame (with_store s x) q) with (frame x q). destruct (frame x q); [done|]. destruct A4. split; [|done].
    apply S; [done|lia|done].
Qed.

(** ** The interface *)

(** The calls [btree.rs] makes: [BufferPool] for pages, its [store] for the rest. *)
#[local] Instance pool_pager : Pager Pool := {
  pg_page_size x := page_size (bp_store x);
  pg_get c p := get_in_class before_writeback crc32 p c;
  pg_get_mut A p m := get_mut before_writeback crc32 p m;
  pg_open A p m := open_mut before_writeback crc32 p m;
  pg_close p := drop_guard_mut p;
  pg_allocate t := on_store (allocate crc32 t);
  pg_free p := free_page before_writeback crc32 p;
  pg_flush_all := flush_all before_writeback crc32 hash_order;
  pg_request_read_ahead p := request_read_ahead [p] ;;; st_ret tt;
  pg_root_page x := root_page (meta (bp_store x));
  pg_publish_root root lsn := on_store (publish_root crc32 root lsn)
}.

(** The pool shows the pages of [σ], and [n] more can be allocated; the guard of
    [held] is open. *)
Definition pool_shows (held : option Z) (ps : Z) (n : nat) (x : Pool) (σ : gmap Z bytes) : Prop :=
  exists fl, at_rest fl (None, held) x /\ page_size (bp_store x) = ps /\
    (page_count (meta (bp_store x)) + Z.of_nat n + 1) * ps < U64 /\
    forall p b, σ !! p = Some b -> exists c, avail fl x p c /\ same_page c b.

Definition pool_models : Z -> nat -> Pool -> gmap Z bytes -> Prop := pool_shows None.

Lemma request_run ps x : exists r x', request_read_ahead ps x = (Val r, x') /\ same_pool x x'.
Proof.
  assert (One : forall p r x, exists r' x', request_one p r x = (Val r', x') /\ same_pool x x').
  { intros p r y. unfold request_one, st_bind, gets. cbv beta iota. change (id y) with y.
    destruct (_ || _); [by eexists _, y|]. destruct (is_resident y p); [by eexists _, y|].
    destruct (bool_decide _); [by eexists _, y|]. destruct (_ <=? _)%nat; (eexists _, _; split; [reflexivity|by split]). }
  assert (All : forall ps r x, exists r' x', request_all ps r x = (Val r', x') /\ same_pool x x').
  { clear ps x. induction ps as [|p ps IH]; intros r x; cbn [request_all]; [by eexists _, x|]. unfold st_bind.
    destruct (One p r x) as (r1 & x1 & -> & [A1 A2 A3 A4]). destruct (IH r1 x1) as (r2 & x2 & -> & [B1 B2 B3 B4]).
    exists r2, x2. split; [done|]. split; congruence. }
  unfold request_read_ahead, st_bind, gets. cbv beta iota. change (id x) with x. destruct (_ =? 0); [by eexists _, x|].
  destruct (bp_read_ahead_saturated x); [by eexists _, x|]. destruct (All ps rs_start x) as (r & x' & -> & S). by eexists _, x'.
Qed.

Section Held.
Context {held : option Z}.
Abbreviation shows := (pool_shows held).

Lemma models_view ps n x x' σ fl :
  at_rest fl (None, held) x' -> page_size (bp_store x) = ps -> (page_count (meta (bp_store x)) + Z.of_nat n + 1) * ps < U64 ->
  (forall p b, σ !! p = Some b -> exists c, avail fl x p c /\ same_page c b) -> view fl x x' -> shows ps n x' σ.
Proof.
  intros R Hps Hn Hσ [V1 V2 V3 V4]. exists fl. ands; [done|congruence|by rewrite V2|]. intros p b Hb.
  destruct (Hσ p b Hb) as (c & Hc & Hs). destruct (V4 p c Hc) as (c' & Hc' & Hs'). exists c'. split; [done|by etrans].
Qed.

Lemma shows_weaken ps n x σ : shows ps (1 + n) x σ -> shows ps n x σ.
Proof.
  intros (fl & R & Hps & Hn & Hσ). exists fl. ands; try done. pose proof (lo_page _ (fl_layout _ _ _ (co_store _ _ _ _ (ar_core _ _ _ _ R)))). nia.
Qed.

Lemma shows_get ps n x σ c p b : shows ps n x σ -> σ !! p = Some b -> held <> Some p ->
  exists b' x', get_in_class before_writeback crc32 p c x = (Val b', x') /\ same_page b' b /\ shows ps n x' σ.
Proof.
  intros (fl & R & Hps & Hn & Hσ) Hb Hne. destruct (Hσ p b Hb) as (c0 & Ha & Hs).
  destruct (pool_get_spec before_writeback crc32 Hbarrier Hcrc fl c p c0 x R Ha Hne) as (b' & x' & E & Hs' & R' & V').
  exists b', x'. split; [exact E|]. split; [by etrans|by eapply models_view].
Qed.

Lemma shows_get_mut ps n x σ p b : shows ps n x σ -> σ !! p = Some b -> held <> Some p ->
  exists b0, same_page b0 b /\ forall A (m : st PageError bytes A), readable ps (snd (m b0)) ->
    exists x', get_mut before_writeback crc32 p m x = (fst (m b0), x') /\ shows ps n x' (<[p := snd (m b0)]> σ).
Proof.
  intros (fl & R & Hps & Hn & Hσ) Hb Hne. destruct (Hσ p b Hb) as (c0 & Ha & Hs).
  destruct (pool_get_mut_spec before_writeback crc32 Hbarrier Hcrc fl p c0 x R Ha Hne) as (b0 & Hs0 & Hm).
  exists b0. split; [by etrans|]. intros A m Hrd. rewrite <- Hps in Hrd.
  destruct (Hm A m Hrd) as (x' & E & R' & Ha' & K1 & K2 & K3 & K4). exists x'. split; [exact E|].
  exists fl. ands; [done|congruence|by rewrite K2|]. intros q d. rewrite lookup_insert_Some.
  intros [[<- <-]|[Hne' Hq]]; [by eexists|]. destruct (Hσ q d Hq) as (c & Hc & Hsc).
  destruct (K4 q c ltac:(done) Hc) as (c' & Hc' & Hs'). exists c'. split; [done|by etrans].
Qed.

Lemma shows_allocate ps n x σ t : shows ps (1 + n) x σ -> t <> Superblock -> t <> Free ->
  exists p b x', on_store (allocate crc32 t) x = (Val p, x') /\ σ !! p = None /\ p <> 0 /\ is_u64 p /\ blen b = ps /\
    shows ps n x' (<[p := b]> σ) /\ frame x' p = None.
Proof.
  intros (fl & R & Hps & Hn & Hσ) H1 H2. rewrite Nat2Z.inj_add in Hn.
  pose proof (lo_page _ (fl_layout _ _ _ (co_store _ _ _ _ (ar_core _ _ _ _ R)))) as Hpz0. destruct (pool_allocate_spec fl _ x t R H1 H2) as
    (p & c & x' & fl' & E & R' & Hp & _ & Ha & _ & _ & K1 & K2 & K3 & K4 & K5); [rewrite Hps in *; nia|].
  pose proof (av_readable _ _ _ _ _ Ha) as [Hlen _]. pose proof (av_range _ _ _ _ _ Ha) as Hr.
  pose proof (fl_count _ _ _ (co_store _ _ _ _ (ar_core _ _ _ _ R'))) as [_ Hz].
  pose proof (lo_page _ (fl_layout _ _ _ (co_store _ _ _ _ (ar_core _ _ _ _ R')))) as Hpz.
  exists p, c, x'. ands; [exact E| |lia|unfold is_u64; nia|congruence| |done].
  + destruct (σ !! p) as [b|] eqn:Hb; [|done]. destruct (Hσ p b Hb) as (d & Hd & _). by destruct (K4 p d Hd).
  + exists fl'. ands; [done|congruence|nia|]. intros q d. rewrite lookup_insert_Some.
    intros [[<- <-]|[Hne Hq]]; [by eexists|]. destruct (Hσ q d Hq) as (e & He & Hs). exists e. split; [by apply K4|done].
Qed.

Lemma shows_flush ps n x σ : shows ps n x σ ->
  exists k x', flush_all before_writeback crc32 hash_order x = (Val k, x') /\ shows ps n x' σ /\
    forall q, is_Some (frame x' q) <-> is_Some (frame x q).
Proof.
  intros (fl & R & Hps & Hn & Hσ). destruct (flush_all_spec fl _ x R) as (k & x' & E & R' & V' & _ & F').
  exists k, x'. split; [exact E|]. split; [by eapply models_view|done].
Qed.

Lemma shows_request ps n x σ p : shows ps n x σ ->
  exists x', (request_read_ahead [p] ;;; st_ret tt) x = (Val tt, x') /\ shows ps n x' σ /\ same_pool x x'.
Proof.
  intros (fl & R & Hps & Hn & Hσ). destruct (request_run [p] x) as (r & x' & E & S). exists x'.
  split; [unfold st_bind; by rewrite E|]. split; [|done]. eapply models_view; try done; [by eapply same_pool_rest|].
  by apply quiet_view, same_pool_quiet.
Qed.
End Held.

#[local] Instance pool_laws : PagerLaws Pool.
Proof.
  refine {| pg_models := pool_models |}; intros ps n x σ; cbn [pg_page_size pg_get pg_get_mut pg_allocate pg_free pg_flush_all
    pg_request_read_ahead pg_root_page pg_publish_root pool_pager].
  - apply shows_weaken.
  - by intros (fl & R & Hps & _).
  - intros c p b M Hb. by eapply shows_get.
  - intros p b M Hb. by eapply shows_get_mut.
  - intros t M H1 H2. destruct (shows_allocate ps n x σ t M H1 H2) as (p & b & x' & E & Hp & H0 & Hu & Hl & M' & _). by exists p, b, x'.
  - intros M. destruct (shows_flush ps n x σ M) as (k & x' & E & M' & _). by exists k, x'.
  - intros p M. destruct (shows_request ps n x σ p M) as (x' & E & M' & _). by exists x'.
Defined.

#[local] Instance pool_publishes : @PagerPublishes Pool pool_pager pool_laws.
Proof.
  split. intros ps n x σ root lsn (fl & R & Hps & Hn & Hσ) _ _. destruct (publish_spec fl x root lsn R) as (x' & E & R' & K1 & K2 & K3 & K4).
  exists x'. split; [exact E|]. split; [|done]. exists fl. ands; [done|congruence|by rewrite K2|]. intros p b Hb.
  destruct (Hσ p b Hb) as (c & Hc & Hs). exists c. split; [by apply K4|done].
Defined.
End PoolPager.
