(* ===== verification/PoolSteps.v ===== *)
(** * The buffer pool: bounded background steps

    One [writeback_step] writes a window of the dirty pages in page order and
    one [read_ahead_step] loads a window of the requested pages; both keep the
    invariant and the contents of every page, stay inside their limits and
    always produce a report that passes its own validation. *)

From stdpp Require Import base tactics list numbers gmap sorting.
From Stdlib Require Import ZArith Lia.
From S2P Require Import Prelude Search Bytes Errors PageFormat PageStore PageStoreSpec Allocator AllocatorTheorems.
From S2P Require Import Recovery RecoveryTheorems Checkpoint Pager Pool PoolShard PoolSpec PoolAccess PoolPager.
Local Open Scope Z_scope.
Local Open Scope bic_scope.

Section PoolSteps.
Context {B : Type}.
Variable before_writeback : Z -> Z -> bytes -> st PageError B unit.
Variable crc32 : bytes -> Z.
Hypothesis Hbarrier : forall p t b w, exists w', before_writeback p t b w = (Val tt, w').
Hypothesis Hcrc : forall l, is_u32 (crc32 l).

Abbreviation Pool := (BufferPool B).
Abbreviation core := (core crc32).
Abbreviation view := (view crc32).
Abbreviation avail := (avail crc32).
Abbreviation at_rest := (at_rest crc32).
Abbreviation swept := (swept crc32).
Implicit Types x : Pool.

(** ** Write-back *)

(** The report after [e] pages were examined and written. *)
Definition written (ps e : Z) : WritebackStepReport := mkWriteback None e e (e * ps) (e * (ps * 2)) 0 0 0 false Complete.

Lemma written_step ps e : 0 <= e < 8192 -> 0 < ps <= MAX_PAGE_SIZE ->
  wb_wrote ps (wb_examine (written ps e)) = written ps (e + 1).
Proof.
  intros He Hps. unfold MAX_PAGE_SIZE in Hps. unfold wb_wrote, wb_examine, written. cbn. unfold sat_add, u64_max, U64.
  rewrite !Z.min_r by nia. f_equal; lia.
Qed.

Lemma candidate_spec fl x p e (ps := page_size (bp_store x)) :
  at_rest fl (None, None) x -> p ∈ bp_dirty_index x -> 0 <= e < 8192 ->
  exists x', writeback_candidate before_writeback crc32 p (wb_examine (written ps e)) x = (Val (written ps (e + 1)), x') /\
    swept fl (None, None) x x' /\ bp_dirty_index x' = bp_dirty_index x ∖ {[p]}.
Proof.
  intros R Hp He. pose proof (ar_core _ _ _ _ R) as C. apply (co_index _ _ _ _ C) in Hp as (f & Hf & Hd).
  pose proof (lo_page _ (fl_layout _ _ _ (co_store _ _ _ _ C))) as Hps.
  destruct (home_shard x p (co_home _ _ _ _ C)) as [sh Hs].
  pose proof (fo_pins _ _ _ _ _ _ (co_frame _ _ _ _ C p f Hf)) as Hpin. rewrite decide_False in Hpin by (by apply not_pinned).
  destruct (write_back_rest before_writeback crc32 Hbarrier Hcrc fl (None, None) x p f R Hf) as (x' & E & R' & V' & D' & L' & F').
  exists x'. split; [|split; [by split|done]]. unfold writeback_candidate, st_bind, gets. cbv beta iota.
  rewrite (shard_run _ sh x Hs), <- (frame_at x _ sh p Hs eq_refl), Hf, Hd, Hpin. cbn [negb Z.eqb]. rewrite E, Hd.
  rewrite written_step; [done|done|lia].
Qed.

(** How a sweep over [candidates] may end. *)
Definition stopped (ps e : Z) (k : nat) (candidates : list Z) : WritebackStepReport :=
  match drop k candidates with
  | [] => written ps (e + Z.of_nat k)
  | p :: _ => wb_stop (Some p) 0 false DurationLimit (written ps (e + Z.of_nat k))
  end.

Lemma writeback_loop_spec fl late candidates x e (ps := page_size (bp_store x)) :
  at_rest fl (None, None) x -> NoDup candidates -> (forall p, p ∈ candidates -> p ∈ bp_dirty_index x) -> 0 <= e ->
  e + Z.of_nat (length candidates) <= 8192 ->
  exists k x', writeback_loop before_writeback crc32 late candidates (written ps e) x = (Val (stopped ps e k candidates), x') /\
    (k <= length candidates)%nat /\ (e = 0 -> candidates <> [] -> (0 < k)%nat) /\ swept fl (None, None) x x' /\
    bp_dirty_index x' = bp_dirty_index x ∖ list_to_set (take k candidates).
Proof.
  revert x e ps. induction candidates as [|p l IH]; intros x e ps R Hnd Hin He Hlen; cbn [writeback_loop].
  { exists 0%nat, x. unfold stopped. cbn. rewrite Z.add_0_r, difference_empty_L. ands; try done; lia. }
  change (wb_candidates_examined (written ps e)) with e. destruct (negb (e =? 0) && late e) eqn:Hlate.
  { exists 0%nat, x. unfold stopped. cbn [drop]. rewrite Z.add_0_r. ands; [done|lia|by intros ->|by apply swept_refl|].
    cbn. by rewrite difference_empty_L. }
  apply NoDup_cons in Hnd as [Hp Hnd]. cbn [length] in Hlen.
  destruct (candidate_spec fl x p e R) as (x1 & E1 & S1 & D1); [apply Hin; by left|lia|]. fold ps in E1.
  assert (Eps : page_size (bp_store x1) = ps) by apply (vi_size _ _ _ _ (sw_view _ _ _ _ _ S1)).
  destruct (IH x1 (e + 1) (sw_rest _ _ _ _ _ S1) Hnd) as (k & x2 & E2 & Hk & _ & S2 & D2); [|lia|lia|].
  { intros q Hq. rewrite D1. apply without_other; [congruence|]. apply Hin. by right. }
  rewrite Eps in E2. exists (Datatypes.S k), x2. ands.
  - unfold st_bind. rewrite E1, E2. unfold stopped. cbn [drop]. by rewrite Nat2Z.inj_succ, <- Z.add_1_l, Z.add_assoc.
  - cbn. lia.
  - lia.
  - by eapply swept_trans.
  - rewrite D2, D1. cbn [take list_to_set]. by rewrite difference_difference_l_L.
Qed.

(** The dirty pages from [start] on, in page order. *)
Definition dirty_from (start : Z) (d : gset Z) : list Z := filter (fun p => start <= p) (sort_by Z.leb (elements d)).

Lemma dirty_from_elem start d p : p ∈ dirty_from start d <-> p ∈ d /\ start <= p.
Proof. unfold dirty_from. rewrite list_elem_of_filter, sort_by_perm, elem_of_elements. tauto. Qed.

Lemma dirty_from_nodup start d : NoDup (dirty_from start d).
Proof. unfold dirty_from. apply NoDup_filter. rewrite sort_by_perm. apply NoDup_elements. Qed.

Lemma sorted_filter (P : Z -> Prop) `{!forall p, Decision (P p)} l : StronglySorted Z.le l -> StronglySorted Z.le (filter P l).
Proof.
  induction 1 as [|p l Hs IH Hf]; [constructor|]. rewrite filter_cons. destruct (decide _); [|done]. constructor; [done|].
  rewrite Forall_forall in *. intros q [_ Hq]%list_elem_of_filter. auto.
Qed.

Lemma dirty_from_sorted start d : StronglySorted Z.le (dirty_from start d).
Proof.
  unfold dirty_from. apply sorted_filter.
  assert (H : StronglySorted (rel_of Z.leb) (sort_by Z.leb (elements d))).
  { apply sort_by_sorted; intros *; rewrite !Z.leb_le; lia. }
  revert H. generalize (sort_by Z.leb (elements d)). intros l H. induction H as [|p l _ IH Hf]; constructor; [done|].
  eapply Forall_impl; [exact Hf|]. intros q. apply Z.leb_le.
Qed.

(** A [WritebackLimits] value that passes its validation. *)
Lemma limits_bounds l ps : writeback_limits_validate l ps = Val tt -> 0 <= max_candidates l ->
  512 <= ps <= MAX_PAGE_SIZE /\ 1 <= max_candidates l <= 8192 /\ ps * 2 <= max_io_bytes l <= 134217728.
Proof.
  intros H H0. unfold writeback_limits_validate in H. destruct (validate_page_size ps) as [[]| |] eqn:Ev; [|done..].
  unfold validate_page_size in Ev. destruct (_ || _) eqn:E1 in Ev; [done|]. cbn [res_bind] in H.
  destruct (u64_max <? _); [done|]. destruct (_ || _) eqn:E2 in H; [done|]. clear Ev H.
  unfold MIN_PAGE_SIZE, MAX_WRITEBACK_PAGES_PER_STEP, MAX_WRITEBACK_IO_BYTES_PER_STEP in *. bools. lia.
Qed.

Lemma report_valid l ps k next why remaining complete :
  writeback_limits_validate l ps = Val tt -> 0 <= max_candidates l -> 0 <= k -> k <= max_candidates l ->
  k * (ps * 2) <= max_io_bytes l -> (why = Complete /\ complete = true /\ next = None) \/ (why <> Complete /\ complete = false /\ is_Some next) ->
  writeback_report_validate (wb_stop next remaining complete why (written ps k)) l ps = Val tt.
Proof.
  intros Hv H0 Hk Hc Hio Hend. destruct (limits_bounds l ps Hv H0) as (B1 & B2 & B3). unfold MAX_PAGE_SIZE in B1.
  unfold writeback_report_validate. rewrite Hv. cbn [res_bind wb_stop written wb_next_page wb_candidates_examined wb_pages_written
    wb_page_bytes_written wb_logical_io_bytes wb_pinned_pages_skipped wb_stale_candidates_removed wb_complete wb_stop_reason].
  unfold sat_add, u64_max, U64. rewrite !Z.add_0_r, !(Z.min_r _ k) by lia.
  assert (Et : match why with Complete => complete && bool_decide (next = None) | _ => negb complete && bool_decide (is_Some next) end = true).
  { destruct Hend as [(-> & -> & ->)|(Hw & -> & Hn)]; [done|]. rewrite (bool_decide_true (is_Some next)) by done. by destruct why. }
  rewrite Et. rewrite !(proj2 (Z.ltb_ge _ _)) by nia. rewrite Z.eqb_refl, (proj2 (Z.eqb_eq (k * (ps * 2)) (k * ps * 2))) by lia. done.
Qed.

Lemma sync_rest fl (b : bool) x : at_rest fl (None, None) x ->
  exists x', (if b then on_store sync else st_ret tt) x = (Val tt, x') /\ at_rest fl (None, None) x' /\ view fl x x' /\
    bp_dirty_index x' = bp_dirty_index x.
Proof.
  intros R. destruct b; [|by exists x]. pose proof (co_store _ _ _ _ (ar_core _ _ _ _ R)) as Fl.
  destruct (sync_keeps (bp_store x) (fl_layout _ _ _ Fl) (fl_calm _ _ _ Fl)) as (s & Es & K & M).
  apply (pages_kept_weaken _ (fun q => q <> 0)) in K; [|done].
  destruct (at_rest_store crc32 fl _ x s R K) as [R2 A2]; rewrite ?M; try done; [apply Fl|].
  exists (with_store s x). ands; [unfold on_store; by rewrite Es|done| |done].
  split; cbn; rewrite ?M; try done; [apply K|]. intros p c Ha. exists c. split; [by apply A2|done].
Qed.

(** [writeback_step] at rest: the pages it wrote are the first [k] of the dirty
    pages from the cursor on. *)
Lemma writeback_step_spec fl late cursor l x (range := dirty_from (default 0 cursor) (bp_dirty_index x)) :
  at_rest fl (None, None) x -> writeback_limits_validate l (page_size (bp_store x)) = Val tt -> 0 <= max_candidates l ->
  exists k r x', writeback_step before_writeback crc32 late cursor l x = (Val r, x') /\ at_rest fl (None, None) x' /\ view fl x x' /\
    (k <= length range)%nat /\ (range <> [] -> (0 < k)%nat) /\ Z.of_nat k <= max_candidates l /\
    bp_dirty_index x' = bp_dirty_index x ∖ list_to_set (take k range) /\ wb_pages_written r = Z.of_nat k /\
    wb_next_page r = head (drop k range) /\ wb_complete r = bool_decide (drop k range = []).
Proof.
  intros R Hv H0. set (ps := page_size (bp_store x)) in *. destruct (limits_bounds l ps Hv H0) as (B1 & B2 & B3).
  set (io := max_io_bytes l / (ps * 2)). set (lim := Z.to_nat (Z.min (max_candidates l) io)).
  assert (Hio : 1 <= io) by (apply Z.div_le_lower_bound; lia).
  assert (Hlim : (0 < lim)%nat /\ Z.of_nat lim <= max_candidates l /\ Z.of_nat lim * (ps * 2) <= max_io_bytes l).
  { unfold lim. pose proof (Z.mul_div_le (max_io_bytes l) (ps * 2) ltac:(lia)) as Hm. fold io in Hm. rewrite Z2Nat.id by lia. ands; [lia|lia|nia]. }
  destruct Hlim as (Hl0 & Hl1 & Hl2). set (cands := take lim range).
  assert (Hlc : (length cands <= lim)%nat) by (unfold cands; rewrite length_take; lia).
  destruct (writeback_loop_spec fl late cands x 0 R) as (k & x1 & E1 & Hk & Hk0 & S1 & D1).
  { apply (sublist_NoDup _ range); [apply dirty_from_nodup|apply sublist_take]. }
  { intros p Hp. apply (dirty_from_elem (default 0 cursor)). eapply elem_of_sublist; [exact Hp|apply sublist_take]. }
  { lia. }
  { lia. }
  fold ps in E1. destruct (sync_rest fl (negb (wb_pages_written (stopped ps 0 k cands) =? 0)) x1 (sw_rest _ _ _ _ _ S1)) as (x2 & E2 & R2 & V2 & D2).
  assert (Hdrop : drop k range = drop k cands ++ drop lim range).
  { rewrite <- (take_drop lim range) at 1. fold cands. by rewrite drop_app_le. }
  assert (Htake : take k cands = take k range) by (unfold cands; rewrite take_take; f_equal; lia).
  assert (Hend : exists why, ((why = Complete /\ drop k range = []) \/ (why <> Complete /\ drop k range <> [])) /\
    writeback_step before_writeback crc32 late cursor l x =
    (let r := wb_stop (head (drop k range)) (dirty_page_count x2) (bool_decide (drop k range = [])) why (written ps (Z.of_nat k)) in
     st_lift (writeback_report_validate r l ps) ;;; st_ret r) x2).
  { unfold writeback_step. unfold st_bind at 1, gets at 1. cbv beta iota. fold ps. unfold st_bind at 1, st_lift at 1. rewrite Hv.
    unfold st_bind at 1, gets at 1. cbv beta iota. fold (dirty_from (default 0 cursor) (bp_dirty_index x)). fold io lim range cands.
    change wb_start with (written ps 0). unfold st_bind at 1. rewrite E1. unfold st_bind at 1. rewrite E2.
    unfold st_bind at 1, gets at 1. cbv beta iota. rewrite Hdrop. unfold stopped. rewrite Z.add_0_l.
    destruct (drop k cands) as [|p t] eqn:Ed.
    - cbn [app wb_next_page written]. destruct (drop lim range) as [|q t'] eqn:Ef; cbn [head].
      + exists Complete. split; [by left|done].
      + exists (if max_candidates l <=? io then CandidateLimit else IoLimit). split; [right; split; [by destruct (_ <=? _)|done]|done].
    - exists DurationLimit. split; [by right|]. done. }
  destruct Hend as (why & Hw & Estep). set (r := wb_stop _ _ _ why _) in Estep. exists k, r, x2.
  assert (Hval : writeback_report_validate r l ps = Val tt).
  { apply report_valid; try done; [lia|lia|nia|]. destruct Hw as [[-> Ew]|[Hw Ew]]; rewrite ?Ew.
    - left. by ands.
    - right. rewrite bool_decide_false by done. ands; [done|done|]. destruct (drop k range); [done|by eexists]. }
  ands; try done.
  - rewrite Estep. cbv zeta. unfold st_bind, st_lift. by rewrite Hval.
  - etrans; [apply S1|done].
  - unfold cands in Hk. rewrite length_take in Hk. lia.
  - intros Hne. apply Hk0; [done|]. unfold cands. destruct range; [done|]. by destruct lim; [lia|].
  - lia.
  - by rewrite D2, D1, Htake.
Qed.

(** ** Read-ahead *)

(** [evict_clean_probationary_for_read_ahead] frees a clean frame or only
    reorders the queue. *)
Lemma evict_clean_spec fl i turns sh x :
  at_rest fl (None, None) x -> bp_shards x !! i = Some sh ->
  exists b x', evict_clean_turns turns i x = (Val b, x') /\
    (if b then freed crc32 fl (None, None) i sh x x' else at_rest fl (None, None) x' /\ view fl x x') /\ bp_read_ahead x' = bp_read_ahead x.
Proof.
  revert sh x. induction turns as [|turns IH]; intros sh x R Hs; cbn [evict_clean_turns].
  { by exists false, x. }
  pose proof R as [C H]. destruct (H i sh Hs) as [Hok Hb]. destruct (probationary sh) as [|p rest] eqn:Eq.
  { exists false, x. split; [|done]. unfold st_bind, pop_front, st_bind. by rewrite (shard_run i sh x Hs); cbn; rewrite Eq. }
  unfold st_bind at 1. rewrite (pop_run i QProbationary sh p rest x Hs Eq).
  set (sh1 := set_queue QProbationary rest sh). set (x1 := put_shard i sh1 x).
  assert (Hs1 : bp_shards x1 !! i = Some sh1) by (by eapply put_lookup).
  assert (Hp : is_Some (resident sh !! p)) by (apply (queues_resident 0 sh p Hok), (queue_elem QProbationary); cbn; rewrite Eq; by left).
  destruct Hp as [f Hf]. destruct (frame_home x i sh p f (co_home _ _ _ _ C) Hs Hf) as [Hi Hfr].
  pose proof (fo_pins _ _ _ _ _ _ (co_frame _ _ _ _ C p f Hfr)) as Hpin. rewrite decide_False in Hpin by (by apply not_pinned).
  unfold st_bind at 1. rewrite (shard_run i sh1 x1 Hs1). change (resident sh1) with (resident sh). rewrite Hf, Hpin. cbn [Z.eqb negb orb].
  destruct (fr_dirty f) eqn:Hd.
  - unfold st_bind at 1. rewrite (push_run i _ sh1 p x1 Hs1). unfold x1. rewrite put_put.
    set (sh2 := set_queue QProbationary _ sh1).
    assert (R2 : at_rest fl (None, None) (put_shard i sh2 x)).
    { eapply at_rest_quiet_put; [done|done|done| |by destruct Hb].
      apply (shard_requeue 0 QProbationary (rest ++ [p]) sh); [done|]. cbn. rewrite Eq. solve_Permutation. }
    destruct (IH sh2 (put_shard i sh2 x) R2) as (b & x' & E & HE & Hq); [by eapply put_lookup|]. exists b, x'. split; [exact E|]. split; [|done].
    assert (V2 : view fl x (put_shard i sh2 x)) by (apply quiet_view; by eapply quiet_put).
    destruct b; [by eapply freed_from; [done| |exact HE]|]. destruct HE as [? ?]. split; [done|by etrans].
  - exists true. unfold st_bind. rewrite (mod_shard_run i sh1 _ x1 Hs1). eexists. split; [reflexivity|]. split; [|done].
    assert (Q1 : quiet x x1) by (by eapply quiet_put).
    assert (Hi1 : shard_for x1 p = i) by (by unfold x1; rewrite shard_for_put).
    destruct (drop_clean crc32 fl (None, None) x1 p sh1 f (quiet_core _ _ _ _ _ Q1 C)) as [C2 V2]; rewrite ?Hi1; [done..|].
    rewrite Hi1 in C2, V2. split; [done|etrans; [by apply quiet_view|done]|].
    eexists (bp_store x), (bp_barrier x), (bp_dirty_index x), _. rewrite moved_same. split; [exact (put_put i _ sh1 x)|]. ands.
    + by apply (shard_reclaim 0 QProbationary p rest sh).
    + apply (bounds_shrink _ QProbationary rest) in Hb as [B1 B2 B3 B4]; [by split|cbn; rewrite Eq; cbn; lia|].
      intros r Hr. cbn. rewrite Eq. by right.
    + intros q [g Hg]. cbn [set_resident resident] in Hg. apply lookup_delete_Some in Hg as [_ Hg]. eauto.
Qed.

Lemma read_avail fl pin x p h b : core fl pin x -> 0 < p -> (p ∉ fl) -> frame x p = None ->
  read_page crc32 (bp_store x) p = Val (h, b) -> avail fl x p b.
Proof.
  intros C Hp Hnf Hn Hr. destruct (co_store _ _ _ _ C) as [Hl _ [Hc1 Hc2] _ _ _ _ _]. pose proof (lo_page _ Hl).
  unfold read_page in Hr. destruct (Z.leb_spec (page_count (meta (bp_store x))) p); [done|].
  assert (Ha : addressable (bp_store x) p) by (apply addressable_below; lia).
  destruct (raw_of_read crc32 _ p _ Hl Ha Hr) as [c Hc]. rewrite (read_raw crc32 _ p c Hl Ha Hc) in Hr.
  destruct (verify crc32 c p) as [[]| |] eqn:Hv; [|done..]. cbn in Hr. destruct (decode c) as [h'| |] eqn:Ed; [|done..].
  cbn in Hr. simplify_eq. split; [lia|done| |by rewrite Hn]. split; [by apply (blen_raw _ Hl p)|eauto].
Qed.

Lemma read_page_total s p : layout_ok s ->
  (exists r, read_page crc32 s p = Val r) \/ exists e, read_page crc32 s p = Err e.
Proof.
  intros Hl. unfold read_page. destruct (_ <=? p); [right; by eexists|].
  destruct (read_header_total crc32 s p Hl) as [[h Hh]|[e He]]; unfold read_header in *;
    destruct (read_page_unchecked crc32 s p) as [[]| |]; cbn in *; try done; eauto.
Qed.

(** [prefetch_one] of a page that is not free. *)
Lemma prefetch_spec fl p x :
  at_rest fl (None, None) x -> 0 < p -> p ∉ fl ->
  exists o x', prefetch_one crc32 p x = (Val o, x') /\ at_rest fl (None, None) x' /\ view fl x x' /\ bp_read_ahead x' = bp_read_ahead x.
Proof.
  intros R Hp Hnf. pose proof R as [C H]. destruct (home_shard x p (co_home _ _ _ _ C)) as [sh Hs].
  set (i := shard_for x p) in *. unfold prefetch_one. unfold st_bind at 1, gets at 1. cbv beta iota. fold i.
  unfold st_bind at 1. rewrite (shard_run i sh x Hs). destruct (H i sh Hs) as [Hok Hb].
  case_bool_decide as Hr; [by exists AlreadyResident, x|].
  assert (Hn : resident sh !! p = None) by (by apply eq_None_not_Some).
  assert (Hfr : exists b x1, (match free_frames sh with
       | Datatypes.S n => mod_shard i (set_free n) ;;; st_ret true
       | O => evict_clean_probationary_for_read_ahead i
       end) x = (Val b, x1) /\ (if b then freed crc32 fl (None, None) i sh x x1 else at_rest fl (None, None) x1 /\ view fl x x1) /\
       bp_read_ahead x1 = bp_read_ahead x).
  { destruct (free_frames sh) as [|n] eqn:Hfree.
    - unfold evict_clean_probationary_for_read_ahead. unfold st_bind at 1. rewrite (shard_run i sh x Hs). by apply evict_clean_spec.
    - destruct (frame_in_hand before_writeback crc32 Hbarrier Hcrc fl Search i p sh x R Hs) as (x1 & E1 & F1).
      rewrite Hfree in E1. exists true, x1. unfold st_bind. rewrite E1. split; [done|]. split; [done|].
      rewrite (mod_shard_run i sh _ x Hs) in E1. by injection E1 as <-. }
  destruct Hfr as (b & x1 & E1 & HE1 & Q1). unfold st_bind at 1. rewrite E1. destruct b; cbn [negb].
  2: { exists AdmissionDeclined, x1. by destruct HE1. }
  destruct HE1 as [C1 V1 (s1 & w1 & d1 & sh1 & -> & Hok1 & Hb1 & Hsub)]. set (x1 := put_shard i sh1 _) in *.
  assert (Hs1 : bp_shards x1 !! i = Some sh1) by (by eapply (put_lookup i sh1 sh)).
  assert (Hi1 : shard_for x1 p = i) by exact (shard_for_put i sh1 (moved s1 w1 d1 x) p).
  assert (Hn1 : resident sh1 !! p = None).
  { destruct (resident sh1 !! p) eqn:E; [|done]. destruct (Hsub p) as [? ?]; [by rewrite E|congruence]. }
  unfold st_bind at 1, gets at 1. cbv beta iota.
  destruct (read_page_total (bp_store x1) p (fl_layout _ _ _ (co_store _ _ _ _ C1))) as [[[h c] Er]|[e Er]]; rewrite Er.
  - pose proof (read_avail fl (None, None) x1 p h c C1 Hp Hnf ltac:(by rewrite (frame_at x1 i sh1)) Er) as Ha.
    unfold st_bind at 1. rewrite (mod_shard_run i sh1 _ x1 Hs1). unfold st_bind. erewrite push_run by (by eapply put_lookup). rewrite put_put.
    destruct (placed_spec crc32 fl (None, None) i QProbationary p c (prefetched_frame c) sh1 x1 C1 Hs1 Hi1 Hok1 Hn1 Ha) as (C2 & V2 & Hok2); try done; [by left|].
    eexists Loaded, _. split; [reflexivity|]. ands; [|etrans; [exact V1|exact V2]|done].
    rewrite queue_resident. set (sh2 := set_queue _ _ _) in *.
    assert (Ex : put_shard i sh2 x1 = put_shard i sh2 (moved s1 w1 d1 x)) by exact (put_put i sh2 sh1 (moved s1 w1 d1 x)).
    rewrite Ex in *. apply (at_rest_put crc32 fl (None, None)); [done|by left|done|done|by destruct Hb1].
  - unfold st_bind. rewrite (mod_shard_run i sh1 _ x1 Hs1). set (sh2 := set_free _ sh1). eexists ReadError, _. split; [reflexivity|].
    assert (Q2 : quiet x1 (put_shard i sh2 x1)) by (by eapply quiet_put). pose proof (quiet_core _ _ _ _ _ Q2 C1) as C2.
    ands; [|etrans; [exact V1|by apply quiet_view]|done].
    assert (Ex : put_shard i sh2 x1 = put_shard i sh2 (moved s1 w1 d1 x)) by exact (put_put i sh2 sh1 (moved s1 w1 d1 x)).
    rewrite Ex in *. apply (at_rest_put crc32 fl (None, None)); [done|by left|done|by apply shard_give|by destruct Hb1].
Qed.

(** Requests are for pages in use. *)
Definition requests_ok (fl : list Z) (x : Pool) : Prop :=
  forall e, e ∈ ra_pending (bp_read_ahead x) -> 0 < snd e /\ snd e ∉ fl.

(** A report whose counters add up. *)
Record rr_good (ps : Z) (r : ReadAheadStepReport) : Prop := {
  rg_pos : 0 <= rr_pages_loaded r /\ 0 <= rr_already_resident r /\ 0 <= rr_admission_declines r /\ 0 <= rr_read_errors r;
  rg_sum : rr_pages_loaded r + rr_read_errors r + rr_already_resident r + rr_admission_declines r = rr_candidates_examined r;
  rg_io : rr_logical_io_bytes r = (rr_pages_loaded r + rr_read_errors r) * ps;
  rg_open : rr_complete r = false
}.

Lemma count_good ps o r : rr_good ps r -> rr_candidates_examined r < 8192 -> 0 < ps <= MAX_PAGE_SIZE ->
  rr_good ps (rr_count ps o r) /\ rr_candidates_examined (rr_count ps o r) = rr_candidates_examined r + 1 /\
  rr_stop_reason (rr_count ps o r) = rr_stop_reason r.
Proof.
  intros [(P1 & P2 & P3 & P4) Hs Hio Ho] Hlt Hps. unfold MAX_PAGE_SIZE in Hps.
  assert (Hsat : forall a b, 0 <= a <= 8192 * 1048576 -> 0 <= b <= 1048576 -> sat_add a b = a + b)
    by (intros; unfold sat_add, u64_max, U64; lia).
  assert (Hiob : 0 <= rr_logical_io_bytes r <= 8192 * 1048576) by (rewrite Hio; nia).
  unfold rr_count. destruct o; cbn [rr_candidates_examined rr_stop_reason]; rewrite !Hsat by lia;
    (split; [|by split]); split; cbn; try done; try lia; rewrite Hio; lia.
Qed.

Lemma read_ahead_loop_spec fl late turns x r (ps := page_size (bp_store x)) :
  at_rest fl (None, None) x -> requests_ok fl x -> rr_good ps r -> rr_candidates_examined r + Z.of_nat turns <= 8192 ->
  rr_stop_reason r = Complete ->
  exists r' empty x', read_ahead_loop crc32 late turns r x = (Val (r', empty), x') /\ at_rest fl (None, None) x' /\ view fl x x' /\
    requests_ok fl x' /\ rr_good ps r' /\ rr_candidates_examined r' <= rr_candidates_examined r + Z.of_nat turns /\
    (empty = true -> ra_pending (bp_read_ahead x') = []) /\ (rr_stop_reason r' = Complete \/ rr_stop_reason r' = DurationLimit).
Proof.
  revert x r ps. induction turns as [|turns IH]; intros x r ps R Q G Hle Hst; cbn [read_ahead_loop].
  { exists r, false, x. ands; try done; [lia|by left]. }
  destruct (negb _ && late _).
  { eexists _, false, x. split; [reflexivity|]. ands; try done; [by destruct G|cbn; lia|by right]. }
  unfold st_bind at 1, gets at 1. cbv beta iota. destruct (ra_pop_front (bp_read_ahead x)) as [[p q]|] eqn:Eq.
  2: { exists r, true, x. ands; try done; [lia| |by left]. unfold ra_pop_front in Eq. by destruct (ra_pending _) as [|[]]. }
  assert (Hq : exists e, ra_pending (bp_read_ahead x) = e :: ra_pending q /\ snd e = p).
  { unfold ra_pop_front in Eq. destruct (ra_pending (bp_read_ahead x)) as [|[e p'] rest]; [done|]. injection Eq as <- <-. by exists (e, p'). }
  destruct Hq as (e & Eq' & <-). destruct (Q e) as [Hp Hnf]; [rewrite Eq'; by left|].
  set (x0 := with_queue q false x). assert (S0 : same_pool x x0) by (by split).
  pose proof (same_pool_rest crc32 fl (None, None) x x0 S0 R) as R0.
  destruct (prefetch_spec fl (snd e) x0 R0 Hp Hnf) as (o & x1 & E1 & R1 & V1 & Q1).
  pose proof (lo_page _ (fl_layout _ _ _ (co_store _ _ _ _ (ar_core _ _ _ _ R)))) as Hps. fold ps in Hps.
  destruct (count_good ps o r G ltac:(lia) ltac:(lia)) as (G1 & C1 & St1).
  assert (Eps : page_size (bp_store x1) = ps) by apply (vi_size _ _ _ _ V1).
  destruct (IH x1 (rr_count ps o r)) as (r' & em & x' & E' & R' & V' & Q' & G' & L' & Em & St'); try done.
  - intros e' He. apply Q. rewrite Q1 in He. rewrite Eq'. by right.
  - by rewrite Eps.
  - rewrite C1. lia.
  - congruence.
  - rewrite Eps in G'. exists r', em, x'. ands; try done; [|etrans; [apply quiet_view, same_pool_quiet, S0|by etrans]|rewrite C1 in L'; lia].
    unfold st_bind at 1, modify. fold x0. unfold st_bind at 1, gets at 1. cbv beta iota. change (page_size (bp_store x0)) with ps.
    unfold st_bind. by rewrite E1.
Qed.

Lemma read_ahead_bounds l ps : read_ahead_limits_validate l ps = Val tt -> 0 <= max_candidates l ->
  512 <= ps <= MAX_PAGE_SIZE /\ 1 <= max_candidates l <= 8192 /\ ps <= max_io_bytes l <= 134217728.
Proof.
  intros H H0. unfold read_ahead_limits_validate in H. destruct (validate_page_size ps) as [[]| |] eqn:Ev; [|done..].
  unfold validate_page_size in Ev. destruct (_ || _) eqn:E1 in Ev; [done|]. cbn [res_bind] in H.
  destruct (_ || _) eqn:E2 in H; [done|]. clear Ev H.
  unfold MIN_PAGE_SIZE, MAX_READ_AHEAD_CANDIDATES_PER_STEP, MAX_READ_AHEAD_IO_BYTES_PER_STEP in *. bools. lia.
Qed.

(** [read_ahead_step] at rest. *)
Lemma read_ahead_step_spec fl late l x :
  at_rest fl (None, None) x -> requests_ok fl x -> read_ahead_limits_validate l (page_size (bp_store x)) = Val tt ->
  0 <= max_candidates l ->
  exists r x', read_ahead_step crc32 late l x = (Val r, x') /\ at_rest fl (None, None) x' /\ view fl x x' /\ requests_ok fl x' /\
    rr_candidates_examined r <= max_candidates l /\ rr_logical_io_bytes r <= max_io_bytes l.
Proof.
  intros R Q Hv H0. set (ps := page_size (bp_store x)) in *. destruct (read_ahead_bounds l ps Hv H0) as (B1 & B2 & B3).
  set (io := max_io_bytes l / ps). set (turns := Z.to_nat (Z.min (max_candidates l) io)).
  assert (Hio : 1 <= io) by (apply Z.div_le_lower_bound; lia).
  assert (Ht : Z.of_nat turns <= max_candidates l /\ Z.of_nat turns * ps <= max_io_bytes l).
  { unfold turns. pose proof (Z.mul_div_le (max_io_bytes l) ps ltac:(lia)) as Hm. fold io in Hm. rewrite Z2Nat.id by lia. split; [lia|nia]. }
  destruct (read_ahead_loop_spec fl late turns x rr_start R Q) as (r & em & x' & E & R' & V' & Q' & G & L & Em & St).
  { by split. }
  { cbn. lia. }
  { done. }
  fold ps in G. cbn in L. pose proof G as [(P1 & P2 & P3 & P4) Gs Gio Go].
  set (rem := if em : bool then 0 else read_ahead_queue_depth x').
  assert (Hr : exists r', rr_candidates_examined r' = rr_candidates_examined r /\ rr_logical_io_bytes r' = rr_logical_io_bytes r /\
    read_ahead_report_validate r' l ps = Val tt /\
    (if em || (rem =? 0) then rr_stop rem true Complete r
     else if bool_decide (rr_stop_reason r = DurationLimit) then rr_stop rem (rr_complete r) DurationLimit r
     else rr_stop rem (rr_complete r) (if max_candidates l <=? io then CandidateLimit else IoLimit) r) = r').
  { assert (Hval : forall why done_, match why with Complete => done_ && (rem =? 0) | _ => negb done_ && negb (rem =? 0) end = true ->
      read_ahead_report_validate (rr_stop rem done_ why r) l ps = Val tt).
    { intros why d Ht'. unfold read_ahead_report_validate. rewrite Hv. cbn [res_bind rr_stop rr_pages_loaded rr_read_errors
        rr_already_resident rr_admission_declines rr_candidates_examined rr_logical_io_bytes rr_complete rr_queue_depth_remaining rr_stop_reason].
      rewrite Ht'. unfold sat_add, u64_max, U64. unfold MAX_PAGE_SIZE in B1. rewrite !Z.min_r by lia.
      rewrite !(proj2 (Z.ltb_ge _ _)) by nia. by rewrite !(proj2 (Z.eqb_eq _ _)) by lia. }
    eexists. split; [|split; [|split; [|reflexivity]]]; destruct (em || (rem =? 0)) eqn:Eb; try done.
    1-2: by destruct (bool_decide _).
    - apply Hval. destruct em; [done|]. cbn in Eb. by rewrite Eb.
    - apply orb_false_iff in Eb as [-> Eb]. rewrite Go. destruct (bool_decide _); apply Hval; rewrite Eb; [done|by destruct (_ <=? _)]. }
  destruct Hr as (r' & Er1 & Er2 & Er3 & Er4). exists r', x'. ands; try done; [|lia|rewrite Er2, Gio; nia].
  unfold read_ahead_step. unfold st_bind at 1, gets at 1. cbv beta iota. fold ps. unfold st_bind at 1, st_lift at 1. rewrite Hv.
  fold io turns. unfold st_bind at 1. rewrite E. unfold st_bind at 1, gets at 1. cbv beta iota. fold rem. rewrite Er4.
  unfold st_bind, st_lift. by rewrite Er3.
Qed.
End PoolSteps.
