(* ===== verification/PoolInvariants.v ===== *)
(** * The buffer pool: invariants of every step

    What holds of the pool whatever is pinned, whatever the barrier and the store
    answer, and also after an error.  A property [K] of shards and [J] of the
    store and the barrier that the elementary changes keep is kept by eviction,
    admission, the guards, flushing and the background steps. *)

From stdpp Require Import base tactics list numbers gmap sorting.
From Stdlib Require Import ZArith Lia.
From S2P Require Import Prelude Search Bytes Errors PageFormat PageStore Pager Pool PoolShard PoolSpec.
Local Open Scope Z_scope.
Local Open Scope bic_scope.

(** [m] keeps [I], whatever it returns. *)
Definition keeps {E S A} (I : S -> Prop) (m : st E S A) : Prop := forall s, I s -> I (snd (m s)).

Section Keeps.
Context {E S : Type} (I : S -> Prop).

Lemma keeps_ret {A} (a : A) : keeps I (st_ret (E := E) a).
Proof. by intros s H. Qed.
Lemma keeps_fail {A} e : keeps I (st_fail (E := E) (A := A) e).
Proof. by intros s H. Qed.
Lemma keeps_panic {A} : keeps I (st_panic (E := E) (A := A)).
Proof. by intros s H. Qed.
Lemma keeps_lift {A} (r : res E A) : keeps I (st_lift r).
Proof. by intros s H. Qed.
Lemma keeps_gets {A} (f : S -> A) : keeps I (gets (E := E) f).
Proof. by intros s H. Qed.
Lemma keeps_modify f : (forall s, I s -> I (f s)) -> keeps I (modify (E := E) f).
Proof. intros Hf s H. by apply Hf. Qed.
Lemma keeps_bind {A C} (m : st E S A) (k : A -> st E S C) :
  keeps I m -> (forall a, keeps I (k a)) -> keeps I (st_bind m k).
Proof.
  intros Hm Hk s H. specialize (Hm s H). unfold st_bind. destruct (m s) as [[a|e|] s']; cbn in *; [by apply Hk|done..].
Qed.
(** The continuation may use what the first step returned, and the state it left. *)
Lemma keeps_bind_when {A C} (m : st E S A) (k : A -> st E S C) :
  keeps I m -> (forall s a s', I s -> m s = (Val a, s') -> I (snd (k a s'))) -> keeps I (st_bind m k).
Proof.
  intros Hm Hk s H. pose proof (Hm s H) as Hm'. unfold st_bind. destruct (m s) as [[a|e|] s'] eqn:Em; cbn in *; [exact (Hk s a s' H Em)|done..].
Qed.
End Keeps.

Create HintDb keeps.
#[export] Hint Resolve keeps_ret keeps_fail keeps_panic keeps_lift keeps_gets : keeps.
(** A change of a frame that never leaves it dirty without a pending log record. *)
Definition awaits_log (f : Frame) : Prop := fr_dirty f = true -> fr_needs_log f = true.
Definition log_safe (g : Frame -> Frame) : Prop := forall f, awaits_log f -> awaits_log (g f).

(** How pages are freed: whether the pool is read-only, whether frees wait for
    their transaction, and those that do. *)
Definition frees_of {B} (x : BufferPool B) : bool * bool * gmap Z (list Z) :=
  (bp_read_only x, bp_wal_managed_frees x, bp_pending_frees x).

Section Invariant.
Context {B : Type}.
Variable before_writeback : Z -> Z -> bytes -> st PageError B unit.
Variable crc32 : bytes -> Z.
Variable hash_order : gmap Z Frame -> list Z.
Abbreviation Pool := (BufferPool B).
Implicit Types x : Pool.

Variable J : PageStore -> option B -> list (Z * Z) -> bool * bool * gmap Z (list Z) -> Prop.
Variable K : nat -> Shard -> Prop.
Variable N : nat.
(** The queues that may be evicted from, and the pages that may go. *)
Variable allowed : Queue -> Prop.
Variable evictable : nat -> Z -> Prop.

Definition Inv (x : Pool) : Prop :=
  J (bp_store x) (bp_barrier x) (ra_pending (bp_read_ahead x)) (frees_of x) /\ length (bp_shards x) = N /\
  forall i sh, bp_shards x !! i = Some sh -> K i sh.

(** Requests only leave the read-ahead queue. *)
Hypothesis J_requests : forall s w l l' m, J s w l m -> (forall e, e ∈ l' -> e ∈ l) -> J s w l' m.
Hypothesis K_pop : forall i sh q l, K i sh -> (forall p, p ∈ l -> p ∈ queue_of q sh) -> K i (set_queue q l sh).
Hypothesis K_push : forall i sh q p, K i sh -> evictable i p -> K i (set_queue q (queue_of q sh ++ [p]) sh).
Hypothesis K_free : forall i sh n, K i sh -> K i (set_free n sh).
Hypothesis K_alter : forall i sh p g, K i sh -> log_safe g -> K i (set_resident (alter g p (resident sh)) sh).
Hypothesis K_delete : forall i sh p, K i sh -> evictable i p -> K i (set_resident (base.delete p (resident sh)) sh).
Hypothesis K_insert : forall i sh p f, K i sh -> evictable i p -> fr_dirty f = false -> K i (set_resident (<[p := f]> (resident sh)) sh).
Hypothesis K_member : forall i sh q p, K i sh -> allowed q -> p ∈ queue_of q sh -> evictable i p.
Hypothesis K_absent : forall i sh p, K i sh -> resident sh !! p = None -> evictable i p.
(** Write-back, where the store and the barrier are involved. *)
Hypothesis keeps_write_back : forall i p, keeps Inv (write_back_frame before_writeback crc32 i p).

Lemma keeps_shard i : keeps Inv (shard i).
Proof. intros x H. unfold shard. by destruct (_ !! i). Qed.

Lemma keeps_mod_shard i F : (forall sh, K i sh -> K i (F sh)) -> keeps Inv (mod_shard i F).
Proof.
  intros HF. apply keeps_modify. intros x (HJ & HN & HK). split; [done|]. split; [cbn; by rewrite length_alter|]. cbn [bp_shards with_shards]. intros j sh.
  destruct (decide (j = i)) as [->|Hne]; [|rewrite list_lookup_alter_ne by done; apply HK].
  rewrite list_lookup_alter_eq, fmap_Some. intros (sh' & Hs & ->). by apply HF, HK.
Qed.

Lemma keeps_pop i q : keeps Inv (pop_front i q).
Proof.
  intros x H. unfold pop_front, st_bind, shard. destruct (bp_shards x !! i) as [sh|] eqn:Hs; [|done].
  destruct (queue_of q sh) as [|p rest] eqn:Eq; [done|]. rewrite (mod_shard_run i sh _ x Hs). cbn [snd st_ret].
  destruct H as (HJ & HN & HK). split; [done|]. split; [cbn; by rewrite length_insert|]. intros j sh'. change (bp_shards (put_shard i (set_queue q rest sh) x)) with (<[i := set_queue q rest sh]> (bp_shards x)).
  rewrite list_lookup_insert_Some. intros [(<- & <- & _)|[_ Hj]]; [|by apply HK].
  apply K_pop; [by apply HK|]. intros r Hr. rewrite Eq. by right.
Qed.

(** The page popped from a queue may go. *)
Lemma popped_evictable i q x p x' : Inv x -> allowed q -> pop_front i q x = (Val (Some p), x') -> evictable i p.
Proof.
  intros (_ & _ & HK) Hq. unfold pop_front, st_bind, shard. destruct (bp_shards x !! i) as [sh|] eqn:Hs; [|done].
  destruct (queue_of q sh) as [|r rest] eqn:Eq; [done|]. rewrite (mod_shard_run i sh _ x Hs). intros [= <- _].
  apply (K_member i sh q r); [by apply HK|done|]. rewrite Eq. by left.
Qed.

Lemma keeps_push i q p : evictable i p -> keeps Inv (push_back i q p).
Proof. intros Hp. apply keeps_mod_shard. intros sh Hsh. by apply K_push. Qed.

Lemma keeps_reclaim i p : evictable i p -> keeps Inv (try_reclaim before_writeback crc32 i p).
Proof.
  intros Hp. unfold try_reclaim. apply keeps_bind; [apply keeps_shard|]. intros sh. destruct (_ !! p) as [f|]; [|auto with keeps].
  destruct (_ <? _); [auto with keeps|]. apply keeps_bind.
  - destruct (fr_dirty f); [|auto with keeps]. apply keeps_bind; auto with keeps.
  - intros _. apply keeps_bind; [|auto with keeps]. apply keeps_mod_shard. auto.
Qed.

Lemma keeps_evict_turns turns i q : allowed q -> keeps Inv (evict_turns before_writeback crc32 turns i q).
Proof.
  intros Hq. induction turns as [|turns IH]; cbn [evict_turns]; [auto with keeps|].
  apply keeps_bind_when; [apply keeps_pop|]. intros x c x' H E.
  assert (H' : Inv x') by (pose proof (keeps_pop i q x H) as H'; by rewrite E in H'). destruct c as [p|]; [|done].
  pose proof (popped_evictable i q x p x' H Hq E) as Hp. revert H'. clear x H E.
  match goal with |- Inv x' -> Inv (snd (?m x')) => cut (keeps Inv m); [by intros Hk; apply Hk|] end.
  apply keeps_bind; [by apply keeps_reclaim|]. intros []; [auto with keeps|]. apply keeps_bind; [by apply keeps_push|done].
Qed.

Lemma keeps_evict_from i q : allowed q -> keeps Inv (evict_from before_writeback crc32 i q).
Proof. intros Hq. apply keeps_bind; [apply keeps_shard|]. intros sh. by apply keeps_evict_turns. Qed.

Lemma keeps_clock turns i : allowed QProtected -> keeps Inv (clock_turns before_writeback crc32 turns i).
Proof.
  intros Hq. induction turns as [|turns IH]; cbn [clock_turns]; [auto with keeps|].
  apply keeps_bind_when; [apply keeps_pop|]. intros x c x' H E.
  assert (H' : Inv x') by (pose proof (keeps_pop i QProtected x H) as H'; by rewrite E in H'). destruct c as [p|]; [|done].
  pose proof (popped_evictable i QProtected x p x' H Hq E) as Hp. revert H'. clear x H E.
  match goal with |- Inv x' -> Inv (snd (?m x')) => cut (keeps Inv m); [by intros Hk; apply Hk|] end.
  apply keeps_bind; [apply keeps_shard|]. intros sh. destruct (_ !! p) as [f|]; [|done].
  assert (Hback : keeps Inv (push_back i QProtected p ;;; clock_turns before_writeback crc32 turns i))
    by (apply keeps_bind; [by apply keeps_push|done]).
  destruct (_ <? _); [done|]. apply keeps_bind; [apply keeps_mod_shard; intros sh' H'; apply K_alter; [done|by intros h]|]. intros _. destruct (fr_referenced f); [done|].
  apply keeps_bind; [by apply keeps_reclaim|]. intros []; [auto with keeps|done].
Qed.

Lemma keeps_evict_protected i : allowed QProtected -> keeps Inv (evict_from_protected before_writeback crc32 i).
Proof. intros Hq. apply keeps_bind; [apply keeps_shard|]. intros sh. by apply keeps_clock. Qed.

Lemma keeps_in_turn sources e : Forall (keeps Inv) sources -> keeps Inv (evict_in_turn sources e).
Proof.
  induction 1 as [|m sources Hm _ IH]; cbn [evict_in_turn]; [auto with keeps|].
  apply keeps_bind; [done|]. intros []; [auto with keeps|done].
Qed.

(** The queues a class evicts from. *)
Definition lanes (c : CacheClass) : list Queue :=
  match c with
  | Metadata => [QMetadata; QProbationary; QStreaming; QProtected]
  | Streaming => [QStreaming; QProbationary]
  | Search => [QProbationary; QProtected; QStreaming]
  end.

Lemma keeps_evict_one i p c : (forall q, q ∈ lanes c -> allowed q) -> keeps Inv (evict_one before_writeback crc32 i p c).
Proof.
  intros Hc. apply keeps_bind; [apply keeps_shard|]. intros sh. apply keeps_in_turn.
  destruct c; rewrite !Forall_cons, Forall_nil; ands; try exact I;
    (apply keeps_evict_from || apply keeps_evict_protected); apply Hc; cbn; rewrite !elem_of_cons; tauto.
Qed.

Lemma keeps_enforce_turns turns i q limit : allowed q -> keeps Inv (enforce_turns before_writeback crc32 turns i q limit).
Proof.
  intros Hq. induction turns as [|turns IH]; cbn [enforce_turns]; [auto with keeps|].
  apply keeps_bind; [apply keeps_shard|]. intros sh. destruct (_ <=? _)%nat; [auto with keeps|].
  apply keeps_bind_when; [apply keeps_pop|]. intros x c x' H E.
  assert (H' : Inv x') by (pose proof (keeps_pop i q x H) as H'; by rewrite E in H'). destruct c as [p|]; [|done].
  pose proof (popped_evictable i q x p x' H Hq E) as Hp. pose proof (keeps_reclaim i p Hp x' H') as Hr.
  destruct (try_reclaim before_writeback crc32 i p x') as [[[]|e|] y]; cbn [snd] in *; [|by apply keeps_push|by apply keeps_push|done].
  revert Hr. match goal with |- Inv y -> Inv (snd (?m y)) => cut (keeps Inv m); [by intros Hk; apply Hk|] end.
  apply keeps_bind; [apply keeps_mod_shard; auto|done].
Qed.

Lemma keeps_enforce i q limit : allowed q -> keeps Inv (enforce_capacity before_writeback crc32 i q limit).
Proof. intros Hq. apply keeps_bind; [apply keeps_shard|]. intros sh. by apply keeps_enforce_turns. Qed.

(** A miss: the frame, the read and the admission. *)
Lemma keeps_admit i p c : (c = Streaming -> allowed QStreaming) -> (c = Metadata -> allowed QMetadata) -> evictable i p ->
  keeps Inv (admit_page before_writeback crc32 i p c).
Proof.
  intros H1 H2 Hp. destruct c; cbn [admit_page].
  - apply keeps_bind; [apply keeps_shard|]. intros sh. destruct (_ =? _)%nat.
    + apply keeps_bind; [apply keeps_mod_shard; intros sh' H'; apply K_alter; [done|by intros h]|]. intros _. by apply keeps_push.
    + apply keeps_bind; [by apply keeps_push|]. intros _. apply keeps_enforce. auto.
  - by apply keeps_push.
  - apply keeps_bind; [by apply keeps_push|]. intros _. apply keeps_enforce. auto.
Qed.

(** What [acquire_in_class] does once the page is known not to be resident. *)
Definition load (i : nat) (p : Z) (t : Z) (sh : Shard) (c : CacheClass) : st PageError Pool unit :=
  (match free_frames sh with
   | Datatypes.S n => mod_shard i (set_free n)
   | O => evict_one before_writeback crc32 i p c
   end) ;;;
  do s <- gets bp_store ;;
  match read_page crc32 s p with
  | Val (_, b) =>
      mod_shard i (fun sh => set_resident (<[p := new_frame b t c]> (resident sh)) sh) ;;;
      admit_page before_writeback crc32 i p c
  | Err e => mod_shard i (fun sh => set_free (free_frames sh + 1) sh) ;;; st_fail e
  | Panic => st_panic
  end.

Lemma keeps_load i p t sh c : (forall q, q ∈ lanes c -> allowed q) -> evictable i p -> keeps Inv (load i p t sh c).
Proof.
  intros Hc Hp. unfold load. apply keeps_bind.
  { destruct (free_frames sh); [by apply keeps_evict_one|]. apply keeps_mod_shard. auto. }
  intros _. apply keeps_bind; [auto with keeps|]. intros s. destruct (read_page crc32 s p) as [[h b]|e|]; [| |auto with keeps].
  - apply keeps_bind; [apply keeps_mod_shard; auto|]. intros _. apply keeps_admit; [intros ->|intros ->|done]; apply Hc; by left.
  - apply keeps_bind; [apply keeps_mod_shard; auto|auto with keeps].
Qed.

(** ** When every queue may be evicted from *)

Section Everything.
Hypothesis all_allowed : forall q, allowed q.

Lemma K_promoted i sh p : evictable i p -> K i sh ->
  K i (enforce_protected_capacity (set_protected (protected sh ++ [p]) (set_probationary (remove_from p (probationary sh)) sh))).
Proof.
  intros Hp. assert (Hd : forall turns sh, K i sh -> K i (demote turns sh)).
  { induction turns as [|turns IH]; intros sh' H; cbn [demote]; [done|]. destruct (_ <=? _)%nat; [done|].
    destruct (protected sh') as [|d rest] eqn:Ep; [done|]. apply IH. apply (K_alter i (set_probationary (probationary sh' ++ [d]) (set_protected rest sh')) d (fr_set_protected false)); [|by intros f].
    apply (K_push i (set_protected rest sh') QProbationary d); [|apply (K_member i sh' QProtected d); [done|done|]; cbn; rewrite Ep; by left]. apply (K_pop i sh' QProtected rest); [done|].
    intros r Hr. cbn. rewrite Ep. by right. }
  intros H. apply Hd. apply (K_push i (set_probationary _ sh) QProtected p); [|done]. apply (K_pop i sh QProbationary _); [done|].
  cbn. induction (probationary sh) as [|r l IH]; cbn [remove_from]; [done|]. intros q. destruct (r =? p); [by right|].
  intros [->|Hq]%elem_of_cons; [by left|right; by apply IH].
Qed.

Lemma keeps_modes f : (forall x, bp_store (f x) = bp_store x /\ bp_barrier (f x) = bp_barrier x /\ bp_shards (f x) = bp_shards x /\
    frees_of (f x) = frees_of x /\ forall e, e ∈ ra_pending (bp_read_ahead (f x)) -> e ∈ ra_pending (bp_read_ahead x)) ->
  keeps Inv (modify (E := PageError) f).
Proof.
  intros Hf. apply keeps_modify. intros x (HJ & HN & HK). destruct (Hf x) as (E1 & E2 & E3 & E4 & E5).
  split; [rewrite E1, E2, E4; by eapply J_requests|by rewrite E3].
Qed.

Lemma keeps_mod_frame i p g : log_safe g -> keeps Inv (mod_frame i p g).
Proof. intros Hg. apply keeps_mod_shard. intros sh H. by apply K_alter. Qed.

Lemma keeps_cancel p : keeps Inv (cancel_read_ahead p).
Proof.
  apply keeps_modes. intros x. destruct (_ =? 0); [done|]. destruct (ra_cancel _ _) as [q|] eqn:E; [|done]. ands; try done.
  unfold ra_cancel in E. destruct (_ !! p) as [n|]; [|done]. injection E as <-. cbn. by intros e [_ He]%list_elem_of_filter.
Qed.

Lemma keeps_acquire p c : (forall i, evictable i p) -> keeps Inv (acquire_in_class before_writeback crc32 p c).
Proof.
  intros Hp. unfold acquire_in_class. apply keeps_bind; [apply keeps_cancel|]. intros _. apply keeps_bind; [auto with keeps|]. intros i.
  apply keeps_bind; [apply keeps_shard|]. intros sh. apply keeps_bind; [auto with keeps|]. intros t.
  destruct (resident sh !! p) as [f|]; [|apply keeps_load; [intros q _; apply all_allowed|apply Hp]]. cbv zeta. set (b := _ && _ && _ && _).
  apply keeps_bind; [apply keeps_mod_frame; intros g Hg; by destruct b|]. intros _. destruct b; [|auto with keeps].
  apply keeps_mod_shard. intros sh'. by apply K_promoted.
Qed.

Lemma keeps_guard p : keeps Inv (guard_bytes p).
Proof. intros x H. unfold guard_bytes. by destruct (_ ≫= _). Qed.

Lemma keeps_drop p : keeps Inv (drop_guard p).
Proof. apply keeps_bind; [auto with keeps|]. intros i. apply keeps_mod_frame. by intros f. Qed.

Lemma keeps_drop_mut p : keeps Inv (drop_guard_mut p).
Proof.
  apply keeps_bind; [auto with keeps|]. intros i. apply keeps_bind; [apply keeps_mod_frame; by intros f|]. intros _.
  apply keeps_bind; [by apply keeps_modes|]. intros _. apply keeps_mod_frame. by intros f.
Qed.

Lemma keeps_get p c : (forall i, evictable i p) -> keeps Inv (get_in_class before_writeback crc32 p c).
Proof.
  intros Hp. apply keeps_bind; [by apply keeps_acquire|]. intros _. apply keeps_bind; [apply keeps_guard|]. intros b.
  apply keeps_bind; [apply keeps_drop|auto with keeps].
Qed.

Lemma keeps_get_mut {A} p (m : st PageError bytes A) : (forall i, evictable i p) -> keeps Inv (get_mut before_writeback crc32 p m).
Proof.
  intros Hp. apply keeps_bind; [auto with keeps|]. intros []; [auto with keeps|]. apply keeps_bind; [by apply keeps_acquire|]. intros _.
  apply keeps_bind; [apply keeps_guard|]. intros b. apply keeps_bind; [auto with keeps|]. intros i. destruct (m b) as [r b'].
  apply keeps_bind; [apply keeps_mod_frame; by intros f|]. intros _. apply keeps_bind; [apply keeps_drop_mut|auto with keeps].
Qed.

Lemma keeps_open {A} p (m : st PageError bytes A) : (forall i, evictable i p) -> keeps Inv (open_mut before_writeback crc32 p m).
Proof.
  intros Hp. apply keeps_bind; [auto with keeps|]. intros []; [auto with keeps|]. apply keeps_bind; [by apply keeps_acquire|]. intros _.
  apply keeps_bind; [apply keeps_guard|]. intros b. apply keeps_bind; [auto with keeps|]. intros i. destruct (m b) as [r b'].
  apply keeps_bind; [apply keeps_mod_frame; by intros f|]. intros _.
  destruct r; [auto with keeps|..]; (apply keeps_bind; [apply keeps_drop_mut|auto with keeps]).
Qed.

Lemma keeps_warm p : (forall i, evictable i p) -> keeps Inv (warm before_writeback crc32 p).
Proof.
  intros Hp x H. pose proof (keeps_get p Search Hp x H) as H'. unfold warm.
  destruct (get_in_class before_writeback crc32 p Search x) as [[b|[]|] x']; exact H'.
Qed.

Lemma keeps_flush_shards is_ : keeps Inv (flush_shards before_writeback crc32 hash_order is_).
Proof.
  assert (Hf : forall i ps, keeps Inv (flush_frames before_writeback crc32 i ps)).
  { intros i ps. induction ps as [|p ps IH]; cbn [flush_frames]; [auto with keeps|]. apply keeps_bind; [done|]. intros w.
    apply keeps_bind; auto with keeps. }
  induction is_ as [|i is_ IH]; cbn [flush_shards]; [auto with keeps|]. apply keeps_bind; [apply keeps_shard|]. intros sh.
  apply keeps_bind; [done|]. intros n. apply keeps_bind; auto with keeps.
Qed.

(** ** When every page may be evicted *)

Hypothesis all_evictable : forall i p, evictable i p.

Lemma keeps_prefetch p : keeps Inv (prefetch_one crc32 p).
Proof.
  assert (He : forall turns i, keeps Inv (evict_clean_turns turns i)).
  { induction turns as [|turns IH]; intros i; cbn [evict_clean_turns]; [auto with keeps|]. apply keeps_bind; [apply keeps_pop|].
    intros [c|]; [|auto with keeps]. apply keeps_bind; [apply keeps_shard|]. intros sh. destruct (_ !! c) as [f|]; [|done].
    destruct (_ || _); [apply keeps_bind; [by apply keeps_push|done]|]. apply keeps_bind; [apply keeps_mod_shard; auto|auto with keeps]. }
  unfold prefetch_one. apply keeps_bind; [auto with keeps|]. intros i. apply keeps_bind; [apply keeps_shard|]. intros sh.
  destruct (bool_decide _); [auto with keeps|]. apply keeps_bind.
  { destruct (free_frames sh); [apply keeps_bind; [apply keeps_shard|done]|]. apply keeps_bind; [apply keeps_mod_shard; auto|auto with keeps]. }
  intros []; cbn [negb]; [|auto with keeps]. apply keeps_bind; [auto with keeps|]. intros s.
  destruct (read_page crc32 s p) as [[h b]|e|]; [| |auto with keeps].
  - apply keeps_bind; [apply keeps_mod_shard; auto|]. intros _. apply keeps_bind; [by apply keeps_push|auto with keeps].
  - apply keeps_bind; [apply keeps_mod_shard; auto|auto with keeps].
Qed.

Lemma keeps_read_ahead_step late l : keeps Inv (read_ahead_step crc32 late l).
Proof.
  assert (Hl : forall turns r, keeps Inv (read_ahead_loop crc32 late turns r)).
  { induction turns as [|turns IH]; intros r; cbn [read_ahead_loop]; [auto with keeps|]. destruct (_ && _); [auto with keeps|].
    intros x H. unfold st_bind at 1, gets at 1. cbv beta iota. destruct (ra_pop_front (bp_read_ahead x)) as [[p q']|] eqn:Eq; [|done].
    unfold st_bind at 1, modify. assert (H' : Inv (with_queue q' false x)).
    { destruct H as [HJ HK]. split; [|done]. eapply J_requests; [exact HJ|]. unfold ra_pop_front in Eq.
      destruct (ra_pending (bp_read_ahead x)) as [|[n p'] rest]; [done|]. injection Eq as <- <-. cbn. by right. }
    revert H'. match goal with |- Inv ?y -> Inv (snd (?m ?y)) => cut (keeps Inv m); [by intros Hk; apply Hk|] end.
    apply keeps_bind; [auto with keeps|]. intros ps. apply keeps_bind; [apply keeps_prefetch|done]. }
  unfold read_ahead_step. apply keeps_bind; [auto with keeps|]. intros ps. apply keeps_bind; [auto with keeps|]. intros _.
  apply keeps_bind; [done|]. intros [r e]. apply keeps_bind; [auto with keeps|]. intros d. apply keeps_bind; auto with keeps.
Qed.

Hypothesis keeps_sync : keeps Inv (on_store sync).

Lemma keeps_writeback_step late cursor l : keeps Inv (writeback_step before_writeback crc32 late cursor l).
Proof.
  assert (Hun : forall p, keeps Inv (unindex p)) by (intros p; by apply keeps_modes).
  assert (Hl : forall c r, keeps Inv (writeback_loop before_writeback crc32 late c r)).
  { induction c as [|p c IH]; intros r; cbn [writeback_loop]; [auto with keeps|]. destruct (_ && _); [auto with keeps|].
    apply keeps_bind; [|done]. unfold writeback_candidate. apply keeps_bind; [auto with keeps|]. intros i.
    apply keeps_bind; [apply keeps_shard|]. intros sh. apply keeps_bind; [auto with keeps|]. intros ps.
    destruct (_ !! p) as [f|]; [|apply keeps_bind; auto with keeps]. destruct (negb (fr_dirty f)); [apply keeps_bind; auto with keeps|].
    destruct (negb _); [auto with keeps|]. apply keeps_bind; auto with keeps. }
  unfold writeback_step. apply keeps_bind; [auto with keeps|]. intros ps. apply keeps_bind; [auto with keeps|]. intros _.
  apply keeps_bind; [auto with keeps|]. intros d. apply keeps_bind; [done|]. intros r. apply keeps_bind; [destruct (negb _); auto with keeps|].
  intros _. apply keeps_bind; [auto with keeps|]. intros n. apply keeps_bind; auto with keeps.
Qed.
End Everything.
End Invariant.

(** Write-back, for a property of the store that every page write keeps and
    that depends on neither the barrier nor the contents of frames. *)
Lemma write_back_plain {B} (before_writeback : Z -> Z -> bytes -> st PageError B unit) crc32 J K N i p :
  (forall s w w' l m, J s w l m -> J s w' l m) -> (forall p b s w l m, J s w l m -> J (snd (write_page crc32 p b s)) w l m) ->
  (forall i sh p g, K i sh -> K i (set_resident (alter g p (resident sh)) sh)) ->
  keeps (Inv (B := B) J K N) (write_back_frame before_writeback crc32 i p).
Proof.
  intros HJ HW HK. assert (Hm : forall g, keeps (Inv (B := B) J K N) (mod_frame i p g)) by (intros g; apply keeps_mod_shard; auto).
  apply keeps_bind; [apply keeps_shard|]. intros sh. destruct (_ !! p) as [f|]; [|auto with keeps].
  destruct (negb _); [auto with keeps|]. apply keeps_bind.
  { destruct (fr_needs_log f); [|auto with keeps]. intros x (H1 & H2). unfold barrier_for. destruct (bp_barrier x) as [w|] eqn:Ew; [|by split; [eapply HJ|]].
    destruct (before_writeback _ _ _ w) as [r w']. split; [|done]. cbn. by eapply HJ. }
  intros _. apply keeps_bind; [auto with keeps|]. intros s. apply keeps_bind; [apply Hm|]. intros _. apply keeps_bind.
  { intros x (H1 & H2). unfold on_store. apply (HW p (fr_data f)) in H1.
    destruct (write_page crc32 p (fr_data f) (bp_store x)) as [r s']. by split. }
  intros _. apply keeps_bind; [apply Hm|]. intros _. apply keeps_bind; [|auto with keeps]. by apply keeps_modify.
Qed.
