(* ===== verification/PoolRuns.v ===== *)
(** * Runs of the buffer pool

    A pool built by [new], its operations one after another, and what a client
    of the pages may conclude: the page map [answers] describes.  [run_spec] is
    the simulation the theorems about runs rest on. *)

From stdpp Require Import base tactics list numbers gmap sorting.
From Stdlib Require Import ZArith Lia.
From S2P Require Import Prelude Search Bytes Errors PageFormat PageStore PageStoreSpec Allocator AllocatorTheorems.
From S2P Require Import Pager Pool PoolShard PoolSpec PoolAccess PoolPager PoolSteps PoolInvariants.
Local Open Scope Z_scope.
Local Open Scope bic_scope.

(** ** A new pool *)

(** The shares leave a frame outside the protected and the metadata tier. *)
Definition shares_fit (ps ss ms : nat -> nat) : Prop := forall cap, (1 <= cap)%nat ->
  (protected_capacity (new_shard ps ss ms cap) + metadata_capacity (new_shard ps ss ms cap) < cap)%nat.

(** The default fractions, 0.75, 0.15 and 0.10. *)
Definition default_protected (cap : nat) : nat := (cap * 75 / 100)%nat.
Definition default_streaming (cap : nat) : nat := (cap * 15 / 100)%nat.
Definition default_metadata (cap : nat) : nat := (cap * 10 / 100)%nat.

Lemma default_shares_fit : shares_fit default_protected default_streaming default_metadata.
Proof.
  intros cap Hc. unfold new_shard, default_protected, default_metadata, clamp. cbn [protected_capacity metadata_capacity].
  pose proof (Nat.div_mod_eq (cap * 75) 100). pose proof (Nat.mod_upper_bound (cap * 75) 100 ltac:(lia)).
  pose proof (Nat.div_mod_eq (cap * 10) 100). pose proof (Nat.mod_upper_bound (cap * 10) 100 ltac:(lia)).
  pose proof (Nat.div_mod_eq cap 4). pose proof (Nat.mod_upper_bound cap 4 ltac:(lia)).
  destruct (Nat.ltb_spec 1 cap), (Nat.ltb_spec cap 8); lia.
Qed.

Section New.
Context {B : Type}.
Variable crc32 : bytes -> Z.
Variables ps ss ms : nat -> nat.
Hypothesis Hfit : shares_fit ps ss ms.

Lemma new_shard_ok cap : (1 <= cap)%nat -> shard_ok 0 (new_shard ps ss ms cap) /\ shard_bounds None (new_shard ps ss ms cap).
Proof.
  intros Hc. split.
  - split; [done|by intros [] p f ?%not_elem_of_nil| |exact (Hfit cap Hc)].
    cbn [new_shard free_frames resident capacity]. rewrite map_size_empty. lia.
  - split; [cbn; lia..|apply apart_none].
Qed.

Lemma spread_sum a r k : sum_list ((fun i => a + if (i <? r)%nat then 1 else 0)%nat <$> seq 0 k) = (k * a + Nat.min k r)%nat.
Proof.
  induction k as [|k IH]; [done|]. rewrite seq_S, fmap_app, sum_list_with_app, IH.
  cbn [fmap list_fmap sum_list_with Nat.add]. unfold id. destruct (Nat.ltb_spec k r); lia.
Qed.

(** What [new] builds over a store with a sound free list. *)
Lemma new_rest fl budget n q s (x : BufferPool B) :
  free_list crc32 s fl -> 0 <= budget -> new ps ss ms budget n q s = Val x ->
  at_rest crc32 fl (None, None) x /\ bp_store x = s /\ ra_pending (bp_read_ahead x) = [] /\
  Z.of_nat (sum_list (capacity <$> bp_shards x)) * page_size s <= budget.
Proof.
  intros F Hb0 Hn. pose proof (lo_page _ (fl_layout _ _ _ F)) as Hps. unfold new in Hn.
  destruct (_ <? _); [done|]. destruct (_ =? 0); [done|]. set (total := Z.to_nat (budget / page_size s)) in *.
  destruct (Nat.eqb_spec total 0) as [|Ht]; [done|]. set (k := Nat.min (Nat.max n 1) total) in *.
  assert (Hk : (1 <= k <= total)%nat) by lia. injection Hn as <-. set (cap := fun i => (total / k + if (i <? total mod k) then 1 else 0)%nat).
  set (l := _ <$> seq 0 k). assert (Hcap : forall i, (1 <= cap i)%nat).
  { intros i. unfold cap. pose proof (Nat.div_str_pos total k ltac:(lia)). lia. }
  assert (Hl : forall i sh, l !! i = Some sh -> exists j, sh = new_shard ps ss ms (cap j)).
  { intros i sh. unfold l. rewrite list_lookup_fmap, fmap_Some. intros (j & _ & ->). by exists j. }
  assert (Hne : forall x : BufferPool B, bp_shards x = l -> forall p, frame x p = None).
  { intros x Hx p. unfold frame. rewrite Hx. destruct (l !! _) as [sh|] eqn:E; [|done]. destruct (Hl _ _ E) as [j ->]. done. }
  ands; [|done|done|].
  - split; [split|].
    + done.
    + done.
    + split; cbn.
      * intros E. apply (f_equal length) in E. unfold l in E. rewrite length_fmap, length_seq in E. cbn in E. lia.
      * intros i sh p Hs [f Hf]. destruct (Hl i sh Hs) as [j ->]. done.
    + intros p f Hf. by rewrite Hne in Hf.
    + intros p. cbn. split; [by intros ?%elem_of_empty|]. intros (f & Hf & _). by rewrite Hne in Hf.
    + done.
    + intros i sh Hs. destruct (Hl i sh Hs) as [j ->]. by apply new_shard_ok.
  - cbn [bp_shards]. assert (Es : sum_list (capacity <$> l) = total).
    { unfold l. rewrite <- list_fmap_compose. etrans; [exact (spread_sum (total / k) (total mod k) k)|].
      pose proof (Nat.mod_upper_bound total k ltac:(lia)). pose proof (Nat.div_mod_eq total k). lia. }
    rewrite Es. unfold total. rewrite Z2Nat.id by (apply Z.div_pos; lia). rewrite Z.mul_comm. apply Z.mul_div_le. lia.
Qed.
End New.

(** ** Operations *)

Inductive PoolOp :=
  | Read (c : CacheClass) (p : Z)
  | Change (p : Z) (f : bytes -> bytes)
  | Allocate (t : PageType)
  | Flush
  | Writeback (late : Z -> bool) (cursor : option Z) (l : StepLimits)
  | Request (ps : list Z)
  | ReadAhead (late : Z -> bool) (l : StepLimits)
  | Warm (p : Z)
  | TakeLog
  | Begin (transaction : Z).

Inductive Out := Bytes (b : bytes) | Id (p : Z) | Done.

(** What a client may rely on: the pages in use and their contents, up to the
    stamps a write-back leaves. *)
Inductive answers (ps : Z) (σ : gmap Z bytes) : PoolOp -> Out -> gmap Z bytes -> Prop :=
  | an_read c p b b' : σ !! p = Some b -> same_page b' b -> answers ps σ (Read c p) (Bytes b') σ
  | an_change p f b b0 : σ !! p = Some b -> same_page b0 b -> answers ps σ (Change p f) Done (<[p := f b0]> σ)
  | an_allocate t p b gen : σ !! p = None -> p <> 0 -> blen b = ps ->
      decode b = Val (with_generation (new_header p t ps) gen) -> answers ps σ (Allocate t) (Id p) (<[p := b]> σ)
  | an_flush : answers ps σ Flush Done σ
  | an_writeback late cursor l : answers ps σ (Writeback late cursor l) Done σ
  | an_request l : answers ps σ (Request l) Done σ
  | an_read_ahead late l : answers ps σ (ReadAhead late l) Done σ
  | an_warm p : answers ps σ (Warm p) Done σ
  | an_take_log : answers ps σ TakeLog Done σ
  | an_begin t : answers ps σ (Begin t) Done σ.

(** The calls the pool's contract admits. *)
Definition admits (ps : Z) (σ : gmap Z bytes) (op : PoolOp) : Prop :=
  match op with
  | Read _ p | Warm p => is_Some (σ !! p)
  | Change p f => is_Some (σ !! p) /\ forall b, blen b = ps -> readable ps (f b)
  | Allocate t => t <> Superblock /\ t <> Free
  | Writeback _ _ l => writeback_limits_validate l ps = Val tt /\ 0 <= max_candidates l
  | ReadAhead _ l => read_ahead_limits_validate l ps = Val tt /\ 0 <= max_candidates l
  | Request l => Forall (fun p => is_Some (σ !! p)) l
  | Flush | TakeLog | Begin _ => True
  end.

Definition cost (op : PoolOp) : nat := match op with Allocate _ => 1 | _ => 0 end.

(** A client: each call may depend on the answers to the earlier ones. *)
Inductive Client := Stop | Ask (op : PoolOp) (k : Out -> Client).

(** A client that keeps to the contract, whatever the pool answers. *)
Fixpoint admitted (ps : Z) (σ : gmap Z bytes) (c : Client) : Prop :=
  match c with
  | Stop => True
  | Ask op k => admits ps σ op /\ forall out σ', answers ps σ op out σ' -> admitted ps σ' (k out)
  end.

(** A client that allocates at most [n] pages. *)
Fixpoint within (n : nat) (c : Client) : Prop :=
  match c with
  | Stop => True
  | Ask op k => (cost op <= n)%nat /\ forall out, within (n - cost op) (k out)
  end.

(** The page map accounts for a transcript of calls and answers. *)
Inductive explains (ps : Z) : gmap Z bytes -> list (PoolOp * Out) -> gmap Z bytes -> Prop :=
  | ex_nil σ : explains ps σ [] σ
  | ex_cons σ op out σ1 outs σ2 :
      answers ps σ op out σ1 -> explains ps σ1 outs σ2 -> explains ps σ ((op, out) :: outs) σ2.

Section Runs.
Context {B : Type}.
Variable before_writeback : Z -> Z -> bytes -> st PageError B unit.
Variable crc32 : bytes -> Z.
Variable hash_order : gmap Z Frame -> list Z.
Abbreviation Pool := (BufferPool B).
Implicit Types x : Pool.

Definition exec (op : PoolOp) : st PageError Pool Out :=
  match op with
  | Read c p => do b <- get_in_class before_writeback crc32 p c ;; st_ret (Bytes b)
  | Change p f => get_mut before_writeback crc32 p (modify f) ;;; st_ret Done
  | Allocate t => do p <- on_store (allocate crc32 t) ;; st_ret (Id p)
  | Flush => flush_all before_writeback crc32 hash_order ;;; st_ret Done
  | Writeback late cursor l => writeback_step before_writeback crc32 late cursor l ;;; st_ret Done
  | Request l => request_read_ahead l ;;; st_ret Done
  | ReadAhead late l => read_ahead_step crc32 late l ;;; st_ret Done
  | Warm p => warm before_writeback crc32 p ;;; st_ret Done
  | TakeLog => take_pages_needing_log hash_order ;;; st_ret Done
  | Begin t => set_current_transaction t ;;; st_ret Done
  end.

(** The conversation of a client with the pool. *)
Fixpoint runs (c : Client) : st PageError Pool (list (PoolOp * Out)) :=
  match c with
  | Stop => st_ret []
  | Ask op k => do out <- exec op ;; do outs <- runs (k out) ;; st_ret ((op, out) :: outs)
  end.

(** ** Capacities and requests *)

(** The shards keep their capacities and only pages in use are requested. *)
Definition tidy (fl : list Z) (caps : list nat) (x : Pool) : Prop :=
  Inv (fun _ _ l _ => forall e, e ∈ l -> 0 < snd e /\ (snd e ∉ fl)) (fun i sh => caps !! i = Some (capacity sh)) (length caps) x.

Lemma keeps_store {A} fl caps (m : st PageError PageStore A) : keeps (tidy fl caps) (on_store m).
Proof. intros x (HJ & HN & HK). unfold on_store. destruct (m (bp_store x)) as [r s]. by split. Qed.

Lemma tidy_write_back fl caps i p : keeps (tidy fl caps) (write_back_frame before_writeback crc32 i p).
Proof. by apply write_back_plain. Qed.

Ltac closed := try done; try (intros ? ? [] ? ?; done); eauto.

Lemma tidy_exec fl caps op : (forall l, op <> Request l) -> keeps (tidy fl caps) (exec op).
Proof.
  intros Hop. assert (W := tidy_write_back fl caps).
  assert (Jr : forall l l' : list (Z * Z), (forall e, e ∈ l -> 0 < snd e /\ (snd e ∉ fl)) -> (forall e, e ∈ l' -> e ∈ l) ->
    forall e, e ∈ l' -> 0 < snd e /\ (snd e ∉ fl)) by auto.
  destruct op; cbn [exec]; (apply keeps_bind; [|auto with keeps]).
  - eapply keeps_get with (allowed := fun _ => True) (evictable := fun _ _ => True); closed.
  - eapply keeps_get_mut with (allowed := fun _ => True) (evictable := fun _ _ => True); closed.
  - apply keeps_store.
  - unfold flush_all. apply keeps_bind; [auto with keeps|]. intros n. apply keeps_bind; [by apply keeps_flush_shards|].
    intros k. apply keeps_bind; [apply keeps_store|auto with keeps].
  - eapply keeps_writeback_step; closed. apply keeps_store.
  - by destruct (Hop ps).
  - eapply keeps_read_ahead_step with (evictable := fun _ _ => True); closed.
  - eapply keeps_warm with (allowed := fun _ => True) (evictable := fun _ _ => True); closed.
  - apply keeps_bind; [auto with keeps|]. intros x. apply keeps_bind; [|auto with keeps]. apply keeps_modify.
    intros y (HJ & HN & HK). split; [done|]. split; [cbn; by rewrite length_fmap|]. intros i sh. cbn [bp_shards with_shards]. rewrite list_lookup_fmap, fmap_Some.
    intros (sh' & Hs & ->). exact (HK i sh' Hs).
  - by apply keeps_modify.
Qed.

Lemma request_pending l x r x' : request_read_ahead l x = (r, x') ->
  bp_shards x' = bp_shards x /\ forall e, e ∈ ra_pending (bp_read_ahead x') ->
    (exists e0, e0 ∈ ra_pending (bp_read_ahead x) /\ snd e0 = snd e) \/ snd e ∈ l.
Proof.
  assert (Push : forall p q e, e ∈ ra_pending (ra_push p q) -> (exists e0, e0 ∈ ra_pending q /\ snd e0 = snd e) \/ snd e = p).
  { intros p q e. unfold ra_push. destruct (_ =? u64_max); cbn; rewrite elem_of_app, list_elem_of_singleton.
    - intros [He| ->]; [left|by right]. apply elem_of_lookup_imap in He as (i & e0 & -> & He).
      exists e0. split; [by eapply list_elem_of_lookup_2|done].
    - intros [He| ->]; [left; by exists e|by right]. }
  assert (One : forall p rep (y : Pool), bp_shards (snd (request_one p rep y)) = bp_shards y /\
    forall e, e ∈ ra_pending (bp_read_ahead (snd (request_one p rep y))) ->
      (exists e0, e0 ∈ ra_pending (bp_read_ahead y) /\ snd e0 = snd e) \/ snd e = p).
  { intros p rep y. unfold request_one, st_bind, gets. cbv beta iota. change (id y) with y.
    destruct (_ || _); [by eauto|]. destruct (is_resident y p); [by eauto|]. destruct (bool_decide _); [by eauto|].
    destruct (_ <=? _)%nat; cbn; (split; [done|]); [by eauto|apply Push]. }
  assert (All : forall l rep (y : Pool), bp_shards (snd (request_all l rep y)) = bp_shards y /\
    forall e, e ∈ ra_pending (bp_read_ahead (snd (request_all l rep y))) ->
      (exists e0, e0 ∈ ra_pending (bp_read_ahead y) /\ snd e0 = snd e) \/ snd e ∈ l).
  { clear l x r x'. induction l as [|p l IH]; intros rep y; cbn [request_all]; [split; [done|by eauto]|]. unfold st_bind.
    destruct (One p rep y) as [S1 P1]. destruct (request_one p rep y) as [[r1|e1|] y1]; cbn [snd] in *.
    - destruct (IH r1 y1) as [S2 P2]. split; [congruence|]. intros e He. destruct (P2 e He) as [(e0 & He0 & Es)|Hl]; [|right; by right].
      destruct (P1 e0 He0) as [(e2 & He2 & Es2)|Ep]; [left; exists e2; split; [done|congruence]|right; rewrite <- Es, Ep; by left].
    - split; [done|]. intros e He. destruct (P1 e He) as [?|Ep]; [by left|right; rewrite Ep; by left].
    - split; [done|]. intros e He. destruct (P1 e He) as [?|Ep]; [by left|right; rewrite Ep; by left]. }
  unfold request_read_ahead, st_bind, gets. cbv beta iota. change (id x) with x.
  destruct (_ =? 0); [intros [= _ <-]; by eauto|]. destruct (bp_read_ahead_saturated x); [intros [= _ <-]; by eauto|].
  destruct (All l rs_start x) as [S P]. destruct (request_all l rs_start x) as [[r1|e1|] y1]; cbn [snd] in *; by intros [= _ <-].
Qed.

(** ** Simulation *)

Hypothesis Hbarrier : forall p t b w, exists w', before_writeback p t b w = (Val tt, w').
Hypothesis Hcrc : forall l, is_u32 (crc32 l).
Hypothesis Hhash : forall m, hash_order m ≡ₚ (map_to_list m).*1.
Abbreviation at_rest := (at_rest crc32).
Abbreviation view := (view crc32).

(** The pool shows the pages of [σ]; [n] more can be allocated. *)
Definition shows (ps : Z) (n : nat) (caps : list nat) (x : Pool) (σ : gmap Z bytes) : Prop :=
  exists fl, at_rest fl (None, None) x /\ tidy fl caps x /\ page_size (bp_store x) = ps /\
    (page_count (meta (bp_store x)) + Z.of_nat n + 1) * ps < U64 /\
    forall p b, σ !! p = Some b -> exists c, avail crc32 fl x p c /\ same_page c b.

Lemma take_log_rest fl x r x' : at_rest fl (None, None) x -> take_pages_needing_log hash_order x = (r, x') ->
  at_rest fl (None, None) x' /\ view fl x x' /\ exists l, r = Val l.
Proof.
  intros [C H] E. unfold take_pages_needing_log, st_bind, gets, modify, st_ret in E. injection E as <- <-. set (g := fun f => fr_set_dirty (fr_dirty f) false f).
  set (F := fun sh => set_resident (g <$> resident sh) sh). set (x' := with_shards (F <$> bp_shards x) x).
  assert (Hfor : forall p, shard_for x' p = shard_for x p) by (intros p; unfold shard_for; cbn; by rewrite length_fmap).
  assert (Q : quiet x x').
  { split; try done.
    - intros [H1 H2]. split; [cbn; intros Hn; apply H1; by apply fmap_nil_inv in Hn|]. intros i sh p. rewrite Hfor. cbn.
      rewrite list_lookup_fmap, fmap_Some. intros (sh0 & Hs & ->). cbn. rewrite lookup_fmap, fmap_is_Some. by apply H2.
    - intros p. unfold frame. rewrite Hfor. cbn. rewrite list_lookup_fmap. destruct (bp_shards x !! _) as [sh|]; [|done].
      cbn. rewrite lookup_fmap. by destruct (resident sh !! p). }
  ands; [|by apply quiet_view|by eexists]. split; [by eapply quiet_core|]. intros i sh. cbn. rewrite list_lookup_fmap, fmap_Some.
  intros (sh0 & Hs & ->). destruct (H i sh0 Hs) as [[O1 O2 O3 O4] Hb]. split; [|by destruct Hb]. split; try done.
  - cbn. rewrite map_to_list_fmap, <- list_fmap_compose. rewrite (list_fmap_ext _ fst); [exact O1|]. by intros j [q f].
  - intros q p f Hp. cbn. rewrite lookup_fmap, fmap_Some. intros (f0 & Hf & ->). unfold F in Hp. rewrite queue_resident in Hp.
    pose proof (O2 q p f0 Hp Hf). by destruct q.
  - cbn. rewrite map_size_fmap. exact O3.
Qed.

(** An operation that changes no page. *)
Lemma shows_view ps n caps x x' σ fl :
  at_rest fl (None, None) x' -> tidy fl caps x' -> page_size (bp_store x) = ps ->
  (page_count (meta (bp_store x)) + Z.of_nat n + 1) * ps < U64 ->
  (forall p b, σ !! p = Some b -> exists c, avail crc32 fl x p c /\ same_page c b) -> view fl x x' -> shows ps n caps x' σ.
Proof.
  intros R T Hps Hn Hσ [V1 V2 V3 V4]. exists fl. ands; [done|done|congruence|by rewrite V2|]. intros p b Hb.
  destruct (Hσ p b Hb) as (c & Hc & Hs). destruct (V4 p c Hc) as (c' & Hc' & Hs'). exists c'. split; [done|by etrans].
Qed.

Lemma tidy_after fl caps op x out x' : (forall l, op <> Request l) -> tidy fl caps x -> exec op x = (out, x') -> tidy fl caps x'.
Proof. intros Hop T E. pose proof (tidy_exec fl caps op Hop x T) as T'. by rewrite E in T'. Qed.

Lemma exec_spec ps n caps x σ op :
  admits ps σ op -> shows ps (cost op + n) caps x σ ->
  exists out x' σ', exec op x = (Val out, x') /\ answers ps σ op out σ' /\ shows ps n caps x' σ'.
Proof.
  intros Ha (fl & R & T & Hps & Hn & Hσ).
  (* an operation that leaves the contents alone *)
  assert (Still : forall out x', (forall l, op <> Request l) -> cost op = 0%nat -> exec op x = (Val out, x') ->
    at_rest fl (None, None) x' -> view fl x x' -> answers ps σ op out σ ->
    exists out x' σ', exec op x = (Val out, x') /\ answers ps σ op out σ' /\ shows ps n caps x' σ').
  { intros out x' Hop Hc E R' V' A. exists out, x', σ. ands; [done|done|]. rewrite Hc in Hn.
    eapply shows_view; try done. by eapply tidy_after. }
  destruct op; cbn [admits cost exec] in *.
  - destruct Ha as [b Hb]. destruct (Hσ p b Hb) as (c0 & Hc0 & Hs0).
    destruct (pool_get_spec before_writeback crc32 Hbarrier Hcrc fl c p c0 x R Hc0 ltac:(done)) as (b' & x' & E & Hs & R' & V').
    apply (Still (Bytes b') x'); try done; [unfold st_bind; by rewrite E|]. econstructor; [done|]. by etrans.
  - destruct Ha as [[b Hb] Hf]. destruct (Hσ p b Hb) as (c0 & Hc0 & Hs0).
    destruct (pool_get_mut_spec before_writeback crc32 Hbarrier Hcrc fl p c0 x R Hc0 ltac:(done)) as (b0 & Hb0 & Hm).
    destruct (Hm _ (modify f)) as (x' & E & R' & Ha' & K1 & K2 & K3 & K4).
    { rewrite Hps. apply Hf. pose proof (av_readable _ _ _ _ _ Hc0) as [Hl _]. destruct Hb0 as (Hl' & _). congruence. }
    cbn [modify fst snd] in *. eexists Done, x', (<[p := f b0]> σ). ands; [unfold st_bind; by rewrite E|econstructor; [done|by etrans]|].
    exists fl. ands; [done| |congruence|by rewrite K2|].
    + eapply (tidy_after fl caps (Change p f) x (Val Done)); [done|done|]. cbn [exec]. unfold st_bind. by rewrite E.
    + intros q d. rewrite lookup_insert_Some. intros [[<- <-]|[Hne Hq]]; [by eexists|]. destruct (Hσ q d Hq) as (c & Hc & Hsc).
      destruct (K4 q c ltac:(done) Hc) as (c' & Hc' & Hs'). exists c'. split; [done|by etrans].
  - destruct Ha as [H1 H2]. rewrite Nat2Z.inj_add in Hn.
    pose proof (lo_page _ (fl_layout _ _ _ (co_store _ _ _ _ (ar_core _ _ _ _ R)))) as Hpz.
    destruct (pool_allocate_spec crc32 Hcrc fl _ x t R H1 H2) as
      (p & c & x' & fl' & E & R' & Hp & _ & Hc & [gen Hdec] & Hsub & K1 & K2 & K3 & K4 & _); [rewrite Hps in *; nia|].
    pose proof (av_readable _ _ _ _ _ Hc) as [Hlen _]. rewrite Hps in Hdec.
    exists (Id p), x', (<[p := c]> σ). ands; [unfold st_bind; by rewrite E| |].
    + apply (an_allocate ps σ t p c gen); [|lia|congruence|done]. destruct (σ !! p) as [b|] eqn:Hb; [|done].
      destruct (Hσ p b Hb) as (d & Hd & _). by destruct (K4 p d Hd).
    + exists fl'. ands; [done| |congruence|rewrite Hps in *; nia|].
      * assert (T' : tidy fl caps x') by (eapply (tidy_after fl caps (Allocate t) x (Val (Id p))); [done|done|]; cbn [exec]; unfold st_bind; by rewrite E).
        destruct T' as [TJ TK]. split; [|done]. intros e He. destruct (TJ e He). split; [done|]. intros ?%Hsub. done.
      * intros q d. rewrite lookup_insert_Some. intros [[<- <-]|[Hne Hq]]; [by eexists|]. destruct (Hσ q d Hq) as (e & He & Hs).
        exists e. split; [by apply K4|done].
  - destruct (flush_all_spec before_writeback crc32 hash_order Hbarrier Hcrc Hhash fl _ x R) as (k & x' & E & R' & V' & _).
    apply (Still Done x'); try done; [unfold st_bind; by rewrite E|constructor].
  - destruct Ha as [Hl H0]. rewrite <- Hps in Hl.
    destruct (writeback_step_spec before_writeback crc32 Hbarrier Hcrc fl late cursor l x R Hl H0) as (k & r & x' & E & R' & V' & _).
    apply (Still Done x'); try done; [unfold st_bind; by rewrite E|constructor].
  - destruct (request_read_ahead ps0 x) as [r x'] eqn:E. destruct (request_run ps0 x) as (r' & x'' & E' & S').
    rewrite E in E'. injection E' as -> ->. destruct (request_pending ps0 x _ _ E) as [Esh Hpe].
    exists Done, x'', σ. ands; [unfold st_bind; by rewrite E|constructor|].
    eapply (shows_view ps n caps x x'' σ fl); try done; [by eapply same_pool_rest| |by apply quiet_view, same_pool_quiet].
    destruct T as [TJ TK]. split; [|by rewrite Esh]. intros e He. destruct (Hpe e He) as [(e0 & He0 & <-)|Hin]; [by apply TJ|].
    rewrite Forall_forall in Ha. destruct (Ha _ Hin) as [b Hb]. destruct (Hσ _ b Hb) as (c & Hc & _).
    split; [apply (av_range _ _ _ _ _ Hc)|apply (av_used _ _ _ _ _ Hc)].
  - destruct Ha as [Hl H0]. rewrite <- Hps in Hl.
    destruct (read_ahead_step_spec before_writeback crc32 Hbarrier Hcrc fl late l x R (proj1 T) Hl H0) as (r & x' & E & R' & V' & _).
    apply (Still Done x'); try done; [unfold st_bind; by rewrite E|constructor].
  - destruct Ha as [b Hb]. destruct (Hσ p b Hb) as (c0 & Hc0 & Hs0).
    destruct (pool_get_spec before_writeback crc32 Hbarrier Hcrc fl Search p c0 x R Hc0 ltac:(done)) as (b' & x' & E & Hs & R' & V').
    apply (Still Done x'); try done; [unfold st_bind, warm; by rewrite E|constructor].
  - destruct (take_pages_needing_log hash_order x) as [r x'] eqn:E. destruct (take_log_rest fl x r x' R E) as (R' & V' & l & ->).
    apply (Still Done x'); try done; [unfold st_bind; by rewrite E|constructor].
  - assert (S : same_pool x (with_modes transaction (bp_wal_managed_frees x) (bp_read_ahead_drivers x) x)) by (by split).
    eapply (Still Done); try done; [by eapply same_pool_rest|by apply quiet_view, same_pool_quiet|constructor].
Qed.

(** Any admitted client runs to its end, and the page map explains it. *)
Lemma run_spec ps n caps x σ c :
  admitted ps σ c -> within n c -> shows ps n caps x σ ->
  exists outs x' σ', runs c x = (Val outs, x') /\ explains ps σ outs σ' /\ shows ps 0 caps x' σ'.
Proof.
  revert n x σ. induction c as [|op k IH]; intros n x σ Ha Hn S; cbn [runs].
  { exists [], x, σ. split; [done|]. split; [constructor|]. destruct S as (fl & R & T & Hps & Hr & Hσ).
    pose proof (lo_page _ (fl_layout _ _ _ (co_store _ _ _ _ (ar_core _ _ _ _ R)))). exists fl. ands; try done. rewrite Hps in *. nia. }
  destruct Ha as [Ha Hnext]. destruct Hn as [Hc Hn].
  destruct (exec_spec ps (n - cost op) caps x σ op Ha) as (out & x1 & σ1 & E1 & A1 & S1).
  { by replace (cost op + (n - cost op))%nat with n by lia. }
  destruct (IH out _ x1 σ1 (Hnext out σ1 A1) (Hn out) S1) as (outs & x2 & σ2 & E2 & A2 & S2).
  exists ((op, out) :: outs), x2, σ2. unfold st_bind at 1. rewrite E1. unfold st_bind. rewrite E2. split; [done|].
  split; [by econstructor|done].
Qed.
End Runs.
