(* ===== verification/PoolTheorems.v ===== *)
(** * The buffer pool: theorems

    A bounded cache that a client cannot tell from the pages themselves, that
    stays inside its budget, drains its dirty pages, keeps the cache classes
    apart and never writes a page the log does not have. *)

From stdpp Require Import base tactics list numbers gmap sorting.
From Stdlib Require Import ZArith Lia.
From S2P Require Import Prelude Search Bytes Errors PageFormat PageStore PageStoreSpec Superblock Allocator AllocatorTheorems.
From S2P Require Import Pager Pool PoolShard PoolSpec PoolAccess PoolPager PoolSteps PoolInvariants PoolRuns.
Local Open Scope Z_scope.
Local Open Scope bic_scope.

(** The page frames in use. *)
Definition resident_frames {B} (x : BufferPool B) : nat := sum_list ((fun sh => size (resident sh)) <$> bp_shards x).

Section Sweep.
Context {B : Type}.
Variable before_writeback : Z -> Z -> bytes -> st PageError B unit.
Variable crc32 : bytes -> Z.
Hypothesis Hbarrier : forall p t b w, exists w', before_writeback p t b w = (Val tt, w').
Hypothesis Hcrc : forall l, is_u32 (crc32 l).

(** The host's loop: steps from the cursor the last one returned, until one
    reports completion. *)
Fixpoint sweep (fuel : nat) (late : Z -> bool) (l : StepLimits) (cursor : option Z) : st PageError (BufferPool B) bool :=
  match fuel with
  | O => st_ret false
  | S fuel' =>
      do r <- writeback_step before_writeback crc32 late cursor l ;;
      if wb_complete r then st_ret true else sweep fuel' late l (wb_next_page r)
  end.

Lemma sorted_head_le l p q : StronglySorted Z.le l -> head l = Some p -> q ∈ l -> p <= q.
Proof.
  destruct 1 as [|r l Hs Hf]; [done|]. intros [= ->] [->|Hq]%elem_of_cons; [lia|]. rewrite Forall_forall in Hf. auto.
Qed.

Lemma sorted_drop k l : StronglySorted Z.le l -> StronglySorted Z.le (drop k l).
Proof.
  revert l. induction k as [|k IH]; intros l H; [by rewrite drop_0|]. destruct H; [constructor|]. by apply IH.
Qed.

Lemma sweep_spec fl fuel late l cursor x :
  at_rest crc32 fl (None, None) x -> writeback_limits_validate l (page_size (bp_store x)) = Val tt -> 0 <= max_candidates l ->
  (forall p, p ∈ bp_dirty_index x -> default 0 cursor <= p) -> (size (bp_dirty_index x) < fuel)%nat ->
  exists x', sweep fuel late l cursor x = (Val true, x') /\ at_rest crc32 fl (None, None) x' /\ view crc32 fl x x' /\ bp_dirty_index x' = ∅.
Proof.
  revert cursor x. induction fuel as [|fuel IH]; intros cursor x R Hl H0 Hc Hf; [lia|]. cbn [sweep].
  destruct (writeback_step_spec before_writeback crc32 Hbarrier Hcrc fl late cursor l x R Hl H0) as
    (k & r & x1 & E & R1 & V1 & Hk & Hk0 & _ & D1 & _ & Hn & Hcm).
  set (range := dirty_from (default 0 cursor) (bp_dirty_index x)) in *. unfold st_bind. rewrite E, Hcm.
  assert (Hin : forall p, p ∈ bp_dirty_index x1 <-> p ∈ drop k range).
  { intros p. rewrite D1, elem_of_difference, elem_of_list_to_set. pose proof (dirty_from_nodup (default 0 cursor) (bp_dirty_index x)) as Hnd.
    fold range in Hnd. assert (Hr : p ∈ bp_dirty_index x <-> p ∈ range) by (unfold range; rewrite dirty_from_elem; naive_solver).
    rewrite Hr. rewrite <- (take_drop k range) in Hnd |- * at 1. apply NoDup_app in Hnd as (_ & Hd & _). rewrite elem_of_app.
    split; [tauto|]. intros Hp. split; [by right|]. intros Ht. by apply (Hd p). }
  case_bool_decide as Hd.
  - exists x1. ands; try done. apply set_eq. intros p. rewrite Hin, Hd. set_solver.
  - destruct (IH (wb_next_page r) x1 R1) as (x2 & E2 & R2 & V2 & D2).
    + by rewrite (vi_size _ _ _ _ V1).
    + done.
    + intros p Hp%Hin. rewrite Hn. destruct (drop k range) as [|q t] eqn:Eq; [done|]. cbn.
      apply (sorted_head_le (q :: t) q p); [|done|done]. rewrite <- Eq. apply sorted_drop, dirty_from_sorted.
    + assert (Hne : range <> []) by (intros E0; rewrite E0, drop_nil in Hd; done). specialize (Hk0 Hne).
      assert (Hs : (size (bp_dirty_index x1) < size (bp_dirty_index x))%nat); [|lia]. apply subset_size. split.
      * rewrite D1. set_solver.
      * intros Hsub. destruct range as [|q t] eqn:Er; [done|]. assert (Hq : q ∈ bp_dirty_index x).
        { apply (dirty_from_elem (default 0 cursor)). fold range. rewrite Er. by left. }
        apply Hsub in Hq. rewrite D1 in Hq. apply elem_of_difference in Hq as [_ Hq]. apply Hq, elem_of_list_to_set.
        destruct k; [lia|]. cbn. by left.
    + exists x2. ands; try done. by etrans.
Qed.
End Sweep.

Section Claims.
Context {B : Type}.
Variable before_writeback : Z -> Z -> bytes -> st PageError B unit.
Variable crc32 : bytes -> Z.
Variable hash_order : gmap Z Frame -> list Z.
Hypothesis Hbarrier : forall p t b w, exists w', before_writeback p t b w = (Val tt, w').
Hypothesis Hcrc : forall l, is_u32 (crc32 l).
Hypothesis Hhash : forall m, hash_order m ≡ₚ (map_to_list m).*1.

(** A new pool over a new store, a write-back barrier or none, and a client that allocates at most [n] pages. *)
Variables (ps e : Z) (fsync : bool) (s : PageStore).
Hypothesis Hps : validate_page_size ps = Val tt.
Hypothesis He : validate_extent_bytes e ps = Val tt.
Hypothesis He0 : 0 <= e.
Hypothesis Hopen : open crc32 [] ps e fsync = Val s.
Variables (fp fs fm : nat -> nat) (budget : Z) (shards queue : nat) (x0 : BufferPool B) (barrier : option B).
Hypothesis Hfit : shares_fit fp fs fm.
Hypothesis Hbudget : 0 <= budget.
Hypothesis Hnew : new fp fs fm budget shards queue s = Val x0.
Variables (client : Client) (n : nat).
Hypothesis Hclient : admitted ps ∅ client.
Hypothesis Hn : within n client.
Hypothesis Hroom : (2 + Z.of_nat n) * ps < U64.

Abbreviation runs := (runs before_writeback crc32 hash_order).
Abbreviation x := (with_barrier barrier x0).

Lemma new_shows : shows crc32 ps n (capacity <$> bp_shards x) x ∅ /\
  Z.of_nat (sum_list (capacity <$> bp_shards x)) * ps <= budget.
Proof.
  destruct (open_new crc32 ps e fsync Hps He He0) as [sb Eo].
  assert (Hs : page_size s = ps /\ page_count (meta s) = 1) by (rewrite Eo in Hopen; by simplify_eq). destruct Hs as [Hs1 Hs2].
  destruct (new_store_inv crc32 Hcrc ps e fsync s Hps He He0 Hopen) as (fl & F & _). cbn [fst] in F.
  destruct (new_rest crc32 fp fs fm Hfit fl budget shards queue s x0 F Hbudget Hnew) as (R0 & Es & Eq & Hb).
  assert (R : at_rest crc32 fl (None, None) x) by (apply (same_pool_rest crc32 fl (None, None) x0); [by split|done]).
  rewrite Hs1 in Hb. split; [|done]. exists fl. cbn [with_barrier bp_store bp_shards bp_read_ahead]. rewrite Es, Hs1, Hs2. ands; [done| |done|lia|by intros p b].
  split; [cbn; rewrite Eq; by intros q ?%not_elem_of_nil|]. split; [by rewrite length_fmap|]. intros i sh Hi. cbn in Hi. by rewrite list_lookup_fmap, Hi.
Qed.

Lemma runs_show : exists outs x' σ, runs client x = (Val outs, x') /\ explains ps ∅ outs σ /\
  shows crc32 ps 0 (capacity <$> bp_shards x) x' σ.
Proof.
  apply (run_spec before_writeback crc32 hash_order Hbarrier Hcrc Hhash ps n); [done|done|]. apply new_shows.
Qed.

(** C16: The buffer pool is a transparent cache.  On a new store and a new pool
    with any budget that [new] accepts, with or without a barrier, every client (its calls depending on the
    earlier answers) that uses only pages it allocated, with reads in any cache
    class, changes through [get_mut], allocations, flushes, bounded write-back
    steps, read-ahead requests and steps, warming, log hand-overs and
    transaction switches, runs to its end without an error, whatever is evicted,
    and the answers are those of a plain map from page ids to contents: a read
    returns the last bytes written (up to the generation, checksum and trailer
    that a write-back stamps) and an allocation returns a page not in use. *)
Theorem pool_refines_a_page_map :
  exists outs x' σ, runs client x = (Val outs, x') /\ explains ps ∅ outs σ.
Proof. destruct runs_show as (outs & x' & σ & E & A & _). by exists outs, x', σ. Qed.

(** C38: The pool never holds more than its budget.  After any such client
    the resident frames fit the byte budget given to [new], and the dirty index
    counts exactly the dirty frames. *)
Theorem resident_frames_fit_the_budget :
  exists outs x', runs client x = (Val outs, x') /\ Z.of_nat (resident_frames x') * ps <= budget /\
    forall p, p ∈ bp_dirty_index x' <-> exists f, frame x' p = Some f /\ fr_dirty f = true.
Proof.
  destruct runs_show as (outs & x' & σ & E & _ & fl & R & T & Hz & _). exists outs, x'. split; [done|].
  destruct new_shows as [_ Hb]. split; [|apply (co_index _ _ _ _ (ar_core _ _ _ _ R))].
  assert (Hle : forall (l : list Shard) (caps : list nat), (forall i sh, l !! i = Some sh -> caps !! i = Some (capacity sh) /\ (size (resident sh) <= capacity sh)%nat) ->
    (sum_list ((fun sh => size (resident sh)) <$> l) <= sum_list caps)%nat).
  { induction l as [|sh l IH]; intros caps Hl; [cbn; lia|]. destruct (Hl 0%nat sh eq_refl) as [Hc Hs].
    destruct caps as [|c caps]; [done|]. injection Hc as ->.
    specialize (IH caps (fun i sh' Hi => Hl (S i) sh' Hi)). cbn [fmap list_fmap sum_list_with]. unfold id in *. lia. }
  specialize (Hle (bp_shards x') (capacity <$> bp_shards x)). unfold resident_frames.
  assert (H : (sum_list ((fun sh => size (resident sh)) <$> bp_shards x') <= sum_list (capacity <$> bp_shards x))%nat).
  { apply Hle. intros i sh Hi. split; [by apply T|]. destruct (ar_shard _ _ _ _ R i sh Hi) as [[_ _ Hf _] _]. lia. }
  pose proof (validate_page_size_val ps Hps). nia.
Qed.

(** C36: After [flush_all] the page file alone holds everything.  Whatever was
    changed before, no frame is dirty, and every page in use reads from the
    store, without the cache, with its current contents. *)
Theorem flush_all_leaves_the_file_current :
  exists outs x' k x'' σ, runs client x = (Val outs, x') /\ explains ps ∅ outs σ /\
    flush_all before_writeback crc32 hash_order x' = (Val k, x'') /\ dirty_page_count x'' = 0 /\
    forall p b, σ !! p = Some b -> exists h c, read_page crc32 (bp_store x'') p = Val (h, c) /\ same_page c b.
Proof.
  destruct runs_show as (outs & x' & σ & E & A & fl & R & T & Hz & _ & Hσ).
  destruct (flush_all_spec before_writeback crc32 hash_order Hbarrier Hcrc Hhash fl _ x' R) as (k & x'' & E' & R' & V' & D' & _).
  exists outs, x', k, x'', σ. ands; try done; [unfold dirty_page_count; by rewrite D', size_empty|].
  intros p b Hb. destruct (Hσ p b Hb) as (c & Hc & Hs). destruct (vi_avail _ _ _ _ V' p c Hc) as (c' & Hc' & Hs').
  destruct (clean_raw crc32 fl x'' p c' R' D' Hc') as [Hraw Hv]. pose proof (av_readable _ _ _ _ _ Hc') as [_ [h Hd]]. pose proof (av_range _ _ _ _ _ Hc') as Hr.
  destruct (co_store _ _ _ _ (ar_core _ _ _ _ R')) as [Hl _ [Hc1 Hc2] _ _ _ _ _]. pose proof (lo_page _ Hl).
  exists h, c'. split; [|by etrans]. unfold read_page. rewrite (proj2 (Z.leb_gt _ _)) by lia.
  rewrite (read_raw crc32 _ p c' Hl); [by rewrite Hv; cbn; rewrite Hd|apply addressable_below; lia|done].
Qed.

(** C37: Bounded write-back drains the pool.  After any such client, the
    host's loop of [writeback_step] under any valid limits, however early each
    step's deadline fires, reports completion after at most one step per dirty
    page and one more, and leaves no dirty page. *)
Theorem writeback_sweep_drains_the_pool (late : Z -> bool) (l : StepLimits)
    (Hl : writeback_limits_validate l ps = Val tt) (Hl0 : 0 <= max_candidates l) :
  exists outs x' x'', runs client x = (Val outs, x') /\
    sweep before_writeback crc32 (S (size (bp_dirty_index x'))) late l None x' = (Val true, x'') /\ dirty_page_count x'' = 0.
Proof.
  destruct runs_show as (outs & x' & σ & E & A & fl & R & T & Hz & _ & Hσ).
  destruct (sweep_spec before_writeback crc32 Hbarrier Hcrc fl (S (size (bp_dirty_index x'))) late l None x' R) as (x'' & E' & _ & _ & D').
  { by rewrite Hz. }
  { done. }
  { intros p Hp. apply (co_index _ _ _ _ (ar_core _ _ _ _ R)) in Hp as (f & Hf & _).
    destruct (fo_range _ _ _ _ _ _ (co_frame _ _ _ _ (ar_core _ _ _ _ R) p f Hf)). cbn. lia. }
  { lia. }
  exists outs, x', x''. ands; try done. unfold dirty_page_count. by rewrite D', size_empty.
Qed.
End Claims.

(** ** Whatever is pinned, whatever fails *)

Section Isolation.
Context {B : Type}.
Variable before_writeback : Z -> Z -> bytes -> st PageError B unit.
Variable crc32 : bytes -> Z.
Variables (c : CacheClass) (j : nat) (q : Z) (N : nat).

(** Page [q] of shard [j] is resident, and outside the lanes of class [c]. *)
Definition outside (i : nat) (sh : Shard) : Prop :=
  i = j -> is_Some (resident sh !! q) /\ forall Q, Q ∈ lanes c -> q ∉ queue_of Q sh.
Definition stays (i : nat) (sh : Shard) : Prop := i = j -> is_Some (resident sh !! q).

Abbreviation Outside := (Inv (B := B) (fun _ _ _ _ => True) outside N).
Abbreviation Stays := (Inv (B := B) (fun _ _ _ _ => True) stays N).

Lemma outside_stays x : Outside x -> Stays x.
Proof. intros (H1 & H2 & H3). split; [done|]. split; [done|]. intros i sh Hs Hi. by apply (H3 i sh Hs). Qed.

Lemma alter_stays g p (m : gmap Z Frame) : is_Some (m !! q) -> is_Some (alter g p m !! q).
Proof. intros H. destruct (decide (p = q)) as [->|Hne]; [by rewrite lookup_alter_eq, fmap_is_Some|by rewrite lookup_alter_ne]. Qed.

Lemma demote_stays turns sh : is_Some (resident sh !! q) -> is_Some (resident (demote turns sh) !! q).
Proof.
  revert sh. induction turns as [|turns IH]; intros sh H; cbn [demote]; [done|]. destruct (_ <=? _)%nat; [done|].
  destruct (protected sh); [done|]. apply IH. cbn [set_resident resident]. by apply alter_stays.
Qed.

Lemma outside_load i p t sh : (i = j -> p <> q) -> keeps Outside (load before_writeback crc32 i p t sh c).
Proof.
  intros Hp. eapply keeps_load with (allowed := fun Q => Q ∈ lanes c) (evictable := fun i p => i = j -> p <> q).
  - intros i0 sh0 Q l H Hl Hi. destruct (H Hi) as [H1 H2]. split; [by rewrite (proj1 (set_queue_rest Q l sh0))|].
    intros Q' HQ Hin. apply queue_set_elem in Hin as [[-> Hin]|[_ Hin]]; [by apply (H2 Q), Hl|by apply (H2 Q')].
  - intros i0 sh0 Q r H Hr Hi. destruct (H Hi) as [H1 H2]. split; [by rewrite (proj1 (set_queue_rest Q _ sh0))|].
    intros Q' HQ Hin. apply queue_set_elem in Hin as [[-> Hin]|[_ Hin]]; [|by apply (H2 Q')].
    apply elem_of_app in Hin as [Hin|Hin%list_elem_of_singleton]; [by apply (H2 Q)|by destruct (Hr Hi)].
  - done.
  - intros i0 sh0 r g H _ Hi. destruct (H Hi) as [H1 H2]. split; [by apply alter_stays|]. intros Q HQ. rewrite queue_resident. auto.
  - intros i0 sh0 r H Hr Hi. destruct (H Hi) as [H1 H2]. split; [cbn; rewrite lookup_delete_ne; auto|]. intros Q HQ. rewrite queue_resident. auto.
  - intros i0 sh0 r f H Hr _ Hi. destruct (H Hi) as [H1 H2]. split; [cbn; rewrite lookup_insert_ne; auto|]. intros Q HQ. rewrite queue_resident. auto.
  - intros i0 sh0 Q r H HQ Hin Hi ->. by apply (proj2 (H Hi) Q).
  - intros i0 r. apply write_back_plain; [done|done|]. intros i1 sh0 r0 g H Hi. destruct (H Hi) as [H1 H2]. split; [by apply alter_stays|].
    intros Q HQ. rewrite queue_resident. auto.
  - auto.
  - done.
Qed.

Lemma stays_mod i F : (forall sh, is_Some (resident sh !! q) -> is_Some (resident (F sh) !! q)) -> keeps Stays (mod_shard i F).
Proof. intros HF. apply keeps_mod_shard. intros sh H Hi. auto. Qed.

Lemma stays_acquire p x : Outside x -> Stays (snd (acquire_in_class before_writeback crc32 p c x)).
Proof.
  intros H. unfold acquire_in_class. unfold st_bind at 1. assert (H1 : Outside (snd (cancel_read_ahead p x))).
  { by apply (keeps_cancel (B := B) (fun _ _ _ _ => True) outside N). }
  destruct (cancel_read_ahead p x) as [[[]|e|] x1] eqn:Ec; cbn [snd] in *; [|by apply outside_stays..].
  unfold st_bind at 1, gets at 1. cbv beta iota. unfold st_bind at 1, shard at 1.
  destruct (bp_shards x1 !! shard_for x1 p) as [sh|] eqn:Hs; [|by apply outside_stays].
  unfold st_bind at 1, gets at 1. cbv beta iota. destruct (resident sh !! p) as [f|] eqn:Hf.
  - apply outside_stays in H1. revert H1. cbv zeta. set (b := _ && _ && _ && _).
    match goal with |- Stays x1 -> Stays (snd (?m x1)) => cut (keeps Stays m); [by intros Hk; apply Hk|] end.
    apply keeps_bind; [apply stays_mod; intros; by apply alter_stays|]. intros _. destruct b; [|auto with keeps].
    apply stays_mod. intros sh' H'. by apply demote_stays.
  - apply outside_stays. apply (outside_load (shard_for x1 p) p (bp_current_transaction x1) sh); [|done].
    intros Hi ->. destruct (proj1 (proj2 (proj2 H1) _ _ Hs Hi)) as [g Hg]. by rewrite Hf in Hg.
Qed.
End Isolation.

(** C39: Cache classes cannot evict each other's working set.  In every state,
    whatever is pinned, dirty or failing, an access in class [c] (a hit, a
    miss with or without eviction, a failed read, a refused write-back) leaves
    resident every page that is in none of the queues [c] may evict from: a
    streaming read removes neither a protected nor a metadata page, and a
    search read removes no metadata page. *)
Theorem access_evicts_only_its_own_lanes {B} (before_writeback : Z -> Z -> bytes -> st PageError B unit) crc32
    (x : BufferPool B) (c : CacheClass) (p q : Z) (j : nat) (sh : Shard)
    (Hs : bp_shards x !! j = Some sh) (Hq : is_Some (resident sh !! q)) (Hout : forall Q, Q ∈ lanes c -> q ∉ queue_of Q sh) :
  exists sh', bp_shards (snd (get_in_class before_writeback crc32 p c x)) !! j = Some sh' /\ is_Some (resident sh' !! q).
Proof.
  set (I := Inv (B := B) (fun _ _ _ _ => True) (stays j q) (length (bp_shards x))).
  assert (H : I (snd (get_in_class before_writeback crc32 p c x))).
  { unfold get_in_class, st_bind at 1. pose proof (stays_acquire before_writeback crc32 c j q (length (bp_shards x)) p x) as Ha.
    assert (Hx : Inv (fun _ _ _ _ => True) (outside c j q) (length (bp_shards x)) x).
    { split; [done|]. split; [done|]. intros i sh' Hi ->. by rewrite Hs in Hi; simplify_eq. }
    specialize (Ha Hx). fold I in Ha. destruct (acquire_in_class _ _ p c x) as [[[]|e|] x1]; cbn [snd] in *; [|done..].
    revert Ha. match goal with |- I x1 -> I (snd (?m x1)) => cut (keeps I m); [by intros Hk; apply Hk|] end.
    apply keeps_bind; [apply keeps_guard|]. intros b. apply keeps_bind; [|auto with keeps].
    apply keeps_bind; [auto with keeps|]. intros i. apply stays_mod. intros sh'. apply alter_stays. }
  destruct H as (_ & HN & HK). destruct (lookup_lt_is_Some_2 (bp_shards (snd (get_in_class before_writeback crc32 p c x))) j) as [sh' Hs'].
  { rewrite HN. by eapply lookup_lt_Some. }
  exists sh'. split; [done|]. by apply (HK j sh').
Qed.

Section LogRule.
Context {B : Type}.
Variable before_writeback : Z -> Z -> bytes -> st PageError B unit.
Variable crc32 : bytes -> Z.
Variable hash_order : gmap Z Frame -> list Z.

(** What the log holds: [logged w p b] when the contents [b] of page [p] have a
    record.  The barrier only grows it, and has logged a page when it returns
    without an error; it may refuse. *)
Variable logged : B -> Z -> bytes -> Prop.
Hypothesis logged_grows : forall p t b w q c, logged w q c -> logged (snd (before_writeback p t b w)) q c.
Hypothesis logged_first : forall p t b w w', before_writeback p t b w = (Val tt, w') -> logged w' p b.

(** The page files reached from [s0] by writes of logged contents only. *)
Inductive logged_writes (w : B) (s0 : PageStore) : PageStore -> Prop :=
  | lw_start : logged_writes w s0 s0
  | lw_write p b s : logged_writes w s0 s -> logged w p b -> logged_writes w s0 (snd (write_page crc32 p b s))
  | lw_sync s : logged_writes w s0 s -> logged_writes w s0 (snd (sync s)).

Lemma logged_writes_mono w w' s0 s : (forall p b, logged w p b -> logged w' p b) -> logged_writes w s0 s -> logged_writes w' s0 s.
Proof. intros Hw. induction 1; [constructor|apply lw_write; auto|by apply lw_sync]. Qed.

Variable s0 : PageStore.

Definition follows_log (s : PageStore) (w : option B) : Prop := exists w', w = Some w' /\ logged_writes w' s0 s.
Definition all_await (sh : Shard) : Prop := forall p f, resident sh !! p = Some f -> awaits_log f.

Abbreviation Safe N := (Inv (B := B) (fun s w _ _ => follows_log s w) (fun _ sh => all_await sh) N).

Lemma await_alter sh p g : all_await sh -> log_safe g -> all_await (set_resident (alter g p (resident sh)) sh).
Proof.
  intros H Hg q f. cbn. rewrite lookup_alter_Some. intros [(<- & f0 & Hf & ->)|[_ Hf]]; [apply Hg|]; by eapply H.
Qed.

Lemma await_insert sh p f : all_await sh -> fr_dirty f = false -> all_await (set_resident (<[p := f]> (resident sh)) sh).
Proof. intros H Hf q g. cbn. rewrite lookup_insert_Some. intros [[<- <-]|[_ Hg]]; [intros Hd; congruence|by eapply H]. Qed.

Lemma await_delete sh p : all_await sh -> all_await (set_resident (base.delete p (resident sh)) sh).
Proof. intros H q g. cbn. intros [_ Hg]%lookup_delete_Some. by eapply H. Qed.

Lemma await_queue sh Q l : all_await sh -> all_await (set_queue Q l sh).
Proof. intros H q g. rewrite (proj1 (set_queue_rest Q l sh)). apply H. Qed.

(** A dirty frame is written only once the barrier has accepted it. *)
Lemma safe_write_back N i p : keeps (Safe N) (write_back_frame before_writeback crc32 i p).
Proof.
  intros x H. unfold write_back_frame, st_bind at 1, shard. destruct (bp_shards x !! i) as [sh|] eqn:Hs; [|done].
  destruct (resident sh !! p) as [f|] eqn:Hf; [|done]. destruct (fr_dirty f) eqn:Hd; cbn [negb]; [|done].
  destruct H as ((w & Ew & Hw) & HN & HK). rewrite (HK i sh Hs p f Hf Hd). unfold st_bind at 1, barrier_for. rewrite Ew.
  destruct (before_writeback p (fr_dirtied_by f) (fr_data f) w) as [r w'] eqn:Eb.
  assert (Hw' : logged_writes w' s0 (bp_store x)).
  { eapply logged_writes_mono; [|exact Hw]. intros q c Hq. pose proof (logged_grows p (fr_dirtied_by f) (fr_data f) w q c Hq) as G. by rewrite Eb in G. }
  destruct r as [[]|e|]; [|by split; [exists w'|]..].
  pose proof (logged_first _ _ _ _ _ Eb) as Hlog. unfold st_bind at 1, gets. cbv beta iota. unfold st_bind at 1, mod_frame.
  match goal with |- context [mod_shard i ?F ?y] => set (x1 := snd (mod_shard i F y)); change (mod_shard i F y) with (Val (E := PageError) tt, x1) end.
  assert (H1 : Safe N x1).
  { apply (keeps_mod_shard (fun s w _ _ => follows_log s w) (fun _ sh => all_await sh) N i); [|by split; [exists w'|]].
    intros sh' H'. apply await_alter; [done|]. by intros g. }
  assert (E1 : bp_store x1 = bp_store x /\ bp_barrier x1 = Some w') by done. destruct E1 as [E1 E2]. cbv beta iota. clearbody x1.
  unfold st_bind at 1, on_store. rewrite E1. pose proof (lw_write w' s0 p (fr_data f) _ Hw' Hlog) as Hw2.
  destruct (write_page crc32 p (fr_data f) (bp_store x)) as [r s']. destruct H1 as (_ & HN1 & HK1).
  assert (H2 : Safe N (with_store s' x1)) by (split; [by exists w'|by split]). destruct r as [u|e|]; [|done..].
  revert H2. generalize (with_store s' x1). match goal with |- forall y, _ -> Safe N (snd (?m y)) => cut (keeps (Safe N) m); [done|] end.
  apply keeps_bind; [|intros _; apply keeps_bind; [by apply keeps_modify|auto with keeps]].
  apply keeps_mod_shard. intros sh' H'. apply await_alter; [done|]. by intros g.
Qed.

Ltac log_closed := eauto using await_alter, await_insert, await_delete, await_queue, safe_write_back.

(** The operations that leave the log to the barrier: not the superblock flush,
    the allocator's own writes or the hand-over of records to the caller. *)
Definition barrier_op (op : PoolOp) : bool :=
  match op with Allocate _ | Flush | TakeLog => false | _ => true end.

Lemma safe_request N l : keeps (Safe N) (request_read_ahead l).
Proof.
  assert (One : forall p r, keeps (Safe N) (request_one p r)).
  { intros p r. apply keeps_bind; [auto with keeps|]. intros x. cbv zeta. do 3 (case_match; [auto with keeps|]).
    case_match; (apply keeps_bind; [by apply keeps_modify|auto with keeps]). }
  assert (All : forall ps r, keeps (Safe N) (request_all ps r)).
  { induction ps as [|p ps IH]; intros r; cbn [request_all]; [auto with keeps|]. by apply keeps_bind. }
  apply keeps_bind; [auto with keeps|]. intros x. cbv zeta. do 2 (case_match; [auto with keeps|]).
  apply keeps_bind; [done|]. intros r. apply keeps_bind; auto with keeps.
Qed.

Lemma safe_exec N op : barrier_op op = true -> keeps (Safe N) (exec before_writeback crc32 hash_order op).
Proof.
  intros Hop. destruct op; try done; cbn [exec]; (apply keeps_bind; [|auto with keeps]).
  - eapply keeps_get with (allowed := fun _ => True) (evictable := fun _ _ => True); log_closed.
  - eapply keeps_get_mut with (allowed := fun _ => True) (evictable := fun _ _ => True); log_closed.
  - eapply keeps_writeback_step; log_closed. intros y ((w & Ew & Hw) & H). unfold on_store.
    pose proof (lw_sync w s0 _ Hw) as Hw'. destruct (sync (bp_store y)) as [r s']. split; [|done]. by exists w.
  - apply safe_request.
  - eapply keeps_read_ahead_step with (evictable := fun _ _ => True); log_closed.
  - eapply keeps_warm with (allowed := fun _ => True) (evictable := fun _ _ => True); log_closed.
  - by apply keeps_modify.
Qed.

(** The pool after a sequence of calls, each of which may have failed. *)
Definition attempts (ops : list PoolOp) (x : BufferPool B) : BufferPool B :=
  foldl (fun x op => snd (exec before_writeback crc32 hash_order op x)) x ops.

(** C21: The write-ahead rule.  With a write-back barrier attached and every dirty
    frame still owing its log record, no sequence of reads, changes, warming,
    read-ahead and write-back steps, whatever fails on the way (a refused
    record, a full pool, a read error), writes a page whose contents the barrier
    has not logged first: the page files are the initial ones after writes of
    logged contents only. *)
Theorem no_page_is_written_before_its_log_record (x : BufferPool B) (w : B) (ops : list PoolOp)
    (Hw : bp_barrier x = Some w) (Hs : bp_store x = s0) (Hall : forall i sh, bp_shards x !! i = Some sh -> all_await sh)
    (Hops : forallb barrier_op ops = true) :
  exists w', bp_barrier (attempts ops x) = Some w' /\ logged_writes w' s0 (bp_store (attempts ops x)).
Proof.
  assert (H : Safe (length (bp_shards x)) x) by (split; [exists w; rewrite Hs; split; [done|constructor]|by split]).
  revert H. generalize (length (bp_shards x)). clear Hs Hall Hw. intros N. revert x Hops. induction ops as [|op ops IH]; intros x Hops H.
  - destruct H as ((w' & Ew & Hw) & _). by exists w'.
  - cbn in Hops. apply andb_true_iff in Hops as [Hop Hops]. apply (IH _ Hops). by apply safe_exec.
Qed.
End LogRule.

(** ** Witnesses *)

(** A log that keeps every page it is shown, and one that refuses page 2. *)
Definition demo_barrier (p t : Z) (b : bytes) : st PageError (list (Z * bytes)) unit := modify (fun w => (p, b) :: w).
Definition demo_refusal (p t : Z) (b : bytes) : st PageError (list (Z * bytes)) unit :=
  if p =? 2 then st_fail (WalCorruption 0) else demo_barrier p t b.
Definition demo_order (m : gmap Z Frame) : list Z := (map_to_list m).*1.

(** One frame: every second page touched is an eviction. *)
Definition demo_new : res PageError (BufferPool (list (Z * bytes))) :=
  new default_protected default_streaming default_metadata 512 1 8 demo_store.
Definition demo_pool : BufferPool (list (Z * bytes)) :=
  match demo_new with Val x => x | _ => mkPool demo_store false [] None ∅ 0 false ∅ (mkQueue [] ∅ 0 0) 0 0 false end.
Definition demo_bytes : bytes := snd ((encode (new_header 1 Heap 512) : st PageError bytes unit) (zeros 512)).
Definition demo_limits : StepLimits := mkLimits 1 4096 10.

(** Two pages are allocated and changed, the first is read back. *)
Definition demo_client : Client :=
  Ask (Allocate Heap) (fun a => match a with Id p =>
  Ask (Allocate BTreeLeaf) (fun b => match b with Id q =>
  Ask (Change p (fun _ => demo_bytes)) (fun _ =>
  Ask (Change q (fun _ => demo_bytes)) (fun _ =>
  Ask (Read Streaming p) (fun _ =>
  Ask (Writeback (fun _ => true) None demo_limits) (fun _ => Stop))))
  | _ => Stop end) | _ => Stop end).

Lemma demo_readable : readable 512 demo_bytes.
Proof. split; [by vm_compute|]. exists (new_header 1 Heap 512). by vm_compute. Qed.

Lemma demo_admitted : admitted 512 ∅ demo_client.
Proof.
  assert (R : forall b : bytes, blen b = 512 -> readable 512 demo_bytes) by (intros; apply demo_readable).
  assert (M : forall p (b : bytes) (m : gmap Z bytes), is_Some (<[p := b]> m !! p)) by (intros; by rewrite lookup_insert_eq).
  assert (W : forall p q (b : bytes) (m : gmap Z bytes), is_Some (m !! p) -> is_Some (<[q := b]> m !! p))
    by (intros; apply lookup_insert_is_Some'; by right).
  split; [done|]. intros a σ1. inversion 1; subst. split; [done|]. intros b1 σ2. inversion 1; subst.
  split; [by split; [apply W, M|]|]. intros o3 σ3. inversion 1; subst. split; [by split; [apply W, M|]|].
  intros o4 σ4. inversion 1; subst. split; [apply W, M|]. intros o5 σ5. inversion 1; subst. split; [by split; [vm_compute|]|]. done.
Qed.

Lemma demo_within : within 2 demo_client.
Proof. split; [cbn; lia|]. intros [|p|]; [done| |done]. split; [cbn; lia|]. intros [|q|]; [done| |done]. cbn. by repeat (split; [lia|intros _]). Qed.

Lemma demo_barrier_ok p t b w : exists w', demo_barrier p t b w = (Val tt, w').
Proof. by eexists. Qed.

Lemma demo_order_ok m : demo_order m ≡ₚ (map_to_list m).*1.
Proof. done. Qed.

Ltac on_demo claim :=
  apply (claim _ demo_barrier byte_sum demo_order demo_barrier_ok byte_sum_u32 demo_order_ok 512 0 true demo_store
    ltac:(by vm_compute) ltac:(by vm_compute) ltac:(lia) ltac:(by vm_compute) default_protected default_streaming default_metadata 512 1%nat 8%nat
    demo_pool (Some []) default_shares_fit ltac:(lia) ltac:(by vm_compute) demo_client 2%nat demo_admitted demo_within ltac:(widths; lia)).
Abbreviation demo_run := (runs demo_barrier byte_sum demo_order demo_client (with_barrier (Some []) demo_pool)).

Lemma pool_refines_a_page_map_witness :
  exists outs x' σ, demo_run = (Val outs, x') /\ explains 512 ∅ outs σ.
Proof. on_demo @pool_refines_a_page_map. Defined.

Lemma resident_frames_fit_the_budget_witness :
  exists outs x', demo_run = (Val outs, x') /\ Z.of_nat (resident_frames x') * 512 <= 512 /\
    forall p, p ∈ bp_dirty_index x' <-> exists f, frame x' p = Some f /\ fr_dirty f = true.
Proof. on_demo @resident_frames_fit_the_budget. Defined.

Lemma flush_all_leaves_the_file_current_witness :
  exists outs x' k x'' σ, demo_run = (Val outs, x') /\ explains 512 ∅ outs σ /\
    flush_all demo_barrier byte_sum demo_order x' = (Val k, x'') /\ dirty_page_count x'' = 0 /\
    forall p b, σ !! p = Some b -> exists h c, read_page byte_sum (bp_store x'') p = Val (h, c) /\ same_page c b.
Proof. on_demo @flush_all_leaves_the_file_current. Defined.

Lemma writeback_sweep_drains_the_pool_witness :
  exists outs x' x'', demo_run = (Val outs, x') /\
    sweep demo_barrier byte_sum (S (size (bp_dirty_index x'))) (fun n => 0 <? n) demo_limits None x' = (Val true, x'') /\
    dirty_page_count x'' = 0.
Proof. on_demo @writeback_sweep_drains_the_pool; [by vm_compute|by vm_compute]. Defined.

(** Two pages in the file; a pool of sixteen frames that holds page 1 as metadata. *)
Definition demo_sixteen : BufferPool (list (Z * bytes)) :=
  match new default_protected default_streaming default_metadata 8192 1 8 demo2 with Val x => x | _ => demo_pool end.
Definition demo_held : BufferPool (list (Z * bytes)) := snd (get_in_class demo_barrier byte_sum 1 Metadata demo_sixteen).
Definition demo_shard : Shard :=
  match bp_shards demo_held with [sh] => sh | _ => new_shard default_protected default_streaming default_metadata 1 end.

Lemma access_evicts_only_its_own_lanes_witness :
  exists sh', bp_shards (snd (get_in_class demo_barrier byte_sum 2 Streaming demo_held)) !! 0%nat = Some sh' /\ is_Some (resident sh' !! 1).
Proof.
  apply (access_evicts_only_its_own_lanes demo_barrier byte_sum demo_held Streaming 2 1 0 demo_shard).
  - by vm_compute.
  - apply (bool_decide_unpack _). by vm_compute.
  - apply Forall_forall. apply (bool_decide_unpack _). by vm_compute.
Defined.

Definition demo_logged (w : list (Z * bytes)) (p : Z) (b : bytes) : Prop := (p, b) ∈ w.
Definition demo_ops : list PoolOp :=
  [Change 1 (fun _ => demo_bytes); Change 2 (fun _ => demo_bytes); Read Search 1; Writeback (fun _ => false) None demo_limits].

Lemma no_page_is_written_before_its_log_record_witness :
  exists w', bp_barrier (attempts demo_refusal byte_sum demo_order demo_ops (with_barrier (Some []) demo_sixteen)) = Some w' /\
    logged_writes byte_sum demo_logged w' demo2
      (bp_store (attempts demo_refusal byte_sum demo_order demo_ops (with_barrier (Some []) demo_sixteen))).
Proof.
  apply (no_page_is_written_before_its_log_record demo_refusal byte_sum demo_order demo_logged) with (w := []).
  - intros p t b w q c Hq. unfold demo_refusal. destruct (p =? 2); [done|]. by right.
  - intros p t b w w'. unfold demo_refusal. destruct (p =? 2); [done|]. intros [= <-]. by left.
  - done.
  - by vm_compute.
  - intros [|i] sh H; vm_compute in H; [|done]. injection H as <-. by intros p f.
  - done.
Defined.
