(* ===== verification/StoreReopen.v ===== *)
(** * Closing and reopening a page file

    What the store keeps through every write so that [open] can read it back:
    the geometry of its files, metadata that fits its fields, and a segment
    file for every page counted. *)

From stdpp Require Import base tactics list numbers gmap.
From Stdlib Require Import ZArith Lia.
From S2P Require Import Prelude Search Bytes Errors PageFormat PageStore PageStoreSpec Superblock Allocator AllocatorTheorems RecoveryTheorems Checkpoint.
From S2P Require Import PoolPager PoolInvariants.
From S2P Require Import Pager Pool PoolShard PoolSpec PoolAccess PoolRuns.
Local Open Scope Z_scope.
Local Open Scope bic_scope.

(** ** Geometry *)

(** [s] after writes: the same layout and root, files only added. *)
Record grown_from (s0 s : PageStore) : Prop := {
  gr_size : page_size s = page_size s0;
  gr_extent : extent_pages s = extent_pages s0;
  gr_target : migration_target_pages s = migration_target_pages s0;
  gr_mark : migration_watermark s = migration_watermark s0;
  gr_root : root_page (meta s) = root_page (meta s0);
  gr_lsn : checkpoint_lsn (meta s) = checkpoint_lsn (meta s0);
  gr_files : (length (files s0) <= length (files s))%nat
}.

#[export] Instance grown_from_preorder : PreOrder grown_from.
Proof.
  split; [by intros s; split|]. intros s1 s2 s3 [A1 A2 A3 A4 A5 A6 A7] [B1 B2 B3 B4 B5 B6 B7]. split; [congruence..|lia].
Qed.

(** What the writes of the store change, for a property [I] of it. *)
Section Written.
Variable crc32 : bytes -> Z.
Variable I : PageStore -> Prop.
Hypothesis I_files : forall s f, I s -> (length (files s) <= length f)%nat -> I (set_files f s).
Hypothesis I_dirty : forall s d, I s -> I (set_dirty d s).
Hypothesis I_faults : forall s f, I s -> I (set_faults f s).
Hypothesis I_gen : forall s g, I s -> I (set_meta (with_gen g (meta s)) s).

Lemma keeps_files f : (forall s, (length (files s) <= length (f s))%nat) -> keeps I (modify (E := PageError) (fun s => set_files (f s) s)).
Proof. intros Hf. apply keeps_modify. auto. Qed.

Lemma keeps_mark i : keeps I (mark_segment_dirty i).
Proof. apply keeps_modify. auto. Qed.

Lemma keeps_buffer m b : keeps I (on_buffer m b).
Proof. intros s Hs. unfold on_buffer. by destruct (m b) as [[]]. Qed.

Lemma keeps_write_raw p b g : keeps I (write_page_raw crc32 p b g).
Proof.
  apply keeps_bind; [auto with keeps|]. intros s. apply keeps_bind; [destruct (_ && _); [apply keeps_buffer|auto with keeps]|].
  intros b1. apply keeps_bind; [apply keeps_buffer|]. intros b2. destruct (locate s p) as [segment offset].
  apply keeps_bind; [apply keeps_files; intros s1; rewrite length_app; lia|]. intros _. apply keeps_bind.
  { intros s1 H1. unfold intercepted. destruct (intercept _ _) as [r f]. by apply I_faults. }
  intros n. apply keeps_bind; [apply keeps_files; intros s1; by rewrite length_alter|]. intros _.
  apply keeps_bind; [apply keeps_mark|auto with keeps].
Qed.

Lemma keeps_write p b : keeps I (write_page crc32 p b).
Proof.
  apply keeps_bind; [auto with keeps|]. intros s. apply keeps_bind; [apply keeps_modify; intros s1 H1; apply I_gen, H1|].
  intros _. apply keeps_write_raw.
Qed.

Lemma keeps_flush : keeps I (flush crc32).
Proof.
  apply keeps_bind.
  - apply keeps_bind; [auto with keeps|]. intros m. apply keeps_bind; [auto with keeps|]. intros s.
    apply keeps_bind; [apply keeps_buffer|]. intros b. apply keeps_bind; [apply keeps_write_raw|auto with keeps].
  - intros _. apply keeps_bind; [auto with keeps|]. intros s. destruct (fsync s); [apply keeps_modify; auto|auto with keeps].
Qed.

Hypothesis I_head : forall s h n, I s -> I (set_meta (with_head h n (meta s)) s).
Hypothesis I_count : forall s c, I s -> I (set_meta (with_count c (meta s)) s).

Lemma keeps_extend c : keeps I (extend_to c).
Proof.
  apply keeps_bind; [auto with keeps|]. intros s. destruct (_ =? 0).
  - destruct (_ <=? _); [auto with keeps|]. apply keeps_bind; [|intros _; apply keeps_mark].
    apply keeps_files. intros s1. by rewrite length_alter.
  - apply keeps_bind; [apply keeps_files; intros s1; rewrite length_app; lia|]. intros _.
    induction (rangeZ _ _) as [|i l IH]; cbn [forM]; [apply keeps_ret|]. apply keeps_bind; [|intros _; exact IH].
    apply keeps_bind; [auto with keeps|]. intros s2. cbv zeta. destruct (blen _ <? _); [|apply keeps_ret].
    apply keeps_bind; [|intros _; apply keeps_mark]. apply keeps_files. intros s3. by rewrite length_alter.
Qed.

Lemma keeps_allocate t : keeps I (allocate crc32 t).
Proof.
  unfold allocate. destruct (_ || _); [auto with keeps|]. apply keeps_bind; [auto with keeps|]. intros s.
  apply keeps_bind; [auto with keeps|]. intros _. apply keeps_bind.
  - destruct (negb _).
    + apply keeps_bind; [apply keeps_lift|]. intros [next gen]. apply keeps_bind; [apply keeps_modify; auto|auto with keeps].
    + apply keeps_bind; [destruct (negb _); [apply keeps_extend|auto with keeps]|]. intros _.
      apply keeps_bind; [apply keeps_modify; auto|auto with keeps].
  - intros [p floor]. apply keeps_bind; [apply keeps_modify; intros s1 H1; apply I_gen, H1|]. intros _.
    apply keeps_bind; [auto with keeps|]. intros s1. apply keeps_bind; [apply keeps_buffer|]. intros b.
    apply keeps_bind; [apply keeps_write_raw|auto with keeps].
Qed.
End Written.

(** Pages are written, none is added. *)
Definition rewritten_from (s0 s : PageStore) : Prop := grown_from s0 s /\ page_count (meta s) = page_count (meta s0).

Ltac geometry := intros; repeat match goal with H : grown_from _ _ |- _ => destruct H end; split; cbn; try done; lia.

Lemma grows_allocate crc32 s0 t : keeps (grown_from s0) (allocate crc32 t).
Proof. apply keeps_allocate; geometry. Qed.

Lemma rewrites_write crc32 s0 p b : keeps (rewritten_from s0) (write_page crc32 p b).
Proof. apply keeps_write; intros s ? [G C]; intros; (split; [geometry|done]). Qed.

Lemma rewrites_flush crc32 s0 : keeps (rewritten_from s0) (flush crc32).
Proof. apply keeps_flush; intros s ? [G C]; intros; (split; [geometry|done]). Qed.

(** ** A store that can be reopened *)

Record lasting (s : PageStore) : Prop := {
  la_size : validate_page_size (page_size s) = Val tt;
  la_target : migration_target_pages s = 0;
  la_mark : extent_pages s = 0 -> migration_watermark s = 0;
  la_u64 : layout_u64 s;
  la_root : is_u64 (root_page (meta s)) /\ is_u64 (checkpoint_lsn (meta s));
  la_files : segments_needed s <= Z.of_nat (length (files s))
}.

Lemma lasting_grown s s' : lasting s -> grown_from s s' -> page_count (meta s') = page_count (meta s) -> lasting s'.
Proof.
  intros [L1 L2 L3 L4 L5 L6] [G1 G2 G3 G4 G5 G6 G7] Hc. unfold layout_u64, segments_needed in *.
  split; rewrite ?G1, ?G2, ?G3, ?G4, ?G5, ?G6; try done; [by unfold layout_u64; rewrite G2, G3, G4|].
  unfold segments_needed. rewrite G2, G3, Hc. lia.
Qed.

Section Reopen.
Variable crc32 : bytes -> Z.
Hypothesis Hcrc : forall l, is_u32 (crc32 l).

(** A page that can be read lies in a segment file. *)
Lemma raw_segment s p c : raw s p = Some c -> fst (locate s p) < Z.of_nat (length (files s)).
Proof.
  unfold raw, segment_at. destruct (Z.ltb_spec (fst (locate s p)) 0); [done|].
  destruct (files s !! Z.to_nat (fst (locate s p))) as [f|] eqn:Hf; [|done]. intros _. apply lookup_lt_Some in Hf. lia.
Qed.

Lemma lasting_allocate s fl t p s' : lasting s -> free_list crc32 s fl -> t <> Superblock -> t <> Free ->
  (page_count (meta s) + 2) * page_size s < U64 -> allocate crc32 t s = (Val p, s') -> lasting s'.
Proof.
  intros La F H1 H2 Hroom E. assert (G : grown_from s s') by (pose proof (grows_allocate crc32 s t s ltac:(reflexivity)) as G; by rewrite E in G).
  destruct fl as [|q fl].
  - destruct (allocate_grows crc32 Hcrc s t F H1 H2 Hroom) as (s2 & E2 & F2 & B & _ & C & _). rewrite E in E2. injection E2 as -> ->.
    pose proof (fl_layout _ _ _ F2) as Hl. pose proof (fl_count _ _ _ F) as [Hc _]. pose proof (gr_size _ _ G) as Gs.
    pose proof (lo_page s (fl_layout _ _ _ F)) as Hps.
    assert (Ha : addressable s2 (page_count (meta s))) by (split; [lia|rewrite Gs; nia]).
    destruct B as [gen B]. unfold read_page in B. destruct (_ <=? _); [done|]. destruct (raw_of_read crc32 s2 _ _ Hl Ha B) as [c Hr].
    apply raw_segment in Hr. destruct La as [L1 L2 L3 L4 L5 L6]. destruct G as [G1 G2 G3 G4 G5 G6 G7].
    split; rewrite ?G1, ?G2, ?G3, ?G4, ?G5, ?G6; try done; [by unfold layout_u64 in *; rewrite G2, G3, G4|].
    unfold segments_needed in *. rewrite G2, G3, L2, C in *. unfold locate in Hr. rewrite G2, G3, ?L2 in Hr.
    pose proof (lo_extent s (fl_layout _ _ _ F)). destruct (Z.ltb_spec 0 (extent_pages s)).
    + rewrite (proj2 (Z.eqb_neq _ 0)) in * by lia. cbn [fst] in Hr.
      replace (page_count (meta s) + 1 + extent_pages s - 1) with (page_count (meta s) + 1 * extent_pages s) by lia.
      rewrite Z.div_add by lia. lia.
    + rewrite Z.eqb_refl in *. lia.
  - destruct (allocate_reuses crc32 Hcrc s q fl t F H1 H2) as (s2 & E2 & _ & _ & _ & C & _). rewrite E in E2. injection E2 as -> ->.
    by eapply lasting_grown.
Qed.

Lemma lasting_meta s fl : lasting s -> free_list crc32 s fl -> meta_ok (meta s).
Proof.
  intros La F. pose proof (la_root _ La) as [Hr Hk]. destruct F as [Hl _ [Hc Hz] Hg Hch Hnd Hlen Hran]. pose proof (lo_page s Hl).
  assert (Hp : page_count (meta s) < U64) by nia. unfold meta_ok. ands; try done; unfold is_u64; try lia.
  - destruct fl as [|q fl]; [cbn in Hch; lia|]. destruct Hch as [-> _]. apply Forall_cons in Hran as [? _]. lia.
  - rewrite Hlen. pose proof (distinct_bound fl (page_count (meta s)) ltac:(lia) Hnd Hran). lia.
Qed.

Lemma lasting_new n e b s : validate_page_size n = Val tt -> validate_extent_bytes e n = Val tt -> is_u64 e ->
  open crc32 [] n e b = Val s -> lasting s.
Proof.
  intros Hn He He0 Ho. destruct (open_new crc32 n e b Hn He ltac:(unfold is_u64 in *; lia)) as [sb Eo]. rewrite Eo in Ho. injection Ho as <-.
  pose proof (validate_page_size_val n Hn) as Hps. assert (Hd : 0 <= e / n <= e) by (split; [apply Z.div_pos|apply Z.div_le_upper_bound]; unfold is_u64 in *; nia).
  split; cbn; try done; [unfold layout_u64, is_u64 in *; cbn; widths; lia|].
  unfold segments_needed. cbn. rewrite length_alter. assert (Hone : (if 0 <? e / n then e / n else 0) = e / n) by (destruct (Z.ltb_spec 0 (e / n)); lia).
  rewrite Hone. destruct (Z.eqb_spec (e / n) 0) as [E|E]; cbn [length app]; rewrite ?length_app; cbn [length]; [lia|].
  replace (1 + e / n - 1) with (e / n) by lia. rewrite Z.div_same by done. lia.
Qed.

Lemma lasting_publish s r l : lasting s -> is_u64 r -> is_u64 l -> lasting (snd (publish_root crc32 r l s)).
Proof.
  intros La Hr Hl. set (s1 := set_meta (with_gen (sat_add (m_generation (meta s)) 1) (with_root r l (meta s))) s).
  change (lasting (snd (flush crc32 s1))). destruct (rewrites_flush crc32 s1 s1 ltac:(done)) as [G C].
  apply (lasting_grown s1); [by destruct La; split|done|done].
Qed.

(** A root is published and the files are opened again: the same pages, the
    same free list, the new root. *)
Lemma publish_reopens s fl r l e b :
  lasting s -> free_list crc32 s fl -> is_u64 r -> is_u64 l -> validate_extent_bytes e (page_size s) = Val tt ->
  exists s' s2, publish_root crc32 r l s = (Val tt, s') /\ open crc32 (files s') (page_size s) e b = Val s2 /\
    free_list crc32 s2 fl /\ lasting s2 /\ pages_kept (fun q => q <> 0) s s2 /\
    page_count (meta s2) = page_count (meta s) /\ root_page (meta s2) = r.
Proof.
  intros La F Hr Hl He. set (s1 := set_meta (with_gen (sat_add (m_generation (meta s)) 1) (with_root r l (meta s))) s).
  change (publish_root crc32 r l s) with (flush crc32 s1). destruct La as [L1 L2 L3 L4 L5 L6].
  pose proof (lasting_meta s fl ltac:(by split) F) as (M1 & M2 & M3 & M4 & _).
  assert (Hg : is_u64 (sat_add (m_generation (meta s)) 1)) by (apply sat_add_u64; unfold is_u64 in *; lia).
  assert (Hl1 : layout_ok s1) by (by destruct (fl_layout _ _ _ F)). assert (Hc1 : calm s1) by apply (fl_calm _ _ _ F).
  destruct (flush_reopens crc32 Hcrc s1 e b Hl1 Hc1) as (s' & E & Ho & Em & Hl' & Hseg);
    [by unfold meta_ok|done|done|done|by auto|done|].
  destruct (flush_keeps crc32 s1 Hl1 Hc1) as (s'' & E' & K & _). rewrite E in E'. injection E' as <-.
  set (s2 := reopened s1 (files s') b) in *.
  assert (K2 : pages_kept (fun q => q <> 0) s s2).
  { split; [by destruct (fl_layout _ _ _ F)|done|done|]. intros q c Ha Hq Hraw. pose proof (pk_raw _ _ _ K q c Ha Hq Hraw) as Hraw'.
    destruct (Hseg q Ha) as (E1 & E2 & E3). unfold raw in *. rewrite E1 in Hraw'. rewrite E2, E3.
    by rewrite (pk_size _ _ _ K) in Hraw'. }
  exists s', s2. ands; try done.
  - eapply free_list_kept; [exact F|exact K2|done|done|done|]. cbn. unfold is_u64 in *. widths. lia.
  - assert (Hn : (length (files s) <= length (files s'))%nat) by (pose proof (rewrites_flush crc32 s1 s1 ltac:(done)) as [G _]; rewrite E in G; apply G).
    split; try done. unfold segments_needed in *. change (extent_pages s2) with (extent_pages s). change (migration_target_pages s2) with (migration_target_pages s).
    change (page_count (meta s2)) with (page_count (meta s)). unfold s2, reopened. cbn [files]. cbn [s1 set_meta extent_pages migration_target_pages]. rewrite L2 in *.
    destruct (Z.eqb_spec (extent_pages s) 0) as [E0|E0]; cbn [andb]; [|lia]. rewrite E0 in *. cbn in *. rewrite length_take. lia.
Qed.
End Reopen.

(** ** Reopening a pool

    The pool keeps its page file in a state [open] accepts, and a flush that
    publishes a root leaves files from which a new pool, cold, shows the same
    pages. *)

Section PoolReopen.
Context {B : Type}.
Variable before_writeback : Z -> Z -> bytes -> st PageError B unit.
Variable crc32 : bytes -> Z.
Variable hash_order : gmap Z Frame -> list Z.
Abbreviation Pool := (BufferPool B).
Hypothesis Hbarrier : forall p t b w, exists w', before_writeback p t b w = (Val tt, w').
Hypothesis Hcrc : forall l, is_u32 (crc32 l).
Hypothesis Hhash : forall m, hash_order m ≡ₚ (map_to_list m).*1.

(** ** The store behind the pool *)

Abbreviation Rewrites s0 N := (Inv (B := B) (fun s _ _ _ => rewritten_from s0 s) (fun _ _ => True) N).

Lemma rewrites_start x : Rewrites (bp_store x) (length (bp_shards x)) x.
Proof. by split; [|split]. Qed.

Lemma rewrites_write_back s0 N i p : keeps (Rewrites s0 N) (write_back_frame before_writeback crc32 i p).
Proof. apply write_back_plain; try done. intros q b s _ _ _. apply rewrites_write. Qed.

Lemma rewrites_get s0 N p c : keeps (Rewrites s0 N) (get_in_class before_writeback crc32 p c).
Proof.
  eapply keeps_get with (allowed := fun _ => True) (evictable := fun _ _ => True); try done. apply rewrites_write_back.
Qed.

Lemma rewrites_get_mut s0 N {A} p (m : st PageError bytes A) : keeps (Rewrites s0 N) (get_mut before_writeback crc32 p m).
Proof.
  eapply keeps_get_mut with (allowed := fun _ => True) (evictable := fun _ _ => True); try done. apply rewrites_write_back.
Qed.

Lemma rewrites_flush_all s0 N : keeps (Rewrites s0 N) (flush_all before_writeback crc32 hash_order).
Proof.
  apply keeps_bind; [auto with keeps|]. intros n. apply keeps_bind; [apply keeps_flush_shards; apply rewrites_write_back|].
  intros k. apply keeps_bind; [|auto with keeps]. intros x (H & HN & _). unfold on_store.
  pose proof (rewrites_flush crc32 s0 (bp_store x) H) as H'. destruct (flush crc32 (bp_store x)) as [r s]. by split.
Qed.

Lemma lasts_after {A} (m : st PageError Pool A) x r x' :
  (forall s0 N, keeps (Rewrites s0 N) m) -> lasting (bp_store x) -> m x = (r, x') -> lasting (bp_store x').
Proof.
  intros Hm La E. pose proof (Hm _ _ x (rewrites_start x)) as ([G C] & _). rewrite E in G, C. by eapply lasting_grown.
Qed.

(** ** The laws, with the file kept reopenable *)

Abbreviation pager := (pool_pager before_writeback crc32 hash_order).
Abbreviation laws := (pool_laws before_writeback crc32 hash_order Hbarrier Hcrc Hhash).

Definition pool_lasts (ps : Z) (n : nat) (x : Pool) (σ : gmap Z bytes) : Prop :=
  pool_models crc32 ps n x σ /\ lasting (bp_store x).

#[local] Instance lasting_laws : @PagerLaws Pool pager.
Proof.
  refine (@Build_PagerLaws Pool pager pool_lasts _ _ _ _ _ _ _); intros ps n x σ.
  - intros [M La]. split; [|done]. by apply (@pg_weaken_law _ _ laws).
  - intros [M La]. by apply (@pg_size_law _ _ laws ps n x σ).
  - intros c p b [M La] Hb. destruct (@pg_get_law _ _ laws ps n x σ c p b M Hb) as (b' & x' & E & Hs & M').
    exists b', x'. split; [exact E|]. split; [exact Hs|]. split; [exact M'|]. eapply lasts_after; [|exact La|exact E]. intros s0 N. apply rewrites_get.
  - intros p b [M La] Hb. destruct (@pg_get_mut_law _ _ laws ps n x σ p b M Hb) as (b0 & Hs & Hm). exists b0. split; [exact Hs|].
    intros A m Hr. destruct (Hm A m Hr) as (x' & E & M'). exists x'. split; [exact E|]. split; [exact M'|].
    eapply lasts_after; [|exact La|exact E]. intros s0 N. apply rewrites_get_mut.
  - intros t [M La] H1 H2. destruct (@pg_allocate_law _ _ laws ps n x σ t M H1 H2) as (p & b & x' & E & Hp & H0 & Hu & Hl & M').
    exists p, b, x'. ands; try done. split; [exact M'|]. destruct M as (fl & R & Hps & Hn & _).
    pose proof (co_store _ _ _ _ (ar_core _ _ _ _ R)) as F. cbn in E. unfold on_store in E.
    destruct (allocate crc32 t (bp_store x)) as [r s'] eqn:Ea. injection E as -> <-. cbn [bp_store with_store].
    eapply lasting_allocate; try done. pose proof (lo_page _ (fl_layout _ _ _ F)). rewrite Hps in *. nia.
  - intros [M La]. destruct (@pg_flush_law _ _ laws ps n x σ M) as (k & x' & E & M'). exists k, x'. split; [exact E|]. split; [exact M'|].
    eapply lasts_after; [|exact La|exact E]. apply rewrites_flush_all.
  - intros p [M La]. destruct (@pg_read_ahead_law _ _ laws ps n x σ p M) as (x' & E & M'). exists x'. split; [exact E|]. split; [exact M'|].
    change ((request_read_ahead [p] ;;; st_ret tt) x = (Val tt, x')) in E. unfold st_bind in E. destruct (request_run [p] x) as (r & x1 & E1 & S1). rewrite E1 in E. injection E as <-.
    by rewrite (sp_store _ _ S1).
Defined.

#[local] Instance lasting_publishes : @PagerPublishes Pool pager lasting_laws.
Proof.
  split. intros ps n x σ r l [M La] Hr Hl.
  destruct (@pg_publish_law _ _ _ (pool_publishes before_writeback crc32 hash_order Hbarrier Hcrc Hhash) ps n x σ r l M Hr Hl) as (x' & E & M' & Er).
  exists x'. split; [exact E|]. split; [split; [exact M'|]|exact Er].
  change (on_store (publish_root crc32 r l) x = (Val tt, x')) in E. unfold on_store in E.
  pose proof (lasting_publish crc32 (bp_store x) r l La Hr Hl) as La'. destruct (publish_root crc32 r l (bp_store x)) as [r0 s].
  by injection E as _ <-.
Defined.

(** ** Cold start *)

(** A pool on a store with pages in use, none of them cached. *)
Lemma new_lasts ps n s fl fp fs fm budget shards queue x barrier (σ : gmap Z bytes) :
  free_list crc32 s fl -> lasting s -> page_size s = ps -> (page_count (meta s) + Z.of_nat n + 1) * ps < U64 ->
  shares_fit fp fs fm -> 0 <= budget -> new fp fs fm budget shards queue s = Val x ->
  (forall p b, σ !! p = Some b -> 0 < p < page_count (meta s) /\ (p ∉ fl) /\
     exists c, raw s p = Some c /\ verify crc32 c p = Val tt /\ readable ps c /\ same_page c b) ->
  pool_lasts ps n (with_barrier (B := B) barrier x) σ.
Proof.
  intros F La Hs Hn Hfit Hb Hnew Hσ. destruct (new_rest crc32 fp fs fm Hfit fl budget shards queue s x F Hb Hnew) as (R & Es & _).
  assert (R' : at_rest crc32 fl (None, None) (with_barrier barrier x)) by (apply (same_pool_rest crc32 fl (None, None) x); [by split|done]).
  split; [|cbn; by rewrite Es]. exists fl. cbn [with_barrier bp_store]. rewrite Es. ands; try done. intros p b Hp.
  destruct (Hσ p b Hp) as (Hr & Hfl & c & Hraw & Hv & Hrd & Hsame). exists c. split; [|done]. split; cbn [with_barrier bp_store]; rewrite ?Es, ?Hs; try done.
  assert (Hnone : frame (with_barrier barrier x) p = None); [|by rewrite Hnone].
  unfold frame. cbn [bp_shards with_barrier]. unfold new in Hnew. repeat case_match; try done. injection Hnew as <-. cbn [bp_shards].
  rewrite list_lookup_fmap. by destruct (seq _ _ !! _).
Qed.

Lemma new_total fp fs fm budget shards queue s : page_count (meta s) <> 0 -> 0 < page_size s <= budget ->
  Z.of_nat queue <= MAX_READ_AHEAD_QUEUE_PAGES -> exists x, new (B := B) fp fs fm budget shards queue s = Val x.
Proof.
  intros Hc Hb Hq. unfold new. rewrite (proj2 (Z.ltb_ge _ _)) by lia. rewrite (proj2 (Z.eqb_neq _ _)) by done.
  assert (H1 : 1 <= budget / page_size s) by (apply Z.div_le_lower_bound; lia).
  rewrite (proj2 (Nat.eqb_neq _ _)) by lia. by eexists.
Qed.

(** Everything is flushed, a root is published, the files are opened again by a
    new pool. *)
Lemma flush_reopens_pool ps n x σ r e b fp fs fm budget shards queue barrier :
  pool_lasts ps n x σ -> is_u64 r -> validate_extent_bytes e ps = Val tt ->
  shares_fit fp fs fm -> ps <= budget -> Z.of_nat queue <= MAX_READ_AHEAD_QUEUE_PAGES ->
  exists k x1 x2 s2 x3, flush_all before_writeback crc32 hash_order x = (Val k, x1) /\ on_store (publish_root crc32 r 0) x1 = (Val tt, x2) /\
    open crc32 (files (bp_store x2)) ps e b = Val s2 /\ new fp fs fm budget shards queue s2 = Val x3 /\
    pool_lasts ps n (with_barrier barrier x3) σ /\ root_page (meta (bp_store x3)) = r.
Proof.
  intros [(fl & R & Hps & Hn & Hσ) La] Hr He Hfit Hb Hq.
  destruct (flush_all_spec before_writeback crc32 hash_order Hbarrier Hcrc Hhash fl _ x R) as (k & x1 & E1 & R1 & V1 & D1 & _).
  assert (La1 : lasting (bp_store x1)) by (eapply lasts_after; [|exact La|exact E1]; apply rewrites_flush_all).
  pose proof (co_store _ _ _ _ (ar_core _ _ _ _ R1)) as F1. pose proof (vi_size _ _ _ _ V1) as Hs1. pose proof (vi_count _ _ _ _ V1) as Hc1.
  destruct (publish_reopens crc32 Hcrc (bp_store x1) fl r 0 e b La1 F1 Hr ltac:(done)) as (s1 & s2 & E2 & E3 & F2 & La2 & K & C2 & R2).
  { by rewrite Hs1, Hps. }
  pose proof (lo_page _ (fl_layout _ _ _ F2)) as Hpz. pose proof (pk_size _ _ _ K) as Hs2. rewrite Hs1, Hps in Hs2, E3.
  destruct (new_total fp fs fm budget shards queue s2) as [x3 E4]; [rewrite C2; pose proof (fl_count _ _ _ F1); lia|rewrite <- Hs2 in Hb; lia|done|].
  exists k, x1, (with_store s1 x1), s2, x3. ands; try done; [unfold on_store; by rewrite E2| |].
  - assert (Hb0 : 0 <= budget) by lia.
    apply (new_lasts ps n s2 fl fp fs fm budget shards queue x3 barrier σ F2 La2 Hs2 ltac:(by rewrite C2, Hc1) Hfit Hb0 E4). intros p c Hp. destruct (Hσ p c Hp) as (d & Hd & Hsame).
    destruct (vi_avail _ _ _ _ V1 p d Hd) as (d1 & Hd1 & Hsame1). destruct (clean_raw crc32 fl x1 p d1 R1 D1 Hd1) as [Hraw Hv].
    pose proof (av_range _ _ _ _ _ Hd1) as Hran. rewrite C2. split; [done|]. split; [apply (av_used _ _ _ _ _ Hd1)|].
    exists d1. ands; [|done|by rewrite <- Hps, <- Hs1; apply (av_readable _ _ _ _ _ Hd1)|by etrans].
    apply (pk_raw _ _ _ K); [|lia|done]. apply addressable_below; [lia|rewrite Hs1, Hps; pose proof (fl_count _ _ _ F1); lia|lia].
  - destruct (new_rest crc32 fp fs fm Hfit fl budget shards queue s2 x3 F2 ltac:(lia) E4) as (_ & -> & _). done.
Qed.
End PoolReopen.
