(* ===== verification/PoolFrees.v ===== *)
(** * Freeing pages behind a log

    In the mode the paged store runs in, a freed page becomes a [Free] page of
    the cache and waits for its transaction; the free list changes at commit.
    Until then the page is neither in use nor allocatable, so the pool keeps the
    laws of a client that also frees pages. *)

From stdpp Require Import base tactics list numbers gmap.
From Stdlib Require Import ZArith Lia.
From S2P Require Import Prelude Search Bytes Errors PageFormat PageStore PageStoreSpec Allocator Pager.
From S2P Require Import Pool PoolShard PoolSpec PoolAccess PoolPager PoolInvariants StoreReopen.
Local Open Scope Z_scope.
Local Open Scope bic_scope.

Lemma le_enc_wrap n v : le_enc n (v mod 2 ^ (8 * Z.of_nat n)) = le_enc n v.
Proof.
  apply le_dec_inj; [apply le_enc_ok..|by rewrite !length_le_enc|]. rewrite !le_dec_enc. apply Z.mod_mod. lia.
Qed.

(** A page that holds nothing but a header reads back, whatever generation was
    written over. *)
Lemma blank_readable ps id t g : 72 <= ps -> is_u64 id ->
  readable ps (patch (zeros ps) 0 (header_bytes (with_generation (new_header id t ps) g))).
Proof.
  intros Hps Hid. assert (Eb : header_bytes (with_generation (new_header id t ps) g) = header_bytes (with_generation (new_header id t ps) (g mod U64))).
  { unfold header_bytes, with_generation. cbn [PageFormat.generation PageFormat.page_id PageFormat.page_type PageFormat.format_version PageFormat.flags
      PageFormat.lsn PageFormat.free_start PageFormat.free_end PageFormat.slot_count PageFormat.next_page PageFormat.payload_len].
    change U64 with (2 ^ (8 * Z.of_nat 8)). by rewrite le_enc_wrap. }
  rewrite Eb. pose proof (blen_header_bytes (with_generation (new_header id t ps) (g mod U64))) as Hb.
  split; [rewrite blen_patch, blen_zeros; rewrite ?blen_zeros; lia|]. eexists. apply decode_header_bytes; [|rewrite blen_zeros; lia].
  pose proof (new_header_ok id t ps Hid) as Hok. unfold header_ok in *. cbn in *. ands; try apply Hok. widths. apply Z.mod_pos_bound. lia.
Qed.

Section Frees.
Context {B : Type}.
Variable before_writeback : Z -> Z -> bytes -> st PageError B unit.
Variable crc32 : bytes -> Z.
Variable hash_order : gmap Z Frame -> list Z.
Hypothesis Hbarrier : forall p t b w, exists w', before_writeback p t b w = (Val tt, w').
Hypothesis Hcrc : forall l, is_u32 (crc32 l).
Hypothesis Hhash : forall m, hash_order m ≡ₚ (map_to_list m).*1.
Abbreviation Pool := (BufferPool B).
Abbreviation pager := (pool_pager before_writeback crc32 hash_order).
Abbreviation laws := (pool_laws before_writeback crc32 hash_order Hbarrier Hcrc Hhash).
Implicit Types x : Pool.

(** ** What the calls leave alone *)

(** The published root [r] and the frees that wait. *)
Abbreviation Fixed r m N := (Inv (B := B) (fun s _ _ m' => root_page (meta s) = r /\ m' = m) (fun _ _ => True) N).

Lemma fixed_start x : Fixed (root_page (meta (bp_store x))) (frees_of x) (length (bp_shards x)) x.
Proof. by split. Qed.

Lemma fixed_write_back r m N i p : keeps (Fixed r m N) (write_back_frame before_writeback crc32 i p).
Proof.
  apply write_back_plain; try done. intros q b s _ _ m' [H1 H2]. split; [|done].
  revert s H1. apply (keeps_write crc32 (fun s => root_page (meta s) = r)); try done.
Qed.

Lemma fixed_after {A} (m : st PageError Pool A) x a x' :
  (forall r f N, keeps (Fixed r f N) m) -> m x = (a, x') ->
  root_page (meta (bp_store x')) = root_page (meta (bp_store x)) /\ frees_of x' = frees_of x.
Proof. intros Hm E. pose proof (Hm _ _ _ x (fixed_start x)) as [H _]. by rewrite E in H. Qed.

Lemma fixed_get r f N p c : keeps (Fixed r f N) (get_in_class before_writeback crc32 p c).
Proof. eapply keeps_get with (allowed := fun _ => True) (evictable := fun _ _ => True); try done. apply fixed_write_back. Qed.

Lemma fixed_get_mut r f N {A} p (m : st PageError bytes A) : keeps (Fixed r f N) (get_mut before_writeback crc32 p m).
Proof. eapply keeps_get_mut with (allowed := fun _ => True) (evictable := fun _ _ => True); try done. apply fixed_write_back. Qed.

Lemma fixed_flush_all r f N : keeps (Fixed r f N) (flush_all before_writeback crc32 hash_order).
Proof.
  apply keeps_bind; [auto with keeps|]. intros n. apply keeps_bind; [apply keeps_flush_shards; apply fixed_write_back|].
  intros k. apply keeps_bind; [|auto with keeps]. intros x ([H1 H2] & HN & _). unfold on_store.
  assert (H' : root_page (meta (snd (flush crc32 (bp_store x)))) = r) by (by apply (keeps_flush crc32 (fun s => root_page (meta s) = r))).
  destruct (flush crc32 (bp_store x)) as [o s]. by split.
Qed.

Lemma fixed_request r f N l : keeps (Fixed r f N) (request_read_ahead (B := B) l).
Proof.
  assert (One : forall p q, keeps (Fixed r f N) (request_one p q)).
  { intros p q. apply keeps_bind; [auto with keeps|]. intros x. cbv zeta. do 3 (case_match; [auto with keeps|]).
    case_match; (apply keeps_bind; [by apply keeps_modify|auto with keeps]). }
  assert (All : forall ps q, keeps (Fixed r f N) (request_all ps q)).
  { induction ps as [|p ps IH]; intros q; cbn [request_all]; [auto with keeps|]. by apply keeps_bind. }
  apply keeps_bind; [auto with keeps|]. intros x. cbv zeta. do 2 (case_match; [auto with keeps|]).
  apply keeps_bind; [done|]. intros q. apply keeps_bind; auto with keeps.
Qed.

(** ** The laws, with a fixed root and deferred frees *)

Variable fixed : Z.

(** The pool shows [τ]: the pages of [σ], the root, and the pages whose frees
    wait for their transaction. *)
Record frees_wait (ps : Z) (n : nat) (x : Pool) (σ τ : gmap Z bytes) : Prop := {
  fw_models : pool_models crc32 ps n x τ;
  fw_sub : σ ⊆ τ;
  fw_root : root_page (meta (bp_store x)) = fixed;
  fw_held : fixed = 0 \/ is_Some (τ !! fixed);
  fw_mode : bp_read_only x = false /\ bp_wal_managed_frees x = true;
  fw_pending t l q : bp_pending_frees x !! t = Some l -> q ∈ l -> σ !! q = None /\ is_Some (τ !! q)
}.
Definition pool_managed (ps : Z) (n : nat) (x : Pool) (σ : gmap Z bytes) : Prop := exists τ, frees_wait ps n x σ τ.

(** A call that changes page contents only. *)
Lemma waits_after ps n x x' σ σ' τ τ' : frees_wait ps n x σ τ -> pool_models crc32 ps n x' τ' -> σ' ⊆ τ' ->
  root_page (meta (bp_store x')) = root_page (meta (bp_store x)) -> frees_of x' = frees_of x ->
  (forall q, is_Some (τ !! q) -> is_Some (τ' !! q)) -> (forall q, is_Some (σ' !! q) -> is_Some (σ !! q)) -> frees_wait ps n x' σ' τ'.
Proof.
  intros [M S R H [D1 D2] W] M' S' R' F' T' G'. injection F' as F1 F2 F3. split; try done.
  - congruence.
  - destruct H; auto.
  - split; congruence.
  - intros t l q Hl Hq. rewrite F3 in Hl. destruct (W t l q Hl Hq) as [W1 W2]. split; [|auto].
    destruct (σ' !! q) eqn:E; [|done]. destruct (G' q) as [? ?]; [by eexists|congruence].
Qed.

#[local] Instance managed_laws : @PagerLaws Pool pager.
Proof.
  refine (@Build_PagerLaws Pool pager pool_managed _ _ _ _ _ _ _); intros ps n x σ.
  - intros (τ & W). exists τ. destruct W. split; try done. by apply (@pg_weaken_law _ _ laws).
  - intros (τ & W). by apply (@pg_size_law _ _ laws ps n x τ), W.
  - intros c p b (τ & W) Hb. pose proof (lookup_weaken _ _ _ _ Hb (fw_sub _ _ _ _ _ W)) as Hb'.
    destruct (@pg_get_law _ _ laws ps n x τ c p b (fw_models _ _ _ _ _ W) Hb') as (b' & x' & E & Hs & M').
    exists b', x'. split; [exact E|]. split; [exact Hs|]. exists τ.
    destruct (fixed_after _ x (Val b') x' (fun r f N => fixed_get r f N p c) E) as [E1 E2]. eapply waits_after; [exact W|exact M'|apply W|done..].
  - intros p b (τ & W) Hb. pose proof (lookup_weaken _ _ _ _ Hb (fw_sub _ _ _ _ _ W)) as Hb'.
    destruct (@pg_get_mut_law _ _ laws ps n x τ p b (fw_models _ _ _ _ _ W) Hb') as (b0 & Hs & Hm). exists b0. split; [exact Hs|].
    intros A m Hr. destruct (Hm A m Hr) as (x' & E & M'). exists x'. split; [exact E|]. exists (<[p := snd (m b0)]> τ).
    destruct (fixed_after _ x _ x' (fun r f N => fixed_get_mut r f N p m) E) as [E1 E2].
    eapply waits_after; [exact W|exact M'|by apply insert_mono, W|done|done|..]; intros q; (destruct (decide (p = q)) as [<-|]; [|by rewrite lookup_insert_ne]).
    + by rewrite lookup_insert_eq.
    + by rewrite Hb.
  - intros t (τ & W) H1 H2.
    destruct (@pg_allocate_law _ _ laws ps n x τ t (fw_models _ _ _ _ _ W) H1 H2) as (p & b & x' & E & Hp & H0 & Hu & Hl & M').
    pose proof W as [_ S R H D Wt]. exists p, b, x'. ands; try done; [by eapply lookup_weaken_None|]. exists (<[p := b]> τ).
    assert (Hroot : root_page (meta (bp_store x')) = fixed /\ frees_of x' = frees_of x).
    { cbn in E. unfold on_store in E. assert (Hk : root_page (meta (snd (allocate crc32 t (bp_store x)))) = fixed)
        by (by apply (keeps_allocate crc32 (fun s => root_page (meta s) = fixed))).
      destruct (allocate crc32 t (bp_store x)) as [o s']. by injection E as _ <-. }
    destruct Hroot as [Hroot [= F1 F2 F3]]. split; try done.
    + by apply insert_mono.
    + destruct H as [H|H]; [by left|right]. rewrite lookup_insert_is_Some. destruct (decide (p = fixed)); auto.
    + by rewrite F1, F2.
    + intros u l q Hl' Hq. rewrite F3 in Hl'. destruct (Wt u l q Hl' Hq) as [W1 W2].
      assert (p <> q) by (intros ->; rewrite Hp in W2; by destruct W2). by rewrite !lookup_insert_ne.
  - intros (τ & W). destruct (@pg_flush_law _ _ laws ps n x τ (fw_models _ _ _ _ _ W)) as (k & x' & E & M').
    exists k, x'. split; [exact E|]. exists τ. destruct (fixed_after _ x _ x' fixed_flush_all E) as [E1 E2]. eapply waits_after; [exact W|exact M'|apply W|done..].
  - intros p (τ & W). destruct (@pg_read_ahead_law _ _ laws ps n x τ p (fw_models _ _ _ _ _ W)) as (x' & E & M').
    exists x'. split; [exact E|]. exists τ. 
    destruct (fixed_after (request_read_ahead [p] ;;; st_ret tt) x (Val tt) x') as [E1 E2]; [|exact E|eapply waits_after; [exact W|exact M'|apply W|done..]].
    intros r f N. apply keeps_bind; [apply fixed_request|auto with keeps].
Defined.

(** ** Freeing *)

(** The change [free_page_for_transaction] makes to the page. *)
Abbreviation turn_free p ps :=
  (do existing <- reads decode ;;
   if bool_decide (page_type existing = Free) then st_fail (PageAlreadyFree p)
   else
     modify (fun b => zeros (blen b)) ;;;
     encode (with_generation (new_header p Free ps) (sat_add (PageFormat.generation existing) 1))).

Lemma turn_free_run p ps t b : 72 <= ps -> is_u64 p -> blen b = ps -> typed t b -> t <> Free ->
  exists b', turn_free p ps b = (Val tt, b') /\ readable ps b'.
Proof.
  intros Hps Hp Hb (h & Hd & Ht) Hne. unfold st_bind at 1, reads. rewrite Hd, bool_decide_false by congruence.
  unfold st_bind, modify. rewrite encode_patch by (rewrite blen_zeros; lia). rewrite Hb. eexists. split; [done|].
  by apply blank_readable.
Qed.

Lemma pool_free_spec ps n x σ τ p b t : frees_wait ps n x σ τ -> σ !! p = Some b -> typed t b -> t <> Free -> p <> fixed ->
  exists x', free_page before_writeback crc32 p x = (Val tt, x') /\ pool_managed ps n x' (base.delete p σ).
Proof.
  intros W Hb Ht Hne Hr. pose proof W as [M S R H [D1 D2] Wt]. pose proof (lookup_weaken _ _ _ _ Hb S) as Hb'.
  destruct M as (fl & Rest & Hps & Hn & Hτ). destruct (Hτ p b Hb') as (c & Hc & _). pose proof (av_range _ _ _ _ _ Hc) as Hran.
  pose proof (lo_page _ (fl_layout _ _ _ (co_store _ _ _ _ (ar_core _ _ _ _ Rest)))) as Hpz. rewrite Hps in Hpz.
  assert (Hu : is_u64 p) by (unfold is_u64; nia).
  destruct (@pg_get_mut_law _ _ laws ps n x τ p b (fw_models _ _ _ _ _ W) Hb') as (b0 & Hs & Hm).
  assert (Hlen : blen b0 = ps).
  { pose proof Hs as (-> & _). destruct (Hτ p b Hb') as (c' & Hc' & (<- & _)). rewrite <- Hps. apply (av_readable _ _ _ _ _ Hc'). }
  destruct (turn_free_run p ps t b0) as (b' & Eb & Hrd); try done; [lia|apply (typed_same t b); [|by symmetry|done]|].
  { pose proof Hs as (<- & _). lia. }
  destruct (Hm _ (turn_free p ps)) as (x1 & E1 & M1); [by rewrite Eb|]. rewrite Eb in E1, M1. cbn [fst snd] in E1, M1.
  destruct (fixed_after _ x _ x1 (fun r f N => fixed_get_mut r f N p (turn_free p ps)) E1) as [F1 [= F2 F3 F4]].
  set (x2 := with_pending (<[bp_current_transaction x := default [] (bp_pending_frees x1 !! bp_current_transaction x) ++ [p]]> (bp_pending_frees x1)) x1).
  exists x2. split.
  - unfold free_page. unfold st_bind at 1, gets. change (id x) with x. rewrite D2. unfold free_page_for_transaction. unfold st_bind at 1, gets.
    change (id x) with x. cbv zeta. rewrite D1, R, Hps. change SUPERBLOCK_PAGE_ID with 0.
    rewrite (proj2 (Z.eqb_neq p 0)) by lia. rewrite (proj2 (Z.eqb_neq p fixed)) by done. cbn [orb].
    rewrite (proj2 (Z.leb_gt _ _)) by lia. rewrite bool_decide_false.
    { unfold st_bind at 1. by rewrite (E1 : get_mut before_writeback crc32 p (turn_free p ps) x = _). }
    rewrite Exists_exists. intros ([u l] & Hin%elem_of_map_to_list & Hq). destruct (Wt u l p Hin Hq). congruence.
  - exists (<[p := b']> τ). split.
    + assert (SP : same_pool x1 x2) by done. destruct M1 as (fl1 & R1 & Hps1 & Hn1 & Hτ1).
      eapply models_view; try done; [by eapply same_pool_rest|]. by apply quiet_view, same_pool_quiet.
    + apply map_subseteq_spec. intros q d [Hq Hd]%lookup_delete_Some. rewrite lookup_insert_ne by done. by eapply lookup_weaken.
    + cbn. congruence.
    + destruct H as [H|H]; [by left|right]. rewrite lookup_insert_is_Some. destruct (decide (p = fixed)); auto.
    + cbn. split; congruence.
    + intros u l q. cbn [bp_pending_frees with_pending x2]. rewrite F4, lookup_insert_Some, lookup_delete_None, lookup_insert_is_Some.
      assert (Old : forall u l, bp_pending_frees x !! u = Some l -> q ∈ l -> (p = q \/ σ !! q = None) /\ (p = q \/ p <> q /\ is_Some (τ !! q))).
      { intros u' l' Hl Hq. destruct (Wt u' l' q Hl Hq) as [W1 W2]. destruct (decide (p = q)); auto. }
      intros [[<- <-]|[_ Hl]] Hq; [|by eapply Old]. apply elem_of_app in Hq as [Hq|Hq%list_elem_of_singleton]; [|auto].
      destruct (bp_pending_frees x !! bp_current_transaction x) eqn:El; [by eapply Old|by apply not_elem_of_nil in Hq].
Qed.

#[local] Instance managed_frees : @PagerFrees Pool pager managed_laws.
Proof.
  refine (@Build_PagerFrees Pool pager managed_laws fixed _ _); intros ps n x σ.
  - intros t p x' (τ & W) H1 H2 E.
    destruct (@pg_allocate_law _ _ laws ps n x τ t (fw_models _ _ _ _ _ W) H1 H2) as (p' & b & y & E' & Hp & H0 & _).
    assert (p' = p) as -> by congruence. intros ->. destruct (fw_held _ _ _ _ _ W) as [?|[c Hc]]; congruence.
  - intros p b t (τ & W) Hb Ht Hne Hr. by eapply pool_free_spec.
Defined.
End Frees.

(** ** A new pool in this mode *)

Lemma new_managed {B} crc32 (Hcrc : forall l, is_u32 (crc32 l)) ps n x x0 barrier :
  pool_models crc32 ps n (with_barrier (B := B) barrier x0) ∅ -> root_page (meta (bp_store x0)) = 0 ->
  bp_read_only x0 = false -> bp_pending_frees x0 = ∅ ->
  enable_wal_managed_frees (with_barrier barrier x0) = (Val tt, x) -> pool_managed crc32 0 ps n x ∅.
Proof.
  intros M R D1 D2 [= <-]. exists ∅. split; try done; [|by left|]; cbn.
  - destruct M as (fl & Rest & Hps & Hn & Hσ). set (y := with_barrier barrier x0) in *. set (z := with_modes _ _ _ _).
    assert (SP : same_pool y z) by done. eapply models_view; try done; [by eapply same_pool_rest|]. by apply quiet_view, same_pool_quiet.
  - intros t l q. by rewrite D2, lookup_empty.
Qed.
