(* ===== verification/Overflow.v ===== *)
(** * Overflow chains

    Values too large for a heap page, as a list of pages linked through their
    headers: writing, walking, reading and freeing, once through the buffer pool
    (over the interface [Pager]) and once on the page store itself. *)

From stdpp Require Import base tactics list numbers gmap.
From Stdlib Require Import ZArith Lia.
From S2P Require Import Prelude Turns Bytes Errors PageFormat PageStore Pager.
Local Open Scope Z_scope.
Local Open Scope bic_scope.

(* @source crates/bicdb-page/src/overflow.rs *)
(** [payload_capacity] (31-33). *)
Definition payload_capacity (page_size : Z) : Z := page_size - PAGE_HEADER_BYTES - PAGE_TRAILER_BYTES.

(** [usize::div_ceil]. *)
Definition div_ceil (a b : Z) : Z := (a + b - 1) / b.

(** [pages_required] (36-43). *)
Definition pages_required (len page_size : Z) : Z :=
  if len =? 0 then 0 else div_ceil len (payload_capacity page_size).

(** [slice::chunks]: pieces of [n] bytes, the last one possibly shorter. *)
Fixpoint chunks_loop (turns : nat) (n : nat) (l : bytes) : list bytes :=
  match turns, l with
  | Datatypes.S turns', _ :: _ => take n l :: chunks_loop turns' n (drop n l)
  | _, _ => []
  end.
Definition chunks (n : Z) (l : bytes) : list bytes := chunks_loop (length l) (Z.to_nat n) l.

(** The error of an empty value. *)
Definition no_value : PageError := ValueTooLarge 0 0 0.
Definition not_overflow (p : Z) (t : PageType) : PageError :=
  UnexpectedPageType p (page_type_u8 t) (page_type_u8 Overflow).

(** [write_chain_pooled] (71-79): the header and payload of one page. *)
Definition fill_link (p page_size next : Z) (chunk : bytes) : st PageError bytes unit :=
  encode (with_link (new_header p Overflow page_size) next (blen chunk mod U32)) ;;;
  copy_at PAGE_HEADER_BYTES chunk.

(** ** Through the buffer pool *)

(** [PooledOverflowReader] (131-136), without the pool. *)
Record PooledOverflowReader := mkReader {
  rd_next : Z;
  rd_chunk : bytes;
  rd_consumed : Z
}.

(** [PooledOverflowReader::new] (139-146). *)
Definition reader_new (head : Z) : PooledOverflowReader := mkReader head [] 0.

Section Pooled.
Context {S : Type} {P : Pager S}.
(** The sizes of the buffers [Read::read_to_end] offers, one after the other. *)
Variable buffers : nat -> Z.
(** A reader borrows the pool and keeps its own position. *)
Abbreviation rst := (st PageError (S * PooledOverflowReader)).

Definition on_pager {A} (m : st PageError S A) : rst A :=
  fun w => let '(r, s) := m (fst w) in (r, (s, snd w)).

(** [write_chain_pooled] (64-84): the loop over the chunks, last one first. *)
Fixpoint write_links (page_size : Z) (cs : list bytes) (next head : Z) : st PageError S Z :=
  match cs with
  | [] => st_ret head
  | chunk :: cs' =>
      do p <- pg_allocate Overflow ;;
      pg_get_mut p (modify (fun b => zeros (blen b)) ;;; fill_link p page_size next chunk) ;;;
      write_links page_size cs' p p
  end.

(** [write_chain_pooled] (53-85). *)
Definition write_chain_pooled (value : bytes) : st PageError S Z :=
  if bool_decide (value = []) then st_fail no_value
  else
    do page_size <- gets pg_page_size ;;
    write_links page_size (rev (chunks (payload_capacity page_size) value)) 0 0.

(** [pooled_header] (89-103). *)
Definition pooled_header (p : Z) : st PageError S PageHeader :=
  do b <- pg_get Streaming p ;;
  do h <- st_lift (decode b) ;;
  if bool_decide (page_type h = Overflow) then st_ret h else st_fail (not_overflow p (page_type h)).

(** [chain_len_pooled] (107-114): the loop; a [u64] sum wraps in a release build. *)
Fixpoint chain_len_loop (turns : nat) (total current : Z) : st PageError S Z :=
  if current =? 0 then st_ret total
  else
    do h <- pooled_header current ;;
    match turns with
    | O => st_panic
    | Datatypes.S turns' => chain_len_loop turns' ((total + payload_len h) mod U64) (next_page h)
    end.
(** [chain_len_pooled] (106-115). *)
Definition chain_len_pooled (turns : nat) (head : Z) : st PageError S Z := chain_len_loop turns 0 head.

(** [free_chain_pooled] (119-127): the loop. *)
Fixpoint free_chain_loop (turns : nat) (freed current : Z) : st PageError S Z :=
  if current =? 0 then st_ret freed
  else
    do h <- pooled_header current ;;
    pg_free current ;;;
    match turns with
    | O => st_panic
    | Datatypes.S turns' => free_chain_loop turns' (freed + 1) (next_page h)
    end.
(** [free_chain_pooled] (118-128). *)
Definition free_chain_pooled (turns : nat) (head : Z) : st PageError S Z := free_chain_loop turns 0 head.

(** [PooledOverflowReader::advance] (148-182). *)
Definition advance : rst bool :=
  do r <- gets snd ;;
  if rd_next r =? 0 then st_ret false
  else
    do b <- on_pager (pg_get Streaming (rd_next r)) ;;
    do h <- st_lift (decode b) ;;
    if negb (bool_decide (page_type h = Overflow)) then st_fail (not_overflow (rd_next r) (page_type h))
    else
      do ps <- gets (fun w => pg_page_size (fst w)) ;;
      let payload := payload_len h in
      let capacity := payload_capacity ps in
      if capacity <? payload then st_fail (ShortRead (rd_next r) capacity payload)
      else
        do chunk <- st_lift (slice b PAGE_HEADER_BYTES (PAGE_HEADER_BYTES + payload)) ;;
        modify (fun w => (fst w, mkReader (next_page h) chunk 0)) ;;;
        (if next_page h =? 0 then st_ret tt else on_pager (pg_request_read_ahead (next_page h))) ;;;
        st_ret true.

(** An error of [advance] reaches the caller as an [io::Error]. *)
Definition as_io {W A} (m : st PageError W A) : st PageError W A :=
  fun w => match m w with (Err _, w') => (Err Io, w') | o => o end.

(** [PooledOverflowReader::read] (186-198): the bytes copied into a buffer of
    [room] bytes. *)
Definition read (room : Z) : rst bytes :=
  do r <- gets snd ;;
  do more <- (if rd_consumed r =? blen (rd_chunk r) then as_io advance else st_ret true) ;;
  if more : bool then
    do r <- gets snd ;;
    let take := Z.min (blen (rd_chunk r) - rd_consumed r) room in
    do out <- st_lift (slice (rd_chunk r) (rd_consumed r) (rd_consumed r + take)) ;;
    modify (fun w => (fst w, mkReader (rd_next r) (rd_chunk r) (rd_consumed r + take))) ;;;
    st_ret out
  else st_ret [].

(** [Read::read_to_end]: reads until one returns no bytes. *)
Fixpoint read_to_end (turns : nat) (i : nat) : rst bytes :=
  do got <- read (buffers i) ;;
  if bool_decide (got = []) then st_ret []
  else match turns with
       | O => st_panic
       | Datatypes.S turns' => do rest <- read_to_end turns' (i + 1) ;; st_ret (got ++ rest)
       end.

(** [Read::read_exact]: [want] bytes, or [UnexpectedEof]. *)
Fixpoint read_exact (turns : nat) (want : Z) : rst bytes :=
  if want <=? 0 then st_ret []
  else
    do got <- read want ;;
    if bool_decide (got = []) then st_fail Io
    else match turns with
         | O => st_panic
         | Datatypes.S turns' => do rest <- read_exact turns' (want - blen got) ;; st_ret (got ++ rest)
         end.

(** A reader over the chain, used by [m] and dropped. *)
Definition with_reader {A} (head : Z) (m : rst A) : st PageError S A :=
  fun s => let '(r, w) := m (s, reader_new head) in (r, fst w).

(** [read_chain_pooled] (202-220). *)
Definition read_chain_pooled (turns : nat) (head limit : Z) : st PageError S bytes :=
  do total <- chain_len_pooled turns head ;;
  if limit <? total then st_fail (ValueTooLarge head total limit)
  else with_reader head (as_io (read_to_end turns 0)).
End Pooled.

(** ** On the page store *)

(** [OverflowReader] (302-310), without the store. *)
Record OverflowReader := mkOverflowReader {
  or_next : Z;
  or_buffer : bytes;
  or_filled : Z;
  or_consumed : Z
}.

Section Direct.
Variable crc32 : bytes -> Z.
Variable buffers : nat -> Z.
Abbreviation ost := (st PageError OverflowReader).

(** [OverflowReader::new] (313-322). *)
Definition store_reader_new (s : PageStore) (head : Z) : OverflowReader :=
  mkOverflowReader head (zeros (page_size s)) 0 0.

(** [write_chain] (242-258): the loop. *)
Fixpoint store_write_links (cs : list bytes) (next head : Z) : pst Z :=
  match cs with
  | [] => st_ret head
  | chunk :: cs' =>
      do p <- allocate crc32 Overflow ;;
      do ps <- gets page_size ;;
      do page <- on_buffer (fill_link p ps next chunk) (zeros ps) ;;
      write_page crc32 p page ;;;
      store_write_links cs' p p
  end.

(** [write_chain] (228-259). *)
Definition write_chain (value : bytes) : pst Z :=
  if bool_decide (value = []) then st_fail no_value
  else
    do ps <- gets page_size ;;
    store_write_links (rev (chunks (payload_capacity ps) value)) 0 0.

(** [chain_len] (287-294): the check made on each page, [free_chain]'s too. *)
Definition overflow_header (s : PageStore) (p : Z) : pres PageHeader :=
  let! h := read_header crc32 s p in
  if bool_decide (page_type h = Overflow) then Val h else Err (not_overflow p (page_type h)).

(** [free_chain] (263-279): the loop. *)
Fixpoint store_free_loop (turns : nat) (freed current : Z) : pst Z :=
  if current =? 0 then st_ret freed
  else
    do h <- reads (fun s => overflow_header s current) ;;
    free crc32 current ;;;
    match turns with
    | O => st_panic
    | Datatypes.S turns' => store_free_loop turns' (freed + 1) (next_page h)
    end.
(** [free_chain] (262-280). *)
Definition free_chain (turns : nat) (head : Z) : pst Z := store_free_loop turns 0 head.

(** [chain_len] (284-298): the loop. *)
Fixpoint store_len_loop (turns : nat) (s : PageStore) (total current : Z) : pres Z :=
  if current =? 0 then Val total
  else
    let! h := overflow_header s current in
    match turns with
    | O => Panic
    | Datatypes.S turns' => store_len_loop turns' s ((total + payload_len h) mod U64) (next_page h)
    end.
(** [chain_len] (283-299). *)
Definition chain_len (turns : nat) (s : PageStore) (head : Z) : pres Z := store_len_loop turns s 0 head.

(** [OverflowReader::advance] (325-351). *)
Definition store_advance (s : PageStore) : ost bool :=
  do r <- gets id ;;
  if or_next r =? 0 then st_ret false
  else
    do (h, buffer) <- st_lift (read_page crc32 s (or_next r)) ;;
    modify (fun r => mkOverflowReader (or_next r) buffer (or_filled r) (or_consumed r)) ;;;
    if negb (bool_decide (page_type h = Overflow)) then st_fail (not_overflow (or_next r) (page_type h))
    else
      let capacity := payload_capacity (page_size s) in
      let payload := payload_len h in
      if capacity <? payload then st_fail (ShortRead (or_next r) capacity payload)
      else
        modify (fun r => mkOverflowReader (next_page h) (or_buffer r) payload 0) ;;;
        st_ret true.

(** [OverflowReader::read] (355-369). *)
Definition store_read (s : PageStore) (room : Z) : ost bytes :=
  do r <- gets id ;;
  do more <- (if or_consumed r =? or_filled r then as_io (store_advance s) else st_ret true) ;;
  if more : bool then
    do r <- gets id ;;
    let take := Z.min (or_filled r - or_consumed r) room in
    let from := PAGE_HEADER_BYTES + or_consumed r in
    do out <- st_lift (slice (or_buffer r) from (from + take)) ;;
    modify (fun r => mkOverflowReader (or_next r) (or_buffer r) (or_filled r) (or_consumed r + take)) ;;;
    st_ret out
  else st_ret [].

Fixpoint store_read_to_end (turns : nat) (s : PageStore) (i : nat) : ost bytes :=
  do got <- store_read s (buffers i) ;;
  if bool_decide (got = []) then st_ret []
  else match turns with
       | O => st_panic
       | Datatypes.S turns' => do rest <- store_read_to_end turns' s (i + 1) ;; st_ret (got ++ rest)
       end.

(** [read_chain] (377-391). *)
Definition read_chain (turns : nat) (s : PageStore) (head limit : Z) : pres bytes :=
  let! total := chain_len turns s head in
  if limit <? total then Err (ValueTooLarge head total limit)
  else fst (as_io (store_read_to_end turns s 0) (store_reader_new s head)).
End Direct.
