(* ===== verification/OverflowSpec.v ===== *)
(** * Overflow chains: what a chain is

    A chain is a list of pages with their payloads, linked from its head to 0.
    Writing builds one from free pages and leaves every other page alone; the
    length, the readers and [free_chain] follow it to its end. *)

From stdpp Require Import base tactics list numbers gmap.
From Stdlib Require Import ZArith Lia.
From S2P Require Import Prelude Turns Bytes Errors PageFormat PageStore Pager Overflow.
Local Open Scope Z_scope.
Local Open Scope bic_scope.

(** ** Chunks *)

Lemma chunks_spec n l : 0 < n ->
  concat (chunks n l) = l /\ Forall (fun c => c <> [] /\ blen c <= n) (chunks n l) /\
  Z.of_nat (length (chunks n l)) = div_ceil (blen l) n.
Proof.
  intros Hn. destruct (Z_of_nat_complete n ltac:(lia)) as [k ->]. assert (Hk : (0 < k)%nat) by lia. unfold chunks, div_ceil. rewrite Nat2Z.id.
  enough (H : forall t l, (length l <= t)%nat -> concat (chunks_loop t k l) = l /\
    Forall (fun c => c <> [] /\ blen c <= Z.of_nat k) (chunks_loop t k l) /\
    Z.of_nat (length (chunks_loop t k l)) = (blen l + Z.of_nat k - 1) / Z.of_nat k) by (by apply H).
  clear l. induction t as [|t IH]; intros l Hl; (destruct l as [|x l]; [cbn [chunks_loop concat length]; ands; [done|by apply Forall_nil|symmetry; apply Z.div_small; unfold blen; cbn [length]; lia]|]).
  { cbn in Hl. lia. }
  cbn [chunks_loop]. set (y := x :: l) in *. assert (Hy : (0 < length y)%nat) by (cbn; lia).
  assert (Ht : length (take k y) = Nat.min k (length y)) by apply length_take.
  destruct (IH (drop k y)) as (H1 & H2 & H3); [rewrite length_drop; lia|]. cbn [concat length]. ands.
  - rewrite H1. apply take_drop.
  - constructor; [|done]. split; [intros E; rewrite E in Ht; cbn in Ht; lia|unfold blen; lia].
  - rewrite Nat2Z.inj_succ, H3. unfold blen. rewrite length_drop. destruct (decide (length y <= k)%nat).
    + replace (length y - k)%nat with 0%nat by lia. change (Z.of_nat 0) with 0. rewrite (Z.div_small (0 + _ - 1)) by lia.
      change (Z.succ 0) with 1. apply (Z.div_unique _ _ 1 (Z.of_nat (length y) - 1)); lia.
    + rewrite Nat2Z.inj_sub by lia. replace (Z.of_nat (length y) + Z.of_nat k - 1) with (Z.of_nat (length y) - Z.of_nat k + Z.of_nat k - 1 + 1 * Z.of_nat k) by lia.
      rewrite Z.div_add by lia. lia.
Qed.

(** ** Links *)

(** The page [b] carries [c] and points to [next]. *)
Definition link (ps : Z) (b : bytes) (next : Z) (c : bytes) : Prop :=
  blen b = ps /\ c <> [] /\ blen c <= payload_capacity ps /\ sub b 64 (blen c) = c /\
  exists h, decode b = Val h /\ page_type h = Overflow /\ next_page h = next /\ payload_len h = blen c.

Lemma link_same ps b b' next c : 72 <= ps -> same_page b b' -> link ps b next c -> link ps b' next c.
Proof.
  intros Hps Hs (H1 & H2 & H3 & H4 & h & Hd & Ht & Hn & Hl). pose proof Hs as (Hlen & _). unfold payload_capacity, PAGE_HEADER_BYTES, PAGE_TRAILER_BYTES in *.
  pose proof (blen_nonneg c). split; [congruence|]. ands; try done; [by rewrite <- (same_sub b b') by (done || lia)|].
  destruct (typed_same Overflow b b') as (h' & Hd' & Ht'); [lia|done|by exists h|]. exists h'. ands; try done.
  all: rewrite decode_spec in Hd, Hd'; repeat split_if; try done; destruct (page_type_from_u8 _); [|done]; destruct (page_type_from_u8 _); [|done];
    injection Hd as <-; injection Hd' as <-; cbn in *.
  - unfold u64_at in *. rewrite <- (same_sub b b') by (done || lia). done.
  - unfold u32_at in *. rewrite <- (same_sub b b') by (done || lia). done.
Qed.

Lemma link_typed ps b next c : link ps b next c -> typed Overflow b.
Proof. intros (_ & _ & _ & _ & h & Hd & Ht & _). by exists h. Qed.

Lemma fill_link_run ps p next c b : 72 <= ps <= 65536 -> blen b = ps -> is_u64 p -> is_u64 next -> c <> [] -> blen c <= payload_capacity ps ->
  exists b', fill_link p ps next c b = (Val tt, b') /\ link ps b' next c.
Proof.
  intros Hps Hb Hp Hn Hne Hc. unfold payload_capacity, PAGE_HEADER_BYTES, PAGE_TRAILER_BYTES in Hc. pose proof (blen_nonneg c).
  set (h := with_link (new_header p Overflow ps) next (blen c mod U32)).
  assert (Em : blen c mod U32 = blen c) by (apply Z.mod_small; widths; lia).
  assert (Hok : header_ok h) by (apply with_link_ok; [by apply new_header_ok|done|rewrite Em; widths; lia]).
  pose proof (blen_header_bytes h) as Hh. unfold fill_link, st_bind. fold h. rewrite encode_patch by lia.
  assert (L1 : blen (patch b 0 (header_bytes h)) = ps) by (rewrite blen_patch; lia).
  rewrite copy_at_in by (unfold PAGE_HEADER_BYTES; lia). eexists. split; [done|]. unfold PAGE_HEADER_BYTES.
  unfold link. rewrite blen_patch by lia. ands; try done; [apply sub_patch_same; lia|].
  exists h. split; [|ands; [done..|exact Em]].
  pose proof (decode_header_bytes h b Hok ltac:(lia)) as Hd. rewrite <- Hd, !decode_spec. unfold header_of, u16_at, u32_at, u64_at. rewrite blen_patch by lia.
  by rewrite !(sub_patch_disjoint _ 64 c) by lia.
Qed.

(** ** Chains *)

(** The pages and payloads of the chain that starts at [head]. *)
Fixpoint chain (ps : Z) (σ : gmap Z bytes) (head : Z) (l : list (Z * bytes)) : Prop :=
  match l with
  | [] => head = 0
  | (p, c) :: l' => head = p /\ p <> 0 /\ exists b next, σ !! p = Some b /\ link ps b next c /\ chain ps σ next l'
  end.

(** The value of a chain. *)
Definition payload (l : list (Z * bytes)) : bytes := concat l.*2.

Lemma chain_frame ps σ σ' l : forall head, (forall p, p ∈ l.*1 -> σ' !! p = σ !! p) -> chain ps σ head l -> chain ps σ' head l.
Proof.
  induction l as [|[p c] l IH]; intros head Hf; [done|]. cbn. intros (-> & Hp & b & next & Hb & Hl & Hc).
  ands; try done. exists b, next. ands; [by rewrite Hf by (by left)|done|]. apply IH; [|done]. intros q Hq. apply Hf. by right.
Qed.

Lemma chain_held ps σ l : forall head, chain ps σ head l -> forall p, p ∈ l.*1 -> exists b, σ !! p = Some b /\ typed Overflow b.
Proof.
  induction l as [|[p c] l IH]; intros head; [intros _ q ?%not_elem_of_nil; done|]. cbn. intros (-> & Hp & b & next & Hb & Hl & Hc) q.
  rewrite elem_of_cons. intros [->|Hq]; [|by eapply IH]. exists b. split; [done|by eapply link_typed].
Qed.

Lemma chain_head ps σ head l : chain ps σ head l -> head = 0 <-> l = [].
Proof. destruct l as [|[p c] l]; cbn; [by intros ->|]. intros (-> & Hp & _). by split. Qed.

(** [σ'] is [σ] with the pages [new] besides. *)
Record extended (σ σ' : gmap Z bytes) (new : list Z) : Prop := {
  ex_sub : σ ⊆ σ';
  ex_fresh : forall p, p ∈ new -> σ !! p = None;
  ex_only : forall p, is_Some (σ' !! p) -> is_Some (σ !! p) \/ p ∈ new
}.

Lemma extended_refl σ : extended σ σ [].
Proof. split; [done|by intros p ?%not_elem_of_nil|auto]. Qed.

Lemma extended_one σ σ' p b new : σ !! p = None -> extended (<[p := b]> σ) σ' new -> extended σ σ' (p :: new).
Proof.
  intros Hp [E1 E2 E3]. split.
  - etrans; [by apply insert_subseteq|exact E1].
  - intros q [->|Hq]%elem_of_cons; [done|]. specialize (E2 q Hq). by apply lookup_insert_None in E2 as [? _].
  - intros q Hq. destruct (E3 q Hq) as [H|H]; [|right; by right]. apply lookup_insert_is_Some in H as [->|[_ H]]; [right; by left|by left].
Qed.

Section Pooled.
Context {S : Type} {P : Pager S} {L : PagerLaws S} (ps : Z).
Hypothesis Hps : 512 <= ps <= 65536.
(** Pages the allocator never hands out, beside those in use. *)
Variable avoid : Z -> Prop.
Hypothesis Havoid : forall n s σ t p s', pg_models ps (1 + n) s σ -> t <> Superblock -> t <> Free ->
  pg_allocate t s = (Val p, s') -> ~ avoid p.

(** ** Writing *)

Lemma write_links_spec cs : forall n s σ next l, pg_models ps (length cs + n) s σ -> chain ps σ next l -> is_u64 next -> NoDup l.*1 ->
  Forall (fun c => c <> [] /\ blen c <= payload_capacity ps) cs ->
  exists head s' σ' l', write_links ps cs next next s = (Val head, s') /\ pg_models ps n s' σ' /\ chain ps σ' head (l' ++ l) /\
    l'.*2 = rev cs /\ is_u64 head /\ NoDup (l' ++ l).*1 /\ extended σ σ' (rev l'.*1) /\ Forall (fun p => ~ avoid p) l'.*1.
Proof.
  induction cs as [|c cs IH]; intros n s σ next l M Hch Hu Hnd Hcs.
  { exists next, s, σ, []. ands; try done. apply extended_refl. }
  apply Forall_cons in Hcs as [[Hne Hc] Hcs]. cbn [length Nat.add] in M.
  destruct (pg_allocate_law ps _ s σ Overflow M ltac:(done) ltac:(done)) as (p & b0 & s1 & E1 & Hp & Hp0 & Hpu & Hlen & M1).
  assert (Hav : ~ avoid p) by (eapply (Havoid _ s σ Overflow); [exact M|done|done|exact E1]).
  destruct (pg_get_mut_law ps _ s1 _ p b0 M1 ltac:(by apply lookup_insert_eq)) as (b1 & (Hl1 & _) & Hlaw).
  destruct (fill_link_run ps p next c (zeros (blen b1))) as (b2 & E2 & Hb2); try done; [lia|rewrite blen_zeros; lia|].
  destruct (Hlaw _ (modify (fun b => zeros (blen b)) ;;; fill_link p ps next c)) as (s2 & E3 & M2).
  { unfold st_bind, modify. rewrite E2. split; [apply Hb2|]. destruct Hb2 as (_ & _ & _ & _ & h & ? & _). eauto. }
  assert (Eb : (modify (fun b => zeros (blen b)) ;;; fill_link p ps next c) b1 = (Val tt, b2)) by (unfold st_bind, modify; by rewrite E2).
  rewrite Eb in E3, M2. cbn [fst snd] in E3, M2. rewrite insert_insert_eq in M2.
  assert (Hnl : p ∉ l.*1) by (intros Hin; destruct (chain_held _ _ _ _ Hch p Hin) as (b & ? & _); congruence).
  destruct (IH n s2 (<[p := b2]> σ) p ((p, c) :: l) M2) as (head & s3 & σ3 & l' & E4 & M3 & Hch3 & D3 & Hu3 & Hnd3 & X3 & Hav3); try done.
  { cbn. ands; try done. exists b2, next. ands; [by apply lookup_insert_eq|done|]. apply (chain_frame ps σ); [|done].
    intros q Hq. apply lookup_insert_ne. by intros ->. }
  { cbn. by constructor. }
  exists head, s3, σ3, (l' ++ [(p, c)]). rewrite <- app_assoc, !fmap_app, D3. cbn [app fmap list_fmap fst snd rev]. ands; try done.
  - cbn [write_links]. unfold st_bind at 1. rewrite E1. unfold st_bind at 1. by rewrite E3.
  - by rewrite fmap_app in Hnd3.
  - rewrite rev_app_distr. cbn [rev app]. by eapply extended_one.
  - apply Forall_app. split; [done|by constructor].
Qed.

Lemma write_chain_spec n s σ v : v <> [] -> pg_models ps (Z.to_nat (pages_required (blen v) ps) + n) s σ ->
  exists head s' σ' l, write_chain_pooled v s = (Val head, s') /\ pg_models ps n s' σ' /\ chain ps σ' head l /\ payload l = v /\
    is_u64 head /\ NoDup l.*1 /\ extended σ σ' (rev l.*1) /\ Forall (fun p => ~ avoid p) l.*1 /\
    Z.of_nat (length l) = pages_required (blen v) ps.
Proof.
  intros Hv M. pose proof (pg_size_law _ _ _ _ M) as Hsz. assert (Hcap : 0 < payload_capacity ps) by (unfold payload_capacity, PAGE_HEADER_BYTES, PAGE_TRAILER_BYTES; lia).
  destruct (chunks_spec (payload_capacity ps) v Hcap) as (C1 & C2 & C3). set (cs := chunks _ v) in *.
  assert (Hreq : pages_required (blen v) ps = Z.of_nat (length cs)).
  { unfold pages_required. rewrite C3, (proj2 (Z.eqb_neq _ _)); [done|]. destruct v; [done|]. unfold blen. cbn [length]. lia. }
  rewrite Hreq, Nat2Z.id, <- (length_rev cs) in M.
  destruct (write_links_spec (rev cs) n s σ 0 [] M) as (head & s' & σ' & l & E & M' & Hch & D & Hu & Hnd & X & Ha); try done; [by apply NoDup_nil_2|by apply List.Forall_rev|].
  rewrite app_nil_r in *. rewrite rev_involutive in D. exists head, s', σ', l. ands; try done.
  - unfold write_chain_pooled. rewrite bool_decide_false by done. unfold st_bind at 1, gets. rewrite Hsz. exact E.
  - unfold payload. by rewrite D.
  - rewrite Hreq, <- D. by rewrite length_fmap.
Qed.

(** ** Walking *)

Lemma header_spec n s σ p b next c : pg_models ps n s σ -> σ !! p = Some b -> link ps b next c ->
  exists h s', pooled_header p s = (Val h, s') /\ pg_models ps n s' σ /\ next_page h = next /\ payload_len h = blen c.
Proof.
  intros M Hb Hl. destruct (pg_get_law ps n s σ Streaming p b M Hb) as (b' & s' & E & Hs & M').
  assert (Hl' : link ps b' next c) by (apply (link_same ps b); [lia|by symmetry|done]).
  destruct Hl' as (_ & _ & _ & _ & h & Hd & Ht & Hn & Hlen). exists h, s'. ands; try done.
  unfold pooled_header. unfold st_bind at 1. rewrite E. unfold st_bind, st_lift. by rewrite Hd, bool_decide_true.
Qed.

Lemma chain_len_unfold t total current : chain_len_loop (S := S) t total current =
  (if current =? 0 then st_ret total
   else do h <- pooled_header current ;;
        match t with O => st_panic | Datatypes.S t' => chain_len_loop t' ((total + payload_len h) mod U64) (next_page h) end).
Proof. by destruct t. Qed.

Lemma chain_len_spec n σ l : forall s head total, pg_models ps n s σ -> chain ps σ head l -> 0 <= total -> total + blen (payload l) < U64 ->
  exists s', settles (fun t => chain_len_loop t total head) s (Val (total + blen (payload l))) s' /\ pg_models ps n s' σ.
Proof.
  induction l as [|[p c] l IH]; intros s head total M Hch H0 Hb.
  { cbn in Hch. subst head. exists s. split; [|done]. exists 0%nat. intros t _. destruct t; cbn; by rewrite Z.add_0_r. }
  cbn in Hch. destruct Hch as (-> & Hp & b & next & Hlk & Hl & Hch). unfold payload in *. cbn in Hb |- *. rewrite blen_app in *.
  pose proof (blen_nonneg c). pose proof (blen_nonneg (concat l.*2)).
  destruct (header_spec n s σ p b next c M Hlk Hl) as (h & s1 & E1 & M1 & Hn & Hlen).
  destruct (IH s1 next (total + blen c) M1 Hch ltac:(lia) ltac:(lia)) as (s2 & E2 & M2). exists s2. split; [|done].
  rewrite Z.add_assoc. eapply settles_ext; [intros t; apply chain_len_unfold|]. rewrite (proj2 (Z.eqb_neq p 0)) by done.
  eapply settles_step; [exact E1|]. apply (settles_turn (fun t => chain_len_loop t ((total + payload_len h) mod U64) (next_page h))). rewrite Hn, Hlen, Z.mod_small by lia. exact E2.
Qed.

(** ** Reading *)

(** A reader with [rest] before it: what is left of its chunk, then the pages [l]. *)
Record reading (σ : gmap Z bytes) (r : PooledOverflowReader) (l : list (Z * bytes)) (rest : bytes) : Prop := {
  re_pos : 0 <= rd_consumed r <= blen (rd_chunk r);
  re_chain : chain ps σ (rd_next r) l;
  re_rest : rest = drop (Z.to_nat (rd_consumed r)) (rd_chunk r) ++ payload l
}.

Lemma reading_new σ head l : chain ps σ head l -> reading σ (reader_new head) l (payload l).
Proof. by split. Qed.

(** Taking [k] bytes of the chunk. *)
Lemma reading_take σ r l rest k : reading σ r l rest -> 0 <= k <= blen (rd_chunk r) - rd_consumed r ->
  reading σ (mkReader (rd_next r) (rd_chunk r) (rd_consumed r + k)) l (drop (Z.to_nat k) rest) /\
  sub (rd_chunk r) (rd_consumed r) k = take (Z.to_nat k) rest.
Proof.
  intros [H1 H2 ->] Hk. unfold sub, blen in *. assert (Hl := length_drop (rd_chunk r) (Z.to_nat (rd_consumed r))).
  split; [split; cbn [rd_next rd_chunk rd_consumed]; [unfold blen; lia|done|]|].
  - rewrite drop_app_le by lia. f_equal. rewrite drop_drop. f_equal. lia.
  - by rewrite take_app_le by lia.
Qed.

(** An exhausted chunk: the next page, or the end. *)
Lemma advance_spec n s σ r l rest : pg_models ps n s σ -> reading σ r l rest -> rd_consumed r = blen (rd_chunk r) ->
  exists more s' r' l', advance (s, r) = (Val more, (s', r')) /\ pg_models ps n s' σ /\ reading σ r' l' rest /\
    if more : bool then 0 <= rd_consumed r' < blen (rd_chunk r') else rest = [].
Proof.
  intros M [R1 R2 R3] He. assert (Er : rest = payload l).
  { rewrite R3, drop_ge; [done|]. unfold blen in *. lia. }
  unfold advance. unfold st_bind at 1, gets at 1. cbn [snd]. destruct l as [|[p c] l].
  { exists false, s, r, []. cbn in R2. rewrite R2. cbn. by ands. }
  cbn in R2. destruct R2 as (Hn & Hp & b & next & Hb & Hl & Hch). rewrite Hn, (proj2 (Z.eqb_neq p 0)) by done.
  destruct (pg_get_law ps n s σ Streaming p b M Hb) as (b' & s1 & E1 & Hs & M1).
  assert (Hl' : link ps b' next c) by (apply (link_same ps b); [lia|by symmetry|done]).
  destruct Hl' as (Hlen & Hne & Hcap & Hsub & h & Hd & Ht & Hnx & Hpl). pose proof (pg_size_law _ _ _ _ M1) as Hsz. pose proof (blen_nonneg c).
  assert (Hc0 : 0 < blen c) by (destruct c; [done|unfold blen; cbn [length]; lia]).
  unfold payload_capacity, PAGE_HEADER_BYTES, PAGE_TRAILER_BYTES in Hcap.
  assert (Hra : exists s2, (if next =? 0 then st_ret tt else on_pager (pg_request_read_ahead next)) (s1, mkReader next c 0) =
    (Val (E := PageError) tt, (s2, mkReader next c 0)) /\ pg_models ps n s2 σ).
  { destruct (next =? 0); [by exists s1|]. destruct (pg_read_ahead_law ps n s1 σ next M1) as (s2 & E2 & M2). exists s2. unfold on_pager. cbn [fst snd]. by rewrite E2. }
  destruct Hra as (s2 & E2 & M2). exists true, s2, (mkReader next c 0), l. ands; try done.
  - unfold st_bind at 1, on_pager at 1. cbn [fst snd]. rewrite E1. unfold st_bind at 1, st_lift at 1. rewrite Hd.
    rewrite bool_decide_true by done. cbn [negb]. unfold st_bind at 1, gets at 1. cbn [fst]. rewrite Hsz. cbv zeta. rewrite Hpl, Hnx.
    rewrite (proj2 (Z.ltb_ge _ _)) by (unfold payload_capacity, PAGE_HEADER_BYTES, PAGE_TRAILER_BYTES; lia).
    unfold st_bind at 1, st_lift. rewrite slice_in by (unfold PAGE_HEADER_BYTES; lia).
    replace (PAGE_HEADER_BYTES + blen c - PAGE_HEADER_BYTES) with (blen c) by lia. change PAGE_HEADER_BYTES with 64. rewrite Hsub.
    unfold st_bind at 1, modify. cbn [fst]. unfold st_bind. by rewrite E2.
Qed.

Lemma read_spec n s σ r l rest room : pg_models ps n s σ -> reading σ r l rest -> 0 < room ->
  exists got s' r' l', read room (s, r) = (Val got, (s', r')) /\ pg_models ps n s' σ /\ rest = got ++ drop (length got) rest /\
    reading σ r' l' (drop (length got) rest) /\ blen got <= room /\ (got = [] -> rest = []).
Proof.
  intros M R Hroom. unfold read. unfold st_bind at 1, gets at 1. cbn [snd].
  assert (Hmore : exists more s1 r1 l1, (if rd_consumed r =? blen (rd_chunk r) then as_io advance else st_ret true) (s, r) = (Val more, (s1, r1)) /\
    pg_models ps n s1 σ /\ reading σ r1 l1 rest /\ if more : bool then 0 <= rd_consumed r1 < blen (rd_chunk r1) else rest = []).
  { pose proof (re_pos _ _ _ _ R). destruct (_ =? _) eqn:E; bools; [|exists true, s, r, l; ands; try done; lia].
    destruct (advance_spec n s σ r l rest M R E) as (more & s1 & r1 & l1 & E1 & H1). exists more, s1, r1, l1. split; [|done]. unfold as_io. by rewrite E1. }
  destruct Hmore as (more & s1 & r1 & l1 & E1 & M1 & R1 & Hm). unfold st_bind at 1. rewrite E1. destruct more; cbv beta iota.
  - unfold st_bind at 1, gets. cbn [snd]. cbv zeta. set (k := Z.min _ room). assert (Hk : 0 < k <= blen (rd_chunk r1) - rd_consumed r1) by lia.
    destruct (reading_take σ r1 l1 rest k R1 ltac:(lia)) as [R2 Hgot]. unfold st_bind at 1, st_lift. rewrite slice_in by lia.
    replace (rd_consumed r1 + k - rd_consumed r1) with k by lia. rewrite Hgot.
    assert (Hlk : length (take (Z.to_nat k) rest) = Z.to_nat k).
    { rewrite <- Hgot. pose proof (blen_sub (rd_chunk r1) (rd_consumed r1) k ltac:(lia) ltac:(lia) ltac:(lia)) as Hb. unfold blen in Hb. lia. }
    eexists _, s1, _, l1. split; [reflexivity|]. rewrite Hlk. ands; [done|by rewrite take_drop|done|unfold blen; lia|].
    intros E. rewrite E in Hlk. cbn in Hlk. lia.
  - subst rest. exists [], s1, r1, l1. ands; try done. unfold blen. cbn [length]. lia.
Qed.

Variable buffers : nat -> Z.
Hypothesis Hbuffers : forall i, 0 < buffers i.

Lemma read_to_end_unfold t i : read_to_end (S := S) buffers t i =
  (do got <- read (buffers i) ;;
   if bool_decide (got = []) then st_ret []
   else match t with O => st_panic | Datatypes.S t' => do rest <- read_to_end buffers t' (i + 1) ;; st_ret (got ++ rest) end).
Proof. by destruct t. Qed.

Lemma read_to_end_spec n σ k : forall s r l rest i, (length rest <= k)%nat -> pg_models ps n s σ -> reading σ r l rest ->
  exists s' r', settles (fun t => read_to_end buffers t i) (s, r) (Val rest) (s', r') /\ pg_models ps n s' σ.
Proof.
  induction k as [|k IH]; intros s r l rest i Hk M R;
    destruct (read_spec n s σ r l rest (buffers i) M R (Hbuffers i)) as (got & s1 & r1 & l1 & E1 & M1 & Hr & R1 & Hle & Hend);
    (destruct (decide (got = [])) as [->|Hne]; [rewrite (Hend eq_refl) in *; exists s1, r1; split; [|done];
      (eapply settles_ext; [intros t; apply read_to_end_unfold|]); eapply settles_step; [exact E1|]; by apply settles_const|]).
  all: assert (Hg : (0 < length got)%nat) by (destruct got; [done|cbn; lia]);
    assert (Hlen : (length got + length (drop (length got) rest) = length rest)%nat) by (rewrite <- length_app; by f_equal).
  { lia. }
  destruct (IH s1 r1 l1 (drop (length got) rest) (i + 1)%nat ltac:(lia) M1 R1) as (s2 & r2 & E2 & M2). exists s2, r2. split; [|done].
  eapply settles_ext; [intros t; apply read_to_end_unfold|]. eapply settles_step; [exact E1|]. cbv beta. rewrite bool_decide_false by done.
  apply (settles_turn (fun t => do rest' <- read_to_end buffers t (i + 1) ;; st_ret (got ++ rest'))).
  eapply settles_bind; [exact E2|]. apply settles_const. unfold st_ret. by rewrite <- Hr.
Qed.

Lemma read_exact_unfold t want : read_exact (S := S) t want =
  (if want <=? 0 then st_ret []
   else do got <- read want ;;
     if bool_decide (got = []) then st_fail Io
     else match t with O => st_panic | Datatypes.S t' => do rest <- read_exact t' (want - blen got) ;; st_ret (got ++ rest) end).
Proof. by destruct t. Qed.

Lemma read_exact_spec n σ k : forall s r l rest want, (Z.to_nat want <= k)%nat -> 0 <= want <= blen rest -> pg_models ps n s σ -> reading σ r l rest ->
  exists s' r', settles (fun t => read_exact t want) (s, r) (Val (take (Z.to_nat want) rest)) (s', r') /\ pg_models ps n s' σ.
Proof.
  assert (Hzero : forall s r rest, pg_models ps n s σ -> exists s' r', settles (fun t => read_exact t 0) (s, r) (Val (take (Z.to_nat 0) rest)) (s', r') /\ pg_models ps n s' σ).
  { intros s r rest M. exists s, r. split; [|done]. exists 0%nat. intros t _. by destruct t. }
  induction k as [|k IH]; intros s r l rest want Hk Hw M R; (destruct (decide (want = 0)) as [->|Hpos]; [by apply Hzero|]); [lia|].
  destruct (read_spec n s σ r l rest want M R ltac:(lia)) as (got & s1 & r1 & l1 & E1 & M1 & Hr & R1 & Hle & Hend).
  assert (Hne : got <> []) by (intros Hg; rewrite (Hend Hg) in Hw; unfold blen in Hw; cbn in Hw; lia).
  assert (Hg : 0 < blen got) by (destruct got; [done|unfold blen; cbn [length]; lia]).
  assert (Hlen : blen got + blen (drop (length got) rest) = blen rest) by (rewrite <- blen_app; by f_equal).
  destruct (IH s1 r1 l1 (drop (length got) rest) (want - blen got) ltac:(lia) ltac:(lia) M1 R1) as (s2 & r2 & E2 & M2).
  exists s2, r2. split; [|done]. eapply settles_ext; [intros t; apply read_exact_unfold|]. rewrite (proj2 (Z.leb_gt _ _)) by lia.
  eapply settles_step; [exact E1|]. cbv beta. rewrite bool_decide_false by done.
  apply (settles_turn (fun t => do rest' <- read_exact t (want - blen got) ;; st_ret (got ++ rest'))).
  eapply settles_bind; [exact E2|]. apply settles_const. unfold st_ret. do 2 f_equal. rewrite Hr at 2.
  rewrite take_app_ge by (unfold blen in *; lia). do 2 f_equal. unfold blen. lia.
Qed.

Lemma reader_settles {A} (m : nat -> st PageError (S * PooledOverflowReader) A) head s (a : A) s' r' :
  settles m (s, reader_new head) (Val a) (s', r') -> settles (fun t => with_reader head (as_io (m t))) s (Val a) s'.
Proof. intros [e H]. exists e. intros t Ht. unfold with_reader, as_io. by rewrite H. Qed.

(** Collecting a chain, and refusing one above the limit. *)
Lemma read_chain_spec n s σ head l limit : pg_models ps n s σ -> chain ps σ head l -> blen (payload l) < U64 ->
  exists s', settles (fun t => read_chain_pooled buffers t head limit) s
    (if limit <? blen (payload l) then Err (ValueTooLarge head (blen (payload l)) limit) else Val (payload l)) s' /\ pg_models ps n s' σ.
Proof.
  intros M Hch Hb. destruct (chain_len_spec n σ l s head 0 M Hch ltac:(lia) ltac:(lia)) as (s1 & E1 & M1). rewrite Z.add_0_l in E1.
  destruct (limit <? blen (payload l)) eqn:El.
  - exists s1. split; [|done]. unfold read_chain_pooled. eapply settles_bind; [exact E1|]. cbv beta. rewrite El. by apply settles_const.
  - destruct (read_to_end_spec n σ (length (payload l)) s1 (reader_new head) l (payload l) 0%nat) as (s2 & r2 & E2 & M2); [lia|done|by apply reading_new|].
    exists s2. split; [|done]. unfold read_chain_pooled. eapply settles_bind; [exact E1|]. cbv beta. rewrite El. by eapply reader_settles.
Qed.
End Pooled.

(** ** Freeing *)

Section Freed.
Context {S : Type} {P : Pager S} {L : PagerLaws S} {F : PagerFrees S} (ps : Z).
Hypothesis Hps : 512 <= ps <= 65536.

Lemma free_chain_unfold t freed current : free_chain_loop (S := S) t freed current =
  (if current =? 0 then st_ret freed
   else do h <- pooled_header current ;;
        pg_free current ;;;
        match t with O => st_panic | Datatypes.S t' => free_chain_loop t' (freed + 1) (next_page h) end).
Proof. by destruct t. Qed.

(** The pages of a chain leave the map, and no other page does. *)
Lemma free_chain_spec n l : forall s σ head freed, pg_models ps n s σ -> chain ps σ head l -> NoDup l.*1 ->
  Forall (fun p => p <> pg_fixed_root) l.*1 ->
  exists s' σ', settles (fun t => free_chain_loop t freed head) s (Val (freed + Z.of_nat (length l))) s' /\ pg_models ps n s' σ' /\
    forall q, σ' !! q = if bool_decide (q ∈ l.*1) then None else σ !! q.
Proof.
  induction l as [|[p c] l IH]; intros s σ head freed M Hch Hnd Hroot.
  { cbn in Hch. subst head. exists s, σ. ands; try done. exists 0%nat. intros t _. destruct t; cbn; by rewrite Z.add_0_r. }
  cbn in Hch, Hnd, Hroot. destruct Hch as (-> & Hp & b & next & Hb & Hl & Hch). apply NoDup_cons in Hnd as [Hn Hnd]. apply Forall_cons in Hroot as [Hr Hroot].
  destruct (header_spec ps Hps n s σ p b next c M Hb Hl) as (h & s1 & E1 & M1 & Hnx & _).
  destruct (pg_free_law ps n s1 σ p b Overflow M1 Hb (link_typed _ _ _ _ Hl) ltac:(done) Hr) as (s2 & E2 & M2).
  destruct (IH s2 (delete p σ) next (freed + 1) M2) as (s3 & σ3 & E3 & M3 & Hσ); try done.
  { apply (chain_frame ps σ); [|done]. intros q Hq. apply lookup_delete_ne. by intros ->. }
  exists s3, σ3. ands; [|done|].
  - eapply settles_ext; [intros t; apply free_chain_unfold|]. rewrite (proj2 (Z.eqb_neq p 0)) by done. eapply settles_step; [exact E1|].
    eapply settles_step; [exact E2|]. apply (settles_turn (fun t => free_chain_loop t (freed + 1) (next_page h))). rewrite Hnx.
    replace (freed + Z.of_nat (length ((p, c) :: l))) with (freed + 1 + Z.of_nat (length l)) by (cbn [length]; lia). exact E3.
  - intros q. rewrite Hσ. cbn [fmap list_fmap fst]. destruct (decide (q = p)) as [->|Hne].
    + rewrite lookup_delete_eq. rewrite (bool_decide_true (p ∈ _ :: _)) by (by left). by case_bool_decide.
    + rewrite lookup_delete_ne by done. repeat case_bool_decide; try done; set_solver.
Qed.
End Freed.
