(* ===== verification/Keys.v ===== *)
(** * Byte-string keys and sorted entry lists

    The order Rust gives byte slices, and finite maps as lists of entries that
    are strictly sorted by key: the contract of a B+ tree node and of the whole
    tree. *)

From stdpp Require Import base tactics list numbers gmap sorting.
From Stdlib Require Import ZArith Lia.
From S2P Require Import Prelude Bytes.
Local Open Scope Z_scope.

(** A key and its value. *)
Abbreviation entry := (bytes * bytes)%type.

(** [<[u8]>::cmp]: lexicographic by byte. *)
Fixpoint bytes_cmp (a b : bytes) : comparison :=
  match a, b with
  | [], [] => Eq
  | [], _ :: _ => Lt
  | _ :: _, [] => Gt
  | x :: a', y :: b' => match x ?= y with Eq => bytes_cmp a' b' | c => c end
  end.

Definition blt (a b : bytes) : Prop := bytes_cmp a b = Lt.
Definition ble (a b : bytes) : Prop := bytes_cmp a b <> Gt.
#[export] Instance blt_dec a b : Decision (blt a b).
Proof. unfold blt. apply _. Defined.
#[export] Instance ble_dec a b : Decision (ble a b).
Proof. unfold ble. apply _. Defined.

(** ** The order *)

Lemma bytes_cmp_refl a : bytes_cmp a a = Eq.
Proof. induction a as [|x a IH]; cbn; [done|]. by rewrite Z.compare_refl. Qed.

Lemma bytes_cmp_eq a b : bytes_cmp a b = Eq <-> a = b.
Proof.
  split; [|intros ->; apply bytes_cmp_refl]. revert b.
  induction a as [|x a IH]; intros [|y b]; cbn; try done.
  destruct (Z.compare_spec x y); try done. intros E. by rewrite (IH b E), H.
Qed.

Lemma bytes_cmp_antisym a b : bytes_cmp b a = CompOpp (bytes_cmp a b).
Proof.
  revert b. induction a as [|x a IH]; intros [|y b]; cbn; try done.
  rewrite (Z.compare_antisym x y). destruct (x ?= y); cbn; [apply IH|done|done].
Qed.

Lemma bytes_cmp_gt a b : bytes_cmp a b = Gt <-> blt b a.
Proof. unfold blt. rewrite (bytes_cmp_antisym a b). by destruct (bytes_cmp a b). Qed.

Lemma blt_trans a b c : blt a b -> blt b c -> blt a c.
Proof.
  unfold blt. revert b c. induction a as [|x a IH]; intros [|y b] [|z c]; cbn; try done.
  destruct (Z.compare_spec x y), (Z.compare_spec y z); subst; try done; intros H1 H2.
  - rewrite Z.compare_refl. by apply (IH b).
  - by rewrite (proj2 (Z.compare_lt_iff _ _)).
  - by rewrite (proj2 (Z.compare_lt_iff _ _)).
  - by rewrite (proj2 (Z.compare_lt_iff _ _)) by lia.
Qed.

Lemma blt_irrefl a : ~ blt a a.
Proof. unfold blt. by rewrite bytes_cmp_refl. Qed.

Lemma ble_cases a b : ble a b <-> a = b \/ blt a b.
Proof.
  unfold ble, blt. rewrite <- bytes_cmp_eq. destruct (bytes_cmp a b); split; intros; try tauto; try done.
  destruct H; done.
Qed.

Lemma ble_not_lt a b : ble a b <-> ~ blt b a.
Proof. unfold ble. by rewrite bytes_cmp_gt. Qed.

Lemma ble_refl a : ble a a.
Proof. apply ble_cases. by left. Qed.

Lemma blt_ble a b : blt a b -> ble a b.
Proof. intros. apply ble_cases. by right. Qed.

Lemma ble_blt_trans a b c : ble a b -> blt b c -> blt a c.
Proof. intros [->|H]%ble_cases; [done|]. by apply blt_trans. Qed.

Lemma blt_ble_trans a b c : blt a b -> ble b c -> blt a c.
Proof. intros H [->|H']%ble_cases; [done|]. by apply (blt_trans _ b). Qed.

Lemma ble_trans a b c : ble a b -> ble b c -> ble a c.
Proof. intros [->|H]%ble_cases H'; [done|]. apply blt_ble. by apply (blt_ble_trans _ b). Qed.

#[export] Hint Resolve ble_refl blt_ble blt_irrefl : bic.

(** ** Sorted entry lists *)

Definition sorted (l : list entry) : Prop := StronglySorted blt (l.*1).

(** [k] lies between the keys of [l1] and those of [l2]. *)
Definition below (k : bytes) (l : list entry) : Prop := Forall (fun e => blt (fst e) k) l.
Definition above (k : bytes) (l : list entry) : Prop := Forall (fun e => blt k (fst e)) l.

Lemma sorted_app l1 l2 :
  sorted (l1 ++ l2) <-> sorted l1 /\ sorted l2 /\ forall a b, a ∈ l1 -> b ∈ l2 -> blt (fst a) (fst b).
Proof.
  unfold sorted. rewrite fmap_app, StronglySorted_app. split.
  - intros (H & H1 & H2). split; [done|]. split; [done|]. intros a b Ha Hb. apply H; apply list_elem_of_fmap; eauto.
  - intros (H1 & H2 & H). split; [|done]. intros x y (a & -> & Ha)%list_elem_of_fmap (b & -> & Hb)%list_elem_of_fmap.
    by apply H.
Qed.

Lemma sorted_cons e l : sorted (e :: l) <-> sorted l /\ above (fst e) l.
Proof.
  unfold sorted, above. rewrite fmap_cons. split.
  - intros [H1 H2]%StronglySorted_inv. split; [done|]. exact (proj1 (Forall_fmap _ _ _) H2).
  - intros [H1 H2]. constructor; [done|]. exact (proj2 (Forall_fmap _ _ _) H2).
Qed.

Lemma sorted_middle l1 k v l2 :
  sorted (l1 ++ (k, v) :: l2) <-> sorted (l1 ++ l2) /\ below k l1 /\ above k l2.
Proof.
  rewrite !sorted_app, sorted_cons. unfold below, above. rewrite !Forall_forall. cbn. split.
  - intros (H1 & [H2 H3] & H4). split; [split; [done|]; split; [done|]|split; [|done]].
    + intros a b Ha Hb. apply H4; [done|by right].
    + intros a Ha. apply (H4 a (k, v)); [done|by left].
  - intros ((H1 & H2 & H3) & Hb & Ha). split; [done|]. split; [done|].
    intros a b Hin [->|Hin2]%elem_of_cons; [by apply Hb|by apply H3].
Qed.

(** The operations of a finite map on such a list. *)
Fixpoint kv_insert (k v : bytes) (l : list entry) : list entry :=
  match l with
  | [] => [(k, v)]
  | (k', v') :: l' =>
      match bytes_cmp k k' with
      | Lt => (k, v) :: l
      | Eq => (k, v) :: l'
      | Gt => (k', v') :: kv_insert k v l'
      end
  end.
Definition kv_remove (k : bytes) (l : list entry) : list entry := filter (fun e => fst e <> k) l.
Fixpoint kv_get (k : bytes) (l : list entry) : option bytes :=
  match l with
  | [] => None
  | (k', v') :: l' => if decide (k = k') then Some v' else kv_get k l'
  end.

Lemma kv_insert_fresh k v l1 l2 : below k l1 -> above k l2 -> kv_insert k v (l1 ++ l2) = l1 ++ (k, v) :: l2.
Proof.
  intros H1 H2. induction H1 as [|[k' v'] l1 Hk _ IH]; cbn.
  - destruct H2 as [|[k' v'] l2 Hk _]; cbn; [done|]. cbn in Hk. unfold blt in Hk. by rewrite Hk.
  - cbn in Hk. apply bytes_cmp_gt in Hk. by rewrite Hk, IH.
Qed.

Lemma kv_insert_replace k v v0 l1 l2 :
  below k l1 -> kv_insert k v (l1 ++ (k, v0) :: l2) = l1 ++ (k, v) :: l2.
Proof.
  intros H1. induction H1 as [|[k' v'] l1 Hk _ IH]; cbn.
  - by rewrite bytes_cmp_refl.
  - cbn in Hk. apply bytes_cmp_gt in Hk. by rewrite Hk, IH.
Qed.

Lemma kv_remove_absent k l : Forall (fun e => fst e <> k) l -> kv_remove k l = l.
Proof.
  unfold kv_remove. induction 1 as [|e l He _ IH]; [done|]. rewrite filter_cons. by rewrite decide_True, IH by done.
Qed.

Lemma below_ne k l : below k l -> Forall (fun e => fst e <> k) l.
Proof. unfold below. intros H. eapply Forall_impl; [exact H|]. cbn. intros e He E. rewrite E in He. by destruct (blt_irrefl k). Qed.
Lemma above_ne k l : above k l -> Forall (fun e => fst e <> k) l.
Proof. unfold above. intros H. eapply Forall_impl; [exact H|]. cbn. intros e He E. rewrite E in He. by destruct (blt_irrefl k). Qed.

Lemma kv_remove_middle k v l1 l2 : below k l1 -> above k l2 -> kv_remove k (l1 ++ (k, v) :: l2) = l1 ++ l2.
Proof.
  intros H1%below_ne%kv_remove_absent H2%above_ne%kv_remove_absent. unfold kv_remove in *.
  rewrite filter_app, filter_cons, decide_False by (cbn; tauto). by rewrite H1, H2.
Qed.

Lemma kv_get_absent k l : Forall (fun e => fst e <> k) l -> kv_get k l = None.
Proof. induction 1 as [|[k' v'] l He _ IH]; [done|]. cbn in *. by rewrite decide_False by congruence. Qed.

Lemma kv_get_app k l1 l2 : kv_get k (l1 ++ l2) = match kv_get k l1 with Some v => Some v | None => kv_get k l2 end.
Proof. induction l1 as [|[k' v'] l1 IH]; [done|]. cbn. by destruct (decide (k = k')). Qed.

Lemma kv_get_middle k v l1 l2 : below k l1 -> kv_get k (l1 ++ (k, v) :: l2) = Some v.
Proof.
  intros H%below_ne%kv_get_absent. rewrite kv_get_app, H. cbn. by rewrite decide_True.
Qed.

(** As finite maps. *)
Definition kv_map (l : list entry) : gmap bytes bytes := list_to_map l.

Lemma kv_map_get k l : kv_map l !! k = kv_get k l.
Proof.
  unfold kv_map. induction l as [|[k' v'] l IH]; [done|]. cbn. destruct (decide (k = k')) as [->|Hne].
  - by rewrite lookup_insert_eq.
  - by rewrite lookup_insert_ne by congruence.
Qed.

Lemma kv_insert_get k v l k' : kv_get k' (kv_insert k v l) = if decide (k' = k) then Some v else kv_get k' l.
Proof.
  induction l as [|[k0 v0] l IH]; cbn; [done|]. destruct (bytes_cmp k k0) eqn:E; cbn.
  - apply bytes_cmp_eq in E as <-. by destruct (decide (k' = k)).
  - done.
  - rewrite IH. apply bytes_cmp_gt in E. destruct (decide (k' = k0)) as [->|]; [|done].
    rewrite decide_False; [done|]. intros ->. by destruct (blt_irrefl k).
Qed.

Lemma kv_map_insert k v l : kv_map (kv_insert k v l) = <[k := v]> (kv_map l).
Proof.
  apply map_eq. intros k'. rewrite kv_map_get, kv_insert_get. destruct (decide (k' = k)) as [->|].
  - by rewrite lookup_insert_eq.
  - by rewrite lookup_insert_ne, kv_map_get by congruence.
Qed.

Lemma kv_map_remove k l : kv_map (kv_remove k l) = base.delete k (kv_map l).
Proof.
  apply map_eq. intros k'. rewrite kv_map_get. destruct (decide (k' = k)) as [->|Hne].
  - rewrite lookup_delete_eq. apply kv_get_absent. unfold kv_remove. apply Forall_forall.
    intros e He. by apply list_elem_of_filter in He as [He _].
  - rewrite lookup_delete_ne, kv_map_get by congruence. unfold kv_remove.
    induction l as [|[k0 v0] l IH]; [done|]. rewrite filter_cons. cbn. destruct (decide (k0 <> k)) as [Hk|Hk]; cbn.
    + by rewrite IH.
    + rewrite IH. rewrite decide_False; [done|]. intros ->. by apply Hk.
Qed.

(** ** Operations inside a larger list *)

Section Between.
Context (k : bytes) (l1 l3 : list entry).
Hypothesis Hb : below k l1.
Hypothesis Ha : above k l3.

Lemma kv_insert_between v es : kv_insert k v (l1 ++ es ++ l3) = l1 ++ kv_insert k v es ++ l3.
Proof using Ha Hb.
  induction l1 as [|[k' v'] l1' IH]; cbn [app kv_insert].
  - induction es as [|[k' v'] es IH]; cbn [app kv_insert].
    + pose proof (kv_insert_fresh k v [] l3 (Forall_nil_2 _) Ha) as H. exact H.
    + destruct (bytes_cmp k k'); [done|done|]. cbn [app]. by rewrite IH.
  - apply Forall_cons in Hb as [Hk Hb']. cbn in Hk. apply bytes_cmp_gt in Hk. by rewrite Hk, (IH Hb').
Qed.
Lemma kv_remove_between es : kv_remove k (l1 ++ es ++ l3) = l1 ++ kv_remove k es ++ l3.
Proof using Ha Hb.
  unfold kv_remove. rewrite !filter_app. f_equal; [|f_equal].
  - by apply (kv_remove_absent k), below_ne.
  - by apply (kv_remove_absent k), above_ne.
Qed.
Lemma kv_get_between es : kv_get k (l1 ++ es ++ l3) = kv_get k es.
Proof using Ha Hb.
  rewrite !kv_get_app, (kv_get_absent k l1), (kv_get_absent k l3) by (first [by apply below_ne|by apply above_ne]).
  by destruct (kv_get k es).
Qed.
End Between.

(** Inserting and removing keep the order. *)
Lemma kv_insert_split k v l : sorted l ->
  exists l1 l2, kv_insert k v l = l1 ++ (k, v) :: l2 /\ below k l1 /\ above k l2 /\ sorted (l1 ++ l2) /\
    (l = l1 ++ l2 \/ exists v0, l = l1 ++ (k, v0) :: l2).
Proof.
  induction l as [|[k' v'] l IH]; intros Hs; cbn [kv_insert].
  { exists [], []. ands; [done|by apply Forall_nil|by apply Forall_nil|done|by left]. }
  pose proof Hs as [Hs' Ha]%sorted_cons. cbn [fst] in Ha. destruct (bytes_cmp k k') eqn:E.
  - apply bytes_cmp_eq in E as ->. exists [], l. ands; [done|by apply Forall_nil|done|done|right; eauto].
  - exists [], ((k', v') :: l). ands; [done|by apply Forall_nil| |done|by left].
    constructor; [done|]. eapply Forall_impl; [exact Ha|]. intros e He. by eapply blt_trans.
  - destruct (IH Hs') as (l1 & l2 & -> & Hb & Ha2 & Hs2 & Hor). exists ((k', v') :: l1), l2.
    apply bytes_cmp_gt in E. ands; [done|by constructor|done| |].
    + cbn [app]. apply sorted_cons. split; [done|]. cbn [fst].
      destruct Hor as [->|(v0 & ->)]; unfold above in *; rewrite ?Forall_app, ?Forall_cons in *; tauto.
    + destruct Hor as [->|(v0 & ->)]; [by left|right; by exists v0].
Qed.
Lemma kv_insert_sorted k v l : sorted l -> sorted (kv_insert k v l).
Proof. intros Hs. destruct (kv_insert_split k v l Hs) as (l1 & l2 & -> & ?&?&?&_). by apply sorted_middle. Qed.
Lemma kv_insert_Forall (P : entry -> Prop) k v l : P (k, v) -> Forall P l -> Forall P (kv_insert k v l).
Proof.
  intros HP Hl. induction Hl as [|[k' v'] l Hx Hl IH]; cbn [kv_insert]; [by constructor|].
  destruct (bytes_cmp k k'); by repeat constructor.
Qed.
Lemma kv_remove_sorted k l : sorted l -> sorted (kv_remove k l).
Proof.
  unfold kv_remove. induction l as [|e l IH]; [done|]. rewrite sorted_cons. intros [Hs Ha].
  rewrite filter_cons. case_decide; [|by apply IH]. apply sorted_cons. split; [by apply IH|].
  unfold above in *. rewrite Forall_forall in *. intros x [_ Hx]%list_elem_of_filter. by apply Ha.
Qed.
