(* ===== verification/BTreeNode.v ===== *)
(** * B+ tree nodes

    Models the node layer of [crates/bicdb-page/src/btree.rs]: a page whose
    directory of 8-byte entries is kept sorted by key, with the payloads growing
    down from the trailer.  The accessors index the page bytes as the Rust code
    does, so a corrupt directory panics here too. *)

(* @source crates/bicdb-page/src/btree.rs *)
From stdpp Require Import base tactics list numbers.
From Stdlib Require Import ZArith Lia.
From S2P Require Import Prelude Search Bytes Errors PageFormat Keys.
Local Open Scope Z_scope.
Local Open Scope bic_scope.

Abbreviation nst := (st PageError bytes).

(** [bytes.copy_within(from..to, dest)]. *)
Definition copy_within (from to dest : Z) : nst unit :=
  do v <- reads (fun l => slice l from to) ;; copy_at dest v.

(** [ENTRY_BYTES] (52-52). *)
Definition ENTRY_BYTES : Z := 8.

(** ** Reading *)

(** [read_u16] (339-341). *)
Definition read_u16 (b : bytes) (at_ : Z) : pres Z := read_le 2 b at_.
(** [count] (344-346). *)
Definition node_count (b : bytes) : pres Z := read_u16 b 40.
(** [free_start] (349-351). *)
Definition node_free_start (b : bytes) : pres Z := read_u16 b 36.
(** [free_end] (354-356). *)
Definition node_free_end (b : bytes) : pres Z := read_u16 b 38.
(** [page_id] (359-361). *)
Definition node_page_id (b : bytes) : pres Z := read_le 8 b 8.
(** [next_page] (364-366). *)
Definition node_next (b : bytes) : pres Z := read_le 8 b 44.
(** [is_leaf] (368-370). *)
Definition is_leaf (b : bytes) : pres bool :=
  let! t := read_le 1 b 6 in Val (t =? page_type_u8 BTreeLeaf).

(** [entry_at] (373-380). *)
Definition entry_at (b : bytes) (index : Z) : pres (Z * Z * Z) :=
  let at_ := PAGE_HEADER_BYTES + index * ENTRY_BYTES in
  let! offset := read_u16 b at_ in
  let! key_len := read_u16 b (at_ + 2) in
  let! value_len := read_u16 b (at_ + 4) in
  Val (offset, key_len, value_len).

(** [key] (382-385). *)
Definition node_key (b : bytes) (index : Z) : pres bytes :=
  let! (offset, key_len, _) := entry_at b index in slice b offset (offset + key_len).

(** [value] (387-390). *)
Definition node_value (b : bytes) (index : Z) : pres bytes :=
  let! (offset, key_len, value_len) := entry_at b index in
  slice b (offset + key_len) (offset + key_len + value_len).

(** [search] (394-406): the loop, and its whole.  The interval shrinks on
    every turn, so [high - low] turns are enough. *)
Fixpoint search_loop (fuel : nat) (b needle : bytes) (low high : Z) : pres (Z * bool) :=
  if low <? high then
    match fuel with
    | O => Panic
    | S fuel' =>
        let mid := (low + high) / 2 in
        let! k := node_key b mid in
        match bytes_cmp k needle with
        | Lt => search_loop fuel' b needle (mid + 1) high
        | Gt => search_loop fuel' b needle low mid
        | Eq => Val (mid, true)
        end
    end
  else Val (low, false).
(** [search] (394-406). *)
Definition node_search (b needle : bytes) : pres (Z * bool) :=
  let! n := node_count b in search_loop (Z.to_nat n) b needle 0 n.

(** [u64::from_le_bytes(v.try_into().unwrap())]. *)
Definition u64_of (v : bytes) : pres Z := if blen v =? 8 then Val (le_dec v) else Panic.

(** [child_at] (1420-1426). *)
Definition child_at (b : bytes) (index : Z) : pres Z :=
  let! n := node_count b in
  if n <=? index then node_next b else let! v := node_value b index in u64_of v.

(** [child_for] (409-420). *)
Definition child_for (b needle : bytes) : pres Z :=
  let! (index, exact) := node_search b needle in
  let index := if exact then index + 1 else index in
  let! n := node_count b in
  if n <=? index then node_next b else let! v := node_value b index in u64_of v.

(** [free_space] (422-424). *)
Definition node_free_space (b : bytes) : pres Z :=
  let! fe := node_free_end b in let! fs := node_free_start b in Val (sat_sub fe fs).

(** ** Writing *)

(** [init] (443-452). *)
Definition node_init (id page_size : Z) (leaf : bool) : nst unit :=
  modify (fun b => zeros (blen b)) ;;;
  encode (new_header id (if leaf then BTreeLeaf else BTreeInterior) page_size).

(** [write_u16] (455-457); [value as u16] at the call sites truncates. *)
Definition node_write_u16 (at_ value : Z) : nst unit := copy_at at_ (le_enc 2 value).
(** [set_count] (459-461). *)
Definition set_count (value : Z) : nst unit := node_write_u16 40 value.
(** [set_free_start] (463-465). *)
Definition node_set_free_start (value : Z) : nst unit := node_write_u16 36 value.
(** [set_free_end] (467-469). *)
Definition node_set_free_end (value : Z) : nst unit := node_write_u16 38 value.
(** [set_next_page] (471-473). *)
Definition set_next_page (value : Z) : nst unit := copy_at 44 (le_enc 8 value).

(** [write_entry] (475-481). *)
Definition write_entry (index offset key_len value_len : Z) : nst unit :=
  let at_ := PAGE_HEADER_BYTES + index * ENTRY_BYTES in
  node_write_u16 at_ offset ;;;
  node_write_u16 (at_ + 2) key_len ;;;
  node_write_u16 (at_ + 4) value_len ;;;
  node_write_u16 (at_ + 6) 0.

(** [required_space] (483-485). *)
Definition required_space (e : entry) : Z := blen (fst e) + blen (snd e) + ENTRY_BYTES.
Definition required_total (es : list entry) : Z := foldr (fun e n => required_space e + n) 0 es.

(** [remove_at] (536-549). *)
Definition remove_at (index : Z) : nst unit :=
  do count <- reads node_count ;;
  do (offset, key_len, value_len) <- reads (fun b => entry_at b index) ;;
  fill0 offset (offset + key_len + value_len) ;;;
  let from := PAGE_HEADER_BYTES + (index + 1) * ENTRY_BYTES in
  let to := PAGE_HEADER_BYTES + count * ENTRY_BYTES in
  copy_within from to (from - ENTRY_BYTES) ;;;
  set_count (count - 1) ;;;
  node_set_free_start (PAGE_HEADER_BYTES + (count - 1) * ENTRY_BYTES).

(** [insert] (514-530): the part that adds the entry. *)
Definition add_entry (key value : bytes) : nst bool :=
  let data_len := blen key + blen value in
  do fe <- reads node_free_end ;;
  let offset := fe - data_len in
  copy_at offset key ;;;
  copy_at (offset + blen key) value ;;;
  node_set_free_end offset ;;;
  do count <- reads node_count ;;
  do (index, _) <- reads (fun b => node_search b key) ;;
  let from := PAGE_HEADER_BYTES + index * ENTRY_BYTES in
  let to := PAGE_HEADER_BYTES + count * ENTRY_BYTES in
  copy_within from to (from + ENTRY_BYTES) ;;;
  write_entry index offset (blen key) (blen value) ;;;
  set_count (count + 1) ;;;
  node_set_free_start (PAGE_HEADER_BYTES + (count + 1) * ENTRY_BYTES) ;;;
  st_ret true.

(** [insert] (489-531). *)
Definition node_insert (key value : bytes) : nst bool :=
  let required := required_space (key, value) in
  let place :=
    do fr <- reads node_free_space ;;
    if fr <? required then st_ret false else add_entry key value in
  do (index, exact) <- reads (fun b => node_search b key) ;;
  if exact : bool then
    do (offset, key_len, value_len) <- reads (fun b => entry_at b index) ;;
    if value_len =? blen value then copy_at (offset + key_len) value ;;; st_ret true
    else
      do fr <- reads node_free_space ;;
      if fr + ENTRY_BYTES <? required then st_ret false
      else remove_at index ;;; place
  else place.

(** [remove] (551-558). *)
Definition node_remove (key : bytes) : nst bool :=
  do (index, exact) <- reads (fun b => node_search b key) ;;
  if exact : bool then remove_at index ;;; st_ret true else st_ret false.

(** [entries] (561-565). *)
Fixpoint entries_from (b : bytes) (idx : list Z) : pres (list entry) :=
  match idx with
  | [] => Val []
  | i :: idx' =>
      let! k := node_key b i in
      let! v := node_value b i in
      let! rest := entries_from b idx' in
      Val ((k, v) :: rest)
  end.
(** [entries] (561-565). *)
Definition node_entries (b : bytes) : pres (list entry) :=
  let! n := node_count b in entries_from b (rangeZ 0 n).

(** [rebuild] (593-602): the loop. *)
Fixpoint insert_all (err : PageError) (es : list entry) : nst unit :=
  match es with
  | [] => st_ret tt
  | (k, v) :: es' =>
      do inserted <- node_insert k v ;;
      if inserted : bool then insert_all err es' else st_fail err
  end.

(** [rebuild] (568-604). *)
Definition rebuild (es : list entry) (page_size : Z) : nst unit :=
  let needed := required_total es in
  let available := usable_bytes page_size in
  do id <- reads node_page_id ;;
  let err := ValueTooLarge id needed available in
  if available <? needed then st_fail err
  else
    do next <- reads node_next ;;
    let data_top := page_size - PAGE_TRAILER_BYTES in
    fill0 PAGE_HEADER_BYTES data_top ;;;
    set_count 0 ;;;
    node_set_free_start PAGE_HEADER_BYTES ;;;
    node_set_free_end data_top ;;;
    set_next_page next ;;;
    insert_all err es.

(** ** Choosing a split *)

(** [byte_split] (617-631): the loop; [i] counts the entries before. *)
Fixpoint split_loop (len total usable : Z) (interior : bool) (i left : Z) (best : option (Z * Z))
    (es : list entry) : option (Z * Z) :=
  match es with
  | [] => best
  | e :: es' =>
      let size := required_space e in
      let right := total - left - (if interior then size else 0) in
      let best' :=
        if (0 <? i) && (negb interior || (i + 1 <? len)) && (left <=? usable) && (right <=? usable) then
          let imbalance := Z.abs (left - right) in
          match best with
          | Some (_, previous) => if imbalance <? previous then Some (i, imbalance) else best
          | None => Some (i, imbalance)
          end
        else best in
      split_loop len total usable interior (i + 1) (left + size) best' es'
  end.

(** [byte_split] (610-638). *)
Definition byte_split (es : list entry) (usable : Z) (interior : bool) : pres Z :=
  let total := required_total es in
  match split_loop (Z.of_nat (length es)) total usable interior 0 0 None es with
  | Some (i, _) => Val i
  | None => Err (ValueTooLarge 0 total usable)
  end.
