(* ===== verification/BTreeNodeSpec.v ===== *)
(** * B+ tree nodes: invariant and refinement

    A node's bytes represent a list of directory slots, each with the offset of
    its payload and the entry stored there.  Every operation of [BTreeNode]
    keeps the representation, never panics on it, and on the entries is the
    operation of a sorted list. *)

From stdpp Require Import base tactics list numbers sorting.
From Stdlib Require Import ZArith Lia.
From S2P Require Import Prelude Search Bytes Errors PageFormat Keys BTreeNode.
Local Open Scope Z_scope.
Local Open Scope bic_scope.

(** ** Representation *)

(** A directory slot: where the payload is, and the entry. *)
Abbreviation slot := (Z * entry)%type.
Definition size_of (e : entry) : Z := blen (fst e) + blen (snd e).
Definition dirent (d : slot) : bytes :=
  le_enc 2 (fst d) ++ le_enc 2 (blen (fst (snd d))) ++ le_enc 2 (blen (snd (snd d))) ++ le_enc 2 0.
Definition dir_bytes (dir : list slot) : bytes := mjoin (dirent <$> dir).
Definition live_bytes (es : list entry) : Z := foldr (fun e n => size_of e + n) 0 es.

(** Payloads do not overlap. *)
Definition clear_of (a b : slot) : Prop :=
  fst a + size_of (snd a) <= fst b \/ fst b + size_of (snd b) <= fst a.
Fixpoint apart (dir : list slot) : Prop :=
  match dir with [] => True | d :: dir' => Forall (clear_of d) dir' /\ apart dir' end.

Definition node_type (leaf : bool) : PageType := if leaf then BTreeLeaf else BTreeInterior.

Record node (ps : Z) (b : bytes) (id : Z) (leaf : bool) (next fe : Z) (dir : list slot) : Prop := {
  nd_ps : 512 <= ps <= 65536;
  nd_len : blen b = ps;
  nd_type : sub b 6 1 = [page_type_u8 (node_type leaf)];
  nd_id : sub b 8 8 = le_enc 8 id;
  nd_next : sub b 44 8 = le_enc 8 next;
  nd_u64 : is_u64 id /\ is_u64 next;
  nd_fs : sub b 36 2 = le_enc 2 (64 + 8 * Z.of_nat (length dir));
  nd_fe : sub b 38 2 = le_enc 2 fe;
  nd_count : sub b 40 2 = le_enc 2 (Z.of_nat (length dir));
  nd_dir : sub b 64 (8 * Z.of_nat (length dir)) = dir_bytes dir;
  nd_gap : 64 + 8 * Z.of_nat (length dir) <= fe <= ps - 8;
  nd_pay : Forall (fun d => fe <= fst d /\ fst d + size_of (snd d) <= ps - 8 /\
                            sub b (fst d) (size_of (snd d)) = fst (snd d) ++ snd (snd d)) dir;
  nd_apart : apart dir;
  nd_live : fe + live_bytes dir.*2 <= ps - 8;
  nd_magic : sub b 0 6 = PAGE_MAGIC ++ le_enc 2 PAGE_FORMAT_VERSION
}.

(** ** Bytes *)

Lemma sub_split l a m n : 0 <= a -> 0 <= m -> 0 <= n -> sub l a (m + n) = sub l a m ++ sub l (a + m) n.
Proof.
  intros Ha Hm Hn. unfold sub. rewrite Z2Nat.inj_add by done.
  rewrite <- (take_drop (Z.to_nat m) (take (Z.to_nat m + Z.to_nat n) (drop (Z.to_nat a) l))).
  f_equal.
  - rewrite take_take. f_equal. lia.
  - rewrite skipn_firstn_comm, drop_drop. f_equal; [lia|]. f_equal. lia.
Qed.

Lemma size_of_nonneg e : 0 <= size_of e.
Proof. unfold size_of. pose proof (blen_nonneg (fst e)). pose proof (blen_nonneg (snd e)). lia. Qed.

Lemma live_bytes_app l1 l2 : live_bytes (l1 ++ l2) = live_bytes l1 + live_bytes l2.
Proof. induction l1 as [|e l1 IH]; cbn; [done|]. fold (live_bytes (l1 ++ l2)). fold (live_bytes l1). lia. Qed.

Lemma live_bytes_nonneg l : 0 <= live_bytes l.
Proof. induction l as [|e l IH]; cbn; [done|]. pose proof (size_of_nonneg e). fold (live_bytes l). lia. Qed.

Lemma required_total_live es : required_total es = live_bytes es + 8 * Z.of_nat (length es).
Proof.
  induction es as [|e es IH]; cbn; [done|]. fold (required_total es). fold (live_bytes es). rewrite IH.
  unfold required_space, size_of, ENTRY_BYTES. lia.
Qed.

Lemma blen_dirent d : blen (dirent d) = 8.
Proof. done. Qed.

Lemma dir_bytes_app l1 l2 : dir_bytes (l1 ++ l2) = dir_bytes l1 ++ dir_bytes l2.
Proof. unfold dir_bytes. by rewrite fmap_app, join_app. Qed.

Lemma dir_bytes_cons d l : dir_bytes (d :: l) = dirent d ++ dir_bytes l.
Proof. done. Qed.

Lemma blen_dir_bytes l : blen (dir_bytes l) = 8 * Z.of_nat (length l).
Proof.
  induction l as [|d l IH]; [done|]. rewrite dir_bytes_cons, blen_app, blen_dirent, IH. cbn [length]. lia.
Qed.

Lemma clear_of_sym a b : clear_of a b -> clear_of b a.
Proof. unfold clear_of. tauto. Qed.

Lemma apart_middle l1 d l2 : apart (l1 ++ d :: l2) <-> apart (l1 ++ l2) /\ Forall (clear_of d) (l1 ++ l2).
Proof.
  induction l1 as [|x l1 IH]; cbn [app apart].
  - split; tauto.
  - rewrite IH, ?Forall_cons, ?Forall_app, ?Forall_cons, ?Forall_app. pose proof (clear_of_sym x d). pose proof (clear_of_sym d x). tauto.
Qed.

Lemma le_dec_u16 v : is_u16 v -> le_dec (le_enc 2 v) = v.
Proof. intros. rewrite le_dec_enc. by apply Z.mod_small. Qed.
Lemma le_dec_u64 v : is_u64 v -> le_dec (le_enc 8 v) = v.
Proof. intros. rewrite le_dec_enc. by apply Z.mod_small. Qed.

(** ** Reading *)

Section Reads.
Context (ps : Z) (b : bytes) (id : Z) (leaf : bool) (next fe : Z) (dir : list slot).
Hypothesis N : node ps b id leaf next fe dir.
Let n := Z.of_nat (length dir).

Lemma node_bounds : 0 <= n /\ 64 + 8 * n <= fe /\ fe <= ps - 8 /\ ps <= 65536 /\ blen b = ps.
Proof. destruct (nd_ps _ _ _ _ _ _ _ N), (nd_gap _ _ _ _ _ _ _ N). unfold n in *. pose proof (nd_len _ _ _ _ _ _ _ N). lia. Qed.

Lemma count_eq : node_count b = Val n.
Proof.
  destruct node_bounds as (?&?&?&?&?). unfold node_count, read_u16. rewrite read_le_in by lia.
  rewrite (nd_count _ _ _ _ _ _ _ N). fold n. rewrite le_dec_u16 by (widths; lia). done.
Qed.
Lemma node_free_start_eq : node_free_start b = Val (64 + 8 * n).
Proof.
  destruct node_bounds as (?&?&?&?&?). unfold node_free_start, read_u16. rewrite read_le_in by lia.
  rewrite (nd_fs _ _ _ _ _ _ _ N). fold n. rewrite le_dec_u16 by (widths; lia). done.
Qed.
Lemma node_free_end_eq : node_free_end b = Val fe.
Proof.
  destruct node_bounds as (?&?&?&?&?). unfold node_free_end, read_u16. rewrite read_le_in by lia.
  rewrite (nd_fe _ _ _ _ _ _ _ N). rewrite le_dec_u16 by (widths; lia). done.
Qed.
Lemma node_free_space_eq : node_free_space b = Val (fe - (64 + 8 * n)).
Proof.
  destruct node_bounds as (?&?&?&?&?). unfold node_free_space. rewrite node_free_end_eq, node_free_start_eq. cbn [res_bind].
  f_equal. unfold sat_sub. lia.
Qed.
Lemma node_page_id_eq : node_page_id b = Val id.
Proof.
  destruct node_bounds as (?&?&?&?&?). unfold node_page_id. rewrite read_le_in by lia.
  rewrite (nd_id _ _ _ _ _ _ _ N), le_dec_u64 by apply (nd_u64 _ _ _ _ _ _ _ N). done.
Qed.
Lemma next_eq : node_next b = Val next.
Proof.
  destruct node_bounds as (?&?&?&?&?). unfold node_next. rewrite read_le_in by lia.
  rewrite (nd_next _ _ _ _ _ _ _ N), le_dec_u64 by apply (nd_u64 _ _ _ _ _ _ _ N). done.
Qed.
Lemma is_leaf_eq : is_leaf b = Val leaf.
Proof.
  destruct node_bounds as (?&?&?&?&?). unfold is_leaf. rewrite read_le_in by lia.
  rewrite (nd_type _ _ _ _ _ _ _ N). by destruct leaf.
Qed.

(** The slot at [i]. *)
Lemma slot_facts (i : nat) d :
  dir !! i = Some d ->
  sub b (64 + 8 * Z.of_nat i) 8 = dirent d /\ Z.of_nat i < n /\
  fe <= fst d /\ fst d + size_of (snd d) <= ps - 8 /\
  sub b (fst d) (blen (fst (snd d))) = fst (snd d) /\
  sub b (fst d + blen (fst (snd d))) (blen (snd (snd d))) = snd (snd d).
Proof.
  intros Hi. destruct node_bounds as (?&?&?&?&?). pose proof (lookup_lt_Some _ _ _ Hi) as Hlt.
  pose proof (nd_pay _ _ _ _ _ _ _ N) as Hp. rewrite Forall_lookup in Hp. destruct (Hp i d Hi) as (P1 & P2 & P3).
  pose proof (blen_nonneg (fst (snd d))). pose proof (blen_nonneg (snd (snd d))).
  ands; [|unfold n; lia|done|done| |].
  - assert (E : sub (sub b 64 (8 * n)) (8 * Z.of_nat i) 8 = dirent d).
    { unfold n. rewrite (nd_dir _ _ _ _ _ _ _ N). rewrite <- (take_drop_middle _ _ _ Hi) at 1.
      rewrite dir_bytes_app, dir_bytes_cons.
      pose proof (sub_mid (dir_bytes (take i dir)) (dirent d) (dir_bytes (drop (S i) dir)) 8) as M.
      rewrite blen_dir_bytes, length_take_le in M by lia. by apply M. }
    rewrite sub_sub in E by (unfold n; lia). exact E.
  - unfold size_of in P3. rewrite sub_split in P3 by lia. apply app_inj_1 in P3 as [P3 _]; [done|].
    apply Nat2Z.inj. change (blen (sub b (fst d) (blen (fst (snd d)))) = blen (fst (snd d))).
    apply blen_sub; unfold size_of in P2; lia.
  - unfold size_of in P3. rewrite sub_split in P3 by lia. apply app_inj_1 in P3 as [_ P3]; [done|].
    apply Nat2Z.inj. change (blen (sub b (fst d) (blen (fst (snd d)))) = blen (fst (snd d))).
    apply blen_sub; unfold size_of in P2; lia.
Qed.

Lemma entry_at_eq (i : nat) d :
  dir !! i = Some d -> entry_at b (Z.of_nat i) = Val (fst d, blen (fst (snd d)), blen (snd (snd d))).
Proof.
  intros Hi. destruct (slot_facts i d Hi) as (E & Hn & P1 & P2 & _ & _). destruct node_bounds as (?&?&?&?&?).
  pose proof (blen_nonneg (fst (snd d))). pose proof (blen_nonneg (snd (snd d))). unfold size_of in P2.
  unfold entry_at, read_u16, PAGE_HEADER_BYTES, ENTRY_BYTES.
  assert (F : forall j v, 0 <= j -> j + 2 <= 8 -> sub (dirent d) j 2 = le_enc 2 v -> is_u16 v ->
     @read_le PageError 2 b (64 + Z.of_nat i * 8 + j) = Val v).
  { intros j v Hj1 Hj2 Hs Hv. rewrite read_le_in by lia. rewrite <- E, sub_sub in Hs by lia.
    replace (64 + Z.of_nat i * 8 + j) with (64 + 8 * Z.of_nat i + j) by lia. by rewrite Hs, le_dec_u16. }
  rewrite <- (Z.add_0_r (64 + Z.of_nat i * 8)) at 1.
  rewrite (F 0 (fst d)), (F 2 (blen (fst (snd d)))), (F 4 (blen (snd (snd d)))); try done; widths; lia.
Qed.

Lemma key_eq (i : nat) d : dir !! i = Some d -> node_key b (Z.of_nat i) = Val (fst (snd d)).
Proof.
  intros Hi. destruct (slot_facts i d Hi) as (_ & _ & P1 & P2 & P3 & _). destruct node_bounds as (?&?&?&?&?).
  pose proof (blen_nonneg (fst (snd d))). pose proof (blen_nonneg (snd (snd d))). unfold size_of in P2.
  unfold node_key. rewrite (entry_at_eq i d Hi). cbn [res_bind]. rewrite slice_in by lia.
  by replace (fst d + blen (fst (snd d)) - fst d) with (blen (fst (snd d))) by lia; rewrite P3.
Qed.

Lemma value_eq (i : nat) d : dir !! i = Some d -> node_value b (Z.of_nat i) = Val (snd (snd d)).
Proof.
  intros Hi. destruct (slot_facts i d Hi) as (_ & _ & P1 & P2 & _ & P3). destruct node_bounds as (?&?&?&?&?).
  pose proof (blen_nonneg (fst (snd d))). pose proof (blen_nonneg (snd (snd d))). unfold size_of in P2.
  unfold node_value. rewrite (entry_at_eq i d Hi). cbn [res_bind]. rewrite slice_in by lia.
  replace (fst d + blen (fst (snd d)) + blen (snd (snd d)) - (fst d + blen (fst (snd d))))
    with (blen (snd (snd d))) by lia. by rewrite P3.
Qed.

Lemma entries_eq : node_entries b = Val dir.*2.
Proof.
  unfold node_entries. rewrite count_eq. cbn [res_bind].
  assert (H : forall (k : nat) l, drop k dir = l ->
    entries_from b (seqZ (Z.of_nat k) (Z.of_nat (length l))) = Val l.*2).
  { intros k l. revert k. induction l as [|d l IH]; intros k Hk.
    - cbn [length]. by rewrite seqZ_nil.
    - assert (Hd : dir !! k = Some d) by (rewrite <- (Nat.add_0_r k), <- lookup_drop, Hk; done).
      cbn [length]. rewrite seqZ_cons by lia. cbn [entries_from]. rewrite (key_eq k d Hd), (value_eq k d Hd).
      cbn [res_bind]. replace (Z.succ (Z.of_nat k)) with (Z.of_nat (S k)) by lia.
      replace (Z.pred (Z.of_nat (S (length l)))) with (Z.of_nat (length l)) by lia.
      rewrite (IH (S k)); [cbn; by destruct d as [? []]|]. rewrite <- Nat.add_1_r, <- drop_drop, Hk. done. }
  unfold rangeZ. replace (n - 0) with (Z.of_nat (length dir)) by (unfold n; lia).
  apply (H 0%nat). by rewrite drop_0.
Qed.
End Reads.

(** ** Searching *)

(** Where [k] is, or belongs, in a sorted list. *)
Definition located (k : bytes) (es : list entry) (i : Z) (exact : bool) : Prop :=
  exists l1 l2, es = l1 ++ l2 /\ i = Z.of_nat (length l1) /\ below k l1 /\
    if exact then exists v l3, l2 = (k, v) :: l3 /\ above k l3 else above k l2.

Lemma sorted_lookup_lt es (i j : nat) a c :
  sorted es -> es !! i = Some a -> es !! j = Some c -> (i < j)%nat -> blt (fst a) (fst c).
Proof.
  intros Hs Ha Hc Hij. apply (StronglySorted_lookup blt es.*1 i j); auto.
  - by rewrite list_lookup_fmap, Ha.
  - by rewrite list_lookup_fmap, Hc.
Qed.

Section SearchLoop.
Context (ps : Z) (b : bytes) (id : Z) (leaf : bool) (next fe : Z) (dir : list slot).
Hypothesis N : node ps b id leaf next fe dir.
Hypothesis Hs : sorted dir.*2.
Variable needle : bytes.

Lemma search_loop_spec fuel : forall low high,
  0 <= low <= high -> high <= Z.of_nat (length dir) -> high - low <= Z.of_nat fuel ->
  (forall (j : nat) e, dir.*2 !! j = Some e -> Z.of_nat j < low -> blt (fst e) needle) ->
  (forall (j : nat) e, dir.*2 !! j = Some e -> high <= Z.of_nat j -> blt needle (fst e)) ->
  exists i exact, search_loop fuel b needle low high = Val (i, exact) /\ located needle dir.*2 i exact.
Proof.
  assert (Hsplit : forall (m : nat), (m <= length dir)%nat ->
    (forall (j : nat) e, dir.*2 !! j = Some e -> (j < m)%nat -> blt (fst e) needle) ->
    below needle (take m dir.*2)).
  { intros m Hm H. apply Forall_lookup. intros j e Hj. apply lookup_take_Some in Hj as [Hj Hlt]. by apply (H j). }
  induction fuel as [|fuel IH]; intros low high Hlo Hhi Hf Hbelow Habove; cbn [search_loop].
  - rewrite (proj2 (Z.ltb_ge _ _)) by lia. exists low, false. split; [done|].
    exists (take (Z.to_nat low) dir.*2), (drop (Z.to_nat low) dir.*2). ands.
    + by rewrite take_drop.
    + rewrite length_take, length_fmap. lia.
    + apply Hsplit; [lia|]. intros j e Hj Hlt. apply (Hbelow j); [done|lia].
    + apply Forall_lookup. intros j e Hj. rewrite lookup_drop in Hj. apply (Habove _ _ Hj). lia.
  - destruct (Z.ltb_spec low high) as [Hlt|Hge].
    2: { exists low, false. split; [done|].
      exists (take (Z.to_nat low) dir.*2), (drop (Z.to_nat low) dir.*2). ands.
      - by rewrite take_drop.
      - rewrite length_take, length_fmap. lia.
      - apply Hsplit; [lia|]. intros j e Hj Hj2. apply (Hbelow j); [done|lia].
      - apply Forall_lookup. intros j e Hj. rewrite lookup_drop in Hj. apply (Habove _ _ Hj). lia. }
    set (mid := (low + high) / 2).
    assert (Hm : low <= mid < high) by (unfold mid; split; [apply Z.div_le_lower_bound|apply Z.div_lt_upper_bound]; lia).
    destruct (lookup_lt_is_Some_2 dir (Z.to_nat mid)) as [d Hd]; [lia|].
    assert (Hd2 : dir.*2 !! Z.to_nat mid = Some (snd d)) by (by rewrite list_lookup_fmap, Hd).
    pose proof (key_eq _ _ _ _ _ _ _ N _ _ Hd) as Hk. rewrite Z2Nat.id in Hk by lia. rewrite Hk. cbn [res_bind].
    destruct (bytes_cmp (fst (snd d)) needle) eqn:Ec.
    + apply bytes_cmp_eq in Ec. exists mid, true. split; [done|].
      exists (take (Z.to_nat mid) dir.*2), (drop (Z.to_nat mid) dir.*2). ands.
      * by rewrite take_drop.
      * rewrite length_take, length_fmap. lia.
      * apply Hsplit; [lia|]. intros j e Hj Hj2. rewrite <- Ec. by apply (sorted_lookup_lt dir.*2 j (Z.to_nat mid)).
      * exists (snd (snd d)), (drop (S (Z.to_nat mid)) dir.*2). split.
        -- rewrite (drop_S _ _ _ Hd2). f_equal. rewrite <- Ec. by destruct d as [? []].
        -- apply Forall_lookup. intros j e Hj. rewrite lookup_drop in Hj. rewrite <- Ec.
           apply (sorted_lookup_lt dir.*2 (Z.to_nat mid) _ _ _ Hs Hd2 Hj). lia.
    + apply IH; try lia; [|done]. intros j e Hj Hj2. destruct (decide (j = Z.to_nat mid)) as [->|].
      * by simplify_eq.
      * eapply blt_trans; [|exact Ec]. apply (sorted_lookup_lt dir.*2 j (Z.to_nat mid) _ _ Hs Hj Hd2). lia.
    + apply bytes_cmp_gt in Ec. apply IH; try lia; [done|].
      intros j e Hj Hj2. destruct (decide (j = Z.to_nat mid)) as [->|].
      * by simplify_eq.
      * eapply blt_trans; [exact Ec|]. apply (sorted_lookup_lt dir.*2 (Z.to_nat mid) j _ _ Hs Hd2 Hj). lia.
Qed.

Lemma search_spec : exists i exact, node_search b needle = Val (i, exact) /\ located needle dir.*2 i exact.
Proof.
  unfold node_search. rewrite (count_eq _ _ _ _ _ _ _ N). cbn [res_bind]. apply search_loop_spec; try lia.
  intros j e Hj. apply lookup_lt_Some in Hj. rewrite length_fmap in Hj. lia.
Qed.
End SearchLoop.

(** ** Writing *)

(** Reads that miss every patch. *)
Ltac outside := repeat (rewrite sub_patch_disjoint; [|blia..]).

Lemma node_set_next ps b id leaf next fe dir v :
  node ps b id leaf next fe dir -> is_u64 v -> node ps (patch b 44 (le_enc 8 v)) id leaf v fe dir.
Proof.
  intros N Hv. destruct (node_bounds _ _ _ _ _ _ _ N) as (?&?&?&?&?). destruct N as [A1 A2 A3 A4 A5 A6 A7 A8 A9 A10 A11 A12 A13 A14 A15].
  split; try done; outside; try done.
  - blia.
  - apply sub_patch_same; blia.
  - tauto.
  - eapply Forall_impl; [exact A12|]. intros d (P1 & P2 & P3). pose proof (size_of_nonneg (snd d)).
    ands; try done. outside. exact P3.
Qed.

(** A payload written below the others, and [free_end] moved under it. *)
Lemma node_payload ps b id leaf next fe dir data (off := fe - blen data) :
  node ps b id leaf next fe dir -> 64 + 8 * Z.of_nat (length dir) <= off ->
  let b2 := patch (patch b off data) 38 (le_enc 2 off) in
  node ps b2 id leaf next off dir /\ sub b2 off (blen data) = data.
Proof.
  intros N Hoff b2. destruct (node_bounds _ _ _ _ _ _ _ N) as (?&?&?&?&?).
  pose proof (blen_nonneg data). assert (Hfe : off + blen data = fe) by (unfold off; lia). clearbody off.
  assert (L1 : blen (patch b off data) = ps) by (rewrite blen_patch; lia).
  destruct N as [A1 A2 A3 A4 A5 A6 A7 A8 A9 A10 A11 A12 A13 A14 A15].
  split; [split|]; try done; unfold b2.
  - rewrite blen_patch; rewrite ?blen_le_enc; lia.
  - outside. done.
  - outside. done.
  - outside. done.
  - outside. done.
  - apply sub_patch_same; blia.
  - outside. done.
  - outside. done.
  - lia.
  - eapply Forall_impl; [exact A12|]. intros d (P1 & P2 & P3). pose proof (size_of_nonneg (snd d)).
    ands; [lia|done|]. outside. exact P3.
  - lia.
  - outside. done.
  - outside. apply sub_patch_same; lia.
Qed.

(** A slot whose payload is in place, entered in the directory. *)
Lemma node_dir_insert ps b id leaf next fe l1 l2 d
    (i := Z.of_nat (length l1)) (n := Z.of_nat (length (l1 ++ l2))) :
  node ps b id leaf next fe (l1 ++ l2) ->
  64 + 8 * (n + 1) <= fe -> fe <= fst d -> fst d + size_of (snd d) <= ps - 8 ->
  sub b (fst d) (size_of (snd d)) = fst (snd d) ++ snd (snd d) ->
  Forall (clear_of d) (l1 ++ l2) -> fe + (size_of (snd d) + live_bytes (l1 ++ l2).*2) <= ps - 8 ->
  node ps (patch (patch (patch (patch b (64 + 8 * i + 8) (sub b (64 + 8 * i) (8 * (n - i))))
             (64 + 8 * i) (dirent d)) 40 (le_enc 2 (n + 1))) 36 (le_enc 2 (64 + 8 * (n + 1))))
    id leaf next fe (l1 ++ d :: l2).
Proof.
  intros N Hroom Hd1 Hd2 Hd3 Hcl Hlive. destruct (node_bounds _ _ _ _ _ _ _ N) as (?&?&?&?&?).
  destruct N as [A1 A2 A3 A4 A5 A6 A7 A8 A9 A10 A11 A12 A13 A14 A15].
  assert (Hlen : Z.of_nat (length (l1 ++ d :: l2)) = n + 1) by (unfold n; rewrite !length_app; cbn [length]; lia).
  assert (Hi : 0 <= i <= n) by (unfold i, n; rewrite length_app; lia). fold n in A7, A9, A10, A11.
  set (tail := sub b (64 + 8 * i) (8 * (n - i))).
  assert (Ht : blen tail = 8 * (n - i)) by (apply blen_sub; lia).
  set (b1 := patch b (64 + 8 * i + 8) tail). assert (L1 : blen b1 = ps) by (unfold b1; rewrite blen_patch; lia).
  set (b2 := patch b1 (64 + 8 * i) (dirent d)).
  assert (L2 : blen b2 = ps) by (unfold b2; rewrite blen_patch; rewrite ?blen_dirent; lia).
  set (b3 := patch b2 40 (le_enc 2 (n + 1))). assert (L3 : blen b3 = ps) by (unfold b3; rewrite blen_patch; rewrite ?blen_le_enc; lia).
  assert (Out : forall a m, 0 <= a -> 0 <= m -> a + m <= 36 \/ 64 + 8 * (n + 1) <= a \/ (38 <= a /\ a + m <= 40) \/ (42 <= a /\ a + m <= 64) ->
     sub (patch b3 36 (le_enc 2 (64 + 8 * (n + 1)))) a m = sub b a m).
  { intros a m Ha Hm Hor. unfold b3, b2, b1. pose proof (blen_dirent d). outside. done. }
  split; try done; rewrite ?Hlen.
  - rewrite blen_patch; rewrite ?blen_le_enc; lia.
  - rewrite Out by lia. done.
  - rewrite Out by lia. done.
  - rewrite Out by lia. done.
  - apply sub_patch_same; blia.
  - rewrite Out by lia. done.
  - outside. unfold b3. apply sub_patch_same; blia.
  - assert (Ed : sub b 64 (8 * i) = dir_bytes l1 /\ tail = dir_bytes l2).
    { replace (8 * n) with (8 * i + 8 * (n - i)) in A10 by lia. rewrite sub_split, dir_bytes_app in A10 by lia.
      apply app_inj_1 in A10; [done|]. apply Nat2Z.inj.
      change (blen (sub b 64 (8 * i)) = blen (dir_bytes l1)). rewrite blen_dir_bytes. fold i. apply blen_sub; lia. }
    destruct Ed as [E1 E2]. unfold b3. pose proof (blen_dirent d).
    replace (8 * (n + 1)) with (8 * i + (8 + 8 * (n - i))) by lia. rewrite !sub_split by lia.
    rewrite dir_bytes_app, dir_bytes_cons. f_equal; [|f_equal].
    + unfold b2, b1. outside. exact E1.
    + outside. unfold b2. apply sub_patch_same; lia.
    + rewrite <- E2. unfold b2. outside. unfold b1. apply sub_patch_same; lia.
  - lia.
  - apply Forall_app in A12 as [Q1 Q2]. apply Forall_app. split; [|constructor].
    1,3: eapply Forall_impl; [first [exact Q1|exact Q2]|]; intros d' (P1 & P2 & P3);
         pose proof (size_of_nonneg (snd d')); ands; [done|done|]; by rewrite Out by lia.
    ands; [done|done|]. pose proof (size_of_nonneg (snd d)). by rewrite Out by lia.
  - by apply apart_middle.
  - rewrite fmap_app, live_bytes_app in Hlive |- *. cbn [fmap list_fmap live_bytes foldr]. fold (live_bytes l2.*2). lia.
  - by rewrite Out by lia.
Qed.

(** A slot removed: its payload zeroed and the directory closed up. *)
Lemma node_dir_remove ps b id leaf next fe l1 l2 d
    (i := Z.of_nat (length l1)) (n := Z.of_nat (length (l1 ++ d :: l2)))
    (b1 := patch b (fst d) (zeros (size_of (snd d)))) :
  node ps b id leaf next fe (l1 ++ d :: l2) ->
  node ps (patch (patch (patch b1 (64 + 8 * i) (sub b1 (64 + 8 * i + 8) (8 * (n - 1 - i))))
             40 (le_enc 2 (n - 1))) 36 (le_enc 2 (64 + 8 * (n - 1))))
    id leaf next fe (l1 ++ l2).
Proof.
  intros N. destruct (node_bounds _ _ _ _ _ _ _ N) as (?&?&?&?&?).
  destruct N as [A1 A2 A3 A4 A5 A6 A7 A8 A9 A10 A11 A12 A13 A14 A15]. fold n in A7, A9, A10, A11.
  assert (Hlen : Z.of_nat (length (l1 ++ l2)) = n - 1) by (unfold n; rewrite !length_app; cbn [length]; lia).
  assert (Hi : 0 <= i <= n - 1) by (unfold i, n; rewrite length_app; cbn [length]; lia).
  apply apart_middle in A13 as [A13 Hcl].
  apply Forall_app in A12 as [Q1 Q2]. apply Forall_cons_1 in Q2 as [(P1 & P2 & P3) Q2].
  pose proof (size_of_nonneg (snd d)). assert (Hz : blen (zeros (size_of (snd d))) = size_of (snd d)) by (by apply blen_zeros).
  assert (L1 : blen b1 = ps) by (unfold b1; rewrite blen_patch; lia).
  set (tail := sub b1 (64 + 8 * i + 8) (8 * (n - 1 - i))).
  assert (Ht : blen tail = 8 * (n - 1 - i)) by (apply blen_sub; lia).
  set (b2 := patch b1 (64 + 8 * i) tail). assert (L2 : blen b2 = ps) by (unfold b2; rewrite blen_patch; lia).
  set (b3 := patch b2 40 (le_enc 2 (n - 1))). assert (L3 : blen b3 = ps) by (unfold b3; rewrite blen_patch; rewrite ?blen_le_enc; lia).
  assert (Out : forall a m, 0 <= a -> 0 <= m ->
     a + m <= 36 \/ (fe <= a /\ (a + m <= fst d \/ fst d + size_of (snd d) <= a)) \/ (38 <= a /\ a + m <= 40) \/ (42 <= a /\ a + m <= 64) ->
     sub (patch b3 36 (le_enc 2 (64 + 8 * (n - 1)))) a m = sub b a m).
  { intros a m Ha Hm Hor. unfold b3, b2, b1. outside. done. }
  assert (Pay : forall l, Forall (clear_of d) l ->
     Forall (fun d => fe <= fst d /\ fst d + size_of (snd d) <= ps - 8 /\
                      sub b (fst d) (size_of (snd d)) = fst (snd d) ++ snd (snd d)) l ->
     Forall (fun d => fe <= fst d /\ fst d + size_of (snd d) <= ps - 8 /\
                      sub (patch b3 36 (le_enc 2 (64 + 8 * (n - 1)))) (fst d) (size_of (snd d)) =
                      fst (snd d) ++ snd (snd d)) l).
  { intros l Hl1 Hl2. rewrite Forall_forall in *. intros d' Hd'. destruct (Hl2 d' Hd') as (R1 & R2 & R3).
    specialize (Hl1 d' Hd'). unfold clear_of in Hl1. pose proof (size_of_nonneg (snd d')).
    ands; [done|done|]. by rewrite Out by lia. }
  apply Forall_app in Hcl as [C1 C2].
  split; try done; rewrite ?Hlen.
  - rewrite blen_patch; rewrite ?blen_le_enc; lia.
  - rewrite Out by lia. done.
  - rewrite Out by lia. done.
  - rewrite Out by lia. done.
  - apply sub_patch_same; blia.
  - rewrite Out by lia. done.
  - outside. unfold b3. apply sub_patch_same; blia.
  - assert (Ed : sub b 64 (8 * i) = dir_bytes l1 /\ sub b (64 + 8 * i + 8) (8 * (n - 1 - i)) = dir_bytes l2).
    { replace (8 * n) with (8 * i + (8 + 8 * (n - 1 - i))) in A10 by lia.
      rewrite !sub_split, dir_bytes_app, dir_bytes_cons in A10 by lia.
      apply app_inj_1 in A10 as [E1 A10].
      - split; [done|]. apply app_inj_1 in A10 as [_ E2]; [done|]. apply Nat2Z.inj.
        change (blen (sub b (64 + 8 * i) 8) = blen (dirent d)). rewrite blen_dirent. apply blen_sub; lia.
      - apply Nat2Z.inj. change (blen (sub b 64 (8 * i)) = blen (dir_bytes l1)). rewrite blen_dir_bytes. fold i.
        apply blen_sub; lia. }
    destruct Ed as [E1 E2]. unfold b3.
    replace (8 * (n - 1)) with (8 * i + 8 * (n - 1 - i)) by lia. rewrite sub_split by lia.
    rewrite dir_bytes_app. f_equal.
    + unfold b2, b1. outside. exact E1.
    + outside. unfold b2. rewrite sub_patch_same by lia. unfold tail, b1. outside. exact E2.
  - lia.
  - apply Forall_app. split; by apply Pay.
  - rewrite fmap_app, live_bytes_app in A14 |- *. cbn [fmap list_fmap live_bytes foldr] in A14.
    fold (live_bytes l2.*2) in A14. lia.
  - by rewrite Out by lia.
Qed.

(** A value replaced by one of the same length. *)
Lemma node_overwrite ps b id leaf next fe l1 l2 off k v v' :
  node ps b id leaf next fe (l1 ++ (off, (k, v)) :: l2) -> blen v' = blen v ->
  node ps (patch b (off + blen k) v') id leaf next fe (l1 ++ (off, (k, v')) :: l2).
Proof.
  intros N Hv. destruct (node_bounds _ _ _ _ _ _ _ N) as (?&?&?&?&?).
  destruct N as [A1 A2 A3 A4 A5 A6 A7 A8 A9 A10 A11 A12 A13 A14 A15].
  assert (Hlen : length (l1 ++ (off, (k, v')) :: l2) = length (l1 ++ (off, (k, v)) :: l2)) by (rewrite !length_app; done).
  pose proof A13 as [A13' Hcl]%apart_middle.
  apply Forall_app in A12 as [Q1 Q2]. apply Forall_cons_1 in Q2 as [(P1 & P2 & P3) Q2].
  assert (Hkv : size_of (k, v) = blen k + blen v) by done.
  assert (Hkv' : size_of (k, v') = blen k + blen v) by (unfold size_of; cbn; lia).
  cbn [fst snd] in *. pose proof (blen_nonneg k). pose proof (blen_nonneg v). rewrite Hkv in P2, P3.
  assert (Pay : forall l, Forall (clear_of (off, (k, v))) l ->
     Forall (fun d => fe <= fst d /\ fst d + size_of (snd d) <= ps - 8 /\
                      sub b (fst d) (size_of (snd d)) = fst (snd d) ++ snd (snd d)) l ->
     Forall (fun d => fe <= fst d /\ fst d + size_of (snd d) <= ps - 8 /\
                      sub (patch b (off + blen k) v') (fst d) (size_of (snd d)) = fst (snd d) ++ snd (snd d)) l).
  { intros l Hl1 Hl2. rewrite Forall_forall in *. intros d' Hd'. destruct (Hl2 d' Hd') as (R1 & R2 & R3).
    specialize (Hl1 d' Hd'). unfold clear_of in Hl1. cbn [fst snd] in Hl1. rewrite Hkv in Hl1.
    pose proof (size_of_nonneg (snd d')). ands; [done|done|]. outside. exact R3. }
  apply Forall_app in Hcl as [C1 C2].
  split; try done; rewrite ?Hlen; outside; try done.
  - blia.
  - rewrite A10. rewrite !dir_bytes_app, !dir_bytes_cons. unfold dirent. cbn [fst snd]. by rewrite Hv.
  - apply Forall_app. split; [by apply Pay|]. constructor; [|by apply Pay]. cbn [fst snd]. rewrite Hkv'.
    ands; [done|lia|]. rewrite sub_split in P3 |- * by lia. f_equal.
    + outside. apply app_inj_1 in P3 as [P3 _]; [done|]. apply Nat2Z.inj.
      change (blen (sub b off (blen k)) = blen k). apply blen_sub; lia.
    + apply sub_patch_same; lia.
  - apply apart_middle. split; [done|]. apply Forall_app. split; (eapply Forall_impl; [first [exact C1|exact C2]|]);
      intros d'; unfold clear_of; cbn [fst snd]; by rewrite Hkv, Hkv'.
  - rewrite fmap_app, live_bytes_app in A14 |- *. cbn [fmap list_fmap live_bytes foldr snd] in A14 |- *.
    by rewrite Hkv', <- Hkv.
Qed.

(** A fresh node. *)
Lemma node_init_spec ps b id leaf :
  512 <= ps <= 65536 -> blen b = ps -> is_u64 id ->
  exists b', node_init id ps leaf b = (Val tt, b') /\ node ps b' id leaf 0 (ps - 8) [].
Proof.
  intros Hps Hb Hid. unfold node_init, st_bind, modify. cbv beta iota.
  assert (Hz : blen (zeros (blen b)) = ps) by (rewrite blen_zeros; lia).
  rewrite encode_patch by lia. eexists. split; [reflexivity|].
  set (h := new_header id (if leaf then BTreeLeaf else BTreeInterior) ps).
  pose proof (blen_header_bytes h) as Hh.
  assert (F : forall a n, 0 <= a -> 0 <= n -> a + n <= 64 ->
    sub (patch (zeros (blen b)) 0 (header_bytes h)) a n = sub (header_bytes h) a n).
  { intros a n Ha Hn Hle. rewrite sub_patch_within by lia. f_equal. lia. }
  split; try done; rewrite ?F by lia; try reflexivity.
  - rewrite blen_patch; lia.
  - change (sub (header_bytes h) 38 2) with (le_enc 2 (free_end h)). unfold h, new_header. cbn [free_end].
    unfold PAGE_TRAILER_BYTES. rewrite Z.mod_small by (widths; lia). done.
  - cbn. lia.
  - cbn. lia.
Qed.

(** ** Operations *)

Lemma write_entry_eq i off kl vl b :
  0 <= i -> 64 + i * 8 + 8 <= blen b ->
  write_entry i off kl vl b =
  (Val tt, patch b (64 + 8 * i) (le_enc 2 off ++ le_enc 2 kl ++ le_enc 2 vl ++ le_enc 2 0)).
Proof.
  intros Hi Hb. unfold write_entry, node_write_u16, PAGE_HEADER_BYTES, ENTRY_BYTES, st_bind.
  replace (64 + 8 * i) with (64 + i * 8) by lia.
  rewrite copy_at_in by blens. rewrite !copy_at_chain by blens. by rewrite <- !app_assoc.
Qed.

Lemma located_fresh k es i : located k es i true -> exists v, kv_get k es = Some v.
Proof.
  intros (l1 & l2 & -> & _ & Hb & v & l3 & -> & _). exists v. by apply kv_get_middle.
Qed.

Lemma located_absent k es i : located k es i false -> kv_get k es = None.
Proof.
  intros (l1 & l2 & -> & _ & Hb & Ha). apply kv_get_absent. apply Forall_app.
  split; [by apply below_ne|by apply above_ne].
Qed.

(** Split a directory where its entries split. *)
Lemma fmap_snd_split (dir : list slot) l1 l2 :
  dir.*2 = l1 ++ l2 -> exists d1 d2, dir = d1 ++ d2 /\ d1.*2 = l1 /\ d2.*2 = l2.
Proof. intros (d1 & d2 & -> & -> & ->)%fmap_app_inv. eauto. Qed.

Section Operations.
Context (ps : Z) (b : bytes) (id : Z) (leaf : bool) (next fe : Z) (dir : list slot).
Hypothesis N : node ps b id leaf next fe dir.
Hypothesis Hs : sorted dir.*2.
Let n := Z.of_nat (length dir).

Lemma add_entry_spec k v :
  kv_get k dir.*2 = None -> required_space (k, v) <= fe - (64 + 8 * n) ->
  exists b' dir', add_entry k v b = (Val true, b') /\
    node ps b' id leaf next (fe - size_of (k, v)) dir' /\
    dir'.*2 = kv_insert k v dir.*2 /\ length dir' = S (length dir).
Proof.
  intros Hk Hroom. destruct (node_bounds _ _ _ _ _ _ _ N) as (B0&B1&?&?&?). fold n in B0, B1.
  unfold required_space, ENTRY_BYTES in Hroom. cbn [fst snd] in Hroom.
  pose proof (blen_nonneg k). pose proof (blen_nonneg v).
  assert (Hkv : blen (k ++ v) = size_of (k, v)) by (rewrite blen_app; done).
  assert (Hsz : size_of (k, v) = blen k + blen v) by done.
  unfold add_entry. unfold st_bind at 1, reads at 1. rewrite (node_free_end_eq _ _ _ _ _ _ _ N). cbv beta iota zeta.
  set (off := fe - (blen k + blen v)).
  destruct (node_payload ps b id leaf next fe dir (k ++ v) N) as [N2 Hp]; [fold n; lia|].
  rewrite Hkv, Hsz in N2, Hp. fold off in N2, Hp. set (b2 := patch _ 38 _) in *.
  unfold st_bind at 1. rewrite copy_at_in by lia. cbv beta iota.
  unfold st_bind at 1. rewrite copy_at_chain by lia. cbv beta iota.
  unfold st_bind at 1, node_set_free_end, node_write_u16. rewrite copy_at_in by blia. cbv beta iota. fold b2.
  unfold st_bind at 1, reads at 1. rewrite (count_eq _ _ _ _ _ _ _ N2). fold n. cbv beta iota.
  destruct (search_spec _ _ _ _ _ _ _ N2 Hs k) as (i & exact & Es & Hloc).
  unfold st_bind at 1, reads at 1. rewrite Es. cbv beta iota zeta.
  destruct exact; [destruct (located_fresh _ _ _ Hloc); congruence|].
  destruct Hloc as (l1 & l2 & El & -> & Hbl & Hab).
  destruct (fmap_snd_split dir l1 l2 El) as (d1 & d2 & Ed & E1 & E2).
  assert (Hi : Z.of_nat (length l1) = Z.of_nat (length d1)) by (rewrite <- E1, length_fmap; done).
  rewrite Hi. assert (Hn : n = Z.of_nat (length (d1 ++ d2))) by (unfold n; by rewrite Ed).
  assert (Hle : 0 <= Z.of_nat (length d1) <= n) by (rewrite Hn, length_app; lia).
  pose proof (nd_len _ _ _ _ _ _ _ N2) as L2.
  unfold PAGE_HEADER_BYTES, ENTRY_BYTES, copy_within.
  unfold st_bind at 1 2, reads at 1. rewrite slice_in by lia. cbv beta iota.
  replace (64 + n * 8 - (64 + Z.of_nat (length d1) * 8)) with (8 * (n - Z.of_nat (length d1))) by lia.
  replace (64 + Z.of_nat (length d1) * 8) with (64 + 8 * Z.of_nat (length d1)) by lia.
  set (tail := sub b2 _ _). assert (Ht : blen tail = 8 * (n - Z.of_nat (length d1))) by (apply blen_sub; lia).
  rewrite copy_at_in by lia. cbv beta iota.
  set (b3 := patch b2 _ tail). assert (L3 : blen b3 = ps) by (unfold b3; rewrite blen_patch; lia).
  unfold st_bind at 1. rewrite write_entry_eq by lia. cbv beta iota.
  set (d := (off, (k, v)) : slot). change (le_enc 2 off ++ _) with (dirent d).
  set (b4 := patch b3 _ (dirent d)).
  assert (L4 : blen b4 = ps) by (unfold b4; rewrite blen_patch; rewrite ?blen_dirent; lia).
  unfold set_count, node_set_free_start, node_write_u16. unfold st_bind at 1. rewrite copy_at_in by blia. cbv beta iota.
  unfold st_bind. rewrite copy_at_in by blia. unfold st_ret.
  replace (64 + (n + 1) * 8) with (64 + 8 * (n + 1)) by lia.
  eexists _, (d1 ++ d :: d2). split; [reflexivity|]. rewrite Ed in N2.
  pose proof (node_dir_insert ps b2 id leaf next off d1 d2 d N2) as I. rewrite <- Hn in I. ands.
  - replace (fe - size_of (k, v)) with off by (unfold off; lia). apply I.
    + unfold off. lia.
    + done.
    + unfold d. cbn [fst snd]. rewrite Hsz. unfold off. lia.
    + unfold d. cbn [fst snd]. rewrite Hsz. exact Hp.
    + pose proof (nd_pay _ _ _ _ _ _ _ N) as Pay. rewrite Ed in Pay. eapply Forall_impl; [exact Pay|].
      intros d' (P1 & _). left. unfold d. cbn [fst snd]. rewrite Hsz. unfold off. lia.
    + pose proof (nd_live _ _ _ _ _ _ _ N) as Lv. rewrite Ed in Lv. unfold d. cbn [snd]. rewrite Hsz. unfold off. lia.
  - rewrite fmap_app. cbn [fmap list_fmap snd]. rewrite E1, E2, El. symmetry. by apply kv_insert_fresh.
  - rewrite Ed, !length_app. cbn [length]. lia.
Qed.

Lemma remove_at_spec d1 d d2 :
  dir = d1 ++ d :: d2 ->
  exists b', remove_at (Z.of_nat (length d1)) b = (Val tt, b') /\ node ps b' id leaf next fe (d1 ++ d2).
Proof.
  intros Ed. destruct (node_bounds _ _ _ _ _ _ _ N) as (B0&B1&?&?&?). fold n in B0, B1.
  assert (Hd : dir !! length d1 = Some d) by (rewrite Ed; by apply list_lookup_middle).
  destruct (slot_facts _ _ _ _ _ _ _ N _ _ Hd) as (_ & Hi & P1 & P2 & _ & _). fold n in Hi.
  pose proof (size_of_nonneg (snd d)).
  unfold remove_at. unfold st_bind at 1, reads at 1. rewrite (count_eq _ _ _ _ _ _ _ N). fold n. cbv beta iota.
  unfold st_bind at 1, reads at 1. rewrite (entry_at_eq _ _ _ _ _ _ _ N _ _ Hd). cbv beta iota zeta.
  replace (fst d + blen (fst (snd d)) + blen (snd (snd d))) with (fst d + size_of (snd d)) by (unfold size_of; lia).
  unfold st_bind at 1. rewrite fill0_in by lia. cbv beta iota.
  replace (fst d + size_of (snd d) - fst d) with (size_of (snd d)) by lia.
  set (b1 := patch b (fst d) (zeros (size_of (snd d)))).
  assert (L1 : blen b1 = ps) by (unfold b1; rewrite blen_patch; rewrite ?blen_zeros; lia).
  set (i := Z.of_nat (length d1)) in *.
  unfold PAGE_HEADER_BYTES, ENTRY_BYTES, copy_within.
  unfold st_bind at 1 2, reads at 1. rewrite slice_in by lia. cbv beta iota.
  replace (64 + n * 8 - (64 + (i + 1) * 8)) with (8 * (n - 1 - i)) by lia.
  replace (64 + (i + 1) * 8 - 8) with (64 + 8 * i) by lia.
  replace (64 + (i + 1) * 8) with (64 + 8 * i + 8) by lia.
  set (tail := sub b1 _ _). assert (Ht : blen tail = 8 * (n - 1 - i)) by (apply blen_sub; lia).
  rewrite copy_at_in by lia. cbv beta iota.
  unfold set_count, node_set_free_start, node_write_u16. unfold st_bind at 1. rewrite copy_at_in by blia. cbv beta iota.
  rewrite copy_at_in by blia. replace (64 + (n - 1) * 8) with (64 + 8 * (n - 1)) by lia.
  eexists. split; [reflexivity|]. pose proof N as N'. rewrite Ed in N'.
  pose proof (node_dir_remove ps b id leaf next fe d1 d2 d N') as R. rewrite <- Ed in R. exact R.
Qed.
End Operations.

(** The part of [insert] that places a new key. *)
Lemma place_spec ps b id leaf next fe dir k v (n := Z.of_nat (length dir)) :
  node ps b id leaf next fe dir -> sorted dir.*2 -> kv_get k dir.*2 = None ->
  let place := do fr <- reads node_free_space ;;
               if fr <? required_space (k, v) then st_ret false else add_entry k v in
  if decide (required_space (k, v) <= fe - (64 + 8 * n))
  then exists b' dir', place b = (Val true, b') /\ node ps b' id leaf next (fe - size_of (k, v)) dir' /\
         dir'.*2 = kv_insert k v dir.*2 /\ length dir' = S (length dir)
  else place b = (Val false, b).
Proof.
  intros N Hs Hk place. unfold place, st_bind, reads. rewrite (node_free_space_eq _ _ _ _ _ _ _ N). fold n. cbv beta iota.
  destruct (decide _) as [Hle|Hgt].
  - rewrite (proj2 (Z.ltb_ge _ _)) by lia. by apply (add_entry_spec ps b id leaf next fe dir).
  - by rewrite (proj2 (Z.ltb_lt _ _)) by lia.
Qed.

(** [insert] puts the entry in the sorted list, or leaves the node alone. *)
Lemma node_insert_spec ps b id leaf next fe dir k v :
  node ps b id leaf next fe dir -> sorted dir.*2 ->
  (exists b' fe' dir', node_insert k v b = (Val true, b') /\ node ps b' id leaf next fe' dir' /\
     dir'.*2 = kv_insert k v dir.*2) \/ node_insert k v b = (Val false, b).
Proof.
  intros N Hs. remember (node_insert k v b) as r eqn:Er. unfold node_insert in Er. cbv zeta in Er.
  destruct (search_spec _ _ _ _ _ _ _ N Hs k) as (i & exact & Es & Hloc).
  unfold st_bind at 1, reads at 1 in Er. rewrite Es in Er. cbv beta iota in Er. destruct exact.
  - destruct Hloc as (l1 & l2 & El & -> & Hbl & v0 & l3 & -> & Hab).
    destruct (fmap_snd_split dir l1 _ El) as (d1 & d2 & Ed & E1 & E2).
    destruct d2 as [|[off e] d2]; [done|]. cbn in E2. injection E2 as -> E2.
    assert (Hi : Z.of_nat (length l1) = Z.of_nat (length d1)) by (rewrite <- E1, length_fmap; done). rewrite Hi in Er.
    assert (Hd : dir !! length d1 = Some (off, (k, v0))) by (rewrite Ed; by apply list_lookup_middle).
    destruct (slot_facts _ _ _ _ _ _ _ N _ _ Hd) as (_ & _ & P1 & P2 & _ & _). cbn [fst snd] in P1, P2.
    destruct (node_bounds _ _ _ _ _ _ _ N) as (?&?&?&?&?).
    assert (Hsz : size_of (k, v0) = blen k + blen v0) by done. pose proof (blen_nonneg k). pose proof (blen_nonneg v0).
    unfold st_bind at 1, reads at 1 in Er. rewrite (entry_at_eq _ _ _ _ _ _ _ N _ _ Hd) in Er. cbn [fst snd] in Er.
    cbv beta iota in Er. destruct (Z.eqb_spec (blen v0) (blen v)) as [Ev|Ev].
    + left. unfold st_bind in Er. rewrite copy_at_in in Er by lia. eexists _, fe, (d1 ++ (off, (k, v)) :: d2).
      split; [exact Er|]. split.
      * apply node_overwrite with (v := v0); [by rewrite <- Ed|done].
      * rewrite fmap_app. cbn [fmap list_fmap snd]. rewrite E1, E2, El. symmetry. by apply kv_insert_replace.
    + unfold st_bind at 1, reads at 1 in Er. rewrite (node_free_space_eq _ _ _ _ _ _ _ N) in Er. cbv beta iota in Er.
      destruct (Z.ltb_spec (fe - (64 + 8 * Z.of_nat (length dir)) + ENTRY_BYTES) (required_space (k, v))) as [Hlt|Hge];
        [by right|]. left.
      destruct (remove_at_spec _ _ _ _ _ _ _ N d1 _ d2 Ed) as (b1 & E1' & N1). unfold st_bind at 1 in Er. rewrite E1' in Er.
      assert (Hs1 : sorted (d1 ++ d2).*2 /\ below k d1.*2 /\ above k d2.*2).
      { rewrite Ed, !fmap_app in Hs. cbn [fmap list_fmap snd] in Hs. rewrite fmap_app. by apply sorted_middle in Hs. }
      destruct Hs1 as (Hs1 & Hb1 & Ha1).
      assert (Hk : kv_get k (d1 ++ d2).*2 = None).
      { apply kv_get_absent. rewrite fmap_app. apply Forall_app. split; [by apply below_ne|by apply above_ne]. }
      pose proof (place_spec ps b1 id leaf next fe (d1 ++ d2) k v N1 Hs1 Hk) as P. cbv zeta in P.
      rewrite decide_True in P.
      2: { unfold ENTRY_BYTES in Hge. rewrite Ed in Hge. rewrite !length_app in *. cbn [length] in Hge. lia. }
      destruct P as (b' & dir' & P & N' & E' & _). eexists b', _, dir'. split; [by rewrite Er, <- P|]. split; [exact N'|].
      rewrite E', fmap_app, Ed, fmap_app. cbn [fmap list_fmap snd]. rewrite kv_insert_replace by done. by apply kv_insert_fresh.
  - pose proof (place_spec ps b id leaf next fe dir k v N Hs (located_absent _ _ _ Hloc)) as P. cbv zeta in P.
    destruct (decide _); [|right; by rewrite Er, <- P]. destruct P as (b' & dir' & P & N' & E' & _).
    left. eexists b', _, dir'. split; [by rewrite Er, <- P|done].
Qed.

(** [remove] takes the key out of the list. *)
Lemma node_remove_spec ps b id leaf next fe dir k :
  node ps b id leaf next fe dir -> sorted dir.*2 ->
  exists b' dir', node_remove k b = (Val (bool_decide (is_Some (kv_get k dir.*2))), b') /\
    node ps b' id leaf next fe dir' /\ dir'.*2 = kv_remove k dir.*2.
Proof.
  intros N Hs. unfold node_remove.
  destruct (search_spec _ _ _ _ _ _ _ N Hs k) as (i & exact & Es & Hloc).
  unfold st_bind at 1, reads at 1. rewrite Es. cbv beta iota. destruct exact.
  - destruct (located_fresh _ _ _ Hloc) as [v Hv]. rewrite Hv, bool_decide_eq_true_2 by eauto.
    destruct Hloc as (l1 & l2 & El & -> & Hbl & v0 & l3 & -> & Hab).
    destruct (fmap_snd_split dir l1 _ El) as (d1 & d2 & Ed & E1 & E2).
    destruct d2 as [|[off e] d2]; [done|]. cbn in E2. injection E2 as -> E2.
    assert (Hi : Z.of_nat (length l1) = Z.of_nat (length d1)) by (rewrite <- E1, length_fmap; done). rewrite Hi.
    destruct (remove_at_spec _ _ _ _ _ _ _ N d1 _ d2 Ed) as (b1 & Er & N1). unfold st_bind. rewrite Er.
    exists b1, (d1 ++ d2). ands; [done|done|]. rewrite fmap_app, El, E1, E2. symmetry. by apply kv_remove_middle.
  - rewrite (located_absent _ _ _ Hloc), bool_decide_eq_false_2 by (by intros []).
    exists b, dir. ands; [done|done|]. symmetry. apply kv_remove_absent.
    destruct Hloc as (l1 & l2 & -> & _ & Hb & Ha). apply Forall_app. split; [by apply below_ne|by apply above_ne].
Qed.
