(* ===== verification/BTreeSplit.v ===== *)
(** * B+ tree nodes: rebuilding, splitting and routing

    The remaining node routines of [btree.rs]: [rebuild] lays any sorted list
    that fits into a page; [byte_split] finds a boundary with two halves that
    fit whenever the entries respect the size limit of [insert]; [child_for]
    routes a key to the child whose range holds it. *)

From stdpp Require Import base tactics list numbers sorting.
From Stdlib Require Import ZArith Lia.
From S2P Require Import Prelude Search Bytes Errors PageFormat Keys BTreeNode BTreeNodeSpec.
Local Open Scope Z_scope.
Local Open Scope bic_scope.

(** ** Rebuilding *)

Lemma required_total_app l1 l2 : required_total (l1 ++ l2) = required_total l1 + required_total l2.
Proof. rewrite !required_total_live, live_bytes_app, length_app. lia. Qed.
Lemma required_total_cons e l : required_total (e :: l) = required_space e + required_total l.
Proof. done. Qed.
Lemma required_space_pos e : 8 <= required_space e.
Proof. pose proof (size_of_nonneg e). unfold required_space, size_of, ENTRY_BYTES in *. lia. Qed.
Lemma required_total_nonneg l : 0 <= required_total l.
Proof. rewrite required_total_live. pose proof (live_bytes_nonneg l). lia. Qed.

Lemma usable_eq ps : 512 <= ps -> usable_bytes ps = ps - 72.
Proof. intros. unfold usable_bytes, PAGE_HEADER_BYTES, PAGE_TRAILER_BYTES, sat_sub. lia. Qed.

(** The loop of [rebuild]: keys come in order, so each is new and goes last. *)
Lemma insert_all_spec err es : forall ps b id leaf next fe dir,
  node ps b id leaf next fe dir -> sorted (dir.*2 ++ es) ->
  required_total es <= fe - (64 + 8 * Z.of_nat (length dir)) ->
  exists b' fe' dir', insert_all err es b = (Val tt, b') /\ node ps b' id leaf next fe' dir' /\ dir'.*2 = dir.*2 ++ es.
Proof.
  induction es as [|[k v] es IH]; intros ps b id leaf next fe dir N Hs Hfit.
  { exists b, fe, dir. by rewrite app_nil_r. }
  rewrite required_total_cons in Hfit. pose proof (required_total_nonneg es).
  assert (Hb : below k dir.*2 /\ sorted dir.*2).
  { apply sorted_middle in Hs as (Hs & Hb & _). split; [done|]. by apply sorted_app in Hs as (Hs & _ & _). }
  destruct Hb as [Hb Hs0].
  cbn [insert_all]. unfold st_bind.
  assert (Ei : exists b' dir', node_insert k v b = (Val true, b') /\
     node ps b' id leaf next (fe - size_of (k, v)) dir' /\ dir'.*2 = dir.*2 ++ [(k, v)] /\ length dir' = S (length dir)).
  { destruct (search_spec _ _ _ _ _ _ _ N Hs0 k) as (i & exact & Es & Hloc).
    assert (Hk : kv_get k dir.*2 = None) by (by apply kv_get_absent, below_ne).
    unfold node_insert, st_bind at 1, reads at 1. rewrite Es. cbv zeta beta iota. destruct exact.
    { destruct (located_fresh _ _ _ Hloc) as [? Hv]. congruence. }
    pose proof (place_spec ps b id leaf next fe dir k v N Hs0 Hk) as P. cbv zeta in P. rewrite decide_True in P by lia.
    destruct P as (b' & dir' & P & N' & E' & L'). exists b', dir'. ands; try done.
    rewrite E'. pose proof (kv_insert_fresh k v dir.*2 [] Hb (Forall_nil_2 _)) as F. by rewrite app_nil_r in F. }
  destruct Ei as (b' & dir' & -> & N' & E' & L').
  destruct (IH ps b' id leaf next (fe - size_of (k, v)) dir' N') as (b2 & fe2 & d2 & -> & N2 & E2).
  - by rewrite E', <- app_assoc.
  - rewrite L'. unfold required_space, size_of, ENTRY_BYTES in *. cbn [fst snd] in *. lia.
  - exists b2, fe2, d2. by rewrite E2, E', <- app_assoc.
Qed.

(** Clearing the payload area and resetting the header fields. *)
Lemma node_clear ps b id leaf next fe dir :
  node ps b id leaf next fe dir ->
  let b1 := patch b 64 (zeros (ps - 8 - 64)) in
  let b2 := patch (patch (patch b1 40 (le_enc 2 0)) 36 (le_enc 2 64)) 38 (le_enc 2 (ps - 8)) in
  node ps (patch b2 44 (le_enc 8 next)) id leaf next (ps - 8) [].
Proof.
  intros N b1 b2. destruct (node_bounds _ _ _ _ _ _ _ N) as (?&?&?&?&?).
  destruct N as [A1 A2 A3 A4 A5 A6 A7 A8 A9 A10 A11 A12 A13 A14 A15].
  assert (L1 : blen b1 = ps) by (unfold b1; rewrite blen_patch; blia).
  assert (F : forall a n, 0 <= a -> 0 <= n -> a + n <= 64 -> sub b1 a n = sub b a n).
  { intros a n Ha Hn Hle. unfold b1. by rewrite sub_patch_disjoint by blia. }
  clearbody b1. unfold b2.
  split; try done; outside; rewrite ?F by lia; try done; try (apply sub_patch_same; blia).
  - blia.
  - cbn [length]. lia.
  - cbn. lia.
Qed.

Lemma rebuild_spec ps b id leaf next fe dir es :
  node ps b id leaf next fe dir -> sorted es -> required_total es <= usable_bytes ps ->
  exists b' fe' dir', rebuild es ps b = (Val tt, b') /\ node ps b' id leaf next fe' dir' /\ dir'.*2 = es.
Proof.
  intros N Hs Hfit. destruct (node_bounds _ _ _ _ _ _ _ N) as (?&?&?&?&?). pose proof (nd_ps _ _ _ _ _ _ _ N).
  unfold rebuild. cbv zeta. unfold st_bind at 1, reads at 1. rewrite (node_page_id_eq _ _ _ _ _ _ _ N).
  rewrite (proj2 (Z.ltb_ge _ _)) by lia. unfold st_bind at 1, reads at 1. rewrite (next_eq _ _ _ _ _ _ _ N).
  unfold PAGE_HEADER_BYTES, PAGE_TRAILER_BYTES, set_count, node_set_free_start, node_set_free_end, set_next_page, node_write_u16.
  unfold st_bind at 1. rewrite fill0_in by lia.
  assert (blen (zeros (ps - 8 - 64)) = ps - 72) by (rewrite blen_zeros; lia).
  do 4 (unfold st_bind at 1; rewrite copy_at_in by blia).
  pose proof (node_clear _ _ _ _ _ _ _ N) as C. cbv zeta in C.
  rewrite usable_eq in Hfit by lia.
  destruct (insert_all_spec (ValueTooLarge id (required_total es) (usable_bytes ps)) es _ _ _ _ _ _ [] C)
    as (b' & fe' & dir' & E & N' & E'); [done|cbn [length]; lia|].
  exists b', fe', dir'. by rewrite E.
Qed.

(** ** Splitting *)

(** A boundary both halves of which fit. *)
Definition good_split (es : list entry) (usable : Z) (interior : bool) (i : nat) : Prop :=
  (0 < i)%nat /\ (i + (if interior then 1 else 0) < length es)%nat /\
  required_total (take i es) <= usable /\
  required_total (drop (i + (if interior then 1 else 0)) es) <= usable.

Lemma split_loop_spec es usable interior post : forall pre best,
  es = pre ++ post ->
  (forall i m, best = Some (i, m) -> exists j : nat, i = Z.of_nat j /\ good_split es usable interior j) ->
  (forall i m, split_loop (Z.of_nat (length es)) (required_total es) usable interior
       (Z.of_nat (length pre)) (required_total pre) best post = Some (i, m) ->
     exists j : nat, i = Z.of_nat j /\ good_split es usable interior j) /\
  ((exists j : nat, (length pre <= j)%nat /\ good_split es usable interior j) \/ is_Some best ->
   is_Some (split_loop (Z.of_nat (length es)) (required_total es) usable interior
       (Z.of_nat (length pre)) (required_total pre) best post)).
Proof.
  induction post as [|e post IH]; intros pre best Ees Hbest.
  { cbn. split; [done|]. intros [(j & Hj & Hg)|?]; [|done]. exfalso.
    destruct Hg as (_ & Hlt & _). rewrite Ees, app_nil_r in Hlt. lia. }
  cbn [split_loop].
  set (right := required_total es - required_total pre - (if interior then required_space e else 0)).
  assert (Er : right = required_total (drop (length pre + (if interior then 1 else 0)) es)).
  { unfold right. rewrite Ees, required_total_app, required_total_cons.
    rewrite <- drop_drop, drop_app_length. destruct interior; cbn [skipn]; rewrite ?drop_0, ?required_total_cons; lia. }
  assert (El : required_total pre = required_total (take (length pre) es)) by (by rewrite Ees, take_app_length).
  assert (Hlen : length es = (length pre + S (length post))%nat) by (by rewrite Ees, length_app).
  set (cond := (_ && _)%bool).
  assert (Hc : cond = true <-> good_split es usable interior (length pre)).
  { unfold cond, good_split. rewrite !andb_true_iff, orb_true_iff, negb_true_iff, !Z.ltb_lt, !Z.leb_le, <- El, <- Er.
    destruct interior; split; intros; ands; try lia; try tauto; destruct_and?; try (left; done); try (right; lia). }
  clearbody cond. clearbody right.
  set (best' := if cond then _ else best).
  assert (Hb1 : forall i m, best' = Some (i, m) -> exists j : nat, i = Z.of_nat j /\ good_split es usable interior j).
  { intros i m. unfold best'. destruct cond eqn:Ec; [|apply Hbest].
    assert (G : good_split es usable interior (length pre)) by (by apply Hc).
    destruct best as [[i0 m0]|]; cbv beta iota zeta; [destruct (_ <? _)|]; intros ?; simplify_eq; first [by eapply Hbest | eauto]. }
  assert (Hb2 : is_Some best \/ good_split es usable interior (length pre) -> is_Some best').
  { unfold best'. intros [Hs|Hg].
    - destruct cond; [|done]. destruct best as [[]|]; cbv beta iota zeta; [destruct (_ <? _); eauto|eauto].
    - apply Hc in Hg. rewrite Hg. destruct best as [[]|]; cbv beta iota zeta; [destruct (_ <? _); eauto|eauto]. }
  destruct (IH (pre ++ [e]) best') as [H1 H2]; [by rewrite <- app_assoc|done|].
  rewrite length_app, required_total_app, required_total_cons in H1, H2. cbn [length required_total foldr] in H1, H2.
  replace (Z.of_nat (length pre + 1)) with (Z.of_nat (length pre) + 1) in H1, H2 by lia. rewrite Z.add_0_r in H1, H2.
  split; [exact H1|]. intros Hex. apply H2. destruct Hex as [(j & Hj & Hg)|Hs]; [|auto].
  destruct (decide (j = length pre)) as [->|]; [auto|]. left. exists j. split; [lia|done].
Qed.

(** The entry at which the running total passes the usable space. *)
Lemma crossing usable es : 0 <= usable < required_total es ->
  exists pre e post, es = pre ++ e :: post /\ required_total pre <= usable /\
    usable < required_total pre + required_space e.
Proof.
  intros Hu. assert (H : forall pre post, es = pre ++ post -> required_total pre <= usable ->
    exists pre e post, es = pre ++ e :: post /\ required_total pre <= usable /\ usable < required_total pre + required_space e).
  { intros pre post. revert pre. induction post as [|e post IH]; intros pre Ees Hpre.
    - rewrite app_nil_r in Ees. subst. lia.
    - destruct (decide (required_total pre + required_space e <= usable)).
      + apply (IH (pre ++ [e])); [by rewrite <- app_assoc|]. rewrite required_total_app, required_total_cons. cbn. lia.
      + exists pre, e, post. ands; [done|done|lia]. }
  apply (H [] es eq_refl). cbn. lia.
Qed.

(** Entries of at most half a page, one too many for the page: there is a
    boundary, and the loop finds one. *)
Lemma byte_split_spec es usable interior :
  Forall (fun e => 2 * required_space e <= usable) es ->
  usable < required_total es -> 2 * required_total es <= 3 * usable ->
  exists j, byte_split es usable interior = Val (Z.of_nat j) /\ good_split es usable interior j.
Proof.
  intros Hall Hbig Hsmall.
  assert (G : exists j, good_split es usable interior j).
  { destruct (crossing usable es) as (pre & e & post & -> & H1 & H2); [lia|].
    rewrite required_total_app, required_total_cons in *. pose proof (required_space_pos e).
    pose proof (required_total_nonneg post).
    apply Forall_app in Hall as [Hpre [He Hpost]%Forall_cons].
    assert (pre <> []) by (intros ->; cbn in *; lia).
    destruct (exists_last H3) as (pre' & e' & ->).
    rewrite Forall_app, Forall_singleton in Hpre. destruct Hpre as [_ He']. pose proof (required_space_pos e').
    destruct interior.
    - destruct post as [|p post].
      + exists (length pre'). unfold good_split. rewrite <- app_assoc, take_app_length, <- drop_drop, drop_app_length.
        cbn [app skipn]. rewrite ?drop_0. rewrite ?required_total_app, ?required_total_cons in *. cbn [required_total foldr] in *.
        pose proof (required_total_nonneg pre'). ands; [|rewrite length_app; cbn; lia|lia|lia].
        destruct pre'; [cbn in *; lia|cbn; lia].
      + exists (length (pre' ++ [e'])). unfold good_split. rewrite take_app_length, <- drop_drop, drop_app_length.
        cbn [skipn]. rewrite ?drop_0, !length_app. cbn [length]. ands; lia.
    - exists (length (pre' ++ [e'])). unfold good_split. rewrite Nat.add_0_r, take_app_length, drop_app_length.
      rewrite !length_app, required_total_cons. cbn [length]. ands; lia. }
  destruct G as [j G]. destruct (split_loop_spec es usable interior es [] None eq_refl) as [H1 H2]; [done|].
  unfold byte_split. cbv zeta. cbn [length] in H1, H2. change (required_total []) with 0 in H1, H2. change (Z.of_nat 0) with 0 in H1, H2.
  destruct H2 as [[i m] E]; [left; exists j; split; [lia|done]|]. rewrite E. destruct (H1 i m E) as (j' & -> & G'). eauto.
Qed.

(** ** Routing *)

(** The entries of an interior node: separators with the child to their left. *)
Definition sep_entries (seps : list (bytes * Z)) : list entry := (fun s => (fst s, le_enc 8 (snd s))) <$> seps.

Lemma u64_of_enc c : is_u64 c -> u64_of (le_enc 8 c) = Val c.
Proof. intros. unfold u64_of. rewrite blen_le_enc. cbn [Z.of_nat Z.eqb Pos.eqb Pos.of_succ_nat Pos.succ]. by rewrite le_dec_u64. Qed.

Section Routing.
Context (ps : Z) (b : bytes) (id next fe : Z) (leaf : bool) (dir : list slot) (seps : list (bytes * Z)).
Hypothesis N : node ps b id leaf next fe dir.
Hypothesis Hdir : dir.*2 = sep_entries seps.
Hypothesis Hu : Forall (fun s => is_u64 (snd s)) seps.

Lemma seps_length : length dir = length seps.
Proof using Hdir. apply (f_equal length) in Hdir. unfold sep_entries in Hdir. by rewrite !length_fmap in Hdir. Qed.

(** [child_at] past the directory is the rightmost child. *)
Lemma child_at_eq (i : nat) :
  child_at b (Z.of_nat i) = Val (match seps !! i with Some s => snd s | None => next end).
Proof using N Hdir Hu.
  unfold child_at. rewrite (count_eq _ _ _ _ _ _ _ N). cbn [res_bind]. rewrite seps_length.
  destruct (Z.leb_spec (Z.of_nat (length seps)) (Z.of_nat i)).
  - rewrite lookup_ge_None_2 by lia. by rewrite (next_eq _ _ _ _ _ _ _ N).
  - destruct (lookup_lt_is_Some_2 seps i) as [s Hs]; [lia|]. rewrite Hs.
    assert (Hd : exists d, dir !! i = Some d /\ snd d = (fst s, le_enc 8 (snd s))).
    { apply (f_equal (lookup i)) in Hdir. unfold sep_entries in Hdir. rewrite !list_lookup_fmap, Hs in Hdir.
      destruct (dir !! i) as [d|]; [|done]. exists d. by injection Hdir. }
    destruct Hd as (d & Hd & Ed). rewrite (value_eq _ _ _ _ _ _ _ N _ _ Hd), Ed. cbn [res_bind snd].
    apply u64_of_enc. exact (proj1 (Forall_lookup _ _) Hu _ _ Hs).
Qed.

(** [child_for] takes the child before the first separator above the key. *)
Lemma child_for_spec k : sorted (sep_entries seps) ->
  exists l1 l2, seps = l1 ++ l2 /\ Forall (fun s => ble (fst s) k) l1 /\ Forall (fun s => blt k (fst s)) l2 /\
    child_for b k = child_at b (Z.of_nat (length l1)) /\
    exists i exact, node_search b k = Val (i, exact) /\ (if exact : bool then i + 1 else i) = Z.of_nat (length l1).
Proof using N Hdir Hu.
  intros Hs. rewrite <- Hdir in Hs. destruct (search_spec _ _ _ _ _ _ _ N Hs k) as (i & exact & Es & Hloc).
  assert (H : exists l1 l2, seps = l1 ++ l2 /\ Forall (fun s => ble (fst s) k) l1 /\ Forall (fun s => blt k (fst s)) l2 /\
    (if exact then i + 1 else i) = Z.of_nat (length l1)).
  { rewrite Hdir in Hloc. destruct Hloc as (e1 & e2 & Ee & -> & Hb & Hex). unfold sep_entries in Ee.
    destruct exact.
    - destruct Hex as (v & e3 & -> & Ha). apply fmap_app_inv in Ee as (l1 & l2 & -> & El2 & ->).
      destruct l2 as [|s l2]; [done|]. rewrite fmap_cons in El2.
      assert (Ek : fst s = k) by congruence. assert (E3 : e3 = (fun s => (fst s, le_enc 8 (snd s))) <$> l2) by congruence. subst e3.
      exists (l1 ++ [s]), l2. rewrite <- app_assoc. ands; [done| |exact (proj1 (Forall_fmap _ _ _) Ha)|rewrite length_app, length_fmap; cbn; lia].
      apply Forall_app. split; [|constructor; [rewrite Ek; apply ble_refl|done]].
      eapply Forall_impl; [exact (proj1 (Forall_fmap _ _ _) Hb)|]. intros s' H. by apply blt_ble.
    - apply fmap_app_inv in Ee as (l1 & l2 & -> & -> & ->). exists l1, l2.
      ands; [done| |exact (proj1 (Forall_fmap _ _ _) Hex)|by rewrite length_fmap].
      eapply Forall_impl; [exact (proj1 (Forall_fmap _ _ _) Hb)|]. intros s' H. by apply blt_ble. }
  destruct H as (l1 & l2 & E & H1 & H2 & Ei). exists l1, l2. ands; try done; [|by eauto].
  unfold child_for. rewrite Es. cbn [res_bind]. rewrite Ei. done.
Qed.
End Routing.
