(* ===== verification/BTree.v ===== *)
(** * The B+ tree

    Models the tree layer of [crates/bicdb-page/src/btree.rs]: creation, the
    descent, [get], [insert] with leaf and interior splits and root growth,
    [remove], and the forward and reverse cursors.  Pages are reached through
    the [Pager] interface; the state is the pool and the tree's own fields.
    The descents of the source that are bounded by the path length are
    structural in what is left of that bound; its unbounded loops over leaves
    take the number of turns as an argument, and the theorems say how many are
    enough. *)

(* @source crates/bicdb-page/src/btree.rs *)
From stdpp Require Import base tactics list numbers gmap.
From Stdlib Require Import ZArith Lia.
From S2P Require Import Prelude Search Bytes Errors PageFormat Pager Keys BTreeNode.
Local Open Scope Z_scope.
Local Open Scope bic_scope.

(** [BTree] (306-315), beside the pool it points to. *)
Record BTree := mkTree {
  root : Z;
  root_changed : bool;
  cache_class : CacheClass
}.

(** [BTreeRange] (1972-1977). *)
Record BTreeRange := mkRange {
  rg_entries : list entry;
  rg_index : nat;
  rg_next_leaf : Z
}.

(** [BTreeRangeRev] (2010-2021). *)
Record BTreeRangeRev := mkRev {
  rv_entries : list entry;
  rv_index : nat;
  rv_path : list (Z * Z);
  rv_exhausted : bool
}.

Section Tree.
Context {S : Type} {P : Pager S}.

Abbreviation tst := (st PageError (S * BTree)).

Definition on_pool {A} (m : st PageError S A) : tst A :=
  fun w => let '(r, s) := m (fst w) in (r, (s, snd w)).

Definition wrong_page (p found : Z) : PageError := UnexpectedPageType p found (page_type_u8 BTreeLeaf).

(** ** Creation *)

(** [create_at] (853-866). *)
Definition create_at : st PageError S BTree :=
  do ps <- gets pg_page_size ;;
  do r <- pg_allocate BTreeLeaf ;;
  pg_get_mut r (node_init r ps true) ;;;
  st_ret (mkTree r false Search).

(** [open_at] (869-879). *)
Definition open_at (r : Z) : st PageError S BTree :=
  if r =? 0 then create_at else st_ret (mkTree r false Search).

(** [create] (895-900). *)
Definition create : st PageError S BTree :=
  do t <- create_at ;;
  pg_flush_all ;;;
  pg_publish_root (root t) 0 ;;;
  st_ret t.

(** [open] (903-906). *)
Definition open : st PageError S BTree :=
  do r <- gets pg_root_page ;; open_at r.

(** [in_cache_class] (320-323). *)
Definition in_cache_class (class : CacheClass) (t : BTree) : BTree := mkTree (root t) (root_changed t) class.

(** [root_page] (908-910). *)
Definition root_of : tst Z := gets (fun w => root (snd w)).

(** [take_root_changed] (887-889). *)
Definition take_root_changed : tst bool :=
  do b <- gets (fun w => root_changed (snd w)) ;;
  modify (fun w => (fst w, mkTree (root (snd w)) false (cache_class (snd w)))) ;;;
  st_ret b.

(** [self.pool.get_in_class(p, self.cache_class)], and the page's bytes. *)
Definition page (p : Z) : tst bytes :=
  do c <- gets (fun w => cache_class (snd w)) ;; on_pool (pg_get c p).

(** [self.pool.get_mut(p)] with the changes [m] and the drop of the guard. *)
Definition update {A} (p : Z) (m : nst A) : tst A := on_pool (pg_get_mut p m).

(** ** Descent *)

(** [descend] (936-965): the loop; [left] is what is left of the 65 steps. *)
Fixpoint descend_loop (key : bytes) (left : nat) (path : list Z) (current : Z) : tst (list Z) :=
  do b <- page current ;;
  do leaf <- st_lift (is_leaf b) ;;
  if leaf : bool then st_ret (path ++ [current])
  else
    do next <- st_lift (child_for b key) ;;
    if next =? 0 then st_fail (wrong_page current (page_type_u8 BTreeInterior))
    else match left with
         | O => st_fail (wrong_page next 0)
         | Datatypes.S left' => descend_loop key left' (path ++ [current]) next
         end.
(** [descend] (933-967). *)
Definition descend (key : bytes) : tst (list Z) :=
  do r <- root_of ;; descend_loop key 64 [] r.

(** [path.last().unwrap().page_id]. *)
Definition last_of (path : list Z) : tst Z :=
  match last path with Some p => st_ret p | None => st_panic end.

(** [get] (970-977). *)
Definition get (key : bytes) : tst (option bytes) :=
  do path <- descend key ;;
  do leaf <- last_of path ;;
  do b <- page leaf ;;
  do (index, exact) <- st_lift (node_search b key) ;;
  if exact : bool then do v <- st_lift (node_value b index) ;; st_ret (Some v) else st_ret None.

(** [contains] (979-981). *)
Definition contains (key : bytes) : tst bool :=
  do o <- get key ;; st_ret (bool_decide (is_Some o)).

(** ** Insertion *)

(** [insert_separator] (1145-1169): the parent's entries and rightmost child with
    the split entered, if the parent refers to the child at all. *)
Definition enter_split (es : list entry) (rightmost : Z) (separator : bytes) (left_child right_child : Z)
    : option (list entry * Z) :=
  match list_find (fun e => snd e = le_enc 8 left_child) es with
  | Some (index, _) =>
      let es := take index es ++ (separator, le_enc 8 left_child) :: drop index es in
      Some (alter (fun e => (fst e, le_enc 8 right_child)) (index + 1)%nat es, rightmost)
  | None =>
      if rightmost =? left_child then Some (es ++ [(separator, le_enc 8 left_child)], right_child) else None
  end.

(** [insert_separator] (1100-1211). *)
Fixpoint insert_separator (path : list Z) (level : nat) (separator : bytes) (left_child right_child : Z) : tst unit :=
  do ps <- gets (fun w => pg_page_size (fst w)) ;;
  let usable := usable_bytes ps in
  match level with
  | O =>
      do new_root <- on_pool (pg_allocate BTreeInterior) ;;
      update new_root (
        node_init new_root ps false ;;;
        do inserted <- node_insert separator (le_enc 8 left_child) ;;
        if inserted : bool then set_next_page right_child
        else st_fail (ValueTooLarge new_root (blen separator + 8) usable)) ;;;
      on_pool pg_flush_all ;;;
      modify (fun w => (fst w, mkTree new_root true (cache_class (snd w))))
  | Datatypes.S level' =>
      match path !! level' with
      | None => st_panic
      | Some parent_id =>
          do b <- on_pool (pg_get Search parent_id) ;;
          do es <- st_lift (node_entries b) ;;
          do rightmost <- st_lift (node_next b) ;;
          match enter_split es rightmost separator left_child right_child with
          | None => st_fail (wrong_page parent_id (page_type_u8 BTreeInterior))
          | Some (es, new_rightmost) =>
            if required_total es <=? usable then
              update parent_id (rebuild es ps ;;; set_next_page new_rightmost)
            else
              do middle <- st_lift (byte_split es usable true) ;;
              match es !! Z.to_nat middle with
              | None => st_panic
              | Some (promoted, promoted_value) =>
                  do promoted_child <- st_lift (u64_of promoted_value) ;;
                  let left_entries := take (Z.to_nat middle) es in
                  let right_entries := drop (Z.to_nat middle + 1) es in
                  do new_interior <- on_pool (pg_allocate BTreeInterior) ;;
                  update new_interior (
                    node_init new_interior ps false ;;;
                    rebuild right_entries ps ;;;
                    set_next_page new_rightmost) ;;;
                  update parent_id (rebuild left_entries ps ;;; set_next_page promoted_child) ;;;
                  insert_separator path level' promoted parent_id new_interior
              end
          end
      end
  end.

(** [split_and_insert] (1029-1032): the key placed among the leaf's entries. *)
Definition place_entry (key value : bytes) (es : list entry) : list entry :=
  match binary_search_by (fun e => bytes_cmp (fst e) key) es with
  | inl index => alter (fun e => (fst e, value)) index es
  | inr index => take index es ++ (key, value) :: drop index es
  end.

(** [split_and_insert] (1020-1076). *)
Definition split_and_insert (path : list Z) (key value : bytes) : tst unit :=
  do ps <- gets (fun w => pg_page_size (fst w)) ;;
  do leaf_id <- last_of path ;;
  do b <- page leaf_id ;;
  do es <- st_lift (node_entries b) ;;
  let es := place_entry key value es in
  if required_total es <=? usable_bytes ps then update leaf_id (rebuild es ps)
  else
    do middle <- st_lift (byte_split es (usable_bytes ps) false) ;;
    let left_entries := take (Z.to_nat middle) es in
    let right_entries := drop (Z.to_nat middle) es in
    match right_entries with
    | [] => st_panic
    | (separator, _) :: _ =>
        do right_id <- on_pool (pg_allocate BTreeLeaf) ;;
        do b' <- page leaf_id ;;
        do old_next <- st_lift (node_next b') ;;
        update right_id (
          node_init right_id ps true ;;;
          set_next_page old_next ;;;
          rebuild right_entries ps) ;;;
        update leaf_id (rebuild left_entries ps ;;; set_next_page right_id) ;;;
        insert_separator path (length path - 1) separator leaf_id right_id
    end.

(** [insert] (984-1017). *)
Definition insert (key value : bytes) : tst unit :=
  if bool_decide (key = []) then st_fail (ValueTooLarge 0 0 0)
  else
    do ps <- gets (fun w => pg_page_size (fst w)) ;;
    let usable := usable_bytes ps in
    if usable <? Z.max (required_space (key, value)) (blen key + 8 + ENTRY_BYTES) * 2
    then st_fail (ValueTooLarge 0 (blen key + blen value) (usable / 2))
    else
      do path <- descend key ;;
      do leaf <- last_of path ;;
      do inserted <- update leaf (node_insert key value) ;;
      if inserted : bool then st_ret tt else split_and_insert path key value.

(** [remove] (1220-1226). *)
Definition remove (key : bytes) : tst bool :=
  do path <- descend key ;;
  do leaf <- last_of path ;;
  update leaf (node_remove key).

(** ** Forward cursors *)

(** The child a leftmost descent takes. *)
Definition first_child (b : bytes) : pres Z :=
  let! n := node_count b in
  if n =? 0 then node_next b else let! v := node_value b 0 in u64_of v.

(** [leftmost_leaf] (1231-1245): the loop. *)
Fixpoint leftmost_loop (turns : nat) (current : Z) : tst Z :=
  do b <- page current ;;
  do leaf <- st_lift (is_leaf b) ;;
  if leaf : bool then st_ret current
  else
    do next <- st_lift (first_child b) ;;
    match turns with O => st_panic | Datatypes.S turns' => leftmost_loop turns' next end.
(** [leftmost_leaf] (1229-1246). *)
Definition leftmost_leaf (turns : nat) : tst Z :=
  do r <- root_of ;; leftmost_loop turns r.

(** [height] (1508-1523): the loop. *)
Fixpoint height_loop (turns : nat) (h current : Z) : tst Z :=
  do b <- page current ;;
  do leaf <- st_lift (is_leaf b) ;;
  if leaf : bool then st_ret h
  else
    do next <- st_lift (first_child b) ;;
    match turns with O => st_panic | Datatypes.S turns' => height_loop turns' (h + 1) next end.
(** [height] (1505-1524). *)
Definition height (turns : nat) : tst Z :=
  do r <- root_of ;; height_loop turns 1 r.

(** [leaf_entries_from] (1428-1451). *)
Definition leaf_entries_from (leaf : Z) (start : bytes) : tst (list entry * Z) :=
  do b <- page leaf ;;
  do from <- (if bool_decide (start = []) then st_ret 0
              else do (index, _) <- st_lift (node_search b start) ;; st_ret index) ;;
  do n <- st_lift (node_count b) ;;
  do es <- st_lift (entries_from b (rangeZ from n)) ;;
  do next <- st_lift (node_next b) ;;
  (if next =? 0 then st_ret tt else on_pool (pg_request_read_ahead next)) ;;;
  st_ret (es, next).

(** [range] (1252-1265). *)
Definition range (turns : nat) (start : bytes) : tst BTreeRange :=
  do leaf <- (if bool_decide (start = []) then leftmost_leaf turns
              else do path <- descend start ;; last_of path) ;;
  do (es, next) <- leaf_entries_from leaf start ;;
  st_ret (mkRange es 0 next).

(** [BTreeRange::next] (1982-2001); an error is the item the source yields. *)
Fixpoint range_next (turns : nat) (r : BTreeRange) : tst (option entry * BTreeRange) :=
  match rg_entries r !! rg_index r with
  | Some e => st_ret (Some e, mkRange (rg_entries r) (rg_index r + 1) (rg_next_leaf r))
  | None =>
      if rg_next_leaf r =? 0 then st_ret (None, r)
      else
        do (es, next) <- leaf_entries_from (rg_next_leaf r) [] ;;
        match turns with O => st_panic | Datatypes.S turns' => range_next turns' (mkRange es 0 next) end
  end.

(** [collect] over the cursor: [len], [verify] and every full scan. *)
Fixpoint range_collect (turns : nat) (r : BTreeRange) : tst (list entry) :=
  do (o, r') <- range_next turns r ;;
  match o with
  | None => st_ret []
  | Some e => match turns with
              | O => st_panic
              | Datatypes.S turns' => do rest <- range_collect turns' r' ;; st_ret (e :: rest)
              end
  end.

(** [first_at_or_after] (1469-1491): the loop. *)
Fixpoint first_loop (turns : nat) (start : bytes) (first_leaf : bool) (leaf : Z) : tst (option entry) :=
  do b <- page leaf ;;
  do index <- (if first_leaf then do (i, _) <- st_lift (node_search b start) ;; st_ret i else st_ret 0) ;;
  do n <- st_lift (node_count b) ;;
  if index <? n then
    do k <- st_lift (node_key b index) ;; do v <- st_lift (node_value b index) ;; st_ret (Some (k, v))
  else
    do next <- st_lift (node_next b) ;;
    (if next =? 0 then st_ret tt else on_pool (pg_request_read_ahead next)) ;;;
    if next =? 0 then st_ret None
    else match turns with O => st_panic | Datatypes.S turns' => first_loop turns' start false next end.
(** [first_at_or_after] (1464-1492). *)
Definition first_at_or_after (turns : nat) (start : bytes) : tst (option entry) :=
  do path <- descend start ;;
  do leaf <- last_of path ;;
  first_loop turns start true leaf.

(** ** Reverse cursors *)

(** [descend_with_indexes] (1295-1333). *)
Fixpoint descend_indexed (key : bytes) (left : nat) (path : list (Z * Z)) (current : Z) : tst (list (Z * Z) * Z) :=
  do b <- page current ;;
  do leaf <- st_lift (is_leaf b) ;;
  if leaf : bool then st_ret (path, current)
  else
    do (index, exact) <- st_lift (node_search b key) ;;
    let index := if exact : bool then index + 1 else index in
    do next <- st_lift (child_at b index) ;;
    if next =? 0 then st_fail (wrong_page current (page_type_u8 BTreeInterior))
    else match left with
         | O => st_fail (wrong_page next 0)
         | Datatypes.S left' => descend_indexed key left' (path ++ [(current, index)]) next
         end.

(** [descend_rightmost_from] (1336-1373). *)
Fixpoint descend_rightmost (left : nat) (path : list (Z * Z)) (current : Z) : tst (list (Z * Z) * Z) :=
  do b <- page current ;;
  do leaf <- st_lift (is_leaf b) ;;
  if leaf : bool then st_ret (path, current)
  else
    do index <- st_lift (node_count b) ;;
    do next <- st_lift (child_at b index) ;;
    if next =? 0 then st_fail (wrong_page current (page_type_u8 BTreeInterior))
    else match left with
         | O => st_fail (wrong_page next 0)
         | Datatypes.S left' => descend_rightmost left' (path ++ [(current, index)]) next
         end.

(** [previous_leaf] (1378-1416): the loop, and the path it leaves. *)
Fixpoint previous_leaf (turns : nat) (path : list (Z * Z)) : tst (option (list entry) * list (Z * Z)) :=
  match last path with
  | None => st_ret (None, [])
  | Some (page_id, child_index) =>
      let path := removelast path in
      let again path := match turns with O => st_panic | Datatypes.S turns' => previous_leaf turns' path end in
      if child_index =? 0 then again path
      else
        let target := child_index - 1 in
        do b <- on_pool (pg_get Search page_id) ;;
        do leaf <- st_lift (is_leaf b) ;;
        if leaf : bool then st_ret (None, path)
        else
          do n <- st_lift (node_count b) ;;
          do child <- st_lift (child_at b (Z.min target n)) ;;
          if child =? 0 then st_ret (None, path)
          else
            let path := path ++ [(page_id, target)] in
            do (path, leaf) <- descend_rightmost (64 - length path) path child ;;
            do (es, _) <- leaf_entries_from leaf [] ;;
            if bool_decide (es = []) then again path else st_ret (Some es, path)
  end.

(** [range_rev_below] (1274-1291). *)
Definition range_rev_below (bound : option bytes) : tst BTreeRangeRev :=
  do r <- root_of ;;
  do (path, leaf) <- match bound with
                     | Some k => descend_indexed k 64 [] r
                     | None => descend_rightmost 64 [] r
                     end ;;
  do (es, _) <- leaf_entries_from leaf [] ;;
  st_ret (mkRev es (match bound with
                    | Some k => partition_point (fun e => bool_decide (blt (fst e) k)) es
                    | None => length es
                    end) path false).

(** [BTreeRangeRev::next] (2026-2047). *)
Fixpoint rev_next (turns : nat) (r : BTreeRangeRev) : tst (option entry * BTreeRangeRev) :=
  match rv_index r with
  | Datatypes.S i =>
      match rv_entries r !! i with
      | Some e => st_ret (Some e, mkRev (rv_entries r) i (rv_path r) (rv_exhausted r))
      | None => st_panic
      end
  | O =>
      if rv_exhausted r then st_ret (None, r)
      else
        do (o, path) <- previous_leaf turns (rv_path r) ;;
        match o with
        | None => st_ret (None, mkRev (rv_entries r) 0 path true)
        | Some es => match turns with
                     | O => st_panic
                     | Datatypes.S turns' => rev_next turns' (mkRev es (length es) path false)
                     end
        end
  end.

(** [collect] over the reverse cursor. *)
Fixpoint rev_collect (turns : nat) (r : BTreeRangeRev) : tst (list entry) :=
  do (o, r') <- rev_next turns r ;;
  match o with
  | None => st_ret []
  | Some e => match turns with
              | O => st_panic
              | Datatypes.S turns' => do rest <- rev_collect turns' r' ;; st_ret (e :: rest)
              end
  end.

(** ** Verification *)

(** [verify] (1853-1863): the number of keys that do not ascend. *)
Fixpoint ordering_violations (previous : option bytes) (es : list entry) : Z :=
  match es with
  | [] => 0
  | (k, _) :: es' =>
      (match previous with Some p => if bool_decide (ble k p) then 1 else 0 | None => 0 end)
      + ordering_violations (Some k) es'
  end.
(** [verify] (1848-1866): entries, height, violations, validity. *)
Definition verify (turns : nat) : tst (Z * Z * Z * bool) :=
  do h <- height turns ;;
  do r <- range turns [] ;;
  do es <- range_collect turns r ;;
  let v := ordering_violations None es in
  st_ret (Z.of_nat (length es), h, v, v =? 0).

(** [flush] (1868-1871). *)
Definition flush : tst unit :=
  on_pool pg_flush_all ;;;
  do r <- root_of ;;
  on_pool (pg_publish_root r 0).
End Tree.
