(* ===== verification/BTreeTheory.v ===== *)
(** * B+ trees as abstract trees

    An abstract tree names the page of every node.  [wf] is the ordering
    invariant of [btree.rs] (a child lies between the separators around it, all
    leaves at one depth, entries within the size limit of [insert]); [nodes]
    lists what each page of the tree must hold, leaves in key order.  A descent
    is a list of [frame]s, innermost first, around the subtree it reached. *)

From stdpp Require Import base tactics list numbers sorting.
From Stdlib Require Import ZArith Lia.
From S2P Require Import Prelude Search Bytes Errors PageFormat Keys BTreeNode BTreeSplit Pager BTree.
Local Open Scope Z_scope.
Local Open Scope bic_scope.

Inductive bt :=
  | Leaf (p : Z) (es : list entry) (next : Z)
  | Inner (p : Z) (kids : list (bytes * bt)) (rt : bt).

(** The page of a tree's topmost node. *)
Definition top (t : bt) : Z := match t with Leaf p _ _ => p | Inner p _ _ => p end.

(** ** What the pages hold *)

Record desc := mkDesc { d_page : Z; d_leaf : bool; d_entries : list entry; d_next : Z }.

Definition seps (kids : list (bytes * bt)) : list (bytes * Z) := (fun kt => (fst kt, top (snd kt))) <$> kids.
Definition inner_desc (p : Z) (kids : list (bytes * bt)) (rt : bt) : desc :=
  mkDesc p false (sep_entries (seps kids)) (top rt).

Fixpoint nodes (t : bt) : list desc :=
  match t with
  | Leaf p es next => [mkDesc p true es next]
  | Inner p kids rt =>
      inner_desc p kids rt :: flat_map (fun kt => nodes (snd kt)) kids ++ nodes rt
  end.
Definition kids_nodes (kids : list (bytes * bt)) : list desc := flat_map (fun kt => nodes (snd kt)) kids.

Definition pages (ds : list desc) : list Z := d_page <$> ds.
Definition leaves (ds : list desc) : list desc := filter (fun d => d_leaf d = true) ds.
(** The contents, in key order. *)
Definition data (ds : list desc) : list entry := flat_map d_entries (leaves ds).

(** Each leaf points at the one after it; [e] follows the last. *)
Fixpoint linked (ls : list desc) (e : Z) : Prop :=
  match ls with
  | [] => True
  | d :: ls' => d_next d = match ls' with [] => e | d' :: _ => d_page d' end /\ linked ls' e
  end.
Definition first_page (ls : list desc) (e : Z) : Z := match ls with [] => e | d :: _ => d_page d end.

Lemma kids_nodes_app l1 l2 : kids_nodes (l1 ++ l2) = kids_nodes l1 ++ kids_nodes l2.
Proof. apply flat_map_app. Qed.
Lemma kids_nodes_cons k t l : kids_nodes ((k, t) :: l) = nodes t ++ kids_nodes l.
Proof. done. Qed.
Lemma nodes_inner p kids rt : nodes (Inner p kids rt) = inner_desc p kids rt :: kids_nodes kids ++ nodes rt.
Proof. done. Qed.

Lemma leaves_app l1 l2 : leaves (l1 ++ l2) = leaves l1 ++ leaves l2.
Proof. apply filter_app. Qed.
Lemma leaves_inner d l : d_leaf d = false -> leaves (d :: l) = leaves l.
Proof. intros H. unfold leaves. rewrite filter_cons_False; [done|]. by rewrite H. Qed.
Lemma data_app l1 l2 : data (l1 ++ l2) = data l1 ++ data l2.
Proof. unfold data. by rewrite leaves_app, flat_map_app. Qed.
Lemma data_inner d l : d_leaf d = false -> data (d :: l) = data l.
Proof. intros H. unfold data. by rewrite leaves_inner. Qed.
Lemma data_leaf p es nx : data [mkDesc p true es nx] = es.
Proof. unfold data, leaves. rewrite filter_cons_True by done. cbn. by rewrite app_nil_r. Qed.
Lemma leaves_leaf p es nx : leaves [mkDesc p true es nx] = [mkDesc p true es nx].
Proof. done. Qed.

Lemma linked_app l1 l2 e : linked (l1 ++ l2) e <-> linked l1 (first_page l2 e) /\ linked l2 e.
Proof.
  induction l1 as [|d l1 IH]; [cbn; tauto|]. cbn [linked app]. rewrite IH.
  destruct l1 as [|d' l1]; cbn [app]; [destruct l2; cbn [first_page]; tauto|tauto].
Qed.
Lemma linked_cons d ls e : linked (d :: ls) e <-> d_next d = first_page ls e /\ linked ls e.
Proof. by destruct ls. Qed.
Lemma first_page_app l1 l2 e : first_page (l1 ++ l2) e = first_page l1 (first_page l2 e).
Proof. by destruct l1. Qed.

Lemma pages_app l1 l2 : pages (l1 ++ l2) = pages l1 ++ pages l2.
Proof. apply fmap_app. Qed.
Lemma seps_app l1 l2 : seps (l1 ++ l2) = seps l1 ++ seps l2.
Proof. apply fmap_app. Qed.
Lemma length_seps l : length (seps l) = length l.
Proof. apply length_fmap. Qed.
Lemma top_in_pages t : top t ∈ pages (nodes t).
Proof. destruct t; cbn; [by left|]. by left. Qed.

(** ** Ordering *)

(** A key range, open above; [None] is unbounded. *)
Definition low (lo : option bytes) (k : bytes) : Prop := match lo with Some l => ble l k | None => True end.
Definition strictly_low (lo : option bytes) (k : bytes) : Prop := match lo with Some l => blt l k | None => True end.
Definition high (hi : option bytes) (k : bytes) : Prop := match hi with Some h => blt k h | None => True end.
#[export] Instance high_dec hi k : Decision (high hi k).
Proof. unfold high. destruct hi; apply _. Defined.
Definition inside (lo hi : option bytes) (k : bytes) : Prop := low lo k /\ high hi k.

Section Ordered.
Variable usable : Z.

(** The size limit of [insert], for a separator and for an entry. *)
Definition sep_ok (k : bytes) : Prop := 2 * (blen k + 16) <= usable.
Definition entry_ok (e : entry) : Prop := 2 * required_space e <= usable /\ sep_ok (fst e).

Section Kids.
Variable W : option bytes -> option bytes -> bt -> Prop.
(** Children in order, with separators strictly inside the range. *)
Fixpoint wf_kids (lo hi : option bytes) (kids : list (bytes * bt)) (rt : bt) : Prop :=
  match kids with
  | [] => W lo hi rt
  | (s, t) :: kids' =>
      W lo (Some s) t /\ strictly_low lo s /\ high hi s /\ sep_ok s /\ wf_kids (Some s) hi kids' rt
  end.
Fixpoint wf_front (lo : option bytes) (kids : list (bytes * bt)) : Prop :=
  match kids with
  | [] => True
  | (s, t) :: kids' => W lo (Some s) t /\ strictly_low lo s /\ sep_ok s /\ wf_front (Some s) kids'
  end.
End Kids.
Fixpoint bound_after (lo : option bytes) (kids : list (bytes * bt)) : option bytes :=
  match kids with [] => lo | (s, _) :: kids' => bound_after (Some s) kids' end.

Fixpoint wf (h : nat) (lo hi : option bytes) (t : bt) : Prop :=
  match h, t with
  | O, Leaf _ es _ => sorted es /\ Forall (fun e => inside lo hi (fst e)) es /\ Forall entry_ok es
  | S h', Inner _ kids rt => kids <> [] /\ wf_kids (wf h') lo hi kids rt
  | _, _ => False
  end.

(** Every separator of [kids] is below [hi]. *)
Definition all_high (hi : option bytes) (kids : list (bytes * bt)) : Prop := Forall (fun kt => high hi (fst kt)) kids.

Lemma wf_kids_app W lo hi l1 l2 rt :
  wf_kids W lo hi (l1 ++ l2) rt <->
  wf_front W lo l1 /\ all_high hi l1 /\ wf_kids W (bound_after lo l1) hi l2 rt.
Proof.
  unfold all_high. revert lo. induction l1 as [|[s t] l1 IH]; intros lo; cbn [app wf_kids wf_front bound_after].
  - rewrite Forall_nil. tauto.
  - rewrite IH, Forall_cons. cbn [fst]. tauto.
Qed.

Lemma wf_front_app W lo l1 l2 : wf_front W lo (l1 ++ l2) <-> wf_front W lo l1 /\ wf_front W (bound_after lo l1) l2.
Proof.
  revert lo. induction l1 as [|[s t] l1 IH]; intros lo; cbn [app wf_front bound_after]; [tauto|]. rewrite IH. tauto.
Qed.
Lemma bound_after_app lo l1 l2 : bound_after lo (l1 ++ l2) = bound_after (bound_after lo l1) l2.
Proof. revert lo. induction l1 as [|[s t] l1 IH]; intros lo; cbn [app bound_after]; auto. Qed.

(** The separators of a front ascend, so the last bounds them all. *)
Lemma front_ascends W lo l s' t' :
  wf_front W lo (l ++ [(s', t')]) -> strictly_low lo s' /\ Forall (fun kt => blt (fst kt) s') l.
Proof.
  revert lo. induction l as [|[s t] l IH]; intros lo; cbn [app wf_front].
  - intros (_ & H & _). by split.
  - intros (_ & Hl & _ & Hf). destruct (IH _ Hf) as [H1 H2]. cbn in H1. split.
    + destruct lo; [|done]. cbn in *. by eapply blt_trans.
    + constructor; [done|]. done.
Qed.

Lemma front_high W lo l s hi : wf_front W lo l -> strictly_low (bound_after lo l) s -> high hi s -> all_high hi l.
Proof.
  intros Hf Hs Hh. destruct l as [|[s' t'] l' _] using rev_ind; [by constructor|].
  rewrite bound_after_app in Hs. cbn in Hs. destruct (front_ascends _ _ _ _ _ Hf) as [_ Ha].
  assert (H' : high hi s') by (destruct hi; [cbn in *; by eapply blt_trans|done]).
  apply Forall_app. split; [|by constructor]. eapply Forall_impl; [exact Ha|]. intros kt Hk.
  destruct hi; [cbn in *; by eapply blt_trans|done].
Qed.

(** ** Keys of a tree *)

Lemma high_le hi s k : high hi s -> ble k s -> high hi k.
Proof. destruct hi; [|done]. cbn. intros. by eapply ble_blt_trans. Qed.
Lemma low_lt lo s k : strictly_low lo s -> ble s k -> low lo k.
Proof. destruct lo; [|done]. cbn. intros. apply blt_ble. by eapply blt_ble_trans. Qed.

(** Contents that ascend and stay in a range. *)
Definition data_ok (lo hi : option bytes) (es : list entry) : Prop :=
  sorted es /\ Forall (fun e => inside lo hi (fst e)) es /\ Forall entry_ok es.

Lemma kids_data (W : option bytes -> option bytes -> bt -> Prop) :
  (forall lo hi t, W lo hi t -> data_ok lo hi (data (nodes t))) ->
  forall kids lo hi rt, wf_kids W lo hi kids rt -> data_ok lo hi (data (kids_nodes kids ++ nodes rt)).
Proof.
  intros HW. induction kids as [|[s t] kids IH]; intros lo hi rt Hk; cbn [wf_kids] in Hk; [by apply HW|].
  destruct Hk as (Ht & Hlo & Hhi & _ & Hk). destruct (IH _ _ _ Hk) as (S2 & I2 & O2). destruct (HW _ _ _ Ht) as (S1 & I1 & O1).
  rewrite kids_nodes_cons, <- app_assoc, data_app. unfold data_ok.
  ands; [apply sorted_app; ands; [done|done|]| |by apply Forall_app].
  - intros a b Ha Hb. rewrite Forall_forall in I1, I2. destruct (I1 a Ha) as [_ H1]. destruct (I2 b Hb) as [H2 _].
    cbn in H1, H2. by eapply blt_ble_trans.
  - apply Forall_app. split.
    + eapply Forall_impl; [exact I1|]. intros e [H1 H2]. split; [done|]. cbn in H2. eapply high_le; [done|]. by apply blt_ble.
    + eapply Forall_impl; [exact I2|]. intros e [H1 H2]. split; [|done]. by eapply low_lt.
Qed.

Lemma wf_data h : forall lo hi t, wf h lo hi t -> data_ok lo hi (data (nodes t)).
Proof.
  induction h as [|h IH]; intros lo hi [p es nx|p kids rt] Hwf; cbn [wf] in Hwf; try done.
  { change (nodes (Leaf p es nx)) with [mkDesc p true es nx]. by rewrite data_leaf. }
  destruct Hwf as [_ Hk]. rewrite nodes_inner, data_inner by done. by apply (kids_data (wf h)).
Qed.

(** The separators of an interior node ascend. *)
Lemma wf_seps W lo hi kids rt : wf_kids W lo hi kids rt ->
  sorted (sep_entries (seps kids)) /\ Forall (fun e => strictly_low lo (fst e)) (sep_entries (seps kids)).
Proof.
  revert lo. induction kids as [|[s t] kids IH]; intros lo Hk; cbn [wf_kids] in Hk.
  { split; [constructor|constructor]. }
  destruct Hk as (_ & Hlo & _ & _ & Hk). destruct (IH _ Hk) as [S1 A1].
  change (sep_entries (seps ((s, t) :: kids))) with ((s, le_enc 8 (top t)) :: sep_entries (seps kids)).
  split; [apply sorted_cons; split; [done|exact A1]|].
  constructor; [done|]. eapply Forall_impl; [exact A1|]. intros e He. cbn in He. destruct lo; [|done]. cbn in *. by eapply blt_trans.
Qed.

Lemma wf_kids_seps_ok W lo hi kids rt : wf_kids W lo hi kids rt -> Forall (fun kt => sep_ok (fst kt)) kids.
Proof.
  revert lo. induction kids as [|[s t] kids IH]; intros lo Hk; cbn [wf_kids] in Hk; [constructor|].
  destruct Hk as (_ & _ & _ & Hs & Hk). constructor; [done|by eapply IH].
Qed.

(** Splitting an interior node at one of its separators. *)
Lemma wf_kids_middle W lo hi l s t r rt :
  wf_kids W lo hi (l ++ (s, t) :: r) rt ->
  wf_kids W lo (Some s) l t /\ wf_kids W (Some s) hi r rt /\ strictly_low lo s /\ high hi s /\ sep_ok s.
Proof.
  rewrite wf_kids_app. cbn [wf_kids]. intros (Hf & Hh & Ht & Hlo & Hhi & Hs & Hr).
  assert (Hfs : wf_front W lo (l ++ [(s, t)])) by (rewrite wf_front_app; cbn [wf_front]; tauto).
  destruct (front_ascends _ _ _ _ _ Hfs) as [Hlo' Ha].
  ands; try done. rewrite <- (app_nil_r l), wf_kids_app. by ands.
Qed.

(** ** Descents *)

(** One step of a descent: the children before the one taken, and, unless it
    is the rightmost, its separator with what comes after. *)
Record frame := mkFrame {
  f_page : Z;
  f_before : list (bytes * bt);
  f_after : option (bytes * list (bytes * bt) * bt)
}.

Definition fill1 (f : frame) (t : bt) : bt :=
  match f_after f with
  | None => Inner (f_page f) (f_before f) t
  | Some (s, l, rt) => Inner (f_page f) (f_before f ++ (s, t) :: l) rt
  end.
Fixpoint fill (fs : list frame) (t : bt) : bt :=
  match fs with [] => t | f :: fs' => fill fs' (fill1 f t) end.

(** The child taken was split at [s] with [a] to its left. *)
Definition split_frame (f : frame) (a : bt) (s : bytes) : frame :=
  mkFrame (f_page f) (f_before f ++ [(s, a)]) (f_after f).

Definition frame_wf (W : option bytes -> option bytes -> bt -> Prop) (lo hi : option bytes) (f : frame)
    (lo' hi' : option bytes) : Prop :=
  wf_front W lo (f_before f) /\ all_high hi (f_before f) /\ lo' = bound_after lo (f_before f) /\
  match f_after f with
  | None => hi' = hi /\ f_before f <> []
  | Some (s, l, rt) => hi' = Some s /\ strictly_low lo' s /\ high hi s /\ sep_ok s /\ wf_kids W (Some s) hi l rt
  end.

(** [ctx_wf h lo hi fs h0 lo0 hi0]: around a subtree of height [h] with the
    range [lo, hi) the frames make a tree of height [h0] with [lo0, hi0). *)
Fixpoint ctx_wf (h : nat) (lo hi : option bytes) (fs : list frame) (h0 : nat) (lo0 hi0 : option bytes) : Prop :=
  match fs with
  | [] => h = h0 /\ lo = lo0 /\ hi = hi0
  | f :: fs' => exists lo1 hi1, frame_wf (wf h) lo1 hi1 f lo hi /\ ctx_wf (S h) lo1 hi1 fs' h0 lo0 hi0
  end.

Definition frame_desc (f : frame) (c : Z) : desc :=
  match f_after f with
  | None => mkDesc (f_page f) false (sep_entries (seps (f_before f))) c
  | Some (s, l, rt) => mkDesc (f_page f) false (sep_entries (seps (f_before f) ++ (s, c) :: seps l)) (top rt)
  end.
Definition after_nodes (f : frame) : list desc :=
  match f_after f with None => [] | Some (_, l, rt) => kids_nodes l ++ nodes rt end.

(** The nodes of the context before and after the subtree with top page [c]. *)
Fixpoint pre (fs : list frame) (c : Z) : list desc :=
  match fs with
  | [] => []
  | f :: fs' => pre fs' (f_page f) ++ frame_desc f c :: kids_nodes (f_before f)
  end.
Fixpoint post (fs : list frame) : list desc :=
  match fs with [] => [] | f :: fs' => after_nodes f ++ post fs' end.

Lemma nodes_fill1 f t : nodes (fill1 f t) = frame_desc f (top t) :: kids_nodes (f_before f) ++ nodes t ++ after_nodes f.
Proof.
  unfold fill1, frame_desc, after_nodes, inner_desc. destruct (f_after f) as [[[s l] rt]|].
  - rewrite nodes_inner. unfold inner_desc. rewrite seps_app, kids_nodes_app, kids_nodes_cons, <- !app_assoc. done.
  - rewrite nodes_inner. by rewrite app_nil_r.
Qed.
Lemma top_fill1 f t : top (fill1 f t) = f_page f.
Proof. unfold fill1. by destruct (f_after f) as [[[? ?] ?]|]. Qed.

Lemma nodes_fill fs : forall t, nodes (fill fs t) = pre fs (top t) ++ nodes t ++ post fs.
Proof.
  induction fs as [|f fs IH]; intros t; cbn [fill pre post]; [by rewrite app_nil_r|].
  rewrite IH, top_fill1, nodes_fill1. rewrite <- !app_assoc. cbn [app]. by rewrite <- !app_assoc.
Qed.

(** The page at the top of a filled context. *)
Definition ctx_top (fs : list frame) (c : Z) : Z := match last fs with Some f => f_page f | None => c end.
Lemma top_fill fs t : top (fill fs t) = ctx_top fs (top t).
Proof.
  unfold ctx_top. revert t. induction fs as [|f fs IH]; intros t; [done|]. cbn [fill]. rewrite IH, top_fill1.
  rewrite last_cons. by destruct (last fs).
Qed.
Lemma ctx_top_cons f fs c : ctx_top (f :: fs) c = ctx_top fs (f_page f).
Proof. unfold ctx_top. rewrite last_cons. by destruct (last fs). Qed.

Lemma wf_fill1 h lo hi f lo' hi' t :
  frame_wf (wf h) lo hi f lo' hi' -> wf h lo' hi' t -> wf (S h) lo hi (fill1 f t).
Proof.
  unfold frame_wf, fill1. intros (Hf & Hh & -> & Ha) Ht. destruct (f_after f) as [[[s l] rt]|]; cbn [wf].
  - destruct Ha as (-> & Hs & Hhi & Hok & Hk). split; [by destruct (f_before f)|]. rewrite wf_kids_app. cbn [wf_kids]. tauto.
  - destruct Ha as (-> & Hne). split; [done|]. rewrite <- (app_nil_r (f_before f)), wf_kids_app. by ands.
Qed.

Lemma wf_fill fs : forall h lo hi h0 lo0 hi0 t,
  ctx_wf h lo hi fs h0 lo0 hi0 -> wf h lo hi t -> wf h0 lo0 hi0 (fill fs t).
Proof.
  induction fs as [|f fs IH]; intros h lo hi h0 lo0 hi0 t; cbn [ctx_wf fill].
  - by intros (-> & -> & ->).
  - intros (lo1 & hi1 & Hf & Hc) Ht. eapply IH; [exact Hc|]. by eapply wf_fill1.
Qed.

Lemma ctx_wf_snoc fs f : forall h lo hi h1 lo1 hi1 lo0 hi0,
  ctx_wf h lo hi fs h1 lo1 hi1 -> frame_wf (wf h1) lo0 hi0 f lo1 hi1 -> ctx_wf h lo hi (fs ++ [f]) (S h1) lo0 hi0.
Proof.
  induction fs as [|g fs IH]; intros h lo hi h1 lo1 hi1 lo0 hi0; cbn [ctx_wf app].
  - intros (-> & -> & ->) Hf. eauto 10.
  - intros (lo2 & hi2 & Hg & Hc) Hf. exists lo2, hi2. split; [done|]. by eapply IH.
Qed.
Lemma fill_snoc fs f : forall t, fill (fs ++ [f]) t = fill1 f (fill fs t).
Proof. induction fs as [|g fs IH]; intros t; cbn [fill app]; auto. Qed.
Lemma ctx_height fs : forall h lo hi h0 lo0 hi0, ctx_wf h lo hi fs h0 lo0 hi0 -> h0 = (h + length fs)%nat.
Proof.
  induction fs as [|f fs IH]; intros h lo hi h0 lo0 hi0; cbn [ctx_wf length].
  - intros (-> & _ & _). lia.
  - intros (lo1 & hi1 & _ & Hc). apply IH in Hc. lia.
Qed.

(** A split of the child keeps the frame's order. *)
Lemma split_frame_wf h lo hi f lo' hi' a s :
  frame_wf (wf h) lo hi f lo' hi' -> wf h lo' (Some s) a -> strictly_low lo' s -> high hi' s -> sep_ok s ->
  frame_wf (wf h) lo hi (split_frame f a s) (Some s) hi'.
Proof.
  unfold frame_wf, split_frame. cbn [f_before f_after f_page]. intros (Hf & Hh & -> & Ha) Ht Hlo Hhi Hok.
  rewrite wf_front_app, bound_after_app. cbn [wf_front bound_after].
  assert (Hs : high hi s).
  { destruct (f_after f) as [[[s' l] rt]|].
    - destruct Ha as (-> & _ & Hhi' & _). cbn in Hhi. eapply high_le; [exact Hhi'|]. by apply blt_ble.
    - by destruct Ha as (-> & _). }
  ands; try tauto.
  - apply Forall_app. split; [done|by constructor].
  - destruct (f_after f) as [[[s' l] rt]|]; [destruct Ha as (-> & _ & ? & ? & ?); by ands|].
    destruct Ha as (-> & _). split; [done|]. by destruct (f_before f).
Qed.

Lemma front_data h lo l : wf_front (wf h) lo l ->
  Forall (fun e => exists b, bound_after lo l = Some b /\ blt (fst e) b) (data (kids_nodes l)).
Proof.
  induction l as [|[s t] l IH] using rev_ind; [constructor|]. intros Hf.
  rewrite kids_nodes_app, data_app, bound_after_app. cbn [bound_after]. destruct (front_ascends _ _ _ _ _ Hf) as [_ Ha].
  apply wf_front_app in Hf as [Hf Hs]. cbn [wf_front] in Hs. destruct Hs as (Ht & Hs & _). apply Forall_app. split.
  - eapply Forall_impl; [exact (IH Hf)|]. intros e (b & Eb & Hb). rewrite Eb in Hs. cbn in Hs. exists s. split; [done|].
    by eapply blt_trans.
  - unfold kids_nodes. cbn [flat_map snd]. rewrite app_nil_r. destruct (wf_data _ _ _ _ Ht) as (_ & I & _).
    eapply Forall_impl; [exact I|]. intros e [_ H]. cbn in H. eauto.
Qed.

(** What lies to the left of the hole is below it, what lies to the right not. *)
Lemma ctx_data fs : forall c h lo hi h0 lo0 hi0, ctx_wf h lo hi fs h0 lo0 hi0 ->
  Forall (fun e => exists l, lo = Some l /\ blt (fst e) l) (data (pre fs c)) /\
  Forall (fun e => exists u, hi = Some u /\ ble u (fst e)) (data (post fs)).
Proof.
  induction fs as [|f fs IH]; intros c h lo hi h0 lo0 hi0; cbn [ctx_wf pre post]; [by split; constructor|].
  intros (lo1 & hi1 & (Hf & Hh & -> & Ha) & Hc). destruct (IH (f_page f) _ _ _ _ _ _ Hc) as [Hpre Hpost].
  rewrite !data_app, data_inner by (unfold frame_desc; destruct (f_after f) as [[[? ?] ?]|]; done).
  rewrite !Forall_app. ands.
  - destruct (f_before f) as [|[s' t'] l' _] eqn:Eb using rev_ind; [done|]. rewrite bound_after_app. cbn [bound_after].
    destruct (front_ascends _ _ _ _ _ Hf) as [Hlo _]. eapply Forall_impl; [exact Hpre|]. intros e (l & -> & He).
    exists s'. split; [done|]. cbn in Hlo. by eapply blt_trans.
  - by eapply front_data.
  - unfold after_nodes. destruct (f_after f) as [[[s l] rt]|]; [|constructor].
    destruct Ha as (-> & _ & _ & _ & Hk). destruct (kids_data _ (wf_data h) _ _ _ _ Hk) as (_ & I & _).
    eapply Forall_impl; [exact I|]. intros e [H _]. cbn in H. eauto.
  - destruct (f_after f) as [[[s l] rt]|].
    + destruct Ha as (-> & _ & Hs & _ & _). eapply Forall_impl; [exact Hpost|]. intros e (u & -> & He). cbn in Hs.
      exists s. split; [done|]. apply blt_ble. by eapply blt_ble_trans.
    + by destruct Ha as (-> & _).
Qed.

(** A key that belongs in the hole is above everything to the left of it and
    below everything to the right. *)
Lemma ctx_below fs c h lo hi h0 lo0 hi0 k :
  ctx_wf h lo hi fs h0 lo0 hi0 -> inside lo hi k -> below k (data (pre fs c)) /\ above k (data (post fs)).
Proof.
  intros Hc [Hl Hh]. destruct (ctx_data fs c _ _ _ _ _ _ Hc) as [H1 H2]. split.
  - eapply Forall_impl; [exact H1|]. intros e (l & -> & He). cbn in Hl. by eapply blt_ble_trans.
  - eapply Forall_impl; [exact H2|]. intros e (u & -> & He). cbn in Hh. by eapply blt_ble_trans.
Qed.

(** The step a descent takes at an interior node. *)
Lemma route_frame W lo hi p kids rt k k1 k2 :
  wf_kids W lo hi kids rt -> kids <> [] -> inside lo hi k -> kids = k1 ++ k2 ->
  Forall (fun kt => ble (fst kt) k) k1 -> Forall (fun kt => blt k (fst kt)) k2 ->
  exists f t lo' hi', Inner p kids rt = fill1 f t /\ f_page f = p /\ f_before f = k1 /\ frame_wf W lo hi f lo' hi' /\
    W lo' hi' t /\ inside lo' hi' k /\ top t = match k2 with [] => top rt | (_, t) :: _ => top t end.
Proof.
  intros Hk Hne [Hlo Hhi] -> H1 H2. apply wf_kids_app in Hk as (Hf & Hh & Hk).
  assert (Hlo' : low (bound_after lo k1) k).
  { destruct k1 as [|[s t] k1 _] using rev_ind; [done|]. rewrite bound_after_app. apply Forall_app in H1 as [_ H1].
    by inversion H1. }
  destruct k2 as [|[s t] k2]; cbn [wf_kids] in Hk.
  - exists (mkFrame p k1 None), rt, (bound_after lo k1), hi. rewrite app_nil_r in Hne |- *. by ands.
  - destruct Hk as (Ht & Hs & Hhs & Hok & Hk). exists (mkFrame p k1 (Some (s, k2, rt))), t, (bound_after lo k1), (Some s).
    apply Forall_cons in H2 as [H2 _]. by ands.
Qed.

(** Contexts inside contexts. *)
Lemma fill_app fs1 : forall fs2 t, fill (fs1 ++ fs2) t = fill fs2 (fill fs1 t).
Proof. induction fs1 as [|f fs1 IH]; intros fs2 t; cbn [fill app]; auto. Qed.
Lemma pre_app fs1 : forall fs2 c, pre (fs1 ++ fs2) c = pre fs2 (ctx_top fs1 c) ++ pre fs1 c.
Proof.
  induction fs1 as [|f fs1 IH]; intros fs2 c; cbn [pre app]; [by rewrite app_nil_r|].
  by rewrite IH, ctx_top_cons, <- app_assoc.
Qed.
Lemma post_app fs1 : forall fs2, post (fs1 ++ fs2) = post fs1 ++ post fs2.
Proof. induction fs1 as [|f fs1 IH]; intros fs2; cbn [post app]; [done|]. by rewrite IH, <- app_assoc. Qed.
Lemma ctx_wf_app fs1 : forall fs2 h lo hi h1 lo1 hi1 h0 lo0 hi0,
  ctx_wf h lo hi fs1 h1 lo1 hi1 -> ctx_wf h1 lo1 hi1 fs2 h0 lo0 hi0 -> ctx_wf h lo hi (fs1 ++ fs2) h0 lo0 hi0.
Proof.
  induction fs1 as [|f fs1 IH]; intros fs2 h lo hi h1 lo1 hi1 h0 lo0 hi0; cbn [ctx_wf app].
  - by intros (-> & -> & ->).
  - intros (lo2 & hi2 & Hf & Hc) H2. exists lo2, hi2. split; [done|]. by eapply IH.
Qed.

(** The frame one child further left. *)
Definition left_frame (f : frame) (l : list (bytes * bt)) (s : bytes) (t : bt) : frame :=
  mkFrame (f_page f) l (Some match f_after f with
                             | None => (s, [], t)
                             | Some (s0, l0, rt) => (s, (s0, t) :: l0, rt)
                             end).
Lemma fill1_left f l s t' t : f_before f = l ++ [(s, t')] -> fill1 (left_frame f l s t) t' = fill1 f t.
Proof.
  intros E. unfold fill1, left_frame. cbn [f_after f_page f_before]. rewrite E.
  destruct (f_after f) as [[[s0 l0] rt]|]; by rewrite <- ?app_assoc.
Qed.
Lemma left_frame_wf h lo1 hi1 f lo hi l s t' t :
  frame_wf (wf h) lo1 hi1 f lo hi -> f_before f = l ++ [(s, t')] -> wf h lo hi t ->
  frame_wf (wf h) lo1 hi1 (left_frame f l s t) (bound_after lo1 l) (Some s) /\ wf h (bound_after lo1 l) (Some s) t'.
Proof.
  unfold frame_wf, left_frame. cbn [f_before f_after]. intros (Hf & Hh & -> & Ha) E Ht. rewrite E in *.
  apply wf_front_app in Hf as [Hf (Ht' & Hs & Hok & _)]. apply Forall_app in Hh as [Hh [Hsh _]%Forall_cons].
  rewrite bound_after_app in Ha, Ht. cbn [bound_after fst] in *.
  destruct (f_after f) as [[[s0 l0] rt]|]; ands; try done.
  - destruct Ha as (-> & ? & ? & ? & ?). by ands.
  - destruct Ha as (-> & _). done.
Qed.

(** ** Depth *)

(** Every interior node has two children or more, so the leaves are many. *)
Lemma wf_leaves h : forall lo hi t, wf h lo hi t -> (2 ^ h <= length (leaves (nodes t)))%nat.
Proof.
  induction h as [|h IH]; intros lo hi [p es nx|p kids rt] Hwf; cbn [wf] in Hwf; try done.
  destruct Hwf as [Hne Hk]. rewrite nodes_inner, leaves_inner, leaves_app, length_app by done. rewrite Nat.pow_succ_r'.
  destruct kids as [|[s t] kids]; [done|]. destruct Hk as (Ht & _ & _ & _ & Hk). apply IH in Ht.
  rewrite kids_nodes_cons, leaves_app, length_app.
  assert (Hr : exists lo', wf h lo' hi rt).
  { clear -Hk. revert s Hk. induction kids as [|[s' t'] kids IHk]; intros s; cbn [wf_kids]; [eauto|]. intros (_&_&_&_&?). eauto. }
  destruct Hr as [lo' Hr%IH]. lia.
Qed.

(** So distinct page ids make a tree no deeper than the descent allows. *)
Lemma wf_depth h lo hi t :
  wf h lo hi t -> NoDup (pages (nodes t)) -> Forall (fun p => 0 < p < U64) (pages (nodes t)) -> (h <= 63)%nat.
Proof.
  intros Hwf%wf_leaves Hnd Hu. pose proof (distinct_bound _ U64 ltac:(done) Hnd Hu) as Hb.
  assert (Hlen : (length (leaves (nodes t)) <= length (pages (nodes t)))%nat)
    by (unfold leaves, pages; rewrite length_fmap; apply length_filter).
  assert (Hz : 2 ^ Z.of_nat h < 2 ^ 64).
  { change 2 with (Z.of_nat 2) at 1. rewrite <- Nat2Z.inj_pow. change (2 ^ 64) with U64. lia. }
  apply Z.pow_lt_mono_r_iff in Hz; lia.
Qed.
End Ordered.

(** ** Placing an entry *)

(** [place_entry] is insertion into a sorted list. *)
Lemma place_entry_eq k v es : sorted es -> place_entry k v es = kv_insert k v es.
Proof.
  intros Hs. unfold place_entry. destruct (kv_insert_split k v es Hs) as (l1 & l2 & -> & Hb & Ha & _ & Hor).
  pose proof (binary_search_by_spec (fun e => bytes_cmp (fst e) k) es) as Hspec.
  assert (Hord : ordered_for (fun e => bytes_cmp (fst e) k) es).
  { intros i j x y Hij Hx Hy. destruct (decide (i = j)) as [->|Hne]; [simplify_eq; tauto|].
    assert (Hxy : blt (fst x) (fst y)).
    { eapply (StronglySorted_lookup blt es.*1 i j); [exact Hs|lia| |]; by rewrite list_lookup_fmap, ?Hx, ?Hy. }
    rewrite bytes_cmp_gt. split; intros H; [by apply bytes_cmp_gt; eapply blt_trans|].
    change (blt (fst x) k). by eapply blt_trans. }
  specialize (Hspec Hord).
  assert (L1 : forall j x, l1 !! j = Some x -> bytes_cmp (fst x) k = Lt) by (intros j x Hj; exact (Forall_lookup_1 _ _ _ _ Hb Hj)).
  assert (L2 : forall j x, l2 !! j = Some x -> bytes_cmp (fst x) k = Gt)
    by (intros j x Hj; apply bytes_cmp_gt; exact (Forall_lookup_1 _ _ _ _ Ha Hj)).
  destruct (binary_search_by _ es) as [i|i].
  - destruct Hspec as (x & Hx & Hc). destruct Hor as [->|(v0 & ->)].
    + exfalso. apply lookup_app_Some in Hx as [Hx|[_ Hx]]; [by rewrite (L1 _ _ Hx) in Hc|by rewrite (L2 _ _ Hx) in Hc].
    + assert (i = length l1) as ->.
      { apply lookup_app_Some in Hx as [Hx|[Hge Hx]]; [by rewrite (L1 _ _ Hx) in Hc|].
        destruct (i - length l1)%nat eqn:E; [lia|]. cbn in Hx. by rewrite (L2 _ _ Hx) in Hc. }
      rewrite alter_app_r_alt by lia. by rewrite Nat.sub_diag.
  - destruct Hspec as [Hi Hspec]. destruct Hor as [->|(v0 & ->)].
    + assert (i = length l1) as ->; [|by rewrite take_app_length, drop_app_length].
      destruct (lt_eq_lt_dec i (length l1)) as [[Hlt|?]|Hgt]; [|done|].
      * destruct (lookup_lt_is_Some_2 l1 i Hlt) as [x Hx]. specialize (Hspec i x).
        rewrite lookup_app_l, (L1 _ _ Hx) in Hspec by done. rewrite Nat.ltb_irrefl in Hspec. by specialize (Hspec Hx).
      * rewrite length_app in Hi. destruct l2 as [|e l2]; [cbn in Hi; lia|]. specialize (Hspec (length l1) e).
        rewrite list_lookup_middle in Hspec by done. rewrite (L2 0%nat e eq_refl), (proj2 (Nat.ltb_lt _ _) Hgt) in Hspec.
        by specialize (Hspec eq_refl).
    + exfalso. specialize (Hspec (length l1) (k, v0)). rewrite list_lookup_middle in Hspec by done. cbn [fst] in Hspec.
      rewrite bytes_cmp_refl in Hspec. specialize (Hspec eq_refl). by destruct (_ <? _)%nat.
Qed.
