(* ===== verification/BTreeOps.v ===== *)
(** * The B+ tree against the pool interface

    Every operation of [BTree] on a pool that keeps its laws, from a store whose
    pages hold a well-formed tree: what it returns, and the tree held after it. *)

From stdpp Require Import base tactics list numbers gmap sorting.
From Stdlib Require Import ZArith Lia.
From S2P Require Import Prelude Search Bytes Errors PageFormat Pager Keys BTreeNode BTreeNodeSpec BTreeSplit BTree BTreeTheory.
Local Open Scope Z_scope.
Local Open Scope bic_scope.

(** ** Nodes up to their stamps *)

Lemma node_same ps b b' id leaf next fe dir :
  same_page b b' -> node ps b id leaf next fe dir -> node ps b' id leaf next fe dir.
Proof.
  intros Hs N. destruct (node_bounds _ _ _ _ _ _ _ N) as (?&?&?&?&?). pose proof Hs as (Hl & _).
  destruct N as [A1 A2 A3 A4 A5 A6 A7 A8 A9 A10 A11 A12 A13 A14 A15].
  split; try done; rewrite <- ?(same_sub b b') by (done || lia); try done.
  - by rewrite <- Hl.
  - eapply Forall_impl; [exact A12|]. intros d (P1 & P2 & P3). pose proof (size_of_nonneg (snd d)).
    rewrite <- (same_sub b b') by (done || lia). done.
Qed.
#[export] Instance node_proper ps : Proper (same_page ==> eq ==> eq ==> eq ==> eq ==> eq ==> iff) (node ps).
Proof. intros b b' Hb ? ? -> ? ? -> ? ? -> ? ? -> ? ? ->. split; apply node_same; [done|by symmetry]. Qed.

Lemma node_readable ps b id leaf next fe dir : node ps b id leaf next fe dir -> readable ps b.
Proof.
  intros N. pose proof (nd_ps _ _ _ _ _ _ _ N). split; [apply N|]. rewrite decode_spec, (nd_len _ _ _ _ _ _ _ N).
  rewrite (proj2 (Z.ltb_ge _ _)) by lia. pose proof (nd_magic _ _ _ _ _ _ _ N) as M.
  assert (E0 : sub b 0 4 = PAGE_MAGIC).
  { rewrite <- (Z.add_0_l 0), <- (sub_sub b 0 6) by lia. by rewrite M. }
  assert (E4 : sub b 4 2 = le_enc 2 PAGE_FORMAT_VERSION).
  { replace 4 with (0 + 4) by lia. rewrite <- (sub_sub b 0 6) by lia. by rewrite M. }
  unfold u16_at. rewrite E0, E4, bool_decide_eq_true_2 by done. cbn [negb].
  change (1 <? le_dec (le_enc 2 PAGE_FORMAT_VERSION)) with false. cbv iota.
  rewrite (nd_type _ _ _ _ _ _ _ N). cbn [le_dec]. rewrite Z.mul_0_r, Z.add_0_r, page_type_roundtrip. eauto.
Qed.

Lemma node_fits ps b id leaf next fe dir : node ps b id leaf next fe dir -> required_total dir.*2 <= usable_bytes ps.
Proof.
  intros N. pose proof (nd_ps _ _ _ _ _ _ _ N). pose proof (nd_gap _ _ _ _ _ _ _ N). pose proof (nd_live _ _ _ _ _ _ _ N).
  rewrite usable_eq, required_total_live, length_fmap by lia. lia.
Qed.

Section Ops.
Context {S : Type} {P : Pager S} {L : PagerLaws S} (ps : Z).
Let usable := usable_bytes ps.

Abbreviation world := (S * BTree)%type.
Abbreviation models n w σ := (pg_models ps n (fst w) σ).

(** ** Pages that hold a node *)

Definition holds (b : bytes) (d : desc) : Prop :=
  exists fe dir, node ps b (d_page d) (d_leaf d) (d_next d) fe dir /\ dir.*2 = d_entries d.
Definition held (σ : gmap Z bytes) (d : desc) : Prop :=
  d_page d <> 0 /\ exists b, σ !! d_page d = Some b /\ holds b d.

Lemma holds_same b b' d : same_page b b' -> holds b d -> holds b' d.
Proof. intros Hs (fe & dir & N & E). exists fe, dir. split; [by eapply node_same|done]. Qed.

Lemma held_frame (σ σ' : gmap Z bytes) d : σ' !! d_page d = σ !! d_page d -> held σ d -> held σ' d.
Proof. intros E [H1 H2]. split; [done|]. by rewrite E. Qed.
Lemma held_insert_ne σ p b d : d_page d <> p -> held σ d -> held (<[p := b]> σ) d.
Proof. intros Hne. apply held_frame. by apply lookup_insert_ne. Qed.
Lemma Forall_held_insert_ne σ p b ds : p ∉ pages ds -> Forall (held σ) ds -> Forall (held (<[p := b]> σ)) ds.
Proof.
  intros Hp H. rewrite Forall_forall in *. intros d Hd. apply held_insert_ne; [|by apply H].
  intros <-. apply Hp. apply list_elem_of_fmap. eauto.
Qed.

Lemma held_pages σ ds : Forall (held σ) ds -> Forall (fun p => 0 < p < U64) (pages ds).
Proof.
  intros H. apply Forall_fmap. eapply Forall_impl; [exact H|]. intros d (Hn & b & _ & fe & dir & N & _). cbn.
  destruct (nd_u64 _ _ _ _ _ _ _ N) as [Hu _]. unfold is_u64 in Hu. lia.
Qed.

(** ** Steps *)

Lemma page_spec n w σ d :
  models n w σ -> held σ d ->
  exists b s', page (d_page d) w = (Val b, (s', snd w)) /\ pg_models ps n s' σ /\ holds b d.
Proof.
  intros M (_ & b & Hb & Hh). destruct (pg_get_law ps n (fst w) σ (cache_class (snd w)) _ b M Hb) as (b' & s' & E & Hs & M').
  exists b', s'. unfold page, st_bind, gets, on_pool. rewrite E. ands; [done|done|]. eapply holds_same; [by symmetry|done].
Qed.

Lemma get_search_spec n w σ d :
  models n w σ -> held σ d ->
  exists b s', on_pool (pg_get Search (d_page d)) w = (Val b, (s', snd w)) /\ pg_models ps n s' σ /\ holds b d.
Proof.
  intros M (_ & b & Hb & Hh). destruct (pg_get_law ps n (fst w) σ Search _ b M Hb) as (b' & s' & E & Hs & M').
  exists b', s'. unfold on_pool. rewrite E. ands; [done|done|]. eapply holds_same; [by symmetry|done].
Qed.

Lemma update_spec {A} n w σ d (m : nst A) (Q : res PageError A -> desc -> Prop) :
  models n w σ -> held σ d ->
  (forall b, holds b d -> exists r b' d', m b = (r, b') /\ holds b' d' /\ d_page d' = d_page d /\ Q r d') ->
  exists r d' s' b', update (d_page d) m w = (r, (s', snd w)) /\ d_page d' = d_page d /\ Q r d' /\
    pg_models ps n s' (<[d_page d := b']> σ) /\ held (<[d_page d := b']> σ) d'.
Proof.
  intros M (Hn & b & Hb & Hh) Hm. destruct (pg_get_mut_law ps n (fst w) σ _ b M Hb) as (b0 & Hs & Hlaw).
  destruct (Hm b0) as (r & b' & d' & E & Hh' & Ep & HQ); [eapply holds_same; [by symmetry|done]|].
  destruct (Hlaw A m) as (s' & E' & M').
  { rewrite E. destruct Hh' as (fe & dir & N & _). by eapply node_readable. }
  rewrite E in E', M'. cbn [fst snd] in E', M'.
  exists r, d', s', b'. unfold update, on_pool. rewrite E'. ands; try done.
  split; [by rewrite Ep|]. rewrite Ep, lookup_insert_eq. eauto.
Qed.

Lemma init_spec n w σ p b0 leaf (m : nst unit) d' :
  models n w σ -> σ !! p = Some b0 -> blen b0 = ps -> 512 <= ps <= 65536 -> is_u64 p -> p <> 0 -> d_page d' = p ->
  (forall b, node ps b p leaf 0 (ps - 8) [] -> exists b', m b = (Val tt, b') /\ holds b' d') ->
  exists s' b', update p (node_init p ps leaf ;;; m) w = (Val tt, (s', snd w)) /\
    pg_models ps n s' (<[p := b']> σ) /\ held (<[p := b']> σ) d'.
Proof.
  intros M Hb Hlen Hps Hu Hne Ep Hm. destruct (pg_get_mut_law ps n (fst w) σ _ b0 M Hb) as (b1 & (Hl1 & _) & Hlaw).
  destruct (node_init_spec ps b1 p leaf Hps) as (b2 & E2 & N2); [lia|done|].
  destruct (Hm b2 N2) as (b3 & E3 & H3).
  assert (E : (node_init p ps leaf ;;; m) b1 = (Val tt, b3)) by (unfold st_bind; by rewrite E2).
  destruct (Hlaw _ (node_init p ps leaf ;;; m)) as (s' & E' & M').
  { rewrite E. destruct H3 as (fe & dir & N & _). by eapply node_readable. }
  rewrite E in E', M'. cbn [fst snd] in E', M'. exists s', b3. unfold update, on_pool. rewrite E'.
  ands; try done. split; rewrite Ep; [done|]. rewrite lookup_insert_eq. eauto.
Qed.

(** The node operations on descriptions. *)
Lemma holds_rebuild b d es :
  holds b d -> sorted es -> required_total es <= usable ->
  exists b', rebuild es ps b = (Val tt, b') /\ holds b' (mkDesc (d_page d) (d_leaf d) es (d_next d)).
Proof.
  intros (fe & dir & N & E) Hs Hfit. destruct (rebuild_spec _ _ _ _ _ _ _ es N Hs Hfit) as (b' & fe' & dir' & E' & N' & Ed).
  exists b'. split; [done|]. by exists fe', dir'.
Qed.
Lemma holds_set_next b d v : holds b d -> is_u64 v ->
  exists b', set_next_page v b = (Val tt, b') /\ holds b' (mkDesc (d_page d) (d_leaf d) (d_entries d) v).
Proof.
  intros (fe & dir & N & E) Hv. destruct (node_bounds _ _ _ _ _ _ _ N) as (?&?&?&?&?).
  unfold set_next_page. rewrite copy_at_in by blia. eexists. split; [done|]. exists fe, dir. split; [by eapply node_set_next|done].
Qed.
Lemma holds_rebuild_next b d es v :
  holds b d -> sorted es -> required_total es <= usable -> is_u64 v ->
  exists b', (rebuild es ps ;;; set_next_page v) b = (Val tt, b') /\ holds b' (mkDesc (d_page d) (d_leaf d) es v).
Proof.
  intros Hh Hs Hf Hv. destruct (holds_rebuild b d es Hh Hs Hf) as (b1 & E1 & H1).
  destruct (holds_set_next _ _ v H1 Hv) as (b2 & E2 & H2). exists b2. unfold st_bind. by rewrite E1, E2.
Qed.

Lemma top_held σ t : Forall (held σ) (nodes t) -> 0 < top t < U64.
Proof. intros H%held_pages. rewrite Forall_forall in H. apply H, top_in_pages. Qed.
Lemma kids_held σ kids : Forall (held σ) (kids_nodes kids) -> Forall (fun s => is_u64 (snd s)) (seps kids).
Proof.
  induction kids as [|[s t] kids IH]; [constructor|]. rewrite kids_nodes_cons, Forall_app. intros [Ht Hk].
  constructor; [|by apply IH]. pose proof (top_held _ _ Ht). cbn. unfold is_u64. lia.
Qed.

(** ** Descent *)

(** One turn at an interior node: the child taken, as a frame. *)
Lemma route_spec σ h lo hi p kids rt b k :
  wf usable (Datatypes.S h) lo hi (Inner p kids rt) -> inside lo hi k ->
  Forall (held σ) (nodes (Inner p kids rt)) -> holds b (inner_desc p kids rt) ->
  exists f t lo' hi', Inner p kids rt = fill1 f t /\ f_page f = p /\ frame_wf usable (wf usable h) lo hi f lo' hi' /\
    wf usable h lo' hi' t /\ inside lo' hi' k /\ child_for b k = Val (top t) /\ 0 < top t < U64 /\
    Forall (held σ) (nodes t) /\
    exists i exact, node_search b k = Val (i, exact) /\ (if exact : bool then i + 1 else i) = Z.of_nat (length (f_before f)) /\
      child_at b (Z.of_nat (length (f_before f))) = Val (top t).
Proof.
  intros [Hne Hk] Hin Hheld (fe & dir & N & E). cbn [inner_desc d_page d_leaf d_next d_entries] in N, E.
  destruct (wf_seps _ _ _ _ _ _ Hk) as [Hs _]. rewrite nodes_inner in Hheld.
  assert (Hu : Forall (fun s => is_u64 (snd s)) (seps kids)).
  { apply Forall_cons in Hheld as [_ Hh]. apply Forall_app in Hh as [Hh _]. by eapply kids_held. }
  destruct (child_for_spec ps b p (top rt) fe false dir (seps kids) N E Hu k Hs) as (s1 & s2 & Eseps & H1 & H2 & Ec & i & ex & Es & Ei).
  apply fmap_app_inv in Eseps as (k1 & k2 & -> & -> & Ekids).
  destruct (route_frame usable (wf usable h) lo hi p kids rt k k1 k2 Hk Hne Hin Ekids) as (f & t & lo' & hi' & Ef & Ep & Eb & Hf & Ht & Hin' & Etop).
  { exact (proj1 (Forall_fmap _ _ _) H1). }
  { exact (proj1 (Forall_fmap _ _ _) H2). }
  assert (Ech : child_at b (Z.of_nat (length k1)) = Val (top t)).
  { rewrite (child_at_eq ps b p (top rt) fe false dir (seps kids) N E Hu), Ekids, Etop. f_equal.
    rewrite seps_app, lookup_app_r by (by rewrite length_seps). rewrite length_seps, Nat.sub_diag.
    by destruct k2 as [|[s t'] k2]. }
  assert (Hht : Forall (held σ) (nodes t)).
  { rewrite <- nodes_inner, Ef, nodes_fill1 in Hheld. apply Forall_cons in Hheld as [_ Hh]. rewrite !Forall_app in Hh. tauto. }
  rewrite length_fmap in Ei, Ec. exists f, t, lo', hi'. rewrite Eb, Ec, Ech. destruct (top_held _ _ Hht) as [? ?].
  ands; try done. exists i, ex. by ands.
Qed.

Lemma descend_loop_spec k n σ h : forall lo hi t left path w,
  wf usable h lo hi t -> inside lo hi k -> Forall (held σ) (nodes t) -> (h <= left)%nat -> models n w σ ->
  exists fs leaf es nx lo' hi' s',
    descend_loop k left path (top t) w = (Val (path ++ reverse (f_page <$> fs) ++ [leaf]), (s', snd w)) /\
    pg_models ps n s' σ /\ t = fill fs (Leaf leaf es nx) /\ ctx_wf usable 0 lo' hi' fs h lo hi /\
    wf usable 0 lo' hi' (Leaf leaf es nx) /\ inside lo' hi' k.
Proof.
  induction h as [|h IH]; intros lo hi t left path w Hwf Hin Hheld Hleft M; destruct t as [p es nx|p kids rt]; try done.
  - assert (Hd : held σ (mkDesc p true es nx)) by (by apply Forall_cons in Hheld as [? _]).
    destruct (page_spec n w σ _ M Hd) as (b & s' & E & M' & fe & dir & N & _). cbn [d_page d_leaf d_next d_entries] in *.
    exists [], p, es, nx, lo, hi, s'. ands; try done.
    destruct left; cbn [descend_loop top]; unfold st_bind at 1; rewrite E; unfold st_bind, st_lift;
      by rewrite (is_leaf_eq _ _ _ _ _ _ _ N).
  - destruct left as [|left]; [lia|].
    assert (Hd : held σ (inner_desc p kids rt)) by (by apply Forall_cons in Hheld as [? _]).
    destruct (page_spec n w σ _ M Hd) as (b & s' & E & M' & Hb).
    destruct (route_spec σ h lo hi p kids rt b k Hwf Hin Hheld Hb) as (f & t & lo1 & hi1 & Ef & Ep & Hf & Ht & Hin1 & Ec & Ht0 & Hht & _).
    destruct (IH lo1 hi1 t left (path ++ [p]) (s', snd w) Ht Hin1 Hht ltac:(lia) M')
      as (fs & leaf & es & nx & lo2 & hi2 & s2 & E2 & M2 & Et & Hc & Hl & Hin2).
    exists (fs ++ [f]), leaf, es, nx, lo2, hi2, s2. ands; try done.
    + destruct Hb as (fe & dir & N & _). cbn [inner_desc d_page d_leaf] in N, E.
      cbn [descend_loop top]. unfold st_bind at 1. rewrite E. unfold st_bind at 1, st_lift at 1. rewrite (is_leaf_eq _ _ _ _ _ _ _ N).
      unfold st_bind at 1, st_lift at 1. rewrite Ec. rewrite (proj2 (Z.eqb_neq _ _)) by lia. rewrite E2.
      rewrite fmap_app, reverse_app. cbn [fmap list_fmap reverse]. rewrite Ep, <- !app_assoc. done.
    + by rewrite fill_snoc, <- Et.
    + by eapply ctx_wf_snoc.
Qed.

(** ** The tree in the pages *)

Record tree_ok (σ : gmap Z bytes) (tr : BTree) (h : nat) (t : bt) : Prop := {
  to_wf : wf usable h None None t;
  to_held : Forall (held σ) (nodes t);
  to_distinct : NoDup (pages (nodes t));
  to_linked : linked (leaves (nodes t)) 0;
  to_root : root tr = top t
}.

Lemma held_size σ t : Forall (held σ) (nodes t) -> 512 <= ps <= 65536.
Proof.
  intros H. destruct (nodes t) as [|d l] eqn:E; [by destruct t|]. apply Forall_cons in H as [(_ & b & _ & fe & dir & N & _) _].
  apply N.
Qed.

Lemma descend_spec n w σ h t k : models n w σ -> tree_ok σ (snd w) h t ->
  exists fs leaf es nx lo hi s',
    descend k w = (Val (reverse (f_page <$> fs) ++ [leaf]), (s', snd w)) /\
    pg_models ps n s' σ /\ t = fill fs (Leaf leaf es nx) /\ ctx_wf usable 0 lo hi fs h None None /\
    wf usable 0 lo hi (Leaf leaf es nx) /\ inside lo hi k.
Proof.
  intros M [Hwf Hheld Hnd Hl Hr].
  pose proof (wf_depth _ _ _ _ _ Hwf Hnd (held_pages _ _ Hheld)) as Hh.
  destruct (descend_loop_spec k n σ h None None t 64 [] w Hwf ltac:(done) Hheld ltac:(lia) M)
    as (fs & leaf & es & nx & lo & hi & s' & E & Rest).
  exists fs, leaf, es, nx, lo, hi, s'. unfold descend, root_of, st_bind, gets. rewrite Hr, E. done.
Qed.

Lemma last_of_spec path p (w : world) : last_of (path ++ [p]) w = (Val p, w).
Proof. unfold last_of. by rewrite last_snoc. Qed.

(** The nodes around the leaf of a descent. *)
Section Hole.
Context (σ : gmap Z bytes) (tr : BTree) (h : nat) (fs : list frame) (p : Z) (es : list entry) (nx : Z) (lo hi : option bytes).
Hypothesis T : tree_ok σ tr h (fill fs (Leaf p es nx)).
Hypothesis Hc : ctx_wf usable 0 lo hi fs h None None.

Lemma hole_nodes es' : nodes (fill fs (Leaf p es' nx)) = pre fs p ++ [mkDesc p true es' nx] ++ post fs.
Proof using. by rewrite nodes_fill. Qed.

Lemma hole_held : held σ (mkDesc p true es nx).
Proof using T. destruct T as [_ H _ _ _]. rewrite hole_nodes, !Forall_app, Forall_singleton in H. tauto. Qed.

Lemma hole_data k : inside lo hi k -> below k (data (pre fs p)) /\ above k (data (post fs)).
Proof using Hc. intros Hin. by eapply ctx_below. Qed.

Lemma data_fill es' : data (nodes (fill fs (Leaf p es' nx))) = data (pre fs p) ++ es' ++ data (post fs).
Proof using. rewrite hole_nodes, !data_app, data_leaf. done. Qed.

(** The leaf rewritten in place. *)
Lemma hole_replace σ' es' :
  wf usable 0 lo hi (Leaf p es' nx) -> held σ' (mkDesc p true es' nx) ->
  (forall q, q <> p -> σ' !! q = σ !! q) -> tree_ok σ' tr h (fill fs (Leaf p es' nx)).
Proof using T Hc.
  intros Hwf Hh Hother. destruct T as [_ Hheld Hnd Hlk Hr]. rewrite hole_nodes in Hheld, Hnd, Hlk.
  assert (Hps : pages (pre fs p ++ [mkDesc p true es' nx] ++ post fs) = pages (pre fs p ++ [mkDesc p true es nx] ++ post fs))
    by (by rewrite !pages_app).
  split; rewrite ?hole_nodes.
  - by eapply wf_fill.
  - rewrite !pages_app, NoDup_app in Hnd. destruct Hnd as (_ & N1 & N2). rewrite NoDup_app in N2. destruct N2 as (_ & N2 & _).
    rewrite !Forall_app in Hheld |- *. destruct Hheld as (H1 & _ & H3). ands; [|by constructor|].
    + rewrite Forall_forall in *. intros d Hd. apply (held_frame σ); [|by apply H1]. apply Hother. intros E.
      apply (N1 (d_page d)); [by apply list_elem_of_fmap; eauto|]. rewrite E. apply elem_of_app. left. by left.
    + rewrite Forall_forall in *. intros d Hd. apply (held_frame σ); [|by apply H3]. apply Hother. intros E.
      apply (N2 p); [by left|]. rewrite <- E. by apply list_elem_of_fmap; eauto.
  - by rewrite Hps.
  - rewrite !leaves_app, leaves_leaf, !linked_app in Hlk |- *. exact Hlk.
  - rewrite Hr. clear. revert es es'. induction fs as [|f fs' _] using rev_ind; intros; [done|]. by rewrite !fill_snoc, !top_fill1.
Qed.
End Hole.

(** [get] returns the value stored under the key. *)
Lemma get_spec n w σ h t k : models n w σ -> tree_ok σ (snd w) h t ->
  exists s', get k w = (Val (kv_get k (data (nodes t))), (s', snd w)) /\ pg_models ps n s' σ.
Proof.
  intros M T. destruct (descend_spec n w σ h t k M T) as (fs & p & es & nx & lo & hi & s1 & E & M1 & -> & Hc & Hwf & Hin).
  destruct (page_spec n (s1, snd w) σ _ M1 (hole_held _ _ _ _ _ _ _ T)) as (b & s2 & E2 & M2 & fe & dir & N & Ed).
  cbn [d_page d_leaf d_next d_entries] in *. destruct (hole_data h fs p lo hi Hc k Hin) as [Hb Ha].
  exists s2. split; [|done]. rewrite data_fill, kv_get_between by done.
  unfold get. unfold st_bind at 1. rewrite E. unfold st_bind at 1. rewrite last_of_spec. unfold st_bind at 1. rewrite E2.
  destruct Hwf as (Hs & _ & _). rewrite <- Ed in Hs |- *. destruct (search_spec _ _ _ _ _ _ _ N Hs k) as (i & exact & Es & Hloc).
  unfold st_bind at 1, st_lift at 1. rewrite Es. destruct exact.
  - destruct Hloc as (l1 & l2 & El & -> & Hbl & v0 & l3 & -> & Hab). rewrite El, kv_get_middle by done.
    destruct (fmap_snd_split dir l1 _ El) as (d1 & d2 & Ed' & E1 & E3). destruct d2 as [|d d2]; [done|].
    rewrite fmap_cons in E3. assert (Esd : snd d = (k, v0)) by congruence.
    assert (Hd : dir !! length l1 = Some d) by (rewrite Ed', <- E1, length_fmap; by apply list_lookup_middle).
    unfold st_bind, st_lift. rewrite (value_eq _ _ _ _ _ _ _ N _ _ Hd), Esd. done.
  - by rewrite (located_absent _ _ _ Hloc).
Qed.

(** [remove] takes the key out, and says whether it was there. *)
Lemma remove_spec n w σ h t k : models n w σ -> tree_ok σ (snd w) h t ->
  exists s' σ' t', remove k w = (Val (bool_decide (is_Some (kv_get k (data (nodes t))))), (s', snd w)) /\
    pg_models ps n s' σ' /\ tree_ok σ' (snd w) h t' /\ data (nodes t') = kv_remove k (data (nodes t)) /\
    forall q, q ∉ pages (nodes t) -> σ' !! q = σ !! q /\ (q ∉ pages (nodes t')).
Proof.
  intros M T. destruct (descend_spec n w σ h t k M T) as (fs & p & es & nx & lo & hi & s1 & E & M1 & -> & Hc & Hwf & Hin).
  destruct (hole_data h fs p lo hi Hc k Hin) as [Hb Ha]. pose proof Hwf as (Hs & Hi & Hok).
  destruct (update_spec n (s1, snd w) σ (mkDesc p true es nx) (node_remove k)
    (fun r d => r = Val (bool_decide (is_Some (kv_get k es))) /\ d = mkDesc p true (kv_remove k es) nx) M1
    (hole_held _ _ _ _ _ _ _ T)) as (r & d & s2 & b & Eu & _ & [-> ->] & M2 & Hh).
  { intros b (fe & dir & N & Ed). cbn [d_page d_leaf d_next d_entries] in *. subst es.
    destruct (node_remove_spec _ _ _ _ _ _ _ k N Hs) as (b' & dir' & Er & N' & Ed').
    eexists _, b', (mkDesc p true (kv_remove k dir.*2) nx). ands; [exact Er| |done|done|done]. by exists fe, dir'. }
  cbn [d_page] in *. exists s2, (<[p := b]> σ), (fill fs (Leaf p (kv_remove k es) nx)).
  rewrite !data_fill, kv_get_between, kv_remove_between by done. ands; [|done| |done|].
  - unfold remove, st_bind. rewrite E, last_of_spec, Eu. done.
  - eapply hole_replace; [exact T|exact Hc| |exact Hh|].
    + cbn [wf]. ands; [by apply kv_remove_sorted| |]; unfold kv_remove; rewrite Forall_forall in *;
        intros x [_ Hx]%list_elem_of_filter; auto.
    + intros q Hq. by apply lookup_insert_ne.
  - intros q Hq. rewrite hole_nodes, !pages_app in Hq |- *. split; [|exact Hq]. apply lookup_insert_ne. intros <-. apply Hq. set_solver.
Qed.
End Ops.
