(* ===== verification/BTreeInsert.v ===== *)
(** * Insertion into the B+ tree

    [insert_separator] carries a split up the path: whatever the tree, it ends
    with a well-formed tree holding the same leaves, possibly one level higher.
    [insert] is insertion into the map the tree represents. *)

From stdpp Require Import base tactics list numbers gmap sorting.
From Stdlib Require Import ZArith Lia.
From S2P Require Import Prelude Search Bytes Errors PageFormat Pager Keys BTreeNode BTreeNodeSpec BTreeSplit BTree BTreeTheory BTreeOps.
Local Open Scope Z_scope.
Local Open Scope bic_scope.

(** ** Lists of separators *)

Lemma le_enc8_inj a b : is_u64 a -> is_u64 b -> le_enc 8 a = le_enc 8 b -> a = b.
Proof. intros Ha Hb E. apply (f_equal le_dec) in E. by rewrite !le_dec_u64 in E. Qed.

Lemma sep_entries_app l1 l2 : sep_entries (l1 ++ l2) = sep_entries l1 ++ sep_entries l2.
Proof. apply fmap_app. Qed.
Lemma sep_entries_cons k c l : sep_entries ((k, c) :: l) = (k, le_enc 8 c) :: sep_entries l.
Proof. done. Qed.
Lemma sep_space k c : required_space (k, le_enc 8 c) = blen k + 16.
Proof. unfold required_space, ENTRY_BYTES. cbn [fst snd]. rewrite blen_le_enc. lia. Qed.

(** No separator of [l] has the child [c]. *)
Lemma find_child_none l c : is_u64 c -> Forall (fun s => is_u64 (snd s)) l -> c ∉ l.*2 ->
  list_find (fun e : entry => snd e = le_enc 8 c) (sep_entries l) = None.
Proof.
  intros Hc Hl Hn. apply list_find_None. apply Forall_forall. intros e (s & -> & Hs)%list_elem_of_fmap. cbn [snd].
  intros E%le_enc8_inj; [|rewrite Forall_forall in Hl; by apply Hl|done]. apply Hn, list_elem_of_fmap. eauto.
Qed.
Lemma find_child l1 l2 k c : is_u64 c -> Forall (fun s => is_u64 (snd s)) l1 -> c ∉ l1.*2 ->
  list_find (fun e : entry => snd e = le_enc 8 c) (sep_entries (l1 ++ (k, c) :: l2)) = Some (length l1, (k, le_enc 8 c)).
Proof.
  intros Hc Hl Hn. rewrite sep_entries_app, sep_entries_cons.
  rewrite list_find_app_r by (by apply find_child_none). cbn [list_find]. rewrite decide_True by done.
  cbn [fmap option_fmap option_map prod_map]. unfold sep_entries. by rewrite length_fmap.
Qed.

Lemma tops_in_pages kids : (seps kids).*2 ⊆ pages (kids_nodes kids).
Proof.
  induction kids as [|[s t] kids IH]; [done|]. rewrite kids_nodes_cons, pages_app. cbn.
  intros p [->|Hp]%elem_of_cons; apply elem_of_app; [left; apply top_in_pages|right; by apply IH].
Qed.

Section Insert.
Context {S : Type} {P : Pager S} {L : PagerLaws S} (ps : Z).
Let usable := usable_bytes ps.
Abbreviation world := (S * BTree)%type.
Abbreviation models n w σ := (pg_models ps n (fst w) σ).
Abbreviation held := (held ps).
Abbreviation holds := (holds ps).
Abbreviation wf := (wf usable).
Abbreviation ctx_wf := (ctx_wf usable).
Abbreviation sep_ok := (sep_ok usable).

(** The children of the parent once the split is entered. *)
Definition kids_after (f : frame) (a : bt) (s : bytes) (b : bt) : list (bytes * bt) :=
  f_before f ++ (s, a) :: match f_after f with None => [] | Some (s', l, _) => (s', b) :: l end.
Definition right_after (f : frame) (b : bt) : bt := match f_after f with None => b | Some (_, _, rt) => rt end.

Lemma fill1_split f a s b : fill1 (split_frame f a s) b = Inner (f_page f) (kids_after f a s b) (right_after f b).
Proof.
  unfold fill1, split_frame, kids_after, right_after. cbn [f_after f_page f_before].
  destruct (f_after f) as [[[s' l] rt]|]; by rewrite <- ?app_assoc.
Qed.

(** The edit of the parent's entries. *)
Lemma separator_entries f a s b :
  is_u64 (top a) -> Forall (fun c => is_u64 (snd c)) (seps (f_before f)) -> top a ∉ (seps (f_before f)).*2 ->
  enter_split (d_entries (frame_desc f (top a))) (d_next (frame_desc f (top a))) s (top a) (top b) =
  Some (sep_entries (seps (kids_after f a s b)), top (right_after f b)).
Proof.
  intros Hu Hl Hn. unfold enter_split, frame_desc, kids_after, right_after. destruct (f_after f) as [[[s' l] rt]|]; cbn [d_entries d_next].
  - rewrite find_child by done. rewrite sep_entries_app, sep_entries_cons.
    assert (Hlen : length (seps (f_before f)) = length (sep_entries (seps (f_before f)))) by (unfold sep_entries; by rewrite length_fmap).
    rewrite Hlen, take_app_length, drop_app_length, alter_app_r_alt by lia.
    replace (length (sep_entries (seps (f_before f))) + 1 - length (sep_entries (seps (f_before f))))%nat with 1%nat by lia.
    cbn [alter list_alter fst]. rewrite seps_app, sep_entries_app. done.
  - rewrite find_child_none, Z.eqb_refl by done. rewrite seps_app, sep_entries_app. done.
Qed.

Lemma total_after f a s b :
  required_total (sep_entries (seps (kids_after f a s b))) =
  required_total (d_entries (frame_desc f (top a))) + (blen s + 16).
Proof.
  unfold frame_desc, kids_after. destruct (f_after f) as [[[s' l] rt]|]; cbn [d_entries];
    rewrite seps_app, !sep_entries_app, !required_total_app.
  - change (seps ((s, a) :: (s', b) :: l)) with ((s, top a) :: (s', top b) :: seps l).
    rewrite !sep_entries_cons, !required_total_cons, !sep_space. lia.
  - change (seps [(s, a)]) with [(s, top a)]. rewrite sep_entries_cons, required_total_cons, sep_space. cbn. lia.
Qed.

Lemma seps_space_ok kids : Forall (fun kt => sep_ok (fst kt)) kids ->
  Forall (fun e => 2 * required_space e <= usable) (sep_entries (seps kids)).
Proof.
  intros H. unfold sep_entries, seps. rewrite !Forall_fmap. eapply Forall_impl; [exact H|].
  intros [k t] Hk. unfold BTreeTheory.sep_ok in Hk. cbn [fst] in Hk.
  change (2 * required_space (k, le_enc 8 (top t)) <= usable). rewrite sep_space. lia.
Qed.

(** The first entry of a fresh interior node. *)
Lemma first_entry b p k c :
  node ps b p false 0 (ps - 8) [] -> sep_ok k ->
  exists b', node_insert k (le_enc 8 c) b = (Val true, b') /\ holds b' (mkDesc p false [(k, le_enc 8 c)] 0).
Proof.
  intros N Hk. pose proof (nd_ps _ _ _ _ _ _ _ N). unfold BTreeTheory.sep_ok, usable in Hk. rewrite usable_eq in Hk by lia.
  destruct (insert_all_spec (ValueTooLarge 0 0 0) [(k, le_enc 8 c)] ps b p false 0 (ps - 8) [] N) as (b' & fe & dir & E & N' & Ed).
  { by repeat constructor. }
  { rewrite required_total_cons, sep_space. cbn. pose proof (blen_nonneg k). lia. }
  cbn [insert_all] in E. unfold st_bind in E. destruct (node_insert k (le_enc 8 c) b) as [[[]| |] b1]; try done.
  injection E as ->. exists b'. split; [done|]. by exists fe, dir.
Qed.

(** A new root over the two halves. *)
Lemma grow_root path n w σ a s b :
  models (1 + n) w σ -> 512 <= ps <= 65536 -> sep_ok s -> is_u64 (top b) ->
  exists s' q σ', insert_separator path 0 s (top a) (top b) w = (Val tt, (s', mkTree q true (cache_class (snd w)))) /\
    σ !! q = None /\ pg_models ps n s' σ' /\ held σ' (inner_desc q [(s, a)] b) /\ (forall p, p <> q -> σ' !! p = σ !! p).
Proof.
  intros M Hps Hs Hb. pose proof (pg_size_law _ _ _ _ M) as Hsize.
  destruct (pg_allocate_law ps n (fst w) σ BTreeInterior M ltac:(done) ltac:(done)) as (q & b0 & s1 & E1 & Hq & Hq0 & Hqu & Hlen & M1).
  destruct (init_spec ps n (s1, snd w) _ q b0 false
     (do inserted <- node_insert s (le_enc 8 (top a)) ;;
      if inserted : bool then set_next_page (top b) else st_fail (ValueTooLarge q (blen s + 8) (usable_bytes ps)))
     (inner_desc q [(s, a)] b) M1) as (s2 & b2 & E2 & M2 & H2); try done.
  { by apply lookup_insert_eq. }
  { intros c N. destruct (first_entry c q s (top a) N Hs) as (c1 & F1 & G1). destruct (holds_set_next ps _ _ (top b) G1 Hb) as (c2 & F2 & G2).
    exists c2. unfold st_bind. rewrite F1, F2. done. }
  destruct (pg_flush_law _ _ _ _ M2) as (k & s3 & E3 & M3).
  exists s3, q, (<[q := b2]> (<[q := b0]> σ)). ands; try done.
  - cbn [insert_separator]. unfold st_bind at 1, gets at 1. rewrite Hsize. cbv zeta. unfold st_bind at 1, on_pool at 1. rewrite E1.
    unfold st_bind at 1. rewrite E2. unfold st_bind, on_pool. cbn [fst snd]. by rewrite E3.
  - intros p Hp. by rewrite !lookup_insert_ne.
Qed.

(** ** One level *)

(** Where a good split falls among the children. *)
Lemma split_kids kids j : good_split (sep_entries (seps kids)) usable true j ->
  exists l k t r, kids = l ++ (k, t) :: r /\ l <> [] /\ r <> [] /\ length l = j /\
    required_total (sep_entries (seps l)) <= usable /\ required_total (sep_entries (seps r)) <= usable.
Proof.
  intros (H0 & Hlt & Hl & Hr). unfold sep_entries in Hlt. rewrite length_fmap, length_seps in Hlt.
  destruct (lookup_lt_is_Some_2 kids j) as [[k t] Hkt]; [lia|].
  exists (take j kids), k, t, (drop (Datatypes.S j) kids).
  rewrite take_drop_middle by done. ands; try done.
  - intros E%(f_equal length). rewrite length_take in E. cbn in E. lia.
  - intros E%(f_equal length). rewrite length_drop in E. cbn in E. lia.
  - rewrite length_take. lia.
  - unfold sep_entries, seps in *. by rewrite !fmap_take.
  - unfold sep_entries, seps in *. rewrite !fmap_drop. by rewrite Nat.add_1_r in Hr.
Qed.

Section Level.
Context (f : frame) (fs : list frame) (path tail : list Z) (n : nat) (w : world) (σ : gmap Z bytes) (a : bt) (s : bytes) (b : bt).
Hypothesis Hpath : path = reverse (f_page <$> f :: fs) ++ tail.
Hypothesis M : models (1 + n) w σ.
Hypothesis Hd : held σ (frame_desc f (top a)).
Hypothesis Hua : is_u64 (top a).
Hypothesis Hus : Forall (fun c => is_u64 (snd c)) (seps (kids_after f a s b)).
Hypothesis Hfresh : top a ∉ (seps (f_before f)).*2.
Hypothesis Hur : is_u64 (top (right_after f b)).
Let es := sep_entries (seps (kids_after f a s b)).
Hypothesis Hsorted : sorted es.
Hypothesis Hok : Forall (fun kt => sep_ok (fst kt)) (kids_after f a s b).
Hypothesis Hs : sep_ok s.

Lemma path_parent : path !! length fs = Some (f_page f).
Proof.
  rewrite Hpath. cbn [fmap list_fmap]. rewrite reverse_cons, <- app_assoc. cbn [app].
  rewrite lookup_app_r by (rewrite length_reverse, length_fmap; lia). rewrite length_reverse, length_fmap, Nat.sub_diag. done.
Qed.

Lemma page_frame_desc c : d_page (frame_desc f c) = f_page f /\ d_leaf (frame_desc f c) = false.
Proof. unfold frame_desc. by destruct (f_after f) as [[[? ?] ?]|]. Qed.

Lemma level_step :
  (exists s' b', insert_separator path (Datatypes.S (length fs)) s (top a) (top b) w = (Val tt, (s', snd w)) /\
     pg_models ps (1 + n) s' (<[f_page f := b']> σ) /\
     held (<[f_page f := b']> σ) (inner_desc (f_page f) (kids_after f a s b) (right_after f b))) \/
  (exists l k t r q s' σ', kids_after f a s b = l ++ (k, t) :: r /\ l <> [] /\ r <> [] /\
     insert_separator path (Datatypes.S (length fs)) s (top a) (top b) w =
       insert_separator path (length fs) k (f_page f) q (s', snd w) /\
     pg_models ps n s' σ' /\ σ !! q = None /\
     held σ' (inner_desc (f_page f) l t) /\ held σ' (inner_desc q r (right_after f b)) /\
     (forall x, x <> f_page f -> x <> q -> σ' !! x = σ !! x)).
Proof.
  pose proof (pg_size_law _ _ _ _ M) as Hsize. destruct (page_frame_desc (top a)) as [Ep El].
  destruct (get_search_spec ps _ w σ _ M Hd) as (c & s1 & E1 & M1 & fe & dir & N & Ed). rewrite Ep in *.
  pose proof (nd_ps _ _ _ _ _ _ _ N) as Hps. pose proof (node_fits _ _ _ _ _ _ _ N) as Hfit. rewrite Ed in Hfit.
  assert (Hbefore : Forall (fun c => is_u64 (snd c)) (seps (f_before f))).
  { unfold kids_after in Hus. rewrite seps_app, Forall_app in Hus. tauto. }
  pose proof (separator_entries f a s b Hua Hbefore Hfresh) as Eent. fold es in Eent.
  assert (Estep : insert_separator path (Datatypes.S (length fs)) s (top a) (top b) w =
    (if required_total es <=? usable then
       update (f_page f) (rebuild es ps ;;; set_next_page (top (right_after f b)))
     else
       do middle <- st_lift (byte_split es usable true) ;;
       match es !! Z.to_nat middle with
       | None => st_panic
       | Some (promoted, promoted_value) =>
           do promoted_child <- st_lift (u64_of promoted_value) ;;
           do new_interior <- on_pool (pg_allocate BTreeInterior) ;;
           update new_interior (
             node_init new_interior ps false ;;;
             rebuild (drop (Z.to_nat middle + 1) es) ps ;;;
             set_next_page (top (right_after f b))) ;;;
           update (f_page f) (rebuild (take (Z.to_nat middle) es) ps ;;; set_next_page promoted_child) ;;;
           insert_separator path (length fs) promoted (f_page f) new_interior
       end) (s1, snd w)).
  { cbn [insert_separator]. unfold st_bind at 1, gets at 1. rewrite Hsize, path_parent. cbv zeta. unfold st_bind at 1. rewrite E1.
    unfold st_bind at 1, st_lift at 1. rewrite (entries_eq _ _ _ _ _ _ _ N), Ed.
    unfold st_bind at 1, st_lift at 1. rewrite (next_eq _ _ _ _ _ _ _ N), Eent. done. }
  rewrite Estep. clear Estep. destruct (Z.leb_spec (required_total es) usable) as [Hle|Hgt].
  - left. destruct (update_spec ps _ (s1, snd w) σ (frame_desc f (top a)) (rebuild es ps ;;; set_next_page (top (right_after f b)))
      (fun r d => r = Val tt /\ d = inner_desc (f_page f) (kids_after f a s b) (right_after f b)) M1 Hd)
      as (r & d & s2 & b2 & E2 & _ & [-> ->] & M2 & H2).
    { intros c0 H0. destruct (holds_rebuild_next ps c0 _ es _ H0 Hsorted Hle Hur) as (c1 & F1 & G1).
      rewrite Ep, El in G1. eexists _, c1, _. ands; [exact F1|exact G1|done|done|done]. }
    rewrite Ep in *. eauto 10.
  - right. assert (Htot : 2 * required_total es <= 3 * usable).
    { unfold es. rewrite total_after. unfold BTreeTheory.sep_ok in Hs. fold usable in Hfit. lia. }
    destruct (byte_split_spec es usable true (seps_space_ok _ Hok) Hgt Htot) as (j & Ej & Gj).
    destruct (split_kids _ _ Gj) as (l & k & t & r & Ek & Hl & Hr & <- & Fl & Fr).
    assert (Ees : es = sep_entries (seps l) ++ (k, le_enc 8 (top t)) :: sep_entries (seps r)).
    { unfold es. rewrite Ek, seps_app, sep_entries_app. done. }
    assert (Hlen : length l = length (sep_entries (seps l))) by (unfold sep_entries; by rewrite length_fmap, length_seps).
    pose proof Hsorted as Hsorted'. rewrite Ees in Hsorted'. apply sorted_middle in Hsorted' as (Hsrt & _ & _).
    apply sorted_app in Hsrt as (Sl & Sr & _).
    assert (Hut : is_u64 (top t)).
    { rewrite Ek, seps_app, Forall_app in Hus. destruct Hus as [_ H]. by apply Forall_cons in H as [H _]. }
    destruct (pg_allocate_law ps n s1 σ BTreeInterior M1 ltac:(done) ltac:(done)) as (q & b0 & s2 & E2 & Hq & Hq0 & Hqu & Hlenb & M2).
    destruct (init_spec ps n (s2, snd w) _ q b0 false (rebuild (sep_entries (seps r)) ps ;;; set_next_page (top (right_after f b)))
      (inner_desc q r (right_after f b)) M2) as (s3 & b3 & E3 & M3 & H3); try done.
    { by apply lookup_insert_eq. }
    { intros c0 N0. apply (holds_rebuild_next ps c0 (mkDesc q false [] 0)); try done. by exists (ps - 8), []. }
    assert (Hpq : f_page f <> q). { intros E. destruct Hd as (_ & b' & Hb' & _). rewrite Ep, E in Hb'. congruence. }
    destruct (update_spec ps _ (s3, snd w) _ (frame_desc f (top a)) (rebuild (sep_entries (seps l)) ps ;;; set_next_page (top t))
      (fun r d => r = Val tt /\ d = inner_desc (f_page f) l t) M3)
      as (r4 & d4 & s4 & b4 & E4 & _ & [-> ->] & M4 & H4).
    { do 2 (apply held_insert_ne; [by rewrite Ep|]). done. }
    { intros c0 H0. destruct (holds_rebuild_next ps c0 _ (sep_entries (seps l)) _ H0 Sl Fl Hut) as (c1 & F1 & G1).
      rewrite Ep, El in G1. eexists _, c1, _. ands; [exact F1|exact G1|done|done|done]. }
    rewrite Ep in *. exists l, k, t, r, q, s4, (<[f_page f := b4]> (<[q := b3]> (<[q := b0]> σ))). ands; try done.
    + unfold st_bind at 1, st_lift at 1. rewrite Ej, Nat2Z.id.
      rewrite Ees, Hlen, list_lookup_middle by done. unfold st_bind at 1, st_lift at 1. rewrite u64_of_enc by done.
      unfold st_bind at 1, on_pool at 1. cbn [fst snd]. rewrite E2.
      rewrite <- drop_drop, take_app_length, drop_app_length. cbn [skipn]. rewrite drop_0.
      cbn [snd] in E3, E4. unfold st_bind at 1. rewrite E3. unfold st_bind at 1. rewrite E4. done.
    + by apply held_insert_ne.
    + intros x H1 H2. by rewrite !lookup_insert_ne.
Qed.
End Level.

(** ** All levels *)

Lemma nodes_after f a s b :
  kids_nodes (kids_after f a s b) ++ nodes (right_after f b) = kids_nodes (f_before f) ++ nodes a ++ nodes b ++ after_nodes f.
Proof.
  unfold kids_after, right_after, after_nodes. rewrite kids_nodes_app, kids_nodes_cons, <- !app_assoc.
  destruct (f_after f) as [[[s' l] rt]|]; [by rewrite kids_nodes_cons, <- !app_assoc|by rewrite app_nil_r].
Qed.

Lemma held_fresh σ ds q : Forall (held σ) ds -> σ !! q = None -> q ∉ pages ds.
Proof.
  intros H Hq (d & -> & Hd)%list_elem_of_fmap. rewrite Forall_forall in H. destruct (H d Hd) as (_ & b & Hb & _). congruence.
Qed.

Lemma Forall_held_frame (σ σ' : gmap Z bytes) ds :
  (forall q, q ∈ pages ds -> σ' !! q = σ !! q) -> Forall (held σ) ds -> Forall (held σ') ds.
Proof.
  intros Hq H. rewrite Forall_forall in *. intros d Hd. apply (held_frame ps σ); [|by apply H]. apply Hq, list_elem_of_fmap. eauto.
Qed.

(** The tree a split grows into: same leaves, other pages untouched. *)
Definition grown (n : nat) (w : world) (σ : gmap Z bytes) (ds : list desc) (r : res PageError unit * world) : Prop :=
  exists s' tr' σ' t' h', r = (Val tt, (s', tr')) /\ pg_models ps n s' σ' /\ wf h' None None t' /\
    Forall (held σ') (nodes t') /\ NoDup (pages (nodes t')) /\ leaves (nodes t') = leaves ds /\
    root tr' = top t' /\ cache_class tr' = cache_class (snd w) /\
    forall q, q ∉ pages ds -> is_Some (σ !! q) -> σ' !! q = σ !! q /\ (q ∉ pages (nodes t')).

(** Nodes around one that is rewritten. *)
Lemma pages_around A d C B : pages (A ++ (d :: C) ++ B) ≡ₚ d_page d :: pages (A ++ C ++ B).
Proof. rewrite !pages_app. change (pages (d :: C)) with (d_page d :: pages C). solve_Permutation. Qed.

Lemma leaves_around A d C B : d_leaf d = false -> leaves (A ++ (d :: C) ++ B) = leaves (A ++ C ++ B).
Proof. intros Hd. rewrite !leaves_app, leaves_inner by done. done. Qed.

(** The halves of a split root. *)
Lemma separator_root path n h w σ a s b :
  models (1 + n) w σ -> wf h None (Some s) a -> wf h (Some s) None b -> sep_ok s ->
  Forall (held σ) (nodes a ++ nodes b) -> NoDup (pages (nodes a ++ nodes b)) ->
  grown n w σ (nodes a ++ nodes b) (insert_separator path 0 s (top a) (top b) w).
Proof.
  intros M Ha Hb Hs Hheld Hnd. pose proof Hheld as [Hha Hhb]%Forall_app. pose proof (top_held _ _ _ Hhb).
  destruct (grow_root path n w σ a s b M (held_size _ _ _ Hha) Hs ltac:(unfold is_u64; lia))
    as (s' & q & σ' & E & Hq & M' & Hd & Hother).
  exists s', (mkTree q true (cache_class (snd w))), σ', (Inner q [(s, a)] b), (Datatypes.S h).
  pose proof (held_fresh _ _ _ Hheld Hq) as Hfresh.
  assert (En : nodes (Inner q [(s, a)] b) = inner_desc q [(s, a)] b :: nodes a ++ nodes b)
    by (rewrite nodes_inner, kids_nodes_cons, app_nil_r; done).
  rewrite En. ands; try done.
  - constructor; [done|]. eapply Forall_held_frame; [|exact Hheld]. intros x Hx. apply Hother. by intros ->.
  - constructor; done.
  - intros x Hds [c Hx]. assert (Hxq : x <> q) by (intros ->; congruence). split; [by apply Hother|].
    by intros [?|?]%elem_of_cons.
Qed.

Section Step.
Context (f : frame) (fs : list frame) (path tail : list Z) (n : nat) (h h0 : nat) (lo hi lo1 hi1 : option bytes).
Context (w : world) (σ : gmap Z bytes) (a : bt) (s : bytes) (b : bt).
Let p := f_page f.
Let kids := kids_after f a s b.
Let rt := right_after f b.
Let core := kids_nodes (f_before f) ++ nodes a ++ nodes b ++ after_nodes f.
Let others := pre fs p ++ core ++ post fs.
Let ds := pre fs p ++ (frame_desc f (top a) :: core) ++ post fs.
Hypothesis Hf : frame_wf usable (wf h) lo1 hi1 f lo hi.
Hypothesis Hc : ctx_wf (Datatypes.S h) lo1 hi1 fs h0 None None.
Hypothesis Ha : wf h lo (Some s) a.
Hypothesis Hb : wf h (Some s) hi b.
Hypothesis Hlo : strictly_low lo s.
Hypothesis Hhi : high hi s.
Hypothesis Hs : sep_ok s.
Hypothesis Hheld : Forall (held σ) ds.
Hypothesis Hnd : NoDup (pages ds).
Hypothesis Hroot : root (snd w) = ctx_top fs p.

Lemma step_core : core = kids_nodes kids ++ nodes rt.
Proof. unfold kids, rt, core. by rewrite nodes_after. Qed.
Lemma step_desc c : d_page (frame_desc f c) = p /\ d_leaf (frame_desc f c) = false.
Proof. apply page_frame_desc. Qed.
Lemma step_wf : wf (Datatypes.S h) lo1 hi1 (Inner p kids rt).
Proof. unfold p, kids, rt. rewrite <- fill1_split. eapply wf_fill1; [by eapply split_frame_wf|done]. Qed.
Lemma step_others : held σ (frame_desc f (top a)) /\ Forall (held σ) others /\ (p ∉ pages others) /\ NoDup (pages others).
Proof.
  unfold ds in Hnd, Hheld. rewrite pages_around in Hnd. destruct (step_desc (top a)) as [Ep _]. rewrite Ep in Hnd.
  apply NoDup_cons in Hnd as [? ?]. rewrite !Forall_app, Forall_cons in Hheld. unfold others. rewrite !Forall_app. tauto.
Qed.
Lemma step_tops : is_u64 (top a) /\ is_u64 (top rt) /\ Forall (fun c => is_u64 (snd c)) (seps kids) /\ top a ∉ (seps (f_before f)).*2.
Proof.
  destruct step_others as (_ & Ho & _ & Nd). unfold others in Ho, Nd. rewrite !Forall_app in Ho. destruct Ho as (_ & Hco & _).
  assert (Hna : Forall (held σ) (nodes a)) by (unfold core in Hco; rewrite !Forall_app in Hco; tauto).
  rewrite step_core, Forall_app in Hco. destruct Hco as [Hk Hr].
  pose proof (top_held _ _ _ Hna). pose proof (top_held _ _ _ Hr). unfold is_u64. ands; try lia; [by eapply kids_held|].
  intros Hin%tops_in_pages. unfold core in Nd. rewrite !pages_app, !NoDup_app in Nd. destruct Nd as (_ & _ & (_ & Hdis & _) & _).
  apply (Hdis _ Hin). apply elem_of_app. left. apply top_in_pages.
Qed.

(** The parent took the separator. *)
Lemma step_fits s' b' m :
  pg_models ps (m + n) s' (<[p := b']> σ) -> held (<[p := b']> σ) (inner_desc p kids rt) ->
  grown n w σ ds (Val tt, (s', snd w)).
Proof.
  intros M' Hd'. destruct step_others as (_ & Ho & Hpo & Ndo). destruct (step_desc (top a)) as [Ep El].
  exists s', (snd w), (<[p := b']> σ), (fill fs (Inner p kids rt)), h0.
  assert (En : nodes (fill fs (Inner p kids rt)) = pre fs p ++ (inner_desc p kids rt :: core) ++ post fs).
  { rewrite nodes_fill, nodes_inner, <- step_core. done. }
  rewrite En. ands; try done.
  - eapply pg_weaken; [|exact M']. lia.
  - eapply wf_fill; [exact Hc|apply step_wf].
  - apply (Forall_held_insert_ne ps σ p b') in Ho; [|done]. unfold others in Ho. rewrite !Forall_app, ?Forall_cons in *. tauto.
  - rewrite pages_around. by constructor.
  - unfold ds. by rewrite !leaves_around.
  - by rewrite top_fill.
  - intros x Hx _. unfold ds in Hx. rewrite pages_around in Hx |- *. rewrite Ep in Hx. split; [|done]. apply lookup_insert_ne.
    intros <-. apply Hx. by left.
Qed.

(** The parent was split in its turn. *)
Lemma step_splits l k t r q s' σ' res :
  kids = l ++ (k, t) :: r -> l <> [] -> r <> [] -> σ !! q = None ->
  held σ' (inner_desc p l t) -> held σ' (inner_desc q r rt) -> (forall x, x <> p -> x <> q -> σ' !! x = σ !! x) ->
  let ds' := pre fs p ++ nodes (Inner p l t) ++ nodes (Inner q r rt) ++ post fs in
  wf (Datatypes.S h) lo1 (Some k) (Inner p l t) /\ wf (Datatypes.S h) (Some k) hi1 (Inner q r rt) /\
  strictly_low lo1 k /\ high hi1 k /\ sep_ok k /\ Forall (held σ') ds' /\ NoDup (pages ds') /\
  (grown n (s', snd w) σ' ds' res -> grown n w σ ds res).
Proof.
  intros Ek Hl Hr Hq Hdl Hdr Hother ds'. destruct step_others as (_ & Ho & Hpo & Ndo). destruct (step_desc (top a)) as [Ep El].
  pose proof step_wf as [_ Hwf]. rewrite Ek in Hwf. apply wf_kids_middle in Hwf as (Wl & Wr & Wlo & Whi & Wok).
  pose proof (held_fresh _ _ _ Ho Hq) as Hqo.
  assert (Eo : others = pre fs p ++ (kids_nodes l ++ nodes t) ++ (kids_nodes r ++ nodes rt) ++ post fs).
  { unfold others. rewrite step_core, Ek, kids_nodes_app, kids_nodes_cons, <- !app_assoc. done. }
  assert (Eds : pages ds' ≡ₚ p :: q :: pages others).
  { unfold ds'. rewrite Eo, !nodes_inner, !pages_app. cbn [pages fmap list_fmap d_page inner_desc]. rewrite !pages_app. solve_Permutation. }
  assert (Hqp : q <> p) by (intros ->; destruct step_others as ((_ & c & Hx & _) & _); rewrite Ep in Hx; congruence).
  assert (Eold : pages ds ≡ₚ p :: pages others) by (unfold ds; by rewrite pages_around, Ep).
  assert (Elv : leaves ds' = leaves ds).
  { unfold ds. rewrite leaves_around by done. fold others. rewrite Eo. unfold ds'. rewrite !nodes_inner, !leaves_app, !leaves_inner, !leaves_app by done. done. }
  ands; try done.
  - assert (Ho' : Forall (held σ') others).
    { eapply Forall_held_frame; [|exact Ho]. intros x Hx. apply Hother; by intros ->. }
    rewrite Eo in Ho'. unfold ds'. rewrite !nodes_inner. rewrite !Forall_app, ?Forall_cons, ?Forall_app in *. tauto.
  - rewrite Eds. constructor; [by rewrite elem_of_cons; intros [?|?]|by constructor].
  - intros (s2 & tr2 & σ2 & t2 & h2 & E2 & M2 & W2 & H2 & N2 & L2 & R2 & C2 & F2).
    exists s2, tr2, σ2, t2, h2. rewrite L2, Elv. ands; try done. intros x Hx [c Hsx]. rewrite Eold, elem_of_cons in Hx.
    assert (Hxq : x <> q) by (intros ->; congruence).
    assert (E : σ' !! x = σ !! x) by (apply Hother; [tauto|done]).
    rewrite <- E. apply F2; [|rewrite E; eauto]. rewrite Eds, !elem_of_cons. tauto.
Qed.
End Step.

Lemma insert_separator_spec path fs : forall tail n h lo hi h0 w σ a s b,
  let ds := pre fs (top a) ++ nodes a ++ nodes b ++ post fs in
  path = reverse (f_page <$> fs) ++ tail -> models (length fs + 1 + n) w σ ->
  ctx_wf h lo hi fs h0 None None -> wf h lo (Some s) a -> wf h (Some s) hi b ->
  strictly_low lo s -> high hi s -> sep_ok s ->
  Forall (held σ) ds -> NoDup (pages ds) -> root (snd w) = ctx_top fs (top a) ->
  grown n w σ ds (insert_separator path (length fs) s (top a) (top b) w).
Proof.
  induction fs as [|f fs IH]; intros tail n h lo hi h0 w σ a s b ds Hpath M Hc Ha Hb Hlo Hhi Hs Hheld Hnd Hroot.
  { destruct Hc as (<- & -> & ->). unfold ds in *. cbn [pre post app] in *. rewrite app_nil_r in *. by apply separator_root with (h := h). }
  destruct Hc as (lo1 & hi1 & Hf & Hc). rewrite ctx_top_cons in Hroot.
  assert (Eds : ds = pre fs (f_page f) ++ (frame_desc f (top a) :: kids_nodes (f_before f) ++ nodes a ++ nodes b ++ after_nodes f) ++ post fs).
  { unfold ds. cbn [pre post]. rewrite <- !app_assoc. cbn [app]. by rewrite <- !app_assoc. }
  clearbody ds. subst ds. destruct (step_others f fs σ a b Hheld Hnd) as (Hd & _).
  destruct (step_tops f fs σ a s b Hheld Hnd) as (Hua & Hur & Hus & Hfresh).
  destruct (step_wf f h lo hi lo1 hi1 a s b Hf Ha Hb Hlo Hhi Hs) as [_ Hwf]. destruct (wf_seps _ _ _ _ _ _ Hwf) as [Hsorted _].
  pose proof (wf_kids_seps_ok _ _ _ _ _ _ Hwf) as Hok.
  destruct (level_step f fs path tail (length fs + 1 + n) w σ a s b Hpath M Hd Hua Hus Hfresh Hur Hsorted Hok Hs) as
    [(s' & b' & E & M' & Hd')|(l & k & t & r & q & s' & σ' & Ek & Hl & Hr & E & M' & Hq & Hdl & Hdr & Hother)]; cbn [length]; rewrite E.
  - eapply (step_fits f fs n h h0 lo hi lo1 hi1 w σ a s b Hf Hc Ha Hb Hlo Hhi Hs Hheld Hnd Hroot s' b' (1 + length fs + 1)); [|done].
    eapply pg_weaken; [|exact M']. lia.
  - destruct (step_splits f fs n h lo hi lo1 hi1 w σ a s b Hf Ha Hb Hlo Hhi Hs Hheld Hnd l k t r q s' σ'
      (insert_separator path (length fs) k (f_page f) q (s', snd w)) Ek Hl Hr Hq Hdl Hdr Hother)
      as (Wl & Wr & Wlo & Whi & Wok & H' & N' & G). apply G.
    apply (IH (f_page f :: tail) n (Datatypes.S h) lo1 hi1 h0 (s', snd w) σ' (Inner (f_page f) l t) k (Inner q r (right_after f b))); try done.
    rewrite Hpath. cbn [fmap list_fmap]. rewrite reverse_cons, <- app_assoc. done.
Qed.

(** ** Splitting a leaf *)

Abbreviation entry_ok := (entry_ok usable).

(** The two halves of a leaf, around the first key of the right one. *)
Lemma split_leaf lo hi es j : good_split es usable false j ->
  sorted es -> Forall (fun e => inside lo hi (fst e)) es -> Forall entry_ok es ->
  exists s v r, drop j es = (s, v) :: r /\ strictly_low lo s /\ high hi s /\ sep_ok s /\
    (forall p nx, wf 0 lo (Some s) (Leaf p (take j es) nx)) /\ (forall p nx, wf 0 (Some s) hi (Leaf p (drop j es) nx)).
Proof.
  intros (H0 & Hlt & _ & _) Hs Hin Hok. rewrite Nat.add_0_r in Hlt.
  destruct (drop j es) as [|[s v] r] eqn:Ed; [apply (f_equal length) in Ed; rewrite length_drop in Ed; cbn in Ed; lia|].
  rewrite <- (take_drop j es), Ed in Hs, Hin, Hok. apply sorted_app in Hs as (Sl & Sr & Hlr).
  apply Forall_app in Hin as [Il Ir]. apply Forall_app in Hok as [Ol Or].
  pose proof Ir as [[_ Hhi] _]%Forall_cons. pose proof Or as [[_ Hsok] _]%Forall_cons. cbn [fst] in Hhi, Hsok.
  exists s, v, r. ands; try done.
  - destruct (take j es) as [|e l] eqn:Et; [apply (f_equal length) in Et; rewrite length_take in Et; cbn in Et; lia|].
    apply Forall_cons in Il as [[Hlo _] _]. specialize (Hlr e (s, v) ltac:(by left) ltac:(by left)). cbn [fst] in Hlr.
    destruct lo; [|done]. cbn in *. by eapply ble_blt_trans.
  - intros p nx. cbn [BTreeTheory.wf]. ands; try done. rewrite Forall_forall in *. intros e He. split; [by apply Il|].
    apply (Hlr e (s, v)); [done|by left].
  - intros p nx. cbn [BTreeTheory.wf]. ands; try done. apply Forall_cons in Ir as [[_ Hh] Ir]. constructor; [split; [apply ble_refl|done]|].
    apply sorted_cons in Sr as [_ Ha]. rewrite Forall_forall in *. intros e He. split; [|by apply Ir]. apply blt_ble, (proj1 (Forall_forall _ _) Ha e He).
Qed.

Lemma kv_insert_total k v es : sorted es -> required_total (kv_insert k v es) <= required_total es + required_space (k, v).
Proof.
  intros Hs. destruct (kv_insert_split k v es Hs) as (l1 & l2 & -> & _ & _ & _ & [->|(v0 & ->)]);
    rewrite !required_total_app, !required_total_cons; [lia|]. pose proof (required_space_pos (k, v0)). lia.
Qed.

Section Leaf.
Context (n : nat) (w : world) (σ : gmap Z bytes) (h : nat) (fs : list frame) (p : Z) (es : list entry) (nx : Z) (lo hi : option bytes).
Context (k v : bytes).
Hypothesis M : models (length fs + 2 + n) w σ.
Hypothesis T : tree_ok ps σ (snd w) h (fill fs (Leaf p es nx)).
Hypothesis Hc : ctx_wf 0 lo hi fs h None None.
Hypothesis Hwf : wf 0 lo hi (Leaf p es nx).
Hypothesis Hin : inside lo hi k.
Hypothesis Hok : entry_ok (k, v).

(** What an insertion leaves behind. *)
Definition inserted_to (r : res PageError unit * world) : Prop :=
  exists s' tr' σ' t' h', r = (Val tt, (s', tr')) /\ pg_models ps n s' σ' /\ tree_ok ps σ' tr' h' t' /\
    data (nodes t') = kv_insert k v (data (nodes (fill fs (Leaf p es nx)))) /\
    cache_class tr' = cache_class (snd w) /\
    forall q, q ∉ pages (nodes (fill fs (Leaf p es nx))) -> is_Some (σ !! q) -> σ' !! q = σ !! q /\ (q ∉ pages (nodes t')).

Lemma wf_inserted : wf 0 lo hi (Leaf p (kv_insert k v es) nx).
Proof.
  destruct Hwf as (Hs & Hi & Ho). cbn [BTreeTheory.wf]. ands; [by apply kv_insert_sorted| |]; by apply kv_insert_Forall.
Qed.

(** The entry fits in the leaf. *)
Lemma inserted_in_place s' b :
  pg_models ps (length fs + 2 + n) s' (<[p := b]> σ) -> held (<[p := b]> σ) (mkDesc p true (kv_insert k v es) nx) ->
  inserted_to (Val tt, (s', snd w)).
Proof.
  clear M. intros M' Hd. exists s', (snd w), (<[p := b]> σ), (fill fs (Leaf p (kv_insert k v es) nx)), h.
  destruct (hole_data ps h fs p lo hi Hc k Hin) as [Hb Ha]. rewrite !data_fill, kv_insert_between by done.
  ands; try done.
  - eapply pg_weaken; [|exact M']. lia.
  - eapply hole_replace; [exact T|exact Hc|apply wf_inserted|done|]. intros q Hq. by apply lookup_insert_ne.
  - intros q Hq _. rewrite hole_nodes in Hq |- *. rewrite !pages_app in Hq |- *. split; [|exact Hq]. apply lookup_insert_ne.
    intros <-. apply Hq. set_solver.
Qed.

(** The leaf is split and the new separator carried up. *)
Lemma inserted_by_split path j s v0 r s' q b1 b2 σ1 :
  path = reverse (f_page <$> fs) ++ [p] -> good_split (kv_insert k v es) usable false j ->
  drop j (kv_insert k v es) = (s, v0) :: r -> σ !! q = None ->
  σ1 = <[p := b2]> (<[q := b1]> σ) -> pg_models ps (length fs + 1 + n) s' σ1 ->
  held σ1 (mkDesc p true (take j (kv_insert k v es)) q) -> held σ1 (mkDesc q true (drop j (kv_insert k v es)) nx) ->
  inserted_to (insert_separator path (length fs) s p q (s', snd w)).
Proof.
  intros Hpath Gj Ed Hq E1 M1 Hdl Hdr. destruct wf_inserted as (Hs & Hi & Ho).
  destruct (split_leaf lo hi _ _ Gj Hs Hi Ho) as (s0 & v1 & r0 & Ed0 & Wlo & Whi & Wok & Wa & Wb).
  rewrite Ed in Ed0. injection Ed0 as <- <- <-. rewrite Ed in Hdr, Wb.
  set (a := Leaf p (take j (kv_insert k v es)) q). set (b := Leaf q ((s, v0) :: r) nx).
  pose proof T as [_ Hheld Hnd Hlk Hroot]. rewrite hole_nodes in Hheld, Hnd, Hlk.
  pose proof (held_fresh _ _ _ Hheld Hq) as Hqf. pose proof Hheld as [Hp1 [_ Hp3]%Forall_app]%Forall_app.
  assert (Hlk' : linked (leaves (pre fs p)) p /\ nx = first_page (leaves (post fs)) 0 /\ linked (leaves (post fs)) 0).
  { rewrite leaves_app, linked_app in Hlk. destruct Hlk as [K1 K2].
    change (linked (mkDesc p true es nx :: leaves (post fs)) 0) in K2. apply linked_cons in K2 as [K2 K3]. done. }
  pose proof Hnd as Hnd'. rewrite !pages_app, !NoDup_app in Hnd'. destruct Hnd' as (D1 & D2 & D3 & D4 & D5).
  rewrite !pages_app in Hqf.
  assert (Hof : forall ds, p ∉ pages ds -> q ∉ pages ds -> Forall (held σ) ds -> Forall (held σ1) ds).
  { intros ds H1 H2 H3. rewrite E1. by do 2 (apply Forall_held_insert_ne; [done|]). }
  destruct (insert_separator_spec path fs [p] n 0 lo hi h (s', snd w) σ1 a s b) as
    (s2 & tr2 & σ2 & t2 & h2 & E2 & M2 & W2 & H2 & N2 & L2 & R2 & C2 & F2); try done.
  - apply Wa.
  - apply Wb.
  - unfold a, b. cbn [top nodes app]. rewrite Forall_app, !Forall_cons. ands; try done; apply Hof; set_solver.
  - unfold a, b. cbn [top nodes app]. rewrite pages_app. unfold pages at 2. cbn [fmap list_fmap d_page]. fold (pages (post fs)).
    assert (Hperm : pages (pre fs p) ++ p :: q :: pages (post fs) ≡ₚ q :: pages (pre fs p ++ [mkDesc p true es nx] ++ post fs)).
    { rewrite !pages_app. cbn [pages fmap list_fmap d_page app]. solve_Permutation. }
    change (d_page <$> post fs) with (pages (post fs)). rewrite Hperm. constructor; [by rewrite !pages_app|done].
  - cbn [snd]. by rewrite Hroot, top_fill.
  - exists s2, tr2, σ2, t2, h2. ands; try done.
    + split; try done. rewrite L2. unfold a, b. cbn [top nodes app]. rewrite !leaves_app.
      change (leaves (mkDesc p true (take j (kv_insert k v es)) q :: mkDesc q true ((s, v0) :: r) nx :: post fs)) with
        ([mkDesc p true (take j (kv_insert k v es)) q; mkDesc q true ((s, v0) :: r) nx] ++ leaves (post fs)).
      destruct Hlk' as (K1 & K2 & K3). rewrite !linked_app. cbn [linked first_page d_next d_page app]. tauto.
    + destruct (hole_data ps h fs p lo hi Hc k Hin) as [Hb Ha]. rewrite !data_fill, kv_insert_between by done.
      unfold data at 1. rewrite L2. fold (data (pre fs (top a) ++ nodes a ++ nodes b ++ post fs)). rewrite !data_app.
      unfold a, b. cbn [top nodes]. rewrite !data_leaf, <- Ed. rewrite (app_assoc (take _ _)), take_drop. done.
    + intros x Hx [c Hsx]. rewrite hole_nodes, !pages_app in Hx.
      assert (Hxq : x <> q) by (intros ->; congruence). assert (Hxp : x <> p) by (intros ->; apply Hx; set_solver).
      assert (E : σ1 !! x = σ !! x) by (rewrite E1, !lookup_insert_ne by done; done).
      rewrite <- E. apply F2; [|rewrite E; eauto]. unfold a, b. cbn [top nodes]. rewrite !pages_app. set_solver.
Qed.

Lemma split_and_insert_spec path :
  path = reverse (f_page <$> fs) ++ [p] -> inserted_to (split_and_insert path k v w).
Proof.
  intros Hpath. pose proof (pg_size_law _ _ _ _ M) as Hsize. pose proof (hole_held _ _ _ _ _ _ _ _ T) as Hd.
  pose proof Hwf as (Hs & _). pose proof wf_inserted as (Hs' & Hi' & Ho').
  destruct (page_spec ps _ w σ _ M Hd) as (b & s1 & E1 & M1 & fe & dir & N & Ed). cbn [d_page d_leaf d_next d_entries] in *.
  pose proof (nd_ps _ _ _ _ _ _ _ N) as Hps. pose proof (node_fits _ _ _ _ _ _ _ N) as Hfit. rewrite Ed in Hfit.
  unfold split_and_insert. unfold st_bind at 1, gets at 1. rewrite Hsize. unfold st_bind at 1. rewrite Hpath, last_of_spec, <- Hpath.
  unfold st_bind at 1. rewrite E1. unfold st_bind at 1, st_lift at 1. rewrite (entries_eq _ _ _ _ _ _ _ N), Ed, place_entry_eq by done.
  cbv zeta. fold usable. set (es' := kv_insert k v es) in *.
  destruct (Z.leb_spec (required_total es') usable) as [Hle|Hgt].
  - destruct (update_spec ps _ (s1, snd w) σ (mkDesc p true es nx) (rebuild es' ps)
      (fun r d => r = Val tt /\ d = mkDesc p true es' nx) M1 Hd) as (r & d & s2 & b2 & E2 & _ & [-> ->] & M2 & H2).
    { intros c H0. destruct (holds_rebuild ps c _ es' H0 Hs' Hle) as (c1 & F1 & G1). eexists _, c1, _. ands; [exact F1|exact G1|done..]. }
    cbn [d_page snd] in *. rewrite E2. by eapply inserted_in_place.
  - destruct (byte_split_spec es' usable false) as (j & Ej & Gj); [|done| |].
    { eapply Forall_impl; [exact Ho'|]. by intros e [? _]. }
    { pose proof (kv_insert_total k v es Hs). destruct Hok as [Hok1 _]. fold es' in H. fold usable in Hfit. lia. }
    unfold st_bind at 1, st_lift at 1. rewrite Ej, Nat2Z.id. pose proof Gj as (Hj0 & Hjlt & Fl & Fr). rewrite Nat.add_0_r in Hjlt, Fr.
    destruct (split_leaf lo hi es' j Gj Hs' Hi' Ho') as (s0 & v1 & r0 & Ed0 & _).
    pose proof Hs' as Hsp. rewrite <- (take_drop j es') in Hsp. apply sorted_app in Hsp as (Sl & Sr & _). rewrite Ed0.
    assert (M1' : pg_models ps (1 + (length fs + 1 + n)) s1 σ) by (eapply pg_weaken; [|exact M1]; lia).
    destruct (pg_allocate_law _ _ _ _ BTreeLeaf M1' ltac:(done) ltac:(done)) as (q & b0 & s2 & E2 & Hq & Hq0 & Hqu & Hlen & M2).
    assert (Hpq : p <> q) by (intros <-; destruct Hd as (_ & ? & ? & _); cbn in *; congruence).
    destruct (page_spec ps _ (s2, snd w) _ (mkDesc p true es nx) M2) as (b' & s3 & E3 & M3 & fe' & dir' & N' & _); [by apply held_insert_ne|].
    cbn [d_page d_leaf d_next fst snd] in *.
    destruct (init_spec ps _ (s3, snd w) _ q b0 true (set_next_page nx ;;; rebuild (drop j es') ps) (mkDesc q true (drop j es') nx) M3)
      as (s4 & b4 & E4 & M4 & H4); try done.
    { by apply lookup_insert_eq. }
    { intros c0 N0. destruct (holds_set_next ps c0 (mkDesc q true [] 0) nx) as (c1 & F1 & G1);
        [by exists (ps - 8), []|apply (nd_u64 _ _ _ _ _ _ _ N)|].
      destruct (holds_rebuild ps c1 _ (drop j es') G1 Sr Fr) as (c2 & F2 & G2). exists c2. unfold st_bind. by rewrite F1, F2. }
    destruct (update_spec ps _ (s4, snd w) _ (mkDesc p true es nx) (rebuild (take j es') ps ;;; set_next_page q)
      (fun r d => r = Val tt /\ d = mkDesc p true (take j es') q) M4) as (r5 & d5 & s5 & b5 & E5 & _ & [-> ->] & M5 & H5).
    { by do 2 (apply held_insert_ne; [done|]). }
    { intros c0 H0. destruct (holds_rebuild_next ps c0 _ (take j es') q H0 Sl Fl Hqu) as (c1 & F1 & G1).
      eexists _, c1, _. ands; [exact F1|exact G1|done..]. }
    cbn [d_page snd] in *. unfold st_bind at 1, on_pool at 1. cbn [fst snd]. rewrite E2. unfold st_bind at 1. rewrite E3.
    unfold st_bind at 1, st_lift at 1. rewrite (next_eq _ _ _ _ _ _ _ N'). rewrite <- Ed0. unfold st_bind at 1. rewrite E4.
    unfold st_bind at 1. rewrite E5. rewrite insert_insert_eq in *.
    replace (length path - 1)%nat with (length fs) by (rewrite Hpath, length_app, length_reverse, length_fmap; cbn; lia).
    eapply inserted_by_split; try done. by apply held_insert_ne.
Qed.
End Leaf.

(** ** Insertion *)

(** [insert] below the size limit. *)
Lemma insert_spec n w σ h t k v :
  models (h + 2 + n) w σ -> tree_ok ps σ (snd w) h t -> k <> [] -> entry_ok (k, v) ->
  exists s' tr' σ' t' h', insert k v w = (Val tt, (s', tr')) /\ pg_models ps n s' σ' /\ tree_ok ps σ' tr' h' t' /\
    data (nodes t') = kv_insert k v (data (nodes t)) /\ cache_class tr' = cache_class (snd w) /\
    forall q, q ∉ pages (nodes t) -> is_Some (σ !! q) -> σ' !! q = σ !! q /\ (q ∉ pages (nodes t')).
Proof.
  intros M T Hne Hok. pose proof (pg_size_law _ _ _ _ M) as Hsize.
  destruct (descend_spec ps _ w σ h t k M T) as (fs & p & es & nx & lo & hi & s1 & E & M1 & -> & Hc & Hwf & Hin).
  assert (Eh : h = length fs) by (by apply ctx_height in Hc). rewrite Eh in M1.
  pose proof Hwf as (Hs & _).
  unfold insert. rewrite bool_decide_eq_false_2 by done. unfold st_bind at 1, gets at 1. rewrite Hsize. cbv zeta. fold usable.
  assert (Hlim : (usable <? Z.max (required_space (k, v)) (blen k + 8 + ENTRY_BYTES) * 2) = false).
  { apply Z.ltb_ge. destruct Hok as [H1 H2]. unfold BTreeTheory.sep_ok in H2. cbn [fst] in H2. unfold ENTRY_BYTES. lia. }
  rewrite Hlim. unfold st_bind at 1. rewrite E. unfold st_bind at 1. rewrite last_of_spec. unfold st_bind at 1.
  destruct (update_spec ps _ (s1, snd w) σ (mkDesc p true es nx) (node_insert k v)
    (fun r d => (r = Val true /\ d = mkDesc p true (kv_insert k v es) nx) \/ (r = Val false /\ d = mkDesc p true es nx)) M1
    (hole_held _ _ _ _ _ _ _ _ T)) as (r & d & s2 & b2 & E2 & _ & HQ & M2 & H2).
  { intros c (fe & dir & N & Ed). cbn [d_page d_leaf d_next d_entries] in *. subst es.
    destruct (node_insert_spec _ _ _ _ _ _ _ k v N Hs) as [(c1 & fe1 & dir1 & F1 & N1 & D1)|F1].
    - eexists _, c1, (mkDesc p true (kv_insert k v dir.*2) nx). ands; [exact F1| |done|by left]. by exists fe1, dir1.
    - eexists _, c, (mkDesc p true dir.*2 nx). ands; [exact F1| |done|by right]. by exists fe, dir. }
  cbn [d_page snd] in *. rewrite E2. destruct HQ as [[-> ->]|[-> ->]].
  - by eapply (inserted_in_place n w σ h fs p es nx lo hi k v T Hc Hwf Hin Hok).
  - assert (T2 : tree_ok ps (<[p := b2]> σ) (snd w) h (fill fs (Leaf p es nx))).
    { eapply hole_replace; [exact T|exact Hc|done|done|]. intros q Hq. by apply lookup_insert_ne. }
    destruct (split_and_insert_spec n (s2, snd w) (<[p := b2]> σ) h fs p es nx lo hi k v M2 T2 Hc Hwf Hin Hok _ eq_refl)
      as (s' & tr' & σ' & t' & h' & E' & M' & T' & D' & C' & F').
    exists s', tr', σ', t', h'. ands; try done. intros q Hq Hsq.
    assert (p <> q) by (intros ->; apply Hq; rewrite hole_nodes, !pages_app; set_solver).
    destruct (F' q) as [E1 E3]; [done|by rewrite lookup_insert_ne|]. by rewrite lookup_insert_ne in E1.
Qed.
End Insert.
