(* ===== verification/BTreeCursor.v ===== *)
(** * Cursors over the B+ tree

    The forward cursor walks the leaf links, the reverse cursor the recorded
    descent path.  Both read exactly the entries of the tree, in order, within a
    number of turns bounded by its size. *)

From stdpp Require Import base tactics list numbers gmap sorting.
From Stdlib Require Import ZArith Lia.
From S2P Require Import Prelude Search Bytes Errors PageFormat Pager Keys BTreeNode BTreeNodeSpec BTreeSplit BTree BTreeTheory BTreeOps.
Local Open Scope Z_scope.
Local Open Scope bic_scope.

Section Cursor.
Context {S : Type} {P : Pager S} {L : PagerLaws S} (ps : Z).
Let usable := usable_bytes ps.
Abbreviation world := (S * BTree)%type.
Abbreviation models n w σ := (pg_models ps n (fst w) σ).
Abbreviation held := (held ps).
Abbreviation holds := (holds ps).
Abbreviation wf := (wf usable).

(** ** One leaf *)

(** The entries of a leaf from the first key not below [start]. *)
Definition from_key (start : bytes) (es : list entry) : list entry := filter (fun e => ble start (fst e)) es.

Lemma from_key_empty es : from_key [] es = es.
Proof. unfold from_key. induction es as [|e es IH]; [done|]. rewrite filter_cons_True by (unfold ble; by destruct (fst e)). by rewrite IH. Qed.
Lemma from_key_app start l1 l2 : from_key start (l1 ++ l2) = from_key start l1 ++ from_key start l2.
Proof. apply filter_app. Qed.
Lemma from_key_below start l : below start l -> from_key start l = [].
Proof.
  intros H. unfold from_key. induction H as [|e l He Hl IH]; [done|]. rewrite filter_cons_False; [done|]. by rewrite ble_not_lt; intros ?.
Qed.
Lemma from_key_above start l : above start l -> from_key start l = l.
Proof. intros H. unfold from_key. induction H as [|e l He Hl IH]; [done|]. rewrite filter_cons_True by (by apply blt_ble). by rewrite IH. Qed.

Lemma located_from k es i exact : located k es i exact -> from_key k es = drop (Z.to_nat i) es /\ 0 <= i <= Z.of_nat (length es).
Proof.
  intros (l1 & l2 & -> & -> & Hb & Hex). rewrite Nat2Z.id, drop_app_length, from_key_app, from_key_below by done.
  rewrite length_app. split; [|lia]. cbn [app]. destruct exact.
  - destruct Hex as (v & l3 & -> & Ha). unfold from_key. rewrite filter_cons_True by apply ble_refl. f_equal. by apply from_key_above.
  - by apply from_key_above.
Qed.

(** The entries from an index on. *)
Lemma entries_tail b id leaf next fe dir : node ps b id leaf next fe dir -> forall i : nat, (i <= length dir)%nat ->
  entries_from b (rangeZ (Z.of_nat i) (Z.of_nat (length dir))) = Val (drop i dir.*2).
Proof.
  intros N i Hi. remember (length dir - i)%nat as m eqn:Em. revert i Hi Em. induction m as [|m IH]; intros i Hi Em; unfold rangeZ.
  - replace (Z.of_nat (length dir) - Z.of_nat i) with 0 by lia. rewrite drop_ge by (rewrite length_fmap; lia). done.
  - replace (Z.of_nat (length dir) - Z.of_nat i) with (Z.of_nat (Datatypes.S m)) by lia. rewrite seqZ_cons by lia.
    destruct (lookup_lt_is_Some_2 dir i) as [d Hd]; [lia|]. cbn [entries_from].
    rewrite (key_eq _ _ _ _ _ _ _ N _ _ Hd), (value_eq _ _ _ _ _ _ _ N _ _ Hd). cbn [res_bind].
    specialize (IH (Datatypes.S i) ltac:(lia) ltac:(lia)). unfold rangeZ in IH.
    replace (Z.succ (Z.of_nat i)) with (Z.of_nat (Datatypes.S i)) by lia.
    replace (Z.pred (Z.of_nat (Datatypes.S m))) with (Z.of_nat (length dir) - Z.of_nat (Datatypes.S i)) by lia. rewrite IH.
    cbn [res_bind]. rewrite (drop_S dir.*2 (snd d) i) by (by rewrite list_lookup_fmap, Hd). by destruct d as [? [? ?]].
Qed.

Lemma leaf_entries_spec n w σ d start :
  models n w σ -> held σ d -> sorted (d_entries d) ->
  exists s', leaf_entries_from (d_page d) start w = (Val (from_key start (d_entries d), d_next d), (s', snd w)) /\
    pg_models ps n s' σ.
Proof.
  intros M Hd Hs. destruct (page_spec ps n w σ d M Hd) as (b & s1 & E & M1 & fe & dir & N & Ed).
  assert (Hra : exists s', (if d_next d =? 0 then st_ret tt else on_pool (pg_request_read_ahead (d_next d))) (s1, snd w)
      = (Val tt, (s', snd w)) /\ pg_models ps n s' σ).
  { destruct (d_next d =? 0); [by exists s1|]. destruct (pg_read_ahead_law _ _ _ _ (d_next d) M1) as (s2 & E2 & M2).
    exists s2. unfold on_pool. cbn [fst snd]. by rewrite E2. }
  destruct Hra as (s' & Era & M'). exists s'. split; [|done].
  assert (Hfrom : exists i : nat, (i <= length dir)%nat /\ from_key start dir.*2 = drop i dir.*2 /\
    (if bool_decide (start = []) then st_ret 0 else do (index, _) <- st_lift (node_search b start) ;; st_ret index) (s1, snd w)
      = ((Val (Z.of_nat i) : pres Z), (s1, snd w))).
  { case_bool_decide as Hst; [exists 0%nat; subst; rewrite from_key_empty; split; [lia|done]|].
    rewrite <- Ed in Hs. destruct (search_spec _ _ _ _ _ _ _ N Hs start) as (i & ex & Es & Hloc).
    destruct (located_from _ _ _ _ Hloc) as [Ef Hi]. rewrite length_fmap in Hi. exists (Z.to_nat i). ands; [lia|done|].
    unfold st_bind, st_lift. rewrite Es. cbn. by rewrite Z2Nat.id by lia. }
  destruct Hfrom as (i & Hi & Ef & Ei). unfold leaf_entries_from. unfold st_bind at 1. rewrite E. unfold st_bind at 1. rewrite Ei.
  unfold st_bind at 1, st_lift at 1. rewrite (count_eq _ _ _ _ _ _ _ N). unfold st_bind at 1, st_lift at 1.
  rewrite (entries_tail _ _ _ _ _ _ N i Hi). unfold st_bind at 1, st_lift at 1. rewrite (next_eq _ _ _ _ _ _ _ N).
  unfold st_bind. rewrite Era. unfold st_ret. by rewrite <- Ed, Ef.
Qed.

(** ** The forward cursor *)

(** The leaves a cursor has still to load. *)
Record pending (σ : gmap Z bytes) (r : BTreeRange) (ls : list desc) : Prop := {
  pd_next : rg_next_leaf r = first_page ls 0;
  pd_held : Forall (held σ) ls;
  pd_linked : linked ls 0;
  pd_sorted : Forall (fun d => sorted (d_entries d)) ls
}.
Definition remaining (r : BTreeRange) (ls : list desc) : list entry :=
  drop (rg_index r) (rg_entries r) ++ flat_map d_entries ls.

Lemma range_next_spec n σ tr turns : forall s r ls, pg_models ps n s σ -> pending σ r ls -> (length ls <= turns)%nat ->
  exists o r' s', range_next turns r (s, tr) = (Val (o, r'), (s', tr)) /\ pg_models ps n s' σ /\
    match remaining r ls with
    | [] => o = None
    | e :: rest => o = Some e /\ exists ls', pending σ r' ls' /\ remaining r' ls' = rest /\ ls' `suffix_of` ls
    end.
Proof.
  assert (Hhave : forall turns s r ls e, pending σ r ls -> rg_entries r !! rg_index r = Some e -> pg_models ps n s σ ->
    exists r', range_next turns r (s, tr) = (Val (Some e, r'), (s, tr)) /\ pending σ r' ls /\ remaining r ls = e :: remaining r' ls).
  { intros tn s r ls e [] He M. eexists. split; [destruct tn; cbn [range_next]; rewrite He; done|]. split; [by split|].
    unfold remaining. cbn [rg_index rg_entries]. rewrite Nat.add_1_r. by rewrite (drop_S _ _ _ He). }
  assert (Hnone : forall r ls, rg_entries r !! rg_index r = None -> remaining r ls = flat_map d_entries ls).
  { intros r ls Hn. unfold remaining. by rewrite drop_ge by (by apply lookup_ge_None). }
  induction turns as [|turns IH]; intros s r ls M Hp Ht.
  - destruct (rg_entries r !! rg_index r) as [e|] eqn:He.
    + destruct (Hhave 0%nat s r ls e Hp He M) as (r' & E & Hp' & ->). exists (Some e), r', s. ands; try done. exists ls. by ands.
    + rewrite (Hnone _ _ He). destruct ls as [|d ls]; [|cbn in Ht; lia]. exists None, r, s. ands; try done.
      cbn [range_next]. rewrite He, (pd_next _ _ _ Hp). done.
  - destruct (rg_entries r !! rg_index r) as [e|] eqn:He.
    { destruct (Hhave (Datatypes.S turns) s r ls e Hp He M) as (r' & E & Hp' & ->). exists (Some e), r', s. ands; try done. exists ls. by ands. }
    rewrite (Hnone _ _ He). destruct ls as [|d ls].
    { exists None, r, s. ands; try done. cbn [range_next]. rewrite He, (pd_next _ _ _ Hp). done. }
    destruct Hp as [H1 [Hd Hls]%Forall_cons [K1 K2]%linked_cons [Sd Ss]%Forall_cons].
    destruct (leaf_entries_spec n (s, tr) σ d [] M Hd Sd) as (s1 & E1 & M1). rewrite from_key_empty in E1. cbn [snd first_page] in *.
    destruct (IH s1 (mkRange (d_entries d) 0 (d_next d)) ls M1) as (o & r' & s' & E & M' & Hrest); [by split|cbn in Ht; lia|].
    exists o, r', s'. ands; try done.
    + cbn [range_next]. rewrite He, H1. destruct Hd as (Hd0 & _). rewrite (proj2 (Z.eqb_neq _ _)) by done.
      unfold st_bind. rewrite E1. exact E.
    + unfold remaining in Hrest at 1. cbn [rg_index rg_entries] in Hrest. rewrite drop_0 in Hrest. cbn [flat_map].
      destruct (d_entries d ++ flat_map d_entries ls); [done|]. destruct Hrest as (-> & ls' & ? & ? & ?). split; [done|].
      exists ls'. ands; try done. by apply suffix_cons_r.
Qed.

Lemma range_collect_spec n σ tr turns : forall s r ls, pg_models ps n s σ -> pending σ r ls ->
  (length ls + length (remaining r ls) <= turns)%nat ->
  exists s', range_collect turns r (s, tr) = (Val (remaining r ls), (s', tr)) /\ pg_models ps n s' σ.
Proof.
  induction turns as [|turns IH]; intros s r ls M Hp Ht;
    destruct (range_next_spec n σ tr _ s r ls M Hp (Nat.le_trans _ _ _ (Nat.le_add_r _ _) Ht)) as (o & r' & s1 & E & M1 & Ho);
    destruct (remaining r ls) as [|e rest] eqn:Er; cbn [length] in Ht; try lia; cbn [range_collect]; unfold st_bind at 1; rewrite E.
  - subst o. by exists s1.
  - subst o. by exists s1.
  - destruct Ho as (-> & ls' & Hp' & <- & Hlen%suffix_length). destruct (IH s1 r' ls' M1 Hp') as (s2 & E2 & M2); [lia|].
    exists s2. split; [|done]. unfold st_bind. by rewrite E2.
Qed.

(** ** Where a scan starts *)

Lemma flat_sorted ls : sorted (flat_map d_entries ls) -> Forall (fun d => sorted (d_entries d)) ls.
Proof.
  induction ls as [|d ls IH]; [constructor|]. cbn [flat_map]. intros (H1 & H2 & _)%sorted_app. constructor; [done|by apply IH].
Qed.
Lemma leaves_held σ ds : Forall (held σ) ds -> Forall (held σ) (leaves ds).
Proof. unfold leaves. rewrite !Forall_forall. intros H d [_ Hd]%list_elem_of_filter. by apply H. Qed.

Lemma tree_leaves σ tr h t : tree_ok ps σ tr h t ->
  Forall (held σ) (leaves (nodes t)) /\ linked (leaves (nodes t)) 0 /\ Forall (fun d => sorted (d_entries d)) (leaves (nodes t)).
Proof.
  intros [Hwf Hh _ Hl _]. ands; [by apply leaves_held|done|]. apply flat_sorted. by apply wf_data in Hwf as (Hs & _).
Qed.

(** The first child of an interior node. *)
Lemma first_child_spec σ b p kids rt : kids <> [] ->
  Forall (held σ) (kids_nodes kids ++ nodes rt) -> holds b (inner_desc p kids rt) ->
  exists k t kids', kids = (k, t) :: kids' /\ first_child b = Val (top t) /\ Forall (held σ) (nodes t).
Proof.
  intros Hne [Hk _]%Forall_app (fe & dir & N & E). cbn [inner_desc d_page d_leaf d_next d_entries] in N, E.
  pose proof (child_at_eq ps b p (top rt) fe false dir (seps kids) N E (kids_held _ _ _ Hk) 0) as Hc.
  destruct kids as [|[k t] kids]; [done|]. exists k, t, kids. rewrite kids_nodes_cons, Forall_app in Hk.
  ands; [done| |tauto]. revert Hc. unfold first_child, child_at. rewrite (count_eq _ _ _ _ _ _ _ N). cbn [res_bind].
  assert (Hlen : length dir = Datatypes.S (length kids)).
  { apply (f_equal length) in E. unfold sep_entries, seps in E. by rewrite !length_fmap in E. }
  rewrite Hlen, (proj2 (Z.eqb_neq _ _)), (proj2 (Z.leb_gt _ _)) by lia. done.
Qed.

Lemma leftmost_loop_spec n σ tr h : forall lo hi t turns s,
  wf h lo hi t -> Forall (held σ) (nodes t) -> (h <= turns)%nat -> pg_models ps n s σ ->
  exists d ls s', leaves (nodes t) = d :: ls /\ leftmost_loop turns (top t) (s, tr) = (Val (d_page d), (s', tr)) /\ pg_models ps n s' σ.
Proof.
  induction h as [|h IH]; intros lo hi t turns s Hwf Hheld Ht M; destruct t as [p es nx|p kids rt]; try done.
  - pose proof Hheld as [Hd _]%Forall_cons. destruct (page_spec ps n (s, tr) σ _ M Hd) as (b & s' & E & M' & fe & dir & N & _).
    exists (mkDesc p true es nx), [], s'. ands; try done. cbn [d_page d_leaf d_next snd] in *.
    destruct turns; cbn [leftmost_loop top]; unfold st_bind at 1; rewrite E; unfold st_bind, st_lift; by rewrite (is_leaf_eq _ _ _ _ _ _ _ N).
  - destruct turns as [|turns]; [lia|]. destruct Hwf as [Hne Hk]. pose proof Hheld as [Hd Hrest]%Forall_cons.
    destruct (page_spec ps n (s, tr) σ _ M Hd) as (b & s1 & E & M1 & Hb).
    destruct (first_child_spec σ b p kids rt Hne Hrest Hb) as (k & t & kids' & -> & Ec & Hht). destruct Hk as (Hwt & _).
    destruct (IH lo (Some k) t turns s1 Hwt Hht ltac:(lia) M1) as (d & ls & s' & El & E' & M').
    exists d, (ls ++ leaves (kids_nodes kids' ++ nodes rt)), s'. ands; try done.
    + rewrite nodes_inner, leaves_inner, kids_nodes_cons, <- app_assoc, leaves_app, El by done. done.
    + destruct Hb as (fe & dir & N & _). cbn [inner_desc d_page d_leaf snd] in *. cbn [leftmost_loop top].
      unfold st_bind at 1. rewrite E. unfold st_bind at 1, st_lift at 1. rewrite (is_leaf_eq _ _ _ _ _ _ _ N).
      unfold st_bind at 1, st_lift at 1. by rewrite Ec.
Qed.

Lemma height_loop_spec n σ tr h : forall lo hi t turns s x,
  wf h lo hi t -> Forall (held σ) (nodes t) -> (h <= turns)%nat -> pg_models ps n s σ ->
  exists s', height_loop turns x (top t) (s, tr) = (Val (x + Z.of_nat h), (s', tr)) /\ pg_models ps n s' σ.
Proof.
  induction h as [|h IH]; intros lo hi t turns s x Hwf Hheld Ht M; destruct t as [p es nx|p kids rt]; try done.
  - pose proof Hheld as [Hd _]%Forall_cons. destruct (page_spec ps n (s, tr) σ _ M Hd) as (b & s' & E & M' & fe & dir & N & _).
    exists s'. split; [|done]. cbn [d_page d_leaf d_next snd] in *. rewrite Z.add_0_r.
    destruct turns; cbn [height_loop top]; unfold st_bind at 1; rewrite E; unfold st_bind, st_lift; by rewrite (is_leaf_eq _ _ _ _ _ _ _ N).
  - destruct turns as [|turns]; [lia|]. destruct Hwf as [Hne Hk]. pose proof Hheld as [Hd Hrest]%Forall_cons.
    destruct (page_spec ps n (s, tr) σ _ M Hd) as (b & s1 & E & M1 & Hb).
    destruct (first_child_spec σ b p kids rt Hne Hrest Hb) as (k & t & kids' & -> & Ec & Hht). destruct Hk as (Hwt & _).
    destruct (IH lo (Some k) t turns s1 (x + 1) Hwt Hht ltac:(lia) M1) as (s' & E' & M'). exists s'. split; [|done].
    destruct Hb as (fe & dir & N & _). cbn [inner_desc d_page d_leaf snd] in *. cbn [height_loop top].
    unfold st_bind at 1. rewrite E. unfold st_bind at 1, st_lift at 1. rewrite (is_leaf_eq _ _ _ _ _ _ _ N).
    unfold st_bind at 1, st_lift at 1. rewrite Ec, E'. f_equal. f_equal. lia.
Qed.

(** The cursor of [range] has the entries from [start] on ahead of it. *)
Lemma range_spec n w σ h t turns start : models n w σ -> tree_ok ps σ (snd w) h t -> (h <= turns)%nat ->
  exists r ls s', range turns start w = (Val r, (s', snd w)) /\ pg_models ps n s' σ /\ pending σ r ls /\
    remaining r ls = from_key start (data (nodes t)) /\ ls `suffix_of` leaves (nodes t) /\ (length ls < length (leaves (nodes t)))%nat.
Proof.
  intros M T Ht. destruct (tree_leaves _ _ _ _ T) as (Lh & Ll & Ls). unfold range.
  assert (Hcur : forall pre0 d ls s1, leaves (nodes t) = pre0 ++ d :: ls -> below start (flat_map d_entries pre0) ->
    Forall (fun e => ble start (fst e)) (flat_map d_entries ls) -> pg_models ps n s1 σ ->
    exists r ls' s', (do (es, next) <- leaf_entries_from (d_page d) start ;; st_ret (mkRange es 0 next)) (s1, snd w) =
      (Val r, (s', snd w)) /\ pg_models ps n s' σ /\ pending σ r ls' /\
      remaining r ls' = from_key start (data (nodes t)) /\ ls' `suffix_of` leaves (nodes t) /\ (length ls' < length (leaves (nodes t)))%nat).
  { intros pre0 d ls s1 El Hb Ha M1. rewrite El in *. rewrite Forall_app, Forall_cons in Lh, Ls. apply linked_app in Ll as [_ [K1 K2]%linked_cons].
    destruct (leaf_entries_spec n (s1, snd w) σ d start M1) as (s2 & E2 & M2); [tauto|tauto|].
    eexists _, ls, s2. unfold st_bind. rewrite E2. ands; [reflexivity|done| | |exists (pre0 ++ [d]); by rewrite <- app_assoc|rewrite length_app; cbn; lia].
    - split; cbn [rg_next_leaf]; tauto.
    - unfold remaining. cbn [rg_index rg_entries]. rewrite drop_0. unfold data. rewrite El, flat_map_app. cbn [flat_map].
      rewrite !from_key_app, (from_key_below start (flat_map d_entries pre0)) by done. cbn [app]. f_equal. symmetry.
      unfold from_key. clear -Ha. induction Ha as [|e l He Hl IH]; [done|]. rewrite filter_cons_True by done. by rewrite IH. }
  unfold st_bind at 1. case_bool_decide as Hst.
  - destruct T as [Hwf Hh Hnd _ Hr]. destruct (leftmost_loop_spec n σ (snd w) h None None t turns (fst w) Hwf Hh Ht M) as (d & ls & s1 & El & E & M1).
    destruct w as [s0 tr]. cbn [fst snd] in *. unfold leftmost_leaf, root_of, st_bind at 1, gets at 1. cbn [fst snd]. rewrite Hr, E.
    apply (Hcur [] d ls s1); try done; [constructor|]. subst start. apply Forall_forall. intros e _. unfold ble. by destruct (fst e).
  - destruct (descend_spec ps n w σ h t start M T) as (fs & p & es & nx & lo & hi & s1 & E & M1 & -> & Hc & Hwf & Hin).
    unfold st_bind at 1. rewrite E, last_of_spec. destruct (hole_data ps h fs p lo hi Hc start Hin) as [Hb Ha].
    apply (Hcur (leaves (pre fs p)) (mkDesc p true es nx) (leaves (post fs)) s1); try done.
    + rewrite hole_nodes, !leaves_app. done.
    + eapply Forall_impl; [exact Ha|]. intros e He. by apply blt_ble.
Qed.

(** [verify] finds nothing wrong with a well-formed tree. *)
Lemma no_violations es : sorted es -> forall p, match p with Some k => above k es | None => True end -> ordering_violations p es = 0.
Proof.
  induction es as [|[k v] es IH]; intros Hs p Hp; cbn [ordering_violations]; [done|]. apply sorted_cons in Hs as [Hs Ha].
  rewrite (IH Hs (Some k) Ha). destruct p as [q|]; [|done]. apply Forall_cons in Hp as [Hp _]. cbn in Hp.
  rewrite bool_decide_eq_false_2; [done|]. by rewrite ble_not_lt; intros ?.
Qed.

(** ** The reverse cursor *)

(** The path the source records for a descent. *)
Definition zpath (fs : list frame) : list (Z * Z) :=
  reverse ((fun f => (f_page f, Z.of_nat (length (f_before f)))) <$> fs).
Lemma zpath_cons f fs : zpath (f :: fs) = zpath fs ++ [(f_page f, Z.of_nat (length (f_before f)))].
Proof. unfold zpath. by rewrite fmap_cons, reverse_cons. Qed.
Lemma zpath_app fs1 fs2 : zpath (fs1 ++ fs2) = zpath fs2 ++ zpath fs1.
Proof. unfold zpath. by rewrite fmap_app, reverse_app. Qed.
Lemma length_zpath fs : length (zpath fs) = length fs.
Proof. unfold zpath. by rewrite length_reverse, length_fmap. Qed.

Lemma descend_indexed_spec k n σ tr h : forall lo hi t left path s,
  wf h lo hi t -> inside lo hi k -> Forall (held σ) (nodes t) -> (h <= left)%nat -> pg_models ps n s σ ->
  exists fs p es nx lo' hi' s',
    descend_indexed k left path (top t) (s, tr) = (Val (path ++ zpath fs, p), (s', tr)) /\ pg_models ps n s' σ /\
    t = fill fs (Leaf p es nx) /\ ctx_wf usable 0 lo' hi' fs h lo hi /\ wf 0 lo' hi' (Leaf p es nx) /\ inside lo' hi' k.
Proof.
  induction h as [|h IH]; intros lo hi t left path s Hwf Hin Hheld Hleft M; destruct t as [p es nx|p kids rt]; try done.
  - pose proof Hheld as [Hd _]%Forall_cons. destruct (page_spec ps n (s, tr) σ _ M Hd) as (b & s' & E & M' & fe & dir & N & _).
    exists [], p, es, nx, lo, hi, s'. ands; try done. cbn [d_page d_leaf d_next snd] in *. unfold zpath. cbn. rewrite app_nil_r.
    destruct left; cbn [descend_indexed top]; unfold st_bind at 1; rewrite E; unfold st_bind, st_lift; by rewrite (is_leaf_eq _ _ _ _ _ _ _ N).
  - destruct left as [|left]; [lia|]. pose proof Hheld as [Hd _]%Forall_cons.
    destruct (page_spec ps n (s, tr) σ _ M Hd) as (b & s1 & E & M1 & Hb).
    destruct (route_spec ps σ h lo hi p kids rt b k Hwf Hin Hheld Hb) as
      (f & t & lo1 & hi1 & Ef & Ep & Hf & Ht & Hin1 & _ & Ht0 & Hht & i & ex & Es & Ei & Ec).
    destruct (IH lo1 hi1 t left (path ++ [(p, Z.of_nat (length (f_before f)))]) s1 Ht Hin1 Hht ltac:(lia) M1)
      as (fs & q & es & nx & lo2 & hi2 & s2 & E2 & M2 & Et & Hc & Hl & Hin2).
    exists (fs ++ [f]), q, es, nx, lo2, hi2, s2. ands; try done.
    + destruct Hb as (fe & dir & N & _). cbn [inner_desc d_page d_leaf snd] in *.
      cbn [descend_indexed top]. unfold st_bind at 1. rewrite E. unfold st_bind at 1, st_lift at 1. rewrite (is_leaf_eq _ _ _ _ _ _ _ N).
      unfold st_bind at 1, st_lift at 1. rewrite Es. cbv zeta. rewrite Ei. unfold st_bind at 1, st_lift at 1. rewrite Ec.
      rewrite (proj2 (Z.eqb_neq _ _)) by lia. rewrite E2. rewrite zpath_app, zpath_cons, Ep, <- !app_assoc. done.
    + by rewrite fill_snoc, <- Et.
    + by eapply ctx_wf_snoc.
Qed.

(** A rightmost descent leaves nothing to the right. *)
Lemma descend_rightmost_spec n σ tr h : forall lo hi t left path s,
  wf h lo hi t -> Forall (held σ) (nodes t) -> (h <= left)%nat -> pg_models ps n s σ ->
  exists fs p es nx lo' s',
    descend_rightmost left path (top t) (s, tr) = (Val (path ++ zpath fs, p), (s', tr)) /\ pg_models ps n s' σ /\
    t = fill fs (Leaf p es nx) /\ ctx_wf usable 0 lo' hi fs h lo hi /\ wf 0 lo' hi (Leaf p es nx) /\ post fs = [].
Proof.
  induction h as [|h IH]; intros lo hi t left path s Hwf Hheld Hleft M; destruct t as [p es nx|p kids rt]; try done.
  - pose proof Hheld as [Hd _]%Forall_cons. destruct (page_spec ps n (s, tr) σ _ M Hd) as (b & s' & E & M' & fe & dir & N & _).
    exists [], p, es, nx, lo, s'. ands; try done. cbn [d_page d_leaf d_next snd] in *. unfold zpath. cbn. rewrite app_nil_r.
    destruct left; cbn [descend_rightmost top]; unfold st_bind at 1; rewrite E; unfold st_bind, st_lift; by rewrite (is_leaf_eq _ _ _ _ _ _ _ N).
  - destruct left as [|left]; [lia|]. pose proof Hheld as [Hd Hrest]%Forall_cons. pose proof Hrest as [Hkh Hrt]%Forall_app.
    destruct (page_spec ps n (s, tr) σ _ M Hd) as (b & s1 & E & M1 & fe & dir & N & Ed). cbn [inner_desc d_page d_leaf d_next d_entries snd] in *.
    pose proof (child_at_eq ps b p (top rt) fe false dir (seps kids) N Ed (kids_held _ _ _ Hkh) (length dir)) as Hc.
    rewrite (seps_length _ _ Ed), lookup_ge_None_2, <- (seps_length _ _ Ed) in Hc by lia.
    set (f := mkFrame p kids None). destruct Hwf as [Hne Hk].
    assert (Hf : frame_wf usable (wf h) lo hi f (bound_after lo kids) hi /\ wf h (bound_after lo kids) hi rt).
    { rewrite <- (app_nil_r kids), wf_kids_app in Hk. cbn [wf_kids] in Hk. unfold frame_wf, f. cbn [f_before f_after]. tauto. }
    destruct Hf as [Hf Hwr]. pose proof (top_held _ _ _ Hrt).
    destruct (IH (bound_after lo kids) hi rt left (path ++ [(p, Z.of_nat (length dir))]) s1 Hwr Hrt ltac:(lia) M1)
      as (fs & q & es & nx & lo2 & s2 & E2 & M2 & Et & Hcx & Hl & Hpost).
    exists (fs ++ [f]), q, es, nx, lo2, s2. ands; try done.
    + cbn [descend_rightmost top]. unfold st_bind at 1. rewrite E. unfold st_bind at 1, st_lift at 1. rewrite (is_leaf_eq _ _ _ _ _ _ _ N).
      unfold st_bind at 1, st_lift at 1. rewrite (count_eq _ _ _ _ _ _ _ N). unfold st_bind at 1, st_lift at 1. rewrite Hc.
      rewrite (proj2 (Z.eqb_neq _ _)) by lia. rewrite E2. rewrite zpath_app, zpath_cons, <- !app_assoc. unfold f. cbn [f_page f_before].
      by rewrite (seps_length _ _ Ed), length_seps.
    + by rewrite fill_snoc, <- Et.
    + by eapply ctx_wf_snoc.
    + by rewrite post_app, Hpost.
Qed.

(** A position in the tree: the context and the subtree in it. *)
Record zipper (σ : gmap Z bytes) (h : nat) (T : bt) (fs : list frame) (hh : nat) (lo hi : option bytes) (t : bt) : Prop := {
  zp_fill : fill fs t = T;
  zp_ctx : ctx_wf usable hh lo hi fs h None None;
  zp_wf : wf hh lo hi t;
  zp_held : Forall (held σ) (nodes T);
  zp_depth : (h <= 63)%nat
}.

(** What [previous_leaf] finds: the nearest leaf to the left with entries. *)
Definition found_left (σ : gmap Z bytes) (h : nat) (T : bt) (before : list desc) (o : option (list entry)) (path : list (Z * Z)) : Prop :=
  match o with
  | None => data before = []
  | Some es => es <> [] /\ exists fs p nx lo hi, path = zpath fs /\ zipper σ h T fs 0 lo hi (Leaf p es nx) /\
      data before = data (pre fs p) ++ es /\ (length (pre fs p) < length before)%nat
  end.

(** Moving to the subtree left of the hole. *)
Section Left.
Context (n : nat) (σ : gmap Z bytes) (tr : BTree) (s : S) (h : nat) (T : bt).
Context (f : frame) (fs : list frame) (hh : nat) (lo hi : option bytes) (t : bt) (l : list (bytes * bt)) (s0 : bytes) (t' : bt).
Hypothesis M : pg_models ps n s σ.
Hypothesis Hz : zipper σ h T (f :: fs) hh lo hi t.
Hypothesis El : f_before f = l ++ [(s0, t')].

Lemma left_step :
  exists b s1 fs1 p es nx lo' hi' s',
    on_pool (pg_get Search (f_page f)) (s, tr) = (Val b, (s1, tr)) /\ is_leaf b = Val false /\
    (exists c : nat, node_count b = Val (Z.of_nat c) /\ (length l <= c)%nat) /\ child_at b (Z.of_nat (length l)) = Val (top t') /\
    0 < top t' /\
    descend_rightmost (64 - length (zpath fs ++ [(f_page f, Z.of_nat (length l))])) (zpath fs ++ [(f_page f, Z.of_nat (length l))]) (top t') (s1, tr)
      = (Val (zpath fs1, p), (s', tr)) /\ pg_models ps n s' σ /\
    zipper σ h T fs1 0 lo' hi' (Leaf p es nx) /\
    data (pre (f :: fs) (top t)) = data (pre fs1 p) ++ es /\ length (pre (f :: fs) (top t)) = Datatypes.S (length (pre fs1 p)).
Proof.
  destruct Hz as [Efill (lo1 & hi1 & Hf & Hc) Hwf Hheld Hdep].
  destruct (left_frame_wf _ _ _ _ _ _ _ _ _ _ _ Hf El Hwf) as [Hf' Hwt']. set (f' := left_frame f l s0 t) in *.
  assert (Efill' : fill fs (fill1 f' t') = T) by (rewrite <- Efill; cbn [fill]; unfold f'; by rewrite (fill1_left _ _ _ _ _ El)).
  assert (Hh' : Forall (held σ) (pre fs (f_page f) ++ nodes (fill1 f' t') ++ post fs)).
  { rewrite <- Efill', nodes_fill, top_fill1 in Hheld. exact Hheld. }
  rewrite nodes_fill1, !Forall_app, Forall_cons, !Forall_app in Hh'. destruct Hh' as (_ & (Hd & Hkl & Ht' & Haf) & _).
  destruct (get_search_spec ps n (s, tr) σ _ M Hd) as (b & s1 & E & M1 & fe & dir & N & Ed).
  unfold frame_desc, f', left_frame in E, N, Ed. cbn [f_after f_page f_before] in E, N, Ed.
  set (rest := match f_after f with None => (s0, [], t) | Some (s1, l0, rt) => (s0, (s1, t) :: l0, rt) end) in *.
  destruct rest as [[sx lx] rx] eqn:Erest. assert (sx = s0) as -> by (unfold rest in Erest; destruct (f_after f) as [[[? ?] ?]|]; congruence).
  cbn [d_page d_leaf d_next d_entries snd] in E, N, Ed.
  assert (Hus : Forall (fun c => is_u64 (snd c)) (seps l ++ (s0, top t') :: seps lx)).
  { apply Forall_app. split; [by eapply kids_held|]. pose proof (top_held _ _ _ Ht'). constructor; [cbn; unfold is_u64; lia|].
    unfold after_nodes, f', left_frame in Haf. cbn [f_after] in Haf. fold rest in Haf. rewrite Erest, Forall_app in Haf. eapply kids_held, (proj1 Haf). }
  pose proof (child_at_eq ps b _ _ _ _ _ _ N Ed Hus (length l)) as Hch.
  rewrite list_lookup_middle in Hch by (by rewrite length_seps). cbn [snd] in Hch.
  assert (Hlen : (hh + Datatypes.S (length fs) = h)%nat) by (apply ctx_height in Hc; lia).
  destruct (descend_rightmost_spec n σ tr hh (bound_after lo1 l) (Some s0) t' (64 - length (zpath fs ++ [(f_page f, Z.of_nat (length l))]))
    (zpath fs ++ [(f_page f, Z.of_nat (length l))]) s1 Hwt' Ht') as (fs1 & p & es & nx & lo2 & s2 & E2 & M2 & Et & Hcx & Hl & Hpost);
    [rewrite length_app, length_zpath; cbn; lia|done|].
  assert (Ez : zpath (fs1 ++ f' :: fs) = (zpath fs ++ [(f_page f, Z.of_nat (length l))]) ++ zpath fs1) by (by rewrite zpath_app, zpath_cons).
  exists b, s1, (fs1 ++ f' :: fs), p, es, nx, lo2, (Some s0), s2. pose proof (top_held _ _ _ Ht') as [Tpos _].
  assert (Hn' : nodes t' = pre fs1 p ++ [mkDesc p true es nx]) by (rewrite Et, nodes_fill, Hpost, app_nil_r; done).
  assert (Ep : pre (fs1 ++ f' :: fs) p = (pre fs (f_page f) ++ frame_desc f' (top t') :: kids_nodes l) ++ pre fs1 p).
  { assert (Ect : ctx_top fs1 p = top t') by (by rewrite Et, top_fill). rewrite pre_app, Ect. done. }
  assert (Ep0 : pre (f :: fs) (top t) = pre fs (f_page f) ++ frame_desc f (top t) :: kids_nodes l ++ nodes t').
  { cbn [pre]. rewrite El, kids_nodes_app, kids_nodes_cons, app_nil_r. done. }
  assert (Hnl : d_leaf (frame_desc f (top t)) = false) by (unfold frame_desc; by destruct (f_after f) as [[[? ?] ?]|]).
  assert (Hnl' : d_leaf (frame_desc f' (top t')) = false)
    by (unfold frame_desc, f', left_frame; cbn [f_after]; by destruct (f_after f) as [[[? ?] ?]|]).
  ands; try done.
  - by rewrite (is_leaf_eq _ _ _ _ _ _ _ N).
  - exists (length dir). rewrite (count_eq _ _ _ _ _ _ _ N). split; [done|]. rewrite (seps_length _ _ Ed), length_app, length_seps. lia.
  - by rewrite Ez.
  - split; try done.
    + rewrite fill_app. cbn [fill]. by rewrite <- Et.
    + eapply ctx_wf_app; [exact Hcx|]. exists lo1, hi1. by split.
  - rewrite Ep, Ep0, !data_app, !data_inner, !data_app by done. rewrite Hn', data_app, data_leaf, <- !app_assoc. done.
  - rewrite Ep, Ep0, !length_app. cbn [length]. rewrite !length_app, Hn', length_app. cbn [length]. lia.
Qed.
End Left.

Lemma previous_leaf_spec n σ tr h T turns : forall s fs hh lo hi t,
  pg_models ps n s σ -> zipper σ h T fs hh lo hi t -> (length (pre fs (top t)) <= turns)%nat ->
  exists o path s', previous_leaf turns (zpath fs) (s, tr) = (Val (o, path), (s', tr)) /\ pg_models ps n s' σ /\
    found_left σ h T (pre fs (top t)) o path.
Proof.
  induction turns as [|turns IH]; intros s fs hh lo hi t M Hz Ht; destruct fs as [|f fs];
    try (exists None, [], s; done); [cbn [pre] in Ht; rewrite length_app in Ht; cbn in Ht; lia|].
  destruct (f_before f) as [|[s0 t'] l _] eqn:Eb using rev_ind.
  - pose proof Hz as [Efill (lo1 & hi1 & Hf & Hc) Hwf Hh Hdep].
    assert (Ep : pre (f :: fs) (top t) = pre fs (top (fill1 f t)) ++ [frame_desc f (top t)]) by (cbn [pre]; by rewrite Eb, top_fill1).
    assert (Hnl : d_leaf (frame_desc f (top t)) = false) by (unfold frame_desc; by destruct (f_after f) as [[[? ?] ?]|]).
    destruct (IH s fs (Datatypes.S hh) lo1 hi1 (fill1 f t) M) as (o & path & s' & E & M' & Hfound).
    { split; try done. by eapply wf_fill1. }
    { rewrite Ep, length_app in Ht. cbn in Ht. lia. }
    exists o, path, s'. split; [|split; [done|]].
    + rewrite zpath_cons. cbn [previous_leaf]. rewrite last_snoc, removelast_last, Eb. exact E.
    + rewrite Ep. unfold found_left in *. rewrite data_app, data_inner, length_app by done. cbn [length].
      change (data []) with (@nil entry). rewrite app_nil_r. destruct o as [es|]; [|done].
      destruct Hfound as (Hne & fs' & p & nx & lo' & hi' & ? & ? & ? & ?). split; [done|]. exists fs', p, nx, lo', hi'. ands; try done. lia.
  - destruct (left_step n σ tr s h T f fs hh lo hi t l s0 t' M Hz Eb)
      as (b & s1 & fs1 & p & es & nx & lo' & hi' & s2 & E1 & El & (c & Ec & Hcl) & Ech & Tpos & E2 & M2 & Hz2 & Hdata & Hlen).
    assert (Hd : held σ (mkDesc p true es nx)).
    { pose proof (zp_held _ _ _ _ _ _ _ _ Hz2) as Hh. rewrite <- (zp_fill _ _ _ _ _ _ _ _ Hz2), nodes_fill, !Forall_app in Hh.
      destruct Hh as (_ & Hd & _). by apply Forall_cons in Hd as [? _]. }
    pose proof (zp_wf _ _ _ _ _ _ _ _ Hz2) as (Hs & _).
    destruct (leaf_entries_spec n (s2, tr) σ _ [] M2 Hd Hs) as (s3 & E3 & M3). rewrite from_key_empty in E3. cbn [d_page d_entries d_next snd] in E3.
    assert (Elast : Z.of_nat (length (f_before f)) - 1 = Z.of_nat (length l)) by (rewrite Eb, length_app; cbn; lia).
    assert (Estep : previous_leaf (Datatypes.S turns) (zpath (f :: fs)) (s, tr) =
      (if bool_decide (es = []) then previous_leaf turns (zpath fs1) else st_ret (Some es, zpath fs1)) (s3, tr)).
    { rewrite zpath_cons. cbn [previous_leaf]. rewrite last_snoc, removelast_last, (proj2 (Z.eqb_neq _ _)) by lia. rewrite Elast.
      unfold st_bind at 1. rewrite E1. unfold st_bind at 1, st_lift at 1. rewrite El. unfold st_bind at 1, st_lift at 1. rewrite Ec.
      rewrite Z.min_l by lia. unfold st_bind at 1, st_lift at 1. rewrite Ech. rewrite (proj2 (Z.eqb_neq _ _)) by lia.
      unfold st_bind at 1. rewrite E2. unfold st_bind at 1. rewrite E3. done. }
    rewrite Estep. case_bool_decide as Hes.
    + destruct (IH s3 fs1 0%nat lo' hi' (Leaf p es nx) M3 Hz2) as (o & path & s' & E & M' & Hfound); [cbn [top]; lia|].
      exists o, path, s'. split; [done|split; [done|]]. subst es. rewrite app_nil_r in Hdata. cbn [top] in Hfound.
      unfold found_left in *. rewrite Hdata, Hlen. destruct o as [es|]; [|done].
      destruct Hfound as (Hne & fs' & p' & nx' & lo2 & hi2 & ? & ? & ? & ?). split; [done|]. exists fs', p', nx', lo2, hi2. ands; try done. lia.
    + exists (Some es), (zpath fs1), s3. split; [done|split; [done|]]. split; [done|]. exists fs1, p, nx, lo', hi'. ands; try done. lia.
Qed.

(** ** Collecting in reverse *)

(** What a reverse cursor has still to yield, last first. *)
Record rev_pending (σ : gmap Z bytes) (h : nat) (T : bt) (r : BTreeRangeRev) (before : list desc) : Prop := {
  rp_index : (rv_index r <= length (rv_entries r))%nat;
  rp_zipper : exists fs p es nx lo hi, rv_path r = zpath fs /\ before = pre fs p /\ zipper σ h T fs 0 lo hi (Leaf p es nx);
  rp_live : rv_exhausted r = false
}.
Definition rev_remaining (r : BTreeRangeRev) (before : list desc) : list entry :=
  reverse (data before ++ take (rv_index r) (rv_entries r)).

Lemma rev_next_spec n σ tr h T turns s r before :
  pg_models ps n s σ -> rev_pending σ h T r before -> (length before < turns)%nat ->
  exists o r' s', rev_next turns r (s, tr) = (Val (o, r'), (s', tr)) /\ pg_models ps n s' σ /\
    match rev_remaining r before with
    | [] => o = None
    | e :: rest => o = Some e /\ exists before', rev_pending σ h T r' before' /\ rev_remaining r' before' = rest /\
        (length before' <= length before)%nat
    end.
Proof.
  assert (Hhave : forall turns s r before i, rev_pending σ h T r before -> rv_index r = Datatypes.S i -> pg_models ps n s σ ->
    exists e r', rev_next turns r (s, tr) = (Val (Some e, r'), (s, tr)) /\ rev_pending σ h T r' before /\
      rev_remaining r before = e :: rev_remaining r' before).
  { intros tn s0 r0 bf i [Hi Hz Hl] Ei M0. destruct (lookup_lt_is_Some_2 (rv_entries r0) i) as [e He]; [lia|].
    exists e, (mkRev (rv_entries r0) i (rv_path r0) (rv_exhausted r0)).
    split; [destruct tn; cbn [rev_next]; by rewrite Ei, He|]. split; [split; cbn; [lia|done|done]|].
    unfold rev_remaining. cbn [rv_index rv_entries]. rewrite Ei, (take_S_r _ _ _ He), app_assoc, reverse_snoc. done. }
  intros M Hp Ht. destruct (rv_index r) as [|i] eqn:Ei.
  2: { destruct (Hhave turns s r before i Hp Ei M) as (e & r' & E & Hp' & ->). exists (Some e), r', s. ands; try done. eauto. }
  destruct turns as [|turns]; [lia|]. destruct Hp as [Hi (fs & p & es & nx & lo & hi & Epath & -> & Hz) Hl].
  destruct (previous_leaf_spec n σ tr h T (Datatypes.S turns) s fs 0 lo hi (Leaf p es nx) M Hz) as (o & path & s1 & E & M1 & Hf);
    [cbn [top]; lia|]. unfold rev_remaining at 1. rewrite Ei. change (take 0 (rv_entries r)) with (@nil entry). rewrite app_nil_r.
  cbn [rev_next]. rewrite Ei, Hl. unfold st_bind at 1. rewrite Epath, E. cbn [top] in Hf. unfold found_left in Hf.
  destruct o as [es'|].
  2: { rewrite Hf. exists None, (mkRev (rv_entries r) 0 path true), s1. by ands. }
  destruct Hf as (Hne & fs' & p' & nx' & lo' & hi' & -> & Hz' & -> & Hlen).
  assert (Hp' : rev_pending σ h T (mkRev es' (length es') (zpath fs') false) (pre fs' p')).
  { split; cbn; [lia| |done]. exists fs', p', es', nx', lo', hi'. done. }
  destruct (length es') as [|i] eqn:El; [destruct es'; done|]. 
  destruct (Hhave turns s1 _ (pre fs' p') i Hp' eq_refl M1) as (e & r' & E' & Hp2 & Er). exists (Some e), r', s1. ands; try done.
  unfold rev_remaining at 1 in Er. cbn [rv_index rv_entries] in Er. rewrite <- El, firstn_all in Er. rewrite Er. split; [done|].
  exists (pre fs' p'). ands; try done. lia.
Qed.

Lemma rev_collect_spec n σ tr h T turns : forall s r before, pg_models ps n s σ -> rev_pending σ h T r before ->
  (length before + length (rev_remaining r before) < turns)%nat ->
  exists s', rev_collect turns r (s, tr) = (Val (rev_remaining r before), (s', tr)) /\ pg_models ps n s' σ.
Proof.
  induction turns as [|turns IH]; intros s r before M Hp Ht; [lia|].
  destruct (rev_next_spec n σ tr h T (Datatypes.S turns) s r before M Hp ltac:(lia)) as (o & r' & s1 & E & M1 & Ho).
  destruct (rev_remaining r before) as [|e rest] eqn:Er; cbn [length] in Ht; cbn [rev_collect]; unfold st_bind at 1; rewrite E.
  - subst o. by exists s1.
  - destruct Ho as (-> & before' & Hp' & <- & Hlen). destruct (IH s1 r' before' M1 Hp') as (s2 & E2 & M2); [lia|].
    exists s2. split; [|done]. unfold st_bind. by rewrite E2.
Qed.

(** The entries below an optional bound. *)
Definition below_bound (bound : option bytes) (es : list entry) : list entry := filter (fun e => high bound (fst e)) es.

Lemma filter_prefix (Q : entry -> Prop) `{forall e, Decision (Q e)} l : forall m,
  (forall j x, l !! j = Some x -> bool_decide (Q x) = (j <? m)%nat) -> filter Q l = take m l.
Proof.
  induction l as [|e l IH]; intros m Hm; [by destruct m|]. pose proof (Hm 0%nat e eq_refl) as H0. destruct m as [|m].
  - apply bool_decide_eq_false in H0. rewrite filter_cons_False by done. rewrite (IH 0%nat); [by destruct l|].
    intros j x Hx. by rewrite (Hm (Datatypes.S j) x Hx).
  - apply bool_decide_eq_true in H0. rewrite filter_cons_True by done. cbn [take]. f_equal. apply IH. intros j x Hx. apply (Hm (Datatypes.S j) x Hx).
Qed.

Lemma below_partition k es : sorted es ->
  take (partition_point (fun e => bool_decide (blt (fst e) k)) es) es = below_bound (Some k) es /\
  (partition_point (fun e => bool_decide (blt (fst e) k)) es <= length es)%nat.
Proof.
  intros Hs. destruct (partition_point_spec (fun e => bool_decide (blt (fst e) k)) es) as [Hle Hpp].
  - intros i j x y Hij Hx Hy Hp. bools. apply bool_decide_eq_true. destruct (decide (i = j)) as [->|Hne]; [congruence|].
    eapply blt_trans; [|exact Hp]. eapply (StronglySorted_lookup blt es.*1 i j); [exact Hs|lia| |]; by rewrite list_lookup_fmap, ?Hx, ?Hy.
  - split; [|done]. symmetry. apply filter_prefix. exact Hpp.
Qed.

Lemma below_bound_all bound es : Forall (fun e => high bound (fst e)) es -> below_bound bound es = es.
Proof. intros H. unfold below_bound. induction H as [|e l He Hl IH]; [done|]. rewrite filter_cons_True by done. by rewrite IH. Qed.
Lemma below_bound_none k es : above k es -> below_bound (Some k) es = [].
Proof.
  intros H. unfold below_bound. induction H as [|e l He Hl IH]; [done|]. rewrite filter_cons_False; [done|]. cbn.
  intros Hb. apply (blt_irrefl k). by eapply blt_trans.
Qed.

(** The cursor of [range_rev_below] has the entries below the bound ahead. *)
Lemma range_rev_spec n w σ h t bound : models n w σ -> tree_ok ps σ (snd w) h t ->
  exists r before s', range_rev_below bound w = (Val r, (s', snd w)) /\ pg_models ps n s' σ /\ rev_pending σ h t r before /\
    rev_remaining r before = reverse (below_bound bound (data (nodes t))) /\ (length before < length (nodes t))%nat.
Proof.
  intros M T. pose proof T as [Hwf Hh Hnd _ Hr]. pose proof (wf_depth _ _ _ _ _ Hwf Hnd (held_pages _ _ _ Hh)) as Hdep.
  destruct w as [s0 tr]. cbn [fst snd] in *.
  assert (Hdown : exists fs p es nx lo hi s1,
    match bound with Some k => descend_indexed k 64 [] (root tr) | None => descend_rightmost 64 [] (root tr) end (s0, tr)
      = (Val (zpath fs, p), (s1, tr)) /\ pg_models ps n s1 σ /\ t = fill fs (Leaf p es nx) /\ ctx_wf usable 0 lo hi fs h None None /\
    wf 0 lo hi (Leaf p es nx) /\
    match bound with Some k => inside lo hi k | None => post fs = [] end).
  { rewrite Hr. destruct bound as [k|].
    - destruct (descend_indexed_spec k n σ tr h None None t 64 [] s0 Hwf ltac:(done) Hh ltac:(lia) M) as (fs & p & es & nx & lo & hi & s1 & ?).
      by exists fs, p, es, nx, lo, hi, s1.
    - destruct (descend_rightmost_spec n σ tr h None None t 64 [] s0 Hwf Hh ltac:(lia) M) as (fs & p & es & nx & lo & s1 & ?).
      by exists fs, p, es, nx, lo, None, s1. }
  destruct Hdown as (fs & p & es & nx & lo & hi & s1 & E & M1 & -> & Hc & Hl & Hbound).
  pose proof (hole_held _ _ _ _ _ _ _ _ T) as Hd. pose proof Hl as (Hs & _).
  destruct (leaf_entries_spec n (s1, tr) σ _ [] M1 Hd Hs) as (s2 & E2 & M2). rewrite from_key_empty in E2. cbn [d_page d_entries d_next snd] in E2.
  set (i := match bound with Some k => partition_point (fun e : entry => bool_decide (blt (fst e) k)) es | None => length es end).
  exists (mkRev es i (zpath fs) false), (pre fs p), s2.
  assert (Hi : (i <= length es)%nat /\ data (pre fs p) ++ take i es = below_bound bound (data (pre fs p) ++ es ++ data (post fs))).
  { unfold i, below_bound. destruct bound as [k|].
    - destruct (below_partition k es Hs) as [Et Hle]. split; [done|]. rewrite Et, !filter_app. destruct (hole_data ps h fs p lo hi Hc k Hbound) as [Hb Ha].
      fold (below_bound (Some k) (data (pre fs p))). fold (below_bound (Some k) (data (post fs))).
      rewrite (below_bound_none k (data (post fs))), app_nil_r by done. f_equal. symmetry. apply below_bound_all. exact Hb.
    - split; [lia|]. rewrite firstn_all, Hbound. change (data []) with (@nil entry). rewrite app_nil_r.
      symmetry. apply (below_bound_all None). by apply Forall_true. }
  destruct Hi as [Hi Hdata]. ands; try done.
  - unfold range_rev_below, root_of. unfold st_bind at 1, gets at 1. cbn [snd]. unfold st_bind at 1. rewrite E. unfold st_bind. by rewrite E2.
  - split; cbn; [done| |done]. exists fs, p, es, nx, lo, hi. ands; try done.
  - unfold rev_remaining. cbn [rv_index rv_entries]. rewrite Hdata, data_fill. done.
  - rewrite nodes_fill, !length_app. cbn. lia.
Qed.

(** ** One entry *)

(** One turn of the loop at a leaf [d], looking from its [i]-th entry. *)
Lemma first_turn n σ tr s d i start first :
  pg_models ps n s σ -> held σ d -> (i <= length (d_entries d))%nat ->
  (forall b, holds b d -> if first : bool then exists ex, node_search b start = Val (Z.of_nat i, ex) else i = 0%nat) ->
  exists s', pg_models ps n s' σ /\ forall turns,
    first_loop turns start first (d_page d) (s, tr) =
    match drop i (d_entries d) with
    | e :: _ => (Val (Some e), (s', tr))
    | [] => if d_next d =? 0 then (Val None, (s', tr))
            else match turns with O => (Panic, (s', tr)) | Datatypes.S turns' => first_loop turns' start false (d_next d) (s', tr) end
    end.
Proof.
  intros M Hd Hi Hsearch. destruct (page_spec ps n (s, tr) σ d M Hd) as (b & s1 & E & M1 & Hb). specialize (Hsearch b Hb).
  destruct Hb as (fe & dir & N & Ed). cbn [snd] in E. rewrite <- Ed in *. rewrite length_fmap in Hi.
  assert (Hra : exists s', (if d_next d =? 0 then st_ret tt else on_pool (pg_request_read_ahead (d_next d))) (s1, tr)
      = (Val tt, (s', tr)) /\ pg_models ps n s' σ).
  { destruct (d_next d =? 0); [by exists s1|]. destruct (pg_read_ahead_law _ _ _ _ (d_next d) M1) as (s2 & E2 & M2).
    exists s2. unfold on_pool. cbn [fst snd]. by rewrite E2. }
  destruct Hra as (s2 & Era & M2).
  assert (Eidx : (if first then do (i, _) <- st_lift (node_search b start) ;; st_ret i else st_ret 0) (s1, tr)
      = ((Val (Z.of_nat i) : pres Z), (s1, tr))).
  { destruct first; [destruct Hsearch as [ex Es]; unfold st_bind, st_lift; by rewrite Es|by subst]. }
  destruct (dir !! i) as [e|] eqn:He.
  - exists s1. split; [done|]. intros turns. rewrite (drop_S dir.*2 (snd e) i) by (by rewrite list_lookup_fmap, He).
    pose proof (lookup_lt_Some _ _ _ He).
    destruct turns; cbn [first_loop]; unfold st_bind at 1; rewrite E; unfold st_bind at 1; rewrite Eidx;
      unfold st_bind at 1, st_lift at 1; rewrite (count_eq _ _ _ _ _ _ _ N), (proj2 (Z.ltb_lt _ _)) by lia;
      unfold st_bind, st_lift; rewrite (key_eq _ _ _ _ _ _ _ N _ _ He), (value_eq _ _ _ _ _ _ _ N _ _ He); by destruct e as [? [? ?]].
  - exists s2. split; [done|]. intros turns. apply lookup_ge_None in He. rewrite drop_ge by (by rewrite length_fmap).
    destruct turns; cbn [first_loop]; unfold st_bind at 1; rewrite E; unfold st_bind at 1; rewrite Eidx;
      unfold st_bind at 1, st_lift at 1; rewrite (count_eq _ _ _ _ _ _ _ N), (proj2 (Z.ltb_ge _ _)) by lia;
      unfold st_bind at 1, st_lift at 1; rewrite (next_eq _ _ _ _ _ _ _ N); unfold st_bind; rewrite Era; by destruct (d_next d =? 0).
Qed.

Lemma first_rest n σ tr start ls : forall turns s d,
  pg_models ps n s σ -> Forall (held σ) (d :: ls) -> linked (d :: ls) 0 -> (length ls <= turns)%nat ->
  exists s', first_loop turns start false (d_page d) (s, tr) = (Val (head (flat_map d_entries (d :: ls))), (s', tr)) /\ pg_models ps n s' σ.
Proof.
  induction ls as [|d' ls IH]; intros turns s d M [Hd Hls]%Forall_cons Hl Ht; apply linked_cons in Hl as [Hn Hl];
    destruct (first_turn n σ tr s d 0 start false M Hd ltac:(lia)) as (s1 & M1 & E1); try done;
    rewrite (E1 turns), drop_0, Hn; cbn [first_page flat_map].
  - exists s1. rewrite app_nil_r. by destruct (d_entries d).
  - destruct (d_entries d) as [|e es] eqn:Ee; [|by exists s1].
    pose proof Hls as [(Hd0 & _) _]%Forall_cons. rewrite (proj2 (Z.eqb_neq _ _)) by done.
    destruct turns as [|turns]; [cbn in Ht; lia|]. apply (IH turns s1 d'); try done. cbn in Ht. lia.
Qed.

(** [first_at_or_after] is the first entry of the range. *)
Lemma first_at_or_after_spec n w σ h t turns start : models n w σ -> tree_ok ps σ (snd w) h t -> (length (leaves (nodes t)) <= turns)%nat ->
  exists s', first_at_or_after turns start w = (Val (head (from_key start (data (nodes t)))), (s', snd w)) /\ pg_models ps n s' σ.
Proof.
  intros M T Ht. destruct (tree_leaves _ _ _ _ T) as (Lh & Ll & _).
  destruct (descend_spec ps n w σ h t start M T) as (fs & p & es & nx & lo & hi & s1 & E & M1 & -> & Hc & Hwf & Hin).
  pose proof Hwf as (Hs & _). pose proof (hole_held _ _ _ _ _ _ _ _ T) as Hd.
  unfold first_at_or_after. unfold st_bind at 1. rewrite E. unfold st_bind at 1. rewrite last_of_spec.
  assert (El : leaves (nodes (fill fs (Leaf p es nx))) = leaves (pre fs p) ++ mkDesc p true es nx :: leaves (post fs))
    by (rewrite hole_nodes, !leaves_app; done).
  rewrite El in *. apply Forall_app in Lh as [_ Lh]. apply linked_app in Ll as [_ Ll].
  destruct (page_spec ps n (s1, snd w) σ _ M1 Hd) as (b0 & _ & _ & _ & fe & dir & N & Ed). cbn [d_page d_leaf d_next d_entries] in N, Ed.
  rewrite <- Ed in Hs. destruct (search_spec _ _ _ _ _ _ _ N Hs start) as (i0 & ex & _ & Hloc). rewrite Ed in *.
  destruct (hole_data ps h fs p lo hi Hc start Hin) as [Hb Ha].
  assert (Ef : from_key start (data (nodes (fill fs (Leaf p es nx)))) = from_key start es ++ flat_map d_entries (leaves (post fs))).
  { rewrite data_fill, !from_key_app, (from_key_below start (data (pre fs p))) by done. cbn [app]. f_equal.
    by apply from_key_above. }
  destruct (located_from _ _ _ _ Hloc) as [Efk Hi].
  destruct (first_turn n σ (snd w) s1 (mkDesc p true es nx) (Z.to_nat i0) start true M1 Hd) as (s2 & M2 & E2).
  { cbn [d_entries]. lia. }
  { intros b (fe' & dir' & N' & Ed'). cbn [d_page d_leaf d_next d_entries] in N', Ed'. rewrite <- Ed' in Hs.
    destruct (search_spec _ _ _ _ _ _ _ N' Hs start) as (i' & ex' & Es' & Hloc'). rewrite Ed' in *. exists ex'. rewrite Es'. do 2 f_equal.
    destruct (located_from _ _ _ _ Hloc') as [Ek' Hi']. rewrite Efk in Ek'. apply (f_equal length) in Ek'. rewrite !length_drop in Ek'. lia. }
  cbn [d_page d_entries d_next] in E2. rewrite (E2 turns), <- Efk, Ef. apply linked_cons in Ll as [Hn Ll]. cbn [d_next] in Hn. rewrite Hn.
  destruct (from_key start es) as [|e rest]; [|by exists s2]. cbn [app].
  destruct (leaves (post fs)) as [|d' ls] eqn:Ep; [by exists s2|]. cbn [first_page].
  apply Forall_cons in Lh as [_ Lh]. pose proof Lh as [(Hd0 & _) _]%Forall_cons. rewrite (proj2 (Z.eqb_neq _ _)) by done.
  rewrite length_app in Ht. cbn [length] in Ht. destruct turns as [|turns]; [lia|].
  apply (first_rest n σ (snd w) start ls turns s2 d'); try done. lia.
Qed.
End Cursor.
