(* ===== verification/BTreeTheorems.v ===== *)
(** * The B+ tree: theorems

    On any pool that keeps the pages it is given, a tree answers every sequence
    of calls as a finite map ordered by key, its scans return that map in order
    in both directions, and its descents stay within the depth the code allows.
    The last section runs the tree on the modelled buffer pool over a new page
    file. *)

From stdpp Require Import base tactics list numbers gmap.
From Stdlib Require Import ZArith Lia.
From S2P Require Import Prelude Search Bytes Errors PageFormat PageStore PageStoreSpec AllocatorTheorems Pool PoolPager PoolRuns PoolTheorems.
From S2P Require Import Pager Keys BTreeNode BTreeNodeSpec BTreeSplit BTree BTreeTheory BTreeOps BTreeInsert BTreeCursor.
From S2P Require Import PoolShard PoolSpec PoolFrees.
Local Open Scope Z_scope.
Local Open Scope bic_scope.

(** ** The calls, and what they answer *)

Inductive TreeOp :=
  | TGet (k : bytes)
  | TContains (k : bytes)
  | TInsert (k v : bytes)
  | TRemove (k : bytes)
  | TFlush.

Inductive TreeOut := OValue (o : option bytes) | OBool (b : bool) | OUnit.

(** The key and the value [insert] accepts at a page size. *)
Definition accepted (ps : Z) (k v : bytes) : bool :=
  negb (bool_decide (k = [])) && (Z.max (required_space (k, v)) (blen k + 8 + ENTRY_BYTES) * 2 <=? usable_bytes ps).

(** The map a tree stands for, its answer and its error. *)
Definition tree_spec (ps : Z) (op : TreeOp) (m : gmap bytes bytes) : res PageError TreeOut * gmap bytes bytes :=
  match op with
  | TGet k => (Val (OValue (m !! k)), m)
  | TContains k => (Val (OBool (bool_decide (is_Some (m !! k)))), m)
  | TInsert k v =>
      if accepted ps k v then (Val OUnit, <[k := v]> m)
      else (Err (if bool_decide (k = []) then ValueTooLarge 0 0 0
                 else ValueTooLarge 0 (blen k + blen v) (usable_bytes ps / 2)), m)
  | TRemove k => (Val (OBool (bool_decide (is_Some (m !! k)))), base.delete k m)
  | TFlush => (Val OUnit, m)
  end.

Fixpoint spec_answers (ps : Z) (ops : list TreeOp) (m : gmap bytes bytes) : list (res PageError TreeOut) * gmap bytes bytes :=
  match ops with
  | [] => ([], m)
  | op :: ops' =>
      let '(r, m1) := tree_spec ps op m in
      let '(rs, m2) := spec_answers ps ops' m1 in (r :: rs, m2)
  end.

(** Pages an operation may allocate: one per level and a root. *)
Definition tree_cost (op : TreeOp) : nat := match op with TInsert _ _ => 65 | _ => 0 end.

Section Tree.
Context {S : Type} {P : Pager S} {L : PagerLaws S} (ps : Z).
Abbreviation usable := (usable_bytes ps).
Abbreviation world := (S * BTree)%type.
Abbreviation models n w σ := (pg_models ps n (fst w) σ).

Definition tree_exec (op : TreeOp) : st PageError world TreeOut :=
  match op with
  | TGet k => do o <- get k ;; st_ret (OValue o)
  | TContains k => do b <- contains k ;; st_ret (OBool b)
  | TInsert k v => insert k v ;;; st_ret OUnit
  | TRemove k => do b <- remove k ;; st_ret (OBool b)
  | TFlush => flush ;;; st_ret OUnit
  end.

(** A sequence of calls; one that fails is followed by the next. *)
Fixpoint tree_runs (ops : list TreeOp) (w : world) : list (res PageError TreeOut) * world :=
  match ops with
  | [] => ([], w)
  | op :: ops' =>
      let '(r, w1) := tree_exec op w in
      let '(rs, w2) := tree_runs ops' w1 in (r :: rs, w2)
  end.

(** ** Creation *)

Lemma create_at_spec n s σ : pg_models ps (1 + n) s σ -> 512 <= ps <= 65536 ->
  exists s' r b, create_at s = (Val (mkTree r false Search), s') /\ pg_models ps n s' (<[r := b]> σ) /\ σ !! r = None /\
    tree_ok ps (<[r := b]> σ) (mkTree r false Search) 0 (Leaf r [] 0).
Proof.
  intros M Hps. pose proof (pg_size_law _ _ _ _ M) as Hsize.
  destruct (pg_allocate_law ps n s σ BTreeLeaf M ltac:(done) ltac:(done)) as (r & b0 & s1 & E1 & Hr & Hr0 & Hru & Hlen & M1).
  destruct (pg_get_mut_law ps n s1 _ r b0 M1 ltac:(by apply lookup_insert_eq)) as (b1 & (Hl1 & _) & Hlaw).
  destruct (node_init_spec ps b1 r true Hps) as (b2 & E2 & N2); [lia|done|].
  destruct (Hlaw _ (node_init r ps true)) as (s2 & E3 & M2); [rewrite E2; by eapply node_readable|].
  rewrite E2 in E3, M2. cbn [fst snd] in E3, M2. rewrite insert_insert_eq in M2. exists s2, r, b2. ands; try done.
  - unfold create_at. unfold st_bind at 1, gets at 1. cbv beta iota. rewrite Hsize. unfold st_bind at 1. rewrite E1.
    unfold st_bind at 1. by rewrite E3.
  - split; cbn [nodes pages top root]; try done; [by repeat constructor| |by apply NoDup_singleton].
    rewrite Forall_singleton. split; [done|]. exists b2. split; [by apply lookup_insert_eq|]. by exists (ps - 8), [].
Qed.

(** The tree [w] stands for the entries [es], beside the pages [σ0] of others. *)
Definition stands (n : nat) (w : world) (σ0 : gmap Z bytes) (es : list entry) : Prop :=
  exists σ h t, models n w σ /\ tree_ok ps σ (snd w) h t /\ data (nodes t) = es /\
    forall q b, σ0 !! q = Some b -> σ !! q = Some b /\ (q ∉ pages (nodes t)).

Lemma stands_sorted n w σ0 es : stands n w σ0 es -> sorted es.
Proof. intros (σ & h & t & _ & [Hwf _ _ _ _] & <- & _). by apply wf_data in Hwf as [? _]. Qed.

Lemma tree_depth σ tr h t : tree_ok ps σ tr h t -> (h <= 63)%nat.
Proof. intros [Hwf Hh Hnd _ _]. eapply wf_depth; [exact Hwf|done|by eapply held_pages]. Qed.

Lemma tree_root σ tr h t : tree_ok ps σ tr h t -> is_u64 (root tr).
Proof. intros [_ Hh _ _ ->]. apply top_held in Hh. unfold is_u64. lia. Qed.

Lemma accepted_entry k v : accepted ps k v = true -> k <> [] /\ entry_ok usable (k, v).
Proof.
  intros [H1 H2]%andb_true_iff. apply negb_true_iff, bool_decide_eq_false in H1. apply Z.leb_le in H2. split; [done|].
  unfold entry_ok, sep_ok. cbn [fst]. unfold ENTRY_BYTES in H2. lia.
Qed.

Lemma refused_insert n k v w σ : models n w σ -> accepted ps k v = false ->
  insert k v w = (Err (if bool_decide (k = []) then ValueTooLarge 0 0 0 else ValueTooLarge 0 (blen k + blen v) (usable / 2)), w).
Proof.
  intros M. pose proof (pg_size_law _ _ _ _ M) as Hsize. unfold accepted, insert. case_bool_decide; [done|]. cbn [negb andb].
  intros H2%Z.leb_gt. unfold st_bind at 1, gets at 1. rewrite Hsize. cbv zeta. by rewrite (proj2 (Z.ltb_lt _ _)).
Qed.

(** *** The calls of a client that keeps its own pages [σ0] *)

Lemma stands_get n w σ0 es k : stands n w σ0 es ->
  exists w', get k w = (Val (kv_map es !! k), w') /\ stands n w' σ0 es /\ snd w' = snd w.
Proof.
  intros (σ & h & t & M & T & <- & F). rewrite kv_map_get. destruct (get_spec ps n w σ h t k M T) as (s' & E & M').
  exists (s', snd w). ands; try done. by exists σ, h, t.
Qed.

Lemma stands_insert n w σ0 es k v : stands (65 + n) w σ0 es -> accepted ps k v = true ->
  exists w', insert k v w = (Val tt, w') /\ stands n w' σ0 (kv_insert k v es).
Proof.
  intros (σ & h & t & M & T & <- & F) [Hne Hok]%accepted_entry. pose proof (tree_depth _ _ _ _ T) as Hh.
  destruct (insert_spec ps n w σ h t k v) as (s' & tr' & σ' & t' & h1 & E & M' & T' & D' & _ & F'); try done; [eapply pg_weaken; [|exact M]; lia|].
  exists (s', tr'). split; [done|]. exists σ', h1, t'. ands; try done. intros q b Hq. destruct (F q b Hq) as [F1 F2].
  destruct (F' q F2) as [F3 F4]; [by rewrite F1|]. by rewrite F3.
Qed.

Lemma stands_remove n w σ0 es k : stands n w σ0 es ->
  exists w', remove k w = (Val (bool_decide (is_Some (kv_map es !! k))), w') /\ stands n w' σ0 (kv_remove k es) /\ snd w' = snd w.
Proof.
  intros (σ & h & t & M & T & <- & F). rewrite kv_map_get.
  destruct (remove_spec ps n w σ h t k M T) as (s' & σ' & t' & E & M' & T' & D' & F'). exists (s', snd w). ands; try done.
  exists σ', h, t'. ands; try done. intros q b Hq. destruct (F q b Hq) as [F1 F2]. destruct (F' q F2) as [F3 F4]. by rewrite F3.
Qed.

Lemma stands_weaken m n w σ0 es : (n <= m)%nat -> stands m w σ0 es -> stands n w σ0 es.
Proof. intros Hle (σ & h & t & M & T). exists σ, h, t. split; [by eapply pg_weaken|done]. Qed.

(** *** The whole interface *)

Context {PP : PagerPublishes S}.

Lemma create_spec n s σ0 : pg_models ps (1 + n) s σ0 -> 512 <= ps <= 65536 ->
  exists s' r, create s = (Val (mkTree r false Search), s') /\ stands n (s', mkTree r false Search) σ0 [] /\ pg_root_page s' = r.
Proof.
  intros M Hps. destruct (create_at_spec n s σ0 M Hps) as (s1 & r & b & E1 & M1 & Hr & T1).
  destruct (pg_flush_law _ _ _ _ M1) as (k & s2 & E2 & M2). 
  pose proof (top_held _ _ _ (to_held _ _ _ _ _ T1)) as Hu.
  destruct (pg_publish_law _ _ _ _ r 0 M2 ltac:(cbn in Hu; unfold is_u64; lia) ltac:(done)) as (s3 & E3 & M3 & Hroot).
  exists s3, r. ands; [| |done].
  - unfold create. unfold st_bind at 1. rewrite E1. unfold st_bind at 1. rewrite E2. cbn [root]. unfold st_bind. by rewrite E3.
  - exists (<[r := b]> σ0), 0%nat, (Leaf r [] 0). ands; try done. intros q c Hq.
    assert (q <> r) by (intros ->; congruence). rewrite lookup_insert_ne by done. split; [done|]. cbn. set_solver.
Qed.

Lemma flush_spec n w σ : models n w σ -> is_u64 (root (snd w)) -> exists s', flush w = (Val tt, (s', snd w)) /\ pg_models ps n s' σ /\ pg_root_page s' = root (snd w).
Proof.
  intros M Hu. destruct (pg_flush_law _ _ _ _ M) as (k & s1 & E1 & M1). destruct (pg_publish_law _ _ _ _ (root (snd w)) 0 M1 Hu ltac:(done)) as (s2 & E2 & M2 & Hr).
  exists s2. ands; try done. unfold flush, st_bind at 1, on_pool at 1. rewrite E1. unfold st_bind, root_of, gets, on_pool. cbn [fst snd]. by rewrite E2.
Qed.

(** One call: the answer of the map, and the map it leaves. *)
Lemma tree_exec_spec n w σ0 es op : stands (tree_cost op + n) w σ0 es ->
  exists w' es', tree_exec op w = (fst (tree_spec ps op (kv_map es)), w') /\ kv_map es' = snd (tree_spec ps op (kv_map es)) /\ stands n w' σ0 es'.
Proof.
  intros St. destruct op as [k|k|k v|k|]; cbn [tree_cost tree_exec tree_spec fst snd] in *.
  - destruct (stands_get n w σ0 es k St) as (w' & E & S' & _). exists w', es. unfold st_bind. by rewrite E.
  - destruct (stands_get n w σ0 es k St) as (w' & E & S' & _). exists w', es. unfold contains, st_bind. by rewrite E.
  - destruct (accepted ps k v) eqn:Ea.
    + destruct (stands_insert n w σ0 es k v St Ea) as (w' & E & S'). exists w', (kv_insert k v es). unfold st_bind. rewrite E.
      ands; [done|apply kv_map_insert|done].
    + destruct St as (σ & h & t & M & T & <- & F). exists w, (data (nodes t)). unfold st_bind. rewrite (refused_insert _ k v w σ M Ea).
      ands; try done. exists σ, h, t. ands; try done. eapply pg_weaken; [|exact M]. lia.
  - destruct (stands_remove n w σ0 es k St) as (w' & E & S' & _). exists w', (kv_remove k es). unfold st_bind. rewrite E.
    ands; [done|apply kv_map_remove|done].
  - destruct St as (σ & h & t & M & T & <- & F). destruct (flush_spec n w σ M (tree_root _ _ _ _ T)) as (s' & E & M' & _).
    exists (s', snd w), (data (nodes t)). unfold st_bind. rewrite E. ands; try done. by exists σ, h, t.
Qed.

Lemma tree_runs_spec σ0 ops : forall n w es, stands (sum_list (tree_cost <$> ops) + n) w σ0 es ->
  exists w' es', tree_runs ops w = (fst (spec_answers ps ops (kv_map es)), w') /\
    kv_map es' = snd (spec_answers ps ops (kv_map es)) /\ stands n w' σ0 es'.
Proof.
  induction ops as [|op ops IH]; intros n w es St; cbn [tree_runs spec_answers]; [by exists w, es|].
  cbn [fmap list_fmap sum_list_with] in St. unfold id in St. rewrite <- Nat.add_assoc in St.
  destruct (tree_exec_spec _ w σ0 es op St) as (w1 & es1 & E1 & D1 & S1). destruct (IH n w1 es1 S1) as (w2 & es2 & E2 & D2 & S2).
  exists w2, es2. rewrite E1, E2. destruct (tree_spec ps op (kv_map es)) as [r m1]. cbn [fst snd] in *. rewrite D1 in D2 |- *.
  by destruct (spec_answers ps ops m1).
Qed.

(** ** Scans *)

(** A whole forward scan, and a whole reverse one. *)
Definition scan (turns : nat) (start : bytes) : st PageError world (list entry) :=
  do r <- range turns start ;; range_collect turns r.
Definition scan_back (turns : nat) (bound : option bytes) : st PageError world (list entry) :=
  do r <- range_rev_below bound ;; rev_collect turns r.

Lemma from_key_length start es : (length (from_key start es) <= length es)%nat.
Proof. apply length_filter. Qed.

Lemma scans_spec n w σ h t : models n w σ -> tree_ok ps σ (snd w) h t ->
  let es := data (nodes t) in exists enough, forall turns, (enough <= turns)%nat ->
    (forall start, exists w', scan turns start w = (Val (from_key start es), w')) /\
    (forall bound, exists w', scan_back turns bound w = (Val (reverse (below_bound bound es)), w')) /\
    (forall start, exists w', first_at_or_after turns start w = (Val (head (from_key start es)), w')).
Proof.
  intros M T es. exists (h + length (nodes t) + length (leaves (nodes t)) + length es + 1)%nat. intros turns Ht. ands.
  - intros start. destruct (range_spec ps n w σ h t turns start M T) as (r & ls & s1 & E1 & M1 & Hp & Er & _ & Hls); [lia|].
    destruct (range_collect_spec ps n σ (snd w) turns s1 r ls M1 Hp) as (s2 & E2 & _).
    { rewrite Er. pose proof (from_key_length start es). fold es. lia. }
    exists (s2, snd w). unfold scan, st_bind. by rewrite E1, E2, Er.
  - intros bound. destruct (range_rev_spec ps n w σ h t bound M T) as (r & before & s1 & E1 & M1 & Hp & Er & Hls).
    destruct (rev_collect_spec ps n σ (snd w) h t turns s1 r before M1 Hp) as (s2 & E2 & _).
    { rewrite Er, length_reverse. pose proof (length_filter (fun e => high bound (fst e)) es). fold es. unfold below_bound. lia. }
    exists (s2, snd w). unfold scan_back, st_bind. by rewrite E1, E2, Er.
  - intros start. destruct (first_at_or_after_spec ps n w σ h t turns start M T) as (s' & E & _); [lia|]. eauto.
Qed.

Lemma verify_spec n w σ h t : models n w σ -> tree_ok ps σ (snd w) h t ->
  let es := data (nodes t) in exists enough, forall turns, (enough <= turns)%nat ->
    exists w', verify turns w = (Val (Z.of_nat (length es), 1 + Z.of_nat h, 0, true), w').
Proof.
  intros M T es. exists (h + length (leaves (nodes t)) + length es + 1)%nat. intros turns Ht.
  pose proof T as [Hwf Hheld _ _ Hroot].
  destruct (height_loop_spec ps n σ (snd w) h None None t turns (fst w) 1 Hwf Hheld ltac:(lia) M) as (s1 & E1 & M1).
  destruct (range_spec ps n (s1, snd w) σ h t turns [] M1 T) as (r & ls & s2 & E2 & M2 & Hp & Er & _ & Hls); [lia|].
  rewrite from_key_empty in Er. fold es in Er.
  destruct (range_collect_spec ps n σ (snd w) turns s2 r ls M2 Hp) as (s3 & E3 & _); [rewrite Er; lia|].
  exists (s3, snd w). unfold verify, height. unfold st_bind at 1, st_bind at 1, root_of, gets. rewrite Hroot.
  destruct w as [s tr]. cbn [fst snd] in *. rewrite E1. unfold st_bind at 1. rewrite E2. unfold st_bind at 1. rewrite E3, Er. cbv zeta.
  rewrite (no_violations es); [done| |done]. by apply wf_data in Hwf as [? _].
Qed.

Lemma sorted_size es : sorted es -> size (kv_map es) = length es.
Proof.
  intros Hs. unfold kv_map. rewrite map_size_list_to_map; [done|]. induction es as [|e es IH]; [constructor|].
  apply sorted_cons in Hs as [Hs Ha]. cbn. constructor; [|by apply IH].
  intros (e' & Ee & He)%list_elem_of_fmap. pose proof (proj1 (Forall_forall _ _) Ha e' He) as Hl. cbn in Hl. rewrite Ee in Hl. by apply blt_irrefl in Hl.
Qed.
End Tree.

(** ** Claims, for any pool that keeps its pages *)

Section Claims.
Context {S : Type} {P : Pager S} {L : PagerLaws S} {PP : PagerPublishes S}.
Variables (ps : Z) (s : S) (σ0 : gmap Z bytes) (ops : list TreeOp).
Hypothesis Hps : 512 <= ps <= 65536.
Hypothesis Hmodels : pg_models ps (1 + sum_list (tree_cost <$> ops)) s σ0.

Lemma created_runs : exists r s1 w es, create s = (Val (mkTree r false Search), s1) /\
  tree_runs ops (s1, mkTree r false Search) = (fst (spec_answers ps ops ∅), w) /\
  kv_map es = snd (spec_answers ps ops ∅) /\ stands ps 0 w σ0 es.
Proof.
  destruct (create_spec ps _ s σ0 Hmodels Hps) as (s1 & r & E1 & S1 & _).
  destruct (tree_runs_spec ps σ0 ops 0 (s1, mkTree r false Search) []) as (w & es & E2 & D2 & S2); [by rewrite Nat.add_0_r|].
  by exists r, s1, w, es.
Qed.

(** C15: The B+ tree is a finite map.  On any pool that keeps its pages and has
    room for 65 pages per insertion, a new tree answers every sequence of [get],
    [contains], [insert], [remove] and [flush] exactly as a map from keys to
    values does: through leaf and interior splits, root growth and page
    rewrites, with the error the size limit or an empty key calls for and no
    other, a refused insertion changing nothing; and the pages that belong to
    others keep their contents. *)
Theorem btree_refines_a_map :
  exists r s1 w, create s = (Val (mkTree r false Search), s1) /\
    tree_runs ops (s1, mkTree r false Search) = (fst (spec_answers ps ops ∅), w) /\
    forall q b, σ0 !! q = Some b -> exists b' s', pg_get Search q (fst w) = (Val b', s') /\ same_page b' b.
Proof.
  destruct created_runs as (r & s1 & w & es & E1 & E2 & _ & σ & h & t & M & _ & _ & F). exists r, s1, w. ands; try done.
  intros q b Hq. destruct (pg_get_law ps 0 (fst w) σ Search q b M) as (b' & s' & E & Hb & _); [by apply F|]. eauto.
Qed.

(** C22: Scans are the map in key order, in both directions.  After any sequence
    of calls there is one list of entries, strictly ascending by key, that is
    the map; a forward cursor from [start] yields exactly its entries from
    [start] on, a reverse cursor below [bound] exactly the others backwards
    (over leaves emptied by removals, siblings and ancestors alike), and
    [first_at_or_after] the first of the forward ones; enough turns of the
    loops over leaves always exist. *)
Theorem cursors_follow_the_key_order :
  exists r s1 w es, create s = (Val (mkTree r false Search), s1) /\
    tree_runs ops (s1, mkTree r false Search) = (fst (spec_answers ps ops ∅), w) /\
    sorted es /\ kv_map es = snd (spec_answers ps ops ∅) /\
    exists enough, forall turns, (enough <= turns)%nat ->
      (forall start, exists w', scan turns start w = (Val (from_key start es), w')) /\
      (forall bound, exists w', scan_back turns bound w = (Val (reverse (below_bound bound es)), w')) /\
      (forall start, exists w', first_at_or_after turns start w = (Val (head (from_key start es)), w')).
Proof.
  destruct created_runs as (r & s1 & w & es & E1 & E2 & D2 & S2). exists r, s1, w, es. ands; try done; [by eapply stands_sorted|].
  destruct S2 as (σ & h & t & M & T & <- & _). by eapply scans_spec.
Qed.

(** The tree stays shallow and [verify] finds nothing.  After any sequence of
    calls the height is between 1 and 64, the bound the descent enforces, and
    [verify] counts one entry per key, no two out of order. *)
Theorem verify_accepts_every_tree :
  exists r s1 w, create s = (Val (mkTree r false Search), s1) /\
    tree_runs ops (s1, mkTree r false Search) = (fst (spec_answers ps ops ∅), w) /\
    exists h enough, 1 <= h <= 64 /\ forall turns, (enough <= turns)%nat ->
      exists w', verify turns w = (Val (Z.of_nat (size (snd (spec_answers ps ops ∅))), h, 0, true), w').
Proof.
  destruct created_runs as (r & s1 & w & es & E1 & E2 & D2 & S2). exists r, s1, w. ands; try done.
  rewrite <- D2, (sorted_size es) by (by eapply stands_sorted). destruct S2 as (σ & h & t & M & T & <- & _).
  destruct (verify_spec ps 0 w σ h t M T) as (enough & He). exists (1 + Z.of_nat h), enough. split; [|done].
  pose proof (tree_depth ps _ _ _ _ T). lia.
Qed.
End Claims.

(** ** On the buffer pool *)

Section OnPool.
Context {B : Type}.
Variable before_writeback : Z -> Z -> bytes -> st PageError B unit.
Variable crc32 : bytes -> Z.
Variable hash_order : gmap Z Frame -> list Z.
Hypothesis Hbarrier : forall p t b w, exists w', before_writeback p t b w = (Val tt, w').
Hypothesis Hcrc : forall l, is_u32 (crc32 l).
Hypothesis Hhash : forall m, hash_order m ≡ₚ (map_to_list m).*1.

(** A new pool over a new page file has no pages and room for [n]. *)
Lemma new_models ps e fsync s fp fs fm budget shards queue x0 barrier n :
  validate_page_size ps = Val tt -> validate_extent_bytes e ps = Val tt -> 0 <= e -> PageStore.open crc32 [] ps e fsync = Val s ->
  shares_fit fp fs fm -> 0 <= budget -> new fp fs fm budget shards queue s = Val x0 -> (2 + Z.of_nat n) * ps < U64 ->
  pool_models crc32 ps n (with_barrier (B := B) barrier x0) ∅.
Proof.
  intros H1 H2 H3 H4 H5 H6 H7 H8.
  destruct (new_shows crc32 Hcrc ps e fsync s H1 H2 H3 H4 fp fs fm budget shards queue x0 barrier H5 H6 H7 n H8) as [(fl & R & _ & Hs & Hn & Hσ) _].
  by exists fl.
Qed.
End OnPool.

(** ** Witnesses *)

Definition demo_pager : Pager (BufferPool (list (Z * bytes))) := pool_pager demo_barrier byte_sum demo_order.
Definition demo_laws : @PagerLaws (BufferPool (list (Z * bytes))) demo_pager :=
  pool_laws demo_barrier byte_sum demo_order demo_barrier_ok byte_sum_u32 demo_order_ok.
Definition demo_publishes : @PagerPublishes (BufferPool (list (Z * bytes))) demo_pager demo_laws :=
  pool_publishes demo_barrier byte_sum demo_order demo_barrier_ok byte_sum_u32 demo_order_ok.
Definition demo_tree_ops : list TreeOp :=
  [TInsert [3; 1] [7]; TInsert [] [1]; TInsert [2] (replicate 60 9); TGet [3; 1]; TRemove [2]; TFlush; TContains [2]].

Lemma demo_models : @pg_models _ demo_pager demo_laws 512 (1 + sum_list (tree_cost <$> demo_tree_ops)) (with_barrier (Some []) demo_pool) ∅.
Proof.
  apply (new_models byte_sum byte_sum_u32 512 0 true demo_store default_protected default_streaming default_metadata 512 1 8 demo_pool (Some []));
    [by vm_compute|by vm_compute|lia|by vm_compute|apply default_shares_fit|lia|by vm_compute|by vm_compute].
Qed.

Abbreviation demo_new_tree := (@create _ demo_pager (with_barrier (Some []) demo_pool)).
Abbreviation demo_tree_runs := (@tree_runs _ demo_pager demo_tree_ops).

Lemma btree_refines_a_map_witness :
  exists r s1 w, demo_new_tree = (Val (mkTree r false Search), s1) /\
    demo_tree_runs (s1, mkTree r false Search) =
      ([Val OUnit; Err (ValueTooLarge 0 0 0); Val OUnit; Val (OValue (Some [7])); Val (OBool true); Val OUnit; Val (OBool false)], w) /\
    forall q b, (∅ : gmap Z bytes) !! q = Some b -> exists b' s', @pg_get _ demo_pager Search q (fst w) = (Val b', s') /\ same_page b' b.
Proof. apply (@btree_refines_a_map _ demo_pager demo_laws demo_publishes 512 _ ∅ demo_tree_ops ltac:(lia) demo_models). Defined.

Lemma cursors_follow_the_key_order_witness :
  exists r s1 w es, demo_new_tree = (Val (mkTree r false Search), s1) /\
    demo_tree_runs (s1, mkTree r false Search) = (fst (spec_answers 512 demo_tree_ops ∅), w) /\
    sorted es /\ kv_map es = snd (spec_answers 512 demo_tree_ops ∅) /\
    exists enough, forall turns, (enough <= turns)%nat ->
      (forall start, exists w', @scan _ demo_pager turns start w = (Val (from_key start es), w')) /\
      (forall bound, exists w', @scan_back _ demo_pager turns bound w = (Val (reverse (below_bound bound es)), w')) /\
      (forall start, exists w', @first_at_or_after _ demo_pager turns start w = (Val (head (from_key start es)), w')).
Proof. apply (@cursors_follow_the_key_order _ demo_pager demo_laws demo_publishes 512 _ ∅ demo_tree_ops ltac:(lia) demo_models). Defined.

Lemma verify_accepts_every_tree_witness :
  exists r s1 w, demo_new_tree = (Val (mkTree r false Search), s1) /\
    demo_tree_runs (s1, mkTree r false Search) = (fst (spec_answers 512 demo_tree_ops ∅), w) /\
    exists h enough, 1 <= h <= 64 /\ forall turns, (enough <= turns)%nat ->
      exists w', @verify _ demo_pager turns w = (Val (Z.of_nat (size (snd (spec_answers 512 demo_tree_ops ∅))), h, 0, true), w').
Proof. apply (@verify_accepts_every_tree _ demo_pager demo_laws demo_publishes 512 _ ∅ demo_tree_ops ltac:(lia) demo_models). Defined.

(** ** A pool to evaluate on

    The pool of the pool's own witnesses, of 512-byte pages over a new file, with
    frees managed by the write-ahead log: the concrete pager that the claims about
    overflow chains, the catalog and the heap file are evaluated on. *)

Definition managed_pool : BufferPool (list (Z * bytes)) := snd (enable_wal_managed_frees (with_barrier (Some []) demo_pool)).
Definition demo_managed_laws : @PagerLaws (BufferPool (list (Z * bytes))) demo_pager :=
  managed_laws demo_barrier byte_sum demo_order demo_barrier_ok byte_sum_u32 demo_order_ok 0.
Definition demo_frees : @PagerFrees (BufferPool (list (Z * bytes))) demo_pager demo_managed_laws :=
  managed_frees demo_barrier byte_sum demo_order demo_barrier_ok byte_sum_u32 demo_order_ok 0.

Lemma demo_managed n : (2 + Z.of_nat n) * 512 < U64 -> @pg_models _ demo_pager demo_managed_laws 512 n managed_pool ∅.
Proof.
  intros Hn. apply (new_managed byte_sum byte_sum_u32 512 n managed_pool demo_pool (Some [])).
  - apply (new_models byte_sum byte_sum_u32 512 0 true demo_store default_protected default_streaming default_metadata 512 1 8 demo_pool (Some []));
      [by vm_compute|by vm_compute|lia|by vm_compute|apply default_shares_fit|lia|by vm_compute|exact Hn].
  - by vm_compute.
  - by vm_compute.
  - by vm_compute.
  - reflexivity.
Qed.
