(* ===== verification/TreeReopen.v ===== *)
(** * A tree across a restart

    The B+ tree, the buffer pool and the page file together: what a client
    inserted before a flush is what it finds after the process is gone and the
    files are opened again with an empty cache. *)

From stdpp Require Import base tactics list numbers gmap.
From Stdlib Require Import ZArith Lia.
From S2P Require Import Prelude Search Bytes Errors PageFormat PageStore PageStoreSpec Superblock Allocator AllocatorTheorems RecoveryTheorems.
From S2P Require Import Pool PoolShard PoolSpec PoolAccess PoolPager PoolRuns PoolTheorems StoreReopen.
From S2P Require Import Pager Keys BTreeNode BTreeNodeSpec BTree BTreeTheory BTreeOps BTreeTheorems.
Local Open Scope Z_scope.
Local Open Scope bic_scope.

Section Restart.
Context {B : Type}.
Variable before_writeback : Z -> Z -> bytes -> st PageError B unit.
Variable crc32 : bytes -> Z.
Variable hash_order : gmap Z Frame -> list Z.
Hypothesis Hbarrier : forall p t b w, exists w', before_writeback p t b w = (Val tt, w').
Hypothesis Hcrc : forall l, is_u32 (crc32 l).
Hypothesis Hhash : forall m, hash_order m ≡ₚ (map_to_list m).*1.

#[local] Instance pager : Pager (BufferPool B) := pool_pager before_writeback crc32 hash_order.
#[local] Instance pager_laws : PagerLaws (BufferPool B) := lasting_laws before_writeback crc32 hash_order Hbarrier Hcrc Hhash.
#[local] Instance pager_publishes : PagerPublishes (BufferPool B) := lasting_publishes before_writeback crc32 hash_order Hbarrier Hcrc Hhash.

(** The page size, the file and its options before and after the restart. *)
Variables (ps e e' : Z) (sync_mode sync_mode' : bool) (s : PageStore).
Hypothesis Hps : validate_page_size ps = Val tt.
Hypothesis Hsmall : ps <= 65536.
Hypothesis He : validate_extent_bytes e ps = Val tt.
Hypothesis He0 : is_u64 e.
Hypothesis He' : validate_extent_bytes e' ps = Val tt.
Hypothesis Hopen : PageStore.open crc32 [] ps e sync_mode = Val s.

(** The pools before and after. *)
Variables (fp fs fm : nat -> nat) (budget budget' : Z) (shards shards' queue queue' : nat) (x0 : BufferPool B) (barrier barrier' : option B).
Hypothesis Hfit : shares_fit fp fs fm.
Hypothesis Hbudget : 0 <= budget.
Hypothesis Hnew : new fp fs fm budget shards queue s = Val x0.
Hypothesis Hbudget' : ps <= budget'.
Hypothesis Hqueue' : Z.of_nat queue' <= MAX_READ_AHEAD_QUEUE_PAGES.

(** The calls before and after, and the pages they may allocate. *)
Variables (ops ops' : list TreeOp).
Abbreviation before := (sum_list (tree_cost <$> ops)).
Abbreviation after := (sum_list (tree_cost <$> ops')).
Hypothesis Hroom : (3 + Z.of_nat (before + after)) * ps < U64.

Lemma new_tree : pg_models ps (1 + (before + after)) (with_barrier barrier x0) ∅.
Proof.
  assert (He1 : 0 <= e) by (unfold is_u64 in He0; lia). split.
  - apply (new_models crc32 Hcrc ps e sync_mode s fp fs fm budget shards queue x0 barrier); try done. lia.
  - destruct (new_store_inv crc32 Hcrc ps e sync_mode s Hps He He1 Hopen) as (fl & F & _). cbn [fst] in F.
    destruct (new_rest crc32 fp fs fm Hfit fl budget shards queue s x0 F Hbudget Hnew) as (_ & Es & _).
    cbn [with_barrier bp_store]. rewrite Es. by apply (lasting_new crc32 ps e sync_mode).
Qed.

(** C10: A tree survives a restart.  A tree is created on a new page file and
    answers a sequence of calls; it is flushed, and the process ends.  The files
    it leaves open again, a new pool over them starts empty, [open] finds the
    published root, and the tree goes on to answer as the same map, whatever the
    budgets, shard counts, barriers and fsync modes of the two runs. *)
Theorem tree_survives_reopening :
  exists r x1 w1 w2 s2 x3 tr x4 w3,
    create (with_barrier barrier x0) = (Val (mkTree r false Search), x1) /\
    tree_runs ops (x1, mkTree r false Search) = (fst (spec_answers ps ops ∅), w1) /\
    flush w1 = (Val tt, w2) /\
    PageStore.open crc32 (files (bp_store (fst w2))) ps e' sync_mode' = Val s2 /\
    new fp fs fm budget' shards' queue' s2 = Val x3 /\
    open (with_barrier barrier' x3) = (Val tr, x4) /\
    tree_runs ops' (x4, tr) = (fst (spec_answers ps ops' (snd (spec_answers ps ops ∅))), w3).
Proof.
  pose proof (validate_page_size_val ps Hps) as Hr.
  destruct (create_spec ps (before + after) _ ∅ new_tree ltac:(lia)) as (x1 & r & E1 & S1 & _).
  destruct (tree_runs_spec ps ∅ ops after (x1, mkTree r false Search) [] S1) as (w1 & es & E2 & D2 & σ & h & t & M2 & T2 & <- & _).
  pose proof (tree_root ps _ _ _ _ T2) as Hu. pose proof (top_held _ _ _ (to_held _ _ _ _ _ T2)) as Ht. rewrite (to_root _ _ _ _ _ T2) in Hu.
  destruct (flush_reopens_pool before_writeback crc32 hash_order Hbarrier Hcrc Hhash ps after (fst w1) σ (top t) e' sync_mode' fp fs fm budget' shards' queue'
    barrier' M2 Hu He' Hfit Hbudget' Hqueue') as (k & y1 & y2 & s2 & x3 & F1 & F2 & F3 & F4 & M3 & R3).
  assert (S3 : stands ps after (with_barrier barrier' x3, mkTree (top t) false Search) ∅ (data (nodes t))).
  { exists σ, h, t. ands; try done. by destruct T2; split. }
  destruct (tree_runs_spec ps ∅ ops' 0 (with_barrier barrier' x3, mkTree (top t) false Search) (data (nodes t))) as (w3 & es3 & E4 & _).
  { by rewrite Nat.add_0_r. }
  exists r, x1, w1, (y2, snd w1), s2, x3, (mkTree (top t) false Search), (with_barrier barrier' x3), w3. ands; try done.
  - unfold flush. unfold st_bind at 1, on_pool at 1. change (pg_flush_all (fst w1)) with (flush_all before_writeback crc32 hash_order (fst w1)).
    rewrite F1. unfold st_bind, root_of, gets, on_pool. cbn [fst snd]. rewrite (to_root _ _ _ _ _ T2).
    change (pg_publish_root (top t) 0 y1) with (Pool.on_store (publish_root crc32 (top t) 0) y1). by rewrite F2.
  - unfold open, st_bind, gets. change (pg_root_page (with_barrier barrier' x3)) with (root_page (meta (bp_store x3))). rewrite R3.
    unfold open_at. by rewrite (proj2 (Z.eqb_neq _ _)) by lia.
  - by rewrite E4, D2.
Qed.
End Restart.

(** ** Witness *)

Definition demo_later_ops : list TreeOp := [TGet [3; 1]; TInsert [5] [6]; TContains [2]; TGet [5]].

Lemma tree_survives_reopening_witness :
  let P := pager demo_barrier byte_sum demo_order in
  exists r x1 w1 w2 s2 x3 tr x4 w3,
    @create _ P (with_barrier (Some []) demo_pool) = (Val (mkTree r false Search), x1) /\
    @tree_runs _ P demo_tree_ops (x1, mkTree r false Search) = (fst (spec_answers 512 demo_tree_ops ∅), w1) /\
    @flush _ P w1 = (Val tt, w2) /\
    PageStore.open byte_sum (files (bp_store (fst w2))) 512 1048576 false = Val s2 /\
    new default_protected default_streaming default_metadata 4096 3 16 s2 = Val x3 /\
    @open _ P (with_barrier None x3) = (Val tr, x4) /\
    @tree_runs _ P demo_later_ops (x4, tr) = ([Val (OValue (Some [7])); Val OUnit; Val (OBool false); Val (OValue (Some [6]))], w3).
Proof.
  intros P.
  apply (tree_survives_reopening demo_barrier byte_sum demo_order demo_barrier_ok byte_sum_u32 demo_order_ok 512 0 1048576 true false demo_store
    ltac:(by vm_compute) ltac:(lia) ltac:(by vm_compute) ltac:(by vm_compute) ltac:(by vm_compute) ltac:(by vm_compute)
    default_protected default_streaming default_metadata 512 4096 1 3 8 16 demo_pool (Some []) None
    default_shares_fit ltac:(lia) ltac:(by vm_compute) ltac:(lia) ltac:(by vm_compute) demo_tree_ops demo_later_ops ltac:(by vm_compute)).
Defined.
