(* ===== verification/BTreeClient.v ===== *)
(** * The tree as its clients use it

    The loops over leaves settle: from some number of turns on they have one
    outcome.  A forward cursor is an entry list that shrinks from the front, and
    it stays valid while only pages of others change. *)

From stdpp Require Import base tactics list numbers gmap sorting.
From Stdlib Require Import ZArith Lia.
From S2P Require Import Prelude Turns Search Bytes Errors PageFormat Pager Keys BTreeNode BTreeNodeSpec BTreeSplit BTree BTreeTheory.
From S2P Require Import BTreeOps BTreeInsert BTreeCursor BTreeTheorems.
Local Open Scope Z_scope.
Local Open Scope bic_scope.

Section Client.
Context {S : Type} {P : Pager S} {L : PagerLaws S} (ps : Z).
Abbreviation world := (S * BTree)%type.

(** ** More turns change nothing *)

Lemma first_steady start : steady (fun t => first_at_or_after (S := S) t start).
Proof.
  assert (Hl : forall t b leaf, refined (first_loop (S := S) t start b leaf) (first_loop (1 + t) start b leaf)).
  { induction t as [|t IH]; intros b leaf; cbn [first_loop Nat.add]; refines; apply IH. }
  intros t. unfold first_at_or_after. refines; apply Hl.
Qed.

Lemma range_steady start : steady (fun t => range (S := S) t start).
Proof.
  assert (Hl : forall t p, refined (leftmost_loop (S := S) t p) (leftmost_loop (1 + t) p)).
  { induction t as [|t IH]; intros p; cbn [leftmost_loop Nat.add]; refines; apply IH. }
  intros t. unfold range, leftmost_leaf. refines; apply Hl.
Qed.

Lemma next_steady r : steady (fun t => range_next (S := S) t r).
Proof. intros t. revert r. induction t as [|t IH]; intros r; cbn [range_next Nat.add]; refines; apply IH. Qed.

(** ** The other pages *)

(** The tree's pages set apart, a client works on its own pages as if there were
    no tree, and the tree stands as before; also when the pool is looked at in
    another way. *)
Lemma stands_open n (w : world) σ0 es : stands ps n w σ0 es ->
  exists τ, framed τ ps n (fst w) σ0 /\
    forall (L' : PagerLaws S) n' s' σ0', framed (L := L') τ ps n' s' σ0' -> stands (L := L') ps n' (s', snd w) σ0' es.
Proof.
  intros (σ & h & t & M & [T1 T2 T3 T4 T5] & D & F). assert (Hsub : σ0 ⊆ σ) by (apply map_subseteq_spec; intros q b Hq; by apply F).
  assert (Hpages : forall q, q ∈ pages (nodes t) -> (σ ∖ σ0) !! q = σ !! q /\ is_Some (σ !! q)).
  { intros q (d & -> & Hd)%list_elem_of_fmap. rewrite Forall_forall in T2. destruct (T2 d Hd) as (_ & b & Hb & _).
    rewrite Hb. split; [|done]. apply lookup_difference_Some. split; [done|]. destruct (σ0 !! d_page d) as [b0|] eqn:E0; [|done].
    destruct (F _ _ E0) as [_ []]. apply list_elem_of_fmap. eauto. }
  exists (σ ∖ σ0). split.
  { split; [by apply map_disjoint_difference_l1|]. by rewrite map_union_comm, map_difference_union by (done || by apply map_disjoint_difference_l1). }
  intros L' n' s' σ0' [Hd M']. exists (σ ∖ σ0 ∪ σ0'), h, t. ands; [done| |done|].
  - split; try done. eapply Forall_held_frame; [|exact T2]. intros q Hq. destruct (Hpages q Hq) as [E [b Hb]].
    rewrite Hb in *. by apply lookup_union_Some_l.
  - intros q b Hq. split; [by apply lookup_union_Some_r|]. intros Hin. destruct (Hpages q Hin) as [E [b' Hb]]. rewrite Hb in E.
    by pose proof (map_disjoint_Some_l _ _ _ _ Hd E) as E'; rewrite E' in Hq.
Qed.

(** ** The first entry *)

Lemma stands_first n (w : world) σ0 es start : stands ps n w σ0 es ->
  exists w', settles (fun t => first_at_or_after t start) w (Val (head (from_key start es))) w' /\ stands ps n w' σ0 es /\ snd w' = snd w.
Proof.
  intros (σ & h & t & M & T & <- & F).
  destruct (first_at_or_after_spec ps n w σ h t (length (leaves (nodes t))) start M T ltac:(lia)) as (s' & E & M').
  exists (s', snd w). ands; [|by exists σ, h, t|done]. eapply steady_settles; [apply first_steady|exact E|done].
Qed.

(** ** Forward cursors *)

(** The tree stands for [es] and the cursor [r] has [rest] before it. *)
Definition cursor (n : nat) (w : world) (σ0 : gmap Z bytes) (es : list entry) (r : BTreeRange) (rest : list entry) : Prop :=
  exists σ h t ls, pg_models ps n (fst w) σ /\ tree_ok ps σ (snd w) h t /\ data (nodes t) = es /\
    (forall q b, σ0 !! q = Some b -> σ !! q = Some b /\ (q ∉ pages (nodes t))) /\ pending ps σ r ls /\ remaining r ls = rest /\
    ls `suffix_of` leaves (nodes t).

Lemma cursor_stands n w σ0 es r rest : cursor n w σ0 es r rest -> stands ps n w σ0 es.
Proof. intros (σ & h & t & ls & M & T & D & F & _). by exists σ, h, t. Qed.

(** A cursor does not mind what happens to the pages of others. *)
Lemma cursor_open n (w : world) σ0 es r rest : cursor n w σ0 es r rest ->
  exists τ, framed τ ps n (fst w) σ0 /\ forall n' s' σ0', framed τ ps n' s' σ0' -> cursor n' (s', snd w) σ0' es r rest.
Proof.
  intros (σ & h & t & ls & M & T & D & Fr & Hp & Hr & Hs). pose proof T as [T1 T2 T3 T4 T5]. assert (Hsub : σ0 ⊆ σ) by (apply map_subseteq_spec; intros q b Hq; by apply Fr).
  assert (Hkeep : forall q, q ∈ pages (nodes t) -> forall σ0', σ ∖ σ0 ##ₘ σ0' -> (σ ∖ σ0 ∪ σ0') !! q = σ !! q /\ (q ∉ dom σ0')).
  { intros q (d & -> & Hd)%list_elem_of_fmap σ0' Hd'. rewrite Forall_forall in T2. destruct (T2 d Hd) as (_ & b & Hb & _).
    assert (E : (σ ∖ σ0) !! d_page d = Some b).
    { apply lookup_difference_Some. split; [done|]. destruct (σ0 !! d_page d) as [b0|] eqn:E0; [|done]. destruct (Fr _ _ E0) as [_ []]. apply list_elem_of_fmap. eauto. }
    rewrite Hb. split; [by apply lookup_union_Some_l|]. apply not_elem_of_dom. by eapply map_disjoint_Some_l. }
  exists (σ ∖ σ0). split.
  { split; [by apply map_disjoint_difference_l1|]. by rewrite map_union_comm, map_difference_union by (done || by apply map_disjoint_difference_l1). }
  intros n' s' σ0' [Hd M']. exists (σ ∖ σ0 ∪ σ0'), h, t, ls. ands; try done.
  - split; try done. eapply Forall_held_frame; [|exact T2]. intros q Hq. by apply Hkeep.
  - intros q b Hq. split; [by apply lookup_union_Some_r|]. intros Hin. destruct (Hkeep q Hin σ0' Hd) as [_ Hn]. apply Hn, elem_of_dom. eauto.
  - destruct Hp as [P1 P2 P3 P4]. split; try done. eapply Forall_held_frame; [|exact P2]. intros q (d & -> & Hd')%list_elem_of_fmap. apply Hkeep; [|done].
    apply list_elem_of_fmap. exists d. split; [done|]. destruct Hs as [pre Hs]. assert (Hin : d ∈ leaves (nodes t)) by (rewrite Hs; apply elem_of_app; by right).
    unfold leaves in Hin. by apply list_elem_of_filter in Hin as [_ Hin].
Qed.

Lemma stands_range n (w : world) σ0 es start : stands ps n w σ0 es ->
  exists r w', settles (fun t => range t start) w (Val r) w' /\ cursor n w' σ0 es r (from_key start es) /\ snd w' = snd w.
Proof.
  intros (σ & h & t & M & T & <- & F). destruct (range_spec ps n w σ h t h start M T ltac:(lia)) as (r & ls & s' & E & M' & Hp & Hr & Hs & _).
  exists r, (s', snd w). ands; [|by exists σ, h, t, ls|done]. eapply steady_settles; [apply range_steady|exact E|done].
Qed.

Lemma cursor_next n w σ0 es r rest : cursor n w σ0 es r rest ->
  exists r' w', settles (fun t => range_next t r) w (Val (head rest, r')) w' /\ stands ps n w' σ0 es /\ snd w' = snd w /\
    (rest <> [] -> cursor n w' σ0 es r' (tail rest)).
Proof.
  intros (σ & h & t & ls & M & T & D & F & Hp & Hr & Hs). destruct w as [s tr]. cbn [fst snd] in *.
  destruct (range_next_spec ps n σ tr (length ls) s r ls M Hp ltac:(lia)) as (o & r' & s' & E & M' & Ho).
  exists r', (s', tr). assert (Eo : o = head rest) by (rewrite Hr in Ho; destruct rest; [done|by destruct Ho]).
  ands; [|by exists σ, h, t|done|].
  - rewrite <- Eo. eapply steady_settles; [apply next_steady|exact E|done].
  - intros Hne. rewrite Hr in Ho. destruct rest as [|e rest]; [done|]. destruct Ho as (_ & ls' & Hp' & Hr' & Hs'). exists σ, h, t, ls'. ands; try done. by etrans.
Qed.
End Client.
