(* ===== verification/OverflowTheorems.v ===== *)
(** * Overflow chains: from write to free

    What a chain is good for: the value goes in, its length and any part of it
    come out, and freeing the chain leaves the pool as it was. *)

From stdpp Require Import base tactics list numbers gmap.
From Stdlib Require Import ZArith Lia.
From S2P Require Import Prelude Turns Bytes Errors PageFormat Pager BTreeTheorems Overflow OverflowSpec.
Local Open Scope Z_scope.
Local Open Scope bic_scope.

Section Claims.
Context {S : Type} {P : Pager S} {L : PagerLaws S} {F : PagerFrees S}.
Variables (ps : Z) (n : nat) (s : S) (σ : gmap Z bytes) (v : bytes) (buffers : nat -> Z) (limit want : Z).
Hypothesis Hps : 512 <= ps <= 65536.
Hypothesis Hv : v <> [] /\ blen v < U64.
Hypothesis Hbuffers : forall i, 0 < buffers i.
Hypothesis Hwant : 0 <= want <= blen v.
Hypothesis Hmodels : pg_models ps (Z.to_nat (pages_required (blen v) ps) + n) s σ.

Lemma freed_extension (σ1 σ2 : gmap Z bytes) new : extended σ σ1 (rev new) -> (forall q, σ2 !! q = if bool_decide (q ∈ new) then None else σ1 !! q) -> σ2 = σ.
Proof.
  intros [E1 E2 E3] Hq. assert (Hrev : forall q, q ∈ rev new <-> q ∈ new) by (intros q; rewrite !list_elem_of_In; symmetry; apply in_rev).
  apply map_eq. intros q. rewrite Hq. case_bool_decide as Hin.
  - symmetry. apply E2. by apply Hrev.
  - destruct (σ1 !! q) as [b|] eqn:Eb.
    + destruct (E3 q ltac:(by eexists)) as [[b' Hb']|Hin']; [|by apply Hrev in Hin'].
      rewrite Hb'. eapply lookup_weaken in Hb'; [|exact E1]. congruence.
    + destruct (σ !! q) as [b|] eqn:Es; [|done]. eapply lookup_weaken in Es; [|exact E1]. congruence.
Qed.

(** C18: An overflow chain gives back what was put in.  Writing a value takes
    exactly [pages_required] pages; the chain's length is the value's; reading it
    whole, with any buffer sizes, gives the value, or refuses with its true
    length when it is above the limit; reading a prefix gives that prefix; and
    freeing the chain frees as many pages as were written and leaves every page
    of the pool as it was before, so nothing leaks and nothing else is lost.
    From some number of turns on each loop ends. *)
Theorem overflow_chain_round_trip :
  exists head s1 s2 s3 s4 s5, write_chain_pooled v s = (Val head, s1) /\
    settles (fun turns => chain_len_pooled turns head) s1 (Val (blen v)) s2 /\
    settles (fun turns => read_chain_pooled buffers turns head limit) s2 (if limit <? blen v then Err (ValueTooLarge head (blen v) limit) else Val v) s3 /\
    settles (fun turns => with_reader head (as_io (read_exact turns want))) s3 (Val (take (Z.to_nat want) v)) s4 /\
    settles (fun turns => free_chain_pooled turns head) s4 (Val (pages_required (blen v) ps)) s5 /\
    pg_models ps n s5 σ.
Proof.
  destruct (write_chain_spec ps Hps (fun p => p = pg_fixed_root) (fun n s σ t p s' M H1 H2 E => pg_fresh_law ps n s σ t p s' M H1 H2 E) n s σ v (proj1 Hv) Hmodels)
    as (hd & s1 & σ1 & c & E1 & M1 & Hc & Hp & Hu & Hnd & Hex & Hroot & Hlen).
  assert (Hb : 0 + blen (payload c) < U64) by (rewrite Hp; apply Hv).
  destruct (chain_len_spec ps Hps n σ1 c s1 hd 0 M1 Hc ltac:(lia) Hb) as (s2 & E2 & M2). rewrite Hp in E2.
  destruct (read_chain_spec ps Hps buffers Hbuffers n s2 σ1 hd c limit M2 Hc ltac:(lia)) as (s3 & E3 & M3). rewrite Hp in E3.
  destruct (read_exact_spec ps Hps n σ1 (Z.to_nat want) s3 (reader_new hd) c v want) as (s4 & r4 & E4 & M4); [lia|done|done|rewrite <- Hp; by apply reading_new|].
  destruct (free_chain_spec ps Hps n c s4 σ1 hd 0 M4 Hc Hnd) as (s5 & σ5 & E5 & M5 & Hσ5); [done|].
  exists hd, s1, s2, s3, s4, s5. ands; try done; [by eapply reader_settles|by rewrite Hlen in E5|]. by rewrite <- (freed_extension σ1 σ5 c.*1 Hex Hσ5).
Qed.
End Claims.

#[local] Existing Instance demo_pager.

Lemma overflow_chain_round_trip_witness :
  let v := replicate 1000 7 in
  exists head s1 s2 s3 s4 s5, write_chain_pooled v managed_pool = (Val head, s1) /\
    settles (fun turns => chain_len_pooled turns head) s1 (Val 1000) s2 /\
    settles (fun turns => read_chain_pooled (fun _ => 32) turns head 1000) s2 (Val v) s3 /\
    settles (fun turns => with_reader head (as_io (read_exact turns 500))) s3 (Val (replicate 500 7)) s4 /\
    settles (fun turns => free_chain_pooled turns head) s4 (Val 3) s5 /\
    @pg_models _ demo_pager demo_managed_laws 512 4 s5 ∅.
Proof.
  refine (@overflow_chain_round_trip _ demo_pager demo_managed_laws demo_frees 512 4 managed_pool ∅ (replicate 1000 7) (fun _ => 32) 1000 500 ltac:(lia) _ ltac:(done) _ _).
  - by vm_compute.
  - by vm_compute.
  - apply demo_managed. by vm_compute.
Defined.
