(* ===== verification/Catalog.v ===== *)
(** * The catalog

    The durable directory of pages, their free-space classes and their
    generation floors, in one B+ tree with a leading byte per kind of key. *)

From stdpp Require Import base tactics list numbers gmap.
From Stdlib Require Import ZArith Lia.
From S2P Require Import Prelude Turns Bytes Errors PageFormat Pager Keys BTreeNode BTree.
Local Open Scope Z_scope.
Local Open Scope bic_scope.

(* @source crates/bicdb-page/src/catalog.rs *)
(** [NS_DIRECTORY] (60-60). *)
Definition NS_DIRECTORY : Z := 0.
(** [NS_FREE_SPACE] (61-61). *)
Definition NS_FREE_SPACE : Z := 1.
(** [NS_GENERATION_FLOOR] (68-68). *)
Definition NS_GENERATION_FLOOR : Z := 2.
(** [FREE_BUCKETS] (71-71). *)
Definition FREE_BUCKETS : Z := 32.

(** [bucket_for] (79-82). *)
Definition bucket_for (free_bytes page_size : Z) : Z :=
  let span := Z.max (page_size / FREE_BUCKETS) 1 in
  Z.min (free_bytes / span) (FREE_BUCKETS - 1).

(** [directory_key] (84-89). *)
Definition directory_key (p : Z) : bytes := NS_DIRECTORY :: be_enc 8 p.

(** [free_key] (91-97). *)
Definition free_key (bucket p : Z) : bytes := NS_FREE_SPACE :: bucket :: be_enc 8 p.

(** [page_generation_floor] (219-221): its key. *)
Definition floor_key (p : Z) : bytes := NS_GENERATION_FLOOR :: be_enc 8 p.

(** [page_id_from_directory_key] (99-104). *)
Definition page_id_from_directory_key (k : bytes) : option Z :=
  match k with
  | ns :: rest => if (blen k =? 9) && (ns =? NS_DIRECTORY) then Some (be_dec rest) else None
  | [] => None
  end.

(** [page_id_from_free_key] (106-111). *)
Definition page_id_from_free_key (k : bytes) : option Z :=
  match k with
  | ns :: _ :: rest => if (blen k =? 10) && (ns =? NS_FREE_SPACE) then Some (be_dec rest) else None
  | _ => None
  end.

(** [Catalog] (115-118). *)
Record Catalog := mkCatalog {
  tree : BTree;
  cat_page_size : Z
}.

(** [CatalogPageScan] (296-300). *)
Record CatalogPageScan := mkScan {
  sc_entries : BTreeRange;
  sc_page_type : Z;
  sc_complete : bool
}.

Section Catalog.
Context {S : Type} {P : Pager S}.
Abbreviation cst := (st PageError (S * Catalog)).

(** [self.tree.m()]. *)
Definition on_tree {A} (m : st PageError (S * BTree) A) : cst A :=
  fun w => let '(r, (s, t)) := m (fst w, tree (snd w)) in (r, (s, mkCatalog t (cat_page_size (snd w)))).

(** [Catalog::create] (121-127). *)
Definition cat_create : st PageError S Catalog :=
  do page_size <- gets pg_page_size ;;
  do t <- create_at ;;
  st_ret (mkCatalog t page_size).

(** [Catalog::open] (129-137). *)
Definition cat_open (r : Z) : st PageError S Catalog :=
  do page_size <- gets pg_page_size ;;
  do t <- open_at r ;;
  st_ret (mkCatalog (in_cache_class Metadata t) page_size).

(** [Catalog::root_page] (139-141). *)
Definition cat_root_page : cst Z := on_tree root_of.

(** [Catalog::take_root_changed] (143-145). *)
Definition cat_take_root_changed : cst bool := on_tree take_root_changed.

(** [self.page_size]. *)
Definition size_of_pages : cst Z := gets (fun w => cat_page_size (snd w)).

(** [register_page] (148-159). *)
Definition register_page (p : Z) (t : PageType) (free_bytes : Z) : cst unit :=
  on_tree (insert (directory_key p) [page_type_u8 t]) ;;;
  do ps <- size_of_pages ;;
  on_tree (insert (free_key (bucket_for free_bytes ps) p) []).

(** [update_free_space] (163-177). *)
Definition update_free_space (p previous_free free_bytes : Z) : cst unit :=
  do ps <- size_of_pages ;;
  let previous := bucket_for previous_free ps in
  let current := bucket_for free_bytes ps in
  if previous =? current then st_ret tt
  else
    on_tree (remove (free_key previous p)) ;;;
    on_tree (insert (free_key current p) []).

(** [find_page_with_room] (183-202). *)
Definition find_page_with_room (turns : nat) (needed : Z) : cst (option Z) :=
  do ps <- size_of_pages ;;
  let bucket := bucket_for needed ps + 1 in
  if FREE_BUCKETS <=? bucket then st_ret None
  else
    do o <- on_tree (first_at_or_after turns (free_key bucket 0)) ;;
    match o with
    | None => st_ret None
    | Some (k, _) => if bool_decide (head k = Some NS_FREE_SPACE) then st_ret (page_id_from_free_key k) else st_ret None
    end.

(** [forget_page] (205-210). *)
Definition cat_forget_page (p free_bytes : Z) : cst unit :=
  on_tree (remove (directory_key p)) ;;;
  do ps <- size_of_pages ;;
  on_tree (remove (free_key (bucket_for free_bytes ps) p)) ;;;
  st_ret tt.

(** [page_generation_floor] (218-227): a value that is not four bytes counts as
    none. *)
Definition page_generation_floor (p : Z) : cst Z :=
  do o <- on_tree (get (floor_key p)) ;;
  st_ret (match o with
          | Some v => if blen v =? 4 then le_dec v else 0
          | None => 0
          end).

(** [set_page_generation_floor] (230-240). *)
Definition set_page_generation_floor (p floor : Z) : cst unit :=
  do current <- page_generation_floor p ;;
  if floor <=? current then st_ret tt
  else on_tree (insert (floor_key p) (le_enc 4 floor)).

(** [scan_pages] (253-266). *)
Definition scan_pages (turns : nat) (t : PageType) (start_at : option Z) : cst CatalogPageScan :=
  let start := match start_at with Some p => directory_key p | None => [NS_DIRECTORY] end in
  do r <- on_tree (range turns start) ;;
  st_ret (mkScan r (page_type_u8 t) false).

(** [CatalogPageScan::next] (307-328): the loop.  An error is the item the source
    yields, after which the scan is complete. *)
Fixpoint scan_loop (turns : nat) (t : Z) (r : BTreeRange) : cst (option Z * CatalogPageScan) :=
  do (o, r') <- on_tree (range_next turns r) ;;
  match o with
  | None => st_ret (None, mkScan r' t false)
  | Some (k, v) =>
      if negb (bool_decide (head k = Some NS_DIRECTORY)) then st_ret (None, mkScan r' t true)
      else
        let again := match turns with O => st_panic | Datatypes.S turns' => scan_loop turns' t r' end in
        match page_id_from_directory_key k with
        | None => again
        | Some p => if bool_decide (head v = Some t) then st_ret (Some p, mkScan r' t false) else again
        end
  end.
(** [CatalogPageScan::next] (305-329). *)
Definition scan_next (turns : nat) (c : CatalogPageScan) : cst (option Z * CatalogPageScan) :=
  if sc_complete c then st_ret (None, c) else scan_loop turns (sc_page_type c) (sc_entries c).

(** [collect] over the scan. *)
Fixpoint scan_collect (turns : nat) (c : CatalogPageScan) : cst (list Z) :=
  do (o, c') <- scan_next turns c ;;
  match o with
  | None => st_ret []
  | Some p => match turns with
              | O => st_panic
              | Datatypes.S turns' => do rest <- scan_collect turns' c' ;; st_ret (p :: rest)
              end
  end.

(** [pages_of_type] (242-244). *)
Definition pages_of_type (turns : nat) (t : PageType) : cst (list Z) :=
  do c <- scan_pages turns t None ;; scan_collect turns c.

(** [next_page_of_type] (268-274). *)
Definition next_page_of_type (turns : nat) (t : PageType) (start_at : option Z) : cst (option Z) :=
  do c <- scan_pages turns t start_at ;;
  do (o, _) <- scan_next turns c ;;
  st_ret o.

(** [page_count] (279-287): the entries the closure accepts; an entry that
    failed to read ends the count. *)
Fixpoint count_directory (turns : nat) (r : BTreeRange) : cst Z :=
  fun w => match on_tree (range_next turns r) w with
           | (Val (Some (k, _), r'), w') =>
               if bool_decide (head k = Some NS_DIRECTORY) then
                 match turns with
                 | O => (Panic, w')
                 | Datatypes.S turns' => st_bind (count_directory turns' r') (fun n => st_ret (n + 1)) w'
                 end
               else (Val 0, w')
           | (Val (None, _), w') | (Err _, w') => (Val 0, w')
           | (Panic, w') => (Panic, w')
           end.
(** [page_count] (277-288). *)
Definition directory_count (turns : nat) : cst Z :=
  do r <- on_tree (range turns [NS_DIRECTORY]) ;; count_directory turns r.
End Catalog.
