(* ===== verification/Heap.v ===== *)
(** * The heap file

    Variable-size values behind tuple locators: small ones on slotted pages,
    large ones in overflow chains, placed with the help of the catalog's
    free-space map and of a bounded ring of candidate pages.  Counters are left
    out.  Where the source keeps a page's guard open over calls that do not touch
    the page, the guard is closed after its last change. *)

From stdpp Require Import base tactics list numbers gmap.
From Stdlib Require Import ZArith Lia.
From S2P Require Import Prelude Turns Bytes Errors PageFormat Slotted Pager Overflow BTree Catalog.
Local Open Scope Z_scope.
Local Open Scope bic_scope.

(* @source crates/bicdb-page/src/heap.rs *)
(** [TAG_INLINE] (44-44). *)
Definition TAG_INLINE : Z := 0.
(** [TAG_OVERFLOW] (45-45). *)
Definition TAG_OVERFLOW : Z := 1.
(** [OVERFLOW_REF_BYTES] (48-48). *)
Definition OVERFLOW_REF_BYTES : Z := 17.

(** [HeapOptions] (51-62). *)
Record HeapOptions := mkHeapOptions {
  inline_limit : Z;
  free_space_candidates : nat;
  max_value_bytes : Z
}.

(** [HeapOptions::for_page_size] (65-71). *)
Definition for_page_size (page_size : Z) : HeapOptions :=
  mkHeapOptions (usable_bytes page_size / 4) 64 (64 * 1024 * 1024).

(** [HeapFile] (89-105), without the pool. *)
Record HeapFile := mkHeap {
  hp_options : HeapOptions;
  hp_catalog : option Catalog;
  hp_candidates : list Z;
  hp_pages : list Z
}.

(** [HeapFile::new] (108-117). *)
Definition heap_new (options : HeapOptions) : HeapFile := mkHeap options None [] [].

Definition put_candidates (l : list Z) (h : HeapFile) : HeapFile := mkHeap (hp_options h) (hp_catalog h) l (hp_pages h).
Definition put_pages (l : list Z) (h : HeapFile) : HeapFile := mkHeap (hp_options h) (hp_catalog h) (hp_candidates h) l.

(** [set_catalog] (127-129). *)
Definition set_catalog (c : Catalog) (h : HeapFile) : HeapFile :=
  mkHeap (hp_options h) (Some c) (hp_candidates h) (hp_pages h).

(** [forget_page] (197-200). *)
Definition heap_forget_page (p : Z) (h : HeapFile) : HeapFile :=
  put_candidates (filter (fun q => q <> p) (hp_candidates h)) (put_pages (filter (fun q => q <> p) (hp_pages h)) h).

(** [adopt_pages] (159-166). *)
Definition adopt_pages (pages : list Z) (h : HeapFile) : HeapFile :=
  put_pages pages (put_candidates (take (free_space_candidates (hp_options h)) (rev pages)) h).

(** [allocate_and_insert] (275-279): [push_front], then [pop_back] down to the limit. *)
Definition remember (p : Z) (h : HeapFile) : HeapFile :=
  put_candidates (take (free_space_candidates (hp_options h)) (p :: hp_candidates h)) h.

(** ** Tuples *)

(** [Tuple] (597-600). *)
Inductive Tuple :=
| Inline (bytes : bytes)
| OverflowRef (head len : Z).

(** [encode_overflow_ref] (617-623). *)
Definition encode_overflow_ref (head len : Z) : bytes := TAG_OVERFLOW :: le_enc 8 head ++ le_enc 8 len.

(** [decode_tuple] (625-638). *)
Definition decode_tuple (tuple : bytes) : pres Tuple :=
  let short := Err (ShortRead 0 (blen tuple) OVERFLOW_REF_BYTES) in
  match head tuple with
  | Some tag =>
      if tag =? TAG_INLINE then Val (Inline (tail tuple))
      else if (tag =? TAG_OVERFLOW) && (OVERFLOW_REF_BYTES <=? blen tuple) then
        let! h := slice tuple 1 9 in
        let! l := slice tuple 9 17 in
        Val (OverflowRef (le_dec h) (le_dec l))
      else short
  | None => short
  end.

(** [Tuple::owned] (609-614): the chain to release. *)
Definition owned (t : Tuple) : option Z := match t with Inline _ => None | OverflowRef head _ => Some head end.

(** A closure given a reader: it pulls bytes and ends with a result or an error. *)
Inductive Consumer (T : Type) :=
| Give (r : option T)
| Pull (room : Z) (k : option bytes -> Consumer T).
Arguments Give {T}.
Arguments Pull {T}.

(** The consumer of an [io::Cursor] over [rest]. *)
Fixpoint consume_cursor {T} (c : Consumer T) (rest : bytes) : option T :=
  match c with
  | Give r => r
  | Pull room k => consume_cursor (k (Some (take (Z.to_nat room) rest))) (drop (Z.to_nat room) rest)
  end.

(** Run [m] and hand its outcome to the caller. *)
Definition caught {E W A} (m : st E W A) : st E W (res E A) := fun s => let '(r, s') := m s in (Val r, s').

Section Heap.
Context {S : Type} {P : Pager S}.
(** The sizes of the buffers [Read::read_to_end] offers. *)
Variable buffers : nat -> Z.
Abbreviation world := (S * HeapFile)%type.
Abbreviation hst := (st PageError world).

Definition in_pool {A} (m : st PageError S A) : hst A :=
  fun w => let '(r, s) := m (fst w) in (r, (s, snd w)).

(** [if let Some(catalog) = self.catalog()] and a call on it. *)
Definition in_catalog {A} (m : st PageError (S * Catalog) A) : hst (option A) :=
  fun w => match hp_catalog (snd w) with
           | None => (Val None, w)
           | Some c =>
               let '(r, (s, c')) := m (fst w, c) in
               (let! a := r in Val (Some a), (s, set_catalog c' (snd w)))
           end.

(** [free_space_of] (136-139). *)
Definition free_space_of (p : Z) : hst Z :=
  do b <- in_pool (pg_get Search p) ;; st_lift (free_space b).

(** [page_ids] (149-156): a catalog that fails is passed over. *)
Definition page_ids (turns : nat) : hst (list Z) :=
  do o <- caught (in_catalog (pages_of_type turns Heap)) ;;
  match o with
  | Val (Some pages) => st_ret pages
  | Val None | Err _ => gets (fun w => hp_pages (snd w))
  | Panic => st_panic
  end.

(** ** Placing a tuple *)

(** [allocate_and_insert] (254-283). *)
Definition allocate_and_insert (tuple : bytes) : hst TupleLocator :=
  do page_size <- gets (fun w => pg_page_size (fst w)) ;;
  do p <- in_pool (pg_allocate Heap) ;;
  do floor <- in_catalog (page_generation_floor p) ;;
  do (l, free_after) <- in_pool (pg_get_mut p (
    init_with_floor p page_size (default 0 floor) ;;;
    do l <- Slotted.insert tuple ;;
    do free_after <- reads free_space ;;
    st_ret (l, free_after))) ;;
  modify (fun w => (fst w, put_pages (hp_pages (snd w) ++ [p]) (snd w))) ;;;
  in_catalog (register_page p Heap free_after) ;;;
  modify (fun w => (fst w, remember p (snd w))) ;;;
  st_ret l.

(** [insert_tuple] (234-246): what is done with one candidate page. *)
Definition try_page (page_size : Z) (tuple : bytes) : st PageError bytes (option TupleLocator) :=
  do fits <- reads (fun b => can_fit b (blen tuple)) ;;
  if fits : bool then do l <- Slotted.insert tuple ;; st_ret (Some l)
  else
    do reclaimable <- reads reclaimable_space ;;
    if required_space (blen tuple) <=? reclaimable then
      compact page_size ;;;
      do fits <- reads (fun b => can_fit b (blen tuple)) ;;
      if fits : bool then do l <- Slotted.insert tuple ;; st_ret (Some l) else st_ret None
    else st_ret None.

(** [insert_tuple] (225-248): the loop over the ring.  A page the pool has no
    frame for is passed over. *)
Fixpoint try_candidates (candidates : list Z) (tuple : bytes) : hst (option TupleLocator) :=
  match candidates with
  | [] => st_ret None
  | p :: candidates' =>
      do page_size <- gets (fun w => pg_page_size (fst w)) ;;
      do o <- caught (in_pool (pg_get_mut p (caught (try_page page_size tuple)))) ;;
      match o with
      | Val (Val (Some l)) => st_ret (Some l)
      | Val (Val None) | Err (PoolExhausted _ _) => try_candidates candidates' tuple
      | Val r => st_lift r
      | Err e => st_fail e
      | Panic => st_panic
      end
  end.

(** [insert_tuple] (204-222): the page the catalog proposes. *)
Definition try_catalog (turns : nat) (tuple : bytes) : hst (option TupleLocator) :=
  do found <- in_catalog (find_page_with_room turns (required_space (blen tuple))) ;;
  match found with
  | Some (Some p) =>
      do before <- free_space_of p ;;
      do o <- in_pool (pg_get_mut p (
        do fits <- reads (fun b => can_fit b (blen tuple)) ;;
        if fits : bool then
          do l <- Slotted.insert tuple ;;
          do after <- reads free_space ;;
          st_ret (Some (l, after))
        else st_ret None)) ;;
      match o with
      | Some (l, after) => in_catalog (update_free_space p before after) ;;; st_ret (Some l)
      | None => st_ret None
      end
  | _ => st_ret None
  end.

(** [insert_tuple] (203-252). *)
Definition insert_tuple (turns : nat) (tuple : bytes) : hst TupleLocator :=
  do placed <- try_catalog turns tuple ;;
  match placed with
  | Some l => st_ret l
  | None =>
      do candidates <- gets (fun w => hp_candidates (snd w)) ;;
      do placed <- try_candidates candidates tuple ;;
      match placed with
      | Some l => st_ret l
      | None => allocate_and_insert tuple
      end
  end.

(** [insert] (178-187): the tuple of a value; [update]'s too. *)
Definition make_tuple (value : bytes) : hst bytes :=
  do limit <- gets (fun w => inline_limit (hp_options (snd w))) ;;
  if limit <? blen value then
    do head <- in_pool (write_chain_pooled value) ;;
    st_ret (encode_overflow_ref head (blen value))
  else st_ret (TAG_INLINE :: value).

(** [insert] (169-192). *)
Definition heap_insert (turns : nat) (value : bytes) : hst TupleLocator :=
  if bool_decide (value = []) then st_fail no_value
  else
    do tuple <- make_tuple value ;;
    insert_tuple turns tuple.

(** ** Reading *)

(** [get] (290-293): the decoded tuple a locator names. *)
Definition tuple_of (l : TupleLocator) : hst Tuple :=
  do b <- in_pool (pg_get Search (loc_page l)) ;;
  do t <- st_lift (Slotted.get b l) ;;
  st_lift (decode_tuple t).

(** [get] (289-310). *)
Definition heap_get (turns : nat) (l : TupleLocator) : hst bytes :=
  do t <- tuple_of l ;;
  match t with
  | Inline v => st_ret v
  | OverflowRef head len =>
      do max <- gets (fun w => max_value_bytes (hp_options (snd w))) ;;
      if max <? len then st_fail (ValueTooLarge (loc_page l) len max)
      else in_pool (read_chain_pooled buffers turns head max)
  end.

(** [read_prefix] (319-345). *)
Definition read_prefix (turns : nat) (l : TupleLocator) (max_bytes : Z) : hst bytes :=
  if max_bytes =? 0 then st_ret []
  else
    do t <- tuple_of l ;;
    match t with
    | Inline v => st_ret (take (Z.to_nat (Z.min (blen v) max_bytes)) v)
    | OverflowRef head len => in_pool (with_reader head (as_io (read_exact turns (Z.min len max_bytes))))
    end.

(** [value_storage] (352-362). *)
Definition value_storage (l : TupleLocator) : hst (Z * Z) :=
  do t <- tuple_of l ;;
  match t with
  | Inline v => st_ret (blen v, 0)
  | OverflowRef _ len =>
      do ps <- gets (fun w => pg_page_size (fst w)) ;;
      st_ret (len, div_ceil len (payload_capacity ps))
  end.

(** [value_len] (365-372). *)
Definition value_len (l : TupleLocator) : hst Z :=
  do t <- tuple_of l ;;
  match t with Inline v => st_ret (blen v) | OverflowRef _ len => st_ret len end.

(** A consumer of the overflow reader; an error of [read] is handed to it. *)
Fixpoint consume_reader {T} (c : Consumer T) : st PageError (S * PooledOverflowReader) (option T) :=
  match c with
  | Give r => st_ret r
  | Pull room k =>
      do o <- caught (read room) ;;
      match o with
      | Val b => consume_reader (k (Some b))
      | Err _ => consume_reader (k None)
      | Panic => st_panic
      end
  end.

(** [read_streaming] (376-395). *)
Definition read_streaming {T} (l : TupleLocator) (consume : Consumer T) : hst T :=
  do t <- tuple_of l ;;
  do o <- (match t with
           | Inline v => st_ret (consume_cursor consume v)
           | OverflowRef head _ => in_pool (with_reader head (consume_reader consume))
           end) ;;
  match o with Some r => st_ret r | None => st_fail Io end.

(** ** Replacing and removing *)

(** [update] (430-442): the change made to the tuple's page; [false] when the
    tuple was removed to be placed elsewhere. *)
Definition update_page (l : TupleLocator) (tuple : bytes) : st PageError bytes bool :=
  fun b => match Slotted.update l tuple b with
           | (Val _, b') => (Val true, b')
           | (Err (ValueTooLarge _ _ _), b') => (Slotted.delete l ;;; st_ret false) b'
           | (Err e, b') => (Err e, b')
           | (Panic, b') => (Panic, b')
           end.

(** [update] (449-451): releasing what a tuple owned. *)
Definition release (turns : nat) (t : Tuple) : hst unit :=
  match owned t with
  | Some head => in_pool (free_chain_pooled turns head) ;;; st_ret tt
  | None => st_ret tt
  end.

(** [update] (403-454). *)
Definition heap_update (turns : nat) (l : TupleLocator) (value : bytes) : hst TupleLocator :=
  if bool_decide (value = []) then st_fail (ValueTooLarge (loc_page l) 0 0)
  else
    do previous <- tuple_of l ;;
    do tuple <- make_tuple value ;;
    do in_place <- in_pool (pg_get_mut (loc_page l) (update_page l tuple)) ;;
    do l' <- (if in_place : bool then st_ret l else insert_tuple turns tuple) ;;
    release turns previous ;;;
    st_ret l'.

(** [delete_inner] (469-505). *)
Definition delete_inner (turns : nat) (l : TupleLocator) (update_catalog : bool) : hst unit :=
  do t <- tuple_of l ;;
  in_pool (pg_get_mut (loc_page l) (Slotted.delete l)) ;;;
  release turns t ;;;
  do attached <- gets (fun w => bool_decide (is_Some (hp_catalog (snd w)))) ;;
  (if update_catalog && attached then
     do after <- free_space_of (loc_page l) ;;
     in_catalog (update_free_space (loc_page l) 0 after) ;;; st_ret tt
   else st_ret tt) ;;;
  modify (fun w => if bool_decide (loc_page l ∈ hp_candidates (snd w)) then w else (fst w, remember (loc_page l) (snd w))).

(** [delete] (457-459). *)
Definition heap_delete (turns : nat) (l : TupleLocator) : hst unit := delete_inner turns l true.

(** [delete_for_vacuum] (465-467). *)
Definition delete_for_vacuum (turns : nat) (l : TupleLocator) : hst unit := delete_inner turns l false.

(** ** Scanning *)

(** [page_locators] (508-511). *)
Definition page_locators (p : Z) : hst (list TupleLocator) :=
  do b <- in_pool (pg_get Search p) ;; st_lift (locators b).

(** [flush] (530-533). *)
Definition heap_flush : hst unit := in_pool pg_flush_all ;;; st_ret tt.

(** [HeapScan] (537-545): the position. *)
Record HeapScan := mkHeapScan {
  hs_catalog : bool;
  hs_next_catalog_page : option Z;
  hs_catalog_complete : bool;
  hs_legacy_page_index : nat;
  hs_locators : list TupleLocator;
  hs_locator_index : nat
}.

(** [scan] (517-527). *)
Definition heap_scan : hst HeapScan :=
  gets (fun w => mkHeapScan (bool_decide (is_Some (hp_catalog (snd w)))) None false 0 [] 0).

(** [HeapScan::next] (557-584): the next page, or the item that ends the call. *)
Definition scan_page (turns : nat) (sc : HeapScan) : hst (res (option PageError) Z * HeapScan) :=
  if hs_catalog sc then
    if hs_catalog_complete sc then st_ret (Err None, sc)
    else
      let done := mkHeapScan true (hs_next_catalog_page sc) true (hs_legacy_page_index sc) (hs_locators sc) (hs_locator_index sc) in
      do o <- caught (in_catalog (next_page_of_type turns Heap (hs_next_catalog_page sc))) ;;
      match o with
      | Val (Some (Some p)) =>
          st_ret (Val p, if p + 1 <? U64
                         then mkHeapScan true (Some (p + 1)) false (hs_legacy_page_index sc) (hs_locators sc) (hs_locator_index sc)
                         else done)
      | Val _ => st_ret (Err None, done)
      | Err e => st_ret (Err (Some e), done)
      | Panic => st_panic
      end
  else
    do o <- gets (fun w => hp_pages (snd w) !! hs_legacy_page_index sc) ;;
    match o with
    | None => st_ret (Err None, sc)
    | Some p => st_ret (Val p, mkHeapScan false (hs_next_catalog_page sc) (hs_catalog_complete sc)
                                 (hs_legacy_page_index sc + 1) (hs_locators sc) (hs_locator_index sc))
    end.

(** [HeapScan::next] (550-594). *)
Fixpoint heap_scan_next (turns : nat) (sc : HeapScan) : hst (option (res PageError (TupleLocator * bytes)) * HeapScan) :=
  match hs_locators sc !! hs_locator_index sc with
  | Some l =>
      let sc' := mkHeapScan (hs_catalog sc) (hs_next_catalog_page sc) (hs_catalog_complete sc) (hs_legacy_page_index sc)
                            (hs_locators sc) (hs_locator_index sc + 1) in
      do r <- caught (heap_get turns l) ;;
      match r with
      | Panic => st_panic
      | _ => st_ret (Some (let! v := r in Val (l, v)), sc')
      end
  | None =>
      do (o, sc1) <- scan_page turns sc ;;
      match o with
      | Err None => st_ret (None, sc1)
      | Err (Some e) => st_ret (Some (Err e), sc1)
      | Panic => st_panic
      | Val p =>
          do r <- caught (page_locators p) ;;
          match r with
          | Val ls =>
              match turns with
              | O => st_panic
              | Datatypes.S turns' =>
                  heap_scan_next turns' (mkHeapScan (hs_catalog sc1) (hs_next_catalog_page sc1) (hs_catalog_complete sc1)
                                           (hs_legacy_page_index sc1) ls 0)
              end
          | Err e => st_ret (Some (Err e), sc1)
          | Panic => st_panic
          end
      end
  end.

(** Every item of a scan. *)
Fixpoint heap_scan_collect (turns : nat) (sc : HeapScan) : hst (list (res PageError (TupleLocator * bytes))) :=
  do (o, sc') <- heap_scan_next turns sc ;;
  match o with
  | None => st_ret []
  | Some r => match turns with
              | O => st_panic
              | Datatypes.S turns' => do rest <- heap_scan_collect turns' sc' ;; st_ret (r :: rest)
              end
  end.
End Heap.
