(* ===== verification/CatalogSpec.v ===== *)
(** * The catalog as three finite maps

    A page directory, a set of free-space entries and the generation floors,
    and how the keys of the tree encode them: key order is namespace, then
    bucket, then page id. *)

From stdpp Require Import base tactics list numbers gmap sorting.
From Stdlib Require Import ZArith Lia.
From S2P Require Import Prelude Turns Bytes Errors PageFormat Pager Keys BTreeNode BTree BTreeTheory BTreeOps BTreeCursor BTreeTheorems BTreeClient Catalog.
Local Open Scope Z_scope.
Local Open Scope bic_scope.

(** ** Big-endian order *)

Lemma bytes_cmp_snoc x y a b : length x = length y ->
  bytes_cmp (x ++ [a]) (y ++ [b]) = match bytes_cmp x y with Eq => a ?= b | c => c end.
Proof.
  revert y. induction x as [|u x IH]; intros [|v y] Hl; try done; cbn.
  - by destruct (a ?= b).
  - injection Hl as Hl. destruct (u ?= v); [by apply IH|done..].
Qed.

Lemma be_enc_cmp n v w : 0 <= v < 2 ^ (8 * Z.of_nat n) -> 0 <= w < 2 ^ (8 * Z.of_nat n) -> bytes_cmp (be_enc n v) (be_enc n w) = (v ?= w).
Proof.
  unfold be_enc. revert v w. induction n as [|n IH]; intros v w Hv Hw.
  { change (2 ^ (8 * Z.of_nat 0)) with 1 in *. assert (v = 0 /\ w = 0) as [-> ->] by lia. done. }
  assert (Hp : 2 ^ (8 * Z.of_nat (S n)) = 256 * 2 ^ (8 * Z.of_nat n)).
  { replace (8 * Z.of_nat (S n)) with (8 + 8 * Z.of_nat n) by lia. by rewrite Z.pow_add_r by lia. }
  cbn [le_enc rev]. rewrite bytes_cmp_snoc by (rewrite !length_rev, !length_le_enc; done).
  rewrite IH by (split; [apply Z.div_pos; lia|apply Z.div_lt_upper_bound; lia]).
  pose proof (Z_div_mod_eq_full v 256) as Ev. pose proof (Z_div_mod_eq_full w 256) as Ew.
  pose proof (Z.mod_pos_bound v 256 ltac:(lia)). pose proof (Z.mod_pos_bound w 256 ltac:(lia)).
  destruct (Z.compare_spec (v / 256) (w / 256)); destruct (Z.compare_spec v w); try (destruct (Z.compare_spec (v mod 256) (w mod 256))); try done; lia.
Qed.

Lemma be_enc_u64_inj p q : is_u64 p -> is_u64 q -> be_enc 8 p = be_enc 8 q -> p = q.
Proof. intros Hp Hq E. apply Z.compare_eq_iff. rewrite <- (be_enc_cmp 8 p q); [|done..]. by apply bytes_cmp_eq. Qed.

Lemma be_dec_u64 p : is_u64 p -> be_dec (be_enc 8 p) = p.
Proof. intros Hp. rewrite be_dec_enc. apply Z.mod_small. exact Hp. Qed.

(** ** Entries *)

Inductive CatEntry :=
| EDir (p t : Z)
| EFree (b p : Z)
| EFloor (p f : Z).

Definition cat_key (c : CatEntry) : bytes :=
  match c with EDir p _ => directory_key p | EFree b p => free_key b p | EFloor p _ => floor_key p end.
Definition cat_value (c : CatEntry) : bytes :=
  match c with EDir _ t => [t] | EFree _ _ => [] | EFloor _ f => le_enc 4 f end.
Definition cat_encode (c : CatEntry) : entry := (cat_key c, cat_value c).

Definition cat_valid (c : CatEntry) : Prop :=
  match c with
  | EDir p t => is_u64 p
  | EFree b p => 0 <= b < FREE_BUCKETS /\ is_u64 p
  | EFloor p f => is_u64 p /\ is_u32 f
  end.

(** Where an entry sorts. *)
Definition cat_rank (c : CatEntry) : Z * Z * Z :=
  match c with EDir p _ => (0, 0, p) | EFree b p => (1, b, p) | EFloor p _ => (2, 0, p) end.

Lemma cat_key_inj c c' : cat_valid c -> cat_valid c' -> cat_key c = cat_key c' -> cat_rank c = cat_rank c'.
Proof.
  assert (Hp : forall p q, is_u64 p -> is_u64 q -> be_enc 8 p = be_enc 8 q -> p = q) by apply be_enc_u64_inj.
  destruct c as [p t|b p|p f], c' as [q u|d q|q g]; cbn [cat_valid cat_key cat_rank]; unfold directory_key, free_key, floor_key; intros V V' E; try done.
  - by rewrite (Hp p q V V' (f_equal tail E)).
  - assert (b = d) as -> by (pose proof (f_equal (fun l => head (tail l)) E) as E'; by injection E'). by rewrite (Hp p q (proj2 V) (proj2 V') (f_equal (fun l => tail (tail l)) E)).
  - by rewrite (Hp p q (proj1 V) (proj1 V') (f_equal tail E)).
Qed.

(** Key order is the order of ranks. *)
Definition rank_cmp (a b : Z * Z * Z) : comparison :=
  match a.1.1 ?= b.1.1 with
  | Eq => match a.1.2 ?= b.1.2 with Eq => a.2 ?= b.2 | c => c end
  | c => c
  end.

Lemma cat_key_cmp c c' : cat_valid c -> cat_valid c' -> bytes_cmp (cat_key c) (cat_key c') = rank_cmp (cat_rank c) (cat_rank c').
Proof.
  assert (Hp : forall p q, is_u64 p -> is_u64 q -> bytes_cmp (be_enc 8 p) (be_enc 8 q) = (p ?= q)) by (intros; by apply be_enc_cmp).
  destruct c as [p t|b p|p f], c' as [q u|d q|q g]; cbn [cat_valid cat_key cat_rank rank_cmp fst snd]; unfold directory_key, free_key, floor_key; intros V V';
    unfold rank_cmp; cbn [bytes_cmp fst snd]; rewrite ?Z.compare_refl; try done.
  - by apply Hp.
  - by rewrite Hp by tauto.
  - apply Hp; tauto.
Qed.

(** The abstract catalog. *)
Record ACat := mkACat {
  ac_pages : gmap Z Z;
  ac_free : gset (Z * Z);
  ac_floors : gmap Z Z
}.

Definition ac_empty : ACat := mkACat ∅ ∅ ∅.
Definition ac_has (A : ACat) (c : CatEntry) : Prop :=
  match c with
  | EDir p t => ac_pages A !! p = Some t
  | EFree b p => (b, p) ∈ ac_free A
  | EFloor p f => ac_floors A !! p = Some f
  end.
Definition ac_add (c : CatEntry) (A : ACat) : ACat :=
  match c with
  | EDir p t => mkACat (<[p := t]> (ac_pages A)) (ac_free A) (ac_floors A)
  | EFree b p => mkACat (ac_pages A) ({[(b, p)]} ∪ ac_free A) (ac_floors A)
  | EFloor p f => mkACat (ac_pages A) (ac_free A) (<[p := f]> (ac_floors A))
  end.
Definition ac_del (c : CatEntry) (A : ACat) : ACat :=
  match c with
  | EDir p _ => mkACat (delete p (ac_pages A)) (ac_free A) (ac_floors A)
  | EFree b p => mkACat (ac_pages A) (ac_free A ∖ {[(b, p)]}) (ac_floors A)
  | EFloor p _ => mkACat (ac_pages A) (ac_free A) (delete p (ac_floors A))
  end.

Lemma ac_add_has c A c' : ac_has (ac_add c A) c' <-> c' = c \/ (cat_rank c' <> cat_rank c /\ ac_has A c').
Proof.
  destruct c as [p t|b p|p f], c' as [p' t'|b' p'|p' f']; cbn [ac_add ac_has ac_pages ac_free ac_floors cat_rank];
    rewrite ?lookup_insert_Some, ?elem_of_union, ?elem_of_singleton; try (split; [by right|by intros [?|[_ ?]]]).
  - destruct (decide (p = p')) as [->|]; split; intuition congruence.
  - destruct (decide ((b, p) = (b', p'))) as [[= -> ->]|Hne]; split; [auto..| |intuition congruence].
    intros [E|H]; [congruence|]. right. split; [|done]. intros [= -> ->]. done.
  - destruct (decide (p = p')) as [->|]; split; intuition congruence.
Qed.

Lemma ac_del_has c A c' : ac_has (ac_del c A) c' <-> cat_rank c' <> cat_rank c /\ ac_has A c'.
Proof.
  destruct c as [p t|b p|p f], c' as [p' t'|b' p'|p' f']; cbn [ac_del ac_has ac_pages ac_free ac_floors cat_rank];
    rewrite ?lookup_delete_Some, ?elem_of_difference, ?elem_of_singleton; try (split; [by split|by intros [_ ?]]).
  all: split; intuition congruence.
Qed.

(** The entries [es] of the tree are those of [A]. *)
Record shows (es : list entry) (A : ACat) : Prop := {
  sh_valid : forall c, ac_has A c -> cat_valid c;
  sh_entries : forall k v, kv_map es !! k = Some v <-> exists c, ac_has A c /\ cat_encode c = (k, v)
}.

Lemma shows_empty : shows [] ac_empty.
Proof.
  split; [intros [p t|b p|p f]; cbn; by rewrite ?lookup_empty; intros ?%elem_of_empty || done|].
  intros k v. unfold kv_map. cbn. rewrite lookup_empty. split; [done|]. intros ([p t|b p|p f] & Hc & _); cbn in Hc; [by rewrite lookup_empty in Hc|set_solver|by rewrite lookup_empty in Hc].
Qed.

Lemma rank_key c c' : cat_rank c = cat_rank c' -> cat_key c = cat_key c'.
Proof. destruct c, c'; cbn; by intros [=]; subst. Qed.

Lemma shows_insert es A c : shows es A -> cat_valid c -> shows (kv_insert (cat_key c) (cat_value c) es) (ac_add c A).
Proof.
  intros [V H] Hc. split; [intros c' [->|[_ Hc']]%ac_add_has; auto|].
  intros k v. rewrite kv_map_insert, lookup_insert_Some, H. split.
  - intros [[<- <-]|[Hne (c' & Hc' & [= E1 E2])]]; [exists c; rewrite ac_add_has; auto|].
    exists c'. rewrite ac_add_has. split; [|by rewrite <- E1, <- E2]. right. split; [|done]. intros Hr%rank_key. congruence.
  - intros (c' & [->|[Hr Hc']]%ac_add_has & [= E1 E2]); [by left; subst|]. right. split; [|exists c'; by subst].
    intros E. apply Hr. apply cat_key_inj; [by apply V|done|congruence].
Qed.

Lemma shows_remove es A c : shows es A -> cat_valid c -> shows (kv_remove (cat_key c) es) (ac_del c A).
Proof.
  intros [V H] Hc. split; [intros c' [_ Hc']%ac_del_has; auto|].
  intros k v. rewrite kv_map_remove, lookup_delete_Some, H. split.
  - intros [Hne (c' & Hc' & [= E1 E2])]. exists c'. rewrite ac_del_has. split; [|by rewrite <- E1, <- E2]. split; [|done]. intros Hr%rank_key. congruence.
  - intros (c' & [Hr Hc']%ac_del_has & [= E1 E2]). split; [|exists c'; by subst].
    intros E. apply Hr. apply cat_key_inj; [by apply V|done|congruence].
Qed.

(** The entry of a key. *)
Lemma shows_lookup es A c : shows es A -> cat_valid c -> ac_has A c -> kv_map es !! cat_key c = Some (cat_value c).
Proof. intros [V H] Hc Ha. apply H. by exists c. Qed.

Lemma shows_absent es A c : shows es A -> cat_valid c -> (forall c', ac_has A c' -> cat_rank c' <> cat_rank c) -> kv_map es !! cat_key c = None.
Proof.
  intros [V H] Hc Hn. destruct (kv_map es !! cat_key c) as [v|] eqn:E; [|done]. apply H in E as (c' & Hc' & [= E1 _]).
  destruct (Hn c' Hc'). by apply cat_key_inj; auto.
Qed.

(** ** The calls *)

Lemma blen_be_enc n v : blen (be_enc n v) = Z.of_nat n.
Proof. unfold blen. by rewrite length_be_enc. Qed.

Lemma bucket_range free ps : 0 <= free -> 512 <= ps -> 0 <= bucket_for free ps < FREE_BUCKETS.
Proof.
  intros Hf Hps. unfold bucket_for, FREE_BUCKETS. assert (0 <= free / Z.max (ps / 32) 1) by (apply Z.div_pos; lia). lia.
Qed.

(** A page whose class is above [needed]'s has more than [needed] bytes. *)
Lemma bucket_room needed free ps : 0 <= needed -> 512 <= ps -> bucket_for needed ps < bucket_for free ps -> needed < free.
Proof.
  intros Hn Hps. unfold bucket_for, FREE_BUCKETS. assert (Hs : 0 < Z.max (ps / 32) 1) by lia. generalize dependent (Z.max (ps / 32) 1). intros span Hs Hb.
  apply Z.lt_nge. intros Hle. pose proof (Z.div_le_mono free needed span Hs Hle). lia.
Qed.

Section Calls.
Context {S : Type} {P : Pager S} {L : PagerLaws S} (ps : Z).
Hypothesis Hps : 512 <= ps <= 65536.
Abbreviation world := (S * Catalog)%type.

(** The catalog [w] stands for [A], beside the pages [σ0] of others. *)
Definition cat_stands (n : nat) (w : world) (σ0 : gmap Z bytes) (A : ACat) : Prop :=
  exists es, stands ps n (fst w, tree (snd w)) σ0 es /\ shows es A /\ cat_page_size (snd w) = ps.

Lemma cat_weaken m n w σ0 A : (n <= m)%nat -> cat_stands m w σ0 A -> cat_stands n w σ0 A.
Proof. intros Hle (es & St & Sh). exists es. split; [by eapply stands_weaken|done]. Qed.

Lemma cat_create_spec n s σ0 : pg_models ps (1 + n) s σ0 ->
  exists c s', cat_create s = (Val c, s') /\ cat_stands n (s', c) σ0 ac_empty.
Proof.
  intros M. destruct (create_at_spec ps n s σ0 M Hps) as (s' & r & b & E & M' & Hr & T). exists (mkCatalog (mkTree r false Search) ps), s'. split.
  - unfold cat_create. unfold st_bind at 1, gets at 1. rewrite (pg_size_law _ _ _ _ M). unfold st_bind. by rewrite E.
  - exists []. ands; [|exact shows_empty|done]. eexists _, _, _. ands; [exact M'|exact T|done|].
    intros q b' Hq. assert (q <> r) by congruence. rewrite lookup_insert_ne by done. split; [done|]. cbn. by intros ?%list_elem_of_singleton.
Qed.

Lemma on_tree_run {A} (m : st PageError (S * BTree) A) (w : world) r w' :
  m (fst w, tree (snd w)) = (r, w') -> on_tree m w = (r, (fst w', mkCatalog (snd w') (cat_page_size (snd w)))).
Proof. intros E. unfold on_tree. rewrite E. by destruct w'. Qed.

Lemma cat_accepted c : cat_valid c -> accepted ps (cat_key c) (cat_value c) = true.
Proof.
  intros Hc. unfold accepted, usable_bytes, ENTRY_BYTES, PAGE_HEADER_BYTES, PAGE_TRAILER_BYTES.
  assert (Hlen : blen (cat_key c) <= 10 /\ blen (cat_value c) <= 4).
  { destruct c; cbn [cat_key cat_value]; unfold directory_key, free_key, floor_key; unfold blen; cbn [length];
      rewrite ?length_be_enc, ?length_le_enc; lia. }
  apply andb_true_iff. split; [by destruct c|]. apply Z.leb_le. unfold required_space, ENTRY_BYTES. cbn [fst snd]. lia.
Qed.

Lemma cat_insert n w σ0 A c : cat_stands (65 + n) w σ0 A -> cat_valid c ->
  exists w', on_tree (insert (cat_key c) (cat_value c)) w = (Val tt, w') /\ cat_stands n w' σ0 (ac_add c A).
Proof.
  intros (es & St & Sh & Hp) Hc. destruct (stands_insert ps n _ σ0 es _ _ St (cat_accepted c Hc)) as (w' & E & St').
  eexists. split; [by apply (on_tree_run _ w)|]. exists (kv_insert (cat_key c) (cat_value c) es). ands; [by destruct w'|by apply shows_insert|done].
Qed.

Lemma cat_remove n w σ0 A c : cat_stands n w σ0 A -> cat_valid c ->
  exists b w', on_tree (remove (cat_key c)) w = (Val b, w') /\ cat_stands n w' σ0 (ac_del c A).
Proof.
  intros (es & St & Sh & Hp) Hc. destruct (stands_remove ps n _ σ0 es (cat_key c) St) as (w' & E & St' & _).
  eexists _, _. split; [by apply (on_tree_run _ w)|]. exists (kv_remove (cat_key c) es). ands; [by destruct w'|by apply shows_remove|done].
Qed.

Lemma size_run n w σ0 A : cat_stands n w σ0 A -> size_of_pages w = (Val ps, w).
Proof. intros (es & _ & _ & Hp). unfold size_of_pages, gets. by rewrite Hp. Qed.

Lemma register_spec n w σ0 A p t free : cat_stands (130 + n) w σ0 A -> is_u64 p -> 0 <= free ->
  exists w', register_page p t free w = (Val tt, w') /\
    cat_stands n w' σ0 (ac_add (EFree (bucket_for free ps) p) (ac_add (EDir p (page_type_u8 t)) A)).
Proof.
  intros C Hp Hf. destruct (cat_insert (65 + n) w σ0 A (EDir p (page_type_u8 t)) C Hp) as (w1 & E1 & C1).
  destruct (cat_insert n w1 σ0 _ (EFree (bucket_for free ps) p) C1) as (w2 & E2 & C2); [split; [apply bucket_range; lia|done]|].
  exists w2. split; [|done]. unfold register_page. unfold st_bind at 1. cbn [cat_key cat_value] in E1, E2. rewrite E1.
  unfold st_bind at 1. by rewrite (size_run _ _ _ _ C1).
Qed.

(** Moving a page to another class. *)
Definition ac_move (p previous current : Z) (A : ACat) : ACat :=
  if previous =? current then A else ac_add (EFree current p) (ac_del (EFree previous p) A).

Lemma update_free_spec n w σ0 A p before after : cat_stands (65 + n) w σ0 A -> is_u64 p -> 0 <= before -> 0 <= after ->
  exists w', update_free_space p before after w = (Val tt, w') /\
    cat_stands n w' σ0 (ac_move p (bucket_for before ps) (bucket_for after ps) A).
Proof.
  intros C Hp Hb Ha. unfold update_free_space. unfold st_bind at 1. rewrite (size_run _ _ _ _ C). cbv zeta. unfold ac_move.
  destruct (_ =? _); [exists w; split; [done|]; eapply cat_weaken; [|exact C]; lia|].
  destruct (cat_remove (65 + n) w σ0 A (EFree (bucket_for before ps) p) C) as (b & w1 & E1 & C1); [split; [apply bucket_range; lia|done]|].
  destruct (cat_insert n w1 σ0 _ (EFree (bucket_for after ps) p) C1) as (w2 & E2 & C2); [split; [apply bucket_range; lia|done]|].
  exists w2. split; [|done]. unfold st_bind. cbn [cat_key cat_value] in E1, E2. by rewrite E1.
Qed.

Lemma forget_spec n w σ0 A p free : cat_stands n w σ0 A -> is_u64 p -> 0 <= free ->
  exists w', cat_forget_page p free w = (Val tt, w') /\ cat_stands n w' σ0 (ac_del (EFree (bucket_for free ps) p) (ac_del (EDir p 0) A)).
Proof.
  intros C Hp Hf. destruct (cat_remove n w σ0 A (EDir p 0) C Hp) as (b1 & w1 & E1 & C1).
  destruct (cat_remove n w1 σ0 _ (EFree (bucket_for free ps) p) C1) as (b2 & w2 & E2 & C2); [split; [apply bucket_range; lia|done]|].
  exists w2. split; [|done]. unfold cat_forget_page. unfold st_bind at 1. cbn [cat_key] in E1, E2. rewrite E1.
  unfold st_bind at 1. rewrite (size_run _ _ _ _ C1). unfold st_bind. by rewrite E2.
Qed.

Lemma floor_spec n w σ0 A p : cat_stands n w σ0 A -> is_u64 p ->
  exists w', page_generation_floor p w = (Val (default 0 (ac_floors A !! p)), w') /\ cat_stands n w' σ0 A.
Proof.
  intros (es & St & Sh & Hs) Hp. destruct (stands_get ps n _ σ0 es (floor_key p) St) as (w' & E & St' & _).
  exists (fst w', mkCatalog (snd w') (cat_page_size (snd w))). split; [|exists es; ands; [by destruct w'|done|exact Hs]].
  unfold page_generation_floor, st_bind. rewrite (on_tree_run _ w _ w' E). unfold st_ret. f_equal. f_equal.
  destruct (ac_floors A !! p) as [f|] eqn:Ef.
  - pose proof (sh_valid _ _ Sh (EFloor p f) Ef) as [_ Hf].
    pose proof (shows_lookup es A (EFloor p f) Sh (conj Hp Hf) Ef) as El. cbn [cat_key cat_value] in El. rewrite El.
    rewrite blen_le_enc, le_dec_enc. cbn [default]. apply Z.mod_small. exact Hf.
  - pose proof (shows_absent es A (EFloor p 0) Sh) as El. cbn [cat_key] in El. rewrite El; [done| |].
    + split; [done|widths; lia].
    + intros [q t|b q|q f] Hq; cbn; try done. intros [= ->]. cbn in Hq. congruence.
Qed.

(** Floors only grow. *)
Definition ac_raise (p f : Z) (A : ACat) : ACat := if f <=? default 0 (ac_floors A !! p) then A else ac_add (EFloor p f) A.

Lemma set_floor_spec n w σ0 A p f : cat_stands (65 + n) w σ0 A -> is_u64 p -> is_u32 f ->
  exists w', set_page_generation_floor p f w = (Val tt, w') /\ cat_stands n w' σ0 (ac_raise p f A).
Proof.
  intros C Hp Hf. destruct (floor_spec _ w σ0 A p C Hp) as (w1 & E1 & C1). unfold set_page_generation_floor, ac_raise. unfold st_bind at 1. rewrite E1.
  destruct (f <=? _) eqn:El.
  - exists w1. split; [done|]. eapply cat_weaken; [|exact C1]. lia.
  - destruct (cat_insert n w1 σ0 A (EFloor p f) C1 (conj Hp Hf)) as (w2 & E2 & C2). by exists w2.
Qed.

Lemma raise_floor p f A q : default 0 (ac_floors (ac_raise p f A) !! q) = if decide (q = p) then Z.max f (default 0 (ac_floors A !! p)) else default 0 (ac_floors A !! q).
Proof.
  unfold ac_raise. destruct (f <=? _) eqn:El; bools; case_decide as Hq; subst; try lia; try done; cbn; [rewrite lookup_insert_eq; cbn; lia|by rewrite lookup_insert_ne].
Qed.

(** ** Finding room *)

Lemma sorted_member es k v : sorted es -> (k, v) ∈ es <-> kv_map es !! k = Some v.
Proof.
  intros Hs. unfold kv_map. apply elem_of_list_to_map. induction es as [|e es IH]; [apply NoDup_nil_2|].
  apply sorted_cons in Hs as [Hs Ha]. cbn. constructor; [|by apply IH].
  intros (e' & Ee & He)%list_elem_of_fmap. pose proof (proj1 (Forall_forall _ _) Ha e' He) as Hl. cbn in Hl. rewrite Ee in Hl. by apply blt_irrefl in Hl.
Qed.

Lemma head_from_key start es : sorted es ->
  match head (from_key start es) with
  | None => forall e, e ∈ es -> blt (fst e) start
  | Some e => e ∈ es /\ ble start (fst e) /\ forall e', e' ∈ es -> ble start (fst e') -> ble (fst e) (fst e')
  end.
Proof.
  unfold from_key. induction es as [|e es IH]; [cbn; by intros _ e ?%not_elem_of_nil|]. intros [Hs Ha]%sorted_cons. destruct (decide (ble start (fst e))) as [Hle|Hlt].
  - rewrite filter_cons_True by done. cbn [head]. ands; [by left|done|]. intros e' [->|He']%elem_of_cons _; [apply ble_refl|].
    apply blt_ble. by apply (proj1 (Forall_forall _ _) Ha).
  - rewrite filter_cons_False by done. specialize (IH Hs). rewrite ble_not_lt in Hlt. apply dec_stable in Hlt. destruct (head _) as [e0|].
    + destruct IH as (H1 & H2 & H3). ands; [by right|done|]. intros e' [->|He']%elem_of_cons Hle; [|by apply H3].
      apply ble_not_lt in Hle. done.
    + intros e' [->|He']%elem_of_cons; [done|by apply IH].
Qed.

Lemma shows_member es A e : sorted es -> shows es A -> e ∈ es <-> exists c, ac_has A c /\ cat_encode c = e.
Proof. intros Hs Sh. destruct e as [k v]. rewrite (sorted_member es k v Hs). apply Sh. Qed.

(** The page with the least free-space entry above the class [b]. *)
Definition found (A : ACat) (b : Z) (o : option Z) : Prop :=
  match o with
  | None => forall b' p', (b', p') ∈ ac_free A -> b' <= b
  | Some p => exists b', (b', p) ∈ ac_free A /\ b < b' /\
      forall b'' p'', (b'', p'') ∈ ac_free A -> b < b'' -> b' < b'' \/ (b' = b'' /\ p <= p'')
  end.

Lemma on_tree_settles {A} (m : nat -> st PageError (S * BTree) A) (w : world) r w' :
  settles m (fst w, tree (snd w)) r w' -> settles (fun t => on_tree (m t)) w r (fst w', mkCatalog (snd w') (cat_page_size (snd w))).
Proof. intros [e H]. exists e. intros t Ht. apply on_tree_run. by apply H. Qed.

Lemma free_key_page b p : is_u64 p -> page_id_from_free_key (free_key b p) = Some p.
Proof.
  intros Hp. unfold page_id_from_free_key, free_key. rewrite (proj2 (Z.eqb_eq _ _)); [by rewrite be_dec_u64|].
  unfold blen. cbn [length]. by rewrite length_be_enc.
Qed.

(** What the first key at or above a class tells of the free-space entries. *)
Lemma first_free es A b : sorted es -> shows es A -> 0 <= b + 1 < FREE_BUCKETS ->
  exists o, found A b o /\
    match head (from_key (free_key (b + 1) 0) es) with
    | None => o = None
    | Some (k, _) => (if bool_decide (head k = Some NS_FREE_SPACE) then page_id_from_free_key k else None) = o
    end.
Proof.
  intros Hs Sh Hb. pose proof (head_from_key (free_key (b + 1) 0) es Hs) as Hh.
  assert (Hv : cat_valid (EFree (b + 1) 0)) by (split; [done|widths; lia]).
  assert (Hin : forall c, ac_has A c -> cat_encode c ∈ es) by (intros c Hc; rewrite (shows_member es A) by done; eauto).
  assert (Hge : forall b' p', (b', p') ∈ ac_free A -> b < b' -> ble (free_key (b + 1) 0) (free_key b' p')).
  { intros b' p' Hf Hlt. pose proof (sh_valid _ _ Sh (EFree b' p') Hf) as Hv'. unfold ble.
    change (bytes_cmp (cat_key (EFree (b + 1) 0)) (cat_key (EFree b' p')) <> Gt). rewrite cat_key_cmp by done. unfold rank_cmp. cbn [cat_rank fst snd].
    rewrite Z.compare_refl. destruct Hv' as [_ Hp']. unfold is_u64 in Hp'. destruct (Z.compare_spec (b + 1) b'); [|done|lia].
    destruct (Z.compare_spec 0 p'); [done|done|lia]. }
  destruct (head (from_key _ es)) as [[k v]|].
  - destruct Hh as (He & Hle & Hmin). apply (shows_member es A) in He as (c & Hc & [= <- <-]); [|done..].
    pose proof (sh_valid _ _ Sh c Hc) as Vc. cbn [fst] in *. eexists. split; [|reflexivity].
    unfold ble in Hle. change (free_key (b + 1) 0) with (cat_key (EFree (b + 1) 0)) in Hle, Hmin, Hge. rewrite cat_key_cmp in Hle by done.
    destruct c as [p t|b' p|p f]; cbn [cat_key].
    + by unfold rank_cmp in Hle; cbn in Hle.
    + rewrite bool_decide_true by done. destruct Vc as [Vb Vp]. rewrite free_key_page by done. exists b'. split; [done|].
      unfold rank_cmp in Hle. cbn [cat_rank fst snd] in Hle. rewrite Z.compare_refl in Hle. split; [destruct (Z.compare_spec (b + 1) b'); [lia|lia|done]|].
      intros b'' p'' Hf Hlt. pose proof (Hmin _ (Hin (EFree b'' p'') Hf) (Hge b'' p'' Hf Hlt)) as Hc2. cbn [fst cat_encode cat_key] in Hc2.
      unfold ble in Hc2. change (bytes_cmp (cat_key (EFree b' p)) (cat_key (EFree b'' p'')) <> Gt) in Hc2.
      rewrite cat_key_cmp in Hc2; [|done|by apply (sh_valid _ _ Sh)]. unfold rank_cmp in Hc2. cbn [cat_rank fst snd] in Hc2.
      rewrite Z.compare_refl in Hc2.
      destruct (Z.compare_spec b' b''); [|by left|done]. right. split; [done|]. destruct (Z.compare_spec p p''); [lia|lia|done].
    + rewrite bool_decide_false by done. intros b' p' Hf. apply Z.le_ngt. intros Hlt.
      pose proof (Hmin _ (Hin (EFree b' p') Hf) (Hge b' p' Hf Hlt)) as Hc2. by unfold ble in Hc2.
  - exists None. split; [|done]. intros b' p' Hf. apply Z.le_ngt. intros Hlt.
    pose proof (Hge b' p' Hf Hlt) as Hg. apply ble_not_lt in Hg. apply Hg. exact (Hh _ (Hin (EFree b' p') Hf)).
Qed.

Lemma find_spec n w σ0 A needed : cat_stands n w σ0 A -> 0 <= needed ->
  exists o w', settles (fun t => find_page_with_room t needed) w (Val o) w' /\ cat_stands n w' σ0 A /\ found A (bucket_for needed ps) o.
Proof.
  intros C Hn. pose proof C as (es & St & Sh & Hp). pose proof (bucket_range needed ps Hn ltac:(lia)) as Hb. unfold find_page_with_room.
  destruct (FREE_BUCKETS <=? bucket_for needed ps + 1) eqn:El; bools.
  - exists None, w. ands; [|done|].
    + eapply settles_step; [exact (size_run _ _ _ _ C)|]. cbv beta zeta. rewrite (proj2 (Z.leb_le _ _)) by done. by apply settles_const.
    + intros b' p' Hf. pose proof (sh_valid _ _ Sh (EFree b' p') Hf) as [? _]. lia.
  - destruct (first_free es A (bucket_for needed ps)) as (o & Hfound & Ho); [by eapply stands_sorted|done|lia|].
    destruct (stands_first ps n _ σ0 es (free_key (bucket_for needed ps + 1) 0) St) as (w' & E & St' & _).
    exists o, (fst w', mkCatalog (snd w') (cat_page_size (snd w))). ands; [|exists es; ands; [by destruct w'|done|exact Hp]|done].
    eapply settles_step; [exact (size_run _ _ _ _ C)|]. cbv beta zeta. rewrite (proj2 (Z.leb_gt _ _)) by done.
    eapply settles_bind; [apply on_tree_settles; exact E|]. cbv beta. destruct (head _) as [[k v]|]; [|subst o; by apply settles_const].
    rewrite <- Ho. destruct (bool_decide _); by apply settles_const.
Qed.

(** ** Scanning the directory *)

(** The pages of a type among the directory entries at the front of a list. *)
Fixpoint dir_list (t : Z) (l : list entry) : list Z :=
  match l with
  | [] => []
  | (k, v) :: l' =>
      if bool_decide (head k = Some NS_DIRECTORY) then
        match page_id_from_directory_key k with
        | Some p => if bool_decide (head v = Some t) then p :: dir_list t l' else dir_list t l'
        | None => dir_list t l'
        end
      else []
  end.

(** A cursor of the catalog's tree. *)
Definition cat_cursor (n : nat) (w : world) (σ0 : gmap Z bytes) (es : list entry) (r : BTreeRange) (rest : list entry) : Prop :=
  cursor ps n (fst w, tree (snd w)) σ0 es r rest /\ cat_page_size (snd w) = ps.

Lemma scan_unfold turns t r : scan_loop (S := S) turns t r =
  (do (o, r') <- on_tree (range_next turns r) ;;
   match o with
   | None => st_ret (None, mkScan r' t false)
   | Some (k, v) =>
       if negb (bool_decide (head k = Some NS_DIRECTORY)) then st_ret (None, mkScan r' t true)
       else
         match page_id_from_directory_key k with
         | None => match turns with O => st_panic | Datatypes.S turns' => scan_loop turns' t r' end
         | Some p => if bool_decide (head v = Some t) then st_ret (Some p, mkScan r' t false)
                     else match turns with O => st_panic | Datatypes.S turns' => scan_loop turns' t r' end
         end
   end).
Proof. by destruct turns. Qed.

Lemma scan_loop_spec n σ0 es t l : forall w r, cat_cursor n w σ0 es r l ->
  exists sc w', settles (fun turns => scan_loop turns t r) w (Val (head (dir_list t l), sc)) w' /\
    stands ps n (fst w', tree (snd w')) σ0 es /\ cat_page_size (snd w') = ps /\
    (dir_list t l <> [] -> exists l', cat_cursor n w' σ0 es (sc_entries sc) l' /\ dir_list t l' = tail (dir_list t l) /\
       sc_page_type sc = t /\ sc_complete sc = false).
Proof.
  induction l as [|[k v] l IH]; intros w r [C Hp].
  - destruct (cursor_next ps n _ σ0 es r [] C) as (r' & w' & E & St & _ & _). eexists _, (fst w', mkCatalog (snd w') (cat_page_size (snd w))). ands.
    + eapply settles_ext; [intros turns; apply scan_unfold|]. eapply settles_bind; [apply on_tree_settles; exact E|]. by apply settles_const.
    + by destruct w'.
    + done.
    + done.
  - destruct (cursor_next ps n _ σ0 es r ((k, v) :: l) C) as (r' & w1 & E & St & _ & Hcur). specialize (Hcur ltac:(done)). cbn [tail] in Hcur.
    set (w1' := (fst w1, mkCatalog (snd w1) (cat_page_size (snd w)))). assert (C1 : cat_cursor n w1' σ0 es r' l) by (split; [by destruct w1|exact Hp]).
    assert (St1 : stands ps n (fst w1', tree (snd w1')) σ0 es) by (by destruct w1).
    destruct (IH w1' r' C1) as (sc & w2 & E2 & St2 & Hp2 & Hrest). cbn [dir_list].
    destruct (bool_decide (head k = Some NS_DIRECTORY)) eqn:Ek.
    + destruct (page_id_from_directory_key k) as [p|] eqn:Ep; [destruct (bool_decide (head v = Some t)) eqn:Ev|].
      * exists (mkScan r' t false), w1'. ands; [|done|exact Hp|intros _; by exists l].
        eapply settles_ext; [intros turns; apply scan_unfold|]. eapply settles_bind; [apply on_tree_settles; exact E|]. cbn [head]. cbv beta iota. rewrite Ek, Ep, Ev.
        by apply settles_const.
      * exists sc, w2. ands; [|done|done|exact Hrest]. eapply settles_ext; [intros turns; apply scan_unfold|].
        eapply settles_bind; [apply on_tree_settles; exact E|]. cbn [head]. cbv beta iota. rewrite Ek, Ep, Ev. cbn [negb].
        by apply (settles_turn (fun turns => scan_loop turns t r')).
      * exists sc, w2. ands; [|done|done|exact Hrest]. eapply settles_ext; [intros turns; apply scan_unfold|].
        eapply settles_bind; [apply on_tree_settles; exact E|]. cbn [head]. cbv beta iota. rewrite Ek, Ep. cbn [negb].
        by apply (settles_turn (fun turns => scan_loop turns t r')).
    + exists (mkScan r' t true), w1'. ands; [|done|exact Hp|done].
      eapply settles_ext; [intros turns; apply scan_unfold|]. eapply settles_bind; [apply on_tree_settles; exact E|]. cbn [head]. cbv beta iota. rewrite Ek.
      by apply settles_const.
Qed.

Lemma collect_unfold turns c : scan_collect (S := S) turns c =
  (do (o, c') <- scan_next turns c ;;
   match o with
   | None => st_ret []
   | Some p => match turns with O => st_panic | Datatypes.S turns' => do rest <- scan_collect turns' c' ;; st_ret (p :: rest) end
   end).
Proof. by destruct turns. Qed.

Lemma scan_collect_spec n σ0 es t ids : forall w r l, cat_cursor n w σ0 es r l -> dir_list t l = ids ->
  exists w', settles (fun turns => scan_collect turns (mkScan r t false)) w (Val ids) w' /\
    stands ps n (fst w', tree (snd w')) σ0 es /\ cat_page_size (snd w') = ps.
Proof.
  induction ids as [|p ids IH]; intros w r l C HL; destruct (scan_loop_spec n σ0 es t l w r C) as (sc & w1 & E & St & Hp & Hrest); rewrite HL in *.
  - exists w1. ands; try done. eapply settles_ext; [intros turns; apply collect_unfold|].
    eapply settles_bind; [exact E|]. by apply settles_const.
  - destruct (Hrest ltac:(done)) as (l' & C' & Hl' & Ht & Hc). destruct sc as [r' t' c']. cbn in Ht, Hc, C'. subst t' c'.
    destruct (IH w1 r' l' C' Hl') as (w2 & E2 & St2 & Hp2). exists w2. ands; try done.
    eapply settles_ext; [intros turns; apply collect_unfold|]. eapply settles_bind; [exact E|]. cbn [head]. cbv beta iota.
    apply (settles_turn (fun turns => do rest <- scan_collect turns (mkScan r' t false) ;; st_ret (p :: rest))).
    eapply settles_bind; [exact E2|]. by apply settles_const.
Qed.

Lemma directory_key_page p : is_u64 p -> page_id_from_directory_key (directory_key p) = Some p.
Proof.
  intros Hp. unfold page_id_from_directory_key, directory_key. rewrite (proj2 (Z.eqb_eq _ _)); [by rewrite be_dec_u64|].
  unfold blen. cbn [length]. by rewrite length_be_enc.
Qed.

Lemma dir_list_spec t l : sorted l -> (forall e, e ∈ l -> exists c, cat_valid c /\ cat_encode c = e) ->
  StronglySorted Z.lt (dir_list t l) /\ forall p, p ∈ dir_list t l <-> is_u64 p /\ (directory_key p, [t]) ∈ l.
Proof.
  induction l as [|e l IH]; intros Hs Hv; [split; [constructor|intros p; cbn; rewrite !elem_of_nil; tauto]|].
  apply sorted_cons in Hs as [Hs Ha]. destruct IH as [IHs IHm]; [done|intros e' He'; apply Hv; by right|].
  destruct (Hv e ltac:(by left)) as (c & Vc & <-). assert (Hkey : forall p v, is_u64 p -> (directory_key p, v) ∈ l -> rank_cmp (cat_rank c) (0, 0, p) = Lt).
  { intros p v Hp Hin. pose proof (proj1 (Forall_forall _ _) Ha _ Hin) as Hlt. cbn [fst cat_encode] in Hlt. unfold blt in Hlt.
    change (0, 0, p) with (cat_rank (EDir p 0)). by rewrite <- cat_key_cmp. }
  assert (Hnone : (forall p v, is_u64 p -> (directory_key p, v) ∉ l) -> dir_list t (cat_encode c :: l) = [] -> (forall p v, cat_encode c <> (directory_key p, v)) ->
    StronglySorted Z.lt (dir_list t (cat_encode c :: l)) /\ forall p, p ∈ dir_list t (cat_encode c :: l) <-> is_u64 p /\ (directory_key p, [t]) ∈ cat_encode c :: l).
  { intros H1 -> H2. split; [constructor|]. intros p. rewrite elem_of_nil, elem_of_cons. split; [done|]. intros [Hp [E|Hin]]; [by destruct (H2 p [t])|by destruct (H1 p [t] Hp)]. }
  destruct c as [q u|b q|q f].
  - cbn [dir_list cat_encode cat_key cat_value head]. rewrite bool_decide_true by done. rewrite directory_key_page by done.
    assert (Hd : forall p, is_u64 p -> (directory_key p, [t]) = (directory_key q, [u]) <-> p = q /\ t = u).
    { intros p Hp. split; [|by intros [-> ->]]. intros [E1 [= E2]]%pair_equal_spec. split; [|done]. apply be_enc_u64_inj; [done..|]. exact (f_equal tail E1). }
    case_bool_decide as Hu.
    + injection Hu as ->. split; [constructor; [done|]|].
      * apply Forall_forall. intros p [Hp Hin]%IHm. pose proof (Hkey p _ Hp Hin) as Hc. unfold rank_cmp in Hc. cbn [cat_rank fst snd] in Hc.
        rewrite !Z.compare_refl in Hc. by apply Z.compare_lt_iff.
      * intros p. rewrite !elem_of_cons, IHm. split; [|intros [Hp [E|Hin]]; [apply (Hd p Hp) in E; tauto|tauto]].
        intros [->|[Hp Hin]]; [|tauto]. split; [done|by left].
    + split; [done|]. intros p. rewrite elem_of_cons, IHm. split; [tauto|]. intros [Hp [E|Hin]]; [|tauto]. apply (Hd p Hp) in E as [_ ->]. done.
  - apply Hnone; [|done|done]. intros p v Hp Hin. by pose proof (Hkey p v Hp Hin).
  - apply Hnone; [|done|done]. intros p v Hp Hin. by pose proof (Hkey p v Hp Hin).
Qed.

Lemma from_key_sorted start es : sorted es -> sorted (from_key start es).
Proof.
  unfold from_key. induction es as [|e es IH]; [done|]. intros [Hs Ha]%sorted_cons. destruct (decide (ble start (fst e))).
  - rewrite filter_cons_True by done. apply sorted_cons. split; [by apply IH|]. unfold above in *. rewrite Forall_forall in *.
    intros e' [_ He']%list_elem_of_filter. by apply Ha.
  - rewrite filter_cons_False by done. by apply IH.
Qed.

(** The directory entries from a page on, as a list of the tree's entries. *)
Lemma dir_from_spec es A start t (from : Z -> Prop) : sorted es -> shows es A ->
  (forall p, is_u64 p -> ble start (directory_key p) <-> from p) ->
  StronglySorted Z.lt (dir_list t (from_key start es)) /\
  forall p, p ∈ dir_list t (from_key start es) <-> ac_pages A !! p = Some t /\ from p.
Proof.
  intros Hs Sh Hfrom. destruct (dir_list_spec t (from_key start es)) as [H1 H2]; [by apply from_key_sorted| |].
  { intros e [_ He]%list_elem_of_filter. apply (shows_member es A) in He as (c & Hc & <-); [|done..]. exists c. split; [by apply Sh|done]. }
  split; [done|]. intros p. rewrite H2. unfold from_key. rewrite list_elem_of_filter. cbn [fst]. rewrite (shows_member es A) by done. split.
  - intros (Hp & Hle & c & Hc & [E1 E2]%pair_equal_spec). pose proof (sh_valid _ _ Sh c Hc) as Vc. apply Hfrom in Hle; [|done].
    assert (Hr : cat_rank c = (0, 0, p)) by (by apply (cat_key_inj c (EDir p 0))). destruct c as [q u|b q|q f]; try done. cbn in Hr, E2. injection Hr as ->. injection E2 as ->. done.
  - intros [Hp Hf]. pose proof (sh_valid _ _ Sh (EDir p t) Hp) as Vp. split; [exact Vp|]. split; [by apply Hfrom|]. by exists (EDir p t).
Qed.

Lemma cursor_of n (w : world) σ0 es start : stands ps n (fst w, tree (snd w)) σ0 es -> cat_page_size (snd w) = ps ->
  exists r w', settles (fun turns => on_tree (range turns start)) w (Val r) w' /\ cat_cursor n w' σ0 es r (from_key start es).
Proof.
  intros St Hp. destruct (stands_range ps n _ σ0 es start St) as (r & w' & E & C & _). eexists r, _.
  split; [apply on_tree_settles; exact E|]. split; [by destruct w'|exact Hp].
Qed.

Lemma pages_of_type_spec n w σ0 A t : cat_stands n w σ0 A ->
  exists ids w', settles (fun turns => pages_of_type turns t) w (Val ids) w' /\ cat_stands n w' σ0 A /\
    StronglySorted Z.lt ids /\ forall p, p ∈ ids <-> ac_pages A !! p = Some (page_type_u8 t).
Proof.
  intros (es & St & Sh & Hp). pose proof (stands_sorted _ _ _ _ _ St) as Hs.
  destruct (cursor_of n w σ0 es [NS_DIRECTORY] St Hp) as (r & w1 & E1 & C1).
  destruct (scan_collect_spec n σ0 es (page_type_u8 t) _ w1 r _ C1 eq_refl) as (w2 & E2 & St2 & Hp2).
  destruct (dir_from_spec es A [NS_DIRECTORY] (page_type_u8 t) (fun _ => True) Hs Sh) as [H1 H2].
  { intros p _. split; [done|]. intros _. done. }
  eexists _, w2. ands; [|by exists es|exact H1|intros p; rewrite H2; tauto].
  unfold pages_of_type, scan_pages. eapply settles_bind; [eapply settles_bind; [exact E1|by apply settles_const]|exact E2].
Qed.

Lemma next_page_spec n w σ0 A t start_at : cat_stands n w σ0 A -> (forall p, start_at = Some p -> is_u64 p) ->
  exists o w', settles (fun turns => next_page_of_type turns t start_at) w (Val o) w' /\ cat_stands n w' σ0 A /\
    match o with
    | Some p => ac_pages A !! p = Some (page_type_u8 t) /\ default 0 start_at <= p /\
        forall q, ac_pages A !! q = Some (page_type_u8 t) -> default 0 start_at <= q -> p <= q
    | None => forall q, ac_pages A !! q = Some (page_type_u8 t) -> q < default 0 start_at
    end.
Proof.
  intros (es & St & Sh & Hp) Hst. pose proof (stands_sorted _ _ _ _ _ St) as Hs.
  set (start := match start_at with Some p => directory_key p | None => [NS_DIRECTORY] end).
  destruct (cursor_of n w σ0 es start St Hp) as (r & w1 & E1 & C1).
  destruct (scan_loop_spec n σ0 es (page_type_u8 t) _ w1 r C1) as (sc & w2 & E2 & St2 & Hp2 & _).
  destruct (dir_from_spec es A start (page_type_u8 t) (fun p => default 0 start_at <= p) Hs Sh) as [H1 H2].
  { intros p Hu. unfold start. destruct start_at as [s0|]; cbn [default].
    - unfold ble. change (bytes_cmp (cat_key (EDir s0 0)) (cat_key (EDir p 0)) <> Gt <-> s0 <= p).
      rewrite cat_key_cmp; [|by apply Hst|done]. unfold rank_cmp. cbn [cat_rank fst snd]. by rewrite !Z.compare_refl.
    - split; [intros _; unfold is_u64 in Hu; lia|by intros _]. }
  eexists _, w2. ands; [|by exists es|].
  - unfold next_page_of_type, scan_pages. fold start. eapply settles_bind; [eapply settles_bind; [exact E1|by apply settles_const]|].
    eapply settles_bind; [exact E2|]. by apply settles_const.
  - destruct (dir_list _ _) as [|p ids]; cbn [head].
    + intros q Hq. apply Z.lt_nge. intros Hle. by pose proof (proj2 (H2 q) (conj Hq Hle)) as ?%elem_of_nil.
    + apply StronglySorted_inv in H1 as [_ Hmin]. destruct (proj1 (H2 p) ltac:(by left)) as [Hp1 Hp3]. ands; [done|done|].
      intros q Hq Hle. pose proof (proj2 (H2 q) (conj Hq Hle)) as [->|Hin]%elem_of_cons; [lia|].
      pose proof (proj1 (Forall_forall _ _) Hmin q Hin). lia.
Qed.

(** ** Counting the directory *)

Fixpoint front (l : list entry) : list entry :=
  match l with
  | [] => []
  | e :: l' => if bool_decide (head (fst e) = Some NS_DIRECTORY) then e :: front l' else []
  end.

Lemma front_spec l : sorted l -> (forall e, e ∈ l -> exists c, cat_valid c /\ cat_encode c = e) ->
  forall e, e ∈ front l <-> e ∈ l /\ head (fst e) = Some NS_DIRECTORY.
Proof.
  induction l as [|e0 l IH]; intros Hs Hv e; [cbn; rewrite elem_of_nil; tauto|]. apply sorted_cons in Hs as [Hs Ha].
  specialize (IH Hs ltac:(intros e' He'; apply Hv; by right) e). cbn [front]. case_bool_decide as Hd.
  - rewrite !elem_of_cons, IH. naive_solver.
  - rewrite elem_of_nil, elem_of_cons. split; [done|]. intros [[->|Hin] He]; [done|]. apply Hd. pose proof (proj1 (Forall_forall _ _) Ha e Hin) as Hlt.
    destruct (Hv e0 ltac:(by left)) as (c0 & V0 & <-), (Hv e ltac:(by right)) as (c & V & <-). unfold blt in Hlt. cbn [cat_encode fst] in *.
    rewrite cat_key_cmp in Hlt by done. destruct c, c0; done.
Qed.

Lemma front_sorted l : sorted l -> NoDup (front l).*1.
Proof.
  intros Hs. induction l as [|e l IH]; [apply NoDup_nil_2|]. apply sorted_cons in Hs as [Hs Ha]. cbn [front]. case_bool_decide; [|apply NoDup_nil_2].
  cbn. constructor; [|by apply IH]. intros (e' & E & He')%list_elem_of_fmap. assert (Hin : e' ∈ l).
  { clear -He'. induction l as [|x l IH]; [done|]. cbn in He'. case_bool_decide; [|by apply elem_of_nil in He']. apply elem_of_cons in He' as [->|?]; [by left|right; auto]. }
  pose proof (proj1 (Forall_forall _ _) Ha e' Hin) as Hlt. cbn in Hlt. rewrite E in Hlt. by apply blt_irrefl in Hlt.
Qed.

Lemma front_size es A : sorted es -> shows es A -> length (front es) = size (ac_pages A).
Proof.
  intros Hs Sh. assert (Hv : forall e, e ∈ es -> exists c, cat_valid c /\ cat_encode c = e).
  { intros e He. apply (shows_member es A) in He as (c & Hc & <-); [|done..]. exists c. split; [by apply Sh|done]. }
  assert (Hp : (front es).*1 ≡ₚ directory_key <$> elements (dom (ac_pages A))).
  { apply NoDup_Permutation.
    - by apply front_sorted.
    - assert (Hu : forall p, p ∈ elements (dom (ac_pages A)) -> is_u64 p).
      { intros p [t Ht]%elem_of_elements%elem_of_dom. by apply (sh_valid _ _ Sh (EDir p t)). }
      apply NoDup_fmap_2_strong; [|apply NoDup_elements]. intros p q Hp Hq E. apply be_enc_u64_inj; [by apply Hu..|]. exact (f_equal tail E).
    - intros k. rewrite !list_elem_of_fmap. split.
      + intros (e & -> & [He Hd]%front_spec); [|done..]. apply (shows_member es A) in He as (c & Hc & <-); [|done..]. destruct c as [p t|b p|p f]; [|done..].
        exists p. split; [done|]. apply elem_of_elements, elem_of_dom. by exists t.
      + intros (p & -> & [t Ht]%elem_of_elements%elem_of_dom). exists (cat_encode (EDir p t)). split; [done|]. apply front_spec; [done..|].
        split; [|done]. apply (shows_member es A); [done..|]. by exists (EDir p t). }
  rewrite <- (length_fmap fst (front es)), Hp, length_fmap. by rewrite <- size_dom.
Qed.

Lemma count_unfold turns r : count_directory (S := S) turns r = fun w => match on_tree (range_next turns r) w with
  | (Val (Some (k, _), r'), w') =>
      if bool_decide (head k = Some NS_DIRECTORY) then
        match turns with
        | O => (Panic, w')
        | Datatypes.S turns' => st_bind (count_directory turns' r') (fun n => st_ret (n + 1)) w'
        end
      else (Val 0, w')
  | (Val (None, _), w') | (Err _, w') => (Val 0, w')
  | (Panic, w') => (Panic, w')
  end.
Proof. by destruct turns. Qed.

Lemma count_spec n σ0 es l : forall w r, cat_cursor n w σ0 es r l ->
  exists w', settles (fun turns => count_directory turns r) w (Val (Z.of_nat (length (front l)))) w' /\
    stands ps n (fst w', tree (snd w')) σ0 es /\ cat_page_size (snd w') = ps.
Proof.
  induction l as [|[k v] l IH]; intros w r [C Hp]; destruct (cursor_next ps n _ σ0 es r _ C) as (r' & w1 & E & St & _ & Hcur);
    apply on_tree_settles in E as [e1 E]; set (w1' := (fst w1, mkCatalog (snd w1) (cat_page_size (snd w)))) in *;
    assert (St1 : stands ps n (fst w1', tree (snd w1')) σ0 es) by (by destruct w1); cbn [head front fst] in *.
  - exists w1'. ands; try done. exists e1. intros t Ht. rewrite count_unfold, E by done. done.
  - destruct (bool_decide _) eqn:Ek; [|exists w1'; ands; try done; exists e1; intros t Ht; by rewrite count_unfold, E, Ek by done].
    destruct (IH w1' r') as (w2 & [e2 E2] & St2 & Hp2); [split; [specialize (Hcur ltac:(done)); by destruct w1|exact Hp]|]. exists w2. ands; try done.
    exists (Datatypes.S (e1 + e2)). intros [|t] Ht; [lia|]. rewrite count_unfold, E, Ek by lia. unfold st_bind. rewrite E2 by lia. cbn [length]. unfold st_ret. f_equal. f_equal. lia.
Qed.

Lemma directory_count_spec n w σ0 A : cat_stands n w σ0 A ->
  exists w', settles directory_count w (Val (Z.of_nat (size (ac_pages A)))) w' /\ cat_stands n w' σ0 A.
Proof.
  intros (es & St & Sh & Hp). pose proof (stands_sorted _ _ _ _ _ St) as Hs. destruct (cursor_of n w σ0 es [NS_DIRECTORY] St Hp) as (r & w1 & E1 & C1).
  destruct (count_spec n σ0 es _ w1 r C1) as (w2 & E2 & St2 & Hp2). exists w2. split; [|by exists es].
  assert (Ef : from_key [NS_DIRECTORY] es = es).
  { assert (Hall : Forall (fun e => ble [NS_DIRECTORY] (fst e)) es).
    { apply Forall_forall. intros e He. apply (shows_member es A) in He as (c & Hc & <-); [|done..]. by destruct c. }
    unfold from_key. clear -Hall. induction Hall as [|e l He _ IH]; [done|]. by rewrite filter_cons_True, IH by done. }
  rewrite Ef, (front_size es A) in E2 by done. eapply settles_bind; [exact E1|exact E2].
Qed.
End Calls.

(** The catalog's pages set apart, as the tree's. *)
Lemma cat_opened {S} `{P : Pager S} {L : PagerLaws S} ps n w σ0 A : cat_stands ps n w σ0 A ->
  exists τ, framed τ ps n (fst w) σ0 /\
    forall (L' : PagerLaws S) n' s' σ0', framed (L := L') τ ps n' s' σ0' -> cat_stands (L := L') ps n' (s', snd w) σ0' A.
Proof.
  intros (es & St & Sh & Hp). destruct (stands_open ps n _ σ0 es St) as (τ & Fr & Hclose). exists τ. split; [done|].
  intros L' n' s' σ0' Fr'. exists es. ands; [by apply Hclose|done|done].
Qed.
