(* ===== verification/CatalogTheorems.v ===== *)
(** * The catalog keeps its three tables

    Over any sequence of calls the catalog is a page directory, a set of
    free-space entries and a table of generation floors, next to the pages of the
    rest of the system. *)

From stdpp Require Import base tactics list numbers gmap sorting.
From Stdlib Require Import ZArith Lia.
From S2P Require Import Prelude Turns Bytes Errors PageFormat Pager Pool PoolTheorems BTree BTreeTheorems Catalog CatalogSpec.
Local Open Scope Z_scope.
Local Open Scope bic_scope.

Inductive CatOp :=
| CRegister (p : Z) (t : PageType) (free : Z)
| CUpdate (p before after : Z)
| CForget (p free : Z)
| CFloor (p : Z)
| CSetFloor (p f : Z)
| CFind (needed : Z)
| CPages (t : PageType)
| CNext (t : PageType) (start_at : option Z)
| CCount.

Inductive CatAnswer :=
| CDone
| CNumber (n : Z)
| CPage (o : option Z)
| CList (ids : list Z).

Section Client.
Context {S : Type} {P : Pager S}.
Abbreviation cst := (st PageError (S * Catalog)).

Definition cat_exec (turns : nat) (op : CatOp) : cst CatAnswer :=
  match op with
  | CRegister p t free => register_page p t free ;;; st_ret CDone
  | CUpdate p before after => update_free_space p before after ;;; st_ret CDone
  | CForget p free => cat_forget_page p free ;;; st_ret CDone
  | CFloor p => do f <- page_generation_floor p ;; st_ret (CNumber f)
  | CSetFloor p f => set_page_generation_floor p f ;;; st_ret CDone
  | CFind needed => do o <- find_page_with_room turns needed ;; st_ret (CPage o)
  | CPages t => do ids <- pages_of_type turns t ;; st_ret (CList ids)
  | CNext t start_at => do o <- next_page_of_type turns t start_at ;; st_ret (CPage o)
  | CCount => do n <- directory_count turns ;; st_ret (CNumber n)
  end.

Fixpoint cat_runs (turns : nat) (ops : list CatOp) : cst (list CatAnswer) :=
  match ops with
  | [] => st_ret []
  | op :: ops' => do a <- cat_exec turns op ;; do rest <- cat_runs turns ops' ;; st_ret (a :: rest)
  end.
End Client.

(** ** What the calls mean on the tables *)

Definition cat_op_ok (op : CatOp) : Prop :=
  match op with
  | CRegister p _ free | CForget p free => is_u64 p /\ 0 <= free
  | CUpdate p before after => is_u64 p /\ 0 <= before /\ 0 <= after
  | CFloor p => is_u64 p
  | CSetFloor p f => is_u64 p /\ is_u32 f
  | CFind needed => 0 <= needed
  | CNext _ (Some p) => is_u64 p
  | _ => True
  end.

Definition cat_cost (op : CatOp) : nat :=
  match op with CRegister _ _ _ => 130 | CUpdate _ _ _ | CSetFloor _ _ => 65 | _ => 0 end.

Definition cat_after (ps : Z) (op : CatOp) (A : ACat) : ACat :=
  match op with
  | CRegister p t free => ac_add (EFree (bucket_for free ps) p) (ac_add (EDir p (page_type_u8 t)) A)
  | CUpdate p before after => ac_move p (bucket_for before ps) (bucket_for after ps) A
  | CForget p free => ac_del (EFree (bucket_for free ps) p) (ac_del (EDir p 0) A)
  | CSetFloor p f => ac_raise p f A
  | _ => A
  end.

(** The directory's pages of a type. *)
Definition of_type (A : ACat) (t : PageType) (p : Z) : Prop := ac_pages A !! p = Some (page_type_u8 t).

Definition cat_says (ps : Z) (op : CatOp) (A : ACat) (a : CatAnswer) : Prop :=
  match op, a with
  | CRegister _ _ _, CDone | CUpdate _ _ _, CDone | CForget _ _, CDone | CSetFloor _ _, CDone => True
  | CFloor p, CNumber f => f = default 0 (ac_floors A !! p)
  | CCount, CNumber n => n = Z.of_nat (size (ac_pages A))
  | CFind needed, CPage o =>
      found A (bucket_for needed ps) o /\
      forall p, o = Some p -> exists class, (class, p) ∈ ac_free A /\ forall free, bucket_for free ps = class -> needed < free
  | CPages t, CList ids => StronglySorted Z.lt ids /\ forall p, p ∈ ids <-> of_type A t p
  | CNext t start_at, CPage (Some p) =>
      of_type A t p /\ default 0 start_at <= p /\ forall q, of_type A t q -> default 0 start_at <= q -> p <= q
  | CNext t start_at, CPage None => forall q, of_type A t q -> q < default 0 start_at
  | _, _ => False
  end.

Fixpoint cat_explains (ps : Z) (A : ACat) (ops : list CatOp) (answers : list CatAnswer) : Prop :=
  match ops, answers with
  | [], [] => True
  | op :: ops', a :: answers' => cat_says ps op A a /\ cat_explains ps (cat_after ps op A) ops' answers'
  | _, _ => False
  end.

Section Calls.
Context {S : Type} {P : Pager S} {L : PagerLaws S} (ps : Z).
Hypothesis Hps : 512 <= ps <= 65536.

Lemma cat_exec_spec n w σ0 A op : cat_stands ps (cat_cost op + n) w σ0 A -> cat_op_ok op ->
  exists a w', settles (fun t => cat_exec t op) w (Val a) w' /\ cat_says ps op A a /\ cat_stands ps n w' σ0 (cat_after ps op A).
Proof.
  intros C Hok. destruct op; cbn [cat_exec cat_cost cat_after cat_says cat_op_ok] in *.
  - destruct (register_spec ps Hps n w σ0 A p t free C) as (w' & E & C'); [tauto..|]. exists CDone, w'. ands; try done. eapply settles_step; [exact E|by apply settles_const].
  - destruct (update_free_spec ps Hps n w σ0 A p before after C) as (w' & E & C'); [tauto..|]. exists CDone, w'. ands; try done. eapply settles_step; [exact E|by apply settles_const].
  - destruct (forget_spec ps Hps n w σ0 A p free C) as (w' & E & C'); [tauto..|]. exists CDone, w'. ands; try done. eapply settles_step; [exact E|by apply settles_const].
  - destruct (floor_spec ps n w σ0 A p C Hok) as (w' & E & C'). eexists (CNumber _), w'. ands; [eapply settles_step; [exact E|by apply settles_const]|done|done].
  - destruct (set_floor_spec ps Hps n w σ0 A p f C) as (w' & E & C'); [tauto..|]. exists CDone, w'. ands; try done. eapply settles_step; [exact E|by apply settles_const].
  - destruct (find_spec ps Hps n w σ0 A needed C Hok) as (o & w' & E & C' & Hf). exists (CPage o), w'.
    ands; [eapply settles_bind; [exact E|by apply settles_const]|done| |done]. intros p ->. destruct Hf as (class & Hin & Hlt & _). exists class. split; [done|].
    intros free <-. apply (bucket_room needed free ps); [done|lia|done].
  - destruct (pages_of_type_spec ps Hps n w σ0 A t C) as (ids & w' & E & C' & H1 & H2). exists (CList ids), w'. ands; try done. eapply settles_bind; [exact E|by apply settles_const].
  - destruct (next_page_spec ps Hps n w σ0 A t start_at C) as (o & w' & E & C' & Ho); [by intros p ->|]. exists (CPage o), w'. ands; [eapply settles_bind; [exact E|by apply settles_const]|by destruct o|done].
  - destruct (directory_count_spec ps Hps n w σ0 A C) as (w' & E & C'). eexists (CNumber _), w'. ands; [eapply settles_bind; [exact E|by apply settles_const]|done|done].
Qed.

Lemma cat_runs_spec ops : forall n w σ0 A, cat_stands ps (sum_list (cat_cost <$> ops) + n) w σ0 A -> Forall cat_op_ok ops ->
  exists answers w' A', settles (fun t => cat_runs t ops) w (Val answers) w' /\ cat_explains ps A ops answers /\ cat_stands ps n w' σ0 A'.
Proof.
  induction ops as [|op ops IH]; intros n w σ0 A C Hok; [exists [], w, A; ands; [by apply settles_const|done|done]|].
  apply Forall_cons in Hok as [Hop Hok]. cbn [fmap list_fmap sum_list] in C. rewrite <- Nat.add_assoc in C.
  destruct (cat_exec_spec _ w σ0 A op C Hop) as (a & w1 & E1 & Ha & C1). destruct (IH n w1 σ0 _ C1 Hok) as (rest & w2 & A2 & E2 & Hr & C2).
  exists (a :: rest), w2, A2. split; [|done]. cbn [cat_runs]. eapply settles_bind; [exact E1|]. cbv beta. eapply settles_bind; [exact E2|by apply settles_const].
Qed.
End Calls.

(** ** Claims *)

Section Claims.
Context {S : Type} {P : Pager S} {L : PagerLaws S}.
Variables (ps : Z) (s : S) (σ0 : gmap Z bytes) (ops : list CatOp).
Hypothesis Hps : 512 <= ps <= 65536.
Hypothesis Hops : Forall cat_op_ok ops.
Hypothesis Hmodels : pg_models ps (1 + sum_list (cat_cost <$> ops)) s σ0.

(** C19: The catalog is a page directory, a set of free-space entries and a table
    of generation floors.  A new catalog answers every sequence of its calls from
    those three tables: a page found for [needed] bytes is the first one of the
    lowest class above [needed]'s, and any page of that class has more than
    [needed] bytes free; the pages of a type come in ascending order and are
    exactly those registered; the next page of a type is the least at or after
    the start; a floor is the largest value it was set to, so it survives its
    page being forgotten.  Registering never touches another page's entries, and
    the pages that belong to others keep their contents. *)
Theorem catalog_keeps_three_tables :
  exists c s1 answers w, cat_create s = (Val c, s1) /\ settles (fun turns => cat_runs turns ops) (s1, c) (Val answers) w /\
    cat_explains ps ac_empty ops answers /\
    forall q b, σ0 !! q = Some b -> exists b' s', pg_get Search q (fst w) = (Val b', s') /\ same_page b' b.
Proof.
  destruct (cat_create_spec ps Hps _ s σ0 Hmodels) as (c & s1 & E1 & C1).
  destruct (cat_runs_spec ps Hps ops 0 (s1, c) σ0 ac_empty) as (answers & w & A & E2 & Hex & C2); [by rewrite Nat.add_0_r|done|].
  exists c, s1, answers, w. ands; try done. intros q b Hq. destruct (cat_opened ps _ _ _ _ C2) as (τ & Fr & _).
  destruct (pg_get_law (PagerLaws := framed_laws τ) ps 0 (fst w) σ0 Search q b Fr Hq) as (b' & s' & E & Hb & _). eauto.
Qed.
End Claims.

(** ** Witness *)

Definition demo_cat_ops : list CatOp :=
  [CRegister 7 Heap 300; CRegister 9 Overflow 0; CFind 100; CUpdate 7 300 50; CFind 100; CSetFloor 7 3; CSetFloor 7 2; CForget 7 50; CFloor 7; CPages Heap; CCount].

Lemma catalog_keeps_three_tables_witness :
  exists c s1 answers w, @cat_create _ demo_pager managed_pool = (Val c, s1) /\
    settles (fun turns => @cat_runs _ demo_pager turns demo_cat_ops) (s1, c) (Val answers) w /\
    cat_explains 512 ac_empty demo_cat_ops answers /\
    forall q b, (∅ : gmap Z bytes) !! q = Some b -> exists b' s', @pg_get _ demo_pager Search q (fst w) = (Val b', s') /\ same_page b' b.
Proof.
  refine (@catalog_keeps_three_tables _ demo_pager demo_managed_laws 512 managed_pool ∅ demo_cat_ops ltac:(lia) _ _).
  - repeat (apply Forall_cons; split; [cbn [cat_op_ok]; unfold is_u64, is_u32, U64, U32; try done; lia|]). by apply Forall_nil.
  - apply demo_managed. by vm_compute.
Defined.
