(* ===== verification/HeapPage.v ===== *)
(** * Heap pages in the cache

    What the slotted-page library proves of a page, restated for a page that is
    read and written through the pool: its stamps may change at any time, its
    tuples may not.  Generations stay below a bound that grows by one with every
    insertion. *)

From stdpp Require Import base tactics list numbers gmap.
From Stdlib Require Import ZArith Lia.
From S2P Require Import Prelude Turns Bytes Errors PageFormat Slotted SlottedSpec SlottedRefine SlottedCompact SlottedTrace Pager BTree Catalog Overflow Heap.
Local Open Scope Z_scope.
Local Open Scope bic_scope.

(** ** Stamps *)

Lemma same_u16 b b' a : same_page b b' -> 36 <= a -> a + 2 <= blen b - 8 -> u16_at b' a = u16_at b a.
Proof. intros Hs Ha Hl. unfold u16_at. by rewrite (same_sub b b') by (done || lia). Qed.
Lemma same_u32 b b' a : same_page b b' -> 36 <= a -> a + 4 <= blen b - 8 -> u32_at b' a = u32_at b a.
Proof. intros Hs Ha Hl. unfold u32_at. by rewrite (same_sub b b') by (done || lia). Qed.

Lemma same_content b b' : 72 <= blen b -> same_page b b' -> content_ok b -> content_ok b'.
Proof.
  intros Hb Hs [Ht Hc]. split; [by eapply typed_same|]. pose proof Hs as (Hl & _ & _ & Hrest). intros i x Hx Hi. rewrite <- Hl in Hi.
  apply (Hc i); [|done]. assert (Hi' : sub b 36 (blen b - 44) !! (i - 36)%nat = Some x).
  { rewrite Hrest. unfold sub. rewrite lookup_take_Some, lookup_drop. split; [|lia]. rewrite <- Hx. f_equal. lia. }
  unfold sub in Hi'. rewrite lookup_take_Some, lookup_drop in Hi'. destruct Hi' as [Hi' _]. rewrite <- Hi'. f_equal. lia.
Qed.

Lemma same_entry ps b b' i : wf ps b -> same_page b b' -> 0 <= i < cnt b -> entry b' i = entry b i.
Proof.
  intros W Hs Hi. destruct (cnt_bound ps b W) as (? & ? & ?). pose proof (wf_len _ _ W). unfold entry, e_off, e_len, e_gen.
  by rewrite !(same_u16 b b'), (same_u32 b b') by (done || lia).
Qed.

Lemma same_hdr ps b b' : wf ps b -> same_page b b' -> hdr b' = hdr b.
Proof.
  intros W Hs. pose proof (wf_len _ _ W). pose proof (wf_size _ _ W). unfold hdr, cnt, fstart, fend, pid, floor_of, u64_at.
  rewrite !(same_u16 b b'), (same_u32 b b') by (done || lia). by rewrite (same_sub b b') by (done || lia).
Qed.

Lemma same_view ps b b' i : wf ps b -> same_page b b' -> 0 <= i < cnt b -> view b' i = view b i.
Proof.
  intros W Hs Hi. apply view_same; [by eapply same_entry|]. intros Ho. destruct (cnt_bound ps b W) as (? & ? & ?).
  destruct (wf_live _ _ W i Hi Ho) as (? & ? & ?). pose proof (wf_len _ _ W). by rewrite (same_sub b b') by (done || lia).
Qed.

Lemma wf_same ps b b' : wf ps b -> same_page b b' ->
  wf ps b' /\ abs b' = abs b /\ pid b' = pid b /\ floor_of b' = floor_of b /\ free_of b' = free_of b.
Proof.
  intros W Hs. pose proof (same_hdr ps b b' W Hs) as Hh. apply hdr_inv in Hh as (E1 & E2 & E3 & E4 & E5).
  pose proof (wf_size _ _ W). pose proof (wf_len _ _ W). pose proof Hs as (Hl & _).
  assert (He : forall i, 0 <= i < cnt b -> e_off b' i = e_off b i /\ e_len b' i = e_len b i).
  { intros i Hi. pose proof (same_entry ps b b' i W Hs Hi) as E. unfold entry in E. by injection E. }
  ands; try done; [| |unfold free_of; by rewrite E2, E3].
  - destruct W. split; rewrite ?E1, ?E2, ?E3; try done; [congruence|apply (same_content b); [lia|done..]| |].
    + intros i Hi. destruct (He i Hi) as [-> ->]. auto.
    + intros i j Hi Hj. unfold apart. destruct (He i Hi) as [-> ->], (He j Hj) as [-> ->]. by apply wf_apart.
  - unfold abs. rewrite E1. apply list_fmap_ext. intros k x Hk%list_elem_of_lookup_2%elem_of_rangeZ. by apply (same_view ps).
Qed.

(** ** Accessors the heap uses *)

Lemma can_fit_eq ps b n : wf ps b -> can_fit b n = Val (n + (if has_dead b then 0 else SLOT_BYTES) <=? free_of b).
Proof.
  intros W. unfold can_fit. rewrite (find_dead_slot_eq ps), (free_space_eq ps) by done. run. pose proof (find_dead_abs ps b W) as Hd. unfold has_dead.
  destruct (snd <$> _) as [s|]; [destruct Hd as (_ & _ & ->)|rewrite Hd]; done.
Qed.

Lemma reclaimable_eq ps b : wf ps b -> exists r, reclaimable_space b = Val r.
Proof.
  intros W. unfold reclaimable_space. rewrite (slot_entries_eq ps), (free_space_eq ps) by done. run. eauto.
Qed.

Lemma wf_readable ps b : wf ps b -> readable ps b.
Proof. intros W. split; [apply W|]. destruct (wf_ok _ _ W) as [(h & Hd & _) _]. eauto. Qed.

(** ** A page with its history *)

Record PageHist := mkHist {
  ph_floor : Z;
  ph_issued : gset (Z * Z);
  ph_tuples : gmap (Z * Z) bytes
}.

Definition hist_insert (l : TupleLocator) (t : bytes) (h : PageHist) : PageHist :=
  mkHist (ph_floor h) ({[key l]} ∪ ph_issued h) (<[key l := t]> (ph_tuples h)).
Definition hist_write (l : TupleLocator) (t : bytes) (h : PageHist) : PageHist :=
  mkHist (ph_floor h) (ph_issued h) (<[key l := t]> (ph_tuples h)).
Definition hist_delete (l : TupleLocator) (h : PageHist) : PageHist :=
  mkHist (ph_floor h) (ph_issued h) (base.delete (key l) (ph_tuples h)).

(** The bytes [b] of page [id] after the history [h], no generation above [k]. *)
Record page_ok (ps k id : Z) (b : bytes) (h : PageHist) : Prop := {
  po_hinv : hinv ps id b (ph_floor h) (ph_issued h) (ph_tuples h);
  po_floor : ph_floor h <= k;
  po_gens : forall i g o, abs b !! i = Some (g, o) -> g <= k
}.

Lemma page_wf ps k id b h : page_ok ps k id b h -> wf ps b.
Proof. intros [H _ _]. apply H. Qed.

Lemma page_weaken ps k k' id b h : k <= k' -> page_ok ps k id b h -> page_ok ps k' id b h.
Proof. intros Hk [H1 H2 H3]. split; [done|lia|]. intros i g o Hi. specialize (H3 i g o Hi). lia. Qed.

(** Only the directory counts. *)
Lemma page_rewrap ps k id b b' h : page_ok ps k id b h -> wf ps b' -> abs b' = abs b -> pid b' = pid b -> floor_of b' = floor_of b ->
  page_ok ps k id b' h.
Proof. intros [[W H1 H2 H3 H4 H5 H6 H7] F G] W' Ea Ep Ef. split; [split; rewrite ?Ea; congruence || done|done|by rewrite Ea]. Qed.

Lemma page_same ps k id b b' h : same_page b b' -> page_ok ps k id b h -> page_ok ps k id b' h.
Proof.
  intros Hs Po. destruct (wf_same ps b b' (page_wf _ _ _ _ _ Po) Hs) as (W & Ha & Hp & Hf & _). by apply (page_rewrap ps k id b).
Qed.

Lemma page_init ps k id floor b : 72 <= ps <= 65536 -> is_u64 id -> 0 <= floor <= k -> k < U32 -> blen b = ps ->
  exists b', init_with_floor id ps floor b = (Val tt, b') /\ page_ok ps k id b' (mkHist floor ∅ ∅) /\ free_of b' = ps - 72 /\ abs b' = [].
Proof.
  intros Hps Hid Hf Hk Hb. assert (Hu : is_u32 floor) by (widths; lia).
  destruct (init_val ps id floor b Hps Hb Hid Hu) as (b' & E & W & Ha & Hp & Hfl & Hfr). exists b'. ands; try done. split; cbn.
  - by eapply hinv_init.
  - lia.
  - intros i g o. by rewrite Ha.
Qed.

(** A tuple that fits is placed under a locator never issued before. *)
Lemma page_insert ps k id b h t : page_ok ps k id b h -> 0 <= k -> k + 1 < U32 -> bytes_ok t -> t <> [] -> insert_needs b t <= free_of b ->
  exists l b', Slotted.insert t b = (Val l, b') /\ page_ok ps (k + 1) id b' (hist_insert l t h) /\ (key l ∉ ph_issued h) /\
    loc_page l = id /\ 0 <= loc_slot l /\ free_of b' = free_of b - insert_needs b t.
Proof.
  intros [Hi Hf Hg] Hk0 Hk Ht Hne Hroom. pose proof (hi_wf _ _ _ _ _ _ Hi) as W. pose proof (insert_val ps b t W Ht Hne Hroom) as V.
  destruct (spec_insert (floor_of b) t (abs b)) as [[l' s] g] eqn:Es. destruct V as (b' & E & W' & Ha & Hp & Hfl & Hfree).
  pose proof (hi_floor _ _ _ _ _ _ Hi) as HF. pose proof (hi_F _ _ _ _ _ _ Hi) as HF32.
  assert (Hgen : g <> 0 /\ g <= k + 1 /\ forall j x o, l' !! j = Some (x, o) -> x <= k + 1).
  { unfold spec_insert in Es. rewrite HF in Es. destruct (list_find _ _) as [[i [g0 o0]]|] eqn:Ef; injection Es as <- <- <-.
    - apply dead_lookup in Ef as [Hi0 _]. pose proof (Hg _ _ _ Hi0). pose proof (hi_gens _ _ _ _ _ _ Hi _ _ _ Hi0).
      unfold is_u32 in HF32. rewrite Z.mod_small by lia. ands; [lia|lia|]. intros j x o.
      rewrite list_lookup_insert_Some. intros [(<- & [= <- <-] & _)|[_ Hj]]; [lia|]. specialize (Hg j x o Hj). lia.
    - unfold is_u32 in HF32. rewrite Z.mod_small by lia. ands; [lia|lia|]. intros j x o. rewrite lookup_app_Some.
      intros [Hj|[_ Hj]]; [specialize (Hg j x o Hj); lia|]. apply list_lookup_singleton_Some in Hj as [_ [= <- <-]]. lia. }
  destruct Hgen as (Hg0 & Hgk & Hall). eexists _, b'. split; [exact E|].
  destruct (hinv_insert ps id b _ _ _ t _ b' Hi Ht E Hg0) as [Hi' Hfresh]. ands; [|done|by apply Hi| |done].
  - split; [exact Hi'|cbn; lia|]. rewrite Ha. exact Hall.
  - rewrite HF in Es. by destruct (spec_insert_fresh ps id b _ _ _ t l' s g Hi Es Hg0).
Qed.

(** What a page answers to a locator whose tuple is gone. *)
Definition gone (e : PageError) : bool :=
  match e with NoSuchSlot _ _ _ | DeadSlot _ _ | StaleLocator _ _ _ _ => true | _ => false end.

Lemma spec_get_gone id l loc e : spec_get id l loc = Err e -> gone e = true.
Proof. unfold spec_get. destruct (l !! _) as [[g [v|]]|]; [destruct (g =? _)|..]; by intros [= <-]. Qed.

Lemma page_tuple ps k id b h l : page_ok ps k id b h -> 0 <= loc_slot l ->
  match ph_tuples h !! key l with
  | Some t => spec_get (pid b) (abs b) l = Val t
  | None => exists e, spec_get (pid b) (abs b) l = Err e /\ gone e = true
  end.
Proof.
  intros [Hi _ _] Hs. pose proof (hi_contents _ _ _ _ _ _ Hi (loc_slot l) (loc_generation l)) as Hc.
  destruct (ph_tuples h !! key l) as [t|] eqn:E; [by apply spec_get_val, Hc|].
  destruct (spec_get (pid b) (abs b) l) as [t|e|] eqn:Eg; [|by eauto using spec_get_gone|by apply spec_get_no_panic in Eg].
  apply spec_get_val, Hc in Eg; [|done]. unfold key in E. congruence.
Qed.

Lemma page_get ps k id b h l : page_ok ps k id b h -> 0 <= loc_slot l ->
  match ph_tuples h !! key l with
  | Some t => Slotted.get b l = Val t
  | None => exists e, Slotted.get b l = Err e /\ gone e = true
  end.
Proof. intros Po Hs. rewrite (get_eq ps) by (done || by eapply page_wf). by apply (page_tuple ps k id). Qed.

(** The generations of the slots never grow by a deletion or an update. *)
Lemma gens_write ps k id b h l t o : page_ok ps k id b h -> 0 <= loc_slot l -> spec_get (pid b) (abs b) l = Val t ->
  forall i g o', <[Z.to_nat (loc_slot l) := (loc_generation l, o)]> (abs b) !! i = Some (g, o') -> g <= k.
Proof.
  intros [_ _ Hg] Hs Ht%spec_get_val i g o'. rewrite list_lookup_insert_Some. intros [(<- & [= <- <-] & _)|[_ Hi]]; by eapply Hg.
Qed.

Lemma page_delete ps k id b h l t : page_ok ps k id b h -> 0 <= loc_slot l -> ph_tuples h !! key l = Some t ->
  exists b', Slotted.delete l b = (Val tt, b') /\ page_ok ps k id b' (hist_delete l h).
Proof.
  intros Po Hs Ht. pose proof (page_tuple ps k id b h l Po Hs) as Hg. rewrite Ht in Hg.
  destruct (delete_val ps b l t (page_wf _ _ _ _ _ Po) Hs Hg) as (b' & E & W & Ha & _). exists b'. split; [done|].
  split; [by eapply hinv_delete, E; [apply Po|]|apply Po|]. rewrite Ha. by eapply gens_write.
Qed.

(** An update that fits writes in place; one that does not leaves the page. *)
Lemma page_update ps k id b h l old t : page_ok ps k id b h -> 0 <= loc_slot l -> ph_tuples h !! key l = Some old -> bytes_ok t -> t <> [] ->
  (exists b', Slotted.update l t b = (Val tt, b') /\ page_ok ps k id b' (hist_write l t h)) \/
  ((exists p n f, Slotted.update l t b = (Err (ValueTooLarge p n f), b)) /\ blen old < blen t).
Proof.
  intros Po Hs Hold Ht Hne. pose proof (page_tuple ps k id b h l Po Hs) as Hg. rewrite Hold in Hg. pose proof (page_wf _ _ _ _ _ Po) as W.
  destruct (decide (free_of b < update_needs old t)) as [Hn|Hn]; [right; rewrite (update_full ps b l old) by done|left].
  { split; [eauto|]. pose proof (wf_gap _ _ W). unfold free_of in *. unfold update_needs in Hn. destruct (_ <=? _) eqn:E in Hn; bools; lia. }
  destruct (update_val ps b l old t W Hs Hg Ht Hne) as (b' & E & _); [lia|]. exists b'. split; [done|].
  destruct (update_accepts ps b l old t b' W Hs Hg Ht E) as (_ & Ha & _).
  split; [by eapply hinv_update, E; [apply Po|..]|apply Po|]. rewrite Ha. by eapply gens_write.
Qed.

Lemma update_page_spec ps k id b h l old t : page_ok ps k id b h -> 0 <= loc_slot l -> ph_tuples h !! key l = Some old -> bytes_ok t -> t <> [] ->
  exists r b', update_page l t b = (Val r, b') /\ page_ok ps k id b' (if r : bool then hist_write l t h else hist_delete l h) /\ (blen t <= blen old -> r = true).
Proof.
  intros Po Hs Hold Ht Hne. unfold update_page. destruct (page_update ps k id b h l old t Po Hs Hold Ht Hne) as [(b' & E & Po')|[(p & n & f & E) Hl]]; rewrite E.
  - by exists true, b'.
  - destruct (page_delete ps k id b h l old Po Hs Hold) as (b' & E' & Po'). exists false, b'. unfold st_bind. rewrite E'. ands; [done|done|lia].
Qed.

(** A candidate page takes the tuple or is left, compacted perhaps. *)
Lemma place_tuple_spec ps k id b h t : page_ok ps k id b h -> 0 <= k -> k + 1 < U32 -> bytes_ok t -> t <> [] -> insert_needs b t <= free_of b ->
  exists l b', (do l <- Slotted.insert t ;; st_ret (Some l)) b = (Val (Some l), b') /\ page_ok ps (k + 1) id b' (hist_insert l t h) /\
    (key l ∉ ph_issued h) /\ loc_page l = id /\ 0 <= loc_slot l.
Proof.
  intros Po Hk0 Hk Ht Hne Hroom. destruct (page_insert ps k id b h t Po Hk0 Hk Ht Hne Hroom) as (l & b' & E & Po' & Hf & Hl & Hs & _).
  exists l, b'. ands; try done. unfold st_bind. by rewrite E.
Qed.

Lemma try_page_spec ps k id b h t : page_ok ps k id b h -> 0 <= k -> k + 1 < U32 -> bytes_ok t -> t <> [] ->
  exists o b', try_page ps t b = (Val o, b') /\
    match o with
    | Some l => page_ok ps (k + 1) id b' (hist_insert l t h) /\ (key l ∉ ph_issued h) /\ loc_page l = id /\ 0 <= loc_slot l
    | None => page_ok ps k id b' h
    end.
Proof.
  intros Po Hk0 Hk Ht Hne. pose proof (page_wf _ _ _ _ _ Po) as W. unfold try_page. unfold st_bind at 1, reads at 1.
  rewrite (can_fit_eq ps) by done. destruct (_ <=? free_of b) eqn:E1; bools.
  - destruct (place_tuple_spec ps k id b h t) as (l & b' & E & Hl); [done..|]. exists (Some l), b'. by rewrite E.
  - destruct (reclaimable_eq ps b W) as [r Er]. unfold st_bind at 1, reads at 1. rewrite Er.
    destruct (_ <=? r); [|by exists None, b]. destruct (compact_val ps b W) as (b1 & Ec & W1 & Ha & Hp & Hf & _). unfold st_bind at 1. rewrite Ec.
    assert (Po1 : page_ok ps k id b1 h) by (by apply (page_rewrap ps k id b)).
    unfold st_bind at 1, reads at 1. rewrite (can_fit_eq ps) by done. destruct (_ <=? free_of b1) eqn:E2; bools; [|by exists None, b1].
    destruct (place_tuple_spec ps k id b1 h t) as (l & b' & E & Hl); [done..|]. exists (Some l), b'. by rewrite E.
Qed.

Lemma NoDup_omap_key {A B} (f : A -> option B) (back : B -> A) xs :
  (forall x y, f x = Some y -> back y = x) -> NoDup xs -> NoDup (omap f xs).
Proof.
  intros Hb. induction 1 as [|x xs Hx Hnd IH]; [apply NoDup_nil_2|]. cbn. destruct (f x) as [y|] eqn:E; [|done]. constructor; [|done].
  intros (x' & Hx' & E')%list_elem_of_omap. apply Hb in E, E'. congruence.
Qed.

(** The locators of a page are those of its tuples. *)
Lemma page_locators_spec ps k id b h : page_ok ps k id b h ->
  exists ls, locators b = Val ls /\ NoDup ls /\
    forall l, l ∈ ls <-> loc_page l = id /\ 0 <= loc_slot l /\ is_Some (ph_tuples h !! key l).
Proof.
  intros [Hi _ _]. pose proof (hi_wf _ _ _ _ _ _ Hi) as W. destruct (cnt_bound ps b W) as (Hc & _).
  set (f i := if negb (e_off b i =? DEAD_OFFSET) then Some (mkLocator id i (e_gen b i)) else None). exists (omap f (rangeZ 0 (cnt b))). ands.
  - unfold locators. rewrite (slot_entries_eq ps), (page_id_eq ps) by done. run. f_equal. rewrite (hi_pid _ _ _ _ _ _ Hi).
    generalize (rangeZ 0 (cnt b)) as xs. induction xs as [|x xs IH]; [done|]. cbn. unfold f at 1. destruct (negb _); [by rewrite IH|done].
  - apply (NoDup_omap_key f loc_slot); [|apply NoDup_rangeZ]. intros x y. unfold f. destruct (negb _); [|done]. by intros [= <-].
  - intros [p s g]. rewrite list_elem_of_omap. cbn [loc_page loc_slot]. unfold is_Some, key. cbn [loc_slot loc_generation]. split.
    + intros (i & Hin%elem_of_rangeZ & E). unfold f in E. destruct (negb _) eqn:En; [|done]. injection E as <- <- <-. ands; [done|lia|].
      exists (sub b (e_off b i) (e_len b i)). apply (hi_contents _ _ _ _ _ _ Hi); [lia|]. rewrite abs_at by done. unfold view.
      apply negb_true_iff in En. unfold DEAD_OFFSET in En. by rewrite En.
    + intros (-> & Hs & t & Ht). apply (hi_contents _ _ _ _ _ _ Hi) in Ht; [|done].
      assert (Hlt : s < cnt b) by (apply Z.lt_nge; intros Hge; by rewrite abs_past in Ht by lia). rewrite abs_at in Ht by lia. exists s.
      split; [apply elem_of_rangeZ; lia|]. unfold f, view, DEAD_OFFSET in *. destruct (e_off b s =? 0); [done|]. by injection Ht as -> _.
Qed.
