(* ===== verification/HeapSpec.v ===== *)
(** * The heap file: placing tuples

    Where a tuple goes: to the page the catalog proposes, to a page of the ring,
    or to a new page.  Whichever it is, the locator was never handed out before,
    no other tuple changes, and the catalog, the ring and the list of pages name
    heap pages only. *)

From stdpp Require Import base tactics list numbers gmap.
From Stdlib Require Import ZArith Lia.
From S2P Require Import Prelude Turns Bytes Errors PageFormat Slotted SlottedSpec SlottedRefine SlottedTrace Pager.
From S2P Require Import BTree BTreeTheorems Catalog CatalogSpec Overflow OverflowSpec Heap HeapPage.
Local Open Scope Z_scope.
Local Open Scope bic_scope.

Section Placing.
Context {S : Type} {P : Pager S} {L : PagerLaws S} {F : PagerFrees S}.

(** The pool behind a heap with the catalog [oc], if it has one: the catalog
    stands for [oA], beside the pages [σ]. *)
Definition backed (oc : option Catalog) (oA : option ACat) (ps : Z) (n : nat) (s : S) (σ : gmap Z bytes) : Prop :=
  match oc, oA with
  | None, None => pg_models ps n s σ
  | Some c, Some A => cat_stands ps n (s, c) σ A
  | _, _ => False
  end.

Lemma backed_opens oc oA : opens (backed oc oA).
Proof.
  intros ps n s σ. destruct oc as [c|], oA as [A|]; cbn [backed]; try done.
  - intros C. destruct (cat_opened ps n _ σ A C) as (τ & Fr & Hc). exists τ. split; [done|]. intros n' s' σ'. apply Hc.
  - intros M. exists ∅. unfold framed. split; [split; [apply map_disjoint_empty_l|by rewrite map_empty_union]|].
    intros n' s' σ' [_ M']. by rewrite map_empty_union in M'.
Qed.

Definition backed_laws oc oA : PagerLaws S := opened_laws _ (backed_opens oc oA).
Definition backed_frees oc oA : @PagerFrees S P (backed_laws oc oA) := opened_frees _ (backed_opens oc oA).

Context (ps : Z).
Hypothesis Hps : 512 <= ps <= 65536.
Abbreviation world := (S * HeapFile)%type.

Lemma backed_weaken oc oA m n s σ : (n <= m)%nat -> backed oc oA ps m s σ -> backed oc oA ps n s σ.
Proof. apply (pg_weaken (H0 := backed_laws oc oA)). Qed.

Lemma backed_size oc oA n s σ : backed oc oA ps n s σ -> pg_page_size s = ps.
Proof. apply (pg_size_law (PagerLaws := backed_laws oc oA)). Qed.

(** ** Heap pages *)

(** The pages of [σ] hold the histories [H], no generation above [k]. *)
Definition pages_ok (k : Z) (σ : gmap Z bytes) (H : gmap Z PageHist) : Prop :=
  forall p h, H !! p = Some h -> is_u64 p /\ exists b, σ !! p = Some b /\ page_ok ps k p b h.

Lemma pages_weaken k k' σ H : k <= k' -> pages_ok k σ H -> pages_ok k' σ H.
Proof. intros Hk Hok p h Hp. destruct (Hok p h Hp) as (Hu & b & Hb & Po). split; [done|]. exists b. split; [done|by eapply page_weaken]. Qed.

Lemma pages_set k σ H p b h : pages_ok k σ H -> is_u64 p -> page_ok ps k p b h -> pages_ok k (<[p := b]> σ) (<[p := h]> H).
Proof.
  intros Hok Hu Po q h'. rewrite lookup_insert_Some. intros [[<- <-]|[Hne Hq]].
  - split; [done|]. exists b. by rewrite lookup_insert_eq.
  - destruct (Hok q h' Hq) as (Hu' & b' & Hb & Po'). split; [done|]. exists b'. by rewrite lookup_insert_ne.
Qed.

Lemma pages_keep k σ H p b h : pages_ok k σ H -> H !! p = Some h -> page_ok ps k p b h -> pages_ok k (<[p := b]> σ) H.
Proof.
  intros Hok Hp Po. rewrite <- (insert_id H p h) by done. apply pages_set; [done| |done]. by apply (Hok p h).
Qed.

(** Looking at a page of the heap. *)
Lemma read_page oc oA k n s σ H c p h : backed oc oA ps n s σ -> pages_ok k σ H -> H !! p = Some h ->
  exists b s', pg_get c p s = (Val b, s') /\ page_ok ps k p b h /\ backed oc oA ps n s' σ.
Proof.
  intros B Hok Hp. destruct (Hok p h Hp) as (_ & b & Hb & Po).
  destruct (pg_get_law (PagerLaws := backed_laws oc oA) ps n s σ c p b B Hb) as (b' & s' & E & Hs & B').
  exists b', s'. ands; [done|by apply (page_same ps k p b); [symmetry|]|done].
Qed.

(** Changing a page of the heap. *)
Lemma change_page {A} (m : st PageError bytes A) (Q : A -> bytes -> Prop) oc oA k n s σ H p h :
  backed oc oA ps n s σ -> pages_ok k σ H -> H !! p = Some h ->
  (forall b, page_ok ps k p b h -> exists x b', m b = (Val x, b') /\ readable ps b' /\ Q x b') ->
  exists x b' s', pg_get_mut p m s = (Val x, s') /\ Q x b' /\ backed oc oA ps n s' (<[p := b']> σ).
Proof.
  intros B Hok Hp Hm. destruct (Hok p h Hp) as (_ & b & Hb & Po).
  destruct (pg_get_mut_law (PagerLaws := backed_laws oc oA) ps n s σ p b B Hb) as (b0 & Hs & Hlaw).
  assert (Po0 : page_ok ps k p b0 h) by (by apply (page_same ps k p b); [symmetry|]).
  destruct (Hm b0 Po0) as (x & b' & E & Hr & HQ). destruct (Hlaw A m) as (s' & E' & B'); [by rewrite E|]. rewrite E in E', B'.
  exists x, b', s'. by ands.
Qed.

(** ** The heap's view of its pages *)

Record placed (k : Z) (n : nat) (w : world) (σ : gmap Z bytes) (oA : option ACat) (H : gmap Z PageHist) : Prop := {
  pl_backed : backed (hp_catalog (snd w)) oA ps n (fst w) σ;
  pl_pages : pages_ok k σ H;
  pl_ring : forall p, p ∈ hp_candidates (snd w) -> is_Some (H !! p);
  pl_distinct : NoDup (hp_pages (snd w));
  pl_listed : forall p, p ∈ hp_pages (snd w) <-> is_Some (H !! p);
  pl_free : forall A b p, oA = Some A -> (b, p) ∈ ac_free A -> is_Some (H !! p);
  pl_directory : forall A p, oA = Some A -> ac_pages A !! p = Some (page_type_u8 Heap) <-> is_Some (H !! p);
  pl_floors : forall A p f, oA = Some A -> ac_floors A !! p = Some f -> 0 <= f <= k
}.

Lemma placed_weaken k k' m n w σ oA H : k <= k' -> (n <= m)%nat -> placed k m w σ oA H -> placed k' n w σ oA H.
Proof.
  intros Hk Hn [B Pg R D Ls Fr Dr Fl]. split; try done; [by eapply backed_weaken|by eapply pages_weaken|].
  intros A p f HA Hf. destruct (Fl A p f HA Hf). lia.
Qed.

(** Other page contents under histories of the same pages. *)
Lemma placed_pages k k' n n' s s' hp σ σ' oA H H' : placed k n (s, hp) σ oA H -> k <= k' -> backed (hp_catalog hp) oA ps n' s' σ' ->
  pages_ok k' σ' H' -> (forall p, is_Some (H' !! p) <-> is_Some (H !! p)) -> placed k' n' (s', hp) σ' oA H'.
Proof.
  intros [B Pg R D Ls Fr Dr Fl] Hk B' Pg' Hd. cbn [fst snd] in *. split; cbn [fst snd]; try done.
  - intros p Hp. apply Hd. auto.
  - intros p. rewrite Hd. auto.
  - intros A b p HA Hp. apply Hd. eauto.
  - intros A p HA. rewrite Hd. auto.
  - intros A p f HA Hf. destruct (Fl A p f HA Hf). lia.
Qed.

Lemma dom_insert_same {V} (H : gmap Z V) p h h' : H !! p = Some h -> forall q, is_Some (<[p := h']> H !! q) <-> is_Some (H !! q).
Proof. intros Hp q. rewrite lookup_insert_is_Some. destruct (decide (p = q)) as [<-|]; [rewrite Hp|]; naive_solver. Qed.

(** The tuple [t] was placed under [l]. *)
Definition inserted (t : bytes) (l : TupleLocator) (σ : gmap Z bytes) (H : gmap Z PageHist) (σ' : gmap Z bytes) (H' : gmap Z PageHist) : Prop :=
  exists h, H' = <[loc_page l := hist_insert l t h]> H /\ (key l ∉ ph_issued h) /\ 0 <= loc_slot l /\
    (H !! loc_page l = Some h \/
     (H !! loc_page l = None /\ σ !! loc_page l = None /\ loc_page l <> pg_fixed_root /\ ph_issued h = ∅ /\ ph_tuples h = ∅)) /\
    forall q, H' !! q = None -> σ' !! q = σ !! q.

(** ** Calls of the catalog *)

Definition with_catalog (oc : option Catalog) (hp : HeapFile) : HeapFile := mkHeap (hp_options hp) oc (hp_candidates hp) (hp_pages hp).

(** A call that leaves the pages of others alone, made if there is a catalog. *)
Lemma catalog_step {X} (m : nat -> st PageError (S * Catalog) X) (Q : X -> ACat -> ACat -> Prop) m0 n s hp σ oA :
  backed (hp_catalog hp) oA ps m0 s σ -> (n <= m0)%nat ->
  (forall c A, cat_stands ps m0 (s, c) σ A ->
     exists x w' A', settles m (s, c) (Val x) w' /\ cat_stands ps n w' σ A' /\ Q x A A') ->
  exists o s' oc oA', settles (fun t => in_catalog (m t)) (s, hp) (Val o) (s', with_catalog oc hp) /\ backed oc oA' ps n s' σ /\
    match oA, oA', o with
    | None, None, None => oc = None
    | Some A, Some A', Some x => Q x A A'
    | _, _, _ => False
    end.
Proof.
  intros B Hn Hm. destruct hp as [op [c|] cs pgs], oA as [A|]; cbn [hp_catalog backed] in B; try done.
  - destruct (Hm c A B) as (x & [s' c'] & A' & [e E] & C & HQ). exists (Some x), s', (Some c'), (Some A'). ands; try done.
    exists e. intros turns Hle. unfold in_catalog. cbn [fst snd hp_catalog]. by rewrite E.
  - exists None, s, None, None. ands; try done; [by apply settles_const|]. cbn. by eapply pg_weaken.
Qed.

Lemma floor_step n s hp σ oA p : backed (hp_catalog hp) oA ps n s σ -> is_u64 p ->
  exists o s' oc, settles (fun _ => in_catalog (page_generation_floor p)) (s, hp) (Val o) (s', with_catalog oc hp) /\
    backed oc oA ps n s' σ /\ forall k, 0 <= k -> (forall A f, oA = Some A -> ac_floors A !! p = Some f -> 0 <= f <= k) -> 0 <= default 0 o <= k.
Proof.
  intros B Hp. destruct (catalog_step (fun _ => page_generation_floor p) (fun x A A' => A' = A /\ x = default 0 (ac_floors A !! p)) n n s hp σ oA)
    as (o & s' & oc & oA' & E & B' & HQ); [done|done| |].
  { intros c A C. destruct (floor_spec ps n (s, c) σ A p C Hp) as (w' & E & C'). exists (default 0 (ac_floors A !! p)), w', A. ands; try done. by apply settles_const. }
  exists o, s', oc. destruct oA as [A|], oA' as [A'|], o as [x|]; try done. destruct HQ as [-> ->]. split; [done|].
  split; [done|]. intros k Hk Hf. destruct (ac_floors A !! p) as [f|] eqn:Ef; cbn; [by apply (Hf A)|lia].
Qed.

Lemma register_step n s hp σ oA p free : backed (hp_catalog hp) oA ps (130 + n) s σ -> is_u64 p -> 0 <= free ->
  exists o s' oc oA', settles (fun _ => in_catalog (register_page p Heap free)) (s, hp) (Val o) (s', with_catalog oc hp) /\ backed oc oA' ps n s' σ /\
    match oA, oA' with
    | Some A, Some A' => exists c, A' = ac_add (EFree c p) (ac_add (EDir p (page_type_u8 Heap)) A)
    | None, None => True
    | _, _ => False
    end.
Proof.
  intros B Hp Hf. destruct (catalog_step (fun _ => register_page p Heap free) (fun _ A A' =>
    exists c, A' = ac_add (EFree c p) (ac_add (EDir p (page_type_u8 Heap)) A)) (130 + n) n s hp σ oA) as (o & s' & oc & oA' & E & B' & HQ); [done|lia| |].
  { intros c A C. destruct (register_spec ps Hps n (s, c) σ A p Heap free C Hp Hf) as (w' & E & C'). eexists tt, w', _.
    ands; [by apply settles_const|done|by eexists]. }
  exists o, s', oc, oA'. ands; try done. by destruct oA, oA', o.
Qed.

(** Catalogs of the same pages and floors whose free-space entries name pages of
    the heap. *)
Definition recatalogued (H : gmap Z PageHist) (oA oA' : option ACat) : Prop :=
  match oA, oA' with
  | None, None => True
  | Some A, Some A' => ac_pages A' = ac_pages A /\ ac_floors A' = ac_floors A /\
      forall c p, (c, p) ∈ ac_free A' -> (c, p) ∈ ac_free A \/ is_Some (H !! p)
  | _, _ => False
  end.

Lemma recatalogued_refl H oA : recatalogued H oA oA.
Proof. destruct oA as [A|]; [|done]. cbn. split; [done|]. split; [done|]. by left. Qed.

Lemma placed_recat k0 n w σ oA oA' H n' s' oc : placed k0 n w σ oA H -> recatalogued H oA oA' -> backed oc oA' ps n' s' σ ->
  placed k0 n' (s', with_catalog oc (snd w)) σ oA' H.
Proof.
  intros [B Pg R D Ls Fr Dr Fl] Hc B'. destruct oA as [A|], oA' as [A'|]; try done; split; cbn [fst snd with_catalog hp_catalog hp_candidates hp_pages]; try done;
    destruct Hc as (E1 & E2 & E3).
  - intros A0 c p [= <-] Hp. destruct (E3 c p Hp) as [Hin|]; [|done]. by eapply Fr.
  - intros A0 p [= <-]. rewrite E1. by apply Dr.
  - intros A0 p f [= <-]. rewrite E2. by apply Fl.
Qed.

Lemma ac_move_free p c c' A : forall b q, (b, q) ∈ ac_free (ac_move p c c' A) -> (b, q) ∈ ac_free A \/ q = p.
Proof. unfold ac_move. destruct (c =? c'); cbn; set_solver. Qed.

Lemma update_step n s hp σ oA H p before after : backed (hp_catalog hp) oA ps (65 + n) s σ -> is_u64 p -> 0 <= before -> 0 <= after -> is_Some (H !! p) ->
  exists o s' oc oA', settles (fun _ => in_catalog (update_free_space p before after)) (s, hp) (Val o) (s', with_catalog oc hp) /\
    backed oc oA' ps n s' σ /\ recatalogued H oA oA'.
Proof.
  intros B Hp Hb Ha Hin. destruct (catalog_step (fun _ => update_free_space p before after) (fun _ A A' => recatalogued H (Some A) (Some A'))
    (65 + n) n s hp σ oA) as (o & s' & oc & oA' & E & B' & HQ); [done|lia| |].
  { intros c A C. destruct (update_free_spec ps Hps n (s, c) σ A p before after C Hp Hb Ha) as (w' & E & C'). eexists tt, w', _. ands; [by apply settles_const|exact C'|].
    unfold recatalogued. ands; [unfold ac_move; by destruct (_ =? _)..|]. intros b q [Hq| ->]%ac_move_free; auto. }
  exists o, s', oc, oA'. ands; try done. by destruct oA, oA', o.
Qed.

Lemma find_step n s hp σ oA needed : backed (hp_catalog hp) oA ps n s σ -> 0 <= needed ->
  exists o s' oc, settles (fun turns => in_catalog (find_page_with_room turns needed)) (s, hp) (Val o) (s', with_catalog oc hp) /\
    backed oc oA ps n s' σ /\ forall p, o = Some (Some p) -> exists A c, oA = Some A /\ (c, p) ∈ ac_free A.
Proof.
  intros B Hn. destruct (catalog_step (fun turns => find_page_with_room turns needed) (fun x A A' => A' = A /\ forall p, x = Some p -> exists c, (c, p) ∈ ac_free A)
    n n s hp σ oA) as (o & s' & oc & oA' & E & B' & HQ); [done|done| |].
  { intros c A C. destruct (find_spec ps Hps n (s, c) σ A needed C Hn) as (o & w' & E & C' & Hf). exists o, w', A. ands; try done.
    intros p ->. destruct Hf as (b & Hb & _). by exists b. }
  exists o, s', oc. destruct oA as [A|], oA' as [A'|], o as [x|]; try done. destruct HQ as [-> HQ]. ands; try done.
  intros p [= ->]. destruct (HQ p eq_refl) as [c Hc]. eauto.
Qed.

Lemma free_space_run k0 n s hp σ oA H p h : backed (hp_catalog hp) oA ps n s σ -> pages_ok k0 σ H -> H !! p = Some h ->
  exists free s', free_space_of p (s, hp) = (Val free, (s', hp)) /\ 0 <= free /\ backed (hp_catalog hp) oA ps n s' σ.
Proof.
  intros B Pg Hp. destruct (read_page _ oA k0 n s σ H Search p h B Pg Hp) as (b & s' & E & Po & B'). pose proof (page_wf _ _ _ _ _ Po) as W.
  exists (free_of b), s'. ands; [|pose proof (wf_gap _ _ W); unfold free_of; lia|done].
  unfold free_space_of. unfold st_bind at 1, in_pool at 1. cbn [fst snd]. rewrite E. unfold st_lift. by rewrite (free_space_eq ps).
Qed.

(** ** The three places *)

Context (t : bytes) (k : Z).
Hypothesis Ht : bytes_ok t.
Hypothesis Hne : t <> [].
Hypothesis Hfits : blen t + SLOT_BYTES <= ps - 72.
Hypothesis Hk : 0 <= k /\ k + 1 < U32.

(** Pages with histories keep them; pages without are not touched. *)
Definition untouched (H : gmap Z PageHist) (σ σ' : gmap Z bytes) : Prop := forall q, H !! q = None -> σ' !! q = σ !! q.

Lemma inserted_at l σ H σ' h : H !! loc_page l = Some h -> key l ∉ ph_issued h -> 0 <= loc_slot l -> untouched H σ σ' ->
  inserted t l σ H σ' (<[loc_page l := hist_insert l t h]> H).
Proof.
  intros Hp Hf Hs Hu. exists h. ands; try done; [by left|]. intros q Hq. apply Hu. by apply lookup_insert_None in Hq as [? _].
Qed.

Lemma inserted_after l σ σ1 H σ' H' : untouched H σ σ1 -> inserted t l σ1 H σ' H' -> inserted t l σ H σ' H'.
Proof.
  intros Hu (h & -> & H2 & H3 & H4 & H5). exists h. ands; try done; [destruct H4 as [?|(E1 & E3 & ?)]; [by left|right; rewrite Hu in E3 by done; tauto]|].
  intros q Hq. rewrite H5 by done. apply Hu. by apply lookup_insert_None in Hq as [? _].
Qed.

Lemma try_candidates_spec n oA cs : forall w σ H, placed k n w σ oA H -> (forall p, p ∈ cs -> is_Some (H !! p)) ->
  exists o s' σ', try_candidates cs t w = (Val o, (s', snd w)) /\
    match o with
    | Some l => exists H', placed (k + 1) n (s', snd w) σ' oA H' /\ inserted t l σ H σ' H'
    | None => placed k n (s', snd w) σ' oA H /\ untouched H σ σ'
    end.
Proof.
  induction cs as [|p cs IH]; intros [s hp] σ H Pl Hcs; cbn [snd].
  { exists None, s, σ. by ands. }
  destruct (Hcs p ltac:(by left)) as [h Hp]. pose proof (pl_backed _ _ _ _ _ _ Pl) as B. cbn [fst snd] in B.
  destruct (change_page (caught (try_page ps t)) (fun r b' => exists o, r = Val o /\ match o with
      | Some l => page_ok ps (k + 1) p b' (hist_insert l t h) /\ (key l ∉ ph_issued h) /\ loc_page l = p /\ 0 <= loc_slot l
      | None => page_ok ps k p b' h
      end) _ oA k n s σ H p h B (pl_pages _ _ _ _ _ _ Pl) Hp) as (r & b' & s1 & E & (o & -> & Ho) & B1).
  { intros b Po. destruct (try_page_spec ps k p b h t Po) as (o & b' & E & Ho); [lia|lia|done..|]. exists (Val o), b'. unfold caught. rewrite E.
    ands; [done| |by eauto]. apply wf_readable. destruct o; [eapply page_wf, Ho|by eapply page_wf]. }
  cbn [try_candidates]. unfold st_bind at 1, gets at 1. cbn [fst]. rewrite (backed_size _ _ _ _ _ B).
  unfold st_bind at 1, caught at 1, in_pool. cbn [fst snd]. rewrite E. destruct o as [l|].
  - destruct Ho as (Po & Hf & <- & Hs). exists (Some l), s1, (<[loc_page l := b']> σ). split; [done|].
    exists (<[loc_page l := hist_insert l t h]> H). split.
    + eapply placed_pages; [exact Pl|lia|done| |by eapply dom_insert_same].
      apply pages_set; [eapply pages_weaken, Pl; lia|by apply (pl_pages _ _ _ _ _ _ Pl (loc_page l) h)|done].
    + apply inserted_at; try done. intros q Hq. rewrite lookup_insert_ne by congruence. done.
  - assert (Pl1 : placed k n (s1, hp) (<[p := b']> σ) oA H).
    { eapply placed_pages; [exact Pl|lia|done|by eapply pages_keep; [apply Pl|..]|done]. }
    assert (Hu : untouched H σ (<[p := b']> σ)) by (intros q Hq; by rewrite lookup_insert_ne by congruence).
    destruct (IH (s1, hp) _ H Pl1 ltac:(intros q Hq; apply Hcs; by right)) as (o & s2 & σ2 & E2 & Ho2). exists o, s2, σ2. split; [done|].
    destruct o as [l|].
    + destruct Ho2 as (H' & Pl2 & Hi). exists H'. split; [done|]. by eapply inserted_after.
    + destruct Ho2 as [Pl2 Hu2]. split; [done|]. intros q Hq. by rewrite Hu2, Hu.
Qed.

(** The first tuple of a new page. *)
Lemma first_tuple p floor b : is_u64 p -> 0 <= floor <= k -> blen b = ps ->
  exists l free b', (init_with_floor p ps floor ;;;
    do l <- Slotted.insert t ;;
    do free_after <- reads free_space ;;
    st_ret (l, free_after)) b = (Val (l, free), b') /\ page_ok ps (k + 1) p b' (hist_insert l t (mkHist floor ∅ ∅)) /\
    loc_page l = p /\ 0 <= loc_slot l /\ 0 <= free.
Proof.
  intros Hp Hf Hb. destruct (page_init ps k p floor b) as (b1 & E1 & Po1 & Hfree & Ha); [lia|done|lia|lia|done|].
  assert (Hneed : insert_needs b1 t = blen t + SLOT_BYTES) by (unfold insert_needs, has_dead; by rewrite Ha).
  destruct (page_insert ps k p b1 _ t Po1) as (l & b2 & E2 & Po2 & _ & Hl & Hs & Hfree2); [lia|lia|done|done|lia|].
  exists l, (free_of b2), b2. ands; try done; [|lia]. unfold st_bind at 1. rewrite E1. unfold st_bind at 1. rewrite E2.
  unfold st_bind at 1, reads at 1. by rewrite (free_space_eq ps) by (by eapply page_wf).
Qed.

(** A new page joins the heap, and the catalog if there is one. *)
Lemma placed_new n s hp σ oA oA' oc H p b h : placed k n (s, hp) σ oA H -> σ !! p = None -> is_u64 p -> page_ok ps (k + 1) p b h ->
  forall n' s', backed oc oA' ps n' s' (<[p := b]> σ) ->
  match oA, oA' with
  | Some A, Some A' => exists c, A' = ac_add (EFree c p) (ac_add (EDir p (page_type_u8 Heap)) A)
  | None, None => True
  | _, _ => False
  end ->
  placed (k + 1) n' (s', remember p (put_pages (hp_pages hp ++ [p]) (with_catalog oc hp))) (<[p := b]> σ) oA' (<[p := h]> H).
Proof.
  intros [B Pg R D Ls Fr Dr Fl] Hp Hu Po n' s' B' Hcat. cbn [fst snd] in *.
  assert (HpH : H !! p = None).
  { destruct (H !! p) as [h0|] eqn:E; [|done]. destruct (Pg p h0 E) as (_ & b0 & Hb & _). congruence. }
  assert (Hin : forall q, is_Some (<[p := h]> H !! q) <-> q = p \/ is_Some (H !! q)).
  { intros q. rewrite lookup_insert_is_Some. destruct (decide (p = q)); naive_solver. }
  split; cbn [fst snd remember put_candidates put_pages with_catalog hp_catalog hp_candidates hp_pages hp_options].
  - done.
  - apply pages_set; [eapply pages_weaken, Pg; lia|done|done].
  - intros q Hq. apply Hin. apply elem_of_take in Hq as (i & Hq & _). apply list_elem_of_lookup_2 in Hq. apply elem_of_cons in Hq as [->|Hq]; auto.
  - apply NoDup_app. ands; [done| |by apply NoDup_singleton]. intros q Hq ->%list_elem_of_singleton. apply Ls in Hq. rewrite HpH in Hq. by destruct Hq.
  - intros q. rewrite Hin, elem_of_app, list_elem_of_singleton, Ls. tauto.
  - intros A' c q -> Hq. destruct oA as [A|]; [|done]. destruct Hcat as [c' ->]. cbn in Hq. apply Hin. apply elem_of_union in Hq as [Hq|Hq].
    + apply elem_of_singleton in Hq as [= -> ->]. by left.
    + right. by eapply Fr.
  - intros A' q ->. destruct oA as [A|]; [|done]. destruct Hcat as [c' ->]. cbn. rewrite lookup_insert_Some, Hin.
    destruct (decide (p = q)) as [->|]; [naive_solver|]. rewrite (Dr A) by done. naive_solver.
  - intros A' q f -> Hf. destruct oA as [A|]; [|done]. destruct Hcat as [c' ->]. cbn in Hf. specialize (Fl A q f eq_refl Hf). lia.
Qed.

Lemma allocate_spec n w σ oA H : placed k (131 + n) w σ oA H ->
  exists l w' σ' oA' H', settles (fun _ => allocate_and_insert t) w (Val l) w' /\ placed (k + 1) n w' σ' oA' H' /\ inserted t l σ H σ' H' /\
    hp_options (snd w') = hp_options (snd w).
Proof.
  destruct w as [s hp]. intros Pl. pose proof (pl_backed _ _ _ _ _ _ Pl) as B. cbn [fst snd] in B.
  destruct (pg_allocate_law (PagerLaws := backed_laws (hp_catalog hp) oA) ps (130 + n) s σ Heap B) as (p & b0 & s1 & E1 & Hp & Hp0 & Hu & Hl0 & B1); [done..|].
  pose proof (pg_fresh_law (PagerFrees := backed_frees (hp_catalog hp) oA) ps (130 + n) s σ Heap p s1 B ltac:(done) ltac:(done) E1) as Hroot.
  destruct (floor_step _ s1 hp _ oA p B1 Hu) as (o & s2 & oc & E2 & B2 & Hfloor). specialize (Hfloor k (proj1 Hk)).
  destruct Hfloor as [Hf0 Hfk]; [intros A f HA Hf; by eapply (pl_floors _ _ _ _ _ _ Pl)|].
  destruct (pg_get_mut_law (PagerLaws := backed_laws oc oA) ps (130 + n) s2 _ p b0 B2 ltac:(by apply lookup_insert_eq)) as (b1 & (Hl1 & _) & Hlaw).
  destruct (first_tuple p (default 0 o) b1) as (l & free & b2 & Em & Po & Hl & Hs & Hfr); [done|done|lia|].
  destruct (Hlaw _ (init_with_floor p ps (default 0 o) ;;; do l <- Slotted.insert t ;; do free_after <- reads free_space ;; st_ret (l, free_after)))
    as (s3 & E3 & B3); [rewrite Em; apply wf_readable; by eapply page_wf|]. rewrite Em in E3, B3. cbn [fst snd] in E3, B3. rewrite insert_insert_eq in B3.
  set (hp1 := put_pages (hp_pages hp ++ [p]) (with_catalog oc hp)).
  destruct (register_step n s3 hp1 _ oA p free B3 Hu Hfr) as (o2 & s4 & oc2 & oA2 & E4 & B4 & Hcat).
  exists l, (s4, remember p (with_catalog oc2 hp1)), (<[p := b2]> σ), oA2, (<[p := hist_insert l t (mkHist (default 0 o) ∅ ∅)]> H). ands; [| | |done].
  - unfold allocate_and_insert. eapply settles_step; [done|]. cbn [fst]. rewrite (backed_size _ _ _ _ _ B).
    eapply settles_step; [unfold in_pool; cbn [fst]; by rewrite E1|]. eapply settles_bind; [exact E2|].
    eapply settles_step; [unfold in_pool; cbn [fst]; by rewrite E3|]. cbv beta iota. eapply settles_step; [done|]. cbv beta.
    eapply settles_bind; [exact E4|]. by apply settles_const.
  - by apply (placed_new (131 + n) s hp σ oA oA2 oc2 H p b2 _ Pl).
  - exists (mkHist (default 0 o) ∅ ∅). rewrite Hl. ands; try done.
    + right. ands; try done. destruct (H !! p) as [h0|] eqn:E; [|done]. destruct (pl_pages _ _ _ _ _ _ Pl p h0 E) as (_ & b & Hb & _). congruence.
    + intros q [_ Hq]%lookup_insert_None. by rewrite lookup_insert_ne.
Qed.

Definition fit_page : st PageError bytes (option (TupleLocator * Z)) :=
  do fits <- reads (fun b => can_fit b (blen t)) ;;
  if fits : bool then
    do l <- Slotted.insert t ;;
    do after <- reads free_space ;;
    st_ret (Some (l, after))
  else st_ret None.

Lemma fit_page_spec p b h : page_ok ps k p b h ->
  exists o b', fit_page b = (Val o, b') /\
    match o with
    | Some (l, after) => page_ok ps (k + 1) p b' (hist_insert l t h) /\ (key l ∉ ph_issued h) /\ loc_page l = p /\ 0 <= loc_slot l /\ 0 <= after
    | None => page_ok ps k p b' h
    end.
Proof.
  intros Po. unfold fit_page. unfold st_bind at 1, reads at 1. rewrite (can_fit_eq ps) by (by eapply page_wf). destruct (_ <=? free_of b) eqn:E; bools.
  - destruct (page_insert ps k p b h t Po) as (l & b' & E1 & Po' & Hf & Hl & Hs & Hfree); [lia|lia|done|done|exact E|].
    exists (Some (l, free_of b')), b'. split; [|ands; try done; rewrite Hfree; unfold insert_needs; lia].
    unfold st_bind at 1. rewrite E1. unfold st_bind at 1, reads at 1. by rewrite (free_space_eq ps) by (by eapply page_wf).
  - by exists None, b.
Qed.

Lemma try_catalog_spec n w σ oA H : placed k (65 + n) w σ oA H ->
  exists o s' oc oA' σ', settles (fun turns => try_catalog turns t) w (Val o) (s', with_catalog oc (snd w)) /\
    match o with
    | Some l => exists H', placed (k + 1) n (s', with_catalog oc (snd w)) σ' oA' H' /\ inserted t l σ H σ' H'
    | None => placed k (65 + n) (s', with_catalog oc (snd w)) σ' oA' H /\ untouched H σ σ'
    end.
Proof.
  destruct w as [s hp]. intros Pl. pose proof (pl_backed _ _ _ _ _ _ Pl) as B. cbn [fst snd] in *. pose proof (blen_nonneg t).
  destruct (find_step (65 + n) s hp σ oA (required_space (blen t)) B) as (o & s1 & oc & E1 & B1 & Hfound); [unfold required_space, SLOT_BYTES; lia|].
  assert (Pl1 : placed k (65 + n) (s1, with_catalog oc hp) σ oA H) by (apply (placed_recat k (65 + n) (s, hp) σ oA oA); [done|apply recatalogued_refl|done]).
  assert (Hstop : (forall p, o <> Some (Some p)) -> settles (fun turns => try_catalog turns t) (s, hp) (Val None) (s1, with_catalog oc hp)).
  { intros Ho. unfold try_catalog. eapply settles_bind; [exact E1|]. destruct o as [[p|]|]; [by destruct (Ho p)|by apply settles_const..]. }
  destruct o as [[p|]|]; [|exists None, s1, oc, oA, σ; ands; [by apply Hstop|done|done]..].
  destruct (Hfound p eq_refl) as (A & c & -> & Hc). destruct (pl_free _ _ _ _ _ _ Pl A c p eq_refl Hc) as [h Hh].
  destruct (pl_pages _ _ _ _ _ _ Pl p h Hh) as (Hu & _).
  destruct (free_space_run k _ s1 (with_catalog oc hp) σ _ H p h B1 (pl_pages _ _ _ _ _ _ Pl) Hh) as (before & s2 & E2 & Hb & B2).
  destruct (change_page fit_page (fun o b' => match o with
    | Some (l, after) => page_ok ps (k + 1) p b' (hist_insert l t h) /\ (key l ∉ ph_issued h) /\ loc_page l = p /\ 0 <= loc_slot l /\ 0 <= after
    | None => page_ok ps k p b' h end) _ _ k _ s2 σ H p h B2 (pl_pages _ _ _ _ _ _ Pl) Hh) as (r & b' & s3 & E3 & Hr & B3).
  { intros b Po. destruct (fit_page_spec p b h Po) as (r & b' & E & Hr). exists r, b'. ands; [done| |done]. apply wf_readable.
    destruct r as [[l a]|]; [eapply page_wf, Hr|by eapply page_wf]. }
  assert (Hunt : untouched H σ (<[p := b']> σ)) by (intros q Hq; by rewrite lookup_insert_ne by congruence).
  assert (Hrun : forall r' sf, settles (fun _ => match r with
      | Some (l, after) => in_catalog (update_free_space p before after) ;;; st_ret (Some l)
      | None => st_ret None end) (s3, with_catalog oc hp) r' sf -> settles (fun turns => try_catalog turns t) (s, hp) r' sf).
  { intros r' sf Hs. unfold try_catalog. eapply settles_bind; [exact E1|]. cbv beta iota. eapply settles_step; [exact E2|]. cbv beta.
    eapply settles_step; [|exact Hs]. unfold in_pool. cbn [fst snd]. fold fit_page. by rewrite E3. }
  destruct r as [[l after]|].
  - destruct Hr as (Po & Hf & <- & Hs & Ha). set (H' := <[loc_page l := hist_insert l t h]> H).
    destruct (update_step n s3 (with_catalog oc hp) _ _ H' (loc_page l) before after B3 Hu Hb Ha) as (o4 & s4 & oc4 & oA4 & E4 & B4 & Hre); [by eexists; apply lookup_insert_eq|].
    exists (Some l), s4, oc4, oA4, (<[loc_page l := b']> σ). split; [apply Hrun; eapply settles_bind; [exact E4|by apply settles_const]|].
    exists H'. split; [|by apply inserted_at].
    apply (placed_recat (k + 1) (65 + n) (s3, with_catalog oc hp) _ (Some A) oA4); [|done|done].
    eapply placed_pages; [exact Pl1|lia|exact B3| |by eapply dom_insert_same]. apply pages_set; [eapply pages_weaken, Pl; lia|done|done].
  - exists None, s3, oc, (Some A), (<[p := b']> σ). ands; [by apply Hrun, settles_const| |done].
    eapply placed_pages; [exact Pl1|lia|exact B3|by eapply pages_keep; [apply Pl|..]|done].
Qed.

(** The whole search for a place. *)
Lemma insert_tuple_spec n w σ oA H : placed k (131 + n) w σ oA H ->
  exists l w' σ' oA' H', settles (fun turns => insert_tuple turns t) w (Val l) w' /\ placed (k + 1) n w' σ' oA' H' /\ inserted t l σ H σ' H' /\
    hp_options (snd w') = hp_options (snd w).
Proof.
  intros Pl. destruct (try_catalog_spec (66 + n) w σ oA H Pl) as (o & s1 & oc & oA1 & σ1 & E1 & Ho). unfold insert_tuple. destruct o as [l|].
  - destruct Ho as (H' & Pl' & Hi). exists l, (s1, with_catalog oc (snd w)), σ1, oA1, H'. ands; [|eapply placed_weaken, Pl'; lia|done|done].
    eapply settles_bind; [exact E1|]. by apply settles_const.
  - destruct Ho as [Pl1 Hu1]. set (w1 := (s1, with_catalog oc (snd w))) in *.
    destruct (try_candidates_spec (131 + n) oA1 (hp_candidates (snd w1)) w1 σ1 H Pl1 (pl_ring _ _ _ _ _ _ Pl1)) as (o & s2 & σ2 & E2 & Ho2).
    assert (Hrun : forall r sf, settles (fun _ => match o with Some l => st_ret l | None => allocate_and_insert t end) (s2, snd w1) r sf ->
      settles (fun turns => do placed <- try_catalog turns t ;; match placed with Some l => st_ret l | None =>
        do candidates <- gets (fun w => hp_candidates (snd w)) ;; do placed <- try_candidates candidates t ;;
        match placed with Some l => st_ret l | None => allocate_and_insert t end end) w r sf).
    { intros r sf Hs. eapply settles_bind; [exact E1|]. cbv beta iota. eapply settles_step; [done|]. cbv beta. eapply settles_step; [exact E2|exact Hs]. }
    destruct o as [l|].
    + destruct Ho2 as (H' & Pl2 & Hi). exists l, (s2, snd w1), σ2, oA1, H'.
      ands; [by apply Hrun, settles_const|eapply placed_weaken, Pl2; lia|by eapply inserted_after|done].
    + destruct Ho2 as [Pl2 Hu2]. destruct (allocate_spec n (s2, snd w1) σ2 oA1 H Pl2) as (l & w3 & σ3 & oA3 & H3 & E3 & Pl3 & Hi & Ho).
      exists l, w3, σ3, oA3, H3. ands; [by apply Hrun|done| |done]. eapply inserted_after; [|exact Hi]. intros q Hq. by rewrite Hu2, Hu1.
Qed.
End Placing.
