(* ===== verification/HeapValues.v ===== *)
(** * The heap file: values

    Every live locator names a value: the bytes of a tuple on a heap page, or a
    chain of overflow pages that no other locator shares.  The calls of the heap
    file act on that map from locators to values. *)

From stdpp Require Import base tactics list numbers gmap countable.
From Stdlib Require Import ZArith Lia.
From S2P Require Import Prelude Turns Bytes Errors PageFormat Slotted SlottedSpec SlottedRefine SlottedTrace Pager.
From S2P Require Import BTreeNodeSpec BTree BTreeTheorems Catalog CatalogSpec Overflow OverflowSpec Heap HeapPage HeapSpec.
Local Open Scope Z_scope.
Local Open Scope bic_scope.

Lemma locator_eq l l' : loc_page l = loc_page l' -> key l = key l' -> l = l'.
Proof. destruct l, l'. unfold key. cbn. by intros -> [= -> ->]. Qed.

(** ** Tuples *)

Lemma decode_inline v : decode_tuple (TAG_INLINE :: v) = Val (Inline v).
Proof. done. Qed.

Lemma decode_ref hd len : is_u64 hd -> is_u64 len -> decode_tuple (encode_overflow_ref hd len) = Val (OverflowRef hd len).
Proof.
  intros Hh Hl. unfold encode_overflow_ref. set (b := TAG_OVERFLOW :: le_enc 8 hd ++ le_enc 8 len).
  assert (Hb : blen b = 17) by (unfold b, blen; cbn [length]; rewrite length_app, !length_le_enc; lia).
  assert (E1 : sub b 1 8 = le_enc 8 hd) by (unfold sub, b; change (Z.to_nat 1) with 1%nat; rewrite skipn_cons, drop_0, take_app_length' by (by rewrite length_le_enc); done).
  assert (E2 : sub b 9 8 = le_enc 8 len).
  { unfold sub, b. change (Z.to_nat 9) with (1 + 8)%nat. cbn [Nat.add]. rewrite skipn_cons, drop_app_length' by (by rewrite length_le_enc). rewrite take_ge; [done|by rewrite length_le_enc]. }
  unfold decode_tuple. rewrite Hb. change (head b) with (Some TAG_OVERFLOW). cbv beta iota zeta.
  change ((TAG_OVERFLOW =? TAG_INLINE)) with false. change ((TAG_OVERFLOW =? TAG_OVERFLOW) && (OVERFLOW_REF_BYTES <=? 17)) with true. cbv iota.
  rewrite !slice_in by lia. change (9 - 1) with 8. change (17 - 9) with 8. rewrite E1, E2. cbn [res_bind]. by rewrite !le_dec_u64.
Qed.

Definition tuple_at (H : gmap Z PageHist) (l : TupleLocator) : option bytes := H !! loc_page l ≫= fun h => ph_tuples h !! key l.
Definition issued (H : gmap Z PageHist) (l : TupleLocator) : Prop := exists h, H !! loc_page l = Some h /\ key l ∈ ph_issued h.

Lemma tuple_issued ps k σ H l t : pages_ok ps k σ H -> tuple_at H l = Some t -> issued H l /\ 0 <= loc_slot l /\ exists h, H !! loc_page l = Some h /\ ph_tuples h !! key l = Some t.
Proof.
  intros Pg (h & Hp & Ht)%bind_Some. destruct (Pg _ _ Hp) as (_ & b & _ & [Hi _ _]). pose proof (hi_sub _ _ _ _ _ _ Hi _ _ Ht) as Hin.
  split; [by exists h|]. split; [|by exists h]. by apply (hi_issued _ _ _ _ _ _ Hi) in Hin as [? _].
Qed.

Section Values.
Context {S : Type} {P : Pager S} {L : PagerLaws S} {F : PagerFrees S} (ps : Z).
Hypothesis Hps : 512 <= ps <= 65536.
Context (o : HeapOptions).
Hypothesis Hinline : 0 <= inline_limit o /\ inline_limit o + 1 + SLOT_BYTES <= ps - 72.
Abbreviation world := (S * HeapFile)%type.
Abbreviation links := (list (Z * bytes)).

(** The tuple [t] stands for the value [v], its bytes in the chain [c] when it
    is above the limit. *)
Definition stored (σ : gmap Z bytes) (t v : bytes) (c : links) : Prop :=
  if blen v <=? inline_limit o then t = TAG_INLINE :: v /\ c = []
  else blen v < U64 /\ exists hd, t = encode_overflow_ref hd (blen v) /\ is_u64 hd /\ chain ps σ hd c /\ payload c = v /\ NoDup c.*1.

Lemma stored_frame σ σ' t v c : (forall p, p ∈ c.*1 -> σ' !! p = σ !! p) -> stored σ t v c -> stored σ' t v c.
Proof.
  intros Hf. unfold stored. destruct (_ <=? _); [done|]. intros (Hv & hd & H1 & H2 & H3 & H4 & H5). split; [done|]. exists hd. ands; try done. by eapply chain_frame.
Qed.

Lemma stored_held σ t v c : stored σ t v c -> forall p, p ∈ c.*1 -> is_Some (σ !! p).
Proof.
  unfold stored. destruct (_ <=? _); [intros [_ ->] p ?%not_elem_of_nil; done|]. intros (_ & hd & _ & _ & Hc & _) p Hp.
  destruct (chain_held ps σ c hd Hc p Hp) as (b & Hb & _). by eexists.
Qed.

Lemma stored_length σ t v c σ' t' v' c' : stored σ t v c -> stored σ' t' v' c' -> blen v = blen v' -> blen t = blen t'.
Proof.
  unfold stored. intros H H' E. rewrite <- E in H'. destruct (_ <=? _).
  - destruct H as [-> _], H' as [-> _]. unfold blen in *. cbn [length]. lia.
  - destruct H as (_ & hd & -> & _), H' as (_ & hd' & -> & _). unfold encode_overflow_ref, blen. cbn [length]. by rewrite !length_app, !length_le_enc.
Qed.

(** The pages of a chain nobody else uses. *)
Definition loose (c : links) (H : gmap Z PageHist) (G : gmap TupleLocator (bytes * links)) : Prop :=
  forall p, p ∈ c.*1 -> H !! p = None /\ p <> pg_fixed_root /\ forall l v c', G !! l = Some (v, c') -> p ∉ c'.*1.

(** The heap [w] holds the values of [G]. *)
Record holds (k : Z) (n : nat) (w : world) (σ : gmap Z bytes) (oA : option ACat) (H : gmap Z PageHist) (G : gmap TupleLocator (bytes * links)) : Prop := {
  hh_placed : placed ps k n w σ oA H;
  hh_options : hp_options (snd w) = o;
  hh_entries : forall l, match tuple_at H l, G !! l with Some t, Some (v, c) => stored σ t v c | None, None => True | _, _ => False end;
  hh_loose : forall l v c, G !! l = Some (v, c) -> loose c H (base.delete l G)
}.

Lemma holds_weaken k k' m n w σ oA H G : k <= k' -> (n <= m)%nat -> holds k m w σ oA H G -> holds k' n w σ oA H G.
Proof. intros Hk Hn [Pl Ho He Hl]. split; try done. by eapply placed_weaken. Qed.

(** One entry changes, and the pages of the other chains stay. *)
Lemma holds_set k n w σ oA H G k' n' w' σ' oA' H' l x :
  holds k n w σ oA H G -> placed ps k' n' w' σ' oA' H' -> hp_options (snd w') = o ->
  (forall l', tuple_at H' l' = if decide (l' = l) then fst <$> x else tuple_at H l') ->
  (forall l' v c, base.delete l G !! l' = Some (v, c) -> forall p, p ∈ c.*1 -> σ' !! p = σ !! p /\ H' !! p = None) ->
  (forall t v c, x = Some (t, (v, c)) -> stored σ' t v c /\ loose c H' (base.delete l G)) ->
  holds k' n' w' σ' oA' H' (match x with Some (_, e) => <[l := e]> (base.delete l G) | None => base.delete l G end).
Proof.
  intros [Pl Ho He Hl] Pl' Ho' Ht Hf Hx. set (G' := match x with Some _ => _ | None => _ end).
  assert (Hne : forall l', l' <> l -> G' !! l' = G !! l').
  { intros l' Hn. unfold G'. destruct x as [[t e]|]; rewrite ?lookup_insert_ne by done; by apply lookup_delete_ne. }
  assert (Heq : G' !! l = snd <$> x) by (unfold G'; destruct x as [[t e]|]; [by rewrite lookup_insert_eq|by rewrite lookup_delete_eq]).
  assert (Hd : forall l', l' <> l -> base.delete l G !! l' = G !! l') by (intros l' Hn; by apply lookup_delete_ne).
  split; try done.
  - intros l'. rewrite Ht. destruct (decide (l' = l)) as [->|Hn].
    + rewrite Heq. destruct x as [[t [v c]]|]; [|done]. cbn. by apply (Hx t v c).
    + rewrite Hne by done. specialize (He l'). destruct (tuple_at H l'), (G !! l') as [[v c]|] eqn:E; try done.
      eapply stored_frame; [|exact He]. intros p Hp. apply (Hf l' v c); [by rewrite Hd|done].
  - intros l' v c Hl' p Hp. destruct (decide (l' = l)) as [->|Hn].
    + rewrite Heq in Hl'. destruct x as [[t e]|]; [|done]. cbn in Hl'. injection Hl' as ->. destruct (Hx t v c eq_refl) as [_ Hlo].
      destruct (Hlo p Hp) as (H1 & H2 & H3). ands; try done. intros l2 v2 c2 [Hn2 H4]%lookup_delete_Some.
      apply (H3 l2 v2). rewrite Hd by done. by rewrite Hne in H4 by done.
    + rewrite Hne in Hl' by done. destruct (Hl l' v c Hl' p Hp) as (_ & H2 & H3). destruct (Hf l' v c ltac:(by rewrite Hd) p Hp) as [_ H1].
      ands; try done. intros l2 v2 c2 [Hn2 H4]%lookup_delete_Some. destruct (decide (l2 = l)) as [->|Hn3].
      * rewrite Heq in H4. destruct x as [[t e]|]; [|done]. cbn in H4. injection H4 as ->. destruct (Hx t v2 c2 eq_refl) as [_ Hlo].
        intros Hp2. destruct (Hlo p Hp2) as (_ & _ & H5). apply (H5 l' v c); [by rewrite Hd|done].
      * apply (H3 l2 v2). rewrite lookup_delete_ne by done. by rewrite Hne in H4.
Qed.

(** ** Writing the bytes of a value *)

Definition value_pages (v : bytes) : nat := Z.to_nat (pages_required (blen v) ps).
Definition value_ok (v : bytes) : Prop := v <> [] /\ bytes_ok v /\ blen v < U64.

Lemma make_tuple_spec oc oA n s hp σ v : backed oc oA ps (value_pages v + n) s σ -> hp_options hp = o -> value_ok v ->
  exists t s' σ' c, make_tuple v (s, hp) = (Val t, (s', hp)) /\ backed oc oA ps n s' σ' /\ stored σ' t v c /\ extended σ σ' (rev c.*1) /\
    Forall (fun p => p <> pg_fixed_root) c.*1 /\ bytes_ok t /\ t <> [] /\ blen t + SLOT_BYTES <= ps - 72.
Proof.
  intros B Ho (Hv & Hb & Hl). unfold make_tuple, stored. unfold st_bind at 1, gets at 1. cbn [snd]. rewrite Ho, Z.ltb_antisym.
  destruct (blen v <=? inline_limit o) eqn:E; bools; cbn [negb].
  - exists (TAG_INLINE :: v), s, σ, []. ands; [done|by eapply backed_weaken, B; lia|done|done|apply extended_refl|apply Forall_nil_2| |done|].
    + constructor; [widths; unfold TAG_INLINE; lia|done].
    + unfold blen in *. cbn [length]. lia.
  - destruct (write_chain_spec (L := backed_laws oc oA) ps Hps (fun p => p = pg_fixed_root)
      (fun n s σ t p s' M H1 H2 E => pg_fresh_law (PagerFrees := backed_frees oc oA) ps n s σ t p s' M H1 H2 E) n s σ v Hv B)
      as (hd & s' & σ' & c & E1 & B' & Hc & Hpay & Hu & Hnd & Hex & Hav & _).
    exists (encode_overflow_ref hd (blen v)), s', σ', c. ands; [|done|done|by exists hd|done|done| |done|].
    + unfold st_bind at 1, in_pool at 1. cbn [fst snd]. by rewrite E1.
    + unfold encode_overflow_ref. constructor; [widths; unfold TAG_OVERFLOW; lia|]. apply Forall_app. split; apply le_enc_ok.
    + unfold encode_overflow_ref, blen, SLOT_BYTES. cbn [length]. rewrite length_app, !length_le_enc. lia.
Qed.

(** Pages added beside those in use. *)
Lemma holds_extend k n w σ oA H G n' s' σ' new : holds k n w σ oA H G -> extended σ σ' new -> backed (hp_catalog (snd w)) oA ps n' s' σ' ->
  holds k n' (s', snd w) σ' oA H G.
Proof.
  intros [Pl Ho He Hl] [Hsub _ _] B. destruct w as [s hp]. cbn [snd] in *. split; cbn [snd]; try done.
  - eapply placed_pages; [exact Pl|lia|done| |done]. intros p h Hp. destruct (pl_pages _ _ _ _ _ _ _ Pl p h Hp) as (Hu & b & Hb & Po).
    split; [done|]. exists b. split; [|done]. by eapply lookup_weaken.
  - intros l. specialize (He l). destruct (tuple_at H l), (G !! l) as [[v c]|]; try done.
    eapply stored_frame; [|exact He]. intros p Hp. destruct (stored_held _ _ _ _ He p Hp) as [b Hb]. rewrite Hb. by eapply lookup_weaken.
Qed.

(** New pages are loose. *)
Lemma fresh_loose k n w σ σ' oA H G c : holds k n w σ oA H G -> extended σ σ' (rev c.*1) -> Forall (fun p => p <> pg_fixed_root) c.*1 -> loose c H G.
Proof.
  intros [Pl _ He _] [_ Hfresh _] Hroot p Hp. assert (Hn : σ !! p = None) by (apply Hfresh; by apply list_elem_of_In, in_rev; rewrite rev_involutive; apply list_elem_of_In). ands.
  - destruct (H !! p) as [h|] eqn:E; [|done]. destruct (pl_pages _ _ _ _ _ _ _ Pl p h E) as (_ & b & Hb & _). congruence.
  - exact (proj1 (Forall_forall _ _) Hroot p (proj1 (list_elem_of_In _ _) Hp)).
  - intros l v c' Hl Hp'. specialize (He l). rewrite Hl in He. destruct (tuple_at H l); [|done].
    destruct (stored_held _ _ _ _ He p Hp') as [b Hb]. congruence.
Qed.

Lemma loose_sub c H G G' : G' ⊆ G -> loose c H G -> loose c H G'.
Proof. intros Hs Hl p Hp. destruct (Hl p Hp) as (H1 & H2 & H3). ands; try done. intros l v c' Hc. eapply H3. by eapply lookup_weaken. Qed.

(** ** Placing it *)

Lemma tuple_at_inserted t l σ H σ' H' : inserted t l σ H σ' H' -> forall l', tuple_at H' l' = if decide (l' = l) then Some t else tuple_at H l'.
Proof.
  intros (h & -> & _ & _ & Hor & _) l'. unfold tuple_at. destruct (decide (loc_page l' = loc_page l)) as [Ep|Hn].
  - rewrite Ep, lookup_insert_eq. cbn [mbind option_bind hist_insert ph_tuples]. destruct (decide (l' = l)) as [->|Hl]; [by rewrite lookup_insert_eq|].
    rewrite lookup_insert_ne by (intros E; apply Hl; by apply locator_eq). destruct Hor as [->|(-> & _ & _ & _ & Et)]; [done|]. by rewrite Et.
  - rewrite lookup_insert_ne by congruence. by rewrite decide_False by congruence.
Qed.

Lemma issued_inserted t l σ H σ' H' : inserted t l σ H σ' H' -> (forall l', issued H' l' <-> l' = l \/ issued H l') /\ ~ issued H l.
Proof.
  intros (h & -> & Hf & _ & Hor & _). assert (Hh : forall h', H !! loc_page l = Some h' -> h' = h).
  { intros h' Hh'. destruct Hor as [?|(? & _)]; congruence. }
  split; [|intros (h' & Hp & Hin); apply Hh in Hp; by subst]. intros l'. unfold issued. destruct (decide (loc_page l' = loc_page l)) as [Ep|Hn].
  - rewrite Ep, lookup_insert_eq. split.
    + intros (h' & [= <-] & Hin). cbn in Hin. apply elem_of_union in Hin as [Hin|Hin]; [left; apply locator_eq; [done|by apply elem_of_singleton in Hin]|].
      right. exists h. split; [|done]. destruct Hor as [?|(_ & _ & _ & Ei & _)]; [done|]. rewrite Ei in Hin. by apply elem_of_empty in Hin.
    + intros Hl'. exists (hist_insert l t h). split; [done|]. cbn. apply elem_of_union. destruct Hl' as [->|(h' & Hp & Hin)]; [left; by apply elem_of_singleton|].
      right. apply Hh in Hp. by subst.
  - rewrite lookup_insert_ne by congruence. naive_solver.
Qed.

Lemma inserted_frame t l σ H σ' H' p : inserted t l σ H σ' H' -> H !! p = None -> is_Some (σ !! p) -> σ' !! p = σ !! p /\ H' !! p = None.
Proof.
  intros (h & -> & _ & _ & Hor & Hf) Hp [b Hb]. assert (Hn : <[loc_page l := hist_insert l t h]> H !! p = None).
  { rewrite lookup_insert_ne; [done|]. intros <-. destruct Hor as [?|(_ & ? & _)]; congruence. }
  split; [by apply Hf|done].
Qed.

(** Placing the tuple of a value whose bytes are written. *)
Lemma place_value k n w σ oA H G t v c : holds k (131 + n) w σ oA H G -> 0 <= k /\ k + 1 < U32 ->
  stored σ t v c -> loose c H G -> bytes_ok t -> t <> [] -> blen t + SLOT_BYTES <= ps - 72 ->
  exists l w' σ' oA' H', settles (fun turns => insert_tuple turns t) w (Val l) w' /\ holds (k + 1) n w' σ' oA' H' (<[l := (v, c)]> G) /\
    inserted t l σ H σ' H' /\ G !! l = None.
Proof.
  intros Hh Hk Hst Hlo Ht Hne Hfit.
  destruct (insert_tuple_spec ps Hps t k Ht Hne Hfit Hk n w σ oA H (hh_placed _ _ _ _ _ _ _ Hh)) as (l & w' & σ' & oA' & H' & E & Pl' & Hi & Ho).
  assert (Hg : G !! l = None).
  { pose proof (hh_entries _ _ _ _ _ _ _ Hh l) as He. destruct (tuple_at H l) as [t0|] eqn:Et; [|by destruct (G !! l)].
    apply (tuple_issued ps k σ) in Et as [Hi0 _]; [|apply Hh]. by apply issued_inserted in Hi as [_ []]. }
  exists l, w', σ', oA', H'. ands; [done| |done|done]. rewrite <- (delete_id G l Hg) at 1.
  apply (holds_set k (131 + n) w σ oA H G _ _ _ _ _ _ l (Some (t, (v, c)))); [done|done|by rewrite Ho; apply Hh|by apply (tuple_at_inserted t l σ H σ')| |].
  - intros l' v' c' [_ Hl']%lookup_delete_Some p Hp. pose proof (hh_entries _ _ _ _ _ _ _ Hh l') as He. rewrite Hl' in He.
    destruct (tuple_at H l'); [|done]. eapply inserted_frame; [exact Hi|by apply (hh_loose _ _ _ _ _ _ _ Hh l' v' c')|by eapply stored_held].
  - intros t' v' c' [= <- <- <-]. assert (Hpg : forall p, p ∈ c.*1 -> σ' !! p = σ !! p /\ H' !! p = None).
    { intros p Hp. eapply inserted_frame; [exact Hi|by apply Hlo|by eapply stored_held]. }
    split; [eapply stored_frame, Hst; intros p Hp; by apply Hpg|]. intros p Hp. destruct (Hlo p Hp) as (_ & H2 & H3). ands; [by apply Hpg|done|].
    intros l' v' c' [_ Hl']%lookup_delete_Some. by eapply H3.
Qed.

Lemma heap_insert_spec k n w σ oA H G v : holds k (value_pages v + (131 + n)) w σ oA H G -> 0 <= k /\ k + 1 < U32 -> value_ok v ->
  exists l w' σ' oA' H' c, settles (fun turns => heap_insert turns v) w (Val l) w' /\ holds (k + 1) n w' σ' oA' H' (<[l := (v, c)]> G) /\
    (forall l', issued H' l' <-> l' = l \/ issued H l') /\ ~ issued H l /\ G !! l = None.
Proof.
  intros Hh Hk Hv. destruct w as [s hp]. pose proof (pl_backed _ _ _ _ _ _ _ (hh_placed _ _ _ _ _ _ _ Hh)) as B. cbn [fst snd] in B.
  destruct (make_tuple_spec _ _ _ _ hp _ v B (hh_options _ _ _ _ _ _ _ Hh) Hv) as (t & s1 & σ1 & c & E1 & B1 & Hst & Hex & Hroot & Ht & Hne & Hfit).
  pose proof (holds_extend _ _ _ _ _ _ _ _ s1 σ1 _ Hh Hex B1) as Hh1. pose proof (fresh_loose _ _ _ _ _ _ _ _ _ Hh Hex Hroot) as Hlo.
  destruct (place_value k n _ σ1 oA H G t v c Hh1 Hk Hst Hlo Ht Hne Hfit) as (l & w' & σ' & oA' & H' & E2 & Hh2 & Hi & Hg).
  destruct (issued_inserted _ _ _ _ _ _ Hi) as [Hiss Hnew]. exists l, w', σ', oA', H', c. ands; try done.
  unfold heap_insert. rewrite bool_decide_false by (apply Hv). eapply settles_step; [exact E1|exact E2].
Qed.

(** ** Reading *)

Lemma decode_stored σ t v c : stored σ t v c ->
  if blen v <=? inline_limit o then decode_tuple t = Val (Inline v)
  else exists hd, decode_tuple t = Val (OverflowRef hd (blen v)) /\ chain ps σ hd c /\ payload c = v /\ NoDup c.*1 /\ blen v < U64.
Proof.
  unfold stored. destruct (_ <=? _); [by intros [-> _]|]. intros (Hv & hd & -> & Hu & Hc & Hp & Hnd). exists hd. ands; try done.
  apply decode_ref; [done|]. pose proof (blen_nonneg v). split; [done|]. done.
Qed.

(** The pool has moved on; its pages have not. *)
Lemma holds_pool k n n' s s' hp σ oA H G : holds k n (s, hp) σ oA H G -> backed (hp_catalog hp) oA ps n' s' σ -> holds k n' (s', hp) σ oA H G.
Proof. intros [Pl Ho He Hl] B. split; try done. eapply placed_pages; [exact Pl|lia|done|apply Pl|done]. Qed.

Lemma in_pool_settles {A} (m : nat -> st PageError S A) s hp r s' : settles m s r s' -> settles (fun t => in_pool (m t)) (s, hp) r (s', hp).
Proof. intros [e E]. exists e. intros t Ht. unfold in_pool. cbn [fst snd]. by rewrite E. Qed.

Lemma tuple_of_spec k n s hp σ oA H G l : holds k n (s, hp) σ oA H G -> issued H l ->
  exists s', holds k n (s', hp) σ oA H G /\
    match G !! l with
    | Some (v, c) => exists t, stored σ t v c /\ tuple_at H l = Some t /\ tuple_of l (s, hp) = (decode_tuple t, (s', hp))
    | None => exists e, tuple_of l (s, hp) = (Err e, (s', hp)) /\ gone e = true
    end.
Proof.
  intros Hh (h & Hp & Hin). pose proof (hh_placed _ _ _ _ _ _ _ Hh) as Pl. pose proof (pl_pages _ _ _ _ _ _ _ Pl) as Pg.
  destruct (read_page ps _ oA k n s σ H Search (loc_page l) h (pl_backed _ _ _ _ _ _ _ Pl) Pg Hp) as (b & s' & E & Po & B'). cbn [snd] in B'.
  assert (Hs : 0 <= loc_slot l) by (by apply (hi_issued _ _ _ _ _ _ (po_hinv _ _ _ _ _ Po)) in Hin as [? _]).
  exists s'. split.
  { by eapply holds_pool. }
  pose proof (hh_entries _ _ _ _ _ _ _ Hh l) as He. pose proof (page_get ps k _ b h l Po Hs) as Hg.
  assert (Hat : tuple_at H l = ph_tuples h !! key l) by (unfold tuple_at; by rewrite Hp). rewrite Hat in *.
  assert (Hrun : forall r, Slotted.get b l = r -> tuple_of l (s, hp) = (let! t := r in decode_tuple t, (s', hp))).
  { intros r <-. unfold tuple_of. unfold st_bind at 1, in_pool at 1. cbn [fst snd]. rewrite E. unfold st_bind, st_lift. by destruct (Slotted.get b l). }
  destruct (ph_tuples h !! key l) as [t|], (G !! l) as [[v c]|]; try done.
  - exists t. ands; try done. by apply (Hrun (Val t)).
  - destruct Hg as (e & Ee & Hgone). exists e. split; [|done]. by apply (Hrun (Err e)).
Qed.

Variable buffers : nat -> Z.
Hypothesis Hbuffers : forall i, 0 < buffers i.

(** What the calls that read answer for the value [v]. *)
Definition whole (l : TupleLocator) (v : bytes) : pres bytes :=
  if (inline_limit o <? blen v) && (max_value_bytes o <? blen v) then Err (ValueTooLarge (loc_page l) (blen v) (max_value_bytes o)) else Val v.
Definition storage (v : bytes) : Z * Z :=
  (blen v, if blen v <=? inline_limit o then 0 else div_ceil (blen v) (payload_capacity ps)).

(** A read: the same answer from some number of turns on, and the heap as before. *)
Definition reads_as {A} (m : nat -> st PageError world A) (k : Z) (n : nat) (w : world) (σ : gmap Z bytes) (oA : option ACat)
    (H : gmap Z PageHist) (G : gmap TupleLocator (bytes * links)) (l : TupleLocator) (answer : bytes -> pres A) : Prop :=
  exists r s', settles m w r (s', snd w) /\ holds k n (s', snd w) σ oA H G /\
    match G !! l with Some (v, _) => r = answer v | None => exists e, r = Err e /\ gone e = true end.

(** Every read starts with the tuple. *)
Lemma reads_tuple {A} (f : nat -> Tuple -> st PageError world A) k n w σ oA H G l answer : holds k n w σ oA H G -> issued H l ->
  (forall s v c x, holds k n (s, snd w) σ oA H G -> G !! l = Some (v, c) ->
     (if blen v <=? inline_limit o then x = Inline v
      else exists hd, x = OverflowRef hd (blen v) /\ chain ps σ hd c /\ payload c = v /\ NoDup c.*1 /\ blen v < U64) ->
     exists s', settles (fun t => f t x) (s, snd w) (answer v) (s', snd w) /\ holds k n (s', snd w) σ oA H G) ->
  reads_as (fun t => do x <- tuple_of l ;; f t x) k n w σ oA H G l answer.
Proof.
  destruct w as [s hp]. cbn [snd]. intros Hh Hi Hf. destruct (tuple_of_spec k n s hp σ oA H G l Hh Hi) as (s1 & Hh1 & Ht). unfold reads_as.
  destruct (G !! l) as [[v c]|] eqn:El.
  - destruct Ht as (t & Hst & _ & E). apply decode_stored in Hst.
    assert (Hx : exists x, decode_tuple t = Val x /\ if blen v <=? inline_limit o then x = Inline v
      else exists hd, x = OverflowRef hd (blen v) /\ chain ps σ hd c /\ payload c = v /\ NoDup c.*1 /\ blen v < U64).
    { destruct (_ <=? _); [by eexists|]. destruct Hst as (hd & H1 & H2). eexists. split; [exact H1|]. by exists hd. }
    destruct Hx as (x & Ex & Hx). rewrite Ex in E. destruct (Hf s1 v c x Hh1 eq_refl Hx) as (s2 & E2 & Hh2). exists (answer v), s2. ands; try done.
    eapply settles_step; [exact E|exact E2].
  - destruct Ht as (e & E & Hg). exists (Err e), s1. ands; try done; [|by eauto]. apply (settles_bind_err (fun _ => tuple_of l)). by apply settles_const.
Qed.

Lemma heap_get_spec k n w σ oA H G l : holds k n w σ oA H G -> issued H l -> reads_as (fun t => heap_get buffers t l) k n w σ oA H G l (whole l).
Proof.
  intros Hh Hi. apply reads_tuple; [done|done|]. intros s v c x Hh1 Hl Hx. unfold whole. rewrite Z.ltb_antisym.
  destruct (blen v <=? inline_limit o); cbn [negb andb].
  - subst x. exists s. split; [by apply settles_const|done].
  - destruct Hx as (hd & -> & Hc & Hp & _ & Hv). pose proof (hh_options _ _ _ _ _ _ _ Hh) as Ho. destruct w as [s0 hp]. cbn [snd] in *.
    destruct (max_value_bytes o <? blen v) eqn:Em.
    + exists s. split; [|done]. eapply settles_step; [done|]. cbn [snd]. rewrite Ho, Em. by apply settles_const.
    + destruct (read_chain_spec (L := backed_laws (hp_catalog hp) oA) ps Hps buffers Hbuffers n s σ hd c (max_value_bytes o)) as (s' & E & B');
        [exact (pl_backed _ _ _ _ _ _ _ (hh_placed _ _ _ _ _ _ _ Hh1))|done|by rewrite Hp|]. rewrite Hp, Em in E.
      exists s'. split; [|by eapply holds_pool]. eapply settles_step; [done|]. cbn [snd]. rewrite Ho, Em. by apply in_pool_settles.
Qed.

Lemma value_len_spec k n w σ oA H G l : holds k n w σ oA H G -> issued H l ->
  reads_as (fun _ => value_len l) k n w σ oA H G l (fun v => Val (blen v)).
Proof.
  intros Hh Hi. apply (reads_tuple (fun _ x => match x with Inline v => st_ret (blen v) | OverflowRef _ len => st_ret len end)); [done|done|].
  intros s v c x Hh1 Hl Hx. exists s. split; [|done]. destruct (_ <=? _); [subst x|destruct Hx as (hd & -> & _)]; by apply settles_const.
Qed.

Lemma value_storage_spec k n w σ oA H G l : holds k n w σ oA H G -> issued H l ->
  reads_as (fun _ => value_storage l) k n w σ oA H G l (fun v => Val (storage v)).
Proof.
  intros Hh Hi. apply (reads_tuple (fun _ x => match x with Inline v => st_ret (blen v, 0) | OverflowRef _ len =>
    do ps <- gets (fun w => pg_page_size (fst w)) ;; st_ret (len, div_ceil len (payload_capacity ps)) end)); [done|done|].
  intros s v c x Hh1 Hl Hx. exists s. split; [|done]. unfold storage. destruct (_ <=? _); [subst x; by apply settles_const|destruct Hx as (hd & -> & _)].
  apply settles_const. unfold st_bind, gets. by rewrite (backed_size ps _ _ _ _ _ (pl_backed _ _ _ _ _ _ _ (hh_placed _ _ _ _ _ _ _ Hh1))).
Qed.

Lemma read_prefix_spec k n w σ oA H G l m : holds k n w σ oA H G -> issued H l -> 0 < m ->
  reads_as (fun t => read_prefix t l m) k n w σ oA H G l (fun v => Val (take (Z.to_nat m) v)).
Proof.
  intros Hh Hi Hm. unfold read_prefix. rewrite (proj2 (Z.eqb_neq m 0)) by lia. apply reads_tuple; [done|done|]. intros s v c x Hh1 Hl Hx.
  assert (Et : take (Z.to_nat (Z.min (blen v) m)) v = take (Z.to_nat m) v).
  { destruct (Z.min_spec (blen v) m) as [[? ->]|[? ->]]; [|done]. unfold blen in *. by rewrite Nat2Z.id, firstn_all, take_ge by lia. }
  destruct (_ <=? _); [subst x; exists s; split; [|done]; apply settles_const; by rewrite Et|].
  destruct Hx as (hd & -> & Hc & Hp & _ & Hv). destruct w as [s0 hp]. cbn [snd] in *. pose proof (blen_nonneg v).
  destruct (read_exact_spec (L := backed_laws (hp_catalog hp) oA) ps Hps n σ (Z.to_nat (Z.min (blen v) m)) s (reader_new hd) c v (Z.min (blen v) m))
    as (s' & r' & E & B'); [lia|lia|exact (pl_backed _ _ _ _ _ _ _ (hh_placed _ _ _ _ _ _ _ Hh1))|rewrite <- Hp; by apply reading_new|].
  exists s'. split; [|by eapply holds_pool]. rewrite <- Et. apply in_pool_settles. by eapply reader_settles.
Qed.

(** A consumer fed the bytes of a value, in pieces of whatever size. *)
Inductive fed {T} : Consumer T -> bytes -> option T -> Prop :=
| fed_give r rest : fed (Give r) rest r
| fed_pull room f rest got r : got ++ drop (length got) rest = rest -> blen got <= room -> (got = [] -> rest = []) ->
    fed (f (Some got)) (drop (length got) rest) r -> fed (Pull room f) rest r.

(** A consumer that never asks for nothing. *)
Inductive hungry {T} : Consumer T -> Prop :=
| hungry_give r : hungry (Give r)
| hungry_pull room f : 0 < room -> (forall x, hungry (f x)) -> hungry (Pull room f).

Lemma cursor_fed {T} (c : Consumer T) : hungry c -> forall rest, fed c rest (consume_cursor c rest).
Proof.
  induction 1 as [r|room f Hr Hf IH]; intros rest; [constructor|]. cbn [consume_cursor].
  assert (E : drop (length (take (Z.to_nat room) rest)) rest = drop (Z.to_nat room) rest).
  { rewrite length_take. destruct (Nat.min_spec (Z.to_nat room) (length rest)) as [[? ->]|[? ->]]; [done|]. by rewrite !drop_ge by lia. }
  apply (fed_pull room f rest (take (Z.to_nat room) rest)); rewrite ?E; [apply take_drop| | |apply IH].
  - unfold blen. rewrite length_take. lia.
  - destruct rest; [done|]. destruct (Z.to_nat room) eqn:En; [lia|done].
Qed.

Lemma reader_fed {T} (c : Consumer T) : hungry c -> forall oc oA n s σ r l rest, backed oc oA ps n s σ -> reading ps σ r l rest ->
  exists x s' r', consume_reader c (s, r) = (Val x, (s', r')) /\ backed oc oA ps n s' σ /\ fed c rest x.
Proof.
  induction 1 as [x|room f Hr Hf IH]; intros oc oA n s σ r l rest B R; [exists x, s, r; ands; [done|done|constructor]|].
  destruct (read_spec (L := backed_laws oc oA) ps Hps n s σ r l rest room B R Hr) as (got & s1 & r1 & l1 & E1 & B1 & Hg & R1 & Hle & Hend).
  destruct (IH (Some got) oc oA n s1 σ r1 l1 _ B1 R1) as (x & s2 & r2 & E2 & B2 & Hfed). exists x, s2, r2. ands; [|done|by apply (fed_pull room f rest got)].
  cbn [consume_reader]. unfold st_bind at 1, caught at 1. by rewrite E1.
Qed.

(** A streaming consumer sees exactly the bytes of the value, in order. *)
Lemma read_streaming_spec {T} (f : Consumer T) k n w σ oA H G l : hungry f -> holds k n w σ oA H G -> issued H l ->
  exists r s', read_streaming l f w = (r, (s', snd w)) /\ holds k n (s', snd w) σ oA H G /\
    match G !! l with
    | Some (v, _) => exists x, fed f v x /\ r = match x with Some y => Val y | None => Err Io end
    | None => exists e, r = Err e /\ gone e = true
    end.
Proof.
  destruct w as [s hp]. cbn [snd]. intros Hf Hh Hi. destruct (tuple_of_spec k n s hp σ oA H G l Hh Hi) as (s1 & Hh1 & Ht).
  unfold read_streaming. destruct (G !! l) as [[v c]|] eqn:El.
  - destruct Ht as (t & Hst & _ & E). apply decode_stored in Hst. destruct (_ <=? _).
    + rewrite Hst in E. exists (match consume_cursor f v with Some y => Val y | None => Err Io end), s1.
      ands; [unfold st_bind at 1; rewrite E; unfold st_bind; cbn; by destruct (consume_cursor f v)|done|]. exists (consume_cursor f v). split; [by apply cursor_fed|done].
    + destruct Hst as (hd & Ed & Hc & Hp & _). rewrite Ed in E.
      destruct (reader_fed f Hf (hp_catalog hp) oA n s1 σ (reader_new hd) c v (pl_backed _ _ _ _ _ _ _ (hh_placed _ _ _ _ _ _ _ Hh1)))
        as (x & s2 & r2 & E2 & B2 & Hfed); [rewrite <- Hp; by apply reading_new|].
      exists (match x with Some y => Val y | None => Err Io end), s2. ands; [|by eapply holds_pool|by exists x]. unfold st_bind at 1. rewrite E. unfold st_bind, in_pool, with_reader. cbn [fst snd]. rewrite E2. by destruct x.
  - destruct Ht as (e & E & Hg). exists (Err e), s1. ands; [|done|by eauto]. unfold st_bind at 1. by rewrite E.
Qed.

(** ** Replacing and removing *)

Lemma tuple_at_write H l h h' ot : H !! loc_page l = Some h -> (forall q, ph_tuples h' !! q = if decide (q = key l) then ot else ph_tuples h !! q) ->
  forall l', tuple_at (<[loc_page l := h']> H) l' = if decide (l' = l) then ot else tuple_at H l'.
Proof.
  intros Hp Hw l'. unfold tuple_at. destruct (decide (loc_page l' = loc_page l)) as [Ep|Hn].
  - rewrite Ep, lookup_insert_eq, Hp. cbn [mbind option_bind]. rewrite Hw. destruct (decide (l' = l)) as [->|Hl]; [by rewrite decide_True|].
    rewrite decide_False; [done|]. intros E. apply Hl. by apply locator_eq.
  - rewrite lookup_insert_ne by congruence. by rewrite decide_False by congruence.
Qed.

Lemma issued_write H p h h' : H !! p = Some h -> ph_issued h' = ph_issued h -> forall l, issued (<[p := h']> H) l <-> issued H l.
Proof.
  intros Hp Hi l. unfold issued. destruct (decide (loc_page l = p)) as [<-|Hn]; [rewrite lookup_insert_eq, Hp|by rewrite lookup_insert_ne].
  split; intros (h0 & [= <-] & Hin); eexists; (split; [done|]); by rewrite Hi in *.
Qed.

(** A change of the tuple under [l] on its page. *)
Lemma change_tuple {A} (m : st PageError bytes A) (Q : A -> Prop) (h2 : A -> PageHist) (x2 : A -> option (bytes * (bytes * links))) k n s hp σ oA H G l h :
  holds k n (s, hp) σ oA H G -> H !! loc_page l = Some h ->
  (forall b, page_ok ps k (loc_page l) b h -> exists x b', m b = (Val x, b') /\ page_ok ps k (loc_page l) b' (h2 x) /\ Q x) ->
  (forall x q, ph_tuples (h2 x) !! q = if decide (q = key l) then fst <$> x2 x else ph_tuples h !! q) ->
  (forall x t v c, x2 x = Some (t, (v, c)) -> stored σ t v c /\ loose c H (base.delete l G)) ->
  exists x b' s', pg_get_mut (loc_page l) m s = (Val x, s') /\ Q x /\
    holds k n (s', hp) (<[loc_page l := b']> σ) oA (<[loc_page l := h2 x]> H)
      (match x2 x with Some (_, e) => <[l := e]> (base.delete l G) | None => base.delete l G end).
Proof.
  intros Hh Hp Hm Hw Hx. pose proof (hh_placed _ _ _ _ _ _ _ Hh) as Pl. pose proof (pl_pages _ _ _ _ _ _ _ Pl) as Pg.
  destruct (change_page ps m (fun x b' => page_ok ps k (loc_page l) b' (h2 x) /\ Q x) _ oA k n s σ H _ h (pl_backed _ _ _ _ _ _ _ Pl) Pg Hp) as (x & b' & s' & E & [Po HQ] & B).
  { intros b Po. destruct (Hm b Po) as (x & b' & E & Po' & HQ). exists x, b'. ands; [done|by eapply wf_readable, page_wf|done|done]. }
  exists x, b', s'. split; [done|]. split; [done|]. cbn [snd] in B.
  assert (Hkeep : forall p, H !! p = None -> <[loc_page l := b']> σ !! p = σ !! p /\ <[loc_page l := h2 x]> H !! p = None).
  { intros p Hn. by rewrite !lookup_insert_ne by congruence. }
  apply (holds_set k n (s, hp) σ oA H G); [done| |by apply Hh|by apply (tuple_at_write H l h)| |].
  - eapply placed_pages; [exact Pl|lia|exact B| |by eapply dom_insert_same]. apply pages_set; [done|by apply (Pg _ h)|done].
  - intros l' v c [_ Hl']%lookup_delete_Some p Hc. apply Hkeep. by apply (hh_loose _ _ _ _ _ _ _ Hh l' v c).
  - intros t v c Ex. destruct (Hx x t v c Ex) as [Hst Hlo]. split.
    + eapply stored_frame, Hst. intros p Hc. apply Hkeep. by apply Hlo.
    + intros p Hc. destruct (Hlo p Hc) as (H1 & H2). split; [by apply Hkeep|done].
Qed.

(** Giving up the pages of a chain nobody uses. *)
Lemma release_spec k n s hp σ oA H G t v c x : holds k n (s, hp) σ oA H G -> stored σ t v c -> decode_tuple t = Val x -> loose c H G ->
  exists s' σ', settles (fun turns => release turns x) (s, hp) (Val tt) (s', hp) /\ holds k n (s', hp) σ' oA H G.
Proof.
  intros Hh Hst Hx Hlo. apply decode_stored in Hst. rewrite Hx in Hst. destruct (_ <=? _).
  { injection Hst as ->. exists s, σ. split; [by apply settles_const|done]. }
  destruct Hst as (hd & [= ->] & Hc & _ & Hnd & _).
  destruct (free_chain_spec (L := backed_laws (hp_catalog hp) oA) (F := backed_frees (hp_catalog hp) oA) ps Hps n c s σ hd 0) as (s' & σ' & E & B & Hσ).
  - exact (pl_backed _ _ _ _ _ _ _ (hh_placed _ _ _ _ _ _ _ Hh)).
  - done.
  - done.
  - apply Forall_forall. intros p Hp%list_elem_of_In. by apply Hlo.
  - exists s', σ'. split; [eapply settles_bind; [apply in_pool_settles; exact E|by apply settles_const]|].
    assert (Hkeep : forall p, (p ∉ c.*1) -> σ' !! p = σ !! p) by (intros p Hp; by rewrite Hσ, bool_decide_false).
    destruct Hh as [Pl Ho He Hl]. split; try done.
    + eapply placed_pages; [exact Pl|lia|exact B| |done]. intros p h Hp. destruct (pl_pages _ _ _ _ _ _ _ Pl p h Hp) as (Hu & b & Hb & Po).
      split; [done|]. exists b. split; [|done]. rewrite Hkeep; [done|]. intros Hin. destruct (Hlo p Hin) as (Hn & _). congruence.
    + intros l. specialize (He l). destruct (tuple_at H l), (G !! l) as [[v' c']|] eqn:El; try done.
      eapply stored_frame, He. intros p Hp. apply Hkeep. intros Hin. destruct (Hlo p Hin) as (_ & _ & Hn). by apply (Hn l v' c').
Qed.

Lemma holds_remember k n s hp σ oA H G p : holds k n (s, hp) σ oA H G -> is_Some (H !! p) -> holds k n (s, remember p hp) σ oA H G.
Proof.
  intros [[B Pg R D Ls Fr Dr Fl] Ho He Hl] Hp. split; try done. split; try done.
  cbn [snd remember put_candidates hp_candidates]. intros q Hq. apply elem_of_take in Hq as (i & Hq & _). apply list_elem_of_lookup_2 in Hq.
  apply elem_of_cons in Hq as [->|Hq]; [done|by apply R].
Qed.

(** What a deletion tells the catalog. *)
Lemma told_spec k n s hp σ oA H G p (flag : bool) : holds k (65 + n) (s, hp) σ oA H G -> is_Some (H !! p) ->
  exists s' oc oA', settles (fun _ => if flag then
      do after <- free_space_of p ;;
      in_catalog (update_free_space p 0 after) ;;; st_ret tt
    else st_ret tt) (s, hp) (Val tt) (s', with_catalog oc hp) /\ holds k n (s', with_catalog oc hp) σ oA' H G.
Proof.
  intros Hh [h Hp]. pose proof (hh_placed _ _ _ _ _ _ _ Hh) as Pl. pose proof (pl_pages _ _ _ _ _ _ _ Pl) as Pg.
  pose proof (pl_backed _ _ _ _ _ _ _ Pl) as B. cbn [fst snd] in B. destruct flag; [|exists s, (hp_catalog hp), oA].
  - destruct (free_space_run ps k _ s hp σ oA H p h B Pg Hp) as (after & s1 & E1 & Ha & B1).
    destruct (update_step ps Hps n s1 hp σ oA H p 0 after B1) as (o2 & s2 & oc & oA2 & E2 & B2 & Hre); [by apply (Pg p h)|lia|done|by rewrite Hp|].
    exists s2, oc, oA2. split; [eapply settles_step; [exact E1|]; eapply settles_bind; [exact E2|by apply settles_const]|].
    destruct Hh as [_ Ho He Hl]. split; try done. by apply (placed_recat ps k (65 + n) (s, hp) σ oA oA2).
  - destruct hp as [op oc cs pgs]. split; [by apply settles_const|]. eapply holds_weaken, Hh; lia.
Qed.

Lemma delete_spec k n w σ oA H G l flag : holds k (65 + n) w σ oA H G -> issued H l ->
  exists r w' σ' oA' H', settles (fun turns => delete_inner turns l flag) w r w' /\ holds k n w' σ' oA' H' (base.delete l G) /\
    (forall l', issued H' l' <-> issued H l') /\ match G !! l with Some _ => r = Val tt | None => exists e, r = Err e /\ gone e = true end.
Proof.
  destruct w as [s hp]. intros Hh Hi. destruct (tuple_of_spec k (65 + n) s hp σ oA H G l Hh Hi) as (s1 & Hh1 & Ht). unfold delete_inner.
  destruct (G !! l) as [[v c]|] eqn:El.
  2: { destruct Ht as (e & E & Hg). exists (Err e), (s1, hp), σ, oA, H. rewrite delete_id by done. ands; [|eapply holds_weaken, Hh1; lia|done|by eauto].
       apply (settles_bind_err (fun _ => tuple_of l)). by apply settles_const. }
  destruct Ht as (t & Hst & Hat & E1). pose proof (tuple_issued ps k σ H l t (pl_pages _ _ _ _ _ _ _ (hh_placed _ _ _ _ _ _ _ Hh1)) Hat) as (_ & Hs & h & Hp & Htu).
  assert (Hx : exists x, decode_tuple t = Val x).
  { pose proof (decode_stored _ _ _ _ Hst) as Hd. destruct (_ <=? _); [by eexists|]. destruct Hd as (hd & Hd & _). by eexists. }
  destruct Hx as [x Hx]. rewrite Hx in E1. pose proof (hh_loose _ _ _ _ _ _ _ Hh l v c El) as Hlo.
  destruct (change_tuple (Slotted.delete l) (fun _ => True) (fun _ => hist_delete l h) (fun _ => None) k (65 + n) s1 hp σ oA H G l h Hh1 Hp) as (u & b' & s2 & E2 & _ & Hh2).
  { intros b Po. destruct (page_delete ps k _ b h l t Po Hs Htu) as (b' & E & Po'). by exists tt, b'. }
  { intros _ q. cbn. destruct (decide (q = key l)) as [->|]; [apply lookup_delete_eq|by apply lookup_delete_ne]. }
  { done. }
  cbv beta iota in Hh2. set (H2 := <[loc_page l := hist_delete l h]> H) in *.
  assert (Hkeep : forall p, p ∈ c.*1 -> <[loc_page l := b']> σ !! p = σ !! p /\ H2 !! p = None).
  { intros p Hc. destruct (Hlo p Hc) as (Hn & _). unfold H2. by rewrite !lookup_insert_ne by congruence. }
  destruct (release_spec k (65 + n) s2 hp _ oA H2 _ t v c x Hh2) as (s3 & σ3 & E3 & Hh3).
  { eapply stored_frame, Hst. intros p Hc. by apply Hkeep. }
  { done. }
  { intros p Hc. destruct (Hlo p Hc) as (_ & Hn & Ho). split; [by apply Hkeep|done]. }
  assert (Hdom : is_Some (H2 !! loc_page l)) by (unfold H2; by rewrite lookup_insert_eq).
  destruct (told_spec k n s3 hp σ3 oA H2 _ (loc_page l) (flag && bool_decide (is_Some (hp_catalog hp))) Hh3 Hdom) as (s4 & oc & oA4 & E4 & Hh4).
  set (hp' := if bool_decide (loc_page l ∈ hp_candidates hp) then with_catalog oc hp else remember (loc_page l) (with_catalog oc hp)).
  exists (Val tt), (s4, hp'), σ3, oA4, H2. ands; [| |by apply (issued_write H _ h)|done].
  - eapply settles_step; [exact E1|]. cbv beta. eapply settles_step; [unfold in_pool; cbn [fst snd]; by rewrite E2|]. cbv beta.
    eapply settles_bind; [exact E3|]. cbv beta. eapply settles_step; [done|]. cbv beta. cbn [snd]. eapply settles_bind; [exact E4|].
    apply settles_const. unfold modify, hp'. cbn [fst snd]. change (hp_candidates (with_catalog oc hp)) with (hp_candidates hp).
    by destruct (bool_decide (loc_page l ∈ hp_candidates hp)).
  - unfold hp'. destruct (bool_decide (loc_page l ∈ hp_candidates hp)); [done|]. by apply holds_remember.
Qed.

Lemma loose_pages c H H' G : loose c H G -> (forall p, p ∈ c.*1 -> H' !! p = None) -> loose c H' G.
Proof. intros Hlo Hn p Hp. destruct (Hlo p Hp) as (_ & H2). split; [by apply Hn|done]. Qed.

Lemma loose_insert c H G l v c' : loose c H G -> (forall p, p ∈ c.*1 -> p ∉ c'.*1) -> loose c H (<[l := (v, c')]> G).
Proof.
  intros Hlo Hn p Hp. destruct (Hlo p Hp) as (H1 & H2 & H3). ands; try done. intros l2 v2 c2. rewrite lookup_insert_Some.
  intros [[_ [= _ <-]]|[_ Hl]]; [by apply Hn|by eapply H3].
Qed.

Lemma update_spec_at k n s hp σ oA H G l v c t' h t x cold vold : holds k (131 + n) (s, hp) σ oA H G -> 0 <= k /\ k + 1 < U32 ->
  G !! l = Some (vold, cold) -> H !! loc_page l = Some h -> ph_tuples h !! key l = Some t -> 0 <= loc_slot l ->
  stored σ t vold cold -> decode_tuple t = Val x -> stored σ t' v c -> loose c H G -> (forall p, p ∈ cold.*1 -> p ∉ c.*1) ->
  bytes_ok t' -> t' <> [] -> blen t' + SLOT_BYTES <= ps - 72 ->
  exists l' w' σ' oA' H', settles (fun turns => do in_place <- in_pool (pg_get_mut (loc_page l) (update_page l t')) ;;
      do l' <- (if in_place : bool then st_ret l else insert_tuple turns t') ;;
      release turns x ;;; st_ret l') (s, hp) (Val l') w' /\ holds (k + 1) n w' σ' oA' H' (<[l' := (v, c)]> (base.delete l G)) /\
    (forall l0, issued H' l0 <-> l0 = l' \/ issued H l0) /\ (l' = l \/ ~ issued H l') /\ (blen t' <= blen t -> l' = l).
Proof.
  intros Hh Hk El Hp Htu Hs Hold Hx Hst Hlo Hdisj Ht Hne Hfit. pose proof (hh_loose _ _ _ _ _ _ _ Hh l vold cold El) as Hlo0.
  destruct (change_tuple (update_page l t') (fun r => blen t' <= blen t -> r = true) (fun r : bool => if r then hist_write l t' h else hist_delete l h)
    (fun r : bool => if r then Some (t', (v, c)) else None) k (131 + n) s hp σ oA H G l h Hh Hp) as (r & b' & s2 & E2 & Hstay & Hh2).
  { intros b Po. by apply (update_page_spec ps k _ b h l t). }
  { intros [] q; cbn; destruct (decide (q = key l)) as [->|]; [apply lookup_insert_eq|by apply lookup_insert_ne|apply lookup_delete_eq|by apply lookup_delete_ne]. }
  { intros [] t0 v0 c0; [|done]. intros [= <- <- <-]. split; [done|]. eapply loose_sub, Hlo. apply delete_subseteq. }
  set (h2 := if r then hist_write l t' h else hist_delete l h) in *. set (H2 := <[loc_page l := h2]> H) in *. set (σ2 := <[loc_page l := b']> σ) in *.
  assert (Hkeep : forall c0 G0, loose c0 H G0 -> forall p, p ∈ c0.*1 -> σ2 !! p = σ !! p /\ H2 !! p = None).
  { intros c0 G0 Hl0 p Hc. destruct (Hl0 p Hc) as (Hn & _). unfold H2, σ2. by rewrite !lookup_insert_ne by congruence. }
  assert (Hiss : forall l0, issued H2 l0 <-> issued H l0) by (apply (issued_write H _ h); [done|unfold h2; by destruct r]).
  assert (Hold2 : stored σ2 t vold cold) by (eapply stored_frame, Hold; intros p Hc; apply (Hkeep _ _ Hlo0 p Hc)).
  assert (E2' : in_pool (pg_get_mut (loc_page l) (update_page l t')) (s, hp) = (Val r, (s2, hp))) by (unfold in_pool; cbn [fst snd]; by rewrite E2).
  destruct r.
  - destruct (release_spec k (131 + n) s2 hp σ2 oA H2 _ t vold cold x Hh2 Hold2 Hx) as (s3 & σ3 & E3 & Hh3).
    { apply loose_insert; [|done]. eapply loose_pages; [exact Hlo0|]. intros p Hc. apply (Hkeep _ _ Hlo0 p Hc). }
    exists l, (s3, hp), σ3, oA, H2. ands; [|eapply holds_weaken, Hh3; lia| |by left|done].
    + eapply settles_step; [exact E2'|]. eapply settles_step; [done|]. eapply settles_bind; [exact E3|by apply settles_const].
    + intros l0. rewrite Hiss. split; [by right|]. intros [->|?]; [|done]. exists h. split; [done|].
      pose proof (tuple_issued ps k σ H l t (pl_pages _ _ _ _ _ _ _ (hh_placed _ _ _ _ _ _ _ Hh))) as Hti.
      destruct Hti as ((h0 & Hh0 & Hin) & _); [unfold tuple_at; by rewrite Hp|]. congruence.
  - destruct (place_value k n (s2, hp) σ2 oA H2 (base.delete l G) t' v c Hh2 Hk) as (l' & w3 & σ3 & oA3 & H3 & E3 & Hh3 & Hi & Hg); try done.
    { eapply stored_frame, Hst. intros p Hc. apply (Hkeep _ _ Hlo p Hc). }
    { eapply loose_pages; [eapply loose_sub, Hlo; apply delete_subseteq|]. intros p Hc. apply (Hkeep _ _ Hlo p Hc). }
    assert (Hkeep3 : forall p, p ∈ cold.*1 -> σ3 !! p = σ2 !! p /\ H3 !! p = None).
    { intros p Hc. eapply inserted_frame; [exact Hi|apply (Hkeep _ _ Hlo0 p Hc)|by eapply stored_held]. }
    destruct w3 as [s3 hp3]. destruct (release_spec (k + 1) n s3 hp3 σ3 oA3 H3 _ t vold cold x Hh3) as (s4 & σ4 & E4 & Hh4); [|done| |].
    { eapply stored_frame, Hold2. intros p Hc. by apply Hkeep3. }
    { apply loose_insert; [|done]. eapply loose_pages; [exact Hlo0|]. intros p Hc. by apply Hkeep3. }
    destruct (issued_inserted _ _ _ _ _ _ Hi) as [Hi1 Hi2]. exists l', (s4, hp3), σ4, oA3, H3. ands; [|done| | |by intros Hle%Hstay].
    + eapply settles_step; [exact E2'|]. eapply settles_bind; [exact E3|]. eapply settles_bind; [exact E4|by apply settles_const].
    + intros l0. by rewrite Hi1, Hiss.
    + right. by rewrite <- Hiss.
Qed.

Lemma heap_update_spec k n w σ oA H G l v : holds k (value_pages v + (131 + n)) w σ oA H G -> 0 <= k /\ k + 1 < U32 -> issued H l -> value_ok v ->
  exists r w' σ' oA' H', settles (fun turns => heap_update turns l v) w r w' /\
    match G !! l with
    | Some _ => exists l' c, r = Val l' /\ holds (k + 1) n w' σ' oA' H' (<[l' := (v, c)]> (base.delete l G)) /\
        (forall l0, issued H' l0 <-> l0 = l' \/ issued H l0) /\ (l' = l \/ ~ issued H l') /\
        (forall vold cold, G !! l = Some (vold, cold) -> blen v = blen vold -> l' = l)
    | None => H' = H /\ holds (k + 1) n w' σ' oA' H' G /\ exists e, r = Err e /\ gone e = true
    end.
Proof.
  destruct w as [s hp]. intros Hh Hk Hi Hv. destruct (tuple_of_spec k _ s hp σ oA H G l Hh Hi) as (s1 & Hh1 & Ht).
  unfold heap_update. rewrite bool_decide_false by apply Hv. destruct (G !! l) as [[vold cold]|] eqn:El.
  2: { destruct Ht as (e & E & Hg). exists (Err e), (s1, hp), σ, oA, H. ands; [|done|eapply holds_weaken, Hh1; lia|by eauto].
       apply (settles_bind_err (fun _ => tuple_of l)). by apply settles_const. }
  destruct Ht as (t & Hst & Hat & E1). pose proof (pl_pages _ _ _ _ _ _ _ (hh_placed _ _ _ _ _ _ _ Hh1)) as Pg.
  pose proof (tuple_issued ps k σ H l t Pg Hat) as (_ & Hs & h & Hp & Htu).
  assert (Hx : exists x, decode_tuple t = Val x).
  { pose proof (decode_stored _ _ _ _ Hst) as Hd. destruct (_ <=? _); [by eexists|]. destruct Hd as (hd & Hd & _). by eexists. }
  destruct Hx as [x Hx]. rewrite Hx in E1.
  destruct (make_tuple_spec _ _ _ _ hp _ v (pl_backed _ _ _ _ _ _ _ (hh_placed _ _ _ _ _ _ _ Hh1)) (hh_options _ _ _ _ _ _ _ Hh) Hv)
    as (t' & s2 & σ2 & c & E2 & B2 & Hst2 & Hex & Hroot & Ht' & Hne & Hfit). cbn [snd] in B2.
  pose proof (holds_extend _ _ _ _ _ _ _ _ s2 σ2 _ Hh1 Hex B2) as Hh2. pose proof (fresh_loose _ _ _ _ _ _ _ _ _ Hh1 Hex Hroot) as Hlo.
  assert (Hold : forall p, p ∈ cold.*1 -> p ∉ c.*1).
  { intros p Hc Hc'. destruct (Hlo p Hc') as (_ & _ & Hn). by apply (Hn l vold cold). }
  assert (Hst' : stored σ2 t vold cold).
  { eapply stored_frame, Hst. intros p Hc. destruct (stored_held _ _ _ _ Hst p Hc) as [b Hb]. rewrite Hb. eapply lookup_weaken; [exact Hb|by destruct Hex]. }
  destruct (update_spec_at k n s2 hp σ2 oA H G l v c t' h t x cold vold Hh2 Hk El Hp Htu Hs Hst' Hx Hst2 Hlo Hold Ht' Hne Hfit)
    as (l' & w' & σ' & oA' & H' & E3 & Hh3 & Hi3 & Hl3 & Hstay).
  exists (Val l'), w', σ', oA', H'. split; [|exists l', c; ands; try done; intros vold' cold' [= <- <-] Hlen; apply Hstay; by rewrite (stored_length _ _ _ _ _ _ _ _ Hst2 Hst' Hlen)]. eapply settles_step; [exact E1|]. cbv beta. eapply settles_step; [exact E2|exact E3].
Qed.

Lemma heap_flush_spec k n w σ oA H G : holds k n w σ oA H G -> exists s', heap_flush w = (Val tt, (s', snd w)) /\ holds k n (s', snd w) σ oA H G.
Proof.
  destruct w as [s hp]. intros Hh. destruct (pg_flush_law (PagerLaws := backed_laws (hp_catalog hp) oA) ps n s σ) as (x & s' & E & B).
  { exact (pl_backed _ _ _ _ _ _ _ (hh_placed _ _ _ _ _ _ _ Hh)). }
  exists s'. split; [|by eapply holds_pool]. unfold heap_flush, st_bind, in_pool. cbn [fst snd]. by rewrite E.
Qed.
End Values.

(** A new heap file holds nothing. *)
Lemma holds_fresh {S} `{P : Pager S} {L : PagerLaws S} {F : PagerFrees S} ps o oc oA n (s : S) :
  backed oc oA ps n s ∅ -> (forall A, oA = Some A -> A = ac_empty) -> holds ps o 0 n (s, mkHeap o oc [] []) ∅ oA ∅ ∅.
Proof.
  intros B Hempty. split; [|done|by intros l|by intros l v c]. split; cbn [fst snd hp_catalog hp_candidates hp_pages]; try done.
  - by intros p ?%not_elem_of_nil.
  - apply NoDup_nil_2.
  - intros p. rewrite elem_of_nil, lookup_empty. split; [done|by intros []].
  - intros A b p ->%Hempty. set_solver.
  - intros A p ->%Hempty. cbn. rewrite !lookup_empty. split; [done|by intros []].
  - by intros A p f ->%Hempty.
Qed.
