(* ===== verification/HeapScan.v ===== *)
(** * The heap file: scanning

    A scan visits the pages of the heap one after the other, in the catalog's
    order or in the order they were allocated, and every live locator of a page
    once. *)

From stdpp Require Import base tactics list numbers gmap sorting.
From Stdlib Require Import ZArith Lia.
From S2P Require Import Prelude Turns Bytes Errors PageFormat Slotted SlottedSpec SlottedRefine SlottedTrace Pager.
From S2P Require Import BTree BTreeTheorems Catalog CatalogSpec Overflow OverflowSpec Heap HeapPage HeapSpec HeapValues.
Local Open Scope Z_scope.
Local Open Scope bic_scope.

(** ** The locators of a page do not depend on its stamps *)

Lemma locators_same ps b b' : wf ps b -> same_page b b' -> locators b' = locators b.
Proof.
  intros W Hs. destruct (wf_same ps b b' W Hs) as (W' & _ & Hp & _). pose proof (same_hdr ps b b' W Hs) as Hh. apply hdr_inv in Hh as (Ec & _).
  unfold locators. rewrite !(slot_entries_eq ps), !(page_id_eq ps), Hp, Ec by done.
  assert (E : ((fun i => (i, entry b' i)) <$> rangeZ 0 (cnt b)) = ((fun i => (i, entry b i)) <$> rangeZ 0 (cnt b))); [|by rewrite E].
  apply list_fmap_ext. intros k x Hk%list_elem_of_lookup_2%elem_of_rangeZ. by rewrite (same_entry ps b b').
Qed.

Section Scan.
Context {S : Type} {P : Pager S} {L : PagerLaws S} {F : PagerFrees S} (ps : Z).
Hypothesis Hps : 512 <= ps <= 65536.
Context (o : HeapOptions).
Variable buffers : nat -> Z.
Hypothesis Hbuffers : forall i, 0 < buffers i.
Abbreviation world := (S * HeapFile)%type.
Abbreviation links := (list (Z * bytes)).
Context (k : Z) (n : nat) (σ : gmap Z bytes) (oA : option ACat) (H : gmap Z PageHist) (G : gmap TupleLocator (bytes * links)).
Abbreviation holding w := (holds ps o k n w σ oA H G).

(** The locators of page [p], in the order of its slots. *)
Definition page_order (p : Z) : list TupleLocator :=
  match σ !! p with Some b => match locators b with Val ls => ls | _ => [] end | None => [] end.

Lemma page_locators_run s hp p : holding (s, hp) -> is_Some (H !! p) ->
  exists s', page_locators p (s, hp) = (Val (page_order p), (s', hp)) /\ holding (s', hp).
Proof.
  intros Hh [h Hp]. pose proof (hh_placed _ _ _ _ _ _ _ _ _ Hh) as Pl. destruct (pl_pages _ _ _ _ _ _ _ Pl p h Hp) as (_ & b & Hb & Po).
  pose proof (pl_backed _ _ _ _ _ _ _ Pl) as B. cbn [fst snd] in B.
  destruct (pg_get_law (PagerLaws := backed_laws (hp_catalog hp) oA) ps n s σ Search p b B Hb) as (b' & s' & E & Hs & B').
  destruct (page_locators_spec ps k p b h Po) as (ls & El & _). exists s'. split; [|by eapply holds_pool].
  unfold page_locators. unfold st_bind at 1, in_pool at 1. cbn [fst snd]. rewrite E. unfold st_lift, page_order. rewrite Hb.
  rewrite (locators_same ps b b') by (by eapply page_wf || by symmetry). by rewrite El.
Qed.

(** ** The pages a scan has still to visit *)

Definition visits (sc : HeapScan) (hp : HeapFile) (pgs : list Z) : Prop :=
  hs_catalog sc = bool_decide (is_Some (hp_catalog hp)) /\
  if hs_catalog sc then
    if hs_catalog_complete sc then pgs = []
    else (forall q, hs_next_catalog_page sc = Some q -> is_u64 q) /\ StronglySorted Z.lt pgs /\
      forall p, p ∈ pgs <-> is_Some (H !! p) /\ default 0 (hs_next_catalog_page sc) <= p
  else pgs = drop (hs_legacy_page_index sc) (hp_pages hp).

Lemma holding_recat s hp s' oc : holding (s, hp) -> backed oc oA ps n s' σ -> holding (s', with_catalog oc hp).
Proof.
  intros [Pl Ho He Hl] B. split; try done. apply (placed_recat ps k n (s, hp) σ oA oA); [done|apply recatalogued_refl|done].
Qed.

Lemma sorted_head p pgs (Q : Z -> Prop) : (forall q, Q q -> p <= q) -> StronglySorted Z.lt pgs -> (forall q, q ∈ pgs <-> Q q) -> Q p ->
  exists pgs', pgs = p :: pgs' /\ StronglySorted Z.lt pgs' /\ forall q, q ∈ pgs' <-> Q q /\ p < q.
Proof.
  intros Hmin Hs Hin Hp. destruct pgs as [|p0 pgs]; [by apply Hin, elem_of_nil in Hp|]. apply StronglySorted_inv in Hs as [Hs Hall].
  rewrite Forall_forall in Hall.
  assert (p0 = p) as ->.
  { pose proof (proj1 (Hin p0) ltac:(by left)) as H0. specialize (Hmin p0 H0). apply Hin in Hp. apply elem_of_cons in Hp as [->|Hp]; [done|].
    specialize (Hall p Hp). lia. }
  exists pgs. ands; try done. intros q. rewrite <- Hin, elem_of_cons. split; [intros Hq; specialize (Hall q Hq); auto|]. intros [[->|?] ?]; [lia|done].
Qed.

(** What [scan_page] keeps of the scan. *)
Definition same_locators (sc sc' : HeapScan) : Prop := hs_locators sc' = hs_locators sc /\ hs_locator_index sc' = hs_locator_index sc.

Lemma scan_page_spec s hp sc pgs : holding (s, hp) -> visits sc hp pgs ->
  exists sc' s' oc, settles (fun turns => scan_page turns sc) (s, hp) (Val (match pgs with [] => Err None | p :: _ => Val p end, sc')) (s', with_catalog oc hp) /\
    holding (s', with_catalog oc hp) /\ visits sc' (with_catalog oc hp) (tail pgs) /\ same_locators sc sc'.
Proof.
  intros Hh [Hc Hv]. destruct (hs_catalog sc) eqn:Ec.
  - unfold scan_page. rewrite Ec. destruct (hs_catalog_complete sc) eqn:Ed.
    { subst pgs. exists sc, s, (hp_catalog hp). ands; [by destruct hp; apply settles_const|by destruct hp|split; [by rewrite Ec|by rewrite Ec, Ed]|done]. }
    destruct Hv as (Hu & Hsort & Hin). pose proof (hh_placed _ _ _ _ _ _ _ _ _ Hh) as Pl. pose proof (pl_backed _ _ _ _ _ _ _ Pl) as B. cbn [fst snd] in B.
    destruct (catalog_step ps (fun turns => next_page_of_type turns Heap (hs_next_catalog_page sc)) (fun x A A' => A' = A /\
      match x with
      | Some p => ac_pages A !! p = Some (page_type_u8 Heap) /\ default 0 (hs_next_catalog_page sc) <= p /\
          forall q, ac_pages A !! q = Some (page_type_u8 Heap) -> default 0 (hs_next_catalog_page sc) <= q -> p <= q
      | None => forall q, ac_pages A !! q = Some (page_type_u8 Heap) -> q < default 0 (hs_next_catalog_page sc)
      end) n n s hp σ oA B ltac:(done)) as (x & s1 & oc & oA1 & E1 & B1 & HQ).
    { intros c A C. destruct (next_page_spec ps Hps n (s, c) σ A Heap _ C Hu) as (x & w' & E & C' & Hx). exists x, w', A. by ands. }
    assert (HA : exists A, oA = Some A).
    { destruct (hp_catalog hp) as [c|]; [|done]. unfold backed in B. destruct oA as [A|]; [by exists A|done]. }
    destruct HA as [A EA]. rewrite EA in HQ. destruct oA1 as [A1|], x as [x|]; try done. destruct HQ as [-> HQ]. rewrite <- EA in B1.
    pose proof (fun p => pl_directory _ _ _ _ _ _ _ Pl A p EA) as Hdir.
    exists (match x with
            | Some p => if p + 1 <? U64 then mkHeapScan true (Some (p + 1)) false (hs_legacy_page_index sc) (hs_locators sc) (hs_locator_index sc)
                        else mkHeapScan true (hs_next_catalog_page sc) true (hs_legacy_page_index sc) (hs_locators sc) (hs_locator_index sc)
            | None => mkHeapScan true (hs_next_catalog_page sc) true (hs_legacy_page_index sc) (hs_locators sc) (hs_locator_index sc)
            end), s1, oc.
    assert (Hlist : match x with Some p => exists pgs', pgs = p :: pgs' /\ StronglySorted Z.lt pgs' /\ is_u64 p /\ forall q, q ∈ pgs' <-> is_Some (H !! q) /\ p + 1 <= q | None => pgs = [] end).
    { destruct x as [p|].
      - destruct HQ as (H1 & H2 & H3). destruct (sorted_head p pgs (fun q => is_Some (H !! q) /\ default 0 (hs_next_catalog_page sc) <= q)) as (pgs' & -> & Hs' & Hin').
        { intros q [Hq Hge]. apply H3; [by apply Hdir|done]. } { done. } { done. } { split; [by apply Hdir|done]. }
        exists pgs'. ands; try done; [apply Hdir in H1 as [h Hp]; by apply (pl_pages _ _ _ _ _ _ _ Pl p h)|].
        intros q. rewrite Hin'. split; [intros [[? ?] ?]; split; [done|lia]|intros [? ?]; ands; [done|lia|lia]].
      - destruct pgs as [|q pgs]; [done|]. destruct (proj1 (Hin q) ltac:(by left)) as [Hq Hge]. apply Hdir, HQ in Hq. lia. }
    assert (Hoc : bool_decide (is_Some oc) = true) by (destruct oc; [done|by rewrite EA in B1]).
    ands; [|by apply holding_recat with (s := s)| |by destruct x as [p|]; [destruct (p + 1 <? U64)|]].
    + eapply settles_bind; [destruct E1 as [e E1]; exists e; intros turns Hle; unfold caught; by rewrite E1|]. cbv beta iota.
      destruct x as [p|]; [destruct Hlist as (pgs' & -> & _)|subst pgs]; by apply settles_const.
    + unfold visits. cbn [with_catalog hp_catalog]. rewrite Hoc. destruct x as [p|]; [|subst pgs; by cbn]. destruct Hlist as (pgs' & -> & Hs' & Hup & Hin').
      destruct (p + 1 <? U64) eqn:Eu; bools; cbn [hs_catalog hs_catalog_complete hs_next_catalog_page tail default].
      * ands; try done. intros q [= <-]. unfold is_u64 in *. lia.
      * split; [done|]. destruct pgs' as [|q pgs']; [done|]. destruct (proj1 (Hin' q) ltac:(by left)) as [[h Hq] Hge].
        destruct (pl_pages _ _ _ _ _ _ _ Pl q h Hq) as (Huq & _). unfold is_u64 in *. lia.
  - assert (Hoc : hp_catalog hp = None) by (symmetry in Hc; apply bool_decide_eq_false in Hc; destruct (hp_catalog hp); [by destruct Hc|done]).
    assert (Ew : with_catalog None hp = hp) by (destruct hp; cbn in *; by subst). unfold scan_page. rewrite Ec.
    assert (Hd : pgs = match hp_pages hp !! hs_legacy_page_index sc with None => [] | Some p => p :: drop (hs_legacy_page_index sc + 1) (hp_pages hp) end).
    { rewrite Hv. destruct (hp_pages hp !! _) as [p|] eqn:El; [rewrite (drop_S _ p) by done; by rewrite Nat.add_1_r|by apply drop_ge, lookup_ge_None]. }
    destruct (hp_pages hp !! hs_legacy_page_index sc) as [p|] eqn:El; subst pgs; rewrite Hd.
    + eexists _, s, None. rewrite Ew. ands; [eapply settles_step; [done|]; cbv beta; cbn [snd]; rewrite El; by apply settles_const|done|split; [by rewrite <- Hc|done]|done].
    + exists sc, s, None. rewrite Ew. ands; [eapply settles_step; [done|]; cbv beta; cbn [snd]; rewrite El; by apply settles_const|done| |done].
      split; [by rewrite Ec|]. rewrite Ec. by rewrite Hd.
Qed.

(** ** The items *)

Definition item (l : TupleLocator) : res PageError (TupleLocator * bytes) :=
  match G !! l with Some (v, _) => let! x := whole o l v in Val (l, x) | None => Panic end.
Definition remaining (sc : HeapScan) (pgs : list Z) : list TupleLocator :=
  drop (hs_locator_index sc) (hs_locators sc) ++ concat (page_order <$> pgs).
Definition live (l : TupleLocator) : Prop := is_Some (G !! l).

Lemma live_issued w l : holding w -> live l -> issued H l.
Proof.
  intros Hh [[v c] Hl]. pose proof (hh_entries _ _ _ _ _ _ _ _ _ Hh l) as He. rewrite Hl in He. destruct (tuple_at H l) as [t|] eqn:Et; [|done].
  eapply tuple_issued; [apply Hh|exact Et].
Qed.

Lemma next_unfold turns sc : heap_scan_next (S := S) buffers turns sc =
  match hs_locators sc !! hs_locator_index sc with
  | Some l =>
      do r <- caught (heap_get buffers turns l) ;;
      match r with
      | Panic => st_panic
      | _ => st_ret (Some (let! v := r in Val (l, v)), mkHeapScan (hs_catalog sc) (hs_next_catalog_page sc) (hs_catalog_complete sc) (hs_legacy_page_index sc)
                            (hs_locators sc) (hs_locator_index sc + 1))
      end
  | None =>
      do (x, sc1) <- scan_page turns sc ;;
      match x with
      | Err None => st_ret (None, sc1)
      | Err (Some e) => st_ret (Some (Err e), sc1)
      | Panic => st_panic
      | Val p =>
          do r <- caught (page_locators p) ;;
          match r with
          | Val ls => match turns with
                      | O => st_panic
                      | Datatypes.S turns' => heap_scan_next buffers turns' (mkHeapScan (hs_catalog sc1) (hs_next_catalog_page sc1) (hs_catalog_complete sc1)
                                           (hs_legacy_page_index sc1) ls 0)
                      end
          | Err e => st_ret (Some (Err e), sc1)
          | Panic => st_panic
          end
      end
  end.
Proof. by destruct turns. Qed.

Lemma caught_settles {E W A} (m : nat -> st E W A) w r w' : settles m w r w' -> settles (fun t => caught (m t)) w (Val r) w'.
Proof. intros [e Hm]. exists e. intros t Ht. unfold caught. by rewrite Hm. Qed.

(** What one call does. *)
Definition steps (sc : HeapScan) (w : world) (pgs : list Z) : Prop :=
  exists sc' w', settles (fun turns => heap_scan_next buffers turns sc) w (Val (item <$> head (remaining sc pgs), sc')) w' /\ holding w' /\
    (remaining sc pgs <> [] -> exists pgs', visits sc' (snd w') pgs' /\ remaining sc' pgs' = tail (remaining sc pgs) /\ forall p, p ∈ pgs' -> is_Some (H !! p)).

Lemma next_here w sc pgs l : holding w -> visits sc (snd w) pgs -> (forall p, p ∈ pgs -> is_Some (H !! p)) ->
  hs_locators sc !! hs_locator_index sc = Some l -> live l -> steps sc w pgs.
Proof.
  destruct w as [s hp]. cbn [snd]. intros Hh Hv Hin El Hl. unfold steps.
  assert (Hrem : remaining sc pgs = l :: drop (hs_locator_index sc + 1) (hs_locators sc) ++ concat (page_order <$> pgs))
    by (unfold remaining; by rewrite (drop_S _ l _ El), Nat.add_1_r).
  destruct (heap_get_spec ps Hps o buffers Hbuffers k n (s, hp) σ oA H G l Hh (live_issued _ _ Hh Hl)) as (r & s' & E & Hh' & Hr).
  destruct Hl as [[v c] Hl]. rewrite Hl in Hr. subst r. rewrite Hrem.
  exists (mkHeapScan (hs_catalog sc) (hs_next_catalog_page sc) (hs_catalog_complete sc) (hs_legacy_page_index sc) (hs_locators sc) (hs_locator_index sc + 1)), (s', hp). ands; [|done|intros _; exists pgs; ands; [exact Hv|done|done]].
  eapply settles_ext; [intros turns; rewrite next_unfold, El; reflexivity|]. eapply settles_bind; [apply caught_settles; exact E|].
  apply settles_const. cbn [head fmap option_fmap option_map]. unfold item. rewrite Hl. unfold whole. by destruct (_ && _).
Qed.

Lemma next_spec pgs : forall w sc, holding w -> visits sc (snd w) pgs -> (forall p, p ∈ pgs -> is_Some (H !! p)) -> Forall live (remaining sc pgs) ->
  steps sc w pgs.
Proof.
  induction pgs as [|p pgs IH]; intros [s hp] sc Hh Hv Hin Hlive; destruct (hs_locators sc !! hs_locator_index sc) as [l|] eqn:El.
  1,3: apply (next_here _ _ _ l); try done; apply (proj1 (Forall_forall _ _) Hlive); unfold remaining; apply elem_of_app; left;
    rewrite (drop_S _ l _ El); by left.
  all: assert (Hd : drop (hs_locator_index sc) (hs_locators sc) = []) by (by apply drop_ge, lookup_ge_None).
  all: destruct (scan_page_spec s hp sc _ Hh Hv) as (sc1 & s1 & oc & E1 & Hh1 & Hv1 & _); cbn [snd tail] in *.
  - unfold steps, remaining. rewrite Hd. exists sc1, (s1, with_catalog oc hp). ands; [|done|done].
    eapply settles_ext; [intros turns; rewrite next_unfold, El; reflexivity|]. eapply settles_bind; [exact E1|]. by apply settles_const.
  - destruct (page_locators_run s1 (with_catalog oc hp) p Hh1 (Hin p ltac:(by left))) as (s2 & E2 & Hh2).
    set (sc2 := mkHeapScan (hs_catalog sc1) (hs_next_catalog_page sc1) (hs_catalog_complete sc1) (hs_legacy_page_index sc1) (page_order p) 0).
    assert (Hrem : remaining sc (p :: pgs) = remaining sc2 pgs) by (unfold remaining; rewrite Hd; done).
    destruct (IH (s2, with_catalog oc hp) sc2 Hh2 Hv1) as (sc3 & w3 & E3 & Hh3 & Hrest); [intros q Hq; apply Hin; by right|by rewrite <- Hrem|].
    exists sc3, w3. rewrite Hrem. ands; [|done|done]. eapply settles_ext; [intros turns; rewrite next_unfold, El; reflexivity|].
    eapply settles_bind; [exact E1|]. cbv beta iota. eapply (settles_bind (fun _ => caught (page_locators p))); [apply caught_settles, settles_const; exact E2|].
    cbv beta iota. by apply (settles_turn (fun turns => heap_scan_next buffers turns sc2)).
Qed.

Lemma scan_collect_unfold turns sc : heap_scan_collect (S := S) buffers turns sc =
  (do (x, sc') <- heap_scan_next buffers turns sc ;;
   match x with
   | None => st_ret []
   | Some r => match turns with O => st_panic | Datatypes.S turns' => do rest <- heap_scan_collect buffers turns' sc' ;; st_ret (r :: rest) end
   end).
Proof. by destruct turns. Qed.

Lemma scan_from ls : forall w sc pgs, remaining sc pgs = ls -> holding w -> visits sc (snd w) pgs -> (forall p, p ∈ pgs -> is_Some (H !! p)) -> Forall live ls ->
  exists w', settles (fun turns => heap_scan_collect buffers turns sc) w (Val (item <$> ls)) w' /\ holding w'.
Proof.
  induction ls as [|l ls IH]; intros w sc pgs Hrem Hh Hv Hin Hlive; destruct (next_spec pgs w sc Hh Hv Hin) as (sc1 & w1 & E1 & Hh1 & Hrest); try (by rewrite Hrem);
    rewrite Hrem in *.
  - exists w1. split; [|done]. eapply settles_ext; [intros turns; apply scan_collect_unfold|]. eapply settles_bind; [exact E1|]. by apply settles_const.
  - destruct (Hrest ltac:(done)) as (pgs' & Hv' & Hrem' & Hin'). apply Forall_cons in Hlive as [_ Hlive].
    destruct (IH w1 sc1 pgs' Hrem' Hh1 Hv' Hin' Hlive) as (w2 & E2 & Hh2). exists w2. split; [|done].
    eapply settles_ext; [intros turns; apply scan_collect_unfold|]. eapply settles_bind; [exact E1|]. cbv beta iota. cbn [head fmap option_fmap option_map].
    apply (settles_turn (fun turns => do rest <- heap_scan_collect buffers turns sc1 ;; st_ret (item l :: rest))).
    eapply settles_bind; [exact E2|]. by apply settles_const.
Qed.

(** ** A whole scan *)

Lemma page_order_spec w p : holding w -> is_Some (H !! p) -> NoDup (page_order p) /\ forall l, l ∈ page_order p <-> loc_page l = p /\ live l.
Proof.
  intros Hh [h Hp]. pose proof (pl_pages _ _ _ _ _ _ _ (hh_placed _ _ _ _ _ _ _ _ _ Hh)) as Pg. destruct (Pg p h Hp) as (_ & b & Hb & Po).
  destruct (page_locators_spec ps k p b h Po) as (ls & El & Hnd & Hin). unfold page_order. rewrite Hb, El. split; [done|]. intros l. rewrite Hin.
  assert (Hlive : loc_page l = p -> is_Some (ph_tuples h !! key l) <-> live l).
  { intros <-. pose proof (hh_entries _ _ _ _ _ _ _ _ _ Hh l) as He. unfold tuple_at in He. rewrite Hp in He. cbn [mbind option_bind] in He. unfold live.
    by destruct (ph_tuples h !! key l), (G !! l). }
  split; [intros (H1 & H2 & H3); split; [done|by apply Hlive]|]. intros [H1 H2]. apply (Hlive H1) in H2. ands; try done.
  destruct H2 as [t Ht]. apply (tuple_issued ps k σ H l t Pg). unfold tuple_at. by rewrite H1, Hp.
Qed.

Lemma order_spec w pgs : holding w -> NoDup pgs -> (forall p, p ∈ pgs <-> is_Some (H !! p)) ->
  NoDup (concat (page_order <$> pgs)) /\ forall l, l ∈ concat (page_order <$> pgs) <-> live l.
Proof.
  intros Hh Hnd Hin. assert (Hgen : (forall p, p ∈ pgs -> is_Some (H !! p)) ->
    NoDup (concat (page_order <$> pgs)) /\ forall l, l ∈ concat (page_order <$> pgs) <-> loc_page l ∈ pgs /\ live l).
  { clear Hin. induction Hnd as [|p pgs Hp Hnd IH]; intros Hin; cbn [fmap list_fmap concat].
    { split; [apply NoDup_nil_2|]. intros l. rewrite !elem_of_nil. tauto. }
    destruct IH as [IH1 IH2]; [intros q Hq; apply Hin; by right|]. destruct (page_order_spec w p Hh (Hin p ltac:(by left))) as [O1 O2]. split.
    - apply NoDup_app. ands; [done| |done]. intros l [E _]%O2 [Hl _]%IH2. by subst.
    - intros l. rewrite elem_of_app, O2, IH2, elem_of_cons. tauto. }
  destruct Hgen as [H1 H2]; [intros p; apply Hin|]. split; [done|]. intros l. rewrite H2. split; [tauto|]. intros Hl. split; [|done].
  apply Hin. destruct (live_issued w l Hh Hl) as (h & Hp & _). by eexists.
Qed.

Lemma ascending (D : gset Z) : exists pgs, StronglySorted Z.lt pgs /\ forall p, p ∈ pgs <-> p ∈ D.
Proof.
  set (pgs := merge_sort Z.le (elements D)). exists pgs. assert (Hperm : pgs ≡ₚ elements D) by apply merge_sort_Permutation.
  assert (Hs : StronglySorted Z.le pgs) by (apply (StronglySorted_merge_sort Z.le)).
  assert (Hnd : NoDup pgs) by (rewrite Hperm; apply NoDup_elements). split; [|intros p; by rewrite Hperm, elem_of_elements].
  clear Hperm. induction Hs as [|p l Hs IH Hall]; [constructor|]. apply NoDup_cons in Hnd as [Hp Hnd]. constructor; [by apply IH|].
  rewrite Forall_forall in *. intros q Hq. specialize (Hall q Hq). assert (p <> q) by (intros ->; done). lia.
Qed.

(** Every live locator once, each with its value. *)
Lemma scan_spec w : holding w ->
  exists ls w', settles (fun turns => do sc <- heap_scan ;; heap_scan_collect buffers turns sc) w (Val (item <$> ls)) w' /\ holding w' /\
    NoDup ls /\ forall l, l ∈ ls <-> live l.
Proof.
  intros Hh. pose proof (hh_placed _ _ _ _ _ _ _ _ _ Hh) as Pl. set (sc := mkHeapScan (bool_decide (is_Some (hp_catalog (snd w)))) None false 0 [] 0).
  assert (Hpgs : exists pgs, visits sc (snd w) pgs /\ NoDup pgs /\ forall p, p ∈ pgs <-> is_Some (H !! p)).
  { unfold visits. cbn [sc hs_catalog hs_catalog_complete hs_next_catalog_page hs_legacy_page_index default]. case_bool_decide.
    - destruct (ascending (dom H)) as (pgs & Hs & Hin). assert (Hin' : forall p, p ∈ pgs <-> is_Some (H !! p)) by (intros p; by rewrite Hin, elem_of_dom).
      exists pgs. ands; try done; [|clear -Hs; induction Hs as [|x l Hs IH Hall]; constructor; [|done]; intros Hx; rewrite Forall_forall in Hall; specialize (Hall x Hx); lia]. intros p. rewrite Hin'. split; [|tauto].
      intros [h Hp]. split; [done|]. destruct (pl_pages _ _ _ _ _ _ _ Pl p h Hp) as ([? _] & _). done.
    - exists (hp_pages (snd w)). split; [done|]. split; apply Pl. }
  destruct Hpgs as (pgs & Hv & Hnd & Hin). destruct (order_spec w pgs Hh Hnd Hin) as [O1 O2].
  destruct (scan_from (concat (page_order <$> pgs)) w sc pgs) as (w' & E & Hh'); [done|done|done|intros p; apply Hin|apply Forall_forall; intros l; apply O2|].
  exists (concat (page_order <$> pgs)), w'. by ands.
Qed.
End Scan.
