(* ===== verification/HeapTheorems.v ===== *)
(** * The heap file as a store of values

    A client keeps the locators the heap hands out, one per value it stores, and
    uses them to read, replace and remove.  Over any sequence of calls the heap
    answers as a list of values does, whatever pages the tuples and the chains
    end up on, with or without a catalog. *)

From stdpp Require Import base tactics list numbers gmap.
From Stdlib Require Import ZArith Lia.
From S2P Require Import Prelude Turns Bytes Errors PageFormat Slotted SlottedTrace PageStore Pager Pool PoolShard PoolPager PoolFrees.
From S2P Require Import BTree BTreeTheorems Catalog CatalogSpec Overflow OverflowSpec Heap HeapPage HeapSpec HeapValues HeapScan.
From S2P Require Import PoolTheorems.
Local Open Scope Z_scope.
Local Open Scope bic_scope.

(** ** What a client does and sees *)

(** Values are named by the order they were inserted in. *)
Inductive HeapOp :=
| HInsert (v : bytes)
| HUpdate (i : nat) (v : bytes)
| HDelete (i : nat) (tell_catalog : bool)
| HGet (i : nat)
| HPrefix (i : nat) (m : Z)
| HStorage (i : nat)
| HLength (i : nat)
| HScan
| HFlush.

(** An answer, without the page numbers of errors. *)
Inductive Seen :=
| SDone
| SBytes (v : bytes)
| SLength (n : Z)
| SStorage (bytes pages : Z)
| STooLarge (len max : Z)
| SGone
| SNoHandle
| SFailed.

Definition seen {A} (f : A -> Seen) (r : pres A) : Seen :=
  match r with
  | Val a => f a
  | Err (ValueTooLarge _ len max) => STooLarge len max
  | Err e => if gone e then SGone else SFailed
  | Panic => SFailed
  end.

(** One answer, or those of a scan in some order. *)
Inductive HeapAnswer := One (x : Seen) | Many (xs : list Seen).
Definition agree (a b : HeapAnswer) : Prop :=
  match a, b with One x, One y => x = y | Many xs, Many ys => xs ≡ₚ ys | _, _ => False end.

Section Client.
Context {S : Type} {P : Pager S} (buffers : nat -> Z).
Abbreviation world := (S * HeapFile)%type.
Abbreviation hst := (st PageError world).

(** A call through the [i]-th locator. *)
Definition through {A} (hs : list TupleLocator) (i : nat) (m : TupleLocator -> hst A) (f : TupleLocator -> A -> Seen) : hst (HeapAnswer * list TupleLocator) :=
  match hs !! i with
  | None => st_ret (One SNoHandle, hs)
  | Some l => do r <- caught (m l) ;; st_ret (One (seen (f l) r), hs)
  end.

Definition heap_exec (turns : nat) (op : HeapOp) (hs : list TupleLocator) : hst (HeapAnswer * list TupleLocator) :=
  match op with
  | HInsert v =>
      do r <- caught (heap_insert turns v) ;;
      st_ret (One (seen (fun _ => SDone) r), match r with Val l => hs ++ [l] | _ => hs end)
  | HUpdate i v =>
      match hs !! i with
      | None => st_ret (One SNoHandle, hs)
      | Some l =>
          do r <- caught (heap_update turns l v) ;;
          st_ret (One (seen (fun _ => SDone) r), match r with Val l' => <[i := l']> hs | _ => hs end)
      end
  | HDelete i tell => through hs i (fun l => if tell : bool then heap_delete turns l else delete_for_vacuum turns l) (fun _ _ => SDone)
  | HGet i => through hs i (heap_get buffers turns) (fun _ v => SBytes v)
  | HPrefix i m => through hs i (fun l => read_prefix turns l m) (fun _ v => SBytes v)
  | HStorage i => through hs i value_storage (fun _ x => SStorage (fst x) (snd x))
  | HLength i => through hs i value_len (fun _ n => SLength n)
  | HScan =>
      do rs <- (do sc <- heap_scan ;; heap_scan_collect buffers turns sc) ;;
      st_ret (Many (seen (fun x => SBytes (snd x)) <$> rs), hs)
  | HFlush => heap_flush ;;; st_ret (One SDone, hs)
  end.

Fixpoint heap_runs (turns : nat) (ops : list HeapOp) (hs : list TupleLocator) : hst (list HeapAnswer * list TupleLocator) :=
  match ops with
  | [] => st_ret ([], hs)
  | op :: ops' =>
      do (a, hs') <- heap_exec turns op hs ;;
      do (rest, hs'') <- heap_runs turns ops' hs' ;;
      st_ret (a :: rest, hs'')
  end.

(** A new heap file, with a catalog of its own or without. *)
Definition heap_start (attach : bool) (o : HeapOptions) (s : S) : res PageError HeapFile * S :=
  if attach then (do c <- cat_create ;; st_ret (set_catalog c (heap_new o))) s else (Val (heap_new o), s).
End Client.

(** ** The list of values *)

Section Spec.
Context (ps : Z) (o : HeapOptions).

Definition spec_whole (v : bytes) : Seen :=
  if (inline_limit o <? blen v) && (max_value_bytes o <? blen v) then STooLarge (blen v) (max_value_bytes o) else SBytes v.

(** The [i]-th value: never inserted, removed, or there. *)
Definition spec_through (vs : list (option bytes)) (i : nat) (f : bytes -> Seen) : HeapAnswer :=
  One (match vs !! i with None => SNoHandle | Some None => SGone | Some (Some v) => f v end).

Definition heap_spec (op : HeapOp) (vs : list (option bytes)) : HeapAnswer * list (option bytes) :=
  match op with
  | HInsert v => if bool_decide (v = []) then (One (STooLarge 0 0), vs) else (One SDone, vs ++ [Some v])
  | HUpdate i v =>
      match vs !! i with
      | None => (One SNoHandle, vs)
      | Some old => if bool_decide (v = []) then (One (STooLarge 0 0), vs)
                    else match old with None => (One SGone, vs) | Some _ => (One SDone, <[i := Some v]> vs) end
      end
  | HDelete i _ => (spec_through vs i (fun _ => SDone), <[i := None]> vs)
  | HGet i => (spec_through vs i spec_whole, vs)
  | HPrefix i m =>
      (match vs !! i with
       | Some _ => if m =? 0 then One (SBytes []) else spec_through vs i (fun v => SBytes (take (Z.to_nat m) v))
       | None => One SNoHandle
       end, vs)
  | HStorage i => (spec_through vs i (fun v => let '(n, p) := storage ps o v in SStorage n p), vs)
  | HLength i => (spec_through vs i (fun v => SLength (blen v)), vs)
  | HScan => (Many (spec_whole <$> omap id vs), vs)
  | HFlush => (One SDone, vs)
  end.

Fixpoint spec_runs (ops : list HeapOp) (vs : list (option bytes)) : list HeapAnswer * list (option bytes) :=
  match ops with
  | [] => ([], vs)
  | op :: ops' => let '(a, vs') := heap_spec op vs in let '(rest, vs'') := spec_runs ops' vs' in (a :: rest, vs'')
  end.

(** The values are bytes and their lengths fit 64 bits. *)
Definition op_ok (op : HeapOp) : Prop :=
  match op with
  | HInsert v | HUpdate _ v => bytes_ok v /\ blen v < U64
  | HPrefix _ m => 0 <= m
  | _ => True
  end.

(** Pages a call may take. *)
Definition op_cost (op : HeapOp) : nat :=
  match op with
  | HInsert v | HUpdate _ v => value_pages ps v + 131
  | HDelete _ _ => 65
  | _ => 0
  end.
End Spec.

(** ** The simulation *)

Section Simulation.
Context {S : Type} {P : Pager S} {L : PagerLaws S} {F : PagerFrees S} (ps : Z).
Hypothesis Hps : 512 <= ps <= 65536.
Context (o : HeapOptions).
Hypothesis Hinline : 0 <= inline_limit o /\ inline_limit o + 1 + SLOT_BYTES <= ps - 72.
Variable buffers : nat -> Z.
Hypothesis Hbuffers : forall i, 0 < buffers i.
Abbreviation world := (S * HeapFile)%type.
Abbreviation links := (list (Z * bytes)).

(** The locators [hs] name the values [vs], and there are no other values. *)
Record tracks (hs : list TupleLocator) (vs : list (option bytes)) (H : gmap Z PageHist) (G : gmap TupleLocator (bytes * links)) : Prop := {
  tk_length : length hs = length vs;
  tk_issued : forall l, l ∈ hs -> issued H l;
  tk_values : forall i l ov, hs !! i = Some l -> vs !! i = Some ov -> fst <$> G !! l = ov;
  tk_distinct : NoDup hs;
  tk_all : forall l, is_Some (G !! l) -> l ∈ hs
}.

Definition sim (k : Z) (n : nat) (w : world) (hs : list TupleLocator) (vs : list (option bytes)) : Prop :=
  exists σ oA H G, holds ps o k n w σ oA H G /\ tracks hs vs H G.

Lemma sim_weaken k k' m n w hs vs : k <= k' -> (n <= m)%nat -> sim k m w hs vs -> sim k' n w hs vs.
Proof. intros Hk Hn (σ & oA & H & G & Hh & T). exists σ, oA, H, G. split; [by eapply holds_weaken|done]. Qed.

Lemma tracks_lookup hs vs H G i : tracks hs vs H G ->
  match hs !! i, vs !! i with Some l, Some ov => issued H l /\ fst <$> G !! l = ov | None, None => True | _, _ => False end.
Proof.
  intros [T0 T1 T2 _ _]. destruct (hs !! i) as [l|] eqn:El, (vs !! i) as [ov|] eqn:Ev; try done.
  - split; [|by eapply T2]. apply T1. by eapply list_elem_of_lookup_2.
  - apply lookup_lt_Some in El. apply lookup_ge_None in Ev. lia.
  - apply lookup_lt_Some in Ev. apply lookup_ge_None in El. lia.
Qed.

(** A value more. *)
Lemma tracks_more hs vs H G H' l v c : tracks hs vs H G -> (forall l', issued H' l' <-> l' = l \/ issued H l') -> ~ issued H l ->
  tracks (hs ++ [l]) (vs ++ [Some v]) H' (<[l := (v, c)]> G).
Proof.
  intros [T0 T1 T2 T3 T4] Hi Hn. split.
  - rewrite !length_app. cbn. lia.
  - intros l'. rewrite elem_of_app, list_elem_of_singleton. intros [?| ->]; apply Hi; [right; by apply T1|by left].
  - intros i l' ov. rewrite !lookup_app_Some. intros [H1|[H1 H2]] [H3|[H3 H4]].
    + rewrite lookup_insert_ne; [by eapply T2|]. intros <-. by eapply Hn, T1, list_elem_of_lookup_2.
    + apply lookup_lt_Some in H1. lia.
    + apply lookup_lt_Some in H3. lia.
    + apply list_lookup_singleton_Some in H2 as [_ <-], H4 as [_ <-]. by rewrite lookup_insert_eq.
  - apply NoDup_app. ands; [done| |by apply NoDup_singleton]. intros l' Hl' ->%list_elem_of_singleton. by apply Hn, T1.
  - intros l'. rewrite lookup_insert_is_Some, elem_of_app, list_elem_of_singleton. intros [->|[_ Hg]]; [by right|left; by apply T4].
Qed.

(** Another value, or none, under the [i]-th locator, which may change. *)
Lemma tracks_at hs vs H G H' G' i l l' : tracks hs vs H G -> hs !! i = Some l -> (l' = l \/ ~ issued H l') ->
  (forall l0, issued H l0 -> issued H' l0) -> issued H' l' ->
  (forall l0, l0 <> l' -> G' !! l0 = if decide (l0 = l) then None else G !! l0) ->
  tracks (<[i := l']> hs) (<[i := fst <$> G' !! l']> vs) H' G'.
Proof.
  intros [T0 T1 T2 T3 T4] Hi Hl' Hiss Hil HG. pose proof (lookup_lt_Some _ _ _ Hi) as Hlt.
  assert (Hnew : forall j l0, hs !! j = Some l0 -> j <> i -> l0 <> l' /\ l0 <> l).
  { intros j l0 Hj Hne. assert (l0 <> l) by (intros ->; apply Hne; by eapply NoDup_lookup). split; [|done]. intros ->.
    destruct Hl' as [?|Hn]; [done|]. by eapply Hn, T1, list_elem_of_lookup_2. }
  split.
  - by rewrite !length_insert.
  - intros l0 (j & Hj)%list_elem_of_lookup. apply list_lookup_insert_Some in Hj as [(_ & <- & _)|[_ Hj]]; [done|].
    by eapply Hiss, T1, list_elem_of_lookup_2.
  - intros j l0 ov. rewrite !list_lookup_insert_Some. intros [(<- & <- & _)|[Hne Hj]] [(Ei & <- & _)|[Hne' Hv]]; try done.
    destruct (Hnew j l0 Hj ltac:(congruence)). rewrite HG, decide_False by done. by eapply T2.
  - apply NoDup_alt. intros j1 j2 l0. rewrite !list_lookup_insert_Some. intros [(<- & <- & _)|[Hne Hj]] [(<- & E & _)|[Hne' Hj']]; try done.
    + by destruct (Hnew j2 l' Hj').
    + subst l0. by destruct (Hnew j1 l' Hj).
    + by eapply NoDup_lookup.
  - intros l0 Hg. destruct (decide (l0 = l')) as [->|Hne]; [eapply list_elem_of_lookup_2, list_lookup_insert_eq; done|].
    rewrite HG in Hg by done. destruct (decide (l0 = l)) as [->|Hn]; [by destruct Hg|]. apply T4, list_elem_of_lookup in Hg as (j & Hj).
    apply (list_elem_of_lookup_2 _ j). rewrite list_lookup_insert_ne; [done|]. intros <-. congruence.
Qed.

(** ** The calls *)

(** The call [m] ends as the list of values says, with the values [vs'] left. *)
Definition steps_to (m : nat -> st PageError world (HeapAnswer * list TupleLocator)) (k : Z) (n : nat) (w : world)
    (spec : HeapAnswer * list (option bytes)) : Prop :=
  exists a hs' w', settles m w (Val (a, hs')) w' /\ agree a (fst spec) /\ sim k n w' hs' (snd spec).

Lemma seen_gone {A} (f : A -> Seen) e : gone e = true -> seen f (Err e) = SGone.
Proof. by destruct e. Qed.

(** Calls that only read. *)
Lemma read_steps {A} (m : nat -> TupleLocator -> st PageError world A) (f : A -> Seen) (answer : TupleLocator -> bytes -> pres A) (g : bytes -> Seen) k n w hs vs i :
  sim k n w hs vs -> (forall l v, seen f (answer l v) = g v) ->
  (forall σ oA H G l, holds ps o k n w σ oA H G -> issued H l -> reads_as ps o (fun t => m t l) k n w σ oA H G l (answer l)) ->
  steps_to (fun t => through hs i (m t) (fun _ => f)) k n w (spec_through vs i g, vs).
Proof.
  intros Hsim Hg Hm. pose proof Hsim as (σ & oA & H & G & Hh & T). pose proof (tracks_lookup _ _ _ _ i T) as Hi. unfold steps_to, through, spec_through.
  destruct (hs !! i) as [l|], (vs !! i) as [ov|]; try done.
  - destruct Hi as [Hi Hv]. destruct (Hm σ oA H G l Hh Hi) as (r & s' & E & Hh' & Hr). eexists _, hs, (s', snd w).
    ands; [eapply settles_bind; [apply caught_settles; exact E|by apply settles_const]| |by exists σ, oA, H, G]. cbn. subst ov.
    destruct (G !! l) as [[v c]|]; cbn; [by rewrite Hr|]. destruct Hr as (e & -> & Hgo). by apply seen_gone.
  - exists (One SNoHandle), hs, w. ands; [by apply settles_const|done|done].
Qed.

Lemma get_steps k n w hs vs i : sim k n w hs vs -> steps_to (fun t => heap_exec buffers t (HGet i) hs) k n w (heap_spec ps o (HGet i) vs).
Proof.
  intros Hsim. apply (read_steps (fun t l => heap_get buffers t l) SBytes (whole o)); [done| |].
  - intros l v. unfold whole, spec_whole. by destruct (_ && _).
  - intros. by apply heap_get_spec.
Qed.

Lemma length_steps k n w hs vs i : sim k n w hs vs -> steps_to (fun t => heap_exec buffers t (HLength i) hs) k n w (heap_spec ps o (HLength i) vs).
Proof.
  intros Hsim. apply (read_steps (fun _ l => value_len l) SLength (fun _ v => Val (blen v))); [done|done|]. intros. by apply value_len_spec.
Qed.

Lemma storage_steps k n w hs vs i : sim k n w hs vs -> steps_to (fun t => heap_exec buffers t (HStorage i) hs) k n w (heap_spec ps o (HStorage i) vs).
Proof.
  intros Hsim. apply (read_steps (fun _ l => value_storage l) (fun x => SStorage (fst x) (snd x)) (fun _ v => Val (storage ps o v))); [done|done|].
  intros. by apply value_storage_spec.
Qed.

Lemma prefix_steps k n w hs vs i m : sim k n w hs vs -> 0 <= m ->
  steps_to (fun t => heap_exec buffers t (HPrefix i m) hs) k n w (heap_spec ps o (HPrefix i m) vs).
Proof.
  intros Hsim Hm. cbn [heap_spec]. destruct (decide (m = 0)) as [->|Hne].
  - pose proof Hsim as (σ & oA & H & G & Hh & T). pose proof (tracks_lookup _ _ _ _ i T) as Hi. cbn [Z.eqb].
    unfold steps_to. cbn [heap_exec]. unfold through. destruct (hs !! i) as [l|], (vs !! i) as [ov|]; try done.
    + exists (One (SBytes [])), hs, w. ands; [by apply settles_const|done|done].
    + exists (One SNoHandle), hs, w. ands; [by apply settles_const|done|done].
  - assert (E : match vs !! i with Some _ => if m =? 0 then One (SBytes []) else spec_through vs i (fun v => SBytes (take (Z.to_nat m) v)) | None => One SNoHandle end =
      spec_through vs i (fun v => SBytes (take (Z.to_nat m) v))) by (rewrite (proj2 (Z.eqb_neq m 0)) by done; unfold spec_through; by destruct (vs !! i)).
    rewrite E. apply (read_steps (fun t l => read_prefix t l m) SBytes (fun _ v => Val (take (Z.to_nat m) v))); [done|done|].
    intros. apply read_prefix_spec; [done|done|done|lia].
Qed.

Lemma insert_steps k n w hs vs v : sim k (op_cost ps (HInsert v) + n) w hs vs -> 0 <= k /\ k + 1 < U32 -> op_ok (HInsert v) ->
  steps_to (fun t => heap_exec buffers t (HInsert v) hs) (k + 1) n w (heap_spec ps o (HInsert v) vs).
Proof.
  intros Hsim Hk [Hb Hl]. unfold steps_to. cbn [heap_spec heap_exec op_cost] in *. case_bool_decide as Hv.
  - subst v. exists (One (STooLarge 0 0)), hs, w. ands; [|done|eapply sim_weaken, Hsim; lia].
    eapply settles_bind; [apply caught_settles, settles_const; reflexivity|]. by apply settles_const.
  - destruct Hsim as (σ & oA & H & G & Hh & T). rewrite <- Nat.add_assoc in Hh.
    destruct (heap_insert_spec ps Hps o Hinline k n w σ oA H G v Hh Hk) as (l & w' & σ' & oA' & H' & c & E & Hh' & Hi & Hn & _); [done|].
    exists (One SDone), (hs ++ [l]), w'. ands; [eapply settles_bind; [apply caught_settles; exact E|by apply settles_const]|done|].
    exists σ', oA', H', (<[l := (v, c)]> G). split; [done|]. by eapply tracks_more.
Qed.

Lemma update_steps k n w hs vs i v : sim k (op_cost ps (HUpdate i v) + n) w hs vs -> 0 <= k /\ k + 1 < U32 -> op_ok (HUpdate i v) ->
  steps_to (fun t => heap_exec buffers t (HUpdate i v) hs) (k + 1) n w (heap_spec ps o (HUpdate i v) vs).
Proof.
  intros Hsim Hk [Hb Hl]. pose proof Hsim as (σ & oA & H & G & Hh & T). pose proof (tracks_lookup _ _ _ _ i T) as Hi.
  assert (Hsim' : sim (k + 1) n w hs vs) by (eapply sim_weaken, Hsim; lia).
  unfold steps_to. cbn [heap_spec heap_exec op_cost] in *. destruct (hs !! i) as [l|] eqn:El, (vs !! i) as [ov|]; try done.
  2: { exists (One SNoHandle), hs, w. ands; [by apply settles_const|done|done]. }
  destruct Hi as [Hi Hov]. case_bool_decide as Hv.
  { subst v. exists (One (STooLarge 0 0)), hs, w. ands; [|done|done]. eapply settles_bind; [apply caught_settles, settles_const; reflexivity|]. by apply settles_const. }
  rewrite <- Nat.add_assoc in Hh. destruct (heap_update_spec ps Hps o Hinline k n w σ oA H G l v Hh Hk Hi) as (r & w' & σ' & oA' & H' & E & Hr); [done|].
  destruct (G !! l) as [[v0 c0]|]; cbn in Hov; subst ov.
  - destruct Hr as (l' & c & -> & Hh' & Hi' & Hl' & _). exists (One SDone), (<[i := l']> hs), w'.
    ands; [eapply settles_bind; [apply caught_settles; exact E|by apply settles_const]|done|]. exists σ', oA', H', (<[l' := (v, c)]> (base.delete l G)). split; [done|].
    cbn [snd]. replace (Some v) with (fst <$> <[l' := (v, c)]> (base.delete l G) !! l') by (by rewrite lookup_insert_eq).
    apply (tracks_at hs vs H G H' _ i l l'); try done; [intros l0 H0; apply Hi'; by right|apply Hi'; by left|].
    intros l0 Hne. rewrite lookup_insert_ne by done. destruct (decide (l0 = l)) as [->|]; [apply lookup_delete_eq|by apply lookup_delete_ne].
  - destruct Hr as (-> & Hh' & e & -> & Hg). exists (One SGone), hs, w'.
    ands; [|done|by exists σ', oA', H, G]. eapply settles_bind; [apply caught_settles; exact E|]. apply settles_const. by rewrite seen_gone.
Qed.

Lemma delete_steps k n w hs vs i tell : sim k (op_cost ps (HDelete i tell) + n) w hs vs ->
  steps_to (fun t => heap_exec buffers t (HDelete i tell) hs) k n w (heap_spec ps o (HDelete i tell) vs).
Proof.
  intros Hsim. pose proof Hsim as (σ & oA & H & G & Hh & T). pose proof (tracks_lookup _ _ _ _ i T) as Hi.
  unfold steps_to. cbn [heap_spec heap_exec op_cost] in *. unfold through, spec_through. destruct (hs !! i) as [l|] eqn:El, (vs !! i) as [ov|] eqn:Ev; try done.
  2: { exists (One SNoHandle), hs, w. ands; [by apply settles_const|done|]. cbn [snd]. rewrite list_insert_ge by (by apply lookup_ge_None). eapply sim_weaken, Hsim; lia. }
  destruct Hi as [Hi Hov]. destruct (delete_spec ps Hps o k n w σ oA H G l tell Hh Hi) as (r & w' & σ' & oA' & H' & E & Hh' & Hi' & Hr).
  assert (E' : settles (fun t => if tell then heap_delete t l else delete_for_vacuum t l) w r w') by (by destruct tell).
  assert (T' : tracks hs (<[i := None]> vs) H' (base.delete l G)).
  { rewrite <- (list_insert_id hs i l El). replace None with (fst <$> base.delete l G !! l) by (by rewrite lookup_delete_eq).
    apply (tracks_at hs vs H G H' _ i l l); [done|done|by left|intros l0; apply Hi'|by apply Hi'|].
    intros l0 Hne. rewrite decide_False by done. by apply lookup_delete_ne. }
  exists (One (seen (fun _ => SDone) r)), hs, w'. ands; [eapply settles_bind; [apply caught_settles; exact E'|by apply settles_const]| |by exists σ', oA', H', (base.delete l G)].
  cbn. subst ov. destruct (G !! l) as [[v c]|]; cbn; [by subst r|]. destruct Hr as (e & -> & Hg). by apply seen_gone.
Qed.

Lemma flush_steps k n w hs vs : sim k n w hs vs -> steps_to (fun t => heap_exec buffers t HFlush hs) k n w (heap_spec ps o HFlush vs).
Proof.
  intros (σ & oA & H & G & Hh & T). destruct (heap_flush_spec ps o k n w σ oA H G Hh) as (s' & E & Hh'). exists (One SDone), hs, (s', snd w).
  ands; [|done|by exists σ, oA, H, G]. cbn [heap_exec]. eapply settles_step; [exact E|by apply settles_const].
Qed.

(** The values in the order of their locators. *)
Lemma values_in_order (G : gmap TupleLocator (bytes * links)) (f : bytes -> Seen) hs : forall vs, length hs = length vs ->
  (forall i l ov, hs !! i = Some l -> vs !! i = Some ov -> fst <$> G !! l = ov) ->
  omap (fun l => f ∘ fst <$> G !! l) hs = f <$> omap id vs.
Proof.
  induction hs as [|l hs IH]; intros [|ov vs] Hlen Hv; try done. cbn in Hlen. pose proof (Hv 0%nat l ov eq_refl eq_refl) as H0.
  assert (E : omap (fun l => f ∘ fst <$> G !! l) hs = f <$> omap id vs) by (apply IH; [lia|]; intros i; exact (Hv (Datatypes.S i))).
  cbn. rewrite E. subst ov. by destruct (G !! l) as [[v c]|].
Qed.

Lemma scan_steps k n w hs vs : sim k n w hs vs -> steps_to (fun t => heap_exec buffers t HScan hs) k n w (heap_spec ps o HScan vs).
Proof.
  intros (σ & oA & H & G & Hh & T). destruct (scan_spec ps Hps o buffers Hbuffers k n σ oA H G w Hh) as (ls & w' & E & Hh' & Hnd & Hin).
  eexists _, hs, w'. ands; [cbn [heap_exec]; eapply settles_bind; [exact E|by apply settles_const]| |by exists σ, oA, H, G].
  cbn [heap_spec fst agree]. destruct T as [T0 T1 T2 T3 T4]. rewrite <- (values_in_order G (spec_whole o) hs vs) by done.
  set (g l := spec_whole o ∘ fst <$> G !! l). assert (Hls : (seen (fun x => SBytes (snd x)) <$> (item o G <$> ls)) = omap g ls).
  { assert (Hl : Forall (fun l => is_Some (G !! l)) ls) by (apply Forall_forall; intros l Hl; by apply Hin). clear -Hl. induction Hl as [|l ls [[v c] Hl] _ IH]; [done|].
    cbn. unfold g at 1. unfold item at 1. rewrite Hl. cbn. f_equal; [|exact IH]. unfold whole, spec_whole. by destruct (_ && _). }
  rewrite Hls. assert (Hp : ls ≡ₚ filter (fun l => is_Some (G !! l)) hs).
  { apply NoDup_Permutation; [done|by apply NoDup_filter|]. intros l. rewrite list_elem_of_filter, Hin. unfold live. split; [intros Hl; split; [done|by apply T4]|tauto]. }
  rewrite Hp. clear. induction hs as [|l hs IH]; [done|]. destruct (decide (is_Some (G !! l))) as [Hl|Hl].
  - rewrite filter_cons_True by done. cbn. destruct (g l); by rewrite IH.
  - rewrite filter_cons_False by done. cbn. unfold g at 2. destruct (G !! l); [by destruct Hl|]. exact IH.
Qed.

(** Every call. *)
Lemma exec_steps k n w hs vs op : sim k (op_cost ps op + n) w hs vs -> 0 <= k /\ k + 1 < U32 -> op_ok op ->
  steps_to (fun t => heap_exec buffers t op hs) (k + 1) n w (heap_spec ps o op vs).
Proof.
  intros Hsim Hk Hok. assert (Hread : forall m spec, steps_to m k n w spec -> steps_to m (k + 1) n w spec).
  { intros m spec (a & hs' & w' & H1 & H2 & H3). exists a, hs', w'. ands; try done. eapply sim_weaken, H3; lia. }
  destruct op; [by apply insert_steps|by apply update_steps|apply Hread..].
  - by apply delete_steps.
  - by apply get_steps.
  - by apply prefix_steps.
  - by apply storage_steps.
  - by apply length_steps.
  - by apply scan_steps.
  - by apply flush_steps.
Qed.

Lemma runs_steps ops : forall k n w hs vs, sim k (sum_list (op_cost ps <$> ops) + n) w hs vs -> 0 <= k -> k + Z.of_nat (length ops) < U32 -> Forall op_ok ops ->
  exists answers hs' w', settles (fun t => heap_runs buffers t ops hs) w (Val (answers, hs')) w' /\
    Forall2 agree answers (fst (spec_runs ps o ops vs)) /\ sim (k + Z.of_nat (length ops)) n w' hs' (snd (spec_runs ps o ops vs)).
Proof.
  induction ops as [|op ops IH]; intros k n w hs vs Hsim Hk Hlen Hok.
  { exists [], hs, w. ands; [by apply settles_const|constructor|]. cbn. by rewrite Z.add_0_r. }
  apply Forall_cons in Hok as [Hop Hok]. cbn [fmap list_fmap sum_list length] in *. rewrite <- Nat.add_assoc in Hsim.
  destruct (exec_steps k _ w hs vs op Hsim ltac:(lia) Hop) as (a & hs1 & w1 & E1 & Ha & Hsim1). cbn [spec_runs]. destruct (heap_spec ps o op vs) as [a' vs1].
  destruct (IH (k + 1) n w1 hs1 vs1 Hsim1 ltac:(lia) ltac:(lia) Hok) as (rest & hs2 & w2 & E2 & Hr & Hsim2). destruct (spec_runs ps o ops vs1) as [rest' vs2].
  exists (a :: rest), hs2, w2. ands; [|by constructor|cbn in *; by replace (k + Z.of_nat (Datatypes.S (length ops))) with (k + 1 + Z.of_nat (length ops)) by lia].
  cbn [heap_runs]. eapply settles_bind; [exact E1|]. cbv beta iota. eapply settles_bind; [exact E2|]. by apply settles_const.
Qed.
End Simulation.

Lemma start_sim {S} {P : Pager S} {L : PagerLaws S} {F : PagerFrees S} ps o attach n s : 512 <= ps <= 65536 -> pg_models ps (1 + n) s ∅ ->
  exists hp s', heap_start attach o s = (Val hp, s') /\ sim ps o 0 n (s', hp) [] [].
Proof.
  intros Hps M. assert (Hstart : forall oc oA s', backed oc oA ps n s' ∅ -> (forall A, oA = Some A -> A = ac_empty) ->
    sim ps o 0 n (s', mkHeap o oc [] []) [] []).
  { intros oc oA s' B Hempty. exists ∅, oA, ∅, ∅. split; [by apply holds_fresh|]. split; [done| | |apply NoDup_nil_2|].
    - by intros l ?%not_elem_of_nil.
    - done.
    - intros l. rewrite lookup_empty. by intros []. }
  unfold heap_start. destruct attach.
  - destruct (cat_create_spec ps Hps n s ∅ M) as (c & s' & E & C). eexists _, s'. split; [unfold st_bind; by rewrite E|].
    apply (Hstart (Some c) (Some ac_empty)); [exact C|]. by intros A [= <-].
  - eexists _, s. split; [done|]. apply (Hstart None None); [|done]. exact (pg_weaken_law _ _ _ _ M).
Qed.

(** ** Claims, for any pool that keeps its pages and frees them *)

Section Claims.
Context {S : Type} {P : Pager S} {L : PagerLaws S} {F : PagerFrees S}.
Variables (ps : Z) (o : HeapOptions) (attach : bool) (buffers : nat -> Z) (ops : list HeapOp) (s : S) (σ0 : gmap Z bytes).
Hypothesis Hps : 512 <= ps <= 65536.
Hypothesis Hinline : 0 <= inline_limit o /\ inline_limit o + 1 + SLOT_BYTES <= ps - 72.
Hypothesis Hbuffers : forall i, 0 < buffers i.
Hypothesis Hops : Forall op_ok ops.
Hypothesis Hlength : Z.of_nat (length ops) < U32.
Hypothesis Hmodels : pg_models ps (1 + sum_list (op_cost ps <$> ops)) s σ0.

End Claims.

(** ** Witness *)

Definition demo_options : HeapOptions := for_page_size 512.
Definition demo_heap_ops : list HeapOp :=
  [HInsert [5; 6]; HInsert (replicate 500 7); HGet 0; HPrefix 1 3; HUpdate 0 (replicate 130 8); HLength 0; HDelete 1 true; HGet 1;
   HInsert [9]; HStorage 0; HScan; HFlush; HInsert []; HGet 7].

Lemma demo_heap_ops_ok : Forall op_ok demo_heap_ops.
Proof.
  repeat (apply Forall_cons; split; [cbn [op_ok]; first [done|lia|split; [first [apply Forall_replicate|repeat constructor]; widths; lia|by vm_compute]]|]).
  by apply Forall_nil.
Qed.


(** ** The free-space map may overstate a page's room

    Two runs of the heap file with a catalog, evaluated.  An insertion that lands
    on a page of the ring leaves the page's free-space entry as it was, so an entry
    can name a class the page no longer has room for.  Forgetting the page removes
    the entry of its true class only; when the page is then used for an overflow
    chain, the entry left behind sends the next tuples into the chain. *)

#[local] Existing Instance demo_pager.
Abbreviation run A := (st PageError (BufferPool (list (Z * bytes)) * HeapFile) A).

(** Start a heap with a catalog and run [m]. *)
Definition from_start {A} (m : run A) : pres A :=
  match heap_start true (for_page_size 512) (with_barrier (Some []) demo_pool) with
  | (Val hp, s) => fst (m (s, hp))
  | (Err e, _) => Err e
  | (Panic, _) => Panic
  end.

(** Fill one page; the last tuple is placed through the ring. *)
Definition fill : run (list TupleLocator) :=
  do l1 <- heap_insert 10 (replicate 110 1) ;;
  do l2 <- heap_insert 10 (replicate 110 2) ;;
  do l3 <- heap_insert 10 (replicate 110 3) ;;
  do l4 <- heap_insert 10 (replicate 71 4) ;;
  st_ret [l1; l2; l3; l4].

(** The page found for 49 bytes and the room it has. *)
Definition overstated : run (option Z * Z) :=
  fill ;;;
  do found <- in_catalog (find_page_with_room 10 49) ;;
  match found with
  | Some (Some p) => do free <- free_space_of p ;; st_ret (Some p, free)
  | _ => st_ret (None, 0)
  end.

(** [paged.rs] 3077-3086 and 3090-3093: what vacuum does with a dead page. *)
Definition vacuum_page (p : Z) : run unit :=
  do b <- in_pool (pg_get Search p) ;;
  do floor <- st_lift (max_generation b) ;;
  do free_bytes <- st_lift (free_space b) ;;
  in_catalog (set_page_generation_floor p floor) ;;;
  in_catalog (cat_forget_page p free_bytes) ;;;
  modify (fun w => (fst w, heap_forget_page p (snd w))) ;;;
  in_pool (pg_free p).

(** Empty the page, free it, and store a large value and a small one. *)
Definition overwritten_chain : run (bytes * bool) :=
  do ls <- fill ;;
  forM (fun l => delete_for_vacuum 10 l) ls ;;;
  vacuum_page 2 ;;;
  do large <- heap_insert 10 (replicate 400 5) ;;
  heap_insert 10 (replicate 60 6) ;;;
  do v <- heap_get (fun _ => 512) 10 large ;;
  st_ret (take 4 v, bool_decide (v = replicate 400 5)).

(** The catalog hands back a page with 3 free bytes for a tuple that needs 49. *)
Lemma free_space_map_overstates : from_start overstated = Val (Some 2, 3).
Proof. by vm_compute. Qed.

(** The large value does not read back: the reference to it and the small value
    were placed on its own overflow page. *)
Lemma stale_entry_overwrites_a_chain : from_start overwritten_chain = Val ([231; 1; 17; 0], false).
Proof. by vm_compute. Qed.
