(* ===== verification/RootMoves.v ===== *)
(** * Roots that move

    A tree grows a new root when its old one splits.  Whoever recorded the root
    elsewhere learns of it from a mark the tree sets: as long as the mark is not
    set, the root is the one that was recorded.  This holds through every call of
    a tree, of the catalog and of the heap file. *)

From stdpp Require Import base tactics list numbers gmap.
From Stdlib Require Import ZArith Lia.
From S2P Require Import Prelude Turns Bytes Errors PageFormat Slotted Pager PoolInvariants Overflow BTreeNode BTree Catalog Heap.
Local Open Scope Z_scope.
Local Open Scope bic_scope.

(** The root is [r], or the tree says that it moved. *)
Definition marked (r : Z) (t : BTree) : Prop := root t = r \/ root_changed t = true.

(** The heap file has a catalog, with the root [r] or marked as moved. *)
Definition cataloged (r : Z) (h : HeapFile) : Prop := exists c, hp_catalog h = Some c /\ marked r (tree c).

Ltac keeping :=
  repeat first
    [ done
    | progress auto with keeps
    | apply keeps_bind; [|intros ?]
    | match goal with
      | |- keeps _ (if ?b then _ else _) => destruct b
      | |- keeps _ (match ?x with _ => _ end) => destruct x
      end ].

Section Tree.
Context {S : Type} {P : Pager S} (r : Z).
Abbreviation I := (fun w : S * BTree => marked r (snd w)).

Lemma keeps_on_pool {A} (m : st PageError S A) : keeps I (on_pool m).
Proof. intros [s t] H. unfold on_pool. cbn [fst snd]. by destruct (m s). Qed.
Hint Resolve keeps_on_pool : keeps.
Lemma keeps_page p : keeps I (page p).
Proof. unfold page. keeping. Qed.
Hint Resolve keeps_page : keeps.
Lemma keeps_update {A} p (m : nst A) : keeps I (update p m).
Proof. unfold update. keeping. Qed.
Hint Resolve keeps_update : keeps.

Lemma keeps_descend k : keeps I (descend k).
Proof.
  assert (Hl : forall left path current, keeps I (descend_loop k left path current)).
  { induction left as [|left IH]; intros path current; cbn [descend_loop]; keeping. }
  unfold descend, root_of. keeping.
Qed.
Hint Resolve keeps_descend : keeps.
Lemma keeps_last path : keeps I (last_of path).
Proof. unfold last_of. keeping. Qed.
Hint Resolve keeps_last : keeps.

Lemma keeps_separator path level : forall sep lc rc, keeps I (insert_separator path level sep lc rc).
Proof.
  induction level as [|level IH]; intros sep lc rc; cbn [insert_separator]; keeping.
  apply keeps_modify. intros w _. by right.
Qed.
Hint Resolve keeps_separator : keeps.

Lemma keeps_insert k v : keeps I (insert k v).
Proof. unfold insert, split_and_insert. keeping. Qed.
Lemma keeps_remove k : keeps I (remove k).
Proof. unfold remove. keeping. Qed.
Lemma keeps_tree_get k : keeps I (get k).
Proof. unfold get. keeping. Qed.
Lemma keeps_first turns start : keeps I (first_at_or_after turns start).
Proof.
  assert (Hl : forall turns b leaf, keeps I (first_loop turns start b leaf)).
  { intros n. induction n as [|n IH]; intros b leaf; cbn [first_loop]; keeping. }
  unfold first_at_or_after. keeping.
Qed.
End Tree.

Section Heap.
Context {S : Type} {P : Pager S} (r : Z).

(** The catalog's root is [r], or its tree says that it moved. *)
Definition cat_marked (w : S * Catalog) : Prop := marked r (tree (snd w)).
Definition heap_marked (w : S * HeapFile) : Prop := cataloged r (snd w).

Lemma keeps_on_tree {A} (m : st PageError (S * BTree) A) : keeps (fun w => marked r (snd w)) m -> keeps cat_marked (on_tree m).
Proof. intros Hm [s c] H. unfold on_tree. cbn [fst snd]. specialize (Hm (s, tree c) H). by destruct (m (s, tree c)) as [o [s' t']]. Qed.

Lemma keeps_tree_insert k v : keeps cat_marked (on_tree (insert k v)).
Proof. apply keeps_on_tree, keeps_insert. Qed.
Lemma keeps_tree_remove k : keeps cat_marked (on_tree (remove k)).
Proof. apply keeps_on_tree, keeps_remove. Qed.
Lemma keeps_tree_find turns k : keeps cat_marked (on_tree (first_at_or_after turns k)).
Proof. apply keeps_on_tree, keeps_first. Qed.
Lemma keeps_tree_look k : keeps cat_marked (on_tree (get k)).
Proof. apply keeps_on_tree, keeps_tree_get. Qed.
Hint Resolve keeps_tree_insert keeps_tree_remove keeps_tree_find keeps_tree_look : keeps.

Lemma keeps_in_pool {A} (m : st PageError S A) : keeps heap_marked (in_pool m).
Proof. intros [s t] H. unfold in_pool. cbn [fst snd]. by destruct (m s). Qed.
Lemma keeps_in_catalog {A} (m : st PageError (S * Catalog) A) : keeps cat_marked m -> keeps heap_marked (in_catalog m).
Proof.
  intros Hm [s hp] (c & Hc & H). unfold in_catalog. cbn [fst snd] in *. rewrite Hc.
  specialize (Hm (s, c) H). destruct (m (s, c)) as [o [s' c']]. by exists c'.
Qed.
Hint Resolve keeps_in_pool keeps_in_catalog : keeps.

Lemma keeps_register p t free : keeps heap_marked (in_catalog (register_page p t free)).
Proof. apply keeps_in_catalog. unfold register_page, size_of_pages. keeping. Qed.
Lemma keeps_update_free p before after : keeps heap_marked (in_catalog (update_free_space p before after)).
Proof. apply keeps_in_catalog. unfold update_free_space, size_of_pages. keeping. Qed.
Lemma keeps_find turns needed : keeps heap_marked (in_catalog (find_page_with_room turns needed)).
Proof. apply keeps_in_catalog. unfold find_page_with_room, size_of_pages. keeping. Qed.
Lemma keeps_floor p : keeps heap_marked (in_catalog (page_generation_floor p)).
Proof. apply keeps_in_catalog. unfold page_generation_floor. keeping. Qed.
Hint Resolve keeps_register keeps_update_free keeps_find keeps_floor : keeps.

Lemma keeps_caught {A} (m : st PageError (S * HeapFile) A) : keeps heap_marked m -> keeps heap_marked (caught m).
Proof. intros Hm w H. specialize (Hm w H). unfold caught. by destruct (m w). Qed.
Hint Resolve keeps_caught : keeps.

Lemma keeps_insert_tuple turns t : keeps heap_marked (insert_tuple turns t).
Proof.
  assert (Hc : forall cs, keeps heap_marked (try_candidates cs t)).
  { induction cs as [|c cs IH]; cbn [try_candidates]; keeping. }
  unfold insert_tuple, try_catalog, free_space_of, allocate_and_insert. keeping; apply keeps_modify; by intros [s hp].
Qed.
Hint Resolve keeps_insert_tuple : keeps.
Lemma keeps_make_tuple v : keeps heap_marked (make_tuple v).
Proof. unfold make_tuple. keeping. Qed.
Hint Resolve keeps_make_tuple : keeps.

Lemma keeps_heap_insert turns v : keeps heap_marked (heap_insert turns v).
Proof. unfold heap_insert. keeping. Qed.
Lemma keeps_heap_update turns l v : keeps heap_marked (heap_update turns l v).
Proof. unfold heap_update, tuple_of, release. keeping. Qed.
End Heap.
