(* ===== verification/Paged.v ===== *)
(** * The paged store

    The transactional keyed store: an index from keys to the newest version of a
    row, a heap that holds the versions, and a transaction table that decides
    which version a snapshot sees.  Every version names the one it replaced.

    The catalog the store shares with its heap file is the heap's.  The locks
    make each call one step; counters are left out.  Of [commit] and [abort] the
    part after the log record is modelled here, the log in [Wal]. *)

From stdpp Require Import base tactics list numbers gmap.
From Stdlib Require Import ZArith Lia.
From S2P Require Import Prelude Turns Bytes Errors PageFormat Slotted Pager Overflow BTree Catalog Heap Mvcc.
Local Open Scope Z_scope.
Local Open Scope bic_scope.

(* @source crates/bicdb-page/src/paged.rs *)
(** [META_MAGIC] (4164-4164). *)
Definition META_MAGIC : bytes := [66; 73; 67; 68; 66; 77; 69; 84].
(** [MAX_VERSION_CHAIN] (4168-4168). *)
Definition MAX_VERSION_CHAIN : Z := 1000000.
(** [VERSION_CHAIN_INLINE_SEEN] (4169-4169). *)
Definition VERSION_CHAIN_INLINE_SEEN : Z := 32.
(** [META_FIXED_BYTES] (4224-4224). *)
Definition META_FIXED_BYTES : Z := 8 + 8 + 8 + 8 + 8 + 8.
(** [META_SPILL_DESCRIPTOR_BYTES] (4227-4227). *)
Definition META_SPILL_DESCRIPTOR_BYTES : Z := 8 + 8 + 8.

(** [abort_exception_capacity] (4238-4242). *)
Definition abort_exception_capacity (page_size : Z) : Z :=
  sat_sub (usable_bytes page_size) (META_FIXED_BYTES + META_SPILL_DESCRIPTOR_BYTES) / 8.

(** [HintedRead] (443-449). *)
Inductive HintedRead := Hit (value : bytes) | Fallback.

(** [PagedStore] (698-781): what the calls below use of it.  The pool is the
    state they run on, and the catalog is in the heap file. *)
Record PagedStore := mkPaged {
  pd_heap : HeapFile;
  pd_index : BTree;
  pd_meta_page : Z;
  pd_page_size : Z;
  pd_next_transaction : Z;
  pd_transactions : TableInner;
  (** [PagedOutcomeSpill::descriptor]: head page, pages, entries. *)
  pd_spill : Z * Z * Z;
  pd_snapshots : gmap Z Snapshot
}.

Definition put_heap (h : HeapFile) (p : PagedStore) : PagedStore :=
  mkPaged h (pd_index p) (pd_meta_page p) (pd_page_size p) (pd_next_transaction p) (pd_transactions p) (pd_spill p) (pd_snapshots p).
Definition put_index (i : BTree) (p : PagedStore) : PagedStore :=
  mkPaged (pd_heap p) i (pd_meta_page p) (pd_page_size p) (pd_next_transaction p) (pd_transactions p) (pd_spill p) (pd_snapshots p).
Definition put_transactions (n : Z) (t : TableInner) (m : gmap Z Snapshot) (p : PagedStore) : PagedStore :=
  mkPaged (pd_heap p) (pd_index p) (pd_meta_page p) (pd_page_size p) n t (pd_spill p) m.

(** ** Cycle detection *)

(** [ChainCycleDetector] (4189-4192). *)
Record ChainCycleDetector := mkDetector {
  dt_inline : list (option TupleLocator);
  dt_overflow : option (gmap TupleLocator Z)
}.

(** The derived [Default]. *)
Definition detector_default : ChainCycleDetector := mkDetector (replicate (Z.to_nat VERSION_CHAIN_INLINE_SEEN) None) None.

(** [Iterator::position] of [Some locator]. *)
Fixpoint position_of (locator : TupleLocator) (l : list (option TupleLocator)) : option Z :=
  match l with
  | [] => None
  | c :: l' => if bool_decide (c = Some locator) then Some 0 else Z.succ <$> position_of locator l'
  end.

(** [observe] (4210-4217): the inline entries, by the step that saw them. *)
Definition spilled (inline : list (option TupleLocator)) : gmap TupleLocator Z :=
  foldl (fun m ic => match snd ic with Some c => <[c := Z.of_nat (fst ic)]> m | None => m end) ∅ (imap pair inline).

(** [observe] (4195-4221). *)
Definition observe (locator : TupleLocator) (step : Z) (d : ChainCycleDetector) : option Z * ChainCycleDetector :=
  match dt_overflow d with
  | Some seen => (seen !! locator, mkDetector (dt_inline d) (Some (<[locator := step]> seen)))
  | None =>
      if step <? VERSION_CHAIN_INLINE_SEEN then
        match position_of locator (take (Z.to_nat step) (dt_inline d)) with
        | Some first_seen_step => (Some first_seen_step, d)
        | None => (None, mkDetector (<[Z.to_nat step := Some locator]> (dt_inline d)) None)
        end
      else
        let seen := spilled (dt_inline d) in
        (seen !! locator, mkDetector (dt_inline d) (Some (<[locator := step]> seen)))
  end.

(** [walk_chain_as_of_bounded] (1975-1985): the errors that mean the history
    beneath was vacuumed. *)
Definition vacuumed (e : PageError) : bool :=
  match e with StaleLocator _ _ _ _ | DeadSlot _ _ | NoSuchSlot _ _ _ | OutOfBounds _ _ => true | _ => false end.

(** ** Reading the meta page *)

(** [MetaRoots] (4250-4276). *)
Record MetaRoots := mkRoots {
  mr_index_root : Z;
  mr_catalog_root : Z;
  mr_frozen_xid : Z;
  mr_next_xid : Z;
  mr_abort_exceptions : list Z;
  mr_spill : Z * Z * Z;
  mr_initialized : bool;
  mr_legacy : bool
}.

(** [read_meta_extension] (4376-4390): the exceptions from the [index]-th on. *)
Fixpoint read_exceptions (b : bytes) (meta_page next previous : Z) (left : nat) (index : Z) : pres (list Z) :=
  match left with
  | O => Val []
  | Datatypes.S left' =>
      let! xid := read_le 8 b (PAGE_HEADER_BYTES + (META_FIXED_BYTES + index * 8)) in
      if (xid =? 0) || (xid <=? previous) || (next <=? xid) then Err (MetaCorruption meta_page)
      else
        let! rest := read_exceptions b meta_page next xid left' (index + 1) in
        Val (xid :: rest)
  end.

(** [read_meta_extension] (4355-4409), on the page with its header. *)
Definition read_meta_extension (b : bytes) (page_size meta_page next : Z) : pres (list Z * (Z * Z * Z)) :=
  let body := PAGE_HEADER_BYTES in
  let! exception_count := read_le 8 b (body + 40) in
  if abort_exception_capacity page_size <? exception_count then Err (MetaCorruption meta_page)
  else
    let! exceptions := read_exceptions b meta_page next 0 (Z.to_nat exception_count) 0 in
    let descriptor := usable_bytes page_size - META_SPILL_DESCRIPTOR_BYTES in
    let! spill_head := read_le 8 b (body + descriptor) in
    let! spill_pages := read_le 8 b (body + (descriptor + 8)) in
    let! spill_entries := read_le 8 b (body + (descriptor + 16)) in
    if xorb (spill_head =? 0) (spill_pages =? 0) || ((0 <? spill_entries) && (spill_head =? 0)) then Err (MetaCorruption meta_page)
    else Val (exceptions, (spill_head, spill_pages, spill_entries)).

(** [read_meta] (4278-4347), on the page's bytes. *)
Definition decode_meta (b : bytes) (meta_page : Z) (accept_legacy : bool) : pres MetaRoots :=
  let body := PAGE_HEADER_BYTES in
  let! magic := slice b body (body + 8) in
  if negb (bool_decide (magic = META_MAGIC)) then Val (mkRoots 0 0 1 1 [] (0, 0, 0) false false)
  else
    let! next := read_le 8 b (body + 32) in
    let! (exceptions, spill, legacy) :=
      match read_meta_extension b (blen b) meta_page next with
      | Val (exceptions, spill) => Val (exceptions, spill, false)
      | Err e => if accept_legacy then Val ([], (0, 0, 0), true) else Err e
      | Panic => Panic
      end in
    let! index_root := read_le 8 b (body + 8) in
    let! catalog_root := read_le 8 b (body + 16) in
    let! frozen := read_le 8 b (body + 24) in
    Val (mkRoots index_root catalog_root frozen next exceptions spill true legacy).

(** A pool that is told which transaction dirties its pages. *)
Class PagerTags (S : Type) := pg_set_transaction : Z -> st PageError S unit.

Section Paged.
Context {S : Type} {P : Pager S} {T : PagerTags S}.
(** The sizes of the buffers [Read::read_to_end] offers. *)
Variable buffers : nat -> Z.
Abbreviation world := (S * PagedStore)%type.
Abbreviation pst := (st PageError world).

(** [self.pool.m()], [self.index.m()], [self.heap.m()]. *)
Definition on_pool {A} (m : st PageError S A) : pst A :=
  fun w => let '(r, s) := m (fst w) in (r, (s, snd w)).
Definition on_index {A} (m : st PageError (S * BTree) A) : pst A :=
  fun w => let '(r, (s, i)) := m (fst w, pd_index (snd w)) in (r, (s, put_index i (snd w))).
Definition on_heap {A} (m : st PageError (S * HeapFile) A) : pst A :=
  fun w => let '(r, (s, h)) := m (fst w, pd_heap (snd w)) in (r, (s, put_heap h (snd w))).
(** [self.transactions.f()] for an [f] that reads. *)
Definition of_table {A} (f : TableInner -> pres A) : pst A := fun w => (f (pd_transactions (snd w)), w).

(** ** The meta page *)

(** [write_meta] (1153-1181): the body, with the position of [PAGE_HEADER_BYTES]. *)
Definition fill_meta (index_root catalog_root frozen next : Z) (exceptions : list Z) (spill : Z * Z * Z) (page_size : Z) : st PageError bytes unit :=
  let body := PAGE_HEADER_BYTES in
  copy_at body META_MAGIC ;;;
  copy_at (body + 8) (le_enc 8 index_root) ;;;
  copy_at (body + 16) (le_enc 8 catalog_root) ;;;
  copy_at (body + 24) (le_enc 8 frozen) ;;;
  copy_at (body + 32) (le_enc 8 next) ;;;
  copy_at (body + 40) (le_enc 8 (Z.of_nat (length exceptions))) ;;;
  forM (fun ix : nat * Z => copy_at (body + (META_FIXED_BYTES + Z.of_nat (fst ix) * 8)) (le_enc 8 (snd ix))) (imap pair exceptions) ;;;
  let '(spill_head, spill_pages, spill_entries) := spill in
  let descriptor := usable_bytes page_size - META_SPILL_DESCRIPTOR_BYTES in
  copy_at (body + descriptor) (le_enc 8 spill_head) ;;;
  copy_at (body + (descriptor + 8)) (le_enc 8 spill_pages) ;;;
  copy_at (body + (descriptor + 16)) (le_enc 8 spill_entries).

(** The root of the catalog, where there is one. *)
Definition catalog_root (p : PagedStore) : Z := default 0 ((fun c => root (tree c)) <$> hp_catalog (pd_heap p)).

(** [write_meta] (1142-1183). *)
Definition write_meta : pst unit :=
  do p <- gets snd ;;
  let t := pd_transactions p in
  on_pool (pg_get_mut (pd_meta_page p)
    (encode (new_header (pd_meta_page p) PageFormat.Heap (pd_page_size p)) ;;;
     fill_meta (root (pd_index p)) (catalog_root p) (frozen_xid t) (next_xid t) (abort_exceptions_list t) (pd_spill p) (pd_page_size p))).

(** [read_meta] (4278-4281). *)
Definition read_meta (meta_page : Z) (accept_legacy : bool) : st PageError S MetaRoots :=
  do b <- pg_get Search meta_page ;;
  st_lift (decode_meta b meta_page accept_legacy).

(** [sync_roots] (1186-1191). *)
Definition sync_roots : pst unit :=
  do index_moved <- on_index take_root_changed ;;
  do moved <- (if index_moved : bool then st_ret true
               else do o <- on_heap (in_catalog cat_take_root_changed) ;; st_ret (default false o)) ;;
  if moved : bool then write_meta else st_ret tt.

(** ** Opening *)

(** [PagedStore::open] (984-991): a file with nothing published gets a meta page. *)
Definition fresh_meta : st PageError S Z :=
  do meta_page <- pg_allocate PageFormat.Heap ;;
  pg_publish_root meta_page 0 ;;;
  st_ret meta_page.

(** [PagedStore::open] (1009-1018): the trees and the heap over the pool, from
    the roots of the meta page. *)
Definition open_trees (page_size index_root catalog_root : Z) : st PageError S (BTree * HeapFile) :=
  do index <- open_at index_root ;;
  do catalog <- cat_open catalog_root ;;
  st_ret (index, set_catalog catalog (heap_new (for_page_size page_size))).

(** [PagedStore::open] (1029-1069): the transaction table, with what recovery
    found. *)
Definition open_table (page_size : Z) (spill : Z -> pres (option TxStatus)) (frozen next : Z) (exceptions : list Z)
    (recovered : RecoveredOutcomes) (max_record_transaction : Z) : pres TableInner :=
  let t := with_exception_capacity (abort_exception_capacity page_size) in
  let t := restore frozen next exceptions (set_spill spill t) in
  let t := record_recovered_batch recovered t in
  let t := seal_previous_incarnations (ensure_next_xid_at_least (sat_add max_record_transaction 1) t) in
  match freeze_below (next_xid t) t with
  | (Val _, t') => Val t'
  | (Err e, _) => Err e
  | (Panic, _) => Panic
  end.

(** [PagedStore::open] (1081-1100): the store is put together; a fresh one
    (1107-1108) writes its meta page. *)
Definition assemble (fresh : bool) (meta_page page_size index_root catalog_root : Z) (t : TableInner) (spill : Z * Z * Z) : st PageError S PagedStore :=
  do (index, heap) <- open_trees page_size index_root catalog_root ;;
  let p := mkPaged heap index meta_page page_size 1 t spill ∅ in
  if fresh then fun s => match write_meta (s, p) with (Val _, (s', p')) => (Val p', s') | (Err e, (s', _)) => (Err e, s') | (Panic, (s', _)) => (Panic, s') end
  else st_ret p.

(** ** Transactions *)

(** [begin_transaction] (1647-1651). *)
Definition begin_transaction : pst (Z * Snapshot) :=
  do p <- gets snd ;;
  let '((xid, snapshot), t) := begin_tx (pd_transactions p) in
  modify (fun w => (fst w, put_transactions (pd_next_transaction p) t (<[xid := snapshot]> (pd_snapshots p)) (snd w))) ;;;
  st_ret (xid, snapshot).

(** [begin] (1655-1659). *)
Definition store_begin : pst Z :=
  do (xid, _) <- begin_transaction ;;
  modify (fun w => let p := snd w in (fst w, put_transactions ((pd_next_transaction p + 1) mod U64) (pd_transactions p) (pd_snapshots p) p)) ;;;
  st_ret xid.

(** [snapshot_of] (1662-1668). *)
Definition snapshot_of (p : PagedStore) (xid : Z) : Snapshot :=
  default (latest_snapshot (pd_transactions p)) (pd_snapshots p !! xid).

(** [commit] (2134-2135) and [abort] (2186-2187): the outcome, once it is in the log. *)
Definition settle_transaction (outcome : Z -> TableInner -> TableInner) (xid : Z) : pst unit :=
  modify (fun w => let p := snd w in
    (fst w, put_transactions (pd_next_transaction p) (outcome xid (pd_transactions p)) (base.delete xid (pd_snapshots p)) p)).
(** [commit] (2131-2136). *)
Definition commit_outcome (xid : Z) : pst unit := settle_transaction commit xid.
(** [abort] (2186-2189). *)
Definition abort_outcome (xid : Z) : pst unit := settle_transaction abort xid.

(** ** Reading *)

(** What a chain walk reads at one locator: [None] where the history ends. *)
Definition version_at (m : pst bytes) : pst (option (VersionHeader * bytes)) :=
  do r <- caught m ;;
  match r with
  | Val stored => st_ret (version_decode stored)
  | Err e => if vacuumed e then st_ret None else st_fail e
  | Panic => st_panic
  end.

(** [walk_chain_as_of_bounded] (1958-1996) and [visible_value_prefix_as_of]
    (1907-1945): the loop, reading with [fetch]. *)
Fixpoint walk_loop (turns : nat) (fetch : nat -> TupleLocator -> pst bytes) (snapshot : Snapshot) (head : TupleLocator) (limit : Z)
    (cursor : option TupleLocator) (step : Z) (seen : ChainCycleDetector) : pst (option bytes) :=
  match turns with
  | O => st_panic
  | Datatypes.S turns' =>
      if limit <=? step then
        match cursor with
        | Some next => st_fail (VersionChainLimitExceeded head next limit)
        | None => st_ret None
        end
      else
        match cursor with
        | None => st_ret None
        | Some locator =>
            let '(repeated, seen) := observe locator step seen in
            match repeated with
            | Some first_seen_step => st_fail (VersionChainCycle head locator first_seen_step step)
            | None =>
                do v <- version_at (fetch turns' locator) ;;
                match v with
                | None => st_ret None
                | Some (header, value) =>
                    do visible <- of_table (fun t => is_visible t header snapshot) ;;
                    if visible : bool then st_ret (Some value)
                    else walk_loop turns' fetch snapshot head limit (prev header) (step + 1) seen
                end
            end
        end
  end.

(** [walk_chain_as_of_bounded] (1948-1997). *)
Definition walk_chain_as_of_bounded (turns : nat) (snapshot : Snapshot) (cursor : option TupleLocator) (limit : Z) : pst (option bytes) :=
  match cursor with
  | None => st_ret None
  | Some head => walk_loop turns (fun t l => on_heap (heap_get buffers t l)) snapshot head limit cursor 0 detector_default
  end.

(** [walk_chain_as_of] (1889-1895). *)
Definition walk_chain_as_of (turns : nat) (snapshot : Snapshot) (cursor : option TupleLocator) : pst (option bytes) :=
  walk_chain_as_of_bounded turns snapshot cursor MAX_VERSION_CHAIN.

(** [visible_value_prefix_as_of] (1897-1946). *)
Definition visible_value_prefix_as_of (turns : nat) (snapshot : Snapshot) (cursor : option TupleLocator) (value_prefix_bytes : Z) : pst (option bytes) :=
  match cursor with
  | None => st_ret None
  | Some head =>
      walk_loop turns (fun t l => on_heap (read_prefix t l (sat_add VERSION_HEADER_BYTES value_prefix_bytes))) snapshot head
        MAX_VERSION_CHAIN cursor 0 detector_default
  end.

(** [get_as_of_locked] (1869-1874). *)
Definition get_as_of_locked (turns : nat) (snapshot : Snapshot) (key : bytes) : pst (option bytes) :=
  do o <- on_index (BTree.get key) ;;
  match o with
  | None => st_ret None
  | Some b => walk_chain_as_of turns snapshot (locator_decode b)
  end.
(** [get_as_of] (1860-1863). *)
Definition get_as_of (turns : nat) (snapshot : Snapshot) (key : bytes) : pst (option bytes) := get_as_of_locked turns snapshot key.
(** [get] (1851-1853). *)
Definition store_get (turns : nat) (key : bytes) : pst (option bytes) :=
  do p <- gets snd ;;
  get_as_of turns (latest_snapshot (pd_transactions p)) key.

(** [get_as_of_hinted] (2037-2072): the loop. *)
Fixpoint hinted_loop (turns : nat) (snapshot : Snapshot) (expected_xmin : Z) (cursor : option TupleLocator) (step : Z) (seen : ChainCycleDetector) : pst HintedRead :=
  match turns with
  | O => st_panic
  | Datatypes.S turns' =>
      if MAX_VERSION_CHAIN <=? step then st_ret Fallback
      else
        match cursor with
        | None => st_ret Fallback
        | Some locator =>
            let '(repeated, seen) := observe locator step seen in
            match repeated with
            | Some _ => st_ret Fallback
            | None =>
                do v <- version_at (on_heap (heap_get buffers turns' locator)) ;;
                match v with
                | None => st_ret Fallback
                | Some (header, value) =>
                    if (step =? 0) && negb (xmin header =? expected_xmin) then st_ret Fallback
                    else
                      do visible <- of_table (fun t => is_visible t header snapshot) ;;
                      if visible : bool then st_ret (Hit value)
                      else
                        do created <- of_table (fun t => xid_visible t (xmin header) snapshot) ;;
                        if created : bool then st_ret Fallback
                        else hinted_loop turns' snapshot expected_xmin (prev header) (step + 1) seen
                end
            end
        end
  end.
(** [get_as_of_hinted] (2025-2073). *)
Definition get_as_of_hinted (turns : nat) (snapshot : Snapshot) (hint : TupleLocator) (expected_xmin : Z) : pst HintedRead :=
  hinted_loop turns snapshot expected_xmin (Some hint) 0 detector_default.

(** ** Writing *)

(** [write_base] (1747-1774): the loop. *)
Fixpoint write_base_loop (turns : nat) (transaction : Z) (cursor : option TupleLocator) (step : Z) : pst (option TupleLocator) :=
  match turns with
  | O => st_panic
  | Datatypes.S turns' =>
      if MAX_VERSION_CHAIN <=? step then st_ret cursor
      else
        match cursor with
        | None => st_ret None
        | Some locator =>
            do r <- caught (on_heap (read_prefix turns' locator VERSION_HEADER_BYTES)) ;;
            match r with
            | Err e => if vacuumed e then st_ret None else st_fail e
            | Panic => st_panic
            | Val prefix =>
                match version_decode prefix with
                | None => st_ret (Some locator)
                | Some (header, _) =>
                    if (xmin header =? 0) || (xmin header =? transaction) then st_ret (Some locator)
                    else
                      do status <- of_table (fun t => tx_status t (xmin header)) ;;
                      if bool_decide (status = Aborted) then write_base_loop turns' transaction (prev header) (step + 1)
                      else st_ret (Some locator)
                end
            end
        end
  end.
(** [write_base] (1741-1775). *)
Definition write_base (turns : nat) (transaction : Z) (head : option TupleLocator) : pst (option TupleLocator) :=
  write_base_loop turns transaction head 0.

(** [check_write_conflict] (1805-1825): one field. *)
Definition check_field (transaction : Z) (snapshot : Snapshot) (other : Z) (t : TableInner) : pres unit :=
  let! concurrent := is_concurrent t other snapshot in
  if concurrent then
    if next_xid t <=? other then Err (CorruptFutureTransactionId other (next_xid t))
    else Err (WriteConflict transaction other)
  else Val tt.
(** [check_write_conflict] (1788-1827). *)
Definition check_write_conflict (turns : nat) (transaction : Z) (locator : TupleLocator) : pst unit :=
  do r <- caught (on_heap (heap_get buffers turns locator)) ;;
  match r with
  | Err _ => st_ret tt
  | Panic => st_panic
  | Val stored =>
      match version_decode stored with
      | None => st_ret tt
      | Some (header, _) =>
          do p <- gets snd ;;
          let snapshot := snapshot_of p transaction in
          of_table (check_field transaction snapshot (xmin header)) ;;;
          of_table (check_field transaction snapshot (xmax header))
      end
  end.

(** [mark_deleted] (1830-1848). *)
Definition mark_deleted (turns : nat) (locator : TupleLocator) (transaction : Z) : pst unit :=
  do r <- caught (on_heap (heap_get buffers turns locator)) ;;
  match r with
  | Err e => if vacuumed e then st_ret tt else st_fail e
  | Panic => st_panic
  | Val current => on_heap (heap_update turns locator (patch_xmax current transaction)) ;;; st_ret tt
  end.

(** [put_returning_locator] (1696-1732). *)
Definition put_returning_locator (turns : nat) (transaction : Z) (key value : bytes) : pst TupleLocator :=
  on_pool (pg_set_transaction transaction) ;;;
  do o <- on_index (BTree.get key) ;;
  let head := o ≫= locator_decode in
  do previous <- write_base turns transaction head ;;
  match previous with Some l => check_write_conflict turns transaction l | None => st_ret tt end ;;;
  let header := mkVersion transaction 0 previous in
  do locator <- on_heap (heap_insert turns (encode_into header [] ++ value)) ;;
  match previous with Some l => mark_deleted turns l transaction | None => st_ret tt end ;;;
  on_index (BTree.insert key (locator_encode locator)) ;;;
  sync_roots ;;;
  st_ret locator.
(** [put] (1685-1688). *)
Definition store_put (turns : nat) (transaction : Z) (key value : bytes) : pst unit :=
  put_returning_locator turns transaction key value ;;; st_ret tt.

(** [delete] (2081-2108). *)
Definition store_delete (turns : nat) (transaction : Z) (key : bytes) : pst bool :=
  on_pool (pg_set_transaction transaction) ;;;
  do o <- on_index (BTree.get key) ;;
  match o ≫= locator_decode with
  | None => st_ret false
  | Some head =>
      do base <- write_base turns transaction (Some head) ;;
      match base with
      | None => st_ret false
      | Some locator =>
          do p <- gets snd ;;
          do seen <- get_as_of_locked turns (snapshot_of p transaction) key ;;
          match seen with
          | None => st_ret false
          | Some _ =>
              check_write_conflict turns transaction locator ;;;
              mark_deleted turns locator transaction ;;;
              sync_roots ;;;
              st_ret true
          end
      end
  end.

(** ** Scanning *)

(** [PagedScan] (3716-3720), without the store. *)
Record PagedScan := mkPagedScan {
  ps_snapshot : Snapshot;
  ps_entries : BTreeRange
}.

(** [scan_from] (3297-3308). *)
Definition scan_from (turns : nat) (snapshot : Snapshot) (start : bytes) : pst PagedScan :=
  do entries <- on_index (range turns start) ;;
  st_ret (mkPagedScan snapshot entries).
(** [scan] (3550-3552). *)
Definition store_scan (turns : nat) (snapshot : Snapshot) : pst PagedScan := scan_from turns snapshot [].

(** [PagedScan::next] (3725-3754). *)
Fixpoint scan_next (turns : nat) (sc : PagedScan) : pst (option (bytes * bytes) * PagedScan) :=
  match turns with
  | O => st_panic
  | Datatypes.S turns' =>
      do (entry, entries) <- on_index (range_next turns' (ps_entries sc)) ;;
      let sc := mkPagedScan (ps_snapshot sc) entries in
      match entry with
      | None => st_ret (None, sc)
      | Some (key, value) =>
          do o <- walk_chain_as_of turns' (ps_snapshot sc) (locator_decode value) ;;
          match o with
          | Some visible => st_ret (Some (key, visible), sc)
          | None => scan_next turns' sc
          end
      end
  end.
End Paged.
