(* ===== verification/Versions.v ===== *)
(** * Rows as lists of versions

    What the paged store is, with the pages, the index and the heap left out: a
    list of versions per key, newest first, and the transaction table.  A put
    adds a version above the newest one whose writer did not abort and stamps
    that one as replaced; a delete stamps it; a read takes the first version the
    snapshot sees. *)

From stdpp Require Import base tactics list numbers gmap sorting.
From Stdlib Require Import ZArith Lia.
From S2P Require Import Prelude Bytes Errors PageFormat Keys BTreeNode BTreeCursor BTreeTheorems Mvcc Paged.
Local Open Scope Z_scope.
Local Open Scope bic_scope.

Record Ver := mkVer {
  ve_xmin : Z;
  ve_xmax : Z;
  ve_value : bytes
}.

(** An error, without the locators it carries. *)
Inductive Fault := TooManyVersions (limit : Z) | Failed (e : PageError).
Definition fault (e : PageError) : Fault :=
  match e with VersionChainLimitExceeded _ _ limit => TooManyVersions limit | _ => Failed e end.
Definition blur {A} (r : pres A) : res Fault A :=
  match r with Val a => Val a | Err e => Err (fault e) | Panic => Panic end.

Abbreviation fres := (res Fault).

Definition sees (t : TableInner) (s : Snapshot) (v : Ver) : pres bool := is_visible t (mkVersion (ve_xmin v) (ve_xmax v) None) s.

(** The first version [s] sees among the next [left], through [cut]. *)
Fixpoint read_chain (cut : bytes -> bytes) (left : Z) (t : TableInner) (s : Snapshot) (c : list Ver) : fres (option bytes) :=
  match c with
  | [] => Val None
  | v :: c' =>
      if left <=? 0 then Err (TooManyVersions MAX_VERSION_CHAIN)
      else
        let! visible := blur (sees t s v) in
        if visible then Val (Some (cut (ve_value v))) else read_chain cut (left - 1) t s c'
  end.

(** The versions from the one a writer builds on. *)
Fixpoint base_of (left : Z) (t : TableInner) (x : Z) (c : list Ver) : pres (list Ver) :=
  match c with
  | [] => Val []
  | v :: c' =>
      if left <=? 0 then Val c
      else if (ve_xmin v =? 0) || (ve_xmin v =? x) then Val c
      else
        let! status := tx_status t (ve_xmin v) in
        if bool_decide (status = Aborted) then base_of (left - 1) t x c' else Val c
  end.

(** The writer's check of the version it builds on. *)
Definition check_base (t : TableInner) (s : Snapshot) (x : Z) (c : list Ver) : pres unit :=
  match c with
  | [] => Val tt
  | v :: _ =>
      let! _ := check_field x s (ve_xmin v) t in
      check_field x s (ve_xmax v) t
  end.

(** The newest version marked as replaced or deleted by [x]. *)
Definition stamp (x : Z) (c : list Ver) : list Ver :=
  match c with [] => [] | v :: c' => mkVer (ve_xmin v) x (ve_value v) :: c' end.

(** The state: the table, the snapshots of live transactions, the rows. *)
Record Rows := mkRows {
  rw_table : TableInner;
  rw_snapshots : gmap Z Snapshot;
  rw_rows : gmap bytes (list Ver)
}.

Definition row (R : Rows) (k : bytes) : list Ver := default [] (rw_rows R !! k).
Definition set_row (k : bytes) (c : list Ver) (R : Rows) : Rows := mkRows (rw_table R) (rw_snapshots R) (<[k := c]> (rw_rows R)).
Definition rows_snapshot (R : Rows) (x : Z) : Snapshot := default (latest_snapshot (rw_table R)) (rw_snapshots R !! x).

(** The keys the index refuses. *)
Definition refused (ps : Z) (k : bytes) : option PageError :=
  if accepted ps k (zeros 14) then None
  else Some (if bool_decide (k = []) then ValueTooLarge 0 0 0 else ValueTooLarge 0 (blen k + 14) (usable_bytes ps / 2)).

Definition rows_begin (R : Rows) : (Z * Snapshot) * Rows :=
  let '((x, s), t) := begin_tx (rw_table R) in ((x, s), mkRows t (<[x := s]> (rw_snapshots R)) (rw_rows R)).
Definition rows_settle (outcome : Z -> TableInner -> TableInner) (x : Z) (R : Rows) : Rows :=
  mkRows (outcome x (rw_table R)) (base.delete x (rw_snapshots R)) (rw_rows R).

Definition rows_read (s : Snapshot) (k : bytes) (R : Rows) : fres (option bytes) :=
  read_chain id MAX_VERSION_CHAIN (rw_table R) s (row R k).

Definition rows_put (ps x : Z) (k v : bytes) (R : Rows) : fres unit * Rows :=
  match base_of MAX_VERSION_CHAIN (rw_table R) x (row R k) with
  | Err e => (Err (fault e), R)
  | Panic => (Panic, R)
  | Val base =>
      match check_base (rw_table R) (rows_snapshot R x) x base with
      | Err e => (Err (fault e), R)
      | Panic => (Panic, R)
      | Val _ =>
          match refused ps k with
          | Some e => (Err (fault e), R)
          | None => (Val tt, set_row k (mkVer x 0 v :: stamp x base) R)
          end
      end
  end.

(** The newest version kept, the older ones in its place: what is left of the
    chain above the base stays. *)
Definition above (c base : list Ver) : list Ver := take (length c - length base) c.

Definition rows_delete (x : Z) (k : bytes) (R : Rows) : fres bool * Rows :=
  let c := row R k in
  match base_of MAX_VERSION_CHAIN (rw_table R) x c with
  | Err e => (Err (fault e), R)
  | Panic => (Panic, R)
  | Val [] => (Val false, R)
  | Val base =>
      match rows_read (rows_snapshot R x) k R with
      | Err e => (Err e, R)
      | Panic => (Panic, R)
      | Val None => (Val false, R)
      | Val (Some _) =>
          match check_base (rw_table R) (rows_snapshot R x) x base with
          | Err e => (Err (fault e), R)
          | Panic => (Panic, R)
          | Val _ => (Val true, set_row k (above c base ++ stamp x base) R)
          end
      end
  end.

(** A scan: the visible rows from [start] on, by key. *)
Fixpoint scan_rows (t : TableInner) (s : Snapshot) (l : list (bytes * list Ver)) : fres (list (bytes * bytes)) :=
  match l with
  | [] => Val []
  | (k, c) :: l' =>
      let! o := read_chain id MAX_VERSION_CHAIN t s c in
      let! rest := scan_rows t s l' in
      Val (match o with Some v => (k, v) :: rest | None => rest end)
  end.

(** The keys from [start] on, in order, and the rows under them. *)
Definition keys_from (start : bytes) (R : Rows) : list bytes := filter (ble start) (merge_sort ble (elements (dom (rw_rows R)))).
Definition rows_scan (s : Snapshot) (start : bytes) (R : Rows) : fres (list (bytes * bytes)) :=
  scan_rows (rw_table R) s ((fun k => (k, row R k)) <$> keys_from start R).

(** The first visible row, and what comes after it. *)
Fixpoint next_row (t : TableInner) (s : Snapshot) (l : list (bytes * list Ver)) : fres (option ((bytes * bytes) * list (bytes * list Ver))) :=
  match l with
  | [] => Val None
  | (k, c) :: l' =>
      let! o := read_chain id MAX_VERSION_CHAIN t s c in
      match o with Some v => Val (Some ((k, v), l')) | None => next_row t s l' end
  end.

Lemma scan_rows_next t s l : scan_rows t s l =
  let! o := next_row t s l in
  match o with Some (kv, l') => let! rest := scan_rows t s l' in Val (kv :: rest) | None => Val [] end.
Proof.
  induction l as [|[k c] l IH]; [done|]. cbn [scan_rows next_row]. destruct (read_chain _ _ _ _ _) as [[v|]|e|]; cbn [res_bind]; try done.
  rewrite IH. destruct (next_row t s l) as [[[kv l']|]|e|]; cbn [res_bind]; try done. by destruct (scan_rows t s l').
Qed.

(** A strictly sorted list with the keys of the rows is their enumeration. *)
#[local] Instance ble_transitive : Transitive ble.
Proof. intros a b c. apply ble_trans. Qed.
#[local] Instance ble_total : Total ble.
Proof. intros a b. destruct (decide (ble a b)) as [H|H]; [by left|right]. rewrite ble_not_lt in H. apply blt_ble. by apply dec_stable. Qed.
#[local] Instance ble_antisymm : AntiSymm (=) ble.
Proof. intros a b [->|H]%ble_cases Hb; [done|]. by rewrite ble_not_lt in Hb. Qed.

Lemma sorted_keys es : sorted es -> StronglySorted ble es.*1 /\ NoDup es.*1.
Proof.
  unfold sorted. induction es.*1 as [|x l IH]; intros Hs; [split; constructor|]. apply StronglySorted_inv in Hs as [Hs Hx]. destruct (IH Hs) as [H1 H2]. split.
  - constructor; [done|]. eapply List.Forall_impl; [|exact Hx]. intros y. apply blt_ble.
  - constructor; [|done]. intros Hin. pose proof (proj1 (Forall_forall _ _) Hx x Hin) as Hl. by apply blt_irrefl in Hl.
Qed.

Lemma keys_enumerate es R start : sorted es -> dom (kv_map es) = dom (rw_rows R) -> (from_key start es).*1 = keys_from start R.
Proof.
  intros Hs Hd. destruct (sorted_keys es Hs) as [Hss Hnd]. assert (E : es.*1 = merge_sort ble (elements (dom (rw_rows R)))).
  { eapply (StronglySorted_unique ble); [done|apply (StronglySorted_merge_sort ble)|]. rewrite merge_sort_Permutation. apply NoDup_Permutation; [done|apply NoDup_elements|].
    intros k. rewrite elem_of_elements, <- Hd. unfold kv_map. by rewrite dom_list_to_map, elem_of_list_to_set. }
  unfold keys_from, from_key. rewrite <- E. clear. induction es as [|e es IH]; [done|]. rewrite fmap_cons, !filter_cons. destruct (decide (ble start (fst e))); cbn; by rewrite IH.
Qed.

(** ** A client's calls *)

Inductive StoreOp :=
| SBegin
| SPut (x : Z) (key value : bytes)
| SDelete (x : Z) (key : bytes)
| SGet (key : bytes)
| SGetAsOf (snapshot : Snapshot) (key : bytes)
| SScanFrom (snapshot : Snapshot) (start : bytes)
| SCommit (x : Z)
| SAbort (x : Z).

Inductive StoreAnswer :=
| ADone
| AXid (x : Z)
| AFlag (b : bool)
| AValue (v : option bytes)
| ARows (l : list (bytes * bytes)).

(** The same calls on the rows. *)
Definition answer {A} (f : A -> StoreAnswer) (r : fres A) : fres StoreAnswer := let! a := r in Val (f a).
Definition rows_exec (ps : Z) (op : StoreOp) (R : Rows) : fres StoreAnswer * Rows :=
  match op with
  | SBegin => let '((x, _), R') := rows_begin R in (Val (AXid x), R')
  | SPut x key value => let '(r, R') := rows_put ps x key value R in (answer (fun _ => ADone) r, R')
  | SDelete x key => let '(r, R') := rows_delete x key R in (answer AFlag r, R')
  | SGet key => (answer AValue (rows_read (latest_snapshot (rw_table R)) key R), R)
  | SGetAsOf snapshot key => (answer AValue (rows_read snapshot key R), R)
  | SScanFrom snapshot start => (answer ARows (rows_scan snapshot start R), R)
  | SCommit x => (Val ADone, rows_settle commit x R)
  | SAbort x => (Val ADone, rows_settle abort x R)
  end.
Fixpoint rows_runs (ps : Z) (ops : list StoreOp) (R : Rows) : list (fres StoreAnswer) * Rows :=
  match ops with
  | [] => ([], R)
  | op :: ops' => let '(a, R1) := rows_exec ps op R in let '(rest, R2) := rows_runs ps ops' R1 in (a :: rest, R2)
  end.
