(* ===== verification/Isolation.v ===== *)
(** * Snapshots and rows

    What a snapshot should read of a row is the last write the snapshot sees, in
    the order the row was written; a deletion is a write of nothing.  The rows of
    [Versions] keep no such log: they keep versions, stamp the one a write
    replaces, and drop the versions of aborted writers.  Here the log is carried
    along the calls and the rows are shown to answer from it. *)

From stdpp Require Import base tactics list numbers gmap sorting.
From Stdlib Require Import ZArith Lia.
From S2P Require Import Prelude Bytes Errors Slotted Mvcc MvccSpec MvccTheorems Paged Versions.
Local Open Scope Z_scope.
Local Open Scope bic_scope.

(** ** What is seen of a row *)

(** A write: the writer, and the value or a deletion. *)
Abbreviation write := (Z * option bytes)%type.

Section Seen.
Variable vis : Z -> bool.

(** The last write among those seen. *)
Fixpoint last_write (g : list write) : option write :=
  match g with
  | [] => None
  | e :: g' => if vis (fst e) then Some e else last_write g'
  end.
Definition log_read (g : list write) : option bytes := last_write g ≫= snd.

(** The same from versions: the newest one created, or its deletion. *)
Definition last_of (v : Ver) : write := if negb (ve_xmax v =? 0) && vis (ve_xmax v) then (ve_xmax v, None) else (ve_xmin v, Some (ve_value v)).
Fixpoint last_version (c : list Ver) : option write :=
  match c with
  | [] => None
  | v :: c' => if vis (ve_xmin v) then Some (last_of v) else last_version c'
  end.

(** What the code reads: the newest version created and not deleted. *)
Fixpoint first_visible (c : list Ver) : option bytes :=
  match c with
  | [] => None
  | v :: c' => if vis (ve_xmin v) && ((ve_xmax v =? 0) || negb (vis (ve_xmax v))) then Some (ve_value v) else first_visible c'
  end.

Lemma last_version_skip up c : Forall (fun v => vis (ve_xmin v) = false) up -> last_version (up ++ c) = last_version c.
Proof. induction 1 as [|v up Hv _ IH]; [done|]. cbn. by rewrite Hv. Qed.
End Seen.

(** ** Snapshots handed out *)

(** [y] had finished when [s] was taken. *)
Definition done_by (s : Snapshot) (y : Z) : Prop := 0 < y /\ began_before s y = true.
(** [y] finished without committing. *)
Definition lost (t : TableInner) (y : Z) : Prop := settled t y /\ ~ committed t y.

(** The snapshots [I] were handed out on the way to [t]. *)
Record traced (t : TableInner) (I : list Snapshot) : Prop := {
  tr_inv : tinv t;
  tr_done s y : s ∈ I -> done_by s y -> settled t y;
  tr_mono s1 s2 y : s1 ∈ I -> s2 ∈ I -> snap_xid s1 <> 0 -> done_by s2 (snap_xid s1) -> done_by s1 y -> done_by s2 y;
  tr_one s1 s2 : s1 ∈ I -> s2 ∈ I -> snap_xid s1 = snap_xid s2 -> snap_xid s1 <> 0 -> s1 = s2;
  tr_issued s : s ∈ I -> 0 <= snap_xid s < next_xid t
}.

(** What later tables keep. *)
Definition later (t t' : TableInner) : Prop :=
  tinv t' /\ next_xid t <= next_xid t' /\ forall x, settled t x -> settled t' x /\ (committed t' x <-> committed t x).

Lemma later_lost t t' y : later t t' -> lost t y -> lost t' y.
Proof. intros (_ & _ & H) [Hs Hc]. destruct (H y Hs) as [Hs' Hiff]. split; [done|]. by rewrite Hiff. Qed.

Lemma traced_later t t' I : traced t I -> later t t' -> traced t' I.
Proof.
  intros [H1 H2 H3 H4 H5] (Hi & Hn & Hs). split; try done.
  - intros s y Hin Hd. by apply Hs, (H2 s y).
  - intros s Hin. specialize (H5 s Hin). lia.
Qed.

Lemma taken_done t s y : taken t s -> done_by s y <-> settled t y.
Proof.
  intros (E1 & E2)%taken_fields. unfold done_by, began_before, settled. rewrite E1, E2, andb_true_iff, Z.ltb_lt, negb_true_iff, bool_decide_eq_false. tauto.
Qed.

(** A snapshot of [t] joins them, under an id of its own or none. *)
Lemma traced_taken t t' I s : traced t I -> later t t' -> taken t s -> snap_xid s = 0 \/ (snap_xid s = next_xid t /\ next_xid t < next_xid t') -> traced t' (s :: I).
Proof.
  intros Ht Hl Hs Hx. destruct (traced_later _ _ _ Ht Hl) as [H1 H2 H3 H4 H5]. pose proof Ht as [_ H2' _ _ H5']. pose proof (ti_frozen t (tr_inv _ _ Ht)) as Hf.
  assert (Hold : forall s', s' ∈ I -> snap_xid s <> 0 -> ~ done_by s' (snap_xid s)) by (intros s' Hin Hne Hd; apply (H2' _ _ Hin) in Hd as [Hd _]; lia).
  split; [done| | | |].
  - intros s' y [->|Hin]%elem_of_cons Hd; [|by eapply H2]. apply Hl. by apply (taken_done t s).
  - intros s1 s2 y Hi1 Hi2 Hne Hd1 Hd2. apply elem_of_cons in Hi1 as [->|Hi1], Hi2 as [->|Hi2]; [done|by destruct (Hold s2 Hi2 Hne)| |by apply (H3 s1 s2)].
    apply (taken_done t s); [done|]. by eapply H2'.
  - intros s1 s2 Hi1 Hi2 E Hne. apply elem_of_cons in Hi1 as [->|Hi1], Hi2 as [->|Hi2]; [done| | |by apply H4].
    + specialize (H5' s2 Hi2). lia.
    + specialize (H5' s1 Hi1). lia.
  - intros s' [->|Hin]%elem_of_cons; [|by apply H5]. destruct Hl as (_ & Hn & _). lia.
Qed.

Lemma live_status t x : tinv t -> x ∈ in_progress t -> tx_status t x = Val InProgress.
Proof.
  intros Hi Hx. pose proof (ti_range t Hi x Hx). pose proof (ti_frozen t Hi). rewrite tx_status_eq by (done || lia). unfold frozen_status. rewrite (proj2 (Z.ltb_ge _ _)) by lia.
  unfold terminal_status, resident_terminal_status. by rewrite (proj1 (ti_active t Hi x) Hx).
Qed.

Lemma live_range t x : tinv t -> x ∈ in_progress t -> 0 < x < next_xid t.
Proof. intros Hi Hx. pose proof (ti_range t Hi x Hx). pose proof (ti_frozen t Hi). apply (ti_active t Hi), (ti_status t Hi) in Hx. lia. Qed.

Lemma aborted_lost t y : tinv t -> 0 < y < next_xid t -> tx_status t y = Val Aborted -> lost t y.
Proof. intros Hi Hy Hs. split; [split; [done|]|unfold committed; congruence]. intros Hl%live_status; [congruence|done]. Qed.

(** ** Visibility *)

Definition vis_of (t : TableInner) (s : Snapshot) (y : Z) : bool := match xid_visible t y s with Val b => b | _ => false end.

Lemma vis_of_eq t s y : tinv t -> xid_visible t y s = Val (vis_of t s y).
Proof.
  intros Hi. unfold vis_of, xid_visible. destruct (y =? 0); [done|]. destruct (y =? snap_xid s); [done|]. destruct (negb _); [done|]. by destruct (tx_status_val t y Hi) as [r ->].
Qed.

Lemma vis_of_true t s y : tinv t -> 0 < y -> vis_of t s y = true <-> y = snap_xid s \/ (done_by s y /\ committed t y).
Proof.
  intros Hi Hy. unfold vis_of, xid_visible, done_by, committed. rewrite (proj2 (Z.eqb_neq y 0)) by lia. destruct (Z.eqb_spec y (snap_xid s)) as [->|Hne]; [tauto|].
  destruct (began_before s y); cbn [negb]; [|split; [done|intros [?|[[_ ?] _]]; done]].
  destruct (tx_status_val t y Hi) as [r ->]. cbn [res_bind]. rewrite bool_decide_eq_true. split; [intros ->; right; by ands|by intros [?|[_ [= ->]]]].
Qed.

(** A view that sees nothing lost and, with a transaction, all that its snapshot
    saw committed. *)
Definition admissible (t : TableInner) (I : list Snapshot) (vis : Z -> bool) : Prop :=
  (forall y, lost t y -> vis y = false) /\
  forall s y, s ∈ I -> snap_xid s <> 0 -> vis (snap_xid s) = true -> done_by s y -> committed t y -> vis y = true.

Lemma admissible_earlier t t' I I' vis : traced t I -> later t t' -> I ⊆ I' -> admissible t' I' vis -> admissible t I vis.
Proof.
  intros Ht Hl HI [H1 H2]. split; [intros y Hy; by apply H1, (later_lost t)|]. intros s y Hin Hne Hv Hd Hc. apply (H2 s y); try done; [by apply HI|].
  apply Hl; [|done]. by eapply (tr_done t I).
Qed.

Lemma snapshot_admissible t I s : traced t I -> s ∈ I -> ~ lost t (snap_xid s) -> admissible t I (vis_of t s).
Proof.
  intros Ht Hin Hown. pose proof (tr_inv _ _ Ht) as Hi. split.
  - intros y [[Hy Hny] Hc]. destruct (vis_of t s y) eqn:E; [|done]. apply vis_of_true in E as [->|[_ ?]]; [by destruct Hown|done|done|lia].
  - intros s1 y Hin1 Hne Hv Hd Hc. pose proof (tr_issued _ _ Ht s1 Hin1). apply vis_of_true in Hv; [|done|lia]. apply vis_of_true; [done|apply Hd|]. right. split; [|done].
    destruct Hv as [E|[Hd1 _]]; [|by apply (tr_mono t I Ht s1 s)]. by rewrite <- (tr_one t I Ht s1 s Hin1 Hin E Hne).
Qed.

(** The view of everything that is not lost. *)
Definition unlost (t : TableInner) (y : Z) : bool :=
  negb (bool_decide (0 < y < next_xid t) && bool_decide (y ∉ in_progress t) && negb (match tx_status t y with Val Committed => true | _ => false end)).
Lemma unlost_spec t y : tinv t -> unlost t y = false <-> lost t y.
Proof.
  intros Hi. unfold unlost, lost, settled, committed. destruct (tx_status_val t y Hi) as [r ->]. rewrite negb_false_iff, !andb_true_iff, !bool_decide_eq_true, negb_true_iff.
  destruct r; naive_solver.
Qed.
Lemma unlost_admissible t I : traced t I -> admissible t I (unlost t).
Proof.
  intros Ht. pose proof (tr_inv _ _ Ht) as Hi. split; [intros y; by apply unlost_spec|]. intros s y Hin Hne Hv Hd Hc. destruct (unlost t y) eqn:E; [done|]. by apply unlost_spec in E as [_ ?].
Qed.

(** ** Rows and their logs *)

(** The writer [u] knew of [w]. *)
Definition knew (t : TableInner) (I : list Snapshot) (u w : Z) : Prop :=
  w = u \/ exists s, s ∈ I /\ snap_xid s = u /\ u <> 0 /\ done_by s w /\ committed t w.

Lemma knew_later t t' I I' u w : traced t I -> later t t' -> I ⊆ I' -> knew t I u w -> knew t' I' u w.
Proof.
  intros Ht Hl HI [->|(s & Hin & E & Hu & Hd & Hc)]; [by left|]. right. exists s. ands; try done; [by apply HI|]. apply Hl; [|done]. by eapply (tr_done t I).
Qed.
Lemma knew_vis t I vis u w : admissible t I vis -> knew t I u w -> vis u = true -> vis w = true.
Proof. intros [_ Hc] [->|(s & Hin & <- & Hu & Hd & Hcm)] Hv; [done|]. by apply (Hc s w). Qed.

(** Each version was stamped by the one above it, unless that one was rolled
    back, and the writer above knew of the one below. *)
Fixpoint strung (t : TableInner) (I : list Snapshot) (c : list Ver) : Prop :=
  match c with
  | [] => True
  | u :: c' =>
      match c' with
      | [] => True
      | w :: _ => (ve_xmax w = ve_xmin u \/ lost t (ve_xmin u)) /\ knew t I (ve_xmin u) (ve_xmin w)
      end /\ strung t I c'
  end.

Definition ver_range (t : TableInner) (v : Ver) : Prop := 0 < ve_xmin v < next_xid t /\ 0 <= ve_xmax v < next_xid t.

(** The row [c] was written by [g], newest first. *)
Record tells (t : TableInner) (I : list Snapshot) (c : list Ver) (g : list write) : Prop := {
  tl_range : Forall (ver_range t) c;
  tl_strung : strung t I c;
  tl_same vis : admissible t I vis -> last_version vis c = last_write vis g;
  tl_order : ForallOrdPairs (fun e e' : write => lost t (fst e') \/ knew t I (fst e) (fst e')) g
}.

Lemma tells_nil t I : tells t I [] [].
Proof. split; [constructor|done|done|constructor]. Qed.

Lemma tells_later t t' I I' c g : traced t I -> later t t' -> I ⊆ I' -> tells t I c g -> tells t' I' c g.
Proof.
  intros Ht Hl HI [H1 H2 H3 H4]. split.
  - eapply Forall_impl; [exact H1|]. intros v [? ?]. destruct Hl as (_ & ? & _). unfold ver_range. lia.
  - clear H1 H3 H4. induction c as [|u c IH]; [done|]. destruct H2 as [Hu Hc]. split; [|by apply IH]. destruct c as [|w c]; [done|]. destruct Hu as [Hs Hk].
    split; [|by apply (knew_later t t' I I')]. destruct Hs as [?|?]; [by left|right; by apply (later_lost t)].
  - intros vis Ha. apply H3. by apply (admissible_earlier t t' I I').
  - clear H1 H2 H3. induction H4 as [|e g He Hg IH]; [constructor|]. constructor; [|done]. eapply Forall_impl; [exact He|]. intros e' [?|?]; [left; by apply (later_lost t)|right; by apply (knew_later t t' I I')].
Qed.

(** What the code reads is the last write seen. *)
Lemma hidden_below t I vis u c : admissible t I vis -> Forall (ver_range t) (u :: c) -> strung t I (u :: c) -> vis (ve_xmin u) = true -> first_visible vis c = None.
Proof.
  intros Ha. revert u. induction c as [|w c IH]; intros u Hr Hs Hv; [done|]. apply Forall_cons in Hr as [Hu Hr]. destruct Hs as [[Hst Hk] Hs]. pose proof (knew_vis t I vis _ _ Ha Hk Hv) as Hw. cbn [first_visible].
  destruct Hst as [E|Hl]; [|by rewrite (proj1 Ha _ Hl) in Hv]. rewrite E, Hv, (proj2 (Z.eqb_neq _ 0)) by (destruct Hu; lia). cbn [orb negb]. rewrite andb_false_r. by apply (IH w).
Qed.

Lemma first_visible_last t I vis c : admissible t I vis -> Forall (ver_range t) c -> strung t I c -> first_visible vis c = last_version vis c ≫= snd.
Proof.
  intros Ha. induction c as [|v c IH]; intros Hr Hs; [done|]. cbn [first_visible last_version]. destruct (vis (ve_xmin v)) eqn:Hv; cbn [andb].
  - unfold last_of. destruct (Z.eqb_spec (ve_xmax v) 0) as [E|E]; cbn [orb negb andb]; [done|]. destruct (vis (ve_xmax v)); cbn [negb]; [|done]. cbn. by apply (hidden_below t I vis v).
  - apply Forall_cons in Hr as [_ Hr]. destruct Hs as [_ Hs]. by apply IH.
Qed.

Lemma read_chain_visible t s c left : tinv t -> Z.of_nat (length c) <= left -> read_chain id left t s c = Val (first_visible (vis_of t s) c).
Proof.
  intros Hi. revert left. induction c as [|v c IH]; intros left Hl; [done|]. cbn [length] in Hl. cbn [read_chain first_visible]. rewrite (proj2 (Z.leb_gt left 0)) by lia.
  unfold sees, is_visible. cbn [xmin xmax]. rewrite (vis_of_eq t s (ve_xmin v) Hi). cbn [res_bind]. destruct (vis_of t s (ve_xmin v)); cbn [negb andb].
  - destruct (ve_xmax v =? 0); [done|]. rewrite (vis_of_eq t s (ve_xmax v) Hi). cbn [res_bind blur orb]. destruct (vis_of t s (ve_xmax v)); cbn [negb]; [|done]. apply IH. lia.
  - cbn [blur res_bind]. apply IH. lia.
Qed.

Lemma read_chain_first t s c left value : tinv t -> read_chain id left t s c = Val (Some value) -> first_visible (vis_of t s) c = Some value.
Proof.
  intros Hi. revert left. induction c as [|v c IH]; intros left; [done|]. cbn [read_chain first_visible]. destruct (left <=? 0); [done|].
  unfold sees, is_visible. cbn [xmin xmax]. rewrite (vis_of_eq t s (ve_xmin v) Hi). cbn [res_bind]. destruct (vis_of t s (ve_xmin v)); cbn [negb andb].
  - destruct (ve_xmax v =? 0); [by intros [= <-]|]. rewrite (vis_of_eq t s (ve_xmax v) Hi). cbn [res_bind blur orb]. destruct (vis_of t s (ve_xmax v)); cbn [negb]; [apply IH|by intros [= <-]].
  - cbn [blur res_bind]. apply IH.
Qed.

Lemma tells_read t I c g s : traced t I -> tells t I c g -> s ∈ I -> ~ lost t (snap_xid s) -> Z.of_nat (length c) <= MAX_VERSION_CHAIN ->
  read_chain id MAX_VERSION_CHAIN t s c = Val (log_read (vis_of t s) g).
Proof.
  intros Ht [H1 H2 H3 _] Hin Hown Hlen. pose proof (snapshot_admissible t I s Ht Hin Hown) as Ha. rewrite read_chain_visible by (done || apply Ht). unfold log_read.
  by rewrite <- H3, (first_visible_last t I).
Qed.

(** ** A writer and its base *)

Section Writer.
Context (t : TableInner) (I : list Snapshot) (x : Z) (s : Snapshot) (c : list Ver) (g : list write).
Hypothesis Ht : traced t I.
Hypothesis Hlive : x ∈ in_progress t.
Hypothesis Hs : s ∈ I /\ snap_xid s = x.
Hypothesis Htells : tells t I c g.

Lemma writer_unlost : ~ lost t x.
Proof using Hlive. by intros [[_ Hn] _]. Qed.

Lemma base_split left base : base_of left t x c = Val base -> exists up, c = up ++ base /\ Forall (fun v => lost t (ve_xmin v)) up.
Proof using Ht Htells.
  pose proof (tl_range _ _ _ _ Htells) as Hr. clear Htells. revert left Hr. induction c as [|v c' IH]; intros left Hr E; cbn [base_of] in E; [injection E as <-; by exists []|].
  apply Forall_cons in Hr as [Hv Hr]. destruct (left <=? 0); [injection E as <-; by exists []|]. destruct (_ || _); [injection E as <-; by exists []|].
  destruct (tx_status t (ve_xmin v)) as [r|e|] eqn:Es; [|done|done]. cbn [res_bind] in E. case_bool_decide as Ha; [|injection E as <-; by exists []]. subst r.
  destruct (IH _ Hr E) as (up & -> & Hup). exists (v :: up). split; [done|]. constructor; [|done]. apply aborted_lost; [apply Ht|apply Hv|done].
Qed.

(** A field that passes the check is the writer's own, committed before it began,
    or rolled back. *)
Lemma check_knew y : check_field x s y t = Val tt -> 0 < y < next_xid t -> tx_status t y = Val Aborted \/ knew t I x y.
Proof using Ht Hlive Hs.
  intros E Hy. pose proof (tr_inv _ _ Ht) as Hi. destruct Hs as [Hin Hx]. unfold check_field, is_concurrent in E. rewrite (proj2 (Z.eqb_neq y 0)) in E by lia. cbn [orb] in E.
  destruct (Z.eqb_spec y (snap_xid s)) as [Ey|Hne]; [right; left; congruence|]. destruct (tx_status_val t y Hi) as [r Hr]. rewrite Hr in E. cbn [res_bind] in E.
  case_bool_decide as Ha; [left; by subst r|]. destruct (began_before s y) eqn:Hb; cbn [negb res_bind] in E; [|by destruct (_ <=? _)].
  case_bool_decide as Hp; [by destruct (_ <=? _)|]. right. right. exists s. pose proof (live_range t x Hi Hlive). ands; try done; [lia|split; [lia|done]|]. unfold committed. destruct r; congruence.
Qed.

Lemma knew_unlost y : knew t I x y -> ~ lost t y.
Proof using Hlive. intros [->|(s' & _ & _ & _ & _ & Hc)]; [apply writer_unlost|by intros [_ ?]]. Qed.

Lemma knew_own y : 0 < y -> knew t I x y -> vis_of t s y = true.
Proof using Ht Hlive Hs.
  intros Hy Hk. destruct Hs as [Hin Hx]. eapply knew_vis; [apply snapshot_admissible; [done|done|]|exact Hk|]; [rewrite Hx; exact writer_unlost|].
  pose proof (live_range t x (tr_inv _ _ Ht) Hlive). apply vis_of_true; [apply Ht|lia|by left].
Qed.

(** The writer knew of every write that was not rolled back. *)
Lemma knew_log e' : lost t e' \/ knew t I x e' -> forall g', ForallOrdPairs (fun e e' : write => lost t (fst e') \/ knew t I (fst e) (fst e')) g' ->
  fst <$> last_write (unlost t) g' = Some e' -> Forall (fun e => lost t (fst e) \/ knew t I x (fst e)) g'.
Proof using Ht Hlive Hs.
  intros He g' Ho. pose proof (tr_inv _ _ Ht) as Hi. induction Ho as [|e g' Hg Ho IH]; [done|]. cbn [last_write]. destruct (unlost t (fst e)) eqn:Eu.
  - intros [= <-]. constructor; [done|]. destruct He as [He|He]; [by apply (unlost_spec t) in He; [congruence|]|]. eapply Forall_impl; [exact Hg|]. intros e' [?|Hk]; [by left|]. right.
    destruct Hk as [->|(s' & Hin' & E' & Hne' & Hd' & Hc')]; [done|]. destruct Hs as [Hin Hx]. right. exists s. pose proof (live_range t x Hi Hlive). ands; try done; [lia|].
    destruct He as [E|(s1 & Hin1 & E1 & _ & Hd1 & _)].
    + rewrite <- (tr_one t I Ht s' s); try done; congruence.
    + assert (s1 = s) as -> by (apply (tr_one t I Ht); try done; lia). apply (tr_mono t I Ht s' s); try done; congruence.
  - intros E. constructor; [left; by apply unlost_spec|]. by apply IH.
Qed.

Lemma none_unlost g' : last_write (unlost t) g' = None -> Forall (fun e => lost t (fst e) \/ knew t I x (fst e)) g'.
Proof using Ht.
  pose proof (tr_inv _ _ Ht) as Hi. induction g' as [|e g' IH]; [constructor|]. cbn. destruct (unlost t (fst e)) eqn:E; [done|]. intros Hn. constructor; [left; by apply unlost_spec|by apply IH].
Qed.

(** What a writer that may go on knows of its base. *)
Record based (base : list Ver) : Prop := {
  bd_up : exists up, c = up ++ base /\ Forall (fun v => lost t (ve_xmin v)) up;
  bd_head v base' : base = v :: base' -> knew t I x (ve_xmin v) /\ (ve_xmax v = 0 \/ lost t (ve_xmax v) \/ knew t I x (ve_xmax v))
}.

Lemma base_checked left base : base_of left t x c = Val base -> check_base t s x base = Val tt ->
  (forall v base', base = v :: base' -> tx_status t (ve_xmin v) <> Val Aborted) -> based base.
Proof using Ht Hlive Hs Htells.
  intros Eb Ec Hb. pose proof (tr_inv _ _ Ht) as Hi. pose proof (base_split left base Eb) as Hup. split; [exact Hup|]. intros v base' ->. destruct Hup as (up & E & _).
  pose proof (tl_range _ _ _ _ Htells) as Hr. rewrite E in Hr. apply Forall_app in Hr as [_ [[Hmin Hmax] _]%Forall_cons]. specialize (Hb v base' eq_refl). cbn [check_base] in Ec.
  destruct (check_field x s (ve_xmin v) t) as [[]| |] eqn:E1; [|done|done]. cbn [res_bind] in Ec. split.
  - destruct (check_knew _ E1 Hmin); done.
  - destruct (decide (ve_xmax v = 0)) as [E0|E0]; [by left|right]. destruct (check_knew _ Ec ltac:(lia)) as [Ha|Hk]; [left; by apply aborted_lost; [|lia|]|by right].
Qed.

Lemma based_knew_all base : based base -> Forall (fun e => lost t (fst e) \/ knew t I x (fst e)) g.
Proof using Ht Hlive Hs Htells.
  intros [(up & E & Hup) Hhead]. pose proof (tr_inv _ _ Ht) as Hi. pose proof (tl_same _ _ _ _ Htells (unlost t) (unlost_admissible t I Ht)) as Hsame.
  rewrite E, last_version_skip in Hsame by (eapply Forall_impl; [exact Hup|]; intros v; by apply unlost_spec). destruct base as [|v base]; cbn [last_version] in Hsame; [by apply none_unlost|].
  destruct (Hhead v base eq_refl) as [Hmin Hmax]. destruct (unlost t (ve_xmin v)) eqn:Eu; [|apply unlost_spec in Eu; [|done]; by destruct (knew_unlost _ Hmin)].
  apply (knew_log (fst (last_of (unlost t) v))); [|apply Htells|by rewrite <- Hsame]. unfold last_of.
  destruct (Z.eqb_spec (ve_xmax v) 0) as [E0|E0]; cbn [negb andb]; [by right|]. destruct (unlost t (ve_xmax v)); [by destruct Hmax as [?|?]|by right].
Qed.

Lemma strung_app up base : strung t I (up ++ base) -> strung t I base.
Proof using. induction up as [|u up IH]; [done|]. intros [_ Hs']. by apply IH. Qed.

(** The new stamp on the base, below versions that were rolled back. *)
Lemma strung_stamp up base : strung t I (up ++ base) -> Forall (fun v => lost t (ve_xmin v)) up -> strung t I (up ++ stamp x base).
Proof using.
  intros Hst Hup. revert Hst. induction Hup as [|u up Hu Hup IH]; cbn [app]; [by destruct base|]. intros [H1 H2]. split; [|by apply IH].
  destruct up as [|w up]; [|done]. destruct base as [|v base]; [done|]. cbn [app stamp] in *. split; [by right|by apply H1].
Qed.

(** A view without the writer does not mind the stamp, where there was none
    that counts. *)
Lemma stamp_unseen vis base : admissible t I vis -> vis x = false ->
  (forall v base', base = v :: base' -> ve_xmax v = 0 \/ ve_xmax v = x \/ lost t (ve_xmax v)) -> last_version vis (stamp x base) = last_version vis base.
Proof using.
  intros [Ha _] Hx Hclean. destruct base as [|v base]; [done|]. cbn [stamp last_version ve_xmin]. destruct (vis (ve_xmin v)); [|done]. f_equal. unfold last_of. cbn [ve_xmax ve_xmin ve_value].
  rewrite Hx, andb_false_r. destruct (Hclean v base eq_refl) as [->|[->|Hl]]; [done|by rewrite Hx, andb_false_r|by rewrite (Ha _ Hl), andb_false_r].
Qed.

Lemma stamp_range base : Forall (ver_range t) base -> Forall (ver_range t) (stamp x base).
Proof using Ht Hlive. destruct 1 as [|v base [H1 _] Hb]; [constructor|]. pose proof (live_range t x (tr_inv _ _ Ht) Hlive). constructor; [|done]. split; cbn; [done|lia]. Qed.

Lemma put_tells value base : based base -> (forall v base', base = v :: base' -> ve_xmax v = 0 \/ ve_xmax v = x \/ lost t (ve_xmax v)) ->
  tells t I (mkVer x 0 value :: stamp x base) ((x, Some value) :: g).
Proof using Ht Hlive Hs Htells.
  intros Hb Hclean. pose proof (based_knew_all base Hb) as Hall. destruct Hb as [(up & E & Hup) Hhead]. pose proof Htells as [H1 H2 H3 H4]. rewrite E in H1, H2.
  apply Forall_app in H1 as [_ H1]. pose proof (live_range t x (tr_inv _ _ Ht) Hlive) as Hx. split.
  - constructor; [split; cbn; lia|by apply stamp_range].
  - split; [|apply (strung_stamp []); [by apply strung_app in H2|constructor]]. destruct base as [|v base]; [done|]. split; [by left|by apply (Hhead v base)].
  - intros vis Ha. cbn [last_version last_write fst ve_xmin]. destruct (vis x) eqn:Ev; [done|]. rewrite <- (H3 vis Ha), E, stamp_unseen by done.
    rewrite last_version_skip; [done|]. eapply Forall_impl; [exact Hup|]. intros v. apply Ha.
  - by constructor.
Qed.

Lemma delete_tells v base value : based (v :: base) -> first_visible (vis_of t s) c = Some value ->
  tells t I (above c (v :: base) ++ stamp x (v :: base)) ((x, None) :: g).
Proof using Ht Hlive Hs Htells.
  intros Hb Hseen. pose proof (based_knew_all _ Hb) as Hall. destruct Hb as [(up & E & Hup) Hhead]. destruct (Hhead v base eq_refl) as [Hmin Hmax]. pose proof Htells as [H1 H2 H3 H4].
  pose proof (tr_inv _ _ Ht) as Hi. pose proof (live_range t x Hi Hlive) as Hx. pose proof Hs as [Hin Es]. assert (Ha : admissible t I (vis_of t s)) by (apply snapshot_admissible; [done|done|rewrite Es; exact writer_unlost]).
  assert (Habove : above c (v :: base) = up) by (unfold above; by rewrite E, length_app, Nat.add_sub, take_app_length). rewrite Habove. pose proof H1 as H1'. rewrite E in H1'. apply Forall_app in H1' as [Hru Hrb].
  pose proof Hrb as [[Hvmin Hvmax] _]%Forall_cons.
  assert (Hclean : ve_xmax v = 0 \/ ve_xmax v = x \/ lost t (ve_xmax v)).
  { destruct Hmax as [?|[?|Hk]]; [by left|by right; right|]. destruct (decide (ve_xmax v = 0)) as [?|Hne]; [by left|]. exfalso.
    rewrite (first_visible_last t I) in Hseen by done. rewrite E, last_version_skip in Hseen by (eapply Forall_impl; [exact Hup|]; intros u; apply Ha). cbn [last_version] in Hseen.
    rewrite knew_own in Hseen by (done || lia). unfold last_of in Hseen. by rewrite (proj2 (Z.eqb_neq _ _)), knew_own in Hseen by (done || lia). }
  split.
  - apply Forall_app. split; [done|by apply stamp_range].
  - apply strung_stamp; [by rewrite <- E|done].
  - intros vis Hv. rewrite last_version_skip by (eapply Forall_impl; [exact Hup|]; intros u; apply Hv). cbn [last_write fst]. destruct (vis x) eqn:Ev.
    + cbn [stamp last_version ve_xmin]. rewrite (knew_vis t I vis x _ Hv Hmin Ev). unfold last_of. cbn [ve_xmax]. by rewrite Ev, (proj2 (Z.eqb_neq x 0)) by lia.
    + rewrite <- (H3 vis Hv), E, stamp_unseen; [|done|done|by intros ? ? [= <- <-]]. rewrite last_version_skip; [done|]. eapply Forall_impl; [exact Hup|]. intros u. apply Hv.
  - by constructor.
Qed.
End Writer.

(** ** Runs with their log

    The calls of a client on the rows, with the log of the writes that succeeded
    and the snapshots handed out carried along.  The client keeps to its live
    transactions and to snapshots it was given, and does not write over a row
    that a committed transaction deleted. *)

#[export] Instance Snapshot_eq_dec : EqDecision Snapshot.
Proof. solve_decision. Defined.

Record Ghost := mkGhost {
  gh_rows : Rows;
  gh_log : gmap bytes (list write);
  gh_issued : list Snapshot
}.
Definition gh_table (G : Ghost) : TableInner := rw_table (gh_rows G).
Definition written (G : Ghost) (k : bytes) : list write := default [] (gh_log G !! k).
Definition log_write (k : bytes) (e : write) (G : Ghost) : gmap bytes (list write) := <[k := e :: written G k]> (gh_log G).

Definition gh_step (ps : Z) (op : StoreOp) (G : Ghost) : Ghost :=
  let '(a, R) := rows_exec ps op (gh_rows G) in
  match op, a with
  | SBegin, _ => mkGhost R (gh_log G) (snd (fst (rows_begin (gh_rows G))) :: gh_issued G)
  | SGet _, _ => mkGhost R (gh_log G) (latest_snapshot (gh_table G) :: gh_issued G)
  | SPut x k v, Val _ => mkGhost R (log_write k (x, Some v) G) (gh_issued G)
  | SDelete x k, Val (AFlag true) => mkGhost R (log_write k (x, None) G) (gh_issued G)
  | _, _ => mkGhost R (gh_log G) (gh_issued G)
  end.
Definition gh_run (ps : Z) (ops : list StoreOp) (G : Ghost) : Ghost := foldl (fun G op => gh_step ps op G) G ops.
Definition gh_new (t : TableInner) : Ghost := mkGhost (mkRows t ∅ ∅) ∅ [].

(** ** Discipline *)

Definition rolled_back (t : TableInner) (y : Z) : bool := match tx_status t y with Val Aborted => true | _ => false end.
(** The base is a version that counts (the walk did not stop at its limit). *)
Definition sound_base (t : TableInner) (base : list Ver) : bool := match base with [] => true | v :: _ => negb (rolled_back t (ve_xmin v)) end.
(** No other transaction's deletion stands on the base. *)
Definition undeleted (t : TableInner) (x : Z) (base : list Ver) : bool :=
  match base with [] => true | v :: _ => (ve_xmax v =? 0) || (ve_xmax v =? x) || rolled_back t (ve_xmax v) end.

Definition orderly (op : StoreOp) (G : Ghost) : bool :=
  let t := gh_table G in
  match op with
  | SBegin => next_xid t + 1 <? U64
  | SPut x k _ =>
      bool_decide (x ∈ in_progress t) &&
      match base_of MAX_VERSION_CHAIN t x (row (gh_rows G) k) with Val base => sound_base t base && undeleted t x base | _ => true end
  | SDelete x k =>
      bool_decide (x ∈ in_progress t) &&
      match base_of MAX_VERSION_CHAIN t x (row (gh_rows G) k) with Val base => sound_base t base | _ => true end
  | SGet _ => true
  | SGetAsOf s _ | SScanFrom s _ => bool_decide (s ∈ gh_issued G) && unlost t (snap_xid s)
  | SCommit x | SAbort x => bool_decide (x ∈ in_progress t)
  end.
Fixpoint orderly_run (ps : Z) (ops : list StoreOp) (G : Ghost) : bool :=
  match ops with
  | [] => true
  | op :: ops' => orderly op G && orderly_run ps ops' (gh_step ps op G)
  end.

(** ** Invariant *)

Record gh_ok (G : Ghost) : Prop := {
  go_traced : traced (gh_table G) (gh_issued G);
  go_live x : x ∈ in_progress (gh_table G) -> exists s, rw_snapshots (gh_rows G) !! x = Some s /\ snap_xid s = x /\ s ∈ gh_issued G;
  go_tells k : tells (gh_table G) (gh_issued G) (row (gh_rows G) k) (written G k)
}.

Lemma gh_new_ok t : tinv t -> in_progress t = ∅ -> gh_ok (gh_new t).
Proof.
  intros Hi Hp. split; cbn.
  - split; try done; by intros s ? ?%not_elem_of_nil || (intros s ?%not_elem_of_nil; done) || (intros s1 s2 ?%not_elem_of_nil; done) || (intros s1 s2 y ?%not_elem_of_nil; done).
  - intros x. unfold gh_table. cbn. rewrite Hp. set_solver.
  - intros k. unfold row, written. cbn. rewrite !lookup_empty. apply tells_nil.
Qed.

Lemma later_refl t : tinv t -> later t t.
Proof. intros Hi. split; [done|]. split; [lia|]. done. Qed.
Lemma later_begin t : tinv t -> next_xid t + 1 < U64 -> later t (snd (begin_tx t)) /\ next_xid (snd (begin_tx t)) = next_xid t + 1.
Proof.
  intros Hi Hn. pose proof (ti_frozen t Hi). assert (E : next_xid (snd (begin_tx t)) = next_xid t + 1) by (cbn; apply Z.mod_small; lia).
  split; [|done]. destruct (begin_spec t Hi Hn) as [Hi' Hs]. split; [done|]. split; [rewrite E; lia|done].
Qed.
Lemma later_commit t x : tinv t -> x ∈ in_progress t -> later t (commit x t).
Proof. intros Hi Hx. destruct (tstep_spec t (commit x t) Hi (T_commit t x Hx)). split; [done|]. split; [cbn; lia|done]. Qed.
Lemma abort_live t x : tinv t -> x ∈ in_progress t -> abort x t = set_in_progress (in_progress t ∖ {[x]}) (set_status (<[x := Aborted]> (status t)) t).
Proof. intros Hi Hx. unfold abort. rewrite bool_decide_eq_false_2; [done|]. apply (ti_active t Hi) in Hx. congruence. Qed.
Lemma later_abort t x : tinv t -> x ∈ in_progress t -> later t (abort x t).
Proof. intros Hi Hx. destruct (tstep_spec t (abort x t) Hi (T_abort t x Hx)). split; [done|]. split; [rewrite abort_live by done; cbn; lia|done]. Qed.

(** The table moves on, the rows stay. *)
Lemma gh_ok_later G t' snaps I' : gh_ok G -> later (gh_table G) t' -> gh_issued G ⊆ I' -> traced t' I' ->
  (forall x, x ∈ in_progress t' -> exists s, snaps !! x = Some s /\ snap_xid s = x /\ s ∈ I') ->
  gh_ok (mkGhost (mkRows t' snaps (rw_rows (gh_rows G))) (gh_log G) I').
Proof. intros [Ht Hl Hk] Hlt HI Ht' Hlive. split; [done|done|]. intros k. exact (tells_later _ _ _ _ _ _ Ht Hlt HI (Hk k)). Qed.

(** One row changes. *)
Lemma gh_ok_row G k c e : gh_ok G -> tells (gh_table G) (gh_issued G) c (e :: written G k) ->
  gh_ok (mkGhost (set_row k c (gh_rows G)) (log_write k e G) (gh_issued G)).
Proof.
  intros [Ht Hl Hk] Hc. split; [done|done|]. intros k'. unfold row, written. cbn [gh_rows set_row rw_rows gh_log log_write]. unfold log_write.
  destruct (decide (k' = k)) as [->|Hne]; [by rewrite !lookup_insert_eq|]. rewrite !lookup_insert_ne by done. apply Hk.
Qed.

Lemma settle_ok G outcome x : gh_ok G -> x ∈ in_progress (gh_table G) -> later (gh_table G) (outcome x (gh_table G)) ->
  in_progress (outcome x (gh_table G)) = in_progress (gh_table G) ∖ {[x]} -> gh_ok (mkGhost (rows_settle outcome x (gh_rows G)) (gh_log G) (gh_issued G)).
Proof.
  intros Hok Hx Hl Hp. apply gh_ok_later; try done; [by apply (traced_later (gh_table G)), Hl; apply Hok|]. intros y Hy. change (y ∈ in_progress (outcome x (gh_table G))) in Hy. rewrite Hp in Hy. apply elem_of_difference in Hy as [Hy Hne].
  rewrite lookup_delete_ne by set_solver. by apply Hok.
Qed.

Lemma rows_snapshot_live G x s : rw_snapshots (gh_rows G) !! x = Some s -> rows_snapshot (gh_rows G) x = s.
Proof. intros E. unfold rows_snapshot. by rewrite E. Qed.

Lemma rolled_back_lost t y : tinv t -> 0 < y < next_xid t -> rolled_back t y = true -> lost t y.
Proof. intros Hi Hy H. unfold rolled_back in H. apply aborted_lost; [done|done|]. destruct (tx_status t y) as [[]| |]; done. Qed.
Lemma sound_base_head t base v base' : sound_base t base = true -> base = v :: base' -> tx_status t (ve_xmin v) <> Val Aborted.
Proof. intros H -> E. cbn in H. unfold rolled_back in H. by rewrite E in H. Qed.

Lemma put_step ps x k v G : gh_ok G -> orderly (SPut x k v) G = true -> gh_ok (gh_step ps (SPut x k v) G).
Proof.
  intros Hok [Hx Hb]%andb_true_iff. apply bool_decide_eq_true in Hx. destruct (go_live G Hok x Hx) as (s & Esn & Es & Hin). pose proof (go_traced G Hok) as Ht.
  assert (Hstay : gh_ok (mkGhost (gh_rows G) (gh_log G) (gh_issued G))) by (by destruct G). unfold gh_step. cbn [rows_exec]. unfold rows_put. rewrite (rows_snapshot_live G x s Esn).
  change (rw_table (gh_rows G)) with (gh_table G) in *. destruct (base_of _ _ _ _) as [base|e|] eqn:Eb; [|done|done]. apply andb_true_iff in Hb as [Hb Hu].
  destruct (check_base _ _ _ _) as [[]|e|] eqn:Ec; [|done|done]. destruct (refused ps k); [done|]. cbn [answer res_bind]. apply gh_ok_row; [done|].
  pose proof (base_checked (gh_table G) (gh_issued G) x s _ _ Ht Hx (conj Hin Es) (go_tells G Hok k) _ base Eb Ec (fun v0 b0 => sound_base_head _ _ v0 b0 Hb)) as Hbd.
  apply (put_tells (gh_table G) (gh_issued G) x s (row (gh_rows G) k)); try done; [apply Hok|]. intros w base' ->. cbn in Hu. destruct (bd_up _ _ _ _ _ Hbd) as (up & E & _).
  pose proof (tl_range _ _ _ _ (go_tells G Hok k)) as Hr. rewrite E in Hr. apply Forall_app in Hr as [_ [[_ Hr] _]%Forall_cons].
  destruct (Z.eqb_spec (ve_xmax w) 0) as [?|Hne]; [by left|right]. destruct (Z.eqb_spec (ve_xmax w) x) as [?|?]; [by left|right]. apply rolled_back_lost; [apply Ht|lia|done].
Qed.

Lemma delete_step ps x k G : gh_ok G -> orderly (SDelete x k) G = true -> gh_ok (gh_step ps (SDelete x k) G).
Proof.
  intros Hok [Hx Hb]%andb_true_iff. apply bool_decide_eq_true in Hx. destruct (go_live G Hok x Hx) as (s & Esn & Es & Hin). pose proof (go_traced G Hok) as Ht.
  assert (Hstay : gh_ok (mkGhost (gh_rows G) (gh_log G) (gh_issued G))) by (by destruct G). unfold gh_step. cbn [rows_exec]. unfold rows_delete. rewrite (rows_snapshot_live G x s Esn).
  change (rw_table (gh_rows G)) with (gh_table G) in *. destruct (base_of _ _ _ _) as [[|v base]|e|] eqn:Eb; [done| |done|done].
  unfold rows_read. change (rw_table (gh_rows G)) with (gh_table G). destruct (read_chain _ _ _ _ _) as [[value|]|e|] eqn:Er; [|done|done|done].
  destruct (check_base _ _ _ _) as [[]|e|] eqn:Ec; [|done|done]. cbn [answer res_bind]. apply gh_ok_row; [done|].
  pose proof (base_checked (gh_table G) (gh_issued G) x s _ _ Ht Hx (conj Hin Es) (go_tells G Hok k) _ _ Eb Ec (fun v0 b0 => sound_base_head _ _ v0 b0 Hb)) as Hbd.
  apply (delete_tells (gh_table G) (gh_issued G) x s (row (gh_rows G) k) _ Ht Hx (conj Hin Es) (go_tells G Hok k) v base value Hbd).
  eapply read_chain_first; [apply Ht|exact Er].
Qed.

Lemma begin_step ps G : gh_ok G -> orderly SBegin G = true -> gh_ok (gh_step ps SBegin G).
Proof.
  intros Hok Hn%Z.ltb_lt. pose proof (go_traced G Hok) as Ht. pose proof (tr_inv _ _ Ht) as Hi. destruct (later_begin (gh_table G) Hi Hn) as [Hl Hnext].
  unfold gh_step. cbn [rows_exec]. unfold rows_begin. change (rw_table (gh_rows G)) with (gh_table G). cbn [begin_tx fst snd].
  change (gh_ok (mkGhost (mkRows (snd (begin_tx (gh_table G))) (<[next_xid (gh_table G) := snd (fst (begin_tx (gh_table G)))]> (rw_snapshots (gh_rows G))) (rw_rows (gh_rows G)))
    (gh_log G) (snd (fst (begin_tx (gh_table G))) :: gh_issued G))).
  apply gh_ok_later; [done|done|intros s Hs; by right| |].
  - eapply traced_taken; [exact Ht|exact Hl|by right|]. right. split; [done|]. rewrite Hnext. lia.
  - intros x. change (in_progress (snd (begin_tx (gh_table G)))) with ({[next_xid (gh_table G)]} ∪ in_progress (gh_table G)).
    intros [->%elem_of_singleton|Hx]%elem_of_union; [rewrite lookup_insert_eq; eexists; ands; [done|done|by left]|].
    destruct (go_live G Hok x Hx) as (s & E & Es & Hin). pose proof (live_range _ x Hi Hx). rewrite lookup_insert_ne by lia. exists s. ands; [done|done|by right].
Qed.

Lemma gh_step_ok ps op G : gh_ok G -> orderly op G = true -> gh_ok (gh_step ps op G).
Proof.
  intros Hok Ho. pose proof (go_traced G Hok) as Ht. pose proof (tr_inv _ _ Ht) as Hi. assert (Hstay : gh_ok (mkGhost (gh_rows G) (gh_log G) (gh_issued G))) by (by destruct G).
  destruct op as [|x k v|x k|k|s k|s start|x|x]; [by apply begin_step|by apply put_step|by apply delete_step| |done|done| |].
  - unfold gh_step. cbn [rows_exec]. destruct G as [[t snaps rows] log I]. cbn [gh_rows gh_log gh_issued] in *. apply (gh_ok_later (mkGhost (mkRows t snaps rows) log I) t snaps); [done| | | |].
    + by apply later_refl.
    + intros s Hs. by right.
    + eapply traced_taken; [exact Ht|by apply later_refl|by left|by left].
    + intros x Hx. destruct (go_live _ Hok x Hx) as (s & E & Es & Hin). exists s. ands; [done|done|by right].
  - apply bool_decide_eq_true in Ho. apply settle_ok; [done|done|by apply later_commit|done].
  - apply bool_decide_eq_true in Ho. apply settle_ok; [done|done|by apply later_abort|]. by rewrite abort_live.
Qed.

Lemma gh_run_ok ps ops : forall G, gh_ok G -> orderly_run ps ops G = true -> gh_ok (gh_run ps ops G).
Proof. induction ops as [|op ops IH]; intros G Hok Ho; [done|]. apply andb_true_iff in Ho as [Ho Hr]. apply IH; [by apply gh_step_ok|done]. Qed.

(** The log and the snapshots are carried along, and nothing depends on them. *)
Lemma gh_step_rows ps op G : gh_rows (gh_step ps op G) = snd (rows_exec ps op (gh_rows G)).
Proof. unfold gh_step. destruct (rows_exec ps op (gh_rows G)) as [a R]. destruct op, a as [[]| |]; try done. by destruct b. Qed.
Lemma gh_run_rows ps ops : forall G, gh_rows (gh_run ps ops G) = snd (rows_runs ps ops (gh_rows G)).
Proof.
  induction ops as [|op ops IH]; intros G; [done|]. cbn [gh_run foldl rows_runs]. change (foldl _ _ ops) with (gh_run ps ops (gh_step ps op G)).
  rewrite IH, gh_step_rows. destruct (rows_exec ps op (gh_rows G)) as [a R]. cbn [snd]. by destruct (rows_runs ps ops R).
Qed.
Lemma rows_runs_app ps ops ops' R : fst (rows_runs ps (ops ++ ops') R) = fst (rows_runs ps ops R) ++ fst (rows_runs ps ops' (snd (rows_runs ps ops R))).
Proof.
  revert R. induction ops as [|op ops IH]; intros R; [done|]. cbn [app rows_runs]. destruct (rows_exec ps op R) as [a R1]. specialize (IH R1).
  destruct (rows_runs ps (ops ++ ops') R1) as [r1 R2], (rows_runs ps ops R1) as [r3 R3]. cbn [fst snd] in *. by rewrite IH.
Qed.
Lemma orderly_run_app ps ops ops' G : orderly_run ps (ops ++ ops') G = orderly_run ps ops G && orderly_run ps ops' (gh_run ps ops G).
Proof. revert G. induction ops as [|op ops IH]; intros G; [done|]. cbn [app orderly_run]. by rewrite IH, andb_assoc. Qed.

(** Reading after an orderly run. *)
Lemma orderly_read G s k : gh_ok G -> orderly (SGetAsOf s k) G = true -> Z.of_nat (length (row (gh_rows G) k)) <= MAX_VERSION_CHAIN ->
  rows_read s k (gh_rows G) = Val (log_read (vis_of (gh_table G) s) (written G k)).
Proof.
  intros Hok [Hin Hu]%andb_true_iff Hlen. apply bool_decide_eq_true in Hin. apply (tells_read _ (gh_issued G)); [apply Hok|apply Hok|done| |done].
  intros Hl%(unlost_spec _ _ (tr_inv _ _ (go_traced G Hok))). congruence.
Qed.

Lemma orderly_latest G k : gh_ok G -> Z.of_nat (length (row (gh_rows G) k)) <= MAX_VERSION_CHAIN ->
  rows_read (latest_snapshot (gh_table G)) k (gh_rows G) = Val (log_read (vis_of (gh_table G) (latest_snapshot (gh_table G))) (written G k)).
Proof.
  intros Hok Hlen. pose proof (gh_step_ok 0 (SGet k) G Hok eq_refl) as Hok'. assert (E : gh_step 0 (SGet k) G = mkGhost (gh_rows G) (gh_log G) (latest_snapshot (gh_table G) :: gh_issued G)) by done.
  rewrite E in Hok'. apply (orderly_read _ _ k Hok'); [|done]. apply andb_true_iff. split; [apply bool_decide_eq_true; by left|]. cbn. unfold unlost. by rewrite bool_decide_false by lia.
Qed.
