(* ===== verification/PagedPages.v ===== *)
(** * The pages of the paged store

    One pool carries the meta page, the index and the heap file with its catalog.
    Each is set apart from the others in turn: the pages beside the meta page are
    a pager, so are those beside the index, and the heap file stands on the last.
    A call of one part moves the others along unchanged.  The second half is about
    the meta page: what it holds after a call, and when the roots are written to
    it. *)

From stdpp Require Import base tactics list numbers gmap.
From Stdlib Require Import ZArith Lia.
From S2P Require Import Prelude Turns Bytes Errors PageFormat Slotted Pager Keys BTreeNode BTree BTreeTheory BTreeTheorems BTreeClient.
From S2P Require Import Catalog CatalogSpec Overflow OverflowSpec Heap HeapPage HeapSpec HeapValues Mvcc Paged.
From S2P Require Import PoolFrees BTreeNodeSpec RootMoves.
Local Open Scope Z_scope.
Local Open Scope bic_scope.

(** What the store relies on when it names the writer to the pool. *)
Class PagerTagLaws (S : Type) `{PagerLaws S} `{PagerTags S} :=
  pg_tag_law : forall ps n s σ x, pg_models ps n s σ -> exists s', pg_set_transaction x s = (Val tt, s') /\ pg_models ps n s' σ.

(** ** The heap on another view of the pool *)

Lemma backed_moves {S} `{P : Pager S} {L : PagerLaws S} oc oA ps n s σ : backed oc oA ps n s σ ->
  exists τ, framed τ ps n s σ /\ forall (L' : PagerLaws S) n' s' σ', framed (L := L') τ ps n' s' σ' -> backed (L := L') oc oA ps n' s' σ'.
Proof.
  destruct oc as [c|], oA as [A|]; cbn [backed]; try done.
  - apply cat_opened.
  - intros M. exists ∅. unfold framed. split; [split; [apply map_disjoint_empty_l|by rewrite map_empty_union]|].
    intros L' n' s' σ' [_ M']. by rewrite map_empty_union in M'.
Qed.

Lemma holds_moves {S} `{P : Pager S} {L : PagerLaws S} {F : PagerFrees S} ps o k n s hp σ oA H G : holds ps o k n (s, hp) σ oA H G ->
  exists τ, framed τ ps n s σ /\
    forall (L' : PagerLaws S) (F' : @PagerFrees S P L') n' s', @pg_fixed_root _ _ _ F' = @pg_fixed_root _ _ _ F -> framed (L := L') τ ps n' s' σ ->
      holds (L := L') (F := F') ps o k n' (s', hp) σ oA H G.
Proof.
  intros [[B Pg R D Ls Fr Dr Fl] Ho He Hl]. cbn [fst snd] in *. destruct (backed_moves _ _ _ _ _ _ B) as (τ & Fm & Hc). exists τ. split; [done|].
  intros L' F' n' s' HF Fm'. split; try done; [split; try done; by apply Hc|].
  intros l v c Hlk p Hp. destruct (Hl l v c Hlk p Hp) as (H1 & H2 & H3). ands; try done. by rewrite HF.
Qed.

(** All the pages under the heap, as one map. *)
Lemma holds_whole {S} `{P : Pager S} {L : PagerLaws S} {F : PagerFrees S} ps o k n s hp σ oA H G : holds ps o k n (s, hp) σ oA H G ->
  exists τ, pg_models ps n s τ /\
    forall (L' : PagerLaws S) (F' : @PagerFrees S P L') n' s', @pg_fixed_root _ _ _ F' = @pg_fixed_root _ _ _ F -> @pg_models _ _ L' ps n' s' τ ->
      holds (L := L') (F := F') ps o k n' (s', hp) σ oA H G.
Proof.
  intros Hh. destruct (holds_moves _ _ _ _ _ _ _ _ _ _ Hh) as (τ & [Hd M] & Hc). exists (τ ∪ σ). split; [done|]. intros L' F' n' s' HF M'. apply (Hc L' F'); [done|]. by split.
Qed.

(** ** The layers *)

(** The page [b] names the roots [rs] of the index and of the catalog. *)
Definition names_roots (b : bytes) (rs : Z * Z) : Prop :=
  sub b 64 8 = META_MAGIC /\ u64_at b 72 = fst rs /\ u64_at b 80 = snd rs.

Section Layers.
Context {S : Type} {P : Pager S} {L : PagerLaws S} {F : PagerFrees S} {T : PagerTags S} {TL : PagerTagLaws S}.
Abbreviation m := pg_fixed_root.

(** The pages [σ] beside the meta page. *)
Definition beside_meta (rs : Z * Z) (ps : Z) (n : nat) (s : S) (σ : gmap Z bytes) : Prop :=
  exists b, framed {[m := b]} ps n s σ /\ readable ps b /\ names_roots b rs.
Lemma meta_opens rs : opens (beside_meta rs).
Proof. intros ps n s σ (b & Fr & Hb). exists {[m := b]}. split; [done|]. intros n' s' σ' Fr'. by exists b. Qed.
Definition meta_laws rs : PagerLaws S := opened_laws _ (meta_opens rs).
Definition meta_frees rs : @PagerFrees S P (meta_laws rs) := opened_frees _ (meta_opens rs).

(** The pages [σ] beside the meta page and the index [t], which stands for [es]. *)
Definition beside_index (rs : Z * Z) (t : BTree) (es : list entry) (ps : Z) (n : nat) (s : S) (σ : gmap Z bytes) : Prop :=
  stands (L := meta_laws rs) ps n (s, t) σ es.
Lemma index_opens rs t es : opens (L := meta_laws rs) (beside_index rs t es).
Proof.
  intros ps n s σ St. destruct (stands_open (L := meta_laws rs) ps n (s, t) σ es St) as (τ & Fr & Hc).
  exists τ. split; [exact Fr|]. intros n' s' σ' Fr'. exact (Hc _ n' s' σ' Fr').
Qed.
Definition index_laws rs t es : PagerLaws S := opened_laws (L := meta_laws rs) _ (index_opens rs t es).
Definition index_frees rs t es : @PagerFrees S P (index_laws rs t es) := opened_frees (L := meta_laws rs) (F := meta_frees rs) _ (index_opens rs t es).

(** The heap file over them. *)
Definition heaped (rs : Z * Z) (t : BTree) (es : list entry) := holds (L := index_laws rs t es) (F := index_frees rs t es).

(** The pages [σ] beside the meta page and an index with a cursor open on it. *)
Definition beside_cursor (rs : Z * Z) (t : BTree) (es : list entry) (r : BTreeRange) (rest : list entry) (ps : Z) (n : nat) (s : S) (σ : gmap Z bytes) : Prop :=
  cursor (L := meta_laws rs) ps n (s, t) σ es r rest.
Lemma cursor_opens rs t es r rest : opens (L := meta_laws rs) (beside_cursor rs t es r rest).
Proof.
  intros ps n s σ Cu. destruct (cursor_open (L := meta_laws rs) ps n (s, t) σ es r rest Cu) as (τ & Fr & Hc).
  exists τ. split; [exact Fr|]. intros n' s' σ' Fr'. exact (Hc n' s' σ' Fr').
Qed.
Definition cursor_laws rs t es r rest : PagerLaws S := opened_laws (L := meta_laws rs) _ (cursor_opens rs t es r rest).
Definition cursor_frees rs t es r rest : @PagerFrees S P (cursor_laws rs t es r rest) :=
  opened_frees (L := meta_laws rs) (F := meta_frees rs) _ (cursor_opens rs t es r rest).

(** ** A call of one part *)

Section Calls.
Context (ps : Z) (o : HeapOptions) (rs : Z * Z) (t : BTree) (es : list entry).
Context (k : Z) (n : nat) (s : S) (hp : HeapFile) (σ : gmap Z bytes) (oA : option ACat) (H : gmap Z PageHist) (G : gmap TupleLocator (bytes * list (Z * bytes))).
Hypothesis Hh : heaped rs t es ps o k n (s, hp) σ oA H G.

(** A call of the index. *)
Lemma index_step : exists τ, stands (L := meta_laws rs) ps n (s, t) τ es /\
  forall t' es' n' s', stands (L := meta_laws rs) ps n' (s', t') τ es' -> heaped rs t' es' ps o k n' (s', hp) σ oA H G.
Proof.
  destruct (holds_whole (L := index_laws rs t es) (F := index_frees rs t es) _ _ _ _ _ _ _ _ _ _ Hh) as (τ & St & Hc). exists τ. split; [exact St|].
  intros t' es' n' s' St'. by apply (Hc (index_laws rs t' es') (index_frees rs t' es')).
Qed.

(** A call of the pool that changes no page. *)
Lemma pool_step n' s' : (forall σ, pg_models ps n s σ -> pg_models ps n' s' σ) -> heaped rs t es ps o k n' (s', hp) σ oA H G.
Proof.
  intros Hm. destruct index_step as (τ & St & Hc). apply Hc. destruct (stands_open (L := meta_laws rs) ps n (s, t) τ es St) as (τ1 & [Hd M] & Hc1).
  apply (Hc1 (meta_laws rs)). split; [done|]. destruct M as (b & [Hd1 M1] & Hb). exists b. split; [split; [done|by apply Hm]|done].
Qed.

(** A call that changes the meta page. *)
Lemma meta_step : exists b τ, pg_models ps n s τ /\ τ !! m = Some b /\ readable ps b /\ names_roots b rs /\
  forall b' rs' n' s', pg_models ps n' s' (<[m := b']> τ) -> readable ps b' -> names_roots b' rs' -> heaped rs' t es ps o k n' (s', hp) σ oA H G.
Proof.
  destruct (holds_moves (L := index_laws rs t es) (F := index_frees rs t es) _ _ _ _ _ _ _ _ _ _ Hh) as (τ0 & [Hd0 St] & Hc0).
  destruct (stands_open (L := meta_laws rs) ps n (s, t) _ es St) as (τ1 & [Hd M] & Hc1). destruct M as (b & [Hd1 M1] & Hb & Hn).
  exists b, ({[m := b]} ∪ (τ1 ∪ (τ0 ∪ σ))). ands; [done|by rewrite <- insert_union_singleton_l, lookup_insert_eq|done|done|].
  intros b' rs' n' s' M' Hb' Hn'. rewrite <- insert_union_singleton_l, insert_insert_eq, insert_union_singleton_l in M'.
  apply (Hc0 (index_laws rs' t es) (index_frees rs' t es)); [done|]. split; [done|]. apply (Hc1 (meta_laws rs')). split; [done|]. exists b'. split; [split; [|done]|done].
  apply map_disjoint_singleton_l in Hd1. by apply map_disjoint_singleton_l.
Qed.
End Calls.
End Layers.

(** ** The meta page

    The page that names the roots: what is written to it is read back, and while
    a tree has not marked its root as moved the page names the current one. *)

(** Membership in a list written out. *)
Ltac member := rewrite !elem_of_cons; auto 10.

(** ** Writes in ascending order *)

Definition copies (ws : list (Z * bytes)) : st PageError bytes unit := forM (fun w => copy_at (fst w) (snd w)) ws.

Fixpoint ascending (lo : Z) (ws : list (Z * bytes)) (hi : Z) : Prop :=
  match ws with
  | [] => lo <= hi
  | (a, v) :: ws' => lo <= a /\ ascending (a + blen v) ws' hi
  end.

Lemma ascending_le ws : forall lo hi, ascending lo ws hi -> lo <= hi.
Proof. induction ws as [|[a v] ws IH]; intros lo hi; cbn; [done|]. intros [H1 H2%IH]. pose proof (blen_nonneg v). lia. Qed.

Lemma copies_spec ws : forall lo b, 0 <= lo -> ascending lo ws (blen b) ->
  exists b', copies ws b = (Val tt, b') /\ blen b' = blen b /\
    (forall a n, 0 <= a -> 0 <= n -> a + n <= lo -> sub b' a n = sub b a n) /\ Forall (fun w => sub b' (fst w) (blen (snd w)) = snd w) ws.
Proof.
  induction ws as [|[a v] ws IH]; intros lo b Hlo Has; [by exists b|]. cbn in Has. destruct Has as [Ha Hws]. pose proof (blen_nonneg v). pose proof (ascending_le _ _ _ Hws).
  assert (Hb : blen (patch b a v) = blen b) by (apply blen_patch; lia).
  destruct (IH (a + blen v) (patch b a v)) as (b' & E & Hl & Hk & Hw); [lia|by rewrite Hb|]. exists b'. ands.
  - unfold copies. cbn [forM fst snd]. unfold st_bind at 1. rewrite copy_at_in by lia. exact E.
  - congruence.
  - intros a' n' ? ? ?. rewrite Hk by lia. apply sub_patch_disjoint; lia.
  - constructor; [|done]. cbn [fst snd]. rewrite Hk by lia. apply sub_patch_same; lia.
Qed.

Lemma copies_app ws1 ws2 b : copies (ws1 ++ ws2) b = (copies ws1 ;;; copies ws2) b.
Proof.
  unfold copies. revert b. induction ws1 as [|w ws1 IH]; intros b; [done|]. cbn [app forM]. unfold st_bind at 1 2. unfold st_bind at 1.
  destruct (copy_at (fst w) (snd w) b) as [[[]|e|] b1]; [|done..]. apply IH.
Qed.

(** ** What [write_meta] writes *)

Section Contents.
Context (ps i c f x : Z) (es : list Z) (sp : Z * Z * Z).
Hypothesis Hps : 512 <= ps <= 65536.
Hypothesis Hroom : Z.of_nat (length es) <= abort_exception_capacity ps.

Definition exception_writes : list (Z * bytes) := (fun ix : nat * Z => (112 + Z.of_nat (fst ix) * 8, le_enc 8 (snd ix))) <$> imap pair es.
Definition meta_writes : list (Z * bytes) :=
  [(64, META_MAGIC); (72, le_enc 8 i); (80, le_enc 8 c); (88, le_enc 8 f); (96, le_enc 8 x); (104, le_enc 8 (Z.of_nat (length es)))] ++
  exception_writes ++ [(ps - 32, le_enc 8 sp.1.1); (ps - 24, le_enc 8 sp.1.2); (ps - 16, le_enc 8 sp.2)].

Lemma room : 112 + Z.of_nat (length es) * 8 <= ps - 32.
Proof.
  unfold abort_exception_capacity in Hroom. set (a := sat_sub _ _) in Hroom. pose proof (Z.mul_div_le a 8 ltac:(lia)).
  assert (a = ps - 144) by (unfold a, sat_sub, usable_bytes, META_FIXED_BYTES, META_SPILL_DESCRIPTOR_BYTES, PAGE_HEADER_BYTES, PAGE_TRAILER_BYTES; lia). lia.
Qed.

Lemma meta_ascending : ascending 64 meta_writes ps.
Proof.
  pose proof room as Hr. unfold meta_writes, exception_writes. cbn [app ascending]. rewrite !blen_le_enc. change (blen META_MAGIC) with 8. ands; try lia.
  assert (Hg : forall (l : list Z) k lo, lo = 112 + k * 8 -> 0 <= k -> 112 + (k + Z.of_nat (length l)) * 8 <= ps - 32 ->
    ascending lo (((fun ix : nat * Z => (112 + Z.of_nat (fst ix) * 8, le_enc 8 (snd ix))) <$> imap (fun j => pair (Z.to_nat k + j)%nat) l) ++
      [(ps - 32, le_enc 8 sp.1.1); (ps - 24, le_enc 8 sp.1.2); (ps - 16, le_enc 8 sp.2)]) ps).
  { induction l as [|e l IH]; intros k lo -> Hk Hle; cbn [imap fmap list_fmap app ascending length fst snd] in *.
    - rewrite !blen_le_enc. lia.
    - rewrite blen_le_enc. split; [lia|]. replace (imap _ l) with (imap (fun j => pair (Z.to_nat (k + 1) + j)%nat) l : list (nat * Z)).
      + apply IH; lia.
      + apply imap_ext. intros j y _. cbn. f_equal. lia. }
  specialize (Hg es 0 (104 + Z.of_nat 8) ltac:(lia) ltac:(lia) ltac:(lia)). exact Hg.
Qed.

Lemma bind_same {A} (m m' : st PageError bytes A) (k k' : A -> st PageError bytes unit) b : m b = m' b -> (forall a b, k a b = k' a b) -> st_bind m k b = st_bind m' k' b.
Proof. intros Hm Hk. unfold st_bind. rewrite Hm. by destruct (m' b) as [[a|e|] b']. Qed.

Lemma copy_same a a' v b : a = a' -> copy_at (E := PageError) a v b = copy_at a' v b.
Proof. by intros ->. Qed.

Lemma fill_meta_copies b : fill_meta i c f x es sp ps b = copies meta_writes b.
Proof.
  unfold fill_meta, meta_writes, copies. cbn [app forM fst snd]. change PAGE_HEADER_BYTES with 64.
  do 6 (apply bind_same; [by apply copy_same|intros _ ?]). fold (copies (exception_writes ++ [(ps - 32, le_enc 8 sp.1.1); (ps - 24, le_enc 8 sp.1.2); (ps - 16, le_enc 8 sp.2)])).
  rewrite copies_app. apply bind_same.
  - unfold exception_writes, copies. generalize (imap pair es). intros l. match goal with |- context [forM _ _ ?b] => revert b end. induction l as [|e l IH]; intros b'; [done|]. cbn [fmap list_fmap forM fst snd].
    apply bind_same; [apply copy_same; unfold META_FIXED_BYTES; lia|intros _ ?; apply IH].
  - intros _ b6. destruct sp as [[h p] n]. unfold copies. cbn [forM fst snd]. unfold usable_bytes, META_SPILL_DESCRIPTOR_BYTES, PAGE_HEADER_BYTES, PAGE_TRAILER_BYTES.
    do 2 (apply bind_same; [apply copy_same; lia|intros _ ?]). unfold st_bind. rewrite (copy_same (64 + (ps - 64 - 8 - (8 + 8 + 8) + 16)) (ps - 16)) by lia.
    by destruct (copy_at _ _ _) as [[[]|e|] b'].
Qed.

(** The page: a readable one, with every field in its place. *)
Lemma meta_written m b : is_u64 m -> blen b = ps ->
  exists b', (encode (new_header m PageFormat.Heap ps) ;;; fill_meta i c f x es sp ps) b = (Val tt, b') /\ readable ps b' /\
    Forall (fun w => sub b' (fst w) (blen (snd w)) = snd w) meta_writes.
Proof.
  intros Hm Hb. unfold st_bind. rewrite encode_patch by lia. rewrite fill_meta_copies. set (h := header_bytes _).
  assert (Hh : blen h = 64) by apply blen_header_bytes. assert (Hl : blen (patch b 0 h) = ps) by (rewrite blen_patch; lia).
  destruct (copies_spec meta_writes 64 (patch b 0 h)) as (b' & E & Hlen & Hk & Hw); [lia|rewrite Hl; apply meta_ascending|].
  exists b'. ands; [done| |done]. split; [lia|].
  exists (new_header m PageFormat.Heap ps). rewrite (decode_ext b' (patch b 0 h)); [|lia|lia|apply Hk; lia..].
  apply decode_header_bytes; [by apply new_header_ok|lia].
Qed.

(** ** Reading it back *)

Section Read.
Context (m : Z) (b : bytes).
Hypothesis Hlen : blen b = ps.
Hypothesis Hwrites : Forall (fun w => sub b (fst w) (blen (snd w)) = snd w) meta_writes.

Lemma written_at w : w ∈ meta_writes -> sub b (fst w) (blen (snd w)) = snd w.
Proof. intros Hw. exact (proj1 (Forall_forall _ _) Hwrites w Hw). Qed.

Lemma field_at a v : (a, le_enc 8 v) ∈ meta_writes -> 0 <= a <= ps - 8 -> is_u64 v -> read_le (E := PageError) 8 b a = Val v.
Proof.
  intros Hw%written_at Ha Hv. cbn [fst snd] in Hw. rewrite blen_le_enc in Hw. change (Z.of_nat 8) with 8 in Hw. rewrite read_le_in by lia. f_equal. rewrite Hw. by apply le_dec_u64.
Qed.

Lemma exception_field j y : es !! j = Some y -> is_u64 y -> read_le (E := PageError) 8 b (112 + Z.of_nat j * 8) = Val y.
Proof.
  intros Hj Hy. pose proof (lookup_lt_Some _ _ _ Hj). pose proof room. apply field_at; [|lia|done]. unfold meta_writes. apply elem_of_app. right. apply elem_of_app. left.
  unfold exception_writes. apply list_elem_of_fmap. exists (j, y). split; [done|]. apply elem_of_lookup_imap. by exists j, y.
Qed.

(** Exceptions as the table keeps them: ascending, above zero, below the next. *)
Fixpoint exceptions_ok (previous : Z) (l : list Z) : Prop :=
  match l with [] => True | y :: l' => previous < y < x /\ exceptions_ok y l' end.

Lemma read_exceptions_spec l : forall j previous, 0 <= previous -> is_u64 x -> drop j es = l -> exceptions_ok previous l ->
  read_exceptions b m x previous (length l) (Z.of_nat j) = Val l.
Proof.
  induction l as [|y l IH]; intros j previous Hp Hx Hd Hok; [done|]. cbn [exceptions_ok] in Hok. destruct Hok as [Hy Hok].
  assert (Hj : es !! j = Some y) by (rewrite <- (Nat.add_0_r j), <- lookup_drop, Hd; done).
  cbn [length read_exceptions]. change PAGE_HEADER_BYTES with 64. change META_FIXED_BYTES with 48.
  replace (64 + (48 + Z.of_nat j * 8)) with (112 + Z.of_nat j * 8) by lia. rewrite (exception_field j y) by (done || unfold is_u64 in *; lia). cbn [res_bind].
  rewrite (proj2 (Z.eqb_neq _ _)), (proj2 (Z.leb_gt _ _)), (proj2 (Z.leb_gt _ _)) by lia. cbn [orb].
  replace (Z.of_nat j + 1) with (Z.of_nat (Datatypes.S j)) by lia. rewrite IH; [done|lia|done| |done].
  change (Datatypes.S j) with (1 + j)%nat. by rewrite Nat.add_comm, <- drop_drop, Hd.
Qed.

Lemma decode_written legacy : is_u64 i -> is_u64 c -> is_u64 f -> is_u64 x -> is_u64 sp.1.1 -> is_u64 sp.1.2 -> is_u64 sp.2 ->
  exceptions_ok 0 es -> (sp.1.1 = 0 <-> sp.1.2 = 0) -> (sp.1.1 = 0 -> sp.2 = 0) ->
  decode_meta b m legacy = Val (mkRoots i c f x es sp true false).
Proof.
  intros Hi Hc Hf Hx H1 H2 H3 Hes Hsp1 Hsp2. pose proof room. unfold decode_meta. change PAGE_HEADER_BYTES with 64. rewrite slice_in by lia.
  pose proof (written_at (64, META_MAGIC) ltac:(left)) as Em. cbn [fst snd] in Em. change (blen META_MAGIC) with 8 in Em.
  change (64 + 8 - 64) with 8. rewrite Em. cbn [res_bind]. rewrite bool_decide_true by done. cbn [negb].
  assert (Hf8 : forall a v, (a, le_enc 8 v) ∈ meta_writes -> 0 <= a <= ps - 8 -> is_u64 v -> read_le (E := PageError) 8 b a = Val v) by apply field_at.
  assert (Hhd : forall w, w ∈ [(64, META_MAGIC); (72, le_enc 8 i); (80, le_enc 8 c); (88, le_enc 8 f); (96, le_enc 8 x); (104, le_enc 8 (Z.of_nat (length es)))] -> w ∈ meta_writes)
    by (intros w Hw; apply elem_of_app; by left).
  assert (Htl : forall w, w ∈ [(ps - 32, le_enc 8 sp.1.1); (ps - 24, le_enc 8 sp.1.2); (ps - 16, le_enc 8 sp.2)] -> w ∈ meta_writes)
    by (intros w Hw; apply elem_of_app; right; apply elem_of_app; by right).
  rewrite (Hf8 (64 + 32) x) by (done || lia || (apply Hhd; member)). cbn [res_bind]. unfold read_meta_extension. change PAGE_HEADER_BYTES with 64.
  rewrite (Hf8 (64 + 40) (Z.of_nat (length es))) by (done || lia || (apply Hhd; member) || (unfold is_u64, U64; lia)). cbn [res_bind].
  rewrite Hlen, (proj2 (Z.ltb_ge _ _)) by done. rewrite Nat2Z.id, (read_exceptions_spec es 0 0 ltac:(lia) Hx (drop_0 es) Hes : read_exceptions b m x 0 (length es) 0 = Val es). cbn [res_bind].
  unfold usable_bytes, META_SPILL_DESCRIPTOR_BYTES, PAGE_HEADER_BYTES, PAGE_TRAILER_BYTES.
  rewrite (Hf8 (64 + (ps - 64 - 8 - (8 + 8 + 8))) sp.1.1); [|replace (64 + (ps - 64 - 8 - (8 + 8 + 8))) with (ps - 32) by lia; apply Htl; member|lia|done]. cbn [res_bind].
  rewrite (Hf8 (64 + (ps - 64 - 8 - (8 + 8 + 8) + 8)) sp.1.2); [|replace (64 + (ps - 64 - 8 - (8 + 8 + 8) + 8)) with (ps - 24) by lia; apply Htl; member|lia|done]. cbn [res_bind].
  rewrite (Hf8 (64 + (ps - 64 - 8 - (8 + 8 + 8) + 16)) sp.2); [|replace (64 + (ps - 64 - 8 - (8 + 8 + 8) + 16)) with (ps - 16) by lia; apply Htl; member|lia|done]. cbn [res_bind].
  destruct (xorb (sp.1.1 =? 0) (sp.1.2 =? 0) || ((0 <? sp.2) && (sp.1.1 =? 0))) eqn:Ebad.
  { exfalso. destruct (Z.eqb_spec sp.1.1 0), (Z.eqb_spec sp.1.2 0), (Z.ltb_spec 0 sp.2); cbn in Ebad; try done; intuition lia. }
  rewrite (Hf8 (64 + 8) i), (Hf8 (64 + 16) c), (Hf8 (64 + 24) f) by (done || lia || (apply Hhd; member)). cbn [res_bind]. by destruct sp as [[? ?] ?].
Qed.
End Read.
End Contents.

(** ** Recording the roots *)

Lemma stands_root {S} `{P : Pager S} {L : PagerLaws S} ps n (w : S * BTree) σ es : stands ps n w σ es -> is_u64 (root (snd w)).
Proof. intros (σ' & h & t & _ & T & _). by eapply tree_root. Qed.

Lemma stands_unmark {S} `{P : Pager S} {L : PagerLaws S} ps n s t t' σ es : root t' = root t -> stands ps n (s, t) σ es -> stands ps n (s, t') σ es.
Proof. intros Hr (σ' & h & b & M & [T1 T2 T3 T4 T5] & D & Fr). exists σ', h, b. ands; try done. split; try done. cbn [snd] in *. congruence. Qed.

Lemma holds_unmark {S} `{P : Pager S} {L : PagerLaws S} {F : PagerFrees S} ps o k n s hp c c' σ oA H G : holds ps o k n (s, hp) σ oA H G ->
  hp_catalog hp = Some c -> root (tree c') = root (tree c) -> cat_page_size c' = cat_page_size c -> holds ps o k n (s, set_catalog c' hp) σ oA H G.
Proof.
  intros [[B Pg R D Ls Fr Dr Fl] Ho He Hl] Hc Hr Hp. split; try done. split; try done. cbn [fst snd set_catalog hp_catalog] in *. rewrite Hc in B. destruct oA as [A|]; [|done].
  destruct B as (es & St & Sh & Hps). exists es. ands; [by eapply stands_unmark, St|done|]. cbn [snd] in *. congruence.
Qed.

Lemma holds_catalog_root {S} `{P : Pager S} {L : PagerLaws S} {F : PagerFrees S} ps o k n s hp c σ oA H G : holds ps o k n (s, hp) σ oA H G ->
  hp_catalog hp = Some c -> is_u64 (root (tree c)).
Proof.
  intros [[B _ _ _ _ _ _ _] _ _ _] Hc. cbn [fst snd] in B. rewrite Hc in B. destruct oA as [A|]; [|done]. destruct B as (es & St & _). by apply stands_root in St.
Qed.

Section Sync.
Context {S : Type} {P : Pager S} {L : PagerLaws S} {F : PagerFrees S}.
Context (ps : Z) (o : HeapOptions).
Hypothesis Hps : 512 <= ps <= 65536.

(** The store [p] keeps its roots in the pager's root page, at this page size. *)
Record sized (p : PagedStore) : Prop := {
  sz_meta : pd_meta_page p = pg_fixed_root;
  sz_u64 : is_u64 (pd_meta_page p);
  sz_size : pd_page_size p = ps;
  sz_room : Z.of_nat (length (abort_exceptions_list (pd_transactions p))) <= abort_exception_capacity ps
}.

(** Filling the meta page, wherever the other pages belong. *)
Lemma fill_page n s τ p c b : pg_models ps n s τ -> τ !! pg_fixed_root = Some b -> blen b = ps -> sized p -> hp_catalog (pd_heap p) = Some c ->
  is_u64 (root (pd_index p)) -> is_u64 (root (tree c)) ->
  exists s' b', write_meta (s, p) = (Val tt, (s', p)) /\ pg_models ps n s' (<[pg_fixed_root := b']> τ) /\ readable ps b' /\
    names_roots b' (root (pd_index p), root (tree c)).
Proof.
  intros M Hb Hbl [Hm Hu Hsz Hroom] Hc Hi Hcr. destruct (pg_get_mut_law ps n s τ pg_fixed_root b M Hb) as (b0 & (Hl0 & _) & Hlaw).
  set (t := pd_transactions p) in *.
  destruct (meta_written ps (root (pd_index p)) (root (tree c)) (frozen_xid t) (next_xid t) (abort_exceptions_list t) (pd_spill p) Hps Hroom (pd_meta_page p) b0)
    as (b' & Eb & Hr & Hw); [done|lia|].
  assert (Ecr : catalog_root p = root (tree c)) by (unfold catalog_root; by rewrite Hc).
  destruct (Hlaw unit (encode (new_header (pd_meta_page p) PageFormat.Heap ps) ;;;
     fill_meta (root (pd_index p)) (root (tree c)) (frozen_xid t) (next_xid t) (abort_exceptions_list t) (pd_spill p) ps)) as (s' & E & M'); [by rewrite Eb|].
  rewrite Eb in E, M'. cbn [fst snd] in E, M'. exists s', b'. ands; [|done|done|].
  - unfold write_meta. unfold st_bind at 1, gets at 1. cbv zeta. unfold on_pool. cbn [fst snd]. fold t. rewrite Ecr, Hsz, Hm. rewrite Hm in E. by rewrite E.
  - unfold names_roots. cbn [fst snd].
    assert (Hat : forall a v, (a, v) ∈ [(64, META_MAGIC); (72, le_enc 8 (root (pd_index p))); (80, le_enc 8 (root (tree c)))] -> sub b' a (blen v) = v).
    { intros a v Hin. apply (proj1 (Forall_forall _ _) Hw (a, v)). unfold meta_writes. apply elem_of_app. left. rewrite !elem_of_cons in *. intuition. }
    ands; [exact (Hat 64 META_MAGIC ltac:(member))|unfold u64_at..].
    + rewrite (Hat 72 (le_enc 8 (root (pd_index p))) ltac:(member) : sub b' 72 8 = _). by apply le_dec_u64.
    + rewrite (Hat 80 (le_enc 8 (root (tree c))) ltac:(member) : sub b' 80 8 = _). by apply le_dec_u64.
Qed.

Context (rs : Z * Z) (es : list entry) (k : Z) (n : nat) (σ : gmap Z bytes) (oA : option ACat) (H : gmap Z PageHist) (G : gmap TupleLocator (bytes * list (Z * bytes))).
Abbreviation stored_in rs s p := (heaped rs (pd_index p) es ps o k n (s, pd_heap p) σ oA H G).

Lemma write_meta_spec s p c : stored_in rs s p -> sized p -> hp_catalog (pd_heap p) = Some c ->
  exists s', write_meta (s, p) = (Val tt, (s', p)) /\ stored_in (root (pd_index p), root (tree c)) s' p.
Proof.
  intros Hh Hz Hc. destruct (meta_step _ _ _ _ _ _ _ _ _ _ _ _ _ Hh) as (b & τ & M & Hb & [Hbl _] & _ & Hclose).
  destruct (index_step _ _ _ _ _ _ _ _ _ _ _ _ _ Hh) as (τ1 & St & _). pose proof (stands_root (L := meta_laws rs) _ _ _ _ _ St) as Hi. cbn [snd] in Hi.
  pose proof (holds_catalog_root (L := index_laws rs (pd_index p) es) (F := index_frees rs (pd_index p) es) _ _ _ _ _ _ c _ _ _ _ Hh Hc) as Hcr.
  destruct (fill_page n s τ p c b M Hb Hbl Hz Hc Hi Hcr) as (s' & b' & E & M' & Hr & Hn). exists s'. split; [done|]. by eapply Hclose.
Qed.

(** The roots on the meta page are the current ones, or a tree says otherwise. *)
Definition roots_marked (p : PagedStore) : Prop := marked (fst rs) (pd_index p) /\ cataloged (snd rs) (pd_heap p).

(** Afterwards the meta page names the current roots. *)
Lemma sync_roots_spec s p : stored_in rs s p -> sized p -> roots_marked p ->
  exists s' i hp, let p' := put_heap hp (put_index i p) in
    sync_roots (s, p) = (Val tt, (s', p')) /\ stored_in (root i, catalog_root p') s' p' /\ is_Some (hp_catalog hp).
Proof.
  intros Hh Hz [Mi (c & Hc & Mc)]. set (i := mkTree (root (pd_index p)) false (cache_class (pd_index p))).
  set (p1 := put_index i p). assert (Hh1 : stored_in rs s p1).
  { destruct (index_step _ _ _ _ _ _ _ _ _ _ _ _ _ Hh) as (τ & St & Hclose). apply (Hclose i). eapply (stands_unmark (L := meta_laws rs)), St. done. }
  assert (Hz1 : sized p1) by (destruct Hz; by split).
  assert (E1 : on_index take_root_changed (s, p) = (Val (root_changed (pd_index p)), (s, p1))) by done.
  destruct (root_changed (pd_index p)) eqn:Ei.
  - destruct (write_meta_spec s p1 c Hh1 Hz1 Hc) as (s' & E2 & Hh2). exists s', i, (pd_heap p).
    assert (Ep : put_heap (pd_heap p) p1 = p1) by done. fold p1. rewrite Ep. split.
    + unfold sync_roots. unfold st_bind at 1. rewrite E1. unfold st_bind, st_ret. exact E2.
    + split; [|by rewrite Hc]. replace (catalog_root p1) with (root (tree c)); [done|]. unfold catalog_root. cbn [pd_heap p1 put_index]. by rewrite Hc.
  - set (c' := mkCatalog (mkTree (root (tree c)) false (cache_class (tree c))) (cat_page_size c)). set (hp := set_catalog c' (pd_heap p)). set (p2 := put_heap hp p1).
    assert (Hh2 : stored_in rs s p2) by (by apply (holds_unmark (L := index_laws rs i es) (F := index_frees rs i es) ps o k n s (pd_heap p) c c')).
    assert (E2 : on_heap (in_catalog cat_take_root_changed) (s, p1) = (Val (Some (root_changed (tree c))), (s, p2))).
    { unfold on_heap, in_catalog. cbn [fst snd pd_heap p1 put_index]. by rewrite Hc. }
    assert (Hz2 : sized p2) by (destruct Hz; by split). destruct (root_changed (tree c)) eqn:Ec.
    + destruct (write_meta_spec s p2 c' Hh2 Hz2 eq_refl) as (s' & E3 & Hh3). exists s', i, hp. split; [|split; [exact Hh3|done]].
      unfold sync_roots. unfold st_bind at 1. rewrite E1. unfold st_bind at 1 2. rewrite E2. exact E3.
    + exists s, i, hp. split; [unfold sync_roots; unfold st_bind at 1; rewrite E1; unfold st_bind at 1 2; by rewrite E2|].
      split; [|done]. destruct Mi as [Mi|Mi]; [|congruence]. destruct Mc as [Mc'|Mc']; [|congruence]. change (catalog_root _) with (root (tree c)). cbn [root i].
      rewrite Mi, Mc'. by destruct rs.
Qed.
End Sync.
