(* ===== verification/PagedChains.v ===== *)
(** * Version chains on heap pages

    The walks along a chain: from the newest version of a row each header leads
    to the version it replaced.  The walks read what the rows of [Versions] hold,
    and the cycle detector never stops them. *)

From stdpp Require Import base tactics list numbers gmap.
From Stdlib Require Import ZArith Lia.
From S2P Require Import Prelude Turns Bytes Errors PageFormat Slotted SlottedSpec SlottedTrace Pager Keys BTreeNode BTree BTreeTheory BTreeTheorems BTreeClient.
From S2P Require Import Catalog CatalogSpec Overflow OverflowSpec Heap HeapPage HeapSpec HeapValues Mvcc MvccOutcomes Paged Versions PagedPages.
Local Open Scope Z_scope.
Local Open Scope bic_scope.

(** ** The cycle detector *)

(** The detector [d] has seen [l], in this order. *)
Definition watches (d : ChainCycleDetector) (l : list TupleLocator) : Prop :=
  match dt_overflow d with
  | None => (length l <= 32)%nat /\ dt_inline d = (Some <$> l) ++ replicate (32 - length l) None
  | Some m => (32 < length l)%nat /\ forall x, m !! x = None <-> x ∉ l
  end.

Lemma watches_default : watches detector_default [].
Proof. split; [cbn; lia|done]. Qed.

Lemma position_none x l : position_of x (Some <$> l) = None <-> x ∉ l.
Proof.
  induction l as [|y l IH]; cbn; [by split; intros; [apply not_elem_of_nil|]|]. rewrite not_elem_of_cons, <- IH. case_bool_decide as E.
  - injection E as ->. split; [done|]. by intros [[] _].
  - destruct (position_of x (Some <$> l)); cbn; [by split; [|intros []]|]. split; [|done]. intros _. split; [congruence|done].
Qed.

Lemma spilled_none x l : spilled (Some <$> l) !! x = None <-> x ∉ l.
Proof.
  unfold spilled. assert (Hg : forall (l : list TupleLocator) k (m : gmap TupleLocator Z),
    foldl (fun m (ic : nat * option TupleLocator) => match snd ic with Some c => <[c := Z.of_nat (fst ic)]> m | None => m end) m (imap (fun j => pair (k + j)%nat) (Some <$> l)) !! x = None
      <-> (x ∉ l) /\ m !! x = None).
  { clear. induction l as [|y l IH]; intros k m; cbn; [split; [intros E; split; [apply not_elem_of_nil|done]|by intros [_ E]]|].
    rewrite (imap_ext _ (fun j => pair (Datatypes.S k + j)%nat)) by (intros; cbn; f_equal; lia). rewrite IH, not_elem_of_cons, lookup_insert_None.
    naive_solver. }
  rewrite (Hg l 0%nat ∅), lookup_empty. naive_solver.
Qed.

Lemma observe_new d l x : watches d l -> x ∉ l -> exists d', observe x (Z.of_nat (length l)) d = (None, d') /\ watches d' (l ++ [x]).
Proof.
  unfold watches, observe. intros W Hx. destruct (dt_overflow d) as [m|].
  - destruct W as [Hl Hm]. rewrite (proj2 (Hm x) Hx). eexists. split; [done|]. cbn. rewrite length_app. cbn. split; [lia|].
    intros y. rewrite lookup_insert_None, Hm, not_elem_of_app, not_elem_of_cons. pose proof (not_elem_of_nil y). naive_solver.
  - destruct W as [Hl Hd]. unfold VERSION_CHAIN_INLINE_SEEN. destruct (Z.ltb_spec (Z.of_nat (length l)) 32) as [Hlt|Hge].
    + rewrite Nat2Z.id, Hd, take_app_length' by (by rewrite length_fmap). rewrite (proj2 (position_none x l) Hx). eexists. split; [done|]. cbn.
      rewrite length_app. cbn. split; [lia|]. rewrite <- (length_fmap Some l) at 1. rewrite <- (Nat.add_0_r (length (Some <$> l))), insert_app_r.
      replace (32 - length l)%nat with (Datatypes.S (32 - (length l + 1))) by lia. cbn. by rewrite fmap_app, <- app_assoc.
    + assert (Hl32 : length l = 32%nat) by lia. rewrite Hd, Hl32, app_nil_r. rewrite (proj2 (spilled_none x l) Hx). eexists. split; [done|]. cbn.
      rewrite length_app. cbn. split; [lia|]. intros y. rewrite lookup_insert_None, spilled_none, not_elem_of_app, not_elem_of_cons. pose proof (not_elem_of_nil y). naive_solver.
Qed.

(** ** Versions in the heap *)

(** The tuple of the version [v] that replaced the one at [pr]. *)
Definition ver_tuple (v : Ver) (pr : option TupleLocator) : bytes := encode_into (mkVersion (ve_xmin v) (ve_xmax v) pr) [] ++ ve_value v.

Lemma blen_encode h : blen (encode_into h []) = 30.
Proof. unfold encode_into, blen. rewrite !length_app, !length_le_enc. by destruct (prev h). Qed.

Lemma blen_ver_tuple v pr : blen (ver_tuple v pr) = 30 + blen (ve_value v).
Proof. unfold ver_tuple. by rewrite blen_app, blen_encode. Qed.

Lemma ver_tuple_stamp v pr x : patch_xmax (ver_tuple v pr) x = ver_tuple (mkVer (ve_xmin v) x (ve_value v)) pr.
Proof. apply patch_xmax_encode. Qed.

(** The versions of a row, with the locators they are stored under. *)
Abbreviation links := (list (TupleLocator * Ver)).
Abbreviation values := (gmap TupleLocator (bytes * list (Z * bytes))).

Fixpoint chained (G : values) (c : links) : Prop :=
  match c with
  | [] => True
  | (l, v) :: c' => (exists ov, G !! l = Some (ver_tuple v (fst <$> head c'), ov)) /\ chained G c'
  end.

Lemma chained_elem G c : chained G c -> forall l v, (l, v) ∈ c -> exists t ov, G !! l = Some (t, ov).
Proof.
  induction c as [|[l0 v0] c IH]; cbn; [intros _ l v Hin; by apply not_elem_of_nil in Hin|]. intros [[ov Hl] Hc] l v [[= -> ->]|Hin]%elem_of_cons; [eauto|by eapply IH].
Qed.

Lemma versions_frame G G' c : (forall l v, (l, v) ∈ c -> G' !! l = G !! l) -> chained G c -> chained G' c.
Proof.
  induction c as [|[l v] c IH]; cbn; [done|]. intros Hf [[ov Hl] Hc]. split; [exists ov; rewrite <- Hl; apply (Hf l v); by left|].
  apply IH; [|done]. intros l' v' Hin. apply (Hf l' v'). by right.
Qed.

Lemma versions_suffix G c1 c2 : chained G (c1 ++ c2) -> chained G c2.
Proof. induction c1 as [|[l v] c1 IH]; cbn; [done|]. by intros [_ H%IH]. Qed.

Section Sized.
Context (ps : Z) (o : HeapOptions) (mx : nat).

(** A version the heap gives back whole, and whose tuple takes at most [mx] pages. *)
Record ver_ok (v : Ver) : Prop := {
  vo_xmin : is_u64 (ve_xmin v);
  vo_xmax : is_u64 (ve_xmax v);
  vo_bytes : bytes_ok (ve_value v);
  vo_fits : 30 + blen (ve_value v) <= Z.max (inline_limit o) (max_value_bytes o);
  vo_u64 : 30 + blen (ve_value v) < U64;
  vo_pages : (Z.to_nat (pages_required (30 + blen (ve_value v)) ps) <= mx)%nat
}.

Lemma ver_whole l v pr : ver_ok v -> whole o l (ver_tuple v pr) = Val (ver_tuple v pr).
Proof.
  intros [_ _ _ Hf _ _]. unfold whole. rewrite blen_ver_tuple. destruct (inline_limit o <? _) eqn:E1, (max_value_bytes o <? _) eqn:E2; bools; try done. lia.
Qed.

Lemma prev_bytes_ok l : locator_ok l -> bytes_ok (locator_encode l).
Proof. intros _. unfold locator_encode. repeat apply Forall_app_2; apply le_enc_ok. Qed.

Lemma ver_value_ok v pr : ver_ok v -> prev_ok pr -> value_ok (ver_tuple v pr).
Proof.
  intros [_ _ Hb _ Hu _] Hp. unfold value_ok. rewrite blen_ver_tuple. pose proof (blen_ver_tuple v pr) as Hl. pose proof (blen_nonneg (ve_value v)). ands; [|apply Forall_app|done].
  - intros E. rewrite E in Hl. change (blen []) with 0 in Hl. lia.
  - split; [|done]. unfold encode_into. repeat apply Forall_app_2; try apply le_enc_ok; [constructor|]. cbn [prev]. destruct pr; [by apply prev_bytes_ok|apply zeros_ok].
Qed.

Lemma ver_value_pages v pr : ver_ok v -> (value_pages ps (ver_tuple v pr) <= mx)%nat.
Proof. intros [_ _ _ _ _ Hm]. unfold value_pages. by rewrite blen_ver_tuple. Qed.

Lemma ver_stamp_ok v x : is_u64 x -> ver_ok v -> ver_ok (mkVer (ve_xmin v) x (ve_value v)).
Proof. intros Hx []. by split. Qed.

Lemma decode_ver v pr : ver_ok v -> prev_ok pr -> version_decode (ver_tuple v pr) = Some (mkVersion (ve_xmin v) (ve_xmax v) pr, ve_value v).
Proof. intros [H1 H2 _ _ _ _] Hp. by apply version_decode_encode. Qed.

Lemma decode_prefix v pr m : ver_ok v -> prev_ok pr -> 0 <= m ->
  version_decode (take (Z.to_nat (30 + m)) (ver_tuple v pr)) = Some (mkVersion (ve_xmin v) (ve_xmax v) pr, take (Z.to_nat m) (ve_value v)).
Proof.
  intros [H1 H2 _ _ _ _] Hp Hm. unfold ver_tuple. pose proof (blen_encode (mkVersion (ve_xmin v) (ve_xmax v) pr)) as Hl. unfold blen in Hl.
  rewrite Z2Nat.inj_add by lia. rewrite take_app_add' by lia. by apply version_decode_encode.
Qed.
End Sized.

Lemma live_locator {S} `{P : Pager S} {L : PagerLaws S} {F : PagerFrees S} ps o k n w σ oA H G l x :
  holds ps o k n w σ oA H G -> G !! l = Some x -> issued H l /\ locator_ok l.
Proof.
  intros Hh Hl. pose proof (hh_entries _ _ _ _ _ _ _ _ _ Hh l) as He. rewrite Hl in He. destruct (tuple_at H l) as [t|] eqn:Et; [|done].
  pose proof (pl_pages _ _ _ _ _ _ _ (hh_placed _ _ _ _ _ _ _ _ _ Hh)) as Pg. destruct (tuple_issued ps k σ H l t Pg Et) as (Hi & Hs & h & Hp & Ht). split; [done|].
  destruct (Pg _ _ Hp) as (Hu & b & _ & [Hv _ _]). unfold key in Ht. apply (hi_contents _ _ _ _ _ _ Hv) in Ht; [|done].
  pose proof (hi_gens _ _ _ _ _ _ Hv _ _ _ Ht) as Hg. pose proof (hi_F _ _ _ _ _ _ Hv) as HF. pose proof (hi_wf _ _ _ _ _ _ Hv) as W.
  apply lookup_lt_Some in Ht. destruct (cnt_bound ps b W) as (? & ? & ?). rewrite length_abs in Ht by done. pose proof (wf_size _ _ W).
  unfold locator_ok, is_u16, is_u32, U16 in *. ands; [done|right; lia|lia..].
Qed.

Section Walks.
Context {S : Type} {P : Pager S} {L : PagerLaws S} {F : PagerFrees S}.
Context (ps : Z) (o : HeapOptions) (mx : nat).
Hypothesis Hps : 512 <= ps <= 65536.
Variable buffers : nat -> Z.
Hypothesis Hbuffers : forall i, 0 < buffers i.
Context (k : Z) (n : nat) (σ : gmap Z bytes) (oA : option ACat) (H : gmap Z PageHist) (G : values).
Abbreviation world := (S * PagedStore)%type.
Abbreviation pst := (st PageError world).
Abbreviation stored_in s p := (holds ps o k n (s, pd_heap p) σ oA H G).

Lemma put_heap_id p : put_heap (pd_heap p) p = p.
Proof. by destruct p. Qed.
Lemma put_index_id p : put_index (pd_index p) p = p.
Proof. by destruct p. Qed.

Lemma on_heap_settles {A} (m : nat -> st PageError (S * HeapFile) A) s p r s' hp : settles m (s, pd_heap p) r (s', hp) ->
  settles (fun t => on_heap (m t)) (s, p) r (s', put_heap hp p).
Proof. intros [e E]. exists e. intros t Ht. unfold on_heap. cbn [fst snd]. by rewrite E. Qed.

Lemma caught_settled {W A} (m : nat -> st PageError W A) w r w' : settles m w r w' -> settles (fun t => caught (m t)) w (Val r) w'.
Proof. intros [e E]. exists e. intros t Ht. unfold caught. by rewrite E. Qed.

(** A question to the transaction table. *)
Lemma table_settles {A C} (f : TableInner -> pres A) (kk : nat -> A -> pst C) s p r w' :
  match f (pd_transactions p) with
  | Val a => settles (fun t => kk t a) (s, p) r w'
  | Err e => r = Err e /\ w' = (s, p)
  | Panic => r = Panic /\ w' = (s, p)
  end -> settles (fun t => do x <- of_table f ;; kk t x) (s, p) r w'.
Proof.
  destruct (f (pd_transactions p)) as [a|e|] eqn:E.
  - apply settles_step. unfold of_table. cbn [snd]. by rewrite E.
  - intros [-> ->]. exists 0%nat. intros t _. unfold st_bind, of_table. cbn [snd]. by rewrite E.
  - intros [-> ->]. exists 0%nat. intros t _. unfold st_bind, of_table. cbn [snd]. by rewrite E.
Qed.

(** Reading the value under a locator. *)
Lemma fetch_get s p l t ov : stored_in s p -> G !! l = Some (t, ov) -> whole o l t = Val t ->
  exists s', settles (fun turns => on_heap (heap_get buffers turns l)) (s, p) (Val t) (s', p) /\ stored_in s' p.
Proof.
  intros Hh Hl Hw. destruct (live_locator _ _ _ _ _ _ _ _ _ _ _ Hh Hl) as [Hi _].
  destruct (heap_get_spec ps Hps o buffers Hbuffers k n (s, pd_heap p) σ oA H G l Hh Hi) as (r & s' & E & Hh' & Hr).
  rewrite Hl in Hr. cbn [snd] in *. exists s'. split; [|done]. rewrite <- (put_heap_id p) at 2. apply on_heap_settles. congruence.
Qed.

Lemma fetch_prefix s p l t ov m : stored_in s p -> G !! l = Some (t, ov) -> 0 < m ->
  exists s', settles (fun turns => on_heap (read_prefix turns l m)) (s, p) (Val (take (Z.to_nat m) t)) (s', p) /\ stored_in s' p.
Proof.
  intros Hh Hl Hm. destruct (live_locator _ _ _ _ _ _ _ _ _ _ _ Hh Hl) as [Hi _].
  destruct (read_prefix_spec ps Hps o k n (s, pd_heap p) σ oA H G l m Hh Hi Hm) as (r & s' & E & Hh' & Hr).
  rewrite Hl in Hr. cbn [snd] in *. exists s'. split; [|done]. rewrite <- (put_heap_id p) at 2. apply on_heap_settles. congruence.
Qed.

(** The locators of a chain are live, and so well formed. *)
Lemma prev_of_ok s p c : stored_in s p -> chained G c -> prev_ok (fst <$> head c).
Proof.
  intros Hh. destruct c as [|[l v] c]; [done|]. intros [[ov Hl] _].
  by destruct (live_locator _ _ _ _ _ _ _ _ _ _ _ Hh Hl) as [_ Hok].
Qed.

(** ** Reading along a chain *)

Section Walk.
Context (p : PagedStore) (fetch : nat -> TupleLocator -> pst bytes) (cut : bytes -> bytes).
Hypothesis Hfetch : forall s l v pr ov, stored_in s p -> G !! l = Some (ver_tuple v pr, ov) -> ver_ok ps o mx v -> prev_ok pr ->
  exists b s', settles (fun t => fetch t l) (s, p) (Val b) (s', p) /\ stored_in s' p /\ version_decode b = Some (mkVersion (ve_xmin v) (ve_xmax v) pr, cut (ve_value v)).

Lemma version_at_spec s l v pr ov : stored_in s p -> G !! l = Some (ver_tuple v pr, ov) -> ver_ok ps o mx v -> prev_ok pr ->
  exists s', settles (fun t => version_at (fetch t l)) (s, p) (Val (Some (mkVersion (ve_xmin v) (ve_xmax v) pr, cut (ve_value v)))) (s', p) /\ stored_in s' p.
Proof.
  intros Hh Hl Hv Hp. destruct (Hfetch s l v pr ov Hh Hl Hv Hp) as (b & s' & E & Hh' & Hd). exists s'. split; [|done].
  unfold version_at. eapply settles_bind; [by apply caught_settled|]. cbv beta iota. apply settles_const. by rewrite Hd.
Qed.

Lemma walk_unfold turns snapshot hd limit cursor step seen :
  walk_loop turns fetch snapshot hd limit cursor step seen =
  match turns with
  | O => st_panic
  | Datatypes.S turns' =>
      if limit <=? step then match cursor with Some next => st_fail (VersionChainLimitExceeded hd next limit) | None => st_ret None end
      else match cursor with
      | None => st_ret None
      | Some locator =>
          let '(repeated, seen) := observe locator step seen in
          match repeated with
          | Some first_seen_step => st_fail (VersionChainCycle hd locator first_seen_step step)
          | None =>
              do v <- version_at (fetch turns' locator) ;;
              match v with
              | None => st_ret None
              | Some (header, value) =>
                  do visible <- of_table (fun t => is_visible t header snapshot) ;;
                  if visible : bool then st_ret (Some value) else walk_loop turns' fetch snapshot hd limit (prev header) (step + 1) seen
              end
          end
      end
  end.
Proof. by destruct turns. Qed.

Lemma version_walk_spec snapshot hd c : forall s past seen, stored_in s p -> chained G c -> Forall (fun x => ver_ok ps o mx (snd x)) c -> NoDup c.*1 ->
  (forall l, l ∈ c.*1 -> l ∉ past) -> watches seen past ->
  exists r s', settles (fun turns => walk_loop turns fetch snapshot hd MAX_VERSION_CHAIN (fst <$> head c) (Z.of_nat (length past)) seen) (s, p) r (s', p) /\ stored_in s' p /\
    blur r = read_chain cut (MAX_VERSION_CHAIN - Z.of_nat (length past)) (pd_transactions p) snapshot c.*2.
Proof.
  induction c as [|[l v] c IH]; intros s past seen Hh Hc Hv Hnd Hfresh Hw.
  { exists (Val None), s. ands; [|done|done]. eapply settles_ext; [intros t; apply walk_unfold|]. apply settles_turn. exists 0%nat. intros t _. by destruct (_ <=? _). }
  cbn [fmap list_fmap head option_map option_fmap fst snd read_chain] in *. destruct Hc as [[ov Hl] Hc]. apply Forall_cons in Hv as [Hv Hvs]. apply NoDup_cons in Hnd as [Hn Hnd].
  cbn [snd] in Hv. destruct (Z.leb_spec (MAX_VERSION_CHAIN - Z.of_nat (length past)) 0) as [Hlim|Hlim].
  { exists (Err (VersionChainLimitExceeded hd l MAX_VERSION_CHAIN)), s. ands; [|done|done]. eapply settles_ext; [intros t; apply walk_unfold|]. apply settles_turn. exists 0%nat. intros t _.
    by rewrite (proj2 (Z.leb_le _ _)) by lia. }
  destruct (observe_new seen past l Hw) as (seen' & Eo & Hw'); [apply Hfresh; by left|].
  pose proof (prev_of_ok s p c Hh Hc) as Hpr. destruct (version_at_spec s l v _ ov Hh Hl Hv Hpr) as (s1 & E1 & Hh1).
  assert (Hrun : forall r sf, match sees (pd_transactions p) snapshot v with
    | Val b => settles (fun turns => if b : bool then st_ret (Some (cut (ve_value v)))
        else walk_loop turns fetch snapshot hd MAX_VERSION_CHAIN (fst <$> head c) (Z.of_nat (length past) + 1) seen') (s1, p) r sf
    | Err e => r = Err e /\ sf = (s1, p) | Panic => r = Panic /\ sf = (s1, p) end ->
    settles (fun turns => walk_loop turns fetch snapshot hd MAX_VERSION_CHAIN (Some l) (Z.of_nat (length past)) seen) (s, p) r sf).
  { intros r sf Hr. eapply settles_ext; [intros t; rewrite walk_unfold, (proj2 (Z.leb_gt _ _)) by lia; rewrite Eo; reflexivity|]. apply settles_turn.
    eapply settles_bind; [exact E1|]. by apply table_settles. }
  destruct (sees (pd_transactions p) snapshot v) as [[]|e|]; cbn [blur res_bind].
  - exists (Val (Some (cut (ve_value v)))), s1. ands; [|done|done]. by apply Hrun, settles_const.
  - destruct (IH s1 (past ++ [l]) seen' Hh1 Hc Hvs Hnd) as (r & s2 & E2 & Hh2 & Hr); [|done|].
    { intros l' Hl'. rewrite not_elem_of_app, list_elem_of_singleton. split; [apply Hfresh; by right|]. by intros ->. }
    rewrite length_app in E2, Hr. cbn [length] in E2, Hr. rewrite Nat2Z.inj_add in E2, Hr. change (Z.of_nat 1) with 1 in E2, Hr.
    exists r, s2. ands; [by apply Hrun|done|]. rewrite Hr. f_equal. lia.
  - exists (Err e), s1. ands; [by apply Hrun|done|done].
  - exists Panic, s1. ands; [by apply Hrun|done|done].
Qed.
End Walk.

Lemma walk_get snapshot c s p : stored_in s p -> chained G c -> Forall (fun x => ver_ok ps o mx (snd x)) c -> NoDup c.*1 ->
  exists r s', settles (fun turns => walk_chain_as_of buffers turns snapshot (fst <$> head c)) (s, p) r (s', p) /\ stored_in s' p /\
    blur r = read_chain id MAX_VERSION_CHAIN (pd_transactions p) snapshot c.*2.
Proof.
  intros Hh Hc Hv Hnd. destruct (version_walk_spec p (fun t l => on_heap (heap_get buffers t l)) id) with (snapshot := snapshot) (hd := default (mkLocator 0 0 0) (fst <$> head c))
    (c := c) (s := s) (past := @nil TupleLocator) (seen := detector_default) as (r & s' & E & Hh' & Hr); try done.
  - intros s0 l v pr ov Hs Hl Hvo Hp. destruct (fetch_get s0 p l _ ov Hs Hl (ver_whole ps o mx l v pr Hvo)) as (s1 & E & Hs1).
    exists (ver_tuple v pr), s1. ands; [done|done|]. by eapply decode_ver.
  - intros l _. apply not_elem_of_nil.
  - apply watches_default.
  - cbn [length] in Hr, E. rewrite Z.sub_0_r in Hr. unfold walk_chain_as_of, walk_chain_as_of_bounded. destruct c as [|[l v] c]; [|by exists r, s'].
    exists (Val None), s. ands; [by apply settles_const|done|done].
Qed.

Lemma walk_prefix snapshot m c s p : stored_in s p -> chained G c -> Forall (fun x => ver_ok ps o mx (snd x)) c -> NoDup c.*1 -> 0 <= m -> 30 + m < U64 ->
  exists r s', settles (fun turns => visible_value_prefix_as_of turns snapshot (fst <$> head c) m) (s, p) r (s', p) /\ stored_in s' p /\
    blur r = read_chain (take (Z.to_nat m)) MAX_VERSION_CHAIN (pd_transactions p) snapshot c.*2.
Proof.
  intros Hh Hc Hv Hnd Hm Hu. assert (Es : sat_add VERSION_HEADER_BYTES m = 30 + m) by (unfold sat_add, u64_max, VERSION_HEADER_BYTES; lia).
  destruct (version_walk_spec p (fun t l => on_heap (read_prefix t l (30 + m))) (take (Z.to_nat m))) with (snapshot := snapshot) (hd := default (mkLocator 0 0 0) (fst <$> head c))
    (c := c) (s := s) (past := @nil TupleLocator) (seen := detector_default) as (r & s' & E & Hh' & Hr); try done.
  - intros s0 l v pr ov Hs Hl Hvo Hp. destruct (fetch_prefix s0 p l _ ov (30 + m) Hs Hl ltac:(lia)) as (s1 & E & Hs1). eexists _, s1. ands; [exact E|done|]. by eapply decode_prefix.
  - intros l _. apply not_elem_of_nil.
  - apply watches_default.
  - cbn [length] in Hr, E. rewrite Z.sub_0_r in Hr. unfold visible_value_prefix_as_of. rewrite Es. destruct c as [|[l v] c]; [|by exists r, s'].
    exists (Val None), s. ands; [by apply settles_const|done|done].
Qed.

(** ** What a writer builds on *)

Lemma base_unfold turns x cursor step :
  write_base_loop turns x cursor step =
  match turns with
  | O => st_panic
  | Datatypes.S turns' =>
      if MAX_VERSION_CHAIN <=? step then st_ret cursor
      else match cursor with
      | None => st_ret None
      | Some locator =>
          do r <- caught (on_heap (read_prefix turns' locator VERSION_HEADER_BYTES)) ;;
          match r with
          | Err e => if vacuumed e then st_ret None else st_fail e
          | Panic => st_panic
          | Val prefix =>
              match version_decode prefix with
              | None => st_ret (Some locator)
              | Some (header, _) =>
                  if (xmin header =? 0) || (xmin header =? x) then st_ret (Some locator)
                  else
                    do status <- of_table (fun t => tx_status t (xmin header)) ;;
                    if bool_decide (status = Aborted) then write_base_loop turns' x (prev header) (step + 1)
                    else st_ret (Some locator)
              end
          end
      end
  end :> pst _.
Proof. by destruct turns. Qed.


Lemma write_base_spec x c p : forall s step, stored_in s p -> chained G c -> Forall (fun y => ver_ok ps o mx (snd y)) c -> 0 <= step ->
  exists b s', settles (fun turns => write_base_loop turns x (fst <$> head c) step) (s, p) (let! b := b in Val (fst <$> head b)) (s', p) /\ stored_in s' p /\
    (let! b := b in Val b.*2) = base_of (MAX_VERSION_CHAIN - step) (pd_transactions p) x c.*2 /\ (forall bl, b = Val bl -> exists up, c = up ++ bl).
Proof.
  induction c as [|[l v] c IH]; intros s step Hh Hc Hv Hstep.
  { exists (Val []), s. ands; [|done|done|intros bl [= <-]; by exists []]. eapply settles_ext; [intros t; apply base_unfold|]. apply settles_turn. exists 0%nat. intros t _. by destruct (_ <=? _). }
  cbn [fmap list_fmap head option_map option_fmap fst snd base_of chained] in *. destruct Hc as [[ov Hl] Hc]. apply Forall_cons in Hv as [Hv Hvs]. cbn [snd] in Hv.
  assert (Hall : exists up, (l, v) :: c = up ++ (l, v) :: c) by (by exists []).
  destruct (Z.leb_spec (MAX_VERSION_CHAIN - step) 0) as [Hlim|Hlim].
  { exists (Val ((l, v) :: c)), s. ands; [|done|done|by intros bl [= <-]]. eapply settles_ext; [intros t; apply base_unfold|]. apply settles_turn. exists 0%nat. intros t _.
    by rewrite (proj2 (Z.leb_le _ _)) by lia. }
  destruct (fetch_prefix s p l _ ov 30 Hh Hl ltac:(lia)) as (s1 & E1 & Hh1). pose proof (prev_of_ok s p c Hh Hc) as Hpr.
  pose proof (decode_prefix ps o mx v (fst <$> head c) 0 Hv Hpr ltac:(lia)) as Hd. change (30 + 0) with 30 in Hd.
  assert (Hrun : forall r sf, settles (fun turns => if (ve_xmin v =? 0) || (ve_xmin v =? x) then st_ret (Some l)
      else do status <- of_table (fun t => tx_status t (ve_xmin v)) ;;
           if bool_decide (status = Aborted) then write_base_loop turns x (fst <$> head c) (step + 1) else st_ret (Some l)) (s1, p) r sf ->
    settles (fun turns => write_base_loop turns x (Some l) step) (s, p) r sf).
  { intros r sf Hr. eapply settles_ext; [intros t; rewrite base_unfold, (proj2 (Z.leb_gt _ _)) by lia; reflexivity|]. apply settles_turn.
    eapply settles_bind; [apply caught_settled; exact E1|]. cbv beta iota. rewrite Hd. exact Hr. }
  destruct ((ve_xmin v =? 0) || (ve_xmin v =? x)).
  { exists (Val ((l, v) :: c)), s1. ands; [by apply Hrun, settles_const|done|done|by intros bl [= <-]]. }
  destruct (tx_status (pd_transactions p) (ve_xmin v)) as [st|e|] eqn:Est; cbn [res_bind].
  - case_bool_decide as Ha.
    + destruct (IH s1 (step + 1) Hh1 Hc Hvs ltac:(lia)) as (b & s2 & E2 & Hh2 & Hb & Hsuf). exists b, s2. ands; [|done|rewrite Hb; f_equal; lia|].
      * apply Hrun, table_settles. rewrite Est. by rewrite bool_decide_true.
      * intros bl Hbl. destruct (Hsuf bl Hbl) as [up ->]. by exists ((l, v) :: up).
    + exists (Val ((l, v) :: c)), s1. ands; [|done|done|by intros bl [= <-]]. apply Hrun, table_settles. rewrite Est, bool_decide_false by done. by apply settles_const.
  - exists (Err e), s1. ands; [|done|done|done]. apply Hrun, table_settles. by rewrite Est.
  - exists Panic, s1. ands; [|done|done|done]. apply Hrun, table_settles. by rewrite Est.
Qed.

(** The check of the version the writer builds on. *)
Lemma check_conflict_spec x l v c s p : stored_in s p -> chained G ((l, v) :: c) -> ver_ok ps o mx v ->
  exists s', settles (fun turns => check_write_conflict buffers turns x l) (s, p)
    (check_base (pd_transactions p) (snapshot_of p x) x (v :: c.*2)) (s', p) /\ stored_in s' p.
Proof.
  intros Hh [[ov Hl] Hc] Hv. destruct (fetch_get s p l _ ov Hh Hl (ver_whole ps o mx l v _ Hv)) as (s1 & E1 & Hh1). exists s1. split; [|done].
  unfold check_write_conflict. eapply settles_bind; [apply caught_settled; exact E1|]. cbv beta iota. rewrite (decode_ver ps o mx) by (done || by eapply prev_of_ok).
  eapply settles_step; [done|]. cbn [snd xmin xmax check_base]. apply (table_settles (check_field x (snapshot_of p x) (ve_xmin v)) (fun _ _ => of_table (check_field x (snapshot_of p x) (ve_xmax v)))).
  destruct (check_field _ _ (ve_xmin v) _) as [[]|e|]; cbn [res_bind]; [by apply settles_const|done|done].
Qed.
End Walks.
