(* ===== verification/PagedSpec.v ===== *)
(** * The paged store implements rows of versions

    Between calls the index maps every key to the newest version of its row, the
    heap holds the versions, each naming the one below it, and no two rows share
    one.  Every call of the store answers as the rows of [Versions] do and leaves
    such a state; the meta page names the current roots, or a tree is marked. *)

From stdpp Require Import base tactics list numbers gmap.
From Stdlib Require Import ZArith Lia.
From S2P Require Import Prelude Turns Bytes Errors PageFormat Slotted Pager PoolInvariants Keys BTreeNode BTree BTreeTheory BTreeTheorems BTreeClient.
From S2P Require Import Catalog CatalogSpec Overflow OverflowSpec Heap HeapPage HeapSpec HeapValues RootMoves Mvcc MvccOutcomes Paged Versions PagedPages PagedChains.
Local Open Scope Z_scope.
Local Open Scope bic_scope.

(** ** Rows and chains *)

(** What the index holds for the chain [c]. *)
Definition headed (c : links) : bytes := default [] ((fun x : TupleLocator * Ver => locator_encode (fst x)) <$> head c).

(** No locator is used twice. *)
Definition separate (C : gmap bytes links) : Prop := forall k1 k2 c1 c2 i1 i2 l v1 v2,
  C !! k1 = Some c1 -> C !! k2 = Some c2 -> c1 !! i1 = Some (l, v1) -> c2 !! i2 = Some (l, v2) -> k1 = k2 /\ i1 = i2.

Lemma separate_nodup C k c : separate C -> C !! k = Some c -> NoDup c.*1.
Proof.
  intros Hs Hk. apply NoDup_alt. intros i j l Hi Hj. rewrite list_lookup_fmap in Hi, Hj.
  destruct (c !! i) as [[l1 v1]|] eqn:E1; [|done]. destruct (c !! j) as [[l2 v2]|] eqn:E2; [|done]. cbn in Hi, Hj. simplify_eq. by destruct (Hs k k c c i j l v1 v2).
Qed.

Definition stamp_head (x : Z) (b : links) : links :=
  match b with [] => [] | (l, v) :: b' => (l, mkVer (ve_xmin v) x (ve_value v)) :: b' end.

Lemma stamp_head_snd x b : (stamp_head x b).*2 = stamp x b.*2.
Proof. by destruct b as [|[l v] b]. Qed.
Lemma stamp_head_fst x b : (stamp_head x b).*1 = b.*1.
Proof. by destruct b as [|[l v] b]. Qed.

(** The heap after the newest version of [b] was stamped. *)
Definition stamped_in (x : Z) (b : links) (G G' : values) : Prop :=
  match b with
  | [] => G' = G
  | (l, v) :: b' => exists ov, G' = <[l := (ver_tuple (mkVer (ve_xmin v) x (ve_value v)) (fst <$> head b'), ov)]> (base.delete l G)
  end.

Lemma stamped_other x b G G' l : stamped_in x b G G' -> l ∉ b.*1 -> G' !! l = G !! l.
Proof.
  destruct b as [|[l0 v0] b]; [by intros ->|]. intros [ov ->] Hl. cbn in Hl. apply not_elem_of_cons in Hl as [Hne _]. by rewrite lookup_insert_ne, lookup_delete_ne by done.
Qed.

Lemma chained_stamped x up b G G' : chained G (up ++ b) -> NoDup (up ++ b).*1 -> stamped_in x b G G' -> chained G' (up ++ stamp_head x b).
Proof.
  intros Hc Hnd Hs. destruct b as [|[l v] b']; [by rewrite Hs in *|]. destruct Hs as [ov ->]. revert Hc Hnd.
  induction up as [|[l0 v0] up IH]; cbn [app chained stamp_head fmap list_fmap fst]; intros [[ov0 H0] Hc] [Hn Hnd]%NoDup_cons.
  - split; [by exists ov; rewrite lookup_insert_eq|]. eapply versions_frame, Hc. intros l' v' Hin. rewrite lookup_insert_ne, lookup_delete_ne; [done|..];
      intros <-; apply Hn, list_elem_of_fmap; by exists (l, v').
  - split; [|by apply IH]. exists ov0. rewrite lookup_insert_ne, lookup_delete_ne; [| |].
    + rewrite H0. do 3 f_equal. by destruct up.
    + intros <-. apply Hn. rewrite fmap_app. apply elem_of_app. right. by left.
    + intros <-. apply Hn. rewrite fmap_app. apply elem_of_app. right. by left.
Qed.

(** The row of [key] gets other versions, under locators it had or new ones. *)
Lemma separate_insert C key c c' (new : list TupleLocator) :
  separate C -> (C !! key = Some c \/ (C !! key = None /\ c = [])) -> NoDup c'.*1 ->
  (forall l, l ∈ c'.*1 -> l ∈ c.*1 \/ l ∈ new) -> (forall l k0 c0, l ∈ new -> C !! k0 = Some c0 -> l ∉ c0.*1) -> separate (<[key := c']> C).
Proof.
  intros Hs Hk Hnd Hold Hnew.
  assert (Hin : forall i l v (cc : links), cc !! i = Some (l, v) -> l ∈ cc.*1) by (intros i l v cc Hi; apply list_elem_of_fmap; exists (l, v); split; [done|by eapply list_elem_of_lookup_2]).
  assert (Hx : forall k2 c2 i1 i2 l v1 v2, key <> k2 -> C !! k2 = Some c2 -> c' !! i1 = Some (l, v1) -> c2 !! i2 = Some (l, v2) -> False).
  { intros k2 c2 i1 i2 l v1 v2 Hne H2 Hi1 Hi2. destruct (Hold l (Hin _ _ _ _ Hi1)) as [Ho|Hn]; [|by eapply Hnew, Hin].
    destruct Hk as [Hk|[_ ->]]; [|by apply not_elem_of_nil in Ho]. apply list_elem_of_fmap in Ho as ([l0 v0] & -> & [i0 Hi0]%list_elem_of_lookup_1).
    by destruct (Hs key k2 c c2 i0 i2 _ v0 v2 Hk H2 Hi0 Hi2). }
  intros k1 k2 c1 c2 i1 i2 l v1 v2 H1 H2 Hi1 Hi2. apply lookup_insert_Some in H1 as [[<- <-]|[Hn1 H1]], H2 as [[<- <-]|[Hn2 H2]].
  - split; [done|]. assert (A1 : c'.*1 !! i1 = Some l) by (by rewrite list_lookup_fmap, Hi1). assert (A2 : c'.*1 !! i2 = Some l) by (by rewrite list_lookup_fmap, Hi2).
    by eapply NoDup_lookup.
  - exfalso. by eapply Hx.
  - exfalso. by eapply Hx.
  - by eapply Hs.
Qed.

Lemma settles_keeps {E W A} (I : W -> Prop) (m : nat -> st E W A) w r w' : settles m w r w' -> (forall t, keeps I (m t)) -> I w -> I w'.
Proof. intros [e He] Hk Hw. specialize (Hk e w Hw). by rewrite He in Hk. Qed.

Section Store.
Context {S : Type} {P : Pager S} {L : PagerLaws S} {F : PagerFrees S} {T : PagerTags S} {TL : PagerTagLaws S}.
Context (ps : Z) (o : HeapOptions) (mx : nat).
Hypothesis Hps : 512 <= ps <= 65536.
Hypothesis Hinline : 0 <= inline_limit o /\ inline_limit o + 1 + SLOT_BYTES <= ps - 72.
Variable buffers : nat -> Z.
Hypothesis Hbuffers : forall i, 0 < buffers i.
Abbreviation world := (S * PagedStore)%type.
Abbreviation ver_ok := (ver_ok ps o mx).

(** The store [p] over the pool [s] lays out the rows [R]. *)
Record laid (k : Z) (n : nat) (s : S) (p : PagedStore) (R : Rows) (rs : Z * Z) (es : list entry) (σ : gmap Z bytes) (oA : option ACat)
    (H : gmap Z PageHist) (G : values) (C : gmap bytes links) : Prop := {
  ld_heap : heaped rs (pd_index p) es ps o k n (s, pd_heap p) σ oA H G;
  ld_sized : sized ps p;
  ld_marked : roots_marked rs p;
  ld_table : pd_transactions p = rw_table R;
  ld_snapshots : pd_snapshots p = rw_snapshots R;
  ld_index : kv_map es = headed <$> C;
  ld_rows : rw_rows R = (fun c : links => c.*2) <$> C;
  ld_chains : forall key c, C !! key = Some c -> c <> [] /\ chained G c /\ Forall (fun x => ver_ok (snd x)) c /\ accepted ps key (zeros 14) = true;
  ld_separate : separate C
}.
Definition rep (k : Z) (n : nat) (w : world) (R : Rows) : Prop := exists rs es σ oA H G C, laid k n (fst w) (snd w) R rs es σ oA H G C.

Lemma laid_heap k n s p R rs es σ oA H G C k' n' s' : laid k n s p R rs es σ oA H G C ->
  heaped rs (pd_index p) es ps o k' n' (s', pd_heap p) σ oA H G -> laid k' n' s' p R rs es σ oA H G C.
Proof. intros [] Hh. by split. Qed.

Lemma rep_weaken k k' m n w R : k <= k' -> (n <= m)%nat -> rep k m w R -> rep k' n w R.
Proof.
  intros Hk Hn (rs & es & σ & oA & H & G & C & Hl). exists rs, es, σ, oA, H, G, C. eapply laid_heap; [exact Hl|].
  eapply (holds_weaken (L := index_laws _ _ _) (F := index_frees _ _ _)); [exact Hk|exact Hn|apply Hl].
Qed.

(** The chain of a key, empty where there is none. *)
Lemma laid_chain k n s p R rs es σ oA H G C key : laid k n s p R rs es σ oA H G C -> let c := default [] (C !! key) in
  chained G c /\ Forall (fun x => ver_ok (snd x)) c /\ NoDup c.*1 /\ row R key = c.*2 /\ (C !! key = Some c \/ (C !! key = None /\ c = [])).
Proof.
  intros Hl c. unfold row. rewrite (ld_rows _ _ _ _ _ _ _ _ _ _ _ _ Hl), lookup_fmap. unfold c. destruct (C !! key) as [c0|] eqn:E; cbn.
  - destruct (ld_chains _ _ _ _ _ _ _ _ _ _ _ _ Hl key c0 E) as (_ & H1 & H2 & _). ands; try done; [|by left]. by eapply separate_nodup; [apply Hl|].
  - ands; try done; [by constructor|by right].
Qed.

(** Looking a key up leads to its newest version. *)
Lemma index_get_spec k n s p R rs es σ oA H G C key : laid k n s p R rs es σ oA H G C ->
  exists s', on_index (BTree.get key) (s, p) = (Val (headed <$> C !! key), (s', p)) /\ laid k n s' p R rs es σ oA H G C /\
    forall b, headed <$> C !! key = Some b -> locator_decode b = fst <$> head (default [] (C !! key)).
Proof.
  intros Hl. destruct (index_step _ _ _ _ _ _ _ _ _ _ _ _ _ (ld_heap _ _ _ _ _ _ _ _ _ _ _ _ Hl)) as (τ & St & Hc).
  destruct (stands_get (L := meta_laws rs) ps n (s, pd_index p) τ es key St) as ([s' i] & E & St' & Ei). cbn [snd] in Ei. subst i.
  exists s'. ands.
  - unfold on_index. cbn [fst snd]. rewrite E. rewrite (ld_index _ _ _ _ _ _ _ _ _ _ _ _ Hl), lookup_fmap. by rewrite put_index_id.
  - eapply laid_heap; [exact Hl|]. by apply Hc.
  - intros b. destruct (C !! key) as [c|] eqn:Ec; [|done]. intros [= <-]. destruct (ld_chains _ _ _ _ _ _ _ _ _ _ _ _ Hl key c Ec) as (Hne & Hch & _).
    cbn [default]. destruct c as [|[l v] c]; [done|]. destruct Hch as [[ov Hg] _]. unfold headed. cbn. apply locator_roundtrip.
    by destruct (live_locator (L := index_laws _ _ _) (F := index_frees _ _ _) _ _ _ _ _ _ _ _ _ _ _ (ld_heap _ _ _ _ _ _ _ _ _ _ _ _ Hl) Hg).
Qed.

(** Reading a row. *)
Lemma get_locked_spec k n s p R rs es σ oA H G C snapshot key : laid k n s p R rs es σ oA H G C ->
  exists r s', settles (fun turns => get_as_of_locked buffers turns snapshot key) (s, p) r (s', p) /\ laid k n s' p R rs es σ oA H G C /\
    blur r = rows_read snapshot key R.
Proof.
  intros Hl. destruct (index_get_spec k n s p R rs es σ oA H G C key Hl) as (s1 & E1 & Hl1 & Hd). destruct (laid_chain _ _ _ _ _ _ _ _ _ _ _ _ key Hl1) as (Hc & Hv & Hnd & Hrow & _).
  unfold rows_read. rewrite Hrow, <- (ld_table _ _ _ _ _ _ _ _ _ _ _ _ Hl1).
  destruct (walk_get (L := index_laws rs (pd_index p) es) (F := index_frees rs (pd_index p) es) ps o mx Hps buffers Hbuffers k n σ oA H G snapshot _ s1 p (ld_heap _ _ _ _ _ _ _ _ _ _ _ _ Hl1) Hc Hv Hnd) as (r & s2 & E2 & Hh2 & Hr).
  unfold get_as_of_locked. destruct (C !! key) as [c|] eqn:Ec.
  - exists r, s2. ands; [|by eapply laid_heap|done]. eapply settles_step; [exact E1|]. cbn [fmap option_fmap option_map]. by rewrite (Hd _ eq_refl).
  - exists (Val None), s1. ands; [|done|done]. eapply settles_step; [exact E1|]. by apply settles_const.
Qed.

(** ** Changing the heap *)

(** The newest version of [b] gets its stamp. *)
Lemma mark_spec x k n s p rs es σ oA H G l v b : heaped rs (pd_index p) es ps o k (mx + (131 + n)) (s, pd_heap p) σ oA H G ->
  cataloged (snd rs) (pd_heap p) -> 0 <= k /\ k + 1 < U32 -> is_u64 x -> chained G ((l, v) :: b) -> ver_ok v ->
  exists s' hp σ' oA' H' G', settles (fun turns => mark_deleted buffers turns l x) (s, p) (Val tt) (s', put_heap hp p) /\
    heaped rs (pd_index p) es ps o (k + 1) n (s', hp) σ' oA' H' G' /\ cataloged (snd rs) hp /\ stamped_in x ((l, v) :: b) G G'.
Proof.
  intros Hh Hcat Hk Hx [[ov Hl] Hc] Hv. destruct (fetch_get (L := index_laws rs (pd_index p) es) (F := index_frees rs (pd_index p) es) ps o Hps buffers Hbuffers k _ σ oA H G s p l _ ov Hh Hl (ver_whole ps o mx l v _ Hv)) as (s1 & E1 & Hh1).
  pose proof (prev_of_ok (L := index_laws rs (pd_index p) es) (F := index_frees rs (pd_index p) es) ps o k _ σ oA H G s1 p b Hh1 Hc) as Hpr. set (v' := mkVer (ve_xmin v) x (ve_value v)).
  assert (Hv' : ver_ok v') by (by apply ver_stamp_ok). pose proof (ver_value_pages ps o mx v' (fst <$> head b) Hv') as Hpg.
  destruct (live_locator (L := index_laws _ _ _) (F := index_frees _ _ _) _ _ _ _ _ _ _ _ _ _ _ Hh1 Hl) as [Hi _].
  destruct (heap_update_spec (L := index_laws rs (pd_index p) es) (F := index_frees rs (pd_index p) es) ps Hps o Hinline k n (s1, pd_heap p) σ oA H G l (ver_tuple v' (fst <$> head b)))
    as (r & [s2 hp] & σ' & oA' & H' & E2 & Hr); [|done|done|by eapply ver_value_ok|].
  { eapply (holds_weaken (L := index_laws _ _ _) (F := index_frees _ _ _)); [reflexivity| |exact Hh1]. lia. }
  rewrite Hl in Hr. destruct Hr as (l' & c' & -> & Hh2 & _ & _ & Hstay). rewrite (Hstay _ _ eq_refl) in * by (by rewrite !blen_ver_tuple). clear Hstay.
  eexists s2, hp, σ', oA', H', _. ands; [|exact Hh2| |by exists c'].
  - unfold mark_deleted. eapply settles_bind; [apply caught_settled; exact E1|]. cbv beta iota. rewrite ver_tuple_stamp.
    eapply settles_bind; [apply on_heap_settles; exact E2|]. by apply settles_const.
  - by apply (settles_keeps (heap_marked (snd rs)) _ _ _ _ E2 (fun t => keeps_heap_update _ t _ _)).
Qed.

(** ** Writing *)

Lemma accepted_locator key l : accepted ps key (locator_encode l) = accepted ps key (zeros 14).
Proof.
  unfold accepted, BTreeNode.required_space. cbn [fst snd]. by replace (blen (locator_encode l)) with (blen (zeros 14)).
Qed.

Lemma tag_spec x k n s p R rs es σ oA H G C : laid k n s p R rs es σ oA H G C ->
  exists s', on_pool (pg_set_transaction x) (s, p) = (Val tt, (s', p)) /\ laid k n s' p R rs es σ oA H G C.
Proof.
  intros Hl. destruct (meta_step _ _ _ _ _ _ _ _ _ _ _ _ _ (ld_heap _ _ _ _ _ _ _ _ _ _ _ _ Hl)) as (b & τ & M & _).
  destruct (pg_tag_law ps n s τ x M) as (s' & E & _). exists s'. split; [unfold on_pool; cbn [fst snd]; by rewrite E|]. eapply laid_heap; [exact Hl|].
  apply (pool_step _ _ _ _ _ _ _ _ _ _ _ _ _ (ld_heap _ _ _ _ _ _ _ _ _ _ _ _ Hl)). intros σ0 M0. destruct (pg_tag_law ps n s σ0 x M0) as (s0 & E0 & M'). congruence.
Qed.

Lemma base_spec x key k n s p R rs es σ oA H G C : laid k n s p R rs es σ oA H G C -> let c := default [] (C !! key) in
  exists b s', settles (fun turns => write_base turns x (fst <$> head c)) (s, p) (let! b := b in Val (fst <$> head b)) (s', p) /\ laid k n s' p R rs es σ oA H G C /\
    (let! b := b in Val b.*2) = base_of MAX_VERSION_CHAIN (rw_table R) x (row R key) /\
    (forall bl, b = Val bl -> (exists up, c = up ++ bl) /\ chained G bl /\ Forall (fun y => ver_ok (snd y)) bl).
Proof.
  intros Hl c. destruct (laid_chain _ _ _ _ _ _ _ _ _ _ _ _ key Hl) as (Hc & Hv & _ & Hrow & _). fold c in Hc, Hv, Hrow. rewrite Hrow, <- (ld_table _ _ _ _ _ _ _ _ _ _ _ _ Hl).
  destruct (write_base_spec (L := index_laws rs (pd_index p) es) (F := index_frees rs (pd_index p) es) ps o mx Hps k n σ oA H G x c p s 0 (ld_heap _ _ _ _ _ _ _ _ _ _ _ _ Hl) Hc Hv ltac:(lia)) as (b & s' & E & Hh & Hb & Hsuf).
  exists b, s'. ands; [exact E|by eapply laid_heap|by rewrite Hb|]. intros bl Hbl. destruct (Hsuf bl Hbl) as [up Eup]. rewrite Eup in Hc, Hv. ands; [by exists up| |].
  - by apply versions_suffix in Hc.
  - by apply Forall_app in Hv as [_ Hv].
Qed.

Lemma check_spec x b k n s p R rs es σ oA H G C : laid k n s p R rs es σ oA H G C -> chained G b -> Forall (fun y => ver_ok (snd y)) b ->
  exists s', settles (fun turns => match fst <$> head b with Some l => check_write_conflict buffers turns x l | None => st_ret tt end) (s, p)
      (check_base (rw_table R) (rows_snapshot R x) x b.*2) (s', p) /\ laid k n s' p R rs es σ oA H G C.
Proof.
  intros Hl Hc Hv. destruct b as [|[l v] b]; [exists s; split; [by apply settles_const|done]|]. apply Forall_cons in Hv as [Hv _].
  destruct (check_conflict_spec (L := index_laws rs (pd_index p) es) (F := index_frees rs (pd_index p) es) ps o mx Hps buffers Hbuffers k n σ oA H G x l v b s p (ld_heap _ _ _ _ _ _ _ _ _ _ _ _ Hl) Hc Hv) as (s' & E & Hh).
  exists s'. split; [|by eapply laid_heap]. rewrite (ld_table _ _ _ _ _ _ _ _ _ _ _ _ Hl) in E. unfold snapshot_of in E.
  by rewrite (ld_snapshots _ _ _ _ _ _ _ _ _ _ _ _ Hl), (ld_table _ _ _ _ _ _ _ _ _ _ _ _ Hl) in E.
Qed.

(** The stamp, where there is a version to stamp. *)
Lemma stamp_spec x b k n s p rs es σ oA H G : heaped rs (pd_index p) es ps o k (mx + (131 + n)) (s, pd_heap p) σ oA H G ->
  cataloged (snd rs) (pd_heap p) -> 0 <= k /\ k + 1 < U32 -> is_u64 x -> chained G b -> Forall (fun y => ver_ok (snd y)) b ->
  exists s' hp σ' oA' H' G', settles (fun turns => match fst <$> head b with Some l => mark_deleted buffers turns l x | None => st_ret tt end) (s, p) (Val tt) (s', put_heap hp p) /\
    heaped rs (pd_index p) es ps o (k + 1) n (s', hp) σ' oA' H' G' /\ cataloged (snd rs) hp /\ stamped_in x b G G'.
Proof.
  intros Hh Hcat Hk Hx Hc Hv. destruct b as [|[l v] b].
  - exists s, (pd_heap p), σ, oA, H, G. ands; [rewrite put_heap_id; by apply settles_const| |done|done].
    eapply (holds_weaken (L := index_laws _ _ _) (F := index_frees _ _ _)); [| |exact Hh]; lia.
  - apply Forall_cons in Hv as [Hv _]. by apply (mark_spec x k n s p rs es σ oA H G l v b).
Qed.

(** Entering a key in the index. *)
Lemma enter_spec key v k n s p rs es σ oA H G : heaped rs (pd_index p) es ps o k (65 + n) (s, pd_heap p) σ oA H G -> marked (fst rs) (pd_index p) ->
  if accepted ps key v then
    exists s' i es', on_index (BTree.insert key v) (s, p) = (Val tt, (s', put_index i p)) /\ heaped rs i es' ps o k n (s', pd_heap p) σ oA H G /\
      kv_map es' = <[key := v]> (kv_map es) /\ marked (fst rs) i
  else on_index (BTree.insert key v) (s, p) =
    (Err (if bool_decide (key = []) then ValueTooLarge 0 0 0 else ValueTooLarge 0 (blen key + blen v) (usable_bytes ps / 2)), (s, p)).
Proof.
  intros Hh Hm. destruct (index_step _ _ _ _ _ _ _ _ _ _ _ _ _ Hh) as (τ & St & Hc). destruct (accepted ps key v) eqn:Ea.
  - destruct (stands_insert (L := meta_laws rs) ps n (s, pd_index p) τ es key v St Ea) as ([s' i] & E & St'). exists s', i, (kv_insert key v es). ands.
    + unfold on_index. cbn [fst snd]. by rewrite E.
    + by apply Hc.
    + apply kv_map_insert.
    + pose proof (keeps_insert (fst rs) key v (s, pd_index p) Hm) as Hk. by rewrite E in Hk.
  - destruct St as (σ' & h & t & M & _). unfold on_index. cbn [fst snd]. rewrite (refused_insert (L := meta_laws rs) ps _ key v _ σ' M Ea). cbn [fst snd]. by rewrite put_index_id.
Qed.

(** The parts of the store that page writes leave alone. *)
Definition aside (p p' : PagedStore) : Prop :=
  pd_meta_page p' = pd_meta_page p /\ pd_page_size p' = pd_page_size p /\ pd_transactions p' = pd_transactions p /\ pd_snapshots p' = pd_snapshots p.

Lemma sized_aside p p' : aside p p' -> sized ps p -> sized ps p'.
Proof. intros (E1 & E2 & E3 & _) []. split; congruence. Qed.

(** A row with other versions. *)
Lemma laid_row k n s p R rs es σ oA H G C key c' k' n' s' p' rs' es' σ' oA' H' G' (new : list TupleLocator) :
  laid k n s p R rs es σ oA H G C -> let c := default [] (C !! key) in
  heaped rs' (pd_index p') es' ps o k' n' (s', pd_heap p') σ' oA' H' G' -> aside p p' -> roots_marked rs' p' ->
  kv_map es' = <[key := headed c']> (kv_map es) -> c' <> [] -> chained G' c' -> Forall (fun x => ver_ok (snd x)) c' -> accepted ps key (zeros 14) = true ->
  NoDup c'.*1 -> (forall l, l ∈ c'.*1 -> l ∈ c.*1 \/ l ∈ new) -> (forall l, l ∈ new -> G !! l = None) ->
  (forall l, l ∉ c.*1 -> l ∉ new -> G' !! l = G !! l) ->
  laid k' n' s' p' (set_row key c'.*2 R) rs' es' σ' oA' H' G' (<[key := c']> C).
Proof.
  intros Hl c Hh Ha Hm He Hne Hc' Hv' Hacc Hnd Hold Hnew Hother. pose proof (laid_chain _ _ _ _ _ _ _ _ _ _ _ _ key Hl) as (_ & _ & _ & _ & Hkey).
  assert (Hapart : forall l k0 c0, l ∈ new -> C !! k0 = Some c0 -> l ∉ c0.*1).
  { intros l k0 c0 Hin Hk0 ([l0 v0] & -> & Hx)%list_elem_of_fmap. destruct (ld_chains _ _ _ _ _ _ _ _ _ _ _ _ Hl k0 c0 Hk0) as (_ & Hch & _).
    destruct (chained_elem G c0 Hch l0 v0 Hx) as (t & ov & Hg). cbn in Hin. by rewrite (Hnew l0 Hin) in Hg. }
  pose proof Ha as (E1 & E2 & E3 & E4). split; try done.
  - eapply sized_aside; [exact Ha|apply Hl].
  - rewrite E3. apply Hl.
  - rewrite E4. apply Hl.
  - by rewrite He, (ld_index _ _ _ _ _ _ _ _ _ _ _ _ Hl), fmap_insert.
  - cbn [set_row rw_rows]. by rewrite (ld_rows _ _ _ _ _ _ _ _ _ _ _ _ Hl), fmap_insert.
  - intros key0 c0 [[<- <-]|[Hnk Hk0]]%lookup_insert_Some; [done|]. destruct (ld_chains _ _ _ _ _ _ _ _ _ _ _ _ Hl key0 c0 Hk0) as (H1 & H2 & H3 & H4). ands; try done.
    eapply versions_frame, H2. intros l v Hin. assert (Hl0 : l ∈ c0.*1) by (apply list_elem_of_fmap; by exists (l, v)). apply Hother; [|intros Hn; by eapply Hapart].
    intros ([l1 v1] & -> & Hin1)%list_elem_of_fmap. destruct Hkey as [Hkey|[_ Hnil]]; [|unfold c in Hin1; rewrite Hnil in Hin1; by apply not_elem_of_nil in Hin1].
    apply list_elem_of_lookup_1 in Hin as [i Hi], Hin1 as [i1 Hi1]. by destruct (ld_separate _ _ _ _ _ _ _ _ _ _ _ _ Hl key key0 _ c0 i1 i _ v1 v Hkey Hk0 Hi1 Hi).
  - by apply (separate_insert C key c c' new (ld_separate _ _ _ _ _ _ _ _ _ _ _ _ Hl) Hkey).
Qed.

(** A put, once its base is known and checked. *)
Lemma put_write x key value b up k n s p R rs es σ oA H G C : laid k (mx + (131 + (mx + (131 + (65 + n))))) s p R rs es σ oA H G C ->
  0 <= k /\ k + 2 < U32 -> is_u64 x -> ver_ok (mkVer x 0 value) -> default [] (C !! key) = up ++ b -> chained G b -> Forall (fun y => ver_ok (snd y)) b ->
  exists r w', settles (fun turns =>
      do locator <- on_heap (heap_insert turns (ver_tuple (mkVer x 0 value) (fst <$> head b))) ;;
      match fst <$> head b with Some l => mark_deleted buffers turns l x | None => st_ret tt end ;;;
      on_index (BTree.insert key (locator_encode locator)) ;;; sync_roots ;;; st_ret locator) (s, p) r w' /\
    match refused ps key with
    | Some e => r = Err e /\ rep (k + 2) n w' R
    | None => (exists l, r = Val l) /\ rep (k + 2) n w' (set_row key (mkVer x 0 value :: stamp x b.*2) R)
    end.
Proof.
  intros Hl Hk Hx Hv Eup Hcb Hvb. pose proof (ld_heap _ _ _ _ _ _ _ _ _ _ _ _ Hl) as Hh. destruct (ld_marked _ _ _ _ _ _ _ _ _ _ _ _ Hl) as [Mi Mc].
  set (new := mkVer x 0 value) in *. pose proof (prev_of_ok (L := index_laws rs (pd_index p) es) (F := index_frees rs (pd_index p) es) ps o k _ σ oA H G s p b Hh Hcb) as Hpr. pose proof (ver_value_pages ps o mx new (fst <$> head b) Hv) as Hpg.
  destruct (heap_insert_spec (L := index_laws rs (pd_index p) es) (F := index_frees rs (pd_index p) es) ps Hps o Hinline k (mx + (131 + (65 + n))) (s, pd_heap p) σ oA H G (ver_tuple new (fst <$> head b)))
    as (l & [s1 hp1] & σ1 & oA1 & H1 & ov & E1 & Hh1 & _ & _ & Hg); [|lia|by eapply ver_value_ok|].
  { eapply (holds_weaken (L := index_laws _ _ _) (F := index_frees _ _ _)); [reflexivity| |exact Hh]. lia. }
  assert (Mc1 : cataloged (snd rs) hp1) by (by apply (settles_keeps (heap_marked (snd rs)) _ _ _ _ E1 (fun t => keeps_heap_insert _ t _))).
  set (G1 := <[l := (ver_tuple new (fst <$> head b), ov)]> G) in *. set (p1 := put_heap hp1 p).
  assert (Hlb : forall cc, chained G cc -> l ∉ cc.*1).
  { intros cc Hcc ([l0 v0] & -> & Hin)%list_elem_of_fmap. destruct (chained_elem G cc Hcc l0 v0 Hin) as (t & ov0 & Hg0). cbn in Hg. congruence. }
  assert (HG1 : forall l0, l0 <> l -> G1 !! l0 = G !! l0) by (intros l0 Hn; by apply lookup_insert_ne).
  assert (Hframe : forall cc, chained G cc -> chained G1 cc).
  { intros cc Hcc. eapply versions_frame, Hcc. intros l0 v0 Hin. apply HG1. intros ->. apply (Hlb cc Hcc), list_elem_of_fmap. by exists (l, v0). }
  destruct (stamp_spec x b (k + 1) (65 + n) s1 p1 rs es σ1 oA1 H1 G1 Hh1 Mc1 ltac:(lia) Hx (Hframe b Hcb) Hvb) as (s2 & hp2 & σ2 & oA2 & H2 & G2 & E2 & Hh2 & Mc2 & Hst).
  set (p2 := put_heap hp2 p1). pose proof (enter_spec key (locator_encode l) (k + 1 + 1) n s2 p2 rs es σ2 oA2 H2 G2 Hh2 Mi) as Hent. rewrite accepted_locator in Hent.
  assert (Ha2 : aside p p2) by done. destruct (laid_chain _ _ _ _ _ _ _ _ _ _ _ _ key Hl) as (Hcc & Hvc & Hnd & _ & Hkey). rewrite Eup in Hcc, Hvc, Hnd.
  assert (Hl2 : forall l0, l0 <> l -> l0 ∉ b.*1 -> G2 !! l0 = G !! l0) by (intros l0 Hn Hb; rewrite (stamped_other x b G1 G2 l0 Hst Hb); by apply HG1).
  unfold refused. destruct (accepted ps key (zeros 14)) eqn:Eacc.
  - destruct Hent as (s3 & i & es' & E3 & Hh3 & He & Mi3). set (p3 := put_index i p2).
    destruct (sync_roots_spec ps o Hps rs es' (k + 1 + 1) n σ2 oA2 H2 G2 s3 p3 Hh3) as (s4 & i4 & hp4 & E4 & Hh4 & Hc4).
    { eapply sized_aside, (ld_sized _ _ _ _ _ _ _ _ _ _ _ _ Hl). done. }
    { by split. }
    set (p4 := put_heap hp4 (put_index i4 p3)) in *. exists (Val l), (s4, p4). split; [|split; [by exists l|]].
    + eapply settles_bind; [apply on_heap_settles; exact E1|]. cbv beta. eapply settles_bind; [exact E2|]. eapply settles_step; [exact E3|]. eapply settles_step; [exact E4|]. by apply settles_const.
    + set (c' := (l, new) :: stamp_head x b). replace (new :: stamp x b.*2) with c'.*2 by (unfold c'; cbn; by rewrite stamp_head_snd).
      eexists _, es', σ2, oA2, H2, G2, (<[key := c']> C). rewrite <- Z.add_assoc in Hh4. change (1 + 1) with 2 in Hh4. cbn [fst snd].
      assert (Hnb : NoDup b.*1) by (rewrite fmap_app in Hnd; by apply NoDup_app in Hnd as (_ & _ & Hnd)).
      assert (Hsb : chained G2 (stamp_head x b)) by (by apply (chained_stamped x [] b G1 G2 (Hframe b Hcb))).
      apply (laid_row k _ s p R rs es σ oA H G C key c' _ _ _ _ _ _ _ _ _ _ [l] Hl Hh4); try done.
      * destruct Hc4 as [c4 Hc4]. split; [by left|]. exists c4. split; [done|]. left. unfold catalog_root. cbn [pd_heap p4 put_heap]. by rewrite Hc4.
      * split; [|done]. exists ov. rewrite (stamped_other x b G1 G2 l Hst (Hlb b Hcb)). unfold G1. rewrite lookup_insert_eq. do 2 f_equal. by destruct b as [|[? ?] ?].
      * constructor; [done|]. destruct b as [|[lb vb] b']; [constructor|]. apply Forall_cons in Hvb as [Hvb Hvb']. constructor; [by apply ver_stamp_ok|done].
      * unfold c'. cbn. rewrite stamp_head_fst. constructor; [by apply Hlb|done].
      * unfold c'. cbn. rewrite stamp_head_fst. intros l0 [->|Hin]%elem_of_cons; [right; by left|left]. rewrite Eup, fmap_app. apply elem_of_app. by right.
      * by intros l0 ->%list_elem_of_singleton.
      * intros l0 Hn1 Hn2. apply Hl2; [by intros ->; apply Hn2; left|]. intros Hin. apply Hn1. rewrite Eup, fmap_app. apply elem_of_app. by right.
  - assert (Hnone : C !! key = None).
    { destruct (C !! key) as [c0|] eqn:Ec; [|done]. destruct (ld_chains _ _ _ _ _ _ _ _ _ _ _ _ Hl key c0 Ec) as (_ & _ & _ & Hok). congruence. }
    rewrite Hnone in Eup. cbn in Eup. symmetry in Eup. apply app_nil in Eup as [-> ->]. cbn in Hst. subst G2.
    exists (Err (if bool_decide (key = []) then ValueTooLarge 0 0 0 else ValueTooLarge 0 (blen key + 14) (usable_bytes ps / 2))), (s2, p2). split; [|split; [done|]].
    + eapply settles_bind; [apply on_heap_settles; exact E1|]. cbv beta. eapply settles_bind; [exact E2|].
      apply (settles_bind_err (fun _ => on_index (BTree.insert key (locator_encode l)))), settles_const. exact Hent.
    + exists rs, es, σ2, oA2, H2, G1, C. destruct Hl. split; try done; cbn [fst snd].
      * eapply (holds_weaken (L := index_laws _ _ _) (F := index_frees _ _ _)); [| |exact Hh2]; lia.
      * by apply (sized_aside p p2).
      * intros key0 c0 Hk0. destruct (ld_chains0 key0 c0 Hk0) as (A1 & A2 & A3 & A4). ands; try done. by apply Hframe.
Qed.

(** The first steps of a writer, up to its base. *)
Lemma writer_spec x key k n s p R rs es σ oA H G C : laid k n s p R rs es σ oA H G C -> let c := default [] (C !! key) in
  exists b s', laid k n s' p R rs es σ oA H G C /\ (let! b := b in Val b.*2) = base_of MAX_VERSION_CHAIN (rw_table R) x (row R key) /\
    (forall bl, b = Val bl -> (exists up, c = up ++ bl) /\ chained G bl /\ Forall (fun y => ver_ok (snd y)) bl) /\
    forall A (kk : nat -> option TupleLocator -> st PageError world A) r w', 
      match b with Val bl => settles (fun t => kk t (fst <$> head bl)) (s', p) r w' | Err e => r = Err e /\ w' = (s', p) | Panic => r = Panic /\ w' = (s', p) end ->
      settles (fun t => on_pool (pg_set_transaction x) ;;; do o <- on_index (BTree.get key) ;; do b <- write_base t x (o ≫= locator_decode) ;; kk t b) (s, p) r w'.
Proof.
  intros Hl c. destruct (tag_spec x _ _ _ _ _ _ _ _ _ _ _ _ Hl) as (s1 & E1 & Hl1). destruct (index_get_spec _ _ _ _ _ _ _ _ _ _ _ _ key Hl1) as (s2 & E2 & Hl2 & Hd).
  destruct (base_spec x key _ _ _ _ _ _ _ _ _ _ _ _ Hl2) as (b & s3 & E3 & Hl3 & Hb & Hsuf). exists b, s3. ands; [done|done|done|]. intros A kk r w' Hr.
  assert (Eo : (headed <$> C !! key) ≫= locator_decode = fst <$> head c).
  { unfold c. destruct (C !! key) as [c0|]; [|done]. by apply Hd. }
  eapply settles_step; [exact E1|]. eapply settles_step; [exact E2|]. rewrite Eo. eapply settles_then; [exact E3|]. by destruct b.
Qed.

Lemma put_spec x key value k n w R : rep k (mx + (131 + (mx + (131 + (65 + n))))) w R -> 0 <= k /\ k + 2 < U32 -> is_u64 x -> ver_ok (mkVer x 0 value) ->
  exists r w', settles (fun turns => store_put buffers turns x key value) w r w' /\ blur r = fst (rows_put ps x key value R) /\ rep (k + 2) n w' (snd (rows_put ps x key value R)).
Proof.
  destruct w as [s p]. intros Hrep Hk Hx Hv. pose proof Hrep as (rs & es & σ & oA & H & G & C & Hl). cbn [fst snd] in Hl.
  destruct (writer_spec x key _ _ _ _ _ _ _ _ _ _ _ _ Hl) as (b & s1 & Hl1 & Hb & Hsuf & Hrun).
  assert (Hstay : forall s' , laid k (mx + (131 + (mx + (131 + (65 + n))))) s' p R rs es σ oA H G C -> rep (k + 2) n (s', p) R).
  { intros s' Hl'. eapply (rep_weaken k); [lia| |by exists rs, es, σ, oA, H, G, C]. lia. }
  unfold rows_put, store_put, put_returning_locator. destruct b as [bl|e|]; cbn [res_bind] in Hb; rewrite <- Hb.
  2: { exists (Err e), (s1, p). ands; [|done|by apply Hstay]. eapply settles_then; [by apply (Hrun _ _ (Err e) (s1, p))|done]. }
  2: { exists Panic, (s1, p). ands; [|done|by apply Hstay]. eapply settles_then; [by apply (Hrun _ _ Panic (s1, p))|done]. }
  destruct (Hsuf bl eq_refl) as ([up Eup] & Hcb & Hvb). destruct (check_spec x bl _ _ _ _ _ _ _ _ _ _ _ _ Hl1 Hcb Hvb) as (s2 & E2 & Hl2).
  destruct (check_base (rw_table R) (rows_snapshot R x) x bl.*2) as [[]|e|] eqn:Ech.
  2: { exists (Err e), (s2, p). ands; [|done|by apply Hstay]. eapply settles_then; [apply (Hrun _ _ (Err e) (s2, p)); by eapply settles_then|done]. }
  2: { exists Panic, (s2, p). ands; [|done|by apply Hstay]. eapply settles_then; [apply (Hrun _ _ Panic (s2, p)); by eapply settles_then|done]. }
  destruct (put_write x key value bl up k n s2 p R rs es σ oA H G C Hl2 Hk Hx Hv Eup Hcb Hvb) as (r & w' & E3 & Hr).
  exists (let! _ := r in Val tt), w'. split.
  - eapply settles_then; [apply (Hrun _ _ r w'); eapply settles_bind; [exact E2|exact E3]|]. destruct r; [by apply settles_const|done|done].
  - destruct (refused ps key); [destruct Hr as [-> Hr]|destruct Hr as [[l ->] Hr]]; by split.
Qed.

(** A delete, once the row is seen and its base checked. *)
Lemma delete_write x key l v b up k n s p R rs es σ oA H G C : laid k (mx + (131 + n)) s p R rs es σ oA H G C ->
  0 <= k /\ k + 1 < U32 -> is_u64 x -> default [] (C !! key) = up ++ (l, v) :: b ->
  exists w', settles (fun turns => mark_deleted buffers turns l x ;;; sync_roots ;;; st_ret true) (s, p) (Val true) w' /\
    rep (k + 1) n w' (set_row key (above (row R key) (v :: b.*2) ++ stamp x (v :: b.*2)) R).
Proof.
  intros Hl Hk Hx Eup. pose proof (ld_heap _ _ _ _ _ _ _ _ _ _ _ _ Hl) as Hh. destruct (ld_marked _ _ _ _ _ _ _ _ _ _ _ _ Hl) as [Mi Mc].
  destruct (laid_chain _ _ _ _ _ _ _ _ _ _ _ _ key Hl) as (Hcc & Hvc & Hnd & Hrow & Hkey). rewrite Eup in Hcc, Hvc, Hnd, Hrow.
  assert (Hkey' : C !! key = Some (up ++ (l, v) :: b)) by (destruct Hkey as [Hkey|[_ Hnil]]; [by rewrite Eup in Hkey|rewrite Eup in Hnil; by apply app_nil in Hnil as [_ ?]]).
  pose proof (versions_suffix _ _ _ Hcc) as Hcb. pose proof Hvc as [Hvu [Hv Hvb]%Forall_cons]%Forall_app. cbn [snd] in Hv.
  destruct (mark_spec x k n s p rs es σ oA H G l v b Hh Mc Hk Hx Hcb Hv) as (s1 & hp1 & σ1 & oA1 & H1 & G1 & E1 & Hh1 & Mc1 & Hst). set (p1 := put_heap hp1 p).
  destruct (sync_roots_spec ps o Hps rs es (k + 1) n σ1 oA1 H1 G1 s1 p1 Hh1) as (s2 & i2 & hp2 & E2 & Hh2 & [c2 Hc2]).
  { eapply sized_aside, (ld_sized _ _ _ _ _ _ _ _ _ _ _ _ Hl). done. }
  { by split. }
  set (p2 := put_heap hp2 (put_index i2 p1)) in *. exists (s2, p2). split.
  - eapply settles_bind; [exact E1|]. eapply settles_step; [exact E2|]. by apply settles_const.
  - set (c' := up ++ stamp_head x ((l, v) :: b)).
    assert (Ec' : above (row R key) (v :: b.*2) ++ stamp x (v :: b.*2) = c'.*2).
    { unfold c', above. rewrite Hrow, fmap_app. cbn. rewrite fmap_app, length_app. cbn. rewrite Nat.add_sub, take_app_length. done. }
    rewrite Ec'. eexists _, es, σ1, oA1, H1, G1, (<[key := c']> C). assert (Ef : c'.*1 = (up ++ (l, v) :: b).*1) by (unfold c'; by rewrite !fmap_app).
    apply (laid_row k _ s p R rs es σ oA H G C key c' _ _ _ _ _ _ _ _ _ _ [] Hl Hh2); try done.
    + split; [by left|]. exists c2. split; [done|]. left. unfold catalog_root. cbn [pd_heap p2 put_heap]. by rewrite Hc2.
    + rewrite (ld_index _ _ _ _ _ _ _ _ _ _ _ _ Hl). rewrite <- (insert_id C key _ Hkey') at 1. rewrite fmap_insert. f_equal. unfold c', headed. by destruct up as [|[? ?] ?].
    + unfold c'. by destruct up.
    + by apply (chained_stamped x up ((l, v) :: b) G G1).
    + unfold c'. apply Forall_app. split; [done|]. constructor; [by apply ver_stamp_ok|done].
    + apply (ld_chains _ _ _ _ _ _ _ _ _ _ _ _ Hl key _ Hkey').
    + by rewrite Ef.
    + intros l0. rewrite Ef, Eup. by left.
    + intros l0 Hin. by apply not_elem_of_nil in Hin.
    + intros l0 Hn _. apply (stamped_other x ((l, v) :: b)); [done|]. intros Hin. apply Hn. rewrite Eup, fmap_app. apply elem_of_app. by right.
Qed.

Lemma store_delete_spec x key k n w R : rep k (mx + (131 + n)) w R -> 0 <= k /\ k + 1 < U32 -> is_u64 x ->
  exists r w', settles (fun turns => store_delete buffers turns x key) w r w' /\ blur r = fst (rows_delete x key R) /\ rep (k + 1) n w' (snd (rows_delete x key R)).
Proof.
  destruct w as [s p]. intros (rs & es & σ & oA & H & G & C & Hl) Hk Hx. cbn [fst snd] in Hl.
  destruct (tag_spec x _ _ _ _ _ _ _ _ _ _ _ _ Hl) as (s1 & E1 & Hl1). destruct (index_get_spec _ _ _ _ _ _ _ _ _ _ _ _ key Hl1) as (s2 & E2 & Hl2 & Hd).
  destruct (base_spec x key _ _ _ _ _ _ _ _ _ _ _ _ Hl2) as (b & s3 & E3 & Hl3 & Hb & Hsuf). set (c := default [] (C !! key)) in *.
  assert (Hstay : forall s', laid k (mx + (131 + n)) s' p R rs es σ oA H G C -> rep (k + 1) n (s', p) R).
  { intros s' Hl'. eapply (rep_weaken k); [lia| |by exists rs, es, σ, oA, H, G, C]. lia. }
  assert (Eo : (headed <$> C !! key) ≫= locator_decode = fst <$> head c) by (unfold c; destruct (C !! key) as [c0|]; [by apply Hd|done]).
  assert (Hrun : forall r w', settles (fun t => match fst <$> head c with None => st_ret false | Some hd => do base <- write_base t x (Some hd) ;;
      match base with None => st_ret false | Some locator =>
        do p <- gets snd ;; do seen <- get_as_of_locked buffers t (snapshot_of p x) key ;;
        match seen with None => st_ret false | Some _ =>
          check_write_conflict buffers t x locator ;;; mark_deleted buffers t locator x ;;; sync_roots ;;; st_ret true end end end) (s2, p) r w' ->
    settles (fun t => store_delete buffers t x key) (s, p) r w').
  { intros r w' Hr. unfold store_delete. eapply settles_step; [exact E1|]. eapply settles_step; [exact E2|]. by rewrite Eo. }
  unfold rows_delete. rewrite <- Hb. destruct c as [|[l0 v0] c0] eqn:Ec.
  { destruct (laid_chain _ _ _ _ _ _ _ _ _ _ _ _ key Hl3) as (_ & _ & _ & Hrow & _). fold c in Hrow. rewrite Ec in Hrow. cbn in Hrow. rewrite Hrow in Hb. cbn in Hb.
    destruct b as [[|]| |]; try done. exists (Val false), (s2, p). ands; [by apply Hrun, settles_const|done|by apply Hstay]. }
  cbn [head option_map fmap option_fmap fst] in Hrun, E3. destruct b as [bl|e|]; cbn [res_bind] in *.
  2: { exists (Err e), (s3, p). ands; [apply Hrun; by eapply settles_then|done|by apply Hstay]. }
  2: { exists Panic, (s3, p). ands; [apply Hrun; by eapply settles_then|done|by apply Hstay]. }
  destruct (Hsuf bl eq_refl) as ([up Eup] & Hcb & Hvb). destruct bl as [|[l v] bl]; cbn [fmap list_fmap fst snd head option_map option_fmap] in *.
  { exists (Val false), (s3, p). ands; [apply Hrun; eapply settles_bind; [exact E3|by apply settles_const]|done|by apply Hstay]. }
  destruct (get_locked_spec _ _ _ _ _ _ _ _ _ _ _ _ (snapshot_of p x) key Hl3) as (r4 & s4 & E4 & Hl4 & Hr4).
  assert (Esn : snapshot_of p x = rows_snapshot R x).
  { unfold snapshot_of, rows_snapshot. by rewrite (ld_snapshots _ _ _ _ _ _ _ _ _ _ _ _ Hl), (ld_table _ _ _ _ _ _ _ _ _ _ _ _ Hl). }
  rewrite Esn in E4, Hr4. assert (Hrun4 : forall r w', match r4 with Val None => r = Val false /\ w' = (s4, p) | Err e => r = Err e /\ w' = (s4, p) | Panic => r = Panic /\ w' = (s4, p)
      | Val (Some _) => settles (fun t => check_write_conflict buffers t x l ;;; mark_deleted buffers t l x ;;; sync_roots ;;; st_ret true) (s4, p) r w' end ->
    settles (fun t => store_delete buffers t x key) (s, p) r w').
  { intros r w' Hr. apply Hrun. eapply settles_bind; [exact E3|]. cbv beta iota. eapply settles_step; [done|]. cbn [snd]. rewrite Esn. eapply settles_then; [exact E4|].
    destruct r4 as [[y|]|e|]; [done| |done|done]. destruct Hr as [-> ->]. by apply settles_const. }
  destruct r4 as [[y|]|e|]; cbn [blur] in Hr4; rewrite <- Hr4.
  - destruct (check_spec x ((l, v) :: bl) _ _ _ _ _ _ _ _ _ _ _ _ Hl4 Hcb Hvb) as (s5 & E5 & Hl5). cbn [fmap list_fmap fst snd head option_map option_fmap] in E5.
    destruct (check_base (rw_table R) (rows_snapshot R x) x (v :: bl.*2)) as [[]|e|] eqn:Ech.
    + destruct (delete_write x key l v bl up k n s5 p R rs es σ oA H G C Hl5 Hk Hx) as (w' & E6 & Hrep); [unfold c in Ec; by rewrite Ec, Eup|].
      exists (Val true), w'. ands; [|done|done]. apply Hrun4. eapply settles_bind; [exact E5|exact E6].
    + exists (Err e), (s5, p). ands; [apply Hrun4; by eapply settles_then|done|by apply Hstay].
    + exists Panic, (s5, p). ands; [apply Hrun4; by eapply settles_then|done|by apply Hstay].
  - exists (Val false), (s4, p). ands; [by apply Hrun4|done|by apply Hstay].
  - exists (Err e), (s4, p). ands; [by apply Hrun4|done|by apply Hstay].
  - exists Panic, (s4, p). ands; [by apply Hrun4|done|by apply Hstay].
Qed.

(** ** The transaction table *)

(** The table and the snapshots change, the pages stay. *)
Lemma retable k n s p R next t snaps : rep k n (s, p) R -> abort_exceptions t = abort_exceptions (pd_transactions p) ->
  rep k n (s, put_transactions next t snaps p) (mkRows t snaps (rw_rows R)).
Proof.
  intros (rs & es & σ & oA & H & G & C & []) Ht. exists rs, es, σ, oA, H, G, C. cbn [fst snd] in *. split; try done.
  destruct ld_sized0 as [H1 H2 H3 H4]. split; try done. cbn [put_transactions pd_transactions]. unfold abort_exceptions_list in *. by rewrite Ht.
Qed.

Lemma store_begin_spec k n w R : rep k n w R ->
  exists w', store_begin w = (Val (fst (fst (rows_begin R))), w') /\ rep k n w' (snd (rows_begin R)).
Proof.
  destruct w as [s p]. intros Hr. pose proof Hr as (rs & es & σ & oA & H & G & C & Hl). cbn [fst snd] in Hl. pose proof (ld_table _ _ _ _ _ _ _ _ _ _ _ _ Hl) as Et. pose proof (ld_snapshots _ _ _ _ _ _ _ _ _ _ _ _ Hl) as Es.
  unfold rows_begin. rewrite <- Et, <- Es. eexists. split; [done|]. cbn [fst snd]. by apply (retable k n s p R).
Qed.

Lemma settle_spec outcome x k n w R : (forall t, abort_exceptions (outcome x t) = abort_exceptions t) -> rep k n w R ->
  exists w', settle_transaction outcome x w = (Val tt, w') /\ rep k n w' (rows_settle outcome x R).
Proof.
  destruct w as [s p]. intros Ho Hr. pose proof Hr as (rs & es & σ & oA & H & G & C & Hl). cbn [fst snd] in Hl. unfold rows_settle.
  rewrite <- (ld_table _ _ _ _ _ _ _ _ _ _ _ _ Hl), <- (ld_snapshots _ _ _ _ _ _ _ _ _ _ _ _ Hl). eexists. split; [done|]. apply (retable k n s p R); [done|]. apply Ho.
Qed.

Lemma commit_exceptions x t : abort_exceptions (commit x t) = abort_exceptions t.
Proof. done. Qed.
Lemma abort_keeps_exceptions x t : abort_exceptions (abort x t) = abort_exceptions t.
Proof. unfold abort. by destruct (bool_decide _). Qed.

(** ** Reading *)

Lemma get_as_of_spec snapshot key k n w R : rep k n w R ->
  exists r w', settles (fun turns => get_as_of buffers turns snapshot key) w r w' /\ blur r = rows_read snapshot key R /\ rep k n w' R.
Proof.
  destruct w as [s p]. intros (rs & es & σ & oA & H & G & C & Hl). destruct (get_locked_spec _ _ _ _ _ _ _ _ _ _ _ _ snapshot key Hl) as (r & s' & E & Hl' & Hr).
  exists r, (s', p). ands; try done. by exists rs, es, σ, oA, H, G, C.
Qed.

Lemma store_get_spec key k n w R : rep k n w R ->
  exists r w', settles (fun turns => store_get buffers turns key) w r w' /\ blur r = rows_read (latest_snapshot (rw_table R)) key R /\ rep k n w' R.
Proof.
  intros Hr. destruct (get_as_of_spec (latest_snapshot (rw_table R)) key _ _ _ _ Hr) as (r & w' & E & Hb & Hr'). exists r, w'. ands; try done.
  destruct w as [s p], Hr as (rs & es & σ & oA & H & G & C & Hl). eapply settles_step; [done|]. cbn [snd]. cbn [fst snd] in Hl. by rewrite (ld_table _ _ _ _ _ _ _ _ _ _ _ _ Hl).
Qed.
End Store.
