(* ===== verification/PagedScan.v ===== *)
(** * Scanning and opening the paged store

    A scan walks the index and resolves each row through the snapshot, reading
    heap pages between two steps of the index cursor: it yields the rows the
    snapshot sees, in key order.  Opening an empty file builds the meta page, the
    index and the heap, and gives a store without rows. *)

From stdpp Require Import base tactics list numbers gmap.
From Stdlib Require Import ZArith Lia.
From S2P Require Import Prelude Turns Bytes Errors PageFormat Slotted Pager Keys BTreeNode BTree BTreeTheory BTreeCursor BTreeTheorems BTreeClient.
From S2P Require Import Catalog CatalogSpec Overflow OverflowSpec Heap HeapPage HeapSpec HeapValues Mvcc MvccOutcomes Paged Versions PagedPages PagedChains PagedSpec.
From S2P Require Import RootMoves.
Local Open Scope Z_scope.
Local Open Scope bic_scope.

Section Collect.
Context {S : Type} {P : Pager S} (buffers : nat -> Z).

(** [collect] over a scan. *)
Fixpoint collect_rows (turns : nat) (sc : PagedScan) : st PageError (S * PagedStore) (list (bytes * bytes)) :=
  match turns with
  | O => st_panic
  | Datatypes.S turns' =>
      do (o, sc') <- scan_next buffers turns' sc ;;
      match o with
      | None => st_ret []
      | Some kv => do rest <- collect_rows turns' sc' ;; st_ret (kv :: rest)
      end
  end.
Definition scan_all (turns : nat) (snapshot : Snapshot) (start : bytes) : st PageError (S * PagedStore) (list (bytes * bytes)) :=
  do sc <- scan_from turns snapshot start ;; collect_rows turns sc.
End Collect.

Section Scan.
Context {S : Type} {P : Pager S} {L : PagerLaws S} {F : PagerFrees S} {T : PagerTags S} {TL : PagerTagLaws S}.
Context (ps : Z) (o : HeapOptions) (mx : nat).
Hypothesis Hps : 512 <= ps <= 65536.
Variable buffers : nat -> Z.
Hypothesis Hbuffers : forall i, 0 < buffers i.
Context (k : Z) (n : nat) (p : PagedStore) (R : Rows) (rs : Z * Z) (es : list entry) (σ : gmap Z bytes) (oA : option ACat)
  (H : gmap Z PageHist) (G : values) (C : gmap bytes links) (snapshot : Snapshot).
Abbreviation world := (S * PagedStore)%type.
Abbreviation here s := (laid ps o mx k n s p R rs es σ oA H G C).
(** A cursor [r] with [rest] before it is open on the index. *)
Abbreviation at_cursor s r rest := (holds (L := cursor_laws rs (pd_index p) es r rest) (F := cursor_frees rs (pd_index p) es r rest) ps o k n (s, pd_heap p) σ oA H G).

Lemma close_cursor s0 s r rest : here s0 -> at_cursor s r rest -> here s.
Proof.
  intros Hl Hh. eapply laid_heap; [exact Hl|].
  destruct (holds_whole (L := cursor_laws rs (pd_index p) es r rest) (F := cursor_frees rs (pd_index p) es r rest) _ _ _ _ _ _ _ _ _ _ Hh) as (τ & Cu & Hc).
  apply (Hc (index_laws rs (pd_index p) es) (index_frees rs (pd_index p) es)); [done|]. exact (cursor_stands (L := meta_laws rs) _ _ _ _ _ _ _ Cu).
Qed.

Lemma scan_from_spec s start : here s ->
  exists r s', settles (fun turns => scan_from turns snapshot start) (s, p) (Val (mkPagedScan snapshot r)) (s', p) /\ at_cursor s' r (from_key start es).
Proof.
  intros Hl. destruct (holds_whole (L := index_laws rs (pd_index p) es) (F := index_frees rs (pd_index p) es) _ _ _ _ _ _ _ _ _ _ (ld_heap _ _ _ _ _ _ _ _ _ _ _ _ _ _ _ Hl)) as (τ & St & Hc).
  destruct (stands_range (L := meta_laws rs) ps n (s, pd_index p) τ es start St) as (r & [s' i] & [e E] & Cu & Ei). cbn [snd] in Ei. subst i.
  exists r, s'. split; [|by apply (Hc (cursor_laws rs (pd_index p) es r (from_key start es)) (cursor_frees rs (pd_index p) es r (from_key start es)))].
  unfold scan_from. eapply settles_bind; [|by apply settles_const]. exists e. intros t Ht. unfold on_index. cbn [fst snd]. rewrite E by done. by rewrite put_index_id.
Qed.

(** One step of the cursor under the heap. *)
Lemma cursor_step_spec s r rest : at_cursor s r rest ->
  exists r' s', settles (fun turns => on_index (range_next turns r)) (s, p) (Val (head rest, r')) (s', p) /\
    (rest = [] -> forall s0, here s0 -> here s') /\ (rest <> [] -> at_cursor s' r' (tail rest)).
Proof.
  intros Hh. destruct (holds_whole (L := cursor_laws rs (pd_index p) es r rest) (F := cursor_frees rs (pd_index p) es r rest) _ _ _ _ _ _ _ _ _ _ Hh) as (τ & Cu & Hc).
  destruct (cursor_next (L := meta_laws rs) ps n (s, pd_index p) τ es r rest Cu) as (r' & [s' i] & [e E] & St & Ei & Cu'). cbn [snd] in Ei. subst i.
  exists r', s'. ands.
  - exists e. intros t Ht. unfold on_index. cbn [fst snd]. rewrite E by done. by rewrite put_index_id.
  - intros _ s0 Hl. eapply laid_heap; [exact Hl|]. by apply (Hc (index_laws rs (pd_index p) es) (index_frees rs (pd_index p) es)).
  - intros Hne. apply (Hc (cursor_laws rs (pd_index p) es r' (tail rest)) (cursor_frees rs (pd_index p) es r' (tail rest))); [done|]. by apply Cu'.
Qed.

(** The rows an entry list stands for. *)
Definition rows_at (l : list entry) : list (bytes * list Ver) := (fun e => (fst e, row R (fst e))) <$> l.
Definition rooted (l : list entry) : Prop := forall key b, (key, b) ∈ l -> exists c, C !! key = Some c /\ b = headed c.

Lemma scan_next_unfold turns sc :
  scan_next buffers turns sc =
  match turns with
  | O => st_panic
  | Datatypes.S turns' =>
      do (entry, entries) <- on_index (range_next turns' (ps_entries sc)) ;;
      match entry with
      | None => st_ret (None, mkPagedScan (ps_snapshot sc) entries)
      | Some (key, value) =>
          do o <- walk_chain_as_of buffers turns' (ps_snapshot sc) (locator_decode value) ;;
          match o with
          | Some visible => st_ret (Some (key, visible), mkPagedScan (ps_snapshot sc) entries)
          | None => scan_next buffers turns' (mkPagedScan (ps_snapshot sc) entries)
          end
      end
  end :> st PageError world _.
Proof. by destruct turns. Qed.

Lemma scan_next_spec rest : forall s0 s r, here s0 -> at_cursor s r rest -> rooted rest ->
  exists x s', settles (fun turns => scan_next buffers turns (mkPagedScan snapshot r)) (s, p) x (s', p) /\ here s' /\
    match next_row (rw_table R) snapshot (rows_at rest) with
    | Val None => exists r', x = Val (None, mkPagedScan snapshot r')
    | Val (Some (kv, l')) => exists r' rest', x = Val (Some kv, mkPagedScan snapshot r') /\ l' = rows_at rest' /\ at_cursor s' r' rest' /\ rooted rest' /\ (length rest' < length rest)%nat
    | Err e => exists e', x = Err e' /\ fault e' = e
    | Panic => x = Panic
    end.
Proof.
  induction rest as [|[key b] rest IH]; intros s0 s r Hl Hh Hroot; destruct (cursor_step_spec s r _ Hh) as (r1 & s1 & E1 & Hend & Hgo); cbn [head] in E1.
  - exists (Val (None, mkPagedScan snapshot r1)), s1. ands; [|by eapply Hend|by eexists]. eapply settles_ext; [intros t; apply scan_next_unfold|]. apply settles_turn.
    eapply settles_bind; [exact E1|]. by apply settles_const.
  - cbn [tail] in Hgo. specialize (Hgo ltac:(done)). pose proof (close_cursor s0 s1 r1 rest Hl Hgo) as Hl1. cbn [rows_at fmap list_fmap fst next_row].
    destruct (Hroot key b ltac:(by left)) as (c & Hc & ->). destruct (laid_chain _ _ _ _ _ _ _ _ _ _ _ _ _ _ _ key Hl1) as (Hch & Hv & Hnd & Hrow & _). rewrite Hc in Hch, Hv, Hnd, Hrow. cbn [default from_option id] in Hch, Hv, Hnd, Hrow.
    destruct (walk_get (L := cursor_laws rs (pd_index p) es r1 rest) (F := cursor_frees rs (pd_index p) es r1 rest) ps o mx Hps buffers Hbuffers k n σ oA H G snapshot c s1 p Hgo Hch Hv Hnd) as (x & s2 & E2 & Hh2 & Hx).
    rewrite (ld_table _ _ _ _ _ _ _ _ _ _ _ _ _ _ _ Hl1), <- Hrow in Hx. pose proof (close_cursor s0 s2 r1 rest Hl Hh2) as Hl2.
    assert (Hdec : locator_decode (headed c) = fst <$> head c).
    { destruct (index_get_spec ps o mx k n s1 p R rs es σ oA H G C key Hl1) as (_ & _ & _ & Hd). rewrite Hc in Hd. by apply Hd. }
    assert (Hroot' : rooted rest) by (intros key0 b0 Hin; apply Hroot; by right).
    assert (Hrun : forall y w', match x with
        | Val (Some v) => y = Val (Some (key, v), mkPagedScan snapshot r1) /\ w' = (s2, p)
        | Val None => settles (fun t => scan_next buffers t (mkPagedScan snapshot r1)) (s2, p) y w'
        | Err e => y = Err e /\ w' = (s2, p) | Panic => y = Panic /\ w' = (s2, p) end ->
      settles (fun turns => scan_next buffers turns (mkPagedScan snapshot r)) (s, p) y w').
    { intros y w' Hy. eapply settles_ext; [intros t; apply scan_next_unfold|]. apply settles_turn. eapply settles_bind; [exact E1|]. cbv beta iota. rewrite Hdec. eapply settles_then; [exact E2|].
      destruct x as [[v|]|e|]; [|done|done|done]. destruct Hy as [-> ->]. by apply settles_const. }
    destruct x as [[v|]|e|]; cbn [blur] in Hx; rewrite <- Hx; cbn [res_bind].
    + exists (Val (Some (key, v), mkPagedScan snapshot r1)), s2. ands; [by apply Hrun|done|]. exists r1, rest. ands; try done. cbn. lia.
    + destruct (IH s0 s2 r1 Hl Hh2 Hroot') as (y & s3 & E3 & Hl3 & Hy). exists y, s3. ands; [by apply Hrun|done|]. fold (rows_at rest).
      destruct (next_row (rw_table R) snapshot (rows_at rest)) as [[[kv l']|]|e|]; [|done|done|done]. destruct Hy as (r' & rest' & A1 & A2 & A3 & A4 & A5). exists r', rest'. ands; try done. cbn. lia.
    + exists (Err e), s2. ands; [by apply Hrun|done|by exists e].
    + exists Panic, s2. ands; [by apply Hrun|done|done].
Qed.

Lemma collect_rows_unfold turns sc :
  collect_rows buffers turns sc =
  match turns with
  | O => st_panic
  | Datatypes.S turns' =>
      do (o, sc') <- scan_next buffers turns' sc ;;
      match o with
      | None => st_ret []
      | Some kv => do rest <- collect_rows buffers turns' sc' ;; st_ret (kv :: rest)
      end
  end :> st PageError world _.
Proof. by destruct turns. Qed.

(** One row of the collection. *)
Lemma collect_step s r x s1 y w' : settles (fun turns => scan_next buffers turns (mkPagedScan snapshot r)) (s, p) x (s1, p) ->
  match x with
  | Val (Some kv, sc') => settles (fun t => do l <- collect_rows buffers t sc' ;; st_ret (kv :: l)) (s1, p) y w'
  | Val (None, _) => y = Val [] /\ w' = (s1, p)
  | Err e => y = Err e /\ w' = (s1, p)
  | Panic => y = Panic /\ w' = (s1, p)
  end -> settles (fun turns => collect_rows buffers turns (mkPagedScan snapshot r)) (s, p) y w'.
Proof.
  intros E Hy. eapply settles_ext; [intros t; apply collect_rows_unfold|]. apply settles_turn.
  eapply settles_then; [exact E|]. destruct x as [[[kv|] sc']|e|]; try done. destruct Hy as [-> ->]. by apply settles_const.
Qed.

Lemma collect_spec (m : nat) : forall rest s0 s r, (length rest < m)%nat -> here s0 -> at_cursor s r rest -> rooted rest ->
  exists x s', settles (fun turns => collect_rows buffers turns (mkPagedScan snapshot r)) (s, p) x (s', p) /\ here s' /\
    blur x = scan_rows (rw_table R) snapshot (rows_at rest).
Proof.
  induction m as [|m IH]; intros rest s0 s r Hm Hl Hh Hroot; [lia|]. destruct (scan_next_spec rest s0 s r Hl Hh Hroot) as (x & s1 & E1 & Hl1 & Hx). rewrite scan_rows_next.
  destruct (next_row _ _ _) as [[[kv l']|]|e|]; cbn [res_bind].
  - destruct Hx as (r' & rest' & -> & -> & Hh1 & Hroot' & Hlt). destruct (IH rest' s1 s1 r' ltac:(lia) Hl1 Hh1 Hroot') as (y & s2 & E2 & Hl2 & Hy). rewrite <- Hy.
    exists (let! l := y in Val (kv :: l)), s2. ands; [|done|by destruct y]. eapply collect_step; [exact E1|]. eapply settles_then; [exact E2|]. destruct y; try done. by apply settles_const.
  - destruct Hx as [r' ->]. exists (Val []), s1. ands; [|done|done]. by eapply collect_step.
  - destruct Hx as (e' & -> & <-). exists (Err e'), s1. ands; [|done|done]. by eapply collect_step.
  - subst x. exists Panic, s1. ands; [|done|done]. by eapply collect_step.
Qed.

(** Scanning from a key yields the rows the snapshot sees, in key order. *)
Lemma scan_all_spec s start : here s ->
  exists x s', settles (fun turns => scan_all buffers turns snapshot start) (s, p) x (s', p) /\ here s' /\ blur x = rows_scan snapshot start R.
Proof.
  intros Hl. destruct (scan_from_spec s start Hl) as (r & s1 & E1 & Hh1). destruct (index_step _ _ _ _ _ _ _ _ _ _ _ _ _ (ld_heap _ _ _ _ _ _ _ _ _ _ _ _ _ _ _ Hl)) as (τ & St & _).
  pose proof (stands_sorted (L := meta_laws rs) _ _ _ _ _ St) as Hs. pose proof (ld_index _ _ _ _ _ _ _ _ _ _ _ _ _ _ _ Hl) as Hi.
  destruct (collect_spec (Datatypes.S (length (from_key start es))) (from_key start es) s s1 r ltac:(lia) Hl Hh1) as (x & s2 & E2 & Hl2 & Hx).
  - intros key b [_ Hin]%list_elem_of_filter. apply sorted_member in Hin; [|done]. rewrite Hi, lookup_fmap in Hin. destruct (C !! key) as [c|]; [|done]. injection Hin as <-. by exists c.
  - exists x, s2. ands; [by eapply settles_bind|done|]. rewrite Hx. unfold rows_scan. rewrite <- (keys_enumerate es R start Hs).
    + unfold rows_at. by rewrite <- list_fmap_compose.
    + by rewrite Hi, (ld_rows _ _ _ _ _ _ _ _ _ _ _ _ _ _ _ Hl), !dom_fmap_L.
Qed.
End Scan.

(** ** Opening the paged store

    A store that opens on a file with nothing published takes a page for its
    roots, publishes it, creates the index and the catalog and writes their roots
    down: it then lays out no rows. *)

Lemma open_at_spec {S} `{P : Pager S} {L : PagerLaws S} ps n s σ : 512 <= ps <= 65536 -> pg_models ps (1 + n) s σ ->
  exists r s', open_at 0 s = (Val (mkTree r false Search), s') /\ stands ps n (s', mkTree r false Search) σ [].
Proof.
  intros Hps M. destruct (create_at_spec ps n s σ M Hps) as (s' & r & b & E & M' & Hr & T). exists r, s'. split; [done|].
  eexists _, _, _. ands; [exact M'|exact T|done|]. intros q b' Hq. assert (q <> r) by congruence. rewrite lookup_insert_ne by done. split; [done|]. cbn. by intros ?%list_elem_of_singleton.
Qed.

Lemma cat_open_spec {S} `{P : Pager S} {L : PagerLaws S} ps n s σ : 512 <= ps <= 65536 -> pg_models ps (1 + n) s σ ->
  exists c s', cat_open 0 s = (Val c, s') /\ cat_stands ps n (s', c) σ ac_empty.
Proof.
  intros Hps M. destruct (open_at_spec ps n s σ Hps M) as (r & s' & E & St). eexists _, s'. split.
  - unfold cat_open. unfold st_bind at 1, gets at 1. rewrite (pg_size_law _ _ _ _ M). unfold st_bind. by rewrite E.
  - exists []. ands; [by eapply stands_unmark, St|exact shows_empty|done].
Qed.

Section Open.
Context {S : Type} {P : Pager S} {L : PagerLaws S} {F : PagerFrees S} {T : PagerTags S} {TL : PagerTagLaws S}.
Context (ps : Z) (mx : nat).
Hypothesis Hps : 512 <= ps <= 65536.

(** The pages [σ] beside a tree. *)
Lemma tree_opens (t : BTree) (es : list entry) : opens (fun ps n (s : S) σ => stands ps n (s, t) σ es).
Proof. intros ps' n s σ St. destruct (stands_open ps' n (s, t) σ es St) as (τ & Fr & Hc). exists τ. split; [exact Fr|]. intros n' s' σ' Fr'. exact (Hc _ n' s' σ' Fr'). Qed.

(** The trees of a new store, and the room its meta page has among the others. *)
Lemma open_trees_spec n s σ : pg_models ps (2 + n) s σ ->
  exists i c s', open_trees ps 0 0 s = (Val (i, set_catalog c (heap_new (for_page_size ps))), s') /\ root_changed i = false /\
    exists τ0 τ1, τ1 ##ₘ τ0 ∪ σ /\ τ0 ##ₘ σ /\ pg_models ps n s' (τ1 ∪ (τ0 ∪ σ)) /\
      (forall L' n' s' σ', framed (L := L') τ1 ps n' s' σ' -> stands (L := L') ps n' (s', i) σ' []) /\
      (forall L' n' s' σ', framed (L := L') τ0 ps n' s' σ' -> cat_stands (L := L') ps n' (s', c) σ' ac_empty).
Proof.
  intros M. destruct (open_at_spec ps (1 + n) s σ Hps M) as (r & s1 & E1 & St1). set (i := mkTree r false Search) in *.
  destruct (cat_open_spec (L := opened_laws _ (tree_opens i [])) ps n s1 σ Hps St1) as (c & s2 & E2 & C2).
  destruct (cat_opened (L := opened_laws _ (tree_opens i [])) ps n (s2, c) σ ac_empty C2) as (τ0 & [Hd0 St2] & Hc0).
  destruct (stands_open ps n (s2, i) _ [] St2) as (τ1 & [Hd1 M2] & Hc1). exists i, c, s2. split; [|split; [done|]].
  - unfold open_trees. unfold st_bind at 1. rewrite E1. unfold st_bind at 1. by rewrite E2.
  - exists τ0, τ1. ands; [done|done|exact M2|exact Hc1|exact Hc0].
Qed.

Lemma assemble_spec n s b t spill : pg_models ps (2 + n) s {[pg_fixed_root := b]} -> blen b = ps -> is_u64 pg_fixed_root ->
  Z.of_nat (length (abort_exceptions_list t)) <= abort_exception_capacity ps ->
  exists p s', assemble true pg_fixed_root ps 0 0 t spill s = (Val p, s') /\ rep ps (for_page_size ps) mx 0 n (s', p) (mkRows t ∅ ∅).
Proof.
  intros M Hb Hu Ht. destruct (open_trees_spec n s _ M) as (i & c & s1 & E1 & Hi & τ0 & τ1 & Hd1 & Hd0 & M1 & Hc1 & Hc0).
  set (hp := set_catalog c (heap_new (for_page_size ps))) in *. set (p := mkPaged hp i pg_fixed_root ps 1 t spill ∅).
  assert (Hri : is_u64 (root i)) by (exact (stands_root _ _ _ _ _ (Hc1 L n s1 _ (conj Hd1 M1)))).
  assert (Hm : τ1 !! pg_fixed_root = None /\ τ0 !! pg_fixed_root = None).
  { split; [eapply map_disjoint_Some_r; [exact Hd1|apply lookup_union_Some_r, lookup_singleton_eq; done]|]. eapply map_disjoint_Some_r; [exact Hd0|apply lookup_singleton_eq]. }
  assert (Hrc : is_u64 (root (tree c))).
  { destruct (Hc0 (framed_laws τ1) n s1 {[pg_fixed_root := b]}) as (es & St & _); [by split|]. exact (stands_root (L := framed_laws τ1) _ _ _ _ _ St). }
  destruct (fill_page ps Hps n s1 _ p c b M1) as (s2 & b' & E2 & M2 & Hr & Hn); try done.
  { rewrite !lookup_union_r by apply Hm. apply lookup_singleton_eq. }
  exists p, s2. split; [unfold assemble; unfold st_bind at 1; rewrite E1; fold hp p; by rewrite E2|].
  set (rs := (root i, root (tree c))) in *. assert (Hmeta : @pg_models _ _ (meta_laws rs) ps n s2 (τ1 ∪ τ0)).
  { exists b'. split; [|done]. split; [apply map_disjoint_singleton_l; rewrite lookup_union_None; apply Hm|].
    replace ({[pg_fixed_root := b']} ∪ (τ1 ∪ τ0)) with (<[pg_fixed_root := b']> (τ1 ∪ (τ0 ∪ {[pg_fixed_root := b]}))); [done|]. rewrite <- insert_union_singleton_l.
    apply map_eq. intros q. destruct (decide (q = pg_fixed_root)) as [->|]; [by rewrite !lookup_insert_eq|]. rewrite !lookup_insert_ne by done.
    rewrite !lookup_union, lookup_singleton_ne by done. by rewrite (right_id_L None (∪)). }
  assert (Hd : τ1 ##ₘ τ0) by (by apply map_disjoint_union_r in Hd1 as [? _]).
  pose proof (Hc1 (meta_laws rs) n s2 τ0 (conj Hd Hmeta)) as St. assert (Hfr : framed (L := index_laws rs i []) τ0 ps n s2 ∅).
  { split; [apply map_disjoint_empty_r|]. by rewrite map_union_empty. }
  exists rs, [], ∅, (Some ac_empty), ∅, ∅, ∅. split; cbn [fst snd]; try done.
  - apply (holds_fresh (L := index_laws rs i []) (F := index_frees rs i []) ps (for_page_size ps) (Some c) (Some ac_empty)); [by apply Hc0|]. by intros A [= <-].
  - split; [by left|]. exists c. split; [done|by left].
Qed.
End Open.
