(* ===== verification/PagedTheorems.v ===== *)
(** * The paged store refines rows of versions

    A client's calls of a new paged store, over the buffer pool over a page file,
    and the answers of the rows of [Versions]: they agree on every sequence. *)

From stdpp Require Import base tactics list numbers gmap.
From Stdlib Require Import ZArith Lia.
From S2P Require Import Prelude Turns Bytes Errors PageFormat PageStore PageStoreSpec Slotted Pager Pool PoolShard PoolSpec PoolAccess PoolPager PoolInvariants PoolRuns PoolTheorems PoolFrees BTreeTheorems.
From S2P Require Import Keys BTreeNode BTree BTreeTheory BTreeTheorems BTreeClient Catalog CatalogSpec Overflow OverflowSpec Heap HeapPage HeapSpec HeapValues Mvcc MvccOutcomes.
From S2P Require Import Paged Versions PagedPages PagedChains PagedSpec PagedScan.
Local Open Scope Z_scope.
Local Open Scope bic_scope.

(** ** Calls *)

Section Client.
Context {S : Type} {P : Pager S} {T : PagerTags S} (buffers : nat -> Z).
Abbreviation pst := (st PageError (S * PagedStore)).

Definition store_exec (turns : nat) (op : StoreOp) : pst StoreAnswer :=
  match op with
  | SBegin => do x <- store_begin ;; st_ret (AXid x)
  | SPut x key value => do u <- store_put buffers turns x key value ;; st_ret ADone
  | SDelete x key => do b <- store_delete buffers turns x key ;; st_ret (AFlag b)
  | SGet key => do o <- store_get buffers turns key ;; st_ret (AValue o)
  | SGetAsOf snapshot key => do o <- get_as_of buffers turns snapshot key ;; st_ret (AValue o)
  | SScanFrom snapshot start => do l <- scan_all buffers turns snapshot start ;; st_ret (ARows l)
  | SCommit x => do u <- commit_outcome x ;; st_ret ADone
  | SAbort x => do u <- abort_outcome x ;; st_ret ADone
  end.

(** A sequence of calls; one that fails is followed by the next. *)
Fixpoint store_runs (turns : nat) (ops : list StoreOp) : pst (list (pres StoreAnswer)) :=
  match ops with
  | [] => st_ret []
  | op :: ops' => do a <- caught (store_exec turns op) ;; do rest <- store_runs turns ops' ;; st_ret (a :: rest)
  end.
End Client.

(** ** The simulation *)

(** What a caller sees to: identifiers of 64 bits, values the heap gives back
    whole and whose tuples take at most [mx] pages. *)
Definition store_ok (ps : Z) (mx : nat) (op : StoreOp) : Prop :=
  match op with
  | SPut x _ value => ver_ok ps (for_page_size ps) mx (mkVer x 0 value)
  | SDelete x _ => is_u64 x
  | _ => True
  end.
(** Pages a call may take. *)
Definition store_cost (mx : nat) (op : StoreOp) : nat :=
  match op with
  | SPut _ _ _ => mx + (131 + (mx + (131 + 65)))
  | SDelete _ _ => mx + 131
  | _ => 0
  end.

Lemma for_page_inline ps : 512 <= ps <= 65536 -> 0 <= inline_limit (for_page_size ps) /\ inline_limit (for_page_size ps) + 1 + SLOT_BYTES <= ps - 72.
Proof. intros Hps. cbn [for_page_size inline_limit]. unfold usable_bytes, PAGE_HEADER_BYTES, PAGE_TRAILER_BYTES, SLOT_BYTES. pose proof (Z.div_mod (ps - 64 - 8) 4). pose proof (Z.mod_pos_bound (ps - 64 - 8) 4). lia. Qed.

Section Simulation.
Context {S : Type} {P : Pager S} {L : PagerLaws S} {F : PagerFrees S} {T : PagerTags S} {TL : PagerTagLaws S}.
Context (ps : Z) (mx : nat) (buffers : nat -> Z).
Hypothesis Hps : 512 <= ps <= 65536.
Hypothesis Hbuffers : forall i, 0 < buffers i.
Abbreviation rep := (rep ps (for_page_size ps) mx).

Lemma exec_answer {A} (m : nat -> st PageError (S * PagedStore) A) (f : A -> StoreAnswer) w (r : pres A) w' : settles m w r w' -> settles (fun t => do a <- m t ;; st_ret (f a)) w (let! a := r in Val (f a)) w'.
Proof. intros E. eapply settles_then; [exact E|]. destruct r; [by apply settles_const|done|done]. Qed.

Lemma blur_answer {A} (f : A -> StoreAnswer) (r : pres A) : blur (let! a := r in Val (f a)) = answer f (blur r).
Proof. by destruct r. Qed.

Lemma store_exec_spec op k n w R : rep k (store_cost mx op + n) w R -> 0 <= k /\ k + 2 < U32 -> store_ok ps mx op ->
  exists r w', settles (fun t => store_exec buffers t op) w r w' /\ blur r = fst (rows_exec ps op R) /\ rep (k + 2) n w' (snd (rows_exec ps op R)).
Proof.
  intros Hr Hk Hok. pose proof (for_page_inline ps Hps) as Hin. destruct op as [|x key value|x key|key|snapshot key|snapshot start|x|x]; cbn [store_exec rows_exec store_cost store_ok] in *.
  - destruct (store_begin_spec _ _ _ _ _ _ _ Hr) as (w' & E & Hr'). destruct (rows_begin R) as [[x s] R'] eqn:Eb. exists (Val (AXid x)), w'. ands; [|done|eapply rep_weaken, Hr'; lia].
    apply (exec_answer _ AXid _ (Val x)). by apply settles_const.
  - destruct (put_spec ps _ mx Hps Hin buffers Hbuffers x key value k n w R) as (r & w' & E & Hb & Hr'); [|done|apply Hok|done|].
    { eapply rep_weaken, Hr; lia. }
    destruct (rows_put ps x key value R) as [a R']. eexists _, w'. ands; [by apply (exec_answer _ (fun _ => ADone))|by rewrite blur_answer, Hb|done].
  - destruct (store_delete_spec ps _ mx Hps Hin buffers Hbuffers x key k n w R) as (r & w' & E & Hb & Hr'); [|lia|done|].
    { eapply rep_weaken, Hr; lia. }
    destruct (rows_delete x key R) as [a R']. eexists _, w'. ands; [by apply exec_answer|by rewrite blur_answer, Hb|eapply rep_weaken, Hr'; lia].
  - destruct (store_get_spec ps _ mx Hps buffers Hbuffers key _ _ _ _ Hr) as (r & w' & E & Hb & Hr'). eexists _, w'. ands; [by apply exec_answer|by rewrite blur_answer, Hb|eapply rep_weaken, Hr'; lia].
  - destruct (get_as_of_spec ps _ mx Hps buffers Hbuffers snapshot key _ _ _ _ Hr) as (r & w' & E & Hb & Hr'). eexists _, w'. ands; [by apply exec_answer|by rewrite blur_answer, Hb|eapply rep_weaken, Hr'; lia].
  - destruct w as [s p], Hr as (rs & es & σ & oA & H & G & C & Hl). destruct (scan_all_spec ps _ mx Hps buffers Hbuffers _ _ p R rs es σ oA H G C snapshot s start Hl) as (r & s' & E & Hl' & Hb).
    eexists _, (s', p). ands; [by apply exec_answer|by rewrite blur_answer, Hb|]. eapply (rep_weaken _ _ _ k); [lia| |by exists rs, es, σ, oA, H, G, C]. lia.
  - destruct (settle_spec _ _ _ commit x _ _ _ _ (commit_exceptions x) Hr) as (w' & E & Hr'). exists (Val ADone), w'. ands; [|done|eapply rep_weaken, Hr'; lia]. apply (exec_answer _ (fun _ => ADone) _ (Val tt)). by apply settles_const.
  - destruct (settle_spec _ _ _ abort x _ _ _ _ (abort_keeps_exceptions x) Hr) as (w' & E & Hr'). exists (Val ADone), w'. ands; [|done|eapply rep_weaken, Hr'; lia]. apply (exec_answer _ (fun _ => ADone) _ (Val tt)). by apply settles_const.
Qed.

Lemma store_runs_spec ops : forall k n w R, rep k (sum_list (store_cost mx <$> ops) + n) w R -> 0 <= k -> k + 2 * Z.of_nat (length ops) < U32 -> Forall (store_ok ps mx) ops ->
  exists answers w', settles (fun t => store_runs buffers t ops) w (Val answers) w' /\ blur <$> answers = fst (rows_runs ps ops R) /\
    rep (k + 2 * Z.of_nat (length ops)) n w' (snd (rows_runs ps ops R)).
Proof.
  induction ops as [|op ops IH]; intros k n w R Hr Hk Hlen Hok.
  - exists [], w. ands; [by apply settles_const|done|]. eapply rep_weaken, Hr; cbn; lia.
  - apply Forall_cons in Hok as [Hop Hok]. cbn [fmap list_fmap sum_list length] in *. rewrite <- Nat.add_assoc in Hr.
    destruct (store_exec_spec op k _ w R Hr ltac:(lia) Hop) as (r & w1 & E1 & Hb & Hr1). cbn [rows_runs]. destruct (rows_exec ps op R) as [a R1]. cbn [fst snd] in Hb, Hr1.
    destruct (IH (k + 2) n w1 R1 Hr1 ltac:(lia) ltac:(lia) Hok) as (answers & w2 & E2 & Ha & Hr2). destruct (rows_runs ps ops R1) as [rest R2]. cbn [fst snd] in *.
    exists (r :: answers), w2. ands; [|cbn; by rewrite Hb, Ha|replace (k + 2 * _) with (k + 2 + 2 * Z.of_nat (length ops)) by lia; done].
    eapply settles_bind; [by apply caught_settled|]. cbv beta. eapply settles_bind; [exact E2|]. by apply settles_const.
Qed.
End Simulation.

(** ** On the buffer pool *)

Section OnPool.
Context {B : Type}.
Variable before_writeback : Z -> Z -> bytes -> st PageError B unit.
Variable crc32 : bytes -> Z.
Variable hash_order : gmap Z Frame -> list Z.
Hypothesis Hbarrier : forall p t b w, exists w', before_writeback p t b w = (Val tt, w').
Hypothesis Hcrc : forall l, is_u32 (crc32 l).
Hypothesis Hhash : forall m, hash_order m ≡ₚ (map_to_list m).*1.
Abbreviation pager := (pool_pager before_writeback crc32 hash_order).
Abbreviation managed := (managed_laws before_writeback crc32 hash_order Hbarrier Hcrc Hhash).

(** [put] and [delete] name the writer with the pool's [set_current_transaction]. *)
#[local] Instance pool_tags : PagerTags (BufferPool B) := set_current_transaction.

#[local] Instance pool_tag_laws fixed : @PagerTagLaws _ pager (managed fixed) pool_tags.
Proof.
  intros ps n x σ t (τ & W). set (x' := with_modes t (bp_wal_managed_frees x) (bp_read_ahead_drivers x) x). exists x'. split; [done|]. exists τ. destruct W as [M]. split; try done.
  destruct M as (fl & Rest & Hps & Hn & Hσ). assert (SP : same_pool x x') by done. eapply models_view; try done; [by eapply same_pool_rest|]. by apply quiet_view, same_pool_quiet.
Qed.

(** A pool with nothing published takes a meta page and keeps it as its root. *)
Lemma fresh_meta_spec ps n x : pool_managed crc32 0 ps (1 + n) x ∅ ->
  exists m b x', @fresh_meta _ pager x = (Val m, x') /\ pool_managed crc32 m ps n x' {[m := b]} /\ blen b = ps /\ is_u64 m.
Proof.
  intros (τ & W). pose proof W as [M _ _ _ Hmode Wt].
  destruct (@pg_allocate_law _ _ (pool_laws before_writeback crc32 hash_order Hbarrier Hcrc Hhash) ps n x τ Heap M) as (m & b & x1 & E1 & Hm & H0 & Hu & Hb & M1); [done..|].
  destruct (@pg_publish_law _ _ _ (pool_publishes before_writeback crc32 hash_order Hbarrier Hcrc Hhash) ps n x1 _ m 0 M1 Hu) as (x2 & E2 & M2 & Hr); [done|].
  assert (F1 : frees_of x1 = frees_of x) by (cbn in E1; unfold on_store in E1; destruct (allocate crc32 Heap (bp_store x)); by injection E1 as _ <-).
  assert (F2 : frees_of x2 = frees_of x1) by (cbn in E2; unfold on_store in E2; destruct (publish_root crc32 m 0 (bp_store x1)); by injection E2 as _ <-).
  rewrite F1 in F2. injection F2 as G1 G2 G3. exists m, b, x2. split; [|split; [|done]].
  - unfold fresh_meta. unfold st_bind at 1. rewrite E1. unfold st_bind at 1. by rewrite E2.
  - exists (<[m := b]> τ). split; try done.
    + apply map_subseteq_spec. intros q d [<- <-]%lookup_singleton_Some. apply lookup_insert_eq.
    + right. by rewrite lookup_insert_eq.
    + by rewrite G1, G2.
    + intros t l q. rewrite G3. intros Hl Hq. destruct (Wt t l q Hl Hq) as [_ W2]. assert (m <> q) by (intros ->; rewrite Hm in W2; by destruct W2).
      by rewrite lookup_singleton_ne, lookup_insert_ne.
Qed.

Context (ps : Z) (mx : nat) (buffers : nat -> Z) (ops : list StoreOp) (t : TableInner) (spill : Z * Z * Z) (x : BufferPool B).
Hypothesis Hps : 512 <= ps <= 65536.
Hypothesis Hbuffers : forall i, 0 < buffers i.
Hypothesis Hops : Forall (store_ok ps mx) ops.
Hypothesis Hlength : 2 * Z.of_nat (length ops) < U32.
Hypothesis Htable : Z.of_nat (length (abort_exceptions_list t)) <= Paged.abort_exception_capacity ps.
Hypothesis Hpool : pool_managed crc32 0 ps (3 + sum_list (store_cost mx <$> ops)) x ∅.

(** The run of a new store, its answers, its table and what it leaves room for. *)
Lemma pool_store_leaves n : pool_managed crc32 0 ps (3 + (sum_list (store_cost mx <$> ops) + n)) x ∅ ->
  exists m p x1 x2 answers w, @fresh_meta _ pager x = (Val m, x1) /\ @assemble _ pager true m ps 0 0 t spill x1 = (Val p, x2) /\
    settles (fun turns => @store_runs _ pager pool_tags buffers turns ops) (x2, p) (Val answers) w /\
    blur <$> answers = fst (rows_runs ps ops (mkRows t ∅ ∅)) /\
    @rep _ pager (managed m) (managed_frees before_writeback crc32 hash_order Hbarrier Hcrc Hhash m) ps (for_page_size ps) mx (2 * Z.of_nat (length ops)) n w (snd (rows_runs ps ops (mkRows t ∅ ∅))).
Proof.
  intros Hroom. destruct (fresh_meta_spec ps (2 + (sum_list (store_cost mx <$> ops) + n)) x Hroom) as (m & b & x1 & E1 & M1 & Hb & Hu).
  destruct (@assemble_spec _ pager (managed m) (managed_frees before_writeback crc32 hash_order Hbarrier Hcrc Hhash m) ps mx Hps (sum_list (store_cost mx <$> ops) + n) x1 b t spill M1 Hb Hu Htable) as (p & x2 & E2 & Hr).
  destruct (@store_runs_spec _ pager (managed m) (managed_frees before_writeback crc32 hash_order Hbarrier Hcrc Hhash m) pool_tags (pool_tag_laws m) ps mx buffers Hps Hbuffers ops 0 n (x2, p) (mkRows t ∅ ∅))
    as (answers & w & E3 & Ha & Hr'); [done|done|lia|done|]. exists m, p, x1, x2, answers, w. by ands.
Qed.
Lemma pool_store_runs :
  exists m p x1 x2 answers w, @fresh_meta _ pager x = (Val m, x1) /\ @assemble _ pager true m ps 0 0 t spill x1 = (Val p, x2) /\
    settles (fun turns => @store_runs _ pager pool_tags buffers turns ops) (x2, p) (Val answers) w /\
    blur <$> answers = fst (rows_runs ps ops (mkRows t ∅ ∅)) /\ pd_transactions (snd w) = rw_table (snd (rows_runs ps ops (mkRows t ∅ ∅))).
Proof.
  destruct (pool_store_leaves 0) as (m & p & x1 & x2 & answers & w & E1 & E2 & E3 & Ha & rs & es & σ & oA & H & G & C & Hl); [by rewrite Nat.add_0_r|].
  exists m, p, x1, x2, answers, w. ands; try done. exact (ld_table _ _ _ _ _ _ _ _ _ _ _ _ _ _ _ Hl).
Qed.

End OnPool.

(** ** Witness *)

#[export] Instance demo_tags : PagerTags (BufferPool (list (Z * bytes))) := pool_tags.
Definition demo_table : TableInner := with_exception_capacity (Paged.abort_exception_capacity 512).

(** Two rows are written, one is replaced, one deleted; a second writer of a row
    is turned away; a row that was deleted is written again and rolled back. *)
Definition demo_store_ops : list StoreOp :=
  [SBegin; SPut 1 [7] [1]; SPut 1 [8] (replicate 200 3); SCommit 1; SBegin; SBegin; SPut 2 [8] [4]; SPut 3 [8] [5]; SDelete 2 [7]; SPut 2 [] [1];
   SCommit 2; SScanFrom (mkSnapshot 3 3 {[2]}) []; SGet [7]; SGet [8]; SAbort 3; SBegin; SPut 4 [7] [2]; SAbort 4; SGet [7]].

Lemma demo_store_ops_ok : Forall (store_ok 512 1) demo_store_ops.
Proof.
  repeat (apply Forall_cons; split; [cbn [store_ok]; first [done|by vm_compute|split; cbn [ve_xmin ve_xmax ve_value]; first [by vm_compute|apply Forall_replicate; widths; lia|repeat constructor; widths; lia|vm_compute; lia]]|]).
  by apply Forall_nil.
Qed.

