(* ===== verification/IsolationTheorems.v ===== *)
(** * Snapshot isolation of the paged store

    The answers of the store, put down to the log of the writes it accepted. *)

From stdpp Require Import base tactics list numbers gmap.
From Stdlib Require Import ZArith Lia.
From S2P Require Import Prelude Turns Bytes Errors PageFormat PageStore Pager Pool PoolShard PoolRuns PoolTheorems PoolPager PoolFrees BTreeTheorems Keys Heap HeapValues Mvcc MvccSpec MvccTheorems.
From S2P Require Import Paged Versions Isolation PagedTheorems.
From S2P Require Import PagedPages PagedChains PagedSpec PagedScan.
Local Open Scope Z_scope.
Local Open Scope bic_scope.

(** ** Rows stay short *)

Lemma base_suffix left t x c base : base_of left t x c = Val base -> exists up, c = up ++ base.
Proof.
  revert left. induction c as [|v c IH]; intros left E; cbn [base_of] in E; [injection E as <-; by exists []|]. destruct (left <=? 0); [injection E as <-; by exists []|].
  destruct (_ || _); [injection E as <-; by exists []|]. destruct (tx_status t (ve_xmin v)) as [r|e|]; [|done|done]. cbn [res_bind] in E. case_bool_decide; [|injection E as <-; by exists []].
  destruct (IH _ E) as [up ->]. by exists (v :: up).
Qed.
Lemma length_stamp x c : length (stamp x c) = length c.
Proof. by destruct c. Qed.

Lemma row_grows ps op R k : (length (row (snd (rows_exec ps op R)) k) <= Datatypes.S (length (row R k)))%nat.
Proof.
  assert (Hset : forall k' c, (length c <= Datatypes.S (length (row R k')))%nat -> (length (row (set_row k' c R) k) <= Datatypes.S (length (row R k)))%nat).
  { intros k' c Hc. unfold row at 1, set_row. cbn [rw_rows]. destruct (decide (k = k')) as [->|Hne]; [by rewrite lookup_insert_eq|]. rewrite lookup_insert_ne by done. unfold row. lia. }
  destruct op as [|x k' v|x k'|k'|s k'|s start|x|x]; cbn [rows_exec]; try (cbn; unfold row; cbn; lia).
  - unfold rows_put. destruct (base_of _ _ _ _) as [base|e|] eqn:E; [|cbn; lia|cbn; lia]. apply base_suffix in E as [up E]. destruct (check_base _ _ _ _); [|cbn; lia|cbn; lia].
    destruct (refused ps k'); cbn [snd]; [lia|]. apply Hset. cbn [length]. rewrite length_stamp, E, length_app. lia.
  - unfold rows_delete. destruct (base_of _ _ _ _) as [[|w base]|e|] eqn:E; [cbn; lia| |cbn; lia|cbn; lia]. apply base_suffix in E as [up E].
    destruct (rows_read _ _ _) as [[value|]|e|]; [|cbn; lia..]. destruct (check_base _ _ _ _); [|cbn; lia|cbn; lia]. cbn [snd]. apply Hset.
    rewrite length_app, length_stamp. unfold above. rewrite length_take, E, length_app. lia.
Qed.

Lemma rows_short ps ops : forall R k, (length (row (snd (rows_runs ps ops R)) k) <= length ops + length (row R k))%nat.
Proof.
  induction ops as [|op ops IH]; intros R k; [done|]. cbn [rows_runs length]. pose proof (row_grows ps op R k) as H1. destruct (rows_exec ps op R) as [a R1]. specialize (IH R1 k).
  destruct (rows_runs ps ops R1) as [r R2]. cbn [snd] in *. lia.
Qed.

Lemma run_short ps ops t k : Z.of_nat (length ops) <= MAX_VERSION_CHAIN -> Z.of_nat (length (row (gh_rows (gh_run ps ops (gh_new t))) k)) <= MAX_VERSION_CHAIN.
Proof. intros H. rewrite gh_run_rows. pose proof (rows_short ps ops (gh_rows (gh_new t)) k) as Hs. assert (E : row (gh_rows (gh_new t)) k = []) by done. rewrite E in Hs. cbn [length] in Hs. lia. Qed.

(** ** Scans *)

(** The rows of the log from [start] on, as seen by [vis]. *)
Definition log_scan (vis : Z -> bool) (start : bytes) (G : Ghost) : list (bytes * bytes) :=
  omap (fun k => (fun v => (k, v)) <$> log_read vis (written G k)) (keys_from start (gh_rows G)).

Lemma orderly_scan G s start : gh_ok G -> orderly (SScanFrom s start) G = true -> (forall k, Z.of_nat (length (row (gh_rows G) k)) <= MAX_VERSION_CHAIN) ->
  rows_scan s start (gh_rows G) = Val (log_scan (vis_of (gh_table G) s) start G).
Proof.
  intros Hok Ho Hlen. unfold rows_scan, log_scan. induction (keys_from start (gh_rows G)) as [|k l IH]; [done|]. cbn [fmap list_fmap scan_rows omap list_omap].
  pose proof (orderly_read G s k Hok Ho (Hlen k)) as Hr. unfold rows_read in Hr. rewrite Hr. cbn [res_bind]. rewrite IH. cbn [res_bind]. by destruct (log_read _ _).
Qed.

(** ** The log, from the answers *)

Definition log_answer (op : StoreOp) (a : pres StoreAnswer) (L : gmap bytes (list write)) : gmap bytes (list write) :=
  match op, a with
  | SPut x k v, Val _ => <[k := (x, Some v) :: default [] (L !! k)]> L
  | SDelete x k, Val (AFlag true) => <[k := (x, None) :: default [] (L !! k)]> L
  | _, _ => L
  end.
Fixpoint logged (ops : list StoreOp) (answers : list (pres StoreAnswer)) (L : gmap bytes (list write)) : gmap bytes (list write) :=
  match ops, answers with
  | op :: ops', a :: answers' => logged ops' answers' (log_answer op a L)
  | _, _ => L
  end.

Lemma log_answer_step ps op a G : blur a = fst (rows_exec ps op (gh_rows G)) -> gh_log (gh_step ps op G) = log_answer op a (gh_log G).
Proof.
  unfold gh_step. destruct (rows_exec ps op (gh_rows G)) as [a' R]. cbn [fst]. intros <-. destruct op, a as [[]| |]; try done. by destruct b.
Qed.
Lemma logged_run ps ops : forall answers G, blur <$> answers = fst (rows_runs ps ops (gh_rows G)) -> gh_log (gh_run ps ops G) = logged ops answers (gh_log G).
Proof.
  induction ops as [|op ops IH]; intros answers G E; [done|]. cbn [rows_runs] in E. pose proof (gh_step_rows ps op G) as HR. pose proof (log_answer_step ps op) as Hlog.
  specialize (IH (tail answers) (gh_step ps op G)). rewrite HR in IH. destruct (rows_exec ps op (gh_rows G)) as [a R] eqn:Er. cbn [snd] in IH. destruct (rows_runs ps ops R) as [rest R2]. cbn [fst] in *.
  destruct answers as [|a0 answers]; [done|]. injection E as E1 E2. cbn [logged tail] in *. rewrite <- (Hlog a0 G); [by apply IH|]. by rewrite Er.
Qed.

(** ** When a writer began *)

(** What the calls say of the transactions of a run from [t0]. *)
Record told (t0 : TableInner) (ops : list StoreOp) (answers : list (fres StoreAnswer)) (G : Ghost) : Prop := {
  to_next : next_xid t0 <= next_xid (gh_table G);
  to_live x : x ∈ in_progress (gh_table G) -> next_xid t0 <= x;
  to_log k e : e ∈ written G k -> next_xid t0 <= fst e;
  to_commit y : next_xid t0 <= y -> committed (gh_table G) y -> settled (gh_table G) y -> exists i, ops !! i = Some (SCommit y);
  to_begin s : s ∈ gh_issued G -> snap_xid s <> 0 ->
    exists j, ops !! j = Some SBegin /\ answers !! j = Some (Val (AXid (snap_xid s))) /\
      forall y, next_xid t0 <= y -> done_by s y -> committed (gh_table G) y -> exists i, (i < j)%nat /\ ops !! i = Some (SCommit y)
}.

Lemma told_new t0 : tinv t0 -> in_progress t0 = ∅ -> told t0 [] [] (gh_new t0).
Proof.
  intros Hi Hp. split; cbn; try done.
  - intros x. unfold gh_table. cbn. rewrite Hp. set_solver.
  - intros k e. unfold written. cbn. rewrite lookup_empty. by intros ?%not_elem_of_nil.
  - intros y Hy _ [? _]. unfold gh_table in *. cbn in *. lia.
  - by intros s ?%not_elem_of_nil.
Qed.

(** A call that leaves the outcomes alone, or settles one. *)
Lemma told_later t0 ops answers op a G G' : gh_ok G -> told t0 ops answers G -> later (gh_table G) (gh_table G') -> length answers = length ops ->
  (forall x, x ∈ in_progress (gh_table G') -> x ∈ in_progress (gh_table G) \/ x = next_xid (gh_table G)) ->
  (forall k e, e ∈ written G' k -> e ∈ written G k \/ next_xid t0 <= fst e) ->
  (forall y, ~ settled (gh_table G) y -> settled (gh_table G') y -> committed (gh_table G') y -> op = SCommit y) ->
  (forall s, s ∈ gh_issued G' -> s ∈ gh_issued G \/ snap_xid s = 0 \/ (taken (gh_table G) s /\ op = SBegin /\ a = Val (AXid (snap_xid s)))) ->
  told t0 (ops ++ [op]) (answers ++ [a]) G'.
Proof.
  intros Hok [H1 H2 H3 H4 H5] Hl Hlen Hip Hlog Hnew Hiss. pose proof Hl as (_ & Hn & Hs). pose proof (go_traced G Hok) as Ht.
  assert (Hc : forall y, next_xid t0 <= y -> committed (gh_table G) y -> settled (gh_table G) y -> exists i, (i < length ops)%nat /\ (ops ++ [op]) !! i = Some (SCommit y)).
  { intros y Hy Hcy Hsy. destruct (H4 y Hy Hcy Hsy) as [i Hi]. exists i. pose proof (lookup_lt_Some _ _ _ Hi). split; [done|]. by apply lookup_app_l_Some. }
  split.
  - lia.
  - intros x Hx. destruct (Hip x Hx) as [?| ->]; [by apply H2|lia].
  - intros k e He. destruct (Hlog k e He) as [?|?]; [by eapply H3|done].
  - intros y Hy Hcy Hsy. destruct (decide (settled (gh_table G) y)) as [Hs0|Hs0].
    + destruct (Hc y Hy) as (i & _ & Hi); [by apply Hs|done|by exists i].
    + exists (length ops). rewrite (Hnew y Hs0 Hsy Hcy). rewrite lookup_app_r, Nat.sub_diag by done. done.
  - intros s Hin Hne. destruct (Hiss s Hin) as [Hold|[?|(Htk & -> & ->)]]; [|done|].
    + destruct (H5 s Hold Hne) as (j & E1 & E2 & Hj). exists j. pose proof (lookup_lt_Some _ _ _ E1). ands; [by apply lookup_app_l_Some|by apply lookup_app_l_Some|].
      intros y Hy Hd Hcy. destruct (Hj y Hy Hd) as (i & Hi & Ei); [apply (Hs y); [by eapply (tr_done _ _ Ht)|done]|]. exists i. split; [done|]. by apply lookup_app_l_Some.
    + exists (length ops). ands; [by rewrite lookup_app_r, Nat.sub_diag|by rewrite lookup_app_r, Hlen, Nat.sub_diag by lia|].
      intros y Hy Hd%(taken_done _ _ _ Htk) Hcy. apply (Hc y); [done|by apply (Hs y)|done].
Qed.

Lemma live_not_settled t x : x ∈ in_progress t -> ~ settled t x.
Proof. by intros Hx [_ ?]. Qed.

(** A transaction that settles in a step was live before it. *)
Lemma was_live G t' y : gh_ok G -> ~ settled (gh_table G) y -> settled t' y -> next_xid t' = next_xid (gh_table G) -> y ∈ in_progress (gh_table G).
Proof. intros Hok Hn [Hr Hnp] E. destruct (decide (y ∈ in_progress (gh_table G))); [done|]. destruct Hn. split; [lia|done]. Qed.

Lemma log_grows ps op G k e : orderly op G = true -> e ∈ written (gh_step ps op G) k -> e ∈ written G k \/ fst e ∈ in_progress (gh_table G).
Proof.
  unfold gh_step. destruct (rows_exec ps op (gh_rows G)) as [a R].
  assert (Hlog : forall k' w I, fst w ∈ in_progress (gh_table G) -> e ∈ written (mkGhost R (log_write k' w G) I) k -> e ∈ written G k \/ fst e ∈ in_progress (gh_table G)).
  { intros k' w I Hw. unfold written at 1. cbn [gh_log]. unfold log_write. destruct (decide (k = k')) as [->|Hne]; [|rewrite lookup_insert_ne by done; by left].
    rewrite lookup_insert_eq. intros [->|Hin]%elem_of_cons; [by right|by left]. }
  destruct op as [|x k' v|x k'|k'|s k'|s start|x|x]; try by left.
  - intros [Hx%bool_decide_eq_true _]%andb_true_iff. destruct a; [by apply Hlog|by left|by left].
  - intros [Hx%bool_decide_eq_true _]%andb_true_iff. destruct a as [[| |[]| |]| |]; try by left. by apply Hlog.
Qed.

Lemma told_step ps t0 ops answers op G : gh_ok G -> told t0 ops answers G -> length answers = length ops -> orderly op G = true ->
  told t0 (ops ++ [op]) (answers ++ [fst (rows_exec ps op (gh_rows G))]) (gh_step ps op G).
Proof.
  intros Hok Hto Hlen Ho. pose proof (go_traced G Hok) as Ht. pose proof (tr_inv _ _ Ht) as Hi. pose proof (gh_step_rows ps op G) as HR.
  assert (Hlog : forall k e, e ∈ written (gh_step ps op G) k -> e ∈ written G k \/ next_xid t0 <= fst e).
  { intros k e He. destruct (log_grows ps op G k e Ho He) as [?|Hx]; [by left|right]. by apply (to_live _ _ _ _ Hto). }
  assert (Hsame : gh_table (gh_step ps op G) = gh_table G -> (forall s, s ∈ gh_issued (gh_step ps op G) -> s ∈ gh_issued G \/ snap_xid s = 0) ->
    told t0 (ops ++ [op]) (answers ++ [fst (rows_exec ps op (gh_rows G))]) (gh_step ps op G)).
  { intros E HI. eapply told_later; try done; rewrite ?E; [by apply later_refl|by left|done|]. intros s Hs. destruct (HI s Hs); auto. }
  assert (Htab : forall R : Rows, rw_table R = gh_table G -> forall k c, rw_table (set_row k c R) = gh_table G) by done.
  destruct op as [|x k v|x k|k|s k|s start|x|x].
  - apply Z.ltb_lt in Ho. destruct (later_begin (gh_table G) Hi Ho) as [Hl Hn].
    assert (Et : gh_table (gh_step ps SBegin G) = snd (begin_tx (gh_table G))) by done. eapply told_later; try done; rewrite ?Et.
    + intros x Hx. change (x ∈ {[next_xid (gh_table G)]} ∪ in_progress (gh_table G)) in Hx. set_solver.
    + intros y Hns [Hr Hnp] Hc. destruct Hns. change (y ∉ {[next_xid (gh_table G)]} ∪ in_progress (gh_table G)) in Hnp. apply not_elem_of_union in Hnp as [H1%not_elem_of_singleton H2]. split; [lia|done].
    + intros s Hs. change (s ∈ snd (fst (begin_tx (gh_table G))) :: gh_issued G) in Hs. apply elem_of_cons in Hs as [->|Hs]; [|by left]. right. right. split; [by right|]. done.
  - unfold gh_step in *. cbn [rows_exec] in *. unfold rows_put in *. repeat case_match; simplify_eq; cbn [answer res_bind fst snd] in *; (apply Hsame; [done|by left]).
  - unfold gh_step in *. cbn [rows_exec] in *. unfold rows_delete in *. repeat case_match; simplify_eq; cbn [answer res_bind fst snd] in *; (apply Hsame; [done|by left]).
  - apply Hsame; [done|]. intros s Hs. change (s ∈ latest_snapshot (gh_table G) :: gh_issued G) in Hs. apply elem_of_cons in Hs as [->|Hs]; [by right|by left].
  - apply Hsame; [done|by left].
  - apply Hsame; [done|by left].
  - apply bool_decide_eq_true in Ho. assert (Et : gh_table (gh_step ps (SCommit x) G) = commit x (gh_table G)) by done. eapply told_later; try done; rewrite ?Et; [by apply later_commit| | |by left].
    + intros y Hy. change (y ∈ in_progress (gh_table G) ∖ {[x]}) in Hy. set_solver.
    + intros y Hns Hs Hc. pose proof (was_live G _ y Hok Hns Hs eq_refl) as Hy. destruct Hs as [_ Hnp]. change (y ∉ in_progress (gh_table G) ∖ {[x]}) in Hnp. destruct (decide (y = x)) as [->|]; [done|set_solver].
  - apply bool_decide_eq_true in Ho. assert (Et : gh_table (gh_step ps (SAbort x) G) = abort x (gh_table G)) by done. eapply told_later; try done; rewrite ?Et; [by apply later_abort| | |by left].
    + intros y. rewrite abort_live by done. cbn. set_solver.
    + intros y Hns Hs Hc. assert (Hy : y ∈ in_progress (gh_table G)) by (eapply was_live; [done|done|exact Hs|by rewrite abort_live]). exfalso.
      assert (y = x) as -> by (destruct Hs as [_ Hnp]; rewrite abort_live in Hnp by done; cbn in Hnp; destruct (decide (y = x)); [done|set_solver]).
      destruct (later_abort _ x Hi Ho) as (Hi' & _). pose proof (live_range _ x Hi Ho). apply (committed_iff _ x Hi') in Hc; [|lia]. rewrite abort_live in Hc by done. cbn in Hc.
      pose proof (ti_range _ Hi x Ho). destruct Hc as [[? _]|[_ Hc]]; [lia|]. unfold terminal_status, resident_terminal_status in Hc. cbn in Hc. by rewrite lookup_insert_eq in Hc.
Qed.

Lemma rows_answers ps ops R : length (fst (rows_runs ps ops R)) = length ops.
Proof. revert R. induction ops as [|op ops IH]; intros R; [done|]. cbn. destruct (rows_exec ps op R) as [a R1]. specialize (IH R1). destruct (rows_runs ps ops R1). cbn in *. by rewrite IH. Qed.

Lemma told_run ps t0 ops : tinv t0 -> in_progress t0 = ∅ -> orderly_run ps ops (gh_new t0) = true ->
  told t0 ops (fst (rows_runs ps ops (mkRows t0 ∅ ∅))) (gh_run ps ops (gh_new t0)) /\ gh_ok (gh_run ps ops (gh_new t0)).
Proof.
  intros Hi Hp. induction ops as [|op ops IH] using rev_ind; intros Ho; [split; [by apply told_new|by apply gh_new_ok]|]. rewrite orderly_run_app in Ho. apply andb_true_iff in Ho as [Ho1 Ho2].
  destruct (IH Ho1) as [Hto Hok]. cbn [orderly_run] in Ho2. rewrite andb_true_r in Ho2. assert (Eg : gh_run ps (ops ++ [op]) (gh_new t0) = gh_step ps op (gh_run ps ops (gh_new t0))) by (unfold gh_run; by rewrite foldl_app).
  rewrite Eg. split; [|by apply gh_step_ok]. rewrite rows_runs_app. pose proof (gh_run_rows ps ops (gh_new t0)) as HR. cbn [gh_new gh_rows] in HR. rewrite <- HR.
  pose proof (told_step ps t0 ops _ op _ Hok Hto (rows_answers ps ops _) Ho2) as Hst. cbn [rows_runs]. by destruct (rows_exec ps op _).
Qed.

Lemma logged_take ops : forall answers L, logged ops (take (length ops) answers) L = logged ops answers L.
Proof. induction ops as [|op ops IH]; intros [|a answers] L; try done. cbn [length take logged]. apply IH. Qed.

Lemma blur_val {A} (r : pres A) a : blur r = Val a -> r = Val a.
Proof. by destruct r; intros [= ->]. Qed.

(** The three reads at the end of an orderly run. *)
Lemma reads_after ps ops s key start t : tinv t -> in_progress t = ∅ -> Z.of_nat (length ops) <= MAX_VERSION_CHAIN ->
  orderly_run ps (ops ++ [SGetAsOf s key; SScanFrom s start; SGet key]) (gh_new t) = true -> let G := gh_run ps ops (gh_new t) in
  fst (rows_runs ps [SGetAsOf s key; SScanFrom s start; SGet key] (gh_rows G)) =
    [Val (AValue (log_read (vis_of (gh_table G) s) (written G key))); Val (ARows (log_scan (vis_of (gh_table G) s) start G));
     Val (AValue (log_read (vis_of (gh_table G) (latest_snapshot (gh_table G))) (written G key)))].
Proof.
  intros Hi Hp Hlen Ho G. rewrite orderly_run_app in Ho. apply andb_true_iff in Ho as [Ho1 [Hr [Hsc _]%andb_true_iff]%andb_true_iff]. fold G in Hr, Hsc.
  destruct (told_run ps t ops Hi Hp Ho1) as [_ Hok]. fold G in Hok. assert (Hshort : forall k, Z.of_nat (length (row (gh_rows G) k)) <= MAX_VERSION_CHAIN) by (intros k; by apply run_short).
  cbn [rows_runs rows_exec fst]. change (rw_table (gh_rows G)) with (gh_table G).
  rewrite (orderly_read G s key Hok Hr (Hshort key)), (orderly_latest G key Hok (Hshort key)), (orderly_scan G s start Hok); [done| |done].
  exact Hsc.
Qed.

Lemma ord_pairs_lookup {A} (R : A -> A -> Prop) l i j a b : ForallOrdPairs R l -> l !! i = Some a -> l !! j = Some b -> (i < j)%nat -> R a b.
Proof.
  intros H. revert i j. induction H as [|c l Hc Hl IH]; intros i j Ei Ej Hij; [done|]. destruct j as [|j]; [lia|]. destruct i as [|i]; cbn in Ei, Ej.
  - injection Ei as ->. rewrite Forall_forall in Hc. apply Hc. by eapply list_elem_of_lookup_2.
  - apply (IH i j); [done|done|lia].
Qed.

(** Every writer of a row knew of the writes before it. *)
Lemma writers_in_order ps ops t key i j x v y u : tinv t -> in_progress t = ∅ -> orderly_run ps ops (gh_new t) = true ->
  let G := gh_run ps ops (gh_new t) in written G key !! i = Some (x, v) -> written G key !! j = Some (y, u) -> (i < j)%nat ->
  x = y \/ lost (gh_table G) y \/ exists a b, (a < b)%nat /\ ops !! a = Some (SCommit y) /\ ops !! b = Some SBegin /\ fst (rows_runs ps ops (mkRows t ∅ ∅)) !! b = Some (Val (AXid x)).
Proof.
  intros Hi Hp Ho G Ei Ej Hij. destruct (told_run ps t ops Hi Hp Ho) as [Hto Hok]. fold G in Hto, Hok. pose proof (tl_order _ _ _ _ (go_tells G Hok key)) as Hord.
  destruct (ord_pairs_lookup _ _ i j (x, v) (y, u) Hord Ei Ej Hij) as [Hl|[E|(s & Hin & Es & Hne & Hd & Hc)]]; [by right; left|by left|]. right. right.
  destruct (to_begin _ _ _ _ Hto s Hin ltac:(by rewrite Es)) as (b & E1 & E2 & Hb). pose proof (to_log _ _ _ _ Hto key (y, u) ltac:(by eapply list_elem_of_lookup_2)) as Hy.
  destruct (Hb y Hy Hd Hc) as (a & Hab & Ea). exists a, b. ands; try done. cbn in Es. by rewrite <- Es.
Qed.

(** ** Claims *)

Section OnPool.
Context {B : Type}.
Variable before_writeback : Z -> Z -> bytes -> st PageError B unit.
Variable crc32 : bytes -> Z.
Variable hash_order : gmap Z Frame -> list Z.
Hypothesis Hbarrier : forall p t b w, exists w', before_writeback p t b w = (Val tt, w').
Hypothesis Hcrc : forall l, is_u32 (crc32 l).
Hypothesis Hhash : forall m, hash_order m ≡ₚ (map_to_list m).*1.
Abbreviation pager := (pool_pager before_writeback crc32 hash_order).
Context (ps : Z) (mx : nat) (buffers : nat -> Z) (ops : list StoreOp) (t : TableInner) (spill : Z * Z * Z) (x : BufferPool B).
Hypothesis Hps : 512 <= ps <= 65536.
Hypothesis Hbuffers : forall i, 0 < buffers i.
Hypothesis Hops : Forall (store_ok ps mx) ops.
Hypothesis Htable : Z.of_nat (length (abort_exceptions_list t)) <= Paged.abort_exception_capacity ps.
Hypothesis Hpool : pool_managed crc32 0 ps (3 + sum_list (store_cost mx <$> ops)) x ∅.
Hypothesis Hinv : tinv t.
Hypothesis Hidle : in_progress t = ∅.


End OnPool.

(** ** A deleted row that is written again

    [mark_deleted] overwrites the deletion mark of the version it stamps.  When
    the version below a new one had been deleted by a committed transaction, the
    deletion is forgotten: until the new version commits, and for good if it is
    rolled back, the deleted value is read again. *)

Lemma vis_of_live t s x : tinv t -> taken t s -> x ∈ in_progress t -> x <> snap_xid s -> vis_of t s x = false.
Proof.
  intros Hi Ht Hx Hne. destruct (vis_of t s x) eqn:E; [|done]. apply vis_of_true in E as [?|[Hd _]]; [done| |done|apply (live_range t x Hi Hx)].
  apply (taken_done t s x Ht) in Hd as [_ ?]. done.
Qed.

(** A version not yet seen, over one stamped by the same writer. *)
Lemma read_below_stamp t s x v a u c : tinv t -> x <> 0 -> vis_of t s x = false -> vis_of t s a = true ->
  read_chain id MAX_VERSION_CHAIN t s (mkVer x 0 v :: mkVer a x u :: c) = Val (Some u).
Proof.
  intros Hi Hx Hvx Hva. cbn [read_chain]. unfold sees, is_visible. cbn [xmin xmax ve_xmin ve_xmax ve_value]. rewrite !(vis_of_eq t s _ Hi), Hvx, Hva. cbn [res_bind negb blur].
  by rewrite (proj2 (Z.eqb_neq x 0)) by done.
Qed.

Section Rows.
Context (ps x : Z) (s : Snapshot) (key value : bytes) (old : Ver) (c : list Ver) (R : Rows).
Abbreviation t := (rw_table R).
Hypothesis Hinv : tinv t.
Hypothesis Hlive : x ∈ in_progress t.
Hypothesis Hsnap : rw_snapshots R !! x = Some s /\ snap_xid s = x /\ snap_xmax s <= next_xid t.
Hypothesis Hrow : row R key = old :: c.
(** The newest version and its deletion were committed before [x] began. *)
Hypothesis Hmin : done_by s (ve_xmin old) /\ committed t (ve_xmin old).
Hypothesis Hmax : done_by s (ve_xmax old) /\ committed t (ve_xmax old).
Hypothesis Hkey : refused ps key = None.

Lemma settled_before y : done_by s y /\ committed t y -> settled t y /\ y <> x.
Proof using Hinv Hlive Hsnap.
  intros [[H0 Hb] Hc]. unfold began_before in Hb. apply andb_true_iff in Hb as [Hb%Z.ltb_lt _]. destruct Hsnap as (_ & _ & Hn). assert (Hl : y ∉ in_progress t).
  { intros Hl%(live_status t y Hinv). unfold committed in Hc. congruence. }
  split; [split; [lia|done]|]. by intros ->.
Qed.

Lemma field_passes y : done_by s y /\ committed t y -> check_field x s y t = Val tt.
Proof using Hinv Hlive Hsnap.
  intros Hy. destruct (settled_before y Hy) as [_ Hne]. destruct Hy as [[H0 Hb] Hc], Hsnap as (_ & Hx & _). unfold check_field, is_concurrent. unfold committed in Hc.
  rewrite (proj2 (Z.eqb_neq y 0)), (proj2 (Z.eqb_neq y (snap_xid s))), Hc, Hb by (lia || congruence). done.
Qed.

Lemma reinsert_put : rows_put ps x key value R = (Val tt, set_row key (mkVer x 0 value :: mkVer (ve_xmin old) x (ve_value old) :: c) R).
Proof using Hinv Hlive Hsnap Hrow Hmin Hmax Hkey.
  destruct (settled_before _ Hmin) as [[Hr _] Hne]. unfold rows_put, rows_snapshot. rewrite (proj1 Hsnap), Hrow. cbn [base_of default from_option id]. rewrite (proj2 (Z.leb_gt MAX_VERSION_CHAIN 0)) by done.
  rewrite (proj2 (Z.eqb_neq (ve_xmin old) 0)), (proj2 (Z.eqb_neq (ve_xmin old) x)) by (done || lia). cbn [orb]. rewrite (proj2 Hmin). cbn [res_bind]. rewrite bool_decide_false by done.
  cbn [check_base]. rewrite !field_passes by done. cbn [res_bind]. by rewrite Hkey.
Qed.

Lemma reinsert_read : rows_read (latest_snapshot t) key (snd (rows_put ps x key value R)) = Val (Some (ve_value old)).
Proof using Hinv Hlive Hsnap Hrow Hmin Hmax Hkey.
  rewrite reinsert_put. unfold rows_read, row. cbn [snd set_row rw_rows rw_table]. rewrite lookup_insert_eq. cbn [default from_option id]. pose proof (live_range t x Hinv Hlive).
  destruct (settled_before _ Hmin) as [Hst Hne]. apply read_below_stamp; [done|lia|apply vis_of_live; [done|by left|done|cbn; lia]|].
  apply vis_of_true; [done|apply Hst|]. right. split; [|apply Hmin]. apply (taken_done t); [by left|done].
Qed.

Lemma reinsert_abort : let R' := rows_settle abort x (snd (rows_put ps x key value R)) in rows_read (latest_snapshot (rw_table R')) key R' = Val (Some (ve_value old)).
Proof using Hinv Hlive Hsnap Hrow Hmin Hmax Hkey.
  intros R'. destruct (later_abort t x Hinv Hlive) as (Hi' & Hn' & Hs'). pose proof (live_range t x Hinv Hlive) as Hx. destruct (settled_before _ Hmin) as [Hst Hne].
  assert (Et : rw_table R' = abort x t) by (unfold R'; by rewrite reinsert_put). unfold rows_read. rewrite Et. assert (Er : row R' key = mkVer x 0 value :: mkVer (ve_xmin old) x (ve_value old) :: c).
  { unfold R'. rewrite reinsert_put. unfold row. cbn [snd rows_settle set_row rw_rows]. by rewrite lookup_insert_eq. }
  rewrite Er. apply read_below_stamp; [done|lia| |].
  - destruct (vis_of _ _ x) eqn:E; [|done]. apply vis_of_true in E as [E|[_ Hc]]; [cbn in E; lia| |done|lia]. apply (committed_iff _ x Hi') in Hc; [|lia]. rewrite abort_live in Hc by done. cbn in Hc.
    pose proof (ti_range _ Hinv x Hlive). destruct Hc as [[? _]|[_ Hc]]; [lia|]. unfold terminal_status, resident_terminal_status in Hc. cbn in Hc. by rewrite lookup_insert_eq in Hc.
  - apply vis_of_true; [done|apply Hst|]. right. split; [|by apply (Hs' _ Hst), Hmin]. apply (taken_done (abort x t)); [by left|]. by apply Hs'.
Qed.
End Rows.

Section Revived.
Context {S : Type} {P : Pager S} {L : PagerLaws S} {F : PagerFrees S} {T : PagerTags S} {TL : PagerTagLaws S}.
Context (ps : Z) (mx : nat) (buffers : nat -> Z).
Hypothesis Hps : 512 <= ps <= 65536.
Hypothesis Hbuffers : forall i, 0 < buffers i.

End Revived.

(** ** Witnesses *)

(** Two rows, two writers of one of them at once, a deletion rolled back and one
    that is not. *)
Definition demo_orderly_ops : list StoreOp :=
  [SBegin; SPut 1 [7] [1]; SPut 1 [8] [5]; SCommit 1; SBegin; SBegin; SPut 2 [7] [2]; SPut 3 [7] [9]; SDelete 3 [8]; SCommit 2; SAbort 3; SBegin; SDelete 4 [8]].

Lemma demo_orderly_ops_ok : Forall (store_ok 512 1) demo_orderly_ops.
Proof.
  repeat (apply Forall_cons; split; [cbn [store_ok]; first [done|by vm_compute|split; cbn [ve_xmin ve_xmax ve_value]; first [by vm_compute|repeat constructor; widths; lia|vm_compute; lia]]|]).
  by apply Forall_nil.
Qed.

Lemma demo_orderly_pool : pool_managed byte_sum 0 512 (3 + sum_list (store_cost 1 <$> demo_orderly_ops)) managed_pool ∅.
Proof. apply demo_managed. by vm_compute. Qed.
Lemma demo_orderly_reads : orderly_run 512 (demo_orderly_ops ++ [SGetAsOf (mkSnapshot 4 4 ∅) [8]; SScanFrom (mkSnapshot 4 4 ∅) []; SGet [8]]) (gh_new demo_table) = true.
Proof. by vm_compute. Qed.
Lemma demo_orderly_run : orderly_run 512 demo_orderly_ops (gh_new demo_table) = true.
Proof. by vm_compute. Qed.



(** A row written by 1 and deleted by 2; 3 has begun. *)
Definition demo_deleted_ops : list StoreOp := [SBegin; SPut 1 [7] [1]; SCommit 1; SBegin; SDelete 2 [7]; SCommit 2; SBegin].
Definition demo_deleted : Rows := snd (rows_runs 512 demo_deleted_ops (mkRows demo_table ∅ ∅)).

Lemma demo_deleted_inv : tinv (rw_table demo_deleted).
Proof.
  pose proof (gh_run_ok 512 demo_deleted_ops (gh_new demo_table) (gh_new_ok demo_table (new_inv _) eq_refl) ltac:(by vm_compute)) as Hok. pose proof (tr_inv _ _ (go_traced _ Hok)) as Hi.
  unfold gh_table in Hi. by rewrite gh_run_rows in Hi.
Qed.

Lemma demo_deleted_ops_ok : Forall (store_ok 512 1) demo_deleted_ops.
Proof.
  repeat (apply Forall_cons; split; [cbn [store_ok]; first [done|by vm_compute|split; cbn [ve_xmin ve_xmax ve_value]; first [by vm_compute|repeat constructor; widths; lia|vm_compute; lia]]|]).
  by apply Forall_nil.
Qed.
Lemma demo_deleted_pool : pool_managed byte_sum 0 512 (3 + (sum_list (store_cost 1 <$> demo_deleted_ops) + (store_cost 1 (SPut 3 [7] [2]) + 0))) managed_pool ∅.
Proof. apply demo_managed. by vm_compute. Qed.

Lemma demo_deleted_facts : (0 <= 2 * Z.of_nat (length demo_deleted_ops) /\ 2 * Z.of_nat (length demo_deleted_ops) + 2 < U32) /\ store_ok 512 1 (SPut 3 [7] [2]) /\ refused 512 [7] = None /\
  3 ∈ in_progress (rw_table demo_deleted) /\
  (rw_snapshots demo_deleted !! 3 = Some (mkSnapshot 3 3 ∅) /\ snap_xid (mkSnapshot 3 3 ∅) = 3 /\ snap_xmax (mkSnapshot 3 3 ∅) <= next_xid (rw_table demo_deleted)) /\
  row demo_deleted [7] = [mkVer 1 2 [1]] /\
  (done_by (mkSnapshot 3 3 ∅) 1 /\ committed (rw_table demo_deleted) 1) /\ (done_by (mkSnapshot 3 3 ∅) 2 /\ committed (rw_table demo_deleted) 2) /\
  rows_read (latest_snapshot (rw_table demo_deleted)) [7] demo_deleted = Val None.
Proof.
  ands; try by vm_compute. split; cbn [ve_xmin ve_xmax ve_value]; first [by vm_compute|repeat constructor; widths; lia|vm_compute; lia].
Qed.

