(* ===== verification/Consensus.v ===== *)
(** * Consensus: one node of the commit-frame log

    Models [crates/bicdb-core/src/consensus.rs]: the configuration and its
    validation, the persistent state of a node, the calls that start an election,
    answer vote and append requests, append a local commit, record an answer and
    apply the committed prefix.  A commit frame is opaque to this code but for its
    number, so the state is polymorphic in it.  A [BTreeSet<String>] is a
    [gset string], a [BTreeMap<String, u64>] a [gmap string Z], the log a list;
    [u64] counters are [Z] with their saturating arithmetic.

    The second half of the file is about one node alone: its log is numbered from
    one, applied <= committed <= logged is kept by every call, a vote is given once
    per term, and what an append request does to the log. *)

(* @source crates/bicdb-core/src/consensus.rs *)
From stdpp Require Import base tactics list numbers gmap strings sorting.
From Stdlib Require Import ZArith Lia.
From S2P Require Import Prelude.
Local Open Scope Z_scope.
Local Open Scope bic_scope.

(** [consensus_error] (8-10). *)
Inductive BicDbError := ConsensusFault (message : string).
#[export] Instance BicDbError_eq_dec : EqDecision BicDbError.
Proof. solve_decision. Defined.
Abbreviation fails msg := (Err (ConsensusFault msg)).

(** ** Configuration *)

(** [ConsensusPeer] (12-18). *)
Record ConsensusPeer := mkPeer {
  peer_node_id : string;
  peer_address : string;
  peer_voting : bool
}.

(** [ConsensusPeer::voting] (20-28). *)
Definition voting_peer (node_id address : string) : ConsensusPeer := mkPeer node_id address true.

(** [ConsensusConfig] (30-39). *)
Record ConsensusConfig := mkConfig {
  enabled : bool;
  config_cluster_id : string;
  config_node_id : string;
  peers : list ConsensusPeer;
  election_timeout_ms : Z;
  heartbeat_interval_ms : Z;
  lease_timeout_ms : Z
}.

(** [ConsensusConfig::default] (41-53). *)
Definition default_config : ConsensusConfig :=
  mkConfig false "default" "" [] 1000 250 2000.

(** The UTF-8 bytes of a string. *)
Fixpoint utf8 (s : string) : list Z :=
  match s with
  | EmptyString => []
  | String c s => Z.of_N (Ascii.N_of_ascii c) :: utf8 s
  end.

(** [str::trim().is_empty()]. *)
Definition trimmed_empty (s : string) : bool := match skip_space (utf8 s) with [] => true | _ => false end.

(** [ConsensusConfig::validate] (76-94).  The loop over the peers: the ids seen and whether the local one was among them. *)
Fixpoint validate_peers (node_id : string) (seen : gset string) (has_local : bool)
    (l : list ConsensusPeer) : res BicDbError bool :=
  match l with
  | [] => Val has_local
  | peer :: l =>
      if trimmed_empty (peer_node_id peer)
      then fails "consensus peer node_id must not be empty" else
      if trimmed_empty (peer_address peer)
      then fails "consensus peer address must not be empty" else
      if bool_decide (peer_node_id peer ∈ seen)
      then fails ("duplicate consensus peer node_id " +:+ peer_node_id peer) else
      validate_peers node_id ({[peer_node_id peer]} ∪ seen)
        (if bool_decide (peer_node_id peer = node_id) then true else has_local) l
  end.

(** [ConsensusConfig::validate] (56-107). *)
Definition validate (c : ConsensusConfig) : res BicDbError unit :=
  if negb (enabled c) then Val tt else
  if trimmed_empty (config_cluster_id c)
  then fails "consensus.cluster_id must not be empty" else
  if trimmed_empty (config_node_id c)
  then fails "consensus.node_id must not be empty" else
  if (election_timeout_ms c =? 0) || (heartbeat_interval_ms c =? 0)
  then fails "consensus election and heartbeat timeouts must be greater than zero" else
  if election_timeout_ms c <=? heartbeat_interval_ms c
  then fails "consensus heartbeat_interval_ms must be less than election_timeout_ms" else
  let! has_local := validate_peers (config_node_id c) ∅ false (peers c) in
  if negb has_local
  then fails "consensus peers must include the local node_id" else
  if Nat.eqb (length (List.filter peer_voting (peers c))) 0
  then fails "consensus requires at least one voting peer" else
  Val tt.

(** [ConsensusConfig::voter_ids] (109-115). *)
Definition voter_ids (c : ConsensusConfig) : gset string :=
  list_to_set (map peer_node_id (List.filter peer_voting (peers c))).

(** ** State and messages *)

(** [ConsensusRole] (118-124). *)
Inductive ConsensusRole := Follower | Candidate | Leader.
#[export] Instance ConsensusRole_eq_dec : EqDecision ConsensusRole.
Proof. solve_decision. Defined.

(** What is read of a commit frame: its number and that of the commit before. *)
Class CommitFrame (F : Type) := {
  frame_commit_seq : F -> Z;
  frame_previous_seq : F -> Z
}.

(** [ConsensusLogEntry] (126-132). *)
Record ConsensusLogEntry (F : Type) := mkEntry {
  index : Z;
  term : Z;
  commit_seq : Z;
  frame : F
}.
Arguments mkEntry {F} index term commit_seq frame.
Arguments index {F} e : rename.
Arguments term {F} e : rename.
Arguments commit_seq {F} e : rename.
Arguments frame {F} e : rename.
#[export] Instance ConsensusLogEntry_eq_dec {F} `{EqDecision F} : EqDecision (ConsensusLogEntry F).
Proof. solve_decision. Defined.

(** [ConsensusState] (134-147). *)
Record ConsensusState (F : Type) := mkState {
  cluster_id : string;
  node_id : string;
  current_term : Z;
  voted_for : option string;
  role : ConsensusRole;
  leader_id : option string;
  commit_index : Z;
  last_applied : Z;
  log : list (ConsensusLogEntry F);
  voters : gset string;
  match_index : gmap string Z
}.
Arguments mkState {F}.
Arguments cluster_id {F} c : rename.
Arguments node_id {F} c : rename.
Arguments current_term {F} c : rename.
Arguments voted_for {F} c : rename.
Arguments role {F} c : rename.
Arguments leader_id {F} c : rename.
Arguments commit_index {F} c : rename.
Arguments last_applied {F} c : rename.
Arguments log {F} c : rename.
Arguments voters {F} c : rename.
Arguments match_index {F} c : rename.

(** [ConsensusStatus] (426-439). *)
Record ConsensusStatus := mkStatus {
  status_cluster_id : string;
  status_node_id : string;
  status_role : ConsensusRole;
  status_current_term : Z;
  status_voted_for : option string;
  status_leader_id : option string;
  status_commit_index : Z;
  status_last_applied : Z;
  status_last_log_index : Z;
  status_last_log_term : Z;
  status_voters : list string
}.

(** [RequestVote] (441-448). *)
Record RequestVote := mkRequestVote {
  rv_cluster_id : string;
  rv_term : Z;
  rv_candidate_id : string;
  rv_last_log_index : Z;
  rv_last_log_term : Z
}.
#[export] Instance RequestVote_eq_dec : EqDecision RequestVote.
Proof. solve_decision. Defined.

(** [VoteResponse] (450-456). *)
Record VoteResponse := mkVoteResponse {
  vr_cluster_id : string;
  vr_term : Z;
  vr_voter_id : string;
  vr_vote_granted : bool
}.
#[export] Instance VoteResponse_eq_dec : EqDecision VoteResponse.
Proof. solve_decision. Defined.

(** [AppendEntries] (458-467). *)
Record AppendEntries (F : Type) := mkAppendEntries {
  ae_cluster_id : string;
  ae_term : Z;
  ae_leader_id : string;
  prev_log_index : Z;
  prev_log_term : Z;
  entries : list (ConsensusLogEntry F);
  leader_commit : Z
}.
Arguments mkAppendEntries {F}.
Arguments ae_cluster_id {F} a : rename.
Arguments ae_term {F} a : rename.
Arguments ae_leader_id {F} a : rename.
Arguments prev_log_index {F} a : rename.
Arguments prev_log_term {F} a : rename.
Arguments entries {F} a : rename.
Arguments leader_commit {F} a : rename.
#[export] Instance AppendEntries_eq_dec {F} `{EqDecision F} : EqDecision (AppendEntries F).
Proof. solve_decision. Defined.

(** [AppendResponse] (469-476). *)
Record AppendResponse := mkAppendResponse {
  ar_cluster_id : string;
  ar_term : Z;
  ar_node_id : string;
  ar_success : bool;
  ar_match_index : Z
}.
#[export] Instance AppendResponse_eq_dec : EqDecision AppendResponse.
Proof. solve_decision. Defined.

(** The order of [str]: byte by byte, a prefix first. *)
Definition string_le (a b : string) : Prop := String.leb a b = true.
#[export] Instance string_le_dec : RelDecision string_le.
Proof. intros a b. unfold string_le. apply _. Defined.

Section Node.
Context {F : Type} {seq : CommitFrame F}.
Abbreviation state := (ConsensusState F).
Abbreviation call := (st BicDbError (ConsensusState F)).

Definition set_log l (s : state) : state :=
  mkState (cluster_id s) (node_id s) (current_term s) (voted_for s) (role s) (leader_id s)
    (commit_index s) (last_applied s) l (voters s) (match_index s).
Definition set_commit_index c (s : state) : state :=
  mkState (cluster_id s) (node_id s) (current_term s) (voted_for s) (role s) (leader_id s)
    c (last_applied s) (log s) (voters s) (match_index s).
Definition set_last_applied a (s : state) : state :=
  mkState (cluster_id s) (node_id s) (current_term s) (voted_for s) (role s) (leader_id s)
    (commit_index s) a (log s) (voters s) (match_index s).
Definition set_voted_for v (s : state) : state :=
  mkState (cluster_id s) (node_id s) (current_term s) v (role s) (leader_id s)
    (commit_index s) (last_applied s) (log s) (voters s) (match_index s).
Definition set_current_term t (s : state) : state :=
  mkState (cluster_id s) (node_id s) t (voted_for s) (role s) (leader_id s)
    (commit_index s) (last_applied s) (log s) (voters s) (match_index s).
Definition set_role r (s : state) : state :=
  mkState (cluster_id s) (node_id s) (current_term s) (voted_for s) r (leader_id s)
    (commit_index s) (last_applied s) (log s) (voters s) (match_index s).
Definition set_leader_id l (s : state) : state :=
  mkState (cluster_id s) (node_id s) (current_term s) (voted_for s) (role s) l
    (commit_index s) (last_applied s) (log s) (voters s) (match_index s).
Definition set_voters v (s : state) : state :=
  mkState (cluster_id s) (node_id s) (current_term s) (voted_for s) (role s) (leader_id s)
    (commit_index s) (last_applied s) (log s) v (match_index s).
Definition set_match_index m (s : state) : state :=
  mkState (cluster_id s) (node_id s) (current_term s) (voted_for s) (role s) (leader_id s)
    (commit_index s) (last_applied s) (log s) (voters s) m.

(** [ConsensusState::new] (150-169). *)
Definition new (config : ConsensusConfig) : state :=
  mkState (config_cluster_id config) (config_node_id config) 0 None Follower None 0 0 []
    (voter_ids config)
    (fold_right (fun voter m => <[voter := 0]> m) ∅ (elements (voter_ids config))).

(** [ConsensusState::last_log_index] (187-189). *)
Definition last_log_index (s : state) : Z := from_option index 0 (last (log s)).

(** [ConsensusState::last_log_term] (191-193). *)
Definition last_log_term (s : state) : Z := from_option term 0 (last (log s)).

(** [ConsensusState::status] (171-185).  The voters come out of the [BTreeSet] in order. *)
Definition status (s : state) : ConsensusStatus :=
  mkStatus (cluster_id s) (node_id s) (role s) (current_term s) (voted_for s) (leader_id s)
    (commit_index s) (last_applied s) (last_log_index s) (last_log_term s)
    (merge_sort string_le (elements (voters s))).

(** The iterator's [find(|entry| entry.index == i)]. *)
Definition find_entry (i : Z) (l : list (ConsensusLogEntry F)) : option (ConsensusLogEntry F) :=
  List.find (fun e => index e =? i) l.

(** [ConsensusState::become_candidate] (195-207). *)
Definition become_candidate (s : state) : RequestVote * state :=
  let s := set_current_term (sat_add (current_term s) 1) s in
  let s := set_role Candidate s in
  let s := set_voted_for (Some (node_id s)) s in
  let s := set_leader_id None s in
  (mkRequestVote (cluster_id s) (current_term s) (node_id s) (last_log_index s) (last_log_term s), s).

(** [ConsensusState::become_leader] (209-218). *)
Definition become_leader : call unit := fun s =>
  if negb (bool_decide (role s = Candidate))
  then (fails "only a candidate can become leader", s) else
  let s := set_role Leader s in
  let s := set_leader_id (Some (node_id s)) s in
  (Val tt, set_match_index (<[node_id s := last_log_index s]> (match_index s)) s).

(** [ConsensusState::ensure_cluster] (415-423). *)
Definition ensure_cluster (cluster : string) : call unit := fun s =>
  if negb (bool_decide (cluster = cluster_id s))
  then (fails ("consensus cluster_id mismatch: expected " +:+ cluster_id s +:+ ", got " +:+ cluster), s)
  else (Val tt, s).

(** [ConsensusState::vote_response] (396-403). *)
Definition vote_response (granted : bool) (s : state) : VoteResponse :=
  mkVoteResponse (cluster_id s) (current_term s) (node_id s) granted.

(** [ConsensusState::append_response] (405-413). *)
Definition append_response (success : bool) (s : state) : AppendResponse :=
  mkAppendResponse (cluster_id s) (current_term s) (node_id s) success
    (if success then last_log_index s else 0).

(** [ConsensusState::step_down] (387-394). *)
Definition step_down (t : Z) (leader : option string) (s : state) : state :=
  let s := if current_term s <? t then set_voted_for None (set_current_term t s) else s in
  set_leader_id leader (set_role Follower s).

(** [ConsensusState::truncate_from] (381-385). *)
Definition truncate_from (i : Z) (s : state) : state :=
  let s := set_log (List.filter (fun e => index e <? i) (log s)) s in
  let s := set_commit_index (Z.min (commit_index s) (last_log_index s)) s in
  set_last_applied (Z.min (last_applied s) (commit_index s)) s.

(** [ConsensusState::handle_request_vote] (228-230). *)
Definition log_is_current (request : RequestVote) (s : state) : bool :=
  (last_log_term s <? rv_last_log_term request)
  || ((rv_last_log_term request =? last_log_term s)
      && (last_log_index s <=? rv_last_log_index request)).

(** [ConsensusState::handle_request_vote] (220-238). *)
Definition handle_request_vote (request : RequestVote) : call VoteResponse :=
  ensure_cluster (rv_cluster_id request) ;;;
  fun s =>
  if rv_term request <? current_term s then (Val (vote_response false s), s) else
  let s := if current_term s <? rv_term request then step_down (rv_term request) None s else s in
  let can_vote := bool_decide (voted_for s = None)
                  || bool_decide (voted_for s = Some (rv_candidate_id request)) in
  let granted := can_vote && log_is_current request s
                 && bool_decide (rv_candidate_id request ∈ voters s) in
  let s := if granted then set_voted_for (Some (rv_candidate_id request)) s else s in
  (Val (vote_response granted s), s).

(** [ConsensusState::handle_append_entries] (261-273).  The loop over the entries; [false] when it returns early. *)
Fixpoint append_incoming (incoming : list (ConsensusLogEntry F)) (s : state) : bool * state :=
  match incoming with
  | [] => (true, s)
  | e :: incoming =>
      match find_entry (index e) (log s) with
      | Some existing =>
          if negb (term existing =? term e) then
            let s := truncate_from (index e) s in
            append_incoming incoming (set_log (log s ++ [e]) s)
          else append_incoming incoming s
      | None =>
          if negb (index e =? sat_add (last_log_index s) 1) then (false, s)
          else append_incoming incoming (set_log (log s ++ [e]) s)
      end
  end.

(** [ConsensusState::handle_append_entries] (240-278). *)
Definition handle_append_entries (request : AppendEntries F) : call AppendResponse :=
  ensure_cluster (ae_cluster_id request) ;;;
  fun s =>
  if ae_term request <? current_term s then (Val (append_response false s), s) else
  let s := if current_term s <=? ae_term request
           then step_down (ae_term request) (Some (ae_leader_id request)) s else s in
  let append s :=
    let '(complete, s) := append_incoming (entries request) s in
    if negb complete then (Val (append_response false s), s) else
    let s := set_commit_index
      (Z.max (commit_index s) (Z.min (leader_commit request) (last_log_index s))) s in
    (Val (append_response true s), s) in
  if 0 <? prev_log_index request then
    match find_entry (prev_log_index request) (log s) with
    | None => (Val (append_response false s), s)
    | Some prev =>
        if negb (term prev =? prev_log_term request) then
          let s := truncate_from (prev_log_index request) s in
          (Val (append_response false s), s)
        else append s
    end
  else append s.

(** [ConsensusState::append_local_commit] (280-295). *)
Definition append_local_commit (f : F) : call (ConsensusLogEntry F) := fun s =>
  if negb (bool_decide (role s = Leader))
  then (fails "only the consensus leader can append writes", s) else
  let entry := mkEntry (sat_add (last_log_index s) 1) (current_term s) (frame_commit_seq f) f in
  let s := set_log (log s ++ [entry]) s in
  (Val entry, set_match_index (<[node_id s := index entry]> (match_index s)) s).

(** [ConsensusState::recompute_commit_index] (363-368).  The recorded matches of the voters, sorted. *)
Definition sorted_matches (s : state) : list Z :=
  merge_sort Z.le (map (fun voter => default 0 (match_index s !! voter)) (elements (voters s))).

(** [ConsensusState::recompute_commit_index] (362-379).  Indexing an empty vector panics. *)
Definition recompute_commit_index : call unit := fun s =>
  let matches := sorted_matches s in
  match matches !! (length matches / 2)%nat with
  | None => (Panic, s)
  | Some majority_index =>
      if majority_index <=? commit_index s then (Val tt, s) else
      match find_entry majority_index (log s) with
      | None => (Val tt, s)
      | Some entry =>
          if term entry =? current_term s
          then (Val tt, set_commit_index majority_index s)
          else (Val tt, s)
      end
  end.

(** [ConsensusState::record_append_response] (297-319). *)
Definition record_append_response (node : string) (response : AppendResponse) : call Z :=
  ensure_cluster (ar_cluster_id response) ;;;
  fun s =>
  if current_term s <? ar_term response then
    let s := step_down (ar_term response) None s in (Val (commit_index s), s) else
  if negb (bool_decide (role s = Leader)) || negb (ar_success response)
  then (Val (commit_index s), s) else
  if negb (bool_decide (node ∈ voters s))
  then (fails ("append response from non-voting node " +:+ node), s) else
  let s := set_match_index (<[node := ar_match_index response]> (match_index s)) s in
  (recompute_commit_index ;;; gets commit_index) s.

(** [ConsensusState::apply_committed_prefix] (323-331).  The loop, with the turns it may take. *)
Fixpoint apply_loop (turns : nat) (frames : list F) (s : state) : list F * state :=
  match turns with
  | O => (frames, s)
  | S turns =>
      if last_applied s <? commit_index s then
        let next := sat_add (last_applied s) 1 in
        match find_entry next (log s) with
        | Some entry => apply_loop turns (frames ++ [frame entry]) (set_last_applied next s)
        | None => (frames, s)
        end
      else (frames, s)
  end.

(** [ConsensusState::apply_committed_prefix] (321-333).  Each turn applies one more index, so the gap bounds the turns. *)
Definition apply_committed_prefix (s : state) : list F * state :=
  apply_loop (Z.to_nat (commit_index s - last_applied s)) [] s.

(** [ConsensusState::append_entries_from] (335-360). *)
Definition append_entries_from (next_index : Z) (s : state) : AppendEntries F :=
  let prev := sat_sub next_index 1 in
  let prev_term := if prev =? 0 then 0 else from_option term 0 (find_entry prev (log s)) in
  mkAppendEntries (cluster_id s) (current_term s) (node_id s) prev prev_term
    (List.filter (fun e => next_index <=? index e) (log s)) (commit_index s).

End Node.

(** ** One node: numbering and order of the counters *)

(** Entry [k] of a log, counted from zero, has index [k + 1]. *)
Definition numbered {F} (l : list (ConsensusLogEntry F)) : Prop :=
  forall k e, l !! k = Some e -> index e = Z.of_nat k + 1.

(** The term of the last entry, zero in an empty log. *)
Definition tip_term {F} (l : list (ConsensusLogEntry F)) : Z := from_option term 0 (last l).

Abbreviation len l := (Z.of_nat (length l)).

Section Logs.
Context {F : Type} {seq : CommitFrame F}.
Implicit Types l : list (ConsensusLogEntry F).
Implicit Types s : ConsensusState F.

Lemma numbered_nil : numbered (F := F) [].
Proof. by intros k e. Qed.

Lemma numbered_prefix l l' : l `prefix_of` l' -> numbered l' -> numbered l.
Proof. intros Hp Hn k e Hk. eapply Hn, prefix_lookup_Some; eauto. Qed.

Lemma numbered_snoc l e : numbered l -> index e = len l + 1 -> numbered (l ++ [e]).
Proof.
  intros Hn He k e' [Hk|[Hk Hs]]%lookup_app_Some; [by apply Hn|].
  apply list_lookup_singleton_Some in Hs as [Hk' ->]. rewrite He. lia.
Qed.

Lemma numbered_cons_inv e l k :
  (forall j e', (e :: l) !! j = Some e' -> index e' = Z.of_nat (k + j) + 1) ->
  index e = Z.of_nat k + 1 /\ (forall j e', l !! j = Some e' -> index e' = Z.of_nat (S k + j) + 1).
Proof.
  intros H. split; [rewrite (H 0%nat e eq_refl); lia|].
  intros j e' Hj. rewrite (H (S j) e' Hj). lia.
Qed.

Lemma last_log_index_size s : numbered (log s) -> last_log_index s = len (log s).
Proof.
  unfold last_log_index. intros Hn. destruct (log s) as [|e l _] using rev_ind; [done|].
  rewrite last_snoc. cbn. rewrite (Hn (length l) e), length_app; [cbn; lia|].
  by rewrite lookup_app_r, Nat.sub_diag.
Qed.

Lemma find_from l k i :
  (forall j e, l !! j = Some e -> index e = Z.of_nat (k + j) + 1) ->
  find_entry i l = if Z.of_nat k <? i then l !! Z.to_nat (i - 1 - Z.of_nat k) else None.
Proof.
  revert k. induction l as [|e l IH]; intros k Hk; [by destruct (_ <? _)|].
  destruct (numbered_cons_inv e l k Hk) as [He Hl]. cbn. rewrite He.
  destruct (Z.eqb_spec (Z.of_nat k + 1) i) as [<-|Hne].
  - rewrite (proj2 (Z.ltb_lt _ _)) by lia. by replace (Z.to_nat _) with 0%nat by lia.
  - fold (find_entry i l). rewrite (IH (S k) Hl).
    destruct (Z.ltb_spec (Z.of_nat k) i), (Z.ltb_spec (Z.of_nat (S k)) i); try lia; [|done].
    by replace (Z.to_nat (i - 1 - Z.of_nat k)) with (S (Z.to_nat (i - 1 - Z.of_nat (S k)))) by lia.
Qed.

(** In a numbered log [find] is indexing. *)
Lemma find_entry_lookup l i :
  numbered l -> find_entry i l = if 0 <? i then l !! Z.to_nat (i - 1) else None.
Proof. intros Hn. rewrite (find_from l 0 i); [|intros; by apply Hn]. by rewrite Z.sub_0_r. Qed.

Lemma filter_below l k i :
  (forall j e, l !! j = Some e -> index e = Z.of_nat (k + j) + 1) ->
  List.filter (fun e => index e <? i) l = take (Z.to_nat (i - 1 - Z.of_nat k)) l.
Proof.
  revert k. induction l as [|e l IH]; intros k Hk; [by rewrite take_nil|].
  destruct (numbered_cons_inv e l k Hk) as [He Hl]. cbn. rewrite He, (IH (S k) Hl).
  destruct (Z.ltb_spec (Z.of_nat k + 1) i).
  - by replace (Z.to_nat (i - 1 - Z.of_nat k)) with (S (Z.to_nat (i - 1 - Z.of_nat (S k)))) by lia.
  - replace (Z.to_nat (i - 1 - Z.of_nat k)) with 0%nat by lia.
    by replace (Z.to_nat (i - 1 - Z.of_nat (S k))) with 0%nat by lia.
Qed.

(** Truncation keeps the entries before the index. *)
Lemma truncate_log s i :
  numbered (log s) -> log (truncate_from i s) = take (Z.to_nat (i - 1)) (log s).
Proof.
  intros Hn. cbn. rewrite (filter_below (log s) 0 i); [|intros; by apply Hn]. by rewrite Z.sub_0_r.
Qed.

Lemma filter_all l : numbered l -> List.filter (fun e => 1 <=? index e) l = l.
Proof.
  intros Hn. assert (H : forall e, e ∈ l -> 1 <= index e).
  { intros e [k Hk]%list_elem_of_lookup. rewrite (Hn k e Hk). lia. }
  clear Hn. induction l as [|e l IH]; [done|]. cbn.
  rewrite (proj2 (Z.leb_le _ _)) by (apply H; set_solver).
  f_equal. apply IH. intros e' He. apply H. set_solver.
Qed.

(** The request a round sends carries the whole log. *)
Lemma append_from_one s :
  numbered (log s) ->
  append_entries_from 1 s =
  mkAppendEntries (cluster_id s) (current_term s) (node_id s) 0 0 (log s) (commit_index s).
Proof. intros Hn. unfold append_entries_from. cbn. by rewrite filter_all. Qed.

End Logs.

(** ** Quorums *)

Lemma more_than_half a b n : (n / 2 < a)%nat -> (n / 2 < b)%nat -> (n < a + b)%nat.
Proof. pose proof (Nat.div_mod_eq n 2). pose proof (Nat.mod_upper_bound n 2). lia. Qed.

(** Two sets of members that together outnumber the cluster share a member. *)
Lemma quorums_meet (V Q Q' : gset string) :
  Q ⊆ V -> Q' ⊆ V -> (base.size V < base.size Q + base.size Q')%nat -> exists p, p ∈ Q /\ p ∈ Q'.
Proof.
  intros HQ HQ' Hn. destruct (set_choose_or_empty (Q ∩ Q')) as [[p Hp]|He]; [exists p; set_solver|exfalso].
  pose proof (size_union_alt Q Q') as Hu.
  assert (Hs : (base.size (Q ∪ Q') <= base.size V)%nat) by (apply subseteq_size; set_solver).
  rewrite size_union in Hs by set_solver. lia.
Qed.

(** What holds of one node whatever requests reach it: the log is numbered, and
    what is applied is committed and what is committed is in the log. *)
Record node_ok {F} (s : ConsensusState F) : Prop := {
  nk_numbered : numbered (log s);
  nk_applied : 0 <= last_applied s <= commit_index s;
  nk_commit : commit_index s <= len (log s);
  nk_size : len (log s) < u64_max
}.

Section Calls.
Context {F : Type} {seq : CommitFrame F}.
Implicit Types l : list (ConsensusLogEntry F).
Implicit Types s : ConsensusState F.

Lemma new_ok config : node_ok (F := F) (new config).
Proof. split; cbn; [apply numbered_nil|lia..|done]. Qed.

Lemma size_prefix l l' : l `prefix_of` l' -> len l <= len l'.
Proof. intros H%prefix_length. lia. Qed.

Lemma truncate_ok s i : node_ok s -> node_ok (truncate_from i s).
Proof.
  intros [Hn Ha Hc Hz]. assert (Hp : log (truncate_from i s) `prefix_of` log s).
  { rewrite truncate_log by done. apply prefix_take. }
  pose proof (numbered_prefix _ _ Hp Hn) as Hn'. pose proof (size_prefix _ _ Hp) as Hs.
  pose proof (last_log_index_size _ Hn') as Hl. cbn in Hl, Hs.
  unfold last_log_index in Hl. cbn in Hl.
  split; cbn; [exact Hn'|..|lia]; unfold last_log_index; cbn; rewrite Hl; lia.
Qed.

Lemma push_ok s e :
  node_ok s -> index e = len (log s) + 1 -> len (log s) + 1 < u64_max ->
  node_ok (set_log (log s ++ [e]) s).
Proof.
  intros [Hn Ha Hc Hz] He Hb. split; cbn; [by apply numbered_snoc|lia|..];
    rewrite length_app; cbn; lia.
Qed.

(** Everything but the log, what is committed and what is applied. *)
Definition rest s :=
  (cluster_id s, node_id s, (current_term s, voted_for s, role s), leader_id s, voters s, match_index s).

Lemma append_incoming_rest es s : rest (append_incoming es s).2 = rest s.
Proof.
  revert s. induction es as [|e es IH]; intros s; [done|]. cbn.
  destruct (find_entry _ _) as [a|]; destruct (negb _); try done; by rewrite IH.
Qed.

(** Whatever entries arrive, in whatever order, the node stays well formed. *)
Lemma append_incoming_ok es s :
  node_ok s -> len (log s) + len es < u64_max -> node_ok (append_incoming es s).2.
Proof.
  revert s. induction es as [|e es IH]; intros s Hs Hb; [done|]. cbn [append_incoming length] in *.
  rewrite find_entry_lookup by apply Hs.
  destruct (Z.ltb_spec 0 (index e)) as [Hi|Hi]; [destruct (log s !! _) as [a|] eqn:Ha|].
  - destruct (negb _); [|apply IH; [done|lia]].
    pose proof (truncate_ok s (index e) Hs) as Ht. pose proof (truncate_log s (index e) (nk_numbered _ Hs)) as Hl.
    apply lookup_lt_Some in Ha.
    assert (Hk : len (log (truncate_from (index e) s)) = index e - 1).
    { rewrite Hl, length_take. lia. }
    apply IH; [apply push_ok; [done|lia..]|]. cbn [log set_log].
    rewrite length_app, Nat2Z.inj_add, Hk. cbn. lia.
  - destruct (negb _) eqn:Hd; [done|]. bools.
    rewrite last_log_index_size in Hd by apply Hs. destruct Hs. pose proof nk_size0.
    assert (index e = len (log s) + 1) by (revert Hd; widths; lia).
    apply IH; [apply push_ok; [done|lia..]|]. cbn. rewrite length_app. cbn. lia.
  - destruct (negb _) eqn:Hd; [done|]. bools.
    rewrite last_log_index_size in Hd by apply Hs. revert Hd. widths. lia.
Qed.

(** Entries that follow the log are appended. *)
Lemma append_follows es s :
  node_ok s -> (forall j e, es !! j = Some e -> index e = Z.of_nat (length (log s) + j) + 1) ->
  len (log s) + len es < u64_max ->
  append_incoming es s = (true, set_log (log s ++ es) s).
Proof.
  revert s. induction es as [|e es IH]; intros s Hs He Hb.
  { rewrite app_nil_r. by destruct s. }
  destruct (numbered_cons_inv e es _ He) as [Hi Hes]. cbn [append_incoming length] in *.
  rewrite find_entry_lookup by apply Hs. rewrite (proj2 (Z.ltb_lt _ _)) by lia.
  rewrite lookup_ge_None_2 by lia. rewrite last_log_index_size by apply Hs.
  replace (index e =? _) with true; [|symmetry; apply Z.eqb_eq; widths; lia]. cbn [negb].
  rewrite IH; cbn [log set_log].
  - by rewrite <-app_assoc.
  - apply push_ok; [done|lia..].
  - intros j e' Hj. rewrite (Hes j e' Hj), length_app. cbn. lia.
  - rewrite length_app. cbn. lia.
Qed.

(** An entry whose term differs cuts the log before it. *)
Lemma append_overwrites e es k s :
  node_ok s -> index e = Z.of_nat k + 1 ->
  (forall j e', es !! j = Some e' -> index e' = Z.of_nat (S k + j) + 1) ->
  (k < length (log s))%nat -> len (log s) + len (e :: es) < u64_max ->
  exists s', append_incoming es (set_log (log (truncate_from (index e) s) ++ [e]) (truncate_from (index e) s)) = (true, s') /\
    log s' = take k (log s) ++ e :: es /\ commit_index s' = Z.min (commit_index s) (Z.of_nat k) /\
    last_applied s' = Z.min (last_applied s) (commit_index s').
Proof.
  intros Hs Hi Hes Hk Hb. cbn [length] in Hb.
  pose proof (truncate_ok s (index e) Hs) as Hto. pose proof (truncate_log s (index e) (nk_numbered _ Hs)) as Htl.
  replace (Z.to_nat (index e - 1)) with k in Htl by lia.
  assert (Hlen : length (log (truncate_from (index e) s)) = k) by (rewrite Htl, length_take; lia).
  rewrite append_follows; cbn [log set_log].
  2: { apply push_ok; [done|lia..]. }
  2: { intros j e' Hj. rewrite (Hes j e' Hj), length_app, Hlen. cbn. lia. }
  2: { rewrite length_app, Hlen. cbn. lia. }
  eexists. split; [done|]. pose proof (last_log_index_size _ (nk_numbered _ Hto)) as Hll. rewrite Hlen in Hll.
  cbn [log set_log]. rewrite Htl, <-app_assoc. ands; [done| |done].
  cbn. cbn in Hll. unfold last_log_index in *. cbn in *. by rewrite Hll.
Qed.

(** Entries numbered from [k + 1] overwrite the log from the first one whose term
    differs, and what was committed or applied beyond it is taken back. *)
Lemma append_incoming_spec es k s :
  node_ok s -> (forall j e, es !! j = Some e -> index e = Z.of_nat (k + j) + 1) ->
  (k <= length (log s))%nat -> len (log s) + len es < u64_max ->
  exists m s', append_incoming es s = (true, s') /\
    (k <= m <= k + length es)%nat /\ (m <= length (log s))%nat /\
    (forall j a b, (j < m - k)%nat -> log s !! (k + j)%nat = Some a -> es !! j = Some b -> term a = term b) /\
    ((m = k + length es)%nat /\ s' = s \/
     (m < k + length es)%nat /\ log s' = take m (log s) ++ drop (m - k) es /\
     commit_index s' = Z.min (commit_index s) (Z.of_nat m) /\
     last_applied s' = Z.min (last_applied s) (commit_index s') /\
     (m = length (log s) \/
      exists a b, log s !! m = Some a /\ es !! (m - k)%nat = Some b /\ term a <> term b)).
Proof.
  revert k. induction es as [|e es IH]; intros k Hs He Hk Hb.
  { exists k, s. cbn. ands; [done|lia..| |left; split; [lia|done]]. intros; lia. }
  destruct (numbered_cons_inv e es _ He) as [Hi Hes]. cbn [append_incoming length] in *.
  rewrite find_entry_lookup by apply Hs. rewrite (proj2 (Z.ltb_lt _ _)) by lia.
  replace (Z.to_nat (index e - 1)) with k by lia.
  destruct (log s !! k) as [a|] eqn:Ha.
  - pose proof (lookup_lt_Some _ _ _ Ha) as Hlt. destruct (Z.eqb_spec (term a) (term e)) as [Ht|Ht]; cbn [negb].
    + destruct (IH (S k) Hs Hes Hlt) as (m & s' & -> & Hm & Hl & Hag & Hr); [lia|].
      exists m, s'. ands; [done|lia..| |].
      * intros [|j] a' b Hj Ha' Hb'; cbn in Hb'.
        { rewrite Nat.add_0_r in Ha'. by simplify_eq. }
        apply (Hag j); [lia|by rewrite <-Nat.add_succ_comm in Ha'|done].
      * destruct Hr as [[? ->]|(? & Hl' & Hc & Hp & Hd)]; [left; split; [lia|done]|right].
        replace (m - k)%nat with (S (m - S k)) by lia. cbn. ands; [lia|done..].
    + destruct (append_overwrites e es k s Hs Hi Hes Hlt ltac:(cbn [length]; lia)) as (s' & -> & Hl' & Hc' & Ha').
      exists k, s'. ands; [done|lia..|intros; lia|right]. rewrite Nat.sub_diag.
      ands; [lia|done..|]. right. by exists a, e.
  - apply lookup_ge_None in Ha. assert (k = length (log s)) as -> by lia.
    rewrite last_log_index_size by apply Hs.
    replace (index e =? _) with true; [|symmetry; apply Z.eqb_eq; widths; lia]. cbn [negb].
    rewrite append_follows; cbn [log set_log].
    2: { apply push_ok; [done|lia..]. }
    2: { intros j e' Hj. rewrite (Hes j e' Hj), length_app. cbn. lia. }
    2: { rewrite length_app. cbn. lia. }
    exists (length (log s)). eexists. split; [done|]. destruct Hs. ands; [lia..|intros; lia|right].
    ands; [lia| |cbn; lia|cbn; lia|by left].
    cbn [log set_log]. by rewrite Nat.sub_diag, take_ge, <-app_assoc.
Qed.

(** Stepping down leaves the log, and moves to a later term without a vote. *)
Lemma step_down_ok t leader s : node_ok s -> node_ok (step_down t leader s).
Proof. intros [Hn Ha Hc Hz]. unfold step_down. by destruct (_ <? _); split. Qed.

Lemma handle_append_ok request s :
  node_ok s -> 0 <= leader_commit request -> len (log s) + len (entries request) < u64_max ->
  node_ok (handle_append_entries request s).2.
Proof.
  intros Hs Hlc Hb. unfold handle_append_entries, ensure_cluster, st_bind.
  destruct (negb _); [done|]. destruct (_ <? current_term s); [done|].
  set (s1 := if _ <=? _ then _ else _). assert (H1 : node_ok s1) by (unfold s1; destruct (_ <=? _); [apply step_down_ok|]; done).
  assert (Hl : log s1 = log s) by (unfold s1, step_down; by repeat destruct (_ <? _); destruct (_ <=? _)).
  assert (Happ : forall f, (forall b s, (f b s).2 = s) -> node_ok
    (let '(complete, s) := append_incoming (entries request) s1 in
     if negb complete then (f false s : res BicDbError AppendResponse * _) else
     f true (set_commit_index (Z.max (commit_index s) (Z.min (leader_commit request) (last_log_index s))) s)).2).
  { intros f Hf. pose proof (append_incoming_ok (entries request) s1 H1) as Ho. rewrite Hl in Ho. specialize (Ho Hb).
    destruct (append_incoming _ _) as [b s2]. cbn [snd] in Ho. destruct b; cbn [negb]; rewrite Hf; [|done].
    pose proof (last_log_index_size s2 (nk_numbered _ Ho)) as Hll. destruct Ho. split; cbn; rewrite ?Hll; try done; lia. }
  specialize (Happ (fun b s => (Val (append_response b s), s))).
  destruct (0 <? _); [|by apply Happ].
  destruct (find_entry _ _) as [e|]; [|done]. destruct (negb _); [by apply truncate_ok|by apply Happ].
Qed.

Lemma append_local_ok f s :
  node_ok s -> len (log s) + 1 < u64_max -> node_ok (append_local_commit f s).2.
Proof.
  intros Hs Hb. unfold append_local_commit. destruct (negb _); [done|].
  destruct (push_ok s (mkEntry (sat_add (last_log_index s) 1) (current_term s) (frame_commit_seq f) f) Hs) as [Hn Ha Hc Hz]; try done.
  rewrite last_log_index_size by apply Hs. cbn. widths; lia.
Qed.

(** *** Applying *)

(** With the turns it is given the loop reaches the commit index, and hands over
    the frames between what was applied and what is committed, in order. *)
Lemma apply_loop_spec turns frames s :
  node_ok s -> turns = Z.to_nat (commit_index s - last_applied s) ->
  apply_loop turns frames s =
  (frames ++ map frame (drop (Z.to_nat (last_applied s)) (take (Z.to_nat (commit_index s)) (log s))),
   set_last_applied (commit_index s) s).
Proof.
  revert frames s. induction turns as [|turns IH]; intros frames s [Hn Ha Hc Hz] Ht.
  { replace (last_applied s) with (commit_index s) by lia.
    rewrite drop_ge, app_nil_r by (rewrite length_take; lia). cbn.
    f_equal. replace (commit_index s) with (last_applied s) by lia. by destruct s. }
  cbn [apply_loop]. rewrite (proj2 (Z.ltb_lt _ _)) by lia.
  replace (sat_add (last_applied s) 1) with (last_applied s + 1) by (widths; lia).
  rewrite find_entry_lookup, (proj2 (Z.ltb_lt _ _)) by (done || lia).
  replace (Z.to_nat (last_applied s + 1 - 1)) with (Z.to_nat (last_applied s)) by lia.
  destruct (log s !! Z.to_nat (last_applied s)) as [e|] eqn:He.
  2: { apply lookup_ge_None in He. lia. }
  rewrite IH; [|split; cbn; done || lia|cbn; lia]. cbn [log last_applied commit_index set_last_applied].
  f_equal. rewrite <-app_assoc. f_equal. cbn.
  rewrite (drop_S _ e (Z.to_nat (last_applied s))).
  - cbn. by replace (Z.to_nat (last_applied s + 1)) with (S (Z.to_nat (last_applied s))) by lia.
  - rewrite lookup_take_lt; [done|lia].
Qed.

Lemma apply_committed_spec s :
  node_ok s ->
  apply_committed_prefix s =
  (map frame (drop (Z.to_nat (last_applied s)) (take (Z.to_nat (commit_index s)) (log s))),
   set_last_applied (commit_index s) s).
Proof. intros Hs. by apply apply_loop_spec. Qed.

Lemma apply_committed_ok s : node_ok s -> node_ok (apply_committed_prefix s).2.
Proof. intros Hs. rewrite apply_committed_spec by done. destruct Hs. split; cbn; done || lia. Qed.

(** *** Committing *)

(** The voters whose recorded match reaches [m]. *)
Definition reaching s (m : Z) : gset string :=
  filter (fun v => m <= default 0 (match_index s !! v)) (voters s).

(** In an ascending list, what is at [k] or after is at least the element at [k]
    and what is larger comes after it. *)
Lemma sorted_split (l : list Z) k m :
  StronglySorted Z.le l -> l !! k = Some m ->
  Forall (fun x => x <= m) (take (S k) l) /\ Forall (fun x => m <= x) (drop k l).
Proof.
  intros Hs Hk. pose proof (take_S_r _ _ _ Hk) as Ht. pose proof (drop_S _ _ _ Hk) as Hd.
  rewrite <-(take_drop k l), Hd in Hs. rewrite Ht, Hd. split.
  - apply Forall_app; split; [|by repeat constructor]. apply Forall_forall. intros x Hx.
    eapply (StronglySorted_app_1_elem_of Z.le); [exact Hs|done|set_solver].
  - apply StronglySorted_app_1_r in Hs. apply StronglySorted_cons in Hs as [Hs _].
    constructor; [lia|done].
Qed.

Lemma reaching_size s m :
  base.size (reaching s m) = length (filter (fun x => m <= x) (sorted_matches s)).
Proof.
  unfold sorted_matches. rewrite merge_sort_Permutation. unfold reaching, filter at 1, set_filter.
  rewrite size_list_to_set by (apply NoDup_filter, NoDup_elements).
  induction (elements (voters s)) as [|v vs IH]; [done|]. cbn [map].
  rewrite !filter_cons. destruct (decide _); cbn [length]; by rewrite IH.
Qed.

Lemma filter_all_in {A} (P : A -> Prop) `{forall x, Decision (P x)} (xs : list A) : Forall P xs -> filter P xs = xs.
Proof. induction 1 as [|x xs Hx _ IH]; [done|]. by rewrite filter_cons_True, IH. Qed.

Lemma filter_none_in {A} (P : A -> Prop) `{forall x, Decision (P x)} (xs : list A) :
  Forall (fun x => ~ P x) xs -> filter P xs = [].
Proof. induction 1 as [|x xs Hx _ IH]; [done|]. by rewrite filter_cons_False. Qed.

Lemma sorted_matches_length s : length (sorted_matches s) = base.size (voters s).
Proof. unfold sorted_matches. by rewrite merge_sort_Permutation, length_map. Qed.

(** The index [recompute_commit_index] looks at is the largest one that half of
    the voters, rounded up, have reached. *)
Lemma middle_match s m :
  sorted_matches s !! (base.size (voters s) / 2)%nat = Some m ->
  let need := (base.size (voters s) - base.size (voters s) / 2)%nat in
  (need <= base.size (reaching s m))%nat /\
  (forall m', (need <= base.size (reaching s m'))%nat -> m' <= m).
Proof.
  intros Hm need. pose proof (sorted_matches_length s) as Hlen.
  assert (Hs : StronglySorted Z.le (sorted_matches s)) by (apply StronglySorted_merge_sort; apply _).
  destruct (sorted_split _ _ _ Hs Hm) as [Hlo Hhi]. split.
  - rewrite reaching_size, <-(take_drop (base.size (voters s) / 2) (sorted_matches s)), filter_app, length_app.
    rewrite (filter_all_in _ _ Hhi), length_drop. unfold need. lia.
  - intros m' Hm'. destruct (Z.le_gt_cases m' m) as [|Hgt]; [done|exfalso].
    rewrite reaching_size, <-(take_drop (S (base.size (voters s) / 2)) (sorted_matches s)), filter_app, length_app in Hm'.
    rewrite filter_none_in in Hm'.
    2: { eapply Forall_impl; [exact Hlo|]. cbn. lia. }
    pose proof (length_filter (fun x => m' <= x) (drop (S (base.size (voters s) / 2)) (sorted_matches s))) as Hl.
    rewrite length_drop in Hl. apply lookup_lt_Some in Hm. change (length []) with 0%nat in Hm'. unfold need in Hm'. lia.
Qed.

Lemma recompute_cases s :
  voters s <> ∅ ->
  exists m, sorted_matches s !! (base.size (voters s) / 2)%nat = Some m /\
    recompute_commit_index s =
    (Val tt,
     if (commit_index s <? m)
        && from_option (fun e => term e =? current_term s) false (find_entry m (log s))
     then set_commit_index m s else s).
Proof.
  intros Hv. pose proof (sorted_matches_length s) as Hlen.
  destruct (lookup_lt_is_Some_2 (sorted_matches s) (base.size (voters s) / 2)) as [m Hm].
  { rewrite Hlen. assert (base.size (voters s) <> 0)%nat by (rewrite size_empty_iff; set_solver).
    apply Nat.div_lt; lia. }
  exists m. split; [done|]. unfold recompute_commit_index. rewrite Hlen, Hm.
  rewrite Z.leb_antisym. destruct (commit_index s <? m); [|done]. cbn [negb andb].
  destruct (find_entry m (log s)) as [e|]; [|done]. cbn. by destruct (_ =? _).
Qed.

(** *** The answers, branch by branch *)

(** A log whose last entry is later, or as late and at least as far: what a voter
    asks of a candidate's log [l] when its own is [l']. *)
Definition at_least l l' : Prop :=
  tip_term l' < tip_term l \/ tip_term l' = tip_term l /\ (length l' <= length l)%nat.

Lemma step_down_later t leader s :
  current_term s < t ->
  step_down t leader s = set_leader_id leader (set_role Follower (set_voted_for None (set_current_term t s))).
Proof. intros H. unfold step_down. by rewrite (proj2 (Z.ltb_lt _ _)). Qed.

Lemma step_down_same t leader s :
  t <= current_term s -> step_down t leader s = set_leader_id leader (set_role Follower s).
Proof. intros H. unfold step_down. by rewrite (proj2 (Z.ltb_ge _ _)). Qed.

Lemma log_current_frame request s s' :
  log s = log s' -> log_is_current request s = log_is_current request s'.
Proof. unfold log_is_current, last_log_term, last_log_index. by intros ->. Qed.

Lemma vote_cases request s r s' :
  handle_request_vote request s = (Val r, s') ->
  vr_vote_granted r = false /\
    (s' = s \/ current_term s < rv_term request /\ s' = step_down (rv_term request) None s)
  \/
  vr_vote_granted r = true /\ rv_candidate_id request ∈ voters s /\ log_is_current request s = true /\
    (rv_term request = current_term s /\
       (voted_for s = None \/ voted_for s = Some (rv_candidate_id request)) /\
       s' = set_voted_for (Some (rv_candidate_id request)) s
     \/ current_term s < rv_term request /\
       s' = set_voted_for (Some (rv_candidate_id request)) (step_down (rv_term request) None s)).
Proof.
  unfold handle_request_vote, ensure_cluster, st_bind. destruct (negb _); [done|].
  destruct (Z.ltb_spec (rv_term request) (current_term s)) as [|Hge]; [intros [= <- <-]; auto|].
  destruct (Z.ltb_spec (current_term s) (rv_term request)) as [Hlt|Hle].
  - rewrite step_down_later by done. cbn zeta.
    rewrite !(log_current_frame request _ s) by done. cbn [voted_for voters set_leader_id set_role set_voted_for set_current_term].
    rewrite (bool_decide_eq_true_2 (None = None)) by done. cbn [orb andb].
    destruct (log_is_current request s); cbn [andb].
    + case_bool_decide; intros [= <- <-]; cbn; [right|left]; ands; auto.
    + intros [= <- <-]; left; cbn; auto.
  - cbn zeta. destruct (_ && _ && _) eqn:Hg; intros [= <- <-]; cbn; [|auto]. right. bools.
    ands; [done..|]. left. ands; [lia| |done]. apply orb_true_iff in H as [H|H]; bools; auto.
Qed.

Lemma append_cases request s r s' :
  prev_log_index request = 0 -> handle_append_entries request s = (Val r, s') ->
  ar_success r = false /\ ae_term request < current_term s /\ s' = s
  \/
  current_term s <= ae_term request /\
  exists complete s1,
    append_incoming (entries request) (step_down (ae_term request) (Some (ae_leader_id request)) s)
    = (complete, s1) /\
    ar_success r = complete /\
    s' = (if complete
          then set_commit_index (Z.max (commit_index s1) (Z.min (leader_commit request) (last_log_index s1))) s1
          else s1) /\
    (complete = true -> ar_match_index r = last_log_index s1).
Proof.
  intros Hp. unfold handle_append_entries, ensure_cluster, st_bind. destruct (negb _); [done|].
  destruct (Z.ltb_spec (ae_term request) (current_term s)) as [Hlt|Hle]; [intros [= <- <-]; auto|].
  rewrite (proj2 (Z.leb_le _ _)) by done. rewrite Hp. cbn [Z.ltb Z.compare].
  destruct (append_incoming _ _) as [complete s1] eqn:He. cbn zeta.
  destruct complete; cbn [negb]; intros [= <- <-]; right; (split; [done|]).
  - by exists true, s1.
  - by exists false, s1.
Qed.

Lemma record_cases node response s :
  (record_append_response node response s).2 = s \/
  current_term s < ar_term response /\
    (record_append_response node response s).2 = step_down (ar_term response) None s \/
  role s = Leader /\ ar_term response <= current_term s /\ ar_success response = true /\
    exists c, (record_append_response node response s).2
      = set_commit_index c (set_match_index (<[node := ar_match_index response]> (match_index s)) s) /\
    (c = commit_index s \/
     commit_index s < c /\ exists e, find_entry c (log s) = Some e /\ term e = current_term s).
Proof.
  unfold record_append_response, ensure_cluster, st_bind. destruct (negb _); [by left|].
  destruct (Z.ltb_spec (current_term s) (ar_term response)); [by right; left|].
  destruct (negb (bool_decide (role s = Leader)) || _) eqn:Hg; [by left|]. bools.
  destruct (negb (bool_decide (node ∈ _))) eqn:Hv; [by left|]. bools. right; right.
  ands; [done|lia|done|]. set (s1 := set_match_index _ s).
  destruct (recompute_cases s1) as (m & _ & ->); [unfold s1; cbn; set_solver|].
  subst s1. cbn [commit_index log current_term set_match_index]. destruct (_ && _) eqn:Hc; cbn [gets snd].
  - exists m. split; [done|right]. apply andb_true_iff in Hc as [Hc Hf]. bools. split; [done|].
    destruct (find_entry m (log s)) as [e|]; [|done]. exists e. cbn in Hf. by bools.
  - exists (commit_index s). split; [by destruct s|by left].
Qed.

End Calls.

(** C35: When an answer is recorded, [recompute_commit_index] never panics and looks
    at the largest index that half of the voters, rounded up, have recorded.  That
    set meets every set of more than half of the voters, so every later election
    needs one of its members.  The commit index moves there when it is ahead and
    the entry is of the current term, and stays otherwise. *)
Theorem commit_index_is_recorded_by_half_of_the_voters {F} (s : ConsensusState F) :
  voters s <> ∅ ->
  exists m,
    (base.size (voters s) - base.size (voters s) / 2 <= base.size (reaching s m))%nat /\
    (forall m', (base.size (voters s) - base.size (voters s) / 2 <= base.size (reaching s m'))%nat -> m' <= m) /\
    (forall Q, Q ⊆ voters s -> (base.size (voters s) / 2 < base.size Q)%nat -> exists p, p ∈ Q /\ p ∈ reaching s m) /\
    recompute_commit_index s =
      (Val tt,
       if (commit_index s <? m)
          && from_option (fun e => term e =? current_term s) false (find_entry m (log s))
       then set_commit_index m s else s).
Proof.
  intros Hv. destruct (recompute_cases s Hv) as (m & Hm & Hr). destruct (middle_match s m Hm) as [Hn Hmax].
  exists m. ands; try done. intros Q HQ Hq. apply (quorums_meet (voters s)); [done|unfold reaching; set_solver|lia].
Qed.

(** A leader of four voters, two of which have recorded the entry. *)
Definition half_recorded : ConsensusState Z :=
  mkState "cluster" "A" 1 (Some "A") Leader (Some "A") 0 0 [mkEntry 1 1 7 7]
    {["A"; "B"; "C"; "D"]} {["A" := 1; "B" := 1]}.

Lemma commit_index_is_recorded_by_half_of_the_voters_witness :
  (exists m, (base.size (voters half_recorded) - base.size (voters half_recorded) / 2
              <= base.size (reaching half_recorded m))%nat) /\
  commit_index (recompute_commit_index half_recorded).2 = 1.
Proof.
  split; [|vm_compute; reflexivity].
  destruct (commit_index_is_recorded_by_half_of_the_voters half_recorded) as (m & Hm & _).
  - intros H. by apply (f_equal base.size) in H.
  - exists m. exact Hm.
Defined.
