(* ===== verification/Cluster.v ===== *)
(** * A cluster of consensus nodes

    Models the loop that drives the nodes, [consensus run] in
    [crates/bicdb-cli/src/main.rs], over a network that may delay, duplicate,
    reorder and lose requests and answers.  Every node has one driver thread,
    which runs election rounds, proposes local commits and sends append requests
    one peer at a time, and any number of connection threads, which answer
    requests; each of them works on the node under its write lock, so the atomic
    steps are the critical sections.  The state between the critical sections of a
    round is the driver's: the vote request it is collecting answers for, or the
    peers still to be sent to and the request it is waiting on.

    [consensus_state] is persisted before a call answers, so a restart finds the
    node as it was and a driver at the top of its loop, with one exception: when
    the application of committed frames fails, the advanced [last_applied] stays
    in memory.

    Of a node's database the model keeps the numbers that decide which frames it
    imports and the commits it holds.  Whether a frame verifies, and whether the
    steps of its import succeed, is an argument of the step that applies it. *)

(* @source crates/bicdb-cli/src/main.rs *)
From stdpp Require Import base tactics list numbers gmap strings sorting.
From Stdlib Require Import ZArith Lia.
From S2P Require Import Prelude Consensus.
Local Open Scope Z_scope.
Local Open Scope bic_scope.

(** [consensus_start_election_round] (10397-10420).  The votes: the node's own, and one for every other peer whose answer grants it. *)
Definition count_votes (config : ConsensusConfig) (answers : gmap string VoteResponse) : nat :=
  S (length (List.filter
    (fun peer => negb (bool_decide (peer_node_id peer = config_node_id config))
                 && from_option vr_vote_granted false (answers !! peer_node_id peer))
    (peers config))).

(** [consensus_start_election_round] (10417-10426).  The end of the round. *)
Definition close_election {F} (config : ConsensusConfig) (answers : gmap string VoteResponse) :
    st BicDbError (ConsensusState F) unit := fun s =>
  let votes := count_votes config answers in
  let voters := length (List.filter peer_voting (peers config)) in
  if bool_decide (voters / 2 < votes)%nat then become_leader s else (Val tt, s).

(** [consensus_send_append_entries] (10478-10481).  The peers a round sends to. *)
Definition other_peers (config : ConsensusConfig) : list string :=
  map peer_node_id
    (List.filter (fun peer => negb (bool_decide (peer_node_id peer = config_node_id config)))
       (peers config)).

(** ** The database of a node *)

(** The commit counter, [last_applied_commit_seq] of the replication state, and the
    commits the database holds, its own and imported ones. *)
Record Storage (F : Type) := mkStorage {
  last_commit_seq : Z;
  replicated_seq : Z;
  held : list F
}.
Arguments mkStorage {F}.
Arguments last_commit_seq {F} db : rename.
Arguments replicated_seq {F} db : rename.
Arguments held {F} db : rename.

(** How far the application of a frame comes: it does not verify (replica health,
    checksum, cluster, protocol version, journal); what precedes the import fails
    (attachments, collections, writes, staged catalog); the import fails before the
    commit is numbered; the catalog operations after it fail; the replication state
    cannot be written; nothing fails. *)
Inductive Verdict := Unsound | Unprepared | Broken | Unfinished | Unrecorded | Works.
#[export] Instance Verdict_eq_dec : EqDecision Verdict.
Proof. solve_decision. Defined.

Inductive ApplyError := NotVerified | OutOfOrder | NotPrepared | NotImported | NotFinished | NotRecorded.

Section Storage.
Context {F : Type} {seq : CommitFrame F}.
Abbreviation on_db := (st ApplyError (Storage F)).

(* @source crates/bicdb-core/src/db.rs *)
(** [BicDb::last_applied_commit_seq] (10958-10964). *)
Definition last_applied_commit_seq (standby : bool) (db : Storage F) : Z :=
  if standby then replicated_seq db else last_commit_seq db.

(* @source crates/bicdb-core/src/db/commit_snapshot.rs *)
(** [BicDb::apply_imported_replication_commit] (159-251).  The records a broken import has written by then are not followed. *)
Definition apply_imported_replication_commit (v : Verdict) (f : F) : on_db unit := fun db =>
  let current := last_commit_seq db in
  if frame_commit_seq f <=? current then (Val tt, db) else
  if negb (frame_commit_seq f =? sat_add current 1) then (Err OutOfOrder, db) else
  if bool_decide (v = Broken) then (Err NotImported, db) else
  (Val tt, mkStorage (frame_commit_seq f) (replicated_seq db) (held db ++ [f])).

(* @source crates/bicdb-core/src/db.rs *)
(** [BicDb::record_replication_apply_success] (11564-11575). *)
Definition record_replication_apply_success (v : Verdict) (f : F) : on_db unit := fun db =>
  (if bool_decide (v = Unrecorded) then Err NotRecorded else Val tt,
   mkStorage (last_commit_seq db) (frame_commit_seq f) (held db)).

(** [BicDb::apply_replication_frame_inner] (11497-11562).  As [consensus_apply_committed] calls it, with [require_standby] off. *)
Definition apply_replication_frame_inner (standby : bool) (v : Verdict) (f : F) : on_db unit := fun db =>
  if bool_decide (v = Unsound) then (Err NotVerified, db) else
  let current := last_applied_commit_seq standby db in
  if frame_commit_seq f <=? current then (Val tt, db) else
  if negb (frame_commit_seq f =? sat_add current 1) || negb (frame_previous_seq f =? current)
  then (Err OutOfOrder, db) else
  if bool_decide (v = Unprepared) then (Err NotPrepared, db) else
  (apply_imported_replication_commit v f ;;;
   (if bool_decide (v = Unfinished) then st_fail NotFinished else st_ret tt) ;;;
   record_replication_apply_success v f) db.

(** [BicDb::consensus_apply_committed] (11176-11180).  The loop over the frames ends at the first one that fails. *)
Fixpoint apply_frames (standby : bool) (verdicts : list Verdict) (frames : list F) : on_db unit :=
  match frames with
  | [] => st_ret tt
  | f :: frames =>
      apply_replication_frame_inner standby (hd Works verdicts) f ;;;
      apply_frames standby (tl verdicts) frames
  end.

(** [BicDb::consensus_apply_committed] (11170-11188).  The node's state is persisted only when every frame was applied; the result says whether. *)
Definition consensus_apply_committed (standby : bool) (verdicts : list Verdict)
    (s : ConsensusState F) (db : Storage F) : res ApplyError unit * ConsensusState F * Storage F :=
  let '(frames, s) := apply_committed_prefix s in
  let '(r, db) := apply_frames standby verdicts frames db in
  (r, s, db).

(** [load_replication_state] (18004-18034).  At open, given the number the transaction log was recovered to. *)
Definition load_replication_state (db : Storage F) : Storage F :=
  mkStorage (last_commit_seq db) (Z.max (replicated_seq db) (last_commit_seq db)) (held db).

End Storage.

(** ** The cluster *)

(* @source crates/bicdb-cli/src/main.rs *)
(** Where a driver thread is between two critical sections. *)
Inductive Driver (F : Type) :=
  | Idle
  | Electing (request : RequestVote)
  | Sending (todo : list string)
  | Awaiting (peer : string) (request : AppendEntries F) (todo : list string).
Arguments Idle {F}.
Arguments Electing {F} request.
Arguments Sending {F} todo.
Arguments Awaiting {F} peer request todo.

(** The nodes, their drivers, every request that was ever sent, every answer that
    was ever given with the request it answers, and the databases.  [unsaved] is
    the [last_applied] in the state file of a node where memory is ahead of it.
    [spoiled] records the nodes whose database took a commit of its own or failed
    to apply a frame. *)
Record Cluster (F : Type) := mkCluster {
  nodes : gmap string (ConsensusState F);
  drivers : gmap string (Driver F);
  vote_requests : list RequestVote;
  vote_answers : list (string * RequestVote * VoteResponse);
  append_requests : list (AppendEntries F);
  append_answers : list (string * AppendEntries F * AppendResponse);
  databases : gmap string (Storage F);
  unsaved : gmap string Z;
  spoiled : gset string
}.
Arguments mkCluster {F}.
Arguments nodes {F} c : rename.
Arguments drivers {F} c : rename.
Arguments vote_requests {F} c : rename.
Arguments vote_answers {F} c : rename.
Arguments append_requests {F} c : rename.
Arguments append_answers {F} c : rename.
Arguments databases {F} c : rename.
Arguments unsaved {F} c : rename.
Arguments spoiled {F} c : rename.

Inductive Action (F : Type) :=
  | Elect (n : string)
  | AnswerVote (p : string) (request : RequestVote)
  | CloseElection (n : string) (answers : gmap string VoteResponse)
  | LocalCommit (n : string) (f : F)
  | Propose (n : string) (f : F)
  | BeginRound (n : string)
  | SendNext (n : string)
  | AnswerAppend (p : string) (request : AppendEntries F) (standby : bool) (verdicts : list Verdict)
  | RecordAnswer (n : string) (response : AppendResponse)
  | LoseAnswer (n : string)
  | Restart (n : string).
Arguments Elect {F} n.
Arguments AnswerVote {F} p request.
Arguments CloseElection {F} n answers.
Arguments LocalCommit {F} n f.
Arguments Propose {F} n f.
Arguments BeginRound {F} n.
Arguments SendNext {F} n.
Arguments AnswerAppend {F} p request standby verdicts.
Arguments RecordAnswer {F} n response.
Arguments LoseAnswer {F} n.
Arguments Restart {F} n.

Section Cluster.
Context {F : Type} `{EqDecision F} {seq : CommitFrame F}.
Abbreviation state := (ConsensusState F).

(** The configuration every node is started with, but for its own id. *)
Variable shared : ConsensusConfig.

Definition config_of (n : string) : ConsensusConfig :=
  mkConfig (enabled shared) (config_cluster_id shared) n (peers shared)
    (election_timeout_ms shared) (heartbeat_interval_ms shared) (lease_timeout_ms shared).

Definition member_ids : list string := map peer_node_id (peers shared).

(* @source crates/bicdb-core/src/db.rs *)
(** [load_consensus_state] (18081-18108).  Given what the state file holds, if there is one. *)
Definition load_consensus_state (file : option state) (config : ConsensusConfig) : res BicDbError state :=
  match file with
  | None => Val (new config)
  | Some s =>
      if enabled config then
        if negb (bool_decide (cluster_id s = config_cluster_id config))
        then Err (ConsensusFault ("consensus state cluster_id mismatch: config="
               +:+ config_cluster_id config +:+ ", state=" +:+ cluster_id s)) else
        if negb (bool_decide (node_id s = config_node_id config))
        then Err (ConsensusFault ("consensus state node_id mismatch: config="
               +:+ config_node_id config +:+ ", state=" +:+ node_id s)) else
        let s := set_voters (voter_ids config) s in
        Val (set_match_index
               (fold_right (fun voter m => match m !! voter with Some _ => m | None => <[voter := 0]> m end)
                  (match_index s) (elements (voters s))) s)
      else Val s
  end.

(* @source crates/bicdb-cli/src/main.rs *)
Definition driver (c : Cluster F) (n : string) : Driver F := default Idle (drivers c !! n).

Definition db_of (c : Cluster F) (n : string) : Storage F := default (mkStorage 0 0 []) (databases c !! n).

(** The node's state, in memory and, with [persist], in its file. *)
Definition put_node (persist : bool) n s (c : Cluster F) : Cluster F :=
  mkCluster (<[n := s]> (nodes c)) (drivers c) (vote_requests c) (vote_answers c)
    (append_requests c) (append_answers c) (databases c)
    (if persist then base.delete n (unsaved c) else unsaved c) (spoiled c).
Abbreviation set_node := (put_node true).
Definition set_driver n d (c : Cluster F) : Cluster F :=
  mkCluster (nodes c) (<[n := d]> (drivers c)) (vote_requests c) (vote_answers c)
    (append_requests c) (append_answers c) (databases c) (unsaved c) (spoiled c).
Definition ask_votes r (c : Cluster F) : Cluster F :=
  mkCluster (nodes c) (drivers c) (r :: vote_requests c) (vote_answers c)
    (append_requests c) (append_answers c) (databases c) (unsaved c) (spoiled c).
Definition note_vote p q r (c : Cluster F) : Cluster F :=
  mkCluster (nodes c) (drivers c) (vote_requests c) ((p, q, r) :: vote_answers c)
    (append_requests c) (append_answers c) (databases c) (unsaved c) (spoiled c).
Definition ask_append r (c : Cluster F) : Cluster F :=
  mkCluster (nodes c) (drivers c) (vote_requests c) (vote_answers c)
    (r :: append_requests c) (append_answers c) (databases c) (unsaved c) (spoiled c).
Definition note_append p q r (c : Cluster F) : Cluster F :=
  mkCluster (nodes c) (drivers c) (vote_requests c) (vote_answers c)
    (append_requests c) ((p, q, r) :: append_answers c) (databases c) (unsaved c) (spoiled c).
Definition set_db n db (c : Cluster F) : Cluster F :=
  mkCluster (nodes c) (drivers c) (vote_requests c) (vote_answers c)
    (append_requests c) (append_answers c) (<[n := db]> (databases c)) (unsaved c) (spoiled c).
Definition spoil n (c : Cluster F) : Cluster F :=
  mkCluster (nodes c) (drivers c) (vote_requests c) (vote_answers c)
    (append_requests c) (append_answers c) (databases c) (unsaved c) ({[n]} ∪ spoiled c).
Definition leave_unsaved n a (c : Cluster F) : Cluster F :=
  mkCluster (nodes c) (drivers c) (vote_requests c) (vote_answers c)
    (append_requests c) (append_answers c) (databases c) (<[n := a]> (unsaved c)) (spoiled c).

(** What the application of frames left: the database, and after a failure the
    state file behind at [a]. *)
Definition hand_over p (r : res ApplyError unit) a db (c : Cluster F) : Cluster F :=
  let c := set_db p db c in
  match r with Val _ => c | _ => spoil p (leave_unsaved p a c) end.

(** [consensus_start_election_round] (10390-10397).  Entered from the loop by a node that does not lead. *)
Definition elect (n : string) (c : Cluster F) : option (Cluster F) :=
  s ← nodes c !! n;
  match driver c n with
  | Idle =>
      if bool_decide (role s = Leader) then None else
      let '(request, s) := become_candidate s in
      Some (set_driver n (Electing request) (ask_votes request (set_node n s c)))
  | _ => None
  end.

(** [consensus_handle_connection] (10349-10366).  A vote request is answered. *)
Definition answer_vote (p : string) (request : RequestVote) (c : Cluster F) : option (Cluster F) :=
  s ← nodes c !! p;
  if bool_decide (request ∈ vote_requests c) then
    match handle_request_vote request s with
    | (Val response, s) => Some (note_vote p request response (set_node p s c))
    | _ => None
    end
  else None.

(** [consensus_start_election_round] (10399-10427).  The answers that arrived are counted; becoming leader is persisted. *)
Definition finish_election (n : string) (answers : gmap string VoteResponse) (c : Cluster F) :
    option (Cluster F) :=
  s ← nodes c !! n;
  match driver c n with
  | Electing request =>
      if forallb (fun '(p, r) => bool_decide ((p, request, r) ∈ vote_answers c)) (map_to_list answers)
      then
        let s' := (close_election (config_of n) answers s).2 in
        let won := negb (bool_decide (role s = Leader)) && bool_decide (role s' = Leader) in
        Some (set_driver n Idle (put_node won n s' c))
      else None
  | _ => None
  end.

(* @source crates/bicdb-core/src/db.rs *)
(** [BicDb::ensure_writable_by_consensus] (11094-11109).  A commit with writes is taken by a node that leads, under the number after the last. *)
Definition local_commit (n : string) (f : F) (c : Cluster F) : option (Cluster F) :=
  s ← nodes c !! n;
  let db := db_of c n in
  if bool_decide (status_role (status s) = Leader)
     && (frame_commit_seq f =? sat_add (last_commit_seq db) 1) && (frame_previous_seq f =? last_commit_seq db)
  then Some (spoil n (set_db n (mkStorage (frame_commit_seq f) (replicated_seq db) (held db ++ [f])) c))
  else None.

(* @source crates/bicdb-cli/src/main.rs *)
(** [consensus_propose_local_frames] (10441-10447).  One frame is appended by the loop of a leader. *)
Definition propose (n : string) (f : F) (c : Cluster F) : option (Cluster F) :=
  s ← nodes c !! n;
  match driver c n, append_local_commit f s with
  | Idle, (Val _, s) => Some (set_node n s c)
  | _, _ => None
  end.

(** [consensus_send_append_entries] (10473-10481).  The role is looked up, and the round starts. *)
Definition begin_round (n : string) (c : Cluster F) : option (Cluster F) :=
  s ← nodes c !! n;
  match driver c n with
  | Idle =>
      if bool_decide (status_role (status s) = Leader)
      then Some (set_driver n (Sending (other_peers (config_of n))) c)
      else None
  | _ => None
  end.

(** [consensus_send_append_entries] (10482-10494).  The request for the next peer is built and sent, or the round ends. *)
Definition send_next (n : string) (c : Cluster F) : option (Cluster F) :=
  s ← nodes c !! n;
  match driver c n with
  | Sending [] => Some (set_driver n Idle c)
  | Sending (peer :: todo) =>
      let request := append_entries_from 1 s in
      Some (set_driver n (Awaiting peer request todo) (ask_append request c))
  | _ => None
  end.

(** [consensus_handle_connection] (10367-10382).  An append request is answered and what it commits is applied; an error of the application is dropped. *)
Definition answer_append (p : string) (request : AppendEntries F) (standby : bool) (verdicts : list Verdict)
    (c : Cluster F) : option (Cluster F) :=
  s ← nodes c !! p;
  if bool_decide (request ∈ append_requests c) then
    match handle_append_entries request s with
    | (Val response, s) =>
        let '(r, s', db) := consensus_apply_committed standby verdicts s (db_of c p) in
        Some (hand_over p r (last_applied s) db (note_append p request response (set_node p s' c)))
    | _ => None
    end
  else None.

(** [consensus_send_append_entries] (10495-10507).  The answer to the request the driver waits on is recorded. *)
Definition record_answer (n : string) (response : AppendResponse) (c : Cluster F) : option (Cluster F) :=
  s ← nodes c !! n;
  match driver c n with
  | Awaiting peer request todo =>
      if bool_decide ((peer, request, response) ∈ append_answers c)
      then
        let '(r, s) := record_append_response peer response s in
        Some (set_driver n (Sending todo) (put_node (match r with Val _ => true | _ => false end) n s c))
      else None
  | _ => None
  end.

(** [consensus_send_append_entries] (10508-10514).  The request failed; the round goes on. *)
Definition lose_answer (n : string) (c : Cluster F) : option (Cluster F) :=
  _ ← nodes c !! n;
  match driver c n with
  | Awaiting peer request todo => Some (set_driver n (Sending todo) c)
  | _ => None
  end.

(** The process of a node ends and is started again on its files. *)
Definition restart (n : string) (c : Cluster F) : option (Cluster F) :=
  s ← nodes c !! n;
  let file := match unsaved c !! n with Some a => set_last_applied a s | None => s end in
  match load_consensus_state (Some file) (config_of n) with
  | Val s => Some (set_driver n Idle (set_db n (load_replication_state (db_of c n)) (set_node n s c)))
  | _ => None
  end.

Definition act (a : Action F) : Cluster F -> option (Cluster F) :=
  match a with
  | Elect n => elect n
  | AnswerVote p request => answer_vote p request
  | CloseElection n answers => finish_election n answers
  | LocalCommit n f => local_commit n f
  | Propose n f => propose n f
  | BeginRound n => begin_round n
  | SendNext n => send_next n
  | AnswerAppend p request standby verdicts => answer_append p request standby verdicts
  | RecordAnswer n response => record_answer n response
  | LoseAnswer n => lose_answer n
  | Restart n => restart n
  end.

Definition start : Cluster F :=
  mkCluster (list_to_map (map (fun n => (n, new (config_of n))) member_ids)) ∅ [] [] [] [] ∅ ∅ ∅.

(** What memory and the counters bound: a [Vec] holds at most [isize::MAX] bytes,
    and no term has reached the largest [u64], where [saturating_add] stops. *)
Definition vec_max : Z := 9223372036854775807.
Definition within (c : Cluster F) : Prop :=
  map_Forall (fun _ s => current_term s < u64_max /\ len (log s) <= vec_max) (nodes c).

(** A request is sent by a node that leads.  The round looks the role up once, at
    its start, so the code does not ensure this. *)
Definition leads (a : Action F) (c : Cluster F) : Prop :=
  match a with
  | SendNext n =>
      match nodes c !! n, driver c n with
      | Some s, Sending (_ :: _) => role s = Leader
      | _, _ => True
      end
  | _ => True
  end.

#[export] Instance within_dec c : Decision (within c).
Proof. unfold within. apply _. Defined.
#[export] Instance leads_dec a c : Decision (leads a c).
Proof. destruct a; cbn; try apply _. destruct (nodes c !! n); [|apply _]. destruct (driver c n) as [| |[]|]; apply _. Defined.

(** The clusters that come about from a fresh one; with [strict], those in which
    every request was sent by a node that led when it was built. *)
Inductive reachable (strict : bool) : Cluster F -> Prop :=
  | reach_start : reachable strict start
  | reach_act c a c' :
      reachable strict c -> act a c = Some c' -> within c' -> (strict = true -> leads a c) ->
      reachable strict c'.

End Cluster.
Abbreviation set_node := (put_node true).

(** ** The configuration *)

Lemma validate_distinct node seen b l r :
  validate_peers node seen b l = Val r ->
  NoDup (map peer_node_id l) /\ (forall p, p ∈ map peer_node_id l -> p ∉ seen).
Proof.
  revert seen b. induction l as [|p l IH]; intros seen b; cbn.
  { intros _. split; [constructor|]. set_solver. }
  do 2 (destruct (trimmed_empty _); [done|]). case_bool_decide as Hs; [done|].
  intros [Hd Ho]%IH. split.
  - constructor; [|done]. intros Hin%Ho. set_solver.
  - intros q [->|Hq]%elem_of_cons; [done|]. apply Ho in Hq. set_solver.
Qed.

Lemma validate_reaches_peers c :
  enabled c = true -> validate c = Val tt ->
  exists r, validate_peers (config_node_id c) ∅ false (peers c) = Val r.
Proof.
  intros He. unfold validate. rewrite He. cbn [negb].
  do 4 (match goal with |- (if ?b then _ else _) = _ -> _ => destruct b; [done|] end).
  destruct (validate_peers _ _ _ _) as [r| |]; try done. by exists r.
Qed.

(** Every member is started with a valid configuration, and every member votes,
    as [parse_consensus_peers] makes them. *)
Definition well_configured (shared : ConsensusConfig) : Prop :=
  enabled shared = true /\
  Forall (fun p => peer_voting p = true /\
                   validate (config_of shared (peer_node_id p)) = Val tt) (peers shared).

Lemma members_distinct shared : well_configured shared -> NoDup (member_ids shared).
Proof.
  intros [He Hf]. unfold member_ids. destruct (peers shared) as [|p l] eqn:Hp; [constructor|].
  inversion_clear Hf as [|? ? [_ Hv] _]. destruct (validate_reaches_peers (config_of shared (peer_node_id p)) He Hv) as [r Hr].
  cbn [peers config_of] in Hr. rewrite Hp in Hr. by apply validate_distinct in Hr as [? _].
Qed.

Lemma all_voting shared : well_configured shared -> List.filter peer_voting (peers shared) = peers shared.
Proof.
  intros [_ Hf]. induction Hf as [|p l [Hp _] _ IH]; [done|]. cbn. by rewrite Hp, IH.
Qed.

Lemma voters_members shared n :
  well_configured shared -> voter_ids (config_of shared n) = list_to_set (member_ids shared).
Proof. intros H. unfold voter_ids, member_ids. cbn. by rewrite all_voting. Qed.

Lemma voters_count shared :
  well_configured shared ->
  base.size (list_to_set (C := gset string) (member_ids shared)) = length (peers shared).
Proof.
  intros H. rewrite size_list_to_set by by apply members_distinct. unfold member_ids. by rewrite length_map.
Qed.

Lemma NoDup_map_filter {A B} (g : A -> B) (f : A -> bool) l : NoDup (map g l) -> NoDup (map g (List.filter f l)).
Proof.
  induction l as [|y ys IH]; cbn; [done|]. intros [Hy Hd]%NoDup_cons. destruct (f y); [|by auto].
  cbn. constructor; [|by auto]. intros (z & Hz & Hin)%list_elem_of_fmap. apply Hy, list_elem_of_fmap.
  exists z. split; [done|]. apply list_elem_of_In, filter_In in Hin as [Hin _]. by apply list_elem_of_In.
Qed.

(** ** Histories

    What the proofs remember beyond the cluster: who led each term, with which log
    it was elected, what it wrote, who backed it, and every vote with the log of
    its voter. *)

Record Reign (F : Type) := mkReign {
  chief : string;
  opening : list (ConsensusLogEntry F);
  written : list (ConsensusLogEntry F);
  backers : gset string
}.
Arguments mkReign {F}.
Arguments chief {F} r : rename.
Arguments opening {F} r : rename.
Arguments written {F} r : rename.
Arguments backers {F} r : rename.

Record History (F : Type) := mkHistory {
  led : gmap Z (Reign F);
  ballots : gmap (Z * string) (string * list (ConsensusLogEntry F))
}.
Arguments mkHistory {F}.
Arguments led {F} h : rename.
Arguments ballots {F} h : rename.

Section Histories.
Context {F : Type}.
Implicit Types h : History F.
Implicit Types l : list (ConsensusLogEntry F).
Implicit Types r : Reign F.

(** Every entry of the log, with what precedes it, is what the leader of its term
    wrote. *)
Definition good h l : Prop :=
  forall k e, l !! k = Some e ->
    exists r, led h !! term e = Some r /\ take (S k) l `prefix_of` written r.

(** Reigns stay what they are but for entries appended, votes stay. *)
Record grows h h' : Prop := {
  gr_led t r : led h !! t = Some r ->
    exists w, led h' !! t = Some (mkReign (chief r) (opening r) w (backers r)) /\ written r `prefix_of` w;
  gr_ballots k b : ballots h !! k = Some b -> ballots h' !! k = Some b
}.

#[export] Instance grows_preorder : PreOrder grows.
Proof.
  split.
  - intros h. split; [|done]. intros t r Hr. exists (written r). split; [|done]. rewrite Hr. by destruct r.
  - intros h1 h2 h3 [L1 B1] [L2 B2]. split; [|eauto]. intros t r Hr.
    destruct (L1 t r Hr) as (w & Hw & Hp). destruct (L2 _ _ Hw) as (w' & Hw' & Hp'). cbn in *.
    exists w'. split; [done|]. by trans w.
Qed.

Lemma good_grows h h' l : grows h h' -> good h l -> good h' l.
Proof.
  intros Hg Hl k e Hk. destruct (Hl k e Hk) as (r & Hr & Hp).
  destruct (gr_led _ _ Hg _ _ Hr) as (w & Hw & Hwp). eexists. split; [exact Hw|]. cbn. by trans (written r).
Qed.

Lemma good_nil h : good h [].
Proof. by intros k e. Qed.

Lemma take_prefix_of l l' k : l `prefix_of` l' -> take k l `prefix_of` take k l'.
Proof.
  intros [m ->]. rewrite take_app. apply prefix_app_r. done.
Qed.

Lemma good_prefix h l l' : l `prefix_of` l' -> good h l' -> good h l.
Proof.
  intros Hp Hl k e Hk. destruct (Hl k e) as (r & Hr & Hr').
  { by eapply prefix_lookup_Some. }
  exists r. split; [done|]. trans (take (S k) l'); [by apply take_prefix_of|done].
Qed.

(** Prefixes of one list agree as far as both go. *)
Lemma prefixes_agree {A} (a b c : list A) k :
  a `prefix_of` c -> b `prefix_of` c -> (k <= length a)%nat -> (k <= length b)%nat -> take k a = take k b.
Proof.
  intros [x ->] [y Hy] Ha Hb. apply (f_equal (take k)) in Hy.
  rewrite !take_app_le in Hy by done. done.
Qed.

(** Log matching: entries of one term at one position have the same past. *)
Lemma good_match h l l' k e e' :
  good h l -> good h l' -> l !! k = Some e -> l' !! k = Some e' -> term e = term e' ->
  take (S k) l = take (S k) l'.
Proof.
  intros Hl Hl' He He' Ht. destruct (Hl k e He) as (r & Hr & Hp). destruct (Hl' k e' He') as (r' & Hr' & Hp').
  rewrite Ht, Hr' in Hr. simplify_eq.
  pose proof (lookup_lt_Some _ _ _ He). pose proof (lookup_lt_Some _ _ _ He').
  pose proof (prefixes_agree _ _ _ (S k) Hp Hp') as Ha. rewrite !length_take, !take_take, !Nat.min_id in Ha.
  apply Ha; lia.
Qed.

(** Two good logs whose terms agree up to [m] agree up to [m]. *)
Lemma good_agree h l l' m :
  good h l -> good h l' -> (m <= length l)%nat -> (m <= length l')%nat ->
  (forall j a b, (j < m)%nat -> l !! j = Some a -> l' !! j = Some b -> term a = term b) ->
  take m l = take m l'.
Proof.
  intros Hl Hl' Hm Hm' Ht. destruct m as [|m]; [done|].
  destruct (lookup_lt_is_Some_2 l m) as [a Ha]; [lia|]. destruct (lookup_lt_is_Some_2 l' m) as [b Hb]; [lia|].
  eapply good_match; eauto.
Qed.

End Histories.

Section Merging.
Context {F : Type} {seq : CommitFrame F}.

(** A request that carries a whole good log replaces the node's log by it, unless
    the node already has it and possibly more. *)
Lemma append_good h es (s s1 : ConsensusState F) complete :
  node_ok s -> good h (log s) -> good h es -> numbered es -> len (log s) + len es < u64_max ->
  append_incoming es s = (complete, s1) ->
  complete = true /\ rest s1 = rest s /\
  (es `prefix_of` log s /\ s1 = s \/
   ~ es `prefix_of` log s /\ log s1 = es /\
   exists m, (m <= length (log s))%nat /\ (m <= length es)%nat /\ take m (log s) = take m es /\
     commit_index s1 = Z.min (commit_index s) (Z.of_nat m) /\
     last_applied s1 = Z.min (last_applied s) (commit_index s1) /\
     (m = length (log s) \/ log s !! m <> es !! m)).
Proof.
  intros Hs Hl He Hn Hb Happ. pose proof (append_incoming_rest es s) as Hrest. rewrite Happ in Hrest.
  destruct (append_incoming_spec es 0 s) as (m & s' & Heq & Hm & Hml & Hag & Hc); [done|by intros; apply Hn|lia|done|].
  rewrite Happ in Heq. injection Heq as [= -> ->]. rewrite Nat.add_0_l, Nat.sub_0_r in *.
  assert (Ht : take m (log s) = take m es).
  { apply (good_agree h); [done|done|lia|lia|]. intros j a b Hj Ha Hj'. apply (Hag j); auto. }
  ands; [done..|]. destruct Hc as [[-> ->]|(Hlt & Hlog & Hci & Hla & Hd)].
  - left. split; [|done]. rewrite firstn_all in Ht. rewrite <-Ht. apply prefix_take.
  - right. rewrite Ht, take_drop in Hlog. ands; [|done|].
    + intros Hp. destruct Hd as [->|(a & b & Ha & Hb' & Hne)]; [apply prefix_length in Hp; lia|].
      pose proof (prefix_lookup_Some _ _ _ _ Hb' Hp). congruence.
    + exists m. ands; try done; [lia|]. destruct Hd as [?|(a & b & Ha & Hb' & Hne)]; [by left|right].
      rewrite Ha, Hb'. congruence.
Qed.

End Merging.

Section Safety.
Context {F : Type} `{EqDecision F} {seq : CommitFrame F}.
Variable shared : ConsensusConfig.
Hypothesis configured : well_configured shared.
Implicit Types h : History F.
Implicit Types c : Cluster F.
Implicit Types s : ConsensusState F.

Abbreviation members := (list_to_set (C := gset string) (member_ids shared)).

(** What one node knows of the history: its log is good, its vote and its reign
    are on record, and a candidate's log is what its requests say it is. *)
Record node_inv h c (n : string) s : Prop := {
  ni_member : n ∈ members;
  ni_id : node_id s = n;
  ni_cluster : cluster_id s = config_cluster_id shared;
  ni_voters : voters s = members;
  ni_ok : node_ok s;
  ni_term : 0 <= current_term s;
  ni_good : good h (log s);
  ni_below e : e ∈ log s -> term e <= current_term s;
  ni_ballot t b l : ballots h !! (t, n) = Some (b, l) ->
    t <= current_term s /\ (t = current_term s -> voted_for s = Some b);
  ni_voted b : voted_for s = Some b -> exists l, ballots h !! (current_term s, n) = Some (b, l);
  ni_chief t r : led h !! t = Some r -> chief r = n -> t <= current_term s;
  ni_leader : role s = Leader ->
    exists r, led h !! current_term s = Some r /\ chief r = n /\ written r = log s;
  ni_self : role s = Candidate -> voted_for s = Some n /\ 1 <= current_term s;
  ni_backed p l : role s = Candidate -> ballots h !! (current_term s, p) = Some (n, l) ->
    at_least (log s) l;
  ni_asked q : role s = Candidate -> q ∈ vote_requests c -> rv_candidate_id q = n ->
    rv_term q = current_term s ->
    rv_last_log_index q = len (log s) /\ rv_last_log_term q = tip_term (log s);
  ni_electing q : driver c n = Electing q -> rv_candidate_id q = n /\
    (role s = Candidate -> rv_term q = current_term s /\
       forall r, led h !! current_term s = Some r -> chief r <> n)
}.

(** A reign: elected with entries of earlier terms by more than half of the
    members, each of which had a log no better; since then it wrote entries of its
    own term. *)
Record reign_ok h (u : Z) (r : Reign F) : Prop := {
  ro_term : 1 <= u;
  ro_opening : opening r `prefix_of` written r;
  ro_before e : e ∈ opening r -> term e < u;
  ro_own i e : written r !! i = Some e -> (length (opening r) <= i)%nat -> term e = u;
  ro_good : good h (written r);
  ro_members : backers r ⊆ members;
  ro_quorum : (base.size members / 2 < base.size (backers r))%nat;
  ro_backed p : p ∈ backers r ->
    exists l, ballots h !! (u, p) = Some (chief r, l) /\ at_least (opening r) l
}.

(** An append request carries a whole log. *)
Record request_ok h (q : AppendEntries F) : Prop := {
  ao_prev : prev_log_index q = 0;
  ao_cluster : ae_cluster_id q = config_cluster_id shared;
  ao_numbered : numbered (entries q);
  ao_good : good h (entries q);
  ao_below e : e ∈ entries q -> term e <= ae_term q;
  ao_commit : 0 <= leader_commit q <= len (entries q);
  ao_size : len (entries q) <= vec_max
}.

Record Inv h c : Prop := {
  inv_within : within c;
  inv_node n s : nodes c !! n = Some s -> node_inv h c n s;
  inv_asked q : q ∈ vote_requests c ->
    rv_cluster_id q = config_cluster_id shared /\
    exists s, nodes c !! rv_candidate_id q = Some s /\ rv_term q <= current_term s;
  inv_answered p q r : (p, q, r) ∈ vote_answers c -> vr_vote_granted r = true ->
    exists l, ballots h !! (rv_term q, p) = Some (rv_candidate_id q, l);
  inv_request q : q ∈ append_requests c -> request_ok h q;
  inv_reign u r : led h !! u = Some r -> reign_ok h u r;
  inv_ballot u p b l : ballots h !! (u, p) = Some (b, l) ->
    good h l /\ exists s, nodes c !! b = Some s /\ u <= current_term s
}.

(** One leader per term. *)
Lemma reign_unique h u r u' r' p :
  reign_ok h u r -> reign_ok h u' r' -> p ∈ backers r -> p ∈ backers r' -> u = u' -> chief r = chief r'.
Proof.
  intros Hr Hr' Hp Hp' ->. destruct (ro_backed _ _ _ Hr p Hp) as (l & Hl & _).
  destruct (ro_backed _ _ _ Hr' p Hp') as (l' & Hl' & _). by rewrite Hl in Hl'; simplify_eq.
Qed.

Lemma request_grows h h' q : grows h h' -> request_ok h q -> request_ok h' q.
Proof. intros Hg []. split; try done. by eapply good_grows. Qed.

Lemma reign_grows h h' u r : grows h h' -> reign_ok h u r -> reign_ok h' u r.
Proof.
  intros Hg []. split; try done; [by eapply good_grows|]. intros p Hp.
  destruct (ro_backed0 p Hp) as (l & Hl & Ha). exists l. split; [|done]. by eapply gr_ballots.
Qed.

(** A node that a step leaves alone keeps its invariant, when the step adds no
    reign, no vote and no request of that node, and a vote for it comes from a log
    no better. *)
Lemma node_inv_frame h h' c c' n s :
  grows h h' -> node_inv h c n s ->
  (forall t r, led h' !! t = Some r -> chief r = n -> led h !! t = Some r) ->
  (forall t b, ballots h' !! (t, n) = Some b -> ballots h !! (t, n) = Some b) ->
  (forall p l, role s = Candidate -> ballots h' !! (current_term s, p) = Some (n, l) ->
     ballots h !! (current_term s, p) = Some (n, l) \/ at_least (log s) l) ->
  (forall q, q ∈ vote_requests c' -> rv_candidate_id q = n -> q ∈ vote_requests c) ->
  driver c' n = driver c n ->
  node_inv h' c' n s.
Proof.
  intros Hg Hi Hled Hown Hfor Hreq Hd. destruct Hi. split; try done.
  - by eapply good_grows.
  - intros t b l Hb%Hown. eauto.
  - intros b Hb. destruct (ni_voted0 b Hb) as [l Hl]. exists l. by eapply gr_ballots.
  - eauto.
  - intros Hr. destruct (ni_leader0 Hr) as (r & Hr' & Hc & Hw).
    destruct (gr_led _ _ Hg _ _ Hr') as (w & Hw' & _). exists r. split; [|done].
    rewrite (Hled _ _ Hw') in Hr' by done. by rewrite Hw', Hr'.
  - intros p l Hr Hb. destruct (Hfor p l Hr Hb); eauto.
  - eauto.
  - rewrite Hd. intros q Hq. destruct (ni_electing0 q Hq) as [Hc He]. split; [done|].
    intros Hr. destruct (He Hr) as [Ht Hn]. split; [done|]. intros r Hl Hch. by apply (Hn r); [apply Hled|].
Qed.

(** A node whose term only grows is still past the terms it was past. *)
Lemma past_insert (ns : gmap string (ConsensusState F)) n s s' m t :
  ns !! n = Some s -> current_term s <= current_term s' ->
  (exists sm, ns !! m = Some sm /\ t <= current_term sm) ->
  exists sm, <[n := s']> ns !! m = Some sm /\ t <= current_term sm.
Proof.
  intros Hs Ht (sm & Hm & Htm). destruct (decide (m = n)) as [->|Hne].
  - exists s'. rewrite lookup_insert_eq. split; [done|]. rewrite Hs in Hm. simplify_eq. lia.
  - exists sm. by rewrite lookup_insert_ne.
Qed.

(** A step that adds nothing to the history and changes one node. *)
Lemma inv_quiet h c c' n s s' :
  Inv h c -> nodes c !! n = Some s -> nodes c' = <[n := s']> (nodes c) -> within c' ->
  current_term s <= current_term s' -> node_inv h c' n s' ->
  vote_requests c' = vote_requests c ->
  (forall m, m <> n -> driver c' m = driver c m) ->
  (forall p q r, (p, q, r) ∈ vote_answers c' -> (p, q, r) ∈ vote_answers c \/
     (vr_vote_granted r = true -> exists l, ballots h !! (rv_term q, p) = Some (rv_candidate_id q, l))) ->
  (forall q, q ∈ append_requests c' -> q ∈ append_requests c \/ request_ok h q) ->
  Inv h c'.
Proof.
  intros Hi Hs Hn Hw Ht Hn' Hv Hd Ha Hq. split; try done; try by apply Hi.
  - intros m sm. rewrite Hn. intros [[<- <-]|[Hne Hm]]%lookup_insert_Some; [done|].
    eapply node_inv_frame; [reflexivity|by eapply inv_node|..]; eauto.
    intros q Hq' _. by rewrite <-Hv.
  - intros q. rewrite Hv. intros Hq'. destruct (inv_asked _ _ Hi q Hq') as (Hc & Hsq).
    split; [done|]. rewrite Hn. by eapply past_insert.
  - intros p q r Hin Hg. destruct (Ha p q r Hin) as [Hold|Hnew]; [|by auto]. by eapply inv_answered.
  - intros q Hin. destruct (Hq q Hin) as [Hold|]; [|done]. by eapply inv_request.
  - intros u p b l Hl. destruct (inv_ballot _ _ Hi _ _ _ _ Hl) as [Hg Hb].
    split; [done|]. rewrite Hn. by eapply past_insert.
Qed.

(** A node whose counters move and nothing else. *)
Lemma node_inv_counters h c c' n s s' :
  node_inv h c n s -> rest (set_match_index ∅ s') = rest (set_match_index ∅ s) ->
  log s' = log s -> node_ok s' -> vote_requests c' = vote_requests c ->
  (forall q, driver c' n = Electing q -> driver c n = Electing q) ->
  node_inv h c' n s'.
Proof.
  intros [] Hr Hl Hok Hv Hd. injection Hr as Hr1 Hr2 Hr3 Hr4 Hr5 Hr6 Hr7. cbn in *.
  split; rewrite ?Hr1, ?Hr2, ?Hr3, ?Hr4, ?Hr5, ?Hr6, ?Hr7, ?Hl, ?Hv; eauto.
Qed.

(** A node that steps down, perhaps to a later term, and perhaps takes over a log. *)
Lemma node_inv_follow h c c' n s s' :
  node_inv h c n s -> role s' = Follower ->
  cluster_id s' = cluster_id s -> node_id s' = node_id s -> voters s' = voters s ->
  current_term s <= current_term s' ->
  voted_for s' = (if current_term s <? current_term s' then None else voted_for s) ->
  node_ok s' -> good h (log s') -> (forall e, e ∈ log s' -> term e <= current_term s') ->
  driver c' n = driver c n ->
  node_inv h c' n s'.
Proof.
  intros Hi Hf Hc Hid Hvs Ht Hv Hok Hg Hb Hd. destruct Hi.
  split; rewrite ?Hc, ?Hid, ?Hvs, ?Hf; try done; try lia.
  - intros t b l Hl. destruct (ni_ballot0 t b l Hl) as [Hle Hvote]. split; [lia|]. intros ->.
    rewrite Hv. destruct (Z.ltb_spec (current_term s) (current_term s')); [lia|]. apply Hvote. lia.
  - intros b. rewrite Hv. destruct (Z.ltb_spec (current_term s) (current_term s')); [done|].
    intros Hb'. replace (current_term s') with (current_term s) by lia. auto.
  - intros t r Hl Hch. specialize (ni_chief0 t r Hl Hch). lia.
  - rewrite Hd. intros q Hq. destruct (ni_electing0 q Hq) as [? _]. by split.
Qed.

Lemma node_inv_step_down h c c' n s t leader :
  node_inv h c n s -> current_term s <= t -> driver c' n = driver c n ->
  node_inv h c' n (step_down t leader s).
Proof.
  intros Hi Ht Hd. pose proof (ni_ok _ _ _ _ Hi) as Hok. pose proof (step_down_ok t leader s Hok) as Hok'.
  destruct (Z.le_gt_cases t (current_term s)) as [Hle|Hgt].
  - rewrite step_down_same in * by done. eapply node_inv_follow; try done; cbn.
    + by rewrite Z.ltb_irrefl.
    + apply Hi.
    + apply Hi.
  - rewrite step_down_later in * by lia. eapply node_inv_follow; try done; cbn; [ |apply Hi|].
    + by rewrite (proj2 (Z.ltb_lt _ _)).
    + intros e He. pose proof (ni_below _ _ _ _ Hi e He). lia.
Qed.

(** *** What each step adds to the history *)

Definition add_ballot (t : Z) (p b : string) l h : History F :=
  mkHistory (led h) (match ballots h !! (t, p) with
                     | Some _ => ballots h
                     | None => <[(t, p) := (b, l)]> (ballots h)
                     end).

Definition set_reign (u : Z) (r : Reign F) h : History F := mkHistory (<[u := r]> (led h)) (ballots h).

Definition granting (n : string) (answers : gmap string VoteResponse) : gset string :=
  {[n]} ∪ list_to_set (map peer_node_id (List.filter
    (fun peer => negb (bool_decide (peer_node_id peer = n))
                 && from_option vr_vote_granted false (answers !! peer_node_id peer)) (peers shared))).

Definition remember (a : Action F) c h : History F :=
  match a with
  | Elect n =>
      match nodes c !! n with
      | Some s => add_ballot (sat_add (current_term s) 1) n n (log s) h
      | None => h
      end
  | AnswerVote p q =>
      match nodes c !! p with
      | Some s =>
          match handle_request_vote q s with
          | (Val r, _) => if vr_vote_granted r then add_ballot (rv_term q) p (rv_candidate_id q) (log s) h else h
          | _ => h
          end
      | None => h
      end
  | CloseElection n answers =>
      match nodes c !! n with
      | Some s =>
          match close_election (config_of shared n) answers s with
          | (Val _, s') =>
              if bool_decide (role s' = Leader)
              then if bool_decide (role s = Candidate)
                   then set_reign (current_term s) (mkReign n (log s) (log s) (granting n answers)) h
                   else h
              else h
          | _ => h
          end
      | None => h
      end
  | Propose n f =>
      match nodes c !! n, led h !! default 0 (current_term <$> nodes c !! n) with
      | Some s, Some r =>
          set_reign (current_term s)
            (mkReign (chief r) (opening r) (log (append_local_commit f s).2) (backers r)) h
      | _, _ => h
      end
  | _ => h
  end.

Lemma add_ballot_grows t p b l h : grows h (add_ballot t p b l h).
Proof.
  split; [intros u r Hr; exists (written r); by destruct r|].
  intros k x Hk. cbn. destruct (ballots h !! (t, p)) eqn:He; [done|].
  rewrite lookup_insert_ne; [done|]. congruence.
Qed.

Lemma add_ballot_lookup t p b l h u m x :
  ballots (add_ballot t p b l h) !! (u, m) = Some x ->
  ballots h !! (u, m) = Some x \/ u = t /\ m = p /\ x = (b, l) /\ ballots h !! (t, p) = None.
Proof.
  cbn. destruct (ballots h !! (t, p)) eqn:He; [by left|].
  intros [[[= <- <-] <-]|[_ ?]]%lookup_insert_Some; auto.
Qed.

(** A vote is added by one node: what the rest of the invariant needs. *)
Lemma inv_vote h c c' n s s' t b :
  let h' := add_ballot t n b (log s) h in
  Inv h c -> nodes c !! n = Some s -> nodes c' = <[n := s']> (nodes c) -> within c' ->
  current_term s <= current_term s' -> node_inv h' c' n s' ->
  (exists sb, nodes c' !! b = Some sb /\ t <= current_term sb) ->
  (forall m sm, m <> n -> nodes c !! m = Some sm -> role sm = Candidate -> b = m -> t = current_term sm ->
     ballots h !! (t, n) = None -> at_least (log sm) (log s)) ->
  (forall q, q ∈ vote_requests c' -> q ∈ vote_requests c \/
     q.(rv_candidate_id) = n /\ rv_cluster_id q = config_cluster_id shared /\ rv_term q <= current_term s') ->
  (forall m, m <> n -> driver c' m = driver c m) ->
  (forall p q r, (p, q, r) ∈ vote_answers c' -> (p, q, r) ∈ vote_answers c \/
     (vr_vote_granted r = true -> exists l, ballots h' !! (rv_term q, p) = Some (rv_candidate_id q, l))) ->
  append_requests c' = append_requests c ->
  Inv h' c'.
Proof.
  intros h' Hi Hs Hn Hw Ht Hn' Hb Hup Hv Hd Ha Hq. pose proof (add_ballot_grows t n b (log s) h) as Hg.
  fold h' in Hg. split; try done.
  - intros m sm. rewrite Hn. intros [[<- <-]|[Hne Hm]]%lookup_insert_Some; [done|].
    eapply node_inv_frame; [done|by eapply inv_node|done|..].
    + intros u x [?|(_ & -> & _)]%add_ballot_lookup; done.
    + intros p l Hc [?|(Htt & -> & [= <- ->] & Hnone)]%add_ballot_lookup; [by left|right]. by eapply Hup.
    + intros q [?|(Hq' & _)]%Hv ?; [done|congruence].
    + auto.
  - intros q [Hq'|(<- & Hcl & Hle)]%Hv.
    + destruct (inv_asked _ _ Hi q Hq') as (Hc & Hsq). split; [done|]. rewrite Hn. by eapply past_insert.
    + split; [done|]. exists s'. by rewrite Hn, lookup_insert_eq.
  - intros p q r Hin Hgr. destruct (Ha p q r Hin) as [Hold|Hnew]; [|by auto].
    destruct (inv_answered _ _ Hi _ _ _ Hold Hgr) as [l Hl]. exists l. by eapply gr_ballots.
  - intros q. rewrite Hq. intros Hin. eapply request_grows; [done|]. by eapply inv_request.
  - intros u r Hr. eapply reign_grows; [done|]. by eapply inv_reign.
  - intros u p b' l [Hold|(-> & -> & [= -> ->] & _)]%add_ballot_lookup.
    + destruct (inv_ballot _ _ Hi _ _ _ _ Hold) as [Hgd Hp]. split; [by eapply good_grows|].
      rewrite Hn. by eapply past_insert.
    + split; [|done]. eapply good_grows; [done|]. by eapply ni_good, inv_node.
Qed.

(** *** The steps *)

Lemma at_least_refl (l : list (ConsensusLogEntry F)) : at_least l l.
Proof. right. split; [done|lia]. Qed.

Lemma driver_set n d c m : driver (set_driver n d c) m = if decide (m = n) then d else driver c m.
Proof.
  unfold driver, set_driver. cbn. destruct (decide (m = n)) as [->|Hne].
  - by rewrite lookup_insert_eq.
  - by rewrite lookup_insert_ne.
Qed.

Lemma within_node c n s : within c -> nodes c !! n = Some s -> current_term s < u64_max /\ len (log s) <= vec_max.
Proof. intros H Hn. exact (H n s Hn). Qed.

Lemma within_changed c ns n s :
  within c -> nodes c = <[n := s]> ns -> current_term s < u64_max /\ len (log s) <= vec_max.
Proof. intros Hw Hc. apply (within_node c n s Hw). by rewrite Hc, lookup_insert_eq. Qed.

(** What each step found and what it left, as equations. *)

Lemma elect_cases n c c' :
  elect n c = Some c' -> exists s, nodes c !! n = Some s /\ driver c n = Idle /\ role s <> Leader /\
    c' = set_driver n (Electing (become_candidate s).1)
           (ask_votes (become_candidate s).1 (set_node n (become_candidate s).2 c)).
Proof.
  unfold elect. destruct (nodes c !! n) as [s|]; [|done]. cbn [mbind option_bind].
  destruct (driver c n); try done. case_bool_decide; [done|]. intros [= <-]. by exists s.
Qed.

Lemma answer_vote_cases p q c c' :
  answer_vote p q c = Some c' -> exists s r s', nodes c !! p = Some s /\ q ∈ vote_requests c /\
    handle_request_vote q s = (Val r, s') /\ c' = note_vote p q r (set_node p s' c).
Proof.
  unfold answer_vote. destruct (nodes c !! p) as [s|]; [|done]. cbn [mbind option_bind].
  case_bool_decide; [|done]. destruct (handle_request_vote q s) as [[r| |] s'] eqn:Hh; try done.
  intros [= <-]. by exists s, r, s'.
Qed.

Lemma finish_cases n answers c c' :
  finish_election shared n answers c = Some c' -> exists s q, nodes c !! n = Some s /\
    driver c n = Electing q /\ (forall p r, answers !! p = Some r -> (p, q, r) ∈ vote_answers c) /\
    exists b, c' = set_driver n Idle (put_node b n (close_election (config_of shared n) answers s).2 c).
Proof.
  unfold finish_election. destruct (nodes c !! n) as [s|]; [|done]. cbn [mbind option_bind].
  destruct (driver c n) as [|q| |]; try done. destruct (forallb _ _) eqn:Hall; [|done]. intros [= <-].
  exists s, q. ands; try done; [|by eexists]. intros p r Hp. rewrite forallb_forall in Hall. specialize (Hall (p, r)).
  rewrite <-list_elem_of_In, elem_of_map_to_list in Hall. specialize (Hall Hp). by bools.
Qed.

Lemma propose_cases n f c c' :
  propose n f c = Some c' -> exists s, nodes c !! n = Some s /\ driver c n = Idle /\ role s = Leader /\
    c' = set_node n (append_local_commit f s).2 c.
Proof.
  unfold propose. destruct (nodes c !! n) as [s|]; [|done]. cbn [mbind option_bind].
  destruct (driver c n); try done. destruct (append_local_commit f s) as [[e| |] s'] eqn:Ha; try done.
  intros [= <-]. exists s. rewrite Ha. ands; try done. unfold append_local_commit in Ha.
  destruct (bool_decide (role s = Leader)) eqn:Hr; [|done]. by bools.
Qed.

Lemma begin_cases n c c' :
  begin_round shared n c = Some c' -> exists s, nodes c !! n = Some s /\ role s = Leader /\
    c' = set_driver n (Sending (other_peers (config_of shared n))) c.
Proof.
  unfold begin_round. destruct (nodes c !! n) as [s|]; [|done]. cbn [mbind option_bind].
  destruct (driver c n); try done. case_bool_decide; [|done]. intros [= <-]. by exists s.
Qed.

Lemma send_cases n c c' :
  send_next n c = Some c' -> exists s, nodes c !! n = Some s /\
    (c' = set_driver n Idle c \/
     exists peer todo, driver c n = Sending (peer :: todo) /\
       c' = set_driver n (Awaiting peer (append_entries_from 1 s) todo) (ask_append (append_entries_from 1 s) c)).
Proof.
  unfold send_next. destruct (nodes c !! n) as [s|]; [|done]. cbn [mbind option_bind].
  destruct (driver c n) as [| |[|peer todo]|]; try done; intros [= <-]; exists s; split; eauto.
Qed.

Lemma lose_cases n c c' :
  lose_answer n c = Some c' -> exists s peer q todo, nodes c !! n = Some s /\
    driver c n = Awaiting peer q todo /\ c' = set_driver n (Sending todo) c.
Proof.
  unfold lose_answer. destruct (nodes c !! n) as [s|]; [|done]. cbn [mbind option_bind].
  destruct (driver c n) as [| | |peer q todo]; try done. intros [= <-]. by exists s, peer, q, todo.
Qed.

Lemma record_answer_cases n r c c' :
  record_answer n r c = Some c' -> exists s peer q todo, nodes c !! n = Some s /\
    driver c n = Awaiting peer q todo /\ (peer, q, r) ∈ append_answers c /\
    exists b, c' = set_driver n (Sending todo) (put_node b n (record_append_response peer r s).2 c).
Proof.
  unfold record_answer. destruct (nodes c !! n) as [s|]; [|done]. cbn [mbind option_bind].
  destruct (driver c n) as [| | |peer q todo]; try done. case_bool_decide; [|done].
  destruct (record_append_response peer r s) as [v s'] eqn:E. intros [= <-]. exists s, peer, q, todo.
  rewrite E. ands; try done. by eexists.
Qed.

(** A state file is behind only in [last_applied], and only where the application
    of a frame failed. *)
Definition saved_ok c : Prop :=
  forall n a, unsaved c !! n = Some a ->
    n ∈ spoiled c /\ exists s, nodes c !! n = Some s /\ 0 <= a <= last_applied s.

(** A restart finds the node as it was, up to the recorded matches and to what it
    had failed to apply. *)
Lemma restart_cases h n c c' :
  Inv h c -> saved_ok c -> restart shared n c = Some c' -> exists s m a, nodes c !! n = Some s /\
    0 <= a <= last_applied s /\ (n ∉ spoiled c -> a = last_applied s) /\
    c' = set_driver n Idle (set_db n (load_replication_state (db_of c n))
           (set_node n (set_match_index m (set_last_applied a s)) c)).
Proof.
  intros Hi Hsv. unfold restart. destruct (nodes c !! n) as [s|] eqn:Hs; [|done]. cbn [mbind option_bind].
  pose proof (inv_node _ _ Hi n s Hs) as Hn. pose proof (ni_ok _ _ _ _ Hn) as Hok.
  set (a := default (last_applied s) (unsaved c !! n)).
  assert (Ha : 0 <= a <= last_applied s /\ (n ∉ spoiled c -> a = last_applied s)).
  { unfold a. destruct (unsaved c !! n) as [b|] eqn:Hb; [|destruct Hok; split; [cbn; lia|done]].
    destruct (Hsv n b Hb) as (Hsp & s' & Hs' & Hle). rewrite Hs in Hs'. simplify_eq. by split. }
  assert (Hf : match unsaved c !! n with Some a => set_last_applied a s | None => s end = set_last_applied a s).
  { unfold a. destruct (unsaved c !! n); [done|]. by destruct s. }
  rewrite Hf. unfold load_consensus_state. cbn [enabled config_of].
  rewrite (proj1 configured), voters_members by done. destruct (negb _); [done|]. destruct (negb _); [done|].
  intros [= <-]. eexists s, _, a. ands; [done|apply Ha|apply Ha|apply Ha|]. do 3 f_equal.
  rewrite <-(ni_voters _ _ _ _ Hn). by destruct s.
Qed.

Lemma elect_inv h c c' n :
  Inv h c -> elect n c = Some c' -> within c' -> Inv (remember (Elect n) c h) c'.
Proof.
  intros Hi (s & Hs & Hd & Hr & ->)%elect_cases Hw. cbn [remember]. rewrite Hs. cbn in Hw. pose proof (inv_node _ _ Hi n s Hs) as Hn.
  destruct (within_changed _ (nodes c) n _ Hw eq_refl) as [Ht _]. cbn in Ht.
  set (t := sat_add (current_term s) 1) in *.
  assert (Hteq : t = current_term s + 1) by (pose proof (ni_term _ _ _ _ Hn); subst t; revert Ht; widths; lia).
  eapply inv_vote; try done; cbn.
  - lia.
  - destruct Hn. split; cbn; try done; try lia.
    + by destruct ni_ok0.
    + intros e He. specialize (ni_below0 e He). lia.
    + intros u b l [Hold|(-> & _ & [= -> ->] & _)]%add_ballot_lookup; [|by rewrite ni_id0].
      destruct (ni_ballot0 u b l Hold) as [Hle _]. split; lia.
    + intros b [= <-]. destruct (ballots h !! (t, n)) as [[b l]|] eqn:Hb.
      { destruct (ni_ballot0 t b l Hb). lia. }
      exists (log s). by rewrite lookup_insert_eq, ni_id0.
    + intros u r Hl Hc. specialize (ni_chief0 u r Hl Hc). lia.
    + intros _. rewrite ni_id0. split; [done|lia].
    + intros p l _ [Hold|(_ & -> & [= ->] & _)]%add_ballot_lookup; [|apply at_least_refl].
      destruct (inv_ballot _ _ Hi _ _ _ _ Hold) as (_ & sn & Hsn & Hle). rewrite Hs in Hsn. simplify_eq. lia.
    + intros q _ [->|Hq]%elem_of_cons Hc Hq'; cbn.
      { split; [exact (last_log_index_size s (nk_numbered _ ni_ok0))|done]. }
      destruct (inv_asked _ _ Hi q Hq) as (_ & sn & Hsn & Hle). rewrite Hc, Hs in Hsn. simplify_eq. lia.
    + intros q. unfold driver. cbn. rewrite lookup_insert_eq. intros [= <-]. cbn.
      split; [done|]. intros _. split; [done|]. intros r Hl Hc. specialize (ni_chief0 t r Hl Hc). lia.
  - eexists. rewrite lookup_insert_eq. split; [done|]. cbn. lia.
  - intros q [->|Hq]%elem_of_cons; [right|by left]. cbn. ands; [apply Hn|apply Hn|lia].
  - intros m Hne. unfold driver. cbn. by rewrite lookup_insert_ne.
  - by left.
Qed.

Lemma log_current_at_least q s (sm : ConsensusState F) :
  node_ok s -> log_is_current q s = true -> rv_last_log_index q = len (log sm) ->
  rv_last_log_term q = tip_term (log sm) -> at_least (log sm) (log s).
Proof.
  intros Hok Hc Hi Ht. unfold log_is_current in Hc. rewrite last_log_index_size in Hc by apply Hok.
  change (last_log_term s) with (tip_term (log s)) in Hc. rewrite Hi, Ht in Hc.
  apply orb_true_iff in Hc as [Hc|Hc]; bools; [by left|right]. split; [done|lia].
Qed.

(** A vote given in the node's own term. *)
Lemma grant_inv h c c' p s q r :
  Inv h c -> nodes c !! p = Some s -> q ∈ vote_requests c -> rv_term q = current_term s ->
  log_is_current q s = true -> voted_for s = None \/ voted_for s = Some (rv_candidate_id q) ->
  c' = note_vote p q r (set_node p (set_voted_for (Some (rv_candidate_id q)) s) c) -> within c' ->
  Inv (add_ballot (rv_term q) p (rv_candidate_id q) (log s) h) c'.
Proof.
  intros Hi Hs Hq Ht Hc Hv -> Hw. pose proof (inv_node _ _ Hi p s Hs) as Hn.
  assert (Hown : ballots h !! (rv_term q, p) = None \/ exists l, ballots h !! (rv_term q, p) = Some (rv_candidate_id q, l)).
  { destruct Hv as [Hv|Hv]; [left|right; rewrite Ht; by eapply ni_voted].
    destruct (ballots h !! (rv_term q, p)) as [[b l]|] eqn:Hb; [|done].
    destruct (ni_ballot _ _ _ _ Hn _ _ _ Hb) as [_ Hx]. rewrite Hx in Hv by done. done. }
  assert (Hnow : exists l, ballots (add_ballot (rv_term q) p (rv_candidate_id q) (log s) h) !! (rv_term q, p)
                          = Some (rv_candidate_id q, l)).
  { cbn. destruct Hown as [Ho|[l Ho]]; rewrite Ho; [rewrite lookup_insert_eq|]; eauto. }
  eapply inv_vote; try done; cbn.
  - destruct Hn. split; cbn; try done.
    + by destruct ni_ok0.
    + intros u b l [Hold|(-> & _ & [= -> ->] & _)]%add_ballot_lookup; [|split; [lia|done]].
      destruct (ni_ballot0 u b l Hold) as [Hle Hx]. split; [done|]. intros ->.
      specialize (Hx eq_refl). destruct Hv as [Hv|Hv]; congruence.
    + intros b [= <-]. by rewrite <-Ht.
    + intros Hr. destruct (ni_self0 Hr) as [Hx ?]. split; [|done]. destruct Hv; congruence.
    + intros m l Hr [Hold|(Htt & -> & [= -> ->] & Hnone)]%add_ballot_lookup; [eauto|apply at_least_refl].
  - destruct (inv_asked _ _ Hi q Hq) as (_ & Hsq). by eapply past_insert.
  - intros m sm Hne Hm Hr Hb Htm Hnone. pose proof (inv_node _ _ Hi m sm Hm) as Hnm.
    destruct (ni_asked _ _ _ _ Hnm q Hr Hq Hb Htm) as [Hx Hy]. eapply log_current_at_least; eauto. apply Hn.
  - auto.
  - intros p' q' r' [[= -> -> ->]|Hin]%elem_of_cons; [right|by left]. intros _. exact Hnow.
Qed.

Lemma node_inv_same h c c' n s :
  node_inv h c n s -> vote_requests c' = vote_requests c ->
  (forall q, driver c' n = Electing q -> driver c n = Electing q) -> node_inv h c' n s.
Proof. intros Hi Hv Hd. eapply node_inv_counters; eauto. apply Hi. Qed.

Lemma within_same_size c c' n s s' :
  within c' -> nodes c' = <[n := s']> (nodes c) -> current_term s = current_term s' -> log s = log s' ->
  within (set_node n s c).
Proof.
  intros Hw Hn Ht Hl m sm. cbn. intros [[<- <-]|[Hne Hm]]%lookup_insert_Some.
  - rewrite Ht, Hl. by eapply within_changed.
  - apply (within_node c' m sm Hw). by rewrite Hn, lookup_insert_ne.
Qed.

Lemma set_node_twice p s s' c : set_node p s' (set_node p s c) = set_node p s' c.
Proof. unfold put_node. cbn. by rewrite insert_insert_eq, delete_delete_eq. Qed.

Lemma answer_vote_inv h c c' p q :
  Inv h c -> answer_vote p q c = Some c' -> within c' -> Inv (remember (AnswerVote p q) c h) c'.
Proof.
  intros Hi (s & r & s' & Hs & Hq & Hh & ->)%answer_vote_cases Hw. cbn [remember]. rewrite Hs, Hh. pose proof (inv_node _ _ Hi p s Hs) as Hn.
  destruct (vote_cases q s r s' Hh) as [[Hg Hc]|(Hg & Hm & Hl & Hc)]; rewrite Hg.
  - assert (Hn' : node_inv h (note_vote p q r (set_node p s' c)) p s' /\ current_term s <= current_term s').
    { destruct Hc as [->|[Hlt ->]]; (split; [|try rewrite step_down_later by done; cbn; lia]).
      - by eapply node_inv_same.
      - by eapply node_inv_step_down; [done|lia|]. }
    destruct Hn'. eapply inv_quiet; try done; cbn; [|by auto].
    intros p' q' r' [[= -> -> ->]|Hin]%elem_of_cons; [right; congruence|by left].
  - destruct Hc as [(Ht & Hv & ->)|(Hlt & ->)]; [by eapply grant_inv|].
    set (s1 := step_down (rv_term q) None s) in *.
    assert (Hs1 : current_term s1 = rv_term q /\ log s1 = log s /\ voted_for s1 = None).
    { unfold s1. by rewrite step_down_later. }
    destruct Hs1 as (Ht1 & Hl1 & Hv1).
    assert (Hi1 : Inv h (set_node p s1 c)).
    { eapply (inv_quiet h c _ p s s1); try done; [|lia|..]; cbn; auto.
      - by eapply within_same_size; [exact Hw|..].
      - by eapply node_inv_step_down; [done|lia|]. }
    rewrite <-Hl1. eapply (grant_inv h (set_node p s1 c)); eauto; cbn.
    + by rewrite lookup_insert_eq.
    + by rewrite <-(log_current_frame q s1 s) in Hl.
    + by rewrite set_node_twice.
Qed.

(** *** Winning *)

Lemma granting_quorum n answers s s' :
  n ∈ members -> close_election (config_of shared n) answers s = (Val tt, s') -> role s' = Leader -> role s = Candidate ->
  granting n answers ⊆ members /\ (base.size members / 2 < base.size (granting n answers))%nat.
Proof.
  intros Hn Hc Hr Hr'. unfold close_election in Hc. case_bool_decide as Hv; [|injection Hc as <-; congruence].
  clear Hc. unfold count_votes in Hv. cbn [peers config_of config_node_id] in Hv.
  rewrite all_voting, <-voters_count in Hv by done. unfold granting.
  set (f := fun peer => _) in *.
  assert (Hsub : forall x, x ∈ map peer_node_id (List.filter f (peers shared)) -> x ∈ member_ids shared /\ x <> n).
  { intros x (y & -> & Hy)%list_elem_of_fmap. apply list_elem_of_In, filter_In in Hy as [Hy Hfy].
    unfold f in Hfy. bools. split; [|done]. unfold member_ids. apply list_elem_of_fmap. exists y. split; [done|]. by apply list_elem_of_In. }
  assert (Hnd : NoDup (map peer_node_id (List.filter f (peers shared)))).
  { apply NoDup_map_filter. by apply members_distinct. }
  split.
  - intros x. rewrite elem_of_union, elem_of_singleton, elem_of_list_to_set. intros [->|Hx]; [done|].
    apply elem_of_list_to_set. by apply Hsub.
  - rewrite size_union, size_singleton.
    2: { apply disjoint_singleton_l. rewrite elem_of_list_to_set. by intros [_ ?]%Hsub. }
    rewrite (size_list_to_set (map _ _)), length_map by done. lia.
Qed.

Lemma set_reign_lookup u r h t r' :
  led (set_reign u r h) !! t = Some r' -> u = t /\ r = r' \/ u <> t /\ led h !! t = Some r'.
Proof. cbn. by intros [?|?]%lookup_insert_Some; [left|right]. Qed.

Lemma set_reign_new u r h : led h !! u = None -> grows h (set_reign u r h).
Proof.
  intros Hu. split; [|done]. intros t r' Hr. exists (written r'). cbn.
  rewrite lookup_insert_ne by congruence. rewrite Hr. by destruct r'.
Qed.

Lemma set_reign_more u r w h :
  led h !! u = Some r -> written r `prefix_of` w ->
  grows h (set_reign u (mkReign (chief r) (opening r) w (backers r)) h).
Proof.
  intros Hu Hw. split; [|done]. intros t r' Hr. cbn. destruct (decide (t = u)) as [->|Hne].
  - rewrite Hu in Hr. simplify_eq. exists w. by rewrite lookup_insert_eq.
  - exists (written r'). rewrite lookup_insert_ne by done. rewrite Hr. by destruct r'.
Qed.

(** A reign begins or goes on: what the rest of the invariant needs. *)
Lemma inv_rule h c c' n s s' u r' :
  let h' := set_reign u r' h in
  Inv h c -> grows h h' -> nodes c !! n = Some s -> nodes c' = <[n := s']> (nodes c) -> within c' ->
  current_term s <= current_term s' -> node_inv h' c' n s' -> chief r' = n -> reign_ok h' u r' ->
  vote_requests c' = vote_requests c -> vote_answers c' = vote_answers c ->
  append_requests c' = append_requests c -> (forall m, m <> n -> driver c' m = driver c m) ->
  Inv h' c'.
Proof.
  intros h' Hi Hg Hs Hn Hw Ht Hn' Hch Hr Hv Ha Hq Hd. split; try done.
  - intros m sm. rewrite Hn. intros [[<- <-]|[Hne Hm]]%lookup_insert_Some; [done|].
    eapply node_inv_frame; [done|by eapply inv_node|..]; eauto.
    + intros t r [[-> ->]|[_ ?]]%set_reign_lookup Hc; [congruence|done].
    + intros q Hq' _. by rewrite <-Hv.
  - intros q. rewrite Hv, Hn. intros Hq'. destruct (inv_asked _ _ Hi q Hq') as (Hc & Hsq).
    split; [done|]. by eapply past_insert.
  - intros p q r. rewrite Ha. apply (inv_answered _ _ Hi).
  - intros q. rewrite Hq. intros Hin. eapply request_grows; [done|]. by eapply inv_request.
  - intros t r [[<- <-]|[_ Ho]]%set_reign_lookup; [done|]. eapply reign_grows; [done|]. by eapply inv_reign.
  - intros t p b l Hl. destruct (inv_ballot _ _ Hi _ _ _ _ Hl) as [Hgd Hp].
    split; [by eapply good_grows|]. rewrite Hn. by eapply past_insert.
Qed.

(** Nobody else has won the term a candidate wins. *)
Lemma first_to_win h c n s q answers :
  Inv h c -> nodes c !! n = Some s -> driver c n = Electing q -> role s = Candidate ->
  granting n answers ⊆ members -> (base.size members / 2 < base.size (granting n answers))%nat ->
  (forall p, p ∈ granting n answers ->
     exists l, ballots h !! (current_term s, p) = Some (n, l)) ->
  led h !! current_term s = None.
Proof.
  intros Hi Hs Hd Hr Hsub Hq Hb. destruct (led h !! current_term s) as [r|] eqn:Hl; [exfalso|done].
  pose proof (inv_reign _ _ Hi _ _ Hl) as Hro.
  destruct (quorums_meet members (granting n answers) (backers r)) as (p & Hp & Hp').
  { done. } { apply Hro. } { apply more_than_half; [done|apply Hro]. }
  destruct (Hb p Hp) as (l & Hbl). destruct (ro_backed _ _ _ Hro p Hp') as (l' & Hbl' & _).
  rewrite Hbl in Hbl'. injection Hbl' as Hch _.
  destruct (ni_electing _ _ _ _ (inv_node _ _ Hi n s Hs) q Hd) as [_ He].
  destruct (He Hr) as [_ Hne]. by apply (Hne r).
Qed.

Lemma granting_ballots h c n s q answers p :
  Inv h c -> nodes c !! n = Some s -> driver c n = Electing q -> role s = Candidate ->
  (forall p r, answers !! p = Some r -> (p, q, r) ∈ vote_answers c) ->
  p ∈ granting n answers ->
  exists l, ballots h !! (current_term s, p) = Some (n, l) /\ at_least (log s) l.
Proof.
  intros Hi Hs Hd Hr Ha Hp. pose proof (inv_node _ _ Hi n s Hs) as Hn.
  destruct (ni_electing _ _ _ _ Hn q Hd) as [Hc Ht]. destruct (Ht Hr) as [Ht' _].
  assert (Hb : exists l, ballots h !! (current_term s, p) = Some (n, l)).
  { unfold granting in Hp. rewrite elem_of_union, elem_of_singleton, elem_of_list_to_set in Hp.
    destruct Hp as [->|Hp]; [by eapply ni_voted, ni_self|].
    apply list_elem_of_fmap in Hp as (y & -> & Hy). apply list_elem_of_In, filter_In in Hy as [_ Hy]. bools.
    destruct (answers !! peer_node_id y) as [r|] eqn:Hr'; [|done].
    destruct (inv_answered _ _ Hi _ _ _ (Ha _ _ Hr')) as [l Hl]; [done|]. exists l. by rewrite <-Ht', <-Hc. }
  destruct Hb as [l Hl]. exists l. split; [done|]. by eapply ni_backed.
Qed.

(** Only drivers, counters and requests change. *)
Lemma inv_counters h c c' n s s' :
  Inv h c -> nodes c !! n = Some s -> nodes c' = <[n := s']> (nodes c) -> within c' ->
  rest (set_match_index ∅ s') = rest (set_match_index ∅ s) -> log s' = log s -> node_ok s' ->
  vote_requests c' = vote_requests c -> vote_answers c' = vote_answers c ->
  (forall q, driver c' n <> Electing q) -> (forall m, m <> n -> driver c' m = driver c m) ->
  (forall q, q ∈ append_requests c' -> q ∈ append_requests c \/ request_ok h q) ->
  Inv h c'.
Proof.
  intros Hi Hs Hn Hw Hr Hl Hok Hv Ha Hd Hd' Hq. eapply inv_quiet; eauto.
  - injection Hr as ? ? ? ? ? ? ?. lia.
  - eapply node_inv_counters; eauto; [by eapply inv_node|]. intros q Hx. by destruct (Hd q).
  - intros p q r. rewrite Ha. by left.
Qed.

(** A candidate with the votes of more than half of the members takes over. *)
Lemma win_inv h c n s q answers b :
  Inv h c -> nodes c !! n = Some s -> driver c n = Electing q -> role s = Candidate ->
  (forall p r, answers !! p = Some r -> (p, q, r) ∈ vote_answers c) ->
  granting n answers ⊆ members -> (base.size members / 2 < base.size (granting n answers))%nat ->
  within (set_driver n Idle (put_node b n (become_leader s).2 c)) ->
  let h' := set_reign (current_term s) (mkReign n (log s) (log s) (granting n answers)) h in
  grows h h' /\ Inv h' (set_driver n Idle (put_node b n (become_leader s).2 c)).
Proof.
  intros Hi Hs Hd Hr Ha Hsub Hq Hw h'. unfold h'. pose proof (inv_node _ _ Hi n s Hs) as Hn.
  pose proof (fun p => granting_ballots h c n s q answers p Hi Hs Hd Hr Ha) as Hb.
  assert (Hnone : led h !! current_term s = None).
  { eapply first_to_win; eauto. intros p (l & Hl & _)%Hb. by exists l. }
  pose proof (set_reign_new (current_term s) (mkReign n (log s) (log s) (granting n answers)) h Hnone) as Hg.
  unfold become_leader in *. rewrite bool_decide_eq_true_2 in * by done. cbn [negb snd] in *.
  split; [done|]. eapply inv_rule; try done; cbn.
  - destruct Hn. split; cbn; try done.
    + by destruct ni_ok0.
    + by eapply good_grows.
    + intros t r [[<- <-]|[_ Hl]]%lookup_insert_Some Hch; [lia|eauto].
    + intros _. eexists. by rewrite lookup_insert_eq.
    + intros q'. rewrite driver_set. by rewrite decide_True.
  - destruct Hn. split; cbn; try done.
    + by apply ni_self0.
    + intros e He. specialize (ni_below0 e He). apply list_elem_of_lookup in He as [k Hk].
      destruct (ni_good0 k e Hk) as (r & Hl & _). assert (term e <> current_term s) by congruence. lia.
    + intros k e Hk%lookup_lt_Some Hle. lia.
    + by eapply good_grows.
  - intros m Hne. rewrite driver_set. by rewrite decide_False.
Qed.

Lemma finish_inv h c c' n answers :
  Inv h c -> finish_election shared n answers c = Some c' -> within c' ->
  grows h (remember (CloseElection n answers) c h) /\ Inv (remember (CloseElection n answers) c h) c'.
Proof.
  intros Hi (s & q & Hs & Hd & Ha & b & ->)%finish_cases Hw. cbn [remember]. rewrite Hs.
  pose proof (inv_node _ _ Hi n s Hs) as Hn.
  assert (Hsame : forall s', nodes c !! n = Some s' -> within (set_driver n Idle (put_node b n s' c)) ->
    grows h h /\ Inv h (set_driver n Idle (put_node b n s' c))).
  { intros s' Hs' Hw'. split; [reflexivity|]. rewrite Hs in Hs'. injection Hs' as <-.
    eapply inv_counters; eauto; [apply Hn|..]; intros m; rewrite driver_set; by destruct (decide _). }
  destruct (close_election (config_of shared n) answers s) as [[[]|e|] s'] eqn:Hc; cbn [snd] in *.
  2: { unfold close_election, become_leader in Hc. repeat split_if; simplify_eq. by apply Hsame. }
  2: { unfold close_election, become_leader in Hc. repeat split_if; simplify_eq. }
  assert (Hcase : role s' = Leader /\ role s = Candidate \/ s' = s /\ (role s' <> Leader \/ role s <> Candidate)).
  { unfold close_election, become_leader in Hc. repeat split_if; simplify_eq; cbn; auto.
    right. split; [done|]. destruct (role s'); auto. }
  destruct Hcase as [[Hr' Hr]|[-> Hr]].
  2: { replace (if bool_decide _ then _ else _) with h; [by apply Hsame|]. repeat case_bool_decide; tauto. }
  rewrite !bool_decide_eq_true_2 by done.
  destruct (granting_quorum n answers s s' (ni_member _ _ _ _ Hn) Hc Hr' Hr) as [Hsub Hq].
  assert (Hs' : s' = (become_leader s).2).
  { unfold close_election in Hc. case_bool_decide; [by rewrite Hc|]. simplify_eq. congruence. }
  subst s'. by eapply win_inv.
Qed.

Lemma propose_inv h c c' n f :
  Inv h c -> propose n f c = Some c' -> within c' ->
  grows h (remember (Propose n f) c h) /\ Inv (remember (Propose n f) c h) c'.
Proof.
  intros Hi (s & Hs & Hd & Hr & ->)%propose_cases Hw. cbn [remember]. rewrite Hs.
  cbn [fmap option_fmap option_map default].
  pose proof (inv_node _ _ Hi n s Hs) as Hn. pose proof (ni_ok _ _ _ _ Hn) as Hok.
  pose proof (append_local_ok f s Hok) as Hok'. unfold append_local_commit in *.
  rewrite bool_decide_eq_true_2 in * by done. cbn [negb] in *.
  destruct (ni_leader _ _ _ _ Hn Hr) as (r & Hl & Hch & Hwr). cbn [from_option id]. rewrite Hl. cbn [snd].
  set (e := mkEntry _ _ _ _) in *. set (s' := set_match_index _ _) in *.
  destruct (within_changed _ (nodes c) n _ Hw eq_refl) as [_ Hsz]. unfold s' in Hsz. cbn in Hsz. rewrite length_app in Hsz. cbn in Hsz.
  assert (Hpre : written r `prefix_of` log s ++ [e]) by (rewrite Hwr; by apply prefix_app_r).
  pose proof (set_reign_more _ r (log s ++ [e]) h Hl Hpre) as Hg.
  pose proof (inv_reign _ _ Hi _ _ Hl) as Hro.
  assert (Hgood : good (set_reign (current_term s) (mkReign (chief r) (opening r) (log s ++ [e]) (backers r)) h) (log s ++ [e])).
  { intros k e' Hk. destruct (decide (k < length (log s))%nat) as [Hlt|Hge].
    - rewrite lookup_app_l in Hk by done. destruct (good_grows _ _ _ Hg (ni_good _ _ _ _ Hn) k e' Hk) as (r' & Hr' & Hp).
      exists r'. split; [done|]. by rewrite take_app_le by lia.
    - rewrite lookup_app_r in Hk by lia. apply list_lookup_singleton_Some in Hk as [Hk <-].
      eexists. cbn. rewrite lookup_insert_eq. split; [done|]. cbn. apply prefix_take. }
  split; [done|]. eapply inv_rule; try done.
  - destruct Hn. split; try done.
    + apply Hok'. widths. unfold vec_max in Hsz. lia.
    + cbn. intros e' [Hin| ->%list_elem_of_singleton]%elem_of_app; [eauto|]. cbn. lia.
    + intros t r' [[<- <-]|[_ Hl']]%set_reign_lookup Hch'; cbn in *; [lia|eauto].
    + intros _. eexists. cbn. rewrite lookup_insert_eq. by rewrite Hch.
    + cbn. intros Hx. congruence.
    + cbn. intros p l Hx. congruence.
    + intros q Hx. unfold driver in Hx, Hd. cbn in Hx. congruence.
  - destruct Hro. split; cbn; try done.
    + by trans (written r).
    + intros i e' Hi' Hle. rewrite Hwr in *. apply lookup_app_Some in Hi' as [Hi'|[_ Hi']]; [eauto|].
      by apply list_lookup_singleton_Some in Hi' as [_ <-].
Qed.

(** What an accepted append request, with the application of what it commits,
    does to a node: the log becomes the request's unless it already holds it; the
    entries before the first difference [m] stay; the frames from what was still
    applied to what is now committed are handed over. *)
Record appended (q : AppendEntries F) s s' (frames : list F) (m : nat) : Prop := {
  ap_later : current_term s <= ae_term q;
  ap_now : current_term s' = ae_term q;
  ap_role : role s' = Follower;
  ap_cluster : cluster_id s' = cluster_id s;
  ap_node : node_id s' = node_id s;
  ap_voters : voters s' = voters s;
  ap_voted : voted_for s' = if current_term s <? ae_term q then None else voted_for s;
  ap_ok : node_ok s';
  ap_log : entries q `prefix_of` log s /\ log s' = log s \/ ~ entries q `prefix_of` log s /\ log s' = entries q;
  ap_kept : (m <= length (log s))%nat /\ take m (log s') = take m (log s) /\
    (m = length (log s) \/ log s !! m <> log s' !! m);
  ap_commit : commit_index s' = Z.max (Z.min (commit_index s) (Z.of_nat m)) (leader_commit q);
  ap_applied : last_applied s' = commit_index s';
  ap_frames : frames = map frame (drop (Z.to_nat (Z.min (last_applied s) (Z.min (commit_index s) (Z.of_nat m))))
                                    (take (Z.to_nat (commit_index s')) (log s')))
}.

Lemma step_down_rest t leader s :
  rest (set_leader_id None (step_down t leader s)) =
  rest (set_leader_id None (set_role Follower (set_voted_for (if current_term s <? t then None else voted_for s)
          (set_current_term (Z.max (current_term s) t) s)))).
Proof.
  unfold step_down. destruct (Z.ltb_spec (current_term s) t).
  - by rewrite Z.max_r by lia.
  - rewrite Z.max_l by lia. done.
Qed.

Lemma step_down_log t leader s :
  log (step_down t leader s) = log s /\ commit_index (step_down t leader s) = commit_index s /\
  last_applied (step_down t leader s) = last_applied s.
Proof. unfold step_down. by destruct (_ <? _). Qed.

Lemma append_effect h q s r s' :
  node_ok s -> len (log s) <= vec_max -> good h (log s) -> request_ok h q ->
  handle_append_entries q s = (Val r, s') ->
  ar_success r = false /\ s' = s \/
  ar_success r = true /\
  exists m, appended q s (apply_committed_prefix s').2 (apply_committed_prefix s').1 m.
Proof.
  intros Hok Hsz Hg [Hp _ Hnum Hge Hb Hlc Hes] Hh.
  destruct (append_cases q s r s' Hp Hh) as [(-> & _ & ->)|(Hle & complete & s1 & Happ & Hsuc & -> & _)]; [by left|right].
  set (s0 := step_down (ae_term q) (Some (ae_leader_id q)) s) in *.
  destruct (step_down_log (ae_term q) (Some (ae_leader_id q)) s) as (Hl0 & Hc0 & Ha0). fold s0 in Hl0, Hc0, Ha0.
  assert (Hbound : len (log s) + len (entries q) < u64_max) by (unfold vec_max in *; widths; lia).
  assert (Hok0 : node_ok s0) by by apply step_down_ok.
  pose proof (append_incoming_ok (entries q) s0 Hok0) as Hok1. rewrite Hl0, Happ in Hok1. specialize (Hok1 Hbound).
  destruct (append_good h (entries q) s0 s1 complete Hok0) as (-> & Hrest & Hc); try rewrite Hl0; try done.
  split; [done|]. cbn [snd] in Hok1. rewrite Hl0, Hc0, Ha0 in Hc.
  pose proof (last_log_index_size s1 (nk_numbered _ Hok1)) as Hll.
  assert (Hpre : entries q `prefix_of` log s1).
  { destruct Hc as [[Hx ->]|(_ & -> & _)]; [by rewrite Hl0|done]. }
  pose proof (prefix_length _ _ Hpre) as Hpl. rewrite Hll, (Z.min_l (leader_commit q)) by lia.
  set (s2 := set_commit_index _ s1).
  assert (Hok2 : node_ok s2) by (destruct Hok1; split; cbn; done || lia).
  assert (Hr : rest (set_leader_id None s1) = rest (set_leader_id None s0)).
  { clearbody s0. unfold rest in Hrest |- *. injection Hrest as E1 E2 E3 E4 E5 E6 E7 E8. cbn. congruence. }
  unfold s0 in Hr. rewrite step_down_rest in Hr. rewrite (Z.max_r _ _ Hle) in Hr.
  unfold rest in Hr. cbn in Hr. injection Hr as Hr1 Hr2 Hr3 Hr4 Hr5 Hr6 Hr7.
  assert (Hm : exists m, (m <= length (log s))%nat /\ take m (log s1) = take m (log s) /\
    (m = length (log s) \/ log s !! m <> log s1 !! m) /\
    commit_index s1 = Z.min (commit_index s) (Z.of_nat m) /\ last_applied s1 = Z.min (last_applied s) (commit_index s1)).
  { destruct Hok. destruct Hc as [[_ ->]|(_ & -> & m & Hm & _ & Ht & Hci & Hla & Hd)].
    - exists (length (log s)). rewrite Hl0, Hc0, Ha0. ands; auto; lia.
    - exists m. ands; auto. }
  destruct Hm as (m & Hm & Ht & Hd & Hci & Hla). exists m. rewrite apply_committed_spec by done. cbn [fst snd].
  split; try done; cbn.
  - destruct Hok2. split; cbn in *; done || lia.
  - destruct Hc as [[Hx ->]|(Hx & Hy & _)]; [left|right]; by rewrite ?Hl0.
  - by rewrite Hci.
  - by rewrite Hla, Hci.
Qed.

Lemma appended_inv h c c' p q s s' frames m :
  Inv h c -> nodes c !! p = Some s -> request_ok h q -> appended q s s' frames m ->
  driver c' p = driver c p -> node_inv h c' p s'.
Proof.
  intros Hi Hs Hq Ha Hd. pose proof (inv_node _ _ Hi p s Hs) as Hn. destruct Ha, Hq.
  eapply node_inv_follow; eauto; [by rewrite ap_now0..| |].
  - destruct ap_log0 as [[_ ->]|[_ ->]]; [apply Hn|done].
  - intros e. rewrite ap_now0. destruct ap_log0 as [[_ ->]|[_ ->]]; [|by auto].
    intros He. pose proof (ni_below _ _ _ _ Hn e He). lia.
Qed.

Lemma apply_rest s : node_ok s -> (apply_committed_prefix s).2 = set_last_applied (commit_index s) s.
Proof. intros Hs. by rewrite apply_committed_spec. Qed.

(** An append request is answered: refused, or taken over. *)
Lemma answer_append_cases h c c' p q b vs :
  Inv h c -> answer_append p q b vs c = Some c' ->
  exists s r s' frames v a db, nodes c !! p = Some s /\ q ∈ append_requests c /\
    c' = hand_over p v a db (note_append p q r (set_node p s' c)) /\
    apply_frames b vs frames (db_of c p) = (v, db) /\ 0 <= a <= last_applied s' /\
    (ar_success r = false /\ (frames, s') = apply_committed_prefix s \/
     ar_success r = true /\ exists m, appended q s s' frames m).
Proof.
  intros Hi Hact. unfold answer_append in Hact. destruct (nodes c !! p) as [s|] eqn:Hs; [|done]. cbn in Hact.
  case_bool_decide as Hq; [|done]. destruct (handle_append_entries q s) as [[r| |] s1] eqn:Hh; try done.
  unfold consensus_apply_committed in Hact. destruct (apply_committed_prefix s1) as [frames s'] eqn:Hap.
  destruct (apply_frames b vs frames (db_of c p)) as [v db] eqn:Hdb. injection Hact as <-.
  pose proof (inv_node _ _ Hi p s Hs) as Hn.
  assert (Hok : node_ok s1).
  { pose proof (inv_request _ _ Hi q Hq) as []. pose proof (handle_append_ok q s (ni_ok _ _ _ _ Hn)) as Hx. rewrite Hh in Hx.
    apply Hx; [lia|]. destruct (within_node c p s (inv_within _ _ Hi) Hs). unfold vec_max in *. widths. lia. }
  exists s, r, s', frames, v, (last_applied s1), db. ands; try done.
  { apply Hok. }
  { pose proof (apply_rest s1 Hok) as Hx. rewrite Hap in Hx. cbn in Hx. subst s'. cbn. destruct Hok. lia. }
  destruct (append_effect h q s r s1) as [[? ->]|[? [m Hm]]]; try done.
  - apply Hn. - by eapply within_node, Hs; apply Hi. - apply Hn. - by eapply inv_request.
  - left. by rewrite Hap.
  - right. rewrite Hap in Hm. eauto.
Qed.

Lemma same_nodes_inv h c c' :
  Inv h c -> nodes c' = nodes c -> drivers c' = drivers c -> vote_requests c' = vote_requests c ->
  vote_answers c' = vote_answers c -> append_requests c' = append_requests c -> Inv h c'.
Proof.
  intros [] Hn Hd Hv Ha Hq. split; unfold within; rewrite ?Hn, ?Hv, ?Ha, ?Hq; try done.
  intros n s Hs. pose proof (inv_node0 n s Hs) as Hi. eapply node_inv_same; [exact Hi|done|]. unfold driver. by rewrite Hd.
Qed.

Lemma hand_over_frame p v a db c :
  nodes (hand_over p v a db c) = nodes c /\ drivers (hand_over p v a db c) = drivers c /\
  vote_requests (hand_over p v a db c) = vote_requests c /\ vote_answers (hand_over p v a db c) = vote_answers c /\
  append_requests (hand_over p v a db c) = append_requests c /\ append_answers (hand_over p v a db c) = append_answers c.
Proof. by destruct v. Qed.

Lemma answer_append_inv h c c' p q b vs :
  Inv h c -> answer_append p q b vs c = Some c' -> within c' -> Inv h c'.
Proof.
  intros Hi Hact Hw.
  destruct (answer_append_cases h c c' p q b vs Hi Hact) as (s & r & s' & frames & v & a & db & Hs & Hq & -> & _ & _ & Hc).
  destruct (hand_over_frame p v a db (note_append p q r (set_node p s' c))) as (F1 & F2 & F3 & F4 & F5 & _).
  unfold within in Hw. rewrite F1 in Hw. apply (same_nodes_inv h (note_append p q r (set_node p s' c))); [|done..].
  pose proof (inv_node _ _ Hi p s Hs) as Hn. eapply inv_quiet; eauto; cbn.
  - destruct Hc as [[_ Hc]|[_ [m Hm]]]; [|destruct Hm; lia].
    apply (f_equal snd) in Hc. rewrite apply_rest in Hc by apply Hn. cbn in Hc. subst s'. cbn. lia.
  - destruct Hc as [[_ Hc]|[_ [m Hm]]].
    + apply (f_equal snd) in Hc. cbn in Hc. pose proof (apply_committed_ok s (ni_ok _ _ _ _ Hn)) as Hok.
      rewrite <-Hc in Hok. rewrite apply_rest in Hc by apply Hn. subst s'. by eapply node_inv_counters.
    + by eapply appended_inv; [..|exact Hm|]; [| |eapply inv_request|].
Qed.

Lemma begin_inv h c c' n : Inv h c -> begin_round shared n c = Some c' -> within c' -> Inv h c'.
Proof.
  intros Hi (s & Hs & _ & ->)%begin_cases Hw.
  pose proof (inv_node _ _ Hi n s Hs) as Hn.
  eapply (inv_counters h c _ n s s); eauto; cbn; [by rewrite insert_id|apply Hn|..];
    intros m; rewrite driver_set; by destruct (decide _).
Qed.

Lemma send_request_ok h c n s : Inv h c -> nodes c !! n = Some s -> request_ok h (append_entries_from 1 s).
Proof.
  intros Hi Hs. pose proof (inv_node _ _ Hi n s Hs) as Hn. pose proof (ni_ok _ _ _ _ Hn) as [? ? ? ?].
  rewrite append_from_one by done. split; cbn; try done; try apply Hn; [lia|].
  by eapply within_node, Hs; apply Hi.
Qed.

Lemma send_inv h c c' n : Inv h c -> send_next n c = Some c' -> within c' -> Inv h c'.
Proof.
  intros Hi (s & Hs & Hc)%send_cases Hw.
  pose proof (inv_node _ _ Hi n s Hs) as Hn. pose proof (send_request_ok h c n s Hi Hs) as Hr.
  destruct Hc as [->|(peer & todo & _ & ->)];
    (eapply (inv_counters h c _ n s s); [done|done|cbn; by rewrite insert_id|done|done|done|apply Hn|done|done|..];
     [intros q|intros m Hne|intros q Hq]; try rewrite driver_set; try by destruct (decide _)).
  - by left.
  - cbn in Hq. apply elem_of_cons in Hq as [->|Hq]; [by right|by left].
Qed.

Lemma lose_inv h c c' n : Inv h c -> lose_answer n c = Some c' -> within c' -> Inv h c'.
Proof.
  intros Hi (s & peer & q & todo & Hs & _ & ->)%lose_cases Hw. pose proof (inv_node _ _ Hi n s Hs) as Hn.
  eapply (inv_counters h c _ n s s); eauto; cbn; [by rewrite insert_id|apply Hn|..];
    intros m; rewrite driver_set; by destruct (decide _).
Qed.

Lemma record_inv h c c' n r : Inv h c -> record_answer n r c = Some c' -> within c' -> Inv h c'.
Proof.
  intros Hi (s & peer & q & todo & Hs & Hd & Hq & b & ->)%record_answer_cases Hw.
  pose proof (inv_node _ _ Hi n s Hs) as Hn. pose proof (ni_ok _ _ _ _ Hn) as Hok.
  assert (Hdr : forall m, m <> n -> driver (set_driver n (Sending todo) (put_node b n (record_append_response peer r s).2 c)) m = driver c m).
  { intros m Hne. rewrite driver_set. by rewrite decide_False. }
  assert (Hnd : forall q', driver (set_driver n (Sending todo) (put_node b n (record_append_response peer r s).2 c)) n <> Electing q').
  { intros q'. rewrite driver_set. by rewrite decide_True. }
  destruct (record_cases peer r s) as [He|[[Hlt He]|(Hr & Ht & Hsuc & k & He & Hk)]]; rewrite He in *.
  - eapply inv_counters; eauto.
  - eapply inv_quiet; eauto; [rewrite step_down_later by done; cbn; lia|].
    eapply (node_inv_frame _ h (set_driver n (Sending todo) c)); eauto; [reflexivity|].
    apply node_inv_step_down with (c := set_driver n (Sending todo) c); [|lia|done].
    eapply node_inv_same; eauto. intros q'. rewrite driver_set. by rewrite decide_True.
  - eapply inv_counters; eauto. destruct Hok. split; cbn; try done.
    + destruct Hk as [->|[Hk _]]; lia.
    + destruct Hk as [->|(Hk & e & Hf & _)]; [done|]. rewrite find_entry_lookup in Hf by done.
      destruct (0 <? k) eqn:Hpos; [|done]. bools. apply lookup_lt_Some in Hf. lia.
Qed.

Lemma restart_inv h c c' n : Inv h c -> saved_ok c -> restart shared n c = Some c' -> within c' -> Inv h c'.
Proof.
  intros Hi Hsv Hact Hw. destruct (restart_cases h n c c' Hi Hsv Hact) as (s & m & a & Hs & Ha & _ & ->).
  pose proof (inv_node _ _ Hi n s Hs) as Hn. eapply inv_counters; eauto.
  - pose proof (ni_ok _ _ _ _ Hn) as []. split; cbn; done || lia.
  - intros q. rewrite driver_set. by rewrite decide_True.
  - intros k Hne. rewrite driver_set. by rewrite decide_False.
Qed.

(** A commit of its own leaves the node and its driver alone. *)
Lemma local_commit_cases n f c c' :
  local_commit n f c = Some c' -> exists s db, nodes c !! n = Some s /\ c' = spoil n (set_db n db c).
Proof.
  unfold local_commit. destruct (nodes c !! n) as [s|]; [|done]. cbn [mbind option_bind].
  destruct (_ && _); [|done]. intros [= <-]. by eexists s, _.
Qed.

(** What keeps the state files in step. *)
Lemma saved_put c c' (b : bool) n s s' :
  saved_ok c -> nodes c !! n = Some s -> nodes c' = <[n := s']> (nodes c) ->
  unsaved c' = (if b then base.delete n (unsaved c) else unsaved c) -> spoiled c ⊆ spoiled c' ->
  b = true \/ last_applied s' = last_applied s -> saved_ok c'.
Proof.
  intros Hsv Hs Hn Hu Hsp Hb m a Hm. rewrite Hu in Hm.
  assert (Hm' : unsaved c !! m = Some a /\ (m = n -> last_applied s' = last_applied s)).
  { destruct b; [|by destruct Hb]. apply lookup_delete_Some in Hm as [? ?]. split; [done|]. congruence. }
  destruct Hm' as [Hm' Hl]. destruct (Hsv m a Hm') as (Hin & sm & Hsm & Hle). split; [auto|]. rewrite Hn.
  destruct (decide (m = n)) as [->|Hne]; [exists s'|exists sm; by rewrite lookup_insert_ne].
  rewrite lookup_insert_eq. split; [done|]. rewrite Hs in Hsm. simplify_eq. rewrite Hl; done.
Qed.

Lemma saved_same c c' :
  saved_ok c -> nodes c' = nodes c -> unsaved c' = unsaved c -> spoiled c ⊆ spoiled c' -> saved_ok c'.
Proof. intros Hsv Hn Hu Hsp m a. rewrite Hn, Hu. intros Hm. destruct (Hsv m a Hm). split; auto. Qed.

Lemma act_inv h c a c' :
  Inv h c -> saved_ok c -> act shared a c = Some c' -> within c' ->
  grows h (remember a c h) /\ Inv (remember a c h) c'.
Proof.
  intros Hi Hsv Hact Hw. destruct a; cbn [act] in Hact.
  - split; [|by eapply elect_inv]. cbn. destruct (nodes c !! n); [apply add_ballot_grows|done].
  - split; [|by eapply answer_vote_inv]. cbn. destruct (nodes c !! p); [|done].
    destruct (handle_request_vote _ _) as [[v| |] ?]; try done. destruct (vr_vote_granted v); [apply add_ballot_grows|done].
  - by eapply finish_inv.
  - split; [done|]. apply local_commit_cases in Hact as (s & db & Hs & ->). by eapply same_nodes_inv.
  - by eapply propose_inv.
  - split; [done|]. by eapply begin_inv.
  - split; [done|]. by eapply send_inv.
  - split; [done|]. by eapply answer_append_inv.
  - split; [done|]. by eapply record_inv.
  - split; [done|]. by eapply lose_inv.
  - split; [done|]. by eapply restart_inv.
Qed.

Lemma start_node n s : nodes (start (F := F) shared) !! n = Some s -> n ∈ members /\ s = new (config_of shared n).
Proof.
  cbn. intros H%elem_of_list_to_map_2. apply list_elem_of_fmap in H as (m & [= -> ->] & Hm).
  by rewrite elem_of_list_to_set.
Qed.

Lemma start_inv : Inv (mkHistory ∅ ∅) (start shared).
Proof.
  split.
  - intros n s [_ ->]%start_node. cbn. done.
  - intros n s [Hn ->]%start_node. split; cbn; try done; try by intros ? ? ? ?%lookup_empty_Some.
    + exact (voters_members shared n configured).
    + by intros e ?%elem_of_nil.
  - by intros q ?%elem_of_nil.
  - by intros p q r ?%elem_of_nil.
  - by intros q ?%elem_of_nil.
  - cbn. by intros u r ?%lookup_empty_Some.
  - cbn. by intros u p b l ?%lookup_empty_Some.
Qed.

Lemma act_saved h c a c' : Inv h c -> saved_ok c -> act shared a c = Some c' -> saved_ok c'.
Proof.
  intros Hi Hsv Hact. destruct a; cbn [act] in Hact.
  - apply elect_cases in Hact as (s & Hs & _ & _ & ->). eapply (saved_put c _ true n s); [done|done|reflexivity|reflexivity|done|by left].
  - apply answer_vote_cases in Hact as (s & r & s' & Hs & _ & _ & ->).
    eapply (saved_put c _ true p s); [done|done|reflexivity|reflexivity|done|by left].
  - apply finish_cases in Hact as (s & q & Hs & _ & _ & b & ->).
    eapply (saved_put c _ b n s); [done|done|reflexivity|reflexivity|done|]. right.
    unfold close_election, become_leader. by repeat case_bool_decide.
  - apply local_commit_cases in Hact as (s & db & Hs & ->). apply (saved_same c); try done. cbn. set_solver.
  - apply propose_cases in Hact as (s & Hs & _ & _ & ->). eapply (saved_put c _ true n s); [done|done|reflexivity|reflexivity|done|by left].
  - apply begin_cases in Hact as (s & Hs & _ & ->). by apply (saved_same c).
  - apply send_cases in Hact as (s & Hs & [->|(peer & todo & _ & ->)]); by apply (saved_same c).
  - destruct (answer_append_cases h c c' p request standby verdicts Hi Hact)
      as (s & r & s' & frames & v & a & db & Hs & Hq & -> & _ & Ha & _).
    assert (H1 : saved_ok (note_append p request r (set_node p s' c)))
      by (eapply (saved_put c _ true p s); [done|done|reflexivity|reflexivity|done|by left]).
    assert (H2 : saved_ok (spoil p (leave_unsaved p a (set_db p db (note_append p request r (set_node p s' c)))))).
    { intros m b Hm0. cbn in Hm0. apply lookup_insert_Some in Hm0 as [[<- <-]|[Hne Hm]].
      - split; [cbn; set_solver|]. exists s'. cbn. by rewrite lookup_insert_eq.
      - destruct (H1 m b Hm) as [Hin Hex]. split; [cbn; set_solver|done]. }
    destruct v; [|done..]. by apply (saved_same (note_append p request r (set_node p s' c))).
  - apply record_answer_cases in Hact as (s & peer & q & todo & Hs & _ & _ & b & ->).
    eapply (saved_put c _ b n s); [done|done|reflexivity|reflexivity|done|]. right.
    destruct (record_cases peer response s) as [->|[[Hlt ->]|(_ & _ & _ & k & -> & _)]]; [done| |done].
    by rewrite step_down_later.
  - apply lose_cases in Hact as (s & peer & q & todo & Hs & _ & ->). by apply (saved_same c).
  - destruct (restart_cases h n c c' Hi Hsv Hact) as (s & m & a & Hs & _ & _ & ->).
    eapply (saved_put c _ true n s); [done|done|reflexivity|reflexivity|done|by left].
Qed.

Lemma reached_inv strict c : reachable shared strict c -> exists h, Inv h c /\ saved_ok c.
Proof.
  induction 1 as [|c a c' _ (h & Hi & Hsv) Hact Hw _]; [eexists; split; [apply start_inv|by intros n a]|].
  eexists. split; [by eapply act_inv|by eapply act_saved].
Qed.

End Safety.
