(* ===== verification/ClusterTheorems.v ===== *)
(** * What a cluster guarantees, and where it does not

    About the clusters [Cluster] can reach.  In all of them a term has one leader
    and entries of one term at one index have the same past.  When no node goes on
    sending after it has lost the lead ([strict]), an entry that half of the
    members have taken over in the term it was written in is in the log of every
    later leader, and in clusters of up to four members the committed prefixes,
    and the frames handed to storage, agree.  Two runs show the limits: a leader
    that steps down in the middle of a round overwrites committed entries, and
    with five members an entry is committed that two of them hold. *)

From stdpp Require Import base tactics list numbers gmap strings sorting.
From Stdlib Require Import ZArith Lia.
From S2P Require Import Prelude Consensus Cluster.
Local Open Scope Z_scope.
Local Open Scope bic_scope.

(** Member [p] has entry [e] of term [t] at position [i], as the messages show:
    it sent a request of that term that carries the entry, or accepted one. *)
Definition holds {F} (c : Cluster F) (p : string) (t : Z) (i : nat) (e : ConsensusLogEntry F) : Prop :=
  exists q, q ∈ append_requests c /\ ae_term q = t /\ entries q !! i = Some e /\ term e = t /\
    (p = ae_leader_id q \/ exists r, (p, q, r) ∈ append_answers c /\ ar_success r = true).

(** Half of the members, rounded up, hold the entry. *)
Definition replicated {F} (shared : ConsensusConfig) (c : Cluster F) (t : Z) (i : nat)
    (e : ConsensusLogEntry F) : Prop :=
  let members := list_to_set (C := gset string) (member_ids shared) in
  exists Q, Q ⊆ members /\ (base.size members - base.size members / 2 <= base.size Q)%nat /\
    forall p, p ∈ Q -> holds c p t i e.

(** The leader of term [w] was elected without the entry. *)
Definition lacks {F} (h : History F) (w : Z) (i : nat) (e : ConsensusLogEntry F) : Prop :=
  exists r, led h !! w = Some r /\ opening r !! i <> Some e.

Section Theorems.
Context {F : Type} `{EqDecision F} {seq : CommitFrame F}.
Variable shared : ConsensusConfig.
Hypothesis configured : well_configured shared.
Implicit Types h : History F.
Implicit Types c : Cluster F.
Implicit Types s : ConsensusState F.
Abbreviation members := (list_to_set (C := gset string) (member_ids shared)).
Abbreviation Inv := (Inv shared).
Abbreviation replicated := (replicated shared).

Lemma lacks_grows h h' w i e : grows h h' -> lacks h w i e -> lacks h' w i e.
Proof.
  intros Hg (r & Hr & Hn). destruct (gr_led _ _ Hg _ _ Hr) as (w' & Hw & _). eexists. split; [exact Hw|done].
Qed.

(** What holds beyond [Inv] when requests come from leaders: a request lies
    between the log its sender was elected with and what it wrote; what a member
    holds is in its log, was in its log when it voted, unless a later leader was
    elected without it. *)
Record Strict h c : Prop := {
  sr_request q : q ∈ append_requests c ->
    exists r, led h !! ae_term q = Some r /\ chief r = ae_leader_id q /\
      opening r `prefix_of` entries q /\ entries q `prefix_of` written r;
  sr_answered p q r : (p, q, r) ∈ append_answers c -> q ∈ append_requests c;
  sr_kept p t i e s : holds c p t i e -> nodes c !! p = Some s ->
    t <= current_term s /\
    (log s !! i = Some e \/ exists w, t < w <= current_term s /\ lacks h w i e);
  sr_vote p t i e u b l : holds c p t i e -> ballots h !! (u, p) = Some (b, l) -> t < u ->
    l !! i = Some e \/ exists w, t < w <= u /\ lacks h w i e;
  sr_back p t i e u r b l : holds c p t i e -> led h !! u = Some r -> p ∈ backers r ->
    ballots h !! (u, p) = Some (b, l) -> t < u ->
    l !! i = Some e \/ exists w, t < w < u /\ lacks h w i e
}.

(** ** Leader completeness *)

(** The entries of a reign's log have terms up to its own. *)
Lemma written_below h u r i e : reign_ok shared h u r -> written r !! i = Some e -> term e <= u.
Proof.
  intros Hr He. destruct (decide (length (opening r) <= i)%nat) as [Hle|Hgt].
  - rewrite (ro_own _ _ _ _ Hr i e He Hle). lia.
  - enough (term e < u) by lia. apply (ro_before _ _ _ _ Hr), list_elem_of_lookup. exists i.
    destruct (ro_opening _ _ _ _ Hr) as [z Hz]. rewrite Hz, lookup_app_l in He by lia. done.
Qed.

Lemma last_lookup_tip (l : list (ConsensusLogEntry F)) :
  l <> [] -> exists f, l !! (length l - 1)%nat = Some f /\ tip_term l = term f.
Proof.
  intros Hl. destruct l as [|f l _] using rev_ind; [done|]. exists f. unfold tip_term.
  rewrite last_snoc, length_app, lookup_app_r by (cbn; lia). cbn. by replace (_ - _ - _)%nat with 0%nat by lia.
Qed.

(** A good log is a prefix of what the leader of its last term wrote. *)
Lemma good_tip h (l : list (ConsensusLogEntry F)) :
  good h l -> l <> [] -> exists r, led h !! tip_term l = Some r /\ l `prefix_of` written r.
Proof.
  intros Hg Hl. destruct (last_lookup_tip l Hl) as (f & Hf & ->). destruct (Hg _ _ Hf) as (r & Hr & Hp).
  exists r. split; [done|]. rewrite take_ge in Hp; [done|]. destruct l; cbn in *; [done|lia].
Qed.

Lemma good_lookup_below h c (l : list (ConsensusLogEntry F)) i e :
  Inv h c -> good h l -> l !! i = Some e -> 1 <= term e <= tip_term l.
Proof.
  intros Hi Hg He. assert (Hl : l <> []) by by intros ->.
  destruct (good_tip h l Hg Hl) as (r & Hr & Hp). destruct (Hg i e He) as (r' & Hr' & _).
  pose proof (ro_term _ _ _ _ (inv_reign _ _ _ Hi _ _ Hr')). split; [done|].
  eapply written_below; [by eapply inv_reign|]. by eapply prefix_lookup_Some.
Qed.

(** If the leaders between have the entry, a log at least as good as one that has
    it has it too. *)
Lemma at_least_keeps h c (o l : list (ConsensusLogEntry F)) t i e u :
  Inv h c -> good h o -> good h l -> at_least o l -> l !! i = Some e -> term e = t ->
  (forall f, f ∈ o -> term f < u) ->
  (forall w r, led h !! w = Some r -> t < w < u -> opening r !! i = Some e) ->
  o !! i = Some e.
Proof.
  intros Hi Ho Hl Hal He Ht Hu Hbetween.
  pose proof (good_lookup_below h c l i e Hi Hl He) as Hlow.
  assert (Hne : o <> []).
  { intros ->. unfold at_least, tip_term at 2 4 in Hal. cbn in Hal. lia. }
  destruct (good_tip h o Ho Hne) as (r & Hr & Hp). destruct (last_lookup_tip o Hne) as (f & Hf & Htip).
  assert (Htu : tip_term o < u) by (rewrite Htip; eapply Hu, list_elem_of_lookup; eauto).
  pose proof (inv_reign _ _ _ Hi _ _ Hr) as Hro.
  destruct (decide (tip_term o = t)) as [Heq|Hneq].
  - assert (Hlt : tip_term l = tip_term o) by (unfold at_least in Hal; lia).
    assert (Hll : l <> []) by by intros ->. destruct (good_tip h l Hl Hll) as (r' & Hr' & Hp').
    rewrite Hlt, Hr in Hr'. simplify_eq. destruct (prefix_weak_total _ _ _ Hp Hp') as [Hx|Hx].
    + apply prefix_length in Hx as Hlen. unfold at_least in Hal. rewrite (prefix_length_eq _ _ Hx); [done|lia].
    + by eapply prefix_lookup_Some.
  - assert (Hop : opening r !! i = Some e) by (eapply Hbetween; [exact Hr|unfold at_least in Hal; lia]).
    assert (Hlen : (length (opening r) < length o)%nat).
    { destruct (decide (length (opening r) <= length o - 1)%nat) as [|Hgt]; [destruct o; cbn in *; [done|lia]|].
      exfalso. assert (Hin : f ∈ opening r).
      { apply list_elem_of_lookup. exists (length o - 1)%nat. pose proof (prefix_lookup_Some _ _ _ _ Hf Hp) as Hw.
        destruct (ro_opening _ _ _ _ Hro) as [z Hz]. rewrite Hz, lookup_app_l in Hw by lia. done. }
      pose proof (ro_before _ _ _ _ Hro f Hin). lia. }
    destruct (prefix_weak_total _ _ _ (ro_opening _ _ _ _ Hro) Hp) as [Hx|Hx]; [by eapply prefix_lookup_Some|].
    apply prefix_length in Hx. lia.
Qed.

(** Every later leader was elected with the entry. *)
Lemma elected_with_replicated h c t i e :
  Inv h c -> Strict h c -> replicated c t i e ->
  forall u r, led h !! u = Some r -> t < u -> opening r !! i = Some e.
Proof.
  intros Hi Hs (Q & HQ & Hn & Hh). intros u. induction (Z.lt_wf 0 u) as [u _ IH]. intros r Hr Ht.
  pose proof (inv_reign _ _ _ Hi _ _ Hr) as Hro.
  destruct (quorums_meet members Q (backers r)) as (p & HpQ & Hpb).
  { done. } { apply Hro. } { pose proof (ro_quorum _ _ _ _ Hro). lia. }
  destruct (ro_backed _ _ _ _ Hro p Hpb) as (l & Hl & Hal). specialize (Hh p HpQ).
  assert (Hte : term e = t) by (by destruct Hh as (q & _ & _ & _ & ? & _)).
  assert (Hbetween : forall w r', led h !! w = Some r' -> t < w < u -> opening r' !! i = Some e).
  { intros w r' Hw Hwu. apply (IH w); [|done|lia]. destruct Hh as (q & Hq & <- & _).
    destruct (sr_request _ _ Hs q Hq) as (r0 & Hr0 & _). pose proof (ro_term _ _ _ _ (inv_reign _ _ _ Hi _ _ Hr0)). lia. }
  destruct (sr_back _ _ Hs _ _ _ _ _ _ _ _ Hh Hr Hpb Hl Ht) as [He|(w & Hw & r' & Hr' & Hbad)].
  - eapply at_least_keeps; eauto; [|by eapply inv_ballot|by apply Hro].
    eapply good_prefix; [by apply Hro|by apply Hro].
  - by destruct Hbad; eapply Hbetween.
Qed.

(** ** The strict invariant is kept *)

(** A step that moves the log of a node only where a later leader lacks what is
    lost, adds requests a leader sends and answers to requests a node has taken
    over, votes with the log of the voter, and reigns backed by votes already
    cast. *)
Record careful h h' c c' : Prop := {
  ca_node p s' : nodes c' !! p = Some s' -> exists s, nodes c !! p = Some s /\
    current_term s <= current_term s' /\
    forall t i e, t <= current_term s -> term e = t -> log s !! i = Some e ->
      log s' !! i = Some e \/ exists w, t < w <= current_term s' /\ lacks h w i e;
  ca_request q : q ∈ append_requests c' -> q ∈ append_requests c \/
    (exists r, led h' !! ae_term q = Some r /\ chief r = ae_leader_id q /\
       opening r `prefix_of` entries q /\ entries q `prefix_of` written r) /\
    exists s', nodes c' !! ae_leader_id q = Some s' /\ current_term s' = ae_term q /\ entries q = log s';
  ca_kept q : q ∈ append_requests c -> q ∈ append_requests c';
  ca_answer p q r : (p, q, r) ∈ append_answers c' -> (p, q, r) ∈ append_answers c \/
    q ∈ append_requests c /\
    (ar_success r = true -> exists s', nodes c' !! p = Some s' /\ current_term s' = ae_term q /\
       entries q `prefix_of` log s');
  ca_ballot u p b l : ballots h' !! (u, p) = Some (b, l) -> ballots h !! (u, p) = Some (b, l) \/
    ballots h !! (u, p) = None /\ exists s, nodes c !! p = Some s /\ l = log s /\ current_term s <= u;
  ca_reign u r : led h' !! u = Some r -> led h !! u <> None \/ ballots h' = ballots h
}.

(** What a member comes to hold in a step is in its log, in its own term. *)
Lemma holds_new h h' c c' p t i e :
  Strict h c -> careful h h' c c' -> holds c' p t i e ->
  holds c p t i e \/
  exists s', nodes c' !! p = Some s' /\ current_term s' = t /\ log s' !! i = Some e.
Proof.
  intros Hs Hc (q & Hq & Ht & He & Hte & Hp).
  destruct Hp as [->|(r & Hr & Hsuc)].
  - destruct (ca_request _ _ _ _ Hc q Hq) as [Hold|(_ & s' & Hs' & Hcur & Hent)].
    + left. exists q. ands; auto.
    + right. exists s'. ands; [done|lia|]. by rewrite <-Hent.
  - destruct (ca_answer _ _ _ _ Hc _ _ _ Hr) as [Hold|[Hold Hnew]].
    + left. exists q. ands; try done; [by eapply sr_answered|]. eauto.
    + right. destruct (Hnew Hsuc) as (s' & Hs' & Hcur & Hpre). exists s'. ands; [done|lia|].
      by eapply prefix_lookup_Some.
Qed.

Lemma strict_step h h' c c' :
  Inv h c -> Inv h' c' -> grows h h' -> Strict h c -> careful h h' c c' -> Strict h' c'.
Proof.
  intros Hi Hi' Hg Hs Hc. pose proof (lacks_grows h h') as Hlg.
  assert (Hlate : forall p t u b l, (exists s', nodes c' !! p = Some s' /\ current_term s' = t) ->
    ballots h' !! (u, p) = Some (b, l) -> t < u -> False).
  { intros p t u b l (s' & Hs' & Ht) Hb Hlt.
    destruct (ni_ballot _ _ _ _ _ (inv_node _ _ _ Hi' p s' Hs') u b l Hb). lia. }
  assert (Hte : forall p t i e, holds c p t i e -> term e = t) by (by intros p t i e (q & _ & _ & _ & ? & _)).
  split.
  - intros q Hq. destruct (ca_request _ _ _ _ Hc q Hq) as [Hold|[? _]]; [|done].
    destruct (sr_request _ _ Hs q Hold) as (r & Hr & Hch & Ho & He).
    destruct (gr_led _ _ Hg _ _ Hr) as (w & Hw & Hp). eexists. cbn. ands; [exact Hw|done..|]. by trans (written r).
  - intros p q r Hr. destruct (ca_answer _ _ _ _ Hc _ _ _ Hr) as [Hold|[Hold _]]; apply (ca_kept _ _ _ _ Hc); [|done].
    by eapply sr_answered.
  - intros p t i e s' Hh Hs'. destruct (holds_new _ _ _ _ _ _ _ _ Hs Hc Hh) as [Hold|(s2 & H2 & Ht & Hl)].
    2: { rewrite Hs' in H2. simplify_eq. split; [lia|by left]. }
    destruct (ca_node _ _ _ _ Hc p s' Hs') as (s & Hn & Hle & Hk).
    destruct (sr_kept _ _ Hs _ _ _ _ _ Hold Hn) as [Ht Hor]. split; [lia|].
    destruct Hor as [Hl|(w & Hw & Hl)]; [|right; exists w; split; [lia|eauto]].
    destruct (Hk t i e Ht (Hte _ _ _ _ Hold) Hl) as [|(w & Hw & Hx)]; [by left|right; exists w; eauto].
  - intros p t i e u b l Hh Hb Hlt. destruct (holds_new _ _ _ _ _ _ _ _ Hs Hc Hh) as [Hold|(s2 & H2 & Ht & _)].
    2: { by destruct (Hlate p t u b l); [exists s2|..]. }
    destruct (ca_ballot _ _ _ _ Hc u p b l Hb) as [Hb'|(_ & s & Hn & -> & Hle)].
    + destruct (sr_vote _ _ Hs _ _ _ _ _ _ _ Hold Hb' Hlt) as [|(w & Hw & Hx)]; [by left|right; exists w; eauto].
    + destruct (sr_kept _ _ Hs _ _ _ _ _ Hold Hn) as [_ [|(w & Hw & Hx)]]; [by left|right; exists w; split; [lia|eauto]].
  - intros p t i e u r b l Hh Hr Hp Hb Hlt. destruct (holds_new _ _ _ _ _ _ _ _ Hs Hc Hh) as [Hold|(s2 & H2 & Ht & _)].
    2: { by destruct (Hlate p t u b l); [exists s2|..]. }
    destruct (led h !! u) as [r0|] eqn:Hr0.
    + destruct (gr_led _ _ Hg _ _ Hr0) as (w & Hw & _). rewrite Hw in Hr. injection Hr as <-. cbn in Hp.
      destruct (ro_backed _ _ _ _ (inv_reign _ _ _ Hi _ _ Hr0) p Hp) as (l0 & Hl0 & _).
      pose proof (gr_ballots _ _ Hg _ _ Hl0) as Hl1. rewrite Hb in Hl1. simplify_eq.
      destruct (sr_back _ _ Hs _ _ _ _ _ _ _ _ Hold Hr0 Hp Hl0 Hlt) as [|(w' & Hw' & Hx)]; [by left|right; exists w'; eauto].
    + destruct (ca_reign _ _ _ _ Hc u r Hr) as [Hx|Heq]; [done|]. rewrite Heq in Hb.
      destruct (sr_vote _ _ Hs _ _ _ _ _ _ _ Hold Hb Hlt) as [|(w & Hw & Hx)]; [by left|right; exists w].
      split; [|eauto]. destruct Hx as (r1 & Hr1 & _). assert (w <> u) by congruence. lia.
Qed.

(** A step that extends the log of one node at most and sends no message that
    carries a log. *)
Lemma careful_node h h' c c' n s s' :
  nodes c !! n = Some s -> nodes c' = <[n := s']> (nodes c) -> current_term s <= current_term s' ->
  log s `prefix_of` log s' ->
  append_requests c' = append_requests c -> append_answers c' = append_answers c ->
  (forall u p b l, ballots h' !! (u, p) = Some (b, l) -> ballots h !! (u, p) = Some (b, l) \/
     ballots h !! (u, p) = None /\ exists s, nodes c !! p = Some s /\ l = log s /\ current_term s <= u) ->
  (forall u r, led h' !! u = Some r -> led h !! u <> None \/ ballots h' = ballots h) ->
  careful h h' c c'.
Proof.
  intros Hs Hn Ht Hl Hq Ha Hb Hr. split; try done; try (rewrite ?Hq, ?Ha; by auto).
  - intros p sp. rewrite Hn. intros [[<- <-]|[Hne Hp]]%lookup_insert_Some.
    + exists s. ands; try done. intros t i e _ _ He. left. by eapply prefix_lookup_Some.
    + exists sp. ands; try done. auto.
Qed.

Lemma careful_quiet h c c' n s s' :
  nodes c !! n = Some s -> nodes c' = <[n := s']> (nodes c) -> current_term s <= current_term s' ->
  log s' = log s -> append_requests c' = append_requests c -> append_answers c' = append_answers c ->
  careful h h c c'.
Proof. intros. eapply careful_node; eauto. by replace (log s') with (log s). Qed.

Lemma careful_ballot h c c' n s s' t b :
  nodes c !! n = Some s -> nodes c' = <[n := s']> (nodes c) -> current_term s <= current_term s' ->
  log s' = log s -> current_term s <= t ->
  append_requests c' = append_requests c -> append_answers c' = append_answers c ->
  careful h (add_ballot t n b (log s) h) c c'.
Proof.
  intros Hs Hn Ht Hl Htt Hq Ha. eapply careful_node; eauto; [by rewrite Hl| |].
  - intros u p b' l [Hold|(-> & -> & [= -> ->] & Hnone)]%add_ballot_lookup; [by left|right]. eauto.
  - intros u r Hr. left. cbn in Hr. congruence.
Qed.

(** The log changes only where a request of its term says so: what an accepted
    request overwrites, a later leader lacks. *)
Lemma appended_keeps h c q s s' frames m t i e :
  Inv h c -> Strict h c -> q ∈ append_requests c -> good h (log s) -> appended q s s' frames m ->
  t <= current_term s -> term e = t -> log s !! i = Some e ->
  log s' !! i = Some e \/ exists w, t < w <= current_term s' /\ lacks h w i e.
Proof.
  intros Hi Hs Hq Hg Ha Ht Hte He. destruct (sr_request _ _ Hs q Hq) as (r & Hr & _ & Ho & Hw).
  destruct (ap_log _ _ _ _ _ Ha) as [[_ ->]|[Hnp ->]]; [by left|].
  pose proof (ap_later _ _ _ _ _ Ha). rewrite (ap_now _ _ _ _ _ Ha).
  destruct (decide (entries q !! i = Some e)) as [|Hne]; [by left|right].
  destruct (decide (t = ae_term q)) as [Heq|Hneq].
  - exfalso. destruct (Hg i e He) as (r' & Hr' & Hp). rewrite Hte, Heq, Hr in Hr'. simplify_eq.
    destruct (prefix_weak_total _ _ _ Hw Hp) as [Hx|Hx].
    + apply Hnp. trans (take (S i) (log s)); [done|apply prefix_take].
    + apply Hne. eapply prefix_lookup_Some; [|exact Hx]. by rewrite lookup_take_lt by lia.
  - exists (ae_term q). split; [lia|]. exists r. split; [done|]. intros Hx. apply Hne. by eapply prefix_lookup_Some.
Qed.

Lemma vote_log q s r s' :
  handle_request_vote q s = (Val r, s') ->
  log s' = log s /\ commit_index s' = commit_index s /\ last_applied s' = last_applied s /\
  current_term s <= current_term s' /\ (vr_vote_granted r = true -> current_term s <= rv_term q) /\
  (role s' = Leader -> role s = Leader /\ current_term s' = current_term s).
Proof.
  intros [[Hg Hc]|(Hg & _ & _ & Hc)]%vote_cases.
  - destruct Hc as [->|[Hlt ->]]; [rewrite Hg; ands; try done; lia|].
    rewrite step_down_later by done. rewrite Hg. cbn. ands; try done; lia.
  - destruct Hc as [(Ht & _ & ->)|[Hlt ->]]; [cbn; ands; try done; lia|].
    rewrite step_down_later by done. cbn. ands; try done; lia.
Qed.

Lemma close_log n answers s :
  let s' := (close_election (config_of shared n) answers s).2 in
  log s' = log s /\ current_term s' = current_term s /\ commit_index s' = commit_index s /\
  last_applied s' = last_applied s.
Proof. cbn. unfold close_election, become_leader. by repeat case_bool_decide. Qed.

Lemma record_log n r s :
  let s' := (record_append_response n r s).2 in
  log s' = log s /\ current_term s <= current_term s' /\ last_applied s' = last_applied s /\
  (role s' = Leader -> role s = Leader /\ current_term s' = current_term s).
Proof.
  cbn. destruct (record_cases n r s) as [->|[[Hlt ->]|(Hr & _ & _ & k & -> & _)]]; [done| |done].
  rewrite step_down_later by done. cbn. ands; try done. lia.
Qed.

Lemma send_careful h c c' n :
  Inv h c -> send_next n c = Some c' -> leads (SendNext n) c -> careful h h c c'.
Proof.
  intros Hi Hact Hld.
  apply send_cases in Hact as (s & Hn & [->|(peer & todo & Hd & ->)]).
  { eapply (careful_quiet h c _ n s s); try done. cbn. by rewrite insert_id. }
  cbn in Hld. rewrite Hn, Hd in Hld. pose proof (inv_node _ _ _ Hi n s Hn) as Hni.
  destruct (ni_leader _ _ _ _ _ Hni Hld) as (r & Hr & Hch & Hwr).
  rewrite append_from_one by apply Hni. rewrite (ni_id _ _ _ _ _ Hni). split; cbn; try by auto.
  - intros p s' Hp. exists s'. ands; try done. auto.
  - intros q [->|Hq]%elem_of_cons; [right|by left]. cbn. split; [|by exists s].
    exists r. rewrite <-Hwr. ands; try done. by apply (inv_reign _ _ _ Hi _ _ Hr).
  - intros q Hq. by right.
Qed.

Lemma append_careful h c c' p request b vs :
  Inv h c -> Strict h c -> answer_append p request b vs c = Some c' -> careful h h c c'.
Proof.
  intros Hi Hs Hact.
  destruct (answer_append_cases _ h c c' p request b vs Hi Hact)
    as (s & r & s' & frames & v & a & db & Hn & Hq & -> & _ & _ & Hc).
  destruct (hand_over_frame p v a db (note_append p request r (set_node p s' c))) as (F1 & _ & _ & _ & F5 & F6).
  pose proof (inv_node _ _ _ Hi p s Hn) as Hni. split; rewrite ?F1, ?F5, ?F6; cbn; try by auto.
  - intros p' sp [[<- <-]|[Hne Hp]]%lookup_insert_Some.
    2: { exists sp. ands; try done. auto. }
    exists s. split; [done|]. destruct Hc as [[_ Hc]|[_ [m Hm]]].
    + apply (f_equal snd) in Hc. rewrite apply_rest in Hc by apply Hni. cbn in Hc. subst s'. cbn. split; [lia|]. auto.
    + split; [destruct Hm; lia|]. intros t i e. eapply appended_keeps; eauto. apply Hni.
  - intros p' q' r' [[= -> -> ->]|Hin]%elem_of_cons; [right|by left]. split; [done|]. intros Hsuc.
    destruct Hc as [[? _]|[_ [m Hm]]]; [congruence|]. exists s'. rewrite lookup_insert_eq.
    destruct Hm. ands; try done. by destruct ap_log as [[? ->]|[_ ->]].
Qed.

Lemma act_careful h c a c' :
  Inv h c -> saved_ok c -> Strict h c -> act shared a c = Some c' -> within c' -> leads a c ->
  careful h (remember shared a c h) c c'.
Proof.
  intros Hi Hsv Hs Hact Hw Hld. destruct a; cbn [act] in Hact.
  - apply elect_cases in Hact as (s & Hn & _ & _ & ->). cbn [remember]. rewrite Hn.
    pose proof (within_changed _ (nodes c) n _ Hw eq_refl) as [Ht _]. cbn in Ht.
    eapply careful_ballot; try done; cbn; revert Ht; widths; lia.
  - apply answer_vote_cases in Hact as (s & r & s' & Hn & _ & Hh & ->). cbn [remember]. rewrite Hn, Hh.
    destruct (vote_log _ _ _ _ Hh) as (Hl & _ & _ & Ht & Hg & _).
    destruct (vr_vote_granted r); [eapply careful_ballot; eauto|eapply careful_quiet; eauto].
  - apply finish_cases in Hact as (s & q & Hn & _ & _ & won & ->).
    destruct (close_log n answers s) as (Hl & Ht & _). eapply careful_node; cbn; [done|done|lia|by rewrite Hl|done|done|..].
    + cbn [remember]. rewrite Hn. intros u p b l. destruct (close_election _ _ _) as [[]]; [|auto..]. repeat case_bool_decide; auto.
    + cbn [remember]. rewrite Hn. destruct (close_election _ _ _) as [[]]; [|auto..]. repeat case_bool_decide; auto.
  - apply local_commit_cases in Hact as (s & db & Hn & ->). eapply (careful_quiet h c _ n s s); try done. cbn. by rewrite insert_id.
  - apply propose_cases in Hact as (s & Hn & _ & Hr & ->).
    eapply careful_node; cbn; [done|done|..|done|done| |].
    + unfold append_local_commit. rewrite bool_decide_eq_true_2 by done. cbn. lia.
    + unfold append_local_commit. rewrite bool_decide_eq_true_2 by done. cbn. by apply prefix_app_r.
    + cbn [remember]. rewrite Hn. cbn. destruct (led h !! current_term s); auto.
    + right. cbn [remember]. rewrite Hn. cbn. by destruct (led h !! current_term s).
  - apply begin_cases in Hact as (s & Hn & _ & ->). eapply (careful_quiet h c _ n s s); try done. cbn. by rewrite insert_id.
  - by apply send_careful with (n := n).
  - by eapply append_careful.
  - apply record_answer_cases in Hact as (s & peer & q & todo & Hn & _ & _ & b & ->).
    destruct (record_log peer response s) as (Hl & Ht & _). by eapply careful_quiet.
  - apply lose_cases in Hact as (s & peer & q & todo & Hn & _ & ->). eapply (careful_quiet h c _ n s s); try done. cbn. by rewrite insert_id.
  - destruct (restart_cases _ configured h n c c' Hi Hsv Hact) as (s & m & a & Hn & _ & _ & ->). by eapply careful_quiet.
Qed.

Lemma strict_start : Strict (mkHistory ∅ ∅) (start shared).
Proof.
  assert (Hno : forall p t i e, ~ holds (start (F := F) shared) p t i e) by (by intros p t i e (q & ?%elem_of_nil & _)).
  split.
  - by intros q ?%elem_of_nil.
  - by intros p q r ?%elem_of_nil.
  - by intros p t i e s ?%Hno.
  - by intros p t i e u b l ?%Hno.
  - by intros p t i e u r b l ?%Hno.
Qed.

Lemma act_strict h c a c' :
  Inv h c -> saved_ok c -> Strict h c -> act shared a c = Some c' -> within c' -> leads a c ->
  Strict (remember shared a c h) c'.
Proof.
  intros Hi Hsv Hs Hact Hw Hl. destruct (act_inv shared configured h c a c' Hi Hsv Hact Hw) as [Hg Hi'].
  apply (strict_step h _ c c' Hi Hi' Hg Hs). by apply act_careful.
Qed.

Lemma reachable_strict c : reachable shared true c -> exists h, Inv h c /\ Strict h c.
Proof.
  induction 1 as [|c a c' Hc (h & Hi & Hs) Hact Hw Hl].
  - eexists. split; [by apply start_inv|apply strict_start].
  - apply (reached_inv shared configured) in Hc as (_ & _ & Hsv).
    exists (remember shared a c h). split; [by apply (act_inv _ configured)|]. apply act_strict; auto.
Qed.

(** ** Committed prefixes *)

Lemma holds_mono c c' p t i e :
  append_requests c ⊆ append_requests c' -> append_answers c ⊆ append_answers c' -> holds c p t i e -> holds c' p t i e.
Proof.
  intros Hq Ha (q & Hin & Ht & He & Hte & Hp). exists q. ands; auto.
  destruct Hp as [?|(r & Hr & ?)]; [by left|right; eauto].
Qed.

Lemma replicated_mono c c' t i e :
  append_requests c ⊆ append_requests c' -> append_answers c ⊆ append_answers c' ->
  replicated c t i e -> replicated c' t i e.
Proof. intros Hq Ha (Q & HQ & Hn & Hh). exists Q. ands; auto. intros p Hp. eapply holds_mono; eauto. Qed.

(** The first [k] entries of [l] are the beginning of what a leader up to term [u]
    wrote, up to an entry that is replicated. *)
Definition settled h c (l : list (ConsensusLogEntry F)) (k u : Z) : Prop :=
  k = 0 \/ exists t i e r, replicated c t i e /\ t <= u /\ k <= Z.of_nat (S i) /\
    led h !! t = Some r /\ written r !! i = Some e /\
    take (Z.to_nat k) l = take (Z.to_nat k) (written r).

Lemma settled_mono h h' c c' l l' k u u' :
  grows h h' -> append_requests c ⊆ append_requests c' -> append_answers c ⊆ append_answers c' -> u <= u' ->
  take (Z.to_nat k) l' = take (Z.to_nat k) l -> settled h c l k u -> settled h' c' l' k u'.
Proof.
  intros Hg Hq Ha Hu Hl [->|(t & i & e & r & Hr & Ht & Hk & Hled & Hi & Htk)]; [by left|right].
  destruct (gr_led _ _ Hg _ _ Hled) as (w & Hw & Hp). exists t, i, e. eexists. cbn.
  ands; [by eapply replicated_mono|lia|done|exact Hw|by eapply prefix_lookup_Some|]. cbn. rewrite Hl, Htk.
  destruct Hp as [z ->]. apply lookup_lt_Some in Hi. by rewrite take_app_le by lia.
Qed.

Lemma replicated_holder h c t i e u r :
  Inv h c -> led h !! u = Some r -> replicated c t i e -> exists p, holds c p t i e.
Proof.
  intros Hi Hled (Q & HQ & Hn & Hh). pose proof (inv_reign _ _ _ Hi _ _ Hled) as Hro.
  destruct (quorums_meet members Q (backers r)) as (p & Hp & _).
  { done. } { apply Hro. } { pose proof (ro_quorum _ _ _ _ Hro). lia. }
  exists p. auto.
Qed.

(** What a later leader wrote begins with what is replicated. *)
Lemma written_agree h c t i e r t' r' :
  Inv h c -> Strict h c -> replicated c t i e -> led h !! t = Some r -> led h !! t' = Some r' -> t < t' ->
  opening r' !! i = Some e /\ take (S i) (written r') = take (S i) (written r).
Proof.
  intros Hi Hs Hr Hled Hled' Ht. pose proof (elected_with_replicated h c t i e Hi Hs Hr t' r' Hled' Ht) as Ho.
  split; [done|]. pose proof (inv_reign _ _ _ Hi _ _ Hled') as Hro.
  pose proof (prefix_lookup_Some _ _ _ _ Ho (ro_opening _ _ _ _ Hro)) as Hw.
  destruct (ro_good _ _ _ _ Hro i e Hw) as (r0 & Hr0 & Hp).
  assert (Hte : term e = t).
  { destruct (replicated_holder h c t i e t' r' Hi Hled' Hr) as (p & q & _ & _ & _ & ? & _). done. }
  rewrite Hte, Hled in Hr0. simplify_eq. destruct Hp as [z ->]. apply lookup_lt_Some in Hw.
  rewrite take_app_le, take_take, Nat.min_id; [done|]. rewrite length_take. lia.
Qed.

(** Where a driver is in a round: the peers to come are other members, and the
    request it waits on carries the node's log while the node leads. *)
Definition driving c (n : string) s (d : Driver F) : Prop :=
  match d with
  | Sending todo => forall p, p ∈ todo -> p ∈ members /\ p <> n
  | Awaiting peer q todo =>
      (forall p, p ∈ peer :: todo -> p ∈ members /\ p <> n) /\
      q ∈ append_requests c /\ ae_leader_id q = n /\
      (role s = Leader -> ae_term q = current_term s /\ entries q = log s)
  | _ => True
  end.

(** What applying a frame without a failure leaves of it: nothing when its number
    was reached before. *)
Definition absorb (db : Storage F) (f : F) : Storage F :=
  if frame_commit_seq f <=? last_commit_seq db then db
  else mkStorage (frame_commit_seq f) (frame_commit_seq f) (held db ++ [f]).
Definition absorbed (l : list F) : Storage F := foldl absorb (mkStorage 0 0 []) l.

Lemma absorbed_level l : replicated_seq (absorbed l) = last_commit_seq (absorbed l).
Proof.
  unfold absorbed. assert (Hx : replicated_seq (mkStorage (F := F) 0 0 []) = last_commit_seq (mkStorage (F := F) 0 0 [])) by done.
  revert Hx. generalize (mkStorage (F := F) 0 0 []). induction l as [|f l IH]; intros db Hx; cbn; [done|].
  apply IH. unfold absorb. by destruct (_ <=? _).
Qed.

Lemma absorb_grows l : forall db, held db `prefix_of` held (foldl absorb db l).
Proof.
  induction l as [|f l IH]; intros db; cbn; [done|]. etrans; [|apply IH]. unfold absorb.
  destruct (_ <=? _); [done|]. by apply prefix_app_r.
Qed.

Lemma absorbed_prefix l l' : held (absorbed l) `prefix_of` held (absorbed (l ++ l')).
Proof. unfold absorbed. rewrite foldl_app. apply absorb_grows. Qed.

(** A database in step absorbs the frames it is given, or fails. *)
Lemma inner_absorbs b v f (db db' : Storage F) :
  replicated_seq db = last_commit_seq db -> apply_replication_frame_inner b v f db = (Val tt, db') -> db' = absorb db f.
Proof.
  intros Hl. unfold apply_replication_frame_inner, last_applied_commit_seq, absorb. rewrite Hl.
  replace (if b then last_commit_seq db else last_commit_seq db) with (last_commit_seq db) by (by destruct b).
  destruct v; cbn [bool_decide]; repeat (rewrite bool_decide_eq_true_2 by done || rewrite bool_decide_eq_false_2 by done); try done.
  all: destruct (Z.leb_spec (frame_commit_seq f) (last_commit_seq db)) as [Hle|Hgt]; [by intros [= <-]|].
  all: destruct (_ || _) eqn:Eg; [done|]; bools.
  all: try done.
  all: unfold st_bind, apply_imported_replication_commit, record_replication_apply_success, st_ret, st_fail.
  all: rewrite (proj2 (Z.leb_gt _ _)) by lia; cbn [negb].
  all: rewrite (proj2 (Z.eqb_eq _ _)) by lia; cbn [negb]; repeat (rewrite bool_decide_eq_true_2 by done || rewrite bool_decide_eq_false_2 by done); try done.
  all: by intros [= <-].
Qed.

Lemma frames_absorb b vs fs : forall (db db' : Storage F),
  replicated_seq db = last_commit_seq db -> apply_frames b vs fs db = (Val tt, db') -> db' = foldl absorb db fs.
Proof.
  revert vs. induction fs as [|f fs IH]; intros vs db db' Hl; cbn [apply_frames foldl]; [by intros [= <-]|].
  unfold st_bind. destruct (apply_replication_frame_inner b (hd Works vs) f db) as [[[]| |] db1] eqn:E; try done.
  apply inner_absorbs in E as ->; [|done]. apply IH. unfold absorb. by destruct (_ <=? _).
Qed.

(** What is committed is settled, on the nodes and in the requests; a database that
    is not spoiled has absorbed what is applied. *)
Record Commits h c : Prop := {
  cm_node n s : nodes c !! n = Some s -> settled h c (log s) (commit_index s) (current_term s);
  cm_request q : q ∈ append_requests c -> settled h c (entries q) (leader_commit q) (ae_term q);
  cm_stored n s : nodes c !! n = Some s -> n ∉ spoiled c ->
    db_of c n = absorbed (map frame (take (Z.to_nat (last_applied s)) (log s)));
  cm_driving n s : nodes c !! n = Some s -> driving c n s (driver c n)
}.

Lemma commits_node h h' c c' n s' :
  Commits h c -> grows h h' -> nodes c' = <[n := s']> (nodes c) ->
  append_requests c ⊆ append_requests c' -> append_answers c ⊆ append_answers c' ->
  settled h' c' (log s') (commit_index s') (current_term s') ->
  (n ∉ spoiled c' -> db_of c' n = absorbed (map frame (take (Z.to_nat (last_applied s')) (log s')))) ->
  driving c' n s' (driver c' n) ->
  (forall m, m <> n -> driver c' m = driver c m /\ db_of c' m = db_of c m /\ (m ∉ spoiled c' -> m ∉ spoiled c)) ->
  (forall q, q ∈ append_requests c' -> q ∈ append_requests c \/ settled h' c' (entries q) (leader_commit q) (ae_term q)) ->
  Commits h' c'.
Proof.
  intros Hc Hg Hn Hq Ha Hs Hap Hd Hoth Hnew. split.
  - intros m sm. rewrite Hn. intros [[<- <-]|[Hne Hm]]%lookup_insert_Some; [done|].
    by eapply settled_mono; [done..|reflexivity|done|eapply cm_node].
  - intros q [Hold|]%Hnew; [|done]. by eapply settled_mono; [done..|reflexivity|done|eapply cm_request].
  - intros m sm. rewrite Hn. intros [[<- <-]|[Hne Hm]]%lookup_insert_Some; [done|].
    intros Hsp. destruct (Hoth m (not_eq_sym Hne)) as (_ & -> & Hsp'). by apply (cm_stored _ _ Hc); auto.
  - intros m sm. rewrite Hn. intros [[<- <-]|[Hne Hm]]%lookup_insert_Some; [done|].
    rewrite (proj1 (Hoth m (not_eq_sym Hne))). pose proof (cm_driving _ _ Hc m sm Hm) as Hdr.
    destruct (driver c m); try done. cbn in *. destruct Hdr as (? & ? & ? & ?). ands; auto.
Qed.

(** A node that keeps its log and its counters, or extends its log. *)
Lemma commits_quiet h h' c c' n s s' :
  Commits h c -> grows h h' -> node_ok s -> nodes c !! n = Some s -> nodes c' = <[n := s']> (nodes c) ->
  append_requests c ⊆ append_requests c' -> append_answers c ⊆ append_answers c' ->
  current_term s <= current_term s' -> log s `prefix_of` log s' ->
  commit_index s' = commit_index s -> (n ∉ spoiled c' -> last_applied s' = last_applied s) ->
  driving c' n s' (driver c' n) ->
  (forall m, m <> n -> driver c' m = driver c m) ->
  (forall m, m ∉ spoiled c' -> m ∉ spoiled c) ->
  (forall m, m <> n \/ m ∉ spoiled c' -> db_of c' m = db_of c m) ->
  (forall q, q ∈ append_requests c' -> q ∈ append_requests c \/ settled h' c' (entries q) (leader_commit q) (ae_term q)) ->
  Commits h' c'.
Proof.
  intros Hc Hg [] Hs Hn Hq Ha Ht [z Hl] Hci Hla Hd Hdo Hsp Hdb Hnew. eapply commits_node; eauto.
  - rewrite Hci. eapply (settled_mono h h' c c' (log s)); [done..| |by eapply cm_node].
    by rewrite Hl, take_app_le by lia.
  - intros Hns. rewrite Hdb, Hla, (cm_stored _ _ Hc n s Hs), Hl by auto. by rewrite take_app_le by lia.
  - intros m Hne. rewrite Hdo, Hdb by auto. auto.
Qed.

(** A node that may step down but starts no reign keeps what its driver relies on. *)
Lemma driving_kept c c' n s s' d :
  driving c n s d -> append_requests c ⊆ append_requests c' -> log s' = log s ->
  (role s' = Leader -> role s = Leader /\ current_term s' = current_term s) -> driving c' n s' d.
Proof.
  intros Hd Hq Hl Hr. destruct d; try done. cbn in *. destruct Hd as (? & ? & ? & Hx). ands; auto.
  intros [Hy Ht]%Hr. rewrite Hl, Ht. auto.
Qed.

(** What is committed lies before the first entry an accepted request changes. *)
Lemma committed_kept h c p q s s' frames m :
  Inv h c -> Strict h c -> Commits h c -> nodes c !! p = Some s -> q ∈ append_requests c ->
  appended q s s' frames m -> commit_index s <= Z.of_nat m.
Proof.
  intros Hi Hst Hc Hs Hq Ha. pose proof (nk_commit _ (ni_ok _ _ _ _ _ (inv_node _ _ _ Hi p s Hs))) as Hlen.
  destruct (ap_kept _ _ _ _ _ Ha) as (Hm & _ & [->|Hd]); [done|].
  destruct (Z.le_gt_cases (commit_index s) (Z.of_nat m)) as [|Hgt]; [done|exfalso].
  destruct (ap_log _ _ _ _ _ Ha) as [[_ He]|[Hnp He]]; [by rewrite He in Hd|]. rewrite He in Hd.
  destruct (cm_node _ _ Hc p s Hs) as [|(t & i & e & r & Hr & Ht & Hk & Hled & Hi' & Htk)]; [lia|].
  destruct (sr_request _ _ Hst q Hq) as (r' & Hr' & _ & Ho & Hw). pose proof (ap_later _ _ _ _ _ Ha) as Hla.
  enough (Heq : take (Z.to_nat (commit_index s)) (log s) = take (Z.to_nat (commit_index s)) (entries q)).
  { apply Hd. apply (f_equal (.!! m)) in Heq. by rewrite !lookup_take_lt in Heq by lia. }
  pose proof (lookup_lt_Some _ _ _ Hi') as Hwl. destruct (decide (t = ae_term q)) as [->|Hne].
  - rewrite Hr' in Hled. simplify_eq. destruct Hw as [z Hz].
    destruct (decide (Z.to_nat (commit_index s) <= length (entries q))%nat) as [Hle|Hgt'].
    + by rewrite Htk, Hz, take_app_le by done.
    + exfalso. apply Hnp. trans (take (Z.to_nat (commit_index s)) (log s)); [|apply prefix_take].
      rewrite Htk, Hz, take_app_ge by lia. by apply prefix_app_r.
  - destruct (written_agree h c t i e r (ae_term q) r' Hi Hst Hr Hled Hr') as [Hoi Hag]; [lia|].
    pose proof (lookup_lt_Some _ _ _ (prefix_lookup_Some _ _ _ _ Hoi Ho)) as Hle.
    apply (f_equal (take (Z.to_nat (commit_index s)))) in Hag. rewrite !take_take, !Nat.min_l in Hag by lia.
    rewrite Htk, <-Hag. destruct Hw as [z ->]. by rewrite take_app_le by lia.
Qed.

Lemma drivers_apart n d c m : m <> n -> driver (set_driver n d c) m = driver c m.
Proof. intros Hne. rewrite driver_set. by rewrite decide_False. Qed.

Lemma driver_own n d c : driver (set_driver n d c) n = d.
Proof. rewrite driver_set. by rewrite decide_True. Qed.

Lemma take_extend {A} (l : list A) a b : (a <= b)%nat -> take a l ++ drop a (take b l) = take b l.
Proof.
  intros Hab. rewrite <-(take_drop a (take b l)) at 2. by rewrite take_take, Nat.min_l by lia.
Qed.

(** The database of a node whose step is answered and applied. *)
Lemma hand_over_db p v a db c m :
  db_of (hand_over p v a db c) m = (if decide (m = p) then db else db_of c m) /\
  (m ∉ spoiled (hand_over p v a db c) -> (m ∉ spoiled c) /\ (m = p -> v = Val tt)).
Proof.
  split.
  - unfold db_of. replace (databases (hand_over p v a db c)) with (<[p := db]> (databases c)) by (by destruct v).
    case_decide; subst; [by rewrite lookup_insert_eq|]. by rewrite lookup_insert_ne.
  - destruct v as [[]| |]; cbn; [done|set_solver..].
Qed.

(** The frames an answer applies follow on what was applied. *)
Lemma applied_frames h c p q s s' r frames :
  Inv h c -> Strict h c -> Commits h c -> nodes c !! p = Some s -> q ∈ append_requests c ->
  (ar_success r = false /\ (frames, s') = apply_committed_prefix s \/
   ar_success r = true /\ exists m, appended q s s' frames m) ->
  (map frame (take (Z.to_nat (last_applied s)) (log s))) ++ frames =
  map frame (take (Z.to_nat (last_applied s')) (log s')).
Proof.
  intros Hi Hst Hc Hs Hq Hcase. pose proof (ni_ok _ _ _ _ _ (inv_node _ _ _ Hi p s Hs)) as Hok.
  destruct Hcase as [[_ Hx]|[_ [m Hm]]].
  - rewrite apply_committed_spec in Hx by done. injection Hx as -> ->. cbn.
    rewrite <-map_app, take_extend; [done|]. destruct Hok. lia.
  - pose proof (committed_kept h c p q s s' frames m Hi Hst Hc Hs Hq Hm) as Hk. destruct Hm, Hok.
    destruct ap_kept as (Hml & Htm & _). rewrite ap_frames, ap_applied.
    rewrite (Z.min_l (commit_index s)), Z.min_l by lia.
    apply (f_equal (take (Z.to_nat (last_applied s)))) in Htm. rewrite !take_take, !Nat.min_l in Htm by lia.
    rewrite <-Htm, <-map_app, take_extend; [done|]. lia.
Qed.

Lemma append_commits h c c' p q b vs :
  Inv h c -> Strict h c -> Commits h c -> answer_append p q b vs c = Some c' -> Commits h c'.
Proof.
  intros Hi Hst Hc Hact.
  destruct (answer_append_cases _ h c c' p q b vs Hi Hact)
    as (s & r & s' & frames & v & a & db & Hs & Hq & -> & Hdb & _ & Hcase).
  destruct (hand_over_frame p v a db (note_append p q r (set_node p s' c))) as (F1 & F2 & _ & _ & F5 & F6).
  pose proof (hand_over_db p v a db (note_append p q r (set_node p s' c))) as Hover.
  pose proof (inv_node _ _ _ Hi p s Hs) as Hn. pose proof (ni_ok _ _ _ _ _ Hn) as Hok.
  pose proof (cm_driving _ _ Hc p s Hs) as Hdr.
  eapply (commits_node h h c _ p s'); try done; rewrite ?F1, ?F5, ?F6; try done; cbn [append_requests append_answers note_append put_node].
  - set_solver.
  - destruct Hcase as [[_ Hx]|[_ [m Hm]]].
    + rewrite apply_committed_spec in Hx by done. injection Hx as _ ->. cbn.
      eapply (settled_mono h h c); [done|rewrite ?F5, ?F6; cbn; set_solver..|reflexivity|done|exact (cm_node _ _ Hc p s Hs)].
    + pose proof (committed_kept h c p q s s' frames m Hi Hst Hc Hs Hq Hm) as Hk. destruct Hm.
      rewrite ap_commit, ap_now, (Z.min_l (commit_index s)) by lia. destruct ap_kept as (Hml & Htm & _).
      destruct (Z.max_spec (commit_index s) (leader_commit q)) as [[Hlt ->]|[Hge ->]].
      * eapply (settled_mono h h c); [done|rewrite ?F5, ?F6; cbn; set_solver..|reflexivity| |exact (cm_request _ _ Hc q Hq)].
        pose proof (ao_commit _ _ _ (inv_request _ _ _ Hi q Hq)) as Hlc.
        destruct ap_log as [[[z Hz] ->]|[_ ->]]; [|done]. rewrite Hz, take_app_le; [done|lia].
      * eapply (settled_mono h h c); [done|rewrite ?F5, ?F6; cbn; set_solver..|exact ap_later| |exact (cm_node _ _ Hc p s Hs)].
        apply (f_equal (take (Z.to_nat (commit_index s)))) in Htm. by rewrite !take_take, !Nat.min_l in Htm by lia.
  - intros [Hsp Hv]%(proj2 (Hover p)). rewrite (proj1 (Hover p)), decide_True by done.
    rewrite (Hv eq_refl) in Hdb. rewrite <- (applied_frames h c p q s s' r frames) by done.
    unfold absorbed. rewrite foldl_app. fold (absorbed (map frame (take (Z.to_nat (last_applied s)) (log s)))).
    rewrite <- (cm_stored _ _ Hc p s Hs Hsp). apply (frames_absorb b vs); [|done].
    rewrite (cm_stored _ _ Hc p s Hs Hsp). apply absorbed_level.
  - assert (Hl : role s' = Leader -> s' = set_last_applied (commit_index s) s).
    { destruct Hcase as [[_ Hx]|[_ [m Hm]]]; [|destruct Hm; congruence].
      rewrite apply_committed_spec in Hx by done. by injection Hx. }
    unfold driver. rewrite F2. change (default Idle _) with (driver c p). destruct (driver c p); try done. cbn in *.
    destruct Hdr as (? & ? & ? & Hx). rewrite F5. ands; try done. intros Hr. specialize (Hl Hr). subst s'. by apply Hx.
  - intros m Hne. unfold driver. rewrite F2, (proj1 (Hover m)), decide_False by done.
    ands; [done|done|]. intros Hsp. by apply (proj2 (Hover m)).
  - auto.
Qed.

(** An answer that moves the commit index shows that the leader and the peer that
    answered hold the entry; among at most four members that is half of them. *)
Lemma answered_replicated h c n s peer q todo r e i :
  (base.size members <= 4)%nat ->
  Inv h c -> Commits h c -> nodes c !! n = Some s -> driver c n = Awaiting peer q todo ->
  (peer, q, r) ∈ append_answers c -> ar_success r = true -> role s = Leader ->
  log s !! i = Some e -> term e = current_term s -> replicated c (current_term s) i e.
Proof.
  intros Hsmall Hi Hc Hs Hd Ha Hsuc Hr He Hte. pose proof (inv_node _ _ _ Hi n s Hs) as Hn.
  pose proof (cm_driving _ _ Hc n s Hs) as Hdr. rewrite Hd in Hdr. destruct Hdr as (Hp & Hq & Hl & Hx).
  destruct (Hx Hr) as [Ht Hent]. destruct (Hp peer) as [Hpm Hpn]; [set_solver|].
  exists {[n; peer]}. ands.
  - pose proof (ni_member _ _ _ _ _ Hn). set_solver.
  - rewrite size_union, !size_singleton by set_solver.
    pose proof (Nat.div_mod_eq (base.size members) 2). pose proof (Nat.mod_upper_bound (base.size members) 2). lia.
  - intros p Hpp. exists q. rewrite Hent. ands; try done.
    apply elem_of_union in Hpp as [->%elem_of_singleton| ->%elem_of_singleton]; [by left|right; eauto].
Qed.

Lemma record_commits h c c' n r :
  (base.size members <= 4)%nat ->
  Inv h c -> Commits h c -> record_answer n r c = Some c' -> Commits h c'.
Proof.
  intros Hsmall Hi Hc (s & peer & q & todo & Hs & Hd & Ha & b & ->)%record_answer_cases.
  pose proof (inv_node _ _ _ Hi n s Hs) as Hn. pose proof (ni_ok _ _ _ _ _ Hn) as Hok.
  destruct (record_log peer r s) as (Hl & Ht & Hla & _).
  pose proof (cm_driving _ _ Hc n s Hs) as Hdr. rewrite Hd in Hdr. destruct Hdr as (Hp & _).
  eapply commits_node; [done|reflexivity|done|done|done|..].
  - destruct (record_cases peer r s) as [->|[[Hlt ->]|(Hr & _ & Hsuc & k & -> & Hk)]].
    + exact (cm_node _ _ Hc n s Hs).
    + rewrite step_down_later by done. cbn.
      eapply settled_mono; [reflexivity|done|done| |done|exact (cm_node _ _ Hc n s Hs)]. lia.
    + cbn. destruct Hk as [->|(Hk & e & Hf & Hte)]; [exact (cm_node _ _ Hc n s Hs)|right].
      rewrite find_entry_lookup in Hf by apply Hok. destruct (0 <? k) eqn:Hpos; [|done]. bools.
      destruct (ni_leader _ _ _ _ _ Hn Hr) as (rg & Hrg & _ & Hw).
      exists (current_term s), (Z.to_nat (k - 1)), e, rg. rewrite Hw. ands; try done; try lia.
      apply (replicated_mono c); [done|done|]. by eapply answered_replicated.
  - rewrite Hla, Hl. exact (cm_stored _ _ Hc n s Hs).
  - rewrite driver_own. cbn. intros p Hp'. apply Hp. set_solver.
  - intros m Hne. by rewrite drivers_apart.
  - auto.
Qed.

Lemma propose_commits h c c' n f :
  Inv h c -> grows h (remember shared (Propose n f) c h) -> Commits h c -> propose n f c = Some c' ->
  Commits (remember shared (Propose n f) c h) c'.
Proof.
  intros Hi Hg Hc Hact. apply propose_cases in Hact as (s & Hn & Hd & Hr & ->). pose proof (inv_node _ _ _ Hi n s Hn) as Hni.
  assert (Hs' : exists z, log (append_local_commit f s).2 = log s ++ z /\ current_term (append_local_commit f s).2 = current_term s
    /\ commit_index (append_local_commit f s).2 = commit_index s /\ last_applied (append_local_commit f s).2 = last_applied s).
  { unfold append_local_commit. rewrite bool_decide_eq_true_2 by done. by eexists. }
  destruct Hs' as (z & Hz & Ht & Hci & Hla).
  eapply commits_quiet; eauto; [apply Hni|lia|by exists z|]. change (driver _ n) with (driver c n). by rewrite Hd.
Qed.

Lemma begin_commits h c c' n : Inv h c -> Commits h c -> begin_round shared n c = Some c' -> Commits h c'.
Proof.
  intros Hi Hc Hact. assert (Hg : grows h h) by reflexivity. apply begin_cases in Hact as (s & Hn & _ & ->). pose proof (inv_node _ _ _ Hi n s Hn) as Hni.
  eapply (commits_quiet h h c _ n s s); eauto; [apply Hni|cbn; by rewrite insert_id|lia| |].
  - rewrite driver_own. intros p (y & -> & Hy)%list_elem_of_fmap. apply list_elem_of_In, filter_In in Hy as [Hy Hne]. bools.
    split; [|done]. apply elem_of_list_to_set, list_elem_of_fmap. exists y. split; [done|]. by apply list_elem_of_In.
  - intros m Hne. by rewrite drivers_apart.
Qed.

Lemma send_commits h c c' n : Inv h c -> Commits h c -> send_next n c = Some c' -> Commits h c'.
Proof.
  intros Hi Hc Hact. assert (Hg : grows h h) by reflexivity. apply send_cases in Hact as (s & Hn & Hcase). pose proof (inv_node _ _ _ Hi n s Hn) as Hni.
  pose proof (cm_driving _ _ Hc n s Hn) as Hdr.
  destruct Hcase as [->|(peer & todo & Hd & ->)]; (eapply (commits_quiet h h c _ n s s); eauto; [apply Hni|cbn; by rewrite insert_id|..]).
  - lia. - by rewrite driver_own. - intros m Hne. by rewrite drivers_apart.
  - cbn. set_solver. - lia.
  - rewrite driver_own, append_from_one by apply Hni. rewrite Hd in Hdr. cbn. ands; [done|set_solver|by apply Hni|done].
  - intros m Hne. by rewrite drivers_apart.
  - intros q [->|Hq]%elem_of_cons; [right|by left]. rewrite append_from_one by apply Hni. cbn.
    eapply (settled_mono h h c); [reflexivity|cbn; set_solver..|reflexivity|done|exact (cm_node _ _ Hc n s Hn)].
Qed.

Lemma act_commits h c a c' :
  (base.size members <= 4)%nat ->
  Inv h c -> saved_ok c -> Strict h c -> Commits h c -> act shared a c = Some c' -> within c' -> leads a c ->
  Commits (remember shared a c h) c'.
Proof.
  intros Hsmall Hi Hsv Hst Hc Hact Hw Hld. destruct (act_inv shared configured h c a c' Hi Hsv Hact Hw) as [Hg _].
  destruct a; cbn [act] in Hact.
  - apply elect_cases in Hact as (s & Hn & Hd & _ & ->). pose proof (inv_node _ _ _ Hi n s Hn) as Hni.
    pose proof (within_changed _ (nodes c) n _ Hw eq_refl) as [Ht _]. cbn in Ht.
    eapply commits_quiet; eauto; [apply Hni|cbn; revert Ht; widths; lia|by rewrite driver_own|].
    intros m Hne. by rewrite drivers_apart.
  - apply answer_vote_cases in Hact as (s & r & s' & Hn & _ & Hh & ->). pose proof (inv_node _ _ _ Hi p s Hn) as Hni.
    destruct (vote_log _ _ _ _ Hh) as (Hl & Hci & Hla & Ht & _ & Hr).
    eapply commits_quiet; eauto; [apply Hni|by rewrite Hl|]. eapply driving_kept; eauto. by apply (cm_driving _ _ Hc).
  - apply finish_cases in Hact as (s & q & Hn & _ & _ & b & ->). pose proof (inv_node _ _ _ Hi n s Hn) as Hni.
    destruct (close_log n answers s) as (Hl & Ht & Hci & Hla).
    eapply commits_quiet; eauto; [apply Hni|lia|by rewrite Hl|by rewrite driver_own|].
    intros m Hne. by rewrite drivers_apart.
  - apply local_commit_cases in Hact as (s & db & Hn & ->). pose proof (inv_node _ _ _ Hi n s Hn) as Hni.
    eapply (commits_quiet h h c _ n s s); eauto; cbn; [apply Hni|by rewrite insert_id|lia|exact (cm_driving _ _ Hc n s Hn)|set_solver|].
    intros m Hm. unfold db_of. cbn. rewrite lookup_insert_ne; [done|]. set_solver.
  - by eapply propose_commits.
  - by eapply begin_commits.
  - by eapply send_commits.
  - by eapply append_commits.
  - by eapply record_commits.
  - apply lose_cases in Hact as (s & peer & q & todo & Hn & Hd & ->). pose proof (inv_node _ _ _ Hi n s Hn) as Hni.
    pose proof (cm_driving _ _ Hc n s Hn) as Hdr. rewrite Hd in Hdr.
    eapply (commits_quiet h h c _ n s s); eauto; [apply Hni|cbn; by rewrite insert_id|lia| |].
    + rewrite driver_own. intros p Hp. apply (proj1 Hdr). set_solver.
    + intros m Hne. by rewrite drivers_apart.
  - destruct (restart_cases _ configured h n c c' Hi Hsv Hact) as (s & m & a & Hn & _ & Hun & ->).
    pose proof (inv_node _ _ _ Hi n s Hn) as Hni.
    eapply commits_quiet; eauto; [apply Hni|done|by rewrite driver_own| |].
    + intros k Hne. by rewrite drivers_apart.
    + intros k Hk. unfold db_of at 1. cbn. destruct (decide (k = n)) as [->|Hne]; [|by rewrite lookup_insert_ne].
      rewrite lookup_insert_eq. cbn. destruct Hk as [?|Hk]; [done|]. rewrite (cm_stored _ _ Hc n s Hn Hk).
      unfold load_replication_state. rewrite absorbed_level, Z.max_id.
      destruct (absorbed _) as [x y z] eqn:E. cbn. pose proof (absorbed_level (map frame (take (Z.to_nat (last_applied s)) (log s)))) as Hx.
      rewrite E in Hx. cbn in Hx. by subst.
Qed.

Lemma commits_start : Commits (mkHistory ∅ ∅) (start shared).
Proof.
  split.
  - intros n s [_ ->]%start_node. by left.
  - by intros q ?%elem_of_nil.
  - intros n s [_ ->]%start_node. done.
  - by intros n s.
Qed.

Lemma reachable_commits c :
  (length (peers shared) <= 4)%nat -> reachable shared true c -> exists h, Inv h c /\ Strict h c /\ Commits h c.
Proof.
  intros Hsmall. rewrite <-voters_count in Hsmall by done.
  induction 1 as [|c a c' Hr (h & Hi & Hs & Hc) Hact Hw Hl].
  - eexists. ands; [by apply start_inv|apply strict_start|apply commits_start].
  - apply (reached_inv shared configured) in Hr as (_ & _ & Hsv). exists (remember shared a c h). ands; [by apply (act_inv _ configured)|by apply act_strict; auto|].
    apply act_commits; auto.
Qed.

(** What is settled on one node is settled on every other, as far as both go. *)
Lemma settled_agree h c l k u l' k' u' :
  Inv h c -> Strict h c -> settled h c l k u -> settled h c l' k' u' -> 0 <= k <= k' ->
  take (Z.to_nat k) l = take (Z.to_nat k) l'.
Proof.
  intros Hi Hs [->|(t & i & e & r & Hr & _ & Hk & Hled & He & Ht)] Hl' Hkk; [done|].
  destruct Hl' as [->|(t' & i' & e' & r' & Hr' & _ & Hk' & Hled' & He' & Ht')].
  { by replace k with 0 by lia. }
  apply (f_equal (take (Z.to_nat k))) in Ht'. rewrite !take_take, !Nat.min_l in Ht' by lia. rewrite Ht, Ht'.
  destruct (Z.lt_trichotomy t t') as [Hlt|[->|Hlt]].
  - destruct (written_agree h c t i e r t' r' Hi Hs Hr Hled Hled' Hlt) as [_ Hw].
    apply (f_equal (take (Z.to_nat k))) in Hw. by rewrite !take_take, !Nat.min_l in Hw by lia.
  - rewrite Hled in Hled'. by simplify_eq.
  - destruct (written_agree h c t' i' e' r' t r Hi Hs Hr' Hled' Hled Hlt) as [_ Hw].
    apply (f_equal (take (Z.to_nat k))) in Hw. by rewrite !take_take, !Nat.min_l in Hw by lia.
Qed.

Lemma stored_prefix h c n s m s' :
  Inv h c -> Strict h c -> Commits h c -> nodes c !! n = Some s -> nodes c !! m = Some s' ->
  n ∉ spoiled c -> m ∉ spoiled c -> last_applied s <= last_applied s' ->
  held (db_of c n) `prefix_of` held (db_of c m).
Proof.
  intros Hi Hs Hc Hn Hm Hsn Hsm Hle. rewrite (cm_stored _ _ Hc n s Hn Hsn), (cm_stored _ _ Hc m s' Hm Hsm).
  destruct (ni_ok _ _ _ _ _ (inv_node _ _ _ Hi n s Hn)) as [_ Ha _ _].
  destruct (ni_ok _ _ _ _ _ (inv_node _ _ _ Hi m s' Hm)) as [_ Ha' _ _].
  assert (Heq : take (Z.to_nat (last_applied s)) (log s) = take (Z.to_nat (last_applied s)) (log s')).
  { destruct (Z.le_ge_cases (commit_index s) (commit_index s')) as [Hc'|Hc'].
    - pose proof (settled_agree h c _ _ _ _ _ _ Hi Hs (cm_node _ _ Hc n s Hn) (cm_node _ _ Hc m s' Hm)) as Hx.
      specialize (Hx ltac:(lia)). apply (f_equal (take (Z.to_nat (last_applied s)))) in Hx.
      by rewrite !take_take, !Nat.min_l in Hx by lia.
    - pose proof (settled_agree h c _ _ _ _ _ _ Hi Hs (cm_node _ _ Hc m s' Hm) (cm_node _ _ Hc n s Hn)) as Hx.
      specialize (Hx ltac:(lia)). apply (f_equal (take (Z.to_nat (last_applied s)))) in Hx.
      by rewrite !take_take, !Nat.min_l in Hx by lia. }
  rewrite Heq. replace (take (Z.to_nat (last_applied s)) (log s')) with
    (take (Z.to_nat (last_applied s)) (take (Z.to_nat (last_applied s')) (log s'))) by (rewrite take_take; f_equal; lia).
  rewrite <-(take_drop (Z.to_nat (last_applied s)) (take (Z.to_nat (last_applied s')) (log s'))) at 2.
  rewrite map_app. apply absorbed_prefix.
Qed.

(** ** The theorems *)

(** C4: In every cluster the nodes, their driver threads and the network can reach,
    whatever is lost, delayed, duplicated or restarted, two nodes that lead in the
    same term are the same node. *)
Theorem one_leader_per_term strict c n s m s' :
  reachable shared strict c -> nodes c !! n = Some s -> nodes c !! m = Some s' ->
  role s = Leader -> role s' = Leader -> current_term s = current_term s' -> n = m.
Proof.
  intros (h & Hi & _)%reached_inv Hn Hm Hr Hr' Ht; [|done].
  destruct (ni_leader _ _ _ _ _ (inv_node _ _ _ Hi n s Hn) Hr) as (r & Hl & <- & _).
  destruct (ni_leader _ _ _ _ _ (inv_node _ _ _ Hi m s' Hm) Hr') as (r' & Hl' & <- & _). congruence.
Qed.

(** C7: Log matching, in every reachable cluster: when the logs of two nodes have
    entries of the same term at the same index, the logs are equal up to that
    index. *)
Theorem logs_match_up_to_a_common_entry strict c n s m s' k e e' :
  reachable shared strict c -> nodes c !! n = Some s -> nodes c !! m = Some s' ->
  log s !! k = Some e -> log s' !! k = Some e' -> term e = term e' ->
  take (S k) (log s) = take (S k) (log s').
Proof.
  intros (h & Hi & _)%reached_inv Hn Hm; [|done].
  apply (good_match h); [apply (inv_node _ _ _ Hi n s Hn)|apply (inv_node _ _ _ Hi m s' Hm)].
Qed.

(** C6: As long as no node sends after losing the lead, an entry that half of the
    members, rounded up, accepted in the term it was written in is in the log of
    every node that leads in that term or a later one, at the same index. *)
Theorem replicated_entries_reach_every_later_leader c t i e n s :
  reachable shared true c -> replicated c t i e -> nodes c !! n = Some s -> role s = Leader ->
  t <= current_term s -> log s !! i = Some e.
Proof.
  intros (h & Hi & Hs)%reachable_strict Hr Hn Hl Ht.
  destruct (ni_leader _ _ _ _ _ (inv_node _ _ _ Hi n s Hn) Hl) as (r & Hled & _ & <-).
  destruct (decide (t = current_term s)) as [->|Hne].
  - destruct (replicated_holder h c _ i e _ r Hi Hled Hr) as (p & q & Hq & Htq & He & _).
    destruct (sr_request _ _ Hs q Hq) as (r' & Hr' & _ & _ & Hw). rewrite Htq, Hled in Hr'. simplify_eq.
    by eapply prefix_lookup_Some.
  - eapply prefix_lookup_Some; [|by apply (inv_reign _ _ _ Hi _ _ Hled)].
    eapply elected_with_replicated; eauto. lia.
Qed.

(** C5: In a cluster of at most four members in which no node sends after losing
    the lead, any two nodes agree on the entries both have committed; and if
    neither's database took commits of its own or failed to apply a frame, the
    commits one database holds are a beginning of those of the other.  The steps
    of importing a frame may fail at any time, and a frame whose number was
    reached is skipped as the code does. *)
Theorem up_to_four_members_commit_alike c n s m s' :
  (length (peers shared) <= 4)%nat ->
  reachable shared true c -> nodes c !! n = Some s -> nodes c !! m = Some s' ->
  (forall k, Z.of_nat k < commit_index s -> Z.of_nat k < commit_index s' -> log s !! k = log s' !! k) /\
  (n ∉ spoiled c -> m ∉ spoiled c ->
   held (db_of c n) `prefix_of` held (db_of c m) \/ held (db_of c m) `prefix_of` held (db_of c n)).
Proof.
  intros Hsmall Hreach Hn Hm. destruct (reachable_commits c Hsmall Hreach) as (h & Hi & Hs & Hc). split.
  - intros k Hk Hk'. pose proof (cm_node _ _ Hc n s Hn) as Hx. pose proof (cm_node _ _ Hc m s' Hm) as Hy.
    destruct (Z.le_ge_cases (commit_index s) (commit_index s')) as [Hle|Hle].
    + pose proof (settled_agree h c _ _ _ _ _ _ Hi Hs Hx Hy ltac:(lia)) as He.
      apply (f_equal (.!! k)) in He. by rewrite !lookup_take_lt in He by lia.
    + pose proof (settled_agree h c _ _ _ _ _ _ Hi Hs Hy Hx ltac:(lia)) as He.
      apply (f_equal (.!! k)) in He. by rewrite !lookup_take_lt in He by lia.
  - intros Hsn Hsm. destruct (Z.le_ge_cases (last_applied s) (last_applied s')); [left|right]; by eapply stored_prefix.
Qed.

End Theorems.

(** ** Runs *)

(** A run written as choices that look at the cluster they act on; it is played as
    long as every step is possible and stays within the counters. *)
Section Runs.
Context {F : Type} `{EqDecision F} {seq : CommitFrame F}.

Fixpoint play (shared : ConsensusConfig) (strict : bool) (script : list (Cluster F -> Action F))
    (c : Cluster F) : option (Cluster F) :=
  match script with
  | [] => Some c
  | choose :: script =>
      match act shared (choose c) c with
      | Some c' =>
          if bool_decide (within c') && (negb strict || bool_decide (leads (choose c) c))
          then play shared strict script c' else None
      | None => None
      end
  end.

Lemma play_reachable shared strict script c c' :
  reachable shared strict c -> play shared strict script c = Some c' -> reachable shared strict c'.
Proof.
  revert c. induction script as [|choose script IH]; intros c Hc; cbn; [by intros [= <-]|].
  destruct (act shared (choose c) c) as [c1|] eqn:Hact; [|done].
  destruct (_ && _) eqn:Hok; [|done]. apply andb_true_iff in Hok as [Hw Hl]. bools. apply IH.
  eapply reach_act; eauto. intros ->. cbn in Hl. by bools.
Qed.

(** The latest vote request reaches [p]; the answers of [ps] to it are counted; the
    latest append request reaches [p]; the latest answer is recorded. *)
Definition votes (p : string) (c : Cluster F) : Action F :=
  match vote_requests c with q :: _ => AnswerVote p q | [] => Elect p end.
Definition closes (n : string) (ps : list string) (c : Cluster F) : Action F :=
  CloseElection n (list_to_map (omap (fun '(p, q, r) =>
    if bool_decide (p ∈ ps) && bool_decide (Some q = head (vote_requests c)) then Some (p, r) else None) (vote_answers c))).
Definition accepts (p : string) (c : Cluster F) : Action F :=
  match append_requests c with q :: _ => AnswerAppend p q false [] | [] => Elect p end.
Definition records (n : string) (c : Cluster F) : Action F :=
  match append_answers c with (_, _, r) :: _ => RecordAnswer n r | [] => Elect n end.
Definition does (a : Action F) (c : Cluster F) : Action F := a.

(** The request to the next peer is sent and lost, or answered and recorded. *)
Definition skips (n : string) : list (Cluster F -> Action F) := [does (SendNext n); does (LoseAnswer n)].
Definition reaches (n p : string) : list (Cluster F -> Action F) :=
  [does (SendNext n); accepts p; records n].

(** A commit of the node's own database is made and proposed. *)
Definition commits (n : string) (f : F) : list (Cluster F -> Action F) :=
  [does (LocalCommit n f); does (Propose n f)].

End Runs.

(** Frames are told apart by a digit in front of their number. *)
#[local] Instance plain_frame : CommitFrame Z := { frame_commit_seq f := f mod 10; frame_previous_seq f := f mod 10 - 1 }.

Definition of_members (ids : list string) : ConsensusConfig :=
  mkConfig true "cluster" "" (map (fun n => voting_peer n "host:1") ids) 1000 250 2000.
Definition trio : ConsensusConfig := of_members ["A"; "B"; "C"].
Definition quintet : ConsensusConfig := of_members ["F"; "N"; "G"; "H"; "I"].

Lemma trio_configured : well_configured trio.
Proof. split; [done|]. repeat constructor. Qed.

(** [A] is elected and has its commit on [B]; then [B] is elected by [C]. *)
Definition hand_over_script : list (Cluster Z -> Action Z) :=
  [does (Elect "A"); votes "B"; closes "A" ["B"]] ++ commits "A" 11 ++ [does (BeginRound "A")]
  ++ reaches "A" "B" ++ skips "A" ++ [does (SendNext "A"); does (BeginRound "A")] ++ reaches "A" "B"
  ++ [does (Elect "B"); votes "C"; closes "B" ["C"]].

Definition handed_over : Cluster Z :=
  Eval vm_compute in default (start trio) (play trio true hand_over_script (start trio)).

Lemma handed_over_reachable : reachable trio true handed_over.
Proof. apply (play_reachable _ _ hand_over_script (start trio)); [constructor|vm_compute; reflexivity]. Qed.

Definition node_of {F} (c : Cluster F) (n : string) : ConsensusState F :=
  default (new default_config) (nodes c !! n).

(** The entry [A] wrote in term 1. *)
Definition first_entry : ConsensusLogEntry Z := mkEntry 1 1 1 11.

Lemma handed_over_nodes :
  nodes handed_over !! "A" = Some (node_of handed_over "A") /\
  nodes handed_over !! "B" = Some (node_of handed_over "B") /\
  nodes handed_over !! "C" = Some (node_of handed_over "C").
Proof. ands; vm_compute; reflexivity. Qed.

Lemma first_entry_replicated : replicated trio handed_over 1 0 first_entry.
Proof.
  exists {["A"; "B"]}. ands; [by apply (bool_decide_eq_true_1 _)|vm_compute; lia|].
  set (q := nth 0 (append_requests handed_over) (append_entries_from 1 (new default_config))).
  intros p Hp. exists q. ands.
  - apply (bool_decide_eq_true_1 _). vm_compute. reflexivity.
  - vm_compute. reflexivity.
  - vm_compute. reflexivity.
  - reflexivity.
  - apply elem_of_union in Hp as [->%elem_of_singleton| ->%elem_of_singleton]; [left; vm_compute; reflexivity|right].
    exists (mkAppendResponse "cluster" 1 "B" true 1). split; [|done].
    apply (bool_decide_eq_true_1 _). vm_compute. reflexivity.
Qed.

Lemma one_leader_per_term_witness :
  role (node_of handed_over "B") = Leader /\ "B" = "B".
Proof.
  destruct handed_over_nodes as (_ & HB & _). split; [vm_compute; reflexivity|].
  apply (one_leader_per_term trio trio_configured true handed_over "B" (node_of handed_over "B") "B" (node_of handed_over "B") handed_over_reachable HB HB); vm_compute; reflexivity.
Defined.

Lemma logs_match_up_to_a_common_entry_witness :
  take 1 (log (node_of handed_over "A")) = take 1 (log (node_of handed_over "B")).
Proof.
  destruct handed_over_nodes as (HA & HB & _).
  apply (logs_match_up_to_a_common_entry trio trio_configured true handed_over "A" (node_of handed_over "A") "B"
    (node_of handed_over "B") 0 first_entry first_entry handed_over_reachable HA HB); vm_compute; reflexivity.
Defined.

Lemma replicated_entries_reach_every_later_leader_witness :
  log (node_of handed_over "B") !! 0%nat = Some first_entry.
Proof.
  destruct handed_over_nodes as (_ & HB & _).
  apply (replicated_entries_reach_every_later_leader trio trio_configured handed_over 1 0 first_entry "B"
    (node_of handed_over "B") handed_over_reachable first_entry_replicated HB); vm_compute; [reflexivity|discriminate].
Defined.

Lemma up_to_four_members_commit_alike_witness :
  held (db_of handed_over "B") = [11] /\
  (held (db_of handed_over "B") `prefix_of` held (db_of handed_over "C") \/
   held (db_of handed_over "C") `prefix_of` held (db_of handed_over "B")).
Proof.
  destruct handed_over_nodes as (_ & HB & HC). split; [vm_compute; reflexivity|].
  refine (proj2 (up_to_four_members_commit_alike trio trio_configured handed_over "B" (node_of handed_over "B") "C"
    (node_of handed_over "C") _ handed_over_reachable HB HC) _ _); [vm_compute; lia|..].
  - apply (bool_decide_eq_true_1 _). vm_compute. reflexivity.
  - apply (bool_decide_eq_true_1 _). vm_compute. reflexivity.
Defined.

(** *** A leader that steps down in the middle of a round *)

(** [A] leads term 1 and waits on [B] in a round that carries its commit 11; [B] is
    elected by [C] in term 2, which moves [A] there too, and commits 21 at index 1
    with [C], which imports it.  [A] goes on with its round: the request for [C] is
    built with [A]'s log and the term 2.  [C] takes it over; [A] is elected by [C]
    in term 3 and commits 12, which [C] imports on top of 21. *)
Definition overtaken_script : list (Cluster Z -> Action Z) :=
  [does (Elect "A"); votes "B"; closes "A" ["B"]] ++ commits "A" 11 ++ [does (BeginRound "A"); does (SendNext "A");
   does (Elect "B"); votes "C"; votes "A"; closes "B" ["C"]] ++ commits "B" 21 ++ [does (BeginRound "B")]
  ++ skips "B" ++ reaches "B" "C" ++ [does (SendNext "B"); does (BeginRound "B")] ++ skips "B" ++ reaches "B" "C"
  ++ [does (LoseAnswer "A")] ++ reaches "A" "C" ++ [does (SendNext "A")]
  ++ [does (Elect "A"); votes "C"; closes "A" ["C"]] ++ commits "A" 12 ++ [does (BeginRound "A")]
  ++ skips "A" ++ reaches "A" "C" ++ [does (SendNext "A"); does (BeginRound "A")] ++ skips "A" ++ reaches "A" "C".

Definition overtaken : Cluster Z :=
  Eval vm_compute in default (start trio) (play trio false overtaken_script (start trio)).

(** C8: With three members, a run of the code loses a committed entry: a leader
    that steps down while its round is under way sends its log under the new term,
    the follower overwrites what the new leader committed, and two members end up
    with different committed entries at index 1.  The databases part without an
    error: one holds 11 and then 12, the other 21 and then 12, because the frame
    at index 1 has a number the follower has reached and is skipped. *)
Theorem stepping_down_in_a_round_loses_a_commit :
  exists c, reachable trio false c /\
    exists e e', log (node_of c "B") !! 0%nat = Some e /\ log (node_of c "C") !! 0%nat = Some e' /\
      0 < commit_index (node_of c "B") /\ 0 < commit_index (node_of c "C") /\
      frame e = 21 /\ frame e' = 11 /\
      held (db_of c "A") = [11; 12] /\ held (db_of c "C") = [21; 12].
Proof.
  exists overtaken. split.
  - apply (play_reachable _ _ overtaken_script (start trio)); [constructor|vm_compute; reflexivity].
  - exists (mkEntry 1 2 1 21), (mkEntry 1 1 1 11). ands; vm_compute; reflexivity.
Qed.

(** *** A follower that reports more than it was sent *)

(** [F] leads term 1 with a commit 11 nobody else has.  [N] is elected in term 2;
    its empty heartbeat is answered by [F] with match index 1.  [N] writes 21, has
    it on [G], and counts itself, [G] and [F].  [F] is elected in term 3 by [H] and
    [I] and commits 11. *)
Definition miscounted_script : list (Cluster Z -> Action Z) :=
  [does (Elect "F"); votes "N"; votes "G"; closes "F" ["N"; "G"]] ++ commits "F" 11 ++ [does (BeginRound "F")]
  ++ skips "F" ++ skips "F" ++ skips "F" ++ skips "F"
  ++ [does (SendNext "F"); does (Elect "N"); votes "G"; votes "H"; closes "N" ["G"; "H"]; does (BeginRound "N")]
  ++ reaches "N" "F" ++ skips "N" ++ skips "N" ++ skips "N" ++ [does (SendNext "N")] ++ commits "N" 21 ++ [does (BeginRound "N")]
  ++ skips "N" ++ reaches "N" "G" ++ skips "N" ++ skips "N" ++ [does (SendNext "N")].
Definition recommitted_script : list (Cluster Z -> Action Z) :=
  [does (Elect "F"); votes "H"; votes "I"; closes "F" ["H"; "I"]] ++ commits "F" 12 ++ [does (BeginRound "F")]
  ++ skips "F" ++ skips "F" ++ reaches "F" "H" ++ reaches "F" "I".

Definition miscounted : Cluster Z :=
  Eval vm_compute in default (start quintet) (play quintet true miscounted_script (start quintet)).
Definition recommitted : Cluster Z :=
  Eval vm_compute in default (start quintet) (play quintet true recommitted_script miscounted).

(** The members whose log holds an entry. *)
Definition holders (c : Cluster Z) (e : ConsensusLogEntry Z) : list string :=
  List.filter (fun n => bool_decide (e ∈ log (node_of c n))) (map peer_node_id (peers quintet)).

(** C9: With five members, even when only leaders send, a leader commits an entry
    that two members hold, because a follower reports the length of its own log
    rather than of what it was sent; another leader then commits a different entry
    at the same index. *)
Theorem five_members_commit_different_entries :
  exists c0 c, reachable quintet true c0 /\ reachable quintet true c /\
    exists e e', log (node_of c0 "N") !! 0%nat = Some e /\ 0 < commit_index (node_of c0 "N") /\
      length (holders c0 e) = 2%nat /\
      log (node_of c "N") !! 0%nat = Some e /\ log (node_of c "F") !! 0%nat = Some e' /\
      0 < commit_index (node_of c "N") /\ 0 < commit_index (node_of c "F") /\ frame e = 21 /\ frame e' = 11.
Proof.
  assert (H0 : reachable quintet true miscounted)
    by (apply (play_reachable _ _ miscounted_script (start quintet)); [constructor|vm_compute; reflexivity]).
  exists miscounted, recommitted. split; [done|]. split.
  - apply (play_reachable _ _ recommitted_script miscounted); [done|vm_compute; reflexivity].
  - exists (mkEntry 1 2 1 21), (mkEntry 1 1 1 11). ands; vm_compute; reflexivity.
Qed.

(** *** A frame that fails to be imported *)

(** The import of 11 on [B] breaks.  Its number is applied all the same, and 12,
    committed later, does not follow on what [B]'s database holds. *)
Definition breaks (p : string) (c : Cluster Z) : Action Z :=
  match append_requests c with q :: _ => AnswerAppend p q false [Broken] | [] => Elect p end.
Definition broken_script : list (Cluster Z -> Action Z) :=
  [does (Elect "A"); votes "B"; closes "A" ["B"]] ++ commits "A" 11 ++ [does (BeginRound "A")]
  ++ reaches "A" "B" ++ skips "A" ++ [does (SendNext "A"); does (BeginRound "A"); does (SendNext "A"); breaks "B"; records "A"]
  ++ skips "A" ++ [does (SendNext "A")] ++ commits "A" 12 ++ [does (BeginRound "A")]
  ++ reaches "A" "B" ++ skips "A" ++ [does (SendNext "A"); does (BeginRound "A")] ++ reaches "A" "B".

Lemma failed_import_is_not_made_up :
  exists c, reachable trio true c /\ commit_index (node_of c "B") = 2 /\ last_applied (node_of c "B") = 2 /\
    held (db_of c "A") = [11; 12] /\ held (db_of c "B") = [].
Proof.
  exists (default (start trio) (play trio true broken_script (start trio))). split.
  - apply (play_reachable _ _ broken_script (start trio)); [constructor|vm_compute; reflexivity].
  - ands; vm_compute; reflexivity.
Qed.

(** *** Peers that do not vote *)

(** Two members vote and two do not.  [A] and [B] each count themselves and one
    peer that does not vote. *)
Definition with_observers : ConsensusConfig :=
  mkConfig true "cluster" "" [voting_peer "A" "h:1"; voting_peer "B" "h:2"; mkPeer "C" "h:3" false; mkPeer "D" "h:4" false]
    1000 250 2000.

(** The election threshold counts the voting peers and the votes count all of
    them, so that [one_leader_per_term] needs every member to vote. *)
Lemma observers_elect_two_leaders :
  exists c, reachable with_observers true c /\
    role (node_of (F := Z) c "A") = Leader /\ role (node_of c "B") = Leader /\
    current_term (node_of c "A") = current_term (node_of c "B").
Proof.
  set (script := [does (Elect "A"); votes "C"; closes "A" ["C"]; does (Elect "B"); votes "D"; closes "B" ["D"]]
                 : list (Cluster Z -> Action Z)).
  exists (default (start with_observers) (play with_observers true script (start with_observers))). split.
  - apply (play_reachable _ _ script (start with_observers)); [constructor|vm_compute; reflexivity].
  - ands; vm_compute; reflexivity.
Qed.
