(* ===== verification/Resp.v ===== *)
(** * RESP: requests and replies

    Models [crates/bicdb-resp/src/resp.rs], the wire protocol of the Redis-style
    server: commands read from a buffered stream, as arrays of bulk strings or as
    inline words, and the writers of replies.  The stream is the bytes that will
    arrive and what comes after them, the end or an I/O error; an interrupted read
    is retried by the code and by [read_exact] and does not show.  [parse::<i64>]
    and [to_string] of the standard library are written out. *)

(* @source crates/bicdb-resp/src/resp.rs *)
From stdpp Require Import base tactics list numbers strings.
From Stdlib Require Import ZArith Lia.
From S2P Require Import Prelude.
Local Open Scope Z_scope.
Local Open Scope bic_scope.

(** [io::Error], by kind; [other] stands for whatever else the stream reports. *)
Inductive IoError := UnexpectedEof | InvalidData (message : string) | OtherKind (other : Z).
#[export] Instance IoError_eq_dec : EqDecision IoError.
Proof. solve_decision. Defined.

Record Reader := mkReader { pending : list Z; ending : option IoError }.
Abbreviation reading := (st IoError Reader).

(** [MAX_BULK_LEN] (10-11). *)
Definition MAX_BULK_LEN : Z := 64 * 1024 * 1024.

(** [MAX_ARGS] (12-13). *)
Definition MAX_ARGS : Z := 1024 * 1024.

(** ** Numbers as text *)

(** [to_string] of an unsigned number; a number of 64 bits has at most 20 digits. *)
Fixpoint digits (fuel : nat) (n : Z) (acc : list Z) : list Z :=
  match fuel with
  | O => acc
  | S fuel => if n <? 10 then (48 + n) :: acc else digits fuel (n / 10) ((48 + n mod 10) :: acc)
  end.

Definition decimal (v : Z) : list Z := if v <? 0 then 45 :: digits 20 (- v) [] else digits 20 v [].

Definition is_digit (b : Z) : bool := (48 <=? b) && (b <=? 57).

(** The leading digits of a text as a number, and what follows them. *)
Fixpoint take_digits (acc : Z) (l : list Z) : Z * list Z :=
  match l with
  | b :: l' => if is_digit b then take_digits (10 * acc + (b - 48)) l' else (acc, l)
  | [] => (acc, [])
  end.

Definition I64_MIN : Z := -9223372036854775808.
Definition I64_MAX : Z := 9223372036854775807.

(** [trim().parse::<i64>()]: white space, a sign or none, at least one digit, white
    space, and a value that fits. *)
Definition parse_trimmed (l : list Z) : option Z :=
  let l := skip_space l in
  let '(negative, l) := match l with
                        | 45 :: l' => (true, l')
                        | 43 :: l' => (false, l')
                        | _ => (false, l)
                        end in
  match l with
  | b :: _ =>
      if is_digit b then
        let '(magnitude, after) := take_digits 0 l in
        let v := if negative : bool then - magnitude else magnitude in
        match skip_space after with
        | [] => if (I64_MIN <=? v) && (v <=? I64_MAX) then Some v else None
        | _ => None
        end
      else None
  | [] => None
  end.

(** ** Reading *)

(** [protocol_error] (112-117). *)
Definition protocol_error (message : string) : IoError := InvalidData ("Protocol error: " +:+ message).

(** [parse_i64] (105-110).  Bytes that are not UTF-8 do not parse either: only white space, signs and digits do. *)
Definition parse_i64 (l : list Z) (message : string) : reading Z :=
  match parse_trimmed l with
  | Some v => st_ret v
  | None => st_fail (protocol_error message)
  end.

(** The error [read_exact] reports when the bytes run out. *)
Definition at_end (r : Reader) : IoError := default UnexpectedEof (ending r).

(** [BufRead::read_exact]. *)
Definition read_exact (n : Z) : reading (list Z) := fun r =>
  if n <=? Z.of_nat (length (pending r))
  then (Val (take (Z.to_nat n) (pending r)), mkReader (drop (Z.to_nat n) (pending r)) (ending r))
  else (Err (at_end r), mkReader [] (ending r)).

(** [peek_byte] (68-77). *)
Definition peek_byte : reading (option Z) := fun r =>
  match pending r, ending r with
  | b :: _, _ => (Val (Some b), r)
  | [], None => (Val None, r)
  | [], Some e => (Err e, r)
  end.

(** The line without a carriage return at its end. *)
Definition strip_cr (line : list Z) : list Z :=
  match last line with Some 13 => removelast line | _ => line end.

(** [read_line] (83-102).  The loop: the line so far and the bytes to come. *)
Fixpoint line_loop (line : list Z) (e : IoError) (l : list Z) : res IoError (list Z) * list Z :=
  match l with
  | [] =>
      (Err (if bool_decide (e = UnexpectedEof) && negb (bool_decide (line = []))
            then protocol_error "unexpected EOF mid-line" else e), [])
  | b :: l =>
      if b =? 10 then (Val (strip_cr line), l) else
      let line := line ++ [b] in
      if 64 * 1024 <? Z.of_nat (length line) then (Err (protocol_error "protocol line too long"), l)
      else line_loop line e l
  end.

(** [read_line] (79-103). *)
Definition read_line : reading (list Z) := fun r =>
  let '(result, l) := line_loop [] (at_end r) (pending r) in (result, mkReader l (ending r)).

(** [&line[1..]]. *)
Definition from_one (l : list Z) : reading (list Z) :=
  match l with [] => st_panic | _ :: l => st_ret l end.

(** [is_ascii_whitespace]. *)
Definition is_space (b : Z) : bool := (b =? 32) || (b =? 9) || (b =? 10) || (b =? 12) || (b =? 13).

(** [read_inline_command] (60-64).  [split(is_ascii_whitespace)], the word being read first. *)
Fixpoint split_words (word : list Z) (l : list Z) : list (list Z) :=
  match l with
  | [] => [word]
  | b :: l => if is_space b then word :: split_words [] l else split_words (word ++ [b]) l
  end.

(** [read_inline_command] (58-66). *)
Definition read_inline_command : reading (option (list (list Z))) :=
  do line <- read_line ;;
  st_ret (Some (List.filter (fun word => match word with [] => false | _ => true end) (split_words [] line))).

(** [read_command] (36-52).  The loop over the arguments. *)
Fixpoint read_args (count : nat) (args : list (list Z)) : reading (list (list Z)) :=
  match count with
  | O => st_ret args
  | S count =>
      do line <- read_line ;;
      if negb (bool_decide (head line = Some 36))
      then st_fail (protocol_error "expected '$', got something else") else
      do text <- from_one line ;;
      do size <- parse_i64 text "invalid bulk length" ;;
      if negb ((0 <=? size) && (size <=? MAX_BULK_LEN))
      then st_fail (protocol_error "invalid bulk length") else
      do buf <- read_exact (size + 2) ;;
      if negb (bool_decide (drop (Z.to_nat size) buf = [13; 10]))
      then st_fail (protocol_error "bulk string missing CRLF terminator") else
      read_args count (args ++ [take (Z.to_nat size) buf])
  end.

(** [read_command] (15-54). *)
Definition read_command : reading (option (list (list Z))) :=
  do first <- peek_byte ;;
  match first with
  | None => st_ret None
  | Some first =>
      if negb (first =? 42) then read_inline_command else
      do header <- read_line ;;
      do text <- from_one header ;;
      do count <- parse_i64 text "invalid multibulk length" ;;
      if count <=? 0 then st_ret (Some []) else
      if MAX_ARGS <? count then st_fail (protocol_error "invalid multibulk length") else
      do args <- read_args (Z.to_nat count) [] ;;
      st_ret (Some args)
  end.

(** ** Writing *)

Definition crlf : list Z := [13; 10].

(** A carriage return or a line feed becomes a space. *)
Definition one_line (text : list Z) : list Z :=
  map (fun b => if (b =? 13) || (b =? 10) then 32 else b) text.

(** [write_simple] (121-128). *)
Definition write_simple (text out : list Z) : list Z := out ++ [43] ++ one_line text ++ crlf.

(** [write_error] (130-137). *)
Definition write_error (text out : list Z) : list Z := out ++ [45] ++ one_line text ++ crlf.

(** [write_int] (139-143). *)
Definition write_int (value : Z) (out : list Z) : list Z := out ++ [58] ++ decimal value ++ crlf.

(** [write_bulk] (145-151). *)
Definition write_bulk (value out : list Z) : list Z :=
  out ++ [36] ++ decimal (Z.of_nat (length value)) ++ crlf ++ value ++ crlf.

(** [write_nil] (153-155). *)
Definition write_nil (out : list Z) : list Z := out ++ [36; 45; 49; 13; 10].

(** [write_array_header] (157-161). *)
Definition write_array_header (n : Z) (out : list Z) : list Z := out ++ [42] ++ decimal n ++ crlf.

(** ** Numbers *)

Lemma is_digit_iff b : is_digit b = true <-> 48 <= b <= 57.
Proof. unfold is_digit. rewrite andb_true_iff, !Z.leb_le. lia. Qed.

(** The digits are digits, there are at most [fuel] of them and at least one. *)
Lemma digits_spec fuel n acc :
  0 <= n < 10 ^ Z.of_nat fuel ->
  exists ds, digits fuel n acc = ds ++ acc /\ Forall (fun b => 48 <= b <= 57) ds /\ (length ds <= fuel)%nat /\
    (fuel <> 0%nat -> ds <> []).
Proof.
  revert n acc. induction fuel as [|fuel IH]; intros n acc Hn.
  { exists []. cbn. ands; [done|constructor|lia|done]. }
  cbn. destruct (Z.ltb_spec n 10).
  - exists [48 + n]. ands; [done|repeat constructor; lia|cbn; lia|done].
  - rewrite Nat2Z.inj_succ, Z.pow_succ_r in Hn by lia.
    pose proof (Z.div_mod n 10 ltac:(lia)). pose proof (Z.mod_pos_bound n 10 ltac:(lia)).
    destruct (IH (n / 10) ((48 + n mod 10) :: acc)) as (ds & -> & Hf & Hl & _).
    { split; [apply Z.div_pos; lia|apply Z.div_lt_upper_bound; lia]. }
    exists (ds ++ [48 + n mod 10]). rewrite <-app_assoc, Forall_app, length_app. cbn.
    ands; [done|done|repeat constructor; lia|lia|]. by destruct ds.
Qed.

(** Reading the digits of a number gives it back. *)
Lemma take_digits_of fuel n acc :
  fuel <> 0%nat -> 0 <= n < 10 ^ Z.of_nat fuel -> take_digits 0 (digits fuel n acc) = take_digits n acc.
Proof.
  revert n acc. induction fuel as [|fuel IH]; intros n acc Hf Hn; [done|]. cbn [digits].
  rewrite Nat2Z.inj_succ, Z.pow_succ_r in Hn by lia. destruct (Z.ltb_spec n 10).
  - cbn [take_digits]. rewrite (proj2 (is_digit_iff _)) by lia. f_equal. lia.
  - pose proof (Z.div_mod n 10 ltac:(lia)). pose proof (Z.mod_pos_bound n 10 ltac:(lia)).
    assert (Hq : 0 < n / 10) by (apply Z.div_str_pos; lia).
    rewrite IH.
    + cbn [take_digits]. rewrite (proj2 (is_digit_iff _)) by lia. f_equal. lia.
    + intros ->. cbn in Hn. lia.
    + split; [lia|apply Z.div_lt_upper_bound; lia].
Qed.

Lemma skip_space_keeps b l : (9 <=? b) && (b <=? 13) || (b =? 32) = false -> b < 128 -> skip_space (b :: l) = b :: l.
Proof.
  intros Hb Hlt. cbn. rewrite Hb. destruct l as [|c l]; [done|].
  rewrite (proj2 (Z.eqb_neq b 0xC2)) by lia. destruct l as [|d l]; [done|].
  by rewrite (proj2 (Z.eqb_neq b 0xE1)), (proj2 (Z.eqb_neq b 0xE2)), (proj2 (Z.eqb_neq b 0xE3)) by lia.
Qed.

Lemma skip_space_digit b l : 48 <= b <= 57 -> skip_space (b :: l) = b :: l.
Proof.
  intros Hb. apply skip_space_keeps; [|lia].
  apply orb_false_iff. split; [apply andb_false_iff; right; apply Z.leb_gt; lia|apply Z.eqb_neq; lia].
Qed.

(** Printing and parsing a number are inverse. *)
Lemma parse_decimal v : I64_MIN <= v <= I64_MAX -> parse_trimmed (decimal v) = Some v.
Proof.
  unfold I64_MIN, I64_MAX. intros Hv.
  assert (Hmag : forall n, 0 <= n <= 9223372036854775808 -> exists b ds, digits 20 n [] = b :: ds /\ 48 <= b <= 57 /\
    take_digits 0 (b :: ds) = (n, [])).
  { intros n Hn. assert (Hn' : 0 <= n < 10 ^ Z.of_nat 20) by (change (10 ^ Z.of_nat 20) with 100000000000000000000; lia).
    destruct (digits_spec 20 n [] Hn') as (ds & Hd & Hf & _ & Hne). rewrite app_nil_r in Hd.
    pose proof (take_digits_of 20 n [] ltac:(done) Hn') as Ht. rewrite Hd in *.
    destruct ds as [|b ds]; [by destruct (Hne ltac:(done))|]. inversion Hf. by exists b, ds. }
  unfold decimal. destruct (Z.ltb_spec v 0).
  - destruct (Hmag (- v) ltac:(lia)) as (b & ds & -> & Hb & Ht). unfold parse_trimmed.
    rewrite skip_space_keeps by (done || lia). cbn [skip_space].
    rewrite (proj2 (is_digit_iff b)) by done. rewrite Ht. cbn [skip_space]. rewrite Z.opp_involutive.
    by rewrite (proj2 (Z.leb_le _ _)), (proj2 (Z.leb_le _ _)) by (unfold I64_MIN, I64_MAX; lia).
  - destruct (Hmag v ltac:(lia)) as (b & ds & -> & Hb & Ht). unfold parse_trimmed.
    rewrite skip_space_digit by done.
    assert (Hs : match b :: ds with 45 :: l' => (true, l') | 43 :: l' => (false, l') | _ => (false, b :: ds) end = (false, b :: ds)).
    { destruct b as [|p|p]; [lia| |lia]. do 6 (destruct p as [p|p|]; try done; try lia). }
    rewrite Hs, (proj2 (is_digit_iff b)) by done. rewrite Ht. cbn [skip_space].
    by rewrite (proj2 (Z.leb_le _ _)), (proj2 (Z.leb_le _ _)) by (unfold I64_MIN, I64_MAX; lia).
Qed.

(** ** Lines *)

Lemma strip_cr_snoc l : strip_cr (l ++ [13]) = l.
Proof. unfold strip_cr. by rewrite last_snoc, removelast_last. Qed.

Lemma line_loop_reads acc e l rest :
  10 ∉ l -> Z.of_nat (length acc + length l) <= 64 * 1024 ->
  line_loop acc e (l ++ 10 :: rest) = (Val (strip_cr (acc ++ l)), rest).
Proof.
  revert acc. induction l as [|b l IH]; intros acc Hl Hn.
  - cbn. by rewrite app_nil_r.
  - apply not_elem_of_cons in Hl as [Hb Hl]. cbn [app line_loop length] in *.
    rewrite (proj2 (Z.eqb_neq b 10)) by done. rewrite length_app. cbn [length].
    rewrite (proj2 (Z.ltb_ge _ _)) by lia. rewrite IH; [by rewrite <-app_assoc|done|rewrite length_app; cbn; lia].
Qed.

(** A line that was written is read. *)
Lemma read_line_crlf l rest e :
  10 ∉ l -> Z.of_nat (length l) < 64 * 1024 ->
  read_line (mkReader (l ++ crlf ++ rest) e) = (Val l, mkReader rest e).
Proof.
  intros Hl Hn. unfold read_line, crlf. cbn [pending ending].
  replace (l ++ [13; 10] ++ rest) with ((l ++ [13]) ++ 10 :: rest) by (by rewrite <-app_assoc).
  rewrite line_loop_reads.
  - by rewrite app_nil_l, strip_cr_snoc.
  - rewrite not_elem_of_app. split; [done|]. by rewrite not_elem_of_cons; split; [|apply not_elem_of_nil].
  - cbn. rewrite length_app. cbn. lia.
Qed.

Lemma decimal_clean v : 0 <= v <= I64_MAX -> (10 ∉ decimal v) /\ (length (decimal v) <= 20)%nat.
Proof.
  unfold I64_MAX. intros Hv. unfold decimal. rewrite (proj2 (Z.ltb_ge _ _)) by lia.
  destruct (digits_spec 20 v []) as (ds & -> & Hf & Hl & _).
  { change (10 ^ Z.of_nat 20) with 100000000000000000000. lia. }
  rewrite app_nil_r. split; [|done]. intros H10. rewrite Forall_forall in Hf. specialize (Hf 10 H10). lia.
Qed.

(** A number after its sigil, as a line. *)
Lemma read_header sigil v rest e :
  sigil <> 10 -> 0 <= v <= I64_MAX ->
  read_line (mkReader ([sigil] ++ decimal v ++ crlf ++ rest) e) = (Val (sigil :: decimal v), mkReader rest e).
Proof.
  intros Hs Hv. destruct (decimal_clean v Hv) as [Hc Hl].
  rewrite (app_assoc [sigil]). apply read_line_crlf.
  - cbn [app]. rewrite not_elem_of_cons. split; [lia|done].
  - cbn [app length]. lia.
Qed.

Lemma parse_decimal_i64 v message r : I64_MIN <= v <= I64_MAX -> parse_i64 (decimal v) message r = (Val v, r).
Proof. intros Hv. unfold parse_i64. by rewrite parse_decimal. Qed.

Lemma read_exact_app n l rest e :
  Z.of_nat (length l) = n -> read_exact n (mkReader (l ++ rest) e) = (Val l, mkReader rest e).
Proof.
  intros <-. unfold read_exact. cbn [pending ending]. rewrite length_app, (proj2 (Z.leb_le _ _)) by lia.
  by rewrite Nat2Z.id, take_app_length, drop_app_length.
Qed.

(** A bulk string that was written is the next argument. *)
Lemma read_bulk count args v rest e :
  Z.of_nat (length v) <= MAX_BULK_LEN ->
  read_args (S count) args (mkReader (write_bulk v [] ++ rest) e) = read_args count (args ++ [v]) (mkReader rest e).
Proof.
  intros Hv. unfold MAX_BULK_LEN in Hv. cbn [read_args st_bind]. unfold write_bulk. rewrite app_nil_l.
  rewrite <-!app_assoc, read_header by (done || (unfold I64_MAX; lia)).
  cbn [head]. rewrite bool_decide_eq_true_2 by done. cbn [negb from_one]. run.
  rewrite parse_decimal_i64 by (unfold I64_MIN, I64_MAX; lia).
  rewrite (proj2 (Z.leb_le _ _)), (proj2 (Z.leb_le _ _)) by (unfold MAX_BULK_LEN; lia). cbn [andb negb]. run.
  rewrite app_assoc, read_exact_app by (rewrite length_app; cbn; lia).
  rewrite Nat2Z.id, drop_app_length, bool_decide_eq_true_2 by done. cbn [negb]. by rewrite take_app_length.
Qed.

(** ** Commands *)

(** A command as a client sends it: an array of bulk strings. *)
Definition encode_command (args : list (list Z)) : list Z :=
  write_array_header (Z.of_nat (length args)) [] ++ concat (map (fun v => write_bulk v []) args).

Definition sendable (args : list (list Z)) : Prop :=
  args <> [] /\ Z.of_nat (length args) <= MAX_ARGS /\
  Forall (fun v => Z.of_nat (length v) <= MAX_BULK_LEN) args.

Lemma read_bulks args got rest e :
  Forall (fun v => Z.of_nat (length v) <= MAX_BULK_LEN) args ->
  read_args (length args) got (mkReader (concat (map (fun v => write_bulk v []) args) ++ rest) e)
  = (Val (got ++ args), mkReader rest e).
Proof.
  intros Hf. revert got. induction Hf as [|v args Hv _ IH]; intros got.
  - cbn. by rewrite app_nil_r.
  - cbn [length map concat]. rewrite <-app_assoc, read_bulk by done. rewrite IH, <-app_assoc. done.
Qed.

Lemma read_encoded args rest e :
  sendable args -> read_command (mkReader (encode_command args ++ rest) e) = (Val (Some args), mkReader rest e).
Proof.
  intros (Hne & Hn & Hf). unfold MAX_ARGS in Hn. unfold read_command, encode_command, write_array_header.
  rewrite app_nil_l, <-!app_assoc. set (l := [42] ++ _).
  assert (Hp : peek_byte (mkReader l e) = (Val (Some 42), mkReader l e)) by done.
  cbn [st_bind]. rewrite Hp. cbn [Z.eqb Pos.eqb negb]. unfold l.
  cbn [st_bind].   rewrite read_header by (done || (unfold I64_MAX; lia)). cbn [from_one]. run.
  rewrite parse_decimal_i64 by (unfold I64_MIN, I64_MAX; lia).
  destruct args as [|a args]; [done|]. rewrite (proj2 (Z.leb_gt _ _)) by (cbn; lia).
  rewrite (proj2 (Z.ltb_ge _ _)) by (unfold MAX_ARGS; lia). run. by rewrite Nat2Z.id, (read_bulks (a :: args)).
Qed.

(** What a connection reads until the stream ends, in at most [turns] commands. *)
Fixpoint read_commands (turns : nat) : reading (list (list (list Z))) :=
  match turns with
  | O => st_panic
  | S turns =>
      do command <- read_command ;;
      match command with
      | None => st_ret []
      | Some args => do more <- read_commands turns ;; st_ret (args :: more)
      end
  end.

(** C33: Commands written one after the other as arrays of bulk strings, with any
    bytes in the arguments, are read back one by one, each with its arguments, and
    the end of the stream is recognised after the last. *)
Theorem pipelined_commands_round_trip commands turns :
  Forall sendable commands -> (length commands < turns)%nat ->
  read_commands turns (mkReader (concat (map encode_command commands)) None) = (Val commands, mkReader [] None).
Proof.
  intros Hf. revert turns. induction Hf as [|args commands Ha _ IH]; intros [|turns] Ht; cbn [length] in Ht; try lia; [done|].
  cbn [map concat read_commands st_bind]. rewrite read_encoded by done. run. by rewrite IH by lia.
Qed.

(** A write of a value that holds a line break, and a read. *)
Lemma pipelined_commands_round_trip_witness :
  read_commands 3 (mkReader (concat (map encode_command [[[83; 69; 84]; [107]; [97; 13; 10; 42]]; [[71; 69; 84]; [107]]])) None)
  = (Val [[[83; 69; 84]; [107]; [97; 13; 10; 42]]; [[71; 69; 84]; [107]]], mkReader [] None).
Proof.
  apply pipelined_commands_round_trip; [|cbn; lia].
  repeat constructor; try done; unfold MAX_BULK_LEN, MAX_ARGS; cbn; lia.
Defined.

(** A status or an error is one line, whatever line breaks its text has: no part of
    it is taken for the next reply. *)
Lemma text_replies_are_one_line text rest e :
  Z.of_nat (length text) < 64 * 1024 - 1 ->
  read_line (mkReader (write_simple text [] ++ rest) e) = (Val (43 :: one_line text), mkReader rest e) /\
  read_line (mkReader (write_error text [] ++ rest) e) = (Val (45 :: one_line text), mkReader rest e).
Proof.
  intros Hl. assert (Hno : 10 ∉ one_line text).
  { unfold one_line. rewrite list_elem_of_fmap. intros (b & Hb & _).
    destruct (Z.eqb_spec b 13), (Z.eqb_spec b 10); cbn in Hb; lia. }
  unfold write_simple, write_error. rewrite !app_nil_l, <-!app_assoc, !(app_assoc [_] (one_line text)).
  split; apply read_line_crlf; cbn [app length].
  all: first [by apply not_elem_of_cons|unfold one_line; rewrite length_map; lia].
Qed.

(** ** Any input *)

(** How a read from [r] ends: it used up a part of the stream, its result fits
    [P], and an error is a violation of the protocol or what the stream itself
    reported at its end. *)
Definition consumes {A} (P : list Z -> A -> Prop) (r : Reader) (out : res IoError A * Reader) : Prop :=
  exists used, pending r = used ++ pending (snd out) /\ ending (snd out) = ending r /\
  match fst out with
  | Val a => P used a
  | Err e => (exists message, e = protocol_error message) \/ (e = at_end r /\ pending (snd out) = [])
  | Panic => False
  end.

Lemma consumes_bind {A B} (P : list Z -> A -> Prop) (Q : list Z -> B -> Prop) (m : reading A) (k : A -> reading B) r :
  consumes P r (m r) ->
  (forall used a r', pending r = used ++ pending r' -> P used a -> consumes (fun more => Q (used ++ more)) r' (k a r')) ->
  consumes Q r (st_bind m k r).
Proof.
  intros (used & Hp & He & Hm) Hk. unfold st_bind. destruct (m r) as [[a|e|] r']; cbn in *; [|by exists used|done].
  destruct (Hk used a r' Hp Hm) as (more & Hp' & He' & Hr). exists (used ++ more).
  rewrite Hp, Hp', <-app_assoc, He', He. ands; [done|done|].
  assert (at_end r' = at_end r) as <- by (unfold at_end; by rewrite He). done.
Qed.

Lemma consumes_weaken {A} (P Q : list Z -> A -> Prop) r out :
  (forall used a, P used a -> Q used a) -> consumes P r out -> consumes Q r out.
Proof. intros HPQ (used & Hp & He & Hm). exists used. ands; [done|done|]. destruct (fst out); auto. Qed.

Lemma consumes_ret {A} (P : list Z -> A -> Prop) a r : P [] a -> consumes P r (st_ret a r).
Proof. intros HP. by exists []. Qed.

Lemma consumes_protocol_error {A} (P : list Z -> A -> Prop) message r : consumes P r (st_fail (protocol_error message) r).
Proof. exists []. ands; [done|done|]. left. by exists message. Qed.

Lemma parse_i64_consumes l message r : consumes (fun used v => used = [] /\ I64_MIN <= v <= I64_MAX) r (parse_i64 l message r).
Proof.
  unfold parse_i64. destruct (parse_trimmed l) as [v|] eqn:Hv; [|apply consumes_protocol_error].
  apply consumes_ret. split; [done|]. unfold parse_trimmed in Hv. repeat case_match; simplify_eq; bools; lia.
Qed.

Lemma line_loop_spec acc e l :
  exists used, l = used ++ snd (line_loop acc e l) /\
  match fst (line_loop acc e l) with
  | Val line => exists body, used = body ++ [10] /\ line = strip_cr (acc ++ body) /\ (10 ∉ body) /\
      Z.of_nat (length (acc ++ body)) <= Z.max (Z.of_nat (length acc)) (64 * 1024)
  | Err err => (exists message, err = protocol_error message) \/ (err = e /\ snd (line_loop acc e l) = [])
  | Panic => False
  end.
Proof.
  revert acc. induction l as [|b l IH]; intros acc; cbn [line_loop].
  { exists []. split; [done|]. cbn. destruct (_ && _); [left; by eexists|by right]. }
  destruct (Z.eqb_spec b 10) as [->|Hb].
  { exists [10]. split; [done|]. exists []. rewrite app_nil_r. ands; [done|done|apply not_elem_of_nil|lia]. }
  destruct (Z.ltb_spec (64 * 1024) (Z.of_nat (length (acc ++ [b])))) as [Hl|Hl].
  { exists [b]. split; [done|]. left. by eexists. }
  destruct (IH (acc ++ [b])) as (used & Hu & Hr). exists (b :: used). cbn. rewrite <-Hu. split; [done|].
  destruct (fst _); [|done|done]. destruct Hr as (body & -> & -> & Hn & Hlen). exists (b :: body).
  rewrite <-!app_assoc in *. cbn in *. ands; [done|done|by rewrite not_elem_of_cons|lia].
Qed.

Lemma strip_cr_length line : (length (strip_cr line) <= length line)%nat.
Proof.
  unfold strip_cr. destruct line as [|b line _] using rev_ind; [done|].
  rewrite last_snoc, removelast_last, length_app. cbn. repeat case_match; rewrite ?length_app; cbn; lia.
Qed.

(** A line uses up what it holds and its end, and has at most 64 KiB. *)
Lemma read_line_consumes r :
  consumes (fun used line => exists body, used = body ++ [10] /\ line = strip_cr body /\ Z.of_nat (length line) <= 64 * 1024) r (read_line r).
Proof.
  unfold read_line. destruct (line_loop_spec [] (at_end r) (pending r)) as (used & Hu & Hr).
  destruct (line_loop _ _ _) as [result l]. exists used. cbn in *. ands; [done|done|].
  destruct result as [line|e|]; [|done|done]. destruct Hr as (body & Hb & -> & _ & Hl). exists body.
  pose proof (strip_cr_length body). ands; [done|done|lia].
Qed.

Lemma split_words_bounds word l :
  Z.of_nat (length (split_words word l)) <= Z.of_nat (length l) + 1 /\
  Forall (fun w => Z.of_nat (length w) <= Z.of_nat (length word) + Z.of_nat (length l)) (split_words word l).
Proof.
  revert word. induction l as [|b l IH]; intros word; cbn [split_words length].
  { cbn. split; [lia|]. repeat constructor. lia. }
  destruct (is_space b).
  - destruct (IH []) as [Hl Hf]. cbn [length] in *. split; [lia|]. constructor; [lia|].
    eapply Forall_impl; [exact Hf|]. cbn. lia.
  - destruct (IH (word ++ [b])) as [Hl Hf]. rewrite length_app in Hf. cbn [length] in Hf. split; [lia|].
    eapply Forall_impl; [exact Hf|]. cbn. lia.
Qed.

(** What the server is handed: a bounded number of bounded arguments. *)
Definition within_limits (args : list (list Z)) : Prop :=
  Z.of_nat (length args) <= MAX_ARGS /\ Forall (fun v => Z.of_nat (length v) <= MAX_BULK_LEN) args.

Lemma read_inline_command_consumes r :
  consumes (fun used got => exists args, got = Some args /\ used <> [] /\ within_limits args) r (read_inline_command r).
Proof.
  unfold read_inline_command. eapply consumes_bind; [apply read_line_consumes|].
  intros used line r' _ (body & -> & _ & Hl). apply consumes_ret. eexists. split; [done|].
  split; [rewrite app_nil_r; by destruct body|].
  destruct (split_words_bounds [] line) as [Hn Hf]. split.
  - unfold MAX_ARGS. pose proof (List.filter_length_le (fun word : list Z => match word with [] => false | _ => true end) (split_words [] line)). lia.
  - rewrite List.Forall_forall in *. intros w [Hw _]%List.filter_In. specialize (Hf w Hw). unfold MAX_BULK_LEN. cbn in Hf. lia.
Qed.

Lemma read_exact_consumes n r :
  0 <= n -> consumes (fun used buf => used = buf /\ Z.of_nat (length buf) = n) r (read_exact n r).
Proof.
  intros Hn. unfold read_exact. destruct (Z.leb_spec n (Z.of_nat (length (pending r)))).
  - exists (take (Z.to_nat n) (pending r)). cbn. rewrite take_drop, length_take. ands; [done|done|done|lia].
  - exists (pending r). cbn. rewrite app_nil_r. ands; [done|done|]. by right.
Qed.

Lemma from_one_consumes b l r : consumes (fun used text => used = [] /\ text = l) r (from_one (b :: l) r).
Proof. by apply consumes_ret. Qed.

(** The arguments so far are joined by as many as were announced, each in bounds. *)
Lemma read_args_consumes count args r :
  Forall (fun v => Z.of_nat (length v) <= MAX_BULK_LEN) args ->
  consumes (fun _ got => length got = (length args + count)%nat /\
    Forall (fun v => Z.of_nat (length v) <= MAX_BULK_LEN) got) r (read_args count args r).
Proof.
  revert args r. induction count as [|count IH]; intros args r Ha; cbn [read_args].
  { apply consumes_ret. split; [lia|done]. }
  eapply consumes_bind; [apply read_line_consumes|]. intros _ line r1 _ _.
  case_bool_decide as Hd; [|apply consumes_protocol_error]. cbn [negb].
  destruct line as [|b text]; [done|].
  eapply consumes_bind; [apply from_one_consumes|]. intros _ ? r2 _ [_ ->].
  eapply consumes_bind; [apply parse_i64_consumes|]. intros _ n r3 _ _.
  destruct ((0 <=? n) && (n <=? MAX_BULK_LEN)) eqn:Hn; [|apply consumes_protocol_error]. bools. cbn [negb].
  eapply consumes_bind; [apply read_exact_consumes; lia|]. intros _ buf r4 _ [_ Hb].
  case_bool_decide; [|apply consumes_protocol_error]. cbn [negb].
  eapply consumes_weaken; [|apply IH].
  - intros _ got [Hl Hf]. rewrite length_app in Hl. cbn in Hl. split; [lia|done].
  - apply Forall_app. split; [done|]. repeat constructor. rewrite length_take. lia.
Qed.

Lemma strip_cr_head b body : b <> 13 -> exists l, strip_cr (b :: body) = b :: l.
Proof.
  intros Hb. destruct body as [|c body _] using rev_ind.
  - exists []. unfold strip_cr. cbn. repeat case_match; done.
  - rewrite app_comm_cons. unfold strip_cr. rewrite last_snoc, removelast_last. repeat case_match; by eexists.
Qed.

(** C34: Whatever arrives, reading a command does not panic.  It says that there is
    none only when the stream ended before it, and then nothing was consumed.  A
    command that is read consumed a part of the stream, at least a byte, so a
    stream of commands comes to its end, and has at most [MAX_ARGS] arguments of
    at most [MAX_BULK_LEN] bytes each, also as an inline command.  An error is a
    violation of the protocol, or the stream's own after all its bytes. *)
Theorem any_input_is_read_within_limits r :
  consumes (fun used got =>
    match got with
    | None => pending r = [] /\ ending r = None /\ used = []
    | Some args => used <> [] /\ within_limits args
    end) r (read_command r).
Proof.
  unfold read_command, peek_byte. cbn [st_bind].
  destruct (pending r) as [|b l] eqn:Hp.
  { destruct (ending r) as [e|] eqn:He; exists []; unfold at_end; rewrite He; cbn; auto. }
  destruct (Z.eqb_spec b 42) as [->|Hb]; cbn [negb].
  2:{ eapply consumes_weaken; [|apply read_inline_command_consumes]. by intros used ? (args & -> & ?). }
  eapply consumes_bind; [apply read_line_consumes|]. intros used header r1 Hu (body & -> & -> & _).
  destruct body as [|c body]; [by rewrite Hp in Hu|]. rewrite Hp in Hu. cbn [app] in Hu. simplify_eq.
  destruct (strip_cr_head 42 body) as [text ->]; [done|].
  eapply consumes_bind; [apply from_one_consumes|]. intros ? ? r2 _ [-> ->].
  eapply consumes_bind; [apply parse_i64_consumes|]. intros ? count r3 _ [-> Hc].
  destruct (Z.leb_spec count 0); [apply consumes_ret; repeat constructor; done|].
  destruct (Z.ltb_spec MAX_ARGS count); [apply consumes_protocol_error|].
  eapply consumes_bind; [apply read_args_consumes; constructor|]. intros used args r4 _ [Hl Hf].
  apply consumes_ret. split; [done|]. split; [cbn in Hl; lia|done].
Qed.
